(* ===== verification/_CoqProject ===== *)
-Q . S2P
Prelude.v
WriteBuffer.v
WriteBufferSpec.v
WriteBufferProps.v
GoStrings.v
InodeMap.v
Handles.v
EventBus.v
ReadCache.v
DirCache.v
LeaseQueue.v
SemanticQueue.v
FileGCQueue.v
Wal.v
PendingIndex.v
VaultScope.v
PathUtil.v
Json.v
Sha256.v
JournalDoc.v
JournalStore.v
JournalNorm.v
JournalProps.v
JournalVerify.v
JournalRun.v
FileStore.v
FileRules.v
FileSafety.v
Media.v
Backend.v
BackendSafety.v
BackendContent.v
Uploads.v
UploadSafety.v
FileGCWorker.v
ObjectSafety.v
UploadObjects.v
BackendPlans.v
StoreHistory.v
Namespace.v
UploadProps.v
PlanProps.v
QuotaStore.v
QuotaSync.v
QuotaLedger.v
QuotaProps.v
Shadow.v
ShadowProps.v
CommitQueue.v
CommitProps.v
CommitRun.v
AesGcm.v
JsonStruct.v
VaultToken.v
VaultStore.v
VaultServer.v
VaultSecrets.v
VaultSafety.v
VaultRun.v
FsAuth.v
FileRequests.v
FileServer.v
Confine.v
FileServerProps.v
ScopeProps.v
