(* ===== verification/Prelude.v ===== *)
(** * drive9: a verification library of its client and server core

    drive9 is a network drive: a FUSE client (src/pkg/fuse) that caches, buffers and
    uploads files, a server (src/pkg/server, src/pkg/backend) over a per-tenant SQL
    store (src/pkg/datastore) and object storage, background semantic workers
    (src/pkg/semantic), hash-chained audit journals (src/pkg/journal) and a secrets
    vault (src/pkg/vault).  This library models the components that keep state and
    proves what the others rely on.

    ** How the parts interact

    On the client, a file that is open for writing is a write buffer; its handle lives
    in the handle table and in the open-handle index, its inode in the inode table.  A
    rename on the namespace goes through the inode table and the open-handle index;
    lookups are answered from the directory cache and reads from the read cache, which
    are invalidated by the change events that the server's event bus distributes.  A
    buffer that is flushed but not yet uploaded is recorded in the pending index and
    in the write-ahead log, both of which a restarted client replays.

    On the server, the backend turns each request into transactions on the file store
    (names, files, tags, semantic rows) and calls to object storage; large files
    arrive as multipart uploads, whose confirmation replaces the content of a file.
    A file whose last name goes away is marked deleted and handed to the file-GC
    queue, whose worker deletes its object under a lease.  Content that changes makes
    the backend enqueue semantic tasks, which workers claim under leases.  A journal
    appends entries to a hash chain that anyone can verify.  Vault tokens carry scopes
    that every read of a secret is checked against.

    ** Files and what they model

    Shared:
    - [Prelude]: machine integers, byte slices with Go's [copy] and slicing, sums over
      maps, map iteration in any order ([iterates]), tactics, the hint database.
    - [GoStrings] (module [GoStr]): the functions of Go's [strings] package that are
      used, with the lemmas on path subtrees.
    - [PathUtil] (module [Paths]): pathutil/pathutil.go and mountpath/mountpath.go.
      Canonicalization is exact and idempotent, a mount maps its namespace one to one
      onto the remote subtree, a path is its parent followed by its base name.

    The client:
    - [WriteBuffer] (module [Buffer]): all of fuse/write.go.  The record [WriteBuffer]
      has the fields of the Go struct; a slice keeps its backing array, because
      re-slicing exposes old bytes; [OnPartFull] is one of the two closures that
      fuse/dat9fs.go installs.  [WriteBufferSpec] (module [BufferSpec]) has the
      well-formedness invariant, the file a buffer stands for ([fileByte]) and the
      effect of every operation on it; [WriteBufferProps] (module [BufferProps]) the
      theorems: a program of writes, truncations and reads behaves as on a flat POSIX
      file, a patch upload of the dirty parts rebuilds the file (where no spill closure
      evicts parts), streaming hands out
      each full part once and in order, reads of a materialized buffer are exact,
      errors leave what they document, snapshots restore; and two defects.
    - [InodeMap] (module [Inodes]): fuse/inode.go.  The two maps stay inverse of each
      other until a rename replaces a directory whose children are tracked, and in one
      direction even then; the exact effect of every rename on every path; reference
      counts drop entries exactly when they should, inode numbers are not reused.
    - [Handles] (modules [HandleTable], [OpenHandles]): fuse/handle.go and
      fuse/open_handles.go.  The index refines the set of open handles; renames
      retarget them.
    - [ReadCache]: fuse/read.go.  A hit is the last data put for that path and
      revision; eviction is least-recently-used and keeps the size bound.
    - [DirCache]: fuse/dir.go.  Lookups and listings agree with what the cache was
      told; a session-created directory that keeps the children of an earlier one.
    - [Wal]: fuse/journal.go.  Replay after a crash at any byte, compaction.
    - [PendingIndex] (module [Pending]): fuse/pending_index.go.  Recovery from the
      directory, except for the paths whose files a failed removal left or a rename of a
      path to itself lost; crash points of a rename.
    - [Shadow]: the local files a mount stages its writes in (fuse/shadow.go), over a
      directory with names, files and descriptors.  [ShadowProps]: any program of calls
      answers as a map from paths to files does, with pins that keep the bytes of a removed
      file; calls that break this.
    - [CommitQueue]: the background uploads (fuse/commit_queue.go, remote_upload.go), with
      workers as interleaved steps over the interfaces [ShadowOps] and [IndexOps].
      [CommitProps]: no entry is lost, local bytes go only when the server has them, the
      workers come to an end; [CommitRun]: the stores of [Shadow] and [PendingIndex] behind
      the interfaces, and runs with a deadlock and with lost bytes.

    Queues and events of the server:
    - [EventBus]: server/eventbus.go.  A client gets exactly the events it missed or
      is told to reset; no wake-up is lost.
    - [LeaseQueue]: what a queue with leases promises, as a class of operations
      ([LeaseOps]) with laws ([LeaseLaws]); the exclusion and fencing theorems are
      proved against it.  [SemanticQueue] (module [Queue], datastore/semantic_tasks.go
      over semantic/task.go) and [FileGCQueue] (module [FileGC],
      datastore/file_gc_tasks.go) are its two instances: claims take the oldest
      eligible task, leases are exclusive, stale receipts are fenced, recovery and
      retries.
    - [FileGCWorker]: backend/file_gc_worker.go, the batch loop over the file-GC queue,
      its retry delays.
    - [QuotaStore], [QuotaSync]: the central quota (meta/quota.go; backend's
      upload_reservation.go, quota_mutation.go, mutation_replay.go, expiry_sweep.go).
      [QuotaLedger]: what each call does to the accounts; [QuotaProps]: histories in which
      the central database may be lost at any time: the counters account exactly for the
      files, the outbox, what was missed, and what cleanups with stale metadata and aborts
      that were overtaken left over; replaying drains the outbox; reservations
      respect the limit; three races.

    Journals (pkg/journal and datastore/journal.go):
    - [Json] (module [Json]): the JSON values, Go's printer of canonical JSON and a
      parser; [Sha256]: the hash, executable.  [JournalDoc]: the documents and their
      hashes; [JournalNorm]: the normalization of requests; [JournalStore]: the tables
      and the calls on them; [JournalProps], [JournalVerify]: the chain invariant and
      what verification detects; [JournalRun]: histories of calls and the defects.

    Files (pkg/datastore/store.go, pkg/backend):
    - [FileStore]: the tables (file nodes, files, inodes, contents, semantic rows,
      tags, uploads), the error monad of a transaction and the calls of store.go that
      change names, files and tags.  [FileRules]: the rules for reasoning about a call
      ([wp], [respects]).  [FileSafety]: the invariant that names and files agree.
    - [Media], [Backend]: content types and classification, then dat9.go: create, write
      (replacing, appending, at an offset), mkdir, chmod, the removes, rename, copy (which
      makes another name of the same file), reads.  [BackendSafety]: every call keeps the invariant.
      [BackendContent] (module [Content]): what a write leaves to be read.
    - [Uploads]: multipart uploads (backend/upload.go, datastore's upload calls) from
      initiation to confirmation, resumption and abort; [UploadSafety]: they keep the
      invariant.
    - [ObjectSafety], [UploadObjects]: the invariant between the rows and the object
      store ([bytesOk]); [StoreHistory]: histories in which calls of the backend and
      steps of file-GC workers interleave.  Every name reads, the cleanup never deletes
      a live object and leaves none behind, the legacy columns agree with the new ones.
    - [Namespace]: the calls on whole subtrees.  LIKE patterns of a prefix, the climb to the
      root, exact effect of renaming and of removing a directory; defects on concrete
      trees.  [UploadProps]: the part layout of an upload; two races.
    - [BackendPlans] (module [Plans]): listings, the variants of Stat, read plans, and the
      plans of patch and append uploads (backend/patch.go).  [PlanProps]: following a read
      plan gives what a read through the backend gives; an append rebuilds the file from
      copied and uploaded parts; a confirmed upload is what every name of the file reads.

    The file API over HTTP (server/server.go, fs_authorization.go, tokens.go):
    - [FsAuth]: the scopes of a token, the matching of paths against them, the gate that
      decides which requests a scoped token may make at all.
    - [FileRequests] (module [FileReq]): headers and bodies of requests, over the struct
      decoder of [JsonStruct]; tags and checksums (tagutil/validate.go).
    - [FileServer]: the router and every file, batch and upload handler, as a function
      from the server, what the environment supplies and a request to the server
      afterwards and a response.
    - [Confine]: what a call of the backend leaves alone outside the paths it was called
      for.  [FileServerProps]: every request makes at most one call of the backend that
      changes anything, and the token was granted what that call demands.  [ScopeProps]:
      so a scoped token changes nothing outside its scopes, a GET serves the bytes of the
      file, what was put is what is read; and four ways around the confinement or the
      names, on concrete requests.

    The vault:
    - [VaultScope] (module [Scope]): vault/scope.go.  The views of a token's scope
      agree.
    - [AesGcm] (modules [Gcm], [B64]): AES-256-GCM and base64, executable and tested on
      published vectors; [JsonStruct]: how encoding/json codes a struct.
    - [VaultToken] (module [VToken]): capability tokens and grants on the wire
      (vault/crypto.go, grant_sign.go): claims survive signing, and what verifies carries
      the tag of its signing input.
    - [VaultStore] (module [VStore]): the tables and every call of vault/store.go and
      grant.go, in a monad over the tables and an environment of clock, identifiers,
      random bytes, lost connections and keys inserted by other servers.
      [VaultSecrets]: the secrets refine a map from tenant and name to plaintext fields.
    - [VaultServer] (module [VServer]): the HTTP handlers (server/vault.go) and the
      middleware for tokens (server/auth.go).  [VaultSafety]: what a handler keeps and
      what an answer reveals; [VaultRun]: servers that have served any requests.  A value
      is revealed only to a token that was issued for it, is in force and not revoked, a
      revocation is final, an issued grant verifies; defects.  That no tag is guessed is
      not assumed: the theorem names the case.

    ** Conventions

    Every operation of the Go code is a function with the same name on an explicit
    state; a mutex makes it atomic, and where the code does not hold one throughout (an
    append to the log, a rename of a pending entry) the model has the stages.  The clock, fresh identifiers, the order in
    which Go ranges over a map and the rows a transaction skips are arguments, so the
    theorems hold for all of them.  Errors are values of a sum or an option, panics the
    outcome [Panicked], [ErrPanic] or, at the HTTP server, [Aborted].  Integers are [Z] with the wrap-around of their width where it
    can matter ([wrap64], [wrapu64], [uint32]).

    The calls of the file store are written in an error monad over the tables;
    [InTx] discards the changes of a transaction that fails.  The environment of a
    call (clock, fresh identifiers, failures of the object store) is a record of
    arguments.  In [StoreHistory] the calls of the backend run one after another,
    while the claim and the finish of a file-GC worker are separate steps between
    which any calls run.

    Histories are step relations closed under reflexive-transitive closure ([rtc]) or
    folds over a list of calls, and invariants are proved by induction on them.  Code
    outside the repository enters through classes or section variables with the laws
    it documents: [Wal.JSONCodec] and [Pending.MetaCodec] for [encoding/json], the hash
    that names files, Unicode normalization and lower-casing, the system's table of
    MIME types, the printing of floats, how a JSON column is read back; each has a
    concrete instance.

    ** Fuel

    [Buffer.writeLoop] and [Buffer.readLoop] get one unit per byte, since each round
    moves at least one byte; [Buffer.writeDepth] and [Buffer.truncateDepth] one unit,
    since a migration to part mode happens once; [ReadCache.evictLoop] one per cached
    path; [Wal.scan] one per byte of the file; [GoStr.trimLeft] one per byte of the
    string; the JSON parser two per character and two more; the pages of a journal's
    verification one per entry and one more; the loop over the ancestors of a path and
    the match of a LIKE pattern one per character.  The theorems that state a result
    prove that the fuel is enough.

    ** Not modelled

    The FUSE protocol handlers and mount set-up (calls into go-fuse and the parts
    above), HTTP clients, middlewares, the SQL schemas and connection handling, metrics
    and logging, the command line: glue over libraries.  Of the backend: the signing of
    URLs (a presigned URL is the object and range it stands for), the in-memory queue of
    image extraction and the extractors.  Left out
    because its logic is that of libraries or of remote services: the search engine (its
    result is an argument of the search handlers), tenant provisioning, the SQL endpoint,
    the event stream, the metadata store of tenants and tokens, the retrying transfers of
    the client library.  Left for an extension of this library: the object GC worker, the
    semantic worker's extractors, and the debouncer and the write-back uploader of the
    client. *)

From Stdlib Require Export ZArith Lia.
From Stdlib Require Export Init.Byte.
From stdpp Require Export base gmap strings list fin_maps numbers sorting.
Export stdpp.list_basics.list stdpp.list_relations.list stdpp.list_monad.list stdpp.list_misc.list.
From Stdlib Require Strings.Byte.

#[export] Set Default Proof Using "Type".
#[global] Open Scope Z_scope.

(** ** Machine integers *)

(** Two's-complement wrap-around of Go's [int64]. *)
Definition wrap64 (z : Z) : Z := (z + 2 ^ 63) mod 2 ^ 64 - 2 ^ 63.

(** The largest [int64]. *)
Definition max_int64 : Z := 2 ^ 63 - 1.

Lemma wrap64_small z : - 2 ^ 63 <= z <= max_int64 -> wrap64 z = z.
Proof. unfold wrap64, max_int64. intros H. rewrite Z.mod_small; lia. Qed.

Lemma wrap64_range z : - 2 ^ 63 <= wrap64 z <= max_int64.
Proof.
  unfold wrap64, max_int64.
  pose proof (Z.mod_pos_bound (z + 2 ^ 63) (2 ^ 64) ltac:(lia)). lia.
Qed.

(** Wrap-around of Go's [uint64]. *)
Definition wrapu64 (z : Z) : Z := z mod 2 ^ 64.

Lemma wrapu64_small z : 0 <= z < 2 ^ 64 -> wrapu64 z = z.
Proof. intros. unfold wrapu64. by rewrite Z.mod_small. Qed.

(** ** Byte slices *)

Abbreviation bytes := (list byte).

#[global] Instance byte_eq_decision : EqDecision byte := Strings.Byte.byte_eq_dec.
#[global] Instance byte_inhabited : Inhabited byte := populate x00.

(** [int64(len(l))] *)
Definition zlen {A} (l : list A) : Z := Z.of_nat (length l).

(** The byte at index [i], zero outside the slice. *)
Definition nthb (l : bytes) (i : Z) : byte :=
  if decide (0 <= i) then default x00 (l !! Z.to_nat i) else x00.

(** [make([]byte, n)] *)
Definition gmake (n : Z) : bytes := replicate (Z.to_nat n) x00.

(** [copy(dst[off:], src)] as the new contents of [dst]. *)
Definition gcopy (dst : bytes) (off : Z) (src : bytes) : bytes :=
  take (Z.to_nat off) dst
    ++ take (length dst - Z.to_nat off) src
    ++ drop (Z.to_nat off + length src) dst.

(** [l[a:b]] *)
Definition gslice {A} (l : list A) (a b : Z) : list A :=
  take (Z.to_nat (b - a)) (drop (Z.to_nat a) l).

(** The [n] bytes of a reader function [f] from index [a] on. *)
Definition tabulate (f : Z -> byte) (a n : Z) : bytes :=
  f <$> seqZ a n.

(** ** Automation *)

Create HintDb drive9.

(** Case split on every [decide] of the goal, closing the arithmetic cases. *)
Ltac decide_all :=
  repeat (case_decide; try lia); try done.

(** Split the conditional of a Boolean Go guard into a proposition. *)
Ltac bool_prop :=
  repeat match goal with
  | H : (_ && _)%bool = true |- _ => apply andb_true_iff in H; destruct H
  | H : (_ || _)%bool = false |- _ => apply orb_false_iff in H; destruct H
  | H : (_ && _)%bool = false |- _ => apply andb_false_iff in H
  | H : (_ || _)%bool = true |- _ => apply orb_true_iff in H
  | H : negb _ = true |- _ => apply negb_true_iff in H
  | H : negb _ = false |- _ => apply negb_false_iff in H
  | H : (_ <? _) = true |- _ => apply Z.ltb_lt in H
  | H : (_ <? _) = false |- _ => apply Z.ltb_ge in H
  | H : (_ <=? _) = true |- _ => apply Z.leb_le in H
  | H : (_ <=? _) = false |- _ => apply Z.leb_gt in H
  | H : (_ =? _) = true |- _ => apply Z.eqb_eq in H
  | H : (_ =? _) = false |- _ => apply Z.eqb_neq in H
  | H : bool_decide _ = true |- _ => apply bool_decide_eq_true in H
  | H : bool_decide _ = false |- _ => apply bool_decide_eq_false in H
  end.

(** Destruct the condition of an innermost [if] of the goal. *)
Ltac case_if :=
  match goal with
  | |- context [if ?b then _ else _] =>
      lazymatch b with
      | context [if _ then _ else _] => fail
      | _ => lazymatch type of b with
             | bool => let E := fresh "Eif" in destruct b eqn:E
             end
      end
  end.

(** ** Lemmas on slices *)

Section slices.
Context {A : Type}.
Implicit Types l : list A.

Lemma zlen_nil : zlen (@nil A) = 0.
Proof. done. Qed.

Lemma zlen_nonneg l : 0 <= zlen l.
Proof. unfold zlen. lia. Qed.

Lemma zlen_app l1 l2 : zlen (l1 ++ l2) = zlen l1 + zlen l2.
Proof. unfold zlen. rewrite length_app. lia. Qed.

Lemma zlen_0_inv l : zlen l = 0 -> l = [].
Proof. destruct l; [done|]. unfold zlen. simpl. lia. Qed.

Lemma zlen_take l n : 0 <= n <= zlen l -> zlen (take (Z.to_nat n) l) = n.
Proof. unfold zlen. rewrite length_take. lia. Qed.

Lemma zlen_drop l n : 0 <= n <= zlen l -> zlen (drop (Z.to_nat n) l) = zlen l - n.
Proof. unfold zlen. rewrite length_drop. lia. Qed.

Lemma zlen_gslice l a b :
  0 <= a <= b -> b <= zlen l -> zlen (gslice l a b) = b - a.
Proof.
  intros. unfold gslice, zlen in *. rewrite length_take, length_drop. lia.
Qed.

End slices.

Lemma zlen_gmake n : 0 <= n -> zlen (gmake n) = n.
Proof. intros. unfold zlen, gmake. rewrite length_replicate. lia. Qed.

Lemma zlen_gcopy dst off src :
  0 <= off <= zlen dst -> zlen (gcopy dst off src) = zlen dst.
Proof.
  unfold zlen, gcopy. intros.
  rewrite !length_app, !length_take, length_drop. lia.
Qed.

Lemma zlen_tabulate f a n : 0 <= n -> zlen (tabulate f a n) = n.
Proof. intros. unfold zlen, tabulate. rewrite length_fmap, length_seqZ. lia. Qed.

#[export] Hint Resolve zlen_nonneg : drive9.

Lemma nthb_neg l i : i < 0 -> nthb l i = x00.
Proof. intros. unfold nthb. decide_all. Qed.

Lemma nthb_ge l i : zlen l <= i -> nthb l i = x00.
Proof.
  unfold nthb, zlen. intros. case_decide; [|done].
  rewrite lookup_ge_None_2; [done|lia].
Qed.

Lemma nthb_nil i : nthb [] i = x00.
Proof. unfold nthb. case_decide; [|done]. by rewrite lookup_nil. Qed.

Lemma nthb_lookup l i : 0 <= i < zlen l -> l !! Z.to_nat i = Some (nthb l i).
Proof.
  unfold nthb, zlen. intros. rewrite decide_True by lia.
  destruct (lookup_lt_is_Some_2 l (Z.to_nat i) ltac:(lia)) as [x Hx].
  by rewrite Hx.
Qed.

Lemma nthb_gmake n i : nthb (gmake n) i = x00.
Proof.
  unfold nthb, gmake. case_decide; [|done].
  destruct (replicate _ _ !! _) eqn:E; [|done].
  apply lookup_replicate in E as [-> _]. done.
Qed.

Lemma nthb_gcopy dst off src i :
  0 <= off <= zlen dst ->
  nthb (gcopy dst off src) i =
    if decide (off <= i < Z.min (off + zlen src) (zlen dst))
    then nthb src (i - off) else nthb dst i.
Proof.
  unfold nthb, gcopy, zlen. intros Hoff.
  destruct (decide (0 <= i)) as [Hi|Hi]; [|decide_all].
  destruct (decide (i < off)).
  { rewrite lookup_app_l by (rewrite length_take; lia).
    rewrite lookup_take_lt by lia. decide_all. }
  rewrite lookup_app_r by (rewrite length_take; lia). rewrite length_take.
  case_decide.
  - rewrite decide_True by lia.
    rewrite lookup_app_l by (rewrite length_take; lia).
    rewrite lookup_take_lt by lia. do 2 f_equal. lia.
  - rewrite lookup_app_r by (rewrite length_take; lia).
    rewrite length_take, lookup_drop.
    destruct (decide (i < Z.of_nat (length dst))).
    + do 2 f_equal. lia.
    + rewrite !lookup_ge_None_2; [done|lia|lia].
Qed.

Lemma nthb_gslice l a b i :
  0 <= a <= b ->
  nthb (gslice l a b) i = if decide (0 <= i < b - a) then nthb l (a + i) else x00.
Proof.
  unfold nthb, gslice. intros.
  destruct (decide (0 <= i)) as [Hi|Hi]; [|decide_all].
  case_decide.
  - rewrite decide_True by lia. rewrite lookup_take_lt by lia.
    rewrite lookup_drop. do 2 f_equal. lia.
  - rewrite lookup_take_ge by lia. done.
Qed.

Lemma nthb_take l n i :
  0 <= n ->
  nthb (take (Z.to_nat n) l) i = if decide (i < n) then nthb l i else x00.
Proof.
  unfold nthb. intros. destruct (decide (0 <= i)); [|decide_all].
  case_decide; [by rewrite lookup_take_lt by lia | by rewrite lookup_take_ge by lia].
Qed.

Lemma nthb_drop l n i :
  0 <= n -> nthb (drop (Z.to_nat n) l) i = if decide (0 <= i) then nthb l (n + i) else x00.
Proof.
  unfold nthb. intros. destruct (decide (0 <= i)); [|done].
  rewrite decide_True by lia. rewrite lookup_drop. do 2 f_equal. lia.
Qed.

Lemma nthb_tabulate f a n i :
  nthb (tabulate f a n) i = if decide (0 <= i < n) then f (a + i) else x00.
Proof.
  unfold nthb, tabulate. destruct (decide (0 <= i)); [|decide_all].
  rewrite list_lookup_fmap. case_decide.
  - rewrite lookup_seqZ_lt by lia. simpl. f_equal. lia.
  - rewrite lookup_seqZ_ge by lia. done.
Qed.

(** A copy into a fresh slice of the same length. *)
Lemma gcopy_clone d : gcopy (gmake (zlen d)) 0 d = d.
Proof.
  unfold gcopy, gmake, zlen. rewrite Nat2Z.id, length_replicate. simpl.
  rewrite Nat.sub_0_r, firstn_all, skipn_all2; [apply app_nil_r|].
  rewrite length_replicate. lia.
Qed.

(** Two slices of the same length with the same bytes are equal. *)
Lemma bytes_eq l1 l2 :
  zlen l1 = zlen l2 ->
  (forall i, 0 <= i < zlen l1 -> nthb l1 i = nthb l2 i) -> l1 = l2.
Proof.
  intros Hl H. apply list_eq. intros i.
  destruct (decide (Z.of_nat i < zlen l1)).
  - pose proof (nthb_lookup l1 (Z.of_nat i)) as E1.
    pose proof (nthb_lookup l2 (Z.of_nat i)) as E2.
    rewrite Nat2Z.id in *. rewrite E1, E2 by lia. rewrite H by lia. done.
  - unfold zlen in *. rewrite !lookup_ge_None_2 by lia. done.
Qed.

(** ** Sums over finite maps *)

Section map_sum.
Context {K V : Type} `{Countable K} (f : V -> Z).
Implicit Types m : gmap K V.

(** The sum of [f] over the values of [m]. *)
Definition map_sum m : Z := map_fold (fun _ v acc => f v + acc) 0 m.

Lemma map_sum_empty : map_sum ∅ = 0.
Proof. apply map_fold_empty. Qed.

Lemma map_sum_insert_new m k v :
  m !! k = None -> map_sum (<[k:=v]> m) = f v + map_sum m.
Proof. intros. unfold map_sum. rewrite map_fold_insert_L; [done|lia|done]. Qed.

Lemma map_sum_delete m k v :
  m !! k = Some v -> map_sum (delete k m) = map_sum m - f v.
Proof.
  intros. unfold map_sum. rewrite (map_fold_delete_L _ _ k v m); [lia|lia|done].
Qed.

Lemma map_sum_insert m k v :
  map_sum (<[k:=v]> m) = map_sum m + f v - default 0 (f <$> m !! k).
Proof.
  destruct (m !! k) eqn:E; simpl.
  - rewrite <- (insert_delete_eq m), map_sum_insert_new by apply lookup_delete_eq.
    rewrite (map_sum_delete m k v0) by done. lia.
  - rewrite map_sum_insert_new by done. lia.
Qed.

Lemma map_sum_nonneg m : (forall v, 0 <= f v) -> 0 <= map_sum m.
Proof.
  intros Hf. induction m as [|k v m Hm IH] using map_ind.
  - rewrite map_sum_empty. lia.
  - rewrite map_sum_insert_new by done. specialize (Hf v). lia.
Qed.

Lemma map_sum_zero m : (forall k v, m !! k = Some v -> f v = 0) -> map_sum m = 0.
Proof.
  induction m as [|k v m Hm IH] using map_ind; intros Hf; [apply map_sum_empty|].
  rewrite map_sum_insert_new, (Hf k v) by (done || apply lookup_insert_eq). rewrite IH; [done|]. intros k' v' Hk'.
  apply (Hf k'). rewrite lookup_insert_ne; [done|]. congruence.
Qed.

End map_sum.

Lemma alter_is_insert {K A : Type} `{Countable K} (g : A -> A) k (m : gmap K A) x :
  m !! k = Some x -> alter g k m = <[k := g x]> m.
Proof.
  intros Hk. apply map_eq. intros k'. destruct (decide (k' = k)) as [->|Hne].
  - by rewrite lookup_alter_eq, lookup_insert_eq, Hk.
  - by rewrite lookup_alter_ne, lookup_insert_ne.
Qed.

(** ** Conditional loops *)

(** [foldl] with an invariant on the accumulator. *)
Lemma foldl_inv {A B} (P : B -> Prop) (step : B -> A -> B) (l : list A) b :
  P b -> (forall b a, a ∈ l -> P b -> P (step b a)) -> P (foldl step b l).
Proof.
  revert b. induction l as [|a l IH]; simpl; intros b Hb Hstep; [done|].
  apply IH; [apply Hstep; set_solver|]. intros. apply Hstep; set_solver.
Qed.

(** [omap] of a function that is defined on every element. *)
Lemma omap_fmap {A B} (f : A -> option B) (g : A -> B) (l : list A) :
  (forall x, x ∈ l -> f x = Some (g x)) -> omap f l = g <$> l.
Proof.
  induction l as [|x l IH]; intros H; [done|]. simpl.
  rewrite (H x) by set_solver. f_equal. apply IH. set_solver.
Qed.

(** Two facts on all elements give a third. *)
Lemma Forall_impl2 {A} (P Q R : A -> Prop) l :
  Forall P l -> Forall Q l -> (forall x, P x -> Q x -> R x) -> Forall R l.
Proof. intros HP HQ Himpl. induction HP; inversion HQ; constructor; auto. Qed.

(** A filter that every element passes. *)
Lemma filter_keeps_all {A} (P : A -> Prop) `{!forall x, Decision (P x)} l :
  Forall P l -> filter P l = l.
Proof.
  induction 1 as [|x l Hx _ IH]; [done|]. rewrite filter_cons_True by done. by rewrite IH.
Qed.

(** ** Map iteration *)

(** [order] is an order in which Go may range over a map: every pair once. *)
Definition iterates {K V} `{Countable K} (order : gmap K V -> list (K * V)) : Prop :=
  forall m, order m ≡ₚ map_to_list m.

Lemma iterates_map_to_list {K V} `{Countable K} : iterates (@map_to_list K V (gmap K V) _).
Proof. by intros m. Qed.

Lemma iterates_elem {K V} `{Countable K} (order : gmap K V -> list (K * V)) m k v :
  iterates order -> (k, v) ∈ order m <-> m !! k = Some v.
Proof. intros Ho. rewrite (Ho m). apply elem_of_map_to_list. Qed.

Lemma iterates_NoDup {K V} `{Countable K} (order : gmap K V -> list (K * V)) m :
  iterates order -> NoDup (order m).
Proof. intros Ho. rewrite (Ho m). apply NoDup_map_to_list. Qed.

(** ** Numbers as bytes *)

(** One byte per bit of a number: the encoding of the concrete codecs. *)
Fixpoint bitBytes (p : positive) : bytes :=
  match p with
  | xH => []
  | xO p => x00 :: bitBytes p
  | xI p => x01 :: bitBytes p
  end.
Fixpoint bytesBits (b : bytes) : option positive :=
  match b with
  | [] => Some xH
  | x00 :: b => xO <$> bytesBits b
  | x01 :: b => xI <$> bytesBits b
  | _ => None
  end.

Lemma bytesBits_bitBytes p : bytesBits (bitBytes p) = Some p.
Proof. induction p; simpl; by rewrite ?IHp. Qed.

(** ** Sorting *)

Section sorting.
Context {A : Type} (lt : A -> A -> bool).
Implicit Types l : list A.

Fixpoint insertBy (x : A) l : list A :=
  match l with
  | [] => [x]
  | y :: l' => if lt y x then y :: insertBy x l' else x :: l
  end.

(** [sort.Slice] by a strict order. *)
Definition sortBy l : list A := foldr insertBy [] l.

Lemma insertBy_perm x l : insertBy x l ≡ₚ x :: l.
Proof.
  induction l as [|y l IH]; [done|]. simpl. destruct (lt y x); [|done].
  rewrite IH. apply Permutation_swap.
Qed.

Lemma sortBy_perm l : sortBy l ≡ₚ l.
Proof. induction l as [|x l IH]; [done|]. simpl. by rewrite insertBy_perm, IH. Qed.

Lemma sortBy_sorted_id l : StronglySorted (fun x y => lt x y = true) l ->
  (forall x y, lt x y = true -> lt y x = false) -> sortBy l = l.
Proof.
  intros Hs Hasym. induction Hs as [|x l Hs IH Hx]; [done|]. simpl. rewrite IH.
  destruct l as [|y l]; [done|]. simpl. apply Forall_cons in Hx as [Hx _]. by rewrite (Hasym x y).
Qed.

(** The elements are sorted when the order decides between any two of them. *)
Lemma sortBy_sorted l :
  NoDup l -> (forall x y z, lt x y = true -> lt y z = true -> lt x z = true) ->
  (forall x y, x ∈ l -> y ∈ l -> x = y \/ lt x y = true \/ lt y x = true) ->
  StronglySorted (fun x y => lt x y = true) (sortBy l).
Proof.
  intros Hnd Htr. induction Hnd as [|x l Hx Hnd IH]; intros Htot; [constructor|]. simpl.
  specialize (IH ltac:(intros; apply Htot; set_solver)).
  assert (forall y, y ∈ sortBy l -> lt x y = true \/ lt y x = true) as Hxy.
  { intros y Hy. rewrite sortBy_perm in Hy.
    destruct (Htot x y) as [->|[?|?]]; [set_solver..|done|by left|by right]. }
  induction IH as [|y l' Hs IH Hy]; simpl; [repeat constructor|].
  destruct (lt y x) eqn:E.
  - constructor.
    + apply IH. intros z Hz. apply Hxy. set_solver.
    + rewrite insertBy_perm. by constructor.
  - assert (lt x y = true) as Hlt by (destruct (Hxy y); [set_solver|done|congruence]).
    constructor; [by constructor|]. constructor; [done|].
    eapply Forall_impl; [exact Hy|]. intros z Hz. by apply (Htr x y z).
Qed.

(** Two orders of the same elements sort to the same list. *)
Lemma sortBy_unique l l' :
  (forall x, lt x x = false) -> (forall x y z, lt x y = true -> lt y z = true -> lt x z = true) ->
  NoDup l -> (forall x y, x ∈ l -> y ∈ l -> x = y \/ lt x y = true \/ lt y x = true) ->
  l ≡ₚ l' -> sortBy l = sortBy l'.
Proof.
  intros Hirr Htr Hnd Htot Hp. apply (StronglySorted_unique_strong (fun x y => lt x y = true)).
  - intros x y _ _ Hxy Hyx. pose proof (Htr _ _ _ Hxy Hyx) as H. by rewrite Hirr in H.
  - by apply sortBy_sorted.
  - apply sortBy_sorted; [by rewrite <- Hp|done|]. intros x y. rewrite <- Hp. apply Htot.
  - by rewrite !sortBy_perm.
Qed.

End sorting.

Lemma sortBy_fmap {A B} (ltA : A -> A -> bool) (ltB : B -> B -> bool) (f : A -> B) l :
  (forall x y, ltB (f x) (f y) = ltA x y) -> sortBy ltB (f <$> l) = f <$> sortBy ltA l.
Proof.
  intros Hf. induction l as [|x l IH]; [done|]. rewrite fmap_cons.
  change (sortBy ltB (f x :: (f <$> l))) with (insertBy ltB (f x) (sortBy ltB (f <$> l))).
  change (sortBy ltA (x :: l)) with (insertBy ltA x (sortBy ltA l)). rewrite IH. generalize (sortBy ltA l).
  intros l0. induction l0 as [|y l0 IH0]; [done|]. rewrite fmap_cons. cbn [insertBy]. rewrite Hf.
  destruct (ltA y x); [|done]. by rewrite fmap_cons, IH0.
Qed.
