(* ===== verification/WriteBuffer.v ===== *)
(** * The FUSE write buffer

    Model of [src/pkg/fuse/write.go]: the per-handle buffer that accumulates
    writes of one file, either in one contiguous small-file slice or in a sparse
    map of fixed-size parts.  Every method of [WriteBuffer] is a definition here;
    the abstract file it implements and the refinement theorems are in
    [WriteBufferSpec].

    A [[]byte] value is a [list byte]; a nil slice is the empty list, except for
    [smallFileData], whose nil-ness selects the mode and which is an [option] of a
    slice with its backing array, because the code re-slices it in place and has
    to clear what an earlier truncation left behind.  [map[int]T] is [gmap Z T].
    Go's [/] and [%] are [Z.quot] and [Z.rem].  A Go run-time panic is the outcome
    [Panicked].  The remote loader is the function [LoadPart] holds; the two
    closures [dat9fs.go] installs as [OnPartFull] are the constructors of
    [on_part_full]. *)

From S2P Require Import Prelude.

Module Buffer.

(** ** Data *)

Inductive wb_error :=
  | EFBIG
  | LoadError (msg : string).

(** The outcome of a call: the returned count, an error with the count written so
    far, or a run-time panic.  [OutOfFuel] is a model artefact that
    [WriteBufferSpec] proves unreachable. *)
Inductive outcome :=
  | Done (n : Z)
  | Failed (n : Z) (e : wb_error)
  | Panicked
  | OutOfFuel.

(** What the installed [OnPartFull] closure does with a full part: evict it (the
    shadow file already has the bytes) or hand a copy to the stream uploader. *)
Inductive on_part_full :=
  | ShadowSpillEvict
  | StreamSubmit.

(** A Go slice over its backing array: [cap] is the length of [backing]. *)
Record slice := Slice { backing : bytes; slen : Z }.

Definition nil_slice : slice := Slice [] 0.

(** The bytes a slice exposes. *)
Definition contents (s : slice) : bytes := gslice (backing s) 0 (slen s).

Definition cap (s : slice) : Z := zlen (backing s).

(** [clear(b[from:to])] on the contents of a backing array. *)
Definition clear_range (b : bytes) (from to : Z) : bytes :=
  gcopy b from (gmake (to - from)).

Record WriteBuffer := {
  path : string;
  totalSize : Z;
  maxSize : Z;
  partSize : Z;
  smallFileMax : Z;
  parts : gmap Z bytes;
  dirtyParts : gmap Z bool;
  touched : bool;
  LoadPart : option (Z -> bytes + wb_error);
  remoteSize : Z;
  curMemory : Z;
  appendCursor : Z;
  sequential : bool;
  uploadedParts : option (gmap Z bool);
  OnPartFull : option on_part_full;
  smallFileData : option slice
}.

(** *** Field updates *)

Definition set_totalSize (v : Z) (s : WriteBuffer) : WriteBuffer :=
  {| path := path s; totalSize := v; maxSize := maxSize s; partSize := partSize s;
     smallFileMax := smallFileMax s; parts := parts s; dirtyParts := dirtyParts s;
     touched := touched s; LoadPart := LoadPart s; remoteSize := remoteSize s;
     curMemory := curMemory s; appendCursor := appendCursor s; sequential := sequential s;
     uploadedParts := uploadedParts s; OnPartFull := OnPartFull s;
     smallFileData := smallFileData s |}.
Definition set_smallFileMax (v : Z) (s : WriteBuffer) : WriteBuffer :=
  {| path := path s; totalSize := totalSize s; maxSize := maxSize s; partSize := partSize s;
     smallFileMax := v; parts := parts s; dirtyParts := dirtyParts s; touched := touched s;
     LoadPart := LoadPart s; remoteSize := remoteSize s; curMemory := curMemory s;
     appendCursor := appendCursor s; sequential := sequential s;
     uploadedParts := uploadedParts s; OnPartFull := OnPartFull s;
     smallFileData := smallFileData s |}.
Definition set_parts (v : gmap Z bytes) (s : WriteBuffer) : WriteBuffer :=
  {| path := path s; totalSize := totalSize s; maxSize := maxSize s; partSize := partSize s;
     smallFileMax := smallFileMax s; parts := v; dirtyParts := dirtyParts s;
     touched := touched s; LoadPart := LoadPart s; remoteSize := remoteSize s;
     curMemory := curMemory s; appendCursor := appendCursor s; sequential := sequential s;
     uploadedParts := uploadedParts s; OnPartFull := OnPartFull s;
     smallFileData := smallFileData s |}.
Definition set_dirtyParts (v : gmap Z bool) (s : WriteBuffer) : WriteBuffer :=
  {| path := path s; totalSize := totalSize s; maxSize := maxSize s; partSize := partSize s;
     smallFileMax := smallFileMax s; parts := parts s; dirtyParts := v; touched := touched s;
     LoadPart := LoadPart s; remoteSize := remoteSize s; curMemory := curMemory s;
     appendCursor := appendCursor s; sequential := sequential s;
     uploadedParts := uploadedParts s; OnPartFull := OnPartFull s;
     smallFileData := smallFileData s |}.
Definition set_touched (v : bool) (s : WriteBuffer) : WriteBuffer :=
  {| path := path s; totalSize := totalSize s; maxSize := maxSize s; partSize := partSize s;
     smallFileMax := smallFileMax s; parts := parts s; dirtyParts := dirtyParts s;
     touched := v; LoadPart := LoadPart s; remoteSize := remoteSize s;
     curMemory := curMemory s; appendCursor := appendCursor s; sequential := sequential s;
     uploadedParts := uploadedParts s; OnPartFull := OnPartFull s;
     smallFileData := smallFileData s |}.
Definition set_curMemory (v : Z) (s : WriteBuffer) : WriteBuffer :=
  {| path := path s; totalSize := totalSize s; maxSize := maxSize s; partSize := partSize s;
     smallFileMax := smallFileMax s; parts := parts s; dirtyParts := dirtyParts s;
     touched := touched s; LoadPart := LoadPart s; remoteSize := remoteSize s; curMemory := v;
     appendCursor := appendCursor s; sequential := sequential s;
     uploadedParts := uploadedParts s; OnPartFull := OnPartFull s;
     smallFileData := smallFileData s |}.
Definition set_appendCursor (v : Z) (s : WriteBuffer) : WriteBuffer :=
  {| path := path s; totalSize := totalSize s; maxSize := maxSize s; partSize := partSize s;
     smallFileMax := smallFileMax s; parts := parts s; dirtyParts := dirtyParts s;
     touched := touched s; LoadPart := LoadPart s; remoteSize := remoteSize s;
     curMemory := curMemory s; appendCursor := v; sequential := sequential s;
     uploadedParts := uploadedParts s; OnPartFull := OnPartFull s;
     smallFileData := smallFileData s |}.
Definition set_sequential (v : bool) (s : WriteBuffer) : WriteBuffer :=
  {| path := path s; totalSize := totalSize s; maxSize := maxSize s; partSize := partSize s;
     smallFileMax := smallFileMax s; parts := parts s; dirtyParts := dirtyParts s;
     touched := touched s; LoadPart := LoadPart s; remoteSize := remoteSize s;
     curMemory := curMemory s; appendCursor := appendCursor s; sequential := v;
     uploadedParts := uploadedParts s; OnPartFull := OnPartFull s;
     smallFileData := smallFileData s |}.
Definition set_uploadedParts (v : option (gmap Z bool)) (s : WriteBuffer) : WriteBuffer :=
  {| path := path s; totalSize := totalSize s; maxSize := maxSize s; partSize := partSize s;
     smallFileMax := smallFileMax s; parts := parts s; dirtyParts := dirtyParts s;
     touched := touched s; LoadPart := LoadPart s; remoteSize := remoteSize s;
     curMemory := curMemory s; appendCursor := appendCursor s; sequential := sequential s;
     uploadedParts := v; OnPartFull := OnPartFull s; smallFileData := smallFileData s |}.
Definition set_smallFileData (v : option slice) (s : WriteBuffer) : WriteBuffer :=
  {| path := path s; totalSize := totalSize s; maxSize := maxSize s; partSize := partSize s;
     smallFileMax := smallFileMax s; parts := parts s; dirtyParts := dirtyParts s;
     touched := touched s; LoadPart := LoadPart s; remoteSize := remoteSize s;
     curMemory := curMemory s; appendCursor := appendCursor s; sequential := sequential s;
     uploadedParts := uploadedParts s; OnPartFull := OnPartFull s; smallFileData := v |}.

Definition defaultWriteBufferMaxSize : Z := Z.shiftl 64 20.
Definition streamingWriteMaxSize : Z := Z.shiftl 10 30.
Definition DefaultPartSize : Z := Z.shiftl 8 20.
Definition maxPreloadSize : Z := Z.shiftl 1 30.
Definition defaultSmallFileThreshold : Z := 50000.

(** [uint32(n)] *)
Definition uint32 (n : Z) : Z := n mod 2 ^ 32.

(** [wb.uploadedParts != nil && wb.uploadedParts[i]] *)
Definition isUploaded (wb : WriteBuffer) (i : Z) : bool :=
  match uploadedParts wb with
  | None => false
  | Some m => default false (m !! i)
  end.

(** The number of parts that cover [n] bytes. *)
Definition partCount (wb : WriteBuffer) (n : Z) : Z :=
  Z.quot (n + partSize wb - 1) (partSize wb).

(** ** Snapshots *)

Record writeBufferSnapshot := {
  s_path : string;
  s_totalSize : Z;
  s_maxSize : Z;
  s_partSize : Z;
  s_smallFileMax : Z;
  s_parts : gmap Z bytes;
  s_dirtyParts : gmap Z bool;
  s_touched : bool;
  s_LoadPart : option (Z -> bytes + wb_error);
  s_remoteSize : Z;
  s_curMemory : Z;
  s_appendCursor : Z;
  s_sequential : bool;
  s_uploadedParts : option (gmap Z bool);
  s_OnPartFull : option on_part_full;
  s_smallFileData : option slice
}.

(** [cloneBytes] of a slice allocates exactly its length. *)
Definition cloneBytes (s : option slice) : option slice :=
  match s with
  | None => None
  | Some s => Some (Slice (gcopy (gmake (slen s)) 0 (contents s)) (slen s))
  end.

(** [cloneByteMap] and [cloneBoolMap]: a fresh map with every pair of [src]. *)
Definition cloneMap {V} (src : gmap Z V) : gmap Z V :=
  map_fold (fun k v dst => <[k := v]> dst) ∅ src.

Definition snapshot (owb : option WriteBuffer) : option writeBufferSnapshot :=
  match owb with
  | None => None
  | Some wb => Some {|
      s_path := path wb;
      s_totalSize := totalSize wb;
      s_maxSize := maxSize wb;
      s_partSize := partSize wb;
      s_smallFileMax := smallFileMax wb;
      s_parts := cloneMap (parts wb);
      s_dirtyParts := cloneMap (dirtyParts wb);
      s_touched := touched wb;
      s_LoadPart := LoadPart wb;
      s_remoteSize := remoteSize wb;
      s_curMemory := curMemory wb;
      s_appendCursor := appendCursor wb;
      s_sequential := sequential wb;
      s_uploadedParts := cloneMap <$> uploadedParts wb;
      s_OnPartFull := OnPartFull wb;
      s_smallFileData := cloneBytes (smallFileData wb) |}
  end.

Definition restore (owb : option WriteBuffer) (osnap : option writeBufferSnapshot)
    : option WriteBuffer :=
  match owb, osnap with
  | Some _, Some snap => Some {|
      path := s_path snap;
      totalSize := s_totalSize snap;
      maxSize := s_maxSize snap;
      partSize := s_partSize snap;
      smallFileMax := s_smallFileMax snap;
      parts := cloneMap (s_parts snap);
      dirtyParts := cloneMap (s_dirtyParts snap);
      touched := s_touched snap;
      LoadPart := s_LoadPart snap;
      remoteSize := s_remoteSize snap;
      curMemory := s_curMemory snap;
      appendCursor := s_appendCursor snap;
      sequential := s_sequential snap;
      uploadedParts := cloneMap <$> s_uploadedParts snap;
      OnPartFull := s_OnPartFull snap;
      smallFileData := cloneBytes (s_smallFileData snap) |}
  | _, _ => owb
  end.

(** ** Construction *)

Definition NewWriteBuffer (p : string) (maxSz partSz : Z) : WriteBuffer := {|
  path := p;
  totalSize := 0;
  maxSize := if maxSz <=? 0 then defaultWriteBufferMaxSize else maxSz;
  partSize := if partSz <=? 0 then DefaultPartSize else partSz;
  smallFileMax := defaultSmallFileThreshold;
  parts := ∅;
  dirtyParts := ∅;
  touched := false;
  LoadPart := None;
  remoteSize := 0;
  curMemory := 0;
  appendCursor := 0;
  sequential := false;
  uploadedParts := None;
  OnPartFull := None;
  smallFileData := None |}.

Definition SetSmallFileMax (wb : WriteBuffer) (threshold : Z) : WriteBuffer :=
  if threshold <=? 0 then wb else set_smallFileMax threshold wb.

(** ** Parts *)

(** [migrateToPartMode]: move the small-file bytes to part 0. *)
Definition migrateToPartMode (wb : WriteBuffer) : WriteBuffer :=
  let s := default nil_slice (smallFileData wb) in
  if slen s =? 0 then set_smallFileData None wb
  else
    let wb := set_parts (<[0 := gcopy (gmake (slen s)) 0 (contents s)]> (parts wb)) wb in
    let wb := set_curMemory (slen s) wb in
    set_smallFileData None wb.

(** [ensurePart]: recreate an evicted part as zeros, load a remote part, or create
    an empty one. *)
Definition ensurePart (wb : WriteBuffer) (partIdx : Z) : WriteBuffer * option wb_error :=
  match smallFileData wb with
  | Some _ => (wb, None)
  | None =>
      match parts wb !! partIdx with
      | Some _ => (wb, None)
      | None =>
          if isUploaded wb partIdx then
            (set_curMemory (curMemory wb + partSize wb)
               (set_parts (<[partIdx := gmake (partSize wb)]> (parts wb)) wb), None)
          else
            let create := (set_parts (<[partIdx := []]> (parts wb)) wb, None) in
            match LoadPart wb with
            | Some load =>
                if partIdx * partSize wb <? remoteSize wb then
                  match load (partIdx + 1) with
                  | inr err => (wb, Some err)
                  | inl data =>
                      (set_curMemory (curMemory wb + zlen data)
                         (set_parts (<[partIdx := data]> (parts wb)) wb), None)
                  end
                else create
            | None => create
            end
      end
  end.

Definition EnsureLoaded (wb : WriteBuffer) (partIdx : Z) : WriteBuffer * option wb_error :=
  ensurePart wb partIdx.

(** [markDirty]: every part that overlaps [start, end). *)
Definition markDirty (wb : WriteBuffer) (start end_ : Z) : WriteBuffer :=
  let firstPart := Z.quot start (partSize wb) in
  let lastPart := Z.quot (end_ - 1) (partSize wb) in
  if end_ <=? start then wb
  else set_dirtyParts
         (foldl (fun d i => <[i := true]> d) (dirtyParts wb)
            (seqZ firstPart (lastPart + 1 - firstPart))) wb.

(** [EvictPart]: record the part as uploaded and release its memory. *)
Definition EvictPart (wb : WriteBuffer) (partIdx : Z) : WriteBuffer :=
  let up := default ∅ (uploadedParts wb) in
  let wb := set_uploadedParts (Some (<[partIdx := true]> up)) wb in
  let wb := match smallFileData wb with
            | Some _ => migrateToPartMode wb
            | None => wb
            end in
  match parts wb !! partIdx with
  | Some part =>
      set_parts (delete partIdx (parts wb)) (set_curMemory (curMemory wb - zlen part) wb)
  | None => wb
  end.

(** ** Write *)

(** One iteration of the loop of [Write]: the part, the offset in it, the bytes of
    [data] from [dataOff] on that fit.  Returns the number of bytes written. *)
Definition writeChunk (wb : WriteBuffer) (pos : Z) (data : bytes) (dataOff : Z)
    : WriteBuffer * (Z + outcome) :=
  let partIdx := Z.quot pos (partSize wb) in
  let partOff := Z.rem pos (partSize wb) in
  match ensurePart wb partIdx with
  | (wb, Some err) => (wb, inr (Failed (uint32 dataOff) err))
  | (wb, None) =>
      let part := default [] (parts wb !! partIdx) in
      let canWrite := partSize wb - partOff in
      let remaining := zlen data - dataOff in
      let canWrite := if remaining <? canWrite then remaining else canWrite in
      let neededLen := partOff + canWrite in
      let '(wb, part) :=
        if zlen part <? neededLen then
          let neededLen := if partSize wb <? neededLen then partSize wb else neededLen in
          let grown := gcopy (gmake neededLen) 0 part in
          (set_parts (<[partIdx := grown]> (parts wb))
             (set_curMemory (curMemory wb + (neededLen - zlen part)) wb), grown)
        else (wb, part) in
      if partOff <? 0 then (wb, inr Panicked)
      else
        let part := gcopy part partOff (gslice data dataOff (dataOff + canWrite)) in
        let wb := set_parts (<[partIdx := part]> (parts wb)) wb in
        let wb := set_dirtyParts (<[partIdx := true]> (dirtyParts wb)) wb in
        (wb, inl canWrite)
  end.

(** The loop of [Write] over the parts; it ends with [Done] of the bytes written. *)
Fixpoint writeLoop (fuel : nat) (wb : WriteBuffer) (pos : Z) (data : bytes) (dataOff : Z)
    : WriteBuffer * outcome :=
  if dataOff <? zlen data then
    match fuel with
    | O => (wb, OutOfFuel)
    | S fuel =>
        match writeChunk wb pos data dataOff with
        | (wb, inr o) => (wb, o)
        | (wb, inl canWrite) => writeLoop fuel wb (pos + canWrite) data (dataOff + canWrite)
        end
    end
  else (wb, Done dataOff).

(** The sequential-write cursor after a write of [offset, end). *)
Definition advanceCursor (wb : WriteBuffer) (offset end_ : Z) : WriteBuffer :=
  if offset =? appendCursor wb then set_appendCursor end_ wb
  else if appendCursor wb <? offset then set_appendCursor end_ wb
  else set_sequential false wb.

(** One iteration of the loop that reports full parts to [OnPartFull]; the second
    component collects what is handed to the stream uploader. *)
Definition notifyPart (st : WriteBuffer * list (Z * bytes)) (p : Z)
    : WriteBuffer * list (Z * bytes) :=
  let '(wb, submitted) := st in
  if isUploaded wb p then st
  else
    match parts wb !! p with
    | Some part =>
        if zlen part =? partSize wb then
          match OnPartFull wb with
          | Some ShadowSpillEvict => (EvictPart wb p, submitted)
          | Some StreamSubmit => (wb, submitted ++ [(p, part)])
          | None => st
          end
        else st
    | None => st
    end.

Definition notifyFullParts (wb : WriteBuffer) (prevCursor : Z) : WriteBuffer * list (Z * bytes) :=
  match OnPartFull wb with
  | Some _ =>
      if sequential wb && (prevCursor <? appendCursor wb) then
        let prevCursor := if prevCursor <? 0 then 0 else prevCursor in
        let firstCandidate := Z.quot prevCursor (partSize wb) in
        let numFullParts := Z.quot (appendCursor wb) (partSize wb) in
        foldl notifyPart (wb, []) (seqZ firstCandidate (numFullParts - firstCandidate))
      else (wb, [])
  | None => (wb, [])
  end.

(** The part-mode body of [Write]. *)
Definition writePartMode (wb : WriteBuffer) (offset : Z) (data : bytes)
    : WriteBuffer * outcome * list (Z * bytes) :=
  let end_ := wrap64 (offset + zlen data) in
  let wb := if totalSize wb <? end_ then set_totalSize end_ wb else wb in
  match writeLoop (length data) wb offset data 0 with
  | (wb, Done _) =>
      let wb := set_touched true wb in
      let prevCursor := appendCursor wb in
      let wb := advanceCursor wb offset end_ in
      let '(wb, submitted) := notifyFullParts wb prevCursor in
      (wb, Done (uint32 (zlen data)), submitted)
  | (wb, o) => (wb, o, [])
  end.

(** The slice [writeSmallFile] works on, grown or re-sliced to [needLen] and with
    the bytes past the old length cleared; [None] when growing would slice past
    the new capacity. *)
Definition growSmall (wb : WriteBuffer) (needLen : Z) : option (option slice) :=
  let s := default nil_slice (smallFileData wb) in
  let oldLen := slen s in
  let grown :=
    if cap s <? needLen then
      let newCap := needLen in
      let newCap := if newCap <? 1024 then 1024 else newCap in
      let newCap := if newCap <? 2 * cap s then 2 * cap s else newCap in
      let newCap := if smallFileMax wb <? newCap then smallFileMax wb else newCap in
      if newCap <? needLen then None
      else Some (Some (Slice (gcopy (gmake newCap) 0 (contents s)) needLen))
    else if slen s <? needLen then Some (Some (Slice (backing s) needLen))
    else Some (smallFileData wb) in
  match grown with
  | Some (Some s) =>
      if oldLen <? slen s
      then Some (Some (Slice (clear_range (backing s) oldLen (slen s)) (slen s)))
      else Some (Some s)
  | g => g
  end.

(** [writeSmallFile]; [rec] is the [Write] it retries after the migration. *)
Definition writeSmallFile
    (rec : WriteBuffer -> Z -> bytes -> WriteBuffer * outcome * list (Z * bytes))
    (wb : WriteBuffer) (offset : Z) (data : bytes)
    : WriteBuffer * outcome * list (Z * bytes) :=
  let end_ := wrap64 (offset + zlen data) in
  if maxSize wb <? end_ then (wb, Failed 0 EFBIG, [])
  else if smallFileMax wb <? end_ then rec (migrateToPartMode wb) offset data
  else
    let needLen := if end_ <? totalSize wb then totalSize wb else end_ in
    match growSmall wb needLen with
    | None => (wb, Panicked, [])
    | Some os =>
        let s := default nil_slice os in
        if (offset <? 0) || (slen s <? offset) then (wb, Panicked, [])
        else
          let b := gcopy (backing s) offset (take (Z.to_nat (slen s - offset)) data) in
          let wb := set_smallFileData (match os with
                                       | Some _ => Some (Slice b (slen s))
                                       | None => None
                                       end) wb in
          let wb := if totalSize wb <? end_ then set_totalSize end_ wb else wb in
          let wb := set_touched true wb in
          let wb := set_dirtyParts (<[0 := true]> (dirtyParts wb)) wb in
          let wb := advanceCursor wb offset end_ in
          (wb, Done (uint32 (zlen data)), [])
    end.

(** The guard of the small-file fast path. *)
Definition useSmallFile (wb : WriteBuffer) (end_ : Z) : bool :=
  match smallFileData wb with
  | Some _ => true
  | None =>
      (smallFileMax wb <=? partSize wb) && bool_decide (parts wb = ∅)
        && match LoadPart wb with None => true | Some _ => false end
        && (end_ <=? smallFileMax wb) && (totalSize wb <=? smallFileMax wb)
  end.

Fixpoint writeDepth (depth : nat) (wb : WriteBuffer) (offset : Z) (data : bytes)
    : WriteBuffer * outcome * list (Z * bytes) :=
  let end_ := wrap64 (offset + zlen data) in
  if maxSize wb <? end_ then (wb, Failed 0 EFBIG, [])
  else if useSmallFile wb end_ then
    match depth with
    | O => (wb, OutOfFuel, [])
    | S depth => writeSmallFile (writeDepth depth) wb offset data
    end
  else writePartMode wb offset data.

(** [Write]: [writeSmallFile] retries at most once. *)
Definition Write (wb : WriteBuffer) (offset : Z) (data : bytes)
    : WriteBuffer * outcome * list (Z * bytes) :=
  writeDepth 1 wb offset data.

(** ** Truncate *)

(** One iteration of the loop that removes the parts from [newPartCount] on. *)
Definition dropPart (newPartCount : Z) (wb : WriteBuffer) (kv : Z * bytes) : WriteBuffer :=
  let idx := fst kv in
  if newPartCount <=? idx then
    let wb := set_curMemory (curMemory wb - zlen (default [] (parts wb !! idx))) wb in
    let wb := set_parts (delete idx (parts wb)) wb in
    set_dirtyParts (delete idx (dirtyParts wb)) wb
  else wb.

(** The [size < cur] branch of [Truncate] in part mode. *)
Definition shrinkParts (wb : WriteBuffer) (size cur : Z) : WriteBuffer :=
  let wb := if 0 <? size then markDirty wb size cur else markDirty wb 0 cur in
  let newPartCount := partCount wb size in
  let wb := foldl (dropPart newPartCount) wb (map_to_list (parts wb)) in
  let wb :=
    if (0 <? size) && (0 <? newPartCount) then
      let lastIdx := newPartCount - 1 in
      let partOff := size - lastIdx * partSize wb in
      match parts wb !! lastIdx with
      | Some part =>
          if partOff <? zlen part then
            set_parts (<[lastIdx := gslice part 0 partOff]> (parts wb))
              (set_curMemory (curMemory wb - (zlen part - partOff)) wb)
          else wb
      | None => wb
      end
    else wb in
  let wb :=
    if (0 <? size) && (Z.rem size (partSize wb) =? 0) && (0 <? newPartCount)
    then set_dirtyParts (<[newPartCount - 1 := true]> (dirtyParts wb)) wb
    else wb in
  set_totalSize size wb.

(** The [size > cur] branch in small-file mode, below the threshold. *)
Definition extendSmall (wb : WriteBuffer) (s : slice) (size : Z) : WriteBuffer :=
  let s' :=
    if cap s <? size then
      let newCap := if size <? 1024 then 1024 else size in
      Slice (gcopy (gmake newCap) 0 (contents s)) size
    else Slice (clear_range (backing s) (slen s) size) size in
  let wb := set_smallFileData (Some s') wb in
  let wb := set_totalSize size wb in
  let wb := set_touched true wb in
  set_dirtyParts (<[0 := true]> (dirtyParts wb)) wb.

Fixpoint truncateDepth (depth : nat) (wb : WriteBuffer) (size : Z) : WriteBuffer * outcome :=
  if maxSize wb <? size then (wb, Failed 0 EFBIG)
  else
    let size := if size <? 0 then 0 else size in
    let wb := set_touched true wb in
    let cur := totalSize wb in
    if size <? cur then
      match smallFileData wb with
      | Some s =>
          if cap s <? size then (wb, Panicked)
          else
            let wb := set_smallFileData (Some (Slice (backing s) size)) wb in
            let wb := set_totalSize size wb in
            (set_dirtyParts (<[0 := true]> (dirtyParts wb)) wb, Done 0)
      | None => (shrinkParts wb size cur, Done 0)
      end
    else if cur <? size then
      match smallFileData wb with
      | Some s =>
          if size <=? smallFileMax wb then (extendSmall wb s size, Done 0)
          else
            match depth with
            | O => (wb, OutOfFuel)
            | S depth => truncateDepth depth (migrateToPartMode wb) size
            end
      | None => (set_totalSize size (markDirty wb cur size), Done 0)
      end
    else (wb, Done 0).

(** [Truncate]: it retries at most once, after the migration. *)
Definition Truncate (wb : WriteBuffer) (size : Z) : WriteBuffer * outcome :=
  truncateDepth 1 wb size.

(** ** Reading *)

Definition Size (wb : WriteBuffer) : Z := totalSize wb.
Definition PartSize (wb : WriteBuffer) : Z := partSize wb.

Definition smallFileBytes (wb : WriteBuffer) : option bytes :=
  match smallFileData wb with
  | None => None
  | Some s =>
      if totalSize wb <? slen s then Some (gslice (backing s) 0 (totalSize wb))
      else Some (contents s)
  end.

Definition HasDirtyParts (wb : WriteBuffer) : bool :=
  if touched wb then true
  else existsb snd (map_to_list (dirtyParts wb)).

(** [Bytes]: the whole content in one slice. *)
Definition Bytes (wb : WriteBuffer) : bytes :=
  if totalSize wb =? 0 then []
  else
    match smallFileBytes wb with
    | Some data => gcopy (gmake (totalSize wb)) 0 data
    | None =>
        foldl (fun buf i =>
                 match parts wb !! i with
                 | Some part => gcopy buf (i * partSize wb) part
                 | None => buf
                 end)
          (gmake (totalSize wb)) (seqZ 0 (partCount wb (totalSize wb)))
    end.

Definition bytesView (wb : WriteBuffer) : bytes :=
  if totalSize wb =? 0 then []
  else
    match smallFileBytes wb with
    | Some data => data
    | None => Bytes wb
    end.

(** [DirtyPartNumbers]: 1-based, in the iteration order of the map. *)
Definition DirtyPartNumbers (wb : WriteBuffer) : list Z :=
  (fun kv => fst kv + 1) <$> filter (fun kv => snd kv = true) (map_to_list (dirtyParts wb)).

Definition MarkAllDirty (wb : WriteBuffer) : WriteBuffer :=
  match smallFileData wb with
  | Some _ => set_touched true (set_dirtyParts {[ 0 := true ]} wb)
  | None =>
      set_dirtyParts (foldl (fun d i => <[i := true]> d) ∅
                        (seqZ 0 (partCount wb (totalSize wb)))) wb
  end.

(** [PartData]: [None] is the nil slice of an out-of-range part number. *)
Definition PartData (wb : WriteBuffer) (partNum : Z) : option bytes :=
  let partIdx := partNum - 1 in
  let start := partIdx * partSize wb in
  if totalSize wb <=? start then None
  else
    match smallFileBytes wb with
    | Some data =>
        if negb (partNum =? 1) then None
        else
          let end_ := if totalSize wb <? partSize wb then totalSize wb else partSize wb in
          Some (gcopy (gmake end_) 0 data)
    | None =>
        let end_ := start + partSize wb in
        let end_ := if totalSize wb <? end_ then totalSize wb else end_ in
        let expectedLen := end_ - start in
        match parts wb !! partIdx with
        | None => Some (gmake expectedLen)
        | Some part =>
            if zlen part <? expectedLen then Some (gcopy (gmake expectedLen) 0 part)
            else Some (gslice part 0 expectedLen)
        end
    end.

(** One iteration of the loop of [ReadAt]: the bytes of [canRead] at [partOff]. *)
Definition readChunk (wb : WriteBuffer) (partIdx partOff canRead copied : Z) (buf : bytes)
    : bytes :=
  match parts wb !! partIdx with
  | Some part =>
      if zlen part <? partOff + canRead then
        if partOff <? zlen part then
          let src := gslice part partOff (zlen part) in
          clear_range (gcopy buf copied src) (copied + zlen src) (copied + canRead)
        else clear_range buf copied (copied + canRead)
      else gcopy buf copied (gslice part partOff (partOff + canRead))
  | None => clear_range buf copied (copied + canRead)
  end.

Fixpoint readLoop (fuel : nat) (wb : WriteBuffer) (pos copied total : Z) (buf : bytes)
    : option bytes :=
  if copied <? total then
    match fuel with
    | O => None
    | S fuel =>
        let partIdx := Z.quot pos (partSize wb) in
        let partOff := Z.rem pos (partSize wb) in
        let canRead := partSize wb - partOff in
        let remaining := total - copied in
        let canRead := if remaining <? canRead then remaining else canRead in
        readLoop fuel wb (pos + canRead) (copied + canRead) total
          (readChunk wb partIdx partOff canRead copied buf)
    end
  else Some buf.

(** [ReadAt]: the count and the new contents of [buf]; [None] is a slice panic. *)
Definition ReadAt (wb : WriteBuffer) (offset : Z) (buf : bytes) : option (Z * bytes) :=
  if totalSize wb <=? offset then Some (0, buf)
  else
    let end_ := wrap64 (offset + zlen buf) in
    let end_ := if totalSize wb <? end_ then totalSize wb else end_ in
    let total := wrap64 (end_ - offset) in
    if total <=? 0 then Some (0, buf)
    else if offset <? 0 then None
    else
      match smallFileData wb with
      | Some s =>
          let limit := offset + total in
          if cap s <? limit then None
          else Some (total, gcopy buf 0 (gslice (backing s) offset limit))
      | None =>
          match readLoop (Z.to_nat total) wb offset 0 total buf with
          | Some buf => Some (total, buf)
          | None => None
          end
      end.

Definition IsPartLoaded (wb : WriteBuffer) (partIdx : Z) : bool :=
  match smallFileData wb with
  | Some _ => partIdx =? 0
  | None => bool_decide (is_Some (parts wb !! partIdx))
  end.

Definition CanMaterializeFull (wb : WriteBuffer) : bool :=
  match smallFileData wb with
  | Some _ => true
  | None =>
      let covered := if totalSize wb <? remoteSize wb then totalSize wb else remoteSize wb in
      if covered <=? 0 then true
      else forallb (IsPartLoaded wb) (seqZ 0 (partCount wb covered))
  end.

(** ** Lifecycle *)

Definition Reset (wb : WriteBuffer) : WriteBuffer :=
  set_smallFileData None
    (set_curMemory 0 (set_totalSize 0 (set_dirtyParts ∅ (set_parts ∅ wb)))).

Definition ClearDirty (wb : WriteBuffer) : WriteBuffer :=
  set_touched false (set_dirtyParts ∅ wb).

Definition IsSequential (wb : WriteBuffer) : bool := sequential wb.

Definition ResetSequentialState (wb : WriteBuffer) (newSize : Z) : WriteBuffer :=
  set_sequential true (set_appendCursor newSize wb).

Definition StreamedPartIndices (wb : WriteBuffer) : option (gmap Z bool) := uploadedParts wb.

(** [DirtyStreamedParts]: the parts that were streamed and written again since. *)
Definition DirtyStreamedParts (wb : WriteBuffer) : gmap Z bytes :=
  foldl (fun result kv =>
           let idx := fst kv in
           if default false (dirtyParts wb !! idx) then
             match PartData wb (idx + 1) with
             | Some data => <[idx + 1 := gcopy (gmake (zlen data)) 0 data]> result
             | None => result
             end
           else result)
    ∅ (map_to_list (default ∅ (uploadedParts wb))).

End Buffer.
