(* ===== verification/WriteBufferSpec.v ===== *)
(** * The file a write buffer stands for

    The abstract view of [WriteBuffer]: a size and a byte at every offset
    ([fileByte]), what a reader gets once the parts it touches are loaded.  The
    refinement theorems say that [Write] and [Truncate] are the POSIX operations on
    that view in every mode (small-file slice, sparse parts, lazily loaded remote
    parts), and that [Bytes], [ReadAt], [PartData] and the dirty-part map agree
    with it. *)

From S2P Require Import Prelude WriteBuffer.

Import Buffer.

Module BufferSpec.

(** ** The abstract file *)

(** The byte [ensurePart] would put at offset [o] of the unloaded part [p]. *)
Definition remoteByte (wb : WriteBuffer) (p o : Z) : byte :=
  if isUploaded wb p then x00
  else
    match LoadPart wb with
    | Some load =>
        if p * partSize wb <? remoteSize wb then
          match load (p + 1) with
          | inl data => nthb data o
          | inr _ => x00
          end
        else x00
    | None => x00
    end.

(** The byte at offset [i] of the file. *)
Definition fileByte (wb : WriteBuffer) (i : Z) : byte :=
  match smallFileData wb with
  | Some s => nthb (contents s) i
  | None =>
      match parts wb !! (i / partSize wb) with
      | Some part => nthb part (i mod partSize wb)
      | None => remoteByte wb (i / partSize wb) (i mod partSize wb)
      end
  end.

(** The byte at offset [i] of what is in memory: zero where nothing is loaded. *)
Definition memByte (wb : WriteBuffer) (i : Z) : byte :=
  match smallFileData wb with
  | Some s => nthb (contents s) i
  | None =>
      match parts wb !! (i / partSize wb) with
      | Some part => nthb part (i mod partSize wb)
      | None => x00
      end
  end.

(** The contents of the file. *)
Definition fileContents (wb : WriteBuffer) : bytes := tabulate (fileByte wb) 0 (totalSize wb).

(** Past the end of the file every byte is zero, so that extending it exposes
    zeros. *)
Definition eofZero (wb : WriteBuffer) : Prop :=
  forall i, totalSize wb <= i -> fileByte wb i = x00.

(** What the remote loader returns for the 1-based part [n]: at most the bytes the
    remote file has in that part (the range read of [preloadWritableHandle]). *)
Definition loaderOk (wb : WriteBuffer) : Prop :=
  match LoadPart wb with
  | Some load => forall n data, load n = inl data ->
      zlen data <= Z.max 0 (Z.min (partSize wb) (remoteSize wb - (n - 1) * partSize wb))
  | None => True
  end.

(** ** Well-formed buffers *)

Record wf (wb : WriteBuffer) : Prop := {
  wf_partSize : 0 < partSize wb;
  wf_total : 0 <= totalSize wb <= maxSize wb;
  wf_max : maxSize wb + partSize wb <= max_int64;
  wf_load : loaderOk wb;
  wf_parts : forall p part, parts wb !! p = Some part -> 0 <= p /\ zlen part <= partSize wb;
  wf_mem : curMemory wb = map_sum zlen (parts wb);
  wf_small : forall s, smallFileData wb = Some s ->
    parts wb = ∅ /\ LoadPart wb = None /\ slen s = totalSize wb /\ slen s <= cap s
      /\ totalSize wb <= smallFileMax wb <= partSize wb
}.

(** ** Arithmetic of parts *)

Lemma quot_div a b : 0 <= a -> 0 < b -> Z.quot a b = a / b.
Proof. intros. by rewrite Z.quot_div_nonneg by lia. Qed.

Lemma rem_mod a b : 0 <= a -> 0 < b -> Z.rem a b = a mod b.
Proof. intros. by rewrite Z.rem_mod_nonneg by lia. Qed.

Lemma div_mod_bounds a b :
  0 < b -> a = b * (a / b) + a mod b /\ 0 <= a mod b < b.
Proof.
  intros. split; [apply Z.div_mod; lia | apply Z.mod_pos_bound; lia].
Qed.

(** A part index is the quotient of exactly the offsets it covers. *)
Lemma div_part_iff i b p :
  0 < b -> i / b = p <-> b * p <= i < b * p + b.
Proof.
  intros Hb. destruct (div_mod_bounds i b Hb) as [E ?]. split.
  - intros <-. lia.
  - intros ?. symmetry. apply (Z.div_unique i b p (i - b * p)); lia.
Qed.

Lemma partCount_spec wb n :
  0 < partSize wb -> 0 <= n ->
  partCount wb n = (n + partSize wb - 1) / partSize wb.
Proof. intros. unfold partCount. apply quot_div; lia. Qed.

(** The last part of [n] bytes. *)
Lemma partCount_bounds wb n :
  0 < partSize wb -> 0 <= n ->
  n <= partSize wb * partCount wb n < n + partSize wb.
Proof.
  intros Hb Hn. rewrite partCount_spec by done.
  destruct (div_mod_bounds (n + partSize wb - 1) (partSize wb) Hb). lia.
Qed.

Lemma partCount_lt wb n i :
  0 < partSize wb -> 0 <= i < n -> i / partSize wb < partCount wb n.
Proof.
  intros Hb Hi. pose proof (partCount_bounds wb n Hb ltac:(lia)).
  destruct (div_mod_bounds i (partSize wb) Hb). nia.
Qed.

(** ** Reading the memory *)

Lemma contents_zlen s : 0 <= slen s <= cap s -> zlen (contents s) = slen s.
Proof. intros. unfold contents, cap in *. rewrite zlen_gslice; lia. Qed.

Lemma nthb_contents s i :
  0 <= slen s -> nthb (contents s) i = if decide (0 <= i < slen s) then nthb (backing s) i else x00.
Proof.
  intros. unfold contents. rewrite nthb_gslice by lia.
  rewrite Z.sub_0_r. by rewrite Z.add_0_l.
Qed.

Lemma nthb_clear_range b from to i :
  0 <= from <= to -> to <= zlen b ->
  nthb (clear_range b from to) i = if decide (from <= i < to) then x00 else nthb b i.
Proof.
  intros. unfold clear_range. rewrite nthb_gcopy by lia.
  rewrite zlen_gmake, nthb_gmake by lia. decide_all.
Qed.

Lemma zlen_clear_range b from to :
  0 <= from <= zlen b -> zlen (clear_range b from to) = zlen b.
Proof. intros. unfold clear_range. by rewrite zlen_gcopy. Qed.

(** Growing a slice into a fresh array keeps its bytes. *)
Lemma nthb_grow n l i :
  zlen l <= n -> nthb (gcopy (gmake n) 0 l) i = nthb l i.
Proof.
  intros. pose proof (zlen_nonneg l).
  rewrite nthb_gcopy by (rewrite zlen_gmake; lia).
  rewrite zlen_gmake, nthb_gmake by lia. case_decide.
  - f_equal. lia.
  - destruct (decide (i < 0)); [by rewrite nthb_neg|]. rewrite nthb_ge by lia. done.
Qed.

Lemma zlen_grow n l : 0 <= n -> zlen (gcopy (gmake n) 0 l) = n.
Proof. intros. rewrite zlen_gcopy; rewrite zlen_gmake; lia. Qed.

(** ** Writing parts *)

(** The three fields the part loops change. *)
Definition upd (wb : WriteBuffer) (ps : gmap Z bytes) (d : gmap Z bool) (m : Z) : WriteBuffer :=
  set_curMemory m (set_dirtyParts d (set_parts ps wb)).

Lemma upd_id wb : upd wb (parts wb) (dirtyParts wb) (curMemory wb) = wb.
Proof. by destruct wb. Qed.

Lemma upd_upd wb ps d m ps' d' m' : upd (upd wb ps d m) ps' d' m' = upd wb ps' d' m'.
Proof. done. Qed.

Lemma map_sum_zlen_nonneg (m : gmap Z bytes) : 0 <= map_sum zlen m.
Proof. apply map_sum_nonneg. intros. apply zlen_nonneg. Qed.

(** [upd] keeps a part-mode buffer well formed when the parts fit and are counted. *)
Lemma wf_upd wb ps d :
  wf wb -> smallFileData wb = None ->
  (forall p part, ps !! p = Some part -> 0 <= p /\ zlen part <= partSize wb) ->
  wf (upd wb ps d (map_sum zlen ps)).
Proof.
  intros [] Hs Hps. split; simpl; try done. intros s Hs'. congruence.
Qed.

(** The result of a successful [ensurePart]: one more part, whose bytes are the
    bytes of the file. *)
Lemma ensurePart_cases wb p :
  wf wb -> smallFileData wb = None -> 0 <= p ->
  (exists part,
     ensurePart wb p =
       (upd wb (<[p := part]> (parts wb)) (dirtyParts wb)
            (map_sum zlen (<[p := part]> (parts wb))), None)
     /\ zlen (default [] (parts wb !! p)) <= zlen part <= partSize wb
     /\ (forall o, nthb part o = match parts wb !! p with
                                 | Some part => nthb part o
                                 | None => remoteByte wb p o
                                 end))
  \/ (exists load err, LoadPart wb = Some load /\ load (p + 1) = inr err
        /\ ensurePart wb p = (wb, Some err)).
Proof.
  intros Hwf Hs Hp. pose proof (wf_mem _ Hwf) as Hmem.
  pose proof (wf_partSize _ Hwf) as Hps. unfold ensurePart. rewrite Hs.
  destruct (parts wb !! p) as [part|] eqn:Ep.
  { left. exists part. rewrite insert_id by done. rewrite <- Hmem, upd_id.
    split; [done|]. split; [|done]. simpl. split; [lia|by eapply wf_parts]. }
  assert (forall part, zlen part <= partSize wb ->
    (forall o, nthb part o = remoteByte wb p o) ->
    exists part', upd wb (<[p:=part]> (parts wb)) (dirtyParts wb)
                    (curMemory wb + zlen part)
      = upd wb (<[p:=part']> (parts wb)) (dirtyParts wb)
           (map_sum zlen (<[p:=part']> (parts wb)))
      /\ zlen (default [] (@None bytes)) <= zlen part' <= partSize wb
      /\ (forall o, nthb part' o = remoteByte wb p o)) as Hnew.
  { intros part ? ?. exists part. rewrite map_sum_insert_new by done.
    rewrite Hmem. pose proof (zlen_nonneg part). simpl. rewrite zlen_nil.
    split; [f_equal; lia|done]. }
  unfold remoteByte in *. destruct (isUploaded wb p) eqn:Eu.
  { destruct (Hnew (gmake (partSize wb))) as (part & E & ? & ?).
    { rewrite zlen_gmake; lia. } { intros. apply nthb_gmake. }
    left. exists part. rewrite zlen_gmake in E by lia. rewrite <- E.
    split; [by destruct wb|done]. }
  assert (forall o : Z, nthb [] o = x00) as Hnil by (intros; apply nthb_nil).
  destruct (LoadPart wb) as [load|] eqn:El.
  2: { destruct (Hnew []) as (part & E & ? & ?); [rewrite zlen_nil; lia|done|].
       left. exists part. rewrite <- E. split; [|done].
       rewrite zlen_nil, Z.add_0_r. by destruct wb. }
  destruct (_ <? _) eqn:Er.
  2: { destruct (Hnew []) as (part & E & ? & ?); [rewrite zlen_nil; lia|done|].
       left. exists part. rewrite <- E. split; [|done].
       rewrite zlen_nil, Z.add_0_r. by destruct wb. }
  destruct (load (p + 1)) as [data|err] eqn:Ed.
  - pose proof (wf_load _ Hwf) as Hl. unfold loaderOk in Hl. rewrite El in Hl.
    destruct (Hnew data) as (part & E & ? & ?); [specialize (Hl _ _ Ed); lia|done|].
    left. exists part. rewrite <- E. split; [by destruct wb|done].
  - right. by exists load, err.
Qed.

(** Replacing one part by a longer one with other bytes in [o, o + n). *)
Lemma fileByte_upd_part wb p part d m i :
  smallFileData wb = None -> 0 < partSize wb ->
  fileByte (upd wb (<[p := part]> (parts wb)) d m) i =
    if decide (i / partSize wb = p) then nthb part (i mod partSize wb) else fileByte wb i.
Proof.
  intros Hs Hps. unfold fileByte, remoteByte, isUploaded. simpl. rewrite Hs.
  case_decide as E.
  - rewrite E. by rewrite lookup_insert_eq.
  - by rewrite lookup_insert_ne by done.
Qed.

(** One iteration of the write loop. *)
Lemma writeChunk_cases wb pos data dataOff :
  wf wb -> smallFileData wb = None -> 0 <= pos -> 0 <= dataOff < zlen data ->
  let p := pos / partSize wb in
  (exists part n,
     let ps := <[p := part]> (parts wb) in
     writeChunk wb pos data dataOff =
       (upd wb ps (<[p := true]> (dirtyParts wb)) (map_sum zlen ps), inl n)
     /\ pos mod partSize wb + n <= zlen part <= partSize wb
     /\ zlen (default [] (parts wb !! p)) <= zlen part
     /\ n = Z.min (partSize wb - pos mod partSize wb) (zlen data - dataOff)
     /\ (forall i, i / partSize wb = p ->
           nthb part (i mod partSize wb) =
             if decide (pos <= i < pos + n) then nthb data (dataOff + (i - pos))
             else fileByte wb i))
  \/ (exists load err, LoadPart wb = Some load /\ load (p + 1) = inr err
        /\ writeChunk wb pos data dataOff = (wb, inr (Failed (uint32 dataOff) err))).
Proof.
  intros Hwf Hs Hpos Hoff p. pose proof (wf_partSize _ Hwf) as Hps.
  destruct (div_mod_bounds pos (partSize wb) Hps) as [Epos Hmod]. fold p in Epos.
  assert (0 <= p) by (apply Z.div_pos; lia).
  unfold writeChunk. rewrite quot_div, rem_mod by lia. fold p.
  destruct (ensurePart_cases wb p Hwf Hs ltac:(lia)) as [(part & -> & Hlen & Hpart)|
    (load & err & ? & ? & ->)]; [|right; by exists load, err].
  left. simpl. rewrite lookup_insert_eq. simpl.
  set (o := pos mod partSize wb) in *.
  set (n := if zlen data - dataOff <? partSize wb - o then zlen data - dataOff
            else partSize wb - o).
  assert (n = Z.min (partSize wb - o) (zlen data - dataOff)) as En.
  { unfold n. case_if; bool_prop; lia. }
  rewrite (proj2 (Z.ltb_ge (partSize wb) (o + n))) by lia.
  rewrite (proj2 (Z.ltb_ge o 0)) by lia.
  set (g := if zlen part <? o + n then gcopy (gmake (o + n)) 0 part else part).
  assert (zlen g = Z.max (zlen part) (o + n)) as Hg.
  { unfold g. case_if; bool_prop; [rewrite zlen_grow|]; lia. }
  assert (forall j, nthb g j = nthb part j) as Hgb.
  { intros j. unfold g. case_if; bool_prop; [rewrite nthb_grow by lia|]; done. }
  exists (gcopy g o (gslice data dataOff (dataOff + n))), n.
  assert (zlen (gslice data dataOff (dataOff + n)) = n) as Hsl
    by (rewrite zlen_gslice; lia).
  pose proof (zlen_nonneg part).
  split; [|split; [|split; [|split; [done|]]]].
  - assert (map_sum zlen (<[p := gcopy g o (gslice data dataOff (dataOff + n))]> (parts wb))
            = map_sum zlen (<[p := part]> (parts wb)) + (zlen g - zlen part)) as ->.
    { rewrite !map_sum_insert, zlen_gcopy by lia. lia. }
    f_equal. revert Hg. unfold g. case_if; bool_prop; simpl; intros Hg;
      rewrite ?insert_insert_eq, Hg, ?Z.max_r, ?Z.max_l, ?Z.sub_diag, ?Z.add_0_r by lia;
      reflexivity.
  - rewrite zlen_gcopy; lia.
  - rewrite zlen_gcopy; lia.
  - intros i Hi. destruct (div_mod_bounds i (partSize wb) Hps) as [Ei ?].
    rewrite Hi in Ei. rewrite nthb_gcopy by lia. rewrite Hsl, Hgb, Hpart.
    unfold fileByte. rewrite Hs, Hi.
    repeat case_decide; try lia; [|done].
    rewrite nthb_gslice by lia. rewrite decide_True by lia. f_equal. lia.
Qed.

(** The dirty parts of a lazily loaded file are in memory. *)
Definition dirtyResident (wb : WriteBuffer) : Prop :=
  LoadPart wb <> None -> forall p, dirtyParts wb !! p = Some true -> is_Some (parts wb !! p).

(** What the loop of [Write] has done when it stops after [m] bytes: the parts of
    the written range hold the data, are long enough and dirty, all else is as it
    was. *)
Record written (wb wb' : WriteBuffer) (pos m : Z) (data : bytes) (from : Z) : Prop := {
  wr_upd : wb' = upd wb (parts wb') (dirtyParts wb') (map_sum zlen (parts wb'));
  wr_wf : wf wb';
  wr_byte : forall i, 0 <= i -> fileByte wb' i =
    if decide (pos <= i < pos + m) then nthb data (from + (i - pos)) else fileByte wb i;
  wr_len : forall i, pos <= i < pos + m ->
    i mod partSize wb < zlen (default [] (parts wb' !! (i / partSize wb)));
  wr_mono : forall p, zlen (default [] (parts wb !! p)) <= zlen (default [] (parts wb' !! p));
  wr_dirty : forall i, pos <= i < pos + m -> dirtyParts wb' !! (i / partSize wb) = Some true;
  wr_dirty_mono : forall p, dirtyParts wb !! p = Some true -> dirtyParts wb' !! p = Some true;
  wr_resident : dirtyResident wb -> dirtyResident wb'
}.

Lemma written_refl wb pos data from : wf wb -> written wb wb pos 0 data from.
Proof.
  intros Hwf. split; try done; intros; try lia.
  - rewrite <- (wf_mem _ Hwf). by rewrite upd_id.
  - decide_all.
Qed.

(** One chunk, then the rest. *)
Lemma written_step wb wb1 wb' pos n m data from :
  0 <= pos -> 0 <= n -> 0 <= m -> written wb wb1 pos n data from ->
  written wb1 wb' (pos + n) m data (from + n) ->
  written wb wb' pos (n + m) data from.
Proof.
  intros Hpos Hn Hm [U1 W1 B1 L1 M1 D1 DM1 F1] [U2 W2 B2 L2 M2 D2 DM2 F2].
  assert (partSize wb1 = partSize wb) as Eps by (rewrite U1; done).
  rewrite Eps in *. split.
  - rewrite U2. rewrite U1 at 1. done.
  - done.
  - intros i Hi. rewrite B2, B1 by done. decide_all; f_equal; lia.
  - intros i Hi. destruct (decide (i < pos + n)).
    + specialize (L1 i ltac:(lia)). specialize (M2 (i / partSize wb)). lia.
    + apply L2. lia.
  - intros p. specialize (M1 p). specialize (M2 p). lia.
  - intros i Hi. destruct (decide (i < pos + n)); [apply DM2, D1|apply D2]; lia.
  - auto.
  - auto.
Qed.

Lemma writeChunk_written wb pos data dataOff wb' n :
  wf wb -> smallFileData wb = None -> 0 <= pos -> 0 <= dataOff < zlen data ->
  writeChunk wb pos data dataOff = (wb', inl n) ->
  written wb wb' pos n data dataOff /\ 0 < n <= zlen data - dataOff.
Proof.
  intros Hwf Hs Hpos Hoff Hch. pose proof (wf_partSize _ Hwf) as Hps.
  destruct (writeChunk_cases wb pos data dataOff Hwf Hs Hpos Hoff) as
    [(part & k & E & [Hlo Hhi] & Hmono & -> & Hb)|(load & err & ? & ? & E)];
    rewrite E in Hch; [|done]. injection Hch as <- <-.
  destruct (div_mod_bounds pos (partSize wb) Hps) as [Epos Hmod].
  set (p := pos / partSize wb) in *.
  set (k := Z.min _ _) in *.
  assert (forall i, pos <= i < pos + k -> i / partSize wb = p) as Hin.
  { intros i Hi. apply div_part_iff; [done|]. lia. }
  split; [|lia]. split; simpl.
  - done.
  - apply wf_upd; [done..|]. intros q part' Hq. destruct (decide (q = p)) as [->|].
    + rewrite lookup_insert_eq in Hq. simplify_eq. split; [|lia]. apply Z.div_pos; lia.
    + rewrite lookup_insert_ne in Hq by done. by eapply wf_parts.
  - intros i Hi. rewrite fileByte_upd_part by done. case_decide as Ep.
    + rewrite Hb by done. done.
    + rewrite decide_False; [done|]. intros Hr. by apply Ep, Hin.
  - intros i Hi. rewrite Hin by done. rewrite lookup_insert_eq. simpl.
    destruct (div_mod_bounds i (partSize wb) Hps) as [Ei ?]. rewrite Hin in Ei by done. lia.
  - intros q. destruct (decide (q = p)) as [->|].
    + by rewrite lookup_insert_eq.
    + by rewrite lookup_insert_ne.
  - intros i Hi. rewrite Hin by done. by rewrite lookup_insert_eq.
  - intros q Hq. destruct (decide (q = p)) as [->|].
    + by rewrite lookup_insert_eq.
    + by rewrite lookup_insert_ne.
  - intros Hr Hl q. simpl. destruct (decide (q = p)) as [->|].
    + intros _. rewrite lookup_insert_eq. by eexists.
    + rewrite !lookup_insert_ne by done. by apply Hr.
Qed.

(** The loop of [Write] writes everything, or stops at a part that cannot be
    loaded with everything before it written. *)
Lemma writeLoop_cases fuel : forall wb pos data dataOff,
  wf wb -> smallFileData wb = None -> 0 <= pos -> 0 <= dataOff <= zlen data ->
  zlen data - dataOff <= Z.of_nat fuel ->
  exists wb' m o, writeLoop fuel wb pos data dataOff = (wb', o)
    /\ 0 <= m <= zlen data - dataOff
    /\ written wb wb' pos m data dataOff
    /\ ((o = Done (zlen data) /\ m = zlen data - dataOff)
        \/ exists load err, LoadPart wb = Some load
             /\ load ((pos + m) / partSize wb + 1) = inr err
             /\ o = Failed (uint32 (dataOff + m)) err).
Proof.
  induction fuel as [|fuel IH]; intros wb pos data dataOff Hwf Hs Hpos Hoff Hfuel; simpl.
  { exists wb, 0, (Done (zlen data)). rewrite (proj2 (Z.ltb_ge _ _)) by lia.
    split_and!; [f_equal; f_equal; lia|lia|lia|by apply written_refl|left; split; [done|lia]]. }
  destruct (dataOff <? zlen data) eqn:Elt; bool_prop.
  2: { exists wb, 0, (Done (zlen data)).
    split_and!; [f_equal; f_equal; lia|lia|lia|by apply written_refl|left; split; [done|lia]]. }
  destruct (writeChunk wb pos data dataOff) as [wb1 [n|o]] eqn:Ech.
  - destruct (writeChunk_written wb pos data dataOff wb1 n Hwf Hs Hpos ltac:(lia) Ech) as [Hw Hn].
    pose proof (wr_upd _ _ _ _ _ _ Hw) as U1.
    destruct (IH wb1 (pos + n) data (dataOff + n)) as (wb' & m & o & E & Hm & Hw' & Ho);
      [by eapply wr_wf|rewrite U1; done|lia|lia|lia|].
    exists wb', (n + m), o. split_and!; [done|lia|lia|by eapply written_step; eauto; lia|].
    destruct Ho as [[-> ->]|(load & err & Hl & He & ->)]; [left; split; [done|lia]|].
    right. exists load, err. rewrite U1 in Hl, He. simpl in *.
    split_and!; [done|rewrite <- He; do 3 f_equal; lia|do 2 f_equal; lia].
  - destruct (writeChunk_cases wb pos data dataOff Hwf Hs Hpos ltac:(lia)) as
      [(part & k & E & _)|(load & err & Hl & He & E)]; rewrite E in Ech; [done|].
    injection Ech as <- <-. exists wb, 0, (Failed (uint32 dataOff) err).
    split_and!; [done|lia|lia|by apply written_refl|].
    right. exists load, err. rewrite !Z.add_0_r. done.
Qed.

(** ** Small files *)

(** The fields no operation on contents changes. *)
Definition sameConfig (wb wb' : WriteBuffer) : Prop :=
  path wb' = path wb /\ maxSize wb' = maxSize wb /\ partSize wb' = partSize wb
  /\ smallFileMax wb' = smallFileMax wb /\ LoadPart wb' = LoadPart wb
  /\ remoteSize wb' = remoteSize wb /\ OnPartFull wb' = OnPartFull wb.

#[global] Instance sameConfig_preorder : PreOrder sameConfig.
Proof.
  unfold sameConfig. split; [done|]. intros x y z ? ?. destruct_and?. split_and!; congruence.
Qed.

(** A part-mode buffer without parts or loader is all zeros. *)
Lemma fileByte_empty wb i :
  smallFileData wb = None -> parts wb = ∅ -> LoadPart wb = None -> fileByte wb i = x00.
Proof.
  intros Hs Hp Hl. unfold fileByte, remoteByte. rewrite Hs, Hp, Hl, lookup_empty. by case_if.
Qed.

(** What [wf] gives on the slice the small-file path starts from. *)
Lemma small_start wb end_ :
  wf wb -> useSmallFile wb end_ = true ->
  let s := default nil_slice (smallFileData wb) in
  0 <= slen s <= cap s /\ slen s <= totalSize wb /\ totalSize wb <= smallFileMax wb <= partSize wb
  /\ parts wb = ∅ /\ LoadPart wb = None
  /\ (forall i, nthb (contents s) i = fileByte wb i).
Proof.
  intros Hwf Hu s. unfold useSmallFile in Hu. pose proof (wf_total _ Hwf).
  destruct (smallFileData wb) as [s0|] eqn:Es; simpl in s; subst s.
  - destruct (wf_small _ Hwf s0 Es) as (? & ? & ? & ? & ?).
    split_and!; try done; try lia. intros i. unfold fileByte. by rewrite Es.
  - bool_prop. destruct (LoadPart wb) eqn:El; [done|].
    change (cap nil_slice) with 0. change (contents nil_slice) with (@nil byte). simpl.
    split_and!; try done; try lia. intros i. by rewrite fileByte_empty, nthb_nil by done.
Qed.

Lemma growSmall_spec wb needLen :
  let s := default nil_slice (smallFileData wb) in
  0 <= slen s <= cap s -> slen s <= needLen <= smallFileMax wb ->
  exists os, growSmall wb needLen = Some os
    /\ (os = None -> needLen = 0)
    /\ let s' := default nil_slice os in
       slen s' = needLen /\ needLen <= cap s'
       /\ forall i, nthb (contents s') i = nthb (contents s) i.
Proof.
  intros s Hs Hn. unfold growSmall. fold s.
  (* the slice after the growth, before the clearing *)
  assert (forall b, needLen <= zlen b ->
            (forall i, 0 <= i < slen s -> nthb b i = nthb (backing s) i) ->
            slen s < needLen ->
            let s' := Slice (clear_range b (slen s) needLen) needLen in
            needLen <= cap s' /\ forall i, nthb (contents s') i = nthb (contents s) i) as Hclr.
  { intros b Hb Hbb Hlt s'. unfold s', cap. simpl.
    split; [rewrite zlen_clear_range; lia|]. intros i.
    rewrite !nthb_contents by (simpl; lia). simpl.
    rewrite nthb_clear_range by lia. decide_all. apply Hbb. lia. }
  destruct (cap s <? needLen) eqn:Ecap; bool_prop.
  - set (nc := if smallFileMax wb <? _ then _ else _).
    assert (needLen <= nc) as Hnc by (unfold nc; repeat case_if; bool_prop; lia).
    rewrite (proj2 (Z.ltb_ge nc needLen)) by lia. simpl.
    rewrite (proj2 (Z.ltb_lt (slen s) needLen)) by lia.
    eexists. split; [done|]. split; [done|]. simpl. split; [done|].
    apply Hclr; [rewrite zlen_grow; lia| |lia]. intros i Hi.
    rewrite nthb_grow by (rewrite contents_zlen; lia).
    rewrite nthb_contents by lia. decide_all.
  - destruct (slen s <? needLen) eqn:El; bool_prop; simpl.
    + rewrite (proj2 (Z.ltb_lt (slen s) needLen)) by lia.
      eexists. split; [done|]. split; [done|]. simpl. split; [done|].
      apply Hclr; [unfold cap in *; lia|done|lia].
    + exists (smallFileData wb). unfold s in *. clear s.
      destruct (smallFileData wb) as [s0|]; simpl in *.
      * rewrite Z.ltb_irrefl. split_and!; try done; lia.
      * split_and!; try done; lia.
Qed.

(** Every part of a part-mode file reaches as far as the file does. *)
Definition allocated (wb : WriteBuffer) : Prop :=
  smallFileData wb = None -> forall i, 0 <= i < totalSize wb ->
    i mod partSize wb < zlen (default [] (parts wb !! (i / partSize wb))).

(** The cursor [advanceCursor] leaves behind. *)
Definition cursorAfter (wb wb' : WriteBuffer) (offset end_ : Z) : Prop :=
  appendCursor wb' = appendCursor (advanceCursor wb offset end_)
  /\ sequential wb' = sequential (advanceCursor wb offset end_).

(** The state after a write, up to the cursor: the file with [data] at [offset]. *)
Record writePost (wb wb' : WriteBuffer) (offset : Z) (data : bytes) : Prop := {
  wp_wf : wf wb';
  wp_config : sameConfig wb wb';
  wp_total : totalSize wb' = Z.max (totalSize wb) (offset + zlen data);
  wp_byte : forall i, 0 <= i -> fileByte wb' i =
    if decide (offset <= i < offset + zlen data) then nthb data (i - offset)
    else fileByte wb i;
  wp_dirty : forall i, offset <= i < offset + zlen data ->
    dirtyParts wb' !! (i / partSize wb) = Some true;
  wp_dirty_mono : forall p, dirtyParts wb !! p = Some true -> dirtyParts wb' !! p = Some true;
  wp_touched : touched wb' = true;
  wp_uploaded : uploadedParts wb' = uploadedParts wb;
  wp_resident : dirtyResident wb -> dirtyResident wb';
  wp_alloc : allocated wb -> offset <= totalSize wb -> allocated wb'
}.

(** The write cursor is not part of the file. *)
Lemma advanceCursor_shape wb o e :
  exists c q, advanceCursor wb o e = set_appendCursor c (set_sequential q wb).
Proof.
  unfold advanceCursor. exists (appendCursor (advanceCursor wb o e)),
    (sequential (advanceCursor wb o e)). unfold advanceCursor. repeat case_if; by destruct wb.
Qed.

Lemma writePost_cursor wb w offset data c q :
  writePost wb w offset data -> writePost wb (set_appendCursor c (set_sequential q w)) offset data.
Proof. intros [W ? ? ? ? ? ? ? ? ?]. split; try done. by destruct W. Qed.

Lemma cursorAfter_advance wb w o e :
  appendCursor w = appendCursor wb -> sequential w = sequential wb ->
  cursorAfter wb (advanceCursor w o e) o e.
Proof.
  intros Ec Es. unfold cursorAfter, advanceCursor. rewrite Ec.
  split; repeat case_if; done || congruence.
Qed.

(** The state the small-file path leaves: a new slice, size and dirty flag. *)
Definition smallStored (wb : WriteBuffer) (sfd : option slice) (total : Z) : WriteBuffer :=
  set_dirtyParts (<[0 := true]> (dirtyParts wb))
    (set_touched true (set_totalSize total (set_smallFileData sfd wb))).

Lemma fileByte_smallStored wb sfd total i :
  parts wb = ∅ -> LoadPart wb = None ->
  fileByte (smallStored wb sfd total) i = nthb (contents (default nil_slice sfd)) i.
Proof.
  intros Hp Hl. destruct sfd as [s|]; [done|].
  rewrite fileByte_empty by done. symmetry. apply nthb_nil.
Qed.

Lemma wf_smallStored wb sfd total :
  wf wb -> parts wb = ∅ -> LoadPart wb = None -> 0 <= total <= maxSize wb ->
  (forall s, sfd = Some s -> slen s = total /\ slen s <= cap s
     /\ total <= smallFileMax wb <= partSize wb) ->
  wf (smallStored wb sfd total).
Proof.
  intros [] Hp Hl Ht Hs. split; unfold loaderOk in *; simpl; try done.
  intros s E. specialize (Hs s E). destruct_and?. split_and!; done || lia.
Qed.

Lemma writePost_small wb sfd offset data :
  wf wb -> parts wb = ∅ -> LoadPart wb = None -> 0 <= offset ->
  offset + zlen data <= maxSize wb -> offset + zlen data <= smallFileMax wb <= partSize wb ->
  let total := Z.max (totalSize wb) (offset + zlen data) in
  (forall s, sfd = Some s -> slen s = total /\ slen s <= cap s /\ total <= smallFileMax wb) ->
  (sfd = None -> total = 0) ->
  (forall i, nthb (contents (default nil_slice sfd)) i =
     if decide (offset <= i < offset + zlen data) then nthb data (i - offset)
     else fileByte wb i) ->
  writePost wb (smallStored wb sfd total) offset data.
Proof.
  intros Hwf Hp Hl Hoff Hmax Hsm total Hs Hn Hb. pose proof (zlen_nonneg data).
  pose proof (wf_total _ Hwf). split; try done.
  - apply wf_smallStored; try done; [unfold total; lia|].
    intros s E. specialize (Hs s E). destruct_and?. split_and!; lia.
  - intros i Hi. by rewrite fileByte_smallStored.
  - intros i Hi. simpl. rewrite Z.div_small by lia. by rewrite lookup_insert_eq.
  - intros p Hpd. simpl. destruct (decide (p = 0)) as [->|].
    + by rewrite lookup_insert_eq.
    + by rewrite lookup_insert_ne.
  - intros _ Hc. simpl in Hc. by rewrite Hl in Hc.
  - intros _ _ Hs0 i Hi. simpl in *. specialize (Hn Hs0). lia.
Qed.

Lemma writeSmallFile_post rec wb offset data :
  wf wb -> 0 <= offset -> offset + zlen data <= smallFileMax wb ->
  offset + zlen data <= maxSize wb ->
  useSmallFile wb (offset + zlen data) = true ->
  exists wb', writeSmallFile rec wb offset data = (wb', Done (uint32 (zlen data)), [])
    /\ writePost wb wb' offset data /\ cursorAfter wb wb' offset (offset + zlen data)
    /\ totalSize wb' <= smallFileMax wb /\ parts wb' = ∅.
Proof.
  intros Hwf Hoff Hsm Hmax Hu. pose proof (zlen_nonneg data). pose proof (wf_max _ Hwf).
  pose proof (wf_partSize _ Hwf). pose proof (wf_total _ Hwf).
  destruct (small_start _ _ Hwf Hu) as (Hs & Hst & Hsize & Hp & Hl & Hb).
  unfold writeSmallFile. rewrite wrap64_small by lia.
  rewrite (proj2 (Z.ltb_ge (maxSize wb) _)), (proj2 (Z.ltb_ge (smallFileMax wb) _)) by lia.
  assert ((if offset + zlen data <? totalSize wb then totalSize wb else offset + zlen data)
          = Z.max (totalSize wb) (offset + zlen data)) as ->.
  { case_if; bool_prop; lia. }
  set (total := Z.max _ _).
  destruct (growSmall_spec wb total Hs ltac:(lia)) as (os & -> & Hos & Hlen & Hcap & Hc).
  set (s' := default nil_slice os) in *.
  rewrite (proj2 (Z.ltb_ge offset 0)), (proj2 (Z.ltb_ge (slen s') offset)) by lia. simpl.
  rewrite Hlen, firstn_all2 by (unfold zlen in *; lia).
  set (sfd := match os with Some _ => Some (Slice _ total) | None => None end).
  destruct (advanceCursor_shape (smallStored wb sfd total) offset (offset + zlen data))
    as (c & q & Ecur).
  exists (advanceCursor (smallStored wb sfd total) offset (offset + zlen data)).
  split; [|split; [|split; [by apply cursorAfter_advance|rewrite Ecur; simpl; split; [lia|done]]]].
  - do 2 f_equal. unfold smallStored, total. case_if; bool_prop; simpl in *;
      [by rewrite Z.max_r by lia|rewrite Z.max_l by lia; by destruct wb].
  - rewrite Ecur. apply writePost_cursor, writePost_small; try done; try lia.
    + intros s Es. unfold sfd in Es. destruct os; [|done]. simplify_eq.
      unfold cap in *. simpl. rewrite zlen_gcopy; lia.
    + intros Es. unfold sfd in Es. destruct os; [done|]. specialize (Hos eq_refl). lia.
    + intros i. rewrite <- Hb, <- Hc. unfold sfd. unfold cap in *.
      destruct os as [s0|]; simpl in s'; subst s'; simpl.
      * rewrite !nthb_contents by (simpl; lia). simpl. rewrite nthb_gcopy by lia.
        rewrite Hlen. decide_all.
      * specialize (Hos eq_refl). by rewrite decide_False by lia.
Qed.

(** ** Migration and eviction *)

(** What a step on the parts keeps: configuration, size, dirty map and cursor. *)
Definition sameFrame (wb wb' : WriteBuffer) : Prop :=
  sameConfig wb wb' /\ totalSize wb' = totalSize wb /\ dirtyParts wb' = dirtyParts wb
  /\ touched wb' = touched wb /\ appendCursor wb' = appendCursor wb
  /\ sequential wb' = sequential wb.

#[global] Instance sameFrame_preorder : PreOrder sameFrame.
Proof.
  unfold sameFrame. split; [done|]. intros x y z ? ?. destruct_and?.
  split_and!; try congruence. by etrans.
Qed.

Lemma migrate_spec wb s :
  wf wb -> smallFileData wb = Some s ->
  let wb' := migrateToPartMode wb in
  wf wb' /\ smallFileData wb' = None /\ sameFrame wb wb'
  /\ uploadedParts wb' = uploadedParts wb /\ allocated wb'
  /\ (forall i, 0 <= i -> fileByte wb' i = fileByte wb i).
Proof.
  intros Hwf Es. destruct (wf_small _ Hwf s Es) as (Hp & Hl & Hlen & Hcap & Hsz).
  pose proof (wf_total _ Hwf). pose proof (wf_partSize _ Hwf).
  unfold migrateToPartMode. rewrite Es. simpl. case_if; bool_prop; simpl.
  - split_and!; try done.
    + destruct Hwf. split; try done.
    + intros _ i Hi. simpl in *. lia.
    + intros i Hi. rewrite fileByte_empty by done. unfold fileByte. rewrite Es.
      rewrite nthb_ge; [done|]. rewrite contents_zlen; lia.
  - rewrite Hp. split_and!; try done.
    + destruct Hwf. split; simpl; try done.
      * intros p part Hpart. apply lookup_insert_Some in Hpart as [[<- <-]|[? Hq]].
        -- rewrite zlen_grow; lia.
        -- by rewrite lookup_empty in Hq.
      * rewrite map_sum_insert_new by apply lookup_empty. rewrite map_sum_empty, zlen_grow; lia.
    + intros _ i Hi. simpl in *. rewrite Z.div_small, Z.mod_small by lia.
      rewrite lookup_insert_eq. simpl. rewrite zlen_grow; lia.
    + intros i Hi. unfold fileByte, remoteByte. simpl. rewrite Es, Hl.
      destruct (decide (i / partSize wb = 0)) as [E|E].
      * rewrite E, lookup_insert_eq. rewrite nthb_grow by (rewrite contents_zlen; lia).
        f_equal. apply Z.mod_small. apply div_part_iff in E; lia.
      * rewrite lookup_insert_ne, lookup_empty by done.
        rewrite nthb_ge; [by case_if|]. rewrite contents_zlen by lia.
        rewrite div_part_iff in E by lia. lia.
Qed.

Lemma isUploaded_evict wb p q :
  isUploaded (set_uploadedParts (Some (<[p := true]> (default ∅ (uploadedParts wb)))) wb) q
  = if decide (q = p) then true else isUploaded wb q.
Proof.
  unfold isUploaded. simpl. case_decide.
  - subst. by rewrite lookup_insert_eq.
  - rewrite lookup_insert_ne by done. by destruct (uploadedParts wb).
Qed.

(** Evicting a part of a part-mode buffer. *)
Lemma evict_parts wb p :
  wf wb -> smallFileData wb = None -> isUploaded wb p = true ->
  let wb' := match parts wb !! p with
             | Some part =>
                 set_parts (delete p (parts wb)) (set_curMemory (curMemory wb - zlen part) wb)
             | None => wb
             end in
  wf wb' /\ sameFrame wb wb' /\ smallFileData wb' = None
  /\ (forall i, 0 <= i -> fileByte wb' i =
        if decide (i / partSize wb = p) then x00 else fileByte wb i).
Proof.
  intros Hwf Hs Hu. destruct (parts wb !! p) as [part|] eqn:Ep; simpl.
  - split_and!; try done.
    + destruct Hwf. split; simpl; try done.
      * intros q part' Hq. apply lookup_delete_Some in Hq as [? Hq]. by eapply wf_parts0.
      * rewrite (map_sum_delete _ _ p part) by done. lia.
      * congruence.
    + intros i Hi. unfold fileByte, remoteByte. simpl. rewrite Hs. case_decide as E.
      * rewrite E, lookup_delete_eq. unfold isUploaded in *. simpl. by rewrite Hu.
      * by rewrite lookup_delete_ne.
  - split_and!; try done. intros i Hi. case_decide as E; [|done].
    unfold fileByte, remoteByte. by rewrite Hs, E, Ep, Hu.
Qed.

(** [EvictPart] zeroes the evicted part (its bytes live elsewhere) and nothing else. *)
Lemma EvictPart_spec wb p :
  wf wb ->
  let wb' := EvictPart wb p in
  wf wb' /\ sameFrame wb wb' /\ smallFileData wb' = None
  /\ isUploaded wb' p = true
  /\ (forall i, 0 <= i -> fileByte wb' i =
        if decide (i / partSize wb = p) then x00 else fileByte wb i).
Proof.
  intros Hwf. unfold EvictPart.
  set (wb1 := set_uploadedParts _ wb).
  assert (wf wb1) as Hwf1 by (by destruct Hwf).
  assert (forall i, 0 <= i -> i / partSize wb <> p -> fileByte wb1 i = fileByte wb i) as Hb1.
  { intros i Hi Hne. unfold fileByte, remoteByte, wb1. rewrite isUploaded_evict.
    by rewrite decide_False by done. }
  assert (exists wb2, wb2 = (match smallFileData wb1 with Some _ => migrateToPartMode wb1
                             | None => wb1 end)
     /\ wf wb2 /\ smallFileData wb2 = None /\ sameFrame wb wb2 /\ isUploaded wb2 p = true
     /\ forall i, 0 <= i -> fileByte wb2 i = fileByte wb1 i) as (wb2 & <- & Hwf2 & Hs2 & Hf2 & Hu2 & Hb2).
  { eexists. split; [done|]. destruct (smallFileData wb1) as [s|] eqn:Es.
    - destruct (migrate_spec wb1 s Hwf1 Es) as (? & ? & ? & Eu & _ & ?). split_and!; try done.
      unfold isUploaded. rewrite Eu. unfold wb1. simpl. by rewrite lookup_insert_eq.
    - split_and!; try done. unfold wb1. rewrite isUploaded_evict. by rewrite decide_True. }
  destruct (evict_parts wb2 p Hwf2 Hs2 Hu2) as (? & Hf3 & ? & Hb3).
  assert (partSize wb2 = partSize wb) as Eps by (destruct Hf2 as [(_&_&?&_) _]; done).
  rewrite Eps in Hb3. split_and!; try done; [by etrans| |].
  - unfold isUploaded in *. by destruct (parts wb2 !! p).
  - intros i Hi. rewrite Hb3 by done. case_decide; [done|]. by rewrite Hb2, Hb1.
Qed.

(** ** Reporting full parts *)

(** [w'] is [w] with some evicted parts. *)
Record evictedFrom (w w' : WriteBuffer) : Prop := {
  ef_wf : wf w';
  ef_frame : sameFrame w w';
  ef_byte : forall i, 0 <= i -> fileByte w' i = fileByte w i \/ fileByte w' i = x00
}.

Lemma evictedFrom_refl w : wf w -> evictedFrom w w.
Proof. intros. split; [done|done|by left]. Qed.

Lemma notifyPart_evicted w0 w sub p :
  evictedFrom w0 w -> evictedFrom w0 (fst (notifyPart (w, sub) p)).
Proof.
  intros He. unfold notifyPart. case_if; [done|]. destruct (parts w !! p); [|done].
  case_if; [|done]. destruct (OnPartFull w) as [[]|]; try done. simpl.
  destruct He as [Hwf Hf Hb]. destruct (EvictPart_spec w p Hwf) as (? & ? & _ & _ & Hb').
  split; [done|by etrans|]. intros i Hi. rewrite Hb' by done.
  case_decide; [by right|by apply Hb].
Qed.

Lemma notifyFullParts_evicted w prev :
  wf w -> evictedFrom w (fst (notifyFullParts w prev)).
Proof.
  intros Hwf. unfold notifyFullParts. destruct (OnPartFull w); [|by apply evictedFrom_refl].
  case_if; [|by apply evictedFrom_refl].
  apply (foldl_inv (fun st => evictedFrom w (fst st))); [by apply evictedFrom_refl|].
  intros [w' sub] p _ He. by apply notifyPart_evicted.
Qed.

(** The parts of [l] that a stream uploader is handed, in order. *)
Definition fullParts (w : WriteBuffer) (l : list Z) : list (Z * bytes) :=
  omap (fun p => if isUploaded w p then None
                 else match parts w !! p with
                      | Some part => if zlen part =? partSize w then Some (p, part) else None
                      | None => None
                      end) l.

Lemma foldl_notify_submit w sub l :
  OnPartFull w <> Some ShadowSpillEvict -> OnPartFull w <> None ->
  foldl notifyPart (w, sub) l = (w, sub ++ fullParts w l).
Proof.
  intros Hne Hn. revert sub. induction l as [|p l IH]; intros sub; simpl.
  { by rewrite app_nil_r. }
  unfold fullParts in *. simpl. destruct (isUploaded w p); [apply IH|].
  destruct (parts w !! p) as [part|]; [|apply IH].
  case_if; [|apply IH]. destruct (OnPartFull w) as [[]|]; try done.
  rewrite IH. by rewrite <- app_assoc.
Qed.

Lemma notifyFullParts_submit w prev :
  OnPartFull w <> Some ShadowSpillEvict -> fst (notifyFullParts w prev) = w.
Proof.
  intros Hne. unfold notifyFullParts. destruct (OnPartFull w) eqn:E; [|done].
  case_if; [|done]. rewrite foldl_notify_submit; congruence || done.
Qed.

(** A buffer without parts has nothing to report. *)
Lemma notifyFullParts_empty w prev : parts w = ∅ -> notifyFullParts w prev = (w, []).
Proof.
  intros Hp. unfold notifyFullParts. destruct (OnPartFull w); [|done]. case_if; [|done].
  apply (foldl_inv (fun st => st = (w, []))); [done|]. intros st p _ ->.
  unfold notifyPart. rewrite Hp, lookup_empty. by case_if.
Qed.

(** ** Write *)

Lemma growTotal_wf wb end_ :
  wf wb -> smallFileData wb = None -> 0 <= end_ <= maxSize wb ->
  let wb' := if totalSize wb <? end_ then set_totalSize end_ wb else wb in
  wf wb' /\ wb' = set_totalSize (Z.max (totalSize wb) end_) wb.
Proof.
  intros Hwf Hs He. case_if; bool_prop.
  - rewrite Z.max_r by lia. split; [|done]. destruct Hwf. split; simpl; try done. congruence.
  - rewrite Z.max_l by lia. split; [done|]. by destruct wb.
Qed.

(** Setting the size and flags around the part loop gives the state of a write. *)
Lemma written_post wb wb1 offset m data :
  0 <= offset -> 0 <= m <= zlen data ->
  let wb0 := set_totalSize (Z.max (totalSize wb) (offset + zlen data)) wb in
  written wb0 wb1 offset m data 0 ->
  wf wb1 /\ sameConfig wb wb1 /\ totalSize wb1 = Z.max (totalSize wb) (offset + zlen data)
  /\ appendCursor wb1 = appendCursor wb /\ sequential wb1 = sequential wb
  /\ smallFileData wb1 = smallFileData wb
  /\ (m = zlen data -> writePost wb (set_touched true wb1) offset data)
  /\ (forall i, 0 <= i -> fileByte wb1 i =
        if decide (offset <= i < offset + m) then nthb data (i - offset) else fileByte wb i).
Proof.
  intros Hoff Hm wb0 [U W B L M D DM F].
  assert (forall i, 0 <= i -> fileByte wb1 i =
        if decide (offset <= i < offset + m) then nthb data (i - offset) else fileByte wb i) as Hb.
  { intros i Hi. rewrite B by done. decide_all. }
  rewrite U in *. split_and!; try done. intros ->. split; try done; [by destruct W|].
  intros Ha Hle Hs i Hi. simpl in *. destruct (decide (offset <= i < offset + zlen data)); [apply L; lia|].
  specialize (Ha Hs i ltac:(lia)). specialize (M (i / partSize wb)). lia.
Qed.

(** The part-mode body, on every branch. *)
Lemma writePartMode_cases wb offset data :
  wf wb -> smallFileData wb = None -> 0 <= offset -> offset + zlen data <= maxSize wb ->
  (exists wb1, writePost wb wb1 offset data /\ cursorAfter wb wb1 offset (offset + zlen data)
     /\ writePartMode wb offset data =
          (fst (notifyFullParts wb1 (appendCursor wb)), Done (uint32 (zlen data)),
           snd (notifyFullParts wb1 (appendCursor wb))))
  \/ (exists wb' m load err,
        writePartMode wb offset data = (wb', Failed (uint32 m) err, [])
        /\ LoadPart wb = Some load /\ load ((offset + m) / partSize wb + 1) = inr err
        /\ 0 <= m <= zlen data
        /\ wf wb' /\ sameConfig wb wb'
        /\ totalSize wb' = Z.max (totalSize wb) (offset + zlen data)
        /\ forall i, 0 <= i -> fileByte wb' i =
             if decide (offset <= i < offset + m) then nthb data (i - offset)
             else fileByte wb i).
Proof.
  intros Hwf Hs Hoff Hmax. pose proof (zlen_nonneg data). pose proof (wf_max _ Hwf).
  pose proof (wf_partSize _ Hwf). unfold writePartMode. rewrite wrap64_small by lia.
  destruct (growTotal_wf wb (offset + zlen data) Hwf Hs ltac:(lia)) as [Hwf0 E0].
  rewrite E0 in *. set (wb0 := set_totalSize _ wb) in *.
  destruct (writeLoop_cases (length data) wb0 offset data 0 Hwf0 Hs ltac:(lia) ltac:(lia)
    ltac:(unfold zlen; lia)) as (wb1 & m & o & -> & Hm & Hw & Ho).
  destruct (written_post wb wb1 offset m data Hoff ltac:(lia) Hw)
    as (? & ? & ? & Ec & Eq & ? & Hpost & Hb).
  destruct Ho as [[-> ->]|(load & err & Hl & He & ->)].
  - left. exists (advanceCursor (set_touched true wb1) offset (offset + zlen data)).
    split; [|split; [by apply cursorAfter_advance|]].
    + destruct (advanceCursor_shape (set_touched true wb1) offset (offset + zlen data))
        as (c & q & ->). apply writePost_cursor, Hpost. lia.
    + simpl. rewrite Ec. by destruct (notifyFullParts _ _).
  - right. exists wb1, m, load, err. split_and!; try done; lia.
Qed.

(** [Write] past the limit fails without a change. *)
Lemma write_efbig_aux wb offset data :
  wf wb -> 0 <= offset -> offset + zlen data <= max_int64 -> maxSize wb < offset + zlen data ->
  Write wb offset data = (wb, Failed 0 EFBIG, []).
Proof.
  intros Hwf Hoff Hov Hmax. unfold Write. simpl. pose proof (zlen_nonneg data).
  rewrite wrap64_small by lia. by rewrite (proj2 (Z.ltb_lt _ _)) by lia.
Qed.

(** What a migration keeps of the bookkeeping of parts. *)
Definition sameStore (wb w : WriteBuffer) : Prop :=
  uploadedParts w = uploadedParts wb /\ (dirtyResident wb -> dirtyResident w)
  /\ (allocated wb -> allocated w).

(** Below the limit [Write] is the small-file path or the part-mode body, on the
    buffer itself or on its migration. *)
Lemma Write_dispatch wb offset data :
  wf wb -> 0 <= offset -> offset + zlen data <= maxSize wb ->
  (exists wb', Write wb offset data = (wb', Done (uint32 (zlen data)), [])
     /\ writePost wb wb' offset data /\ cursorAfter wb wb' offset (offset + zlen data)
     /\ totalSize wb' <= smallFileMax wb /\ parts wb' = ∅)
  \/ (exists w, Write wb offset data = writePartMode w offset data
        /\ wf w /\ smallFileData w = None /\ sameFrame wb w /\ sameStore wb w
        /\ forall i, 0 <= i -> fileByte w i = fileByte wb i).
Proof.
  intros Hwf Hoff Hmax. pose proof (zlen_nonneg data). pose proof (wf_max _ Hwf).
  pose proof (wf_partSize _ Hwf). unfold Write. simpl. rewrite wrap64_small by lia.
  rewrite (proj2 (Z.ltb_ge (maxSize wb) _)) by lia.
  destruct (useSmallFile wb (offset + zlen data)) eqn:Eu.
  2: { right. exists wb. split; [done|]. split; [done|]. split; [|done].
       unfold useSmallFile in Eu. by destruct (smallFileData wb). }
  destruct (decide (offset + zlen data <= smallFileMax wb)) as [Hsm|Hsm].
  { left. by apply writeSmallFile_post. }
  right. unfold useSmallFile in Eu. destruct (smallFileData wb) as [s|] eqn:Es.
  2: { bool_prop. lia. }
  destruct (migrate_spec wb s Hwf Es) as (Hw & Hs & Hf & Hup & Hal & Hb).
  pose proof Hf as [(Ep & Em & Eps & Esm & El & Er & Eo) _].
  destruct (wf_small _ Hwf s Es) as (_ & Hnl & _).
  exists (migrateToPartMode wb). split.
  2: { split; [done|]. split; [done|]. split; [done|]. split; [|done].
       split; [done|]. split; [|done]. intros _ Hc. by rewrite El, Hnl in Hc. }
  unfold writeSmallFile. simpl. rewrite wrap64_small by lia.
  rewrite (proj2 (Z.ltb_ge (maxSize wb) _)), (proj2 (Z.ltb_lt (smallFileMax wb) _)) by lia.
  rewrite Em, (proj2 (Z.ltb_ge (maxSize wb) _)) by lia.
  assert (useSmallFile (migrateToPartMode wb) (offset + zlen data) = false) as ->; [|done].
  unfold useSmallFile. rewrite Hs, Esm.
  rewrite (proj2 (Z.leb_gt (offset + zlen data) (smallFileMax wb))) by lia.
  by rewrite !andb_false_r.
Qed.

(** A write into a buffer with the same file is a write into the buffer. *)
Lemma writePost_frame wb w wb' offset data :
  sameFrame wb w -> sameStore wb w -> (forall i, 0 <= i -> fileByte w i = fileByte wb i) ->
  writePost w wb' offset data -> writePost wb wb' offset data.
Proof.
  intros (Hc & Ht & Hd & _) (Hu & Hr & Ha) Hb [W C T B D DM To U R A].
  assert (partSize w = partSize wb) as Eps by (destruct Hc as (_&_&?&_); done).
  rewrite Eps, Ht, Hd in *. split; try done; try (by auto); [by etrans| |by rewrite U].
  intros i Hi. rewrite B by done. by rewrite Hb.
Qed.

(** Every outcome of [Write] below the limit. *)
Lemma Write_cases wb offset data :
  wf wb -> 0 <= offset -> offset + zlen data <= maxSize wb ->
  (exists wb1 wb' sub, Write wb offset data = (wb', Done (uint32 (zlen data)), sub)
     /\ writePost wb wb1 offset data /\ cursorAfter wb wb1 offset (offset + zlen data)
     /\ evictedFrom wb1 wb' /\ sub = snd (notifyFullParts wb1 (appendCursor wb))
     /\ (OnPartFull wb <> Some ShadowSpillEvict -> wb' = wb1))
  \/ (exists wb' m load err,
        Write wb offset data = (wb', Failed (uint32 m) err, [])
        /\ LoadPart wb = Some load /\ load ((offset + m) / partSize wb + 1) = inr err
        /\ 0 <= m <= zlen data
        /\ wf wb' /\ sameConfig wb wb'
        /\ totalSize wb' = Z.max (totalSize wb) (offset + zlen data)
        /\ forall i, 0 <= i -> fileByte wb' i =
             if decide (offset <= i < offset + m) then nthb data (i - offset)
             else fileByte wb i).
Proof.
  intros Hwf Hoff Hmax.
  destruct (Write_dispatch wb offset data Hwf Hoff Hmax) as
    [(wb' & E & Hp & Hcur & _ & Hsmall)|(w & -> & Hww & Hs & Hf & Hst & Hb)].
  { left. exists wb', wb', []. rewrite notifyFullParts_empty by done.
    split_and!; try done. apply evictedFrom_refl. by destruct Hp. }
  pose proof Hf as [(Ep & Em & Eps & Esm & El & Er & Eo) (Ht & _)].
  destruct (writePartMode_cases w offset data Hww Hs Hoff ltac:(lia)) as
    [(wb1 & Hp & Hcur & ->)|(wb' & m & load & err & -> & Hl & He & Hm & Hw' & Hc & Ht' & Hb')].
  - destruct Hf as (Hcf & Hft & Hfd & Hfto & Hfc & Hfs).
    left. exists wb1, (fst (notifyFullParts wb1 (appendCursor w))),
      (snd (notifyFullParts wb1 (appendCursor w))).
    split_and!; [done|by eapply (writePost_frame wb w)| | |by rewrite Hfc|].
    + unfold cursorAfter, advanceCursor in *. rewrite Hfc in Hcur.
      destruct Hcur as [-> ->]. split; repeat case_if; simpl; congruence.
    + apply notifyFullParts_evicted. by destruct Hp.
    + intros Hne. apply notifyFullParts_submit. destruct (wp_config _ _ _ _ Hp) as (_&_&_&_&_&_&->).
      congruence.
  - right. exists wb', m, load, err. rewrite El in Hl. rewrite Eps in He.
    split_and!; try done; try lia; [by etrans; [apply Hf|]|].
    intros i Hi. rewrite Hb' by done. by rewrite Hb.
Qed.

(** ** Truncate *)

(** Marking a range dirty. *)
Lemma foldl_dirty (l : list Z) (d : gmap Z bool) p :
  foldl (fun d i => <[i := true]> d) d l !! p = if decide (p ∈ l) then Some true else d !! p.
Proof.
  revert d. induction l as [|i l IH]; intros d; simpl; [done|].
  rewrite IH. destruct (decide (p ∈ l)); [by rewrite decide_True by set_solver|].
  destruct (decide (p = i)) as [->|].
  - rewrite lookup_insert_eq, decide_True by set_solver. done.
  - rewrite lookup_insert_ne, decide_False by set_solver. done.
Qed.

Lemma markDirty_lookup wb a b p :
  0 < partSize wb -> 0 <= a ->
  dirtyParts (markDirty wb a b) !! p =
    if decide (a < b /\ a / partSize wb <= p <= (b - 1) / partSize wb)
    then Some true else dirtyParts wb !! p.
Proof.
  intros Hps Ha. unfold markDirty. case_if; bool_prop.
  - rewrite decide_False by lia. done.
  - simpl. rewrite foldl_dirty, !quot_div by lia.
    destruct (decide (p ∈ _)) as [Hin|Hin]; rewrite elem_of_seqZ in Hin; decide_all.
Qed.

Lemma markDirty_upd wb a b :
  markDirty wb a b = upd wb (parts wb) (dirtyParts (markDirty wb a b)) (curMemory wb).
Proof. unfold markDirty. case_if; by destruct wb. Qed.

(** The loop that drops the parts from [n] on. *)
Lemma foldl_dropPart n l : forall wb,
  curMemory wb = map_sum zlen (parts wb) ->
  exists ps d, foldl (dropPart n) wb l = upd wb ps d (map_sum zlen ps)
    /\ (forall k, ps !! k = if decide (n <= k /\ k ∈ l.*1) then None else parts wb !! k)
    /\ (forall k, k < n -> d !! k = dirtyParts wb !! k).
Proof.
  induction l as [|[k0 part0] l IH]; intros wb Hm; simpl.
  { exists (parts wb), (dirtyParts wb). rewrite <- Hm, upd_id. split; [done|].
    split; [|done]. intros k. rewrite decide_False; [done|set_solver]. }
  unfold dropPart at 2. simpl. case_if; bool_prop.
  - set (wb1 := set_dirtyParts _ _).
    destruct (IH wb1) as (ps & d & -> & Hps & Hd).
    { unfold wb1. simpl. destruct (parts wb !! k0) eqn:E; simpl.
      - rewrite (map_sum_delete _ _ k0 l0) by done. lia.
      - rewrite delete_id, zlen_nil by done. lia. }
    exists ps, d. split; [done|]. split.
    + intros k. rewrite Hps. unfold wb1. simpl. destruct (decide (k = k0)) as [->|].
      * rewrite lookup_delete_eq. rewrite (decide_True (P := n <= k0 /\ k0 ∈ k0 :: _)) by
          (split; [done|apply elem_of_cons; by left]). by case_decide.
      * rewrite lookup_delete_ne by done.
        apply decide_ext. set_solver.
    + intros k Hk. rewrite Hd by done. unfold wb1. simpl. rewrite lookup_delete_ne by lia. done.
  - destruct (IH wb Hm) as (ps & d & -> & Hps & Hd). exists ps, d. split; [done|].
    split; [|done]. intros k. rewrite Hps. apply decide_ext. rewrite elem_of_cons.
    split; [tauto|]. intros [? [->|?]]; [lia|done].
Qed.

Lemma dropParts_all n wb :
  curMemory wb = map_sum zlen (parts wb) ->
  exists ps d, foldl (dropPart n) wb (map_to_list (parts wb)) = upd wb ps d (map_sum zlen ps)
    /\ (forall k, ps !! k = if decide (n <= k) then None else parts wb !! k)
    /\ (forall k, k < n -> d !! k = dirtyParts wb !! k).
Proof.
  intros Hm. destruct (foldl_dropPart n (map_to_list (parts wb)) wb Hm) as (ps & d & E & Hps & Hd).
  exists ps, d. split; [done|]. split; [|done]. intros k. rewrite Hps.
  destruct (parts wb !! k) as [part|] eqn:Ek; [|by repeat case_decide].
  assert (k ∈ (map_to_list (parts wb)).*1) as Hin.
  { apply list_elem_of_fmap. exists (k, part). split; [done|]. by apply elem_of_map_to_list. }
  repeat case_decide; tauto || done.
Qed.

(** The last surviving part, cut to its first [off] bytes. *)
Definition trimPart (off : Z) (part : bytes) : bytes :=
  if off <? zlen part then gslice part 0 off else part.

Lemma nthb_trimPart off part o :
  0 <= off -> nthb (trimPart off part) o = if decide (o < off) then nthb part o else x00.
Proof.
  intros. unfold trimPart. pose proof (zlen_nonneg part). case_if; bool_prop.
  - rewrite nthb_gslice by lia. rewrite Z.sub_0_r, Z.add_0_l.
    destruct (decide (0 <= o)); decide_all. by rewrite nthb_neg by lia.
  - case_decide; [done|]. by rewrite nthb_ge by lia.
Qed.

Lemma zlen_trimPart off part :
  0 <= off -> zlen (trimPart off part) = Z.min off (zlen part).
Proof.
  intros. unfold trimPart. case_if; bool_prop; [rewrite zlen_gslice|]; lia.
Qed.

(** The branch that cuts the last part is an insertion of the cut part. *)
Lemma trimLast_eq wb ps d idx off :
  0 <= off ->
  (match ps !! idx with
   | Some part =>
       if off <? zlen part then
         set_parts (<[idx := gslice part 0 off]> ps)
           (set_curMemory (map_sum zlen ps - (zlen part - off)) (upd wb ps d (map_sum zlen ps)))
       else upd wb ps d (map_sum zlen ps)
   | None => upd wb ps d (map_sum zlen ps)
   end) = (let ps' := alter (trimPart off) idx ps in upd wb ps' d (map_sum zlen ps')).
Proof.
  intros Hoff. destruct (ps !! idx) as [part|] eqn:E; simpl.
  - assert (alter (trimPart off) idx ps = <[idx := trimPart off part]> ps) as ->.
    { rewrite <- (insert_id ps idx part) at 1 by done.
      rewrite alter_insert_eq. done. }
    rewrite map_sum_insert, E. simpl. rewrite zlen_trimPart by done.
    unfold trimPart. case_if; bool_prop.
    + rewrite Z.min_l by lia.
      replace (map_sum zlen ps + off - zlen part)
        with (map_sum zlen ps - (zlen part - off)) by lia. done.
    + rewrite Z.min_r by lia. rewrite insert_id by done.
      replace (map_sum zlen ps + zlen part - zlen part) with (map_sum zlen ps) by lia. done.
  - assert (alter (trimPart off) idx ps = ps) as ->; [|done].
    apply map_eq. intros k. rewrite lookup_alter. case_decide; [|done]. subst. by rewrite E.
Qed.

(** The parts and dirty flags [shrinkParts] leaves. *)
Lemma shrinkParts_shape wb size cur :
  wf wb -> smallFileData wb = None -> 0 <= size < cur ->
  exists ps d, shrinkParts wb size cur = set_totalSize size (upd wb ps d (map_sum zlen ps))
    /\ (forall k, ps !! k =
          if decide (partCount wb size <= k) then None
          else (if decide (k = partCount wb size - 1)
                then trimPart (size - k * partSize wb) else id) <$> parts wb !! k)
    /\ (0 < size -> d !! ((size - 1) / partSize wb) = Some true)
    /\ (forall k, k < partCount wb size -> dirtyParts wb !! k = Some true -> d !! k = Some true).
Proof.
  intros Hwf Hs Hsz. pose proof (wf_partSize _ Hwf) as Hps. unfold shrinkParts.
  set (n := partCount wb size).
  pose proof (partCount_bounds wb size Hps ltac:(lia)) as Hn. fold n in Hn.
  assert ((if 0 <? size then markDirty wb size cur else markDirty wb 0 cur)
          = markDirty wb size cur) as ->.
  { case_if; bool_prop; [done|]. by replace size with 0 by lia. }
  rewrite markDirty_upd. set (dm := dirtyParts (markDirty wb size cur)).
  rewrite (wf_mem _ Hwf).
  change (partCount (upd wb (parts wb) dm (map_sum zlen (parts wb))) size) with n.
  destruct (dropParts_all n (upd wb (parts wb) dm (map_sum zlen (parts wb))) eq_refl)
    as (ps & d & -> & Hlk & Hd). rewrite upd_upd. simpl in Hlk, Hd |- *.
  set (ps' := if (0 <? size) && (0 <? n)
              then alter (trimPart (size - (n - 1) * partSize wb)) (n - 1) ps else ps).
  set (d' := if (0 <? size) && (Z.rem size (partSize wb) =? 0) && (0 <? n)
             then <[n - 1 := true]> d else d).
  exists ps', d'. split; [|split; [|split]].
  - rewrite (trimLast_eq wb ps d (n - 1)) by nia.
    unfold ps', d'. destruct ((0 <? size) && (0 <? n)); simpl; case_if; done.
  - intros k. unfold ps'. destruct ((0 <? size) && (0 <? n)) eqn:E; bool_prop.
    + rewrite lookup_alter, !Hlk. repeat case_decide; subst; try lia; try done.
      by destruct (parts wb !! k).
    + assert (n <= 0) by (destruct E; bool_prop; nia). rewrite Hlk.
      case_decide; [done|]. destruct (parts wb !! k) eqn:Ek; [|done].
      apply (wf_parts _ Hwf) in Ek. lia.
  - intros Hpos. assert ((size - 1) / partSize wb = n - 1) as E1.
    { apply div_part_iff; [done|]. lia. }
    rewrite E1. unfold d'. destruct ((0 <? size) && _ && _) eqn:E; bool_prop.
    + by rewrite lookup_insert_eq.
    + rewrite Hd by lia. unfold dm. rewrite markDirty_lookup by lia.
      rewrite decide_True; [done|]. split; [lia|].
      rewrite rem_mod in E by lia. destruct (div_mod_bounds size (partSize wb) Hps) as [Es ?].
      assert (size mod partSize wb <> 0) as Hne.
      { destruct E as [E|E]; bool_prop; [destruct E; bool_prop; lia|nia]. }
      assert (size <> partSize wb * n).
      { intros Hc. apply Hne. rewrite Hc, Z.mul_comm. apply Z.mod_mul. lia. }
      assert (size / partSize wb = n - 1) as -> by (apply div_part_iff; lia).
      split; [lia|]. rewrite <- E1. apply Z.div_le_mono; lia.
  - intros k Hk Hdk. assert (d !! k = Some true) as Hd1.
    { rewrite Hd by done. unfold dm. rewrite markDirty_lookup by lia. by case_decide. }
    unfold d'. case_if; [|done]. destruct (decide (k = n - 1)) as [->|].
    + by rewrite lookup_insert_eq.
    + by rewrite lookup_insert_ne by done.
Qed.

(** [shrinkParts]: the bytes below [size] stay, what is left past it is only what
    the remote loader would bring back. *)
Lemma shrinkParts_spec wb size :
  wf wb -> smallFileData wb = None -> 0 <= size < totalSize wb ->
  let wb' := shrinkParts wb size (totalSize wb) in
  wf wb' /\ sameConfig wb wb' /\ totalSize wb' = size /\ smallFileData wb' = None
  /\ (forall i, 0 <= i < size -> fileByte wb' i = fileByte wb i)
  /\ (forall i, size <= i -> fileByte wb' i = x00
        \/ fileByte wb' i = remoteByte wb (i / partSize wb) (i mod partSize wb))
  /\ (0 < size -> dirtyParts wb' !! ((size - 1) / partSize wb) = Some true)
  /\ (forall k, k < partCount wb size -> dirtyParts wb !! k = Some true ->
        dirtyParts wb' !! k = Some true).
Proof.
  intros Hwf Hs Hsz. pose proof (wf_partSize _ Hwf) as Hps. pose proof (wf_total _ Hwf).
  destruct (shrinkParts_shape wb size (totalSize wb) Hwf Hs Hsz) as (ps & d & -> & Hlk & Hd & Hdm).
  pose proof (partCount_bounds wb size Hps ltac:(lia)) as Hn. set (n := partCount wb size) in *.
  assert (wf (upd wb ps d (map_sum zlen ps))) as Hwf1.
  { apply wf_upd; [done..|]. intros p part Hp. rewrite Hlk in Hp. case_decide; [done|].
    destruct (parts wb !! p) as [part0|] eqn:E; [|done]. simplify_eq/=.
    apply (wf_parts _ Hwf) in E. case_decide; [|done]. rewrite zlen_trimPart; nia. }
  split_and!; try done.
  - destruct Hwf1. split; simpl in *; try done; [lia|]. congruence.
  - intros i Hi. unfold fileByte, remoteByte, isUploaded. simpl. rewrite Hs, Hlk.
    pose proof (partCount_lt wb size i Hps Hi) as Hlt. fold n in Hlt.
    rewrite decide_False by lia. destruct (parts wb !! _); [|done]. simpl.
    case_decide as E; [|done]. destruct (div_mod_bounds i (partSize wb) Hps) as [Ei ?].
    rewrite nthb_trimPart by nia. rewrite decide_True; [done|]. lia.
  - intros i Hi. unfold fileByte. simpl. rewrite Hs, Hlk. case_decide; [by right|].
    destruct (div_mod_bounds i (partSize wb) Hps) as [Ei ?].
    assert (i / partSize wb = n - 1) as E by nia. rewrite E in *.
    destruct (parts wb !! (n - 1)); [left|by right]. simpl. rewrite decide_True by done.
    rewrite nthb_trimPart by nia. rewrite decide_False; [done|]. lia.
Qed.

(** The bytes past the end after a shrink: zeros in the part that was cut, if it is in
    memory, and otherwise what a load of the part brings. *)
Lemma shrinkParts_tail wb size i :
  wf wb -> smallFileData wb = None -> 0 <= size < totalSize wb -> size <= i ->
  fileByte (shrinkParts wb size (totalSize wb)) i
  = if decide (i / partSize wb < partCount wb size /\ is_Some (parts wb !! (i / partSize wb))) then x00
    else remoteByte wb (i / partSize wb) (i mod partSize wb).
Proof.
  intros Hwf Hs Hsz Hi. pose proof (wf_partSize _ Hwf) as Hps.
  destruct (shrinkParts_shape wb size (totalSize wb) Hwf Hs Hsz) as (ps & d & -> & Hlk & _).
  pose proof (partCount_bounds wb size Hps ltac:(lia)) as Hn. set (n := partCount wb size) in *.
  unfold fileByte. simpl. rewrite Hs, Hlk. destruct (div_mod_bounds i (partSize wb) Hps) as [Ei ?]. case_decide as E1.
  - rewrite decide_False; [done|lia].
  - assert (i / partSize wb = n - 1) as E by nia. rewrite E in *.
    destruct (parts wb !! (n - 1)) as [part|]; simpl.
    2: { case_decide as Hd; [by destruct Hd as [_ [? ?]]|done]. }
    rewrite !decide_True by (try split; done || lia). rewrite nthb_trimPart by nia. rewrite decide_False; [done|]. lia.
Qed.

(** The state after [Truncate] to [size]. *)
Record truncatePost (wb wb' : WriteBuffer) (size : Z) : Prop := {
  tp_wf : wf wb';
  tp_config : sameConfig wb wb';
  tp_total : totalSize wb' = size;
  tp_touched : touched wb' = true;
  tp_keep : forall i, 0 <= i < Z.min size (totalSize wb) -> fileByte wb' i = fileByte wb i;
  tp_grow : totalSize wb <= size -> forall i, 0 <= i -> fileByte wb' i = fileByte wb i;
  tp_eof : size < totalSize wb -> forall i, size <= i -> fileByte wb' i = x00
    \/ fileByte wb' i = remoteByte wb (i / partSize wb) (i mod partSize wb);
  tp_dirty_last : size < totalSize wb -> 0 < size ->
    dirtyParts wb' !! ((size - 1) / partSize wb) = Some true;
  tp_dirty_new : forall i, totalSize wb <= i < size ->
    dirtyParts wb' !! (i / partSize wb) = Some true;
  tp_dirty_mono : forall k, k * partSize wb < size -> dirtyParts wb !! k = Some true ->
    dirtyParts wb' !! k = Some true
}.

Lemma set_touched_id wb : touched wb = true -> set_touched true wb = wb.
Proof. destruct wb. simpl. by intros ->. Qed.

Lemma extendParts_post wb size :
  wf wb -> smallFileData wb = None -> touched wb = true ->
  totalSize wb < size <= maxSize wb ->
  truncatePost wb (set_totalSize size (markDirty wb (totalSize wb) size)) size.
Proof.
  intros Hwf Hs Ht Hsz. pose proof (wf_partSize _ Hwf). pose proof (wf_total _ Hwf).
  pose proof (markDirty_lookup wb (totalSize wb) size) as Hd. rewrite markDirty_upd in *.
  set (d := dirtyParts (markDirty _ _ _)) in *. simpl in Hd. split; simpl; try done; try lia.
  - destruct Hwf. split; simpl in *; try done; try lia. congruence.
  - intros i Hi. rewrite Hd by lia. rewrite decide_True; [done|].
    split; [lia|]. split; apply Z.div_le_mono; lia.
  - intros k _ Hk. rewrite Hd by lia. destruct (decide _); done.
Qed.

Lemma shrinkSmall_post wb s size :
  wf wb -> smallFileData wb = Some s -> touched wb = true -> 0 <= size < totalSize wb ->
  truncatePost wb
    (set_dirtyParts (<[0 := true]> (dirtyParts wb))
       (set_totalSize size (set_smallFileData (Some (Slice (backing s) size)) wb))) size.
Proof.
  intros Hwf Es Ht Hsz. destruct (wf_small _ Hwf s Es) as (Hp & Hl & Hlen & Hcap & Hmax).
  pose proof (wf_total _ Hwf). split; simpl; try done; try lia.
  - destruct Hwf. split; simpl; try done; try lia. intros s' [= <-]. unfold cap in *. simpl.
    split_and!; try done; lia.
  - intros i Hi. unfold fileByte. simpl. rewrite Es, !nthb_contents by (simpl; lia). simpl.
    decide_all.
  - intros _ i Hi. left. unfold fileByte. simpl. rewrite nthb_contents by (simpl; lia). simpl.
    decide_all.
  - intros _ Hpos. rewrite Z.div_small by lia. by rewrite lookup_insert_eq.
  - intros k _ Hk. destruct (decide (k = 0)) as [->|].
    + by rewrite lookup_insert_eq.
    + by rewrite lookup_insert_ne by done.
Qed.

Lemma extendSmall_post wb s size :
  wf wb -> smallFileData wb = Some s -> totalSize wb < size <= smallFileMax wb ->
  size <= maxSize wb -> truncatePost wb (extendSmall wb s size) size.
Proof.
  intros Hwf Es Hsz Hm. destruct (wf_small _ Hwf s Es) as (Hp & Hl & Hlen & Hcap & Hmax).
  pose proof (wf_total _ Hwf). unfold extendSmall. set (s' := if cap s <? size then _ else _).
  assert (slen s' = size /\ size <= cap s'
          /\ forall i, nthb (contents s') i = nthb (contents s) i) as (Hs1 & Hs2 & Hs3).
  { unfold s'. destruct (cap s <? size) eqn:Ecap; bool_prop; unfold cap in *; simpl.
    - set (nc := if size <? 1024 then 1024 else size).
      assert (size <= nc) by (unfold nc; case_if; bool_prop; lia).
      rewrite zlen_grow by lia. split_and!; [done|lia|]. intros i.
      rewrite (nthb_contents (Slice _ _)) by (simpl; lia). simpl.
      rewrite nthb_grow by (rewrite contents_zlen; unfold cap; lia).
      case_decide; [done|]. rewrite nthb_contents by lia. decide_all.
    - rewrite zlen_clear_range by lia. split_and!; [done|lia|]. intros i.
      rewrite !nthb_contents by (simpl; lia). simpl.
      rewrite nthb_clear_range by lia. decide_all. }
  split; simpl; try done; try lia.
  - destruct Hwf. split; simpl; try done; try lia. intros s0 [= <-]. split_and!; try done; lia.
  - intros i Hi. unfold fileByte. simpl. by rewrite Es.
  - intros _ i Hi. unfold fileByte. simpl. by rewrite Es.
  - intros i Hi. rewrite Z.div_small by lia. by rewrite lookup_insert_eq.
  - intros k _ Hk. destruct (decide (k = 0)) as [->|].
    + by rewrite lookup_insert_eq.
    + by rewrite lookup_insert_ne by done.
Qed.

(** Below the limit [Truncate] always succeeds. *)
Lemma Truncate_post wb size :
  wf wb -> size <= maxSize wb ->
  exists wb', Truncate wb size = (wb', Done 0) /\ truncatePost wb wb' (Z.max 0 size).
Proof.
  intros Hwf Hmax. unfold Truncate, truncateDepth. rewrite (proj2 (Z.ltb_ge _ _)) by lia.
  assert ((if size <? 0 then 0 else size) = Z.max 0 size) as ->.
  { case_if; bool_prop; lia. }
  assert (Z.max 0 size <= maxSize wb) as Hmax' by (destruct (wf_total _ Hwf); lia).
  clear Hmax. assert (0 <= Z.max 0 size) as H0 by lia. revert Hmax' H0.
  generalize (Z.max 0 size). clear size. intros size Hmax Hsz0.
  set (wb0 := set_touched true wb).
  assert (wf wb0) as Hwf0 by (destruct Hwf; by split).
  enough (exists wb',
    (if size <? totalSize wb0 then _ else _) = (wb', Done 0) /\ truncatePost wb0 wb' size)
    as (wb' & E & []) by (exists wb'; split; [exact E|by split]).
  change (maxSize wb) with (maxSize wb0) in Hmax.
  assert (touched wb0 = true) as Ht by done. clearbody wb0. clear wb Hwf.
  destruct (size <? totalSize wb0) eqn:E1; bool_prop.
  - destruct (smallFileData wb0) as [s|] eqn:Es.
    + destruct (wf_small _ Hwf0 s Es) as (_ & _ & ? & ? & _).
      rewrite (proj2 (Z.ltb_ge (cap s) size)) by lia.
      eexists. split; [done|]. exact (shrinkSmall_post wb0 s size Hwf0 Es Ht ltac:(lia)).
    + destruct (shrinkParts_spec wb0 size Hwf0 Es ltac:(lia)) as (W & C & T & S & K & E & D & DM).
      eexists. split; [done|]. split; try done; try lia.
      * destruct (shrinkParts_shape wb0 size (totalSize wb0) Hwf0 Es ltac:(lia))
          as (ps & d & -> & _). done.
      * intros i Hi. apply K. lia.
      * intros k Hk. apply DM. pose proof (wf_partSize _ Hwf0) as Hps.
        pose proof (partCount_bounds wb0 size Hps ltac:(lia)). nia.
  - destruct (totalSize wb0 <? size) eqn:E2; bool_prop.
    2: { exists wb0. split; [done|]. split; try done; try lia. }
    destruct (smallFileData wb0) as [s|] eqn:Es.
    2: { eexists. split; [done|]. apply extendParts_post; done || lia. }
    case_if; bool_prop.
    { eexists. split; [done|]. apply extendSmall_post; done || lia. }
    destruct (migrate_spec wb0 s Hwf0 Es) as (Hw & Hs & Hf & _ & Hb).
    set (w := migrateToPartMode wb0) in *.
    pose proof Hf as [(Ep & Em & Eps & Esm & El & Er & Eo) (Etot & Ed & Etc & _)].
    rewrite Em, (proj2 (Z.ltb_ge (maxSize wb0) size)), (proj2 (Z.ltb_ge size 0)) by lia.
    simpl. rewrite Etot, (proj2 (Z.ltb_ge size _)), (proj2 (Z.ltb_lt (totalSize wb0) size)) by lia.
    rewrite Hs. eexists. split; [done|].
    rewrite set_touched_id by congruence.
    destruct (extendParts_post w size Hw Hs ltac:(congruence) ltac:(lia))
      as [W C T To K G F DL DN DM].
    rewrite Etot, Eps, Ed in *. split; try done; try lia.
    + etrans; [apply Hf|done].
    + intros i Hi. rewrite K by lia. apply Hb. lia.
    + intros H i Hi. rewrite G by done. by apply Hb.
Qed.

(** ** Readers *)

Lemma memByte_part wb i :
  smallFileData wb = None ->
  memByte wb i = nthb (default [] (parts wb !! (i / partSize wb))) (i mod partSize wb).
Proof.
  intros Hs. unfold memByte. rewrite Hs. destruct (parts wb !! _); [done|].
  simpl. by rewrite nthb_nil.
Qed.

(** Copying the parts [a .. a + k) into a buffer of the file's size. *)
Lemma foldl_copyParts wb k : forall a buf,
  wf wb -> 0 <= a -> zlen buf = totalSize wb -> a + Z.of_nat k <= partCount wb (totalSize wb) ->
  let buf' := foldl (fun buf i => match parts wb !! i with
                                  | Some part => gcopy buf (i * partSize wb) part
                                  | None => buf end) buf (seqZ a (Z.of_nat k)) in
  zlen buf' = totalSize wb
  /\ forall i, 0 <= i < totalSize wb ->
       nthb buf' i =
         if decide (a <= i / partSize wb < a + Z.of_nat k
                    /\ i mod partSize wb < zlen (default [] (parts wb !! (i / partSize wb))))
         then nthb (default [] (parts wb !! (i / partSize wb))) (i mod partSize wb)
         else nthb buf i.
Proof.
  induction k as [|k IH]; intros a buf Hwf Ha Hbuf Hk.
  { simpl. split; [done|]. intros i Hi. rewrite decide_False by lia. done. }
  pose proof (wf_partSize _ Hwf) as Hps. pose proof (wf_total _ Hwf).
  rewrite seqZ_cons by lia. replace (Z.pred (Z.of_nat (S k))) with (Z.of_nat k) by lia. simpl.
  pose proof (partCount_bounds wb (totalSize wb) Hps ltac:(lia)).
  set (buf1 := match parts wb !! a with Some part => _ | None => _ end).
  assert (zlen buf1 = totalSize wb
    /\ forall i, 0 <= i < totalSize wb ->
         nthb buf1 i = if decide (i / partSize wb = a
                          /\ i mod partSize wb < zlen (default [] (parts wb !! a)))
           then nthb (default [] (parts wb !! a)) (i mod partSize wb) else nthb buf i)
    as [Hl1 Hb1].
  { unfold buf1. destruct (parts wb !! a) as [part|] eqn:E; simpl.
    - assert (0 <= a * partSize wb <= zlen buf) by nia.
      split; [by rewrite zlen_gcopy|]. intros i Hi. rewrite nthb_gcopy by lia.
      destruct (wf_parts _ Hwf _ _ E) as [_ Hpl].
      destruct (div_mod_bounds i (partSize wb) Hps) as [Ei ?].
      destruct (decide (i / partSize wb = a)) as [Ea|Ea].
      + rewrite Ea in Ei. repeat case_decide; try lia; [f_equal; lia|done].
      + rewrite (decide_False (P := i / _ = a /\ _)) by tauto.
        rewrite decide_False; [done|]. rewrite div_part_iff in Ea by done. lia.
    - split; [done|]. intros i Hi. rewrite decide_False; [done|]. rewrite zlen_nil.
      destruct (div_mod_bounds i (partSize wb) Hps). lia. }
  destruct (IH (Z.succ a) buf1 Hwf ltac:(lia) Hl1 ltac:(lia)) as [Hl2 Hb2].
  split; [done|]. intros i Hi. rewrite Hb2, Hb1 by done.
  destruct (decide (i / partSize wb = a)) as [Ea|Ea].
  - rewrite Ea. repeat case_decide; done || lia.
  - repeat case_decide; done || lia.
Qed.

Lemma Bytes_mem wb : wf wb -> Bytes wb = tabulate (memByte wb) 0 (totalSize wb).
Proof.
  intros Hwf. pose proof (wf_total _ Hwf). pose proof (wf_partSize _ Hwf).
  unfold Bytes. case_if; bool_prop.
  { by replace (totalSize wb) with 0 by lia. }
  unfold smallFileBytes. destruct (smallFileData wb) as [s|] eqn:Es.
  - destruct (wf_small _ Hwf s Es) as (_ & _ & Hlen & Hcap & _).
    rewrite (proj2 (Z.ltb_ge _ _)) by lia.
    apply bytes_eq; [rewrite zlen_grow, zlen_tabulate; lia|].
    intros i Hi. rewrite nthb_grow, nthb_tabulate by (rewrite contents_zlen; lia).
    rewrite zlen_grow in Hi by lia. rewrite decide_True by lia. unfold memByte. by rewrite Es.
  - pose proof (partCount_bounds wb (totalSize wb) ltac:(lia) ltac:(lia)).
    rewrite <- (Z2Nat.id (partCount wb (totalSize wb))) by nia.
    destruct (foldl_copyParts wb (Z.to_nat (partCount wb (totalSize wb))) 0
      (gmake (totalSize wb)) Hwf ltac:(lia) ltac:(rewrite zlen_gmake; lia) ltac:(nia)) as [Hl Hb].
    apply bytes_eq; [rewrite zlen_tabulate; lia|]. intros i Hi. rewrite Hl in Hi.
    rewrite Hb by done. rewrite nthb_tabulate, (decide_True (P := 0 <= i < _)) by lia.
    rewrite memByte_part, (Z.add_0_l i) by done.
    pose proof (partCount_lt wb (totalSize wb) i ltac:(lia) Hi).
    assert (0 <= i / partSize wb) by (apply Z.div_pos; lia).
    case_decide; [done|]. rewrite nthb_gmake, nthb_ge; [done|]. lia.
Qed.

(** One chunk of [ReadAt]. *)
Lemma readChunk_spec wb p o n c buf :
  0 <= o -> 0 <= n -> 0 <= c -> c + n <= zlen buf ->
  let buf' := readChunk wb p o n c buf in
  zlen buf' = zlen buf
  /\ forall j, nthb buf' j = if decide (c <= j < c + n)
                             then nthb (default [] (parts wb !! p)) (o + (j - c)) else nthb buf j.
Proof.
  intros Ho Hn Hc Hbuf. unfold readChunk.
  assert (forall part, zlen part <= o ->
    zlen (clear_range buf c (c + n)) = zlen buf
    /\ forall j, nthb (clear_range buf c (c + n)) j =
         if decide (c <= j < c + n) then nthb part (o + (j - c)) else nthb buf j) as Hzero.
  { intros part Hp. split; [by rewrite zlen_clear_range by lia|]. intros j.
    rewrite nthb_clear_range by lia. case_decide; [|done]. rewrite nthb_ge; [done|lia]. }
  destruct (parts wb !! p) as [part|]; simpl; [|apply Hzero; rewrite zlen_nil; lia].
  case_if; bool_prop; [case_if; bool_prop; [|by apply Hzero]|].
  - assert (zlen (gslice part o (zlen part)) = zlen part - o) as E by (rewrite zlen_gslice; lia).
    rewrite E. rewrite zlen_clear_range, zlen_gcopy by (rewrite ?zlen_gcopy; lia).
    split; [done|]. intros j. rewrite nthb_clear_range by (rewrite ?zlen_gcopy; lia).
    rewrite nthb_gcopy, E by lia. rewrite nthb_gslice by lia.
    repeat case_decide; try lia; try done.
    all: rewrite ?nthb_ge by lia; done.
  - assert (zlen (gslice part o (o + n)) = n) as E by (rewrite zlen_gslice; lia).
    split; [rewrite zlen_gcopy; lia|]. intros j. rewrite nthb_gcopy, E by lia.
    rewrite nthb_gslice by lia. repeat case_decide; try lia; done.
Qed.

Lemma readLoop_spec wb total fuel : forall pos copied buf,
  wf wb -> smallFileData wb = None -> 0 <= pos -> 0 <= copied <= total ->
  total - copied <= Z.of_nat fuel -> total <= zlen buf ->
  exists buf', readLoop fuel wb pos copied total buf = Some buf' /\ zlen buf' = zlen buf
    /\ forall j, nthb buf' j = if decide (copied <= j < total)
                               then memByte wb (pos + (j - copied)) else nthb buf j.
Proof.
  induction fuel as [|fuel IH]; intros pos copied buf Hwf Hs Hpos Hc Hf Hb; simpl.
  { rewrite (proj2 (Z.ltb_ge _ _)) by lia. exists buf. split_and!; [done..|].
    intros j. by rewrite decide_False by lia. }
  destruct (copied <? total) eqn:E; bool_prop.
  2: { exists buf. split_and!; [done..|]. intros j. by rewrite decide_False by lia. }
  pose proof (wf_partSize _ Hwf) as Hps. rewrite quot_div, rem_mod by lia.
  destruct (div_mod_bounds pos (partSize wb) Hps) as [Epos Hmod].
  set (n := if total - copied <? partSize wb - pos mod partSize wb then _ else _).
  assert (n = Z.min (partSize wb - pos mod partSize wb) (total - copied)) as Hn.
  { unfold n. case_if; bool_prop; lia. }
  destruct (readChunk_spec wb (pos / partSize wb) (pos mod partSize wb) n copied buf)
    as [Hl1 Hb1]; [lia..|].
  destruct (IH (pos + n) (copied + n) (readChunk wb (pos / partSize wb) (pos mod partSize wb) n
    copied buf) Hwf Hs ltac:(lia) ltac:(lia) ltac:(lia) ltac:(lia)) as (buf' & -> & Hl2 & Hb2).
  exists buf'. split_and!; [done|lia|]. intros j. rewrite Hb2, Hb1.
  destruct (decide (copied <= j < copied + n)) as [Hj|Hj].
  - rewrite (decide_False (P := copied + n <= _ < _)) by lia.
    rewrite decide_True by lia. rewrite memByte_part by done.
    set (i := pos + (j - copied)).
    assert (i / partSize wb = pos / partSize wb) as Ei by (apply div_part_iff; lia).
    rewrite Ei. f_equal. destruct (div_mod_bounds i (partSize wb) Hps) as [Ei' _]. lia.
  - repeat case_decide; try lia; try done. f_equal. lia.
Qed.

(** [ReadAt] reads the memory, clamped to the end of the file. *)
Lemma ReadAt_mem wb offset buf :
  wf wb -> 0 <= offset -> offset + zlen buf <= max_int64 ->
  let n := Z.max 0 (Z.min (zlen buf) (totalSize wb - offset)) in
  ReadAt wb offset buf = Some (n, gcopy buf 0 (tabulate (memByte wb) offset n)).
Proof.
  intros Hwf Hoff Hov n. pose proof (wf_total _ Hwf). pose proof (zlen_nonneg buf).
  pose proof (wf_max _ Hwf). pose proof (wf_partSize _ Hwf).
  assert (n = 0 -> Some (0, buf) = Some (n, gcopy buf 0 (tabulate (memByte wb) offset n))) as Hz0.
  { intros ->. do 2 f_equal. change (tabulate (memByte wb) offset 0) with (@nil byte).
    apply bytes_eq; [rewrite zlen_gcopy; lia|]. intros i Hi.
    rewrite nthb_gcopy by lia. change (zlen []) with 0. by rewrite decide_False by lia. }
  unfold ReadAt. case_if; bool_prop; [apply Hz0; lia|].
  rewrite (wrap64_small (offset + zlen buf)) by lia.
  assert ((if totalSize wb <? offset + zlen buf then totalSize wb else offset + zlen buf)
          = offset + n) as ->.
  { unfold n. case_if; bool_prop; lia. }
  replace (offset + n - offset) with n by lia. rewrite wrap64_small by lia.
  case_if; bool_prop; [apply Hz0; lia|]. rewrite (proj2 (Z.ltb_ge offset 0)) by lia.
  destruct (smallFileData wb) as [s|] eqn:Es.
  - destruct (wf_small _ Hwf s Es) as (_ & _ & Hlen & Hcap & _).
    rewrite (proj2 (Z.ltb_ge (cap s) _)) by lia. do 3 f_equal.
    unfold cap in *. apply bytes_eq; [rewrite zlen_gslice, zlen_tabulate; lia|].
    rewrite zlen_gslice by lia. intros i Hi. rewrite nthb_gslice, nthb_tabulate by lia.
    rewrite !decide_True by lia. unfold memByte. rewrite Es, nthb_contents, decide_True by lia. done.
  - destruct (readLoop_spec wb n (Z.to_nat n) offset 0 buf) as (buf' & -> & Hl & Hb); try done; try lia.
    do 2 f_equal. apply bytes_eq; [rewrite zlen_gcopy; lia|]. intros i Hi.
    rewrite Hb, nthb_gcopy, zlen_tabulate, nthb_tabulate by lia.
    repeat case_decide; try lia; [f_equal; lia|done].
Qed.

(** [PartData] of part [n] is the memory of that part, clamped to the end. *)
Lemma PartData_mem wb n :
  wf wb -> 1 <= n ->
  PartData wb n =
    if decide (totalSize wb <= (n - 1) * partSize wb) then None
    else Some (tabulate (memByte wb) ((n - 1) * partSize wb)
                 (Z.min (partSize wb) (totalSize wb - (n - 1) * partSize wb))).
Proof.
  intros Hwf Hn. pose proof (wf_total _ Hwf). pose proof (wf_partSize _ Hwf) as Hps.
  unfold PartData. case_if; bool_prop; [by rewrite decide_True|].
  rewrite decide_False by lia. unfold smallFileBytes.
  destruct (smallFileData wb) as [s|] eqn:Es.
  - destruct (wf_small _ Hwf s Es) as (_ & _ & Hlen & Hcap & Hsm).
    assert (n = 1) as -> by nia. simpl.
    assert ((if totalSize wb <? partSize wb then totalSize wb else partSize wb)
            = Z.min (partSize wb) (totalSize wb)) as -> by (case_if; bool_prop; lia).
    rewrite (proj2 (Z.ltb_ge (totalSize wb) (slen s))) by lia. do 2 f_equal.
    apply bytes_eq; [rewrite zlen_grow, zlen_tabulate; lia|]. rewrite zlen_grow by lia.
    intros i Hi. rewrite nthb_grow, nthb_tabulate by (rewrite contents_zlen; lia).
    rewrite decide_True by lia. unfold memByte. by rewrite Es.
  - set (st := (n - 1) * partSize wb) in *.
    assert ((if totalSize wb <? st + partSize wb then totalSize wb else st + partSize wb) - st
            = Z.min (partSize wb) (totalSize wb - st)) as -> by (case_if; bool_prop; lia).
    set (len := Z.min _ _).
    assert (forall l, zlen l = len ->
       (forall i, 0 <= i < len -> nthb l i = nthb (default [] (parts wb !! (n - 1))) i) ->
       Some l = Some (tabulate (memByte wb) st len)) as Hfin.
    { intros l Hl Hb. f_equal. apply bytes_eq; [rewrite zlen_tabulate; lia|]. intros i Hi.
      rewrite Hb, nthb_tabulate, decide_True by lia. rewrite memByte_part by done.
      assert ((st + i) / partSize wb = n - 1) as E by (apply div_part_iff; lia).
      rewrite E. f_equal. destruct (div_mod_bounds (st + i) (partSize wb) Hps). lia. }
    destruct (parts wb !! (n - 1)) as [part|] eqn:E; simpl in *.
    + case_if; bool_prop; apply Hfin.
      * rewrite zlen_grow; lia.
      * intros i Hi. by rewrite nthb_grow by lia.
      * rewrite zlen_gslice; lia.
      * intros i Hi. rewrite nthb_gslice by lia. rewrite decide_True by lia. f_equal.
    + apply Hfin; [rewrite zlen_gmake; lia|]. intros i Hi. by rewrite nthb_gmake, nthb_nil.
Qed.

(** What [CanMaterializeFull] guarantees. *)
Lemma CanMaterializeFull_mem wb i :
  wf wb -> CanMaterializeFull wb = true -> 0 <= i < totalSize wb -> memByte wb i = fileByte wb i.
Proof.
  intros Hwf Hc Hi. pose proof (wf_partSize _ Hwf) as Hps. unfold memByte, fileByte.
  destruct (smallFileData wb) as [s|] eqn:Es; [done|].
  destruct (parts wb !! (i / partSize wb)) as [part|] eqn:Ep; [done|].
  unfold CanMaterializeFull in Hc. rewrite Es in Hc.
  unfold remoteByte. case_if; [done|]. destruct (LoadPart wb); [|done].
  case_if; [|done]. bool_prop. exfalso.
  set (covered := if totalSize wb <? remoteSize wb then _ else _) in Hc.
  destruct (div_mod_bounds i (partSize wb) Hps) as [Ei ?].
  assert (0 <= i / partSize wb) by (apply Z.div_pos; lia).
  assert (i / partSize wb * partSize wb < covered) as Hcov.
  { unfold covered. case_if; bool_prop; lia. }
  rewrite (proj2 (Z.leb_gt covered 0)) in Hc by nia.
  rewrite forallb_forall in Hc.
  assert (IsPartLoaded wb (i / partSize wb) = true) as Hl.
  { apply Hc, list_elem_of_In, elem_of_seqZ.
    pose proof (partCount_bounds wb covered Hps ltac:(nia)). nia. }
  unfold IsPartLoaded in Hl. rewrite Es, Ep in Hl. bool_prop. by destruct Hl.
Qed.

End BufferSpec.
