(* ===== verification/WriteBufferProps.v ===== *)
(** * Correctness of the FUSE write buffer

    The abstract file operations ([posixWrite], [posixTruncate], [posixRead] on a
    byte list), the refinement theorems of [Write], [Truncate], [Bytes], [ReadAt]
    and [PartData] against them, the invariant over every sequence of operations,
    the dirty-part and streaming contracts the uploader relies on, the snapshot
    round trip, and the concrete runs behind the findings. *)

From S2P Require Import Prelude WriteBuffer WriteBufferSpec.

Import Buffer BufferSpec.

Module BufferProps.

(** ** The abstract file operations *)

(** POSIX [pwrite]: zero-fill up to the end of the written range, then overwrite. *)
Definition posixWrite (f : bytes) (offset : Z) (data : bytes) : bytes :=
  gcopy (f ++ gmake (offset + zlen data - zlen f)) offset data.

(** POSIX [ftruncate]: cut, or extend with zeros. *)
Definition posixTruncate (f : bytes) (size : Z) : bytes :=
  gslice (f ++ gmake (size - zlen f)) 0 size.

(** POSIX [pread] of at most [n] bytes. *)
Definition posixRead (f : bytes) (offset n : Z) : bytes :=
  gslice f offset (Z.max offset (Z.min (offset + n) (zlen f))).

(** Every remote part can be loaded. *)
Definition loads (wb : WriteBuffer) : Prop :=
  match LoadPart wb with
  | Some load => forall n err, load n <> inr err
  | None => True
  end.

Lemma zlen_gmake_max n : zlen (gmake n) = Z.max 0 n.
Proof. unfold zlen, gmake. rewrite length_replicate. lia. Qed.

Lemma nthb_app_gmake f n i : nthb (f ++ gmake n) i = nthb f i.
Proof.
  unfold nthb. case_decide; [|done].
  destruct (decide (i < zlen f)); unfold zlen in *.
  - by rewrite lookup_app_l by lia.
  - rewrite lookup_app_r by lia. rewrite (lookup_ge_None_2 f) by lia.
    destruct (gmake n !! _) eqn:E; [|done]. apply lookup_replicate in E as [-> _]. done.
Qed.

Lemma zlen_fileContents wb : 0 <= totalSize wb -> zlen (fileContents wb) = totalSize wb.
Proof. intros. unfold fileContents. by rewrite zlen_tabulate. Qed.

Lemma nthb_fileContents wb i :
  nthb (fileContents wb) i = if decide (0 <= i < totalSize wb) then fileByte wb i else x00.
Proof. unfold fileContents. by rewrite nthb_tabulate, Z.add_0_l. Qed.

(** A byte of the file, at any offset, when nothing is stored past its end. *)
Lemma eofZero_byte wb i : eofZero wb -> 0 <= i -> nthb (fileContents wb) i = fileByte wb i.
Proof.
  intros He Hi. rewrite nthb_fileContents. case_decide; [done|]. symmetry. apply He. lia.
Qed.

(** ** Write *)

Lemma writePost_contents wb wb' offset data :
  wf wb -> eofZero wb -> 0 <= offset -> writePost wb wb' offset data ->
  eofZero wb' /\ fileContents wb' = posixWrite (fileContents wb) offset data.
Proof.
  intros Hwf He Hoff Hp. pose proof (wf_total _ Hwf). pose proof (zlen_nonneg data).
  pose proof (wp_total _ _ _ _ Hp) as Ht. pose proof (wp_byte _ _ _ _ Hp) as Hb.
  assert (zlen (fileContents wb ++ gmake (offset + zlen data - zlen (fileContents wb)))
          = Z.max (totalSize wb) (offset + zlen data)) as Hl.
  { rewrite zlen_app, zlen_gmake_max, zlen_fileContents by lia. lia. }
  split.
  - intros i Hi. rewrite Hb by lia. rewrite decide_False by lia. apply He. lia.
  - apply bytes_eq; unfold posixWrite.
    + rewrite zlen_fileContents, zlen_gcopy; lia.
    + rewrite zlen_fileContents by lia. intros i Hi.
      rewrite nthb_gcopy, nthb_app_gmake, Hl by lia.
      rewrite nthb_fileContents, decide_True by lia. rewrite Hb by lia.
      repeat case_decide; try lia; [done|]. by rewrite eofZero_byte by (done || lia).
Qed.

(** A write below the limit with loadable parts and without eviction. *)
Lemma write_total wb offset data :
  wf wb -> loads wb -> OnPartFull wb <> Some ShadowSpillEvict ->
  0 <= offset -> offset + zlen data <= maxSize wb -> zlen data < 2 ^ 32 ->
  exists wb' sub, Write wb offset data = (wb', Done (zlen data), sub)
    /\ writePost wb wb' offset data.
Proof.
  intros Hwf Hl Hev Hoff Hmax H32. pose proof (zlen_nonneg data).
  destruct (Write_cases wb offset data Hwf Hoff Hmax) as
    [(wb1 & wb' & sub & E & Hp & _ & _ & _ & Hev')|(wb' & m & load & err & _ & El & Eerr & _)].
  - rewrite (Hev' Hev) in *. exists wb1, sub. split; [|done]. rewrite E.
    unfold uint32. by rewrite Z.mod_small by lia.
  - unfold loads in Hl. rewrite El in Hl. by destruct (Hl _ _ Eerr).
Qed.

(** ** Truncate *)

(** Truncating a file whose remote part is not cut. *)
Lemma truncatePost_contents wb wb' size :
  wf wb -> eofZero wb -> 0 <= size -> LoadPart wb = None \/ remoteSize wb <= size ->
  truncatePost wb wb' size ->
  eofZero wb' /\ fileContents wb' = posixTruncate (fileContents wb) size.
Proof.
  intros Hwf He Hsz Hrem [W C T To K G E DL DN DM]. pose proof (wf_total _ Hwf).
  pose proof (wf_partSize _ Hwf).
  assert (size < totalSize wb -> forall i, size <= i -> fileByte wb' i = x00) as Hz.
  { intros Hlt i Hi. destruct (E Hlt i Hi) as [Hx | ->]; [done|].
    unfold remoteByte. case_if; [done|]. pose proof (wf_load _ Hwf) as Hld. unfold loaderOk in Hld.
    destruct (LoadPart wb) as [load|]; [|done]. case_if; [|done].
    destruct (load _) as [data|] eqn:El; [|done]. apply nthb_ge. apply Hld in El.
    destruct (div_mod_bounds i (partSize wb)) as [Ei ?]; [done|].
    destruct Hrem as [|Hrem]; [done|]. bool_prop. nia. }
  split.
  - intros i Hi. rewrite T in Hi. destruct (decide (size < totalSize wb)); [by apply Hz|].
    rewrite G by lia. apply He. lia.
  - pose proof (zlen_fileContents wb ltac:(lia)) as Hfl.
    assert (size <= zlen (fileContents wb ++ gmake (size - zlen (fileContents wb)))).
    { rewrite zlen_app, zlen_gmake_max. lia. }
    apply bytes_eq; unfold posixTruncate.
    + rewrite zlen_fileContents, zlen_gslice by lia. lia.
    + rewrite zlen_fileContents by lia. rewrite T. intros i Hi.
      rewrite nthb_gslice, nthb_app_gmake by lia. rewrite decide_True by lia.
      rewrite Z.add_0_l, (eofZero_byte wb) by (done || lia). rewrite nthb_fileContents, T.
      rewrite decide_True by lia. destruct (decide (i < totalSize wb)); [apply K; lia|].
      apply G; lia.
Qed.

(** ** Programs of operations *)

Inductive op :=
  | OpWrite (offset : Z) (data : bytes)
  | OpTruncate (size : Z).

(** An operation the kernel can send to a buffer with limit [limit]. *)
Definition opFits (limit : Z) (o : op) : Prop :=
  match o with
  | OpWrite offset data => 0 <= offset /\ offset + zlen data <= limit /\ zlen data < 2 ^ 32
  | OpTruncate size => 0 <= size <= limit
  end.

(** Run one operation; [None] unless it returns success with the full count. *)
Definition runOp (wb : WriteBuffer) (o : op) : option WriteBuffer :=
  match o with
  | OpWrite offset data =>
      match Write wb offset data with
      | (wb', Done n, _) => if n =? zlen data then Some wb' else None
      | _ => None
      end
  | OpTruncate size =>
      match Truncate wb size with
      | (wb', Done _) => Some wb'
      | _ => None
      end
  end.

Fixpoint runOps (wb : WriteBuffer) (ops : list op) : option WriteBuffer :=
  match ops with
  | [] => Some wb
  | o :: ops => wb' ← runOp wb o; runOps wb' ops
  end.

(** The same program on the abstract file. *)
Definition posixOp (f : bytes) (o : op) : bytes :=
  match o with
  | OpWrite offset data => posixWrite f offset data
  | OpTruncate size => posixTruncate f size
  end.

(** A local file: no remote part to load and no eviction. *)
Record localFile (wb : WriteBuffer) : Prop := {
  lf_wf : wf wb;
  lf_eof : eofZero wb;
  lf_load : LoadPart wb = None;
  lf_evict : OnPartFull wb <> Some ShadowSpillEvict
}.

Lemma sameConfig_fields wb wb' : sameConfig wb wb' ->
  maxSize wb' = maxSize wb /\ partSize wb' = partSize wb /\ LoadPart wb' = LoadPart wb
  /\ OnPartFull wb' = OnPartFull wb.
Proof. intros (? & ? & ? & ? & ? & ? & ?). done. Qed.

Lemma posixTruncate_max f size : posixTruncate f (Z.max 0 size) = posixTruncate f size.
Proof.
  destruct (decide (0 <= size)); [by rewrite Z.max_r by lia|].
  rewrite Z.max_l by lia. unfold posixTruncate, gslice.
  by replace (Z.to_nat (size - 0)) with (Z.to_nat (0 - 0)) by lia.
Qed.

(** One operation on a local file is the operation on its contents. *)
Lemma runOp_local wb o :
  localFile wb -> opFits (maxSize wb) o ->
  exists wb', runOp wb o = Some wb' /\ localFile wb' /\ sameConfig wb wb'
    /\ fileContents wb' = posixOp (fileContents wb) o.
Proof.
  intros [Hwf He Hl Hev] Hfit. destruct o as [offset data|size]; cbn [opFits runOp posixOp] in *.
  - destruct Hfit as (Hoff & Hmax & H32).
    assert (loads wb) as Hld by (unfold loads; by rewrite Hl).
    destruct (write_total wb offset data Hwf Hld Hev Hoff Hmax H32) as (wb' & sub & -> & Hp).
    rewrite Z.eqb_refl. destruct (writePost_contents _ _ _ _ Hwf He Hoff Hp) as [He' Hc].
    destruct (sameConfig_fields _ _ (wp_config _ _ _ _ Hp)) as (? & ? & ? & ?).
    exists wb'. split_and!; try done; [|by apply wp_config in Hp].
    split; [by apply wp_wf in Hp|done|congruence|congruence].
  - destruct (Truncate_post wb size Hwf ltac:(lia)) as (wb' & -> & Hp).
    rewrite Z.max_r in Hp by lia.
    destruct (truncatePost_contents wb wb' size Hwf He ltac:(lia) (or_introl Hl) Hp) as [He' Hc].
    destruct (sameConfig_fields _ _ (tp_config _ _ _ Hp)) as (? & ? & ? & ?).
    exists wb'. split_and!; try done; [|by apply tp_config in Hp].
    split; [by apply tp_wf in Hp|done|congruence|congruence].
Qed.

Lemma runOps_local ops : forall wb,
  localFile wb -> Forall (opFits (maxSize wb)) ops ->
  exists wb', runOps wb ops = Some wb' /\ localFile wb' /\ sameConfig wb wb'
    /\ fileContents wb' = foldl posixOp (fileContents wb) ops.
Proof.
  induction ops as [|o ops IH]; intros wb Hlf Hf; simpl.
  { by exists wb. }
  apply Forall_cons_1 in Hf as [Ho Hf].
  destruct (runOp_local wb o Hlf Ho) as (w & -> & Hw & Hc & Hcon). simpl.
  destruct (sameConfig_fields _ _ Hc) as (Em & _).
  rewrite <- Em in Hf. destruct (IH w Hw Hf) as (wb' & E & Hw' & Hc' & Hcon').
  exists wb'. split_and!; [done|done|by etrans|]. by rewrite Hcon', Hcon.
Qed.

Lemma local_mem wb i : localFile wb -> memByte wb i = fileByte wb i.
Proof.
  intros [_ _ Hl _]. unfold memByte, fileByte, remoteByte. destruct (smallFileData wb); [done|].
  destruct (parts wb !! _); [done|]. rewrite Hl. by case_if.
Qed.

Lemma tabulate_ext f g a n :
  (forall i, a <= i < a + n -> f i = g i) -> tabulate f a n = tabulate g a n.
Proof.
  intros H. unfold tabulate. apply list_fmap_ext. intros k x Hx.
  apply list_elem_of_lookup_2, elem_of_seqZ in Hx. apply H. lia.
Qed.

Lemma Bytes_contents wb :
  wf wb -> (forall i, 0 <= i < totalSize wb -> memByte wb i = fileByte wb i) ->
  Bytes wb = fileContents wb.
Proof. intros Hwf H. rewrite Bytes_mem by done. apply tabulate_ext. intros. apply H. lia. Qed.

(** A buffer as [NewWriteBuffer] builds it. *)
Lemma new_local p mx ps :
  (if mx <=? 0 then defaultWriteBufferMaxSize else mx)
    + (if ps <=? 0 then DefaultPartSize else ps) <= max_int64 ->
  localFile (NewWriteBuffer p mx ps) /\ fileContents (NewWriteBuffer p mx ps) = [].
Proof.
  intros H. assert (0 < if ps <=? 0 then DefaultPartSize else ps).
  { case_if; bool_prop; [done|lia]. }
  assert (0 < if mx <=? 0 then defaultWriteBufferMaxSize else mx).
  { case_if; bool_prop; [done|lia]. }
  split; [|done]. split; [|intros i _; by apply fileByte_empty|done..].
  split; simpl; try done; lia.
Qed.

(** ** Parts of a file *)

Lemma tabulate_app f a b n m :
  b = a + n -> 0 <= n -> 0 <= m -> tabulate f a n ++ tabulate f b m = tabulate f a (n + m).
Proof. intros -> ? ?. unfold tabulate. by rewrite <- fmap_app, <- seqZ_app by lia. Qed.

Lemma tabulate_0 f a : tabulate f a 0 = [].
Proof. done. Qed.

(** The pieces of [ps] bytes of a file of [total] bytes, one after the other. *)
Lemma pieces_concat f ps total k :
  0 < ps -> 0 <= total ->
  mjoin ((fun n => tabulate f ((n - 1) * ps) (Z.max 0 (Z.min ps (total - (n - 1) * ps))))
           <$> seqZ 1 (Z.of_nat k))
  = tabulate f 0 (Z.min (Z.of_nat k * ps) total).
Proof.
  intros Hps Ht. induction k as [|k IH].
  { simpl. by rewrite Z.min_l by lia. }
  replace (Z.of_nat (S k)) with (Z.of_nat k + 1) by lia.
  rewrite seqZ_app, fmap_app, join_app, IH by lia. simpl. rewrite app_nil_r.
  replace (Z.of_nat 0 + (1 + Z.of_nat k) - 1) with (Z.of_nat k) by lia.
  destruct (decide (Z.of_nat k * ps <= total)).
  - rewrite Z.min_l by lia.
    rewrite tabulate_app by lia. f_equal. lia.
  - replace (Z.max 0 (Z.min ps (total - Z.of_nat k * ps))) with 0 by lia.
    rewrite tabulate_0, app_nil_r. f_equal. nia.
Qed.

Lemma pieces_whole wb f :
  wf wb ->
  mjoin ((fun n => tabulate f ((n - 1) * partSize wb)
             (Z.max 0 (Z.min (partSize wb) (totalSize wb - (n - 1) * partSize wb))))
           <$> seqZ 1 (partCount wb (totalSize wb)))
  = tabulate f 0 (totalSize wb).
Proof.
  intros Hwf. pose proof (wf_partSize _ Hwf). pose proof (wf_total _ Hwf).
  pose proof (partCount_bounds wb (totalSize wb) ltac:(lia) ltac:(lia)).
  rewrite <- (Z2Nat.id (partCount wb (totalSize wb))) by nia.
  rewrite pieces_concat by lia. f_equal. nia.
Qed.

(** A part number in range. *)
Lemma part_range wb n :
  wf wb -> n ∈ seqZ 1 (partCount wb (totalSize wb)) -> 1 <= n /\ (n - 1) * partSize wb < totalSize wb.
Proof.
  intros Hwf Hn. apply elem_of_seqZ in Hn. pose proof (wf_partSize _ Hwf).
  pose proof (wf_total _ Hwf).
  pose proof (partCount_bounds wb (totalSize wb) ltac:(lia) ltac:(lia)). nia.
Qed.

Lemma fmap_ext_seqZ {A} (f g : Z -> A) a n :
  (forall i, i ∈ seqZ a n -> f i = g i) -> f <$> seqZ a n = g <$> seqZ a n.
Proof. intros H. apply list_fmap_ext. intros k x Hx. by eapply H, list_elem_of_lookup_2. Qed.

(** ** Patch uploads *)

(** Part [n] of the old file, as the server copies it. *)
Definition basePart (base : bytes) (ps n : Z) : bytes :=
  gslice base ((n - 1) * ps) (Z.min (n * ps) (zlen base)).

(** The file a patch upload assembles: the dirty parts from the buffer, the others
    from the old file. *)
Definition rebuild (wb : WriteBuffer) (base : bytes) : bytes :=
  mjoin ((fun n => if default false (dirtyParts wb !! (n - 1))
                   then default [] (PartData wb n) else basePart base (partSize wb) n)
           <$> seqZ 1 (partCount wb (totalSize wb))).

(** What the dirty map promises about the parts it does not list. *)
Record tracked (base : bytes) (wb : WriteBuffer) : Prop := {
  tr_byte : forall i, 0 <= i < totalSize wb ->
    dirtyParts wb !! (i / partSize wb) = Some true
    \/ (i < zlen base /\ fileByte wb i = nthb base i);
  tr_end : totalSize wb = zlen base \/ totalSize wb = 0
    \/ dirtyParts wb !! ((totalSize wb - 1) / partSize wb) = Some true;
  tr_resident : dirtyResident wb
}.

Lemma tracked_write base wb wb' offset data :
  tracked base wb -> 0 <= offset <= totalSize wb -> writePost wb wb' offset data ->
  tracked base wb'.
Proof.
  intros [Hb He Hr] Hoff Hp. pose proof (zlen_nonneg data).
  destruct (sameConfig_fields _ _ (wp_config _ _ _ _ Hp)) as (_ & Eps & _).
  pose proof (wp_total _ _ _ _ Hp) as Et. split; rewrite ?Eps, ?Et.
  - intros i Hi. destruct (decide (offset <= i < offset + zlen data)).
    { left. by apply (wp_dirty _ _ _ _ Hp). }
    rewrite (wp_byte _ _ _ _ Hp) by lia. rewrite decide_False by done.
    destruct (Hb i ltac:(lia)) as [Hd|]; [left; by apply (wp_dirty_mono _ _ _ _ Hp)|by right].
  - destruct (decide (totalSize wb < offset + zlen data)).
    + right. right. apply (wp_dirty _ _ _ _ Hp). lia.
    + rewrite Z.max_l by lia. destruct He as [?|[?|Hd]]; [by left|by right; left|].
      right. right. by apply (wp_dirty_mono _ _ _ _ Hp).
  - by apply (wp_resident _ _ _ _ Hp).
Qed.

Lemma tracked_truncate base wb wb' size :
  wf wb -> LoadPart wb = None -> tracked base wb -> 0 <= size -> truncatePost wb wb' size ->
  tracked base wb'.
Proof.
  intros Hwf Hl [Hb He Hr] Hsz Hp. pose proof (wf_partSize _ Hwf) as Hps.
  pose proof (wf_total _ Hwf).
  destruct (sameConfig_fields _ _ (tp_config _ _ _ Hp)) as (_ & Eps & El & _).
  pose proof (tp_total _ _ _ Hp) as Et. split; rewrite ?Eps, ?Et.
  - intros i Hi. destruct (decide (totalSize wb <= i)).
    { left. apply (tp_dirty_new _ _ _ Hp). lia. }
    rewrite (tp_keep _ _ _ Hp) by lia. destruct (div_mod_bounds i (partSize wb) Hps).
    destruct (Hb i ltac:(lia)) as [Hd|]; [left; apply (tp_dirty_mono _ _ _ Hp); [lia|done]|by right].
  - destruct (decide (size = 0)); [by right; left|].
    destruct (decide (size < totalSize wb)).
    { right. right. apply (tp_dirty_last _ _ _ Hp); lia. }
    destruct (decide (totalSize wb < size)).
    { right. right. apply (tp_dirty_new _ _ _ Hp); lia. }
    replace size with (totalSize wb) by lia. destruct He as [?|[?|Hd]]; [by left|lia|].
    right. right. apply (tp_dirty_mono _ _ _ Hp); [|done].
    destruct (div_mod_bounds (totalSize wb - 1) (partSize wb) Hps). lia.
  - intros Hc. by rewrite El, Hl in Hc.
Qed.

(** A dirty part is what the file holds. *)
Lemma dirty_mem wb i :
  dirtyResident wb -> dirtyParts wb !! (i / partSize wb) = Some true ->
  memByte wb i = fileByte wb i.
Proof.
  intros Hr Hd. unfold memByte, fileByte. destruct (smallFileData wb); [done|].
  destruct (parts wb !! _) eqn:E; [done|]. unfold remoteByte. case_if; [done|].
  destruct (LoadPart wb) eqn:El; [|done].
  destruct (Hr ltac:(by rewrite El) _ Hd) as [? Hs]. congruence.
Qed.

(** A part the dirty map does not list is the old file's. *)
Lemma clean_part base wb n :
  wf wb -> tracked base wb -> 1 <= n -> (n - 1) * partSize wb < totalSize wb ->
  dirtyParts wb !! (n - 1) <> Some true ->
  basePart base (partSize wb) n =
    tabulate (fileByte wb) ((n - 1) * partSize wb)
      (Z.min (partSize wb) (totalSize wb - (n - 1) * partSize wb)).
Proof.
  intros Hwf [Hb He _] Hn Hlt Hd. pose proof (wf_partSize _ Hwf) as Hps.
  set (st := (n - 1) * partSize wb) in *. set (len := Z.min _ _).
  assert (0 <= st /\ st + partSize wb = n * partSize wb) as [Hst0 Hst] by nia.
  assert (forall i, st <= i < st + len -> i < zlen base /\ fileByte wb i = nthb base i) as Hin.
  { intros i Hi. destruct (Hb i ltac:(nia)) as [Hd'|]; [|done].
    replace (i / partSize wb) with (n - 1) in Hd'; [done|]. symmetry. apply div_part_iff; lia. }
  assert (Z.min (n * partSize wb) (zlen base) = st + len) as Hend.
  { pose proof (Hin (st + len - 1) ltac:(lia)) as [Hlast _].
    destruct (decide (totalSize wb <= n * partSize wb)); [|lia].
    destruct He as [?|[?|Hd']]; [lia|lia|].
    replace ((totalSize wb - 1) / partSize wb) with (n - 1) in Hd'; [done|].
    symmetry. apply div_part_iff; lia. }
  unfold basePart. fold st. rewrite Hend.
  apply bytes_eq; [rewrite zlen_gslice, zlen_tabulate; lia|].
  rewrite zlen_gslice by lia. intros i Hi. rewrite nthb_gslice, nthb_tabulate by lia.
  rewrite !decide_True by lia. by destruct (Hin (st + i) ltac:(lia)) as [_ ->].
Qed.

Lemma tracked_rebuild base wb : wf wb -> tracked base wb -> rebuild wb base = fileContents wb.
Proof.
  intros Hwf Htr. unfold fileContents. rewrite <- pieces_whole by done.
  unfold rebuild. f_equal. apply fmap_ext_seqZ. intros n Hn.
  destruct (part_range wb n Hwf Hn) as [Hn1 Hlt]. pose proof (wf_partSize _ Hwf) as Hps.
  rewrite Z.max_r by lia.
  destruct (dirtyParts wb !! (n - 1)) as [[]|] eqn:Ed; simpl;
    [|by apply clean_part; rewrite ?Ed..].
  rewrite PartData_mem, decide_False by (done || lia). simpl. apply tabulate_ext.
  intros i Hi. apply dirty_mem; [by apply tr_resident in Htr|].
  replace (i / partSize wb) with (n - 1); [done|]. symmetry. apply div_part_iff; lia.
Qed.

(** A change of a file that leaves the dirty map meaningful: a write that starts
    inside the file, or a truncation of a fully local file. *)
Inductive edit (wb wb' : WriteBuffer) : Prop :=
  | edit_write offset data n sub :
      0 <= offset <= totalSize wb -> offset + zlen data <= maxSize wb ->
      Write wb offset data = (wb', Done n, sub) -> edit wb wb'
  | edit_truncate size n :
      LoadPart wb = None -> Truncate wb size = (wb', Done n) -> edit wb wb'.

Definition patchable (base : bytes) (wb : WriteBuffer) : Prop :=
  wf wb /\ OnPartFull wb <> Some ShadowSpillEvict /\ tracked base wb.

Lemma patchable_edit base wb wb' : patchable base wb -> edit wb wb' -> patchable base wb'.
Proof.
  intros (Hwf & Hev & Htr) [offset data n sub Hoff Hmax Hw|size n Hl Ht].
  - destruct (Write_cases wb offset data Hwf ltac:(lia) Hmax) as
      [(wb1 & w & sub' & E & Hp & _ & _ & _ & Hev')|(w & m & load & err & E & _)];
      rewrite E in Hw; [|done]. rewrite (Hev' Hev) in *. simplify_eq.
    destruct (sameConfig_fields _ _ (wp_config _ _ _ _ Hp)) as (_ & _ & _ & Eo).
    split; [by apply wp_wf in Hp|]. split; [congruence|]. by eapply tracked_write.
  - destruct (decide (size <= maxSize wb)) as [Hmax|Hmax].
    + destruct (Truncate_post wb size Hwf Hmax) as (w & E & Hp). rewrite E in Ht. simplify_eq.
      destruct (sameConfig_fields _ _ (tp_config _ _ _ Hp)) as (_ & _ & _ & Eo).
      split; [by apply tp_wf in Hp|]. split; [congruence|].
      eapply tracked_truncate; [..|exact Hp]; done || lia.
    + unfold Truncate in Ht. simpl in Ht. by rewrite (proj2 (Z.ltb_lt _ _)) in Ht by lia.
Qed.

Lemma patchable_edits base wb wb' : patchable base wb -> rtc edit wb wb' -> patchable base wb'.
Proof. intros Hp Hr. induction Hr; eauto using patchable_edit. Qed.

Lemma tracked_base wb : wf wb -> dirtyResident wb -> tracked (fileContents wb) wb.
Proof.
  intros Hwf Hr. pose proof (wf_total _ Hwf).
  split; [|left; by rewrite zlen_fileContents by lia|done]. intros i Hi. right.
  rewrite zlen_fileContents, nthb_fileContents, decide_True by lia. split; [lia|done].
Qed.

(** ** Streaming of sequential writes *)

(** A file being streamed: everything up to the cursor is in memory. *)
Record streaming (wb : WriteBuffer) : Prop := {
  sg_wf : wf wb;
  sg_eof : eofZero wb;
  sg_load : LoadPart wb = None;
  sg_hook : OnPartFull wb = Some StreamSubmit;
  sg_up : forall p, isUploaded wb p = false;
  sg_seq : sequential wb = true;
  sg_cur : appendCursor wb = totalSize wb;
  sg_alloc : allocated wb;
  sg_small : smallFileMax wb < partSize wb
}.

(** The parts [a .. b) of a file, with their 0-based index. *)
Definition indexedParts (f : bytes) (ps a b : Z) : list (Z * bytes) :=
  (fun p => (p, gslice f (p * ps) (p * ps + ps))) <$> seqZ a (b - a).

(** A full part of a part-mode file. *)
Lemma full_part wb p :
  wf wb -> allocated wb -> smallFileData wb = None -> 0 <= p ->
  p * partSize wb + partSize wb <= totalSize wb ->
  exists part, parts wb !! p = Some part /\ zlen part = partSize wb
    /\ part = gslice (fileContents wb) (p * partSize wb) (p * partSize wb + partSize wb).
Proof.
  intros Hwf Ha Hs Hp Hfull. pose proof (wf_partSize _ Hwf) as Hps.
  set (e := p * partSize wb + (partSize wb - 1)).
  assert (e / partSize wb = p) as Ee by (apply div_part_iff; lia).
  assert (0 <= e < totalSize wb) as He by nia.
  specialize (Ha Hs e He). rewrite Ee in Ha.
  destruct (div_mod_bounds e (partSize wb) Hps) as [Em _]. rewrite Ee in Em.
  destruct (parts wb !! p) as [part|] eqn:E; simpl in Ha; [|rewrite zlen_nil in Ha; lia].
  destruct (wf_parts _ Hwf _ _ E) as [_ Hle]. exists part. split_and!; [done|lia|].
  assert (zlen (fileContents wb) = totalSize wb) as Hfl by (apply zlen_fileContents; lia).
  apply bytes_eq; [rewrite zlen_gslice; lia|]. intros i Hi.
  rewrite nthb_gslice, decide_True by lia. rewrite nthb_fileContents, decide_True by lia.
  unfold fileByte. rewrite Hs.
  assert ((p * partSize wb + i) / partSize wb = p) as Ei by (apply div_part_iff; lia).
  rewrite Ei, E. f_equal. destruct (div_mod_bounds (p * partSize wb + i) (partSize wb) Hps). lia.
Qed.

Lemma fullParts_indexed wb a b :
  wf wb -> allocated wb -> (forall p, isUploaded wb p = false) ->
  smallFileData wb = None -> 0 <= a -> b * partSize wb <= totalSize wb ->
  fullParts wb (seqZ a (b - a)) = indexedParts (fileContents wb) (partSize wb) a b.
Proof.
  intros Hwf Ha Hu Hs Ha0 Hb. pose proof (wf_partSize _ Hwf) as Hps.
  apply omap_fmap. intros p Hp. apply elem_of_seqZ in Hp.
  destruct (full_part wb p Hwf Ha Hs ltac:(lia) ltac:(nia)) as (part & E & Hz & Hpart).
  rewrite Hu, E, (proj2 (Z.eqb_eq _ _)) by done. by rewrite Hpart at 1.
Qed.

Lemma posixWrite_append f data : posixWrite f (zlen f) data = f ++ data.
Proof.
  unfold posixWrite, gcopy, zlen, gmake. rewrite !Nat2Z.id, length_app, length_replicate.
  rewrite take_app_length. replace (length f + _ - length f)%nat with (length data) by lia.
  rewrite firstn_all, skipn_all2; [by rewrite app_nil_r|].
  rewrite length_app, length_replicate. lia.
Qed.

Lemma indexedParts_app f ps a b c :
  a <= b <= c -> indexedParts f ps a b ++ indexedParts f ps b c = indexedParts f ps a c.
Proof.
  intros. unfold indexedParts. replace b with (a + (b - a)) at 2 by lia.
  rewrite <- fmap_app, <- seqZ_app by lia. do 2 f_equal. lia.
Qed.

Lemma indexedParts_prefix f g ps a b :
  0 < ps -> 0 <= a -> b * ps <= zlen f -> indexedParts (f ++ g) ps a b = indexedParts f ps a b.
Proof.
  intros Hps Ha Hb. unfold indexedParts. apply fmap_ext_seqZ. intros p Hp.
  apply elem_of_seqZ in Hp. f_equal. unfold gslice, zlen in *.
  rewrite skipn_app, take_app_le by (rewrite length_drop; nia). done.
Qed.

(** The parts an append completes. *)
Lemma append_submits wb w data :
  streaming wb -> writePost wb w (totalSize wb) data ->
  cursorAfter wb w (totalSize wb) (totalSize wb + zlen data) ->
  snd (notifyFullParts w (appendCursor wb))
  = indexedParts (fileContents w) (partSize wb) (totalSize wb / partSize wb)
      (totalSize w / partSize wb).
Proof.
  intros [Hwf He Hl Hh Hu Hs Hc Ha Hsm] Hp [Hcw Hsw]. pose proof (zlen_nonneg data).
  pose proof (wf_total _ Hwf). pose proof (wf_partSize _ Hwf) as Hps.
  unfold advanceCursor in *. rewrite Hc, Z.eqb_refl in *. simpl in *.
  pose proof (wp_config _ _ _ _ Hp) as (_ & _ & Eps & Esm & El & _ & Eh).
  pose proof (wp_total _ _ _ _ Hp) as Et. rewrite Z.max_r in Et by lia.
  unfold notifyFullParts. rewrite Eh, Hh, Hsw, Hs, Hcw. simpl. case_if; bool_prop.
  2: { unfold indexedParts. replace (totalSize w) with (totalSize wb) by lia.
       by rewrite Z.sub_diag. }
  rewrite (proj2 (Z.ltb_ge (totalSize wb) 0)) by lia. rewrite !quot_div by lia.
  rewrite foldl_notify_submit by (by rewrite Eh, Hh). simpl. rewrite Eps, <- Et.
  destruct (smallFileData w) as [s|] eqn:Es.
  - destruct (wf_small _ (wp_wf _ _ _ _ Hp) _ Es) as (Hpe & _ & _ & _ & Hsmall).
    rewrite !Z.div_small by lia. done.
  - rewrite <- Eps. apply fullParts_indexed; try done; try apply Hp; try done; try lia.
    + intros p. unfold isUploaded. rewrite (wp_uploaded _ _ _ _ Hp). apply Hu.
    + apply Z.div_pos; lia.
    + destruct (div_mod_bounds (totalSize w) (partSize w)); lia.
Qed.

(** One append to a streamed file. *)
Lemma stream_append wb data :
  streaming wb -> totalSize wb + zlen data <= maxSize wb -> zlen data < 2 ^ 32 ->
  exists wb', Write wb (totalSize wb) data =
      (wb', Done (zlen data), indexedParts (fileContents wb') (partSize wb)
        (totalSize wb / partSize wb) (totalSize wb' / partSize wb))
    /\ streaming wb' /\ sameConfig wb wb' /\ fileContents wb' = fileContents wb ++ data
    /\ totalSize wb' = totalSize wb + zlen data.
Proof.
  intros Hst Hmax H32. pose proof Hst as [Hwf He Hl Hh Hu Hs Hc Ha Hsm].
  pose proof (wf_total _ Hwf). pose proof (zlen_nonneg data).
  destruct (Write_cases wb (totalSize wb) data Hwf ltac:(lia) Hmax) as
    [(w & w' & sub & E & Hp & Hcur & _ & -> & Hev)|(w & m & load & err & _ & El & _)].
  2: { congruence. }
  rewrite Hev in E by (by rewrite Hh). clear Hev w'.
  rewrite (append_submits wb w data) in E by done.
  destruct (writePost_contents wb w (totalSize wb) data Hwf He ltac:(lia) Hp) as [He' Hcon].
  pose proof (wp_config _ _ _ _ Hp) as (_ & Em & Eps & Esm & El & _ & Eh).
  pose proof (wp_total _ _ _ _ Hp) as Et. rewrite Z.max_r in Et by lia.
  destruct Hcur as [Hcw Hsw]. unfold advanceCursor in *. rewrite Hc, Z.eqb_refl in *. simpl in *.
  exists w. split_and!; [|split|by apply Hp| |done].
  - rewrite E. unfold uint32. by rewrite Z.mod_small by lia.
  - apply Hp.
  - done.
  - congruence.
  - congruence.
  - intros p. unfold isUploaded. rewrite (wp_uploaded _ _ _ _ Hp). apply Hu.
  - congruence.
  - lia.
  - apply Hp; [done|lia].
  - lia.
  - rewrite Hcon. rewrite <- (zlen_fileContents wb) at 1 by lia. apply posixWrite_append.
Qed.

(** A sequence of appends, collecting what is handed to the uploader. *)
Fixpoint appendAll (wb : WriteBuffer) (datas : list bytes) : WriteBuffer * list (Z * bytes) :=
  match datas with
  | [] => (wb, [])
  | data :: datas =>
      let '(wb, _, sub) := Write wb (totalSize wb) data in
      let '(wb, subs) := appendAll wb datas in (wb, sub ++ subs)
  end.

Lemma appendAll_stream datas : forall wb,
  streaming wb -> totalSize wb + zlen (mjoin datas) <= maxSize wb ->
  zlen (mjoin datas) < 2 ^ 32 ->
  exists wb', appendAll wb datas = (wb', indexedParts (fileContents wb') (partSize wb)
        (totalSize wb / partSize wb) (totalSize wb' / partSize wb))
    /\ streaming wb' /\ fileContents wb' = fileContents wb ++ mjoin datas
    /\ totalSize wb <= totalSize wb'.
Proof.
  induction datas as [|d ds IH]; intros wb Hst Hmax H32; simpl in *.
  { exists wb. unfold indexedParts. rewrite Z.sub_diag, app_nil_r. split_and!; done || lia. }
  rewrite zlen_app in *. pose proof (zlen_nonneg d). pose proof (zlen_nonneg (mjoin ds)).
  destruct (stream_append wb d Hst ltac:(lia) ltac:(lia)) as (w & -> & Hw & Hc & Hcon & Ht).
  pose proof Hc as (_ & Em & Eps & _).
  destruct (IH w Hw ltac:(lia) ltac:(lia)) as (wb' & -> & Hw' & Hcon' & Ht').
  exists wb'. split_and!; [|done|by rewrite Hcon', Hcon, app_assoc|lia].
  f_equal. rewrite Eps. pose proof (wf_total _ (sg_wf _ Hst)).
  pose proof (wf_partSize _ (sg_wf _ Hst)) as Hps.
  etrans; [|apply (indexedParts_app _ _ _ (totalSize w / partSize wb)); split;
    apply Z.div_le_mono; lia].
  f_equal. rewrite Hcon'. symmetry. apply indexedParts_prefix; [done|apply Z.div_pos; lia|].
  rewrite zlen_fileContents by lia. destruct (div_mod_bounds (totalSize w) (partSize wb)); lia.
Qed.

(** ** Snapshots *)

Lemma cloneMap_id {V} (m : gmap Z V) : cloneMap m = m.
Proof.
  unfold cloneMap. induction m as [|k v m Hk IH] using map_ind.
  - by rewrite map_fold_empty.
  - rewrite map_fold_insert_L; [by rewrite IH| |done].
    intros. by apply insert_insert_ne.
Qed.

(** Two slices with the same length and contents. *)
Lemma cloneBytes_spec s :
  0 <= slen s <= cap s ->
  exists s', cloneBytes (Some s) = Some s' /\ slen s' = slen s /\ slen s' <= cap s'
    /\ contents s' = contents s.
Proof.
  intros Hs. set (s' := Slice (gcopy (gmake (slen s)) 0 (contents s)) (slen s)).
  assert (cap s' = slen s) as Hc by (unfold cap; simpl; by rewrite zlen_grow by lia).
  exists s'. simpl. split_and!; [done|done|lia|].
  apply bytes_eq; [by rewrite !contents_zlen by (simpl; lia)|].
  intros i Hi. rewrite (nthb_contents s') by (simpl; lia). simpl.
  rewrite nthb_grow by (rewrite contents_zlen by done; lia). rewrite nthb_contents by lia.
  decide_all.
Qed.

(** ** Every operation of a buffer *)

Inductive wb_step : WriteBuffer -> WriteBuffer -> Prop :=
  | step_write wb offset data : 0 <= offset -> offset + zlen data <= max_int64 ->
      wb_step wb (fst (fst (Write wb offset data)))
  | step_truncate wb size : wb_step wb (fst (Truncate wb size))
  | step_load wb p : 0 <= p -> wb_step wb (fst (EnsureLoaded wb p))
  | step_evict wb p : wb_step wb (EvictPart wb p)
  | step_mark wb : wb_step wb (MarkAllDirty wb)
  | step_clear wb : wb_step wb (ClearDirty wb)
  | step_reset wb : wb_step wb (Reset wb)
  | step_cursor wb n : wb_step wb (ResetSequentialState wb n).

(** The states of a buffer: opened, then any sequence of operations and of
    restores of an earlier snapshot. *)
Inductive reachable (wb0 : WriteBuffer) : WriteBuffer -> Prop :=
  | reach_open : reachable wb0 wb0
  | reach_step wb wb' : reachable wb0 wb -> wb_step wb wb' -> reachable wb0 wb'
  | reach_restore wb old wb' : reachable wb0 wb -> reachable wb0 old ->
      restore (Some wb) (snapshot (Some old)) = Some wb' -> reachable wb0 wb'.

Lemma ensurePart_wf wb p : wf wb -> 0 <= p -> wf (fst (EnsureLoaded wb p)).
Proof.
  intros Hwf Hp. unfold EnsureLoaded. destruct (smallFileData wb) as [s|] eqn:Es.
  { unfold ensurePart. by rewrite Es. }
  destruct (ensurePart_cases wb p Hwf Es Hp) as [(part & -> & Hlen & _)|(? & ? & _ & _ & ->)];
    [|done]. apply wf_upd; [done..|]. intros q part' Hq.
  apply lookup_insert_Some in Hq as [[<- <-]|[? Hq]]; [lia|by eapply wf_parts].
Qed.

Lemma step_wf wb wb' : wf wb -> wb_step wb wb' -> wf wb'.
Proof.
  intros Hwf Hst. destruct Hst as [wb offset data Hoff Hov|wb size|wb p Hp|wb p|wb|wb|wb|wb n].
  - destruct (decide (offset + zlen data <= maxSize wb)).
    + destruct (Write_cases wb offset data Hwf Hoff ltac:(done)) as
        [(wb1 & w & sub & -> & _ & _ & He & _)|(w & m & load & err & -> & _ & _ & _ & Hw & _)];
        [by apply ef_wf in He|done].
    + by rewrite write_efbig_aux by (done || lia).
  - destruct (decide (size <= maxSize wb)) as [Hmax|Hmax].
    + destruct (Truncate_post wb size Hwf Hmax) as (w & -> & Hp). by apply tp_wf in Hp.
    + unfold Truncate. simpl. by rewrite (proj2 (Z.ltb_lt _ _)) by lia.
  - by apply ensurePart_wf.
  - by apply EvictPart_spec.
  - unfold MarkAllDirty. destruct (smallFileData wb); destruct Hwf; by split.
  - destruct Hwf. by split.
  - destruct Hwf. split; simpl; try done; lia.
  - destruct Hwf. by split.
Qed.

Lemma restore_wf wb old wb' :
  wf old -> restore (Some wb) (snapshot (Some old)) = Some wb' ->
  wf wb' /\ set_smallFileData None wb' = set_smallFileData None old
  /\ contents <$> smallFileData wb' = contents <$> smallFileData old.
Proof.
  intros Hwf E. simpl in E. rewrite !cloneMap_id in E.
  assert (cloneMap <$> (cloneMap <$> uploadedParts old) = uploadedParts old) as Eu.
  { destruct (uploadedParts old); simpl; [by rewrite !cloneMap_id|done]. }
  rewrite Eu in E. clear Eu. injection E as <-. simpl.
  destruct (smallFileData old) as [s|] eqn:Es.
  - destruct (wf_small _ Hwf s Es) as (Hp & Hl & Hlen & Hcap & Hsz). pose proof (wf_total _ Hwf).
    destruct (cloneBytes_spec s ltac:(lia)) as (s1 & -> & H1 & Hc1 & E1).
    destruct (cloneBytes_spec s1 ltac:(lia)) as (s2 & -> & H2 & Hc2 & E2).
    simpl. rewrite E2, E1. split; [|done]. destruct Hwf. split; simpl; try done.
    intros s' Hs'. simplify_eq. split_and!; done || lia.
  - split; [|done]. destruct Hwf. by split.
Qed.

Lemma Bytes_same wb wb' :
  wf wb -> wf wb' -> set_smallFileData None wb' = set_smallFileData None wb ->
  contents <$> smallFileData wb' = contents <$> smallFileData wb -> Bytes wb' = Bytes wb.
Proof.
  intros Hwf Hwf' E Ec. rewrite !Bytes_mem by done.
  assert (totalSize wb' = totalSize wb /\ parts wb' = parts wb /\ partSize wb' = partSize wb)
    as (-> & Ep & Es) by (by injection E).
  apply tabulate_ext. intros i _. unfold memByte. rewrite Ep, Es.
  destruct (smallFileData wb'), (smallFileData wb); simplify_eq/=; congruence.
Qed.

(** ** Reading *)

Lemma posixRead_contents wb offset n :
  0 <= totalSize wb -> 0 <= offset -> 0 <= n ->
  posixRead (fileContents wb) offset n
  = tabulate (fileByte wb) offset (Z.max 0 (Z.min n (totalSize wb - offset))).
Proof.
  intros Ht Hoff Hn. unfold posixRead. rewrite zlen_fileContents by lia.
  destruct (decide (totalSize wb <= offset)).
  { rewrite Z.max_l, (Z.max_l 0) by lia. unfold gslice. by rewrite Z.sub_diag. }
  rewrite Z.max_r, (Z.max_r 0) by lia. set (e := Z.min (offset + n) (totalSize wb)).
  pose proof (zlen_fileContents wb Ht).
  apply bytes_eq; [rewrite zlen_gslice, zlen_tabulate; lia|]. rewrite zlen_gslice by lia.
  intros i Hi. rewrite nthb_gslice, nthb_tabulate, !decide_True by lia.
  by rewrite nthb_fileContents, decide_True by lia.
Qed.

(** [ReadAt] of a buffer whose memory is the file. *)
Lemma ReadAt_contents wb offset buf :
  wf wb -> (forall i, 0 <= i < totalSize wb -> memByte wb i = fileByte wb i) ->
  0 <= offset -> offset + zlen buf <= max_int64 ->
  let got := posixRead (fileContents wb) offset (zlen buf) in
  ReadAt wb offset buf = Some (zlen got, gcopy buf 0 got).
Proof.
  intros Hwf Hm Hoff Hov got. pose proof (wf_total _ Hwf). pose proof (zlen_nonneg buf).
  unfold got. rewrite posixRead_contents, zlen_tabulate, ReadAt_mem by (done || lia).
  do 3 f_equal. apply tabulate_ext. intros i Hi. apply Hm. lia.
Qed.

(** ** A concrete remote file *)

Definition demoRemote : bytes := [x61; x62; x63; x64; x65; x66].

(** The range read of part [n] of [demoRemote], with parts of four bytes. *)
Definition demoLoad (n : Z) : bytes + wb_error :=
  inl (gslice demoRemote ((n - 1) * 4) (Z.min (n * 4) 6)).

(** An existing six-byte file opened for writing: nothing loaded yet. *)
Definition demoFile : WriteBuffer := {|
  path := "/f"; totalSize := 6; maxSize := 100; partSize := 4; smallFileMax := 50000;
  parts := ∅; dirtyParts := ∅; touched := false; LoadPart := Some demoLoad;
  remoteSize := 6; curMemory := 0; appendCursor := 0; sequential := false;
  uploadedParts := None; OnPartFull := None; smallFileData := None |}.

Lemma demo_wf : wf demoFile.
Proof.
  split; simpl; try done; try lia; unfold loaderOk; simpl; try done.
  intros n data E. injection E as <-. unfold gslice, zlen, demoRemote.
  rewrite length_take, length_drop. simpl. lia.
Qed.

Lemma demo_eof : eofZero demoFile.
Proof.
  intros i Hi. change (totalSize demoFile) with 6 in Hi. unfold fileByte, remoteByte.
  change (smallFileData demoFile) with (@None slice).
  change (LoadPart demoFile) with (Some demoLoad).
  change (parts demoFile !! _) with (@None bytes).
  change (isUploaded demoFile (i / partSize demoFile)) with false.
  change (partSize demoFile) with 4. change (remoteSize demoFile) with 6. cbv iota beta.
  case_if; [|done]. bool_prop. unfold demoLoad. apply nthb_ge.
  destruct (div_mod_bounds i 4 ltac:(lia)) as [Ei ?]. assert (i / 4 = 1) as -> by lia.
  change (zlen _) with 2. lia.
Qed.

(** ** Properties *)

(** Below the size limit, with the remote parts loadable and no eviction hook,
    [Write] returns the full count, keeps the buffer well formed and turns the file
    into what POSIX [pwrite] makes of it: zero-filled up to the offset, then the
    data, the rest unchanged.  This holds in small-file mode, across the migration
    to parts, across part boundaries and over lazily loaded parts. *)
Theorem write_refines wb offset data :
  wf wb -> eofZero wb -> loads wb -> OnPartFull wb <> Some ShadowSpillEvict ->
  0 <= offset -> offset + zlen data <= maxSize wb -> zlen data < 2 ^ 32 ->
  exists wb' sub, Write wb offset data = (wb', Done (zlen data), sub)
    /\ wf wb' /\ eofZero wb' /\ touched wb' = true
    /\ fileContents wb' = posixWrite (fileContents wb) offset data.
Proof.
  intros Hwf He Hl Hev Hoff Hmax H32.
  destruct (write_total wb offset data Hwf Hl Hev Hoff Hmax H32) as (wb' & sub & E & Hp).
  destruct (writePost_contents wb wb' offset data Hwf He Hoff Hp) as [He' Hc].
  exists wb', sub. split_and!; try done; by apply Hp.
Qed.

Lemma write_refines_witness :
  exists wb' sub, Write demoFile 5 [x7a; x7a; x7a; x7a] = (wb', Done 4, sub)
    /\ wf wb' /\ eofZero wb' /\ touched wb' = true
    /\ fileContents wb' = [x61; x62; x63; x64; x65; x7a; x7a; x7a; x7a].
Proof.
  destruct (write_refines demoFile 5 [x7a; x7a; x7a; x7a] demo_wf demo_eof) as
    (wb' & sub & E & W & Z & T & C); [done|done|lia|vm_compute; congruence|done|].
  exists wb', sub. rewrite C. split; [exact E|]. split; [exact W|]. split; [exact Z|].
  split; [exact T|]. vm_compute. reflexivity.
Defined.

(** Below the size limit [Truncate] succeeds and is POSIX [ftruncate] on the
    file: the common prefix is kept and an extension reads as zeros, provided no
    remote part is cut off. *)
Theorem truncate_refines wb size :
  wf wb -> eofZero wb -> 0 <= size <= maxSize wb ->
  LoadPart wb = None \/ remoteSize wb <= size ->
  exists wb', Truncate wb size = (wb', Done 0)
    /\ wf wb' /\ eofZero wb' /\ touched wb' = true
    /\ fileContents wb' = posixTruncate (fileContents wb) size.
Proof.
  intros Hwf He Hsz Hrem.
  destruct (Truncate_post wb size Hwf ltac:(lia)) as (wb' & E & Hp).
  rewrite Z.max_r in Hp by lia.
  destruct (truncatePost_contents wb wb' size Hwf He ltac:(lia) Hrem Hp) as [He' Hc].
  exists wb'. split_and!; try done; by apply Hp.
Qed.

Lemma truncate_refines_witness :
  exists wb', Truncate demoFile 9 = (wb', Done 0)
    /\ wf wb' /\ eofZero wb' /\ touched wb' = true
    /\ fileContents wb' = [x61; x62; x63; x64; x65; x66; x00; x00; x00].
Proof.
  destruct (truncate_refines demoFile 9 demo_wf demo_eof) as
    (wb' & E & W & Z & T & C); [vm_compute; split; congruence|right; vm_compute; congruence|].
  exists wb'. rewrite C. split; [exact E|]. split; [exact W|]. split; [exact Z|].
  split; [exact T|]. vm_compute. reflexivity.
Defined.

(** C1: from a fresh buffer every program of writes and truncations below the
    limit runs to completion, and [Size], [Bytes] and [ReadAt] then give the file
    the same program produces on a plain byte sequence. *)
Theorem program_refines p mx ps ops offset n :
  (if mx <=? 0 then defaultWriteBufferMaxSize else mx)
    + (if ps <=? 0 then DefaultPartSize else ps) <= max_int64 ->
  Forall (opFits (maxSize (NewWriteBuffer p mx ps))) ops ->
  0 <= offset -> 0 <= n -> offset + n <= max_int64 ->
  let file := foldl posixOp [] ops in
  exists wb, runOps (NewWriteBuffer p mx ps) ops = Some wb
    /\ Size wb = zlen file /\ Bytes wb = file
    /\ let got := posixRead file offset n in
       ReadAt wb offset (gmake n) = Some (zlen got, gcopy (gmake n) 0 got).
Proof.
  intros Hcfg Hfit Hoff Hn Hov file. destruct (new_local p mx ps Hcfg) as [Hlf Hnil].
  destruct (runOps_local ops _ Hlf Hfit) as (wb & E & Hw & _ & Hc). rewrite Hnil in Hc.
  fold file in Hc. pose proof (lf_wf _ Hw) as Hwf. pose proof (wf_total _ Hwf).
  assert (zlen file = totalSize wb) as Hz by (rewrite <- Hc; apply zlen_fileContents; lia).
  exists wb. split_and!; [done|done| |].
  { rewrite <- Hc. apply Bytes_contents; [done|]. intros. by apply local_mem. }
  pose proof (ReadAt_contents wb offset (gmake n) Hwf (fun i _ => local_mem wb i Hw) Hoff) as Hr.
  rewrite zlen_gmake, Hc in Hr by lia. by apply Hr.
Qed.

Lemma program_refines_witness :
  let ops := [OpWrite 2 [x61; x62; x63]; OpTruncate 4; OpWrite 7 [x64]] in
  exists wb, runOps (NewWriteBuffer "/f" 100 4) ops = Some wb
    /\ Size wb = 8 /\ Bytes wb = [x00; x00; x61; x62; x00; x00; x00; x64]
    /\ ReadAt wb 1 (gmake 4) = Some (4, [x00; x61; x62; x00]).
Proof.
  intros ops. destruct (program_refines "/f" 100 4 ops 1 4) as (wb & E & S & B & R);
    [vm_compute; congruence| |lia|lia|vm_compute; congruence|].
  { repeat constructor; vm_compute; congruence. }
  exists wb. split; [exact E|]. split; [exact S|]. split; [exact B|]. exact R.
Defined.

(** C22: the dirty-part map is what a patch upload needs.  Take a buffer that does not
    evict its full parts (the closure of the shadow-spill mode does; there the shadow and
    not the buffer is what is uploaded) and whose dirty parts are in memory, as they are
    when a file has just been opened.  After any sequence of successful writes that start
    inside the file and stay below the size limit and, for a fully local file, of
    truncations, sending the dirty parts as [PartData] gives them and copying the other
    parts from the old file assembles exactly the new file, lazily loaded parts
    included. *)
Theorem patch_upload_rebuilds wb0 wb :
  wf wb0 -> OnPartFull wb0 <> Some ShadowSpillEvict -> dirtyResident wb0 ->
  rtc edit wb0 wb -> rebuild wb (fileContents wb0) = fileContents wb.
Proof.
  intros Hwf Hev Hr Hedits.
  assert (patchable (fileContents wb0) wb) as (Hw & _ & Htr).
  { apply (patchable_edits _ wb0); [|done]. split_and!; [done..|by apply tracked_base]. }
  by apply tracked_rebuild.
Qed.

Lemma patch_upload_rebuilds_witness :
  let wb := fst (fst (Write demoFile 5 [x7a; x7a])) in
  DirtyPartNumbers wb = [2]
  /\ rebuild wb demoRemote = [x61; x62; x63; x64; x65; x7a; x7a]
  /\ rebuild wb (fileContents demoFile) = fileContents wb.
Proof.
  split; [vm_compute; reflexivity|]. split; [vm_compute; reflexivity|].
  apply (patch_upload_rebuilds demoFile); [exact demo_wf|done|intros _ p Hp; done|].
  apply rtc_once. apply (edit_write _ _ 5 [x7a; x7a] 2 []);
    [vm_compute; split; congruence|vm_compute; congruence|vm_compute; reflexivity].
Defined.

(** A file written sequentially in any chunking hands every full part to the
    stream uploader exactly once, in order and with the file's bytes, and ends up
    with the concatenation of the chunks. *)
Theorem stream_submits_in_order wb datas :
  streaming wb -> totalSize wb = 0 ->
  zlen (mjoin datas) <= maxSize wb -> zlen (mjoin datas) < 2 ^ 32 ->
  let file := mjoin datas in
  exists wb', appendAll wb datas =
      (wb', indexedParts file (partSize wb) 0 (zlen file / partSize wb))
    /\ fileContents wb' = file.
Proof.
  intros Hst H0 Hmax H32 file.
  destruct (appendAll_stream datas wb Hst ltac:(lia) H32) as (wb' & E & Hst' & Hc & _).
  assert (fileContents wb = []) as Hnil by (unfold fileContents; by rewrite H0).
  rewrite Hnil in Hc. simpl in Hc. pose proof (wf_total _ (sg_wf _ Hst')).
  rewrite <- (zlen_fileContents wb') in E by lia. rewrite Hc in E.
  exists wb'. split; [|done]. rewrite E, H0.
  by rewrite Z.div_0_l by (pose proof (wf_partSize _ (sg_wf _ Hst)); lia).
Qed.

(** A new file as [Create] opens it without a shadow store. *)
Definition demoStream : WriteBuffer := {|
  path := "/f"; totalSize := 0; maxSize := 100; partSize := 4; smallFileMax := 2;
  parts := ∅; dirtyParts := ∅; touched := true; LoadPart := None; remoteSize := 0;
  curMemory := 0; appendCursor := 0; sequential := true; uploadedParts := Some ∅;
  OnPartFull := Some StreamSubmit; smallFileData := None |}.

Lemma stream_submits_in_order_witness :
  exists wb', appendAll demoStream [[x61]; [x62; x63; x64; x65]; [x66; x67; x68; x69]]
    = (wb', [(0, [x61; x62; x63; x64]); (1, [x65; x66; x67; x68])])
    /\ fileContents wb' = [x61; x62; x63; x64; x65; x66; x67; x68; x69].
Proof.
  destruct (stream_submits_in_order demoStream
    [[x61]; [x62; x63; x64; x65]; [x66; x67; x68; x69]]) as (wb' & E & C);
    [|done|vm_compute; congruence|done|].
  - split; [split|intros i _; by apply fileByte_empty|..]; try done; try (intros _ i Hi; change (totalSize demoStream) with 0 in Hi; lia).
  - exists wb'. rewrite E, C. split; vm_compute; reflexivity.
Defined.

(** C39: the representation invariant holds in every state an opened buffer
    reaches through writes, truncations, loads, evictions, dirty-map and cursor
    resets and restored snapshots: the size is within the limit, the small-file
    slice and the parts never coexist, every part fits the part size, and
    [curMemory] is exactly the memory the parts hold. *)
Theorem reachable_wf wb0 wb : wf wb0 -> reachable wb0 wb -> wf wb.
Proof.
  intros Hwf Hr. induction Hr as [|wb wb' _ IH Hst|wb old wb' _ _ _ IH E]; [done| |].
  - by eapply step_wf.
  - by apply (restore_wf wb old).
Qed.

Lemma reachable_wf_witness :
  wf (EvictPart (fst (fst (Write demoFile 3 [x7a; x7a]))) 0)
  /\ curMemory (EvictPart (fst (fst (Write demoFile 3 [x7a; x7a]))) 0) = 2.
Proof.
  split; [|vm_compute; reflexivity]. apply (reachable_wf demoFile); [exact demo_wf|].
  eapply reach_step; [eapply reach_step; [apply reach_open|]|].
  - apply (step_write demoFile 3 [x7a; x7a]); vm_compute; congruence.
  - apply step_evict.
Defined.

(** When [CanMaterializeFull] says so, [Bytes] is the file and [ReadAt] is
    POSIX [pread] on it, clamped at the end, and neither runs out of range. *)
Theorem materialized_reads wb offset buf :
  wf wb -> CanMaterializeFull wb = true -> 0 <= offset -> offset + zlen buf <= max_int64 ->
  Bytes wb = fileContents wb
  /\ let got := posixRead (fileContents wb) offset (zlen buf) in
     ReadAt wb offset buf = Some (zlen got, gcopy buf 0 got).
Proof.
  intros Hwf Hc Hoff Hov.
  assert (forall i, 0 <= i < totalSize wb -> memByte wb i = fileByte wb i) as Hm.
  { intros i Hi. by apply CanMaterializeFull_mem. }
  split; [by apply Bytes_contents|by apply ReadAt_contents].
Qed.

Lemma materialized_reads_witness :
  let wb := fst (EnsureLoaded (fst (EnsureLoaded demoFile 0)) 1) in
  CanMaterializeFull wb = true /\ Bytes wb = demoRemote
  /\ ReadAt wb 3 (gmake 9) = Some (3, [x64; x65; x66; x00; x00; x00; x00; x00; x00]).
Proof.
  intros wb. split; [vm_compute; reflexivity|].
  destruct (materialized_reads wb 3 (gmake 9)) as [B R];
    [|vm_compute; reflexivity|lia|vm_compute; congruence|].
  - do 2 (apply ensurePart_wf; [|lia]). exact demo_wf.
  - rewrite B. split; [vm_compute; reflexivity|]. rewrite R. vm_compute. reflexivity.
Defined.

(** The parts [PartData] returns for the part numbers of the file, put one
    after the other, are exactly [Bytes], for every mode and every last-part
    length. *)
Theorem parts_concat_bytes wb :
  wf wb ->
  mjoin ((fun n => default [] (PartData wb n)) <$> seqZ 1 (partCount wb (totalSize wb)))
  = Bytes wb.
Proof.
  intros Hwf. rewrite Bytes_mem by done. rewrite <- pieces_whole by done. f_equal.
  apply fmap_ext_seqZ. intros n Hn. destruct (part_range wb n Hwf Hn).
  rewrite PartData_mem, decide_False by (done || lia). simpl.
  pose proof (wf_partSize _ Hwf). by rewrite Z.max_r by lia.
Qed.

Lemma parts_concat_bytes_witness :
  let wb := fst (fst (Write demoFile 3 [x7a; x7a; x7a; x7a])) in
  (PartData wb 1, PartData wb 2, PartData wb 3)
    = (Some [x61; x62; x63; x7a], Some [x7a; x7a; x7a], None)
  /\ mjoin ((fun n => default [] (PartData wb n)) <$> seqZ 1 (partCount wb (totalSize wb)))
     = Bytes wb.
Proof.
  split; [vm_compute; reflexivity|]. apply parts_concat_bytes.
  apply (step_wf demoFile); [exact demo_wf|].
  apply (step_write demoFile 3 [x7a; x7a; x7a; x7a]); vm_compute; congruence.
Defined.

(** Every outcome of [Write].  Past the limit it is [EFBIG] and nothing
    changes; otherwise it completes, or a remote part cannot be loaded and the
    error carries the count [m] of bytes before that part: exactly these are in the
    file, the size is already extended, and the buffer is well formed.  It never
    panics and its loop never runs out of steps. *)
Theorem write_outcomes wb offset data :
  wf wb -> 0 <= offset -> offset + zlen data <= max_int64 ->
  (maxSize wb < offset + zlen data /\ Write wb offset data = (wb, Failed 0 EFBIG, []))
  \/ (exists wb' sub, Write wb offset data = (wb', Done (uint32 (zlen data)), sub)
       /\ wf wb' /\ totalSize wb' = Z.max (totalSize wb) (offset + zlen data))
  \/ (exists wb' m load err, Write wb offset data = (wb', Failed (uint32 m) err, [])
       /\ LoadPart wb = Some load /\ load ((offset + m) / partSize wb + 1) = inr err
       /\ 0 <= m <= zlen data
       /\ wf wb' /\ totalSize wb' = Z.max (totalSize wb) (offset + zlen data)
       /\ forall i, 0 <= i -> fileByte wb' i =
            if decide (offset <= i < offset + m) then nthb data (i - offset)
            else fileByte wb i).
Proof.
  intros Hwf Hoff Hov. destruct (decide (offset + zlen data <= maxSize wb)) as [Hmax|Hmax].
  2: { left. split; [lia|]. apply write_efbig_aux; done || lia. }
  right. destruct (Write_cases wb offset data Hwf Hoff Hmax) as
    [(wb1 & wb' & sub & E & Hp & _ & He & _)|
     (wb' & m & load & err & E & Hl & Herr & Hm & Hw & _ & Ht & Hb)].
  - left. exists wb', sub. destruct He as [Hw (_ & Ht & _) _].
    split_and!; [done|done|]. rewrite Ht. by apply Hp.
  - right. exists wb', m, load, err. split_and!; done || lia.
Qed.

(** [demoFile] with a server that fails on the second part. *)
Definition demoFailing : WriteBuffer := {|
  path := "/f"; totalSize := 6; maxSize := 100; partSize := 4; smallFileMax := 50000;
  parts := ∅; dirtyParts := ∅; touched := false;
  LoadPart := Some (fun n => if n =? 2 then inr (LoadError "EIO") else demoLoad n);
  remoteSize := 6; curMemory := 0; appendCursor := 0; sequential := false;
  uploadedParts := None; OnPartFull := None; smallFileData := None |}.

Lemma write_outcomes_witness :
  exists wb', Write demoFailing 2 [x7a; x7a; x7a] = (wb', Failed 2 (LoadError "EIO"), [])
    /\ Bytes wb' = [x61; x62; x7a; x7a; x00; x00].
Proof.
  assert (snd (fst (Write demoFailing 2 [x7a; x7a; x7a])) = Failed 2 (LoadError "EIO")) as O
    by (vm_compute; reflexivity).
  assert (Bytes (fst (fst (Write demoFailing 2 [x7a; x7a; x7a])))
          = [x61; x62; x7a; x7a; x00; x00]) as B by (vm_compute; reflexivity).
  destruct (write_outcomes demoFailing 2 [x7a; x7a; x7a]) as [[_ E]|[(wb' & sub & E & _)|
    (wb' & m & load & err & E & _)]];
    [|lia|vm_compute; congruence|rewrite E in O; discriminate O..|].
  - destruct demo_wf as [? ? ? L ? ? ?]. split;
      [assumption..| |assumption|assumption|intros s Hs; discriminate Hs].
    unfold loaderOk. intros n data E. simpl in E. destruct (n =? 2); [discriminate E|].
    exact (L n data E).
  - rewrite E in O, B. simpl in O, B. exists wb'. rewrite E, O. split; [reflexivity|exact B].
Defined.

(** Rolling back with [restore] gives back the buffer the snapshot was taken
    of, whatever happened in between: every field is equal, the small-file slice
    up to its spare capacity, so its bytes are the same and the invariant holds. *)
Theorem snapshot_restores wb old :
  wf old ->
  exists wb', restore (Some wb) (snapshot (Some old)) = Some wb' /\ wf wb'
    /\ set_smallFileData None wb' = set_smallFileData None old
    /\ contents <$> smallFileData wb' = contents <$> smallFileData old
    /\ Bytes wb' = Bytes old.
Proof.
  intros Hwf. destruct (restore (Some wb) (snapshot (Some old))) as [wb'|] eqn:E; [|done].
  exists wb'. destruct (restore_wf wb old wb' Hwf E) as (Hw & Hs & Hc).
  split_and!; try done. by apply Bytes_same.
Qed.

Lemma snapshot_restores_witness :
  let old := fst (fst (Write (NewWriteBuffer "/f" 100 100000) 0 [x61; x62])) in
  let later := fst (fst (Write old 1 [x7a; x7a; x7a])) in
  exists wb', restore (Some later) (snapshot (Some old)) = Some wb'
    /\ Bytes later = [x61; x7a; x7a; x7a] /\ Bytes wb' = [x61; x62].
Proof.
  intros old later. destruct (snapshot_restores later old) as (wb' & E & _ & _ & _ & B).
  - apply (step_wf (NewWriteBuffer "/f" 100 100000));
      [exact (lf_wf _ (proj1 (new_local "/f" 100 100000 ltac:(vm_compute; congruence))))|].
    apply (step_write _ 0 [x61; x62]); vm_compute; congruence.
  - exists wb'. rewrite B. split; [exact E|]. split; vm_compute; reflexivity.
Defined.

(** ** Findings *)

(** C40: what a shrink followed by an extension does to a file in part mode.  Both calls
    succeed and the bytes before the cut are kept; past the cut, the part that was cut reads
    as zeros if it was in memory, and every other byte is what the loader brings for its
    part: the old remote bytes, since [Truncate] leaves [remoteSize] and the loader as they
    are.  So whenever the remote file has a byte other than zero in a part after the cut,
    the file is not what POSIX [ftruncate] makes of it. *)
Theorem truncate_resurrects wb size n :
  wf wb -> smallFileData wb = None -> 0 <= size < totalSize wb -> size <= n <= maxSize wb ->
  exists wb1 wb2, Truncate wb size = (wb1, Done 0) /\ Truncate wb1 n = (wb2, Done 0)
    /\ zlen (fileContents wb2) = n
    /\ (forall i, 0 <= i < size -> nthb (fileContents wb2) i = nthb (fileContents wb) i)
    /\ (forall i, size <= i < n -> nthb (fileContents wb2) i
          = if decide (i / partSize wb < partCount wb size /\ is_Some (parts wb !! (i / partSize wb))) then x00
            else remoteByte wb (i / partSize wb) (i mod partSize wb))
    /\ (forall i, size <= i < n -> partCount wb size <= i / partSize wb ->
          remoteByte wb (i / partSize wb) (i mod partSize wb) <> x00 ->
          fileContents wb2 <> posixTruncate (posixTruncate (fileContents wb) size) n).
Proof.
  intros Hwf Hs Hsz Hn. pose proof (wf_total _ Hwf) as Ht. set (wb0 := set_touched true wb).
  assert (wf wb0) as Hwf0 by (destruct Hwf; by split).
  destruct (Truncate_post wb size Hwf ltac:(lia)) as (wb1 & E1 & P1). rewrite Z.max_r in P1 by lia.
  assert (wb1 = shrinkParts wb0 size (totalSize wb0)) as Eshrink.
  { revert E1. unfold Truncate, truncateDepth. rewrite (proj2 (Z.ltb_ge _ _)), (proj2 (Z.ltb_ge size 0)) by lia.
    simpl. rewrite (proj2 (Z.ltb_lt size _)), Hs by lia. by intros [= <-]. }
  assert (maxSize wb1 = maxSize wb) as Emax by apply (sameConfig_fields _ _ (tp_config _ _ _ P1)).
  destruct (Truncate_post wb1 n (tp_wf _ _ _ P1) ltac:(lia)) as (wb2 & E2 & P2). rewrite Z.max_r in P2 by lia.
  pose proof (tp_total _ _ _ P1) as T1. pose proof (tp_total _ _ _ P2) as T2.
  assert (forall i, 0 <= i < n -> nthb (fileContents wb2) i = fileByte wb1 i) as Hb.
  { intros i Hi. rewrite nthb_fileContents, decide_True by lia. apply (tp_grow _ _ _ P2); lia. }
  assert (forall i, size <= i < n -> nthb (fileContents wb2) i
    = if decide (i / partSize wb < partCount wb size /\ is_Some (parts wb !! (i / partSize wb))) then x00
      else remoteByte wb (i / partSize wb) (i mod partSize wb)) as Htail.
  { intros i Hi. rewrite Hb, Eshrink by lia. exact (shrinkParts_tail wb0 size i Hwf0 Hs Hsz ltac:(lia)). }
  exists wb1, wb2. split_and!; [done|done|rewrite zlen_fileContents; lia| |done|].
  - intros i Hi. rewrite Hb by lia. rewrite (tp_keep _ _ _ P1) by lia. by rewrite nthb_fileContents, decide_True by lia.
  - intros i Hi Hpart Hne E. apply Hne. pose proof (Htail i Hi) as Hr. rewrite decide_False in Hr by lia.
    rewrite <- Hr, E. unfold posixTruncate.
    rewrite nthb_gslice, decide_True, nthb_app_gmake by lia. by rewrite nthb_gslice, decide_False by lia.
Qed.

Lemma truncate_resurrects_witness :
  exists wb1 wb2, Truncate demoFile 0 = (wb1, Done 0) /\ Truncate wb1 6 = (wb2, Done 0)
    /\ nthb (fileContents wb2) 5 = x66
    /\ fileContents wb2 <> posixTruncate (posixTruncate (fileContents demoFile) 0) 6.
Proof.
  destruct (truncate_resurrects demoFile 0 6 demo_wf eq_refl) as (wb1 & wb2 & E1 & E2 & _ & _ & T & N);
    [vm_compute; split; congruence|vm_compute; split; congruence|].
  exists wb1, wb2. split; [exact E1|]. split; [exact E2|]. split.
  - rewrite (T 5); [vm_compute; reflexivity|lia].
  - apply (N 5); [lia|vm_compute; congruence|vm_compute; congruence].
Defined.

(** A write past the end after a shrink leaves the parts of the gap out of the
    dirty map although their contents changed, so a patch upload would copy the
    old parts back: here part 2 of a local twelve-byte file. *)
Theorem gap_write_not_dirty :
  let wb0 := ClearDirty (fst (fst (Write (NewWriteBuffer "/f" 100 4) 0
               [x61; x62; x63; x64; x65; x66; x67; x68; x69; x6a; x6b; x6c]))) in
  let wb := fst (fst (Write (fst (Truncate wb0 2)) 9 [x7a])) in
  Bytes wb = [x61; x62; x00; x00; x00; x00; x00; x00; x00; x7a]
  /\ dirtyParts wb !! 1 = None
  /\ rebuild wb (Bytes wb0) = [x61; x62; x00; x00; x65; x66; x67; x68; x00; x7a].
Proof. vm_compute. done. Qed.

End BufferProps.
