(* ===== verification/GoStrings.v ===== *)
(** * Go's [strings] functions

    The string functions of Go's standard library that the components use, on byte
    strings (one [ascii] per byte, as Go's indexing sees a [string]), with the
    lemmas about prefixes and path subtrees they share. *)

From S2P Require Import Prelude.

Module GoStr.

#[local] Arguments String.append !_ _ / : simpl nomatch.

(** The code of a byte. *)
Definition code (c : Ascii.ascii) : Z := Z.of_N (Ascii.N_of_ascii c).

(** [strings.CutPrefix]: the rest after the prefix, if it is one. *)
Fixpoint CutPrefix (s prefix : string) {struct prefix} : option string :=
  match prefix with
  | EmptyString => Some s
  | String c prefix =>
      match s with
      | String d s => if Ascii.eqb c d then CutPrefix s prefix else None
      | EmptyString => None
      end
  end.

(** [strings.HasPrefix] *)
Definition HasPrefix (s prefix : string) : bool :=
  match CutPrefix s prefix with Some _ => true | None => false end.

(** [strings.TrimPrefix] *)
Definition TrimPrefix (s prefix : string) : string := default s (CutPrefix s prefix).

(** [strings.HasSuffix] *)
Fixpoint HasSuffix (s suffix : string) {struct s} : bool :=
  String.eqb s suffix
    || match s with
       | EmptyString => false
       | String _ s => HasSuffix s suffix
       end.

Lemma CutPrefix_spec s p r : CutPrefix s p = Some r <-> s = p +:+ r.
Proof.
  revert s. induction p as [|c p IH]; intros s; simpl.
  - split; [by intros [= ->]|by intros ->].
  - destruct s as [|d s]; [done|]. destruct (Ascii.eqb_spec c d) as [->|Hne].
    + rewrite IH. split; congruence.
    + split; [done|]. congruence.
Qed.

Lemma HasPrefix_spec s p : HasPrefix s p = true <-> exists r, s = p +:+ r.
Proof.
  unfold HasPrefix. destruct (CutPrefix s p) as [r|] eqn:E.
  - apply CutPrefix_spec in E. split; [by exists r|done].
  - split; [done|]. intros [r Hr]. apply CutPrefix_spec in Hr. congruence.
Qed.

Lemma TrimPrefix_app p r : TrimPrefix (p +:+ r) p = r.
Proof. unfold TrimPrefix. by rewrite (proj2 (CutPrefix_spec _ _ r) eq_refl). Qed.

Lemma string_app_assoc (a b c : string) : a +:+ (b +:+ c) = (a +:+ b) +:+ c.
Proof. induction a; simpl; congruence. Qed.

Lemma string_app_nil_r (a : string) : a +:+ "" = a.
Proof. induction a; simpl; congruence. Qed.

Lemma string_app_inj (p a b : string) : p +:+ a = p +:+ b -> a = b.
Proof. induction p; simpl; intros H; simplify_eq; auto. Qed.

Lemma string_app_length (a b : string) :
  String.length (a +:+ b) = (String.length a + String.length b)%nat.
Proof. induction a; simpl; lia. Qed.

Lemma string_app_inj_r (a b s : string) : a +:+ s = b +:+ s -> a = b.
Proof.
  revert b. induction a as [|c a IH]; intros [|d b] H; simpl in *; [done|..].
  - apply (f_equal String.length) in H. simpl in H. rewrite string_app_length in H. lia.
  - apply (f_equal String.length) in H. simpl in H. rewrite string_app_length in H. lia.
  - simplify_eq. by rewrite (IH b).
Qed.

Lemma HasSuffix_app a s : HasSuffix (a +:+ s) s = true.
Proof.
  induction a as [|c a IH]; simpl.
  - destruct s; cbn [HasSuffix]; by rewrite String.eqb_refl.
  - rewrite IH. apply orb_true_r.
Qed.

(** ** The order of strings *)

Lemma ascii_compare_code a b : Ascii.compare a b = (code a ?= code b).
Proof. unfold Ascii.compare, code. by rewrite N2Z.inj_compare. Qed.

Lemma code_inj a b : code a = code b -> a = b.
Proof.
  unfold code. intros H. rewrite <- (Ascii.ascii_N_embedding a), <- (Ascii.ascii_N_embedding b).
  f_equal. lia.
Qed.

Lemma ltb_cons a b s t :
  String.ltb (String a s) (String b t) = (code a <? code b) || ((code a =? code b) && String.ltb s t).
Proof.
  unfold String.ltb. simpl. rewrite ascii_compare_code. unfold Z.ltb.
  destruct (Z.compare_spec (code a) (code b)) as [E|E|E]; simpl.
  - apply Z.eqb_eq in E. by rewrite E.
  - done.
  - by rewrite (proj2 (Z.eqb_neq _ _)) by lia.
Qed.

Lemma ltb_irrefl s : String.ltb s s = false.
Proof. induction s as [|a s IH]; [done|]. rewrite ltb_cons, IH, Z.ltb_irrefl. by rewrite andb_false_r. Qed.

Lemma ltb_trans s t u : String.ltb s t = true -> String.ltb t u = true -> String.ltb s u = true.
Proof.
  revert t u. induction s as [|a s IH]; intros [|b t] [|c u]; try done. rewrite !ltb_cons.
  rewrite !orb_true_iff, !andb_true_iff, !Z.ltb_lt, !Z.eqb_eq.
  intros [H1|[H1 H2]] [H3|[H3 H4]]; try (left; lia). right. split; [lia|eauto].
Qed.

Lemma ltb_total s t : s = t \/ String.ltb s t = true \/ String.ltb t s = true.
Proof.
  revert t. induction s as [|a s IH]; intros [|b t]; [by left|by right; left|by right; right|].
  rewrite !ltb_cons. destruct (Z.lt_total (code a) (code b)) as [E|[E|E]].
  - right. left. by rewrite (proj2 (Z.ltb_lt _ _) E).
  - apply code_inj in E as ->. rewrite Z.ltb_irrefl, Z.eqb_refl. simpl.
    destruct (IH t) as [->|[?|?]]; auto.
  - right. right. by rewrite (proj2 (Z.ltb_lt _ _) E).
Qed.

Lemma ltb_asym s t : String.ltb s t = true -> String.ltb t s = false.
Proof.
  intros H. destruct (String.ltb t s) eqn:E; [|done].
  pose proof (ltb_trans _ _ _ H E) as H'. by rewrite ltb_irrefl in H'.
Qed.

(** ** Subtrees of the path namespace *)

(** [q] is a proper descendant of [p]. *)
Definition under (p q : string) : bool := HasPrefix q (p +:+ "/").

(** [q] is [p] or a descendant of it. *)
Definition inTree (p q : string) : Prop := q = p \/ under p q = true.

#[global] Instance inTree_dec p q : Decision (inTree p q).
Proof. unfold inTree. apply _. Defined.

Lemma under_spec p q : under p q = true <-> exists r, q = p +:+ "/" +:+ r.
Proof.
  unfold under. rewrite HasPrefix_spec. split; intros [r ->]; exists r;
    by rewrite string_app_assoc.
Qed.

(** Two prefixes of one string are comparable. *)
Lemma app_prefix_cases (a b x y : string) :
  a +:+ x = b +:+ y -> (exists r, a = b +:+ r /\ y = r +:+ x) \/ (exists r, b = a +:+ r /\ x = r +:+ y).
Proof.
  revert b. induction a as [|c a IH]; intros b H; simpl in *.
  - right. exists b. done.
  - destruct b as [|d b]; simpl in *.
    + left. exists (String c a). done.
    + simplify_eq. destruct (IH b ltac:(done)) as [(r & -> & ?)|(r & -> & ?)];
        [left|right]; by exists r.
Qed.

Lemma under_self_false p : under p p = false.
Proof.
  destruct (under p p) eqn:E; [|done]. apply under_spec in E as [r Hr].
  apply (f_equal String.length) in Hr. rewrite !string_app_length in Hr. simpl in Hr. lia.
Qed.

(** The subtrees of two paths neither of which contains the other are disjoint. *)
Lemma inTree_disjoint p p' q :
  ~ inTree p p' -> ~ inTree p' p -> inTree p q -> inTree p' q -> False.
Proof.
  intros H1 H2 [->|Hq] [E|Hq']; [by apply H2; left|by apply H2; right|by apply H1; right; rewrite <- E|].
  apply under_spec in Hq as [r ->]. apply under_spec in Hq' as [r' Hr'].
  destruct (app_prefix_cases _ _ _ _ Hr') as [(x & -> & E)|(x & -> & E)].
  - destruct x as [|c x].
    + apply H1. left. by rewrite string_app_nil_r.
    + simpl in E. simplify_eq. apply H2. right. apply under_spec. by exists x.
  - destruct x as [|c x].
    + apply H1. left. by rewrite string_app_nil_r.
    + simpl in E. simplify_eq. apply H1. right. apply under_spec. by exists x.
Qed.

(** Where a path of the tree of [old] goes when that tree moves to [new]. *)
Definition relocate (old new p : string) : string := new +:+ TrimPrefix p old.

Lemma relocate_self old new : relocate old new old = new.
Proof.
  unfold relocate. rewrite <- (string_app_nil_r old) at 1.
  rewrite TrimPrefix_app. apply string_app_nil_r.
Qed.

Lemma relocate_under old new r : relocate old new (old +:+ "/" +:+ r) = new +:+ "/" +:+ r.
Proof. unfold relocate. by rewrite TrimPrefix_app. Qed.

Lemma relocate_inTree old new p : inTree old p -> inTree new (relocate old new p).
Proof.
  intros [->|H]; [left; apply relocate_self|].
  apply under_spec in H as [r ->]. rewrite relocate_under. right. apply under_spec. by exists r.
Qed.

Lemma relocate_back old new p : inTree old p -> relocate new old (relocate old new p) = p.
Proof.
  intros [->|H]; [by rewrite !relocate_self|].
  apply under_spec in H as [r ->]. by rewrite !relocate_under.
Qed.

Lemma relocate_inj old new p q :
  inTree old p -> inTree old q -> relocate old new p = relocate old new q -> p = q.
Proof. intros Hp Hq E. by rewrite <- (relocate_back old new p), E, relocate_back. Qed.

(** ** Blank strings *)

(** The UTF-8 encoded [unicode.IsSpace] rune at the start of a string, with the rest:
    the ASCII spaces, U+0085, U+00A0, U+1680, U+2000 to U+200A, U+2028, U+2029,
    U+202F, U+205F and U+3000. *)
Definition cutSpace (s : string) : option string :=
  match s with
  | String a s1 =>
      if ((9 <=? code a) && (code a <=? 13)) || (code a =? 32) then Some s1
      else
        match s1 with
        | String b s2 =>
            if (code a =? 194) && ((code b =? 133) || (code b =? 160)) then Some s2
            else
              match s2 with
              | String c s3 =>
                  if ((code a =? 225) && (code b =? 154) && (code c =? 128))
                     || ((code a =? 226) && (code b =? 128)
                         && (((128 <=? code c) && (code c <=? 138)) || (code c =? 168)
                             || (code c =? 169) || (code c =? 175)))
                     || ((code a =? 226) && (code b =? 129) && (code c =? 159))
                     || ((code a =? 227) && (code b =? 128) && (code c =? 128))
                  then Some s3 else None
              | EmptyString => None
              end
        | EmptyString => None
        end
  | EmptyString => None
  end.

Fixpoint trimLeft (fuel : nat) (s : string) : string :=
  match fuel, cutSpace s with
  | S fuel, Some s => trimLeft fuel s
  | _, _ => s
  end.

(** [strings.TrimSpace(s) == ""]: nothing but spaces. *)
Definition isBlank (s : string) : bool :=
  bool_decide (trimLeft (String.length s) s = "").

(** The shortest prefix that only spaces follow. *)
Fixpoint trimRight (s : string) : string :=
  if isBlank s then "" else match s with
                            | EmptyString => EmptyString
                            | String c s => String c (trimRight s)
                            end.

(** [strings.TrimSpace] *)
Definition TrimSpace (s : string) : string := trimRight (trimLeft (String.length s) s).

(** [strings.Cut(s, sep)] for a separator of one byte. *)
Fixpoint Cut (sep : Ascii.ascii) (s : string) : option (string * string) :=
  match s with
  | EmptyString => None
  | String c s =>
      if Ascii.eqb c sep then Some ("", s)
      else match Cut sep s with Some (a, b) => Some (String c a, b) | None => None end
  end.

(** Every byte of a string satisfies [p]. *)
Fixpoint everyByte (p : Z -> bool) (s : string) : bool :=
  match s with EmptyString => true | String c s => p (code c) && everyByte p s end.

End GoStr.
