(* ===== verification/InodeMap.v ===== *)
(** * The inode table

    Model of [src/pkg/fuse/inode.go]: [InodeToPath], the two maps between inode
    numbers and paths that every FUSE request goes through.  The entry pointers
    live in exactly one map slot, so [map[uint64]*InodeEntry] is a [gmap] of
    records; a nil-pointer dereference is the result [None].  The order in which
    Go ranges over a map is the argument [order] of [Rename].  Instants are
    integers. *)

From S2P Require Import Prelude GoStrings.

Import GoStr.

Module Inodes.

Record InodeEntry := {
  Ino : Z;
  Path : string;
  IsDir : bool;
  Nlookup : Z;
  ESize : Z;
  Mtime : Z;
  Mode : Z;
  HasMode : bool;
  Revision : Z
}.

Record InodeToPath := {
  byInode : gmap Z InodeEntry;
  byPath : gmap string Z;
  nextIno : Z
}.

(** *** Field updates *)

Definition with_path (p : string) (e : InodeEntry) : InodeEntry :=
  {| Ino := Ino e; Path := p; IsDir := IsDir e; Nlookup := Nlookup e; ESize := ESize e;
     Mtime := Mtime e; Mode := Mode e; HasMode := HasMode e; Revision := Revision e |}.
Definition with_nlookup (n : Z) (e : InodeEntry) : InodeEntry :=
  {| Ino := Ino e; Path := Path e; IsDir := IsDir e; Nlookup := n; ESize := ESize e;
     Mtime := Mtime e; Mode := Mode e; HasMode := HasMode e; Revision := Revision e |}.
Definition with_size (n : Z) (e : InodeEntry) : InodeEntry :=
  {| Ino := Ino e; Path := Path e; IsDir := IsDir e; Nlookup := Nlookup e; ESize := n;
     Mtime := Mtime e; Mode := Mode e; HasMode := HasMode e; Revision := Revision e |}.
Definition with_mtime (t : Z) (e : InodeEntry) : InodeEntry :=
  {| Ino := Ino e; Path := Path e; IsDir := IsDir e; Nlookup := Nlookup e; ESize := ESize e;
     Mtime := t; Mode := Mode e; HasMode := HasMode e; Revision := Revision e |}.
Definition with_mode (m : Z) (e : InodeEntry) : InodeEntry :=
  {| Ino := Ino e; Path := Path e; IsDir := IsDir e; Nlookup := Nlookup e; ESize := ESize e;
     Mtime := Mtime e; Mode := m; HasMode := true; Revision := Revision e |}.
Definition with_revision (r : Z) (e : InodeEntry) : InodeEntry :=
  {| Ino := Ino e; Path := Path e; IsDir := IsDir e; Nlookup := Nlookup e; ESize := ESize e;
     Mtime := Mtime e; Mode := Mode e; HasMode := HasMode e; Revision := r |}.

Definition set_byInode (v : gmap Z InodeEntry) (m : InodeToPath) : InodeToPath :=
  {| byInode := v; byPath := byPath m; nextIno := nextIno m |}.
Definition set_byPath (v : gmap string Z) (m : InodeToPath) : InodeToPath :=
  {| byInode := byInode m; byPath := v; nextIno := nextIno m |}.

Definition rootEntry : InodeEntry :=
  {| Ino := 1; Path := "/"; IsDir := true; Nlookup := 1; ESize := 0; Mtime := 0; Mode := 0;
     HasMode := false; Revision := 0 |}.

Definition NewInodeToPath : InodeToPath :=
  {| byInode := {[ 1 := rootEntry ]}; byPath := {[ "/" := 1 ]}; nextIno := 2 |}.

(** ** Allocation *)

(** The allocation both [Lookup] and [EnsureInode] end with. *)
Definition allocate (m : InodeToPath) (path : string) (isDir : bool) (nlookup size mtime : Z)
    : InodeToPath * Z :=
  let ino := nextIno m in
  let entry := {| Ino := ino; Path := path; IsDir := isDir; Nlookup := nlookup;
                  ESize := size; Mtime := mtime; Mode := 0; HasMode := false; Revision := 0 |} in
  ({| byInode := <[ino := entry]> (byInode m); byPath := <[path := ino]> (byPath m);
      nextIno := wrapu64 (nextIno m + 1) |}, ino).

Definition Lookup (m : InodeToPath) (path : string) (isDir : bool) (size mtime : Z)
    : option (InodeToPath * Z) :=
  match byPath m !! path with
  | Some ino =>
      match byInode m !! ino with
      | None => None
      | Some entry =>
          let entry := with_nlookup (wrap64 (Nlookup entry + 1)) entry in
          let entry := with_mtime mtime (with_size size entry) in
          Some (set_byInode (<[ino := entry]> (byInode m)) m, ino)
      end
  | None => Some (allocate m path isDir 1 size mtime)
  end.

Definition EnsureInode (m : InodeToPath) (path : string) (isDir : bool) (size mtime : Z)
    : option (InodeToPath * Z) :=
  match byPath m !! path with
  | Some ino =>
      match byInode m !! ino with
      | None => None
      | Some entry =>
          let entry := with_mtime mtime (with_size size entry) in
          Some (set_byInode (<[ino := entry]> (byInode m)) m, ino)
      end
  | None => Some (allocate m path isDir 0 size mtime)
  end.

Definition IncrementLookup (m : InodeToPath) (ino : Z) : InodeToPath * bool :=
  match byInode m !! ino with
  | None => (m, false)
  | Some entry =>
      (set_byInode (<[ino := with_nlookup (wrap64 (Nlookup entry + 1)) entry]> (byInode m)) m,
       true)
  end.

(** ** Lookups *)

Definition GetPath (m : InodeToPath) (ino : Z) : option string := Path <$> byInode m !! ino.
Definition GetInode (m : InodeToPath) (path : string) : option Z := byPath m !! path.
Definition GetEntry (m : InodeToPath) (ino : Z) : option InodeEntry := byInode m !! ino.

(** [Snapshot] lists the entries in the iteration order [order] of [byInode]. *)
Definition Snapshot (order : gmap Z InodeEntry -> list (Z * InodeEntry)) (m : InodeToPath)
    : list InodeEntry := snd <$> order (byInode m).

(** ** Reference counts *)

(** [delete(m.byPath, entry.Path); delete(m.byInode, ino)] *)
Definition dropEntry (m : InodeToPath) (ino : Z) (entry : InodeEntry) : InodeToPath :=
  {| byInode := delete ino (byInode m); byPath := delete (Path entry) (byPath m);
     nextIno := nextIno m |}.

Definition Forget (m : InodeToPath) (ino nlookup : Z) : InodeToPath :=
  match byInode m !! ino with
  | None => m
  | Some entry =>
      let n := wrap64 (Nlookup entry - wrap64 nlookup) in
      if (n <=? 0) && negb (ino =? 1) then
        if IsDir entry then set_byInode (<[ino := with_nlookup 0 entry]> (byInode m)) m
        else dropEntry m ino entry
      else set_byInode (<[ino := with_nlookup n entry]> (byInode m)) m
  end.

Definition ForgetKeepMapping (m : InodeToPath) (ino nlookup : Z) : InodeToPath :=
  match byInode m !! ino with
  | None => m
  | Some entry =>
      let n := wrap64 (Nlookup entry - wrap64 nlookup) in
      let n := if n <? 0 then 0 else n in
      set_byInode (<[ino := with_nlookup n entry]> (byInode m)) m
  end.

Definition RemoveFileIfUnreferenced (m : InodeToPath) (ino : Z) : InodeToPath * bool :=
  match byInode m !! ino with
  | None => (m, false)
  | Some entry =>
      if (ino =? 1) || IsDir entry || (0 <? Nlookup entry) then (m, false)
      else (dropEntry m ino entry, true)
  end.

(** ** Attributes *)

Definition UpdateSize (m : InodeToPath) (ino size : Z) : InodeToPath :=
  set_byInode (alter (with_size size) ino (byInode m)) m.
Definition UpdateMtime (m : InodeToPath) (ino mtime : Z) : InodeToPath :=
  set_byInode (alter (with_mtime mtime) ino (byInode m)) m.
Definition UpdateRevision (m : InodeToPath) (ino revision : Z) : InodeToPath :=
  set_byInode (alter (with_revision revision) ino (byInode m)) m.
Definition UpdateMode (m : InodeToPath) (ino mode : Z) : InodeToPath :=
  set_byInode (alter (with_mode mode) ino (byInode m)) m.

(** ** Rename and removal *)

(** One iteration of the loop over the collected children. *)
Definition renameChild (oldPath newPath : string) (om : option InodeToPath) (c : string * Z)
    : option InodeToPath :=
  match om with
  | None => None
  | Some m =>
      let '(oldChildPath, childIno) := c in
      let newChildPath := newPath +:+ "/" +:+ TrimPrefix oldChildPath (oldPath +:+ "/") in
      let m := set_byPath (<[newChildPath := childIno]> (delete oldChildPath (byPath m))) m in
      match byInode m !! childIno with
      | None => None
      | Some e => Some (set_byInode (<[childIno := with_path newChildPath e]> (byInode m)) m)
      end
  end.

(** [Rename]: the entry itself, then the descendants of a directory. *)
Definition Rename (order : gmap string Z -> list (string * Z)) (m : InodeToPath)
    (oldPath newPath : string) : option InodeToPath :=
  match byPath m !! oldPath with
  | None => Some m
  | Some ino =>
      let oentry := byInode m !! ino in
      let m := set_byPath (delete oldPath (byPath m)) m in
      let m := match byPath m !! newPath with
               | Some replacedIno =>
                   if negb (replacedIno =? ino)
                   then set_byInode (delete replacedIno (byInode m)) m else m
               | None => m
               end in
      let m := set_byPath (<[newPath := ino]> (byPath m)) m in
      match oentry with
      | None => None
      | Some entry =>
          let m := set_byInode (<[ino := with_path newPath entry]> (byInode m)) m in
          if IsDir entry then
            let children := filter (fun c => HasPrefix (fst c) (oldPath +:+ "/") = true)
                              (order (byPath m)) in
            foldl (renameChild oldPath newPath) (Some m) children
          else Some m
      end
  end.

Definition Remove (m : InodeToPath) (path : string) : InodeToPath :=
  match byPath m !! path with
  | None => m
  | Some ino => {| byInode := delete ino (byInode m); byPath := delete path (byPath m);
                   nextIno := nextIno m |}
  end.

(** ** The invariant *)

(** A path leads to an entry that has this path, every number was issued, and the root is
    a directory at inode 1 and nowhere else. *)
Record ok (m : InodeToPath) : Prop := {
  ok_path : forall p i, byPath m !! p = Some i -> exists e, byInode m !! i = Some e /\ Path e = p;
  ok_ino : forall i e, byInode m !! i = Some e -> Ino e = i /\ 0 < i < nextIno m /\ (Path e = "/" -> i = 1);
  ok_root : byPath m !! "/" = Some 1 /\ exists e, byInode m !! 1 = Some e /\ IsDir e = true;
  ok_next : nextIno m < 2 ^ 64
}.

(** The other direction: an entry is what its path leads to. *)
Definition bijective (m : InodeToPath) : Prop :=
  forall i e, byInode m !! i = Some e -> byPath m !! Path e = Some i.

Lemma new_ok : ok NewInodeToPath.
Proof.
  split; simpl; [| | |done].
  - intros p i Hp. apply lookup_singleton_Some in Hp as [<- <-].
    exists rootEntry. by rewrite lookup_singleton_eq.
  - intros i e He. apply lookup_singleton_Some in He as [<- <-]. simpl. split_and!; done || lia.
  - rewrite lookup_singleton_eq. split; [done|]. exists rootEntry. by rewrite lookup_singleton_eq.
Qed.

Lemma new_bijective : bijective NewInodeToPath.
Proof. intros i e He. cbn in He. by apply lookup_singleton_Some in He as [<- <-]. Qed.

(** A path leads to one inode, and an inode is led to by one path. *)
Lemma ok_inj m p q i : ok m -> byPath m !! p = Some i -> byPath m !! q = Some i -> p = q.
Proof.
  intros Hok Hp Hq. destruct (ok_path _ Hok _ _ Hp) as (e & He & <-), (ok_path _ Hok _ _ Hq) as (e' & He' & <-). congruence.
Qed.

(** Changing an entry without moving it. *)
Lemma ok_update m ino e e' :
  ok m -> byInode m !! ino = Some e -> Path e' = Path e -> Ino e' = Ino e ->
  IsDir e' = IsDir e -> ok (set_byInode (<[ino := e']> (byInode m)) m).
Proof.
  intros [Hp Hi (Hr & r & Hr1 & Hrd) Hn] He HP HI HD. split; simpl; [| | |done].
  - intros p i Hpi. destruct (Hp p i Hpi) as (e1 & H1 & H1p).
    destruct (decide (i = ino)) as [->|]; [|by rewrite lookup_insert_ne; eauto].
    rewrite lookup_insert_eq. exists e'. split; congruence.
  - intros i e1 H1. apply lookup_insert_Some in H1 as [[<- <-]|[? H1]]; [|by apply Hi].
    rewrite HP, HI. by apply Hi.
  - split; [done|]. destruct (decide (ino = 1)) as [->|].
    + exists e'. rewrite lookup_insert_eq. split; congruence.
    + exists r. by rewrite lookup_insert_ne by done.
Qed.

Lemma bijective_update m ino e e' :
  bijective m -> byInode m !! ino = Some e -> Path e' = Path e -> bijective (set_byInode (<[ino := e']> (byInode m)) m).
Proof.
  intros H He HP i e1. cbn. intros [[<- <-]|[_ H1]]%lookup_insert_Some; [rewrite HP|]; by apply H.
Qed.

Lemma alter_entry m ino f e : byInode m !! ino = Some e -> alter f ino (byInode m) = <[ino := f e]> (byInode m).
Proof.
  intros E. apply map_eq. intros i. destruct (decide (i = ino)) as [->|].
  - by rewrite lookup_insert_eq, lookup_alter_eq, E.
  - by rewrite lookup_insert_ne, lookup_alter_ne.
Qed.

Lemma ok_alter m ino f :
  ok m -> (forall e, Path (f e) = Path e /\ Ino (f e) = Ino e /\ IsDir (f e) = IsDir e) ->
  ok (set_byInode (alter f ino (byInode m)) m).
Proof.
  intros Hok Hf. destruct (byInode m !! ino) as [e|] eqn:E.
  - destruct (Hf e) as (HP & HI & HD). rewrite (alter_entry m ino f e E). by eapply ok_update.
  - rewrite alter_id; [by destruct m|]. intros e He. congruence.
Qed.

Lemma bijective_alter m ino f :
  bijective m -> (forall e, Path (f e) = Path e) -> bijective (set_byInode (alter f ino (byInode m)) m).
Proof.
  intros Hb Hf. destruct (byInode m !! ino) as [e|] eqn:E.
  - rewrite (alter_entry m ino f e E). by eapply bijective_update.
  - rewrite alter_id; [by destruct m|]. intros e He. congruence.
Qed.

(** Dropping an entry other than the root. *)
Lemma ok_drop m ino e :
  ok m -> byInode m !! ino = Some e -> ino <> 1 -> ok (dropEntry m ino e).
Proof.
  intros [Hp Hi (Hr & r & Hr1 & Hrd) Hn] He Hne. split; simpl; [| | |done].
  - intros p i Hpi. apply lookup_delete_Some in Hpi as [Hpe Hpi].
    destruct (Hp p i Hpi) as (e1 & H1 & H1p). exists e1. split; [|done].
    apply lookup_delete_Some. split; [|done]. intros <-. congruence.
  - intros i e1 H1. apply lookup_delete_Some in H1 as [Hie H1]. by apply Hi.
  - split; [|exists r; by rewrite lookup_delete_ne by done].
    rewrite lookup_delete_ne; [done|]. intros E. by apply Hne, (Hi ino e He).
Qed.

Lemma bijective_drop m ino e :
  bijective m -> byInode m !! ino = Some e -> bijective (dropEntry m ino e).
Proof.
  intros Hb He i e1 H1. cbn in *. apply lookup_delete_Some in H1 as [Hie H1]. pose proof (Hb _ _ H1) as Hp.
  apply lookup_delete_Some. split; [|done]. intros E. rewrite <- E, (Hb _ _ He) in Hp. congruence.
Qed.

Lemma ok_allocate m path isDir n size mtime :
  ok m -> byPath m !! path = None -> nextIno m + 1 < 2 ^ 64 ->
  ok (fst (allocate m path isDir n size mtime))
  /\ byInode m !! nextIno m = None.
Proof.
  intros [Hp Hi (Hr & r & Hr1 & Hrd) Hn] Hnew Hlt. destruct (Hi _ _ Hr1) as (_ & Hb1 & _).
  assert (byInode m !! nextIno m = None) as Hfresh.
  { destruct (byInode m !! nextIno m) as [e|] eqn:E; [|done]. apply Hi in E. lia. }
  split; [|done]. unfold allocate. rewrite wrapu64_small by lia. split; simpl; [| | |done].
  - intros p i Hpi. apply lookup_insert_Some in Hpi as [[<- <-]|[Hne Hpi]].
    + eexists. by rewrite lookup_insert_eq.
    + destruct (Hp p i Hpi) as (e & He & ?). exists e. rewrite lookup_insert_ne; [done|].
      intros <-. congruence.
  - intros i e He. apply lookup_insert_Some in He as [[<- <-]|[Hne He]]; simpl.
    + split_and!; [done|lia|lia|]. intros ->. congruence.
    + destruct (Hi i e He) as (? & ? & ?). split_and!; try done; lia.
  - rewrite lookup_insert_ne by congruence. split; [done|]. exists r. by rewrite lookup_insert_ne by lia.
Qed.

Lemma bijective_allocate m path isDir n size mtime :
  bijective m -> byPath m !! path = None -> byInode m !! nextIno m = None ->
  bijective (fst (allocate m path isDir n size mtime)).
Proof.
  intros Hb Hp Hi i e. cbn. intros [[<- <-]|[Hne He]]%lookup_insert_Some; cbn; [by rewrite lookup_insert_eq|].
  pose proof (Hb _ _ He). rewrite lookup_insert_ne; congruence.
Qed.

(** ** Rename *)

Lemma renameChild_path old new r :
  new +:+ "/" +:+ TrimPrefix (old +:+ "/" +:+ r) (old +:+ "/")
  = relocate old new (old +:+ "/" +:+ r).
Proof.
  rewrite relocate_under. do 2 f_equal. rewrite (string_app_assoc old). apply TrimPrefix_app.
Qed.

(** The children the loop moves: below [old], mapped to an entry at their path. *)
Definition movable (old : string) (m : InodeToPath) (cs : list (string * Z)) : Prop :=
  NoDup cs /\ forall p i, (p, i) ∈ cs -> under old p = true /\ byPath m !! p = Some i
    /\ exists e, byInode m !! i = Some e /\ Path e = p.

(** What the loop over the children does to the two maps. *)
Record childrenMoved (old new : string) (cs : list (string * Z)) (m m' : InodeToPath) : Prop := {
  cm_next : nextIno m' = nextIno m;
  cm_to : forall p i, (p, i) ∈ cs -> byPath m' !! relocate old new p = Some i
    /\ byInode m' !! i = with_path (relocate old new p) <$> byInode m !! i;
  cm_from : forall p i, (p, i) ∈ cs -> byPath m' !! p = None;
  cm_paths : forall q, (forall p i, (p, i) ∈ cs -> q <> p /\ q <> relocate old new p) ->
    byPath m' !! q = byPath m !! q;
  cm_inodes : forall i, (forall p, (p, i) ∉ cs) -> byInode m' !! i = byInode m !! i
}.

(** One child: where it goes and what stays movable. *)
Lemma renameChild_step old new m p i cs :
  ~ inTree old new -> ~ inTree new old -> movable old m ((p, i) :: cs) ->
  exists e, byInode m !! i = Some e
    /\ let m1 := set_byInode (<[i := with_path (relocate old new p) e]> (byInode m))
                   (set_byPath (<[relocate old new p := i]> (delete p (byPath m))) m) in
       renameChild old new (Some m) (p, i) = Some m1 /\ movable old m1 cs
       /\ (forall q j, (q, j) ∈ cs -> q <> p /\ j <> i).
Proof.
  intros D1 D2 [Hnd Hcs]. apply NoDup_cons in Hnd as [Hni Hnd].
  destruct (Hcs p i ltac:(set_solver)) as (Hu & Hp & e & He & Hep).
  assert (forall q j, (q, j) ∈ cs -> q <> p /\ j <> i) as Hdiff.
  { intros q j Hq. destruct (Hcs q j ltac:(set_solver)) as (_ & Hqj & e' & He' & Hq').
    assert (q <> p) by (intros ->; assert (j = i) as -> by congruence; done).
    split; [done|]. intros ->. congruence. }
  exists e. split; [done|]. simpl. pose proof Hu as Hu'. apply under_spec in Hu' as [r Hr].
  split_and!; [|split; [done|]|done].
  - rewrite Hr, renameChild_path, <- Hr. by rewrite He.
  - intros q j Hq. destruct (Hcs q j ltac:(set_solver)) as (Huq & Hqj & e' & He' & Hq').
    destruct (Hdiff q j Hq). split_and!; [done| |].
    + simpl. assert (relocate old new p <> q) as Hne.
      { intros E. apply (inTree_disjoint old new q D1 D2); [by right|].
        rewrite <- E. apply relocate_inTree. by right. }
      by rewrite lookup_insert_ne, lookup_delete_ne by done.
    + simpl. exists e'. by rewrite lookup_insert_ne.
Qed.

Lemma renameChildren old new cs : forall m,
  ~ inTree old new -> ~ inTree new old -> movable old m cs ->
  exists m', foldl (renameChild old new) (Some m) cs = Some m'
    /\ childrenMoved old new cs m m'.
Proof.
  induction cs as [|[p i] cs IH]; intros m D1 D2 Hmv.
  { exists m. split; [done|]. split; set_solver. }
  destruct (renameChild_step old new m p i cs D1 D2 Hmv) as (e & He & E & Hmv1 & Hdiff).
  destruct (IH _ D1 D2 Hmv1) as (m' & E' & [Nx To Fr Pa In]).
  assert (under old p = true) as Hu by (apply (proj2 Hmv p i); set_solver).
  assert (forall q j, (q, j) ∈ cs -> under old q = true) as Hus.
  { intros q j Hq. apply (proj2 Hmv q j). set_solver. }
  assert (forall q j, (q, j) ∈ cs -> relocate old new p <> q) as Hfresh.
  { intros q j Hq Eq. apply (inTree_disjoint old new q D1 D2); [right; eauto|].
    rewrite <- Eq. apply relocate_inTree. by right. }
  assert (forall q, under old q = true -> relocate old new q <> p) as Hfresh'.
  { intros q Hq Eq. apply (inTree_disjoint old new p D1 D2); [by right|].
    rewrite <- Eq. apply relocate_inTree. by right. }
  exists m'. cbn [foldl]. rewrite E. split; [done|]. split; [done|..].
  - intros q j Hq. apply elem_of_cons in Hq as [[= -> ->]|Hq].
    + rewrite Pa, In; simpl.
      * by rewrite !lookup_insert_eq, He.
      * intros q Hq. by destruct (Hdiff q i Hq).
      * intros q j Hq. split; [by eapply Hfresh|]. intros Eq.
        destruct (Hdiff q j Hq) as [Hne _]. apply Hne. symmetry.
        apply (relocate_inj old new); [by right|right; by eapply Hus|done].
    + destruct (To q j Hq) as [-> ->]. split; [done|]. simpl.
      destruct (Hdiff q j Hq). by rewrite lookup_insert_ne.
  - intros q j Hq. apply elem_of_cons in Hq as [[= -> ->]|Hq]; [|by eapply Fr].
    rewrite Pa; simpl.
    + rewrite lookup_insert_ne by (by apply Hfresh'). apply lookup_delete_eq.
    + intros q j Hq. split; [by destruct (Hdiff q j Hq)|]. intros Eq. symmetry in Eq.
      by apply (Hfresh' q (Hus q j Hq)).
  - intros q Hq. destruct (Hq p i ltac:(set_solver)). rewrite Pa; simpl.
    + by rewrite lookup_insert_ne, lookup_delete_ne by done.
    + intros p' i' H'. apply (Hq p' i'). set_solver.
  - intros j Hj. rewrite In; simpl.
    + rewrite lookup_insert_ne; [done|]. intros <-. apply (Hj p). set_solver.
    + intros q Hq. apply (Hj q). set_solver.
Qed.

(** The table after the first half of [Rename]: the entry itself has moved. *)
Definition movedEntry (m : InodeToPath) (old new : string) (ino : Z) (e : InodeEntry)
    : InodeToPath :=
  {| byInode := <[ino := with_path new e]>
       (match byPath m !! new with
        | Some r => if negb (r =? ino) then delete r (byInode m) else byInode m
        | None => byInode m
        end);
     byPath := <[new := ino]> (delete old (byPath m));
     nextIno := nextIno m |}.

Lemma Rename_shape order m old new ino e :
  old <> new -> byPath m !! old = Some ino -> byInode m !! ino = Some e ->
  Rename order m old new =
    let m1 := movedEntry m old new ino e in
    if IsDir e then
      foldl (renameChild old new) (Some m1)
        (filter (fun c => HasPrefix (fst c) (old +:+ "/") = true) (order (byPath m1)))
    else Some m1.
Proof.
  intros Hne Hp He. unfold Rename, movedEntry. rewrite Hp, He. simpl.
  rewrite lookup_delete_ne by done. destruct (byPath m !! new) as [r|]; [|done].
  by destruct (negb (r =? ino)).
Qed.

(** Neither path contains the other or the root: what the kernel guarantees of a rename. *)
Record apart (old new : string) : Prop := {
  ap_out : ~ inTree old new;
  ap_in : ~ inTree new old;
  ap_root_old : ~ inTree old "/";
  ap_root_new : ~ inTree new "/"
}.

(** The paths that a rename moves: the path itself and, of a directory, what is below. *)
Definition travels (old : string) (dir : bool) (p : string) : bool := bool_decide (p = old) || (dir && under old p).

Lemma travels_inTree old dir p : travels old dir p = true -> inTree old p.
Proof. unfold travels. intros [?|?]%orb_true_iff; bool_prop; [by left|by right]. Qed.

Lemma travels_spec old dir p : travels old dir p = true <-> p = old \/ (dir = true /\ under old p = true).
Proof. unfold travels. rewrite orb_true_iff, andb_true_iff, bool_decide_eq_true. done. Qed.

(** The children of a renamed directory, after the directory itself moved. *)
Lemma movedEntry_children order m old new ino e :
  iterates order -> ok m -> apart old new -> byPath m !! old = Some ino ->
  byInode m !! ino = Some e ->
  let m1 := movedEntry m old new ino e in
  let cs := filter (fun c => HasPrefix (fst c) (old +:+ "/") = true) (order (byPath m1)) in
  (forall p i, (p, i) ∈ cs <-> under old p = true /\ byPath m !! p = Some i)
  /\ movable old m1 cs
  /\ (forall p i, (p, i) ∈ cs -> byInode m1 !! i = byInode m !! i).
Proof.
  intros Ho Hok [D1 D2 R1 R2] Hp He m1 cs.
  destruct (ok_path _ Hok _ _ Hp) as (e0 & He0 & Heo). rewrite He in He0. simplify_eq.
  assert (forall p i, (p, i) ∈ cs <-> under (Path e0) p = true /\ byPath m !! p = Some i) as Hcs.
  { intros p i. unfold cs. rewrite list_elem_of_filter, (iterates_elem order) by done. simpl.
    fold (under (Path e0) p). split; intros [Hu Hl]; (split; [done|]).
    - rewrite lookup_insert_ne, lookup_delete_ne in Hl; [done|..].
      + intros <-. by rewrite under_self_false in Hu.
      + intros <-. by apply D1; right.
    - rewrite lookup_insert_ne, lookup_delete_ne; [done|..].
      + intros <-. by rewrite under_self_false in Hu.
      + intros <-. by apply D1; right. }
  assert (forall p i, (p, i) ∈ cs -> byInode m1 !! i = byInode m !! i) as Hin.
  { intros p i Hpi. apply Hcs in Hpi as [Hu Hpi].
    destruct (ok_path _ Hok _ _ Hpi) as (ei & Hei & Hpe). simpl.
    rewrite lookup_insert_ne by (intros ->; simplify_eq; by rewrite under_self_false in Hu).
    destruct (byPath m !! new) as [r|] eqn:Er; [|done]. case_if; [|done].
    rewrite lookup_delete_ne; [done|]. intros ->.
    destruct (ok_path _ Hok _ _ Er) as (er & Her & Hpr). simplify_eq. apply D1. by right. }
  split_and!; [done| |done]. split.
  { apply NoDup_filter. by apply iterates_NoDup. }
  intros p i Hpi. rewrite (Hin p i Hpi). pose proof Hpi as Hpi'. apply list_elem_of_filter in Hpi' as [_ Hl].
  apply iterates_elem in Hl; [|done]. apply Hcs in Hpi as [Hu Hpi]. split_and!; [done|done|].
  by apply (ok_path _ Hok).
Qed.

(** [Rename] of a tracked path: the entry, then exactly the tracked descendants of a
    directory. *)
Lemma Rename_moved order m old new ino e :
  iterates order -> ok m -> apart old new -> byPath m !! old = Some ino ->
  byInode m !! ino = Some e ->
  exists cs m', Rename order m old new = Some m'
    /\ (forall p i, (p, i) ∈ cs <-> IsDir e = true /\ under old p = true /\ byPath m !! p = Some i)
    /\ (forall p i, (p, i) ∈ cs -> byInode (movedEntry m old new ino e) !! i = byInode m !! i)
    /\ childrenMoved old new cs (movedEntry m old new ino e) m'.
Proof.
  intros Ho Hok Hr Hp He.
  assert (old <> new) as Hne by (intros ->; destruct (ap_out _ _ Hr); by left).
  rewrite (Rename_shape order m old new ino e) by done. simpl.
  destruct (movedEntry_children order m old new ino e Ho Hok Hr Hp He) as (Hcs & Hmv & Hin).
  destruct (IsDir e) eqn:Ed.
  - eexists _. destruct (renameChildren old new _ _ (ap_out _ _ Hr) (ap_in _ _ Hr) Hmv)
      as (m' & E & Hm). exists m'. split_and!; [exact E| |done..]. intros p i. rewrite Hcs. tauto.
  - exists [], (movedEntry m old new ino e). split_and!; [done| |set_solver|].
    + intros p i. split; [set_solver|]. by intros [? _].
    + split; set_solver.
Qed.

(** What a rename does: to every path, and to every entry. *)
Record renamed (old new : string) (dir : bool) (m m' : InodeToPath) : Prop := {
  rd_to : forall p, travels old dir p = true -> is_Some (byPath m !! p) ->
    byPath m' !! relocate old new p = byPath m !! p;
  rd_from : forall p, travels old dir p = true -> byPath m' !! p = None;
  rd_else : forall q, travels old dir q = false ->
    (forall p, travels old dir p = true -> is_Some (byPath m !! p) -> q <> relocate old new p) ->
    byPath m' !! q = byPath m !! q;
  rd_moved : forall p i, travels old dir p = true -> byPath m !! p = Some i ->
    byInode m' !! i = with_path (relocate old new p) <$> byInode m !! i;
  rd_replaced : forall i, byPath m !! new = Some i -> byInode m' !! i = None;
  rd_stay : forall i, (forall p, travels old dir p = true -> byPath m !! p <> Some i) -> byPath m !! new <> Some i ->
    byInode m' !! i = byInode m !! i;
  rd_next : nextIno m' = nextIno m
}.

Section renamed.
Context (m m' : InodeToPath) (old new : string) (ino : Z) (e : InodeEntry).
Hypothesis Hap : apart old new.
Hypothesis Hok : ok m.
Hypothesis Hold : byPath m !! old = Some ino.
Hypothesis He : byInode m !! ino = Some e.

Lemma trees_apart p q : inTree old p -> inTree new q -> p <> q.
Proof using Hap.
  intros Hp Hq ->. apply (inTree_disjoint old new q); [apply Hap|apply Hap|done|done].
Qed.

Lemma Rename_effect cs :
  (forall p i, (p, i) ∈ cs <-> IsDir e = true /\ under old p = true /\ byPath m !! p = Some i) ->
  (forall p i, (p, i) ∈ cs -> byInode (movedEntry m old new ino e) !! i = byInode m !! i) ->
  childrenMoved old new cs (movedEntry m old new ino e) m' -> renamed old new (IsDir e) m m'.
Proof using Hap Hok Hold He.
  intros Hcs Hkeep [Nx To Fr Pa In]. cbn in Nx.
  assert (forall p i, (p, i) ∈ cs -> inTree old p /\ p <> old) as Hchild.
  { intros p i (_ & Hu & _)%Hcs. split; [by right|]. intros ->. by rewrite under_self_false in Hu. }
  assert (forall p, (p, ino) ∉ cs) as Hself.
  { intros p Hin. destruct (Hchild _ _ Hin) as [_ Hne]. apply Hcs in Hin as (_ & _ & Hp). by apply Hne, (ok_inj m p old ino). }
  split; [| | | | | |done].
  - intros p Ht [i Hi]. apply travels_spec in Ht as [->|[Hd Hu]].
    + rewrite relocate_self, Pa; [cbn; by rewrite lookup_insert_eq|]. intros p j Hin. destruct (Hchild _ _ Hin) as [Hin' Hne].
      split; [intros <-; by apply (ap_out _ _ Hap)|]. intros E. apply Hne.
      apply (relocate_inj old new); [done|by left|by rewrite relocate_self].
    + rewrite Hi. by apply To, Hcs.
  - intros p Ht. destruct (decide (p <> old /\ is_Some (byPath m !! p))) as [[Hne [i E]]|Hno].
    { apply (Fr p i), Hcs. apply travels_spec in Ht as [->|[? ?]]; done. }
    rewrite Pa; cbn.
    + rewrite lookup_insert_ne by (intros <-; by apply (ap_out _ _ Hap), (travels_inTree _ _ _ Ht)).
      apply lookup_delete_None. destruct (decide (old = p)); [by left|right].
      apply eq_None_not_Some. intros Hs. by apply Hno.
    + intros q i Hq. destruct (Hchild _ _ Hq) as [Hin Hne]. split.
      * intros ->. apply Hno. split; [done|]. apply Hcs in Hq as (_ & _ & Hq). by exists i.
      * apply trees_apart; [by eapply travels_inTree|]. by apply relocate_inTree.
  - intros q Ht Hnot. rewrite Pa; cbn.
    + rewrite lookup_insert_ne, lookup_delete_ne; [done|..].
      * intros <-. by rewrite (proj2 (travels_spec old (IsDir e) old) ltac:(by left)) in Ht.
      * intros <-. apply (Hnot old); [apply travels_spec; by left|by eexists|by rewrite relocate_self].
    + intros p i Hin. apply Hcs in Hin as (Hd & Hu & Hp). split.
      * intros ->. rewrite (proj2 (travels_spec old (IsDir e) p)) in Ht; [done|by right].
      * apply Hnot; [apply travels_spec; by right|by eexists].
  - intros p i Ht Hp. apply travels_spec in Ht as [->|[Hd Hu]].
    + assert (i = ino) as -> by congruence. rewrite relocate_self, In by done. cbn. by rewrite lookup_insert_eq, He.
    + assert ((p, i) ∈ cs) as Hin by (by apply Hcs). destruct (To _ _ Hin) as [_ ->]. by rewrite (Hkeep _ _ Hin).
  - intros i Hi. assert (i <> ino) as Hne.
    { intros ->. apply (ap_out _ _ Hap). left. by apply (ok_inj m new old ino). }
    rewrite In; cbn.
    + rewrite lookup_insert_ne by done. rewrite Hi, (proj2 (Z.eqb_neq i ino)) by done. cbn. apply lookup_delete_eq.
    + intros p Hin. pose proof (proj1 (Hchild _ _ Hin)) as Ht. apply Hcs in Hin as (_ & _ & Hp).
      apply (ap_out _ _ Hap). by rewrite (ok_inj m new p i Hok Hi Hp).
  - intros i Hmv Hnew. rewrite In; cbn.
    + rewrite lookup_insert_ne by (intros <-; apply (Hmv old); [apply travels_spec; by left|done]).
      destruct (byPath m !! new) as [r|]; [|done]. case_if; [|done]. rewrite lookup_delete_ne; [done|congruence].
    + intros p Hin. apply Hcs in Hin as (Hd & Hu & Hp). apply (Hmv p); [apply travels_spec; by right|done].
Qed.

Hypothesis Hm : renamed old new (IsDir e) m m'.

(** A path of the new table: a moved one, or one that stayed. *)
Lemma renamed_entry_path q i : byPath m' !! q = Some i ->
  (exists p, travels old (IsDir e) p = true /\ byPath m !! p = Some i /\ q = relocate old new p)
  \/ (byPath m !! q = Some i /\ travels old (IsDir e) q = false /\ byPath m !! new <> Some i).
Proof using Hap Hok Hold Hm.
  intros Hq. destruct (travels old (IsDir e) q) eqn:Ht; [by rewrite (rd_from _ _ _ _ _ Hm) in Hq|].
  set (p := relocate new old q).
  destruct (decide (inTree new q /\ travels old (IsDir e) p = true /\ is_Some (byPath m !! p))) as [(Hn & Hp & Hs)|Hno].
  - left. exists p. split; [done|]. pose proof (relocate_back new old q Hn) as Hb. fold p in Hb. split; [|done].
    rewrite <- Hb, (rd_to _ _ _ _ _ Hm) in Hq by done. done.
  - right. assert (forall p', travels old (IsDir e) p' = true -> is_Some (byPath m !! p') -> q <> relocate old new p') as Hne.
    { intros p' Hp' Hs' ->. apply Hno. pose proof (travels_inTree _ _ _ Hp') as Hin. unfold p. rewrite relocate_back by done.
      split; [by apply relocate_inTree|done]. }
    rewrite (rd_else _ _ _ _ _ Hm) in Hq by done. split_and!; try done. intros Hn. pose proof (ok_inj m q new i Hok Hq Hn) as ->.
    apply (Hne old); [apply travels_spec; by left|by eexists|by rewrite relocate_self].
Qed.

(** An entry of the new table: a moved one, or one that stayed. *)
Lemma renamed_entry i e' : byInode m' !! i = Some e' ->
  (exists p e0, travels old (IsDir e) p = true /\ byPath m !! p = Some i /\ byInode m !! i = Some e0
     /\ e' = with_path (relocate old new p) e0)
  \/ (byInode m !! i = Some e' /\ (forall p, travels old (IsDir e) p = true -> byPath m !! p <> Some i)
      /\ byPath m !! new <> Some i).
Proof using Hm Hok.
  intros Hi. assert (byPath m !! new <> Some i) as Hnew.
  { intros Hn. by rewrite (rd_replaced _ _ _ _ _ Hm i Hn) in Hi. }
  assert ((exists p, travels old (IsDir e) p = true /\ byPath m !! p = Some i)
    \/ forall p, travels old (IsDir e) p = true -> byPath m !! p <> Some i) as [(p & Ht & Hp)|Hno].
  { destruct (byInode m !! i) as [e0|] eqn:E0.
    - destruct (decide (travels old (IsDir e) (Path e0) = true /\ byPath m !! Path e0 = Some i)) as [?|Hn]; [left; by exists (Path e0)|].
      right. intros p Ht Hp. destruct (ok_path _ Hok _ _ Hp) as (e1 & H1 & <-). apply Hn. by simplify_eq.
    - right. intros p _ Hp. destruct (ok_path _ Hok _ _ Hp) as (e1 & H1 & _). congruence. }
  - left. rewrite (rd_moved _ _ _ _ _ Hm p i Ht Hp) in Hi. apply fmap_Some in Hi as (e0 & H0 & ->). by exists p, e0.
  - right. by rewrite (rd_stay _ _ _ _ _ Hm) in Hi by done.
Qed.

Lemma renamed_ok : ok m'.
Proof using Hap Hok Hold Hm.
  pose proof (rd_next _ _ _ _ _ Hm) as Hn. split; [| | |by rewrite Hn; apply Hok].
  - intros q i Hq. destruct (renamed_entry_path q i Hq) as [(p & Ht & Hp & ->)|(Hq' & Ht & Hnew)].
    + destruct (ok_path _ Hok _ _ Hp) as (e0 & H0 & _). rewrite (rd_moved _ _ _ _ _ Hm p i Ht Hp), H0. by eexists.
    + destruct (ok_path _ Hok _ _ Hq') as (e0 & H0 & Hpe). exists e0. split; [|done]. rewrite (rd_stay _ _ _ _ _ Hm); [done| |done].
      intros p Hp Hpi. rewrite (ok_inj m p q i Hok Hpi Hq') in Hp. congruence.
  - intros i e' Hi. rewrite Hn. destruct (renamed_entry i e' Hi) as [(p & e0 & Ht & Hp & H0 & ->)|(H0 & _)].
    + destruct (ok_ino _ Hok _ _ H0) as (? & ? & _). cbn. split_and!; [done|lia|lia|]. intros E.
      destruct (ap_root_new _ _ Hap). rewrite <- E. apply relocate_inTree. by eapply travels_inTree.
    + by apply (ok_ino _ Hok).
  - destruct (ok_root _ Hok) as [Hr (r & Hr1 & Hrd)].
    assert (forall p, travels old (IsDir e) p = true -> byPath m !! p <> Some 1) as Hmv.
    { intros p Ht Hp. apply (ap_root_old _ _ Hap). rewrite <- (ok_inj m p "/" 1 Hok Hp Hr). by eapply travels_inTree. }
    assert (byPath m !! new <> Some 1) as Hnew.
    { intros Hp. apply (ap_root_new _ _ Hap). left. by rewrite (ok_inj m new "/" 1 Hok Hp Hr). }
    split; [|exists r; by rewrite (rd_stay _ _ _ _ _ Hm)]. rewrite (rd_else _ _ _ _ _ Hm); [done|..].
    + apply not_true_is_false. intros Ht. by apply (Hmv _ Ht).
    + intros p Ht _ E. apply (ap_root_new _ _ Hap). rewrite E. apply relocate_inTree. by eapply travels_inTree.
Qed.

(** The table stays a bijection if no child moves onto a tracked path. *)
Lemma renamed_bijective :
  bijective m ->
  (forall p, under old p = true -> is_Some (byPath m !! p) -> byPath m !! relocate old new p = None) -> bijective m'.
Proof using Hap Hok Hold Hm.
  intros Hb Hfree i e' Hi. destruct (renamed_entry i e' Hi) as [(p & e0 & Ht & Hp & H0 & ->)|(H0 & Hmv & Hnew)].
  - cbn. by rewrite (rd_to _ _ _ _ _ Hm p Ht ltac:(by eexists)).
  - pose proof (Hb _ _ H0) as Hp. rewrite (rd_else _ _ _ _ _ Hm); [done|..].
    + apply not_true_is_false. intros Ht. by apply (Hmv _ Ht).
    + intros p Ht Hs E. apply travels_spec in Ht as [->|[_ Hu]].
      * rewrite relocate_self in E. by rewrite E in Hp.
      * rewrite E, (Hfree p Hu Hs) in Hp. done.
Qed.

End renamed.

Lemma Rename_total order m old new :
  iterates order -> ok m -> apart old new ->
  exists m', Rename order m old new = Some m' /\ ok m' /\ nextIno m' = nextIno m
    /\ (forall ino e, byPath m !! old = Some ino -> byInode m !! ino = Some e -> renamed old new (IsDir e) m m')
    /\ (bijective m ->
        (forall p, under old p = true -> is_Some (byPath m !! p) -> byPath m !! relocate old new p = None) -> bijective m').
Proof.
  intros Ho Hok Hr. destruct (byPath m !! old) as [ino|] eqn:Hp.
  2: { exists m. unfold Rename. rewrite Hp. by split_and!. }
  destruct (ok_path _ Hok _ _ Hp) as (e & He & _).
  destruct (Rename_moved order m old new ino e Ho Hok Hr Hp He) as (cs & m' & E & Hcs & Hk & Hm).
  pose proof (Rename_effect m m' old new ino e Hr Hok Hp He cs Hcs Hk Hm) as Hren.
  exists m'. split_and!; [done|by eapply renamed_ok|by apply (rd_next _ _ _ _ _ Hren)| |].
  - intros ino' e' [= <-] He'. by simplify_eq.
  - intros Hb Hfree. by eapply renamed_bijective.
Qed.

(** ** Every operation *)

(** One call.  A rename is one that the kernel lets through: neither path contains the
    other or the root.  In a [strict] history, no path below the renamed one moves onto a
    tracked path. *)
Inductive inode_step (strict : bool) (m : InodeToPath) : InodeToPath -> Prop :=
  | step_lookup path isDir size mtime m' ino : nextIno m + 1 < 2 ^ 64 ->
      Lookup m path isDir size mtime = Some (m', ino) -> inode_step strict m m'
  | step_ensure path isDir size mtime m' ino : nextIno m + 1 < 2 ^ 64 ->
      EnsureInode m path isDir size mtime = Some (m', ino) -> inode_step strict m m'
  | step_increment ino : inode_step strict m (fst (IncrementLookup m ino))
  | step_forget ino n : inode_step strict m (Forget m ino n)
  | step_keep ino n : inode_step strict m (ForgetKeepMapping m ino n)
  | step_unref ino : inode_step strict m (fst (RemoveFileIfUnreferenced m ino))
  | step_size ino v : inode_step strict m (UpdateSize m ino v)
  | step_mtime ino v : inode_step strict m (UpdateMtime m ino v)
  | step_revision ino v : inode_step strict m (UpdateRevision m ino v)
  | step_mode ino v : inode_step strict m (UpdateMode m ino v)
  | step_rename order old new m' : iterates order -> apart old new ->
      (strict = true -> forall p, under old p = true -> is_Some (byPath m !! p) -> byPath m !! relocate old new p = None) ->
      Rename order m old new = Some m' -> inode_step strict m m'
  | step_remove path : path <> "/" -> inode_step strict m (Remove m path).

(** A lookup of either kind succeeds, keeps the invariants and issues a fresh number
    for a new path. *)
Lemma lookup_ok m path isDir size mtime f n :
  ok m -> nextIno m + 1 < 2 ^ 64 ->
  (forall e, Path (f e) = Path e /\ Ino (f e) = Ino e /\ IsDir (f e) = IsDir e) ->
  exists m' ino,
    match byPath m !! path with
    | Some ino => match byInode m !! ino with
                  | None => None
                  | Some e => Some (set_byInode (<[ino := f e]> (byInode m)) m, ino)
                  end
    | None => Some (allocate m path isDir n size mtime)
    end = Some (m', ino)
    /\ ok m' /\ byPath m' !! path = Some ino /\ nextIno m <= nextIno m'
    /\ (byPath m !! path = None -> ino = nextIno m) /\ (bijective m -> bijective m').
Proof.
  intros Hok Hn Hf. destruct (byPath m !! path) as [ino|] eqn:Hp.
  - destruct (ok_path _ Hok _ _ Hp) as (e & He & _). rewrite He.
    destruct (Hf e) as (? & ? & ?).
    eexists _, ino. split_and!; [done|by eapply ok_update|done|done|done|]. intros Hb. by eapply bijective_update.
  - destruct (ok_allocate m path isDir n size mtime Hok Hp Hn) as [Hok' Hfresh].
    destruct (ok_root _ Hok) as (_ & r & Hr & _). destruct (ok_ino _ Hok _ _ Hr) as (_ & ? & _).
    eexists _, (nextIno m). split_and!; [done|exact Hok'| | |done|]; simpl.
    + apply lookup_insert_eq.
    + rewrite wrapu64_small; lia.
    + intros Hb. by apply (bijective_allocate m path isDir n size mtime).
Qed.

Lemma Lookup_ok m path isDir size mtime :
  ok m -> nextIno m + 1 < 2 ^ 64 ->
  exists m' ino, Lookup m path isDir size mtime = Some (m', ino)
    /\ ok m' /\ byPath m' !! path = Some ino /\ nextIno m <= nextIno m'
    /\ (byPath m !! path = None -> ino = nextIno m) /\ (bijective m -> bijective m').
Proof.
  intros Hok Hn. by apply (lookup_ok m path isDir size mtime
    (fun e => with_mtime mtime (with_size size (with_nlookup (wrap64 (Nlookup e + 1)) e))) 1).
Qed.

Lemma EnsureInode_ok m path isDir size mtime :
  ok m -> nextIno m + 1 < 2 ^ 64 ->
  exists m' ino, EnsureInode m path isDir size mtime = Some (m', ino)
    /\ ok m' /\ byPath m' !! path = Some ino /\ nextIno m <= nextIno m'
    /\ (byPath m !! path = None -> ino = nextIno m) /\ (bijective m -> bijective m').
Proof.
  intros Hok Hn. by apply (lookup_ok m path isDir size mtime
    (fun e => with_mtime mtime (with_size size e)) 0).
Qed.

(** What a call keeps. *)
Definition kept (strict : bool) (m m' : InodeToPath) : Prop :=
  ok m' /\ nextIno m <= nextIno m' /\ (strict = true -> bijective m -> bijective m').

Lemma update_kept strict m ino e e' :
  ok m -> byInode m !! ino = Some e -> Path e' = Path e -> Ino e' = Ino e -> IsDir e' = IsDir e ->
  kept strict m (set_byInode (<[ino := e']> (byInode m)) m).
Proof. intros. split_and!; [by eapply ok_update|done|]. intros _ Hb. by eapply bijective_update. Qed.

Lemma alter_kept strict m ino f :
  ok m -> (forall e, Path (f e) = Path e /\ Ino (f e) = Ino e /\ IsDir (f e) = IsDir e) ->
  kept strict m (set_byInode (alter f ino (byInode m)) m).
Proof. intros Hok Hf. split_and!; [by apply ok_alter|done|]. intros _ Hb. apply bijective_alter; [done|]. intros. apply Hf. Qed.

Lemma drop_kept strict m ino e : ok m -> byInode m !! ino = Some e -> ino <> 1 -> kept strict m (dropEntry m ino e).
Proof. intros. split_and!; [by apply ok_drop|done|]. intros _ Hb. by apply bijective_drop. Qed.

Lemma step_ok strict m m' : ok m -> inode_step strict m m' -> kept strict m m'.
Proof.
  intros Hok Hst. assert (kept strict m m) as Hsame by done.
  destruct Hst as [p d s t m' i Hn E|p d s t m' i Hn E|i|i n|i n|i|i v|i v|i v|i v
    |order old new m' Ho Ha Hf E|p Hp].
  - destruct (Lookup_ok m p d s t Hok Hn) as (m1 & i1 & E1 & ? & _ & ? & _ & ?). by simplify_eq.
  - destruct (EnsureInode_ok m p d s t Hok Hn) as (m1 & i1 & E1 & ? & _ & ? & _ & ?). by simplify_eq.
  - unfold IncrementLookup. destruct (byInode m !! i) eqn:E; [|done]. by eapply update_kept.
  - unfold Forget. destruct (byInode m !! i) eqn:E; [|done].
    destruct (_ && _) eqn:Ec; [|by eapply update_kept]. bool_prop.
    destruct (IsDir _); [by eapply update_kept|by apply drop_kept].
  - unfold ForgetKeepMapping. destruct (byInode m !! i) eqn:E; [|done]. by eapply update_kept.
  - unfold RemoveFileIfUnreferenced. destruct (byInode m !! i) eqn:E; [|done].
    destruct (_ || _) eqn:Ec; [done|]. bool_prop. by apply drop_kept.
  - by apply alter_kept.
  - by apply alter_kept.
  - by apply alter_kept.
  - by apply alter_kept.
  - destruct (Rename_total order m old new Ho Hok Ha) as (m1 & E1 & ? & ? & _ & Hb).
    simplify_eq. split_and!; [done|lia|]. intros ->. auto.
  - unfold Remove. destruct (byPath m !! p) as [i|] eqn:E; [|done].
    destruct (ok_path _ Hok _ _ E) as (e & He & <-). apply (drop_kept strict m i e); [done..|].
    intros ->. destruct (ok_root _ Hok) as [Hr _]. by apply Hp, (ok_inj m _ _ 1 Hok E Hr).
Qed.

Lemma steps_ok strict m m' : ok m -> rtc (inode_step strict) m m' -> kept strict m m'.
Proof.
  intros Hok Hr. induction Hr as [|m m1 m2 H1 _ IH]; [done|].
  destruct (step_ok strict m m1 Hok H1) as (Hok1 & ? & B1). destruct (IH Hok1) as (? & ? & B2).
  split_and!; [done|lia|auto].
Qed.

(** ** A concrete table *)

(** The root, the directory [/a] with the file [/a/x], and the file [/c]. *)
Definition demoTable : InodeToPath :=
  {| byInode := <[2 := {| Ino := 2; Path := "/a"; IsDir := true; Nlookup := 1; ESize := 0;
                          Mtime := 0; Mode := 0; HasMode := false; Revision := 0 |}]>
      (<[3 := {| Ino := 3; Path := "/a/x"; IsDir := false; Nlookup := 2; ESize := 5;
                 Mtime := 0; Mode := 0; HasMode := false; Revision := 0 |}]>
      (<[4 := {| Ino := 4; Path := "/c"; IsDir := false; Nlookup := 1; ESize := 7;
                 Mtime := 0; Mode := 0; HasMode := false; Revision := 0 |}]>
      {[ 1 := rootEntry ]}));
     byPath := <["/a" := 2]> (<["/a/x" := 3]> (<["/c" := 4]> {[ "/" := 1 ]}));
     nextIno := 5 |}.

Lemma ok_check m :
  map_Forall (fun p i => Path <$> byInode m !! i = Some p) (byPath m) ->
  map_Forall (fun i e => Ino e = i /\ 0 < i < nextIno m /\ (Path e <> "/" \/ i = 1)) (byInode m) ->
  byPath m !! "/" = Some 1 -> IsDir <$> byInode m !! 1 = Some true ->
  nextIno m < 2 ^ 64 -> ok m.
Proof.
  intros H1 H2 H3 H4 H5. split; [| | |done].
  - intros p i Hp. apply H1 in Hp. destruct (byInode m !! i) as [e|]; [|done].
    exists e. simplify_eq/=. done.
  - intros i e He. destruct (H2 _ _ He) as (? & ? & [?|?]); done.
  - split; [done|]. destruct (byInode m !! 1) as [e|]; [|done]. exists e. simplify_eq/=. done.
Qed.

Lemma demoTable_ok : ok demoTable.
Proof. apply ok_check; try apply (bool_decide_unpack _); vm_compute; done. Qed.

Lemma demoTable_apart : apart "/a" "/b".
Proof. split; apply (bool_decide_unpack _); vm_compute; done. Qed.

(** ** Properties *)

(** C24: in every state that the FUSE handlers can bring the table to, with renames of
    which neither path contains the other or the root, as the kernel guarantees, and
    fewer than 2^64 inodes: a path leads to an entry with that path, so no two paths
    share an inode, and no call dereferences a missing entry; the root stays inode 1, and
    every entry has its own number, below the next one to be issued.  If moreover no
    rename moved a child onto a tracked path, then an entry is also what its path leads
    to, and [GetPath] and [GetInode] are inverse to each other. *)
Theorem inode_path_bijection m strict :
  rtc (inode_step strict) NewInodeToPath m ->
  (forall p i, GetInode m p = Some i -> GetPath m i = Some p)
  /\ GetInode m "/" = Some 1 /\ GetPath m 1 = Some "/"
  /\ (forall i e, GetEntry m i = Some e -> Ino e = i /\ 0 < i < nextIno m)
  /\ (forall path isDir size mtime, nextIno m + 1 < 2 ^ 64 ->
        is_Some (Lookup m path isDir size mtime) /\ is_Some (EnsureInode m path isDir size mtime))
  /\ (forall order old new, iterates order -> apart old new -> is_Some (Rename order m old new))
  /\ (strict = true -> forall p i, GetInode m p = Some i <-> GetPath m i = Some p).
Proof.
  intros Hr. destruct (steps_ok _ _ _ new_ok Hr) as (Hok & _ & Hb). unfold GetInode, GetPath, GetEntry.
  assert (forall p i, byPath m !! p = Some i -> Path <$> byInode m !! i = Some p) as Hp.
  { intros p i Hpi. by destruct (ok_path _ Hok _ _ Hpi) as (e & -> & <-). }
  split_and!; [done|apply Hok|apply Hp, Hok|..].
  - intros i e He. by destruct (ok_ino _ Hok _ _ He) as (? & ? & _).
  - intros path isDir size mtime Hn. destruct (Lookup_ok m path isDir size mtime Hok Hn) as (? & ? & -> & _).
    by destruct (EnsureInode_ok m path isDir size mtime Hok Hn) as (? & ? & -> & _).
  - intros order old new Ho Ha. by destruct (Rename_total order m old new Ho Hok Ha) as (? & -> & _).
  - intros Hs p i. split; [apply Hp|]. intros Hi. destruct (byInode m !! i) as [e|] eqn:He; simplify_eq/=.
    by apply (Hb eq_refl new_bijective).
Qed.

Lemma inode_path_bijection_witness :
  exists m, Lookup NewInodeToPath "/a" true 0 9 = Some (m, 2)
    /\ (GetInode m "/a" = Some 2 <-> GetPath m 2 = Some "/a") /\ GetPath m 2 = Some "/a".
Proof.
  destruct (Lookup NewInodeToPath "/a" true 0 9) as [[m i]|] eqn:E; [|discriminate E].
  exists m. assert (i = 2) as -> by (vm_compute in E; congruence).
  destruct (inode_path_bijection m true) as (_ & _ & _ & _ & _ & _ & B).
  - apply rtc_once. apply (step_lookup _ _ "/a" true 0 9 m 2); [vm_compute; reflexivity|exact E].
  - split; [reflexivity|]. split; [exact (B eq_refl "/a" 2)|]. apply (B eq_refl "/a" 2).
    vm_compute in E. injection E as <-. vm_compute. reflexivity.
Defined.

(** C23: the exact effect of a rename of a tracked path, whatever order Go ranges over the
    map in, when neither path contains the other or the root.  The path and, if it is a
    directory, every path below it move: each tracked one keeps its inode under the new
    name and the entry of that inode gets the new path; the old names are gone; any path
    that did not move and that nothing moved onto leads where it led; the entry of the
    replaced path is dropped; and every other entry is untouched.  If nothing is
    tracked below the new path, the table is still a bijection if it was one. *)
Theorem rename_moves_subtree order m old new ino e :
  iterates order -> ok m -> apart old new -> GetInode m old = Some ino -> GetEntry m ino = Some e ->
  let moves := travels old (IsDir e) in
  exists m', Rename order m old new = Some m' /\ ok m'
    /\ (forall p i, moves p = true -> GetInode m p = Some i ->
          GetInode m' (relocate old new p) = Some i /\ GetPath m' i = Some (relocate old new p))
    /\ (forall p, moves p = true -> GetInode m' p = None)
    /\ (forall q, moves q = false -> (forall p, moves p = true -> GetInode m p <> None -> q <> relocate old new p) ->
          GetInode m' q = GetInode m q)
    /\ (forall i, GetInode m new = Some i -> GetEntry m' i = None)
    /\ (forall i, (forall p, moves p = true -> GetInode m p <> Some i) -> GetInode m new <> Some i ->
          GetEntry m' i = GetEntry m i)
    /\ (bijective m -> (forall q, under new q = true -> GetInode m q = None) -> bijective m').
Proof.
  intros Ho Hok Ha Hp He moves. unfold GetInode, GetEntry, GetPath in *.
  destruct (Rename_total order m old new Ho Hok Ha) as (m' & E & Hok' & _ & Hren & Hb).
  destruct (Hren ino e Hp He) as [To From Else Moved Repl Stay _]. exists m'. split_and!; try done.
  - intros p i Ht Hi. rewrite To, (Moved p i) by (try done; by eexists). split; [done|].
    by destruct (ok_path _ Hok _ _ Hi) as (e0 & -> & _).
  - intros q Ht Hq. apply Else; [done|]. intros p Hp' Hs. apply Hq; [done|]. by apply not_eq_None_Some.
  - intros Hbij Hfree. apply Hb; [done|]. intros p Hu _. apply Hfree. apply under_spec in Hu as [r ->].
    rewrite relocate_under. apply under_spec. by exists r.
Qed.

Lemma rename_moves_subtree_witness :
  exists m', Rename map_to_list demoTable "/a" "/b" = Some m' /\ ok m'
    /\ GetInode m' "/b/x" = Some 3 /\ GetInode m' "/a/x" = None /\ GetInode m' "/c" = Some 4.
Proof.
  destruct (byInode demoTable !! 2) as [e|] eqn:E2; [|discriminate E2].
  destruct (rename_moves_subtree map_to_list demoTable "/a" "/b" 2 e iterates_map_to_list
    demoTable_ok demoTable_apart eq_refl E2) as (m' & E & Hok & M & G & O & _).
  assert (IsDir e = true) as Hd by (vm_compute in E2; injection E2 as <-; reflexivity). rewrite Hd in M, G, O.
  exists m'. split; [exact E|]. split; [exact Hok|].
  split; [exact (proj1 (M "/a/x" 3 eq_refl eq_refl))|]. split; [exact (G "/a/x" eq_refl)|].
  rewrite (O "/c" eq_refl); [reflexivity|]. intros p Hp Hs Hc. apply travels_inTree, (relocate_inTree "/a" "/b") in Hp.
  rewrite <- Hc in Hp. revert Hp. apply (bool_decide_unpack _). vm_compute. exact I.
Defined.

(** A rename onto a directory with a tracked child: the child keeps its inode and its
    entry, whose path now leads to the file that moved there; forgetting that inode
    makes the moved file unreachable. *)
Lemma rename_leaves_orphan :
  match Lookup demoTable "/b/x" false 0 0 with
  | Some (m, ino) =>
      ino = 5 /\ match Rename map_to_list m "/a" "/b" with
      | Some m' =>
          GetPath m' 5 = Some "/b/x" /\ GetInode m' "/b/x" = Some 3
          /\ GetInode (Forget m' 5 1) "/b/x" = None /\ GetPath (Forget m' 5 1) 3 = Some "/b/x"
      | None => False
      end
  | None => False
  end.
Proof. vm_compute. split_and!; reflexivity. Qed.

(** Kernel lookup references are counted exactly.  [Forget] of fewer references
    than a file holds only lowers its count; [Forget] of all of them removes the
    file from both maps and nothing else; a directory keeps its mapping with a
    count of zero. *)
Theorem forget_refcount m ino n e :
  GetEntry m ino = Some e -> GetInode m (Path e) = Some ino -> ino <> 1 -> 0 <= n -> 0 <= Nlookup e <= max_int64 ->
  n <= max_int64 ->
  let m' := Forget m ino n in
  (n < Nlookup e -> GetPath m' ino = Some (Path e) /\ GetInode m' (Path e) = Some ino
     /\ Nlookup <$> GetEntry m' ino = Some (Nlookup e - n))
  /\ (Nlookup e <= n -> IsDir e = false ->
       GetEntry m' ino = None /\ GetInode m' (Path e) = None)
  /\ (Nlookup e <= n -> IsDir e = true ->
       GetPath m' ino = Some (Path e) /\ Nlookup <$> GetEntry m' ino = Some 0)
  /\ (forall j, j <> ino -> GetEntry m' j = GetEntry m j)
  /\ (forall p, p <> Path e -> GetInode m' p = GetInode m p).
Proof.
  intros He Hp H1 Hn0 Hc Hn m'. unfold GetPath, GetInode, GetEntry in *.
  unfold m', Forget. rewrite He. unfold max_int64 in *.
  rewrite (wrap64_small n), wrap64_small by (unfold max_int64; lia).
  rewrite (proj2 (Z.eqb_neq ino 1)), andb_true_r by done.
  case_if; bool_prop; [destruct (IsDir e) eqn:Ed|]; simpl;
    rewrite ?lookup_insert_eq, ?lookup_delete_eq; split_and!; try done; try lia;
    intros j Hj; by rewrite ?lookup_insert_ne, ?lookup_delete_ne.
Qed.

Lemma forget_refcount_witness :
  GetPath (Forget demoTable 3 1) 3 = Some "/a/x" /\ GetEntry (Forget demoTable 3 2) 3 = None
  /\ GetInode (Forget demoTable 3 2) "/c" = Some 4.
Proof.
  destruct (byInode demoTable !! 3) as [e|] eqn:E; [|discriminate E].
  pose proof E as E'. vm_compute in E'. injection E' as <-.
  destruct (forget_refcount demoTable 3 1 _ E eq_refl) as (A & _); try (vm_compute; congruence);
    try (vm_compute; split; congruence).
  destruct (forget_refcount demoTable 3 2 _ E eq_refl) as (_ & B & _ & _ & D);
    try (vm_compute; congruence); try (vm_compute; split; congruence).
  split; [apply A; vm_compute; reflexivity|]. split; [apply B; vm_compute; congruence|].
  rewrite D; [reflexivity|vm_compute; congruence].
Defined.

(** Inode numbers are never reused: a path that is looked up for the first time
    gets a number above every number in use at any earlier moment, even if those
    files are gone by then. *)
Theorem inode_never_reused m m' m'' i e path isDir size mtime j :
  ok m -> GetEntry m i = Some e -> rtc (inode_step false) m m' ->
  nextIno m' + 1 < 2 ^ 64 -> GetInode m' path = None ->
  Lookup m' path isDir size mtime = Some (m'', j) -> i < j /\ GetEntry m' j = None.
Proof.
  intros Hok Hi Hr Hn Hp E. destruct (steps_ok _ _ _ Hok Hr) as (Hok' & Hle & _).
  destruct (ok_ino _ Hok _ _ Hi) as (_ & Hlt & _).
  destruct (Lookup_ok m' path isDir size mtime Hok' Hn) as (m1 & k & E1 & _ & _ & _ & Hk & _).
  rewrite E in E1. injection E1 as <- <-. rewrite (Hk Hp). split; [lia|].
  by apply (ok_allocate m' path isDir 1 size mtime).
Qed.

Lemma inode_never_reused_witness :
  exists m'' j, Lookup (Forget demoTable 4 1) "/c" false 0 0 = Some (m'', j) /\ 4 < j.
Proof.
  destruct (Lookup (Forget demoTable 4 1) "/c" false 0 0) as [[m'' j]|] eqn:E; [|discriminate E].
  exists m'', j. split; [reflexivity|].
  destruct (byInode demoTable !! 4) as [e|] eqn:E4; [|discriminate E4].
  apply (inode_never_reused demoTable (Forget demoTable 4 1) m'' 4 e "/c" false 0 0 j
    demoTable_ok E4); [apply rtc_once, step_forget|vm_compute; reflexivity|vm_compute; reflexivity|].
  exact E.
Defined.

End Inodes.
