(* ===== verification/Handles.v ===== *)
(** * Handle tables and the index of open handles

    Model of [src/pkg/fuse/handle.go] ([HandleTable], generic in the handle type)
    and [src/pkg/fuse/open_handles.go] ([OpenHandleIndex], and the two functions of
    [Dat9FS] that keep table and index together).  A [*FileHandle] is its address;
    the index reads only the fields [Ino] and [Path] of the handle behind it, which
    a [FileHandle] value carries with the address.  A [map[*FileHandle]struct{}] is
    a [gset] of addresses.  The orders in which Go ranges over maps are arguments. *)

From S2P Require Import Prelude GoStrings.

Import GoStr.

Module HandleTable.

Section table.
Context {T : Type}.

Record HandleTable := { table : gmap Z T; nextFh : Z }.

Definition NewHandleTable : HandleTable := {| table := ∅; nextFh := 1 |}.

Definition Allocate (ht : HandleTable) (val : T) : HandleTable * Z :=
  let fh := nextFh ht in
  ({| table := <[fh := val]> (table ht); nextFh := wrapu64 (nextFh ht + 1) |}, fh).

Definition Get (ht : HandleTable) (fh : Z) : option T := table ht !! fh.

Definition Delete (ht : HandleTable) (fh : Z) : HandleTable :=
  {| table := delete fh (table ht); nextFh := nextFh ht |}.

(** [ForEach]: the calls of [fn] in the iteration order of the map, on the caller's
    state. *)
Definition ForEach {S : Type} (order : gmap Z T -> list (Z * T)) (ht : HandleTable)
    (fn : S -> Z -> T -> S) (s : S) : S :=
  foldl (fun s kv => fn s (fst kv) (snd kv)) s (order (table ht)).

Definition Snapshot (order : gmap Z T -> list (Z * T)) (ht : HandleTable) : list T :=
  snd <$> order (table ht).

(** Every id in the table was issued. *)
Definition ok (ht : HandleTable) : Prop :=
  0 < nextFh ht /\ forall fh v, table ht !! fh = Some v -> 0 < fh < nextFh ht.

Inductive step (ht : HandleTable) : HandleTable -> Prop :=
  | step_allocate v : nextFh ht + 1 < 2 ^ 64 -> step ht (fst (Allocate ht v))
  | step_delete fh : step ht (Delete ht fh).

Lemma table_new_ok : ok NewHandleTable.
Proof. split; [done|]. intros fh v H. simpl in H. by rewrite lookup_empty in H. Qed.

Lemma table_step_ok ht ht' :
  ok ht -> step ht ht' -> ok ht' /\ nextFh ht <= nextFh ht'.
Proof.
  intros [Hn Ht] [v Hlt|fh]; unfold ok; simpl.
  - rewrite wrapu64_small by lia. split; [|lia]. split; [lia|]. intros fh w Hw.
    apply lookup_insert_Some in Hw as [[<- _]|[_ Hw]]; [lia|]. apply Ht in Hw. lia.
  - split; [|done]. split; [done|]. intros fh' w Hw.
    apply lookup_delete_Some in Hw as [_ Hw]. by eapply Ht.
Qed.

Lemma table_steps_ok ht ht' : ok ht -> rtc step ht ht' -> ok ht' /\ nextFh ht <= nextFh ht'.
Proof.
  intros Hok Hr. induction Hr as [|a b c Hab _ IH]; [done|].
  destruct (table_step_ok a b Hok Hab) as [Hb ?]. destruct (IH Hb). split; [done|lia].
Qed.

End table.
Arguments HandleTable : clear implicits.

(** Handle ids are never reused within the lifetime of a table: whatever was
    allocated and deleted before, a new allocation gets an id above every id handed
    out earlier, does not overwrite a live handle, and [Get] then finds it while
    every other handle is as it was. *)
Theorem allocate_fresh {T} (ht ht' : HandleTable T) (fh : Z) (v w : T) :
  rtc step NewHandleTable ht -> Get ht fh = Some v -> rtc step ht ht' ->
  nextFh ht' + 1 < 2 ^ 64 ->
  let '(ht'', fh') := Allocate ht' w in
  fh < fh' /\ Get ht' fh' = None /\ Get ht'' fh' = Some w
  /\ (forall k, k <> fh' -> Get ht'' k = Get ht' k).
Proof.
  intros H0 Hv Hr Hlt. destruct (table_steps_ok _ _ table_new_ok H0) as [Hok _].
  destruct (table_steps_ok _ _ Hok Hr) as [[Hn Ht] Hle]. unfold Get in *.
  destruct Hok as [_ Hok]. apply Hok in Hv. simpl. split_and!; [lia| | |].
  - destruct (table ht' !! nextFh ht') as [x|] eqn:E; [|done]. apply Ht in E. lia.
  - apply lookup_insert_eq.
  - intros k Hk. by rewrite lookup_insert_ne.
Qed.

Lemma allocate_fresh_witness :
  let ht := fst (Allocate (fst (Allocate NewHandleTable "a")) "b") in
  let '(ht'', fh') := Allocate (Delete ht 2) "c" in
  2 < fh' /\ Get (Delete ht 2) fh' = None /\ Get ht'' fh' = Some "c"
  /\ (forall k, k <> fh' -> Get ht'' k = Get (Delete ht 2) k).
Proof.
  intros ht. apply (allocate_fresh ht (Delete ht 2) 2 "b" "c").
  - eapply rtc_l; [apply (step_allocate _ "a"); vm_compute; reflexivity|].
    apply rtc_once. apply (step_allocate _ "b"). vm_compute. reflexivity.
  - vm_compute. reflexivity.
  - apply rtc_once, step_delete.
  - vm_compute. reflexivity.
Defined.

End HandleTable.

Module OpenHandles.

(** The address of an open handle, with the fields the index reads through it. *)
Record FileHandle := { ptr : Z; Ino : Z; Path : string }.

Record OpenHandleIndex := {
  byInode : gmap Z (gset Z);
  byPath : gmap string (gset Z);
  pathByHandle : gmap Z string
}.

Definition NewOpenHandleIndex : OpenHandleIndex :=
  {| byInode := ∅; byPath := ∅; pathByHandle := ∅ |}.

Definition addHandleToSet {K} `{Countable K} (m : gmap K (gset Z)) (key : K) (fh : Z)
    : gmap K (gset Z) :=
  <[key := {[ fh ]} ∪ default ∅ (m !! key)]> m.

Definition removeHandleFromSet {K} `{Countable K} (m : gmap K (gset Z)) (key : K) (fh : Z)
    : gmap K (gset Z) :=
  match m !! key with
  | None => m
  | Some handles =>
      let handles := handles ∖ {[ fh ]} in
      if bool_decide (handles = ∅) then delete key m else <[key := handles]> m
  end.

(** [None] is the nil handle. *)
Definition Add (idx : OpenHandleIndex) (ofh : option FileHandle) : OpenHandleIndex :=
  match ofh with
  | None => idx
  | Some fh =>
      {| byInode := addHandleToSet (byInode idx) (Ino fh) (ptr fh);
         byPath := addHandleToSet (byPath idx) (Path fh) (ptr fh);
         pathByHandle := <[ptr fh := Path fh]> (pathByHandle idx) |}
  end.

Definition Remove (order : gmap string (gset Z) -> list (string * gset Z))
    (idx : OpenHandleIndex) (ofh : option FileHandle) : OpenHandleIndex :=
  match ofh with
  | None => idx
  | Some fh =>
      let bi := removeHandleFromSet (byInode idx) (Ino fh) (ptr fh) in
      match pathByHandle idx !! ptr fh with
      | Some p =>
          {| byInode := bi; byPath := removeHandleFromSet (byPath idx) p (ptr fh);
             pathByHandle := delete (ptr fh) (pathByHandle idx) |}
      | None =>
          {| byInode := bi;
             byPath := foldl (fun m p => removeHandleFromSet m p (ptr fh)) (byPath idx)
                         (fst <$> order (byPath idx));
             pathByHandle := pathByHandle idx |}
      end
  end.

(** [len(m[key]) > 0] *)
Definition nonEmpty {K} `{Countable K} (m : gmap K (gset Z)) (key : K) : bool :=
  negb (bool_decide (default ∅ (m !! key) = ∅)).

Definition Has (idx : OpenHandleIndex) (ino : Z) (p : string) : bool :=
  if negb (ino =? 0) && nonEmpty (byInode idx) ino then true
  else negb (bool_decide (p = "")) && nonEmpty (byPath idx) p.

Definition SnapshotPath (orderSet : gset Z -> list Z) (idx : OpenHandleIndex) (p : string)
    : list Z :=
  if bool_decide (p = "") then []
  else if nonEmpty (byPath idx) p then orderSet (default ∅ (byPath idx !! p)) else [].

(** The moves [RenamePathPrefix] collects, in the iteration order of [byPath]. *)
Definition moves (oldPath newPath : string) (keys : list string) : list (string * string) :=
  omap (fun p =>
          if bool_decide (p = oldPath) then Some (p, newPath)
          else if HasPrefix p (oldPath +:+ "/")
               then Some (p, newPath +:+ TrimPrefix p oldPath) else None) keys.

(** One handle of a move. *)
Definition moveHandle (to : string) (st : OpenHandleIndex * gmap Z string) (fh : Z)
    : OpenHandleIndex * gmap Z string :=
  let '(idx, retargeted) := st in
  ({| byInode := byInode idx; byPath := addHandleToSet (byPath idx) to fh;
      pathByHandle := <[fh := to]> (pathByHandle idx) |},
   <[fh := to]> retargeted).

(** One iteration of the loop over the moves. *)
Definition applyMove (orderSet : gset Z -> list Z) (st : OpenHandleIndex * gmap Z string)
    (mv : string * string) : OpenHandleIndex * gmap Z string :=
  let '(idx, retargeted) := st in
  let handles := default ∅ (byPath idx !! fst mv) in
  let idx := {| byInode := byInode idx; byPath := delete (fst mv) (byPath idx);
                pathByHandle := pathByHandle idx |} in
  foldl (moveHandle (snd mv)) (idx, retargeted) (orderSet handles).

(** The returned map; [None] is nil. *)
Definition RenamePathPrefix (order : gmap string (gset Z) -> list (string * gset Z))
    (orderSet : gset Z -> list Z) (idx : OpenHandleIndex) (oldPath newPath : string)
    : OpenHandleIndex * option (gmap Z string) :=
  if bool_decide (oldPath = "") || bool_decide (newPath = "") then (idx, None)
  else
    let '(idx, retargeted) :=
      foldl (applyMove orderSet) (idx, ∅)
        (moves oldPath newPath (fst <$> order (byPath idx))) in
    if bool_decide (retargeted = ∅) then (idx, None) else (idx, Some retargeted).

Definition PathOf (idx : OpenHandleIndex) (ofh : option FileHandle) : option string :=
  match ofh with
  | None => None
  | Some fh => pathByHandle idx !! ptr fh
  end.

(** ** Table and index together *)

Record HandleState := {
  fileHandles : HandleTable.HandleTable FileHandle;
  openHandles : OpenHandleIndex
}.

Definition allocateFileHandle (fs : HandleState) (fh : FileHandle) : HandleState * Z :=
  let '(ht, fhID) := HandleTable.Allocate (fileHandles fs) fh in
  ({| fileHandles := ht; openHandles := Add (openHandles fs) (Some fh) |}, fhID).

Definition deleteFileHandle (order : gmap string (gset Z) -> list (string * gset Z))
    (fs : HandleState) (fhID : Z) (ofh : option FileHandle) : HandleState :=
  let del fh :=
    {| fileHandles := HandleTable.Delete (fileHandles fs) fhID;
       openHandles := Remove order (openHandles fs) (Some fh) |} in
  match ofh with
  | Some fh => del fh
  | None =>
      match HandleTable.Get (fileHandles fs) fhID with
      | None => fs
      | Some fh => del fh
      end
  end.

(** ** The abstract state: the open handles with their inode and path *)

Abbreviation opens := (gmap Z (Z * string)).

(** [m] groups the handles of [o] by [f]. *)
Definition groups {K} `{Countable K} (f : Z * string -> K) (m : gmap K (gset Z)) (o : opens)
    : Prop :=
  (forall k h, h ∈ default ∅ (m !! k) <-> exists v, o !! h = Some v /\ f v = k)
  /\ (forall k s, m !! k = Some s -> s <> ∅).

(** The index stands for the open handles [o]. *)
Record repr (idx : OpenHandleIndex) (o : opens) : Prop := {
  rp_inode : groups fst (byInode idx) o;
  rp_path : groups snd (byPath idx) o;
  rp_handle : forall h, pathByHandle idx !! h = snd <$> o !! h
}.

Section groups.
Context {K : Type} `{Countable K} (f : Z * string -> K).
Implicit Types (m : gmap K (gset Z)) (o : opens).

Lemma groups_add m o h v :
  groups f m o -> o !! h = None -> groups f (addHandleToSet m (f v) h) (<[h := v]> o).
Proof.
  intros [Hg Hne] Hnew. unfold addHandleToSet. split.
  - intros k h'. destruct (decide (k = f v)) as [->|Hk].
    + rewrite lookup_insert_eq. simpl. rewrite elem_of_union, elem_of_singleton, Hg.
      destruct (decide (h' = h)) as [->|].
      * rewrite lookup_insert_eq. naive_solver.
      * rewrite lookup_insert_ne by done. naive_solver.
    + rewrite lookup_insert_ne, Hg by done. destruct (decide (h' = h)) as [->|].
      * rewrite lookup_insert_eq, Hnew. naive_solver.
      * by rewrite lookup_insert_ne.
  - intros k s Hs. apply lookup_insert_Some in Hs as [[_ <-]|[_ Hs]]; [set_solver|by eapply Hne].
Qed.

Lemma removeHandleFromSet_elem m k h k' h' :
  h' ∈ default ∅ (removeHandleFromSet m k h !! k')
  <-> h' ∈ default ∅ (m !! k') /\ ~ (k' = k /\ h' = h).
Proof.
  unfold removeHandleFromSet. destruct (m !! k) as [s|] eqn:E.
  - case_bool_decide as Hs; destruct (decide (k' = k)) as [->|];
      rewrite ?lookup_delete_eq, ?lookup_insert_eq, ?lookup_delete_ne, ?lookup_insert_ne by done;
      rewrite ?E; simpl; set_solver.
  - destruct (decide (k' = k)) as [->|]; [rewrite E|]; simpl; set_solver.
Qed.

Lemma groups_remove m o h v :
  groups f m o -> o !! h = Some v -> groups f (removeHandleFromSet m (f v) h) (delete h o).
Proof.
  intros [Hg Hne] Hv. split.
  - intros k h'. rewrite removeHandleFromSet_elem, Hg. destruct (decide (h' = h)) as [->|].
    + rewrite lookup_delete_eq, Hv. naive_solver.
    + rewrite lookup_delete_ne by done. naive_solver.
  - intros k s. unfold removeHandleFromSet. destruct (m !! f v) as [s0|] eqn:E; [|by apply Hne].
    case_bool_decide; intros Hs.
    + apply lookup_delete_Some in Hs as [_ Hs]. by eapply Hne.
    + apply lookup_insert_Some in Hs as [[_ <-]|[_ Hs]]; [done|by eapply Hne].
Qed.

(** Removing a handle that is not there. *)
Lemma groups_remove_absent m o k h :
  groups f m o -> o !! h = None -> removeHandleFromSet m k h = m.
Proof.
  intros [Hg Hne] Hn. unfold removeHandleFromSet. destruct (m !! k) as [s|] eqn:E; [|done].
  assert (h ∉ s) as Hni.
  { intros Hin. destruct (proj1 (Hg k h)) as (v & Hv & _); [by rewrite E|congruence]. }
  replace (s ∖ {[h]}) with s by set_solver. rewrite bool_decide_false by (by eapply Hne).
  by apply insert_id.
Qed.

Lemma groups_nonEmpty m o k :
  groups f m o -> nonEmpty m k = true <-> exists h v, o !! h = Some v /\ f v = k.
Proof.
  intros [Hg _]. unfold nonEmpty. rewrite negb_true_iff, bool_decide_eq_false. split.
  - intros Hs. apply set_choose_L in Hs as [h Hh]. exists h. by apply Hg.
  - intros (h & Hv) Hs. apply Hg in Hv. set_solver.
Qed.

End groups.

(** ** Renames *)

(** [orderSet] is an order in which Go may range over a set of handles. *)
Definition iteratesSet (orderSet : gset Z -> list Z) : Prop :=
  forall s, orderSet s ≡ₚ elements s.

(** What the handles of one move do to the index and the result. *)
Lemma moveHandles_spec to hs : forall idx ret,
  let '(idx', ret') := foldl (moveHandle to) (idx, ret) hs in
  byInode idx' = byInode idx
  /\ (forall q h, h ∈ default ∅ (byPath idx' !! q)
        <-> (q = to /\ h ∈ hs) \/ h ∈ default ∅ (byPath idx !! q))
  /\ (forall q s, byPath idx' !! q = Some s -> s <> ∅ \/ byPath idx !! q = Some s)
  /\ (forall h, pathByHandle idx' !! h = if decide (h ∈ hs) then Some to else pathByHandle idx !! h)
  /\ (forall h, ret' !! h = if decide (h ∈ hs) then Some to else ret !! h).
Proof.
  induction hs as [|h0 hs IH]; intros idx ret; simpl.
  { split_and!; set_solver. }
  specialize (IH {| byInode := byInode idx; byPath := addHandleToSet (byPath idx) to h0;
                    pathByHandle := <[h0 := to]> (pathByHandle idx) |} (<[h0 := to]> ret)).
  destruct (foldl _ _ hs) as [idx' ret']. destruct IH as (Ei & Ep & En & Eh & Er). simpl in *.
  unfold addHandleToSet in *.
  split_and!; [done| | | |].
  - intros q h. rewrite Ep. destruct (decide (q = to)) as [->|].
    + rewrite lookup_insert_eq. simpl. set_solver.
    + rewrite lookup_insert_ne by done. set_solver.
  - intros q s Hs. destruct (En q s Hs) as [|Hs']; [by left|].
    apply lookup_insert_Some in Hs' as [[_ <-]|[_ Hs']]; [left; set_solver|by right].
  - intros h. rewrite Eh. destruct (decide (h = h0)) as [->|].
    + rewrite lookup_insert_eq. by case_decide; rewrite decide_True by set_solver.
    + rewrite lookup_insert_ne by done. case_decide;
        [by rewrite decide_True by set_solver|by rewrite decide_False by set_solver].
  - intros h. rewrite Er. destruct (decide (h = h0)) as [->|].
    + rewrite lookup_insert_eq. by case_decide; rewrite decide_True by set_solver.
    + rewrite lookup_insert_ne by done. case_decide;
        [by rewrite decide_True by set_solver|by rewrite decide_False by set_solver].
Qed.

(** The abstract move: every handle at [from] goes to [to]. *)
Definition movePath (mv : string * string) (p : string) : string :=
  if decide (p = fst mv) then snd mv else p.
Definition moveOpen (mv : string * string) (o : opens) : opens :=
  (fun v => (fst v, movePath mv (snd v))) <$> o.

Lemma applyMove_repr orderSet idx o ret from to :
  iteratesSet orderSet -> repr idx o -> from <> to ->
  let '(idx', ret') := applyMove orderSet (idx, ret) (from, to) in
  repr idx' (moveOpen (from, to) o)
  /\ forall h, ret' !! h = if decide (snd <$> o !! h = Some from) then Some to else ret !! h.
Proof.
  intros Hord [Hi [Hp Hpn] Hh] Hne. unfold applyMove. simpl.
  set (hs := default ∅ (byPath idx !! from)).
  pose proof (moveHandles_spec to (orderSet hs) {| byInode := byInode idx;
    byPath := delete from (byPath idx); pathByHandle := pathByHandle idx |} ret) as Hs.
  destruct (foldl _ _ _) as [idx' ret']. destruct Hs as (Ei & Ep & En & Eh & Er). simpl in *.
  assert (forall h, h ∈ orderSet hs <-> snd <$> o !! h = Some from) as Hhs.
  { intros h. rewrite (Hord hs), elem_of_elements. unfold hs. rewrite Hp.
    destruct (o !! h) as [v|]; simpl; naive_solver. }
  assert (forall h, moveOpen (from, to) o !! h
          = (fun v => (fst v, movePath (from, to) (snd v))) <$> o !! h) as Hmo.
  { intros h. apply lookup_fmap. }
  split.
  - split.
    + rewrite Ei. destruct Hi as [Hi Hin]. split; [|done]. intros k h. rewrite Hi, Hmo.
      destruct (o !! h) as [[i p]|]; simpl; naive_solver.
    + split.
      * intros q h. rewrite Ep, Hhs, Hmo. destruct (decide (q = from)) as [->|Hq].
        -- rewrite lookup_delete_eq. simpl. unfold movePath. simpl.
           destruct (o !! h) as [[i p]|]; simpl; [|set_solver].
           destruct (decide (p = from)); set_solver.
        -- rewrite lookup_delete_ne, Hp by done. unfold movePath. simpl.
           destruct (o !! h) as [[i p]|]; simpl; [|naive_solver].
           destruct (decide (p = from)); naive_solver.
      * intros q s' Hs'. destruct (En q s' Hs') as [|Hd]; [done|].
        apply lookup_delete_Some in Hd as [_ Hd]. by eapply Hpn.
    + intros h. rewrite Eh, Hmo, Hh. unfold movePath.
      destruct (decide (h ∈ orderSet hs)) as [Hin|Hin]; rewrite Hhs in Hin;
        destruct (o !! h) as [[i p]|]; simplify_eq/=; repeat case_decide; naive_solver.
  - intros h. rewrite Er. apply decide_ext. apply Hhs.
Qed.

(** Where [ms] sends a path, and what it reports for it. *)
Definition relocated (old new : string) (froms : list string) (p : string) : string :=
  if decide (p ∈ froms) then relocate old new p else p.

Lemma applyMoves_repr orderSet old new ms : forall idx o ret,
  iteratesSet orderSet -> ~ inTree old new -> ~ inTree new old ->
  (forall f t, (f, t) ∈ ms -> inTree old f /\ t = relocate old new f) -> repr idx o ->
  let '(idx', ret') := foldl (applyMove orderSet) (idx, ret) ms in
  repr idx' ((fun v => (fst v, relocated old new (ms.*1) (snd v))) <$> o)
  /\ forall h, ret' !! h = match snd <$> o !! h with
                           | Some p => if decide (p ∈ ms.*1) then Some (relocate old new p)
                                       else ret !! h
                           | None => ret !! h
                           end.
Proof.
  induction ms as [|[f t] ms IH]; intros idx o ret Ho D1 D2 Hms Hr; cbn [foldl].
  { unfold relocated. simpl. split.
    - replace (_ <$> o) with o; [done|]. apply map_eq. intros h. rewrite lookup_fmap.
      destruct (o !! h) as [[i p]|]; [|done]. done.
    - intros h. destruct (o !! h) as [[i p]|]; [|done]. done. }
  destruct (Hms f t ltac:(set_solver)) as [Hf ->].
  assert (forall p, inTree old p -> relocate old new f <> p) as Hout.
  { intros p Hp E. apply (inTree_disjoint old new p D1 D2 Hp). rewrite <- E. by apply relocate_inTree. }
  assert (relocate old new f ∉ ms.*1) as Hni.
  { intros Hin. apply list_elem_of_fmap in Hin as ([f' t'] & E & Hin). simpl in E.
    destruct (Hms f' t' ltac:(set_solver)) as [Hf' _]. by eapply Hout. }
  pose proof (applyMove_repr orderSet idx o ret f (relocate old new f) Ho Hr) as Hstep.
  destruct (applyMove _ _ _) as [idx1 ret1].
  destruct Hstep as [Hr1 Hret1]; [by apply not_eq_sym, Hout|].
  specialize (IH idx1 _ ret1 Ho D1 D2 ltac:(intros; apply Hms; set_solver) Hr1).
  destruct (foldl _ _ ms) as [idx' ret']. destruct IH as [Hr' Hret']. split.
  - replace (_ <$> o) with ((fun v => (fst v, relocated old new (ms.*1) (snd v)))
      <$> moveOpen (f, relocate old new f) o); [done|].
    apply map_eq. intros h. unfold moveOpen. rewrite !lookup_fmap.
    destruct (o !! h) as [[i p]|]; [|done]. simpl. unfold relocated, movePath. simpl.
    do 2 f_equal. destruct (decide (p = f)) as [->|].
    + by rewrite decide_False, decide_True by set_solver.
    + apply decide_ext. set_solver.
  - intros h. rewrite Hret', Hret1. unfold moveOpen. rewrite lookup_fmap.
    destruct (o !! h) as [[i p]|]; simpl; [|done]. unfold movePath. simpl.
    destruct (decide (p = f)) as [->|].
    + rewrite (decide_False (P := relocate old new f ∈ _)) by done.
      by rewrite !decide_True by (done || set_solver).
    + rewrite (decide_False (P := Some p = Some f)) by congruence.
      apply decide_ext. set_solver.
Qed.

(** The moves cover exactly the tracked paths of the tree. *)
Lemma moves_spec old new keys f t :
  (f, t) ∈ moves old new keys <-> f ∈ keys /\ inTree old f /\ t = relocate old new f.
Proof.
  unfold moves. rewrite list_elem_of_omap. split.
  - intros (p & Hp & E). repeat case_bool_decide; simplify_eq.
    + split_and!; [done|by left|by rewrite relocate_self].
    + destruct (HasPrefix p _) eqn:Eu; simplify_eq. split_and!; [done|by right|done].
  - intros (Hf & Ht & ->). exists f. split; [done|]. case_bool_decide as E.
    + subst. by rewrite relocate_self.
    + destruct Ht as [|Hu]; [done|]. unfold under in Hu. by rewrite Hu.
Qed.

(** The abstract rename of the open handles. *)
Definition renameOpen (old new : string) (o : opens) : opens :=
  (fun v => (fst v, if decide (inTree old (snd v)) then relocate old new (snd v) else snd v)) <$> o.

Lemma RenamePathPrefix_repr order orderSet idx o old new :
  iterates order -> iteratesSet orderSet -> repr idx o -> old <> "" -> new <> "" ->
  ~ inTree old new -> ~ inTree new old ->
  let '(idx', ret) := RenamePathPrefix order orderSet idx old new in
  repr idx' (renameOpen old new o)
  /\ forall h t, default ∅ ret !! h = Some t <->
       exists i p, o !! h = Some (i, p) /\ inTree old p /\ t = relocate old new p.
Proof.
  intros Ho Hos Hr Hold Hnew D1 D2. unfold RenamePathPrefix.
  rewrite !bool_decide_false by done. simpl.
  set (keys := fst <$> order (byPath idx)).
  assert (forall h i p, o !! h = Some (i, p) -> inTree old p <-> p ∈ (moves old new keys).*1) as Hkey.
  { intros h i p Hh. destruct (rp_path _ _ Hr) as [Hg _].
    assert (p ∈ keys) as Hin.
    { assert (h ∈ default ∅ (byPath idx !! p)) as Hm by (apply Hg; eauto).
      destruct (byPath idx !! p) as [s|] eqn:E; [|set_solver].
      apply list_elem_of_fmap. exists (p, s). split; [done|]. by apply iterates_elem. }
    rewrite list_elem_of_fmap. split.
    - intros Ht. exists (p, relocate old new p). split; [done|]. by apply moves_spec.
    - intros ([f t] & -> & Hm). by apply moves_spec in Hm as (_ & ? & _). }
  pose proof (applyMoves_repr orderSet old new (moves old new keys) idx o ∅ Hos D1 D2) as Hmv.
  destruct (foldl _ _ _) as [idx' ret']. destruct Hmv as [Hr' Hret];
    [intros f t Hft; apply moves_spec in Hft; tauto|done|].
  assert (repr idx' (renameOpen old new o)) as Hrepr.
  { unfold renameOpen. replace (_ <$> o) with ((fun v => (fst v,
      relocated old new (moves old new keys).*1 (snd v))) <$> o); [done|].
    apply map_eq. intros h. rewrite !lookup_fmap. destruct (o !! h) as [[i p]|] eqn:E; [|done].
    simpl. do 2 f_equal. apply decide_ext. symmetry. by eapply Hkey. }
  assert (forall h t, ret' !! h = Some t <->
    exists i p, o !! h = Some (i, p) /\ inTree old p /\ t = relocate old new p) as Hspec.
  { intros h t. rewrite Hret. destruct (o !! h) as [[i p]|] eqn:E; simpl.
    - case_decide as Hd; rewrite <- (Hkey h i p E) in Hd; [naive_solver|].
      rewrite lookup_empty. naive_solver.
    - rewrite lookup_empty. naive_solver. }
  case_bool_decide as Hempty; (split; [done|]); [|done].
  intros h t. simpl. rewrite <- Hspec, Hempty. done.
Qed.

(** ** Every operation *)

Lemma new_repr : repr NewOpenHandleIndex ∅.
Proof.
  assert (forall K `{Countable K} (f : Z * string -> K), groups f ∅ ∅) as Hg.
  { intros K ? ? f. split.
    - intros k h. rewrite !lookup_empty. simpl. set_solver.
    - intros k s Hs. by rewrite lookup_empty in Hs. }
  split; simpl; [apply Hg|apply Hg|]. intros h. by rewrite !lookup_empty.
Qed.

Lemma Add_repr idx o fh :
  repr idx o -> o !! ptr fh = None ->
  repr (Add idx (Some fh)) (<[ptr fh := (Ino fh, Path fh)]> o).
Proof.
  intros [Hi Hp Hh] Hn. split; simpl.
  - by apply (groups_add fst _ _ _ (Ino fh, Path fh)).
  - by apply (groups_add snd _ _ _ (Ino fh, Path fh)).
  - intros h. destruct (decide (h = ptr fh)) as [->|].
    + by rewrite !lookup_insert_eq.
    + by rewrite !lookup_insert_ne.
Qed.

Lemma Remove_repr order idx o fh p :
  repr idx o -> o !! ptr fh = Some (Ino fh, p) ->
  repr (Remove order idx (Some fh)) (delete (ptr fh) o).
Proof.
  intros [Hi Hp Hh] Ho. unfold Remove. rewrite Hh, Ho. simpl. split; simpl.
  - by apply (groups_remove fst _ _ _ (Ino fh, p)).
  - by apply (groups_remove snd _ _ _ (Ino fh, p)).
  - intros h. destruct (decide (h = ptr fh)) as [->|].
    + by rewrite !lookup_delete_eq.
    + by rewrite !lookup_delete_ne.
Qed.

Lemma Remove_absent order idx o fh :
  repr idx o -> o !! ptr fh = None -> Remove order idx (Some fh) = idx.
Proof.
  intros [Hi Hp Hh] Ho. unfold Remove. rewrite Hh, Ho. simpl.
  rewrite (groups_remove_absent fst _ o) by done.
  assert (foldl (fun m p => removeHandleFromSet m p (ptr fh)) (byPath idx)
            (fst <$> order (byPath idx)) = byPath idx) as ->; [|by destruct idx].
  apply (foldl_inv (fun m => m = byPath idx)); [done|]. intros m p _ ->.
  by apply (groups_remove_absent snd _ o).
Qed.

(** The operations on the index, with their effect on the set of open handles. *)
Inductive step : OpenHandleIndex * opens -> OpenHandleIndex * opens -> Prop :=
  | step_add idx o fh : o !! ptr fh = None ->
      step (idx, o) (Add idx (Some fh), <[ptr fh := (Ino fh, Path fh)]> o)
  | step_remove order idx o fh p : o !! ptr fh = Some (Ino fh, p) ->
      step (idx, o) (Remove order idx (Some fh), delete (ptr fh) o)
  | step_remove_absent order idx o fh : o !! ptr fh = None ->
      step (idx, o) (Remove order idx (Some fh), o)
  | step_rename order orderSet idx o old new : iterates order -> iteratesSet orderSet ->
      old <> "" -> new <> "" -> ~ inTree old new -> ~ inTree new old ->
      step (idx, o) (fst (RenamePathPrefix order orderSet idx old new), renameOpen old new o).

Lemma step_repr st st' : step st st' -> repr (fst st) (snd st) -> repr (fst st') (snd st').
Proof.
  intros [idx o fh Hn|order idx o fh p Ho|order idx o fh Ho|
          order orderSet idx o old new H1 H2 H3 H4 D1 D2] Hr; cbn [fst snd] in *.
  - by apply Add_repr.
  - by eapply Remove_repr.
  - by rewrite (Remove_absent order idx o).
  - pose proof (RenamePathPrefix_repr order orderSet idx o old new H1 H2 Hr H3 H4 D1 D2) as Hp.
    destruct (RenamePathPrefix _ _ _ _ _) as [idx' ret]. apply Hp.
Qed.

Lemma steps_repr st st' : rtc step st st' -> repr (fst st) (snd st) -> repr (fst st') (snd st').
Proof. intros Hr. induction Hr; eauto using step_repr. Qed.

(** After any sequence of opens, closes and renames the index is exactly the
    set of open handles: [Has] answers whether a handle is open on the inode or
    path, [SnapshotPath] lists each handle of a path once, [PathOf] knows the
    current path, and no empty set is left behind. *)
Theorem open_index_exact idx (o : opens) ino p orderSet :
  rtc step (NewOpenHandleIndex, ∅) (idx, o) -> iteratesSet orderSet ->
  (Has idx ino p = true <->
     (ino <> 0 /\ exists h q, o !! h = Some (ino, q))
     \/ (p <> "" /\ exists h i, o !! h = Some (i, p)))
  /\ (p <> "" -> NoDup (SnapshotPath orderSet idx p)
       /\ forall h, h ∈ SnapshotPath orderSet idx p <-> exists i, o !! h = Some (i, p))
  /\ (forall fh, PathOf idx (Some fh) = snd <$> o !! ptr fh)
  /\ (forall k s, byInode idx !! k = Some s -> s <> ∅)
  /\ (forall k s, byPath idx !! k = Some s -> s <> ∅).
Proof.
  intros Hr Hos. apply steps_repr in Hr; [|exact new_repr]. simpl in Hr.
  destruct Hr as [Hi Hp Hh].
  split_and!; [| | |apply Hi|apply Hp].
  - change (Has idx ino p) with ((negb (ino =? 0) && nonEmpty (byInode idx) ino)
      || (negb (bool_decide (p = "")) && nonEmpty (byPath idx) p)).
    rewrite orb_true_iff, !andb_true_iff, !negb_true_iff, Z.eqb_neq, bool_decide_eq_false.
    rewrite (groups_nonEmpty fst _ o ino Hi), (groups_nonEmpty snd _ o p Hp).
    assert (forall A (f : Z * string -> A) k, (exists h v, o !! h = Some v /\ f v = k) <->
      exists h i q, o !! h = Some (i, q) /\ f (i, q) = k) as Hpair.
    { intros A f k. split; [intros (h & [i q] & ?); eauto|intros (h & i & q & ?); eauto]. }
    rewrite !Hpair. simpl. split.
    + intros [[? (h & i & q & E & <-)]|[? (h & i & q & E & <-)]]; [left|right]; eauto.
    + intros [[? (h & q & E)]|[? (h & i & E)]]; [left|right]; eauto 10.
  - intros Hne. unfold SnapshotPath. rewrite bool_decide_false by done.
    pose proof (groups_nonEmpty snd _ o p Hp) as H2. destruct Hp as [Hp _].
    destruct (nonEmpty (byPath idx) p) eqn:E2.
    + split; [rewrite (Hos _); apply NoDup_elements|]. intros h.
      rewrite (Hos _), elem_of_elements, Hp. split.
      * intros ([i q] & Hv & Hq). simpl in Hq. subst q. by exists i.
      * intros [i Hv]. by exists (i, p).
    + split; [apply NoDup_nil_2|]. intros h. split; [set_solver|]. intros [i Hv].
      assert (false = true) by (apply H2; by exists h, (i, p)). done.
  - intros fh. apply Hh.
Qed.

Lemma open_index_exact_witness :
  let a := {| ptr := 10; Ino := 2; Path := "/d/x" |} in
  let idx := fst (RenamePathPrefix map_to_list elements (Add NewOpenHandleIndex (Some a)) "/d" "/e") in
  Has idx 0 "/e/x" = true /\ Has idx 0 "/d/x" = false
  /\ (Has idx 0 "/e/x" = true <->
       (0 <> 0 /\ exists h q, ({[ 10 := (2, "/e/x") ]} : opens) !! h = Some (0, q))
       \/ ("/e/x" <> "" /\ exists h i, ({[ 10 := (2, "/e/x") ]} : opens) !! h = Some (i, "/e/x"))).
Proof.
  intros a idx. split; [vm_compute; reflexivity|]. split; [vm_compute; reflexivity|].
  apply (open_index_exact idx {[ 10 := (2, "/e/x") ]} 0 "/e/x" elements); [|by intros s].
  eapply rtc_l; [apply (step_add _ _ a); reflexivity|].
  assert (renameOpen "/d" "/e" (<[ptr a := (Ino a, Path a)]> ∅) = {[ 10 := (2, "/e/x") ]}) as E
    by (vm_compute; reflexivity).
  rewrite <- E. apply rtc_once. apply (step_rename map_to_list elements);
    [apply iterates_map_to_list|by intros s|discriminate|discriminate|..];
    apply (bool_decide_unpack _); vm_compute; exact I.
Defined.

(** Retargeting open handles for a directory rename reports exactly the handles
    below the old path, each with its new path. *)
Theorem rename_retargets order orderSet idx o old new h t :
  iterates order -> iteratesSet orderSet -> rtc step (NewOpenHandleIndex, ∅) (idx, o) ->
  old <> "" -> new <> "" -> ~ inTree old new -> ~ inTree new old ->
  default ∅ (snd (RenamePathPrefix order orderSet idx old new)) !! h = Some t <->
    exists i p, o !! h = Some (i, p) /\ inTree old p /\ t = relocate old new p.
Proof.
  intros Ho Hos Hr H3 H4 D1 D2. apply steps_repr in Hr; [|exact new_repr].
  pose proof (RenamePathPrefix_repr order orderSet idx o old new Ho Hos Hr H3 H4 D1 D2) as Hp.
  destruct (RenamePathPrefix _ _ _ _ _) as [idx' ret]. apply Hp.
Qed.

Lemma rename_retargets_witness :
  let a := {| ptr := 10; Ino := 2; Path := "/d/x" |} in
  default ∅ (snd (RenamePathPrefix map_to_list elements (Add NewOpenHandleIndex (Some a)) "/d" "/e"))
    !! 10 = Some "/e/x".
Proof.
  intros a. apply (rename_retargets map_to_list elements (Add NewOpenHandleIndex (Some a))
    (<[ptr a := (Ino a, Path a)]> ∅));
    [apply iterates_map_to_list|by intros s| |discriminate|discriminate|..];
    try (apply (bool_decide_unpack _); vm_compute; exact I).
  - apply rtc_once. apply (step_add _ _ a). reflexivity.
  - exists 2, "/d/x". split; [reflexivity|]. split; [right|]; vm_compute; reflexivity.
Defined.

(** Closing a handle through [deleteFileHandle], with the handle or only its id,
    takes it out of the table and of the index. *)
Theorem delete_closes order fs o fhID fh ofh p :
  repr (openHandles fs) o -> HandleTable.Get (fileHandles fs) fhID = Some fh ->
  (ofh = None \/ ofh = Some fh) -> o !! ptr fh = Some (Ino fh, p) ->
  let fs' := deleteFileHandle order fs fhID ofh in
  HandleTable.Get (fileHandles fs') fhID = None
  /\ repr (openHandles fs') (delete (ptr fh) o).
Proof.
  intros Hr Hg Hofh Ho. unfold deleteFileHandle. destruct Hofh as [->| ->]; [rewrite Hg|]; simpl;
    (split; [apply lookup_delete_eq|by eapply Remove_repr]).
Qed.

Lemma delete_closes_witness :
  let fh := {| ptr := 10; Ino := 2; Path := "/d/x" |} in
  let fs := fst (allocateFileHandle {| fileHandles := HandleTable.NewHandleTable;
                   openHandles := NewOpenHandleIndex |} fh) in
  HandleTable.Get (fileHandles (deleteFileHandle map_to_list fs 1 None)) 1 = None
  /\ repr (openHandles (deleteFileHandle map_to_list fs 1 None)) (delete 10 {[ 10 := (2, "/d/x") ]}).
Proof.
  intros fh fs. apply (delete_closes map_to_list fs {[ 10 := (2, "/d/x") ]} 1 fh None "/d/x").
  - apply (Add_repr NewOpenHandleIndex ∅ fh); [exact new_repr|reflexivity].
  - vm_compute. reflexivity.
  - left. reflexivity.
  - vm_compute. reflexivity.
Defined.

End OpenHandles.
