(* ===== verification/EventBus.v ===== *)
(** * The event bus

    Model of [src/pkg/server/eventbus.go]: the per-tenant ring buffer of change
    events with its listeners.  The array [ring] is a finite map from indices, an
    absent index being the zero event; the clock reading of [Publish] is an
    argument.  A signal channel of capacity one is the Boolean "a signal is
    buffered"; a send that finds it full is dropped, as the [select] with
    [default] does, and [Receive] is what a subscriber does with its channel. *)

From S2P Require Import Prelude.

Module EventBus.

Record ChangeEvent := {
  Seq : Z;
  Path : string;
  Op : string;
  Actor : string;
  Ts : Z
}.

Definition zeroEvent : ChangeEvent :=
  {| Seq := 0; Path := ""; Op := ""; Actor := ""; Ts := 0 |}.

Definition eventBusRingSize : Z := 10000.

Record EventBus := {
  seq : Z;
  ring : gmap Z ChangeEvent;
  head : Z;
  count : Z;
  listeners : gmap Z bool;
  nextID : Z
}.

Definition NewEventBus : EventBus :=
  {| seq := 0; ring := ∅; head := 0; count := 0; listeners := ∅; nextID := 0 |}.

(** [eb.ring[i]] *)
Definition ringAt (eb : EventBus) (i : Z) : ChangeEvent := default zeroEvent (ring eb !! i).

Definition Publish (eb : EventBus) (path op actor : string) (now : Z) : EventBus :=
  let s := wrapu64 (seq eb + 1) in
  let ev := {| Seq := s; Path := path; Op := op; Actor := actor; Ts := now |} in
  {| seq := s;
     ring := <[head eb := ev]> (ring eb);
     head := Z.rem (head eb + 1) eventBusRingSize;
     count := if count eb <? eventBusRingSize then count eb + 1 else count eb;
     listeners := (fun _ => true) <$> listeners eb;
     nextID := nextID eb |}.

Definition Subscribe (eb : EventBus) : EventBus * Z :=
  let id := nextID eb in
  ({| seq := seq eb; ring := ring eb; head := head eb; count := count eb;
      listeners := <[id := false]> (listeners eb); nextID := wrapu64 (nextID eb + 1) |}, id).

Definition Unsubscribe (eb : EventBus) (id : Z) : EventBus :=
  {| seq := seq eb; ring := ring eb; head := head eb; count := count eb;
     listeners := delete id (listeners eb); nextID := nextID eb |}.

(** A receive on the listener's channel: [None] when it would block. *)
Definition Receive (eb : EventBus) (id : Z) : option EventBus :=
  match listeners eb !! id with
  | Some true =>
      Some {| seq := seq eb; ring := ring eb; head := head eb; count := count eb;
              listeners := <[id := false]> (listeners eb); nextID := nextID eb |}
  | _ => None
  end.

Definition SeqOf (eb : EventBus) : Z := seq eb.

(** The loop of [EventsSince] over the ring. *)
Definition collect (eb : EventBus) (oldestIdx since : Z) : list ChangeEvent :=
  foldl (fun result i =>
           let ev := ringAt eb (Z.rem (oldestIdx + i) eventBusRingSize) in
           if since <? Seq ev then result ++ [ev] else result)
    [] (seqZ 0 (count eb)).

Definition EventsSince (eb : EventBus) (since : Z) : list ChangeEvent * Z * bool :=
  let headSeq := seq eb in
  if since =? 0 then ([], headSeq, false)
  else if count eb =? 0 then ([], headSeq, false)
  else
    let oldestIdx := Z.rem (head eb - count eb + eventBusRingSize) eventBusRingSize in
    let oldestSeq := Seq (ringAt eb oldestIdx) in
    let newestSeq := Seq (ringAt eb (Z.rem (head eb - 1 + eventBusRingSize) eventBusRingSize)) in
    if wrapu64 (since + 1) <? oldestSeq then ([], headSeq, false)
    else if newestSeq <? since then ([], headSeq, false)
    else if since =? newestSeq then ([], headSeq, true)
    else (collect eb oldestIdx since, headSeq, true).

(** ** The history of a bus *)

(** The events published so far, oldest first, and what the ring keeps of them. *)
Record holds (eb : EventBus) (h : list ChangeEvent) : Prop := {
  hd_len : zlen h < 2 ^ 64;
  hd_seq : seq eb = zlen h;
  hd_head : head eb = zlen h mod eventBusRingSize;
  hd_count : count eb = Z.min (zlen h) eventBusRingSize;
  hd_event : forall j ev, h !! Z.to_nat j = Some ev -> 0 <= j -> Seq ev = j + 1;
  hd_ring : forall j, zlen h - eventBusRingSize <= j < zlen h -> 0 <= j ->
    ring eb !! (j mod eventBusRingSize) = h !! Z.to_nat j
}.

(** The operations of a bus, with the history as a ghost. *)
Inductive step : EventBus * list ChangeEvent -> EventBus * list ChangeEvent -> Prop :=
  | step_publish eb h path op actor now : zlen h + 1 < 2 ^ 64 ->
      step (eb, h) (Publish eb path op actor now,
                    h ++ [{| Seq := zlen h + 1; Path := path; Op := op; Actor := actor; Ts := now |}])
  | step_subscribe eb h : step (eb, h) (fst (Subscribe eb), h)
  | step_unsubscribe eb h id : step (eb, h) (Unsubscribe eb id, h)
  | step_receive eb h id eb' : Receive eb id = Some eb' -> step (eb, h) (eb', h).

Lemma new_holds : holds NewEventBus [].
Proof.
  by split.
Qed.

(** Distinct positions of a window of the ring's size are distinct slots. *)
Lemma slot_inj j n :
  n - eventBusRingSize < j < n -> j mod eventBusRingSize <> n mod eventBusRingSize.
Proof.
  unfold eventBusRingSize. intros Hj E.
  pose proof (Z.div_mod j 10000 ltac:(lia)). pose proof (Z.div_mod n 10000 ltac:(lia)). lia.
Qed.

Lemma Publish_holds eb h path op actor now :
  holds eb h -> zlen h + 1 < 2 ^ 64 ->
  holds (Publish eb path op actor now)
    (h ++ [{| Seq := zlen h + 1; Path := path; Op := op; Actor := actor; Ts := now |}]).
Proof.
  intros [Hl Hs Hh Hc He Hr] Hlt. pose proof (zlen_nonneg h).
  assert (zlen (h ++ [{| Seq := zlen h + 1; Path := path; Op := op; Actor := actor; Ts := now |}])
          = zlen h + 1) as Hlen by (rewrite zlen_app; done).
  assert (forall j, 0 <= j < zlen h -> (Z.to_nat j < length h)%nat) as Hin.
  { unfold zlen. intros j Hj. lia. }
  split; rewrite ?Hlen; simpl.
  - lia.
  - rewrite wrapu64_small; lia.
  - rewrite Hh. pose proof (Z.mod_pos_bound (zlen h) eventBusRingSize ltac:(done)).
    rewrite Z.rem_mod_nonneg by (done || lia). by rewrite Zplus_mod_idemp_l.
  - rewrite Hc. case_if; bool_prop; lia.
  - intros j ev Hj Hj0. apply lookup_app_Some in Hj as [Hj|[Hge Hj]]; [by apply He|].
    apply list_lookup_singleton_Some in Hj as [Hj <-]. simpl. unfold zlen in *. lia.
  - intros j Hj Hj0. rewrite Hh, Hs, wrapu64_small by lia.
    destruct (decide (j = zlen h)) as [->|Hne].
    + rewrite lookup_insert_eq.
      replace (Z.to_nat (zlen h)) with (length h) by (unfold zlen; lia).
      by rewrite lookup_app_r, Nat.sub_diag by lia.
    + rewrite lookup_insert_ne by (apply not_eq_sym, slot_inj; lia).
      rewrite Hr by lia. rewrite lookup_app_l by (apply Hin; lia). done.
Qed.

Lemma step_holds st st' : step st st' -> holds (fst st) (snd st) -> holds (fst st') (snd st').
Proof.
  intros [eb h path op actor now Hlt|eb h|eb h id|eb h id eb' E] Hh; cbn [fst snd] in *.
  - by apply Publish_holds.
  - destruct Hh. by split.
  - destruct Hh. by split.
  - unfold Receive in E. destruct (listeners eb !! id) as [[]|]; simplify_eq.
    destruct Hh. by split.
Qed.

Lemma steps_holds st st' : rtc step st st' -> holds (fst st) (snd st) -> holds (fst st') (snd st').
Proof. intros Hr. induction Hr; eauto using step_holds. Qed.

(** ** Replay *)

Lemma gslice_snoc {A} (l : list A) a b x :
  0 <= a <= b -> l !! Z.to_nat b = Some x -> gslice l a (b + 1) = gslice l a b ++ [x].
Proof.
  intros Hab Hx. unfold gslice. replace (Z.to_nat (b + 1 - a)) with (S (Z.to_nat (b - a))) by lia.
  apply take_S_r. rewrite lookup_drop. rewrite <- Hx. f_equal. lia.
Qed.

(** The slot of a retained position. *)
Lemma holds_slot eb h i :
  holds eb h -> 0 <= i < count eb ->
  let o := zlen h - count eb in
  let idx := Z.rem (head eb - count eb + eventBusRingSize) eventBusRingSize in
  h !! Z.to_nat (o + i) = Some (ringAt eb (Z.rem (idx + i) eventBusRingSize))
  /\ Seq (ringAt eb (Z.rem (idx + i) eventBusRingSize)) = o + i + 1.
Proof.
  intros [Hl Hs Hh Hc He Hr] Hi o idx. pose proof (zlen_nonneg h).
  pose proof (Z.mod_pos_bound (zlen h) eventBusRingSize ltac:(done)).
  assert (Z.rem (idx + i) eventBusRingSize = (o + i) mod eventBusRingSize) as ->.
  { unfold idx. rewrite Hh. rewrite (Z.rem_mod_nonneg (_ - _ + _)) by (done || lia).
    pose proof (Z.mod_pos_bound (zlen h `mod` eventBusRingSize - count eb + eventBusRingSize)
      eventBusRingSize ltac:(done)).
    rewrite Z.rem_mod_nonneg by (done || lia). rewrite Zplus_mod_idemp_l.
    replace (zlen h mod eventBusRingSize - count eb + eventBusRingSize + i)
      with (zlen h mod eventBusRingSize + (i - count eb) + 1 * eventBusRingSize) by lia.
    rewrite Z_mod_plus_full, Zplus_mod_idemp_l. f_equal. lia. }
  destruct (lookup_lt_is_Some_2 h (Z.to_nat (o + i)) ltac:(unfold zlen in *; lia)) as [ev Hev].
  unfold ringAt. rewrite Hr by lia. rewrite Hev. simpl. split; [done|]. apply He; [done|lia].
Qed.

Lemma collect_prefix eb h since k :
  holds eb h -> 0 <= since -> zlen h - count eb <= since ->
  Z.of_nat k <= count eb ->
  let o := zlen h - count eb in
  let idx := Z.rem (head eb - count eb + eventBusRingSize) eventBusRingSize in
  foldl (fun result i =>
           let ev := ringAt eb (Z.rem (idx + i) eventBusRingSize) in
           if since <? Seq ev then result ++ [ev] else result)
    [] (seqZ 0 (Z.of_nat k))
  = gslice h since (Z.max since (o + Z.of_nat k)).
Proof.
  intros Hh Hs0 Hs Hk o idx. induction k as [|k IH].
  { simpl. unfold gslice. rewrite Z.max_l by lia. by rewrite Z.sub_diag. }
  replace (Z.of_nat (S k)) with (Z.of_nat k + 1) by lia.
  rewrite seqZ_app, foldl_app, IH by lia.
  change (seqZ (0 + Z.of_nat k) 1) with [Z.of_nat k]. cbn [foldl]. cbv zeta beta.
  destruct (holds_slot eb h (Z.of_nat k) Hh ltac:(lia)) as [Hlk Hseq].
  fold idx o in Hlk, Hseq.
  rewrite Hseq. case_if; bool_prop.
  - rewrite !Z.max_r by lia. rewrite Z.add_assoc. symmetry. apply gslice_snoc; [lia|done].
  - by rewrite !Z.max_l by lia.
Qed.

Lemma collect_drop eb h since :
  holds eb h -> 0 <= since -> zlen h - count eb <= since <= zlen h ->
  collect eb (Z.rem (head eb - count eb + eventBusRingSize) eventBusRingSize) since
  = drop (Z.to_nat since) h.
Proof.
  intros Hh Hs0 Hs. pose proof (hd_count _ _ Hh). pose proof (zlen_nonneg h).
  assert (0 <= count eb) by (unfold eventBusRingSize in *; lia).
  pose proof (collect_prefix eb h since (Z.to_nat (count eb)) Hh Hs0 ltac:(lia) ltac:(lia)) as E.
  cbv zeta in E. rewrite Z2Nat.id in E by lia. unfold collect. rewrite E.
  rewrite Z.max_r by lia. unfold gslice. apply firstn_all2. rewrite length_drop.
  unfold zlen in *. lia.
Qed.

(** A client that reconnects with its cursor gets exactly the events it missed,
    in order, or is told to resynchronize.  With [h] the whole history, a cursor
    that is not zero, not ahead and not older than the ring gets [drop since h];
    every other cursor gets the reset answer, and the head sequence number is
    always the length of the history. *)
Theorem events_since_replays eb h since :
  rtc step (NewEventBus, []) (eb, h) -> 0 <= since < 2 ^ 64 - 1 ->
  EventsSince eb since =
    if bool_decide (0 < since <= zlen h /\ zlen h - eventBusRingSize <= since)
    then (drop (Z.to_nat since) h, zlen h, true)
    else ([], zlen h, false).
Proof.
  intros Hr Hsince. apply steps_holds in Hr; [|exact new_holds]. cbn [fst snd] in Hr.
  pose proof Hr as [Hl Hs Hh Hc _ _]. pose proof (zlen_nonneg h). unfold EventsSince. rewrite Hs.
  case_if; bool_prop; [rewrite bool_decide_false by lia; done|].
  assert (0 < eventBusRingSize) by done.
  case_if; bool_prop; [rewrite bool_decide_false by lia; done|].
  destruct (holds_slot eb h 0 Hr ltac:(lia)) as [_ Hold]. rewrite Z.add_0_r in Hold.
  pose proof (Z.mod_pos_bound (head eb - count eb + eventBusRingSize) eventBusRingSize ltac:(done)).
  pose proof (Z.mod_pos_bound (zlen h) eventBusRingSize ltac:(done)).
  set (idx := Z.rem (head eb - count eb + eventBusRingSize) eventBusRingSize) in *.
  assert (0 <= idx < eventBusRingSize) as Hidx.
  { unfold idx. rewrite Z.rem_mod_nonneg by lia. done. }
  rewrite Z.rem_small in Hold by done. rewrite Hold.
  destruct (holds_slot eb h (count eb - 1) Hr ltac:(lia)) as [_ Hnew]. fold idx in Hnew.
  assert (Z.rem (idx + (count eb - 1)) eventBusRingSize
          = Z.rem (head eb - 1 + eventBusRingSize) eventBusRingSize) as Enew.
  { unfold idx. rewrite !Z.rem_mod_nonneg by (try done; rewrite ?Z.rem_mod_nonneg; lia).
    rewrite Zplus_mod_idemp_l. f_equal. lia. }
  rewrite Enew in Hnew. rewrite Hnew.
  rewrite wrapu64_small by lia.
  case_if; bool_prop; [rewrite bool_decide_false by lia; done|].
  case_if; bool_prop; [rewrite bool_decide_false by lia; done|].
  rewrite bool_decide_true by lia.
  case_if; bool_prop.
  - rewrite skipn_all2; [done|]. unfold zlen in *. lia.
  - unfold idx. rewrite (collect_drop eb h) by (done || lia). done.
Qed.

Lemma events_since_replays_witness :
  let eb := Publish (Publish (Publish NewEventBus "/a" "write" "m1" 5) "/b" "mkdir" "m2" 6)
              "/c" "delete" "m1" 7 in
  EventsSince eb 1 =
    ([{| Seq := 2; Path := "/b"; Op := "mkdir"; Actor := "m2"; Ts := 6 |};
      {| Seq := 3; Path := "/c"; Op := "delete"; Actor := "m1"; Ts := 7 |}], 3, true).
Proof.
  intros eb. rewrite (events_since_replays eb
    [{| Seq := 1; Path := "/a"; Op := "write"; Actor := "m1"; Ts := 5 |};
     {| Seq := 2; Path := "/b"; Op := "mkdir"; Actor := "m2"; Ts := 6 |};
     {| Seq := 3; Path := "/c"; Op := "delete"; Actor := "m1"; Ts := 7 |}] 1);
    [vm_compute; reflexivity| |lia].
  eapply rtc_l; [apply (step_publish _ _ "/a" "write" "m1" 5); vm_compute; reflexivity|].
  eapply rtc_l; [apply (step_publish _ _ "/b" "mkdir" "m2" 6); vm_compute; reflexivity|].
  apply rtc_once. exact (step_publish (Publish (Publish NewEventBus "/a" "write" "m1" 5)
    "/b" "mkdir" "m2" 6) [_; _] "/c" "delete" "m1" 7 eq_refl).
Defined.

(** ** Wake-ups *)

(** The operations with, for each listener, the sequence number at which it last
    subscribed or received. *)
Inductive wstep : EventBus * gmap Z Z -> EventBus * gmap Z Z -> Prop :=
  | wstep_publish eb seen path op actor now :
      wstep (eb, seen) (Publish eb path op actor now, seen)
  | wstep_subscribe eb seen :
      wstep (eb, seen) (fst (Subscribe eb), <[snd (Subscribe eb) := seq eb]> seen)
  | wstep_unsubscribe eb seen id : wstep (eb, seen) (Unsubscribe eb id, seen)
  | wstep_receive eb seen id eb' : Receive eb id = Some eb' ->
      wstep (eb, seen) (eb', <[id := seq eb]> seen).

(** A listener without a buffered signal has seen everything. *)
Definition awake (st : EventBus * gmap Z Z) : Prop :=
  forall id, listeners (fst st) !! id = Some false -> snd st !! id = Some (seq (fst st)).

Lemma wstep_awake st st' : wstep st st' -> awake st -> awake st'.
Proof.
  intros [eb seen path op actor now|eb seen|eb seen id|eb seen id eb' E] Ha k Hk; simpl in *.
  - rewrite lookup_fmap in Hk. destruct (listeners eb !! k); done.
  - apply lookup_insert_Some in Hk as [[<- _]|[Hne Hk]].
    + by rewrite lookup_insert_eq.
    + rewrite lookup_insert_ne by done. by apply Ha.
  - apply lookup_delete_Some in Hk as [_ Hk]. by apply Ha.
  - unfold Receive in E. destruct (listeners eb !! id) as [[]|] eqn:El; simplify_eq. simpl in *.
    apply lookup_insert_Some in Hk as [[<- _]|[Hne Hk]].
    + by rewrite lookup_insert_eq.
    + rewrite lookup_insert_ne by done. by apply Ha.
Qed.

(** No wake-up is lost although a full signal channel drops the send: in every
    reachable state a subscriber whose channel is empty, so that it would block,
    has already been woken at, or subscribed at, the current sequence number. *)
Theorem no_lost_wakeup eb seen id :
  rtc wstep (NewEventBus, ∅) (eb, seen) ->
  listeners eb !! id = Some false -> seen !! id = Some (SeqOf eb).
Proof.
  intros Hr. assert (awake (eb, seen)) as Ha; [|by apply (Ha id)].
  remember (NewEventBus, ∅) as st eqn:E. assert (awake st) as H0.
  { subst st. intros k Hk. simpl in Hk. by rewrite lookup_empty in Hk. }
  clear E. induction Hr; eauto using wstep_awake.
Qed.

Lemma no_lost_wakeup_witness :
  let eb := Publish (fst (Subscribe NewEventBus)) "/a" "write" "" 1 in
  exists eb', Receive eb 0 = Some eb' /\ listeners eb' !! 0 = Some false
    /\ (<[0 := 1]> (<[0 := 0]> ∅) : gmap Z Z) !! 0 = Some (SeqOf eb').
Proof.
  intros eb. destruct (Receive eb 0) as [eb'|] eqn:E; [|discriminate E]. exists eb'.
  split; [reflexivity|].
  assert (listeners eb' !! 0 = Some false) as Hl by (vm_compute in E; injection E as <-; reflexivity).
  split; [exact Hl|]. refine (no_lost_wakeup eb' (<[0 := 1]> (<[0 := 0]> ∅)) 0 _ Hl).
  eapply rtc_l; [apply wstep_subscribe|].
  eapply rtc_l; [apply (wstep_publish _ _ "/a" "write" "" 1)|].
  apply rtc_once. exact (wstep_receive eb (<[0 := 0]> ∅) 0 eb' E).
Defined.

End EventBus.
