(* ===== verification/ReadCache.v ===== *)
(** * The read cache

    Model of [src/pkg/fuse/read.go]: the LRU and TTL cache of small file contents.
    The list [order] holds pointers to the entries of [items]; there is one entry
    per path, so an element of the list is the entry's path.  [time.Now] is the
    argument [now], durations and instants are integers (nanoseconds), and the
    order in which Go ranges over [items] is an argument of [InvalidatePrefix]. *)

From S2P Require Import Prelude GoStrings.

Import GoStr.

Module ReadCache.

Definition defaultReadCacheMaxSize : Z := Z.shiftl 128 20.
Definition defaultReadCacheTTL : Z := 30 * 1000000000.
Definition defaultReadCacheMaxFileSize : Z := Z.shiftl 1 20.

Record cacheEntry := {
  path : string;
  data : bytes;
  revision : Z;
  expires : Z
}.

Record ReadCache := {
  items : gmap string cacheEntry;
  order : list string;
  size : Z;
  maxSize : Z;
  maxFile : Z;
  ttl : Z
}.

Definition NewReadCacheWithMaxFileSize (maxSz ttl0 maxFileSize : Z) : ReadCache :=
  {| items := ∅; order := []; size := 0;
     maxSize := if maxSz <=? 0 then defaultReadCacheMaxSize else maxSz;
     maxFile := if maxFileSize <=? 0 then defaultReadCacheMaxFileSize else maxFileSize;
     ttl := if ttl0 <=? 0 then defaultReadCacheTTL else ttl0 |}.

Definition NewReadCache (maxSz ttl0 : Z) : ReadCache :=
  NewReadCacheWithMaxFileSize maxSz ttl0 0.

Definition MaxFileSize (rc : ReadCache) : Z :=
  if maxFile rc <=? 0 then defaultReadCacheMaxFileSize else maxFile rc.

(** [rc.order.Remove(e)] and [rc.order.MoveToFront(e)] *)
Definition listRemove (p : string) (l : list string) : list string :=
  filter (fun q => q <> p) l.
Definition moveToFront (p : string) (l : list string) : list string := p :: listRemove p l.

Definition with_order (l : list string) (rc : ReadCache) : ReadCache :=
  {| items := items rc; order := l; size := size rc; maxSize := maxSize rc;
     maxFile := maxFile rc; ttl := ttl rc |}.

Definition evict (rc : ReadCache) (entry : cacheEntry) : ReadCache :=
  {| items := delete (path entry) (items rc); order := listRemove (path entry) (order rc);
     size := size rc - zlen (data entry); maxSize := maxSize rc; maxFile := maxFile rc;
     ttl := ttl rc |}.

Definition Get (rc : ReadCache) (p : string) (currentRevision now : Z)
    : ReadCache * option bytes :=
  match items rc !! p with
  | None => (rc, None)
  | Some entry =>
      if expires entry <? now then (evict rc entry, None)
      else if (0 <? currentRevision) && negb (currentRevision =? revision entry)
      then (evict rc entry, None)
      else (with_order (moveToFront (path entry) (order rc)) rc, Some (data entry))
  end.

(** The eviction loop of [put]: from the back of the list until within budget.
    [None] is a list element without an entry. *)
Fixpoint evictLoop (fuel : nat) (rc : ReadCache) : option ReadCache :=
  if (maxSize rc <? size rc) && (0 <? zlen (order rc)) then
    match fuel, last (order rc) with
    | S fuel, Some tail =>
        match items rc !! tail with
        | Some entry => evictLoop fuel (evict rc entry)
        | None => None
        end
    | _, _ => None
    end
  else Some rc.

(** The entry goes in, before the budget is enforced. *)
Definition insertEntry (rc : ReadCache) (p : string) (stored : bytes) (rev now : Z) : ReadCache :=
  let entry := {| path := p; data := stored; revision := rev; expires := now + ttl rc |} in
  match items rc !! p with
  | Some existing =>
      {| items := <[p := entry]> (items rc); order := moveToFront p (order rc);
         size := size rc - zlen (data existing) + zlen stored; maxSize := maxSize rc;
         maxFile := maxFile rc; ttl := ttl rc |}
  | None =>
      {| items := <[p := entry]> (items rc); order := p :: order rc;
         size := size rc + zlen stored; maxSize := maxSize rc; maxFile := maxFile rc;
         ttl := ttl rc |}
  end.

Definition put (rc : ReadCache) (p : string) (d : bytes) (rev now : Z) (clone : bool)
    : option ReadCache :=
  if MaxFileSize rc <? zlen d then Some rc
  else
    let stored := if clone then gcopy (gmake (zlen d)) 0 d else d in
    let rc := insertEntry rc p stored rev now in
    evictLoop (length (order rc)) rc.

Definition Put (rc : ReadCache) (p : string) (d : bytes) (rev now : Z) : option ReadCache :=
  put rc p d rev now true.
Definition PutOwned (rc : ReadCache) (p : string) (d : bytes) (rev now : Z) : option ReadCache :=
  put rc p d rev now false.

Definition Invalidate (rc : ReadCache) (p : string) : ReadCache :=
  match items rc !! p with
  | Some entry => evict rc entry
  | None => rc
  end.

Definition InvalidatePrefix (rangeOrder : gmap string cacheEntry -> list (string * cacheEntry))
    (rc : ReadCache) (prefix : string) : ReadCache :=
  foldl (fun rc kv => if HasPrefix (fst kv) prefix then evict rc (snd kv) else rc)
    rc (rangeOrder (items rc)).

Definition InvalidateAll (rc : ReadCache) : ReadCache :=
  {| items := ∅; order := []; size := 0; maxSize := maxSize rc; maxFile := maxFile rc;
     ttl := ttl rc |}.

(** ** The invariant *)

Record ok (rc : ReadCache) : Prop := {
  ok_key : forall p e, items rc !! p = Some e -> path e = p;
  ok_nodup : NoDup (order rc);
  ok_dom : forall p, p ∈ order rc <-> is_Some (items rc !! p);
  ok_size : size rc = map_sum (fun e => zlen (data e)) (items rc)
}.

(** The bytes held by the entries of a list of paths. *)
Definition weight (m : gmap string cacheEntry) (l : list string) : Z :=
  foldr (fun p acc => default 0 ((fun e => zlen (data e)) <$> m !! p) + acc) 0 l.

Lemma weight_app m l1 l2 : weight m (l1 ++ l2) = weight m l1 + weight m l2.
Proof. induction l1 as [|p l1 IH]; simpl; [lia|]. rewrite IH. lia. Qed.

Lemma weight_nonneg m l : 0 <= weight m l.
Proof.
  induction l as [|p l IH]; simpl; [lia|]. destruct (m !! p) as [e|]; simpl; [|lia].
  pose proof (zlen_nonneg (data e)). lia.
Qed.

Lemma weight_delete m l p : p ∉ l -> weight (delete p m) l = weight m l.
Proof.
  induction l as [|q l IH]; intros Hp; simpl; [done|].
  rewrite lookup_delete_ne by set_solver. rewrite IH by set_solver. done.
Qed.

(** The weight of the whole list is the size. *)
Lemma weight_map_sum m : forall l, NoDup l -> (forall p, p ∈ l <-> is_Some (m !! p)) ->
  weight m l = map_sum (fun e => zlen (data e)) m.
Proof.
  intros l. revert m. induction l as [|p l IH]; intros m Hnd Hd; simpl.
  - assert (m = ∅) as ->; [|by rewrite map_sum_empty].
    apply map_empty. intros p. apply eq_None_not_Some. intros Hs. apply Hd in Hs. set_solver.
  - apply NoDup_cons in Hnd as [Hni Hnd].
    destruct (proj1 (Hd p) ltac:(set_solver)) as [e He]. rewrite He. simpl.
    rewrite <- (weight_delete m l p Hni), (IH (delete p m) Hnd).
    + rewrite (map_sum_delete _ m p e) by done. lia.
    + intros q. destruct (decide (q = p)) as [->|].
      * rewrite lookup_delete_eq. split; [done|]. by intros [].
      * rewrite lookup_delete_ne, <- Hd by done. set_solver.
Qed.

Lemma ok_weight rc : ok rc -> size rc = weight (items rc) (order rc).
Proof. intros [_ Hn Hd Hs]. rewrite Hs. symmetry. by apply weight_map_sum. Qed.

Lemma listRemove_elem p q l : q ∈ listRemove p l <-> q ∈ l /\ q <> p.
Proof. unfold listRemove. rewrite list_elem_of_filter. tauto. Qed.

Lemma listRemove_notin p l : p ∉ l -> listRemove p l = l.
Proof.
  intros Hp. unfold listRemove. induction l as [|q l IH]; [done|].
  rewrite filter_cons_True by set_solver. f_equal. apply IH. set_solver.
Qed.

Lemma ok_evict rc e : ok rc -> items rc !! path e = Some e -> ok (evict rc e).
Proof.
  intros [Hk Hn Hd Hs] He. split; simpl.
  - intros p e' Hp. apply lookup_delete_Some in Hp as [_ Hp]. by apply Hk.
  - by apply NoDup_filter.
  - intros p. rewrite listRemove_elem, Hd. destruct (decide (p = path e)) as [->|].
    + rewrite lookup_delete_eq. split; [tauto|]. by intros [].
    + rewrite lookup_delete_ne by done. tauto.
  - rewrite Hs, (map_sum_delete _ _ _ e) by done. lia.
Qed.

Lemma ok_insert rc p stored rev now : ok rc -> ok (insertEntry rc p stored rev now).
Proof.
  intros [Hk Hn Hd Hs]. unfold insertEntry.
  set (e := {| path := p; data := stored; revision := rev; expires := now + ttl rc |}).
  assert (forall l : list string, (forall q, q ∈ l <-> q = p \/ q ∈ order rc) ->
    forall q, q ∈ l <-> is_Some (<[p := e]> (items rc) !! q)) as Hdom.
  { intros l Hl q. rewrite Hl, Hd. destruct (decide (q = p)) as [->|].
    - rewrite lookup_insert_eq. split; [done|by left].
    - rewrite lookup_insert_ne by done. naive_solver. }
  assert (forall q e', <[p := e]> (items rc) !! q = Some e' -> path e' = q) as Hkey.
  { intros q e' Hq. apply lookup_insert_Some in Hq as [[<- <-]|[_ Hq]]; [done|by apply Hk]. }
  destruct (items rc !! p) as [e0|] eqn:E; split; simpl; try done.
  - apply NoDup_cons. split; [rewrite listRemove_elem; tauto|by apply NoDup_filter].
  - apply Hdom. intros q. unfold moveToFront. rewrite elem_of_cons, listRemove_elem.
    destruct (decide (q = p)) as [->|]; [tauto|]. tauto.
  - rewrite map_sum_insert, E, Hs. simpl. lia.
  - apply NoDup_cons. split; [|done]. rewrite Hd, E. by intros [].
  - apply Hdom. intros q. by rewrite elem_of_cons.
  - rewrite map_sum_insert_new, Hs by done. simpl. lia.
Qed.

(** ** Eviction *)

Definition sameLimits (rc rc' : ReadCache) : Prop :=
  maxSize rc' = maxSize rc /\ maxFile rc' = maxFile rc /\ ttl rc' = ttl rc.

(** What the loop leaves: a prefix of the recency list that fits, and is as long as
    possible. *)
Record evicted (rc rc' : ReadCache) (k : nat) : Prop := {
  ev_ok : ok rc';
  ev_limits : sameLimits rc rc';
  ev_order : order rc' = take k (order rc);
  ev_len : (k <= length (order rc))%nat;
  ev_fits : size rc' <= maxSize rc \/ order rc' = [];
  ev_max : (k < length (order rc))%nat -> maxSize rc < weight (items rc) (take (S k) (order rc));
  ev_items : forall p, p ∈ order rc' -> items rc' !! p = items rc !! p
}.

Lemma evicted_stop rc :
  ok rc -> (maxSize rc <? size rc) && (0 <? zlen (order rc)) = false ->
  evicted rc rc (length (order rc)).
Proof.
  intros Hok Hc. split; try done; [by rewrite firstn_all| |lia].
  apply andb_false_iff in Hc as [Hc|Hc]; bool_prop; [by left|right].
  apply zlen_0_inv. pose proof (zlen_nonneg (order rc)). lia.
Qed.

(** Evicting the last element. *)
Lemma evict_last rc l t e :
  ok rc -> order rc = l ++ [t] -> items rc !! t = Some e ->
  ok (evict rc e) /\ path e = t /\ t ∉ l /\ order (evict rc e) = l.
Proof.
  intros Hok Ho He. pose proof (ok_key _ Hok _ _ He) as Hp.
  pose proof (ok_nodup _ Hok) as Hnd. rewrite Ho in Hnd.
  apply NoDup_app in Hnd as (_ & Hd & _).
  assert (t ∉ l) as Hni by (intros Hin; apply (Hd t Hin); set_solver).
  split_and!; [apply ok_evict; [done|by rewrite Hp]|done|done|].
  simpl. rewrite Hp, Ho. unfold listRemove. rewrite filter_app.
  fold (listRemove t l) (listRemove t [t]). rewrite listRemove_notin by done.
  unfold listRemove. rewrite filter_cons_False by tauto. by rewrite filter_nil, app_nil_r.
Qed.

Lemma evictLoop_spec fuel : forall rc,
  ok rc -> (length (order rc) <= fuel)%nat ->
  exists rc' k, evictLoop fuel rc = Some rc' /\ evicted rc rc' k.
Proof.
  induction fuel as [|fuel IH]; intros rc Hok Hf; simpl;
    (destruct ((maxSize rc <? size rc) && (0 <? zlen (order rc))) eqn:Ec;
     [|exists rc, (length (order rc)); split; [done|by apply evicted_stop]]).
  { bool_prop. unfold zlen in *. lia. }
  bool_prop. destruct (order rc) as [|t l _] eqn:Eo using rev_ind; [done|].
  rewrite last_snoc.
  destruct (proj1 (ok_dom _ Hok t)) as [e He]; [rewrite Eo; set_solver|]. rewrite He.
  destruct (evict_last rc l t e Hok Eo He) as (Hok1 & Hp & Hni & Ho1).
  destruct (IH (evict rc e) Hok1) as (rc' & k & E & [H1 H2 H3 H4 H5 H6 H7]).
  { rewrite Ho1. rewrite length_app in Hf. simpl in Hf. lia. }
  exists rc', k. split; [done|]. rewrite Ho1 in *. simpl in *. split; rewrite ?Eo, ?length_app; simpl.
  - done.
  - done.
  - rewrite take_app_le by lia. done.
  - lia.
  - done.
  - intros Hk. destruct (decide (k < length l)%nat).
    + rewrite take_app_le by lia. rewrite Hp in H6.
      rewrite <- (weight_delete _ _ t); [by apply H6|]. intros Hin. apply Hni.
      eapply elem_of_take in Hin as (? & ? & _). by eapply list_elem_of_lookup_2.
    + rewrite firstn_all2 by (rewrite length_app; simpl; lia).
      rewrite <- Eo, <- ok_weight by done. lia.
  - intros p Hin. rewrite H7 by done. rewrite Hp, lookup_delete_ne; [done|].
    intros <-. apply Hni. rewrite H3 in Hin.
    eapply elem_of_take in Hin as (? & ? & _). by eapply list_elem_of_lookup_2.
Qed.

(** ** Puts *)

Lemma put_spec rc p d rev now clone :
  ok rc -> zlen d <= MaxFileSize rc ->
  let rc1 := insertEntry rc p d rev now in
  exists rc' k, put rc p d rev now clone = Some rc' /\ evicted rc1 rc' k.
Proof.
  intros Hok Hd rc1. unfold put. rewrite (proj2 (Z.ltb_ge _ _)) by lia.
  assert ((if clone then gcopy (gmake (zlen d)) 0 d else d) = d) as ->.
  { destruct clone; [apply gcopy_clone|done]. }
  apply evictLoop_spec; [by apply ok_insert|done].
Qed.

Lemma insertEntry_shape rc p d rev now :
  ok rc ->
  let rc1 := insertEntry rc p d rev now in
  order rc1 = p :: listRemove p (order rc)
  /\ items rc1 = <[p := {| path := p; data := d; revision := rev; expires := now + ttl rc |}]> (items rc)
  /\ sameLimits rc rc1.
Proof.
  intros Hok. unfold insertEntry. destruct (items rc !! p) as [e|] eqn:E; [done|].
  split_and!; [|done|done]. simpl. rewrite listRemove_notin; [done|].
  rewrite (ok_dom _ Hok), E. by intros [].
Qed.

(** The fresh entry survives its own eviction pass. *)
Lemma put_keeps rc p d rev now rc' k :
  ok rc -> zlen d <= maxSize rc -> evicted (insertEntry rc p d rev now) rc' k ->
  items rc' !! p = Some {| path := p; data := d; revision := rev; expires := now + ttl rc |}.
Proof.
  intros Hok Hd [_ _ Ho Hl _ Hmax Hi].
  destruct (insertEntry_shape rc p d rev now Hok) as (Eo & Ei & (Em & _)).
  rewrite Eo, Ei, Em in *. destruct k as [|k].
  - simpl in Hmax. rewrite lookup_insert_eq in Hmax. simpl in Hmax.
    specialize (Hmax ltac:(lia)). lia.
  - rewrite Hi; [apply lookup_insert_eq|]. rewrite Ho. simpl. set_solver.
Qed.

(** ** Invalidation *)

Lemma evict_size rc e : size (evict rc e) <= size rc.
Proof. simpl. pose proof (zlen_nonneg (data e)). lia. Qed.

Lemma invalidate_fold prefix l : forall rc,
  ok rc -> NoDup l.*1 -> (forall k e, (k, e) ∈ l -> items rc !! k = Some e) ->
  let rc' := foldl (fun rc kv => if HasPrefix (fst kv) prefix then evict rc (snd kv) else rc) rc l in
  ok rc' /\ sameLimits rc rc' /\ size rc' <= size rc
  /\ forall q, items rc' !! q =
       if decide (q ∈ l.*1 /\ HasPrefix q prefix = true) then None else items rc !! q.
Proof.
  induction l as [|[k e] l IH]; intros rc Hok Hnd Hl; cbn [foldl fst snd].
  { by split_and!. }
  rewrite fmap_cons in Hnd. apply NoDup_cons in Hnd as [Hni Hnd]. cbn [fst] in Hni.
  pose proof (Hl k e ltac:(set_solver)) as Hk.
  destruct (HasPrefix k prefix) eqn:Ek.
  - pose proof (ok_key _ Hok _ _ Hk) as Hp.
    destruct (IH (evict rc e)) as (H1 & H2 & H3 & H4).
    + apply ok_evict; [done|by rewrite Hp].
    + done.
    + intros k' e' Hin. simpl. rewrite Hp, lookup_delete_ne; [apply Hl; set_solver|].
      intros <-. apply Hni, list_elem_of_fmap. by exists (k, e').
    + pose proof (evict_size rc e). split_and!; [done|done|lia|]. intros q. rewrite H4. simpl.
      rewrite Hp. destruct (decide (q = k)) as [->|Hne].
      * rewrite lookup_delete_eq, decide_False by tauto. by rewrite decide_True by set_solver.
      * rewrite lookup_delete_ne by done. apply decide_ext. set_solver.
  - destruct (IH rc Hok Hnd) as (H1 & H2 & H3 & H4); [intros; apply Hl; set_solver|].
    split_and!; try done. intros q. rewrite H4. apply decide_ext.
    destruct (decide (q = k)) as [->|]; [rewrite Ek; set_solver|set_solver].
Qed.

Lemma InvalidatePrefix_spec rangeOrder rc prefix :
  iterates rangeOrder -> ok rc ->
  let rc' := InvalidatePrefix rangeOrder rc prefix in
  ok rc' /\ sameLimits rc rc' /\ size rc' <= size rc
  /\ forall q, items rc' !! q = if HasPrefix q prefix then None else items rc !! q.
Proof.
  intros Ho Hok. destruct (invalidate_fold prefix (rangeOrder (items rc)) rc) as (H1 & H2 & H3 & H4).
  - done.
  - rewrite (Ho (items rc)). apply NoDup_fst_map_to_list.
  - intros k e Hin. by apply (iterates_elem rangeOrder) in Hin.
  - split_and!; try done. intros q. rewrite H4. destruct (HasPrefix q prefix) eqn:E.
    + destruct (items rc !! q) as [e|] eqn:Eq; [|by case_decide].
      rewrite decide_True; [done|]. split; [|done]. apply list_elem_of_fmap.
      exists (q, e). split; [done|]. by apply iterates_elem.
    + rewrite decide_False; [done|]. by intros [_ ?].
Qed.

(** ** Every operation, against the puts that were admitted *)

(** The ghost state: the last admitted put of each path that was not invalidated. *)
Abbreviation puts := (gmap string (bytes * Z * Z)).

Inductive step : ReadCache * puts -> ReadCache * puts -> Prop :=
  | step_put rc last p d rev now clone rc' : zlen d <= MaxFileSize rc ->
      put rc p d rev now clone = Some rc' ->
      step (rc, last) (rc', <[p := (d, rev, now + ttl rc)]> last)
  | step_put_large rc last p d rev now clone rc' : MaxFileSize rc < zlen d ->
      put rc p d rev now clone = Some rc' -> step (rc, last) (rc', last)
  | step_get rc last p cur now : step (rc, last) (fst (Get rc p cur now), last)
  | step_invalidate rc last p : step (rc, last) (Invalidate rc p, delete p last)
  | step_invalidate_prefix rangeOrder rc last prefix : iterates rangeOrder ->
      step (rc, last) (InvalidatePrefix rangeOrder rc prefix,
                       filter (fun kv => HasPrefix (fst kv) prefix = false) last)
  | step_invalidate_all rc last : step (rc, last) (InvalidateAll rc, ∅).

(** The cache is well formed, within budget, and holds only admitted puts. *)
Record coherent (st : ReadCache * puts) : Prop := {
  ch_ok : ok (fst st);
  ch_budget : 0 <= maxSize (fst st) -> size (fst st) <= maxSize (fst st);
  ch_last : forall p e, items (fst st) !! p = Some e ->
    snd st !! p = Some (data e, revision e, expires e)
}.

Lemma coherent_evict rc last e :
  coherent (rc, last) -> items rc !! path e = Some e -> coherent (evict rc e, last).
Proof.
  intros [Hok Hb Hl] He. simpl in *. split; simpl.
  - by apply ok_evict.
  - intros H0. specialize (Hb H0). pose proof (zlen_nonneg (data e)). lia.
  - intros p e' Hp. apply lookup_delete_Some in Hp as [_ Hp]. by apply Hl.
Qed.

Lemma coherent_put rc last p d rev now clone rc' :
  coherent (rc, last) -> zlen d <= MaxFileSize rc -> put rc p d rev now clone = Some rc' ->
  coherent (rc', <[p := (d, rev, now + ttl rc)]> last).
Proof.
  intros [Hok Hb Hl] Hd E. simpl in *.
  destruct (put_spec rc p d rev now clone Hok Hd) as (rc1 & k & E1 & [H1 H2 H3 _ H4 _ H5]).
  rewrite E in E1. injection E1 as <-.
  destruct (insertEntry_shape rc p d rev now Hok) as (_ & Ei & (Em & _)).
  split; simpl; [done| |].
  - destruct H2 as (-> & _). rewrite Em in *. intros H0. destruct H4 as [|Hnil]; [done|].
    rewrite (ok_weight _ H1), Hnil. done.
  - intros q e Hq. assert (q ∈ order rc') as Hin by (apply (ok_dom _ H1); by exists e).
    rewrite (H5 q Hin), Ei in Hq. apply lookup_insert_Some in Hq as [[<- <-]|[Hne Hq]].
    + by rewrite lookup_insert_eq.
    + rewrite lookup_insert_ne by done. by apply Hl.
Qed.

Lemma coherent_get rc last p cur now :
  coherent (rc, last) -> coherent (fst (Get rc p cur now), last).
Proof.
  intros Hc. unfold Get. destruct (items rc !! p) as [e|] eqn:E; [|done].
  pose proof (ok_key _ (ch_ok _ Hc) _ _ E) as Hp.
  assert (coherent (evict rc e, last)) by (apply coherent_evict; [done|by rewrite Hp]).
  repeat case_if; try done. simpl. rewrite Hp. destruct Hc as [[Hk Hn Hd Hs] Hb Hl].
  split; simpl; [|done|done]. split; simpl; [done| | |done].
  - apply NoDup_cons. split; [rewrite listRemove_elem; tauto|by apply NoDup_filter].
  - intros q. unfold moveToFront. rewrite elem_of_cons, listRemove_elem, Hd.
    destruct (decide (q = p)) as [->|]; [|tauto]. rewrite E. split; [done|by left].
Qed.

Lemma step_coherent st st' : step st st' -> coherent st -> coherent st'.
Proof.
  intros Hst Hc. destruct Hst as [rc last p d rev now clone rc' Hd E|rc last p d rev now clone rc' Hd E
    |rc last p cur now|rc last p|rangeOrder rc last prefix Ho|rc last].
  - by eapply coherent_put.
  - unfold put in E. rewrite (proj2 (Z.ltb_lt _ _)) in E by done. by simplify_eq.
  - by apply coherent_get.
  - unfold Invalidate. destruct (items rc !! p) as [e|] eqn:E.
    + pose proof (ok_key _ (ch_ok _ Hc) _ _ E) as Hp.
      destruct (coherent_evict rc last e Hc ltac:(by rewrite Hp)) as [H1 H2 H3].
      split; [done..|]. simpl in *. intros q e' Hq. pose proof Hq as Hq'.
      rewrite Hp in Hq'. apply lookup_delete_Some in Hq' as [Hne _].
      rewrite lookup_delete_ne by done. by apply H3.
    + destruct Hc as [H1 H2 H3]. split; [done..|]. simpl in *. intros q e Hq.
      rewrite lookup_delete_ne; [by apply H3|]. intros <-. congruence.
  - destruct Hc as [H1 H2 H3]. simpl in *.
    destruct (InvalidatePrefix_spec rangeOrder rc prefix Ho H1) as (H4 & (H5 & _) & H6 & H7).
    split; simpl; [done|rewrite H5; intros H0; specialize (H2 H0); lia|].
    intros q e Hq. rewrite H7 in Hq. destruct (HasPrefix q prefix) eqn:Eq; [done|].
    apply map_lookup_filter_Some. split; [by apply H3|done].
  - split; simpl; [|done|]. 2: { intros p e Hp. by rewrite lookup_empty in Hp. }
    split; simpl; [|apply NoDup_nil_2| |done].
    + intros p e Hp. by rewrite lookup_empty in Hp.
    + intros p. rewrite lookup_empty. split; [set_solver|by intros []].
Qed.

Lemma new_coherent maxSz ttl0 maxFileSize :
  coherent (NewReadCacheWithMaxFileSize maxSz ttl0 maxFileSize, ∅).
Proof.
  split; simpl; [|done|]. 2: { intros p e Hp. by rewrite lookup_empty in Hp. }
  split; simpl; [|apply NoDup_nil_2| |done].
  - intros p e Hp. by rewrite lookup_empty in Hp.
  - intros p. rewrite lookup_empty. split; [set_solver|by intros []].
Qed.

Lemma steps_coherent st st' : rtc step st st' -> coherent st -> coherent st'.
Proof. intros Hr. induction Hr; eauto using step_coherent. Qed.

(** ** Properties *)

(** C37: the cache never serves anything but the last admitted put of a path: after
    any sequence of operations a hit returns that put's bytes, within its TTL, with
    the revision the caller asked for, and not across an invalidation of the path,
    of a prefix of it, or of everything. *)
Theorem cache_hit_is_last_put maxSz ttl0 maxFileSize rc (last : puts) p cur now d :
  rtc step (NewReadCacheWithMaxFileSize maxSz ttl0 maxFileSize, ∅) (rc, last) ->
  snd (Get rc p cur now) = Some d ->
  exists rev exp, last !! p = Some (d, rev, exp) /\ now <= exp /\ (cur <= 0 \/ cur = rev).
Proof.
  intros Hr Hg. apply steps_coherent in Hr; [|apply new_coherent].
  destruct Hr as [Hok _ Hl]. simpl in *. unfold Get in Hg.
  destruct (items rc !! p) as [e|] eqn:E; [|done].
  destruct (expires e <? now) eqn:E1; [done|]. bool_prop.
  destruct (_ && _) eqn:E2; [done|]. simpl in Hg. injection Hg as <-.
  exists (revision e), (expires e). split_and!; [by apply Hl|done|].
  apply andb_false_iff in E2 as [E2|E2]; bool_prop; [left; lia|by right].
Qed.

(** A cache of ten bytes with two entries. *)
Definition demoCache : ReadCache :=
  {| items := <["/a" := {| path := "/a"; data := [x61; x61; x61; x61]; revision := 3; expires := 50 |}]>
       {[ "/b" := {| path := "/b"; data := [x62; x62; x62]; revision := 1; expires := 60 |} ]};
     order := ["/b"; "/a"]; size := 7; maxSize := 10; maxFile := 8; ttl := 40 |}.

Lemma cache_hit_is_last_put_witness :
  exists rc, put (NewReadCacheWithMaxFileSize 10 40 8) "/a" [x61; x61] 3 5 true = Some rc
    /\ snd (Get rc "/a" 3 45) = Some [x61; x61] /\ snd (Get rc "/a" 4 45) = None
    /\ exists rev exp, (<["/a" := ([x61; x61], 3, 45)]> ∅ : puts) !! "/a" = Some ([x61; x61], rev, exp)
         /\ 45 <= exp /\ (3 <= 0 \/ 3 = rev).
Proof.
  destruct (put (NewReadCacheWithMaxFileSize 10 40 8) "/a" [x61; x61] 3 5 true) as [rc|] eqn:E;
    [|discriminate E].
  exists rc. split; [reflexivity|].
  assert (snd (Get rc "/a" 3 45) = Some [x61; x61] /\ snd (Get rc "/a" 4 45) = None) as [G1 G2]
    by (vm_compute in E; injection E as <-; vm_compute; split; reflexivity).
  split; [exact G1|]. split; [exact G2|].
  refine (cache_hit_is_last_put 10 40 8 rc (<["/a" := ([x61; x61], 3, 45)]> ∅) "/a" 3 45 _ _ G1).
  apply rtc_once. refine (step_put (NewReadCacheWithMaxFileSize 10 40 8) ∅ "/a" [x61; x61] 3 5 true rc _ E).
  vm_compute. congruence.
Defined.

(** [Put] makes the file readable and keeps within budget: an admitted file that
    fits the cache is found by [Get] until its TTL runs out, whatever had to be
    evicted for it. *)
Theorem put_then_get rc p d rev now cur t :
  ok rc -> zlen d <= MaxFileSize rc -> zlen d <= maxSize rc ->
  t <= now + ttl rc -> (cur <= 0 \/ cur = rev) ->
  exists rc', Put rc p d rev now = Some rc' /\ ok rc' /\ size rc' <= maxSize rc
    /\ snd (Get rc' p cur t) = Some d.
Proof.
  intros Hok Hd Hm Ht Hc. destruct (put_spec rc p d rev now true Hok Hd) as (rc' & k & E & Hev).
  pose proof (put_keeps rc p d rev now rc' k Hok Hm Hev) as Hi.
  destruct (insertEntry_shape rc p d rev now Hok) as (_ & _ & (Em & _)).
  destruct Hev as [H1 _ _ _ H4 _ _]. pose proof (zlen_nonneg d).
  exists rc'. split_and!; [done|done| |].
  - rewrite <- Em. destruct H4 as [|Hnil]; [done|]. rewrite (ok_weight _ H1), Hnil, Em. simpl. lia.
  - unfold Get. rewrite Hi. simpl. rewrite (proj2 (Z.ltb_ge _ _)) by lia.
    destruct Hc as [Hc| ->].
    + by rewrite (proj2 (Z.ltb_ge 0 cur)) by lia.
    + rewrite Z.eqb_refl, andb_false_r. done.
Qed.

Lemma demoCache_ok : ok demoCache.
Proof.
  split.
  - intros p e Hp. simpl in Hp. apply lookup_insert_Some in Hp as [[<- <-]|[_ Hp]]; [done|].
    apply lookup_singleton_Some in Hp as [<- <-]. done.
  - apply (bool_decide_unpack _). vm_compute. done.
  - intros p. simpl. rewrite lookup_insert_is_Some, lookup_singleton_is_Some.
    destruct (decide (p = "/a")) as [->|]; [set_solver|]. set_solver.
  - vm_compute. reflexivity.
Qed.

Lemma put_then_get_witness :
  exists rc', Put demoCache "/c" [x63; x63; x63; x63; x63] 1 10 = Some rc' /\ ok rc'
    /\ size rc' <= 10 /\ snd (Get rc' "/c" 1 50) = Some [x63; x63; x63; x63; x63].
Proof.
  apply (put_then_get demoCache "/c" [x63; x63; x63; x63; x63] 1 10 1 50 demoCache_ok);
    [vm_compute; congruence|vm_compute; congruence|vm_compute; congruence|right; reflexivity].
Defined.

(** Eviction is exactly LRU: after a put the recency list is the longest prefix
    of "this path, then the others in their order of use" whose contents fit the
    budget, the kept entries are unchanged and everything behind is gone. *)
Theorem put_evicts_lru rc p d rev now :
  ok rc -> zlen d <= MaxFileSize rc ->
  let recency := p :: listRemove p (order rc) in
  let entries := <[p := {| path := p; data := d; revision := rev; expires := now + ttl rc |}]> (items rc) in
  exists rc' k, Put rc p d rev now = Some rc' /\ order rc' = take k recency
    /\ (weight entries (take k recency) <= maxSize rc \/ order rc' = [])
    /\ ((k < length recency)%nat -> maxSize rc < weight entries (take (S k) recency))
    /\ (forall q, items rc' !! q = if decide (q ∈ order rc') then entries !! q else None).
Proof.
  intros Hok Hd recency entries. destruct (put_spec rc p d rev now true Hok Hd) as (rc' & k & E & Hev).
  destruct (insertEntry_shape rc p d rev now Hok) as (Eo & Ei & (Em & _)).
  destruct Hev as [H1 _ H3 _ H4 H5 H6]. rewrite Eo, Ei, Em in *.
  assert (forall q, items rc' !! q = if decide (q ∈ order rc') then entries !! q else None) as Hit.
  { intros q. destruct (decide (q ∈ order rc')) as [Hin|Hout]; [by apply H6|].
    rewrite (ok_dom _ H1) in Hout. by apply eq_None_not_Some. }
  exists rc', k. split_and!; try done. destruct H4 as [H4|]; [left|by right].
  rewrite (ok_weight _ H1), H3 in H4. etrans; [|exact H4]. fold recency in H3 |- *. apply Z.eq_le_incl.
  assert (forall l, (forall q, q ∈ l -> items rc' !! q = entries !! q) ->
    weight entries l = weight (items rc') l) as Hw.
  { induction l as [|q l IH]; intros Hl; simpl; [done|].
    rewrite Hl by set_solver. f_equal. apply IH. set_solver. }
  apply Hw. intros q Hq. apply H6. by rewrite H3.
Qed.

Lemma put_evicts_lru_witness :
  exists rc', Put demoCache "/c" [x63; x63; x63; x63; x63] 1 10 = Some rc'
    /\ order rc' = ["/c"; "/b"] /\ items rc' !! "/a" = None.
Proof.
  destruct (put_evicts_lru demoCache "/c" [x63; x63; x63; x63; x63] 1 10 demoCache_ok) as
    (rc' & k & E & O & _ & _ & I); [vm_compute; congruence|].
  exists rc'. split; [exact E|].
  assert (order rc' = ["/c"; "/b"]) as O2.
  { assert (order <$> Put demoCache "/c" [x63; x63; x63; x63; x63] 1 10 = Some ["/c"; "/b"]) as X
      by (vm_compute; reflexivity). rewrite E in X. simpl in X. congruence. }
  split; [exact O2|]. rewrite I, O2. vm_compute. reflexivity.
Defined.

End ReadCache.
