(* ===== verification/DirCache.v ===== *)
(** * The namespace cache

    Model of [src/pkg/fuse/dir.go]: [DirCache], which answers lookups and listings
    of directories locally.  [time.Now] is the argument [now]; an instant is an
    integer and the zero [time.Time] is [None].  Nil maps and empty maps behave
    alike here and are both the empty [gmap].  The model of the whole cache threads
    the map of entries; an operation that mutates an entry through its pointer puts
    the new entry back. *)

From S2P Require Import Prelude GoStrings.

Import GoStr.

Module DirCache.

Definition defaultDirCacheTTL : Z := 10 * 1000000000.
Definition defaultNamespaceCacheMaxEntries : Z := 2000.

Record CachedFileInfo := {
  Name : string;
  Size : Z;
  IsDir : bool;
  Mtime : Z;
  Revision : Z;
  Mode : Z;
  HasMode : bool
}.

Inductive namespaceLookupKind :=
  | namespaceLookupNone
  | namespaceLookupPositive
  | namespaceLookupNegative
  | namespaceLookupCompleteMiss
  | namespaceLookupSessionMiss
  | namespaceLookupPartialMiss.

(** The [item] of a [namespaceLookupResult] is only set for a positive result. *)
Record namespaceLookupResult := {
  kind : namespaceLookupKind;
  item : option CachedFileInfo
}.

Record dirCacheEntry := {
  items : gmap string CachedFileInfo;
  order : list string;
  expires : option Z;
  complete : bool;
  completeExpires : option Z;
  sessionExpires : option Z;
  negatives : gmap string Z
}.

Record DirCache := {
  entries : gmap string dirCacheEntry;
  ttl : Z;
  negativeTTL : Z;
  maxEntries : Z
}.

Definition NewNamespaceCache (ttl0 negTTL maxEnt : Z) : DirCache :=
  let ttl0 := if ttl0 <=? 0 then defaultDirCacheTTL else ttl0 in
  {| entries := ∅;
     ttl := ttl0;
     negativeTTL := if (negTTL <=? 0) || (ttl0 <? negTTL) then ttl0 else negTTL;
     maxEntries := if maxEnt <=? 0 then defaultNamespaceCacheMaxEntries else maxEnt |}.

Definition NewDirCache (ttl0 : Z) : DirCache :=
  NewNamespaceCache ttl0 ttl0 defaultNamespaceCacheMaxEntries.

Definition set_entries (m : gmap string dirCacheEntry) (dc : DirCache) : DirCache :=
  {| entries := m; ttl := ttl dc; negativeTTL := negativeTTL dc; maxEntries := maxEntries dc |}.

(** ** One directory *)

Definition newDirCacheEntry : dirCacheEntry :=
  {| items := ∅; order := []; expires := None; complete := false; completeExpires := None;
     sessionExpires := None; negatives := ∅ |}.

Definition set_expires (x : option Z) (e : dirCacheEntry) : dirCacheEntry :=
  {| items := items e; order := order e; expires := x; complete := complete e;
     completeExpires := completeExpires e; sessionExpires := sessionExpires e;
     negatives := negatives e |}.
Definition set_negatives (m : gmap string Z) (e : dirCacheEntry) : dirCacheEntry :=
  {| items := items e; order := order e; expires := expires e; complete := complete e;
     completeExpires := completeExpires e; sessionExpires := sessionExpires e; negatives := m |}.
Definition set_complete (x : Z) (e : dirCacheEntry) : dirCacheEntry :=
  {| items := items e; order := order e; expires := expires e; complete := true;
     completeExpires := Some x; sessionExpires := sessionExpires e; negatives := negatives e |}.

(** The last two statements of [upsert]. *)
Definition appendItem (e : dirCacheEntry) (it : CachedFileInfo) : dirCacheEntry :=
  {| items := <[Name it := it]> (items e); order := order e ++ [Name it]; expires := expires e;
     complete := complete e; completeExpires := completeExpires e;
     sessionExpires := sessionExpires e; negatives := negatives e |}.

Definition upsert (e : dirCacheEntry) (it : CachedFileInfo) (maxEnt : Z) : dirCacheEntry :=
  if bool_decide (Name it = "") then e
  else
    match items e !! Name it with
    | Some _ =>
        {| items := <[Name it := it]> (items e); order := order e; expires := expires e;
           complete := complete e; completeExpires := completeExpires e;
           sessionExpires := sessionExpires e; negatives := negatives e |}
    | None =>
        if (0 <? maxEnt) && (maxEnt <=? Z.of_nat (size (items e))) then
          match order e with
          | [] => e
          | evict :: rest =>
              appendItem {| items := delete evict (items e); order := rest; expires := expires e;
                            complete := false; completeExpires := None; sessionExpires := None;
                            negatives := delete evict (negatives e) |} it
          end
        else appendItem e it
    end.

(** The loop of [remove]: only the first occurrence goes. *)
Fixpoint removeFirst (name : string) (l : list string) : list string :=
  match l with
  | [] => []
  | existing :: l => if bool_decide (existing = name) then l else existing :: removeFirst name l
  end.

Definition remove (e : dirCacheEntry) (name : string) : dirCacheEntry :=
  {| items := delete name (items e); order := removeFirst name (order e); expires := expires e;
     complete := complete e; completeExpires := completeExpires e;
     sessionExpires := sessionExpires e; negatives := delete name (negatives e) |}.

(** [!t.IsZero() && now.After(t)] *)
Definition expired (now : Z) (t : option Z) : bool :=
  match t with
  | Some x => x <? now
  | None => false
  end.

Definition prune (e : dirCacheEntry) (now : Z) : dirCacheEntry :=
  let gone := expired now (expires e) in
  {| items := if gone then ∅ else items e;
     order := if gone then [] else order e;
     expires := if gone then None else expires e;
     complete := if gone then false else complete e;
     completeExpires := if expired now (completeExpires e) then None else completeExpires e;
     sessionExpires := if expired now (sessionExpires e) then None else sessionExpires e;
     negatives := filter (fun kv => (snd kv <? now) = false) (negatives e) |}.

Definition positiveValid (e : dirCacheEntry) (now : Z) : bool := negb (expired now (expires e)).
Definition completeListValid (e : dirCacheEntry) (now : Z) : bool :=
  complete e && positiveValid e now.

(** [!t.IsZero() && !now.After(t)] *)
Definition live (now : Z) (t : option Z) : bool :=
  match t with
  | Some x => negb (x <? now)
  | None => false
  end.

Definition completeValid (e : dirCacheEntry) (now : Z) : bool :=
  complete e && live now (completeExpires e).
Definition sessionValid (e : dirCacheEntry) (now : Z) : bool := live now (sessionExpires e).
Definition negativeValid (e : dirCacheEntry) (name : string) (now : Z) : bool :=
  live now (negatives e !! name).

Definition hasState (e : dirCacheEntry) : bool :=
  (0 <? Z.of_nat (size (items e))) || (0 <? Z.of_nat (size (negatives e))) || complete e
    || bool_decide (completeExpires e <> None) || bool_decide (sessionExpires e <> None).

(** ** The cache *)

Definition ensureEntryLocked (dc : DirCache) (dirPath : string) : dirCacheEntry :=
  default newDirCacheEntry (entries dc !! dirPath).

Definition getEntryLocked (dc : DirCache) (dirPath : string) (now : Z)
    : DirCache * option dirCacheEntry :=
  match entries dc !! dirPath with
  | None => (dc, None)
  | Some entry =>
      let entry := prune entry now in
      if negb (hasState entry) then (set_entries (delete dirPath (entries dc)) dc, None)
      else (set_entries (<[dirPath := entry]> (entries dc)) dc, Some entry)
  end.

Definition Get (dc : DirCache) (dirPath : string) (now : Z)
    : DirCache * option (list CachedFileInfo) :=
  match getEntryLocked dc dirPath now with
  | (dc, Some entry) =>
      if negb (completeListValid entry now) then (dc, None)
      else (dc, Some (omap (fun name => items entry !! name) (order entry)))
  | (dc, None) => (dc, None)
  end.

Definition Put (dc : DirCache) (dirPath : string) (its : list CachedFileInfo) (now : Z)
    : DirCache :=
  let entry := set_expires (Some (now + ttl dc)) newDirCacheEntry in
  let limit := zlen its in
  let limit := if maxEntries dc <? limit then maxEntries dc else limit in
  let entry := foldl (fun e it => upsert e it (maxEntries dc)) entry (gslice its 0 limit) in
  let entry := if zlen its <=? maxEntries dc then set_complete (now + negativeTTL dc) entry
               else entry in
  set_entries (<[dirPath := entry]> (entries dc)) dc.

Definition Lookup (dc : DirCache) (parentPath name : string) (now : Z)
    : DirCache * namespaceLookupResult :=
  let res k i := {| kind := k; item := i |} in
  match getEntryLocked dc parentPath now with
  | (dc, None) => (dc, res namespaceLookupNone None)
  | (dc, Some entry) =>
      match items entry !! name, positiveValid entry now with
      | Some it, true => (dc, res namespaceLookupPositive (Some it))
      | _, _ =>
          if negativeValid entry name now then (dc, res namespaceLookupNegative None)
          else if sessionValid entry now then (dc, res namespaceLookupSessionMiss None)
          else if completeValid entry now then (dc, res namespaceLookupCompleteMiss None)
          else if hasState entry then (dc, res namespaceLookupPartialMiss None)
          else (dc, res namespaceLookupNone None)
      end
  end.

Definition Upsert (dc : DirCache) (parentPath : string) (it : CachedFileInfo) (now : Z)
    : DirCache :=
  if bool_decide (Name it = "") then dc
  else
    let entry := ensureEntryLocked dc parentPath in
    let entry := set_expires (Some (now + ttl dc)) entry in
    let entry := upsert entry it (maxEntries dc) in
    let entry := set_negatives (delete (Name it) (negatives entry)) entry in
    set_entries (<[parentPath := entry]> (entries dc)) dc.

Definition Remove (dc : DirCache) (parentPath name : string) : DirCache :=
  match entries dc !! parentPath with
  | None => dc
  | Some entry =>
      let entry := remove entry name in
      if negb (hasState entry) then set_entries (delete parentPath (entries dc)) dc
      else set_entries (<[parentPath := entry]> (entries dc)) dc
  end.

Definition MarkNegative (dc : DirCache) (parentPath name : string) (now : Z) : DirCache :=
  if bool_decide (name = "") || (negativeTTL dc <=? 0) then dc
  else
    let entry := remove (ensureEntryLocked dc parentPath) name in
    let entry := set_negatives (<[name := now + negativeTTL dc]> (negatives entry)) entry in
    set_entries (<[parentPath := entry]> (entries dc)) dc.

Definition MarkSessionCreatedDir (dc : DirCache) (dirPath : string) (now : Z) : DirCache :=
  let e := ensureEntryLocked dc dirPath in
  let e := {| items := items e; order := order e; expires := Some (now + ttl dc);
              complete := true; completeExpires := Some (now + negativeTTL dc);
              sessionExpires := Some (now + negativeTTL dc); negatives := ∅ |} in
  set_entries (<[dirPath := e]> (entries dc)) dc.

(** [delete] of the matching keys during the range: all of them go. *)
Definition InvalidatePrefix (dc : DirCache) (dirPath : string) : DirCache :=
  if bool_decide (dirPath = "/") then set_entries ∅ dc
  else
    set_entries
      (filter (fun kv => (bool_decide (fst kv = dirPath) || HasPrefix (fst kv) (dirPath +:+ "/")) = false)
         (entries dc)) dc.

Definition Invalidate (dc : DirCache) (dirPath : string) : DirCache :=
  set_entries (delete dirPath (entries dc)) dc.
Definition InvalidateAll (dc : DirCache) : DirCache := set_entries ∅ dc.

(** ** What an entry may claim *)

Abbreviation children := (gmap string CachedFileInfo).

(** What the mount knew of a directory when it was last marked as created by the mount. *)
Section entry.
Context (left : children).

(** The entry [e] agrees with the children [known] of its directory at clock [c]:
    its items are known children, or unknown ones that are left over from before the
    directory was created; a known child it does not list is one it cannot
    deny, because it is then neither complete nor session-created and has no
    negative marker for it. *)
Record entryOk (dc : DirCache) (c : Z) (known : children) (e : dirCacheEntry) : Prop := {
  eo_items : forall n it, items e !! n = Some it ->
    Name it = n /\ (known !! n = Some it \/ known !! n = None /\ left !! n = Some it);
  eo_nodup : NoDup (order e);
  eo_order : forall n, n ∈ order e <-> is_Some (items e !! n);
  eo_neg : forall n, is_Some (known !! n) -> negatives e !! n = None;
  eo_auth : forall n, is_Some (known !! n) -> items e !! n = None ->
    complete e = false /\ sessionExpires e = None;
  eo_session : forall s, sessionExpires e = Some s ->
    s <= c + ttl dc /\ exists x, expires e = Some x /\ s <= x;
  eo_bound : Z.of_nat (size (items e)) <= maxEntries dc
}.

Definition configOk (dc : DirCache) : Prop :=
  0 < maxEntries dc /\ 0 < negativeTTL dc <= ttl dc.

Lemma entryOk_set dc c known e m : entryOk dc c known e -> entryOk (set_entries m dc) c known e.
Proof. intros [? ? ? ? ? ? ?]. by split. Qed.

Lemma entryOk_new dc c known : configOk dc -> entryOk dc c known newDirCacheEntry.
Proof.
  intros [Hm _]. split; simpl; try done.
  - apply NoDup_nil_2.
  - intros n. rewrite lookup_empty. split; [set_solver|by intros []].
  - rewrite map_size_empty. lia.
Qed.

Lemma entryOk_clock dc c c' known e : c <= c' -> entryOk dc c known e -> entryOk dc c' known e.
Proof.
  intros Hc [? ? ? ? ? Hs ?]. split; try done. intros s Es. destruct (Hs s Es). split; [lia|done].
Qed.

(** Touching the positive TTL at a later moment. *)
Lemma entryOk_touch dc c now known e :
  c <= now -> entryOk dc c known e -> entryOk dc now known (set_expires (Some (now + ttl dc)) e).
Proof.
  intros Hc [? ? ? ? ? Hs ?]. split; simpl; try done. intros s Es. destruct (Hs s Es) as [H1 _].
  split; [lia|]. eexists. split; [done|lia].
Qed.

Lemma removeFirst_elem name l x :
  NoDup l -> x ∈ removeFirst name l <-> x ∈ l /\ x <> name.
Proof.
  induction l as [|y l IH]; intros Hnd; simpl; [set_solver|].
  apply NoDup_cons in Hnd as [Hy Hnd]. case_bool_decide as E.
  - subst y. split; [|set_solver]. intros Hx. split; [set_solver|]. by intros ->.
  - rewrite !elem_of_cons, IH by done. set_solver.
Qed.

Lemma removeFirst_NoDup name l : NoDup l -> NoDup (removeFirst name l).
Proof.
  induction l as [|y l IH]; intros Hnd; simpl; [done|]. pose proof Hnd as Hnd'.
  apply NoDup_cons in Hnd as [Hy Hnd]. case_bool_decide; [done|].
  apply NoDup_cons. split; [|by apply IH]. rewrite removeFirst_elem by done. tauto.
Qed.

(** Forgetting a child. *)
Lemma entryOk_remove dc c known e name :
  entryOk dc c known e -> entryOk dc c (delete name known) (remove e name).
Proof.
  intros [Hi Hn Ho Hg Ha Hs Hb].
  assert (forall n, is_Some (delete name known !! n) -> n <> name /\ is_Some (known !! n)) as Hk.
  { intros n [it Hit]. apply lookup_delete_Some in Hit as [? Hit]. split; [done|]. by exists it. }
  split; simpl; try done.
  - intros n it Hit. apply lookup_delete_Some in Hit as [Hne Hit].
    rewrite lookup_delete_ne by done. by apply Hi.
  - by apply removeFirst_NoDup.
  - intros n. rewrite removeFirst_elem, Ho by done. destruct (decide (n = name)) as [->|].
    + rewrite lookup_delete_eq. split; [tauto|by intros []].
    + rewrite lookup_delete_ne by done. tauto.
  - intros n Hs'. apply Hk in Hs' as [? ?]. rewrite lookup_delete_ne by done. by apply Hg.
  - intros n Hs' Hno. apply Hk in Hs' as [? ?]. rewrite lookup_delete_ne in Hno by done. by apply (Ha n).
  - etrans; [|exact Hb]. apply inj_le. rewrite map_size_delete. destruct (items e !! name); simpl; lia.
Qed.

(** Learning a child that the entry has room for or already lists. *)
Lemma entryOk_append dc c known e it :
  items e !! Name it = None -> Z.of_nat (size (items e)) < maxEntries dc ->
  entryOk dc c known e -> negatives e !! Name it = None ->
  entryOk dc c (<[Name it := it]> known) (appendItem e it).
Proof.
  intros Hnew Hlt [Hi Hn Ho Hg Ha Hs Hb] Hneg. split; simpl; try done.
  - intros n it' Hit. apply lookup_insert_Some in Hit as [[<- <-]|[Hne Hit]].
    + rewrite lookup_insert_eq. auto.
    + rewrite lookup_insert_ne by done. by apply Hi.
  - apply NoDup_app. split_and!; [done| |apply NoDup_singleton].
    intros x Hx Hx'. apply list_elem_of_singleton in Hx' as ->. apply Ho in Hx as [? Hx]. congruence.
  - intros n. rewrite elem_of_app, list_elem_of_singleton, Ho.
    destruct (decide (n = Name it)) as [->|].
    + rewrite lookup_insert_eq. split; [done|by right].
    + rewrite lookup_insert_ne by done. naive_solver.
  - intros n [x Hx]. apply lookup_insert_Some in Hx as [[<- _]|[_ Hx]]; [done|]. apply Hg. by exists x.
  - intros n [x Hx] Hno. apply lookup_insert_None in Hno as [Hno Hne].
    rewrite lookup_insert_ne in Hx by done. apply (Ha n); [by exists x|done].
  - rewrite map_size_insert_None by done. lia.
Qed.

(** Dropping negative markers. *)
Lemma entryOk_negatives dc c known e m :
  (forall n, negatives e !! n = None -> m !! n = None) ->
  entryOk dc c known e -> entryOk dc c known (set_negatives m e).
Proof. intros Hm [? ? ? Hg ? ? ?]. split; simpl; try done. intros n Hn. by apply Hm, Hg. Qed.

(** The entry after the oldest item made room. *)
Lemma entryOk_evict dc c known e n rest :
  entryOk dc c known e -> order e = n :: rest ->
  entryOk dc c known
    {| items := delete n (items e); order := rest; expires := expires e; complete := false;
       completeExpires := None; sessionExpires := None; negatives := delete n (negatives e) |}.
Proof.
  intros [Hi Hn Ho Hg Ha Hs Hb] Eo. rewrite Eo in *. apply NoDup_cons in Hn as [Hni Hn].
  split; simpl; try done.
  - intros k it Hk. apply lookup_delete_Some in Hk as [_ Hk]. by apply Hi.
  - intros k. destruct (decide (k = n)) as [->|].
    + rewrite lookup_delete_eq. split; [done|by intros []].
    + rewrite lookup_delete_ne, <- Ho by done. set_solver.
  - intros k Hk. apply lookup_delete_None. right. by apply Hg.
  - etrans; [|exact Hb]. apply inj_le. rewrite map_size_delete. destruct (items e !! n); simpl; lia.
Qed.

Lemma upsert_ok dc c known e it :
  configOk dc -> Name it <> "" -> entryOk dc c known e -> negatives e !! Name it = None ->
  entryOk dc c (<[Name it := it]> known) (upsert e it (maxEntries dc)).
Proof.
  intros [Hm _] Hne Hok Hneg. unfold upsert. rewrite bool_decide_false by done.
  destruct (items e !! Name it) as [it0|] eqn:E.
  - destruct Hok as [Hi Hn Ho Hg Ha Hs Hb]. split; simpl; try done.
    + intros n it' Hit. apply lookup_insert_Some in Hit as [[<- <-]|[Hne' Hit]].
      * rewrite lookup_insert_eq. auto.
      * rewrite lookup_insert_ne by done. by apply Hi.
    + intros n. rewrite Ho. destruct (decide (n = Name it)) as [->|].
      * rewrite lookup_insert_eq, E. done.
      * by rewrite lookup_insert_ne.
    + intros n [x Hx]. apply lookup_insert_Some in Hx as [[<- _]|[_ Hx]]; [done|].
      apply Hg. by exists x.
    + intros n [x Hx] Hno. apply lookup_insert_None in Hno as [Hno Hne'].
      rewrite lookup_insert_ne in Hx by done. apply (Ha n); [by exists x|done].
    + by rewrite map_size_insert_Some.
  - rewrite (proj2 (Z.ltb_lt 0 (maxEntries dc))) by done. simpl.
    case_if; bool_prop; [|by apply entryOk_append].
    destruct (order e) as [|n rest] eqn:Eo.
    { exfalso. assert (items e = ∅) as Hem.
      { apply map_empty. intros n. apply eq_None_not_Some. intros Hs.
        apply (eo_order _ _ _ _ Hok) in Hs. rewrite Eo in Hs. set_solver. }
      rewrite Hem, map_size_empty in Eif. lia. }
    assert (is_Some (items e !! n)) as Hsome by (apply (eo_order _ _ _ _ Hok); rewrite Eo; set_solver).
    apply entryOk_append; simpl.
    + apply lookup_delete_None. by right.
    + rewrite map_size_delete. pose proof (eo_bound _ _ _ _ Hok).
      destruct Hsome as [x Hx]. rewrite Hx. simpl.
      assert (size (items e) <> 0%nat) by (by apply (map_size_ne_0_lookup_2 _ n)).
      lia.
    + by apply entryOk_evict.
    + apply lookup_delete_None. by right.
Qed.

(** [delete(entry.negatives, item.Name)] may as well come first. *)
Lemma upsert_negatives e it m :
  set_negatives (delete (Name it) (negatives (upsert e it m))) (upsert e it m)
  = upsert (set_negatives (delete (Name it) (negatives e)) e) it m.
Proof.
  unfold upsert. simpl. case_bool_decide; [done|]. destruct (items e !! Name it); [done|].
  case_if; [|done]. destruct (order e) as [|n rest]; [done|].
  unfold appendItem, set_negatives. simpl. by rewrite delete_delete.
Qed.

(** A pruned entry claims no more than before. *)
Lemma entryOk_prune dc c now known e :
  c <= now -> entryOk dc c known e -> entryOk dc now known (prune e now).
Proof.
  intros Hc [Hi Hn Ho Hg Ha Hs Hb].
  assert (forall s, sessionExpires e = Some s -> expired now (expires e) = true -> s <? now = true) as Hgone.
  { intros s Es Ex. destruct (Hs s Es) as (_ & x & Ex' & Hle). rewrite Ex' in Ex. simpl in Ex.
    bool_prop. apply Z.ltb_lt. lia. }
  unfold prune. split; simpl; destruct (expired now (expires e)) eqn:Ex; try done.
  - apply NoDup_nil_2.
  - intros n. rewrite lookup_empty. split; [set_solver|by intros []].
  - intros n Hk. apply map_lookup_filter_None. left. by apply Hg.
  - intros n Hk. apply map_lookup_filter_None. left. by apply Hg.
  - intros n _ _. split; [done|]. destruct (sessionExpires e) as [s|] eqn:Es; [|done].
    simpl. by rewrite (Hgone s).
  - intros n Hk Hno. destruct (Ha n Hk Hno) as [-> ->]. done.
  - intros s. destruct (sessionExpires e) as [s0|] eqn:Es; [|done].
    simpl. by rewrite (Hgone s0).
  - intros s Es'. destruct (sessionExpires e) as [s0|]; [|done]. simpl in Es'.
    destruct (s0 <? now); [done|]. simplify_eq. destruct (Hs s eq_refl). split; [lia|done].
  - rewrite map_size_empty. lia.
Qed.

(** ** Listings *)

(** The children a listing names. *)
Definition addChild (known : children) (it : CachedFileInfo) : children :=
  if bool_decide (Name it = "") then known else <[Name it := it]> known.
Definition listing (l : list CachedFileInfo) : children := foldl addChild ∅ l.

(** An entry that has only taken in the children [known]. *)
Record plain (dc : DirCache) (c : Z) (known : children) (e : dirCacheEntry) : Prop := {
  pl_ok : entryOk dc c known e;
  pl_items : items e = known;
  pl_neg : negatives e = ∅;
  pl_complete : complete e = false;
  pl_session : sessionExpires e = None
}.

Lemma put_fold dc c l : forall known e,
  configOk dc -> plain dc c known e ->
  Z.of_nat (size (items e)) + zlen l <= maxEntries dc ->
  let e' := foldl (fun e it => upsert e it (maxEntries dc)) e l in
  plain dc c (foldl addChild known l) e' /\ expires e' = expires e.
Proof.
  induction l as [|it l IH]; intros known e Hc Hp Hsz; cbn [foldl]; [done|].
  assert (zlen (it :: l) = zlen l + 1) as Hl by (unfold zlen; simpl; lia). pose proof (zlen_nonneg l).
  destruct Hp as [Hok Hi Hn Hco Hs].
  assert (plain dc c (addChild known it) (upsert e it (maxEntries dc))
    /\ expires (upsert e it (maxEntries dc)) = expires e
    /\ (size (items (upsert e it (maxEntries dc))) <= size (items e) + 1)%nat) as (Hp & He & Hsz').
  { unfold addChild. case_bool_decide as Hne.
    { unfold upsert. rewrite bool_decide_true by done. split_and!; [done|done|lia]. }
    pose proof (upsert_ok dc c known e it Hc Hne Hok ltac:(by rewrite Hn)) as Hok'.
    revert Hok'. unfold upsert. rewrite bool_decide_false by done.
    destruct (items e !! Name it) as [it0|] eqn:E; simpl.
    - rewrite map_size_insert_Some by done. intros Hok'. split_and!; [|done|lia].
      split; simpl; try done. by rewrite Hi.
    - rewrite (proj2 (Z.leb_gt (maxEntries dc) _)), andb_false_r by lia. simpl.
      rewrite map_size_insert_None by done. intros Hok'. split_and!; [|done|lia].
      split; simpl; try done. by rewrite Hi. }
  destruct (IH _ _ Hc Hp ltac:(lia)) as [Hp' He']. split; [done|congruence].
Qed.

(** The entry [Put] stores for a listing. *)
Lemma Put_entry dc its now dirPath :
  configOk dc ->
  exists e, entries (Put dc dirPath its now) = <[dirPath := e]> (entries dc)
    /\ entryOk dc now (listing (gslice its 0 (Z.min (zlen its) (maxEntries dc)))
                         ∪ listing (drop (Z.to_nat (Z.min (zlen its) (maxEntries dc))) its)) e.
Proof.
  intros Hc. pose proof Hc as [Hm Ht]. pose proof (zlen_nonneg its). unfold Put. simpl.
  assert ((if maxEntries dc <? zlen its then maxEntries dc else zlen its)
          = Z.min (zlen its) (maxEntries dc)) as -> by (case_if; bool_prop; lia).
  set (lim := Z.min _ _). set (e0 := set_expires _ newDirCacheEntry).
  assert (plain dc now ∅ e0) as Hp0.
  { split; try done. unfold e0. apply (entryOk_touch dc now); [lia|]. by apply entryOk_new. }
  assert (zlen (gslice its 0 lim) = lim) as Hl by (rewrite zlen_gslice; lia).
  destruct (put_fold dc now (gslice its 0 lim) ∅ e0 Hc Hp0) as [[Hok Hi Hn Hco Hs] He].
  { simpl. rewrite map_size_empty, Hl. lia. }
  fold (listing (gslice its 0 lim)) in Hok, Hi.
  eexists. split; [done|]. destruct Hok as [H1 H2 H3 H4 H5 H6 H7].
  assert (forall n it, items (foldl (fun e it => upsert e it (maxEntries dc)) e0 (gslice its 0 lim)) !! n
    = Some it -> Name it = n /\ ((listing (gslice its 0 lim) ∪ listing (drop (Z.to_nat lim) its)) !! n = Some it
      \/ (listing (gslice its 0 lim) ∪ listing (drop (Z.to_nat lim) its)) !! n = None /\ left !! n = Some it)) as H1'.
  { intros n it Hit. destruct (H1 n it Hit) as [? _]. split; [done|]. left. apply lookup_union_Some_l. by rewrite Hi in Hit. }
  case_if; bool_prop.
  - assert (listing (drop (Z.to_nat lim) its) = ∅) as Hrest.
    { rewrite skipn_all2; [done|]. unfold zlen in *. lia. }
    rewrite Hrest, (right_id_L ∅ (∪)). split; simpl; try done; rewrite ?Hn, ?Hs; try done.
    intros n [x Hx] Hno. rewrite Hi in Hno. congruence.
  - split; try done; rewrite ?Hn, ?Hs; done.
Qed.

End entry.

(** ** Every operation, against what the mount knows *)

(** The ghost state: for each directory the children the mount has last been told of
    and not been told are gone; a directory that the mount has just created has none.
    Expiry and eviction do not change it. *)
Abbreviation knowledge := (gmap string children).
Definition know (k : knowledge) (dir : string) : children := default ∅ (k !! dir).

(** [stale] has the children that the mount knew in a directory when it created a
    directory of that name. *)
Record state := { cache : DirCache; clock : Z; known : knowledge; stale : knowledge }.

Inductive step (st : state) : state -> Prop :=
  | step_get dir now : clock st <= now ->
      step st {| cache := fst (Get (cache st) dir now); clock := now; known := known st; stale := stale st |}
  | step_lookup dir name now : clock st <= now ->
      step st {| cache := fst (Lookup (cache st) dir name now); clock := now; known := known st; stale := stale st |}
  | step_put dir its now : clock st <= now ->
      step st {| cache := Put (cache st) dir its now; clock := now;
        known := let lim := Z.min (zlen its) (maxEntries (cache st)) in
          <[dir := listing (gslice its 0 lim) ∪ listing (drop (Z.to_nat lim) its)]> (known st);
        stale := delete dir (stale st) |}
  | step_upsert dir it now : clock st <= now -> Name it <> "" ->
      step st {| cache := Upsert (cache st) dir it now; clock := now;
        known := <[dir := <[Name it := it]> (know (known st) dir)]> (known st); stale := stale st |}
  | step_remove dir name :
      step st {| cache := Remove (cache st) dir name; clock := clock st;
        known := <[dir := delete name (know (known st) dir)]> (known st); stale := stale st |}
  | step_negative dir name now : clock st <= now -> name <> "" ->
      step st {| cache := MarkNegative (cache st) dir name now; clock := now;
        known := <[dir := delete name (know (known st) dir)]> (known st); stale := stale st |}
  | step_session dir now : clock st <= now ->
      step st {| cache := MarkSessionCreatedDir (cache st) dir now; clock := now;
        known := <[dir := ∅]> (known st); stale := <[dir := know (known st) dir ∪ know (stale st) dir]> (stale st) |}
  | step_invalidate dir :
      step st {| cache := Invalidate (cache st) dir; clock := clock st;
        known := delete dir (known st); stale := delete dir (stale st) |}
  | step_invalidate_prefix dir :
      step st {| cache := InvalidatePrefix (cache st) dir; clock := clock st; known := known st; stale := stale st |}
  | step_invalidate_all :
      step st {| cache := InvalidateAll (cache st); clock := clock st; known := ∅; stale := ∅ |}.

Definition inv (st : state) : Prop :=
  configOk (cache st) /\ forall dir e, entries (cache st) !! dir = Some e ->
    entryOk (know (stale st) dir) (cache st) (clock st) (know (known st) dir) e.

(** Replacing one entry, with what is known of its directory. *)
Lemma inv_insert dc c k l now dir e kn ln :
  c <= now -> inv {| cache := dc; clock := c; known := k; stale := l |} -> entryOk (default ∅ ln) dc now kn e ->
  inv {| cache := set_entries (<[dir := e]> (entries dc)) dc; clock := now; known := <[dir := kn]> k;
         stale := partial_alter (fun _ => ln) dir l |}.
Proof.
  intros Hc [Hcfg Hinv] He. split; [done|]. simpl in *. intros d e' Hd. apply entryOk_set.
  apply lookup_insert_Some in Hd as [[<- <-]|[Hne Hd]]; unfold know.
  - by rewrite lookup_insert_eq, lookup_partial_alter_eq.
  - rewrite lookup_insert_ne, lookup_partial_alter_ne by done. by apply (entryOk_clock _ dc c), Hinv.
Qed.

Lemma inv_update dc c k l now dir e kn :
  c <= now -> inv {| cache := dc; clock := c; known := k; stale := l |} -> entryOk (know l dir) dc now kn e ->
  inv {| cache := set_entries (<[dir := e]> (entries dc)) dc; clock := now; known := <[dir := kn]> k; stale := l |}.
Proof.
  intros Hc Hinv He. pose proof (inv_insert dc c k l now dir e kn (l !! dir) Hc Hinv He) as H.
  by rewrite partial_alter_self in H.
Qed.

(** Dropping one entry. *)
Lemma inv_delete dc c k l now dir kn :
  c <= now -> inv {| cache := dc; clock := c; known := k; stale := l |} ->
  inv {| cache := set_entries (delete dir (entries dc)) dc; clock := now; known := <[dir := kn]> k; stale := l |}.
Proof.
  intros Hc [Hcfg Hinv]. split; [done|]. simpl in *. intros d e' Hd. apply entryOk_set.
  apply lookup_delete_Some in Hd as [Hne Hd]. unfold know. rewrite lookup_insert_ne by done.
  by apply (entryOk_clock _ dc c), Hinv.
Qed.

Lemma ensure_ok dc c k l dir :
  inv {| cache := dc; clock := c; known := k; stale := l |} ->
  entryOk (know l dir) dc c (know k dir) (ensureEntryLocked dc dir).
Proof.
  intros [Hcfg Hinv]. unfold ensureEntryLocked. simpl in *.
  destruct (entries dc !! dir) as [e|] eqn:E; [by apply Hinv|]. by apply entryOk_new.
Qed.

(** Looking at an entry prunes it. *)
Lemma getEntry_inv dc c k l dir now :
  c <= now -> inv {| cache := dc; clock := c; known := k; stale := l |} ->
  let '(dc', oe) := getEntryLocked dc dir now in
  inv {| cache := dc'; clock := now; known := k; stale := l |}
  /\ forall e, oe = Some e -> entryOk (know l dir) dc now (know k dir) e /\ positiveValid e now = true.
Proof.
  intros Hc Hinv. unfold getEntryLocked. pose proof Hinv as [Hcfg Hent]. simpl in *.
  assert (forall d e, entries dc !! d = Some e -> entryOk (know l d) dc now (know k d) e) as Hent'.
  { intros d e Hd. by apply (entryOk_clock _ dc c), Hent. }
  destruct (entries dc !! dir) as [e|] eqn:E; [|done].
  pose proof (entryOk_prune _ dc c now _ _ Hc (Hent _ _ E)) as Hp.
  assert (positiveValid (prune e now) now = true) as Hpos.
  { unfold positiveValid, prune. simpl. destruct (expired now (expires e)) eqn:Ex; [done|].
    by rewrite Ex. }
  case_if; (split; [|intros e' He; by simplify_eq]); (split; [done|]); simpl; intros d e' Hd;
    apply entryOk_set.
  - apply lookup_delete_Some in Hd as [_ Hd]. by apply Hent'.
  - apply lookup_insert_Some in Hd as [[<- <-]|[_ Hd]]; [done|by apply Hent'].
Qed.

(** A directory that was just created: what the entry still lists is stale. *)
Lemma session_ok dc c known left now e :
  configOk dc -> c <= now -> entryOk left dc c known e ->
  entryOk (known ∪ left) dc now ∅
    {| items := items e; order := order e; expires := Some (now + ttl dc); complete := true;
       completeExpires := Some (now + negativeTTL dc); sessionExpires := Some (now + negativeTTL dc); negatives := ∅ |}.
Proof.
  intros [Hm Ht] Hc [H1 H2 H3 H4 H5 H6 H7]. split; simpl; try done.
  - intros n it Hit. destruct (H1 n it Hit) as [? [Hk|[Hk Hl]]]; (split; [done|right]); (split; [done|]).
    + by apply lookup_union_Some_l.
    + by rewrite lookup_union_r.
  - intros n [x Hx]. by rewrite lookup_empty in Hx.
  - intros s Es. simplify_eq. split; [lia|]. eexists. split; [done|lia].
Qed.

Lemma step_inv st st' : inv st -> step st st' -> inv st'.
Proof.
  destruct st as [dc c k l]. intros Hinv Hst. pose proof Hinv as [Hcfg Hent]. pose proof Hcfg as [Hm Ht].
  destruct Hst as [dir now Hc|dir name now Hc|dir its now Hc|dir it now Hc Hne|dir name|dir name now Hc Hne
    |dir now Hc|dir|dir|]; simpl in *.
  - pose proof (getEntry_inv dc c k l dir now Hc Hinv) as Hg. unfold Get.
    destruct (getEntryLocked dc dir now) as [dc' [e|]]; [case_if|]; apply Hg.
  - pose proof (getEntry_inv dc c k l dir now Hc Hinv) as Hg. unfold Lookup.
    destruct (getEntryLocked dc dir now) as [dc' [e|]]; [|apply Hg].
    destruct (items e !! name), (positiveValid e now); repeat case_if; apply Hg.
  - destruct (Put_entry ∅ dc its now dir Hcfg) as (e & He & Hok).
    change (Put dc dir its now) with (set_entries (entries (Put dc dir its now)) dc). rewrite He.
    by apply (inv_insert dc c k l now dir e _ None).
  - unfold Upsert. rewrite bool_decide_false by done. apply (inv_update dc c); [done..|].
    rewrite upsert_negatives. apply upsert_ok; [done..| |apply lookup_delete_eq].
    apply entryOk_negatives; [intros n Hn; apply lookup_delete_None; by right|].
    apply (entryOk_touch _ dc c); [done|]. by apply ensure_ok.
  - unfold Remove. destruct (entries dc !! dir) as [e|] eqn:E.
    + pose proof (entryOk_remove _ dc c _ _ name (Hent _ _ E)).
      case_if; [by apply (inv_delete dc c)|by apply (inv_update dc c)].
    + split; [done|]. simpl. intros d e Hd. unfold know at 2. rewrite lookup_insert_ne by congruence.
      by apply Hent.
  - unfold MarkNegative. rewrite bool_decide_false by done.
    rewrite (proj2 (Z.leb_gt (negativeTTL dc) 0)) by lia. simpl.
    apply (inv_update dc c); [done..|].
    apply (entryOk_clock _ dc c); [done|].
    pose proof (entryOk_remove _ dc c _ _ name (ensure_ok dc c k l dir Hinv)) as Hr.
    destruct Hr as [H1 H2 H3 H4 H5 H6 H7]. split; simpl in *; try done.
    intros n Hn. rewrite lookup_insert_ne; [by apply H4|]. intros <-.
    rewrite lookup_delete_eq in Hn. by destruct Hn.
  - unfold MarkSessionCreatedDir. apply (inv_insert dc c k l now dir _ ∅ (Some (know k dir ∪ know l dir))); [done..|].
    apply (session_ok dc c); [done..|by apply ensure_ok].
  - split; [done|]. simpl. intros d e Hd. apply entryOk_set.
    apply lookup_delete_Some in Hd as [Hne Hd]. unfold know. rewrite !lookup_delete_ne by done. by apply Hent.
  - unfold InvalidatePrefix. case_bool_decide; (split; [done|]); simpl; intros d e Hd.
    + by rewrite lookup_empty in Hd.
    + apply map_lookup_filter_Some in Hd as [Hd _]. by apply entryOk_set, Hent.
  - split; [done|]. simpl. intros d e Hd. by rewrite lookup_empty in Hd.
Qed.

Lemma new_inv t n m : inv {| cache := NewNamespaceCache t n m; clock := 0; known := ∅; stale := ∅ |}.
Proof.
  split; [|intros d e Hd; simpl in Hd; by rewrite lookup_empty in Hd].
  unfold configOk, NewNamespaceCache, defaultDirCacheTTL, defaultNamespaceCacheMaxEntries. simpl.
  repeat case_if; bool_prop; destruct_or?; bool_prop; lia.
Qed.

Lemma steps_inv st st' : inv st -> rtc step st st' -> inv st'.
Proof. intros Hi Hr. induction Hr; eauto using step_inv. Qed.

(** ** Properties *)

Definition opened (t n m : Z) : state :=
  {| cache := NewNamespaceCache t n m; clock := 0; known := ∅; stale := ∅ |}.



Definition demoInfo (name : string) (sz : Z) : CachedFileInfo :=
  {| Name := name; Size := sz; IsDir := false; Mtime := 0; Revision := 0; Mode := 0;
     HasMode := false |}.

(** A new directory created by the mount at 5, with a file upserted at 6. *)
Definition demoState : state :=
  let s1 := MarkSessionCreatedDir (NewNamespaceCache 100 50 8) "/d" 5 in
  {| cache := Upsert s1 "/d" (demoInfo "a" 1) 6; clock := 6;
     known := <["/d" := <["a" := demoInfo "a" 1]> ∅]> (<["/d" := ∅]> ∅); stale := <["/d" := ∅]> ∅ |}.

Lemma demoState_reachable : rtc step (opened 100 50 8) demoState.
Proof.
  eapply rtc_l; [apply (step_session _ "/d" 5); vm_compute; congruence|].
  apply rtc_once. refine (step_upsert {| cache := MarkSessionCreatedDir
    (NewNamespaceCache 100 50 8) "/d" 5; clock := 5; known := <["/d" := ∅]> ∅; stale := <["/d" := ∅]> ∅ |}
    "/d" (demoInfo "a" 1) 6 _ _); [vm_compute; congruence|done].
Qed.


(** A child that was listed in a directory is still found after the mount has created the
    directory anew. *)
Lemma session_keeps_children :
  let dc := Upsert (NewNamespaceCache 100 50 8) "/d" (demoInfo "a" 1) 5 in
  kind (snd (Lookup (MarkSessionCreatedDir dc "/d" 10) "/d" "a" 11)) = namespaceLookupPositive.
Proof. vm_compute. reflexivity. Qed.

(** A listing served from the cache is complete and exact: it has every child
    the mount knows, as it knows it, each once, and nothing else but what is left from an
    earlier directory of that name, and never more than the configured number of
    entries. *)
Theorem listing_exact t n m st dir now l :
  rtc step (opened t n m) st -> clock st <= now -> snd (Get (cache st) dir now) = Some l ->
  NoDup (Name <$> l) /\ zlen l <= maxEntries (cache st)
  /\ (forall it, know (known st) dir !! Name it = Some it -> it ∈ l)
  /\ forall it, it ∈ l -> know (known st) dir !! Name it = Some it
       \/ know (known st) dir !! Name it = None /\ know (stale st) dir !! Name it = Some it.
Proof.
  intros Hr Hc Hget. pose proof (steps_inv _ _ (new_inv t n m) Hr) as Hinv. destruct st as [dc c k lo].
  simpl in *. pose proof (getEntry_inv dc c k lo dir now Hc Hinv) as Hg. unfold Get in Hget.
  destruct (getEntryLocked dc dir now) as [dc' [e|]]; [|done]. destruct Hg as [_ He].
  destruct (He e eq_refl) as [[H1 H2 H3 _ H5 _ H7] Hpos]. unfold completeListValid in Hget.
  rewrite Hpos in Hget. destruct (complete e) eqn:Eco; [|done]. simpl in Hget. injection Hget as <-.
  assert (Name <$> omap (fun name => items e !! name) (order e) = order e) as Hnames.
  { assert (forall l : list string, (forall x, x ∈ l -> is_Some (items e !! x)) ->
      Name <$> omap (fun name => items e !! name) l = l) as Hl; [|apply Hl; by intros x ?%H3].
    induction l as [|x l IH]; intros Hl; [done|]. simpl.
    destruct (Hl x ltac:(set_solver)) as [it Hit]. rewrite Hit. simpl.
    destruct (H1 _ _ Hit) as [-> _]. f_equal. apply IH. set_solver. }
  rewrite Hnames. split_and!; [done| | |].
  - unfold zlen. rewrite <- (length_fmap Name), Hnames.
    etrans; [|exact H7]. apply inj_le. rewrite <- size_dom.
    rewrite <- (size_list_to_set (C := gset string) (order e)) by done.
    apply Nat.eq_le_incl. f_equal. apply set_eq. intros x.
    by rewrite elem_of_list_to_set, elem_of_dom, H3.
  - intros it Hk. rewrite list_elem_of_omap. destruct (items e !! Name it) as [it'|] eqn:E.
    + exists (Name it). destruct (H1 _ _ E) as [_ [Hk'|[Hk' _]]]; (split; [apply H3; by exists it'|congruence]).
    + destruct (H5 (Name it) ltac:(by exists it) E) as [Hf _]. congruence.
  - intros it (x & Hx & Hit)%list_elem_of_omap. by destruct (H1 _ _ Hit) as [-> Hk].
Qed.

Lemma listing_exact_witness :
  exists l, snd (Get (cache demoState) "/d" 40) = Some l /\ demoInfo "a" 1 ∈ l.
Proof.
  destruct (snd (Get (cache demoState) "/d" 40)) as [l|] eqn:E; [|discriminate E].
  exists l. split; [reflexivity|].
  apply (listing_exact 100 50 8 demoState "/d" 40 l demoState_reachable); [vm_compute; congruence|exact E|reflexivity].
Defined.

End DirCache.
