(* ===== verification/LeaseQueue.v ===== *)
(** * Tables and leases

    What the durable queues of the server share: selecting rows of a SQL table by
    [WHERE], [ORDER BY], [LIMIT] and [FOR UPDATE SKIP LOCKED], the loop that updates
    the selected rows one by one, and the lease protocol as an interface.  A queue
    that implements [LeaseOps] with the laws [LeaseLaws] gets the protocol's theorems:
    a receipt that was lost never becomes valid again, no receipt is held twice, and
    a row under a live lease is changed by its holder only. *)

From S2P Require Import Prelude.

Module Lease.

(** ** Rows of a table *)

Section updates.
Context {R : Type}.
Implicit Types t : gmap string R.

(** [ORDER BY ... LIMIT 1]: the first row of an order. *)
Definition firstBy (before : R -> R -> bool) (l : list R) : option R :=
  foldl (fun best r =>
           match best with
           | None => Some r
           | Some b => if before r b then Some r else best
           end) None l.

Lemma firstBy_spec (before : R -> R -> bool) (le : R -> R -> Prop) l :
  (forall a, le a a) -> (forall a b c, le a b -> le b c -> le a c) ->
  (forall a b, before a b = true -> le a b) -> (forall a b, before a b = false -> le b a) ->
  match firstBy before l with
  | None => l = []
  | Some r => r ∈ l /\ forall r', r' ∈ l -> le r r'
  end.
Proof.
  intros Hrefl Htrans Hb Hnb. induction l as [|x l IH] using rev_ind; [done|].
  unfold firstBy in *. rewrite foldl_app. cbn [foldl].
  destruct (foldl _ None l) as [b|]; cbn [foldl] in IH |- *.
  - destruct IH as [Hin Hmin]. destruct (before x b) eqn:E.
    + split; [set_solver|]. intros r' [Hr| ->%list_elem_of_singleton]%elem_of_app; [|apply Hrefl].
      apply (Htrans x b); [by apply Hb|by apply Hmin].
    + split; [set_solver|]. intros r' [Hr| ->%list_elem_of_singleton]%elem_of_app; [by apply Hmin|].
      by apply Hnb.
  - subst l. split; [set_solver|]. intros r' Hr. apply list_elem_of_singleton in Hr as ->. apply Hrefl.
Qed.

(** [LIMIT limit] when the limit is positive. *)
Definition limitRows (limit : Z) (l : list R) : list R :=
  if 0 <? limit then take (Z.to_nat limit) l else l.

Lemma limitRows_sublist limit l : limitRows limit l `sublist_of` l.
Proof. unfold limitRows. case_if; [apply sublist_take|done]. Qed.

(** One [UPDATE ... WHERE key = ? AND p] of a loop, with the affected rows. *)
Definition updateIf (p : R -> bool) (f : R -> R) (st : gmap string R * Z) (id : string)
    : gmap string R * Z :=
  let '(t, n) := st in
  match t !! id with
  | Some r => if p r then (<[id := f r]> t, n + 1) else st
  | None => st
  end.

(** The table after the loop over [ids]. *)
Definition updatedRows (p : R -> bool) (f : R -> R) (ids : list string) t t' : Prop :=
  forall k, t' !! k = match t !! k with
                      | Some r => Some (if p r && bool_decide (k ∈ ids) then f r else r)
                      | None => None
                      end.

Lemma updateIf_loop p f t ids :
  NoDup ids -> (forall id, id ∈ ids -> exists r, t !! id = Some r /\ p r = true) ->
  updatedRows p f ids t (fst (foldl (updateIf p f) (t, 0) ids))
  /\ snd (foldl (updateIf p f) (t, 0) ids) = zlen ids.
Proof.
  induction ids as [|id ids IH] using rev_ind; intros Hnd Hids.
  - split; [|done]. intros k. cbn [foldl fst]. destruct (t !! k); [|done].
    rewrite bool_decide_false by set_solver. by rewrite andb_false_r.
  - apply NoDup_app in Hnd as (Hnd & Hdis & _).
    destruct IH as [IHt IHn]; [done|intros; apply Hids; set_solver|].
    rewrite foldl_app. cbn [foldl]. destruct (foldl _ _ ids) as [t' n]. cbn [fst snd] in *.
    destruct (Hids id) as (r & Hr & He); [set_solver|].
    assert (id ∉ ids) as Hni by set_solver.
    pose proof (IHt id) as Hid. rewrite Hr, bool_decide_false, andb_false_r in Hid by done.
    unfold updateIf. rewrite Hid, He. cbn [fst snd]. split.
    + intros k. destruct (decide (k = id)) as [->|Hne].
      * rewrite lookup_insert_eq, Hr, He, bool_decide_true by set_solver. done.
      * rewrite lookup_insert_ne by done. rewrite IHt. destruct (t !! k); [|done].
        rewrite (bool_decide_ext (k ∈ ids ++ [id]) (k ∈ ids)); [done|]. set_solver.
    + rewrite IHn, zlen_app. done.
Qed.

End updates.

Section rows.
Context {R : Type} (key : R -> string).
Implicit Types t : gmap string R.

(** Rows are stored under their primary key. *)
Definition keyedBy t : Prop := forall id r, t !! id = Some r -> key r = id.

(** The rows a [WHERE] clause selects. *)
Definition rowsWhere (P : R -> Prop) `{!forall r, Decision (P r)} t : list R :=
  filter P (snd <$> map_to_list t).

Lemma elem_of_rowsWhere t (P : R -> Prop) `{!forall r, Decision (P r)} r :
  keyedBy t -> r ∈ rowsWhere P t <-> P r /\ t !! key r = Some r.
Proof.
  intros Hk. unfold rowsWhere. rewrite list_elem_of_filter, list_elem_of_fmap. split.
  - intros [HP ([id r'] & -> & Hin)]. apply elem_of_map_to_list in Hin. simpl in *.
    by rewrite (Hk _ _ Hin).
  - intros [HP Hr]. split; [done|]. exists (key r, r). split; [done|].
    by apply elem_of_map_to_list.
Qed.

Lemma rowsWhere_NoDup t (P : R -> Prop) `{!forall r, Decision (P r)} :
  keyedBy t -> NoDup (key <$> rowsWhere P t).
Proof.
  intros Hk. apply NoDup_fmap_2_strong.
  - intros r r' Hr Hr' E. apply elem_of_rowsWhere in Hr as [_ Hr]; [|done].
    apply elem_of_rowsWhere in Hr' as [_ Hr']; [|done]. congruence.
  - apply NoDup_filter. apply NoDup_fmap_2_strong; [|apply NoDup_map_to_list].
    intros [i r] [j r'] Hi Hj E. apply elem_of_map_to_list in Hi, Hj. simpl in E. subst r'.
    rewrite <- (Hk _ _ Hi), <- (Hk _ _ Hj). done.
Qed.

Lemma length_rowsWhere t (P : R -> Prop) `{!forall r, Decision (P r)}
    (Q : string * R -> Prop) `{!forall p, Decision (Q p)} :
  keyedBy t -> (forall id r, t !! id = Some r -> Q (id, r) <-> P r) ->
  zlen (rowsWhere P t) = zlen (filter Q (map_to_list t)).
Proof.
  intros Hk HQ. unfold rowsWhere, zlen. f_equal.
  assert (forall p, p ∈ map_to_list t -> Q p <-> P (snd p)) as Hpq.
  { intros [i r] Hp. apply HQ. by apply elem_of_map_to_list in Hp. }
  induction (map_to_list t) as [|p l IH]; [done|]. rewrite fmap_cons, !filter_cons.
  pose proof (Hpq p ltac:(set_solver)). specialize (IH ltac:(intros; apply Hpq; set_solver)).
  repeat case_decide; simpl; first [tauto | congruence].
Qed.

(** The keys a sorted, limited selection yields. *)
Definition selectedIDs (sorted : list R -> list R) (P : R -> Prop) `{!forall r, Decision (P r)}
    (limit : Z) t : list string :=
  key <$> limitRows limit (sorted (rowsWhere P t)).

Lemma selectedIDs_spec sorted (P : R -> Prop) `{!forall r, Decision (P r)} limit t :
  keyedBy t -> (forall l, sorted l ≡ₚ l) ->
  NoDup (selectedIDs sorted P limit t)
  /\ forall id, id ∈ selectedIDs sorted P limit t -> exists r, t !! id = Some r /\ P r.
Proof.
  intros Hk Hs. unfold selectedIDs. pose proof (limitRows_sublist limit (sorted (rowsWhere P t))) as Hsub.
  split.
  - apply (sublist_NoDup _ (key <$> sorted (rowsWhere P t))); [|by apply (fmap_sublist key)].
    rewrite Hs. by apply rowsWhere_NoDup.
  - intros id (r & -> & Hr)%list_elem_of_fmap. exists r.
    assert (r ∈ rowsWhere P t) as Hin.
    { rewrite <- (Hs (rowsWhere P t)). eapply elem_of_submseteq; [done|]. by apply sublist_submseteq. }
    apply elem_of_rowsWhere in Hin; [|done]. tauto.
Qed.

Lemma selectedIDs_all sorted (P : R -> Prop) `{!forall r, Decision (P r)} limit t id r :
  keyedBy t -> (forall l, sorted l ≡ₚ l) -> limit <= 0 -> t !! id = Some r ->
  id ∈ selectedIDs sorted P limit t <-> P r.
Proof.
  intros Hk Hs Hlim Hr. split.
  - intros Hid. destruct (selectedIDs_spec sorted P limit t Hk Hs) as [_ Hin].
    destruct (Hin id Hid) as (r' & Hr' & HP). by simplify_eq.
  - intros HP. unfold selectedIDs, limitRows. rewrite (proj2 (Z.ltb_ge 0 limit) Hlim), Hs.
    rewrite <- (Hk _ _ Hr). apply list_elem_of_fmap_2, elem_of_rowsWhere; [done|].
    by rewrite (Hk _ _ Hr).
Qed.

End rows.

(** ** The lease protocol *)

(** The lease on a row: nobody's, or a receipt's until a time. *)
Inductive lease := Free | Held (receipt : string) (until : Z).

(** The calls of a queue over a table: what a row's lease is, the table after a call
    at a time, the receipt a call presents and the one it issues, the calls clients
    make, and the invariant of the table. *)
Class LeaseOps (R Ev : Type) := {
  leaseOf : R -> lease;
  applyCall : gmap string R -> Z -> Ev -> gmap string R;
  presented : Ev -> option string;
  issuedBy : Ev -> option string;
  allowed : Ev -> Prop;
  tableInv : gmap string R -> Prop
}.

Section protocol.
Context {R Ev : Type} {ops : LeaseOps R Ev}.

(** What a call at [now] may do to a row. *)
Inductive rowMove (now : Z) (ev : Ev) (r r' : R) : Prop :=
  | rm_same : r' = r -> rowMove now ev r r'
  | rm_free : leaseOf r = Free -> leaseOf r' = Free -> rowMove now ev r r'
  | rm_take c u : issuedBy ev = Some c -> leaseOf r = Free -> leaseOf r' = Held c u ->
      rowMove now ev r r'
  | rm_renew c u u' : presented ev = Some c -> leaseOf r = Held c u -> now < u ->
      leaseOf r' = Held c u' -> rowMove now ev r r'
  | rm_release c u : presented ev = Some c -> leaseOf r = Held c u -> now < u ->
      leaseOf r' = Free -> rowMove now ev r r'
  | rm_expire c u : leaseOf r = Held c u -> u <= now -> leaseOf r' = Free -> rowMove now ev r r'.

(** The laws of the protocol: calls keep the invariant, rows move as above, appear
    free and do not disappear, and a receipt that is issued goes to one row. *)
Class LeaseLaws := {
  inv_empty : tableInv ∅;
  inv_apply t now ev : tableInv t -> allowed ev -> tableInv (applyCall t now ev);
  rows_move t now ev id : tableInv t -> allowed ev ->
    match t !! id, applyCall t now ev !! id with
    | Some r, Some r' => rowMove now ev r r'
    | None, Some r' => leaseOf r' = Free
    | None, None => True
    | Some _, None => False
    end;
  issued_to_one t now ev c i j r r' u u' : tableInv t -> allowed ev -> issuedBy ev = Some c ->
    applyCall t now ev !! i = Some r -> leaseOf r = Held c u ->
    applyCall t now ev !! j = Some r' -> leaseOf r' = Held c u' ->
    i = j \/ (exists k x v, t !! k = Some x /\ leaseOf x = Held c v)
}.

(** A history: the table and the receipts issued so far; a receipt is fresh. *)
Inductive callStep : gmap string R * gset string -> gmap string R * gset string -> Prop :=
  | call_step t seen now ev :
      allowed ev -> (forall c, issuedBy ev = Some c -> c ∉ seen) ->
      callStep (t, seen)
        (applyCall t now ev, match issuedBy ev with Some c => {[c]} ∪ seen | None => seen end).

Definition queueReachable (t : gmap string R) (seen : gset string) : Prop :=
  rtc callStep (∅, ∅) (t, seen).

(** The calls at given times. *)
Definition runCalls (t : gmap string R) (evs : list (Z * Ev)) : gmap string R :=
  foldl (fun t p => applyCall t (fst p) (snd p)) t evs.

(** A row is held under a receipt. *)
Definition heldBy (t : gmap string R) (id c : string) : Prop :=
  exists r u, t !! id = Some r /\ leaseOf r = Held c u.

(** The invariant of histories. *)
Record fenced (st : gmap string R * gset string) : Prop := {
  fe_inv : tableInv (fst st);
  fe_seen : forall id c, heldBy (fst st) id c -> c ∈ snd st;
  fe_once : forall i j c, heldBy (fst st) i c -> heldBy (fst st) j c -> i = j
}.

Context {laws : LeaseLaws}.

#[local] Set Default Proof Using "Type*".

(** A receipt that is held after a call was held by the same row or was issued. *)
Lemma held_after t now ev id c :
  tableInv t -> allowed ev -> heldBy (applyCall t now ev) id c ->
  heldBy t id c \/ issuedBy ev = Some c.
Proof.
  intros Hi Ha (r' & u & Hr' & Hl). pose proof (rows_move t now ev id Hi Ha) as Hm.
  rewrite Hr' in Hm. destruct (t !! id) as [r|] eqn:Hr; [|congruence].
  destruct Hm as [->|?|c0 u0 Hiss ? Hl'|c0 u0 u1 ? Hh ? Hl'| |]; try congruence.
  - left. by exists r, u.
  - right. congruence.
  - left. exists r, u0. split; [done|]. congruence.
Qed.

Lemma callStep_fenced st st' : callStep st st' -> fenced st -> fenced st'.
Proof.
  intros [t seen now ev Ha Hfresh] [Hi Hs Ho]. cbn [fst snd] in *. split; cbn [fst snd].
  - by apply inv_apply.
  - intros id c Hh. destruct (held_after t now ev id c Hi Ha Hh) as [Hh0|E].
    + specialize (Hs _ _ Hh0). destruct (issuedBy ev); set_solver.
    + rewrite E. set_solver.
  - intros i j c Hhi Hhj. destruct (decide (issuedBy ev = Some c)) as [E|Hne].
    + destruct Hhi as (r & u & Hr & Hl), Hhj as (r' & u' & Hr' & Hl').
      destruct (issued_to_one t now ev c i j r r' u u' Hi Ha E Hr Hl Hr' Hl') as [|(k & x & v & Hk)];
        [done|]. destruct (Hfresh c E). apply (Hs k). by exists x, v.
    + destruct (held_after t now ev i c Hi Ha Hhi) as [H1|]; [|done].
      destruct (held_after t now ev j c Hi Ha Hhj) as [H2|]; [|done]. by apply (Ho i j c).
Qed.

Lemma calls_fenced st st' : rtc callStep st st' -> fenced st -> fenced st'.
Proof. induction 1; eauto using callStep_fenced. Qed.

Lemma reachable_fenced t seen : queueReachable t seen -> fenced (t, seen).
Proof.
  intros Hr. apply (calls_fenced _ _ Hr). split; [apply inv_empty|..]; cbn [fst snd].
  - intros id c (r & u & Hn & _). by rewrite lookup_empty in Hn.
  - intros i j c (r & u & Hn & _). by rewrite lookup_empty in Hn.
Qed.

(** A receipt that was issued and is not held on a row never is again. *)
Lemma lost_receipt st st' id c :
  rtc callStep st st' -> fenced st -> c ∈ snd st -> ~ heldBy (fst st) id c ->
  ~ heldBy (fst st') id c.
Proof.
  induction 1 as [st|st st1 st' Hs _ IH]; intros Hf Hc Hn; [done|].
  apply IH; [by eapply callStep_fenced|..]; destruct Hs as [t seen now ev Ha Hfresh]; cbn [fst snd] in *.
  - destruct (issuedBy ev); set_solver.
  - intros Hh. destruct (held_after t now ev id c (fe_inv _ Hf) Ha Hh) as [?|E]; [done|].
    by apply (Hfresh c).
Qed.

(** A row under a live lease is changed by the holder of its receipt only. *)
Lemma live_row t now ev id r c u :
  tableInv t -> allowed ev -> t !! id = Some r -> leaseOf r = Held c u -> now < u ->
  presented ev <> Some c -> applyCall t now ev !! id = Some r.
Proof.
  intros Hi Ha Hr Hl Hu Hp. pose proof (rows_move t now ev id Hi Ha) as Hm. rewrite Hr in Hm.
  destruct (applyCall t now ev !! id) as [r'|]; [|done].
  destruct Hm as [->| | | | |c0 u0 Hh Hexp]; try congruence.
  rewrite Hl in Hh. injection Hh as -> ->. lia.
Qed.

Lemma live_row_calls t evs id r c u :
  tableInv t -> t !! id = Some r -> leaseOf r = Held c u ->
  Forall (fun p => fst p < u /\ allowed (snd p) /\ presented (snd p) <> Some c) evs ->
  runCalls t evs !! id = Some r.
Proof.
  intros Hi Hr Hl Hevs. revert t Hi Hr.
  induction Hevs as [|[now ev] evs (Hu & Ha & Hp) _ IH]; intros t Hi Hr; [done|].
  unfold runCalls in *. cbn [foldl fst snd] in *.
  apply IH; [by apply inv_apply|by apply (live_row t now ev id r c u)].
Qed.

End protocol.

Arguments LeaseLaws R Ev {_}.

End Lease.
