(* ===== verification/SemanticQueue.v ===== *)
(** * The semantic task queue

    Model of [src/pkg/datastore/semantic_tasks.go] over the task types of
    [src/pkg/semantic/task.go]: the durable queue of one tenant, a SQL table with
    leases.  The table is a finite map from the primary key [task_id] to its row;
    every exported operation is one transaction (or one statement), which the
    database runs atomically, so an operation is a function from table to table.
    Each SQL statement is written out as its effect on the rows its [WHERE] clause
    selects.  The rows that [FOR UPDATE SKIP LOCKED] passes over because another
    transaction holds them are the argument [locked]; the clock, the fresh receipt
    of [uuid.NewString] and the order of result rows with equal keys are arguments.
    A failing connection aborts the transaction and is not modelled; times are exact
    integers, without the rounding of a [DATETIME(3)] column, and string columns
    compare exactly. *)

From S2P Require Import Prelude GoStrings LeaseQueue.

Import GoStr Lease.

Module Queue.

Inductive TaskStatus :=
  | TaskQueued
  | TaskProcessing
  | TaskSucceeded
  | TaskFailed
  | TaskDeadLettered.

#[global] Instance TaskStatus_eq_dec : EqDecision TaskStatus.
Proof. solve_decision. Defined.

Inductive storeError :=
  | ErrTaskRequired
  | ErrUniqueViolation
  | ErrClaimTypeRequired
  | ErrTaskNotFound
  | ErrTaskLeaseMismatch.

(** The Go struct.  The zero [time.Time] and the nil pointer are [None], and so is
    the empty status. *)
Record Task := {
  TaskID : string;
  TaskType : string;
  ResourceID : string;
  ResourceVersion : Z;
  Status : option TaskStatus;
  AttemptCount : Z;
  MaxAttempts : Z;
  Receipt : string;
  LeasedAt : option Z;
  LeaseUntil : option Z;
  AvailableAt : option Z;
  PayloadJSON : bytes;
  LastError : string;
  CreatedAt : option Z;
  UpdatedAt : option Z;
  CompletedAt : option Z
}.

(** A row of [semantic_tasks]; a nullable column is an [option]. *)
Record row := {
  task_id : string;
  task_type : string;
  resource_id : string;
  resource_version : Z;
  status : TaskStatus;
  attempt_count : Z;
  max_attempts : Z;
  receipt : option string;
  leased_at : option Z;
  lease_until : option Z;
  available_at : Z;
  payload_json : option bytes;
  last_error : option string;
  created_at : Z;
  updated_at : Z;
  completed_at : option Z
}.

Abbreviation table := (gmap string row).

Definition defaultSemanticMaxAttempts : Z := 5.
Definition defaultLease : Z := 30 * 1000000000.

Definition nullStr (s : string) : option string :=
  if bool_decide (s = "") then None else Some s.
Definition nilBytes (b : bytes) : option bytes :=
  if bool_decide (b = []) then None else Some b.

(** [scanSemanticTask] of a row. *)
Definition scanSemanticTask (r : row) : Task :=
  {| TaskID := task_id r; TaskType := task_type r; ResourceID := resource_id r;
     ResourceVersion := resource_version r; Status := Some (status r);
     AttemptCount := attempt_count r; MaxAttempts := max_attempts r;
     Receipt := default "" (receipt r); LeasedAt := leased_at r; LeaseUntil := lease_until r;
     AvailableAt := Some (available_at r); PayloadJSON := default [] (payload_json r);
     LastError := default "" (last_error r); CreatedAt := Some (created_at r);
     UpdatedAt := Some (updated_at r); CompletedAt := completed_at r |}.

(** The unique key of a row. *)
Definition resourceKey (r : row) : string * string * Z :=
  (task_type r, resource_id r, resource_version r).
Definition taskKey (t : Task) : string * string * Z :=
  (TaskType t, ResourceID t, ResourceVersion t).

(** The row with a given unique key. *)
Definition rowByResource (t : table) (key : string * string * Z) : option row :=
  snd <$> head (filter (fun kv => resourceKey (snd kv) = key) (map_to_list t)).

Definition semanticTaskExistsByResource (t : table) (key : string * string * Z) : bool :=
  bool_decide (is_Some (rowByResource t key)).

(** ** Enqueue *)

(** The row the [INSERT] of [enqueueSemanticTask] writes. *)
Definition newRow (task : Task) (now : Z) : row :=
  let createdAt := default now (CreatedAt task) in
  {| task_id := TaskID task; task_type := TaskType task; resource_id := ResourceID task;
     resource_version := ResourceVersion task; status := default TaskQueued (Status task);
     attempt_count := AttemptCount task;
     max_attempts := if MaxAttempts task <=? 0 then defaultSemanticMaxAttempts else MaxAttempts task;
     receipt := nullStr (Receipt task); leased_at := LeasedAt task; lease_until := LeaseUntil task;
     available_at := default now (AvailableAt task); payload_json := nilBytes (PayloadJSON task);
     last_error := nullStr (LastError task); created_at := createdAt;
     updated_at := default createdAt (UpdatedAt task); completed_at := CompletedAt task |}.

Definition enqueueSemanticTask (t : table) (otask : option Task) (now : Z)
    : table * (bool + storeError) :=
  match otask with
  | None => (t, inr ErrTaskRequired)
  | Some task =>
      if bool_decide (t !! TaskID task = None)
         && negb (semanticTaskExistsByResource t (taskKey task))
      then (<[TaskID task := newRow task now]> t, inl true)
      else if semanticTaskExistsByResource t (taskKey task) then (t, inl false)
      else (t, inr ErrUniqueViolation)
  end.

Definition EnqueueSemanticTask (t : table) (otask : option Task) (now : Z)
    : table * (bool + storeError) := enqueueSemanticTask t otask now.

(** [LeaseUntil != nil && LeaseUntil.After(now)] *)
Definition leaseLive (lu : option Z) (now : Z) : bool :=
  match lu with
  | Some u => now <? u
  | None => false
  end.

(** The [UPDATE] that puts an existing row back into the queue. *)
Definition requeueRow (r : row) (task : Task) (now : Z) : row :=
  {| task_id := task_id r; task_type := task_type r; resource_id := resource_id r;
     resource_version := resource_version r; status := TaskQueued;
     attempt_count := attempt_count r;
     max_attempts := if 0 <? MaxAttempts task then MaxAttempts task else max_attempts r;
     receipt := None; leased_at := None; lease_until := None;
     available_at := default now (AvailableAt task);
     payload_json := if bool_decide (PayloadJSON task = [])
                     then nilBytes (default [] (payload_json r)) else nilBytes (PayloadJSON task);
     last_error := None; created_at := created_at r; updated_at := now; completed_at := None |}.

(** [ensureSemanticTaskQueuedTx].  The insert reads the clock before and the update
    after, but only one of the two takes effect, so [now] is the reading that counts. *)
Definition ensureSemanticTaskQueuedTx (t : table) (otask : option Task) (now : Z)
    : table * (bool + storeError) :=
  match otask with
  | None => (t, inr ErrTaskRequired)
  | Some task =>
      match enqueueSemanticTask t (Some task) now with
      | (t', inr err) => (t, inr err)
      | (t', inl true) => (t', inl true)
      | (t', inl false) =>
          match rowByResource t' (taskKey task) with
          | None => (t, inr ErrTaskNotFound)
          | Some r =>
              if bool_decide (status r = TaskProcessing) && leaseLive (lease_until r) now
              then (t', inl false)
              else (<[task_id r := requeueRow r task now]> t', inl true)
          end
      end
  end.

(** The transaction around it: an error rolls back. *)
Definition EnsureSemanticTaskQueued (t : table) (otask : option Task) (now : Z)
    : table * (bool + storeError) :=
  match ensureSemanticTaskQueuedTx t otask now with
  | (t', inl queued) => (t', inl queued)
  | (_, inr err) => (t, inr err)
  end.

(** ** Claim *)

(** [normalizeClaimTaskTypes]: reject blank types, drop repeats. *)
Definition normalizeClaimTaskTypes (taskTypes : list string) : list string + storeError :=
  foldl (fun acc ty =>
           match acc with
           | inr e => inr e
           | inl normalized =>
               if isBlank ty then inr ErrClaimTypeRequired
               else if bool_decide (ty ∈ normalized) then inl normalized
               else inl (normalized ++ [ty])
           end)
    (inl []) taskTypes.

(** The [WHERE] clause of the claim query. *)
Definition claimable (now : Z) (types : list string) (r : row) : bool :=
  bool_decide (status r = TaskQueued)
    && (bool_decide (types = []) || bool_decide (task_type r ∈ types))
    && (available_at r <=? now).

(** [ORDER BY available_at, created_at, task_id] *)
Definition claimBefore (a b : row) : bool :=
  (available_at a <? available_at b)
    || ((available_at a =? available_at b)
        && ((created_at a <? created_at b)
            || ((created_at a =? created_at b) && String.ltb (task_id a) (task_id b)))).

(** [LIMIT 1] of the ordered rows. *)
Definition firstRow (l : list row) : option row := firstBy claimBefore l.

(** The claim query, over the rows that are not locked. *)
Definition claimSemanticTaskQuery (t : table) (locked : gset string) (now : Z)
    (types : list string) : option row :=
  firstRow (rowsWhere (fun r => claimable now types r = true /\ task_id r ∉ locked) t).

(** The [UPDATE] of a claim. *)
Definition claimRow (r : row) (rcpt : string) (now lease : Z) : row :=
  {| task_id := task_id r; task_type := task_type r; resource_id := resource_id r;
     resource_version := resource_version r; status := TaskProcessing;
     attempt_count := attempt_count r + 1; max_attempts := max_attempts r;
     receipt := Some rcpt; leased_at := Some now; lease_until := Some (now + lease);
     available_at := available_at r; payload_json := payload_json r; last_error := last_error r;
     created_at := created_at r; updated_at := now; completed_at := completed_at r |}.

(** The returned task: the scanned row with the fields of the lease set. *)
Definition claimedTask (task : Task) (rcpt : string) (now lease : Z) : Task :=
  {| TaskID := TaskID task; TaskType := TaskType task; ResourceID := ResourceID task;
     ResourceVersion := ResourceVersion task; Status := Some TaskProcessing;
     AttemptCount := AttemptCount task + 1; MaxAttempts := MaxAttempts task; Receipt := rcpt;
     LeasedAt := Some now; LeaseUntil := Some (now + lease); AvailableAt := AvailableAt task;
     PayloadJSON := PayloadJSON task; LastError := LastError task; CreatedAt := CreatedAt task;
     UpdatedAt := Some now; CompletedAt := CompletedAt task |}.

Definition claimSemanticTask (t : table) (locked : gset string) (rcpt : string)
    (now leaseDuration : Z) (taskTypes : list string)
    : table * (option Task + storeError) :=
  let lease := if leaseDuration <=? 0 then defaultLease else leaseDuration in
  match normalizeClaimTaskTypes taskTypes with
  | inr e => (t, inr e)
  | inl types =>
      match claimSemanticTaskQuery t locked now types with
      | None => (t, inl None)
      | Some r =>
          match t !! task_id r with
          | Some r' =>
              if bool_decide (status r' = TaskQueued) && (available_at r' <=? now)
              then (<[task_id r := claimRow r' rcpt now lease]> t,
                    inl (Some (claimedTask (scanSemanticTask r) rcpt now lease)))
              else (t, inl None)
          | None => (t, inl None)
          end
      end
  end.

Definition ClaimSemanticTask (t : table) (locked : gset string) (rcpt : string)
    (now leaseDuration : Z) (taskTypes : list string)
    : table * (option Task + storeError) :=
  claimSemanticTask t locked rcpt now leaseDuration taskTypes.

(** ** Lease operations *)

(** [WHERE task_id = ? AND status = processing AND receipt = ? AND lease_until IS
    NOT NULL AND lease_until > ?] *)
Definition owned (t : table) (taskID rcpt : string) (now : Z) : option row :=
  match t !! taskID with
  | Some r =>
      if bool_decide (status r = TaskProcessing) && bool_decide (receipt r = Some rcpt)
         && leaseLive (lease_until r) now
      then Some r else None
  | None => None
  end.

Definition semanticTaskLeaseError (t : table) (taskID : string) : storeError :=
  match t !! taskID with
  | None => ErrTaskNotFound
  | Some _ => ErrTaskLeaseMismatch
  end.

(** A row whose lease is over. *)
Definition releaseRow (st : TaskStatus) (avail : Z) (err : option string) (done : option Z)
    (now : Z) (r : row) : row :=
  {| task_id := task_id r; task_type := task_type r; resource_id := resource_id r;
     resource_version := resource_version r; status := st; attempt_count := attempt_count r;
     max_attempts := max_attempts r; receipt := None; leased_at := None; lease_until := None;
     available_at := avail; payload_json := payload_json r; last_error := err;
     created_at := created_at r; updated_at := now; completed_at := done |}.

Definition AckSemanticTask (t : table) (taskID rcpt : string) (now : Z)
    : table * option storeError :=
  match owned t taskID rcpt now with
  | Some r =>
      (<[taskID := releaseRow TaskSucceeded (available_at r) (last_error r) (Some now) now r]> t, None)
  | None => (t, Some (semanticTaskLeaseError t taskID))
  end.

Definition DeadLetterSemanticTask (t : table) (taskID rcpt lastErr : string) (now : Z)
    : table * option storeError :=
  match owned t taskID rcpt now with
  | Some r =>
      (<[taskID := releaseRow TaskDeadLettered (available_at r) (nullStr lastErr) (Some now) now r]> t,
       None)
  | None => (t, Some (semanticTaskLeaseError t taskID))
  end.

Definition renewRow (r : row) (until now : Z) : row :=
  {| task_id := task_id r; task_type := task_type r; resource_id := resource_id r;
     resource_version := resource_version r; status := status r; attempt_count := attempt_count r;
     max_attempts := max_attempts r; receipt := receipt r; leased_at := leased_at r;
     lease_until := Some until; available_at := available_at r; payload_json := payload_json r;
     last_error := last_error r; created_at := created_at r; updated_at := now;
     completed_at := completed_at r |}.

Definition RenewSemanticTask (t : table) (taskID rcpt : string) (leaseDuration now : Z)
    : table * (Z + storeError) :=
  let lease := if leaseDuration <=? 0 then defaultLease else leaseDuration in
  let until := now + lease in
  match owned t taskID rcpt now with
  | Some r => (<[taskID := renewRow r until now]> t, inl until)
  | None => (t, inr (semanticTaskLeaseError t taskID))
  end.

Definition RetrySemanticTask (t : table) (taskID rcpt : string) (retryAt : option Z)
    (lastErr : string) (now : Z) : table * option storeError :=
  let retryAt := default now retryAt in
  match t !! taskID with
  | None => (t, Some ErrTaskNotFound)
  | Some r =>
      let task := scanSemanticTask r in
      if negb (bool_decide (Status task = Some TaskProcessing))
         || negb (bool_decide (Receipt task = rcpt)) || negb (leaseLive (LeaseUntil task) now)
      then (t, Some ErrTaskLeaseMismatch)
      else if MaxAttempts task <=? AttemptCount task then
        (<[taskID := releaseRow TaskDeadLettered (available_at r) (nullStr lastErr) (Some now) now r]> t,
         None)
      else
        (<[taskID := releaseRow TaskQueued retryAt (nullStr lastErr) None now r]> t, None)
  end.

(** ** Recovery *)

Definition leaseExpired (now : Z) (r : row) : bool :=
  bool_decide (status r = TaskProcessing)
    && match lease_until r with Some u => u <? now | None => false end.

(** A row that recovery requeues. *)
Definition recovered (now : Z) (r : row) : row :=
  releaseRow TaskQueued now (last_error r) (completed_at r) now r.

(** One [UPDATE] of the recovery loop, with the number of affected rows. *)
Definition recoverOne (now : Z) (st : table * Z) (taskID : string) : table * Z :=
  updateIf (leaseExpired now) (recovered now) st taskID.

(** [RecoverExpiredSemanticTasks]; [sorted] is the order of the result rows. *)
Definition RecoverExpiredSemanticTasks (sorted : list row -> list row) (t : table)
    (locked : gset string) (now limit : Z) : table * Z :=
  let rows := sorted (rowsWhere (fun r => leaseExpired now r = true /\ task_id r ∉ locked) t) in
  foldl (recoverOne now) (t, 0) (task_id <$> limitRows limit rows).

(** ** Observation *)

Record SemanticTaskObservation := {
  Queued : Z;
  Processing : Z;
  DeadLettered : Z;
  OldestClaimableAvailableAt : option Z
}.

Definition countStatus (t : table) (st : TaskStatus) : Z :=
  zlen (rowsWhere (fun r => status r = st) t).

Definition ObserveSemanticTasks (t : table) (now : Z) : SemanticTaskObservation :=
  {| Queued := countStatus t TaskQueued; Processing := countStatus t TaskProcessing;
     DeadLettered := countStatus t TaskDeadLettered;
     OldestClaimableAvailableAt :=
       available_at <$> firstRow (rowsWhere (fun r => claimable now [] r = true) t) |}.

(** ** Histories *)

(** The calls a client can make. *)
Inductive event :=
  | Enqueue (task : Task)
  | Ensure (task : Task)
  | Claim (locked : gset string) (rcpt : string) (lease : Z) (types : list string)
  | Ack (id rcpt : string)
  | DeadLetter (id rcpt err : string)
  | Renew (id rcpt : string) (lease : Z)
  | Retry (id rcpt : string) (at_ : option Z) (err : string)
  | Recover (sorted : list row -> list row) (locked : gset string) (limit : Z).

(** The table after a call at time [now]. *)
Definition apply (t : table) (now : Z) (ev : event) : table :=
  match ev with
  | Enqueue task => fst (EnqueueSemanticTask t (Some task) now)
  | Ensure task => fst (EnsureSemanticTaskQueued t (Some task) now)
  | Claim locked rcpt lease types => fst (ClaimSemanticTask t locked rcpt now lease types)
  | Ack id rcpt => fst (AckSemanticTask t id rcpt now)
  | DeadLetter id rcpt err => fst (DeadLetterSemanticTask t id rcpt err now)
  | Renew id rcpt lease => fst (RenewSemanticTask t id rcpt lease now)
  | Retry id rcpt at_ err => fst (RetrySemanticTask t id rcpt at_ err now)
  | Recover sorted locked limit => fst (RecoverExpiredSemanticTasks sorted t locked now limit)
  end.

(** The receipt a lease operation presents, and the one a claim issues. *)
Definition presents (ev : event) : option string :=
  match ev with
  | Ack _ rcpt | DeadLetter _ rcpt _ | Renew _ rcpt _ | Retry _ rcpt _ _ => Some rcpt
  | _ => None
  end.
Definition issues (ev : event) : option string :=
  match ev with Claim _ rcpt _ _ => Some rcpt | _ => None end.

(** A task as producers hand it in: not yet leased. *)
Definition unleased (task : Task) : Prop :=
  (Status task = None \/ Status task = Some TaskQueued) /\ Receipt task = ""
  /\ LeasedAt task = None /\ LeaseUntil task = None.

Definition eventOk (ev : event) : Prop :=
  match ev with
  | Enqueue task | Ensure task => unleased task
  | Claim _ rcpt _ _ => rcpt <> ""
  | Recover sorted _ _ => forall l, sorted l ≡ₚ l
  | _ => True
  end.

(** What a call does to one row: the guard and the new row. *)
Inductive rowStep (now : Z) (ev : event) (r : row) : row -> Prop :=
  | rs_requeue task : ev = Ensure task ->
      bool_decide (status r = TaskProcessing) && leaseLive (lease_until r) now = false ->
      rowStep now ev r (requeueRow r task now)
  | rs_claim rcpt lease : issues ev = Some rcpt -> status r = TaskQueued ->
      available_at r <= now -> 0 < lease -> rowStep now ev r (claimRow r rcpt now lease)
  | rs_renew rcpt until : presents ev = Some rcpt -> status r = TaskProcessing ->
      receipt r = Some rcpt -> leaseLive (lease_until r) now = true -> now < until ->
      rowStep now ev r (renewRow r until now)
  | rs_finish rcpt st avail err : presents ev = Some rcpt -> status r = TaskProcessing ->
      default "" (receipt r) = rcpt -> leaseLive (lease_until r) now = true ->
      st = TaskSucceeded \/ st = TaskDeadLettered ->
      rowStep now ev r (releaseRow st avail err (Some now) now r)
  | rs_retry rcpt avail err : presents ev = Some rcpt -> status r = TaskProcessing ->
      default "" (receipt r) = rcpt -> leaseLive (lease_until r) now = true ->
      attempt_count r < max_attempts r ->
      rowStep now ev r (releaseRow TaskQueued avail err None now r)
  | rs_recover sorted locked limit : ev = Recover sorted locked limit ->
      leaseExpired now r = true -> rowStep now ev r (recovered now r).

(** Rows are stored under their key. *)
Abbreviation keyed := (keyedBy task_id).

(** Each row of a later table: unchanged, new, or one row step. *)
Definition rowChange (t : table) (now : Z) (ev : event) (id : string) (o : option row) : Prop :=
  o = t !! id
  \/ (exists task, (ev = Enqueue task \/ ev = Ensure task) /\ t !! id = None
        /\ o = Some (newRow task now) /\ TaskID task = id
        /\ rowByResource t (taskKey task) = None)
  \/ (exists r r', t !! id = Some r /\ o = Some r' /\ rowStep now ev r r').

Lemma rowChange_insert t now ev id r r' k :
  t !! id = Some r -> rowStep now ev r r' -> rowChange t now ev k (<[id := r']> t !! k).
Proof.
  intros Hr Hs. destruct (decide (k = id)) as [->|].
  - rewrite lookup_insert_eq. right. right. by exists r, r'.
  - rewrite lookup_insert_ne by done. by left.
Qed.

Lemma rowByResource_Some t key r :
  rowByResource t key = Some r -> exists id, t !! id = Some r /\ resourceKey r = key.
Proof.
  unfold rowByResource. destruct (filter _ _) as [|[id r0] l] eqn:E; [done|]. simpl. intros [= <-].
  assert ((id, r0) ∈ filter (fun kv => resourceKey (snd kv) = key) (map_to_list t)) as Hin.
  { rewrite E. set_solver. }
  apply list_elem_of_filter in Hin as [Hk Hin]. apply elem_of_map_to_list in Hin.
  by exists id.
Qed.

Lemma rowByResource_None t key id r :
  rowByResource t key = None -> t !! id = Some r -> resourceKey r <> key.
Proof.
  unfold rowByResource. intros Hn Hr Hk. destruct (filter _ _) as [|p l] eqn:E; [|done].
  assert ((id, r) ∈ filter (fun kv => resourceKey (snd kv) = key) (map_to_list t)) as Hin.
  { apply list_elem_of_filter. split; [done|]. by apply elem_of_map_to_list. }
  rewrite E in Hin. set_solver.
Qed.

Lemma enqueue_change t task now ev k :
  (ev = Enqueue task \/ ev = Ensure task) ->
  rowChange t now ev k (fst (enqueueSemanticTask t (Some task) now) !! k).
Proof.
  intros Hev. unfold enqueueSemanticTask, semanticTaskExistsByResource.
  destruct (rowByResource t (taskKey task)) as [r|] eqn:E.
  - rewrite (bool_decide_true (is_Some (Some r))) by done. rewrite andb_false_r. by left.
  - rewrite (bool_decide_false (is_Some None)) by (by intros []). rewrite andb_true_r.
    case_bool_decide as Hn; [|by left]. simpl. destruct (decide (k = TaskID task)) as [->|].
    + rewrite lookup_insert_eq. right. left. by exists task.
    + rewrite lookup_insert_ne by done. by left.
Qed.

Lemma ensure_change t task now k :
  keyed t -> rowChange t now (Ensure task) k (apply t now (Ensure task) !! k).
Proof.
  intros Hkey. unfold apply, EnsureSemanticTaskQueued, ensureSemanticTaskQueuedTx.
  pose proof (enqueue_change t task now (Ensure task) k (or_intror eq_refl)) as He.
  unfold enqueueSemanticTask in *.
  destruct (bool_decide (t !! TaskID task = None) && negb (semanticTaskExistsByResource t (taskKey task)));
    [exact He|]. destruct (semanticTaskExistsByResource t (taskKey task)); [|by left].
  destruct (rowByResource t (taskKey task)) as [r|] eqn:Er; [|by left].
  apply rowByResource_Some in Er as (id & Hr & _). rewrite (Hkey _ _ Hr).
  destruct (_ && _) eqn:Ec; [by left|]. simpl. eapply rowChange_insert; [done|].
  by apply (rs_requeue _ _ _ task).
Qed.

(** ** Claims *)

(** The first two keys of the claim order, as a preorder. *)
Definition olderEq (a b : row) : Prop :=
  available_at a < available_at b
  \/ (available_at a = available_at b /\ created_at a <= created_at b).

Lemma claimBefore_older a b : claimBefore a b = true -> olderEq a b.
Proof.
  unfold claimBefore, olderEq. intros H. bool_prop. destruct H as [H|H]; bool_prop; [lia|].
  match goal with H : _ \/ _ |- _ => destruct H as [H|H] end; bool_prop; lia.
Qed.

Lemma claimBefore_not_older a b : claimBefore a b = false -> olderEq b a.
Proof.
  unfold claimBefore, olderEq. intros H. bool_prop.
  match goal with H : _ \/ _ |- _ => destruct H as [H|H] end; bool_prop; lia.
Qed.

Lemma olderEq_trans a b c : olderEq a b -> olderEq b c -> olderEq a c.
Proof. unfold olderEq. lia. Qed.

(** The row [LIMIT 1] returns is in the list and no row is older. *)
Lemma firstRow_spec l :
  match firstRow l with
  | None => l = []
  | Some r => r ∈ l /\ forall r', r' ∈ l -> olderEq r r'
  end.
Proof.
  apply firstBy_spec; [unfold olderEq; lia|apply olderEq_trans|apply claimBefore_older|].
  apply claimBefore_not_older.
Qed.

(** A row a claim may take. *)
Definition eligible (t : table) (locked : gset string) (now : Z) (types : list string) (r : row)
    : Prop :=
  t !! task_id r = Some r /\ claimable now types r = true /\ task_id r ∉ locked.

Lemma claimQuery_spec t locked now types :
  keyed t ->
  match claimSemanticTaskQuery t locked now types with
  | None => forall r, ~ eligible t locked now types r
  | Some r => eligible t locked now types r
              /\ forall r', eligible t locked now types r' -> olderEq r r'
  end.
Proof.
  intros Hk. unfold claimSemanticTaskQuery. set (P := fun r => _ /\ _).
  pose proof (firstRow_spec (rowsWhere P t)) as H.
  destruct (firstRow _) as [r|].
  - destruct H as [Hr Hmin]. apply (elem_of_rowsWhere task_id) in Hr as [[Hc Hl] Hr]; [|done].
    split; [done|]. intros r' (Hr' & Hc' & Hl'). apply Hmin. by apply (elem_of_rowsWhere task_id).
  - intros r (Hr & Hc & Hl).
    assert (r ∈ rowsWhere P t) as Hin by by apply (elem_of_rowsWhere task_id).
    rewrite H in Hin. set_solver.
Qed.

Lemma claimable_true now types r :
  claimable now types r = true ->
  status r = TaskQueued /\ available_at r <= now /\ (types = [] \/ task_type r ∈ types).
Proof.
  unfold claimable. intros H. bool_prop. split_and!; [done|done|].
  match goal with H : _ \/ _ |- _ => destruct H as [H|H] end; bool_prop; eauto.
Qed.

(** The effect of a claim whose types are valid. *)
Lemma claim_effect t locked rcpt now d tys types :
  keyed t -> normalizeClaimTaskTypes tys = inl types ->
  let lease := if d <=? 0 then defaultLease else d in
  claimSemanticTask t locked rcpt now d tys
  = match claimSemanticTaskQuery t locked now types with
    | None => (t, inl None)
    | Some r => (<[task_id r := claimRow r rcpt now lease]> t,
                 inl (Some (scanSemanticTask (claimRow r rcpt now lease))))
    end.
Proof.
  intros Hk Hn lease. unfold claimSemanticTask. rewrite Hn.
  pose proof (claimQuery_spec t locked now types Hk) as Hq.
  destruct (claimSemanticTaskQuery t locked now types) as [r|]; [|done].
  destruct Hq as [(Hr & Hc & _) _]. apply claimable_true in Hc as (Hs & Ha & _). rewrite Hr.
  rewrite bool_decide_true by done. rewrite (proj2 (Z.leb_le _ _) Ha). done.
Qed.

Lemma claim_change t locked rcpt now d tys k :
  keyed t ->
  rowChange t now (Claim locked rcpt d tys) k (apply t now (Claim locked rcpt d tys) !! k).
Proof.
  intros Hk. cbn [apply]. unfold ClaimSemanticTask.
  destruct (normalizeClaimTaskTypes tys) as [types|e] eqn:En.
  - rewrite (claim_effect t locked rcpt now d tys types Hk En).
    pose proof (claimQuery_spec t locked now types Hk) as Hq.
    destruct (claimSemanticTaskQuery t locked now types) as [r|]; [|by left].
    destruct Hq as [(Hr & Hc & _) _]. apply claimable_true in Hc as (Hs & Ha & _).
    cbn [fst]. eapply rowChange_insert; [done|]. apply rs_claim; [done..|].
    case_if; bool_prop; [done|lia].
  - left. unfold claimSemanticTask. by rewrite En.
Qed.

(** ** Lease operations *)

Lemma owned_Some t id rcpt now r :
  owned t id rcpt now = Some r <->
  t !! id = Some r /\ status r = TaskProcessing /\ receipt r = Some rcpt
  /\ leaseLive (lease_until r) now = true.
Proof.
  unfold owned. destruct (t !! id) as [r'|]; [|naive_solver].
  case_if; bool_prop; [naive_solver|]. split; [done|]. intros (E & Hs & Hr & Hl). simplify_eq.
  destruct Eif as [[]%andb_false_iff|]; bool_prop; congruence.
Qed.

(** The guard of [RetrySemanticTask]. *)
Lemma retry_guard (r : row) rcpt now :
  negb (bool_decide (Status (scanSemanticTask r) = Some TaskProcessing))
    || negb (bool_decide (Receipt (scanSemanticTask r) = rcpt))
    || negb (leaseLive (LeaseUntil (scanSemanticTask r)) now) = false ->
  status r = TaskProcessing /\ default "" (receipt r) = rcpt
  /\ leaseLive (lease_until r) now = true.
Proof. intros H. bool_prop. simpl in *. naive_solver. Qed.

Lemma lease_change t now ev k :
  is_Some (presents ev) -> rowChange t now ev k (apply t now ev !! k).
Proof.
  intros [c Hc]. destruct ev; try done; cbn [apply]; injection Hc as <-.
  - unfold AckSemanticTask. destruct (owned _ _ _ _) as [r|] eqn:E; [|by left].
    apply owned_Some in E as (Hr & Hs & Hrc & Hl). simpl. eapply rowChange_insert; [done|].
    eapply rs_finish; [done..| |done|by left]. by rewrite Hrc.
  - unfold DeadLetterSemanticTask. destruct (owned _ _ _ _) as [r|] eqn:E; [|by left].
    apply owned_Some in E as (Hr & Hs & Hrc & Hl). simpl. eapply rowChange_insert; [done|].
    eapply rs_finish; [done..| |done|by right]. by rewrite Hrc.
  - unfold RenewSemanticTask. destruct (owned _ _ _ _) as [r|] eqn:E; [|by left].
    apply owned_Some in E as (Hr & Hs & Hrc & Hl). cbn [fst]. eapply rowChange_insert; [done|].
    eapply rs_renew; [done..|]. case_if; bool_prop; unfold defaultLease; lia.
  - unfold RetrySemanticTask. destruct (t !! id) as [r|] eqn:Hr; [|by left].
    destruct (_ || _) eqn:E; [by left|]. apply retry_guard in E as (Hs & Hrc & Hl).
    case_if; cbn [fst]; (eapply rowChange_insert; [done|]).
    + eapply rs_finish; try done. by right.
    + bool_prop. by eapply rs_retry.
Qed.

(** ** Recovery *)

(** The ids one recovery works on. *)
Definition recoverIDs (sorted : list row -> list row) (t : table) (locked : gset string)
    (now limit : Z) : list string :=
  selectedIDs task_id sorted (fun r => leaseExpired now r = true /\ task_id r ∉ locked) limit t.

Lemma recover_effect sorted t locked now limit :
  keyed t -> (forall l, sorted l ≡ₚ l) ->
  let ids := recoverIDs sorted t locked now limit in
  updatedRows (leaseExpired now) (recovered now) ids t
    (fst (RecoverExpiredSemanticTasks sorted t locked now limit))
  /\ snd (RecoverExpiredSemanticTasks sorted t locked now limit) = zlen ids.
Proof.
  intros Hk Hs ids. destruct (selectedIDs_spec task_id sorted
    (fun r => leaseExpired now r = true /\ task_id r ∉ locked) limit t Hk Hs) as [Hnd Hin].
  apply (updateIf_loop (leaseExpired now) (recovered now) t ids Hnd).
  intros id Hid. destruct (Hin id Hid) as (r & Hr & He & _). eauto.
Qed.

(** What every call does to each row. *)
Lemma apply_change t now ev k :
  keyed t -> eventOk ev -> rowChange t now ev k (apply t now ev !! k).
Proof.
  intros Hk Hok. destruct ev.
  - apply (enqueue_change t task now). by left.
  - by apply ensure_change.
  - by apply claim_change.
  - by apply lease_change.
  - by apply lease_change.
  - by apply lease_change.
  - by apply lease_change.
  - cbn [apply]. destruct (recover_effect sorted t locked now limit Hk Hok) as [Ht _].
    specialize (Ht k). destruct (t !! k) as [r|] eqn:Hr; [|left; congruence].
    destruct (leaseExpired now r && _) eqn:E; [|left; congruence]. bool_prop.
    right. right. exists r, (recovered now r). split_and!; [done..|].
    by eapply rs_recover.
Qed.

(** ** The queue implements the lease protocol *)

(** The lease columns are set exactly while the row is processing. *)
Definition rowOk (r : row) : Prop :=
  if decide (status r = TaskProcessing)
  then (exists c, receipt r = Some c /\ c <> "") /\ is_Some (leased_at r) /\ is_Some (lease_until r)
  else receipt r = None /\ leased_at r = None /\ lease_until r = None.

Record tableOk (t : table) : Prop := {
  ok_keyed : keyed t;
  ok_rows : forall id r, t !! id = Some r -> rowOk r;
  ok_resources : forall i j r r', t !! i = Some r -> t !! j = Some r' ->
    resourceKey r = resourceKey r' -> i = j
}.

(** The lease of a row. *)
Definition rowLease (r : row) : lease :=
  match receipt r, lease_until r with
  | Some c, Some u => if bool_decide (status r = TaskProcessing) then Held c u else Free
  | _, _ => Free
  end.

#[export] Instance queueOps : LeaseOps row event := {|
  leaseOf := rowLease; applyCall := apply; presented := presents; issuedBy := issues;
  allowed := eventOk; tableInv := tableOk |}.

(** A processing row is held under its receipt. *)
Lemma rowLease_processing r :
  rowOk r -> status r = TaskProcessing ->
  exists c u, receipt r = Some c /\ c <> "" /\ lease_until r = Some u /\ rowLease r = Held c u.
Proof.
  unfold rowOk, rowLease. intros Hr Hs. rewrite decide_True in Hr by done.
  destruct Hr as ((c & Hc & Hne) & _ & [u Hu]). exists c, u. rewrite Hc, Hu.
  by rewrite bool_decide_true.
Qed.

Lemma rowLease_held r c u :
  rowLease r = Held c u -> status r = TaskProcessing /\ receipt r = Some c /\ lease_until r = Some u.
Proof.
  unfold rowLease. destruct (receipt r), (lease_until r); try done.
  case_bool_decide; [|done]. by intros [= -> ->].
Qed.

Lemma rowLease_free r : status r <> TaskProcessing -> rowLease r = Free.
Proof.
  intros Hs. unfold rowLease. destruct (receipt r), (lease_until r); try done.
  by rewrite bool_decide_false.
Qed.

(** A row step keeps the identity of the row. *)
Lemma rowStep_id now ev r r' :
  rowStep now ev r r' -> task_id r' = task_id r /\ resourceKey r' = resourceKey r.
Proof. by intros []. Qed.

Lemma newRow_ok task now : unleased task -> rowOk (newRow task now) /\ receipt (newRow task now) = None.
Proof.
  intros (Hs & Hr & Hl & Hu). unfold rowOk, newRow. simpl. rewrite Hr, Hl, Hu.
  destruct Hs as [-> | ->]; done.
Qed.

Lemma rowStep_ok now ev r r' : eventOk ev -> rowStep now ev r r' -> rowOk r -> rowOk r'.
Proof.
  intros Hok Hs Hr. destruct Hs as [task Hev|rcpt lease Hi|rcpt until Hp Hst Hrc|rcpt st avail err Hp Hst Hrc Hl Hst'|rcpt avail err Hp|sorted locked limit].
  - done.
  - unfold rowOk. simpl. destruct ev; try done. injection Hi as ->. simpl in Hok. eauto.
  - unfold rowOk in *. simpl. rewrite decide_True in Hr |- * by done.
    destruct Hr as (? & ? & ?). eauto.
  - unfold rowOk. simpl. destruct Hst' as [-> | ->]; done.
  - done.
  - done.
Qed.

(** Where a row of the next table comes from. *)
Lemma apply_row t now ev id r' :
  tableOk t -> eventOk ev -> apply t now ev !! id = Some r' ->
  (exists r, t !! id = Some r /\ (r' = r \/ rowStep now ev r r'))
  \/ (exists task, t !! id = None /\ r' = newRow task now /\ TaskID task = id /\ unleased task
        /\ (ev = Enqueue task \/ ev = Ensure task) /\ rowByResource t (taskKey task) = None).
Proof.
  intros Ht Hok Hr'.
  destruct (apply_change t now ev id (ok_keyed _ Ht) Hok) as [E|[(task & Hev & Hn & E & Hid & Hu)|(r & r1 & Hr & E & Hs)]];
    rewrite Hr' in E.
  - left. exists r'. eauto.
  - right. exists task. simplify_eq. split_and!; try done. by destruct Hev as [-> | ->].
  - left. simplify_eq. eauto.
Qed.

Lemma apply_keyed t now ev : keyed t -> eventOk ev -> keyed (apply t now ev).
Proof.
  intros Hk Hok id r' Hr'.
  destruct (apply_change t now ev id Hk Hok) as [E|[(task & Hev & Hn & E & Hid & Hu)|(r & r1 & Hr & E & Hs)]];
    rewrite Hr' in E.
  - by apply Hk.
  - by simplify_eq.
  - simplify_eq. rewrite (proj1 (rowStep_id _ _ _ _ Hs)). by apply Hk.
Qed.

Lemma claim_once t locked rcpt now d tys :
  keyed t ->
  apply t now (Claim locked rcpt d tys) = t
  \/ exists r lease, t !! task_id r = Some r
       /\ apply t now (Claim locked rcpt d tys) = <[task_id r := claimRow r rcpt now lease]> t.
Proof.
  intros Hk. cbn [apply]. unfold ClaimSemanticTask.
  destruct (normalizeClaimTaskTypes tys) as [types|e] eqn:En.
  - rewrite (claim_effect t locked rcpt now d tys types Hk En).
    pose proof (claimQuery_spec t locked now types Hk) as Hq.
    destruct (claimSemanticTaskQuery t locked now types) as [r|]; [right|by left].
    destruct Hq as [(Hr & _) _]. eauto.
  - left. unfold claimSemanticTask. by rewrite En.
Qed.

(** The unique key of a row of the next table is an old one or a free one. *)
Lemma apply_resource t now ev i j r r' :
  tableOk t -> eventOk ev -> apply t now ev !! i = Some r -> apply t now ev !! j = Some r' ->
  resourceKey r = resourceKey r' -> i = j.
Proof.
  intros Ht Hok Hr Hr' E.
  assert (forall id r, apply t now ev !! id = Some r ->
    (exists r0, t !! id = Some r0 /\ resourceKey r0 = resourceKey r)
    \/ (exists task, (ev = Enqueue task \/ ev = Ensure task) /\ TaskID task = id
          /\ resourceKey r = taskKey task /\ rowByResource t (taskKey task) = None)) as H.
  { intros id x Hx. destruct (apply_row t now ev id x Ht Hok Hx)
      as [(r0 & H0 & [-> | Hs])|(task & Hn & -> & Hid & Hu & Hev & Hf)].
    - eauto.
    - left. exists r0. by rewrite (proj2 (rowStep_id _ _ _ _ Hs)).
    - right. by exists task. }
  destruct (H i r Hr) as [(r0 & H0 & E0)|(k0 & Hev0 & <- & E0 & Hf0)];
    destruct (H j r' Hr') as [(r1 & H1 & E1)|(k1 & Hev1 & <- & E1 & Hf1)].
  - eapply (ok_resources _ Ht); [done..|congruence].
  - edestruct (rowByResource_None _ _ _ _ Hf1 H0). congruence.
  - edestruct (rowByResource_None _ _ _ _ Hf0 H1). congruence.
  - naive_solver.
Qed.

Lemma apply_ok t now ev : tableOk t -> eventOk ev -> tableOk (apply t now ev).
Proof.
  intros Ht Hok. split.
  - by apply apply_keyed; [apply Ht|].
  - intros id r' Hr'. destruct (apply_row t now ev id r' Ht Hok Hr')
      as [(r & Hr & [-> | Hs])|(task & Hn & -> & Hid & Hu & _)].
    + by eapply ok_rows.
    + eapply rowStep_ok; [done..|]. by eapply ok_rows.
    + by apply newRow_ok.
  - intros i j r r' Hr Hr' E. by eapply (apply_resource t now ev).
Qed.

(** A row step is a move of the protocol. *)
Lemma rowStep_move now ev r r' : rowOk r -> rowStep now ev r r' -> rowMove now ev r r'.
Proof.
  intros Hr Hs.
  destruct Hs as [task Hev Hf|rcpt lease Hi Hq|rcpt until Hp Hst Hrc Hl|rcpt st avail err Hp Hst Hrc Hl Hst'
                 |rcpt avail err Hp Hst Hrc Hl|sorted locked limit Hev He].
  - destruct (decide (status r = TaskProcessing)) as [Hst|Hst].
    + destruct (rowLease_processing r Hr Hst) as (c & u & _ & _ & Hu & Hh).
      rewrite bool_decide_true, Hu in Hf by done. simpl in Hf. bool_prop.
      eapply rm_expire; [exact Hh|lia|done].
    + apply rm_free; [by apply rowLease_free|done].
  - eapply rm_take; [exact Hi|apply rowLease_free; congruence|done].
  - destruct (rowLease_processing r Hr Hst) as (c & u & Hc & _ & Hu & Hh).
    assert (rcpt = c) as -> by congruence. rewrite Hu in Hl. simpl in Hl. bool_prop.
    eapply (rm_renew _ _ _ _ c u until); [done|exact Hh|done|]. cbn. unfold rowLease. simpl.
    by rewrite Hc, bool_decide_true.
  - destruct (rowLease_processing r Hr Hst) as (c & u & Hc & _ & Hu & Hh).
    rewrite Hc in Hrc. simpl in Hrc. subst rcpt. rewrite Hu in Hl. simpl in Hl. bool_prop.
    by eapply rm_release; [done|exact Hh|done|].
  - destruct (rowLease_processing r Hr Hst) as (c & u & Hc & _ & Hu & Hh).
    rewrite Hc in Hrc. simpl in Hrc. subst rcpt. rewrite Hu in Hl. simpl in Hl. bool_prop.
    by eapply rm_release; [done|exact Hh|done|].
  - unfold leaseExpired in He. bool_prop.
    destruct (rowLease_processing r Hr ltac:(done)) as (c & u & Hc & _ & Hu & Hh).
    rewrite Hu in *. bool_prop. eapply rm_expire; [exact Hh|lia|done].
Qed.

#[export] Instance queueLaws : LeaseLaws row event.
Proof.
  split.
  - split; unfold keyedBy; intros *; by rewrite lookup_empty.
  - exact apply_ok.
  - intros t now ev id Ht Hok.
    destruct (apply_change t now ev id (ok_keyed _ Ht) Hok)
      as [E|[(task & Hev & Hn & E & Hid & Hu)|(r & r' & Hr & E & Hs)]]; cbn [applyCall queueOps].
    + rewrite E. destruct (t !! id); [by apply rm_same|done].
    + rewrite E, Hn. cbn. unfold rowLease. rewrite (proj2 (newRow_ok task now ltac:(by destruct Hev as [-> | ->]))).
      done.
    + rewrite E, Hr. apply rowStep_move; [by apply (ok_rows _ Ht id)|done].
  - cbn. intros t now ev c i j r r' u u' Ht Hok Hi Hr Hl Hr' Hl'.
    destruct ev as [| |locked rcpt d types| | | | |]; try done. injection Hi as ->.
    destruct (claim_once t locked c now d types (ok_keyed _ Ht)) as [E|(r0 & l0 & H0 & E)];
      rewrite E in Hr, Hr'; [right; by exists i, r, u|].
    apply lookup_insert_Some in Hr as [[<- _]|[_ Hr]]; [|right; by exists i, r, u].
    apply lookup_insert_Some in Hr' as [[<- _]|[_ Hr']]; [by left|right; by exists j, r', u'].
Qed.

(** ** Properties *)

(** In every reachable state of the queue the lease columns and the status of a
    row agree (a receipt, a start and an end exactly while it is processing), no
    receipt is held by two rows, and no two rows are for the same version of the
    same resource. *)
Theorem queue_invariant t seen id r :
  queueReachable t seen -> t !! id = Some r ->
  task_id r = id
  /\ (if decide (status r = TaskProcessing)
      then (exists c, receipt r = Some c /\ c <> "" /\ c ∈ seen)
           /\ is_Some (leased_at r) /\ is_Some (lease_until r)
      else receipt r = None /\ leased_at r = None /\ lease_until r = None)
  /\ forall id' r', t !! id' = Some r' ->
       resourceKey r' = resourceKey r \/ (exists c, receipt r = Some c /\ receipt r' = Some c) ->
       id' = id.
Proof.
  intros Hre Hr. apply reachable_fenced in Hre as [Ht Hseen Honce]. cbn [fst snd] in *.
  assert (forall id r c, t !! id = Some r -> receipt r = Some c -> heldBy t id c) as Hheld.
  { intros k x c Hx Hc. pose proof (ok_rows _ Ht k x Hx) as Hok.
    destruct (decide (status x = TaskProcessing)) as [Hst|Hst].
    - destruct (rowLease_processing x Hok Hst) as (c' & u & Hc' & _ & _ & Hl).
      exists x, u. split; [done|]. cbn. by simplify_eq.
    - unfold rowOk in Hok. rewrite decide_False in Hok by done. destruct Hok. congruence. }
  split; [by apply (ok_keyed _ Ht)|]. split.
  - pose proof (ok_rows _ Ht id r Hr) as H. unfold rowOk in H. case_decide; [|done].
    destruct H as [(c & Hc & Hne) H]. split; [|done]. exists c. split_and!; [done..|]. eauto.
  - intros id' r' Hr' [E|(c & Hc & Hc')].
    + by eapply (ok_resources _ Ht).
    + eauto.
Qed.

(** Without the receipt every lease operation fails and changes nothing. *)
Lemma unheld_fails t id c now :
  tableOk t -> ~ heldBy t id c ->
  let e := match t !! id with Some _ => ErrTaskLeaseMismatch | None => ErrTaskNotFound end in
  AckSemanticTask t id c now = (t, Some e)
  /\ (forall err, DeadLetterSemanticTask t id c err now = (t, Some e))
  /\ (forall d, RenewSemanticTask t id c d now = (t, inr e))
  /\ (forall at_ err, RetrySemanticTask t id c at_ err now = (t, Some e)).
Proof.
  intros Ht Hn e.
  assert (forall r, t !! id = Some r -> status r = TaskProcessing -> receipt r <> Some c) as Hno.
  { intros r Hr Hst Hc. destruct (rowLease_processing r (ok_rows _ Ht id r Hr) Hst) as (c' & u & Hc' & _ & _ & Hl).
    destruct Hn. exists r, u. split; [done|]. cbn. by simplify_eq. }
  assert (owned t id c now = None) as Ho.
  { destruct (owned t id c now) as [r|] eqn:E; [|done]. apply owned_Some in E as (Hr & Hst & Hc & _).
    by destruct (Hno r Hr Hst). }
  assert (semanticTaskLeaseError t id = e) as He.
  { unfold semanticTaskLeaseError, e. by destruct (t !! id). }
  unfold AckSemanticTask, DeadLetterSemanticTask, RenewSemanticTask. rewrite Ho, He.
  split_and!; [done..|]. intros at_ err. unfold RetrySemanticTask, e.
  destruct (t !! id) as [r|] eqn:Hr; [|done]. destruct (_ || _) eqn:E; [done|].
  apply retry_guard in E as (Hs & Hrc & _). destruct (Hno r eq_refl Hs).
  destruct (rowLease_processing r (ok_rows _ Ht id r Hr) Hs) as (c' & u & Hc' & _).
  rewrite Hc' in Hrc |- *. simpl in Hrc. congruence.
Qed.

(** C21: receipts fence stale workers.  Once a task is no longer held under a receipt
    that was issued, because it was completed, retried, recovered or requeued, no
    later sequence of calls makes that receipt valid for it again: ack,
    dead-lettering, renewal and retry with it all fail, with "not found" or "lease
    mismatch", and leave the table unchanged. *)
Theorem stale_receipt_fenced t seen t' seen' id c now :
  queueReachable t seen -> c ∈ seen -> ~ heldBy t id c -> rtc callStep (t, seen) (t', seen') ->
  let e := match t' !! id with Some _ => ErrTaskLeaseMismatch | None => ErrTaskNotFound end in
  AckSemanticTask t' id c now = (t', Some e)
  /\ (forall err, DeadLetterSemanticTask t' id c err now = (t', Some e))
  /\ (forall d, RenewSemanticTask t' id c d now = (t', inr e))
  /\ (forall at_ err, RetrySemanticTask t' id c at_ err now = (t', Some e)).
Proof.
  intros Hre Hc Hn Hs. apply reachable_fenced in Hre as Hf.
  apply unheld_fails; [apply (fe_inv _ (calls_fenced _ _ Hs Hf))|].
  exact (lost_receipt _ _ id c Hs Hf Hc Hn).
Qed.

(** C25: a lease is exclusive.  While it has not run out, no sequence of calls by
    others (enqueues, requeues, claims, recoveries, and lease operations with any
    other receipt) changes the leased row, and its holder can still complete it. *)
Theorem lease_exclusive t seen id r c u evs now :
  queueReachable t seen -> t !! id = Some r -> receipt r = Some c -> lease_until r = Some u ->
  Forall (fun p => fst p < u /\ eventOk (snd p) /\ presents (snd p) <> Some c) evs ->
  now < u ->
  runCalls t evs !! id = Some r
  /\ AckSemanticTask (runCalls t evs) id c now
     = (<[id := releaseRow TaskSucceeded (available_at r) (last_error r) (Some now) now r]>
          (runCalls t evs), None).
Proof.
  intros Hre Hr Hc Hu Hevs Hnow. apply reachable_fenced in Hre as [Ht _ _]. cbn [fst] in Ht.
  assert (status r = TaskProcessing) as Hst.
  { pose proof (ok_rows _ Ht id r Hr) as H. unfold rowOk in H. case_decide; [done|].
    destruct H as [H _]. congruence. }
  assert (runCalls t evs !! id = Some r) as H.
  { apply (live_row_calls t evs id r c u Ht Hr); [|done]. cbn. unfold rowLease.
    by rewrite Hc, Hu, bool_decide_true. }
  split; [done|]. unfold AckSemanticTask.
  assert (owned (runCalls t evs) id c now = Some r) as ->; [|done].
  apply owned_Some. split_and!; [done..|]. rewrite Hu. simpl. lia.
Qed.

(** [normalizeClaimTaskTypes] fails on a blank type and keeps the set of types. *)
Lemma normalize_spec tys :
  match normalizeClaimTaskTypes tys with
  | inl types => Forall (fun ty => isBlank ty = false) tys /\ NoDup types
                 /\ forall ty, ty ∈ types <-> ty ∈ tys
  | inr e => e = ErrClaimTypeRequired /\ Exists (fun ty => isBlank ty = true) tys
  end.
Proof.
  induction tys as [|ty tys IH] using rev_ind.
  { simpl. split_and!; [done|constructor|done]. }
  unfold normalizeClaimTaskTypes in *. rewrite foldl_app. cbn [foldl].
  destruct (foldl _ (inl []) tys) as [types|e].
  - destruct IH as (Hf & Hnd & Hin). destruct (isBlank ty) eqn:Eb.
    + split; [done|]. apply Exists_app. right. by constructor.
    + case_bool_decide as Hty.
      * split_and!; [apply Forall_app; split; [done|by repeat constructor]|done|].
        set_solver.
      * split_and!; [apply Forall_app; split; [done|by repeat constructor]| |set_solver].
        apply NoDup_app. split_and!; [done|set_solver|apply NoDup_singleton].
  - destruct IH as [-> He]. split; [done|]. apply Exists_app. by left.
Qed.

Lemma claimable_types now types types' r :
  (forall ty, ty ∈ types <-> ty ∈ types') -> claimable now types r = claimable now types' r.
Proof.
  intros H. unfold claimable. f_equal. f_equal. f_equal; apply bool_decide_ext; [|apply H].
  split; intros ->; [destruct types' as [|x l]|destruct types as [|x l]]; try done;
    destruct (H x); set_solver.
Qed.

Lemma eligible_types t locked now types types' r :
  (forall ty, ty ∈ types <-> ty ∈ types') ->
  eligible t locked now types r <-> eligible t locked now types' r.
Proof. intros H. unfold eligible. by rewrite (claimable_types now types types' r H). Qed.

(** A claim with a blank task type is refused; otherwise, when some queued and
    available task of a requested type is not locked by another transaction, the
    claim leases one than which no such task is older (by availability, then by
    creation), stores the lease and returns the task exactly as stored; and when
    there is none it returns nothing and changes nothing. *)
Theorem claim_oldest t seen locked rcpt now d tys :
  queueReachable t seen ->
  let lease := if d <=? 0 then defaultLease else d in
  let res := ClaimSemanticTask t locked rcpt now d tys in
  (Exists (fun ty => isBlank ty = true) tys /\ res = (t, inr ErrClaimTypeRequired))
  \/ (Forall (fun ty => isBlank ty = false) tys
      /\ (forall r, ~ eligible t locked now tys r) /\ res = (t, inl None))
  \/ (Forall (fun ty => isBlank ty = false) tys
      /\ exists r r', eligible t locked now tys r
           /\ (forall r2, eligible t locked now tys r2 -> olderEq r r2)
           /\ status r' = TaskProcessing /\ receipt r' = Some rcpt
           /\ lease_until r' = Some (now + lease) /\ attempt_count r' = attempt_count r + 1
           /\ resourceKey r' = resourceKey r /\ task_id r' = task_id r
           /\ res = (<[task_id r := r']> t, inl (Some (scanSemanticTask r')))).
Proof.
  intros Hre lease res. apply reachable_fenced, fe_inv, ok_keyed in Hre as Hk.
  pose proof (normalize_spec tys) as Hn. destruct (normalizeClaimTaskTypes tys) as [types|e] eqn:En.
  - right. destruct Hn as (Hf & _ & Hin). unfold res, ClaimSemanticTask.
    rewrite (claim_effect t locked rcpt now d tys types Hk En).
    pose proof (claimQuery_spec t locked now types Hk) as Hq.
    pose proof (fun r => eligible_types t locked now types tys r Hin) as He.
    destruct (claimSemanticTaskQuery t locked now types) as [r|].
    + right. split; [done|]. destruct Hq as [Hr Hmin]. exists r, (claimRow r rcpt now lease).
      split; [by apply He|]. split; [|done]. intros r2 Hr2. by apply Hmin, He.
    + left. split; [done|]. split; [|done]. intros r Hr. by eapply Hq, He.
  - left. destruct Hn as [-> He]. split; [done|]. unfold res, ClaimSemanticTask, claimSemanticTask. by rewrite En.
Qed.

(** Recovery without a limit requeues exactly the expired leases that no other
    transaction holds: afterwards each such task is queued, claimable at once and
    without receipt, every other row is untouched, and the count is the number of
    rows requeued. *)
Theorem recover_requeues_expired sorted t seen locked now limit :
  queueReachable t seen -> (forall l, sorted l ≡ₚ l) -> limit <= 0 ->
  let '(t', n) := RecoverExpiredSemanticTasks sorted t locked now limit in
  (forall id r, t !! id = Some r ->
     if leaseExpired now r && bool_decide (id ∉ locked)
     then exists r', t' !! id = Some r' /\ claimable now [] r' = true /\ receipt r' = None
            /\ attempt_count r' = attempt_count r /\ resourceKey r' = resourceKey r
     else t' !! id = Some r)
  /\ dom t' = dom t
  /\ n = zlen (filter (fun p => leaseExpired now (snd p) = true /\ fst p ∉ locked) (map_to_list t)).
Proof.
  intros Hre Hs Hlim. apply reachable_fenced, fe_inv, ok_keyed in Hre as Hk.
  destruct (recover_effect sorted t locked now limit Hk Hs) as [Ht Hn].
  destruct (RecoverExpiredSemanticTasks _ _ _ _ _) as [t' n]. cbn [fst snd] in *. split_and!.
  - intros id r Hr. specialize (Ht id). rewrite Hr in Ht. rewrite Ht.
    destruct (leaseExpired now r) eqn:He; [|done].
    pose proof (selectedIDs_all task_id sorted (fun r => leaseExpired now r = true /\ task_id r ∉ locked)
      limit t id r Hk Hs Hlim Hr) as Hiff.
    cbn beta in Hiff. rewrite (Hk _ _ Hr) in Hiff. unfold recoverIDs.
    rewrite !andb_true_l. destruct (decide (id ∉ locked)).
    + rewrite !bool_decide_true by tauto. exists (recovered now r). split_and!; try done.
      unfold claimable, recovered. simpl. by rewrite Z.leb_refl.
    + by rewrite !bool_decide_false by tauto.
  - apply set_eq. intros k. rewrite !elem_of_dom, Ht. by destruct (t !! k).
  - rewrite Hn. unfold recoverIDs, selectedIDs, limitRows, zlen.
    rewrite (proj2 (Z.ltb_ge 0 limit) Hlim), length_fmap, Hs.
    apply (length_rowsWhere task_id); [done|]. intros id r Hr. by rewrite (Hk _ _ Hr).
Qed.

(** [EnsureSemanticTaskQueued] on an unleased task fails only when the task id is
    taken by a task for another resource version; otherwise exactly one row is for the
    resource version afterwards, and it is queued without a lease, or, when the call
    answers false, it is being processed under a live lease and nothing changed. *)
Theorem ensure_queues t seen task now :
  queueReachable t seen -> unleased task ->
  let '(t', res) := EnsureSemanticTaskQueued t (Some task) now in
  match res with
  | inr e => e = ErrUniqueViolation /\ t' = t /\ is_Some (t !! TaskID task)
             /\ rowByResource t (taskKey task) = None
  | inl queued =>
      exists id r, t' !! id = Some r /\ resourceKey r = taskKey task
        /\ (forall id' r', t' !! id' = Some r' -> resourceKey r' = taskKey task -> id' = id)
        /\ (if queued then status r = TaskQueued /\ receipt r = None /\ lease_until r = None
                          /\ available_at r = default now (AvailableAt task)
            else t' = t /\ status r = TaskProcessing /\ leaseLive (lease_until r) now = true)
  end.
Proof.
  intros Hre Hu. apply reachable_fenced, fe_inv in Hre as Ht. cbn [fst] in Ht.
  pose proof (apply_ok t now (Ensure task) Ht Hu) as Ht'.
  pose proof (newRow_ok task now Hu) as [_ Hrc]. pose proof Hu as (Hst & _ & _ & Hlu).
  cbn [apply] in Ht'.
  unfold EnsureSemanticTaskQueued, ensureSemanticTaskQueuedTx, enqueueSemanticTask in *.
  assert (forall t' id r, tableOk t' -> t' !! id = Some r -> resourceKey r = taskKey task ->
    forall id' r', t' !! id' = Some r' -> resourceKey r' = taskKey task -> id' = id) as Huniq.
  { intros t' id r Hok Hr E id' r' Hr' E'. eapply (ok_resources _ Hok); [done..|congruence]. }
  unfold semanticTaskExistsByResource in *.
  destruct (rowByResource t (taskKey task)) as [r|] eqn:Er.
  - rewrite (bool_decide_true (is_Some (Some r))), andb_false_r in * by done.
    rewrite Er in *. apply rowByResource_Some in Er as (id & Hr & E).
    destruct (_ && _) eqn:Eg.
    + bool_prop. exists id, r. split_and!; try done. by apply (Huniq t id r).
    + cbn [fst snd] in Ht'. rewrite (ok_keyed _ Ht _ _ Hr) in *.
      exists id, (requeueRow r task now). rewrite lookup_insert_eq. split_and!; try done.
      apply (Huniq _ id (requeueRow r task now)); [done| |done]. by rewrite lookup_insert_eq.
  - rewrite (bool_decide_false (is_Some None)), andb_true_r in * by (by intros []).
    case_bool_decide as Hn; cbn [fst snd] in Ht'.
    + exists (TaskID task), (newRow task now). rewrite lookup_insert_eq. split_and!; try done.
      * apply (Huniq _ (TaskID task) (newRow task now)); [done| |done]. by rewrite lookup_insert_eq.
      * by destruct Hst as [E|E]; simpl; rewrite E.
    + split_and!; try done. by apply not_eq_None_Some.
Qed.

(** A call that neither requeues a finished task nor recovers an expired one; a task
    that is enqueued has attempts left. *)
Definition failsByRetry (ev : event) : Prop :=
  match ev with
  | Enqueue task => AttemptCount task
      < (if MaxAttempts task <=? 0 then defaultSemanticMaxAttempts else MaxAttempts task)
  | Ensure _ | Recover _ _ _ => False
  | _ => True
  end.

(** The attempts a row has used. *)
Definition attemptsOk (r : row) : Prop :=
  attempt_count r <= max_attempts r
  /\ (status r = TaskQueued -> attempt_count r < max_attempts r).

Lemma apply_attempts t now ev :
  keyed t -> eventOk ev -> failsByRetry ev ->
  (forall id r, t !! id = Some r -> attemptsOk r) ->
  forall id r, apply t now ev !! id = Some r -> attemptsOk r.
Proof.
  intros Hk Hok Hf Ha id r' Hr'.
  destruct (apply_change t now ev id Hk Hok) as [E|[(task & Hev & Hn & E & Hid & Hu)|(r & r1 & Hr & E & Hs)]];
    rewrite Hr' in E; simplify_eq.
  - by apply (Ha id).
  - destruct Hev as [-> | ->]; [|done]. unfold attemptsOk. simpl in *. lia.
  - specialize (Ha id r Hr). unfold attemptsOk in *.
    destruct Hs as [task ->|rcpt lease Hi Hq|rcpt until Hpr Hq|rcpt st avail err _ _ _ _ Hst|rcpt avail err|sorted locked limit ->];
      simpl in *; try done.
    + specialize (proj2 Ha Hq). split; [lia|done].
    + split; [lia|]. by destruct Hst as [-> | ->].
    + split; [lia|done].
Qed.

(** While no lease expires, a task that keeps failing is handed out at most
    [max_attempts] times: in every history of enqueues, claims and lease operations
    no row has used more attempts than it has, and a row that can still be claimed
    has one left, so the claim that uses the last one ends in success or in the
    dead-letter state. *)
Theorem attempts_bounded evs id r :
  Forall (fun p => eventOk (snd p) /\ failsByRetry (snd p)) evs ->
  runCalls ∅ evs !! id = Some r ->
  attempt_count r <= max_attempts r
  /\ (status r = TaskQueued -> attempt_count r < max_attempts r).
Proof.
  intros Hevs. revert id r. change (forall id r, runCalls ∅ evs !! id = Some r -> attemptsOk r).
  assert (keyed ∅) as Hk by (intros ??; by rewrite lookup_empty).
  assert (forall id r, (∅ : table) !! id = Some r -> attemptsOk r) as Ha
    by (intros ??; by rewrite lookup_empty).
  revert Hk Ha. generalize (∅ : table).
  induction Hevs as [|[now ev] evs [Hok Hf] _ IH]; intros t Hk Ha; [done|].
  unfold runCalls in *. cbn [foldl fst snd] in *.
  apply IH; [by apply apply_keyed|by apply apply_attempts].
Qed.

(** ** Witnesses *)

(** An embedding task for version [v] of a file, as the producers write it. *)
Definition embedTask (id file : string) (v : Z) : Task :=
  {| TaskID := id; TaskType := "embed"; ResourceID := file; ResourceVersion := v; Status := None;
     AttemptCount := 0; MaxAttempts := 2; Receipt := ""; LeasedAt := None; LeaseUntil := None;
     AvailableAt := None; PayloadJSON := []; LastError := ""; CreatedAt := None;
     UpdatedAt := None; CompletedAt := None |}.

Lemma embedTask_unleased id file v : unleased (embedTask id file v).
Proof. split_and!; try done. by left. Qed.

Definition tA := embedTask "a" "f1" 1.
Definition tB := embedTask "b" "f2" 1.

(** Two tasks are enqueued, the first is claimed for ten units with receipt [r1]. *)
Definition demoEvents : list (Z * event) :=
  [(0, Enqueue tA); (1, Enqueue tB); (2, Claim ∅ "r1" 10 [])].
Definition demo : table := runCalls ∅ demoEvents.

Lemma demo_reachable : queueReachable demo {["r1"]}.
Proof.
  unfold demo, runCalls, demoEvents. cbn [foldl fst snd].
  eapply rtc_l; [exact (call_step ∅ ∅ 0 (Enqueue tA) (embedTask_unleased _ _ _) ltac:(done))|].
  eapply rtc_l; [exact (call_step _ ∅ 1 (Enqueue tB) (embedTask_unleased _ _ _) ltac:(done))|].
  eapply rtc_l; [|apply rtc_refl].
  replace {["r1"]} with ({["r1"]} ∪ ∅ : gset string) by (vm_compute; reflexivity).
  refine (call_step _ ∅ 2 (Claim ∅ "r1" 10 []) _ _); [done|]. intros c _. set_solver.
Qed.

(** The rows of the demo table. *)
Definition demoRow (id : string) : row := default (newRow tA 0) (demo !! id).

Lemma demo_a : demo !! "a" = Some (demoRow "a").
Proof. vm_compute. reflexivity. Qed.

Lemma queue_invariant_witness :
  status (demoRow "a") = TaskProcessing
  /\ forall id' r', demo !! id' = Some r' -> resourceKey r' = resourceKey (demoRow "a") -> id' = "a".
Proof.
  split; [vm_compute; reflexivity|]. intros id' r' Hr' E.
  destruct (queue_invariant demo {["r1"]} "a" (demoRow "a") demo_reachable demo_a) as (_ & _ & H).
  exact (H id' r' Hr' (or_introl E)).
Defined.

(** The lease of [r1] expires and is recovered. *)
Definition demo2 : table := apply demo 13 (Recover (fun l => l) ∅ 0).

Lemma demo2_reachable : queueReachable demo2 {["r1"]}.
Proof.
  eapply rtc_r; [apply demo_reachable|].
  exact (call_step demo {["r1"]} 13 (Recover (fun l => l) ∅ 0) (fun l => reflexivity l) ltac:(done)).
Qed.

Lemma stale_receipt_fenced_witness :
  AckSemanticTask demo2 "a" "r1" 14 = (demo2, Some ErrTaskLeaseMismatch).
Proof.
  assert (~ heldBy demo2 "a" "r1") as Hn.
  { intros (r & u & Hr & Hc). vm_compute in Hr. injection Hr as <-. discriminate Hc. }
  exact (proj1 (stale_receipt_fenced demo2 {["r1"]} demo2 {["r1"]} "a" "r1" 14 demo2_reachable
    (proj2 (elem_of_singleton "r1" "r1") eq_refl) Hn
    (rtc_refl _ _))).
Defined.

Lemma lease_exclusive_witness :
  runCalls demo [(3, Ensure tA); (4, Claim ∅ "r2" 5 []); (5, Recover (fun l => l) ∅ 0);
              (6, Ack "a" "r2")] !! "a" = Some (demoRow "a").
Proof.
  refine (proj1 (lease_exclusive demo {["r1"]} "a" (demoRow "a") "r1" 12 _ 11 demo_reachable demo_a
    _ _ _ _)); [vm_compute; reflexivity|vm_compute; reflexivity| |lia].
  repeat (constructor; [split_and!; [simpl; lia| |discriminate]|]); [..|constructor].
  - apply embedTask_unleased.
  - discriminate.
  - intros l. reflexivity.
  - exact I.
Defined.

Lemma claim_oldest_witness :
  exists r', ClaimSemanticTask demo ∅ "r2" 3 0 ["embed"; "embed"]
    = (<["b" := r']> demo, inl (Some (scanSemanticTask r'))) /\ receipt r' = Some "r2".
Proof.
  destruct (claim_oldest demo {["r1"]} ∅ "r2" 3 0 ["embed"; "embed"] demo_reachable)
    as [[_ E]|[(_ & _ & E)|(_ & r & r' & _ & _ & _ & Hr & _ & _ & _ & Hid & E)]].
  - vm_compute in E. discriminate E.
  - vm_compute in E. discriminate E.
  - exists r'. rewrite E. split; [|exact Hr].
    assert (task_id r' = "b") as Hb.
    { assert (TaskID <$> (match snd (ClaimSemanticTask demo ∅ "r2" 3 0 ["embed"; "embed"]) with
                          | inl o => o | inr _ => None end) = Some "b") as H
        by (vm_compute; reflexivity).
      rewrite E in H. cbn in H. congruence. }
    rewrite <- Hid, Hb. reflexivity.
Defined.

Lemma recover_requeues_expired_witness :
  exists r', demo2 !! "a" = Some r' /\ claimable 13 [] r' = true
    /\ demo2 !! "b" = Some (demoRow "b").
Proof.
  pose proof (recover_requeues_expired (fun l => l) demo {["r1"]} ∅ 13 0 demo_reachable
    (fun l => reflexivity l) (Z.le_refl 0)) as H.
  assert (demo2 = fst (RecoverExpiredSemanticTasks (fun l => l) demo ∅ 13 0)) as -> by reflexivity.
  destruct (RecoverExpiredSemanticTasks (fun l => l) demo ∅ 13 0) as [t' n]. destruct H as (H & _ & _).
  pose proof (H "a" (demoRow "a") demo_a) as Ha.
  destruct (leaseExpired 13 (demoRow "a") && _) eqn:Ea in Ha;
    [|vm_compute in Ea; discriminate Ea]. destruct Ha as (r' & Hr & Hc & _).
  assert (demo !! "b" = Some (demoRow "b")) as Hb by (vm_compute; reflexivity).
  pose proof (H "b" (demoRow "b") Hb) as Hb'.
  destruct (leaseExpired 13 (demoRow "b") && _) eqn:Eb in Hb'; [vm_compute in Eb; discriminate Eb|].
  exists r'. split_and!; [exact Hr|exact Hc|exact Hb'].
Defined.

Lemma ensure_queues_witness :
  exists id r, fst (EnsureSemanticTaskQueued demo2 (Some tA) 20) !! id = Some r
    /\ resourceKey r = ("embed", "f1", 1) /\ status r = TaskQueued /\ available_at r = 20.
Proof.
  pose proof (ensure_queues demo2 {["r1"]} tA 20 demo2_reachable (embedTask_unleased _ _ _)) as H.
  assert (snd (EnsureSemanticTaskQueued demo2 (Some tA) 20) = inl true) as E
    by (vm_compute; reflexivity).
  destruct (EnsureSemanticTaskQueued demo2 (Some tA) 20) as [t' res]. cbn [snd] in E. subst res.
  destruct H as (id & r & Hr & Hk & _ & Hs & _ & _ & Ha).
  exists id, r. split_and!; [exact Hr|exact Hk|exact Hs|exact Ha].
Defined.

Lemma attempts_bounded_witness :
  let t := runCalls ∅ (demoEvents ++ [(3, Retry "a" "r1" None "boom"); (3, Claim ∅ "r2" 10 []);
    (4, Retry "b" "r2" None "boom"); (5, Claim ∅ "r3" 10 []); (6, Retry "a" "r3" None "boom")]) in
  exists r, t !! "a" = Some r /\ status r = TaskDeadLettered /\ attempt_count r <= max_attempts r.
Proof.
  intros t. destruct (t !! "a") as [r|] eqn:Hr; [|vm_compute in Hr; discriminate Hr].
  exists r. split; [reflexivity|]. split; [vm_compute in Hr; injection Hr as <-; reflexivity|].
  refine (proj1 (attempts_bounded _ "a" r _ Hr)).
  repeat (constructor; [split; try exact I; try discriminate|]); try constructor.
  all: first [apply embedTask_unleased | vm_compute; reflexivity | discriminate].
Defined.

End Queue.
