(* ===== verification/FileGCQueue.v ===== *)
(** * The file GC queue

    Model of [src/pkg/datastore/file_gc_tasks.go]: the durable queue of cleanups of
    orphaned files, a SQL table with leases as in [SemanticQueue] and modelled the same
    way.  It implements the lease protocol of [LeaseQueue], from which its safety
    follows.  The read-only listing of storage references is not modelled. *)

From S2P Require Import Prelude GoStrings LeaseQueue.

Import GoStr Lease.

Module FileGC.

Inductive FileGCTaskStatus :=
  | FileGCTaskQueued
  | FileGCTaskProcessing
  | FileGCTaskSucceeded
  | FileGCTaskDeadLettered.

#[global] Instance FileGCTaskStatus_eq_dec : EqDecision FileGCTaskStatus.
Proof. solve_decision. Defined.

Inductive gcError :=
  | ErrFileRequired
  | ErrFileIDRequired
  | ErrTaskRequired
  | ErrNotFound
  | ErrFileGCTaskLeaseMismatch.

(** The Go struct; zero times, nil pointers and the empty status are [None]. *)
Record FileGCTask := {
  TaskID : string;
  FileID : string;
  StorageType : string;
  StorageRef : string;
  SizeBytes : Z;
  ContentType : string;
  Status : option FileGCTaskStatus;
  AttemptCount : Z;
  MaxAttempts : Z;
  Receipt : string;
  LeasedAt : option Z;
  LeaseUntil : option Z;
  AvailableAt : option Z;
  LastError : string;
  CreatedAt : option Z;
  UpdatedAt : option Z;
  CompletedAt : option Z
}.

(** A row of [file_gc_tasks]. *)
Record row := {
  task_id : string;
  file_id : string;
  storage_type : string;
  storage_ref : string;
  size_bytes : Z;
  content_type : option string;
  status : FileGCTaskStatus;
  attempt_count : Z;
  max_attempts : Z;
  receipt : option string;
  leased_at : option Z;
  lease_until : option Z;
  available_at : Z;
  last_error : option string;
  created_at : Z;
  updated_at : Z;
  completed_at : option Z
}.

Abbreviation table := (gmap string row).

Definition defaultFileGCMaxAttempts : Z := 0.
Definition defaultLease : Z := 30 * 1000000000.

Definition nullStr (s : string) : option string :=
  if bool_decide (s = "") then None else Some s.

Definition scanFileGCTask (r : row) : FileGCTask :=
  {| TaskID := task_id r; FileID := file_id r; StorageType := storage_type r;
     StorageRef := storage_ref r; SizeBytes := size_bytes r;
     ContentType := default "" (content_type r); Status := Some (status r);
     AttemptCount := attempt_count r; MaxAttempts := max_attempts r;
     Receipt := default "" (receipt r); LeasedAt := leased_at r; LeaseUntil := lease_until r;
     AvailableAt := Some (available_at r); LastError := default "" (last_error r);
     CreatedAt := Some (created_at r); UpdatedAt := Some (updated_at r);
     CompletedAt := completed_at r |}.

(** ** Enqueue *)

(** [NewFileGCTaskFromFile] of the fields of a file it reads. *)
Definition NewFileGCTaskFromFile (f : option (string * string * string * Z * string)) (now : Z)
    : FileGCTask + gcError :=
  match f with
  | None => inr ErrFileRequired
  | Some (fileID, storageType, storageRef, sizeBytes, contentType) =>
      if isBlank fileID then inr ErrFileIDRequired
      else inl {| TaskID := fileID; FileID := fileID; StorageType := storageType;
                  StorageRef := storageRef; SizeBytes := sizeBytes; ContentType := contentType;
                  Status := Some FileGCTaskQueued; AttemptCount := 0;
                  MaxAttempts := defaultFileGCMaxAttempts; Receipt := ""; LeasedAt := None;
                  LeaseUntil := None; AvailableAt := Some now; LastError := "";
                  CreatedAt := Some now; UpdatedAt := Some now; CompletedAt := None |}
  end.

(** The id a task is stored under. *)
Definition effectiveID (task : FileGCTask) : string :=
  if isBlank (TaskID task) then FileID task else TaskID task.

(** The row the [INSERT] writes. *)
Definition newRow (task : FileGCTask) (now : Z) : row :=
  let createdAt := default now (CreatedAt task) in
  {| task_id := effectiveID task; file_id := FileID task; storage_type := StorageType task;
     storage_ref := StorageRef task; size_bytes := SizeBytes task;
     content_type := nullStr (ContentType task); status := default FileGCTaskQueued (Status task);
     attempt_count := AttemptCount task;
     max_attempts := if MaxAttempts task <=? 0 then defaultFileGCMaxAttempts else MaxAttempts task;
     receipt := nullStr (Receipt task); leased_at := LeasedAt task; lease_until := LeaseUntil task;
     available_at := default now (AvailableAt task); last_error := nullStr (LastError task);
     created_at := createdAt; updated_at := default createdAt (UpdatedAt task);
     completed_at := CompletedAt task |}.

(** The row with a file id. *)
Definition rowByFile (t : table) (fileID : string) : option row :=
  snd <$> head (filter (fun kv => file_id (snd kv) = fileID) (map_to_list t)).

Definition GetFileGCTaskByFileID (t : table) (fileID : string) : option FileGCTask :=
  scanFileGCTask <$> rowByFile t fileID.

Definition enqueueFileGCTask (t : table) (otask : option FileGCTask) (now : Z)
    : table * (bool + gcError) :=
  match otask with
  | None => (t, inr ErrTaskRequired)
  | Some task =>
      if isBlank (FileID task) then (t, inr ErrFileIDRequired)
      else if bool_decide (t !! effectiveID task = None)
              && bool_decide (rowByFile t (FileID task) = None)
      then (<[effectiveID task := newRow task now]> t, inl true)
      else (t, inl false)
  end.

(** ** Claim *)

Definition claimable (now : Z) (r : row) : bool :=
  bool_decide (status r = FileGCTaskQueued) && (available_at r <=? now).

Definition claimBefore (a b : row) : bool :=
  (available_at a <? available_at b)
    || ((available_at a =? available_at b)
        && ((created_at a <? created_at b)
            || ((created_at a =? created_at b) && String.ltb (task_id a) (task_id b)))).

Definition claimRow (r : row) (rcpt : string) (now lease : Z) : row :=
  {| task_id := task_id r; file_id := file_id r; storage_type := storage_type r;
     storage_ref := storage_ref r; size_bytes := size_bytes r; content_type := content_type r;
     status := FileGCTaskProcessing; attempt_count := attempt_count r + 1;
     max_attempts := max_attempts r; receipt := Some rcpt; leased_at := Some now;
     lease_until := Some (now + lease); available_at := available_at r; last_error := last_error r;
     created_at := created_at r; updated_at := now; completed_at := completed_at r |}.

(** The task handed to the caller: the scanned row with the lease. *)
Definition claimedTask (task : FileGCTask) (rcpt : string) (now lease : Z) : FileGCTask :=
  {| TaskID := TaskID task; FileID := FileID task; StorageType := StorageType task;
     StorageRef := StorageRef task; SizeBytes := SizeBytes task; ContentType := ContentType task;
     Status := Some FileGCTaskProcessing; AttemptCount := AttemptCount task + 1;
     MaxAttempts := MaxAttempts task; Receipt := rcpt; LeasedAt := Some now;
     LeaseUntil := Some (now + lease); AvailableAt := AvailableAt task; LastError := LastError task;
     CreatedAt := CreatedAt task; UpdatedAt := Some now; CompletedAt := CompletedAt task |}.

Definition ClaimFileGCTask (t : table) (locked : gset string) (rcpt : string) (now leaseDuration : Z)
    : table * option FileGCTask :=
  let lease := if leaseDuration <=? 0 then defaultLease else leaseDuration in
  match firstBy claimBefore
          (rowsWhere (fun r => claimable now r = true /\ task_id r ∉ locked) t) with
  | None => (t, None)
  | Some r =>
      match t !! task_id r with
      | Some r' =>
          if claimable now r'
          then (<[task_id r := claimRow r' rcpt now lease]> t,
                Some (claimedTask (scanFileGCTask r) rcpt now lease))
          else (t, None)
      | None => (t, None)
      end
  end.

(** ** Lease operations *)

(** [lease_until IS NOT NULL AND lease_until > now] *)
Definition leaseLive (lu : option Z) (now : Z) : bool :=
  match lu with Some u => now <? u | None => false end.

Definition fileGCTaskLeaseError (t : table) (taskID : string) : gcError :=
  match t !! taskID with
  | None => ErrNotFound
  | Some _ => ErrFileGCTaskLeaseMismatch
  end.

(** A row whose lease is over. *)
Definition releaseRow (st : FileGCTaskStatus) (avail : Z) (err : option string) (done : option Z)
    (now : Z) (r : row) : row :=
  {| task_id := task_id r; file_id := file_id r; storage_type := storage_type r;
     storage_ref := storage_ref r; size_bytes := size_bytes r; content_type := content_type r;
     status := st; attempt_count := attempt_count r; max_attempts := max_attempts r;
     receipt := None; leased_at := None; lease_until := None; available_at := avail;
     last_error := err; created_at := created_at r; updated_at := now; completed_at := done |}.

Definition AckFileGCTask (t : table) (taskID rcpt : string) (now : Z) : table * option gcError :=
  match t !! taskID with
  | Some r =>
      if bool_decide (status r = FileGCTaskProcessing) && bool_decide (receipt r = Some rcpt)
         && leaseLive (lease_until r) now
      then (<[taskID := releaseRow FileGCTaskSucceeded (available_at r) (last_error r) (Some now)
                          now r]> t, None)
      else (t, Some (fileGCTaskLeaseError t taskID))
  | None => (t, Some (fileGCTaskLeaseError t taskID))
  end.

Definition RetryFileGCTask (t : table) (taskID rcpt : string) (retryAt : option Z)
    (lastErr : string) (now : Z) : table * option gcError :=
  let retryAt := default now retryAt in
  match t !! taskID with
  | None => (t, Some ErrNotFound)
  | Some r =>
      let task := scanFileGCTask r in
      if negb (bool_decide (Status task = Some FileGCTaskProcessing))
         || negb (bool_decide (Receipt task = rcpt)) || negb (leaseLive (LeaseUntil task) now)
      then (t, Some ErrFileGCTaskLeaseMismatch)
      else if (0 <? MaxAttempts task) && (MaxAttempts task <=? AttemptCount task) then
        (<[taskID := releaseRow FileGCTaskDeadLettered (available_at r) (nullStr lastErr) (Some now)
                       now r]> t, None)
      else
        (<[taskID := releaseRow FileGCTaskQueued retryAt (nullStr lastErr) None now r]> t, None)
  end.

(** ** Recovery *)

Definition leaseExpired (now : Z) (r : row) : bool :=
  bool_decide (status r = FileGCTaskProcessing)
    && match lease_until r with Some u => u <? now | None => false end.

Definition recovered (now : Z) (r : row) : row :=
  releaseRow FileGCTaskQueued now (last_error r) (completed_at r) now r.

Definition RecoverExpiredFileGCTasks (sorted : list row -> list row) (t : table)
    (locked : gset string) (now limit : Z) : table * Z :=
  let rows := sorted (rowsWhere (fun r => leaseExpired now r = true /\ task_id r ∉ locked) t) in
  foldl (updateIf (leaseExpired now) (recovered now)) (t, 0) (task_id <$> limitRows limit rows).

(** ** Calls *)

Inductive event :=
  | Enqueue (task : FileGCTask)
  | Claim (locked : gset string) (rcpt : string) (d : Z)
  | Ack (id rcpt : string)
  | Retry (id rcpt : string) (at_ : option Z) (err : string)
  | Recover (sorted : list row -> list row) (locked : gset string) (limit : Z).

Definition apply (t : table) (now : Z) (ev : event) : table :=
  match ev with
  | Enqueue task => fst (enqueueFileGCTask t (Some task) now)
  | Claim locked rcpt d => fst (ClaimFileGCTask t locked rcpt now d)
  | Ack id rcpt => fst (AckFileGCTask t id rcpt now)
  | Retry id rcpt at_ err => fst (RetryFileGCTask t id rcpt at_ err now)
  | Recover sorted locked limit => fst (RecoverExpiredFileGCTasks sorted t locked now limit)
  end.

(** The calls clients make: tasks are handed in unleased, receipts are not empty. *)
Definition eventOk (ev : event) : Prop :=
  match ev with
  | Enqueue task => (Status task = None \/ Status task = Some FileGCTaskQueued)
      /\ Receipt task = "" /\ LeasedAt task = None /\ LeaseUntil task = None
  | Claim _ rcpt _ => rcpt <> ""
  | Recover sorted _ _ => forall l, sorted l ≡ₚ l
  | _ => True
  end.

Definition presents (ev : event) : option string :=
  match ev with Ack _ rcpt | Retry _ rcpt _ _ => Some rcpt | _ => None end.
Definition issues (ev : event) : option string :=
  match ev with Claim _ rcpt _ => Some rcpt | _ => None end.

(** What a call does to one row: the guard and the new row. *)
Inductive rowStep (now : Z) (ev : event) (r : row) : row -> Prop :=
  | rs_claim rcpt d : issues ev = Some rcpt -> status r = FileGCTaskQueued ->
      rowStep now ev r (claimRow r rcpt now d)
  | rs_end rcpt st avail err fin : presents ev = Some rcpt -> status r = FileGCTaskProcessing ->
      default "" (receipt r) = rcpt -> leaseLive (lease_until r) now = true ->
      st = FileGCTaskSucceeded \/ st = FileGCTaskQueued
        \/ st = FileGCTaskDeadLettered /\ 0 < max_attempts r ->
      rowStep now ev r (releaseRow st avail err fin now r)
  | rs_recover : leaseExpired now r = true -> rowStep now ev r (recovered now r).

(** Each row after a call: unchanged, new, or one step. *)
Definition rowChange (t : table) (now : Z) (ev : event) (id : string) (o : option row) : Prop :=
  o = t !! id
  \/ (exists task, ev = Enqueue task /\ t !! id = None /\ o = Some (newRow task now)
        /\ effectiveID task = id /\ rowByFile t (FileID task) = None)
  \/ (exists r r', t !! id = Some r /\ o = Some r' /\ rowStep now ev r r').

Abbreviation keyed := (keyedBy task_id).

Lemma change_insert t now ev id r r' k :
  t !! id = Some r -> rowStep now ev r r' -> rowChange t now ev k (<[id := r']> t !! k).
Proof.
  intros Hr Hs. destruct (decide (k = id)) as [->|].
  - rewrite lookup_insert_eq. right. right. by exists r, r'.
  - rewrite lookup_insert_ne by done. by left.
Qed.

(** The row a claim takes, if any, is queued, available and not locked. *)
Lemma claim_picks t locked rcpt now d :
  keyed t ->
  apply t now (Claim locked rcpt d) = t
  \/ exists r lease, t !! task_id r = Some r /\ claimable now r = true /\ task_id r ∉ locked
       /\ apply t now (Claim locked rcpt d) = <[task_id r := claimRow r rcpt now lease]> t.
Proof.
  intros Hk. cbn [apply]. unfold ClaimFileGCTask. set (P := fun r => _ /\ _).
  pose proof (firstBy_spec claimBefore (fun _ _ => True) (rowsWhere P t)
    ltac:(done) ltac:(done) ltac:(done) ltac:(done)) as H.
  destruct (firstBy _ _) as [r|]; [|by left]. destruct H as [Hr _].
  apply (elem_of_rowsWhere task_id) in Hr as [[Hc Hl] Hr]; [|done]. rewrite Hr, Hc.
  right. eauto 10.
Qed.

Lemma gc_retry_guard (r : row) rcpt now :
  negb (bool_decide (Status (scanFileGCTask r) = Some FileGCTaskProcessing))
    || negb (bool_decide (Receipt (scanFileGCTask r) = rcpt))
    || negb (leaseLive (LeaseUntil (scanFileGCTask r)) now) = false ->
  status r = FileGCTaskProcessing /\ default "" (receipt r) = rcpt
  /\ leaseLive (lease_until r) now = true.
Proof. intros H. bool_prop. simpl in *. naive_solver. Qed.

Lemma gc_recover_effect sorted t locked now limit :
  keyed t -> (forall l, sorted l ≡ₚ l) ->
  updatedRows (leaseExpired now) (recovered now)
    (selectedIDs task_id sorted (fun r => leaseExpired now r = true /\ task_id r ∉ locked) limit t)
    t (fst (RecoverExpiredFileGCTasks sorted t locked now limit)).
Proof.
  intros Hk Hs. destruct (selectedIDs_spec task_id sorted
    (fun r => leaseExpired now r = true /\ task_id r ∉ locked) limit t Hk Hs) as [Hnd Hin].
  apply (updateIf_loop (leaseExpired now) (recovered now) t _ Hnd).
  intros id Hid. destruct (Hin id Hid) as (r & Hr & He & _). eauto.
Qed.

Lemma gc_change t now ev k :
  keyed t -> eventOk ev -> rowChange t now ev k (apply t now ev !! k).
Proof.
  intros Hk Hok. destruct ev as [task|locked rcpt d|id rcpt|id rcpt at_ err|sorted locked limit].
  - cbn [apply]. unfold enqueueFileGCTask. destruct (isBlank (FileID task)); [by left|].
    destruct (_ && _) eqn:E; [|by left]. bool_prop. cbn [fst].
    destruct (decide (k = effectiveID task)) as [->|].
    + rewrite lookup_insert_eq. right. left. by exists task.
    + rewrite lookup_insert_ne by done. by left.
  - destruct (claim_picks t locked rcpt now d Hk) as [-> | (r & l & Hr & Hc & _ & ->)]; [by left|].
    eapply change_insert; [done|]. unfold claimable in Hc. bool_prop. by apply rs_claim.
  - cbn [apply]. unfold AckFileGCTask. destruct (t !! id) as [r|] eqn:Hr; [|by left].
    destruct (_ && _) eqn:E; [|by left]. bool_prop. eapply change_insert; [done|].
    eapply rs_end; [done|done| |done|by left]. by match goal with H : receipt r = _ |- _ => rewrite H end.
  - cbn [apply]. unfold RetryFileGCTask. destruct (t !! id) as [r|] eqn:Hr; [|by left].
    destruct (_ || _) eqn:E; [by left|]. apply gc_retry_guard in E as (Hs & Hrc & Hl).
    case_if; cbn [fst]; (eapply change_insert; [done|]); eapply rs_end; try done.
    + bool_prop. simpl in *. auto.
    + auto.
  - cbn [apply]. specialize (gc_recover_effect sorted t locked now limit Hk Hok k) as Ht.
    destruct (t !! k) as [r|] eqn:Hr; [|left; congruence].
    destruct (leaseExpired now r && _) eqn:E; [|left; congruence]. bool_prop.
    right. right. exists r, (recovered now r). split_and!; [done..|]. by apply rs_recover.
Qed.

(** ** The queue implements the lease protocol *)

Definition rowOk (r : row) : Prop :=
  if decide (status r = FileGCTaskProcessing)
  then (exists c, receipt r = Some c /\ c <> "") /\ is_Some (lease_until r)
  else receipt r = None /\ lease_until r = None.

Record tableOk (t : table) : Prop := {
  ok_keyed : keyed t;
  ok_rows : forall id r, t !! id = Some r -> rowOk r
}.

Definition rowLease (r : row) : lease :=
  match receipt r, lease_until r with
  | Some c, Some u => if bool_decide (status r = FileGCTaskProcessing) then Held c u else Free
  | _, _ => Free
  end.

#[export] Instance gcOps : LeaseOps row event := {|
  leaseOf := rowLease; applyCall := apply; presented := presents; issuedBy := issues;
  allowed := eventOk; tableInv := tableOk |}.

Lemma gc_lease_processing r :
  rowOk r -> status r = FileGCTaskProcessing ->
  exists c u, receipt r = Some c /\ c <> "" /\ lease_until r = Some u /\ rowLease r = Held c u.
Proof.
  unfold rowOk, rowLease. intros Hr Hs. rewrite decide_True in Hr by done.
  destruct Hr as ((c & Hc & Hne) & [u Hu]). exists c, u. rewrite Hc, Hu.
  by rewrite bool_decide_true.
Qed.

Lemma gc_lease_free r : status r <> FileGCTaskProcessing -> rowLease r = Free.
Proof.
  intros Hs. unfold rowLease. destruct (receipt r), (lease_until r); try done.
  by rewrite bool_decide_false.
Qed.

Lemma gc_newRow task now :
  eventOk (Enqueue task) -> rowOk (newRow task now) /\ rowLease (newRow task now) = Free.
Proof.
  intros (Hs & Hr & Hl & Hu). unfold rowOk, rowLease, newRow. simpl. rewrite Hr, Hu.
  destruct Hs as [-> | ->]; done.
Qed.

Lemma gc_step_ok now ev r r' : eventOk ev -> rowStep now ev r r' -> rowOk r -> rowOk r'.
Proof.
  intros Hok Hs Hr. destruct Hs as [rcpt d Hi|rcpt st avail err fin Hp Hst Hrc Hl Hst'|]; [| |done].
  - unfold rowOk. simpl. destruct ev; try done. injection Hi as ->. simpl in Hok. eauto.
  - unfold rowOk. simpl. by destruct Hst' as [-> | [-> | [-> _]]].
Qed.

Lemma gc_step_move now ev r r' : rowOk r -> rowStep now ev r r' -> rowMove now ev r r'.
Proof.
  intros Hr Hs. destruct Hs as [rcpt d Hi Hq|rcpt st avail err fin Hp Hst Hrc Hl Hst'|He].
  - eapply rm_take; [exact Hi|apply gc_lease_free; congruence|done].
  - destruct (gc_lease_processing r Hr Hst) as (c & u & Hc & _ & Hu & Hh).
    rewrite Hc in Hrc. simpl in Hrc. subst rcpt. rewrite Hu in Hl. simpl in Hl. bool_prop.
    by eapply rm_release; [done|exact Hh|done|].
  - unfold leaseExpired in He. bool_prop.
    destruct (gc_lease_processing r Hr ltac:(done)) as (c & u & Hc & _ & Hu & Hh).
    rewrite Hu in *. bool_prop. eapply rm_expire; [exact Hh|lia|done].
Qed.

Lemma gc_apply_ok t now ev : tableOk t -> eventOk ev -> tableOk (apply t now ev).
Proof.
  intros [Hk Hrows] Hok. split; intros id r' Hr';
    destruct (gc_change t now ev id Hk Hok) as [E|[(task & -> & Hn & E & Hid & _)|(r & r1 & Hr & E & Hs)]];
    rewrite Hr' in E; simplify_eq.
  - by apply Hk.
  - done.
  - rewrite <- (Hk _ _ Hr). by destruct Hs.
  - by apply (Hrows id).
  - by apply gc_newRow.
  - eapply gc_step_ok; [done..|]. by apply (Hrows id).
Qed.

#[export] Instance gcLaws : LeaseLaws row event.
Proof.
  split.
  - split; unfold keyedBy; intros *; by rewrite lookup_empty.
  - exact gc_apply_ok.
  - intros t now ev id [Hk Hrows] Hok.
    destruct (gc_change t now ev id Hk Hok) as [E|[(task & -> & Hn & E & Hid & _)|(r & r' & Hr & E & Hs)]];
      cbn [applyCall gcOps].
    + rewrite E. destruct (t !! id); [by apply rm_same|done].
    + rewrite E, Hn. by apply gc_newRow.
    + rewrite E, Hr. apply gc_step_move; [by apply (Hrows id)|done].
  - cbn. intros t now ev c i j r r' u u' [Hk _] Hok Hi Hr Hl Hr' Hl'.
    destruct ev as [|locked rcpt d| | |]; try done. injection Hi as ->.
    destruct (claim_picks t locked c now d Hk) as [E|(r0 & l0 & H0 & _ & _ & E)];
      rewrite E in Hr, Hr'; [right; by exists i, r, u|].
    apply lookup_insert_Some in Hr as [[<- _]|[_ Hr]]; [|right; by exists i, r, u].
    apply lookup_insert_Some in Hr' as [[<- _]|[_ Hr']]; [by left|right; by exists j, r', u'].
Qed.

(** ** Fencing and exclusivity *)

Lemma gc_unheld_fails t id c now :
  tableOk t -> ~ heldBy t id c ->
  let e := match t !! id with Some _ => ErrFileGCTaskLeaseMismatch | None => ErrNotFound end in
  AckFileGCTask t id c now = (t, Some e)
  /\ (forall at_ err, RetryFileGCTask t id c at_ err now = (t, Some e)).
Proof.
  intros Ht Hn e. unfold AckFileGCTask, RetryFileGCTask, fileGCTaskLeaseError, e.
  destruct (t !! id) as [r|] eqn:Hr; [|done].
  assert (status r = FileGCTaskProcessing -> default "" (receipt r) <> c) as Hx.
  { intros Hst Hc. destruct (gc_lease_processing r (ok_rows _ Ht _ _ Hr) Hst) as (c' & u & Hc' & _ & _ & Hh).
    apply Hn. exists r, u. split; [done|]. rewrite Hc' in Hc. simpl in Hc. by subst. }
  split.
  - destruct (_ && _) eqn:E; [|done]. bool_prop. destruct Hx; [done|].
    by match goal with H : receipt r = _ |- _ => rewrite H end.
  - intros at_ err. destruct (_ || _) eqn:E; [done|].
    apply gc_retry_guard in E as (Hst & Hc & _). by destruct Hx.
Qed.

(** The leases of the file GC queue are safe.  A receipt that a task was lost to is
    never valid for it again, whatever calls follow: ack and retry with it fail with
    "not found" or "lease mismatch" and change nothing, so a stalled worker cannot end
    another worker's cleanup.  A lease that has not run out is exclusive: no calls by
    others change the leased row, and the holder's ack still succeeds. *)
Theorem gc_lease_safe t seen id c :
  queueReachable t seen -> c ∈ seen ->
  (~ heldBy t id c -> forall t' seen' now, rtc callStep (t, seen) (t', seen') ->
     let e := match t' !! id with Some _ => ErrFileGCTaskLeaseMismatch | None => ErrNotFound end in
     AckFileGCTask t' id c now = (t', Some e)
     /\ (forall at_ err, RetryFileGCTask t' id c at_ err now = (t', Some e)))
  /\ (forall r u evs now, t !! id = Some r -> receipt r = Some c -> lease_until r = Some u ->
     Forall (fun p => fst p < u /\ eventOk (snd p) /\ presents (snd p) <> Some c) evs -> now < u ->
     runCalls t evs !! id = Some r
     /\ AckFileGCTask (runCalls t evs) id c now
        = (<[id := releaseRow FileGCTaskSucceeded (available_at r) (last_error r) (Some now) now r]>
             (runCalls t evs), None)).
Proof.
  intros Hre Hc. apply reachable_fenced in Hre as Hf. split.
  - intros Hn t' seen' now Hs. apply gc_unheld_fails; [apply (fe_inv _ (calls_fenced _ _ Hs Hf))|].
    exact (lost_receipt _ _ id c Hs Hf Hc Hn).
  - intros r u evs now Hr Hrc Hu Hevs Hnow. destruct Hf as [Ht _ _]. cbn [fst] in Ht.
    assert (status r = FileGCTaskProcessing) as Hst.
    { pose proof (ok_rows _ Ht id r Hr) as H. unfold rowOk in H. case_decide; [done|].
      destruct H as [H _]. congruence. }
    assert (runCalls t evs !! id = Some r) as H.
    { apply (live_row_calls t evs id r c u Ht Hr); [|done]. cbn. unfold rowLease.
      by rewrite Hrc, Hu, bool_decide_true. }
    split; [done|]. unfold AckFileGCTask. rewrite H, Hu, !bool_decide_true by done. simpl.
    by rewrite (proj2 (Z.ltb_lt now u) Hnow).
Qed.

(** ** No cleanup is lost *)

(** The calls of the program: every producer builds its task from a file. *)
Definition fromFile (ev : event) : Prop :=
  match ev with
  | Enqueue task => exists f n, NewFileGCTaskFromFile (Some f) n = inl task
  | _ => eventOk ev
  end.

(** What a row tells the worker to clean up. *)
Definition cleanup (r : row) : string * string * string * Z * string :=
  (file_id r, storage_type r, storage_ref r, size_bytes r, default "" (content_type r)).

(** The rows of such a table. *)
Definition cleanupOk (id : string) (r : row) : Prop :=
  task_id r = id /\ file_id r = id /\ max_attempts r = 0 /\ status r <> FileGCTaskDeadLettered.

Definition fileTable (t : table) : Prop := forall id r, t !! id = Some r -> cleanupOk id r.

Lemma fromFile_ok ev : fromFile ev -> eventOk ev.
Proof.
  destruct ev; try done. intros (f & n & H). destruct f as [[[[fid ty] ref] sz] ct]. simpl in H.
  destruct (isBlank fid); [done|]. injection H as <-. simpl. auto.
Qed.

(** The row that is stored for a file. *)
Lemma fromFile_row f n task now :
  NewFileGCTaskFromFile (Some f) n = inl task ->
  effectiveID task = FileID task /\ isBlank (FileID task) = false
  /\ cleanupOk (FileID task) (newRow task now) /\ cleanup (newRow task now) = f.
Proof.
  destruct f as [[[[fid ty] ref] sz] ct]. cbn. destruct (isBlank fid) eqn:E; [done|].
  intros [= <-]. unfold effectiveID, cleanupOk, cleanup, newRow, effectiveID, nullStr. simpl. rewrite E.
  split_and!; try done. by case_bool_decide as Hct; rewrite ?Hct.
Qed.

Lemma fileTable_keyed t : fileTable t -> keyed t.
Proof. intros Ht id r Hr. apply (Ht id r Hr). Qed.

(** A call keeps every row with its cleanup. *)
Lemma cleanup_step t now ev :
  fileTable t -> fromFile ev ->
  fileTable (apply t now ev)
  /\ forall id r, t !! id = Some r ->
       exists r', apply t now ev !! id = Some r' /\ cleanup r' = cleanup r.
Proof.
  intros Ht Hev. pose proof (fun id => gc_change t now ev id (fileTable_keyed t Ht) (fromFile_ok ev Hev)) as Hc.
  split.
  - intros id r' Hr'.
    destruct (Hc id) as [E|[(task & -> & Hn & E & Hid & _)|(r & r1 & Hr & E & Hs)]];
      rewrite Hr' in E; simplify_eq.
    + by apply Ht.
    + destruct Hev as (f & n & Hf). destruct (fromFile_row f n task now Hf) as (-> & _ & Hok & _).
      exact Hok.
    + destruct (Ht id r Hr) as (Hi & Hf & Hm & Hd).
      destruct Hs as [rcpt d|rcpt st avail err fin _ _ _ _ Hst'|]; split_and!; try done.
      destruct Hst' as [-> | [-> | [_ ?]]]; [done..|]. lia.
  - intros id r Hr.
    destruct (Hc id) as [E|[(task & -> & Hn & _)|(r0 & r1 & Hr0 & E & Hs)]]; [|congruence|].
    + exists r. by rewrite E.
    + simplify_eq. exists r1. split; [done|]. by destruct Hs.
Qed.

Lemma cleanup_calls evs t :
  fileTable t -> Forall (fun p => fromFile (snd p)) evs ->
  fileTable (runCalls t evs)
  /\ forall id r, t !! id = Some r ->
       exists r', runCalls t evs !! id = Some r' /\ cleanup r' = cleanup r.
Proof.
  intros Ht Hevs. revert t Ht. induction Hevs as [|[now ev] evs Hev _ IH]; intros t Ht; [eauto|].
  unfold runCalls in *. cbn [foldl fst snd] in *.
  destruct (cleanup_step t now ev Ht Hev) as [Ht1 Hk1]. destruct (IH _ Ht1) as [Ht2 Hk2].
  split; [done|]. intros id r Hr. destruct (Hk1 id r Hr) as (r1 & Hr1 & E1).
  destruct (Hk2 id r1 Hr1) as (r2 & Hr2 & E2). exists r2. split; [done|congruence].
Qed.

Lemma rowByFile_fileTable t id : fileTable t -> rowByFile t id = t !! id.
Proof.
  intros Ht. unfold rowByFile.
  assert (forall k r, (k, r) ∈ filter (fun kv => file_id (snd kv) = id) (map_to_list t)
            <-> t !! k = Some r /\ k = id) as Hin.
  { intros k r. rewrite list_elem_of_filter, elem_of_map_to_list. simpl. split.
    - intros [E Hr]. destruct (Ht k r Hr) as (_ & Hf & _). split; congruence.
    - intros [Hr ->]. destruct (Ht id r Hr) as (_ & Hf & _). done. }
  destruct (filter _ _) as [|[k r] l]; simpl.
  - destruct (t !! id) as [r|] eqn:Hr; [|done].
    pose proof (proj2 (Hin id r) (conj Hr eq_refl)) as Hx. set_solver.
  - destruct (proj1 (Hin k r) ltac:(left)) as [Hr ->]. by rewrite Hr.
Qed.

(** A cleanup is never lost.  When every producer builds its task from the orphaned
    file, then after the enqueue of a file and any calls by workers and producers the
    queue has exactly one task for the file, with unlimited attempts and never
    dead-lettered, which names the storage that was recorded for the file first: the
    file's own when the enqueue reports an insert, and the earlier task's when it
    reports a duplicate. *)
Theorem gc_task_never_lost evs1 evs2 f n task now :
  Forall (fun p => fromFile (snd p)) evs1 -> Forall (fun p => fromFile (snd p)) evs2 ->
  NewFileGCTaskFromFile (Some f) n = inl task ->
  let t1 := runCalls ∅ evs1 in
  let '(t2, res) := enqueueFileGCTask t1 (Some task) now in
  let t3 := runCalls t2 evs2 in
  exists r, t3 !! FileID task = Some r
    /\ GetFileGCTaskByFileID t3 (FileID task) = Some (scanFileGCTask r)
    /\ (forall id r', t3 !! id = Some r' -> file_id r' = FileID task -> id = FileID task)
    /\ max_attempts r = 0 /\ status r <> FileGCTaskDeadLettered
    /\ (res = inl true /\ t1 !! FileID task = None /\ cleanup r = f
        \/ res = inl false /\ exists r1, t1 !! FileID task = Some r1 /\ cleanup r = cleanup r1).
Proof.
  intros H1 H2 Hf t1. assert (fileTable ∅) as H0 by (intros ??; by rewrite lookup_empty).
  destruct (cleanup_calls evs1 ∅ H0 H1) as [Ht1 _]. fold t1 in Ht1.
  pose proof (cleanup_step t1 now (Enqueue task) Ht1 (ex_intro _ f (ex_intro _ n Hf))) as [Ht2 _].
  destruct (fromFile_row f n task now Hf) as (Hid & Hb & _ & Hcl).
  cbn [apply] in Ht2. unfold enqueueFileGCTask in *.
  rewrite Hid, Hb, rowByFile_fileTable, andb_diag in * by done.
  assert (forall t2 r2, fileTable t2 -> t2 !! FileID task = Some r2 ->
    exists r, runCalls t2 evs2 !! FileID task = Some r
      /\ GetFileGCTaskByFileID (runCalls t2 evs2) (FileID task) = Some (scanFileGCTask r)
      /\ (forall id r', runCalls t2 evs2 !! id = Some r' -> file_id r' = FileID task -> id = FileID task)
      /\ max_attempts r = 0 /\ status r <> FileGCTaskDeadLettered /\ cleanup r = cleanup r2) as Hlater.
  { intros t2 r2 Hok Hr2. destruct (cleanup_calls evs2 t2 Hok H2) as [Ht3 Hk].
    destruct (Hk _ _ Hr2) as (r & Hr & Hc). exists r. destruct (Ht3 _ _ Hr) as (_ & _ & Hm & Hs).
    unfold GetFileGCTaskByFileID. rewrite rowByFile_fileTable, Hr by done.
    split_and!; try done. intros id r' Hr' E. destruct (Ht3 _ _ Hr') as (_ & Hfi & _). congruence. }
  case_bool_decide as Hn; cbn [fst] in Ht2.
  - destruct (Hlater _ (newRow task now) Ht2 ltac:(apply lookup_insert_eq))
      as (r & Hr & Hg & Hu & Hm & Hs & Hc).
    exists r. split_and!; try done. left. split_and!; [done..|congruence].
  - destruct (t1 !! FileID task) as [r1|] eqn:Hr1; [|done].
    destruct (Hlater t1 r1 Ht1 Hr1) as (r & Hr & Hg & Hu & Hm & Hs & Hc).
    exists r. split_and!; try done. right. split; [done|]. by exists r1.
Qed.

(** ** Witnesses *)

Definition orphan : string * string * string * Z * string :=
  ("f1", "s3", "blobs/f1", 42, "text/plain").
Definition orphanTask : FileGCTask :=
  {| TaskID := "f1"; FileID := "f1"; StorageType := "s3"; StorageRef := "blobs/f1";
     SizeBytes := 42; ContentType := "text/plain"; Status := Some FileGCTaskQueued;
     AttemptCount := 0; MaxAttempts := 0; Receipt := ""; LeasedAt := None; LeaseUntil := None;
     AvailableAt := Some 0; LastError := ""; CreatedAt := Some 0; UpdatedAt := Some 0;
     CompletedAt := None |}.

Lemma orphanTask_from : fromFile (Enqueue orphanTask).
Proof. by exists orphan, 0. Qed.

(** The task is enqueued and claimed for ten units under receipt [g1]. *)
Definition gcDemo : table := runCalls ∅ [(0, Enqueue orphanTask); (2, Claim ∅ "g1" 10)].
Definition gcRow : row := default (newRow orphanTask 0) (gcDemo !! "f1").

Lemma gcDemo_reachable : queueReachable gcDemo {["g1"]}.
Proof.
  unfold gcDemo, runCalls. cbn [foldl fst snd].
  eapply rtc_l; [exact (call_step ∅ ∅ 0 (Enqueue orphanTask) (fromFile_ok _ orphanTask_from) ltac:(done))|].
  eapply rtc_l; [|apply rtc_refl].
  replace {["g1"]} with ({["g1"]} ∪ ∅ : gset string) by (vm_compute; reflexivity).
  refine (call_step _ ∅ 2 (Claim ∅ "g1" 10) _ _); [done|]. intros c _. set_solver.
Qed.

(** The lease of [g1] runs out and is recovered. *)
Definition gcDemo2 : table := apply gcDemo 13 (Recover (fun l => l) ∅ 0).

Lemma gcDemo2_reachable : queueReachable gcDemo2 {["g1"]}.
Proof.
  eapply rtc_r; [apply gcDemo_reachable|].
  exact (call_step gcDemo {["g1"]} 13 (Recover (fun l => l) ∅ 0) (fun l => reflexivity l) ltac:(done)).
Qed.

Lemma gc_lease_safe_witness :
  AckFileGCTask gcDemo2 "f1" "g1" 14 = (gcDemo2, Some ErrFileGCTaskLeaseMismatch)
  /\ runCalls gcDemo [(3, Claim ∅ "g2" 5); (4, Retry "f1" "g2" None "late")] !! "f1" = Some gcRow.
Proof.
  assert ("g1" ∈ ({["g1"]} : gset string)) as Hin by (apply elem_of_singleton; reflexivity). split.
  - assert (~ heldBy gcDemo2 "f1" "g1") as Hn.
    { intros (r & u & Hr & Hc). vm_compute in Hr. injection Hr as <-. discriminate Hc. }
    exact (proj1 (proj1 (gc_lease_safe gcDemo2 {["g1"]} "f1" "g1" gcDemo2_reachable Hin)
      Hn gcDemo2 {["g1"]} 14 (rtc_refl _ _))).
  - refine (proj1 (proj2 (gc_lease_safe gcDemo {["g1"]} "f1" "g1" gcDemo_reachable Hin)
      gcRow 12 _ 11 _ _ _ _ _)); [vm_compute; reflexivity..| |lia].
    repeat (constructor; [split_and!; [simpl; lia|first [exact I|discriminate]|discriminate]|]).
    constructor.
Defined.

(** Six failed attempts do not end the cleanup. *)
Lemma gc_task_never_lost_witness :
  exists r, runCalls (fst (enqueueFileGCTask ∅ (Some orphanTask) 1))
      (mjoin (replicate 6 [(5, Claim ∅ "w" 10); (5, Retry "f1" "w" None "s3 down")])) !! "f1" = Some r
    /\ attempt_count r = 6 /\ status r = FileGCTaskQueued /\ cleanup r = orphan.
Proof.
  pose proof (gc_task_never_lost []
    (mjoin (replicate 6 [(5, Claim ∅ "w" 10); (5, Retry "f1" "w" None "s3 down")]))
    orphan 0 orphanTask 1 (List.Forall_nil _)) as H.
  specialize (H ltac:(repeat (constructor; [first [exact I|discriminate]|]); constructor) eq_refl).
  cbn zeta in H. change (runCalls ∅ []) with (∅ : table) in H.
  assert (snd (enqueueFileGCTask ∅ (Some orphanTask) 1) = inl true) as E by (vm_compute; reflexivity).
  destruct (enqueueFileGCTask ∅ (Some orphanTask) 1) as [t2 res] eqn:Et. cbn [snd] in E. subst res.
  destruct H as (r & Hr & _ & _ & _ & _ & [(_ & _ & Hc)|[E _]]); [|discriminate E].
  exists r. split; [exact Hr|]. change (FileID orphanTask) with "f1" in Hr.
  replace t2 with (fst (enqueueFileGCTask ∅ (Some orphanTask) 1)) in Hr by (rewrite Et; reflexivity).
  vm_compute in Hr. injection Hr as <-. split_and!; [reflexivity|reflexivity|exact Hc].
Defined.

End FileGC.
