(* ===== verification/Wal.v ===== *)
(** * The client write-ahead log

    Model of [src/pkg/fuse/journal.go].  The file is its byte content, the frame
    format (little-endian length, payload, little-endian CRC-32) is computed bit by
    bit, and the three scanning loops of [Replay] and [Compact] are one fuelled loop,
    with fuel the length of the file, which [scan_fuel] shows to be enough.
    [encoding/json] is used through the class [JSONCodec]: a marshaller, an
    unmarshaller and the law that decoding inverts encoding on the values that JSON
    represents.  The atomic counter is bumped before the lock is taken, so a call of
    [Append] is two steps ([stamp] and [writeEntry]) between which other calls may
    run. *)

From S2P Require Import Prelude.

Module Wal.

(** ** Little-endian words and CRC-32 *)

Definition byteZ (b : byte) : Z := Z.of_N (Byte.to_N b).
Definition zbyte (z : Z) : byte := default x00 (Byte.of_N (Z.to_N (z mod 256))).

(** [binary.LittleEndian.PutUint32] *)
Definition putUint32 (z : Z) : bytes :=
  [zbyte z; zbyte (Z.shiftr z 8); zbyte (Z.shiftr z 16); zbyte (Z.shiftr z 24)].

(** [binary.LittleEndian.Uint32] of the four bytes at [off]. *)
Definition uint32 (data : bytes) (off : Z) : Z :=
  byteZ (nthb data off) + 256 * byteZ (nthb data (off + 1))
    + 65536 * byteZ (nthb data (off + 2)) + 16777216 * byteZ (nthb data (off + 3)).

(** One bit and one byte of the reflected CRC-32 with the IEEE polynomial. *)
Definition crcBit (c : Z) : Z :=
  if Z.testbit c 0 then Z.lxor (Z.shiftr c 1) 0xEDB88320 else Z.shiftr c 1.
Definition crcByte (c : Z) (b : byte) : Z := Nat.iter 8 crcBit (Z.lxor c (byteZ b)).

(** [crc32.ChecksumIEEE] *)
Definition ChecksumIEEE (data : bytes) : Z :=
  Z.lxor (foldl crcByte 0xFFFFFFFF data) 0xFFFFFFFF.

(** ** Entries *)

Definition JournalWrite : Z := 0.
Definition JournalTruncate : Z := 1.
Definition JournalRename : Z := 2.
Definition JournalUnlink : Z := 3.
Definition JournalMkdir : Z := 4.
Definition JournalRmdir : Z := 5.
Definition JournalFsync : Z := 6.
Definition JournalCommit : Z := 7.

Record JournalEntry := {
  Seq : Z;
  Op : Z;
  Inode : Z;
  Path : string;
  NewPath : string;
  Offset : Z;
  Length : Z;
  BaseRev : Z;
  Timestamp : Z
}.

Definition withSeq (e : JournalEntry) (s : Z) : JournalEntry :=
  {| Seq := s; Op := Op e; Inode := Inode e; Path := Path e; NewPath := NewPath e;
     Offset := Offset e; Length := Length e; BaseRev := BaseRev e; Timestamp := Timestamp e |}.

(** What the journal uses of [encoding/json]. *)
Class JSONCodec := {
  Marshal : JournalEntry -> bytes;
  Unmarshal : bytes -> option JournalEntry;
  encodable : JournalEntry -> bool;
  unmarshal_marshal : forall e, encodable e = true -> Unmarshal (Marshal e) = Some e
}.

(** ** The journal *)

(** [data] is the content of the file at [path]; [fdOpen] says that [fd] is open. *)
Record Journal := {
  data : bytes;
  fdOpen : bool;
  seq : Z
}.

Section journal.
Context {codec : JSONCodec}.

(** [NewJournal] over the existing content of the file. *)
Definition NewJournal (content : bytes) : Journal :=
  {| data := content; fdOpen := true; seq := 0 |}.

(** The wire frame of an entry. *)
Definition frame (entry : JournalEntry) : bytes :=
  let payload := Marshal entry in
  putUint32 (zlen payload mod 2 ^ 32) ++ payload ++ putUint32 (ChecksumIEEE payload).

(** [entry.Seq = j.seq.Add(1)] *)
Definition stamp (j : Journal) (entry : JournalEntry) : Journal * JournalEntry :=
  let s := wrapu64 (seq j + 1) in
  ({| data := data j; fdOpen := fdOpen j; seq := s |}, withSeq entry s).

(** The locked part of [Append]; [torn] is the number of bytes that reached the file
    when the write fails. *)
Definition writeEntry (j : Journal) (entry : JournalEntry) (torn : option Z) : Journal * bool :=
  if fdOpen j then
    match torn with
    | None => ({| data := data j ++ frame entry; fdOpen := true; seq := seq j |}, true)
    | Some n =>
        ({| data := data j ++ take (Z.to_nat n) (frame entry); fdOpen := true; seq := seq j |}, false)
    end
  else (j, false).

(** [Append]; the Boolean is [err == nil]. *)
Definition Append (j : Journal) (entry : JournalEntry) (torn : option Z) : Journal * bool :=
  let '(j1, stamped) := stamp j entry in
  writeEntry j1 stamped torn.

(** What the scanning loops find at a position. *)
Inductive found :=
  | Truncated
  | Corrupt
  | BadJSON (frameEnd : Z)
  | Entry (entry : JournalEntry) (frameEnd : Z).

Definition readFrame (data : bytes) (pos : Z) : found :=
  let payloadLen := uint32 data pos in
  let frameEnd := pos + 4 + payloadLen + 4 in
  if zlen data <? frameEnd then Truncated
  else
    let payload := gslice data (pos + 4) (pos + 4 + payloadLen) in
    let storedCRC := uint32 data (pos + 4 + payloadLen) in
    if negb (storedCRC =? ChecksumIEEE payload) then Corrupt
    else
      match Unmarshal payload with
      | None => BadJSON frameEnd
      | Some entry => Entry entry frameEnd
      end.

(** The loop [for pos+8 <= len(data)] with the given body for valid entries. *)
Fixpoint scan {St} (fuel : nat) (data : bytes) (body : St -> Z -> Z -> JournalEntry -> St)
    (st : St) (pos : Z) : St :=
  match fuel with
  | O => st
  | S fuel =>
      if pos + 8 <=? zlen data then
        match readFrame data pos with
        | Truncated => st
        | Corrupt => scan fuel data body st (pos + 1)
        | BadJSON frameEnd => scan fuel data body st frameEnd
        | Entry entry frameEnd => scan fuel data body (body st pos frameEnd entry) frameEnd
        end
      else st
  end.

Definition scanAll {St} (data : bytes) (body : St -> Z -> Z -> JournalEntry -> St) (st : St) : St :=
  scan (length data) data body st 0.

(** The body of [Replay]'s loop: [maxSeq] and the entries [fn] was called with. *)
Definition replayBody (st : Z * list JournalEntry) (pos frameEnd : Z) (entry : JournalEntry)
    : Z * list JournalEntry :=
  (if fst st <? Seq entry then Seq entry else fst st, snd st ++ [entry]).

(** [Replay]: the journal after, the entries [fn] is called with, in order, and
    [err == nil]. *)
Definition Replay (j : Journal) : Journal * list JournalEntry * bool :=
  if negb (fdOpen j) then (j, [], false)
  else
    let '(maxSeq, called) := scanAll (data j) replayBody (0, []) in
    ({| data := data j; fdOpen := fdOpen j; seq := maxSeq |}, called, true).

(** First pass of [Compact]. *)
Definition commitBody (m : gmap string Z) (pos frameEnd : Z) (entry : JournalEntry)
    : gmap string Z :=
  if bool_decide (Op entry = JournalCommit)
  then if default 0 (m !! Path entry) <? Seq entry then <[Path entry := Seq entry]> m else m
  else m.
Definition committedUpTo (data : bytes) : gmap string Z := scanAll data commitBody ∅.

(** Second pass of [Compact]. *)
Definition keepBody (committed : gmap string Z) (data kept : bytes) (pos frameEnd : Z)
    (entry : JournalEntry) : bytes :=
  match committed !! Path entry with
  | Some boundary => if boundary <? Seq entry then kept ++ gslice data pos frameEnd else kept
  | None => kept ++ gslice data pos frameEnd
  end.
Definition keptFrames (committed : gmap string Z) (data : bytes) : bytes :=
  scanAll data (keepBody committed data) [].

(** How the rewrite of the file ends. *)
Inductive rewrite := RewriteOk | TmpWriteFails | RenameFails | ReopenFails.

(** [Compact]; the Boolean is [err == nil]. *)
Definition Compact (j : Journal) (how : rewrite) : Journal * bool :=
  if negb (fdOpen j) then (j, false)
  else
    let committed := committedUpTo (data j) in
    if bool_decide (committed = ∅) then (j, true)
    else
      let kept := keptFrames committed (data j) in
      match how with
      | TmpWriteFails | RenameFails => (j, false)
      | ReopenFails => ({| data := kept; fdOpen := false; seq := seq j |}, false)
      | RewriteOk => ({| data := kept; fdOpen := true; seq := seq j |}, true)
      end.

(** [Close]; [Fsync] does not change the content. *)
Definition Close (j : Journal) : Journal :=
  {| data := data j; fdOpen := false; seq := seq j |}.

End journal.

(** The standard check value of CRC-32/IEEE. *)
Example ChecksumIEEE_check :
  ChecksumIEEE [x31; x32; x33; x34; x35; x36; x37; x38; x39] = 0xCBF43926.
Proof. vm_compute. reflexivity. Qed.

(** ** Words *)

Lemma byteZ_range b : 0 <= byteZ b < 256.
Proof.
  unfold byteZ. pose proof (Byte.to_N_bounded b). lia.
Qed.

Lemma byteZ_zbyte z : byteZ (zbyte z) = z mod 256.
Proof.
  unfold byteZ, zbyte. pose proof (Z.mod_pos_bound z 256 ltac:(lia)).
  destruct (Byte.of_N (Z.to_N (z mod 256))) as [b|] eqn:E.
  - simpl. apply Byte.to_of_N in E. rewrite E. lia.
  - apply Byte.of_N_None_iff in E. lia.
Qed.

(** A word at the end of a prefix reads back. *)
Lemma uint32_put pre z post :
  0 <= z < 2 ^ 32 -> uint32 (pre ++ putUint32 z ++ post) (zlen pre) = z.
Proof.
  intros Hz.
  assert (forall i x, 0 <= i < 4 -> putUint32 z !! Z.to_nat i = Some x ->
            nthb (pre ++ putUint32 z ++ post) (zlen pre + i) = x) as H.
  { intros i x Hi Hx. unfold nthb, zlen. rewrite decide_True by lia.
    rewrite lookup_app_r by lia. replace (Z.to_nat (_ + i) - length pre)%nat with (Z.to_nat i) by lia.
    rewrite lookup_app_l by (simpl; lia). by rewrite Hx. }
  unfold uint32. rewrite <- (Z.add_0_r (zlen pre)) at 1.
  rewrite (H 0 _ ltac:(lia) eq_refl), (H 1 _ ltac:(lia) eq_refl),
    (H 2 _ ltac:(lia) eq_refl), (H 3 _ ltac:(lia) eq_refl).
  rewrite !byteZ_zbyte, !Z.shiftr_div_pow2 by lia.
  change (2 ^ 8) with 256. change (2 ^ 16) with 65536. change (2 ^ 24) with 16777216.
  change (2 ^ 32) with 4294967296 in Hz. clear H.
  pose proof (Z.div_mod z 256 ltac:(lia)). pose proof (Z.div_mod (z / 256) 256 ltac:(lia)).
  pose proof (Z.div_mod (z / 65536) 256 ltac:(lia)).
  replace (z / 256 / 256) with (z / 65536) in * by (rewrite Z.div_div by lia; done).
  replace (z / 65536 / 256) with (z / 16777216) in * by (rewrite Z.div_div by lia; done).
  assert (0 <= z / 16777216 < 256).
  { split; [apply Z.div_pos; lia|apply Z.div_lt_upper_bound; lia]. }
  rewrite (Z.mod_small (z / 16777216)) by lia. lia.
Qed.

(** ** The checksum is a 32-bit word *)

Definition word32 (c : Z) : Prop := 0 <= c < 2 ^ 32.

Lemma word32_bits c : 0 <= c -> (forall i, 32 <= i -> Z.testbit c i = false) -> word32 c.
Proof.
  intros Hc H. split; [done|]. assert (- 2 ^ 32 <= c < 2 ^ 32); [|lia].
  apply Z.bounded_iff_bits; [lia|]. intros l Hl. rewrite H by done.
  symmetry. apply bool_decide_eq_false. lia.
Qed.

Lemma word32_testbit c i : word32 c -> 32 <= i -> Z.testbit c i = false.
Proof.
  intros [H1 H2] Hi. apply Z.testbit_false; [lia|].
  assert (2 ^ 32 <= 2 ^ i) by (apply Z.pow_le_mono_r; lia).
  rewrite Z.div_small by lia. done.
Qed.

Lemma word32_lxor a b : word32 a -> word32 b -> word32 (Z.lxor a b).
Proof.
  intros Ha Hb. apply word32_bits.
  - apply Z.lxor_nonneg. split; intros; [apply Hb|apply Ha].
  - intros i Hi. by rewrite Z.lxor_spec, !word32_testbit.
Qed.

Lemma word32_shiftr a : word32 a -> word32 (Z.shiftr a 1).
Proof.
  intros Ha. apply word32_bits; [apply Z.shiftr_nonneg, Ha|].
  intros i Hi. rewrite Z.shiftr_spec by lia. apply word32_testbit; [done|lia].
Qed.

Lemma word32_crcBit c : word32 c -> word32 (crcBit c).
Proof.
  intros Hc. unfold crcBit. case_if; [|by apply word32_shiftr].
  apply word32_lxor; [by apply word32_shiftr|done].
Qed.

Lemma word32_crc data : word32 (ChecksumIEEE data).
Proof.
  apply word32_lxor; [|done]. apply (foldl_inv word32); [done|].
  intros c b _ Hc. unfold crcByte.
  assert (word32 (Z.lxor c (byteZ b))) as H.
  { apply word32_lxor; [done|]. pose proof (byteZ_range b). unfold word32. lia. }
  revert H. generalize (Z.lxor c (byteZ b)). intros x Hx.
  by do 8 (apply word32_crcBit).
Qed.

(** ** Frames *)

Section frames.
Context {codec : JSONCodec}.

(** An entry whose frame can be read back: JSON represents it and its payload has a
    length that fits the prefix. *)
Definition writable (e : JournalEntry) : Prop :=
  encodable e = true /\ zlen (Marshal e) < 2 ^ 32.

(** The file of a log. *)
Definition frames (log : list JournalEntry) : bytes := concat (frame <$> log).

Lemma zlen_frame e : zlen (frame e) = zlen (Marshal e) + 8.
Proof. unfold frame. rewrite !zlen_app. unfold zlen. simpl. lia. Qed.

Lemma frames_app l1 l2 : frames (l1 ++ l2) = frames l1 ++ frames l2.
Proof. unfold frames. by rewrite fmap_app, concat_app. Qed.

Lemma frames_cons e log : frames (e :: log) = frame e ++ frames log.
Proof. done. Qed.

Lemma frames_one e : frames [e] = frame e.
Proof. unfold frames. cbn [fmap list_fmap concat]. apply app_nil_r. Qed.

Lemma gslice_mid {A} (pre mid post : list A) :
  gslice (pre ++ mid ++ post) (zlen pre) (zlen pre + zlen mid) = mid.
Proof.
  unfold gslice, zlen. rewrite Nat2Z.id, drop_app_length.
  replace (Z.to_nat _) with (length mid) by lia. apply take_app_length.
Qed.

(** The length prefix of a frame, also of a torn one. *)
Lemma frame_length pre e rest :
  writable e ->
  uint32 (pre ++ putUint32 (zlen (Marshal e) mod 2 ^ 32) ++ rest) (zlen pre) = zlen (Marshal e).
Proof.
  intros [_ Hl]. pose proof (zlen_nonneg (Marshal e)). rewrite Z.mod_small by lia.
  apply uint32_put. lia.
Qed.

(** A frame of the file reads back as its entry. *)
Lemma readFrame_frame pre e post :
  writable e ->
  readFrame (pre ++ frame e ++ post) (zlen pre) = Entry e (zlen pre + zlen (frame e)).
Proof.
  intros Hw. pose proof Hw as [He Hl]. pose proof (zlen_nonneg (Marshal e)). pose proof (zlen_nonneg post).
  set (head := putUint32 (zlen (Marshal e) mod 2 ^ 32)).
  assert (frame e = head ++ Marshal e ++ putUint32 (ChecksumIEEE (Marshal e))) as Ef by done.
  assert (zlen head = 4) as Hh by done.
  unfold readFrame.
  replace (uint32 (pre ++ frame e ++ post) (zlen pre)) with (zlen (Marshal e)).
  2:{ rewrite Ef, <- !app_assoc. symmetry. by apply frame_length. }
  rewrite (proj2 (Z.ltb_ge _ _)) by (rewrite !zlen_app, zlen_frame; lia).
  replace (gslice _ _ _) with (Marshal e).
  2:{ rewrite Ef, <- !app_assoc, (app_assoc pre head).
      replace (zlen pre + 4) with (zlen (pre ++ head)) by (rewrite zlen_app; lia).
      symmetry. apply gslice_mid. }
  replace (uint32 _ _) with (ChecksumIEEE (Marshal e)).
  2:{ rewrite Ef, <- !app_assoc, (app_assoc pre head), (app_assoc _ (Marshal e)).
      replace (zlen pre + 4 + zlen (Marshal e)) with (zlen ((pre ++ head) ++ Marshal e))
        by (rewrite !zlen_app; lia).
      symmetry. apply uint32_put, word32_crc. }
  rewrite Z.eqb_refl. cbn [negb]. rewrite unmarshal_marshal by done.
  f_equal. rewrite zlen_frame. lia.
Qed.

(** ** The scanning loop *)

Lemma readFrame_end data pos :
  match readFrame data pos with
  | BadJSON e | Entry _ e => pos + 8 <= e <= zlen data
  | _ => True
  end.
Proof.
  unfold readFrame. destruct (zlen data <? _) eqn:E; [done|]. bool_prop.
  assert (0 <= uint32 data pos).
  { unfold uint32. pose proof (fun i => byteZ_range (nthb data i)) as Hb.
    pose proof (Hb pos). pose proof (Hb (pos + 1)). pose proof (Hb (pos + 2)). pose proof (Hb (pos + 3)). lia. }
  destruct (negb _); [done|]. destruct (Unmarshal _); lia.
Qed.

(** Fuel for the rest of the file is enough. *)
Lemma scan_fuel {St} data body (st : St) pos f f' :
  zlen data - pos <= Z.of_nat f -> zlen data - pos <= Z.of_nat f' ->
  scan f data body st pos = scan f' data body st pos.
Proof.
  revert f' st pos. induction f as [|f IH]; intros f' st pos Hf Hf'.
  - destruct f'; [done|]. simpl. by rewrite (proj2 (Z.leb_gt _ _)) by lia.
  - destruct f' as [|f']; cbn [scan].
    + by rewrite (proj2 (Z.leb_gt _ _)) by lia.
    + destruct (pos + 8 <=? zlen data) eqn:E; [|done]. bool_prop.
      pose proof (readFrame_end data pos) as Hend.
      destruct (readFrame data pos); [done|..]; apply IH; lia.
Qed.

(** The loop over a list of frames that starts at [pos]. *)
Fixpoint foldLog {St} (body : St -> Z -> Z -> JournalEntry -> St) (st : St) (pos : Z)
    (log : list JournalEntry) : St :=
  match log with
  | [] => st
  | e :: log => foldLog body (body st pos (pos + zlen (frame e)) e) (pos + zlen (frame e)) log
  end.

(** Nothing is found from [pos] on. *)
Definition stops (data : bytes) (pos : Z) : Prop :=
  zlen data < pos + 8 \/ readFrame data pos = Truncated.

Lemma scan_stops {St} f data body (st : St) pos : stops data pos -> scan f data body st pos = st.
Proof.
  intros H. destruct f; [done|]. cbn [scan]. destruct (_ <=? _) eqn:E; [|done]. bool_prop.
  destruct H as [H|H]; [lia|by rewrite H].
Qed.

Lemma scan_log {St} body f pre log tail (st : St) :
  Forall writable log -> zlen (frames log ++ tail) <= Z.of_nat f ->
  stops (pre ++ frames log ++ tail) (zlen (pre ++ frames log)) ->
  scan f (pre ++ frames log ++ tail) body st (zlen pre) = foldLog body st (zlen pre) log.
Proof.
  intros Hw. revert pre f st. induction Hw as [|e log He Hw IH]; intros pre f st Hf Hs.
  - cbn [foldLog]. apply scan_stops. by rewrite app_nil_r in Hs.
  - rewrite frames_cons in *.
    rewrite <- !app_assoc in *. pose proof (zlen_frame e). pose proof (zlen_nonneg (Marshal e)).
    rewrite zlen_app in Hf. pose proof (zlen_nonneg (frames log ++ tail)).
    destruct f as [|f]; [lia|]. cbn [scan foldLog].
    rewrite (proj2 (Z.leb_le _ _)) by (rewrite !zlen_app in *; lia).
    rewrite readFrame_frame by done.
    rewrite (scan_fuel _ _ _ _ f (length (frames log ++ tail)))
      by (rewrite !zlen_app in *; unfold zlen in *; rewrite ?length_app; lia).
    rewrite (app_assoc pre). replace (zlen pre + zlen (frame e)) with (zlen (pre ++ frame e))
      by (by rewrite zlen_app).
    apply IH; [unfold zlen; lia|]. by rewrite <- !app_assoc.
Qed.

(** The loop over a whole file. *)
Lemma scanAll_log {St} body log tail (st : St) :
  Forall writable log -> stops (frames log ++ tail) (zlen (frames log)) ->
  scanAll (frames log ++ tail) body st = foldLog body st 0 log.
Proof.
  intros Hw Hs. unfold scanAll. apply (scan_log body _ [] log tail st Hw); [|done].
  unfold zlen. lia.
Qed.

Lemma stops_end data : stops data (zlen data).
Proof. left. lia. Qed.

Lemma scanAll_frames {St} body log (st : St) :
  Forall writable log -> scanAll (frames log) body st = foldLog body st 0 log.
Proof.
  intros Hw. rewrite <- (app_nil_r (frames log)). apply scanAll_log; [done|].
  rewrite app_nil_r. apply stops_end.
Qed.

(** A torn frame at the end of the file stops the loop. *)
Lemma stops_torn pre e n :
  writable e -> (n < length (frame e))%nat -> stops (pre ++ take n (frame e)) (zlen pre).
Proof.
  intros Hw Hn. pose proof (zlen_frame e) as Hf. unfold zlen in Hf.
  destruct (decide (n < 8)%nat); [left; rewrite zlen_app; unfold zlen; rewrite length_take; lia|].
  right. unfold readFrame.
  assert (uint32 (pre ++ take n (frame e)) (zlen pre) = zlen (Marshal e)) as ->.
  { unfold frame at 1. rewrite take_app_ge by (simpl; lia). by apply frame_length. }
  rewrite (proj2 (Z.ltb_lt _ _)); [done|]. rewrite zlen_app. unfold zlen in *.
  rewrite length_take. lia.
Qed.

(** ** The passes over a log *)

Lemma foldLog_foldl {St} body (step : St -> JournalEntry -> St) st pos log :
  (forall st p q e, body st p q e = step st e) -> foldLog body st pos log = foldl step st log.
Proof.
  intros H. revert st pos. induction log as [|e log IH]; intros st pos; [done|].
  cbn [foldLog foldl]. by rewrite H, IH.
Qed.

(** The highest sequence number of a log. *)
Definition maxSeqOf (log : list JournalEntry) : Z := foldl Z.max 0 (Seq <$> log).

Lemma maxSeqOf_snoc log e : maxSeqOf (log ++ [e]) = Z.max (maxSeqOf log) (Seq e).
Proof. unfold maxSeqOf. by rewrite fmap_app, foldl_app. Qed.

Lemma maxSeqOf_ge log e : e ∈ log -> Seq e <= maxSeqOf log.
Proof.
  induction log as [|x log IH] using rev_ind; [set_solver|]. rewrite maxSeqOf_snoc.
  intros [He| ->%list_elem_of_singleton]%elem_of_app; [specialize (IH He)|]; lia.
Qed.

Lemma maxSeqOf_bound log b :
  0 <= b -> (forall e, e ∈ log -> Seq e <= b) -> 0 <= maxSeqOf log <= b.
Proof.
  intros Hb. induction log as [|x log IH] using rev_ind; [unfold maxSeqOf; simpl; lia|].
  intros H. rewrite maxSeqOf_snoc. specialize (IH ltac:(intros; apply H; set_solver)).
  specialize (H x ltac:(set_solver)). lia.
Qed.

Lemma foldLog_replay pos log : foldLog replayBody (0, []) pos log = (maxSeqOf log, log).
Proof.
  rewrite (foldLog_foldl _ (fun st e => replayBody st 0 0 e)) by done.
  induction log as [|e log IH] using rev_ind; [done|].
  rewrite foldl_app, IH, maxSeqOf_snoc. cbn [foldl]. unfold replayBody. cbn [fst snd].
  f_equal. case_if; bool_prop; lia.
Qed.

(** A commit marker of a path. *)
Definition commitOf (p : string) (c : JournalEntry) : Prop := Op c = JournalCommit /\ Path c = p.

(** The commit boundary of a path after a log. *)
Definition boundaryOf (log : list JournalEntry) (p : string) (o : option Z) : Prop :=
  match o with
  | None => forall c, c ∈ log -> ~ commitOf p c
  | Some b => (exists c, c ∈ log /\ commitOf p c /\ Seq c = b)
              /\ forall c, c ∈ log -> commitOf p c -> Seq c <= b
  end.

Lemma boundaryOf_other log p o e :
  ~ commitOf p e -> boundaryOf log p o -> boundaryOf (log ++ [e]) p o.
Proof.
  intros He. assert (forall c, c ∈ log ++ [e] <-> c ∈ log \/ c = e) as Hin by set_solver.
  destruct o; simpl; setoid_rewrite Hin; naive_solver.
Qed.

Lemma boundaryOf_commit log p o e :
  commitOf p e -> 1 <= Seq e -> boundaryOf log p o ->
  boundaryOf (log ++ [e]) p (if default 0 o <? Seq e then Some (Seq e) else o).
Proof.
  intros He Hs Hb. assert (forall c, c ∈ log ++ [e] <-> c ∈ log \/ c = e) as Hin by set_solver.
  destruct o as [b|]; cbn [default id] in *.
  - destruct Hb as [(c0 & ? & ? & ?) Hmax]. case_if; bool_prop; simpl; setoid_rewrite Hin.
    + split; [eauto|]. intros c [Hc| ->] Hcp; [|lia]. specialize (Hmax c Hc Hcp). lia.
    + split; [eauto|]. intros c [Hc| ->] Hcp; [by apply Hmax|lia].
  - rewrite (proj2 (Z.ltb_lt _ _)) by lia. simpl. setoid_rewrite Hin.
    split; [eauto|]. intros c [Hc| ->] Hcp; [by destruct (Hb c Hc)|lia].
Qed.

Lemma foldLog_commit pos log p :
  Forall (fun e => 1 <= Seq e) log -> boundaryOf log p (foldLog commitBody ∅ pos log !! p).
Proof.
  rewrite (foldLog_foldl _ (fun st e => commitBody st 0 0 e)) by done.
  induction log as [|e log IH] using rev_ind.
  { intros _. cbn [foldl]. rewrite lookup_empty. simpl. set_solver. }
  intros [Hl He]%Forall_app. rewrite Forall_singleton in He. specialize (IH Hl).
  rewrite foldl_app. cbn [foldl]. set (m := foldl _ ∅ log) in *. unfold commitBody.
  case_bool_decide as Hop; [|apply boundaryOf_other; [by intros []|done]].
  destruct (decide (Path e = p)) as [<-|Hne].
  - pose proof (boundaryOf_commit log (Path e) _ e ltac:(done) He IH) as H.
    destruct (_ <? _); [by rewrite lookup_insert_eq|done].
  - apply (boundaryOf_other _ _ _ e) in IH; [|by intros []].
    destruct (_ <? _); [by rewrite lookup_insert_ne|done].
Qed.

(** The entries that no commit marker of their path covers. *)
Definition survives (log : list JournalEntry) (e : JournalEntry) : Prop :=
  Forall (fun c => ~ (Op c = JournalCommit /\ Path c = Path e /\ Seq e <= Seq c)) log.

#[local] Instance survives_dec log e : Decision (survives log e).
Proof. unfold survives. apply _. Defined.

Definition survivors (log : list JournalEntry) : list JournalEntry := filter (survives log) log.

Lemma keepBody_survives log kept data pos fe e :
  Forall (fun e => 1 <= Seq e) log ->
  keepBody (foldLog commitBody ∅ 0 log) data kept pos fe e
  = if decide (survives log e) then kept ++ gslice data pos fe else kept.
Proof.
  intros Hs. pose proof (foldLog_commit 0 log (Path e) Hs) as Hc. unfold keepBody, boundaryOf in *.
  destruct (foldLog commitBody ∅ 0 log !! Path e) as [b|].
  - destruct Hc as [(c & Hin & [Hop Hp] & <-) Hmax]. case_if; bool_prop; case_decide as Hd; try done.
    + destruct Hd. apply Forall_forall. intros c' Hc' (Hop' & Hp' & Hle).
      specialize (Hmax c' Hc' (conj Hop' Hp')). lia.
    + unfold survives in Hd. rewrite Forall_forall in Hd. by destruct (Hd c Hin).
  - rewrite decide_True; [done|]. apply Forall_forall. intros c Hin (Hop & Hp & _).
    by apply (Hc c Hin).
Qed.

Lemma foldLog_keep log0 pre log post kept :
  Forall (fun e => 1 <= Seq e) log0 ->
  foldLog (keepBody (foldLog commitBody ∅ 0 log0) (pre ++ frames log ++ post)) kept (zlen pre) log
  = kept ++ frames (filter (survives log0) log).
Proof.
  intros Hs. revert pre kept. induction log as [|e log IH]; intros pre kept.
  - cbn [foldLog]. by rewrite app_nil_r.
  - cbn [foldLog]. rewrite keepBody_survives by done.
    rewrite frames_cons.
    rewrite <- app_assoc, gslice_mid.
    replace (zlen pre + zlen (frame e)) with (zlen (pre ++ frame e)) by (by rewrite zlen_app).
    rewrite (app_assoc pre (frame e)), IH, filter_cons. case_decide; [|done].
    by rewrite <- app_assoc.
Qed.

(** The two passes of [Compact] on a log. *)
Lemma compact_passes log :
  Forall writable log -> Forall (fun e => 1 <= Seq e) log ->
  keptFrames (committedUpTo (frames log)) (frames log) = frames (survivors log)
  /\ (committedUpTo (frames log) = ∅ -> survivors log = log).
Proof.
  intros Hw Hs. unfold keptFrames, committedUpTo. rewrite !scanAll_frames by done. split.
  - pose proof (foldLog_keep log [] log [] [] Hs) as H. cbn [app] in H. rewrite app_nil_r in H.
    exact H.
  - intros E. unfold survivors. apply filter_keeps_all, Forall_forall. intros e He.
    pose proof (foldLog_commit 0 log (Path e) Hs) as Hc. rewrite E, lookup_empty in Hc.
    apply Forall_forall. intros c Hin (Hop & Hp & _). by apply (Hc c Hin).
Qed.

(** ** Histories *)

(** The states of a journal: the journal, the entries that were stamped and not yet
    written, and the log, the entries in the file. *)
Inductive jstep : Journal * list JournalEntry * list JournalEntry ->
                  Journal * list JournalEntry * list JournalEntry -> Prop :=
  | js_stamp j flight log e :
      writable (snd (stamp j e)) -> seq j + 1 < 2 ^ 64 ->
      jstep (j, flight, log) (fst (stamp j e), flight ++ [snd (stamp j e)], log)
  | js_write j l1 e l2 log :
      jstep (j, l1 ++ e :: l2, log)
            (fst (writeEntry j e None), l1 ++ l2, if fdOpen j then log ++ [e] else log)
  | js_compact j flight log how :
      jstep (j, flight, log)
            (fst (Compact j how), flight,
             if fdOpen j && match how with RewriteOk | ReopenFails => true | _ => false end
             then survivors log else log)
  | js_close j flight log : jstep (j, flight, log) (Close j, flight, log)
  | js_restart j flight log : jstep (j, flight, log) (fst (fst (Replay (NewJournal (data j)))), [], log).

(** A journal that started on an empty file. *)
Definition journalReachable (j : Journal) (flight log : list JournalEntry) : Prop :=
  rtc jstep (NewJournal [], [], []) (j, flight, log).

Record logged (st : Journal * list JournalEntry * list JournalEntry) : Prop := {
  lg_data : data (fst (fst st)) = frames (snd st);
  lg_writable : Forall writable (snd st ++ snd (fst st));
  lg_seq : Forall (fun e => 1 <= Seq e <= seq (fst (fst st))) (snd st ++ snd (fst st));
  lg_nodup : NoDup (Seq <$> snd st ++ snd (fst st));
  lg_range : 0 <= seq (fst (fst st)) < 2 ^ 64
}.

Lemma logged_log st :
  logged st -> Forall writable (snd st) /\ Forall (fun e => 1 <= Seq e) (snd st).
Proof.
  intros [_ Hw Hs _ _]. apply Forall_app in Hw as [Hw _]. apply Forall_app in Hs as [Hs _].
  split; [done|]. eapply Forall_impl; [exact Hs|]. simpl. lia.
Qed.

Lemma logged_stamp j flight log e :
  writable (snd (stamp j e)) -> seq j + 1 < 2 ^ 64 -> logged (j, flight, log) ->
  logged (fst (stamp j e), flight ++ [snd (stamp j e)], log).
Proof.
  intros Hw Hb [Hd Hws Hs Hnd Hr]. cbn [fst snd] in *.
  assert (Seq (snd (stamp j e)) = seq j + 1) as Es by (simpl; rewrite wrapu64_small; lia).
  assert (seq (fst (stamp j e)) = seq j + 1) as Es' by (simpl; rewrite wrapu64_small; lia).
  split; cbn [fst snd]; rewrite ?(app_assoc log), ?Es'; [done|..].
  - apply Forall_app. split; [done|by apply Forall_singleton].
  - apply Forall_app. split; [|apply Forall_singleton; rewrite Es; lia].
    eapply Forall_impl; [exact Hs|]. simpl. lia.
  - rewrite fmap_app. apply NoDup_app. split_and!; [done| |apply NoDup_singleton].
    intros x (y & -> & Hy)%list_elem_of_fmap Hx. apply list_elem_of_singleton in Hx.
    rewrite Forall_forall in Hs. specialize (Hs y Hy). lia.
  - lia.
Qed.

(** Entries may leave a state. *)
Lemma logged_sub j j' flight flight' log log' :
  logged (j, flight, log) -> log' ++ flight' ⊆+ log ++ flight ->
  data j' = frames log' -> seq j' = seq j -> logged (j', flight', log').
Proof.
  intros [Hd Hw Hs Hnd Hr] (rest & Hp)%submseteq_Permutation Hd' Hseq. cbn [fst snd] in *.
  rewrite Hp in Hw, Hs, Hnd. rewrite fmap_app in Hnd.
  apply Forall_app in Hw as [Hw _]. apply Forall_app in Hs as [Hs _].
  apply NoDup_app in Hnd as [Hnd _]. split; cbn [fst snd]; by rewrite ?Hseq.
Qed.

Lemma survivors_sub log : survivors log ⊆+ log.
Proof. apply sublist_submseteq, sublist_filter. Qed.

(** [Compact] leaves the frames of the survivors, or the file as it was. *)
Lemma compact_effect j flight log how :
  logged (j, flight, log) ->
  data (fst (Compact j how))
  = frames (if fdOpen j && match how with RewriteOk | ReopenFails => true | _ => false end
            then survivors log else log)
  /\ seq (fst (Compact j how)) = seq j.
Proof.
  intros Hl. destruct (logged_log _ Hl) as [Hw Hs]. pose proof (lg_data _ Hl) as Hd.
  cbn [fst snd] in *. unfold Compact. destruct (fdOpen j); [|done]. cbn [negb andb].
  destruct (compact_passes log Hw Hs) as [Hk He]. rewrite Hd.
  case_bool_decide as Hm; [|destruct how; cbn [fst data seq]; rewrite ?Hk; done].
  cbn [fst]. rewrite (He Hm). by destruct how.
Qed.

Lemma replay_effect content log tail :
  Forall writable log -> content = frames log ++ tail -> stops content (zlen (frames log)) ->
  Replay (NewJournal content) = ({| data := content; fdOpen := true; seq := maxSeqOf log |}, log, true).
Proof.
  intros Hw -> Hs. unfold Replay. cbn [fdOpen data NewJournal negb].
  rewrite scanAll_log by done. by rewrite foldLog_replay.
Qed.

Lemma replay_clean log :
  Forall writable log ->
  Replay (NewJournal (frames log))
  = ({| data := frames log; fdOpen := true; seq := maxSeqOf log |}, log, true).
Proof.
  intros Hw. apply (replay_effect _ log []); [done|by rewrite app_nil_r|apply stops_end].
Qed.

Lemma jstep_logged st st' : jstep st st' -> logged st -> logged st'.
Proof.
  intros [j flight log e Hw Hb|j l1 e l2 log|j flight log how|j flight log|j flight log] Hl.
  - by apply logged_stamp.
  - unfold writeEntry. destruct (fdOpen j); cbn [fst];
      (eapply logged_sub; [exact Hl|..]; cbn [data seq]); try done.
    + apply Permutation_submseteq. solve_Permutation.
    + rewrite frames_app, frames_one. f_equal. apply (lg_data _ Hl).
    + apply submseteq_app; [done|]. apply submseteq_app; [done|]. by apply submseteq_cons.
    + apply (lg_data _ Hl).
  - destruct (compact_effect j flight log how Hl) as [Hd Hs].
    eapply logged_sub; [exact Hl| |exact Hd|exact Hs]. apply submseteq_app; [|done].
    destruct (_ && _); [apply survivors_sub|done].
  - by eapply logged_sub; [exact Hl|..]; [|apply (lg_data _ Hl)|].
  - destruct (logged_log _ Hl) as [Hw Hs]. pose proof Hl as [Hd _ Hsq Hnd Hr]. cbn [fst snd] in *.
    rewrite Hd, replay_clean by done. cbn [fst].
    apply Forall_app in Hsq as [Hsq _]. rewrite fmap_app in Hnd. apply NoDup_app in Hnd as [Hnd _].
    rewrite Forall_forall in Hs, Hsq.
    pose proof (maxSeqOf_bound log (seq j) ltac:(lia) (fun e He => proj2 (Hsq e He))).
    split; cbn [fst snd data seq]; rewrite ?app_nil_r; try done; [|lia].
    apply Forall_forall. intros e He. split; [by apply Hs|by apply maxSeqOf_ge].
Qed.

Lemma journalReachable_logged j flight log :
  journalReachable j flight log -> logged (j, flight, log).
Proof.
  unfold journalReachable. intros H. remember (NewJournal [], [], []) as st eqn:E.
  assert (logged st) as H0.
  { subst st. split; cbn; try done; try constructor. }
  clear E. induction H; eauto using jstep_logged.
Qed.

(** ** Crashes *)

(** Every cut of a log's file keeps some frames whole and tears at most one. *)
Lemma frames_cut log n :
  exists log1 log2 tail, log = log1 ++ log2 /\ take n (frames log) = frames log1 ++ tail
    /\ (log2 = [] /\ tail = []
        \/ exists e rest k, log2 = e :: rest /\ tail = take k (frame e) /\ (k < length (frame e))%nat).
Proof.
  revert n. induction log as [|e log IH]; intros n.
  - exists [], [], []. split_and!; [done|by destruct n|by left].
  - rewrite frames_cons.
    destruct (decide (n < length (frame e))%nat).
    + exists [], (e :: log), (take n (frame e)). split_and!; [done| |right; by exists e, log, n].
      rewrite take_app_le by lia. done.
    + destruct (IH (n - length (frame e))%nat) as (l1 & l2 & tail & -> & Ht & Hc).
      exists (e :: l1), l2, tail. split_and!; [done| |done].
      rewrite take_app_ge by lia. rewrite Ht. by rewrite frames_cons, app_assoc.
Qed.

(** ** Properties *)

(** C8: crash recovery of the log.  After any interleaving of appends, compactions and
    restarts, if a crash keeps only the first [n] bytes of the file, [Replay] hands
    out, in order, the entries whose frames are complete and stops at the torn one;
    their sequence numbers are distinct and the counter it restores is not below any
    of them. *)
Theorem replay_after_crash j flight log n :
  journalReachable j flight log ->
  exists log1 log2 j',
    log = log1 ++ log2
    /\ Replay (NewJournal (take (Z.to_nat n) (data j))) = (j', log1, true)
    /\ (log2 = [] \/ exists e rest, log2 = e :: rest /\ n < zlen (frames (log1 ++ [e])))
    /\ NoDup (Seq <$> log1) /\ (forall e, e ∈ log1 -> Seq e <= seq j').
Proof.
  intros Hr. apply journalReachable_logged in Hr as Hl. destruct (logged_log _ Hl) as [Hw _].
  pose proof Hl as [Hd _ _ Hnd _]. cbn [fst snd] in *. rewrite Hd.
  destruct (frames_cut log (Z.to_nat n)) as (l1 & l2 & tail & -> & Ht & Hc). rewrite Ht.
  apply Forall_app in Hw as [Hw1 Hw2]. rewrite !fmap_app in Hnd.
  apply NoDup_app in Hnd as [Hnd _]. apply NoDup_app in Hnd as [Hnd _].
  exists l1, l2, {| data := frames l1 ++ tail; fdOpen := true; seq := maxSeqOf l1 |}.
  split_and!; [done| | |done|intros e; apply maxSeqOf_ge].
  - apply (replay_effect _ l1 tail); [done..|].
    destruct Hc as [[_ ->]|(e & rest & k & -> & -> & Hk)].
    + rewrite app_nil_r. apply stops_end.
    + apply stops_torn; [by inversion Hw2|done].
  - destruct Hc as [[-> _]|(e & rest & k & -> & -> & Hk)]; [by left|right]. exists e, rest.
    split; [done|]. apply (f_equal zlen) in Ht.
    rewrite frames_app, frames_one, zlen_app. rewrite zlen_app in Ht. unfold zlen in Ht |- *.
    rewrite !length_take in Ht.
    assert (length (frames l1) + length (frame e) <= length (frames (l1 ++ e :: rest)))%nat.
    { rewrite frames_app, length_app, frames_cons, length_app. lia. }
    lia.
Qed.

(** Compaction loses nothing that recovery needs.  After any interleaving of
    appends, compactions and restarts, a compaction that replaces the file leaves
    exactly the entries that no commit marker of the same path with an equal or
    higher sequence number covers, in order, for the next replay; one that fails
    before the rename leaves all of them. *)
Theorem compact_keeps_uncommitted j flight log how :
  journalReachable j flight log -> fdOpen j = true ->
  let '(j', ok) := Compact j how in
  let kept := snd (fst (Replay (NewJournal (data j')))) in
  match how with
  | RewriteOk => ok = true /\ kept = survivors log
  | ReopenFails => kept = survivors log
  | TmpWriteFails | RenameFails => kept = log
  end.
Proof.
  intros Hr Ho. apply journalReachable_logged in Hr as Hl.
  destruct (logged_log _ Hl) as [Hw _]. cbn [fst snd] in Hw.
  destruct (compact_effect j flight log how Hl) as [Hd _]. rewrite Ho in Hd.
  assert (Forall writable (survivors log)) as Hws.
  { apply Forall_forall. intros e [_ He]%list_elem_of_filter. by eapply Forall_forall in Hw. }
  assert (how = RewriteOk -> snd (Compact j how) = true) as Hok.
  { intros ->. unfold Compact. rewrite Ho. cbn [negb]. by case_bool_decide. }
  destruct (Compact j how) as [j' ok]. cbn [fst snd] in *. rewrite Hd.
  destruct how; cbn [andb]; rewrite replay_clean by done; auto.
Qed.

(** Appends behind a torn frame are not replayed.  When a crash has left the first
    [k] bytes of a frame and entries appended after the restart do not yet fill the
    length that frame announces, [Replay] stops at the torn frame and hands out none
    of them, although its comment says that truncated entries are skipped and replay
    continues from the next entry. *)
Theorem torn_frame_hides_appends log e k later :
  Forall writable log -> writable e -> (4 <= k)%nat ->
  zlen (take k (frame e) ++ frames later) < zlen (frame e) ->
  snd (fst (Replay (NewJournal (frames log ++ take k (frame e) ++ frames later)))) = log.
Proof.
  intros Hw He Hk Hshort. rewrite (replay_effect _ log (take k (frame e) ++ frames later)); [done..|].
  destruct (decide (zlen (take k (frame e) ++ frames later) < 8)).
  { left. rewrite zlen_app. lia. }
  right. unfold readFrame.
  assert (uint32 (frames log ++ take k (frame e) ++ frames later) (zlen (frames log))
          = zlen (Marshal e)) as ->.
  { unfold frame at 1. rewrite take_app_ge by done. rewrite <- app_assoc. by apply frame_length. }
  rewrite zlen_frame in Hshort. rewrite (proj2 (Z.ltb_lt _ _)); [done|]. rewrite zlen_app. lia.
Qed.

End frames.

(** ** A codec and witnesses *)

(** A concrete codec: the fields as one number, one bit per byte. *)
Definition fields (e : JournalEntry) : Z * Z * Z * string * string * Z * Z * Z * Z :=
  (Seq e, Op e, Inode e, Path e, NewPath e, Offset e, Length e, BaseRev e, Timestamp e).
Definition ofFields (f : Z * Z * Z * string * string * Z * Z * Z * Z) : JournalEntry :=
  let '(s, o, i, p, np, off, len, rev, ts) := f in
  {| Seq := s; Op := o; Inode := i; Path := p; NewPath := np; Offset := off; Length := len;
     BaseRev := rev; Timestamp := ts |}.

#[local] Program Instance bitCodec : JSONCodec := {|
  Marshal e := bitBytes (encode (fields e));
  Unmarshal b := p ← bytesBits b; ofFields <$> decode p;
  encodable _ := true
|}.
Next Obligation.
  intros e _. simpl. rewrite bytesBits_bitBytes. simpl. rewrite decode_encode. simpl.
  by destruct e.
Qed.

Definition writeOp (p : string) : JournalEntry :=
  {| Seq := 0; Op := JournalWrite; Inode := 2; Path := p; NewPath := ""; Offset := 0; Length := 5;
     BaseRev := 1; Timestamp := 0 |}.
Definition commitOp (p : string) : JournalEntry :=
  {| Seq := 0; Op := JournalCommit; Inode := 2; Path := p; NewPath := ""; Offset := 0; Length := 0;
     BaseRev := 2; Timestamp := 0 |}.

(** A call of [Append] that is not interrupted, as two steps. *)
Lemma append_reachable j log e :
  writable (snd (stamp j e)) -> seq j + 1 < 2 ^ 64 -> fdOpen j = true ->
  journalReachable j [] log ->
  journalReachable (fst (Append j e None)) [] (log ++ [withSeq e (wrapu64 (seq j + 1))]).
Proof.
  intros Hw Hb Ho Hr. eapply rtc_r; [eapply rtc_r; [exact Hr|by apply (js_stamp j [] log e)]|].
  pose proof (js_write (fst (stamp j e)) [] (snd (stamp j e)) [] log) as H.
  replace (fdOpen (fst (stamp j e))) with true in H by done. exact H.
Qed.

Definition j1 : Journal := fst (Append (NewJournal []) (writeOp "/a") None).
Definition j2 : Journal := fst (Append j1 (writeOp "/b") None).
Definition j3 : Journal := fst (Append j2 (commitOp "/a") None).
Definition log3 : list JournalEntry :=
  [withSeq (writeOp "/a") 1; withSeq (writeOp "/b") 2; withSeq (commitOp "/a") 3].

Ltac writable_now := split; [reflexivity|vm_compute; reflexivity].

Lemma j3_reachable : journalReachable j3 [] log3.
Proof.
  apply (append_reachable j2 [_; _]); [writable_now|reflexivity|reflexivity|].
  apply (append_reachable j1 [_]); [writable_now|reflexivity|reflexivity|].
  apply (append_reachable (NewJournal []) []); [writable_now|reflexivity|reflexivity|apply rtc_refl].
Qed.

Lemma replay_after_crash_witness :
  exists log1 log2 j', log3 = log1 ++ log2
    /\ Replay (NewJournal (take (Z.to_nat (zlen (data j3) - 1)) (data j3))) = (j', log1, true).
Proof.
  destruct (replay_after_crash j3 [] log3 (zlen (data j3) - 1) j3_reachable)
    as (log1 & log2 & j' & E & H & _).
  exists log1, log2, j'. split; [exact E|exact H].
Defined.

Lemma compact_keeps_uncommitted_witness :
  snd (fst (Replay (NewJournal (data (fst (Compact j3 RewriteOk))))))
  = [withSeq (writeOp "/b") 2].
Proof.
  pose proof (compact_keeps_uncommitted j3 [] log3 RewriteOk j3_reachable eq_refl) as H.
  destruct (Compact j3 RewriteOk) as [j' ok]. cbn [fst]. destruct H as [_ H].
  refine (eq_trans H _). vm_compute. reflexivity.
Defined.

Lemma torn_frame_hides_appends_witness :
  snd (fst (Replay (NewJournal
    (frames [] ++ take 20 (frame (withSeq (writeOp "/a/much/longer/path") 1))
       ++ frames [withSeq (writeOp "/b") 1])))) = [].
Proof.
  refine (torn_frame_hides_appends [] (withSeq (writeOp "/a/much/longer/path") 1) 20
            [withSeq (writeOp "/b") 1] _ _ _ _); [constructor|writable_now|lia|vm_compute; reflexivity].
Defined.

End Wal.
