(* ===== verification/PendingIndex.v ===== *)
(** * The pending index

    Model of [src/pkg/fuse/pending_index.go] over the metadata of
    [src/pkg/fuse/writeback.go]: the in-memory index of files that still have to be
    uploaded, mirrored in one [.meta] file per path for crash recovery.  The
    directory is a finite map from file name to content; [atomicWrite] replaces a file
    or fails and leaves it.  [encoding/json] is used through the class [MetaCodec], and
    the hash that names the files is the parameter [hashPath]: the theorems assume that
    the paths in use do not collide. *)

From S2P Require Import Prelude GoStrings.

Import GoStr.

Module Pending.

Inductive PendingKind := PendingNew | PendingOverwrite | PendingConflict.

#[global] Instance PendingKind_eq_dec : EqDecision PendingKind.
Proof. solve_decision. Defined.

Record WriteBackMeta := {
  Path : string;
  Size : Z;
  Mtime : Z;
  CreatedAt : Z;
  Generation : Z;
  Kind : PendingKind;
  BaseRev : Z;
  ShadowSpill : bool
}.

(** What the index uses of [encoding/json]. *)
Class MetaCodec := {
  Marshal : WriteBackMeta -> bytes;
  Unmarshal : bytes -> option WriteBackMeta;
  encodable : WriteBackMeta -> bool;
  unmarshal_marshal : forall m, encodable m = true -> Unmarshal (Marshal m) = Some m
}.

(** The index with the content of its directory. *)
Record PendingIndex := {
  items : gmap string WriteBackMeta;
  dir : gmap string bytes;
  nextGen : Z
}.

Section index.
Context {codec : MetaCodec} (hashPath : string -> string).

Definition metaFile (p : string) : string := hashPath p +:+ ".meta".

(** [NewPendingIndex] over an existing directory. *)
Definition NewPendingIndex (content : gmap string bytes) : PendingIndex :=
  {| items := ∅; dir := content; nextGen := 0 |}.

(** One directory entry of [RecoverFromDisk], with the highest generation so far;
    [unreadable] are the files whose read fails. *)
Definition recoverFile (unreadable : gset string) (st : PendingIndex * Z) (f : string * bytes)
    : PendingIndex * Z :=
  let '(idx, maxGen) := st in
  let '(name, raw) := f in
  if negb (HasSuffix name ".meta") then st
  else if bool_decide (name ∈ unreadable) then st
  else
    match Unmarshal raw with
    | None => ({| items := items idx; dir := delete name (dir idx); nextGen := nextGen idx |}, maxGen)
    | Some meta =>
        ({| items := <[Path meta := meta]> (items idx); dir := dir idx; nextGen := nextGen idx |},
         if maxGen <? Generation meta then Generation meta else maxGen)
    end.

(** [RecoverFromDisk]; [order] is the order of [os.ReadDir]. *)
Definition RecoverFromDisk (order : gmap string bytes -> list (string * bytes))
    (unreadable : gset string) (idx : PendingIndex) : PendingIndex :=
  let '(idx', maxGen) := foldl (recoverFile unreadable) (idx, 0) (order (dir idx)) in
  {| items := items idx'; dir := dir idx'; nextGen := maxGen |}.

(** [atomicWrite] of a [.meta] file. *)
Definition writeMeta (idx : PendingIndex) (p : string) (m : WriteBackMeta) : PendingIndex :=
  {| items := items idx; dir := <[metaFile p := Marshal m]> (dir idx); nextGen := nextGen idx |}.
Definition removeMeta (idx : PendingIndex) (p : string) : PendingIndex :=
  {| items := items idx; dir := delete (metaFile p) (dir idx); nextGen := nextGen idx |}.
Definition setItem (idx : PendingIndex) (p : string) (m : WriteBackMeta) : PendingIndex :=
  {| items := <[p := m]> (items idx); dir := dir idx; nextGen := nextGen idx |}.
Definition delItem (idx : PendingIndex) (p : string) : PendingIndex :=
  {| items := delete p (items idx); dir := dir idx; nextGen := nextGen idx |}.
(** [nextGen.Add(1)] *)
Definition bumpGen (idx : PendingIndex) : PendingIndex :=
  {| items := items idx; dir := dir idx; nextGen := wrapu64 (nextGen idx + 1) |}.

(** [putInternal]; [ok] is the outcome of [atomicWrite], [t1] and [t2] the two
    readings of the clock. *)
Definition putInternal (idx : PendingIndex) (remotePath : string) (size : Z) (kind : PendingKind)
    (baseRev : Z) (shadowSpill : bool) (t1 t2 : Z) (ok : bool) : PendingIndex * option Z :=
  let idx := bumpGen idx in
  let gen := nextGen idx in
  let meta := {| Path := remotePath; Size := size; Mtime := t1; CreatedAt := t2; Generation := gen;
                 Kind := kind; BaseRev := baseRev; ShadowSpill := shadowSpill |} in
  if ok then (setItem (writeMeta idx remotePath meta) remotePath meta, Some gen)
  else (idx, None).

Definition PutWithBaseRev (idx : PendingIndex) (p : string) (size : Z) (kind : PendingKind)
    (baseRev t1 t2 : Z) (ok : bool) : PendingIndex * option Z :=
  putInternal idx p size kind baseRev false t1 t2 ok.
Definition Put (idx : PendingIndex) (p : string) (size : Z) (kind : PendingKind) (t1 t2 : Z)
    (ok : bool) : PendingIndex * option Z :=
  PutWithBaseRev idx p size kind 0 t1 t2 ok.
Definition PutShadowSpill (idx : PendingIndex) (p : string) (size : Z) (kind : PendingKind)
    (baseRev t1 t2 : Z) (ok : bool) : PendingIndex * option Z :=
  putInternal idx p size kind baseRev true t1 t2 ok.

Definition GetMeta (idx : PendingIndex) (p : string) : option WriteBackMeta := items idx !! p.
Definition HasPending (idx : PendingIndex) (p : string) : bool :=
  bool_decide (is_Some (items idx !! p)).
Definition GenerationOf (idx : PendingIndex) (p : string) : Z :=
  match items idx !! p with Some meta => Generation meta | None => 0 end.
Definition ListPendingPaths (idx : PendingIndex) : gset string := dom (items idx).
Definition ListByPrefix (order : gmap string WriteBackMeta -> list (string * WriteBackMeta))
    (idx : PendingIndex) (prefix : string) : list WriteBackMeta :=
  snd <$> filter (fun kv => HasPrefix (fst kv) prefix = true) (order (items idx)).
Definition Count (idx : PendingIndex) : Z := Z.of_nat (size (items idx)).

(** [Remove]; [ok] is the outcome of [os.Remove]. *)
Definition Remove (idx : PendingIndex) (p : string) (ok : bool) : PendingIndex :=
  let idx := delItem idx p in
  if ok then removeMeta idx p else idx.

(** The metadata [RenamePending] writes under the new path. *)
Definition renamedMeta (meta : WriteBackMeta) (newPath : string) (gen : Z) : WriteBackMeta :=
  {| Path := newPath; Size := Size meta; Mtime := Mtime meta; CreatedAt := CreatedAt meta;
     Generation := gen; Kind := Kind meta; BaseRev := BaseRev meta;
     ShadowSpill := ShadowSpill meta |}.

(** [RenamePending] in its stages: the new file is written, the memory is switched,
    the old file is removed.  [stage] is the number of stages that ran, 3 for a call
    that returns. *)
Definition renameStages (stage : nat) (idx : PendingIndex) (oldPath newPath : string)
    (okWrite okRemove : bool) : PendingIndex * bool :=
  match items idx !! oldPath with
  | None => (idx, false)
  | Some meta =>
      let idx0 := bumpGen idx in
      let newMeta := renamedMeta meta newPath (nextGen idx0) in
      if negb okWrite then (idx0, false)
      else
        let idx1 := writeMeta idx0 newPath newMeta in
        let idx2 := setItem (delItem idx1 oldPath) newPath newMeta in
        let idx3 := if okRemove then removeMeta idx2 oldPath else idx2 in
        (match stage with O => idx0 | S O => idx1 | S (S O) => idx2 | _ => idx3 end, true)
  end.
Definition RenamePending (idx : PendingIndex) (oldPath newPath : string) (okWrite okRemove : bool)
    : PendingIndex * bool := renameStages 3 idx oldPath newPath okWrite okRemove.

Definition withSize (m : WriteBackMeta) (size mtime : Z) : WriteBackMeta :=
  {| Path := Path m; Size := size; Mtime := mtime; CreatedAt := CreatedAt m;
     Generation := Generation m; Kind := Kind m; BaseRev := BaseRev m;
     ShadowSpill := ShadowSpill m |}.
Definition withKind (m : WriteBackMeta) (k : PendingKind) : WriteBackMeta :=
  {| Path := Path m; Size := Size m; Mtime := Mtime m; CreatedAt := CreatedAt m;
     Generation := Generation m; Kind := k; BaseRev := BaseRev m; ShadowSpill := ShadowSpill m |}.

Definition UpdateSize (idx : PendingIndex) (p : string) (size now : Z) : PendingIndex :=
  match items idx !! p with
  | Some meta => setItem idx p (withSize meta size now)
  | None => idx
  end.

(** [MarkConflict]; the Boolean is [err == nil]. *)
Definition MarkConflict (idx : PendingIndex) (p : string) (ok : bool) : PendingIndex * bool :=
  match items idx !! p with
  | None => (idx, true)
  | Some meta =>
      let conflicted := withKind meta PendingConflict in
      if ok then (setItem (writeMeta idx p conflicted) p conflicted, true) else (idx, false)
  end.

(** ** The directory mirrors the memory *)

(** Metadata up to the fields that [UpdateSize] changes in memory only. *)
Definition sameButSize (m m' : WriteBackMeta) : Prop := withSize m 0 0 = withSize m' 0 0.

(** The paths in use: their names do not collide and JSON represents them. *)
Context (used : gset string).
Hypothesis hash_inj : forall p q, p ∈ used -> q ∈ used -> hashPath p = hashPath q -> p = q.
Hypothesis used_encodable : forall m, Path m ∈ used -> encodable m = true.

#[local] Set Default Proof Using "Type*".

(** [D] is the metadata in the [.meta] files of a directory. *)
Record stored (d : gmap string bytes) (D : gmap string WriteBackMeta) : Prop := {
  st_path : forall p m, D !! p = Some m -> Path m = p /\ p ∈ used;
  st_file : forall p m, D !! p = Some m -> d !! metaFile p = Some (Marshal m);
  st_only : forall name raw, HasSuffix name ".meta" = true -> d !! name = Some raw ->
    exists p, name = metaFile p /\ is_Some (D !! p)
}.

(** What memory and directory say of a path. *)
Definition agree (m0 m : option WriteBackMeta) : Prop :=
  match m0, m with
  | Some m0, Some m => sameButSize m0 m
  | None, None => True
  | _, _ => False
  end.

(** Memory and directory hold the same entries, except for the paths of [odd]. *)
Record mirrored (idx : PendingIndex) (odd : gset string) (D : gmap string WriteBackMeta) : Prop := {
  mi_stored : stored (dir idx) D;
  mi_agree : forall p, p ∉ odd -> agree (D !! p) (items idx !! p);
  mi_items : forall p m, items idx !! p = Some m -> Path m = p /\ p ∈ used;
  mi_gen : forall p m, items idx !! p = Some m -> 0 <= Generation m <= nextGen idx;
  mi_range : 0 <= nextGen idx < 2 ^ 64
}.

Lemma metaFile_inj p q : p ∈ used -> q ∈ used -> metaFile p = metaFile q -> p = q.
Proof. intros Hp Hq E. apply hash_inj; [done..|]. by apply string_app_inj_r in E. Qed.

Lemma metaFile_suffix p : HasSuffix (metaFile p) ".meta" = true.
Proof. apply HasSuffix_app. Qed.

Lemma stored_write d D p m :
  p ∈ used -> Path m = p -> stored d D -> stored (<[metaFile p := Marshal m]> d) (<[p := m]> D).
Proof.
  intros Hp Hm [H1 H2 H3]. split.
  - intros q m' [[<- <-]|[Hne Hq]]%lookup_insert_Some; [done|by apply H1].
  - intros q m' [[<- <-]|[Hne Hq]]%lookup_insert_Some; [by rewrite lookup_insert_eq|].
    rewrite lookup_insert_ne; [by apply H2|]. intros E. apply Hne.
    apply metaFile_inj; [done|by apply (H1 q m')|done].
  - intros name raw Hs [[<- _]|[Hne Hn]]%lookup_insert_Some.
    + exists p. by rewrite lookup_insert_eq.
    + destruct (H3 name raw Hs Hn) as (q & -> & Hq). exists q. split; [done|].
      destruct (decide (p = q)) as [->|]; [by rewrite lookup_insert_eq|by rewrite lookup_insert_ne].
Qed.

Lemma stored_remove d D p :
  p ∈ used -> stored d D -> stored (delete (metaFile p) d) (delete p D).
Proof.
  intros Hp [H1 H2 H3]. split.
  - intros q m [Hne Hq]%lookup_delete_Some. by apply H1.
  - intros q m [Hne Hq]%lookup_delete_Some. rewrite lookup_delete_ne; [by apply H2|].
    intros E. apply Hne. apply metaFile_inj; [done|by apply (H1 q m)|done].
  - intros name raw Hs [Hne Hn]%lookup_delete_Some.
    destruct (H3 name raw Hs Hn) as (q & -> & Hq). exists q. split; [done|].
    rewrite lookup_delete_ne; [done|]. by intros ->.
Qed.

(** ** Recovery *)

(** The state of the recovery loop after the files [l]. *)
Record recoveredUpTo (idx : PendingIndex) (D : gmap string WriteBackMeta)
    (l : list (string * bytes)) (st : PendingIndex * Z) : Prop := {
  ru_items : forall p, items (fst st) !! p = if decide (metaFile p ∈ l.*1) then D !! p else None;
  ru_dir : dir (fst st) = dir idx;
  ru_gen : forall p m, items (fst st) !! p = Some m -> Generation m <= snd st
}.

Lemma recover_files_loop idx D l :
  stored (dir idx) D -> items idx = ∅ -> (forall f, f ∈ l -> dir idx !! f.1 = Some f.2) ->
  recoveredUpTo idx D l (foldl (recoverFile ∅) (idx, 0) l).
Proof.
  intros HD He. induction l as [|[name raw] l IH] using rev_ind; intros Hl.
  { split; cbn [foldl fst snd]; rewrite ?He; [|done|intros ??; by rewrite lookup_empty].
    intros p. by rewrite lookup_empty. }
  rewrite foldl_app. cbn [foldl].
  destruct IH as [H1 H2 H3]; [intros; apply Hl; set_solver|].
  destruct (foldl _ _ l) as [idx' g]. cbn [fst snd] in *.
  pose proof (Hl (name, raw) ltac:(set_solver)) as Hraw. cbn [fst snd] in Hraw.
  assert (forall p, metaFile p ∈ (l ++ [(name, raw)]).*1 <-> metaFile p ∈ l.*1 \/ metaFile p = name)
    as Hin by (intros p; rewrite fmap_app; set_solver).
  unfold recoverFile. destruct (HasSuffix name ".meta") eqn:Hsuf; cbn [negb].
  2:{ split; cbn [fst snd]; [|done..]. intros p. rewrite H1.
      apply decide_ext. rewrite Hin. split; [auto|]. intros [?|<-]; [done|].
      by rewrite metaFile_suffix in Hsuf. }
  rewrite bool_decide_false by set_solver.
  destruct (st_only _ _ HD name raw Hsuf Hraw) as (p & -> & [m Hm]).
  rewrite (st_file _ _ HD p m Hm) in Hraw. injection Hraw as <-.
  destruct (st_path _ _ HD p m Hm) as [Hpm Hpu].
  rewrite unmarshal_marshal by (apply used_encodable; by rewrite Hpm). rewrite Hpm.
  split; cbn [fst snd items dir].
  - intros q. destruct (decide (p = q)) as [<-|Hne].
    + rewrite lookup_insert_eq, decide_True by (apply Hin; by right). done.
    + rewrite lookup_insert_ne, H1 by done. destruct (D !! q) as [mq|] eqn:Eq; [|by do 2 case_decide].
      apply decide_ext. rewrite Hin. split; [auto|]. intros [?|E]; [done|]. destruct Hne.
      symmetry. apply metaFile_inj; [by apply (st_path _ _ HD q mq)|done..].
  - done.
  - intros q mq [[<- <-]|[Hne Hq]]%lookup_insert_Some; [case_if; bool_prop; lia|].
    specialize (H3 q mq Hq). case_if; bool_prop; lia.
Qed.

(** Recovery from a stored directory rebuilds its metadata. *)
Lemma recover_stored order d D :
  iterates order -> stored d D ->
  let idx := RecoverFromDisk order ∅ (NewPendingIndex d) in
  items idx = D /\ dir idx = d /\ forall p m, D !! p = Some m -> Generation m <= nextGen idx.
Proof.
  intros Ho HD. unfold RecoverFromDisk.
  pose proof (recover_files_loop (NewPendingIndex d) D (order d) HD eq_refl) as H.
  cbn [dir NewPendingIndex] in *.
  destruct H as [H1 H2 H3]. { intros [k v] Hf. by apply (iterates_elem order). }
  destruct (foldl _ _ _) as [idx' g]. cbn [fst snd items dir nextGen] in *.
  assert (items idx' = D) as E.
  { apply map_eq. intros p. rewrite H1. destruct (D !! p) as [m|] eqn:Em; [|by case_decide].
    rewrite decide_True; [done|]. apply list_elem_of_fmap. exists (metaFile p, Marshal m).
    split; [done|]. apply (iterates_elem order); [done|]. by apply (st_file _ _ HD). }
  split_and!; [done|done|]. intros p m Hm. apply (H3 p). by rewrite E.
Qed.

(** ** Histories *)

(** The paths on which memory and directory differ after a rename that returned true:
    renaming a path onto itself removes the file that was just written, and a file whose
    removal fails stays. *)
Definition oddRename (odd : gset string) (old new : string) (okRemove : bool) : gset string :=
  if bool_decide (old = new) then if okRemove then {[old]} ∪ odd else odd ∖ {[new]}
  else if okRemove then odd ∖ {[old; new]} else {[old]} ∪ odd ∖ {[new]}.

(** The calls, on paths in use, with the paths on which memory and directory differ.  A
    failed [atomicWrite] changes nothing on disk; [os.Remove] may fail. *)
Inductive pstep : PendingIndex * gset string -> PendingIndex * gset string -> Prop :=
  | ps_put idx odd p size kind rev spill t1 t2 ok : p ∈ used -> nextGen idx + 1 < 2 ^ 64 ->
      pstep (idx, odd) (fst (putInternal idx p size kind rev spill t1 t2 ok), if ok : bool then odd ∖ {[p]} else odd)
  | ps_remove idx odd p ok : p ∈ used ->
      pstep (idx, odd) (Remove idx p ok, if ok : bool then odd ∖ {[p]} else {[p]} ∪ odd)
  | ps_rename idx odd old new okWrite okRemove : new ∈ used -> nextGen idx + 1 < 2 ^ 64 ->
      pstep (idx, odd) (fst (RenamePending idx old new okWrite okRemove),
                        if snd (RenamePending idx old new okWrite okRemove) then oddRename odd old new okRemove else odd)
  | ps_size idx odd p size now : pstep (idx, odd) (UpdateSize idx p size now, odd)
  | ps_conflict idx odd p ok : pstep (idx, odd) (fst (MarkConflict idx p ok), odd).

Lemma mirrored_bump idx odd D :
  nextGen idx + 1 < 2 ^ 64 -> mirrored idx odd D ->
  mirrored (bumpGen idx) odd D /\ nextGen (bumpGen idx) = nextGen idx + 1.
Proof.
  intros Hb [H1 H2 H3 H4 H5].
  assert (nextGen (bumpGen idx) = nextGen idx + 1) as E by (simpl; rewrite wrapu64_small; lia).
  split; [|done]. split; rewrite ?E; [done..| |lia]. intros p m Hm. specialize (H4 p m Hm). lia.
Qed.

(** Fewer paths need to agree. *)
Lemma mirrored_more idx odd odd' D : odd ⊆ odd' -> mirrored idx odd D -> mirrored idx odd' D.
Proof. intros Hs [H1 H2 H3 H4 H5]. split; try done. intros p Hp. apply H2. set_solver. Qed.

(** An entry is written to its file and to memory. *)
Lemma mirrored_set idx odd D p m m0 :
  p ∈ used -> Path m0 = p -> sameButSize m0 m -> 0 <= Generation m <= nextGen idx ->
  mirrored idx odd D -> mirrored (setItem (writeMeta idx p m0) p m) (odd ∖ {[p]}) (<[p := m0]> D).
Proof.
  intros Hp Hm Hs Hg [H1 H2 H3 H4 H5]. split; cbn [setItem writeMeta items dir nextGen].
  - by apply stored_write.
  - intros q Hq. destruct (decide (p = q)) as [<-|]; [by rewrite !lookup_insert_eq|].
    rewrite !lookup_insert_ne by done. apply H2. set_solver.
  - intros q x [[<- <-]|[Hne Hx]]%lookup_insert_Some; [|by apply (H3 q)]. split; [|done].
    unfold sameButSize, withSize in Hs. congruence.
  - intros q x [[<- <-]|[Hne Hx]]%lookup_insert_Some; [done|by apply (H4 q)].
  - done.
Qed.

Lemma mirrored_del idx odd D p :
  mirrored idx odd D -> mirrored (delItem idx p) ({[p]} ∪ odd) D.
Proof.
  intros [H1 H2 H3 H4 H5]. split; cbn [delItem items dir nextGen]; try done.
  - intros q Hq. rewrite lookup_delete_ne by set_solver. apply H2. set_solver.
  - intros q x [_ Hx]%lookup_delete_Some. by apply (H3 q).
  - intros q x [_ Hx]%lookup_delete_Some. by apply (H4 q).
Qed.

(** A file is removed: the path is odd from then on unless it is not in memory. *)
Lemma mirrored_unlink idx odd D p :
  p ∈ used -> mirrored idx odd D ->
  mirrored (removeMeta idx p) (if items idx !! p then {[p]} ∪ odd else odd ∖ {[p]}) (delete p D).
Proof.
  intros Hp [H1 H2 H3 H4 H5]. split; cbn [removeMeta items dir nextGen]; try done; [by apply stored_remove|].
  intros q Hq. destruct (decide (p = q)) as [<-|Hne].
  - rewrite lookup_delete_eq. destruct (items idx !! p); [set_solver|done].
  - rewrite lookup_delete_ne by done. apply H2. destruct (items idx !! p); set_solver.
Qed.

Lemma mirrored_remove idx odd D p :
  p ∈ used -> mirrored idx odd D -> mirrored (removeMeta (delItem idx p) p) (odd ∖ {[p]}) (delete p D).
Proof.
  intros Hp HD. pose proof (mirrored_unlink _ _ _ _ Hp (mirrored_del _ _ _ p HD)) as H.
  cbn [delItem items] in H. rewrite lookup_delete_eq in H. eapply mirrored_more; [|exact H]. set_solver.
Qed.

(** A rename that returns true. *)
Lemma mirrored_rename idx odd D old new m okRemove :
  items idx !! old = Some m -> new ∈ used -> nextGen idx + 1 < 2 ^ 64 -> mirrored idx odd D ->
  exists D', mirrored (fst (RenamePending idx old new true okRemove)) (oddRename odd old new okRemove) D'.
Proof.
  intros Hm Hnew Hb HD. destruct (mirrored_bump idx odd D Hb HD) as [HB E]. destruct (mi_items _ _ _ HD _ _ Hm) as [_ Hold].
  unfold RenamePending, renameStages. rewrite Hm. cbn [negb fst]. set (m' := renamedMeta m new (nextGen (bumpGen idx))).
  assert (mirrored (setItem (delItem (writeMeta (bumpGen idx) new m') old) new m') (({[old]} ∪ odd) ∖ {[new]}) (<[new := m']> D)) as H2.
  { apply (mirrored_set (delItem (bumpGen idx) old)); [done..| |by apply mirrored_del].
    pose proof (mi_range _ _ _ HB). cbn [m' renamedMeta Generation delItem nextGen]. lia. }
  unfold oddRename. destruct okRemove.
  - exists (delete old (<[new := m']> D)). pose proof (mirrored_unlink _ _ _ old Hold H2) as H3. cbn [setItem delItem items] in H3.
    case_bool_decide as Heq; [subst new|]; (eapply mirrored_more; [|exact H3]).
    + rewrite lookup_insert_eq. set_solver.
    + rewrite lookup_insert_ne, lookup_delete_eq by done. set_solver.
  - eexists. eapply mirrored_more; [|exact H2]. case_bool_decide; set_solver.
Qed.

Lemma pstep_mirrored st st' D :
  pstep st st' -> mirrored (fst st) (snd st) D -> exists D', mirrored (fst st') (snd st') D'.
Proof.
  intros [idx odd p size kind rev spill t1 t2 ok Hp Hb|idx odd p ok Hp|idx odd old new okW okR Hnew Hb|idx odd p size now
    |idx odd p ok] HD; cbn [fst snd] in *.
  - destruct (mirrored_bump idx odd D Hb HD) as [HD' E]. unfold putInternal.
    destruct ok; [|by exists D]. eexists. apply mirrored_set; try done.
    pose proof (mi_range _ _ _ HD'). simpl in *. lia.
  - unfold Remove. destruct ok; [eexists; by apply mirrored_remove|eexists; by apply mirrored_del].
  - destruct (items idx !! old) as [m|] eqn:Hm.
    2: { unfold RenamePending, renameStages. rewrite Hm. by exists D. }
    destruct okW.
    + assert (snd (RenamePending idx old new true okR) = true) as ->
        by (unfold RenamePending, renameStages; by rewrite Hm). by eapply mirrored_rename.
    + unfold RenamePending, renameStages. rewrite Hm. exists D. by apply mirrored_bump.
  - unfold UpdateSize. destruct (items idx !! p) as [m|] eqn:Hm; [|by exists D].
    exists D. destruct HD as [H1 H2 H3 H4 H5]. split; cbn [setItem items dir nextGen]; [done| | | |done].
    + intros q Hq. specialize (H2 q Hq). destruct (decide (p = q)) as [<-|]; [|by rewrite lookup_insert_ne].
      rewrite lookup_insert_eq. rewrite Hm in H2. by destruct (D !! p).
    + intros q x [[<- <-]|[Hq Hx]]%lookup_insert_Some; [|by apply (H3 q)]. by apply (H3 p m).
    + intros q x [[<- <-]|[Hq Hx]]%lookup_insert_Some; [|by apply (H4 q)]. by apply (H4 p m).
  - unfold MarkConflict. destruct (items idx !! p) as [m|] eqn:Hm; [|by exists D].
    destruct ok; [|by exists D]. destruct (mi_items _ _ _ HD _ _ Hm) as [Hpm Hp].
    eexists. eapply mirrored_more; [|apply mirrored_set; [done|done|done| |exact HD]]; [set_solver|].
    by apply (mi_gen _ _ _ HD p m).
Qed.

(** The states of an index that started on an empty directory, with the paths on which it
    and its directory may differ. *)
Definition indexReachable (idx : PendingIndex) (odd : gset string) : Prop := rtc pstep (NewPendingIndex ∅, ∅) (idx, odd).

Lemma indexReachable_mirrored idx odd : indexReachable idx odd -> exists D, mirrored idx odd D.
Proof.
  assert (forall st st', rtc pstep st st' -> (exists D, mirrored (fst st) (snd st) D) ->
    exists D, mirrored (fst st') (snd st') D) as Hall.
  { intros st st' H. induction H as [|st1 st2 st3 Hs _ IH]; [done|]. intros [D HD]. apply IH. by eapply pstep_mirrored. }
  intros H. apply (Hall _ _ H). exists ∅. by split; cbn.
Qed.

(** ** Properties *)

(** C36: crash recovery of the pending index.  After any sequence of calls on paths whose
    hashes do not collide, an index that is rebuilt from the directory, whatever the order
    of its files, has every path that the one that was lost had pending and no other, with
    the same metadata except for the size and time that [UpdateSize] keeps in memory only -
    except for the paths of [odd]: those renamed onto themselves, whose file is gone, and
    those whose file could not be removed, until the path is written again.  The
    generation counter it starts with is not below any generation in it, so that a later
    write is never taken for an older one. *)
Theorem recover_rebuilds_index order idx odd :
  iterates order -> indexReachable idx odd ->
  let idx' := RecoverFromDisk order ∅ (NewPendingIndex (dir idx)) in
  dir idx' = dir idx
  /\ (forall p, p ∉ odd -> agree (GetMeta idx' p) (GetMeta idx p))
  /\ (forall p m', GetMeta idx' p = Some m' -> Path m' = p /\ Generation m' <= nextGen idx')
  /\ (odd = ∅ -> ListPendingPaths idx' = ListPendingPaths idx).
Proof.
  intros Ho Hr idx'. destruct (indexReachable_mirrored idx odd Hr) as [D HD].
  destruct (recover_stored order (dir idx) D Ho (mi_stored _ _ _ HD)) as (Hi & Hd & Hg).
  fold idx' in Hi, Hd, Hg. unfold ListPendingPaths, GetMeta. rewrite Hi. split_and!.
  - done.
  - apply (mi_agree _ _ _ HD).
  - intros p m' Hm'. split; [by apply (st_path _ _ (mi_stored _ _ _ HD))|by apply (Hg p)].
  - intros ->. apply set_eq. intros p. rewrite !elem_of_dom. pose proof (mi_agree _ _ _ HD p ltac:(set_solver)) as Ha.
    unfold agree in Ha. destruct (D !! p), (items idx !! p); try done; split; by intros [? ?].
Qed.

(** The directory of a rename that stopped after a stage. *)
Lemma rename_stage_dir stage idx old new m :
  items idx !! old = Some m ->
  let m' := renamedMeta m new (nextGen (bumpGen idx)) in
  dir (fst (renameStages stage idx old new true true))
  = match stage with
    | O => dir idx
    | S O | S (S O) => <[metaFile new := Marshal m']> (dir idx)
    | _ => delete (metaFile old) (<[metaFile new := Marshal m']> (dir idx))
    end.
Proof. intros Hm m'. unfold renameStages. rewrite Hm. by destruct stage as [|[|[|]]]. Qed.

(** The metadata on disk when a rename stops after a stage. *)
Definition stageMeta (stage : nat) (D : gmap string WriteBackMeta) (old new : string)
    (m' : WriteBackMeta) : gmap string WriteBackMeta :=
  match stage with
  | O => D
  | S O | S (S O) => <[new := m']> D
  | _ => delete old (<[new := m']> D)
  end.

Lemma rename_stage_stored stage idx odd D old new m :
  mirrored idx odd D -> items idx !! old = Some m -> new ∈ used ->
  stored (dir (fst (renameStages stage idx old new true true)))
    (stageMeta stage D old new (renamedMeta m new (nextGen (bumpGen idx)))).
Proof.
  intros HD Hm Hnew. destruct (mi_items _ _ _ HD _ _ Hm) as [_ Hold].
  rewrite (rename_stage_dir stage idx old new m Hm). pose proof (mi_stored _ _ _ HD).
  destruct stage as [|[|[|]]]; [done|by apply stored_write..|]. by apply stored_remove, stored_write.
Qed.

(** Renaming a pending entry survives a crash at any of its stages.  The index
    that recovery rebuilds has the entry under the old path, under the new path, or
    under both, with the upload kind and base revision it had (only under the old one
    before the first stage, only under the new one after the last), and every other
    pending path as before, if memory and directory agreed on it. *)
Theorem rename_crash_safe order idx odd old new m stage :
  iterates order -> indexReachable idx odd -> old ∉ odd -> old <> new -> new ∈ used ->
  GetMeta idx old = Some m ->
  let crashed := fst (renameStages stage idx old new true true) in
  let idx' := RecoverFromDisk order ∅ (NewPendingIndex (dir crashed)) in
  (exists q m', (q = old /\ (stage < 3)%nat \/ q = new /\ (0 < stage)%nat)
     /\ GetMeta idx' q = Some m' /\ Kind m' = Kind m /\ BaseRev m' = BaseRev m
     /\ ShadowSpill m' = ShadowSpill m)
  /\ ((3 <= stage)%nat -> GetMeta idx' old = None)
  /\ forall q, q ∉ odd -> q <> old -> q <> new -> agree (GetMeta idx' q) (GetMeta idx q).
Proof.
  intros Ho Hr Hodd Hne Hnew Hm crashed idx'. destruct (indexReachable_mirrored idx odd Hr) as [D HD].
  unfold GetMeta in *. pose proof (mi_agree _ _ _ HD old Hodd) as Hs. rewrite Hm in Hs.
  destruct (D !! old) as [m0|] eqn:Hm0; [cbn in Hs|done].
  pose proof (rename_stage_stored stage idx odd D old new m HD Hm Hnew) as HD'. fold crashed in HD'.
  destruct (recover_stored order (dir crashed) _ Ho HD') as (Hi & _ & _).
  fold idx' in Hi. rewrite Hi. unfold stageMeta. split_and!.
  - destruct stage as [|stage].
    + exists old, m0. split; [left; split; [done|lia]|]. split; [done|].
      unfold sameButSize, withSize in Hs. split_and!; congruence.
    + eexists new, _. split; [right; split; [done|lia]|].
      destruct stage as [|[|]]; rewrite ?lookup_delete_ne by done; by rewrite lookup_insert_eq.
  - intros Hst. destruct stage as [|[|[|]]]; try lia. by rewrite lookup_delete_eq.
  - intros q Hq Hq1 Hq2. pose proof (mi_agree _ _ _ HD q Hq).
    destruct stage as [|[|[|]]]; rewrite ?lookup_delete_ne by done; by rewrite ?lookup_insert_ne.
Qed.

End index.

(** ** A codec and witnesses *)

Definition kindZ (k : PendingKind) : Z :=
  match k with PendingNew => 0 | PendingOverwrite => 1 | PendingConflict => 2 end.
Definition zKind (z : Z) : PendingKind :=
  if bool_decide (z = 0) then PendingNew
  else if bool_decide (z = 1) then PendingOverwrite else PendingConflict.

Definition metaFields (m : WriteBackMeta) : string * Z * Z * Z * Z * Z * Z * bool :=
  (Path m, Size m, Mtime m, CreatedAt m, Generation m, kindZ (Kind m), BaseRev m, ShadowSpill m).
Definition ofMetaFields (f : string * Z * Z * Z * Z * Z * Z * bool) : WriteBackMeta :=
  let '(p, s, mt, c, g, k, r, sp) := f in
  {| Path := p; Size := s; Mtime := mt; CreatedAt := c; Generation := g; Kind := zKind k;
     BaseRev := r; ShadowSpill := sp |}.

#[local] Program Instance bitMetaCodec : MetaCodec := {|
  Marshal m := bitBytes (encode (metaFields m));
  Unmarshal b := p ← bytesBits b; ofMetaFields <$> decode p;
  encodable _ := true
|}.
Next Obligation.
  intros m _. simpl. rewrite bytesBits_bitBytes. simpl. rewrite decode_encode. simpl.
  by destruct m as [? ? ? ? ? [] ? ?].
Qed.

(** The identity as the hash: no collisions. *)
Definition plainHash (p : string) : string := p.
Definition demoUsed : gset string := {["/a"; "/b"]}.

Lemma plainHash_inj p q : p ∈ demoUsed -> q ∈ demoUsed -> plainHash p = plainHash q -> p = q.
Proof. done. Qed.

Lemma demo_encodable (m : WriteBackMeta) : Path m ∈ demoUsed -> encodable m = true.
Proof. done. Qed.

Definition demoPut : PendingIndex :=
  fst (putInternal plainHash (NewPendingIndex ∅) "/a" 10 PendingOverwrite 7 false 1 1 true).
Definition demoIndex : PendingIndex := UpdateSize demoPut "/a" 20 2.

Lemma demoIndex_reachable : indexReachable plainHash demoUsed demoIndex ∅.
Proof.
  eapply (rtc_l _ _ (demoPut, ∅)); [|apply rtc_once, ps_size].
  pose proof (ps_put plainHash demoUsed (NewPendingIndex ∅) ∅ "/a" 10 PendingOverwrite 7 false 1 1 true
           ltac:(set_solver) eq_refl) as H. cbv iota in H. by rewrite difference_empty_L in H || exact H.
Qed.

Lemma recover_rebuilds_index_witness :
  let idx' := RecoverFromDisk map_to_list ∅ (NewPendingIndex (dir demoIndex)) in
  ListPendingPaths idx' = ListPendingPaths demoIndex.
Proof.
  exact (proj2 (proj2 (proj2 (recover_rebuilds_index plainHash demoUsed plainHash_inj demo_encodable
    map_to_list demoIndex ∅ iterates_map_to_list demoIndex_reachable))) eq_refl).
Defined.

(** Renaming a pending path onto itself: it is pending, and lost by a crash. *)
Lemma self_rename_lost :
  let idx := fst (RenamePending plainHash demoIndex "/a" "/a" true true) in
  HasPending idx "/a" = true
  /\ HasPending (RecoverFromDisk map_to_list ∅ (NewPendingIndex (dir idx))) "/a" = false.
Proof. vm_compute. split; reflexivity. Qed.

Lemma rename_crash_safe_witness :
  let crashed := fst (renameStages plainHash 2 demoIndex "/a" "/b" true true) in
  let idx' := RecoverFromDisk map_to_list ∅ (NewPendingIndex (dir crashed)) in
  exists q m', GetMeta idx' q = Some m' /\ Kind m' = PendingOverwrite /\ BaseRev m' = 7.
Proof.
  intros crashed idx'. destruct (GetMeta demoIndex "/a") as [m|] eqn:Hm; [|discriminate Hm].
  assert ("/b" ∈ demoUsed) as Hb by set_solver.
  destruct (rename_crash_safe plainHash demoUsed plainHash_inj demo_encodable
    map_to_list demoIndex ∅ "/a" "/b" m 2 iterates_map_to_list demoIndex_reachable
    ltac:(set_solver) ltac:(discriminate) Hb Hm) as [(q & m' & _ & Hq & Hk & Hr & _) _].
  exists q, m'. vm_compute in Hm. injection Hm as <-. split_and!; [exact Hq|exact Hk|exact Hr].
Defined.

End Pending.
