(* ===== verification/VaultScope.v ===== *)
(** * Vault scopes

    Model of [src/pkg/vault/scope.go]: which secrets and fields a vault token may
    read.  A scope is a list of entries, each a secret name or [secret/field]. *)

From Stdlib Require Import Strings.Ascii.
From S2P Require Import Prelude GoStrings.

Import GoStr.

Module Scope.

#[local] Arguments String.append !_ _ / : simpl nomatch.

(** [strings.IndexByte] with the two sides of the first occurrence: the text before
    it and after it. *)
Fixpoint cutByte (c : Ascii.ascii) (s : string) : option (string * string) :=
  match s with
  | EmptyString => None
  | String d s =>
      if Ascii.eqb c d then Some (EmptyString, s)
      else prod_map (String d) id <$> cutByte c s
  end.

Definition slash : Ascii.ascii := "/"%char.
Definition star : Ascii.ascii := "*"%char.

Inductive scopeError :=
  | ErrEmptyEntry
  | ErrWildcard
  | ErrEmptySecret
  | ErrEmptyField.

(** The checks on one entry of [ValidateScope]. *)
Definition validateEntry (entry : string) : option scopeError :=
  if bool_decide (entry = "") then Some ErrEmptyEntry
  else if bool_decide (is_Some (cutByte star entry)) then Some ErrWildcard
  else
    let parts := match cutByte slash entry with
                 | Some (a, b) => (a, Some b)
                 | None => (entry, None)
                 end in
    if bool_decide (fst parts = "") then Some ErrEmptySecret
    else if bool_decide (snd parts = Some "") then Some ErrEmptyField
    else None.

Fixpoint ValidateScope (scope : list string) : option scopeError :=
  match scope with
  | [] => None
  | entry :: scope =>
      match validateEntry entry with
      | Some e => Some e
      | None => ValidateScope scope
      end
  end.

Fixpoint CheckScope (scope : list string) (secretName fieldName : string) : bool :=
  match scope with
  | [] => false
  | entry :: scope =>
      if bool_decide (entry = secretName) then true
      else if negb (bool_decide (fieldName = ""))
              && bool_decide (entry = secretName +:+ "/" +:+ fieldName) then true
      else CheckScope scope secretName fieldName
  end.

(** The secret name of an entry. *)
Definition entrySecret (entry : string) : string :=
  match cutByte slash entry with Some (name, _) => name | None => entry end.

Definition ScopedSecretNames (scope : list string) : list string :=
  foldl (fun names entry =>
           if bool_decide (entrySecret entry ∈ names) then names
           else names ++ [entrySecret entry]) [] scope.

Fixpoint HasFullSecretAccess (scope : list string) (secretName : string) : bool :=
  match scope with
  | [] => false
  | entry :: scope =>
      if bool_decide (entry = secretName) then true else HasFullSecretAccess scope secretName
  end.

(** [AllowedFields] with the fields collected so far. *)
Fixpoint allowedLoop (scope : list string) (secretName : string) (fields : list string)
    : bool * list string :=
  match scope with
  | [] => (false, fields)
  | entry :: scope =>
      if bool_decide (entry = secretName) then (true, [])
      else
        match CutPrefix entry (secretName +:+ "/") with
        | Some field => allowedLoop scope secretName (fields ++ [field])
        | None => allowedLoop scope secretName fields
        end
  end.
Definition AllowedFields (scope : list string) (secretName : string) : bool * list string :=
  allowedLoop scope secretName [].

(** ** Entries *)

Lemma cutByte_spec c s a b :
  cutByte c s = Some (a, b) <-> s = a +:+ String c b /\ cutByte c a = None.
Proof.
  revert a. induction s as [|d s IH]; intros a; cbn [cutByte].
  - split; [done|]. intros [H _]. by destruct a.
  - destruct (Ascii.eqb_spec c d) as [<-|Hne].
    + split; [by intros [= <- <-]|]. intros [H Ha]. destruct a as [|x a]; simpl in H; simplify_eq; [done|].
      simpl in Ha. by rewrite Ascii.eqb_refl in Ha.
    + split.
      * destruct (cutByte c s) as [[x y]|]; [|done]. intros [= <- <-].
        destruct (proj1 (IH x) eq_refl) as [-> Hx]. split; [done|]. simpl.
        destruct (Ascii.eqb_spec c d); [done|]. by rewrite Hx.
      * intros [H Ha]. destruct a as [|x a]; simpl in H; simplify_eq. simpl in Ha.
        destruct (Ascii.eqb_spec c x); [done|]. destruct (cutByte c a) eqn:Ea; [done|].
        by rewrite (proj2 (IH a)).
Qed.

Lemma cutByte_append c a b : cutByte c a = None -> cutByte c (a +:+ String c b) = Some (a, b).
Proof. intros H. by apply cutByte_spec. Qed.

Lemma validateEntry_None entry :
  validateEntry entry = None <->
  cutByte star entry = None /\ entrySecret entry <> "" /\ forall a, cutByte slash entry <> Some (a, "").
Proof.
  unfold validateEntry, entrySecret. case_bool_decide as He.
  { subst. split; [done|]. by intros (_ & H & _). }
  case_bool_decide as Hw.
  { split; [done|]. intros (H & _). rewrite H in Hw. by destruct Hw. }
  assert (cutByte star entry = None) as Hs by (by apply eq_None_not_Some).
  destruct (cutByte slash entry) as [[a b]|] eqn:E; simpl; repeat case_bool_decide; naive_solver.
Qed.

Lemma ValidateScope_None scope :
  ValidateScope scope = None <-> Forall (fun e => validateEntry e = None) scope.
Proof.
  induction scope as [|e scope IH]; simpl; [done|]. rewrite Forall_cons.
  destruct (validateEntry e); naive_solver.
Qed.

(** ** What a scope grants *)

(** The specification: an entry grants a field when it names the secret or the
    field itself. *)
Definition grants (entry secretName fieldName : string) : Prop :=
  entry = secretName \/ fieldName <> "" /\ entry = secretName +:+ "/" +:+ fieldName.

Lemma CheckScope_spec scope s f :
  CheckScope scope s f = true <-> exists entry, entry ∈ scope /\ grants entry s f.
Proof.
  unfold grants. induction scope as [|e scope IH]; cbn [CheckScope]; [set_solver|].
  assert (forall x, x ∈ e :: scope <-> x = e \/ x ∈ scope) as Hin by set_solver.
  setoid_rewrite Hin. case_bool_decide; [naive_solver|].
  destruct (_ && _) eqn:E; [bool_prop; naive_solver|].
  rewrite IH. split; [naive_solver|]. intros (x & [->|Hx] & Hg); [|naive_solver].
  destruct Hg as [?|[Hf ->]]; [done|]. rewrite (bool_decide_false (f = "")) in E by done.
  rewrite bool_decide_true in E by done. done.
Qed.

Lemma HasFullSecretAccess_spec scope s : HasFullSecretAccess scope s = true <-> s ∈ scope.
Proof.
  induction scope as [|e scope IH]; cbn [HasFullSecretAccess]; [set_solver|].
  case_bool_decide; set_solver.
Qed.

Lemma allowedLoop_spec scope s fields :
  allowedLoop scope s fields
  = if bool_decide (s ∈ scope) then (true, [])
    else (false, fields ++ omap (fun e => CutPrefix e (s +:+ "/")) scope).
Proof.
  revert fields. induction scope as [|e scope IH]; intros fields; cbn [allowedLoop omap list_omap].
  - by rewrite bool_decide_false, app_nil_r by set_solver.
  - destruct (decide (e = s)) as [->|Hne].
    + rewrite !bool_decide_true by set_solver. done.
    + rewrite (bool_decide_false (e = s)) by done.
      rewrite (bool_decide_ext (s ∈ e :: scope) (s ∈ scope)) by set_solver.
      destruct (CutPrefix e (s +:+ "/")) eqn:E; rewrite IH; [|done].
      case_bool_decide; [done|]. by rewrite <- app_assoc.
Qed.

Lemma AllowedFields_elem (scope : list string) s f :
  f ∈ omap (fun e => CutPrefix e (s +:+ "/")) scope <-> s +:+ "/" +:+ f ∈ scope.
Proof.
  rewrite list_elem_of_omap. split.
  - intros (e & He & E). apply CutPrefix_spec in E as ->. by rewrite string_app_assoc.
  - intros H. exists (s +:+ "/" +:+ f). split; [done|]. apply CutPrefix_spec.
    by rewrite string_app_assoc.
Qed.

Lemma ScopedSecretNames_spec scope :
  NoDup (ScopedSecretNames scope) /\ forall s, s ∈ ScopedSecretNames scope <-> s ∈ entrySecret <$> scope.
Proof.
  unfold ScopedSecretNames. induction scope as [|e scope [IHn IH]] using rev_ind.
  { split; [constructor|done]. }
  rewrite foldl_app, fmap_app. cbn [foldl]. set (names := foldl _ [] scope) in *.
  case_bool_decide; split; [done|set_solver| |set_solver].
  apply NoDup_app. split_and!; [done|set_solver|apply NoDup_singleton].
Qed.

(** The secrets named by the valid entries that grant something on them. *)
Lemma entrySecret_grants entry s :
  validateEntry entry = None -> cutByte slash s = None ->
  entrySecret entry = s <-> exists f, grants entry s f.
Proof.
  intros Hv Hs. apply validateEntry_None in Hv as (_ & Hne & Hf). unfold entrySecret, grants in *. split.
  - intros E. destruct (cutByte slash entry) as [[a b]|] eqn:Ec; [|exists ""; by left]. subst a.
    apply cutByte_spec in Ec as [-> _]. exists b. right. split; [|done]. intros ->. by apply (Hf s).
  - intros (f & [->|[_ ->]]); [by rewrite Hs|]. simpl. by rewrite cutByte_append.
Qed.

(** The views of a scope agree, so no access path is wider than another.  For a
    scope that passes [ValidateScope] and a secret name without a slash: a field may
    be read exactly when the scope allows all fields of the secret or lists that
    field; the whole secret may be read exactly when [HasFullSecretAccess] holds and
    [AllowedFields] allows all fields; and [ScopedSecretNames] lists, once each,
    exactly the secrets of which something may be read. *)
Theorem scope_views_agree scope s f :
  ValidateScope scope = None -> cutByte slash s = None ->
  let '(allFields, fields) := AllowedFields scope s in
  (f <> "" -> CheckScope scope s f = allFields || bool_decide (f ∈ fields))
  /\ CheckScope scope s "" = allFields /\ HasFullSecretAccess scope s = allFields
  /\ NoDup (ScopedSecretNames scope)
  /\ (s ∈ ScopedSecretNames scope <-> exists g, CheckScope scope s g = true).
Proof.
  intros Hv Hs. apply ValidateScope_None in Hv. unfold AllowedFields. rewrite allowedLoop_spec.
  destruct (ScopedSecretNames_spec scope) as [Hnd Hnames].
  assert (CheckScope scope s "" = bool_decide (s ∈ scope)) as Hall.
  { apply eq_true_iff_eq. rewrite bool_decide_eq_true, CheckScope_spec. unfold grants. naive_solver. }
  assert (HasFullSecretAccess scope s = bool_decide (s ∈ scope)) as Hfull.
  { apply eq_true_iff_eq. by rewrite bool_decide_eq_true, HasFullSecretAccess_spec. }
  assert (s ∈ ScopedSecretNames scope <-> exists g, CheckScope scope s g = true) as Hsc.
  { rewrite Hnames, list_elem_of_fmap. rewrite Forall_forall in Hv. split.
    - intros (e & -> & He). destruct (proj1 (entrySecret_grants e _ (Hv e He) Hs) eq_refl) as [g Hg].
      exists g. apply CheckScope_spec. eauto.
    - intros (g & Hg). apply CheckScope_spec in Hg as (e & He & Hg). exists e. split; [|done].
      symmetry. apply entrySecret_grants; eauto. }
  assert (f <> "" -> CheckScope scope s f = bool_decide (s ∈ scope) || bool_decide (s +:+ "/" +:+ f ∈ scope))
    as Hfield.
  { intros Hf. apply eq_true_iff_eq. rewrite orb_true_iff, !bool_decide_eq_true, CheckScope_spec.
    unfold grants. naive_solver. }
  rewrite Hall, Hfull. case_bool_decide as Hin; split_and!; try done.
  intros Hf. rewrite Hfield by done. simpl. apply bool_decide_ext. symmetry. apply AllowedFields_elem.
Qed.

Lemma scope_views_agree_witness :
  CheckScope ["aws-prod"; "db/user"; "db/password"] "db" "password" = true
  /\ CheckScope ["aws-prod"; "db/user"; "db/password"] "db" "" = false.
Proof.
  destruct (scope_views_agree ["aws-prod"; "db/user"; "db/password"] "db" "password" eq_refl eq_refl)
    as (Hf & Ha & _).
  split; [exact (Hf ltac:(discriminate))|exact Ha].
Defined.

End Scope.
