(* ===== verification/PathUtil.v ===== *)
(** * Paths

    Model of [src/pkg/pathutil/pathutil.go] and [src/pkg/mountpath/mountpath.go] over
    the functions of Go's [path], [strings] and [unicode/utf8] packages they call.  A
    path is a byte string; its segments are what lies between slashes.  The Unicode
    normalization of [golang.org/x/text] is the parameter [nfc], of which only that it
    keeps ASCII text is assumed. *)

From Stdlib Require Import Strings.Ascii.
From S2P Require Import Prelude GoStrings.

Import GoStr.

Module Paths.

#[local] Arguments String.append !_ _ / : simpl nomatch.

(** ** Library functions *)

Definition slash : Ascii.ascii := "/"%char.

(** [strings.Split(s, "/")] *)
Fixpoint split (s : string) : list string :=
  match s with
  | EmptyString => [""]
  | String c s =>
      if Ascii.eqb c slash then "" :: split s
      else match split s with
           | h :: t => String c h :: t
           | [] => []
           end
  end.

(** The two halves of [strings.Trim(s, "/")]. *)
Fixpoint trimLeftSlash (s : string) : string :=
  match s with
  | String c s' => if Ascii.eqb c slash then trimLeftSlash s' else s
  | EmptyString => EmptyString
  end.
Fixpoint trimRightSlash (s : string) : string :=
  match s with
  | EmptyString => EmptyString
  | String c s =>
      let r := trimRightSlash s in
      if bool_decide (r = "") && Ascii.eqb c slash then EmptyString else String c r
  end.

(** [strings.TrimSuffix] *)
Definition TrimSuffix (s suffix : string) : string :=
  if HasSuffix s suffix
  then String.substring 0 (String.length s - String.length suffix) s else s.

(** A slash before every segment. *)
Definition absPath (segs : list string) : string :=
  foldr (fun seg acc => "/" +:+ seg +:+ acc) "" segs.

(** One segment of [path.Clean]; the stack has the last segment first. *)
Definition cleanStep (rooted : bool) (stack : list string) (seg : string) : list string :=
  if bool_decide (seg = "") || bool_decide (seg = ".") then stack
  else if bool_decide (seg = "..") then
    match stack with
    | top :: rest => if bool_decide (top = "..") then seg :: stack else rest
    | [] => if rooted then [] else [seg]
    end
  else seg :: stack.

(** [path.Clean] *)
Definition Clean (s : string) : string :=
  if bool_decide (s = "") then "."
  else
    let rooted := HasPrefix s "/" in
    match reverse (foldl (cleanStep rooted) [] (split s)) with
    | [] => if rooted then "/" else "."
    | seg :: segs => if rooted then absPath (seg :: segs) else seg +:+ absPath segs
    end.

(** [path.Split]: up to the last slash, and after it. *)
Fixpoint pathSplit (s : string) : string * string :=
  match s with
  | EmptyString => ("", "")
  | String c s =>
      let '(d, f) := pathSplit s in
      if negb (bool_decide (d = "")) then (String c d, f)
      else if Ascii.eqb c slash then ("/", f) else ("", String c f)
  end.

(** [path.Dir], [path.Base] and [path.Ext] *)
Definition pathDir (p : string) : string := Clean (fst (pathSplit p)).
Definition pathBase (p : string) : string :=
  if bool_decide (p = "") then "."
  else
    let f := snd (pathSplit (trimRightSlash p)) in
    if bool_decide (f = "") then "/" else f.
Fixpoint lastDot (s : string) : option string :=
  match s with
  | EmptyString => None
  | String c s' =>
      match lastDot s' with
      | Some e => Some e
      | None => if Ascii.eqb c "."%char then Some s else None
      end
  end.
Definition pathExt (p : string) : string := default "" (lastDot (snd (pathSplit p))).

(** A continuation byte of UTF-8 in a range. *)
Definition inRange (lo hi : Z) (c : Ascii.ascii) : bool := (lo <=? code c) && (code c <=? hi).
Definition cont : Ascii.ascii -> bool := inRange 0x80 0xBF.

(** [utf8.ValidString] *)
Fixpoint ValidString (s : string) : bool :=
  match s with
  | EmptyString => true
  | String a s1 =>
      if code a <? 0x80 then ValidString s1
      else
        match s1 with
        | EmptyString => false
        | String b s2 =>
            if inRange 0xC2 0xDF a then cont b && ValidString s2
            else
              match s2 with
              | EmptyString => false
              | String c s3 =>
                  if inRange 0xE0 0xEF a then
                    inRange (if code a =? 0xE0 then 0xA0 else 0x80)
                            (if code a =? 0xED then 0x9F else 0xBF) b
                    && cont c && ValidString s3
                  else
                    match s3 with
                    | EmptyString => false
                    | String d s4 =>
                        inRange 0xF0 0xF4 a
                        && inRange (if code a =? 0xF0 then 0x90 else 0x80)
                                   (if code a =? 0xF4 then 0x8F else 0xBF) b
                        && cont c && cont d && ValidString s4
                    end
              end
        end
  end.

(** ** pathutil.go *)

Inductive pathError :=
  | ErrNUL
  | ErrControl (b : Z)
  | ErrBackslash
  | ErrDotSegment (seg : string)
  | ErrInvalidUTF8
  | ErrNotAbsolute.

(** The loop over the bytes of the path. *)
Fixpoint checkBytes (raw : string) : option pathError :=
  match raw with
  | EmptyString => None
  | String b raw =>
      if code b =? 0 then Some ErrNUL
      else if (1 <=? code b) && (code b <=? 0x1f) then Some (ErrControl (code b))
      else checkBytes raw
  end.

(** [strings.ContainsRune(raw, '\\')] *)
Fixpoint hasBackslash (raw : string) : bool :=
  match raw with
  | EmptyString => false
  | String b raw => (code b =? 92) || hasBackslash raw
  end.

(** The first segment that is [.] or [..]. *)
Definition dotSegment (segs : list string) : option string :=
  head (filter (fun seg => seg = "." \/ seg = "..") segs).

Section canonicalize.
Context (nfc : string -> string).

Definition canonicalize (raw : string) (isDir : bool) : string + pathError :=
  if bool_decide (raw = "") || bool_decide (raw = "/") then inl "/"
  else
    match checkBytes raw with
    | Some e => inr e
    | None =>
        if hasBackslash raw then inr ErrBackslash
        else
          let raw := if HasPrefix raw "/" then raw else "/" +:+ raw in
          let segments := split (trimRightSlash (trimLeftSlash raw)) in
          match dotSegment segments with
          | Some seg => inr (ErrDotSegment seg)
          | None =>
              let cleaned := Clean raw in
              if bool_decide (cleaned = ".") then inl "/"
              else
                let cleaned := TrimSuffix cleaned "/" in
                if negb (ValidString cleaned) then inr ErrInvalidUTF8
                else
                  let cleaned := nfc cleaned in
                  inl (if isDir && negb (bool_decide (cleaned = "/"))
                       then cleaned +:+ "/" else cleaned)
          end
    end.

Definition Canonicalize (raw : string) : string + pathError := canonicalize raw false.
Definition CanonicalizeDir (raw : string) : string + pathError := canonicalize raw true.

(** ** mountpath.go *)

Definition NormalizeRoot (root : string) : string + pathError :=
  if bool_decide (root = "") then inl "/"
  else if negb (HasPrefix root "/") then inr ErrNotAbsolute
  else Canonicalize root.

End canonicalize.

Definition ParentPath (p : string) : string :=
  if bool_decide (p = "/") then "/"
  else
    let p := TrimSuffix p "/" in
    let dir := pathDir p in
    if bool_decide (dir = ".") then "/"
    else if negb (HasSuffix dir "/") then dir +:+ "/" else dir.

Definition BaseName (p : string) : string :=
  if bool_decide (p = "/") then "/" else pathBase (TrimSuffix p "/").

Definition IsDir (p : string) : bool := bool_decide (p = "/") || HasSuffix p "/".

Definition Ext (p : string) : string := pathExt (TrimSuffix p "/").

Definition ToRemote (remoteRoot localPath : string) : string :=
  let local := Clean ("/" +:+ localPath) in
  if bool_decide (remoteRoot = "/") then local
  else if bool_decide (local = "/") then remoteRoot
  else remoteRoot +:+ local.

Definition ToLocal (remoteRoot remotePath : string) : option string :=
  let remote := Clean remotePath in
  if bool_decide (remoteRoot = "/") then Some remote
  else if bool_decide (remote = remoteRoot) then Some "/"
  else
    match CutPrefix remote (remoteRoot +:+ "/") with
    | Some rest => Some ("/" +:+ rest)
    | None => None
    end.

(** Behaviour on the inputs of the unit tests. *)
Example Canonicalize_tests :
  Canonicalize id "data/file.txt" = inl "/data/file.txt"
  /\ Canonicalize id "/data//file.txt" = inl "/data/file.txt"
  /\ Canonicalize id "/data/../file.txt" = inr (ErrDotSegment "..")
  /\ CanonicalizeDir id "/data" = inl "/data/"
  /\ ParentPath "/a/b/c/" = "/a/b/" /\ ParentPath "/a" = "/" /\ BaseName "/a/b/" = "b"
  /\ Ext "/a.b/c.txt" = ".txt"
  /\ ToRemote "/srv" "../x" = "/srv/x" /\ ToLocal "/srv" "/srv/x" = Some "/x".
Proof. vm_compute. done. Qed.

(** ** Segments *)

(** A segment has no slash in it. *)
Definition noSlash (s : string) : Prop := split s = [s].

(** A segment of a clean path. *)
Definition goodSeg (s : string) : Prop := noSlash s /\ s <> "" /\ s <> "." /\ s <> "..".

(** The path of a list of good segments. *)
Definition cleanPath (segs : list string) : string :=
  match segs with [] => "/" | _ => absPath segs end.

Lemma split_slash s : split (String slash s) = "" :: split s.
Proof. cbn [split]. by rewrite Ascii.eqb_refl. Qed.

Lemma split_nonempty s : exists h t, split s = h :: t.
Proof.
  induction s as [|c s (h & t & IH)]; cbn [split]; [eauto|].
  rewrite IH. destruct (Ascii.eqb c slash); eauto.
Qed.

Lemma split_noSlash s : Forall noSlash (split s).
Proof.
  induction s as [|c s IH]; cbn [split]; [by repeat constructor|].
  destruct (Ascii.eqb_spec c slash) as [->|Hc]; [by constructor|].
  destruct (split s) as [|h t]; [constructor|]. apply Forall_cons in IH as [Hh Ht].
  constructor; [|done]. unfold noSlash in *. cbn [split].
  destruct (Ascii.eqb_spec c slash); [done|]. by rewrite Hh.
Qed.

Lemma split_app a b : split (a +:+ String slash b) = split a ++ split b.
Proof.
  induction a as [|c a IH]; [apply split_slash|]. simpl String.append. cbn [split].
  destruct (Ascii.eqb c slash); rewrite IH; [done|].
  destruct (split_nonempty a) as (h & t & ->). done.
Qed.

Lemma absPath_app a b : absPath (a ++ b) = absPath a +:+ absPath b.
Proof.
  induction a as [|x a IH]; [done|]. simpl. f_equal. rewrite IH. apply string_app_assoc.
Qed.

Lemma absPath_split s : absPath (split s) = String slash s.
Proof.
  induction s as [|c s IH]; [done|]. cbn [split].
  destruct (Ascii.eqb_spec c slash) as [->|Hc]; [simpl; by rewrite IH|].
  destruct (split s) as [|h t]; [done|]. simpl in *. by injection IH as ->.
Qed.

Lemma split_absPath segs : Forall noSlash segs -> segs <> [] -> split (absPath segs) = "" :: segs.
Proof.
  induction 1 as [|x segs Hx _ IH]; [done|]. intros _.
  change (absPath (x :: segs)) with (String slash (x +:+ absPath segs)).
  rewrite split_slash. f_equal. destruct segs as [|y segs].
  - simpl. by rewrite string_app_nil_r.
  - specialize (IH ltac:(done)). change (absPath (y :: segs)) with (String slash (y +:+ absPath segs)) in *.
    rewrite split_slash in IH. injection IH as IH. rewrite split_app, IH. by rewrite Hx.
Qed.

Lemma goodSegs_noSlash segs : Forall goodSeg segs -> Forall noSlash segs.
Proof. intros H. eapply Forall_impl; [exact H|]. by intros x []. Qed.

Lemma absPath_inj a b :
  Forall noSlash a -> Forall noSlash b -> absPath a = absPath b -> a = b.
Proof.
  intros Ha Hb E. destruct a as [|x a], b as [|y b]; [done|discriminate E..|].
  apply (f_equal split) in E. rewrite !split_absPath in E by done. congruence.
Qed.

Lemma cleanPath_inj a b :
  Forall goodSeg a -> Forall goodSeg b -> cleanPath a = cleanPath b -> a = b.
Proof.
  intros Ha Hb E. apply goodSegs_noSlash in Ha as Ha', Hb as Hb'.
  assert (forall x l, Forall goodSeg (x :: l) -> absPath (x :: l) <> "/") as H.
  { intros x l Hg E'. apply goodSegs_noSlash in Hg as Hn. apply (f_equal split) in E'.
    rewrite split_absPath in E' by done. injection E' as -> ->.
    by apply Forall_cons in Hg as [(_ & ? & _) _]. }
  destruct a as [|x a], b as [|y b]; simpl in E; [done| | |].
  - by destruct (H y b).
  - by destruct (H x a).
  - by apply absPath_inj.
Qed.

(** ** [path.Clean] *)

Lemma cleanStep_good seg stack rooted :
  goodSeg seg -> cleanStep rooted stack seg = seg :: stack.
Proof.
  intros (_ & H1 & H2 & H3). unfold cleanStep. by rewrite !bool_decide_false.
Qed.

Lemma clean_rooted_good segs stack :
  Forall noSlash segs -> Forall goodSeg stack -> Forall goodSeg (foldl (cleanStep true) stack segs).
Proof.
  intros Hs. revert stack. induction Hs as [|x segs Hx _ IH]; intros stack Hst; [done|].
  cbn [foldl]. apply IH. unfold cleanStep.
  destruct (bool_decide (x = "") || bool_decide (x = ".")) eqn:E; [done|]. bool_prop.
  case_bool_decide; [|by constructor].
  destruct stack as [|top rest]; [done|]. apply Forall_cons in Hst as [(Ht1 & Ht2 & Ht3 & Ht4) Hst].
  by rewrite bool_decide_false.
Qed.

Lemma clean_keeps_good segs stack rooted :
  Forall goodSeg segs -> foldl (cleanStep rooted) stack segs = reverse segs ++ stack.
Proof.
  intros Hs. revert stack. induction Hs as [|x segs Hx _ IH]; intros stack; [done|].
  cbn [foldl]. rewrite cleanStep_good, IH by done. rewrite reverse_cons. by rewrite <- app_assoc.
Qed.

(** The segments of a rooted path after cleaning. *)
Definition cleanSegs (s : string) : list string := reverse (foldl (cleanStep true) [] (split s)).

Lemma cleanSegs_good s : Forall goodSeg (cleanSegs s).
Proof. apply Forall_reverse, clean_rooted_good; [apply split_noSlash|constructor]. Qed.

Lemma HasPrefix_slash s : HasPrefix (String slash s) "/" = true.
Proof. apply HasPrefix_spec. by exists s. Qed.

Lemma Clean_rooted s : HasPrefix s "/" = true -> Clean s = cleanPath (cleanSegs s).
Proof.
  intros H. unfold Clean. rewrite H. apply HasPrefix_spec in H as [r ->].
  rewrite bool_decide_false by done. unfold cleanSegs. by destruct (reverse _).
Qed.

Lemma cleanPath_slash segs : exists r, cleanPath segs = String slash r.
Proof. destruct segs as [|x segs]; [by exists ""|]. simpl. eauto. Qed.

Lemma cleanSegs_cleanPath segs : Forall goodSeg segs -> cleanSegs (cleanPath segs) = segs.
Proof.
  intros H. destruct segs as [|x segs]; [done|]. unfold cleanSegs. cbn [cleanPath].
  rewrite split_absPath by (done || by apply goodSegs_noSlash).
  change (foldl (cleanStep true) [] ("" :: x :: segs)) with (foldl (cleanStep true) [] (x :: segs)).
  rewrite clean_keeps_good, app_nil_r by done. apply reverse_involutive.
Qed.

Lemma Clean_cleanPath segs : Forall goodSeg segs -> Clean (cleanPath segs) = cleanPath segs.
Proof.
  intros H. rewrite Clean_rooted, cleanSegs_cleanPath by
    (done || (destruct (cleanPath_slash segs) as [r ->]; apply HasPrefix_slash)). done.
Qed.

Lemma cleanPath_app a b : a <> [] -> b <> [] -> cleanPath a +:+ cleanPath b = cleanPath (a ++ b).
Proof. destruct a, b; try done. intros _ _. symmetry. apply (absPath_app (_ :: _) (_ :: _)). Qed.

Lemma cleanPath_root segs : Forall goodSeg segs -> cleanPath segs = "/" -> segs = [].
Proof. intros H E. by apply (cleanPath_inj segs []). Qed.

(** ** Mount paths *)

(** The remote path of a local one. *)
Lemma ToRemote_segs rs local :
  Forall goodSeg rs ->
  ToRemote (cleanPath rs) local = cleanPath (rs ++ cleanSegs ("/" +:+ local)).
Proof.
  intros Hrs. unfold ToRemote. rewrite Clean_rooted by apply HasPrefix_slash.
  pose proof (cleanSegs_good ("/" +:+ local)) as Hl. set (ls := cleanSegs ("/" +:+ local)) in *.
  case_bool_decide as E; [by apply cleanPath_root in E as ->|].
  case_bool_decide as E'.
  - apply cleanPath_root in E' as ->; [|done]. by rewrite app_nil_r.
  - apply cleanPath_app; by intros ->.
Qed.

Lemma CutPrefix_cleanPath rs ts rest :
  rs <> [] -> Forall goodSeg rs -> Forall goodSeg ts ->
  CutPrefix (cleanPath ts) (cleanPath rs +:+ "/") = Some rest <->
  exists ls, ls <> [] /\ ts = rs ++ ls /\ String slash rest = cleanPath ls.
Proof.
  intros Hne Hrs Hts. rewrite CutPrefix_spec. apply goodSegs_noSlash in Hrs as Hrs', Hts as Hts'. split.
  - intros E. exists (split rest). destruct (split_nonempty rest) as (h & t & Es).
    assert (ts <> []) as Hts0.
    { intros ->. destruct rs as [|x rs]; [done|]. simpl in E. simplify_eq.
      apply Forall_cons in Hrs as [(_ & Hx & _) _]. destruct x; [done|]. simpl in E. simplify_eq. }
    split; [by rewrite Es|]. split; [|rewrite <- absPath_split; by rewrite Es].
    destruct ts as [|y ts]; [done|]. destruct rs as [|x rs]; [done|]. cbn [cleanPath] in E.
    apply (f_equal split) in E. rewrite <- string_app_assoc in E.
    change ("/" +:+ rest) with (String slash rest) in E.
    rewrite split_app, !split_absPath in E by done. simpl in E |- *. congruence.
  - intros (ls & Hls & -> & E). destruct rs as [|x rs]; [done|]. destruct ls as [|y ls]; [done|].
    cbn [cleanPath] in *. rewrite <- string_app_assoc.
    change ("/" +:+ rest) with (String slash rest). rewrite E.
    apply (absPath_app (x :: rs) (y :: ls)).
Qed.

(** The local path of a remote one. *)
Lemma ToLocal_segs rs remote l :
  Forall goodSeg rs -> HasPrefix remote "/" = true ->
  ToLocal (cleanPath rs) remote = Some l <->
  exists ls, cleanSegs remote = rs ++ ls /\ l = cleanPath ls.
Proof.
  intros Hrs Hp. unfold ToLocal. rewrite Clean_rooted by done.
  pose proof (cleanSegs_good remote) as Ht. set (ts := cleanSegs remote) in *.
  case_bool_decide as E.
  { apply cleanPath_root in E as ->; [|done]. naive_solver. }
  assert (rs <> []) as Hne by (by intros ->). case_bool_decide as E'.
  { apply cleanPath_inj in E' as ->; [|done..]. split.
    - intros [= <-]. exists []. by rewrite app_nil_r.
    - intros (ls & Hls & ->). replace ls with (@nil string); [done|].
      apply (app_inv_head rs). by rewrite app_nil_r. }
  destruct (CutPrefix _ _) as [rest|] eqn:Ec.
  - apply CutPrefix_cleanPath in Ec as (ls & Hls & -> & Er); [|done..]. split.
    + intros [= <-]. by exists ls.
    + intros (ls' & Hls'%app_inv_head & ->). subst ls'. by rewrite <- Er.
  - split; [done|]. intros (ls & Hls & ->). destruct ls as [|y ls].
    { rewrite app_nil_r in Hls. congruence. }
    destruct (cleanPath_slash (y :: ls)) as [r Er].
    assert (CutPrefix (cleanPath ts) (cleanPath rs +:+ "/") = Some r); [|congruence].
    apply CutPrefix_cleanPath; [done..|]. by exists (y :: ls).
Qed.

(** ** Trimming *)

Lemma split_trimLeft s : exists k, split s = replicate k "" ++ split (trimLeftSlash s).
Proof.
  induction s as [|c s (k & IH)]; [by exists 0%nat|]. cbn [trimLeftSlash].
  destruct (Ascii.eqb_spec c slash) as [->|Hc]; [|by exists 0%nat].
  exists (S k). rewrite split_slash, IH. done.
Qed.

Lemma split_trimRight s : exists k, split s = split (trimRightSlash s) ++ replicate k "".
Proof.
  induction s as [|c s (k & IH)]; [by exists 0%nat|]. cbn [trimRightSlash].
  destruct (bool_decide (trimRightSlash s = "") && Ascii.eqb c slash) eqn:E.
  - bool_prop. destruct (Ascii.eqb_spec c slash) as [->|]; [|done]. exists (S k).
    rewrite split_slash, IH. match goal with H : trimRightSlash s = "" |- _ => rewrite H end. done.
  - exists k. cbn [split]. rewrite IH. destruct (Ascii.eqb c slash); [done|].
    destruct (split_nonempty (trimRightSlash s)) as (h & t & ->). done.
Qed.

Lemma dotSegment_None segs :
  dotSegment segs = None <-> Forall (fun s => s <> "." /\ s <> "..") segs.
Proof.
  unfold dotSegment. rewrite Forall_forall. split.
  - intros H x Hx. destruct (filter _ segs) as [|y l] eqn:E; [|done].
    assert (~ (x = "." \/ x = "..")); [|tauto]. intros Hd.
    assert (x ∈ filter (fun seg => seg = "." \/ seg = "..") segs) as Hin by by apply list_elem_of_filter.
    rewrite E in Hin. set_solver.
  - intros H. destruct (filter _ segs) as [|y l] eqn:E; [done|].
    assert (y ∈ filter (fun seg => seg = "." \/ seg = "..") segs) as Hin by (rewrite E; set_solver).
    apply list_elem_of_filter in Hin as [Hd Hin]. destruct (H y Hin). naive_solver.
Qed.

Lemma dotSegment_Some segs seg :
  dotSegment segs = Some seg -> seg ∈ segs /\ (seg = "." \/ seg = "..").
Proof.
  unfold dotSegment. destruct (filter _ segs) as [|y l] eqn:E; [done|]. intros [= ->].
  assert (seg ∈ filter (fun seg => seg = "." \/ seg = "..") segs) as Hin by (rewrite E; set_solver).
  apply list_elem_of_filter in Hin as [Hd Hin]. done.
Qed.

(** The segments the traversal check sees are those of the path, up to empty ones. *)
Lemma trimmed_elem s seg :
  seg <> "" -> seg ∈ split (trimRightSlash (trimLeftSlash s)) <-> seg ∈ split s.
Proof.
  intros Hne. destruct (split_trimLeft s) as [k ->]. destruct (split_trimRight (trimLeftSlash s)) as [k' ->].
  rewrite !elem_of_app. split; [auto|]. intros [[-> _]%elem_of_replicate|[?|[-> _]%elem_of_replicate]]; done.
Qed.

(** ** Canonical paths *)

(** The non-empty segments of a path. *)
Definition segsOf (s : string) : list string := filter (fun seg => seg <> "") (split s).

Lemma clean_no_dots segs stack rooted :
  Forall (fun s => s <> "." /\ s <> "..") segs ->
  foldl (cleanStep rooted) stack segs = reverse (filter (fun seg => seg <> "") segs) ++ stack.
Proof.
  intros H. revert stack. induction H as [|x segs [H1 H2] _ IH]; intros stack; [done|].
  cbn [foldl]. rewrite IH, filter_cons. unfold cleanStep. case_decide as Hx.
  - rewrite !bool_decide_false by done. cbn [orb]. rewrite reverse_cons. by rewrite <- app_assoc.
  - rewrite bool_decide_true by (destruct (decide (x = "")); [done|by destruct Hx]). done.
Qed.

Lemma segsOf_good s :
  Forall (fun s => s <> "." /\ s <> "..") (split s) -> Forall goodSeg (segsOf s).
Proof.
  intros H. apply Forall_forall. intros x [Hx Hin]%list_elem_of_filter.
  pose proof (split_noSlash s) as Hn. rewrite Forall_forall in H, Hn.
  destruct (H x Hin). split_and!; auto.
Qed.

Lemma cleanSegs_segsOf s :
  Forall (fun s => s <> "." /\ s <> "..") (split s) -> cleanSegs s = segsOf s.
Proof.
  intros H. unfold cleanSegs. rewrite clean_no_dots, app_nil_r by done. apply reverse_involutive.
Qed.

Lemma HasSuffix_spec s x : HasSuffix s x = true -> exists a, s = a +:+ x.
Proof.
  induction s as [|c s IH]; cbn [HasSuffix]; intros H; bool_prop.
  - destruct H as [H%String.eqb_eq|H]; [|done]. subst. by exists "".
  - destruct H as [H%String.eqb_eq|H]; [subst; by exists ""|].
    destruct (IH H) as [a ->]. by exists (String c a).
Qed.

Lemma absPath_no_suffix segs : segs <> [] -> Forall goodSeg segs -> HasSuffix (absPath segs) "/" = false.
Proof.
  intros Hne Hg. destruct (HasSuffix (absPath segs) "/") eqn:E; [|done].
  apply HasSuffix_spec in E as [a E]. apply (f_equal split) in E.
  rewrite split_absPath in E by (done || by apply goodSegs_noSlash).
  rewrite split_app in E. destruct segs as [|x segs] using rev_ind; [done|].
  rewrite app_comm_cons in E. apply app_inj_tail in E as [_ ->].
  apply Forall_app in Hg as [_ Hg]. apply Forall_singleton in Hg as (_ & ? & _). done.
Qed.

Lemma TrimSuffix_none s x : HasSuffix s x = false -> TrimSuffix s x = s.
Proof. intros H. unfold TrimSuffix. by rewrite H. Qed.

Lemma substring_app a b : String.substring 0 (String.length a) (a +:+ b) = a.
Proof. induction a as [|c a IH]; simpl; [by destruct b|by rewrite IH]. Qed.

Lemma TrimSuffix_app a x : TrimSuffix (a +:+ x) x = a.
Proof.
  unfold TrimSuffix. rewrite HasSuffix_app, string_app_length, Nat.add_sub. apply substring_app.
Qed.

Lemma TrimSuffix_cleanPath segs : Forall goodSeg segs -> TrimSuffix (cleanPath segs) "/" = absPath segs.
Proof.
  intros H. destruct segs as [|x segs]; [done|]. apply TrimSuffix_none, absPath_no_suffix; done.
Qed.

(** ** Bytes *)

(** Every byte satisfies a test. *)
Fixpoint allBytes (P : Ascii.ascii -> bool) (s : string) : bool :=
  match s with
  | EmptyString => true
  | String c s => P c && allBytes P s
  end.

Lemma allBytes_app P a b : allBytes P (a +:+ b) = allBytes P a && allBytes P b.
Proof. induction a as [|c a IH]; simpl; [done|]. by rewrite IH, andb_assoc. Qed.

Lemma allBytes_split P s : allBytes P s = true -> Forall (fun x => allBytes P x = true) (split s).
Proof.
  induction s as [|c s IH]; cbn [allBytes split]; intros H; [by repeat constructor|]. bool_prop.
  destruct (Ascii.eqb c slash); [constructor; auto|].
  destruct (split s) as [|h t]; [constructor|]. specialize (IH ltac:(done)).
  apply Forall_cons in IH as [Hh Ht]. constructor; [|done]. cbn [allBytes].
  apply andb_true_iff. done.
Qed.

Lemma allBytes_absPath P segs :
  P slash = true -> Forall (fun x => allBytes P x = true) segs -> allBytes P (absPath segs) = true.
Proof.
  intros Hs. induction 1 as [|x segs Hx _ IH]; [done|].
  change (absPath (x :: segs)) with (String slash (x +:+ absPath segs)). cbn [allBytes].
  by rewrite Hs, allBytes_app, Hx, IH.
Qed.

Lemma allBytes_canonical P s :
  P slash = true -> allBytes P s = true -> allBytes P (absPath (segsOf s)) = true.
Proof.
  intros Hs H. apply allBytes_absPath; [done|]. apply Forall_forall.
  intros x [_ Hx]%list_elem_of_filter. apply allBytes_split in H. by eapply Forall_forall in H.
Qed.

Lemma checkBytes_spec s : checkBytes s = None <-> allBytes (fun c => 0x20 <=? code c) s = true.
Proof.
  induction s as [|c s IH]; cbn [checkBytes allBytes]; [done|].
  assert (0 <= code c) by (unfold code; lia). rewrite andb_true_iff, Z.leb_le, <- IH.
  case_if; bool_prop; [split; [done|lia]|]. case_if; bool_prop; [split; [done|lia]|].
  split; [|naive_solver]. intros Hn. split; [|done].
  match goal with H : _ \/ _ |- _ => destruct H; bool_prop; lia end.
Qed.

Lemma hasBackslash_spec s : hasBackslash s = false <-> allBytes (fun c => negb (code c =? 92)) s = true.
Proof.
  induction s as [|c s IH]; cbn [hasBackslash allBytes]; [done|].
  rewrite orb_false_iff, andb_true_iff, negb_true_iff. naive_solver.
Qed.

(** ASCII text. *)
Definition isASCII (s : string) : bool := allBytes (fun c => code c <? 0x80) s.

Lemma ValidString_ascii s : isASCII s = true -> ValidString s = true.
Proof.
  unfold isASCII. induction s as [|c s IH]; cbn [allBytes ValidString]; intros H; [done|].
  bool_prop. rewrite (proj2 (Z.ltb_lt _ _)) by done. by apply IH.
Qed.

(** The segments of the path with the slash that is put in front. *)
Lemma rooted_elem raw y :
  y <> "" -> y ∈ split (if HasPrefix raw "/" then raw else "/" +:+ raw) <-> y ∈ split raw.
Proof.
  intros Hy. destruct (HasPrefix raw "/"); [done|].
  change ("/" +:+ raw) with (String slash raw). rewrite split_slash. set_solver.
Qed.

Lemma checkBytes_error raw e : checkBytes raw = Some e -> e = ErrNUL \/ exists b, e = ErrControl b.
Proof.
  induction raw as [|c raw IH]; [done|]. cbn [checkBytes]. repeat case_if; intros; simplify_eq; eauto.
Qed.

(** ** Properties *)

Section canonical.
Context (nfc : string -> string).
Hypothesis nfc_ascii : forall s, isASCII s = true -> nfc s = s.

#[local] Set Default Proof Using "Type*".

(** [canonicalize] of a path that passes the checks. *)
Lemma canonicalize_ok raw isDir :
  isASCII raw = true -> raw <> "" -> raw <> "/" -> checkBytes raw = None ->
  hasBackslash raw = false -> Forall (fun s => s <> "." /\ s <> "..") (split raw) ->
  canonicalize nfc raw isDir
  = inl (absPath (segsOf raw) +:+ if isDir then "/" else "").
Proof.
  intros Ha H1 H2 Hc Hb Hd. unfold canonicalize.
  rewrite (bool_decide_false (raw = "")), (bool_decide_false (raw = "/")), Hc, Hb by done. cbn [orb].
  set (raw' := if HasPrefix raw "/" then raw else "/" +:+ raw).
  assert (HasPrefix raw' "/" = true) as Hp.
  { unfold raw'. destruct (HasPrefix raw "/") eqn:E; [done|apply HasPrefix_slash]. }
  assert (Forall (fun s => s <> "." /\ s <> "..") (split raw') /\ segsOf raw' = segsOf raw) as [Hd' Hs].
  { unfold raw'. destruct (HasPrefix raw "/"); [done|]. change ("/" +:+ raw) with (String slash raw).
    unfold segsOf. rewrite split_slash. split; [by constructor|]. done. }
  assert (dotSegment (split (trimRightSlash (trimLeftSlash raw'))) = None) as ->.
  { apply dotSegment_None, Forall_forall. intros x Hx. destruct (decide (x = "")) as [->|Hne]; [done|].
    apply (trimmed_elem raw' x Hne) in Hx. exact (proj1 (Forall_forall _ _) Hd' x Hx). }
  rewrite Clean_rooted, cleanSegs_segsOf, Hs by done. pose proof (segsOf_good raw Hd) as Hg.
  rewrite bool_decide_false by (destruct (cleanPath_slash (segsOf raw)) as [r ->]; intros E; discriminate E).
  rewrite TrimSuffix_cleanPath by done.
  assert (isASCII (absPath (segsOf raw)) = true) as Hp' by (by apply allBytes_canonical).
  rewrite ValidString_ascii, nfc_ascii by done. cbn [negb].
  rewrite (bool_decide_false (absPath (segsOf raw) = "/")).
  - rewrite andb_true_r. destruct isDir; [done|]. by rewrite string_app_nil_r.
  - intros E. destruct (segsOf raw) as [|x l]; [discriminate E|].
    pose proof (cleanPath_root (x :: l) Hg E). done.
Qed.

(** [canonicalize] of a path with a dot segment. *)
Lemma canonicalize_dots raw isDir x :
  raw <> "" -> raw <> "/" -> checkBytes raw = None -> hasBackslash raw = false ->
  x ∈ split raw -> x = "." \/ x = ".." ->
  exists seg, canonicalize nfc raw isDir = inr (ErrDotSegment seg)
    /\ seg ∈ split raw /\ (seg = "." \/ seg = "..").
Proof.
  intros H1 H2 Hc Hb Hx Hdot. unfold canonicalize.
  rewrite (bool_decide_false (raw = "")), (bool_decide_false (raw = "/")), Hc, Hb by done. cbn [orb].
  destruct (dotSegment _) as [seg|] eqn:E.
  - apply dotSegment_Some in E as [Hs Hsd]. assert (seg <> "") by (by destruct Hsd as [-> | ->]).
    exists seg. split_and!; [done| |done]. apply rooted_elem; [done|]. by apply trimmed_elem.
  - apply dotSegment_None in E. rewrite Forall_forall in E.
    assert (x <> "") by (by destruct Hdot as [-> | ->]).
    destruct (E x); [|by destruct Hdot]. apply trimmed_elem; [done|]. by apply rooted_elem.
Qed.

(** A canonical path is a fixed point. *)
Lemma canonicalize_again raw :
  isASCII raw = true -> checkBytes raw = None -> hasBackslash raw = false ->
  Forall (fun s => s <> "." /\ s <> "..") (split raw) -> segsOf raw <> [] ->
  canonicalize nfc (absPath (segsOf raw)) false = inl (absPath (segsOf raw)).
Proof.
  intros Ha Hc Hb Hd Hn. pose proof (segsOf_good raw Hd) as Hg.
  assert (split (absPath (segsOf raw)) = "" :: segsOf raw) as Hsp
    by (apply split_absPath; [by apply goodSegs_noSlash|done]).
  rewrite canonicalize_ok, string_app_nil_r.
  - unfold segsOf at 1. rewrite Hsp, filter_cons_False by (by intros []).
    do 2 f_equal. apply filter_keeps_all. eapply Forall_impl; [exact Hg|]. by intros y (_ & ? & _).
  - by apply allBytes_canonical.
  - intros E. by destruct (segsOf raw).
  - intros E. destruct (segsOf raw) as [|y l]; [done|].
    by pose proof (cleanPath_root (y :: l) Hg E).
  - apply checkBytes_spec, allBytes_canonical; [done|]. by apply checkBytes_spec.
  - apply hasBackslash_spec, allBytes_canonical; [done|]. by apply hasBackslash_spec.
  - rewrite Hsp. constructor; [done|]. eapply Forall_impl; [exact Hg|]. by intros y (_ & _ & ? & ?).
Qed.

(** Canonicalization is exact on ASCII paths.  It fails only on a control
    character, a backslash, or a [.] or [..] segment; otherwise the result is the
    non-empty segments of the input, each after one slash, none of them a dot
    segment, and canonicalizing it again gives it back.  (For an input of two or more
    slashes only, that list is empty and the result is the empty string instead of
    the root.) *)
Theorem canonicalize_exact raw :
  isASCII raw = true ->
  match Canonicalize nfc raw with
  | inl p => p = (if decide (raw = "" \/ raw = "/") then "/" else absPath (segsOf raw))
             /\ Forall goodSeg (segsOf raw) /\ (p <> "" -> Canonicalize nfc p = inl p)
  | inr (ErrDotSegment seg) => seg ∈ split raw /\ (seg = "." \/ seg = "..")
  | inr ErrBackslash => hasBackslash raw = true
  | inr e => checkBytes raw = Some e
  end.
Proof.
  intros Ha. unfold Canonicalize. destruct (decide (raw = "" \/ raw = "/")) as [Hr|Hr].
  { destruct Hr as [-> | ->]; simpl; (split_and!; [done|constructor|done]). }
  assert (raw <> "" /\ raw <> "/") as [H1 H2] by naive_solver.
  destruct (checkBytes raw) as [e|] eqn:Hc.
  { unfold canonicalize. rewrite !bool_decide_false, Hc by done. cbn [orb].
    by destruct (checkBytes_error raw e Hc) as [-> | [b ->]]. }
  destruct (hasBackslash raw) eqn:Hb.
  { unfold canonicalize. by rewrite !bool_decide_false, Hc, Hb by done. }
  destruct (dotSegment (split raw)) as [x|] eqn:Hd.
  - apply dotSegment_Some in Hd as [Hx Hdot].
    by destruct (canonicalize_dots raw false x H1 H2 Hc Hb Hx Hdot) as (seg & -> & Hseg).
  - apply dotSegment_None in Hd. rewrite canonicalize_ok, string_app_nil_r by done.
    split_and!; [done|by apply segsOf_good|]. intros Hne. apply canonicalize_again; try done.
    intros E. rewrite E in Hne. by destruct Hne.
Qed.

End canonical.

Lemma canonicalize_exact_witness :
  Canonicalize id "data//file.txt/" = inl "/data/file.txt"
  /\ Canonicalize id "/data/file.txt" = inl "/data/file.txt" /\ Canonicalize id "//" = inl "".
Proof.
  pose proof (canonicalize_exact id (fun _ _ => eq_refl) "data//file.txt/" eq_refl) as H.
  assert (Canonicalize id "data//file.txt/" = inl "/data/file.txt") as E by (vm_compute; reflexivity).
  rewrite E in H. destruct H as (_ & _ & H).
  split; [exact E|]. split; [apply H; discriminate|vm_compute; reflexivity].
Defined.

(** A mount maps the local namespace one to one onto the remote subtree.  For a
    normalized root, every local path, however it climbs with [..], maps to a path in
    the subtree of the root that maps back to the cleaned local path; and a remote path
    has a local one exactly when it lies in the subtree, which maps back to it. *)
Theorem mount_paths_bijective rs local remote l :
  Forall goodSeg rs -> HasPrefix remote "/" = true ->
  let root := cleanPath rs in
  (exists ls, Forall goodSeg ls /\ Clean ("/" +:+ local) = cleanPath ls
     /\ ToRemote root local = cleanPath (rs ++ ls)
     /\ ToLocal root (ToRemote root local) = Some (cleanPath ls))
  /\ (ToLocal root remote = Some l <->
      exists ls, Forall goodSeg ls /\ Clean remote = cleanPath (rs ++ ls) /\ l = cleanPath ls)
  /\ (ToLocal root remote = Some l -> ToRemote root l = Clean remote).
Proof.
  intros Hrs Hp root.
  assert (ToLocal root remote = Some l <->
    exists ls, Forall goodSeg ls /\ Clean remote = cleanPath (rs ++ ls) /\ l = cleanPath ls) as Hl.
  { unfold root. rewrite ToLocal_segs, Clean_rooted by done. pose proof (cleanSegs_good remote) as Hg. split.
    - intros (ls & E & ->). rewrite E in Hg |- *. apply Forall_app in Hg as [_ Hg]. eauto.
    - intros (ls & Hls & E & ->). exists ls. split; [|done].
      apply cleanPath_inj; [done|by apply Forall_app|done]. }
  split_and!; [|done|].
  - exists (cleanSegs ("/" +:+ local)). pose proof (cleanSegs_good ("/" +:+ local)) as Hg.
    split_and!; [done|by apply Clean_rooted, HasPrefix_slash|by apply ToRemote_segs|].
    unfold root. rewrite ToRemote_segs by done. apply ToLocal_segs; [done| |].
    + destruct (cleanPath_slash (rs ++ cleanSegs ("/" +:+ local))) as [r ->]. apply HasPrefix_slash.
    + eexists. split; [|done]. by apply cleanSegs_cleanPath, Forall_app.
  - intros (ls & Hls & -> & ->)%Hl. unfold root. rewrite ToRemote_segs by done. f_equal. f_equal.
    destruct ls as [|x ls]; [done|]. unfold cleanSegs.
    change ("/" +:+ cleanPath (x :: ls)) with (String slash (cleanPath (x :: ls))).
    rewrite split_slash. exact (cleanSegs_cleanPath (x :: ls) Hls).
Qed.

Lemma mount_paths_bijective_witness :
  ToRemote "/srv/team" "../../etc/passwd" = "/srv/team/etc/passwd"
  /\ ToRemote "/srv/team" "/x" = Clean "/srv/team//x".
Proof.
  assert (Forall goodSeg ["srv"; "team"]) as Hrs by (repeat constructor; discriminate).
  split; [vm_compute; reflexivity|].
  refine (proj2 (proj2 (mount_paths_bijective ["srv"; "team"] "" "/srv/team//x" "/x" Hrs eq_refl)) _).
  vm_compute. reflexivity.
Defined.

(** ** Parent and base name *)

Lemma pathSplit_noSlash x : noSlash x -> pathSplit x = ("", x).
Proof.
  unfold noSlash. induction x as [|c x IH]; [done|]. cbn [split pathSplit].
  destruct (Ascii.eqb_spec c slash) as [->|Hc].
  - destruct (split_nonempty x) as (h & t & ->). done.
  - destruct (split_nonempty x) as (h & t & E). rewrite E in IH |- *. intros [= -> ->].
    rewrite IH by done. cbn. by destruct (Ascii.eqb_spec c slash).
Qed.

Lemma pathSplit_app a x : noSlash x -> pathSplit (a +:+ String slash x) = (a +:+ "/", x).
Proof.
  intros Hx. induction a as [|c a IH].
  - simpl String.append. cbn [pathSplit]. by rewrite pathSplit_noSlash.
  - simpl String.append. cbn [pathSplit]. rewrite IH. by destruct a.
Qed.

Lemma trimRight_none s : HasSuffix s "/" = false -> trimRightSlash s = s.
Proof.
  induction s as [|c s IH]; [done|]. cbn [HasSuffix trimRightSlash]. intros H. bool_prop.
  rewrite IH by done. destruct (Ascii.eqb_spec c slash) as [->|]; [|by rewrite andb_false_r].
  destruct (decide (s = "")) as [->|Hs]; [done|]. by rewrite bool_decide_false.
Qed.

Lemma absPath_snoc segs x : absPath (segs ++ [x]) = absPath segs +:+ String slash x.
Proof. rewrite absPath_app. f_equal. simpl. by rewrite string_app_nil_r. Qed.

Lemma split_suffix p : p <> "" -> HasSuffix p "/" = false -> p +:+ "/" <> "/" /\ p <> "/".
Proof.
  intros Hp Hs. split; [|by intros ->]. intros E. apply Hp. by apply (string_app_inj_r p "" "/").
Qed.

(** A canonical path is its parent directory followed by its base name.  For good
    segments and a last name, both of the file path and of the directory path with a
    trailing slash, [ParentPath] is the path of the segments with a trailing slash and
    [BaseName] the last name; the directory path, and only it, passes [IsDir]. *)
Theorem parent_base_split segs x :
  Forall goodSeg segs -> goodSeg x ->
  let p := absPath (segs ++ [x]) in
  ParentPath p = absPath segs +:+ "/" /\ BaseName p = x /\ ParentPath p +:+ BaseName p = p
  /\ ParentPath (p +:+ "/") = ParentPath p /\ BaseName (p +:+ "/") = x
  /\ IsDir p = false /\ IsDir (p +:+ "/") = true.
Proof.
  intros Hs Hx p. pose proof Hx as (Hn & Hx1 & _).
  assert (Forall goodSeg (segs ++ [x])) as Hg by (apply Forall_app; split; [done|by apply Forall_singleton]).
  assert (HasSuffix p "/" = false) as Hsuf by (apply absPath_no_suffix; [by destruct segs|done]).
  assert (p <> "") as Hp0 by (unfold p; by destruct segs).
  destruct (split_suffix p Hp0 Hsuf) as [Hp1 Hp2].
  assert (pathSplit p = (absPath segs +:+ "/", x)) as Hsp.
  { unfold p. rewrite absPath_snoc. by apply pathSplit_app. }
  assert (pathDir p = cleanPath segs) as Hdir.
  { unfold pathDir. rewrite Hsp. cbn [fst]. destruct segs as [|y l]; [done|].
    rewrite Clean_rooted by apply HasPrefix_slash. f_equal. unfold cleanSegs.
    change "/" with (String slash ""). rewrite split_app, split_absPath by (done || by apply goodSegs_noSlash).
    rewrite foldl_app. change (foldl (cleanStep true) [] ("" :: y :: l)) with (foldl (cleanStep true) [] (y :: l)).
    rewrite (clean_keeps_good (y :: l)), app_nil_r by done. apply (reverse_involutive (y :: l)). }
  assert (forall q, TrimSuffix q "/" = p -> q <> "/" -> ParentPath q = absPath segs +:+ "/" /\ BaseName q = x) as H.
  { intros q Hq Hne. unfold ParentPath, BaseName. rewrite !(bool_decide_false (q = "/")), Hq, Hdir by done. split.
    - rewrite bool_decide_false by (destruct (cleanPath_slash segs) as [r ->]; intros E; discriminate E).
      destruct segs as [|y l]; [done|]. cbn [cleanPath]. by rewrite (absPath_no_suffix (y :: l)).
    - unfold pathBase. rewrite (bool_decide_false (p = "")), trimRight_none, Hsp by done.
      by rewrite bool_decide_false. }
  destruct (H p (TrimSuffix_none _ _ Hsuf) Hp2) as [-> ->].
  destruct (H (p +:+ "/") (TrimSuffix_app _ _) Hp1) as [-> ->].
  split_and!; try done.
  - unfold p. rewrite absPath_snoc, <- string_app_assoc. done.
  - unfold IsDir. by rewrite bool_decide_false, Hsuf.
  - unfold IsDir. by rewrite HasSuffix_app, orb_true_r.
Qed.

Lemma parent_base_split_witness :
  ParentPath "/a/b/c.txt" = "/a/b/" /\ BaseName "/a/b/c.txt" = "c.txt".
Proof.
  assert (Forall goodSeg ["a"; "b"]) as Hs by (repeat constructor; discriminate).
  assert (goodSeg "c.txt") as Hx by (repeat constructor; discriminate).
  destruct (parent_base_split ["a"; "b"] "c.txt" Hs Hx) as (Hp & Hb & _).
  split; [exact Hp|exact Hb].
Defined.

End Paths.
