(* ===== verification/Json.v ===== *)
(** * Canonical JSON

    The JSON side of [src/pkg/journal/journal.go]: the values [encoding/json] decodes
    with [UseNumber], its string encoder with HTML escaping, its decoder with the
    nesting limit, and the canonical writer [writeCanonicalJSON] with
    [CanonicalJSONRaw] on top.  Strings are byte strings; a Go [map[string]any] is the
    list of its pairs in the order a [range] meets them, so the writer sorts. *)

From Stdlib Require Import Strings.Ascii.
From S2P Require Import Prelude GoStrings PathUtil.

Import GoStr Paths.

Module Json.

#[local] Arguments String.append !_ _ / : simpl nomatch.

(** ** UTF-8 *)

(** The bytes of the rune at the start of a string, with the rest; [None] at the end
    and on an invalid byte. *)
Definition utf8Head (s : string) : option (string * string) :=
  match s with
  | EmptyString => None
  | String a s1 =>
      if code a <? 0x80 then Some (String a "", s1)
      else
        match s1 with
        | EmptyString => None
        | String b s2 =>
            if inRange 0xC2 0xDF a then
              if cont b then Some (String a (String b ""), s2) else None
            else
              match s2 with
              | EmptyString => None
              | String c s3 =>
                  if inRange 0xE0 0xEF a then
                    if inRange (if code a =? 0xE0 then 0xA0 else 0x80)
                               (if code a =? 0xED then 0x9F else 0xBF) b && cont c
                    then Some (String a (String b (String c "")), s3) else None
                  else
                    match s3 with
                    | EmptyString => None
                    | String d s4 =>
                        if inRange 0xF0 0xF4 a
                           && inRange (if code a =? 0xF0 then 0x90 else 0x80)
                                      (if code a =? 0xF4 then 0x8F else 0xBF) b
                           && cont c && cont d
                        then Some (String a (String b (String c (String d ""))), s4)
                        else None
                    end
              end
        end
  end.

(** A string as the decoder sees it: runes, and bytes that belong to none. *)
Inductive piece := Rune (r : string) | BadByte (a : ascii).

Fixpoint pieces (fuel : nat) (s : string) : list piece :=
  match fuel, s with
  | S fuel, String a s1 =>
      match utf8Head s with
      | Some (r, rest) => Rune r :: pieces fuel rest
      | None => BadByte a :: pieces fuel s1
      end
  | _, _ => []
  end.

Definition runesOf (s : string) : list piece := pieces (String.length s) s.

(** U+FFFD *)
Definition replacementChar : string :=
  String (ascii_of_nat 239) (String (ascii_of_nat 191) (String (ascii_of_nat 189) "")).

Definition pieceBytes (p : piece) : string :=
  match p with Rune r => r | BadByte _ => replacementChar end.

Definition concatStrings (l : list string) : string := foldr String.append "" l.

(** A string with every invalid byte replaced, as [encoding/json] coerces it. *)
Definition toValid (s : string) : string := concatStrings (pieceBytes <$> runesOf s).

(** ** String literals *)

Definition hexDigit (n : Z) : ascii :=
  ascii_of_nat (Z.to_nat (if n <? 10 then 48 + n else 87 + n)).

(** [\u00XX] *)
Definition escapeByte (c : ascii) : string :=
  "\u00" +:+ String (hexDigit (code c / 16)) (String (hexDigit (code c mod 16)) "").

(** The encoding of a one-byte rune: [htmlSafeSet] as it is, short escapes, [\u00XX]. *)
Definition encodeASCII (c : ascii) : string :=
  let n := code c in
  if (n =? 34) || (n =? 92) then String "\" (String c "")
  else if n =? 8 then "\b"
  else if n =? 12 then "\f"
  else if n =? 10 then "\n"
  else if n =? 13 then "\r"
  else if n =? 9 then "\t"
  else if (n <? 32) || (n =? 38) || (n =? 60) || (n =? 62) then escapeByte c
  else String c "".

Definition lineSeparator : string :=
  String (ascii_of_nat 226) (String (ascii_of_nat 128) (String (ascii_of_nat 168) "")).
Definition paragraphSeparator : string :=
  String (ascii_of_nat 226) (String (ascii_of_nat 128) (String (ascii_of_nat 169) "")).

(** The encoding of one piece. *)
Definition encodePiece (p : piece) : string :=
  match p with
  | BadByte _ => "\ufffd"
  | Rune (String c "") => encodeASCII c
  | Rune r =>
      if bool_decide (r = lineSeparator) then "\u2028"
      else if bool_decide (r = paragraphSeparator) then "\u2029" else r
  end.

Definition quote : string := String (ascii_of_nat 34) "".

(** [json.Marshal] of a string. *)
Definition encodeString (s : string) : string :=
  quote +:+ concatStrings (encodePiece <$> runesOf s) +:+ quote.

(** A hexadecimal digit. *)
Definition hexValue (c : ascii) : option Z :=
  let n := code c in
  if (48 <=? n) && (n <=? 57) then Some (n - 48)
  else if (97 <=? n) && (n <=? 102) then Some (n - 87)
  else if (65 <=? n) && (n <=? 70) then Some (n - 55)
  else None.

(** [getu4] after the [\u]: four hexadecimal digits. *)
Definition getu4 (s : string) : option (Z * string) :=
  match s with
  | String a (String b (String c (String d rest))) =>
      match hexValue a, hexValue b, hexValue c, hexValue d with
      | Some a, Some b, Some c, Some d => Some (((a * 16 + b) * 16 + c) * 16 + d, rest)
      | _, _, _, _ => None
      end
  | _ => None
  end.

Definition byteOf (n : Z) : ascii := ascii_of_nat (Z.to_nat n).

(** [utf8.AppendRune] for a code point that is no surrogate. *)
Definition encodeRune (r : Z) : string :=
  if r <? 0x80 then String (byteOf r) ""
  else if r <? 0x800 then String (byteOf (0xC0 + r / 64)) (String (byteOf (0x80 + r mod 64)) "")
  else if r <? 0x10000 then
    String (byteOf (0xE0 + r / 4096))
      (String (byteOf (0x80 + r / 64 mod 64)) (String (byteOf (0x80 + r mod 64)) ""))
  else
    String (byteOf (0xF0 + r / 262144))
      (String (byteOf (0x80 + r / 4096 mod 64))
        (String (byteOf (0x80 + r / 64 mod 64)) (String (byteOf (0x80 + r mod 64)) ""))).

(** [utf16.IsSurrogate] *)
Definition isSurrogate (r : Z) : bool := (0xD800 <=? r) && (r <? 0xE000).

(** The escape after a backslash: the bytes it stands for, with the rest. *)
Definition unescape (s : string) : option (string * string) :=
  match s with
  | EmptyString => None
  | String c rest =>
      let n := code c in
      if (n =? 34) || (n =? 92) || (n =? 47) then Some (String c "", rest)
      else if n =? 98 then Some (String (byteOf 8) "", rest)
      else if n =? 102 then Some (String (byteOf 12) "", rest)
      else if n =? 110 then Some (String (byteOf 10) "", rest)
      else if n =? 114 then Some (String (byteOf 13) "", rest)
      else if n =? 116 then Some (String (byteOf 9) "", rest)
      else if n =? 117 then
        match getu4 rest with
        | None => None
        | Some (r, rest) =>
            if isSurrogate r then
              match CutPrefix rest "\u" with
              | Some rest2 =>
                  match getu4 rest2 with
                  | Some (r2, rest3) =>
                      if (r <? 0xDC00) && (0xDC00 <=? r2) && (r2 <? 0xE000)
                      then Some (encodeRune ((r - 0xD800) * 1024 + (r2 - 0xDC00) + 0x10000), rest3)
                      else Some (replacementChar, rest)
                  | None => Some (replacementChar, rest)
                  end
              | None => Some (replacementChar, rest)
              end
            else Some (encodeRune r, rest)
        end
      else None
  end.

(** The rest of a string literal after its opening quote. *)
Fixpoint decodeChars (fuel : nat) (s : string) : option (string * string) :=
  match fuel, s with
  | S fuel, String c rest =>
      if code c =? 34 then Some ("", rest)
      else
        let head :=
          if code c =? 92 then unescape rest
          else if code c <? 32 then None
          else match utf8Head s with
               | Some (r, rest) => Some (r, rest)
               | None => Some (replacementChar, rest)
               end in
        match head with
        | Some (r, rest) =>
            match decodeChars fuel rest with
            | Some (out, rest) => Some (r +:+ out, rest)
            | None => None
            end
        | None => None
        end
  | _, _ => None
  end.

(** ** Numbers *)

Definition isDigit (c : ascii) : bool := (48 <=? code c) && (code c <=? 57).

Fixpoint spanDigits (s : string) : string * string :=
  match s with
  | String c rest =>
      if isDigit c then let '(d, r) := spanDigits rest in (String c d, r) else ("", s)
  | EmptyString => ("", "")
  end.

(** One digit or more. *)
Definition digits1 (s : string) : option (string * string) :=
  let '(d, r) := spanDigits s in if bool_decide (d = "") then None else Some (d, r).

(** The integer part: [0], or digits that do not start with [0]. *)
Definition scanInt (s : string) : option (string * string) :=
  match s with
  | String c rest => if code c =? 48 then Some ("0", rest) else digits1 s
  | EmptyString => None
  end.

(** The fraction, if there is one. *)
Definition scanFrac (s : string) : option (string * string) :=
  match s with
  | String c rest =>
      if code c =? 46 then
        match digits1 rest with Some (d, r) => Some (String c d, r) | None => None end
      else Some ("", s)
  | EmptyString => Some ("", s)
  end.

(** The exponent, if there is one. *)
Definition scanExp (s : string) : option (string * string) :=
  match s with
  | String e rest =>
      if (code e =? 101) || (code e =? 69) then
        match rest with
        | String sg rest' =>
            if (code sg =? 43) || (code sg =? 45) then
              match digits1 rest' with
              | Some (d, r) => Some (String e (String sg d), r)
              | None => None
              end
            else match digits1 rest with Some (d, r) => Some (String e d, r) | None => None end
        | EmptyString => None
        end
      else Some ("", s)
  | EmptyString => Some ("", s)
  end.

(** The scanner's number literal, kept as text ([UseNumber]). *)
Definition scanNumber (s : string) : option (string * string) :=
  let '(sg, s) := match s with
                  | String c rest => if code c =? 45 then ("-", rest) else ("", s)
                  | EmptyString => ("", s)
                  end in
  match scanInt s with
  | None => None
  | Some (i, s) =>
      match scanFrac s with
      | None => None
      | Some (f, s) =>
          match scanExp s with
          | None => None
          | Some (e, s) => Some (sg +:+ i +:+ f +:+ e, s)
          end
      end
  end.

(** [json.Valid] of a number literal. *)
Definition numOk (n : string) : bool := bool_decide (scanNumber n = Some (n, "")).

(** ** Values *)

Inductive json :=
  | JNull
  | JBool (b : bool)
  | JNum (n : string)
  | JStr (s : string)
  | JArr (l : list json)
  | JObj (m : list (string * json)).

(** [m[k] = v] on the pairs of a map. *)
Fixpoint putKey {A} (m : list (string * A)) (k : string) (v : A) : list (string * A) :=
  match m with
  | [] => [(k, v)]
  | (k', v') :: m => if bool_decide (k' = k) then (k, v) :: m else (k', v') :: putKey m k v
  end.

(** [sort.Strings] on the keys of a map, with their values. *)
Definition keyLt {A} (p q : string * A) : bool := String.ltb (fst p) (fst q).
Definition sortKeys {A} (m : list (string * A)) : list (string * A) := sortBy keyLt m.

(** ** The canonical writer *)

(** Elements separated by commas. *)
Fixpoint commaSep (l : list string) : string :=
  match l with
  | [] => ""
  | [x] => x
  | x :: l => x +:+ "," +:+ commaSep l
  end.

(** All of a list of results, or an error. *)
Definition allSome {A} (l : list (option A)) : option (list A) :=
  foldr (fun o acc => match o, acc with Some x, Some l => Some (x :: l) | _, _ => None end)
    (Some []) l.

Fixpoint writeCanonicalJSON (v : json) : option string :=
  match v with
  | JNull => Some "null"
  | JBool b => Some (if b then "true" else "false")
  | JStr s => Some (encodeString s)
  | JNum n => if numOk n then Some n else None
  | JArr l =>
      items ← allSome (writeCanonicalJSON <$> l);
      Some ("[" +:+ commaSep items +:+ "]")
  | JObj m =>
      let texts := (fun p => (fst p, writeCanonicalJSON (snd p))) <$> m in
      items ← allSome ((fun p => option_map (fun t => encodeString (fst p) +:+ ":" +:+ t) (snd p))
                         <$> sortKeys texts);
      Some ("{" +:+ commaSep items +:+ "}")
  end.

(** ** The decoder *)

Fixpoint skipSpace (s : string) : string :=
  match s with
  | String c rest =>
      if (code c =? 32) || (code c =? 9) || (code c =? 10) || (code c =? 13)
      then skipSpace rest else s
  | EmptyString => EmptyString
  end.

(** A value after optional space; [depth] is the nesting that is left. *)
Fixpoint parseValue (fuel depth : nat) (s : string) : option (json * string) :=
  match fuel with
  | O => None
  | S fuel =>
      match skipSpace s with
      | EmptyString => None
      | String c rest as s =>
          if code c =? 34 then
            match decodeChars (String.length rest) rest with
            | Some (t, rest) => Some (JStr t, rest)
            | None => None
            end
          else if code c =? 91 then
            match depth with
            | O => None
            | S depth =>
                match CutPrefix (skipSpace rest) "]" with
                | Some rest => Some (JArr [], rest)
                | None => match parseItems fuel depth rest with
                          | Some (l, rest) => Some (JArr l, rest)
                          | None => None
                          end
                end
            end
          else if code c =? 123 then
            match depth with
            | O => None
            | S depth =>
                match CutPrefix (skipSpace rest) "}" with
                | Some rest => Some (JObj [], rest)
                | None => match parseMembers fuel depth [] rest with
                          | Some (m, rest) => Some (JObj m, rest)
                          | None => None
                          end
                end
            end
          else if (code c =? 45) || isDigit c then
            match scanNumber s with
            | Some (n, rest) => Some (JNum n, rest)
            | None => None
            end
          else
            match CutPrefix s "null", CutPrefix s "true", CutPrefix s "false" with
            | Some rest, _, _ => Some (JNull, rest)
            | _, Some rest, _ => Some (JBool true, rest)
            | _, _, Some rest => Some (JBool false, rest)
            | _, _, _ => None
            end
      end
  end
with parseItems (fuel depth : nat) (s : string) : option (list json * string) :=
  match fuel with
  | O => None
  | S fuel =>
      match parseValue fuel depth s with
      | None => None
      | Some (v, rest) =>
          let rest := skipSpace rest in
          match CutPrefix rest "]", CutPrefix rest "," with
          | Some rest, _ => Some ([v], rest)
          | _, Some rest => match parseItems fuel depth rest with
                            | Some (l, rest) => Some (v :: l, rest)
                            | None => None
                            end
          | _, _ => None
          end
      end
  end
with parseMembers (fuel depth : nat) (m : list (string * json)) (s : string)
    : option (list (string * json) * string) :=
  match fuel with
  | O => None
  | S fuel =>
      match CutPrefix (skipSpace s) quote with
      | None => None
      | Some rest =>
          match decodeChars (String.length rest) rest with
          | None => None
          | Some (k, rest) =>
              match CutPrefix (skipSpace rest) ":" with
              | None => None
              | Some rest =>
                  match parseValue fuel depth rest with
                  | None => None
                  | Some (v, rest) =>
                      let m := putKey m k v in
                      let rest := skipSpace rest in
                      match CutPrefix rest "}", CutPrefix rest "," with
                      | Some rest, _ => Some (m, rest)
                      | _, Some rest => parseMembers fuel depth m rest
                      | _, _ => None
                      end
                  end
              end
          end
      end
  end.

(** The scanner's limit on nested arrays and objects. *)
Definition maxNestingDepth : nat := Z.to_nat 10000.

(** One value and nothing after it. *)
Definition decodeOne (raw : string) : option json :=
  match parseValue (2 * String.length raw + 2) maxNestingDepth raw with
  | Some (v, rest) => if bool_decide (skipSpace rest = "") then Some v else None
  | None => None
  end.

(** [CanonicalJSONRaw]; [None] is an error and the empty string a nil result. *)
Definition CanonicalJSONRaw (raw : string) : option string :=
  if isBlank raw then Some ""
  else v ← decodeOne raw; writeCanonicalJSON v.

(** Text with single quotes for double ones. *)
Fixpoint text (s : string) : string :=
  match s with
  | EmptyString => EmptyString
  | String c s => (if code c =? 39 then quote else String c "") +:+ text s
  end.

Example canonical_tests :
  CanonicalJSONRaw (text " { 'b' : [1, 2.50e+3, true ] , 'a':null, 'c': '\u003c\/\ud83d\ude00' , 'b':-0}")
    = Some (text "{'a':null,'b':-0,'c':'\u003c/" +:+ encodeRune 0x1F600 +:+ text "'}")
  /\ CanonicalJSONRaw "[1] 2" = None
  /\ CanonicalJSONRaw "[01]" = None
  /\ CanonicalJSONRaw "  " = Some "".
Proof. vm_compute. done. Qed.

(** ** Runes *)

(** The bytes of exactly one rune. *)
Definition isRune (r : string) : Prop := utf8Head r = Some (r, "").

Lemma utf8Head_app s r rest : utf8Head s = Some (r, rest) -> s = r +:+ rest /\ r <> "".
Proof.
  unfold utf8Head. intros H. destruct s as [|a s1]; [done|].
  destruct (code a <? 0x80); [by simplify_eq|].
  destruct s1 as [|b s2]; [done|]. destruct (inRange 0xC2 0xDF a).
  { destruct (cont b); by simplify_eq. }
  destruct s2 as [|c s3]; [done|]. destruct (inRange 0xE0 0xEF a).
  { destruct (_ && _); by simplify_eq. }
  destruct s3 as [|d s4]; [done|]. destruct (_ && _); by simplify_eq.
Qed.

(** A rune is recognized whatever follows it. *)
Lemma utf8Head_ext s r rest t : utf8Head s = Some (r, rest) -> utf8Head (r +:+ t) = Some (r, t).
Proof.
  intros H. destruct s as [|a s1]; [done|]. unfold utf8Head in H.
  destruct (code a <? 0x80) eqn:Ea.
  { simplify_eq. change (String a "" +:+ t) with (String a t). unfold utf8Head. by rewrite Ea. }
  destruct s1 as [|b s2]; [done|]. destruct (inRange 0xC2 0xDF a) eqn:E2.
  { destruct (cont b) eqn:Eb; simplify_eq.
    change (String a (String b "") +:+ t) with (String a (String b t)).
    unfold utf8Head. by rewrite Ea, E2, Eb. }
  destruct s2 as [|c s3]; [done|]. destruct (inRange 0xE0 0xEF a) eqn:E3.
  { destruct (_ && _) eqn:Eb; simplify_eq.
    change (String a (String b (String c "")) +:+ t) with (String a (String b (String c t))).
    unfold utf8Head. by rewrite Ea, E2, E3, Eb. }
  destruct s3 as [|d s4]; [done|]. destruct (_ && _) eqn:Eb; simplify_eq.
  change (String a (String b (String c (String d ""))) +:+ t)
    with (String a (String b (String c (String d t)))).
  unfold utf8Head. by rewrite Ea, E2, E3, Eb.
Qed.

Lemma utf8Head_rune s r rest : utf8Head s = Some (r, rest) -> isRune r.
Proof. intros H. apply (utf8Head_ext _ _ _ "") in H. by rewrite string_app_nil_r in H. Qed.

Lemma isRune_app r t : isRune r -> utf8Head (r +:+ t) = Some (r, t).
Proof. apply utf8Head_ext. Qed.

Lemma isRune_nonempty r : isRune r -> r <> "".
Proof. intros H. apply utf8Head_app in H as [_ H]. exact H. Qed.

(** Enough fuel for [pieces]. *)
Lemma pieces_fuel f s : (String.length s <= f)%nat -> pieces f s = runesOf s.
Proof.
  unfold runesOf. revert s. induction f as [f IH] using lt_wf_ind. intros s Hf.
  destruct s as [|a s1]; [by destruct f|]. simpl in Hf. destruct f as [|f]; [lia|].
  cbn [String.length pieces]. destruct (utf8Head (String a s1)) as [[r rest]|] eqn:E.
  - apply utf8Head_app in E as [E Hr]. apply (f_equal String.length) in E.
    rewrite string_app_length in E. destruct r as [|x r]; [done|]. simpl in E. f_equal.
    rewrite (IH f), (IH (String.length s1)) by lia. done.
  - f_equal. rewrite (IH f) by lia. done.
Qed.

Lemma runesOf_rune r s : isRune r -> runesOf (r +:+ s) = Rune r :: runesOf s.
Proof.
  intros Hr. pose proof (isRune_app r s Hr) as E. pose proof (isRune_nonempty r Hr) as Hne.
  destruct r as [|a r]; [done|]. unfold runesOf at 1. simpl String.append in *.
  cbn [String.length pieces]. rewrite E. f_equal. apply pieces_fuel.
  rewrite string_app_length. lia.
Qed.

Lemma runesOf_cons a s :
  runesOf (String a s) = match utf8Head (String a s) with
                         | Some (r, rest) => Rune r :: runesOf rest
                         | None => BadByte a :: runesOf s
                         end.
Proof.
  unfold runesOf at 1. cbn [String.length pieces].
  destruct (utf8Head (String a s)) as [[r rest]|] eqn:E; [|done]. f_equal. apply pieces_fuel.
  apply utf8Head_app in E as [E Hr]. apply (f_equal String.length) in E.
  rewrite string_app_length in E. destruct r as [|x r]; [done|]. simpl in E. lia.
Qed.

(** The pieces of a string, by induction on its length. *)
Lemma string_len_ind (P : string -> Prop) :
  (forall s, (forall t, (String.length t < String.length s)%nat -> P t) -> P s) -> forall s, P s.
Proof.
  intros H s. remember (String.length s) as n eqn:E. revert s E.
  induction n as [n IH] using lt_wf_ind. intros s ->. apply H. eauto.
Qed.

Lemma runesOf_pieces s : Forall (fun p => match p with Rune r => isRune r | _ => True end) (runesOf s).
Proof.
  induction s as [s IH] using string_len_ind. destruct s as [|a s]; [constructor|].
  rewrite runesOf_cons. destruct (utf8Head (String a s)) as [[r rest]|] eqn:E.
  - constructor; [by eapply utf8Head_rune|]. apply IH.
    apply utf8Head_app in E as [E Hr]. apply (f_equal String.length) in E.
    rewrite string_app_length in E. destruct r as [|x r]; [done|]. simpl in *. lia.
  - constructor; [done|]. apply IH. simpl. lia.
Qed.

(** A string of runes. *)
Definition valid (s : string) : Prop := exists l, Forall isRune l /\ s = concatStrings l.

Lemma runesOf_concat l : Forall isRune l -> runesOf (concatStrings l) = Rune <$> l.
Proof.
  induction 1 as [|r l Hr _ IH]; [done|]. simpl. rewrite runesOf_rune by done. by rewrite IH.
Qed.

Lemma pieceBytes_rune p : match p with Rune r => isRune r | _ => True end -> isRune (pieceBytes p).
Proof. destruct p; [done|]. intros _. reflexivity. Qed.

Lemma toValid_valid s : valid (toValid s).
Proof.
  exists (pieceBytes <$> runesOf s). split; [|done]. apply Forall_fmap.
  eapply Forall_impl; [apply runesOf_pieces|]. exact pieceBytes_rune.
Qed.

Lemma valid_toValid s : valid s -> toValid s = s.
Proof.
  intros (l & Hl & ->). unfold toValid. rewrite runesOf_concat by done.
  rewrite <- list_fmap_compose. f_equal. apply list_fmap_id.
Qed.

Lemma toValid_idemp s : toValid (toValid s) = toValid s.
Proof. apply valid_toValid, toValid_valid. Qed.

Lemma concatStrings_cons x l : concatStrings (x :: l) = x +:+ concatStrings l.
Proof. done. Qed.

Lemma concatStrings_app a b : concatStrings (a ++ b) = concatStrings a +:+ concatStrings b.
Proof. induction a as [|x a IH]; [done|]. simpl. by rewrite IH, string_app_assoc. Qed.

Lemma valid_app a b : valid a -> valid b -> valid (a +:+ b).
Proof.
  intros (l & Hl & ->) (m & Hm & ->). exists (l ++ m).
  split; [by apply Forall_app|]. by rewrite concatStrings_app.
Qed.

Lemma rune_valid r : isRune r -> valid r.
Proof. intros H. exists [r]. split; [by repeat constructor|]. simpl. by rewrite string_app_nil_r. Qed.

Lemma valid_nil : valid "".
Proof. exists []. split; [constructor|done]. Qed.

(** [utf8.ValidString] is validity. *)
Lemma ValidString_valid s : ValidString s = true -> valid s.
Proof.
  induction s as [s IH] using string_len_ind. intros H. destruct s as [|a s]; [apply valid_nil|].
  assert (exists r rest, utf8Head (String a s) = Some (r, rest) /\ ValidString rest = true) as (r & rest & E & Hr).
  { cbn [ValidString] in H. unfold utf8Head. destruct (code a <? 0x80); [eauto|].
    destruct s as [|b s]; [done|]. destruct (inRange 0xC2 0xDF a).
    { apply andb_true_iff in H as [-> H]. eauto. }
    destruct s as [|c s]; [done|]. destruct (inRange 0xE0 0xEF a).
    { apply andb_true_iff in H as [-> H]. eauto. }
    destruct s as [|d s]; [done|]. apply andb_true_iff in H as [-> H]. eauto. }
  pose proof (utf8Head_rune _ _ _ E) as Hrune. apply utf8Head_app in E as [E Hne]. rewrite E.
  apply valid_app; [by apply rune_valid|]. apply IH; [|done]. rewrite E, string_app_length.
  destruct r; [done|]. simpl. lia.
Qed.

(** ** String literals: round trip *)

(** One round of the decoder. *)
Definition decodeHead (s : string) : option (string * string) :=
  match s with
  | EmptyString => None
  | String c rest =>
      if code c =? 92 then unescape rest
      else if code c <? 32 then None
      else match utf8Head s with
           | Some (r, rest) => Some (r, rest)
           | None => Some (replacementChar, rest)
           end
  end.

Lemma decodeChars_step fuel c s :
  decodeChars (S fuel) (String c s) =
    if code c =? 34 then Some ("", s)
    else match decodeHead (String c s) with
         | Some (r, rest) =>
             match decodeChars fuel rest with
             | Some (out, rest) => Some (r +:+ out, rest)
             | None => None
             end
         | None => None
         end.
Proof. reflexivity. Qed.

(** An ASCII rune is read back from its encoding. *)
Lemma decodeHead_ascii c t :
  code c < 128 ->
  decodeHead (encodeASCII c +:+ t) = Some (String c "", t)
  /\ exists x u, encodeASCII c = String x u /\ code x <> 34.
Proof.
  intros Hc. destruct c as [[] [] [] [] [] [] [] []]; try (exfalso; vm_compute in Hc; discriminate Hc);
    (split; [reflexivity|eexists _, _; split; [reflexivity|discriminate]]).
Qed.

Lemma rune_head r a b r' : isRune r -> r = String a (String b r') -> 128 <= code a.
Proof.
  intros Hr ->. unfold isRune, utf8Head in Hr. destruct (code a <? 0x80) eqn:E; [congruence|]. bool_prop. lia.
Qed.

Lemma encodePiece_rune r t :
  isRune r ->
  decodeHead (encodePiece (Rune r) +:+ t) = Some (r, t)
  /\ exists x u, encodePiece (Rune r) = String x u /\ code x <> 34.
Proof.
  intros Hr. pose proof (isRune_app r t Hr) as E. destruct r as [|a [|b r']]; [done|..].
  - apply decodeHead_ascii. unfold isRune, utf8Head in Hr. destruct (code a <? 0x80) eqn:Ea; [|done].
    bool_prop. lia.
  - pose proof (rune_head _ a b r' Hr eq_refl) as Ha. set (r := String a (String b r')) in *.
    assert (encodePiece (Rune r) = if bool_decide (r = lineSeparator) then "\u2028"
      else if bool_decide (r = paragraphSeparator) then "\u2029" else r) as -> by reflexivity.
    case_bool_decide as Hl; [|case_bool_decide as Hp].
    + rewrite Hl. split; [reflexivity|]. eexists _, _. split; [reflexivity|discriminate].
    + rewrite Hp. split; [reflexivity|]. eexists _, _. split; [reflexivity|discriminate].
    + split; [|exists a, (String b r'); split; [done|lia]].
      change (r +:+ t) with (String a (String b (r' +:+ t))) in *. unfold decodeHead. rewrite E.
      rewrite (proj2 (Z.eqb_neq (code a) 92) ltac:(lia)), (proj2 (Z.ltb_ge (code a) 32) ltac:(lia)).
      done.
Qed.

Lemma encodePiece_head p t :
  match p with Rune r => isRune r | _ => True end ->
  decodeHead (encodePiece p +:+ t) = Some (pieceBytes p, t)
  /\ exists x u, encodePiece p = String x u /\ code x <> 34.
Proof.
  destruct p as [r|a]; [apply encodePiece_rune|]. intros _. split; [reflexivity|].
  eexists _, _. split; [reflexivity|discriminate].
Qed.

Lemma decodeChars_encoded ps fuel rest :
  Forall (fun p => match p with Rune r => isRune r | _ => True end) ps ->
  (String.length (concatStrings (encodePiece <$> ps)) < fuel)%nat ->
  decodeChars fuel (concatStrings (encodePiece <$> ps) +:+ quote +:+ rest)
    = Some (concatStrings (pieceBytes <$> ps), rest).
Proof.
  intros Hps. revert fuel. induction Hps as [|p ps Hp _ IH]; intros fuel Hf.
  - destruct fuel; [simpl in Hf; lia|]. reflexivity.
  - destruct fuel; [lia|]. rewrite !fmap_cons in *.
    rewrite !concatStrings_cons in *. rewrite <- string_app_assoc.
    destruct (encodePiece_head p (concatStrings (encodePiece <$> ps) +:+ quote +:+ rest) Hp)
      as [E (x & u & Ex & Hx)]. rewrite Ex in *. simpl String.append in *.
    rewrite decodeChars_step, (proj2 (Z.eqb_neq _ _) Hx). rewrite E, IH; [done|].
    cbn [String.length] in Hf. rewrite string_app_length in Hf. lia.
Qed.

(** A string is read back from its literal, with invalid bytes replaced. *)
Lemma decode_encodeString s rest :
  exists t, encodeString s +:+ rest = String (ascii_of_nat 34) t
    /\ decodeChars (String.length t) t = Some (toValid s, rest).
Proof.
  exists (concatStrings (encodePiece <$> runesOf s) +:+ quote +:+ rest). split.
  - unfold encodeString. by rewrite <- !string_app_assoc.
  - apply decodeChars_encoded; [apply runesOf_pieces|]. rewrite !string_app_length. simpl. lia.
Qed.

(** *** The decoder yields valid strings *)

Lemma code_byteOf n : 0 <= n < 256 -> code (byteOf n) = n.
Proof.
  intros Hn. unfold code, byteOf. unfold ascii_of_nat. rewrite N_ascii_embedding; lia.
Qed.

Lemma code_range c : 0 <= code c < 256.
Proof. unfold code. pose proof (N_ascii_bounded c). lia. Qed.

Lemma inRange_spec lo hi c : inRange lo hi c = true <-> lo <= code c <= hi.
Proof. unfold inRange. rewrite andb_true_iff, !Z.leb_le. done. Qed.

Lemma inRange_false lo hi c : inRange lo hi c = false <-> ~ (lo <= code c <= hi).
Proof. rewrite <- not_true_iff_false. by rewrite inRange_spec. Qed.

Lemma encodeRune_rune r : 0 <= r < 0x110000 -> isSurrogate r = false -> isRune (encodeRune r).
Proof.
  intros Hr Hs. unfold isSurrogate in Hs. unfold isRune, encodeRune.
  assert (0 <= r mod 64 < 64) by (apply Z.mod_pos_bound; lia).
  assert (0 <= r / 64 mod 64 < 64) by (apply Z.mod_pos_bound; lia).
  assert (0 <= r / 4096 mod 64 < 64) by (apply Z.mod_pos_bound; lia).
  assert (r = 64 * (r / 64) + r mod 64) by (apply Z.div_mod; lia).
  assert (r / 64 = 64 * (r / 4096) + r / 64 mod 64) as H64.
  { replace 4096 with (64 * 64) by done. rewrite <- Z.div_div by lia. apply Z.div_mod. lia. }
  assert (r / 4096 = 64 * (r / 262144) + r / 4096 mod 64) as H4096.
  { replace 262144 with (4096 * 64) by done. rewrite <- Z.div_div by lia. apply Z.div_mod. lia. }
  unfold utf8Head, cont, inRange.
  destruct (r <? 0x80) eqn:E1; [|destruct (r <? 0x800) eqn:E2; [|destruct (r <? 0x10000) eqn:E3]];
    bool_prop; rewrite !code_byteOf by lia.
  - by rewrite (proj2 (Z.ltb_lt _ _)) by lia.
  - rewrite (proj2 (Z.ltb_ge _ _)) by lia. rewrite !(proj2 (Z.leb_le _ _)) by lia. done.
  - rewrite (proj2 (Z.ltb_ge _ _)) by lia.
    rewrite (proj2 (andb_false_iff _ _)) by (right; apply Z.leb_gt; lia).
    rewrite (proj2 (Z.leb_le 0xE0 _)) by lia. rewrite (proj2 (Z.leb_le _ 0xEF)) by lia. cbn [andb].
    destruct (_ =? 0xE0) eqn:Ea, (_ =? 0xED) eqn:Eb; bool_prop; try lia;
      rewrite !(proj2 (Z.leb_le _ _)) by lia; done.
  - rewrite (proj2 (Z.ltb_ge _ _)) by lia.
    rewrite !(proj2 (andb_false_iff _ _)) by (right; apply Z.leb_gt; lia).
    destruct (_ =? 0xF0) eqn:Ea, (_ =? 0xF4) eqn:Eb; bool_prop; try lia;
      rewrite !(proj2 (Z.leb_le _ _)) by lia; done.
Qed.

Lemma hexValue_range c v : hexValue c = Some v -> 0 <= v < 16.
Proof. unfold hexValue. repeat case_if; intros [= <-]; bool_prop; lia. Qed.

Lemma getu4_range s r rest : getu4 s = Some (r, rest) -> 0 <= r < 0x10000.
Proof.
  unfold getu4. destruct s as [|a [|b [|c [|d s]]]]; try done.
  destruct (hexValue a) as [va|] eqn:Ea, (hexValue b) as [vb|] eqn:Eb, (hexValue c) as [vc|] eqn:Ec,
    (hexValue d) as [vd|] eqn:Ed; try done.
  apply hexValue_range in Ea, Eb, Ec, Ed. intros [= <- _]. lia.
Qed.

Lemma byte_rune n : 0 <= n < 128 -> isRune (String (byteOf n) "").
Proof.
  intros Hn. unfold isRune, utf8Head. rewrite code_byteOf by lia.
  by rewrite (proj2 (Z.ltb_lt n 0x80) ltac:(lia)).
Qed.

Lemma unescape_valid s r rest : unescape s = Some (r, rest) -> valid r.
Proof.
  intros H. apply rune_valid. unfold unescape in H. destruct s as [|c s]; [done|].
  destruct (_ || _) eqn:E; [simplify_eq|].
  { unfold isRune, utf8Head. rewrite (proj2 (Z.ltb_lt (code c) 0x80)); [done|]. bool_prop.
    destruct E as [E|E]; bool_prop; [destruct E; bool_prop|]; lia. }
  destruct (code c =? 98); [simplify_eq; by apply byte_rune|].
  destruct (code c =? 102); [simplify_eq; by apply byte_rune|].
  destruct (code c =? 110); [simplify_eq; by apply byte_rune|].
  destruct (code c =? 114); [simplify_eq; by apply byte_rune|].
  destruct (code c =? 116); [simplify_eq; by apply byte_rune|].
  destruct (code c =? 117); [|done]. destruct (getu4 s) as [[r1 s1]|] eqn:E1; [|done].
  apply getu4_range in E1. destruct (isSurrogate r1) eqn:Es.
  - destruct (CutPrefix s1 "\u") as [s2|]; [|simplify_eq; reflexivity].
    destruct (getu4 s2) as [[r2 s3]|]; [|simplify_eq; reflexivity].
    destruct (_ && _) eqn:Ep; simplify_eq; [|reflexivity]. unfold isSurrogate in Es. bool_prop.
    apply encodeRune_rune; [lia|]. unfold isSurrogate. rewrite (proj2 (Z.ltb_ge _ 0xE000)) by lia.
    apply andb_false_r.
  - simplify_eq. by apply encodeRune_rune; [lia|].
Qed.

Lemma decodeHead_valid s r rest : decodeHead s = Some (r, rest) -> valid r.
Proof.
  unfold decodeHead. destruct s as [|c s]; [done|].
  case_if; [apply unescape_valid|]. case_if; [done|].
  destruct (utf8Head (String c s)) as [[r1 s1]|] eqn:E1; intros H; simplify_eq; apply rune_valid;
    [by eapply utf8Head_rune|reflexivity].
Qed.

Lemma decodeChars_valid fuel s t rest : decodeChars fuel s = Some (t, rest) -> valid t.
Proof.
  revert s t. induction fuel as [|fuel IH]; intros s t; [done|]. destruct s as [|c s]; [done|].
  rewrite decodeChars_step. case_if; [intros; simplify_eq; apply valid_nil|].
  destruct (decodeHead _) as [[r s1]|] eqn:E1; [|done].
  destruct (decodeChars fuel s1) as [[out s2]|] eqn:E2; [|done]. intros. simplify_eq.
  apply valid_app; [by eapply decodeHead_valid|by eapply IH].
Qed.

(** ** Numbers: round trip *)

(** Text that cannot continue a number. *)
Definition stops (rest : string) : Prop :=
  match rest with
  | EmptyString => True
  | String c _ => isDigit c = false /\ code c <> 46 /\ code c <> 101 /\ code c <> 69
  end.

(** The first byte of a text, if any, satisfies [P]. *)
Definition firstByte (P : Z -> Prop) (t : string) : Prop :=
  match t with EmptyString => True | String c _ => P (code c) end.

Definition noDigit : string -> Prop := firstByte (fun n => ~ (48 <= n <= 57)).

Lemma noDigit_false c t : noDigit (String c t) -> isDigit c = false.
Proof. unfold noDigit, isDigit. simpl. intros H. apply not_true_iff_false. rewrite andb_true_iff, !Z.leb_le. lia. Qed.

(** A scanner that took [x] takes it again before any text that does not continue it. *)
Lemma spanDigits_again s d r :
  spanDigits s = (d, r) -> s = d +:+ r /\ forall t, noDigit t -> spanDigits (d +:+ t) = (d, t).
Proof.
  revert d r. induction s as [|c s IH]; intros d r H; cbn [spanDigits] in H.
  - simplify_eq. split; [done|]. intros [|c t] Ht; [done|]. simpl String.append. cbn [spanDigits].
    by rewrite (noDigit_false _ _ Ht).
  - destruct (isDigit c) eqn:Ec.
    + destruct (spanDigits s) as [d' r'] eqn:E. simplify_eq. destruct (IH d' r eq_refl) as [-> IH'].
      split; [done|]. intros t Ht. simpl String.append. cbn [spanDigits]. rewrite Ec, IH' by done. done.
    + simplify_eq. split; [done|]. intros [|c' t] Ht; [done|]. simpl String.append. cbn [spanDigits].
      by rewrite (noDigit_false _ _ Ht).
Qed.

Lemma digits1_again s d r :
  digits1 s = Some (d, r) ->
  s = d +:+ r /\ d <> "" /\ forall t, noDigit t -> digits1 (d +:+ t) = Some (d, t).
Proof.
  unfold digits1. destruct (spanDigits s) as [d' r'] eqn:E. case_bool_decide; [done|]. intros. simplify_eq.
  destruct (spanDigits_again s d r E) as [-> H']. split_and!; [done..|]. intros t Ht.
  rewrite H' by done. by rewrite bool_decide_false.
Qed.

Lemma scanInt_again s i r :
  scanInt s = Some (i, r) ->
  s = i +:+ r /\ forall t, noDigit t -> scanInt (i +:+ t) = Some (i, t).
Proof.
  destruct s as [|c s]; [done|]. intros H. unfold scanInt in H. destruct (code c =? 48) eqn:Ec.
  - simplify_eq. split; [|done].
    apply Z.eqb_eq in Ec. assert (c = "0"%char) as ->; [|done].
    rewrite <- (ascii_N_embedding c). unfold code in Ec.
    replace (N_of_ascii c) with 48%N by lia. done.
  - destruct (digits1_again _ _ _ H) as (Hs & Hne & H'). split; [done|]. intros t Ht.
    destruct i as [|c' i]; [done|]. simpl in Hs. injection Hs as <- _.
    specialize (H' t Ht). simpl String.append in *. unfold scanInt. by rewrite Ec.
Qed.

Lemma scanFrac_again s f r :
  scanFrac s = Some (f, r) ->
  s = f +:+ r /\ (f = "" \/ exists d, f = String (ascii_of_nat 46) d)
  /\ forall t, noDigit t -> firstByte (fun n => n <> 46) t -> scanFrac (f +:+ t) = Some (f, t).
Proof.
  assert (forall t, firstByte (fun n => n <> 46) t -> scanFrac t = Some ("", t)) as Hnone.
  { intros [|c t] Ht; [done|]. unfold scanFrac. by rewrite (proj2 (Z.eqb_neq _ _) Ht). }
  destruct s as [|c s]; [intros [= <- <-]; split_and!; [done|by left|auto]|].
  intros H. unfold scanFrac in H. destruct (code c =? 46) eqn:Ec; [|simplify_eq; split_and!; auto].
  destruct (digits1 s) as [[d r']|] eqn:E; [|done]. simplify_eq.
  destruct (digits1_again s d r E) as (-> & _ & H'). split_and!; [done|..].
  - right. exists d. f_equal. apply Z.eqb_eq in Ec. rewrite <- (ascii_N_embedding c). unfold code in Ec.
    replace (N_of_ascii c) with 46%N by lia. done.
  - intros t Ht _. simpl String.append. unfold scanFrac. rewrite Ec, H' by done. done.
Qed.

Lemma scanExp_again s e r :
  scanExp s = Some (e, r) ->
  s = e +:+ r /\ firstByte (fun n => n = 101 \/ n = 69) e
  /\ forall t, noDigit t -> firstByte (fun n => n <> 101 /\ n <> 69) t -> scanExp (e +:+ t) = Some (e, t).
Proof.
  assert (forall t, firstByte (fun n => n <> 101 /\ n <> 69) t -> scanExp t = Some ("", t)) as Hnone.
  { intros [|c t] Ht; [done|]. destruct Ht as [H1 H2]. unfold scanExp.
    by rewrite (proj2 (Z.eqb_neq _ _) H1), (proj2 (Z.eqb_neq _ _) H2). }
  destruct s as [|c s]; [intros [= <- <-]; split_and!; [done|done|auto]|].
  intros H. unfold scanExp in H. destruct (_ || _) eqn:Ec; [|simplify_eq; split_and!; auto; done].
  destruct s as [|sg s]; [done|]. pose proof Ec as Ec'. apply orb_true_iff in Ec'. rewrite !Z.eqb_eq in Ec'.
  destruct ((code sg =? 43) || (code sg =? 45)) eqn:Es.
  - destruct (digits1 s) as [[d r']|] eqn:E; [|done]. simplify_eq.
    destruct (digits1_again s d r E) as (-> & _ & H'). split_and!; [done|done|]. intros t Ht _.
    simpl String.append. unfold scanExp. rewrite Ec, Es, H' by done. done.
  - destruct (digits1 (String sg s)) as [[d r']|] eqn:E; [|done]. simplify_eq.
    destruct (digits1_again _ d r E) as (Hs & Hne & H'). split_and!; [simpl; congruence|done|]. intros t Ht _.
    destruct d as [|c' d]; [done|]. simpl in Hs. injection Hs as <- _. specialize (H' t Ht).
    simpl String.append in *. unfold scanExp. by rewrite Ec, Es, H'.
Qed.

(** A sign, an integer, a fraction and an exponent. *)
Lemma scanNumber_unsigned s : firstByte (fun n => n <> 45) s ->
  scanNumber s = match scanInt s with
                 | None => None
                 | Some (i, s) =>
                     match scanFrac s with
                     | None => None
                     | Some (f, s) => match scanExp s with
                                      | None => None
                                      | Some (e, s) => Some (i +:+ f +:+ e, s)
                                      end
                     end
                 end.
Proof.
  destruct s as [|c s]; [done|]. intros Hc. unfold scanNumber. by rewrite (proj2 (Z.eqb_neq _ _) Hc).
Qed.

Lemma scanInt_head s i r : scanInt s = Some (i, r) -> firstByte (fun n => 48 <= n <= 57) i /\ i <> "".
Proof.
  destruct s as [|c s]; [done|]. unfold scanInt. destruct (code c =? 48) eqn:Ec.
  - intros. simplify_eq. done.
  - unfold digits1. cbn [spanDigits]. destruct (isDigit c) eqn:Ed; [|done].
    destruct (spanDigits s). rewrite bool_decide_false by done. intros. simplify_eq.
    unfold isDigit in Ed. bool_prop. done.
Qed.

Lemma firstByte_app P a b : a <> "" -> firstByte P a -> firstByte P (a +:+ b).
Proof. by destruct a. Qed.

Lemma unsigned_again s i f e s1 s2 s3 t :
  scanInt s = Some (i, s1) -> scanFrac s1 = Some (f, s2) -> scanExp s2 = Some (e, s3) -> stops t ->
  scanNumber ((i +:+ f +:+ e) +:+ t) = Some (i +:+ f +:+ e, t).
Proof.
  intros Hi Hf He Ht. destruct (scanInt_head _ _ _ Hi) as [Hd Hne].
  apply scanInt_again in Hi as [_ Hi]. apply scanFrac_again in Hf as (_ & Hfd & Hf).
  apply scanExp_again in He as (_ & Hed & He).
  assert (noDigit t /\ firstByte (fun n => n <> 46) t /\ firstByte (fun n => n <> 101 /\ n <> 69) t) as (H1 & H2 & H3).
  { destruct t as [|c t]; [done|]. destruct Ht as (Hc & ? & ? & ?). unfold noDigit. simpl. split_and!; try done.
    unfold isDigit in Hc. intros Hr. rewrite (proj2 (Z.leb_le 48 _)), (proj2 (Z.leb_le _ 57)) in Hc by lia. done. }
  assert (noDigit (e +:+ t) /\ firstByte (fun n => n <> 46) (e +:+ t)) as [H4 H5].
  { destruct e as [|c e]; [done|]. simpl in Hed. unfold noDigit. simpl. lia. }
  assert (noDigit (f +:+ e +:+ t)) as H6.
  { destruct Hfd as [-> | [d ->]]; [done|]. unfold noDigit. vm_compute. intros [? ?]. congruence. }
  rewrite <- !string_app_assoc. rewrite scanNumber_unsigned.
  - rewrite Hi, Hf, He by done. done.
  - apply firstByte_app; [done|]. destruct i; [done|]. simpl in *. lia.
Qed.

Lemma scanNumber_again s n r :
  scanNumber s = Some (n, r) ->
  (forall t, stops t -> scanNumber (n +:+ t) = Some (n, t))
  /\ firstByte (fun c => c = 45 \/ 48 <= c <= 57) n /\ n <> "".
Proof.
  intros H. destruct s as [|c s]; [done|]. destruct (code c =? 45) eqn:Ec.
  - unfold scanNumber in H. rewrite Ec in H.
    destruct (scanInt s) as [[i s1]|] eqn:Ei; [|done]. destruct (scanFrac s1) as [[f s2]|] eqn:Ef; [|done].
    destruct (scanExp s2) as [[e s3]|] eqn:Ee; [|done]. simplify_eq. split_and!; [|by left|done].
    intros t Ht. pose proof (unsigned_again _ _ _ _ _ _ _ t Ei Ef Ee Ht) as Hu.
    destruct (scanInt_head _ _ _ Ei) as [Hd Hne]. rewrite scanNumber_unsigned in Hu.
    + unfold scanNumber. simpl String.append. cbn [code]. change (code "-" =? 45) with true. cbv iota beta.
      destruct (scanInt ((i +:+ f +:+ e) +:+ t)) as [[i' s1']|]; [|done]. destruct (scanFrac s1') as [[f' s2']|]; [|done].
      destruct (scanExp s2') as [[e' s3']|]; [|done]. injection Hu as E ->. by rewrite E.
    + rewrite <- string_app_assoc. apply firstByte_app; [done|]. destruct i; [done|]. simpl in *. lia.
  - rewrite scanNumber_unsigned in H by (simpl; by apply Z.eqb_neq).
    destruct (scanInt _) as [[i s1]|] eqn:Ei; [|done]. destruct (scanFrac s1) as [[f s2]|] eqn:Ef; [|done].
    destruct (scanExp s2) as [[e s3]|] eqn:Ee; [|done]. simplify_eq.
    destruct (scanInt_head _ _ _ Ei) as [Hd Hne]. split_and!.
    + intros t Ht. by eapply unsigned_again.
    + destruct i; [done|]. simpl in *. by right.
    + by destruct i.
Qed.

Lemma scanNumber_numOk s n r : scanNumber s = Some (n, r) -> numOk n = true.
Proof.
  intros H. apply scanNumber_again in H as (H & _). apply bool_decide_eq_true.
  specialize (H "" I). by rewrite string_app_nil_r in H.
Qed.

(** ** Values *)

Section induction.
Context (P : json -> Prop).
Hypothesis Hnull : P JNull.
Hypothesis Hbool : forall b, P (JBool b).
Hypothesis Hnum : forall n, P (JNum n).
Hypothesis Hstr : forall s, P (JStr s).
Hypothesis Harr : forall l, Forall P l -> P (JArr l).
Hypothesis Hobj : forall m, Forall (fun p => P (snd p)) m -> P (JObj m).

Fixpoint json_rect' (v : json) : P v :=
  match v with
  | JNull => Hnull
  | JBool b => Hbool b
  | JNum n => Hnum n
  | JStr s => Hstr s
  | JArr l => Harr l ((fix go l : Forall P l :=
                         match l with
                         | [] => Forall_nil_2 _
                         | x :: l => Forall_cons_2 _ _ _ (json_rect' x) (go l)
                         end) l)
  | JObj m => Hobj m ((fix go m : Forall (fun p => P (snd p)) m :=
                         match m with
                         | [] => Forall_nil_2 _
                         | p :: m => Forall_cons_2 (fun p => P (snd p)) _ _ (json_rect' (snd p)) (go m)
                         end) m)
  end.

End induction.

(** Well-formed values: valid strings, number literals that satisfy [P], maps with
    distinct keys, at most [d] levels of arrays and objects. *)
Inductive wfG (P : string -> Prop) : nat -> json -> Prop :=
  | wf_null d : wfG P d JNull
  | wf_bool d b : wfG P d (JBool b)
  | wf_num d n : P n -> wfG P d (JNum n)
  | wf_str d s : valid s -> wfG P d (JStr s)
  | wf_arr d l : Forall (wfG P d) l -> wfG P (S d) (JArr l)
  | wf_obj d m : NoDup (fst <$> m) -> Forall (fun p => valid (fst p) /\ wfG P d (snd p)) m ->
      wfG P (S d) (JObj m).

(** What the decoder yields, and the same with any number literals. *)
Abbreviation wf := (wfG (fun n => numOk n = true)).
Abbreviation shape := (wfG (fun _ => True)).

(** The same value: maps are equal whatever order a [range] meets their pairs in. *)
Inductive sameValue : json -> json -> Prop :=
  | same_null : sameValue JNull JNull
  | same_bool b : sameValue (JBool b) (JBool b)
  | same_num n : sameValue (JNum n) (JNum n)
  | same_str s : sameValue (JStr s) (JStr s)
  | same_arr l l' : Forall2 sameValue l l' -> sameValue (JArr l) (JArr l')
  | same_obj m m1 m' : m ≡ₚ m1 ->
      Forall2 (fun p q => fst p = fst q /\ sameValue (snd p) (snd q)) m1 m' ->
      sameValue (JObj m) (JObj m').

(** The value with the pairs of every map in key order. *)
Definition onValue {A B} (f : A -> B) (p : string * A) : string * B := (fst p, f (snd p)).

Fixpoint canon (v : json) : json :=
  match v with
  | JArr l => JArr (canon <$> l)
  | JObj m => JObj (sortKeys ((fun p => (fst p, canon (snd p))) <$> m))
  | _ => v
  end.

Lemma sortKeys_onValue {A B} (f : A -> B) m :
  sortKeys (onValue f <$> m) = onValue f <$> sortKeys m.
Proof. by apply sortBy_fmap. Qed.

Lemma keyLt_total {A} (m : list (string * A)) :
  NoDup (fst <$> m) ->
  NoDup m /\ forall p q, p ∈ m -> q ∈ m -> p = q \/ keyLt p q = true \/ keyLt q p = true.
Proof.
  intros Hnd. split; [by apply NoDup_fmap_1 in Hnd|]. intros p q Hp Hq. unfold keyLt.
  destruct (ltb_total (fst p) (fst q)) as [E|?]; [|by right]. left.
  apply list_elem_of_lookup in Hp as [i Hi]. apply list_elem_of_lookup in Hq as [j Hj].
  assert (i = j) as ->; [|congruence].
  eapply (NoDup_lookup (fst <$> m)); [done|..]; rewrite list_lookup_fmap; [by rewrite Hi|].
  rewrite Hj. simpl. by rewrite E.
Qed.

Lemma keyLt_trans {A} (p q r : string * A) : keyLt p q = true -> keyLt q r = true -> keyLt p r = true.
Proof. apply ltb_trans. Qed.

Lemma sortKeys_sorted {A} (m : list (string * A)) :
  NoDup (fst <$> m) -> StronglySorted (fun p q => keyLt p q = true) (sortKeys m).
Proof.
  intros Hnd. destruct (keyLt_total m Hnd). apply sortBy_sorted; [done|apply keyLt_trans|done].
Qed.

Lemma sortKeys_twice {A} (m : list (string * A)) :
  NoDup (fst <$> m) -> sortKeys (sortKeys m) = sortKeys m.
Proof.
  intros Hnd. apply sortBy_sorted_id; [by apply sortKeys_sorted|]. intros x y. apply ltb_asym.
Qed.

Lemma sortKeys_perm {A} (m : list (string * A)) : sortKeys m ≡ₚ m.
Proof. apply sortBy_perm. Qed.

Lemma sortKeys_unique {A} (m m' : list (string * A)) :
  NoDup (fst <$> m) -> m ≡ₚ m' -> sortKeys m = sortKeys m'.
Proof.
  intros Hnd. destruct (keyLt_total m Hnd). apply sortBy_unique; try done.
  - intros x. apply ltb_irrefl.
  - apply keyLt_trans.
Qed.

Lemma fst_onValue {A B} (f : A -> B) (m : list (string * A)) : fst <$> (onValue f <$> m) = fst <$> m.
Proof. rewrite <- list_fmap_compose. done. Qed.

Lemma canon_obj m : canon (JObj m) = JObj (sortKeys (onValue canon <$> m)).
Proof. done. Qed.

Lemma wf_arr_inv P d l : wfG P d (JArr l) -> exists d', d = S d' /\ Forall (wfG P d') l.
Proof. inversion 1; eauto. Qed.

Lemma wf_obj_inv P d m :
  wfG P d (JObj m) ->
  exists d', d = S d' /\ NoDup (fst <$> m) /\ Forall (fun p => valid (fst p) /\ wfG P d' (snd p)) m.
Proof. inversion 1; eauto. Qed.

(** Weaker conditions on numbers and a larger depth. *)
Lemma wfG_mono (P Q : string -> Prop) v : (forall n, P n -> Q n) ->
  forall d d', wfG P d v -> (d <= d')%nat -> wfG Q d' v.
Proof.
  intros HPQ. induction v as [| | | |l IH|m IH] using json_rect'; intros d d' Hv Hd;
    try (inversion Hv; subst; constructor; auto; done).
  - apply wf_arr_inv in Hv as (e & -> & Hl). destruct d' as [|d']; [lia|]. constructor.
    eapply Forall_impl2; [exact IH|exact Hl|]. intros x Hx1 Hx2. apply (Hx1 e); [done|lia].
  - apply wf_obj_inv in Hv as (e & -> & Hnd & Hm). destruct d' as [|d']; [lia|]. constructor; [done|].
    eapply Forall_impl2; [exact IH|exact Hm|]. intros p Hp1 [Hp2 Hp3]. split; [done|]. apply (Hp1 e); [done|lia].
Qed.

(** The canonical order keeps well-formedness, and sorting twice changes nothing. *)
Lemma canon_wf P d v : wfG P d v -> wfG P d (canon v).
Proof.
  revert d. induction v as [| | | |l IH|m IH] using json_rect'; intros d Hv; try done.
  - apply wf_arr_inv in Hv as (d' & -> & Hl). simpl. constructor. apply Forall_fmap.
    eapply Forall_impl2; [exact IH|exact Hl|]. intros x Hx1 Hx2. by apply Hx1.
  - apply wf_obj_inv in Hv as (d' & -> & Hnd & Hm). rewrite canon_obj, sortKeys_onValue. constructor.
    + rewrite fst_onValue. by rewrite sortKeys_perm.
    + apply Forall_fmap. rewrite sortKeys_perm. eapply Forall_impl2; [exact IH|exact Hm|].
      intros p Hp1 [Hp2 Hp3]. split; [done|]. by apply Hp1.
Qed.

(** Pointwise equality of two maps over a list. *)
Lemma fmap_Forall_ext {A B} (f g : A -> B) l : Forall (fun x => f x = g x) l -> f <$> l = g <$> l.
Proof. induction 1 as [|x l Hx _ IH]; [done|]. by rewrite !fmap_cons, Hx, IH. Qed.

Lemma canon_idemp P d v : wfG P d v -> canon (canon v) = canon v.
Proof.
  revert d. induction v as [| | | |l IH|m IH] using json_rect'; intros d Hv; try done.
  - apply wf_arr_inv in Hv as (d' & -> & Hl). simpl. f_equal. rewrite <- list_fmap_compose.
    apply fmap_Forall_ext. eapply Forall_impl2; [exact IH|exact Hl|]. intros x Hx1 Hx2. by eapply Hx1.
  - apply wf_obj_inv in Hv as (d' & -> & Hnd & Hm).
    rewrite !canon_obj, !sortKeys_onValue, (sortKeys_twice m) by done. f_equal.
    rewrite <- list_fmap_compose. apply fmap_Forall_ext. rewrite sortKeys_perm.
    eapply Forall_impl2; [exact IH|exact Hm|]. intros p Hp1 [_ Hp2]. unfold compose, onValue. simpl.
    f_equal. by eapply Hp1.
Qed.

(** ** Writing *)

Lemma allSome_Some {A} (l : list (option A)) r :
  allSome l = Some r <-> l = Some <$> r.
Proof.
  revert r. induction l as [|o l IH]; intros r; simpl.
  - split; [by intros [= <-]|]. by destruct r.
  - destruct o as [x|].
    + destruct (allSome l) as [l'|].
      * split; [intros [= <-]; simpl; f_equal; by apply IH|].
        destruct r as [|y r]; [done|]. intros [= -> H]. apply IH in H. congruence.
      * split; [done|]. destruct r as [|y r]; [done|]. intros [= _ H]. apply IH in H. done.
    + split; [done|]. by destruct r.
Qed.

(** The text of one member. *)
Definition member (p : string * option string) : option string :=
  option_map (fun t => encodeString (fst p) +:+ ":" +:+ t) (snd p).

Lemma write_obj m :
  writeCanonicalJSON (JObj m) =
    (items ← allSome (member <$> sortKeys (onValue writeCanonicalJSON <$> m));
     Some ("{" +:+ commaSep items +:+ "}")).
Proof. done. Qed.

(** The text does not depend on the order of the pairs. *)
Lemma write_canon P d v : wfG P d v -> writeCanonicalJSON (canon v) = writeCanonicalJSON v.
Proof.
  revert d. induction v as [| | | |l IH|m IH] using json_rect'; intros d Hv; try done.
  - apply wf_arr_inv in Hv as (d' & -> & Hl). simpl. f_equal. f_equal. rewrite <- list_fmap_compose.
    apply fmap_Forall_ext. eapply Forall_impl2; [exact IH|exact Hl|]. intros x Hx1 Hx2. by eapply Hx1.
  - apply wf_obj_inv in Hv as (d' & -> & Hnd & Hm). rewrite canon_obj, !write_obj. f_equal. f_equal. f_equal.
    rewrite !sortKeys_onValue, <- list_fmap_compose. rewrite (sortKeys_twice m) by done.
    apply fmap_Forall_ext. rewrite sortKeys_perm. eapply Forall_impl2; [exact IH|exact Hm|].
    intros p Hp1 [_ Hp2]. unfold compose, onValue. simpl. f_equal. by eapply Hp1.
Qed.

(** The first byte of a written value. *)
Lemma write_head v t :
  writeCanonicalJSON v = Some t ->
  exists c u, t = String c u /\ skipSpace t = t /\ code c <> 93 /\ 32 < code c < 128.
Proof.
  assert (forall c u, 32 < code c < 128 -> code c <> 93 ->
    exists c' u', String c u = String c' u' /\ skipSpace (String c u) = String c u
      /\ code c' <> 93 /\ 32 < code c' < 128) as Hgo.
  { intros c u H1 H2. exists c, u. split_and!; try done; try lia. cbn [skipSpace].
    rewrite !(proj2 (Z.eqb_neq (code c) _)) by lia. done. }
  destruct v as [|b|n|s|l|m]; intros H.
  - injection H as <-. by apply Hgo.
  - injection H as <-. destruct b; by apply Hgo.
  - simpl in H. destruct (numOk n) eqn:Hn; [|done]. injection H as <-.
    apply bool_decide_eq_true, scanNumber_again in Hn as (_ & Hf & Hne).
    destruct n as [|c n]; [done|]. simpl in Hf. apply Hgo; lia.
  - injection H as <-. by apply Hgo.
  - simpl in H. destruct (allSome _); [|done]. injection H as <-. by apply Hgo.
  - rewrite write_obj in H. destruct (allSome _); [|done]. injection H as <-. by apply Hgo.
Qed.

(** ** Reading back *)

(** The decoder reads [v] from its text, whatever follows. *)
Definition reads (d : nat) (v : json) (t : string) : Prop :=
  forall rest fuel, stops rest -> (2 * String.length t <= fuel)%nat ->
    parseValue (S fuel) d (t +:+ rest) = Some (v, rest).

Lemma commaSep_cons x y l : commaSep (x :: y :: l) = x +:+ "," +:+ commaSep (y :: l).
Proof. done. Qed.

Lemma length_pos_commaSep x l : (String.length x <= String.length (commaSep (x :: l)))%nat.
Proof. destruct l; [done|]. rewrite commaSep_cons, !string_app_length. lia. Qed.

Lemma parseItems_S fuel d s :
  parseItems (S fuel) d s =
    match parseValue fuel d s with
    | None => None
    | Some (v, rest) =>
        let rest := skipSpace rest in
        match CutPrefix rest "]", CutPrefix rest "," with
        | Some rest, _ => Some ([v], rest)
        | _, Some rest => match parseItems fuel d rest with
                          | Some (l, rest) => Some (v :: l, rest)
                          | None => None
                          end
        | _, _ => None
        end
    end.
Proof. reflexivity. Qed.

Lemma parseItems_text d l items fuel rest :
  Forall2 (reads d) l items -> l <> [] -> (2 * String.length (commaSep items) + 1 <= fuel)%nat ->
  parseItems (S fuel) d (commaSep items +:+ "]" +:+ rest) = Some (l, rest).
Proof.
  intros Hl. revert fuel. induction Hl as [|v t l items Hv Hl IH]; intros fuel Hne Hf; [done|].
  destruct Hl as [|v' t' l items Hv' Hl].
  - cbn [commaSep] in *. destruct fuel as [|fuel]; [lia|]. rewrite parseItems_S.
    rewrite (Hv ("]" +:+ rest) fuel ltac:(done) ltac:(lia)). done.
  - rewrite commaSep_cons, !string_app_length in *. rewrite <- !string_app_assoc. cbn [String.length] in Hf.
    destruct fuel as [|fuel]; [lia|]. rewrite parseItems_S.
    rewrite (Hv ("," +:+ commaSep (t' :: items) +:+ "]" +:+ rest) fuel ltac:(done) ltac:(lia)).
    cbv zeta. change (skipSpace ("," +:+ commaSep (t' :: items) +:+ "]" +:+ rest))
      with ("," +:+ commaSep (t' :: items) +:+ "]" +:+ rest).
    change (CutPrefix ("," +:+ commaSep (t' :: items) +:+ "]" +:+ rest) "]") with (@None string).
    change (CutPrefix ("," +:+ commaSep (t' :: items) +:+ "]" +:+ rest) ",")
      with (Some (commaSep (t' :: items) +:+ "]" +:+ rest)).
    cbv iota beta zeta. rewrite (IH fuel ltac:(done) ltac:(lia)). done.
Qed.

Lemma putKey_new {A} (m : list (string * A)) k v : k ∉ (fst <$> m) -> putKey m k v = m ++ [(k, v)].
Proof.
  induction m as [|[k' v'] m IH]; intros Hk; [done|]. simpl in *. rewrite bool_decide_false by set_solver.
  rewrite IH by set_solver. done.
Qed.

(** The text of a member with a valid key. *)
Lemma parseMember_text d k v t rest fuel m :
  valid k -> reads d v t -> stops rest -> (2 * String.length t <= fuel)%nat ->
  parseMembers (S (S fuel)) d m ((encodeString k +:+ ":" +:+ t) +:+ rest)
  = let m := putKey m k v in
    let rest := skipSpace rest in
    match CutPrefix rest "}", CutPrefix rest "," with
    | Some rest, _ => Some (m, rest)
    | _, Some rest => parseMembers (S fuel) d m rest
    | _, _ => None
    end.
Proof.
  intros Hk Hv Hs Hf. rewrite <- !string_app_assoc.
  destruct (decode_encodeString k (":" +:+ t +:+ rest)) as (u & -> & Hu).
  rewrite (valid_toValid k Hk) in Hu. remember (S fuel) as f1 eqn:Ef. cbn [parseMembers].
  change (CutPrefix (skipSpace (String (ascii_of_nat 34) u)) quote) with (Some u). cbv iota beta.
  rewrite Hu. change (CutPrefix (skipSpace (":" +:+ t +:+ rest)) ":") with (Some (t +:+ rest)).
  cbv iota beta. subst f1. rewrite (Hv rest fuel Hs Hf). done.
Qed.

(** A member of an object and its text. *)
Definition readsMember (d : nat) (p : string * json) (item : string) : Prop :=
  valid (fst p) /\ exists t, item = encodeString (fst p) +:+ ":" +:+ t /\ reads d (snd p) t.

Lemma parseMembers_text d m items fuel rest acc :
  Forall2 (readsMember d) m items -> m <> [] -> NoDup (fst <$> acc ++ m) ->
  (2 * String.length (commaSep items) + 1 <= fuel)%nat ->
  parseMembers (S fuel) d acc (commaSep items +:+ "}" +:+ rest) = Some (acc ++ m, rest).
Proof.
  intros Hm. revert fuel acc.
  induction Hm as [|[k v] item m items (Hk & t & -> & Hv) Hm IH]; intros fuel acc Hne Hnd Hf; [done|].
  cbn [fst snd] in *.
  assert (k ∉ (fst <$> acc)) as Hknew.
  { rewrite fmap_app, fmap_cons in Hnd. apply NoDup_app in Hnd as (_ & Hd & _). intros Hin.
    apply (Hd k Hin). set_solver. }
  destruct Hm as [|[k' v'] item' m items Hp' Hm].
  - cbn [commaSep] in *. rewrite !string_app_length in Hf. destruct fuel as [|fuel]; [lia|].
    rewrite (parseMember_text d k v t); [|done..|lia]. cbv zeta. rewrite putKey_new by done. done.
  - rewrite commaSep_cons, !string_app_length in *. rewrite <- (string_app_assoc _ ("," +:+ _)), <- (string_app_assoc ",").
    cbn [String.length] in Hf. destruct fuel as [|fuel]; [lia|]. rewrite (parseMember_text d k v t); [|done..|lia].
    cbv zeta. change (skipSpace ("," +:+ commaSep (item' :: items) +:+ "}" +:+ rest))
      with ("," +:+ commaSep (item' :: items) +:+ "}" +:+ rest).
    change (CutPrefix ("," +:+ commaSep (item' :: items) +:+ "}" +:+ rest) "}") with (@None string).
    change (CutPrefix ("," +:+ commaSep (item' :: items) +:+ "}" +:+ rest) ",")
      with (Some (commaSep (item' :: items) +:+ "}" +:+ rest)).
    cbv iota beta zeta. rewrite putKey_new by done. rewrite IH; [by rewrite <- app_assoc|done| |lia].
    by rewrite <- app_assoc.
Qed.

(** A written value starts neither with space nor with a closing bracket. *)
Lemma commaSep_head v t items :
  writeCanonicalJSON v = Some t ->
  forall rest, CutPrefix (skipSpace (commaSep (t :: items) +:+ rest)) "]" = None.
Proof.
  intros Ht rest. destruct (write_head v t Ht) as (c & u & -> & Hs & Hc & _).
  assert (exists w, commaSep (String c u :: items) +:+ rest = String c w) as [w ->].
  { destruct items; [by eexists|]. rewrite commaSep_cons. simpl. by eexists. }
  cbn [skipSpace] in *. case_if.
  - apply (f_equal String.length) in Hs.
    assert (forall x, (String.length (skipSpace x) <= String.length x)%nat) as Hle.
    { intros x. induction x as [|b x IH]; [done|]. cbn [skipSpace]. case_if; simpl; lia. }
    specialize (Hle u). simpl in Hs. lia.
  - cbn [CutPrefix]. destruct (Ascii.eqb_spec "]" c) as [<-|]; [done|done].
Qed.

Lemma parseValue_number fuel d n rest :
  numOk n = true -> stops rest -> parseValue (S fuel) d (n +:+ rest) = Some (JNum n, rest).
Proof.
  intros Hn Hr. apply bool_decide_eq_true, scanNumber_again in Hn as (Hagain & Hf & Hne).
  destruct n as [|c n]; [done|]. specialize (Hagain rest Hr). simpl String.append in *.
  cbn [parseValue skipSpace]. unfold firstByte in Hf.
  rewrite !(proj2 (Z.eqb_neq (code c) 32)), !(proj2 (Z.eqb_neq (code c) 9)),
    !(proj2 (Z.eqb_neq (code c) 10)), !(proj2 (Z.eqb_neq (code c) 13)) by lia. cbn [orb].
  rewrite (proj2 (Z.eqb_neq (code c) 34)), (proj2 (Z.eqb_neq (code c) 91)),
    (proj2 (Z.eqb_neq (code c) 123)) by lia.
  assert ((code c =? 45) || isDigit c = true) as ->; [|by rewrite Hagain].
  unfold isDigit. rewrite orb_true_iff, andb_true_iff, Z.eqb_eq, !Z.leb_le. lia.
Qed.

Lemma parseValue_arr fuel d rest :
  parseValue (S fuel) (S d) ("[" +:+ rest) =
    match CutPrefix (skipSpace rest) "]" with
    | Some rest => Some (JArr [], rest)
    | None => match parseItems fuel d rest with
              | Some (l, rest) => Some (JArr l, rest)
              | None => None
              end
    end.
Proof. reflexivity. Qed.

Lemma parseValue_obj fuel d rest :
  parseValue (S fuel) (S d) ("{" +:+ rest) =
    match CutPrefix (skipSpace rest) "}" with
    | Some rest => Some (JObj [], rest)
    | None => match parseMembers fuel d [] rest with
              | Some (m, rest) => Some (JObj m, rest)
              | None => None
              end
    end.
Proof. reflexivity. Qed.

Lemma parseValue_str fuel d s rest :
  parseValue (S fuel) d (encodeString s +:+ rest) = Some (JStr (toValid s), rest).
Proof.
  destruct (decode_encodeString s rest) as (t & -> & Ht).
  change (parseValue (S fuel) d (String (ascii_of_nat 34) t))
    with (match decodeChars (String.length t) t with
          | Some (t, rest) => Some (JStr t, rest)
          | None => None
          end). by rewrite Ht.
Qed.

(** The items of a written array and the members of a written object. *)
Lemma write_items d l items :
  Forall (wf d) l ->
  Forall (fun v => forall d, wf d v -> canon v = v ->
            forall t, writeCanonicalJSON v = Some t -> reads d v t) l ->
  canon <$> l = l -> writeCanonicalJSON <$> l = Some <$> items -> Forall2 (reads d) l items.
Proof.
  intros Hwf Hl. revert items. induction Hl as [|v l Hv Hl IH]; intros items Hc Hw.
  - destruct items; [constructor|done].
  - destruct items as [|t items]; [done|]. apply Forall_cons in Hwf as [Hwv Hwf].
    rewrite fmap_cons in Hc. injection Hc as Hcv Hc. rewrite !fmap_cons in Hw. injection Hw as Hwt Hw.
    constructor; [by apply Hv|by apply IH].
Qed.

Lemma write_members d m items :
  Forall (fun p => valid (fst p) /\ wf d (snd p)) m ->
  Forall (fun p => forall d, wf d (snd p) -> canon (snd p) = snd p ->
            forall t, writeCanonicalJSON (snd p) = Some t -> reads d (snd p) t) m ->
  onValue canon <$> m = m -> member <$> (onValue writeCanonicalJSON <$> m) = Some <$> items ->
  Forall2 (readsMember d) m items.
Proof.
  intros Hwf Hm. revert items. induction Hm as [|[k v] m Hv Hm IH]; intros items Hc Hw.
  - destruct items; [constructor|done].
  - destruct items as [|t items]; [done|]. apply Forall_cons in Hwf as [[Hk Hwv] Hwf]. cbn [fst snd] in *.
    rewrite fmap_cons in Hc. injection Hc as Hcv Hc. rewrite !fmap_cons in Hw. injection Hw as Hwt Hw.
    constructor; [|by apply IH]. unfold member in Hwt. simpl in Hwt.
    destruct (writeCanonicalJSON v) as [u|] eqn:Eu; [|done]. injection Hwt as <-.
    split; [done|]. exists u. split; [done|]. by apply Hv.
Qed.

Lemma reads_write v : forall d, wf d v -> canon v = v ->
  forall t, writeCanonicalJSON v = Some t -> reads d v t.
Proof.
  induction v as [|b|n|s|l IH|m IH] using json_rect'; intros d Hwf Hc t Ht rest fuel Hr Hf.
  - injection Ht as <-. reflexivity.
  - injection Ht as <-. by destruct b.
  - simpl in Ht. destruct (numOk n) eqn:Hn; [|done]. injection Ht as <-. by apply parseValue_number.
  - injection Ht as <-. inversion Hwf as [| | |d' s' Hs| |]; subst. rewrite parseValue_str.
    by rewrite valid_toValid.
  - apply wf_arr_inv in Hwf as (d' & -> & Hl). simpl in Ht.
    destruct (allSome _) as [items|] eqn:Ei; [|done]. injection Ht as <-. apply allSome_Some in Ei.
    injection Hc as Hc. pose proof (write_items d' l items Hl IH Hc Ei) as Hi.
    change (String "[" (commaSep items +:+ "]")) with ("[" +:+ commaSep items +:+ "]") in *.
    rewrite !string_app_length in Hf. rewrite <- !string_app_assoc, parseValue_arr.
    destruct l as [|v l]; [destruct items; [|done]; reflexivity|].
    destruct items as [|t items]; [done|]. rewrite !fmap_cons in Ei. injection Ei as Et _.
    rewrite (commaSep_head v t items Et). cbn [String.length] in Hf. destruct fuel as [|fuel]; [lia|].
    rewrite (parseItems_text d' (v :: l) (t :: items) fuel rest Hi ltac:(done) ltac:(lia)). done.
  - apply wf_obj_inv in Hwf as (d' & -> & Hnd & Hm). rewrite canon_obj in Hc. injection Hc as Hc.
    assert (sortKeys m = m) as Hsort.
    { rewrite <- Hc at 1. rewrite sortKeys_twice; [done|]. by rewrite fst_onValue. }
    rewrite sortKeys_onValue, Hsort in Hc. rewrite write_obj, sortKeys_onValue, Hsort in Ht.
    destruct (allSome _) as [items|] eqn:Ei; [|done]. injection Ht as <-. apply allSome_Some in Ei.
    pose proof (write_members d' m items Hm IH Hc Ei) as Hi.
    change (String "{" (commaSep items +:+ "}")) with ("{" +:+ commaSep items +:+ "}") in *.
    rewrite !string_app_length in Hf. rewrite <- !string_app_assoc, parseValue_obj.
    destruct Hi as [|[k v] item m items (Hk & u & -> & Hu) Hi]; [reflexivity|].
    cbn [fst snd] in *. assert (exists w, commaSep ((encodeString k +:+ ":" +:+ u) :: items) +:+ "}" +:+ rest
              = String (ascii_of_nat 34) w) as [w Ew].
    { destruct items; [by eexists|]. rewrite commaSep_cons. by eexists. }
    assert (CutPrefix (skipSpace (commaSep ((encodeString k +:+ ":" +:+ u) :: items) +:+ "}" +:+ rest)) "}"
              = None) as -> by (rewrite Ew; reflexivity). cbn [String.length] in Hf.
    destruct fuel as [|fuel]; [lia|]. cbn [fst] in *.
    rewrite (parseMembers_text d' ((k, v) :: m) ((encodeString k +:+ ":" +:+ u) :: items) fuel rest []);
      [done| |done|done|lia].
    constructor; [|done]. split; [done|]. by exists u.
Qed.

(** ** What the decoder yields *)

Definition membersOk (d : nat) (m : list (string * json)) : Prop :=
  NoDup (fst <$> m) /\ Forall (fun p => valid (fst p) /\ wf d (snd p)) m.

Lemma putKey_keys {A} (m : list (string * A)) k v :
  forall x, x ∈ (fst <$> putKey m k v) <-> x ∈ (fst <$> m) \/ x = k.
Proof.
  induction m as [|[k' v'] m IH]; intros x; simpl; [set_solver|].
  case_bool_decide as E; simpl; [subst; set_solver|]. rewrite !elem_of_cons, IH. tauto.
Qed.

Lemma putKey_ok d m k v : membersOk d m -> valid k -> wf d v -> membersOk d (putKey m k v).
Proof.
  intros [Hnd Hm] Hk Hv. induction m as [|[k' v'] m IH]; simpl.
  - split; [apply NoDup_singleton|by repeat constructor].
  - rewrite fmap_cons in Hnd. apply NoDup_cons in Hnd as [Hn Hnd]. apply Forall_cons in Hm as [Hp Hm].
    case_bool_decide as E; [subst; split; simpl; [by constructor|by constructor]|].
    destruct (IH Hnd Hm) as [IH1 IH2]. split; [|by constructor]. simpl. constructor; [|done].
    rewrite putKey_keys. simpl in *. intros [?| ->]; done.
Qed.

Lemma parse_wf fuel :
  (forall d s v rest, parseValue fuel d s = Some (v, rest) -> wf d v)
  /\ (forall d s l rest, parseItems fuel d s = Some (l, rest) -> Forall (wf d) l)
  /\ (forall d m s m' rest, membersOk d m -> parseMembers fuel d m s = Some (m', rest) -> membersOk d m').
Proof.
  induction fuel as [|fuel (IHv & IHi & IHm)]; [by split_and!|]. split_and!.
  - intros d s v rest H. cbn [parseValue] in H. destruct (skipSpace s) as [|c t]; [done|].
    destruct (code c =? 34).
    { destruct (decodeChars _ t) as [[u r]|] eqn:E; [|done]. simplify_eq. constructor. by eapply decodeChars_valid. }
    destruct (code c =? 91).
    { destruct d as [|d]; [done|]. destruct (CutPrefix _ "]"); [simplify_eq; by constructor|].
      destruct (parseItems fuel d t) as [[l r]|] eqn:E; [|done]. simplify_eq. constructor. by eapply IHi. }
    destruct (code c =? 123).
    { destruct d as [|d]; [done|]. destruct (CutPrefix _ "}"); [simplify_eq; by repeat constructor|].
      destruct (parseMembers fuel d [] t) as [[l r]|] eqn:E; [|done]. simplify_eq.
      apply IHm in E as [? ?]; [by constructor|]. split; constructor. }
    destruct (_ || _).
    { destruct (scanNumber _) as [[n r]|] eqn:E; [|done]. simplify_eq. constructor. by eapply scanNumber_numOk. }
    destruct (CutPrefix _ "null"); [simplify_eq; constructor|].
    destruct (CutPrefix _ "true"); [simplify_eq; constructor|].
    destruct (CutPrefix _ "false"); simplify_eq. constructor.
  - intros d s l rest H. rewrite parseItems_S in H. destruct (parseValue fuel d s) as [[v r]|] eqn:E; [|done].
    apply IHv in E. cbv zeta in H. destruct (CutPrefix _ "]"); [simplify_eq; by repeat constructor|].
    destruct (CutPrefix _ ",") as [r1|]; [|done].
    destruct (parseItems fuel d r1) as [[l1 r2]|] eqn:E1; [|done]. simplify_eq.
    constructor; [done|by eapply IHi].
  - intros d m s m' rest Hm H. cbn [parseMembers] in H. destruct (CutPrefix _ quote) as [r|]; [|done].
    destruct (decodeChars _ r) as [[k r1]|] eqn:Ek; [|done]. apply decodeChars_valid in Ek.
    destruct (CutPrefix _ ":") as [r2|]; [|done].
    destruct (parseValue fuel d r2) as [[v r3]|] eqn:Ev; [|done]. apply IHv in Ev.
    pose proof (putKey_ok d m k v Hm Ek Ev) as Hm'.
    destruct (CutPrefix _ "}"); [by simplify_eq|]. destruct (CutPrefix _ ",") as [r4|]; [|done].
    by eapply IHm.
Qed.

Lemma decodeOne_wf raw v : decodeOne raw = Some v -> wf maxNestingDepth v.
Proof.
  unfold decodeOne. destruct (parseValue _ _ raw) as [[w rest]|] eqn:E; [|done].
  case_bool_decide; [|done]. intros. simplify_eq. by eapply parse_wf.
Qed.

(** A well-formed value can be written. *)
Lemma write_succeeds d v : wf d v -> exists t, writeCanonicalJSON v = Some t.
Proof.
  revert d. induction v as [|b|n|s|l IH|m IH] using json_rect'; intros d Hv; try (by eexists).
  - inversion Hv as [| |d' n' Hn| | |]; subst. simpl. rewrite Hn. by eexists.
  - apply wf_arr_inv in Hv as (d' & -> & Hl).
    assert (exists items, allSome (writeCanonicalJSON <$> l) = Some items) as [items E]; [|simpl; rewrite E; by eexists].
    induction IH as [|v l Hv _ IH']; [by eexists|]. apply Forall_cons in Hl as [Hwv Hl].
    destruct (IH' Hl) as [items E]. destruct (Hv d' Hwv) as [t Et]. rewrite fmap_cons. simpl. rewrite Et, E.
    by eexists.
  - apply wf_obj_inv in Hv as (d' & -> & Hnd & Hm). rewrite write_obj, sortKeys_onValue.
    assert (exists items, allSome (member <$> (onValue writeCanonicalJSON <$> sortKeys m)) = Some items) as [items E];
      [|rewrite E; by eexists].
    rewrite <- sortKeys_perm in IH, Hm.
    induction IH as [|p l Hp _ IH']; [by eexists|]. apply Forall_cons in Hm as [[_ Hwp] Hm].
    destruct (IH' Hm) as [items E]. destruct (Hp d' Hwp) as [t Et]. rewrite !fmap_cons. simpl.
    unfold member at 1. simpl. rewrite Et, E. by eexists.
Qed.

(** Reading back a canonical text. *)
Lemma decodeOne_write v t :
  wf maxNestingDepth v -> writeCanonicalJSON v = Some t -> decodeOne t = Some (canon v).
Proof.
  intros Hv Ht. rewrite <- (write_canon _ _ _ Hv) in Ht. unfold decodeOne.
  pose proof (reads_write (canon v) _ (canon_wf _ _ _ Hv) (canon_idemp _ _ _ Hv) t Ht "" (2 * String.length t + 1)%nat
    I ltac:(lia)) as H. rewrite string_app_nil_r in H.
  replace (2 * String.length t + 2)%nat with (S (2 * String.length t + 1)) by lia. rewrite H. done.
Qed.

Lemma write_not_blank v t : writeCanonicalJSON v = Some t -> isBlank t = false.
Proof.
  intros Ht. destruct (write_head v t Ht) as (c & u & -> & _ & _ & Hc).
  unfold isBlank. apply bool_decide_eq_false. cbn [String.length trimLeft].
  assert (cutSpace (String c u) = None) as ->; [|done]. unfold cutSpace.
  rewrite !(proj2 (Z.eqb_neq (code c) _)) by lia. rewrite (proj2 (Z.leb_gt (code c) 13)) by lia.
  rewrite !andb_false_r. simpl. destruct u as [|b [|e u]]; done.
Qed.

(** ** Canonical forms and values *)

Lemma same_canon P v : forall d v', wfG P d v -> sameValue v v' -> canon v = canon v'.
Proof.
  induction v as [| | | |l IH|m IH] using json_rect'; intros d v' Hv Hs; try by inversion Hs.
  - apply wf_arr_inv in Hv as (d' & -> & Hl). inversion Hs as [| | | |l1 l' Hl'|]; subst. simpl. f_equal.
    clear Hs. revert l' Hl'. induction IH as [|v l Hv _ IH']; intros l' Hl'; inversion Hl'; subst; [done|].
    apply Forall_cons in Hl as [Hwv Hl]. rewrite !fmap_cons. f_equal; [by eapply Hv|by apply IH'].
  - apply wf_obj_inv in Hv as (d' & -> & Hnd & Hm). inversion Hs as [| | | | |m0 m1 m' Hp Hm']; subst.
    rewrite !canon_obj. f_equal. rewrite (sortKeys_unique _ (onValue canon <$> m1)).
    + f_equal. rewrite Hp in IH, Hm. clear Hs Hp Hnd. revert m' Hm'.
      induction IH as [|p l Hpv _ IH']; intros m' Hm'; inversion Hm' as [|p' q' l1 l2 [Hk Hv] Hm2]; subst; [done|].
      apply Forall_cons in Hm as [[_ Hwp] Hm]. rewrite !fmap_cons. f_equal; [|by apply IH'].
      unfold onValue. f_equal; [done|]. by eapply Hpv.
    + by rewrite fst_onValue.
    + by rewrite Hp.
Qed.

Lemma canon_same v : forall v', canon v = canon v' -> sameValue v v'.
Proof.
  induction v as [| | | |l IH|m IH] using json_rect'; intros v' E; destruct v' as [| | | |l'|m'];
    try discriminate E; try (injection E as ->; constructor); try constructor.
  - injection E as E. revert l' E. induction IH as [|v l Hv _ IH']; intros [|v' l'] E; try done.
    rewrite !fmap_cons in E. injection E as E1 E2. constructor; [by apply Hv|by apply IH'].
  - rewrite !canon_obj in E. injection E as E.
    assert (onValue canon <$> m' ≡ₚ onValue canon <$> m) as Hp.
    { rewrite <- (sortKeys_perm (onValue canon <$> m')), <- E. apply sortKeys_perm. }
    apply Permutation_map_inv in Hp as (m1 & Em & Hp).
    apply (same_obj _ m1); [done|]. rewrite Hp in IH. clear E Hp. revert m' Em.
    induction IH as [|p l Hpv _ IH']; intros [|q m'] Em; try done.
    cbn in Em. injection Em as E1 E2 E3. constructor; [|by apply IH'].
    split; [done|]. by apply Hpv.
Qed.

(** ** Documents of any depth *)

(** A larger depth does not change what is read. *)
Lemma parse_mono fuel :
  (forall d s r, parseValue fuel d s = Some r -> parseValue fuel (S d) s = Some r)
  /\ (forall d s r, parseItems fuel d s = Some r -> parseItems fuel (S d) s = Some r)
  /\ (forall d m s r, parseMembers fuel d m s = Some r -> parseMembers fuel (S d) m s = Some r).
Proof.
  induction fuel as [|fuel (IHv & IHi & IHm)]; [by split_and!|]. split_and!.
  - intros d s r H. cbn [parseValue] in *. destruct (skipSpace s) as [|c t]; [done|].
    destruct (code c =? 34); [done|]. destruct (code c =? 91).
    { destruct d as [|d]; [done|]. destruct (CutPrefix _ "]"); [done|].
      destruct (parseItems fuel d t) as [[l r']|] eqn:E; [|done]. by rewrite (IHi _ _ _ E). }
    destruct (code c =? 123).
    { destruct d as [|d]; [done|]. destruct (CutPrefix _ "}"); [done|].
      destruct (parseMembers fuel d [] t) as [[l r']|] eqn:E; [|done]. by rewrite (IHm _ _ _ _ E). }
    done.
  - intros d s r H. rewrite parseItems_S in *. destruct (parseValue fuel d s) as [[v r1]|] eqn:E; [|done].
    rewrite (IHv _ _ _ E). cbv zeta in *. destruct (CutPrefix _ "]"); [done|].
    destruct (CutPrefix _ ",") as [r2|]; [|done].
    destruct (parseItems fuel d r2) as [[l r3]|] eqn:E1; [|done]. by rewrite (IHi _ _ _ E1).
  - intros d m s r H. cbn [parseMembers] in *. destruct (CutPrefix _ quote) as [r1|]; [|done].
    destruct (decodeChars _ r1) as [[k r2]|]; [|done]. destruct (CutPrefix _ ":") as [r3|]; [|done].
    destruct (parseValue fuel d r3) as [[v r4]|] eqn:E; [|done]. rewrite (IHv _ _ _ E). cbv zeta in *.
    destruct (CutPrefix _ "}"); [done|]. destruct (CutPrefix _ ",") as [r5|]; [|done]. by apply IHm.
Qed.

Lemma parseValue_deeper fuel d k s r : parseValue fuel d s = Some r -> parseValue fuel (d + k) s = Some r.
Proof.
  induction k as [|k IH]; intros H; [by rewrite Nat.add_0_r|]. rewrite Nat.add_succ_r.
  by apply parse_mono, IH.
Qed.

(** The writer checks the number literals. *)
Lemma write_wf v : forall d t, shape d v -> writeCanonicalJSON v = Some t -> wf d v.
Proof.
  induction v as [|b|n|s|l IH|m IH] using json_rect'; intros d t Hv Ht; try (inversion Hv; subst; by constructor).
  - constructor. simpl in Ht. by destruct (numOk n).
  - apply wf_arr_inv in Hv as (d' & -> & Hl). constructor. simpl in Ht.
    destruct (allSome _) as [items|] eqn:E; [|done]. apply allSome_Some in E. clear Ht. revert items E.
    induction IH as [|v l Hv _ IH']; intros items E; [constructor|]. apply Forall_cons in Hl as [Hsv Hl].
    destruct items as [|u items]; [done|]. rewrite !fmap_cons in E. injection E as E1 E2.
    constructor; [by eapply Hv|by eapply IH'].
  - apply wf_obj_inv in Hv as (d' & -> & Hnd & Hm). constructor; [done|]. rewrite write_obj, sortKeys_onValue in Ht.
    destruct (allSome _) as [items|] eqn:E; [|done]. apply allSome_Some in E. clear Ht Hnd.
    rewrite <- sortKeys_perm in IH, Hm |- *. revert items E.
    induction IH as [|p l Hv _ IH']; intros items E; [constructor|]. apply Forall_cons in Hm as [[Hk Hsv] Hm].
    destruct items as [|u items]; [done|]. rewrite !fmap_cons in E. injection E as E1 E2.
    unfold member in E1. simpl in E1. destruct (writeCanonicalJSON (snd p)) as [w|] eqn:Ew; [|done].
    constructor; [split; [done|by eapply Hv]|by eapply IH'].
Qed.

(** What is read back from the text of a document. *)
Lemma decodeOne_doc d v t w :
  shape d v -> writeCanonicalJSON v = Some t -> decodeOne t = Some w -> w = canon v.
Proof.
  intros Hs Ht Hw. pose proof (write_wf v d t Hs Ht) as Hv. unfold decodeOne in Hw.
  destruct (parseValue _ _ t) as [[w' rest]|] eqn:E; [|done]. case_bool_decide as Hr; [|done]. simplify_eq.
  apply (parseValue_deeper _ _ d) in E.
  assert (wf (maxNestingDepth + d) v) as Hv' by (apply (wfG_mono _ _ _ (fun n H => H) d); [done|lia]).
  rewrite <- (write_canon _ _ _ Hv) in Ht.
  pose proof (reads_write (canon v) _ (canon_wf _ _ _ Hv') (canon_idemp _ _ _ Hv) t Ht "" (2 * String.length t + 1)%nat
    I ltac:(lia)) as R. rewrite string_app_nil_r in R.
  replace (2 * String.length t + 2)%nat with (S (2 * String.length t + 1)) in E by lia. congruence.
Qed.

Lemma same_refl v : sameValue v v.
Proof. by apply canon_same. Qed.

(** The canonical form of JSON text is exact.  Canonicalizing a canonical text gives
    it back unchanged, and two texts have the same canonical form exactly when the
    decoder reads the same value from both: white space, escapes and the order of keys
    do not matter, and any difference in the value shows. *)
Theorem canonical_json_exact raw out :
  CanonicalJSONRaw raw = Some out -> isBlank raw = false ->
  CanonicalJSONRaw out = Some out
  /\ forall raw', isBlank raw' = false ->
       (CanonicalJSONRaw raw' = Some out
        <-> exists v v', decodeOne raw = Some v /\ decodeOne raw' = Some v' /\ sameValue v v').
Proof.
  unfold CanonicalJSONRaw. intros H Hb. rewrite Hb in H.
  destruct (decodeOne raw) as [v|] eqn:Ev; [|done]. cbn [mbind option_bind] in H.
  apply decodeOne_wf in Ev as Hv. split.
  - rewrite (write_not_blank _ _ H), (decodeOne_write _ _ Hv H). cbn [mbind option_bind].
    by rewrite (write_canon _ _ _ Hv).
  - intros raw' Hb'. rewrite Hb'. split.
    + destruct (decodeOne raw') as [v'|] eqn:Ev'; [|done]. cbn [mbind option_bind]. intros H'.
      apply decodeOne_wf in Ev' as Hv'. exists v, v'. split_and!; [done..|]. apply canon_same.
      pose proof (decodeOne_write _ _ Hv H) as D. rewrite (decodeOne_write _ _ Hv' H') in D. congruence.
    + intros (v0 & v' & [= <-] & Ev' & Hs). apply decodeOne_wf in Ev' as Hv'. rewrite Ev'.
      cbn [mbind option_bind].
      by rewrite <- H, <- (write_canon _ _ _ Hv), (same_canon _ _ _ _ Hv Hs), (write_canon _ _ _ Hv').
Qed.

(** Keys in another order, with spaces and an escape. *)
Lemma canonical_json_exact_witness :
  CanonicalJSONRaw (text "{'a':[1,true],'b':'x'}") = Some (text "{'a':[1,true],'b':'x'}")
  /\ CanonicalJSONRaw (text "{'b':'\u0078','a':[1, true]}") = Some (text "{'a':[1,true],'b':'x'}").
Proof.
  assert (CanonicalJSONRaw (text "{ 'b' : 'x' , 'a' : [1,true] }") = Some (text "{'a':[1,true],'b':'x'}"))
    as H by (vm_compute; reflexivity).
  destruct (canonical_json_exact _ _ H ltac:(vm_compute; reflexivity)) as [H1 H2]. split; [exact H1|].
  apply H2; [vm_compute; reflexivity|].
  exists (JObj [("b", JStr "x"); ("a", JArr [JNum "1"; JBool true])]),
    (JObj [("b", JStr "x"); ("a", JArr [JNum "1"; JBool true])]).
  split; [vm_compute; reflexivity|]. split; [vm_compute; reflexivity|]. apply canon_same. reflexivity.
Defined.

End Json.
