(* ===== verification/Sha256.v ===== *)
(** * SHA-256

    The hash and message authentication code of Go's [crypto/sha256] and
    [crypto/hmac], on byte strings, with [hex.EncodeToString]: 32-bit words are
    numbers below [2^32].  Collision resistance is not assumed; theorems that rest on
    it exhibit a collision instead. *)

From Stdlib Require Import Strings.Ascii.
From S2P Require Import Prelude GoStrings.

Import GoStr.

Module Sha256.

#[local] Arguments String.append !_ _ / : simpl nomatch.

Fixpoint bytesOf (s : string) : list Z :=
  match s with EmptyString => [] | String c s => code c :: bytesOf s end.

Definition stringOf (l : list Z) : string :=
  foldr (fun n acc => String (ascii_of_nat (Z.to_nat n)) acc) "" l.

Definition mask : Z := 2 ^ 32 - 1.
Definition add32 (a b : Z) : Z := Z.land (a + b) mask.
Definition rotr (x n : Z) : Z := Z.lor (Z.shiftr x n) (Z.land (Z.shiftl x (32 - n)) mask).

(** The primes below a bound, by trial division. *)
Definition isPrime (n : nat) : bool := forallb (fun d => negb (Nat.eqb (n mod d) 0)) (seq 2 (n - 2)).
Definition primes (bound : nat) : list Z := Z.of_nat <$> List.filter isPrime (seq 2 (bound - 2)).

(** The integer cube root, bit by bit from the given one. *)
Fixpoint cubeRoot (bit : nat) (n root : Z) : Z :=
  let larger := root + 2 ^ Z.of_nat bit in
  let root := if larger ^ 3 <=? n then larger else root in
  match bit with O => root | S bit => cubeRoot bit n root end.

(** The first 32 bits of the fractional parts of the cube roots of the first 64 primes,
    and of the square roots of the first 8. *)
Definition roundConstants : list Z :=
  Eval vm_compute in (fun p => Z.land (cubeRoot 40 (p * 2 ^ 96) 0) mask) <$> primes 312.

Definition initialState : list Z :=
  Eval vm_compute in (fun p => Z.land (Z.sqrt (p * 2 ^ 64)) mask) <$> primes 20.

(** The bytes of a number, most significant first. *)
Fixpoint bigEndian (n : nat) (z : Z) : list Z :=
  match n with
  | O => []
  | S n => Z.land (Z.shiftr z (8 * Z.of_nat n)) 255 :: bigEndian n z
  end.

(** The message with the bit [1], zeros and its length in bits. *)
Definition pad (m : list Z) : list Z :=
  let n := zlen m in
  m ++ [0x80] ++ replicate (Z.to_nat ((55 - n) mod 64)) 0 ++ bigEndian 8 (8 * n).

Fixpoint words (fuel : nat) (l : list Z) : list Z :=
  match fuel, l with
  | S fuel, a :: b :: c :: d :: l => (((a * 256 + b) * 256 + c) * 256 + d) :: words fuel l
  | _, _ => []
  end.

(** The schedule of a block, last word first. *)
Definition nextWord (w : list Z) : Z :=
  let w2 := nth 1 w 0 in let w7 := nth 6 w 0 in
  let w15 := nth 14 w 0 in let w16 := nth 15 w 0 in
  let s0 := Z.lxor (Z.lxor (rotr w15 7) (rotr w15 18)) (Z.shiftr w15 3) in
  let s1 := Z.lxor (Z.lxor (rotr w2 17) (rotr w2 19)) (Z.shiftr w2 10) in
  add32 (add32 w16 s0) (add32 w7 s1).
Definition schedule (block : list Z) : list Z :=
  reverse (Nat.iter 48 (fun w => nextWord w :: w) (reverse block)).

Definition sha_round (st : list Z) (kw : Z * Z) : list Z :=
  match st with
  | [a; b; c; d; e; f; g; h] =>
      let s1 := Z.lxor (Z.lxor (rotr e 6) (rotr e 11)) (rotr e 25) in
      let ch := Z.lxor (Z.land e f) (Z.land (Z.lxor e mask) g) in
      let t1 := add32 (add32 h s1) (add32 ch (add32 (fst kw) (snd kw))) in
      let s0 := Z.lxor (Z.lxor (rotr a 2) (rotr a 13)) (rotr a 22) in
      let maj := Z.lxor (Z.lxor (Z.land a b) (Z.land a c)) (Z.land b c) in
      let t2 := add32 s0 maj in
      [add32 t1 t2; a; b; c; add32 d t1; e; f; g]
  | _ => st
  end.

Definition compress (st block : list Z) : list Z :=
  zip_with add32 st (foldl sha_round st (zip roundConstants (schedule block))).

Fixpoint blocks (fuel : nat) (st ws : list Z) : list Z :=
  match fuel, ws with
  | S fuel, _ :: _ => blocks fuel (compress st (take 16 ws)) (drop 16 ws)
  | _, _ => st
  end.

(** [sha256.Sum256] *)
Definition sum256 (s : string) : string :=
  let p := pad (bytesOf s) in
  let ws := words (length p) p in
  stringOf (mjoin (bigEndian 4 <$> blocks (length ws) initialState ws)).

Definition hexDigit (n : Z) : ascii :=
  ascii_of_nat (Z.to_nat (if n <? 10 then 48 + n else 87 + n)).

(** [hex.EncodeToString] *)
Fixpoint hexEncode (s : string) : string :=
  match s with
  | EmptyString => EmptyString
  | String c s => String (hexDigit (code c / 16)) (String (hexDigit (code c mod 16)) (hexEncode s))
  end.

(** [hmac.New(sha256.New, key)] over one message. *)
Definition xorPad (k : list Z) (n : Z) : string := stringOf ((fun b => Z.lxor b n) <$> k).
Definition hmac256 (key msg : string) : string :=
  let k := bytesOf (if 64 <? zlen (bytesOf key) then sum256 key else key) in
  let k := k ++ replicate (64 - length k) 0 in
  sum256 (xorPad k 0x5c +:+ sum256 (xorPad k 0x36 +:+ msg)).

(** The test vectors of FIPS 180-4 and RFC 4231. *)
Example sha256_vectors :
  hexEncode (sum256 "") = "e3b0c44298fc1c149afbf4c8996fb92427ae41e4649b934ca495991b7852b855"
  /\ hexEncode (sum256 "abc") = "ba7816bf8f01cfea414140de5dae2223b00361a396177a9cb410ff61f20015ad"
  /\ hexEncode (sum256 "abcdbcdecdefdefgefghfghighijhijkijkljklmklmnlmnomnopnopq")
     = "248d6a61d20638b8e5c026930c3e6039a33ce45964ff2167f6ecedd419db06c1"
  /\ hexEncode (hmac256 "Jefe" "what do ya want for nothing?")
     = "5bdcc146bf60754e6a042426089575c75a003f089d2739839dec58b964ec3843".
Proof. vm_compute. done. Qed.

(** Two different messages with the same hash. *)
Definition collision (x y : string) : Prop := x <> y /\ sum256 x = sum256 y.

Lemma ascii_of_nat_inj a b : 0 <= a < 256 -> 0 <= b < 256 ->
  ascii_of_nat (Z.to_nat a) = ascii_of_nat (Z.to_nat b) -> a = b.
Proof.
  intros Ha Hb E. apply (f_equal nat_of_ascii) in E. rewrite !nat_ascii_embedding in E by lia. lia.
Qed.

Lemma hexDigit_inj a b : 0 <= a < 16 -> 0 <= b < 16 -> hexDigit a = hexDigit b -> a = b.
Proof.
  unfold hexDigit. intros Ha Hb E. apply ascii_of_nat_inj in E.
  - destruct (a <? 10) eqn:E1, (b <? 10) eqn:E2; bool_prop; lia.
  - destruct (a <? 10) eqn:E1; bool_prop; lia.
  - destruct (b <? 10) eqn:E1; bool_prop; lia.
Qed.

Lemma hexEncode_inj a b : hexEncode a = hexEncode b -> a = b.
Proof.
  revert b. induction a as [|c a IH]; intros [|d b] E; try done. simpl in E. injection E as E1 E2 E3.
  assert (0 <= code c < 256) by (unfold code; pose proof (N_ascii_bounded c); lia).
  assert (0 <= code d < 256) by (unfold code; pose proof (N_ascii_bounded d); lia).
  apply hexDigit_inj in E1; [|split; [apply Z.div_pos; lia|apply Z.div_lt_upper_bound; lia]..].
  apply hexDigit_inj in E2; [|apply Z.mod_pos_bound; lia..].
  rewrite (IH b E3). f_equal. apply code_inj.
  rewrite (Z.div_mod (code c) 16), (Z.div_mod (code d) 16) by lia. lia.
Qed.

End Sha256.
