(* ===== verification/JournalDoc.v ===== *)
(** * Journal documents

    Model of [src/pkg/journal/journal.go]: the requests and entries of the agent
    journal, their normalization and validation, the documents that are hashed and the
    hashes.  [strings.ToLower] outside ASCII and the Unicode normalization of
    [golang.org/x/text] are the parameters [toLower] and [nfc].  A time is a number of
    nanoseconds since 1970. *)

From Stdlib Require Import Strings.Ascii.
From stdpp Require Import pretty.
From S2P Require Import Prelude GoStrings PathUtil Json Sha256.

Import GoStr Paths Json.

Module Journal.

#[local] Arguments String.append !_ _ / : simpl nomatch.

Definition DefaultKind : string := "agent".
Definition SourceGateway : string := "gateway_observed".
Definition SourceServer : string := "server_observed".
Definition SourceSelf : string := "self_reported".
Definition SourceImported : string := "imported".
Definition DefaultLimit : Z := 100.
Definition MaxLimit : Z := 1000.
Definition MaxEntriesPerBatch : Z := 500.
Definition MaxBatchBytes : Z := Z.shiftl 4 20.
Definition MaxInlineSummaryBytes : Z := Z.shiftl 64 10.
Definition MaxSubjectsPerEntry : Z := 64.
Definition MaxSubjectValueBytes : Z := Z.shiftl 8 10.
Definition MaxLabelsPerJournal : Z := 64.
Definition MaxLabelValueBytes : Z := Z.shiftl 4 10.

(** Errors: too much data, or anything else that is wrong with the input. *)
Inductive journalError := ErrPayloadTooLarge | ErrInvalid.

Record Actor := { ActorType : string; ActorID : string }.

Record Label := { Key : string; Value : string }.

#[global] Instance Label_eq_dec : EqDecision Label.
Proof. solve_decision. Defined.
#[global] Instance Actor_eq_dec : EqDecision Actor.
Proof. solve_decision. Defined.

(** Raw JSON is a byte string; the empty one is a nil [json.RawMessage]. *)
Record CreateRequest := {
  JournalID : string;
  Kind : string;
  Title : string;
  RActor : Actor;
  RSource : string;
  Meta : gmap string string;
  Labels : list Label;
  Retention : string
}.

Record EntryInput := {
  IType : string;
  ISchemaVersion : Z;
  IStatus : string;
  IOccurredAt : option Z;
  IActor : Actor;
  ISource : string;
  IParentEntryID : string;
  ICorrelationID : string;
  ISubjects : list string;
  ISummary : string;
  IArtifacts : Z    (** the number of references in [Artifacts] and [ArtifactRefs] *)
}.

(** [ArtifactRefs] is always nil. *)
Record Entry := {
  ETenantID : string;
  EJournalID : string;
  ESeq : Z;
  EEntryID : string;
  EType : string;
  ESchemaVersion : Z;
  EStatus : string;
  EOccurredAt : Z;
  EObservedAt : Z;
  EActor : Actor;
  ESource : string;
  EParentEntryID : string;
  ECorrelationID : string;
  ESubjects : list string;
  ESummary : string;
  EPrevHash : string;
  EEntryHash : string
}.

Record AppendResponse := {
  AJournalID : string;
  AAppendID : string;
  FirstSeq : Z;
  LastSeq : Z;
  Count : Z;
  AHeadHash : string;
  Idempotent : bool
}.

Record VerifyResult := {
  OK : bool;
  VJournalID : string;
  Entries : Z;
  VHeadHash : string;
  HashChainOK : bool;
  ProjectionOK : bool
}.

(** ** Validation *)

Definition lower (n : Z) : bool := (97 <=? n) && (n <=? 122).
Definition upper (n : Z) : bool := (65 <=? n) && (n <=? 90).
Definition digit (n : Z) : bool := (48 <=? n) && (n <=? 57).
Definition punct (n : Z) : bool := (n =? 95) || (n =? 46) || (n =? 45).

(** [^[a-z][a-z0-9_.-]{0,n}$] *)
Definition namePattern (n : Z) (s : string) : bool :=
  match s with
  | EmptyString => false
  | String c rest =>
      lower (code c) && everyByte (fun b => lower b || digit b || punct b) rest
        && (Z.of_nat (String.length rest) <=? n)
  end.

(** [^[A-Za-z0-9_.-]{1,128}$] and the same with a colon. *)
Definition idPattern (extra : Z -> bool) (s : string) : bool :=
  negb (bool_decide (s = "")) && (Z.of_nat (String.length s) <=? 128)
    && everyByte (fun b => lower b || upper b || digit b || punct b || extra b) s.

(** [strings.Contains(id, "/")] *)
Definition hasSlash (s : string) : bool := negb (everyByte (fun b => negb (b =? 47)) s).

Definition check (b : bool) (e : journalError) : option journalError := if b then None else Some e.

Definition ValidateKind (kind : string) : option journalError := check (namePattern 63 kind) ErrInvalid.
Definition ValidateStatus (status : string) : option journalError := check (namePattern 63 status) ErrInvalid.
Definition ValidateEntryType (ty : string) : option journalError := check (namePattern 127 ty) ErrInvalid.
Definition ValidateJournalID (id : string) : option journalError :=
  check (idPattern (fun _ => false) id && negb (hasSlash id)) ErrInvalid.
Definition ValidateAppendID (id : string) : option journalError :=
  check (idPattern (fun b => b =? 58) id && negb (hasSlash id)) ErrInvalid.
Definition ValidateSource (source : string) : option journalError :=
  check (bool_decide (source ∈ [SourceSelf; SourceGateway; SourceServer; SourceImported])) ErrInvalid.

Definition blen (s : string) : Z := Z.of_nat (String.length s).

(** The loop of [ValidateLabels]. *)
Fixpoint validateLabelList (labels : list Label) : option journalError :=
  match labels with
  | [] => None
  | l :: labels =>
      if negb (namePattern 127 (Key l)) then Some ErrInvalid
      else if negb (ValidString (Value l)) then Some ErrInvalid
      else if MaxLabelValueBytes <? blen (Value l) then Some ErrPayloadTooLarge
      else validateLabelList labels
  end.
Definition ValidateLabels (labels : list Label) : option journalError :=
  if MaxLabelsPerJournal <? zlen labels then Some ErrPayloadTooLarge else validateLabelList labels.

Definition NormalizeLimit (limit : Z) : Z :=
  if limit <=? 0 then DefaultLimit else if MaxLimit <? limit then MaxLimit else limit.

(** ** Times *)

Definition NormalizeTime (t : Z) : Z := t / 1000000 * 1000000.

(** A number in decimal, padded with zeros to [w] digits. *)
Definition padded (w : nat) (n : Z) : string :=
  let s := pretty (Z.abs n) in
  (if n <? 0 then "-" else "")
    +:+ Nat.iter (w - (if n <? 0 then 1 else 0) - String.length s) (fun s => "0" +:+ s) s.

(** Year, month and day of a number of days since 1970-01-01. *)
Definition civil (days : Z) : Z * Z * Z :=
  let z := days + 719468 in
  let era := z / 146097 in
  let doe := z - era * 146097 in
  let yoe := (doe - doe / 1460 + doe / 36524 - doe / 146096) / 365 in
  let doy := doe - (365 * yoe + yoe / 4 - yoe / 100) in
  let mp := (5 * doy + 2) / 153 in
  let d := doy - (153 * mp + 2) / 5 + 1 in
  let m := if mp <? 10 then mp + 3 else mp - 9 in
  (yoe + era * 400 + (if m <=? 2 then 1 else 0), m, d).

(** Date and time to the second. *)
Definition dateTime (secs : Z) : string :=
  let '(y, m, d) := civil (secs / 86400) in
  let s := secs mod 86400 in
  padded 4 y +:+ "-" +:+ padded 2 m +:+ "-" +:+ padded 2 d +:+ "T"
    +:+ padded 2 (s / 3600) +:+ ":" +:+ padded 2 (s / 60 mod 60) +:+ ":" +:+ padded 2 (s mod 60).

(** [Format("2006-01-02T15:04:05.000Z")] *)
Definition FormatTime (t : Z) : string :=
  let ms := NormalizeTime t / 1000000 in
  dateTime (ms / 1000) +:+ "." +:+ padded 3 (ms mod 1000) +:+ "Z".

(** The digits of a fraction without trailing zeros. *)
Fixpoint trimZeros (s : string) : string :=
  match s with
  | EmptyString => EmptyString
  | String c s =>
      let r := trimZeros s in
      if bool_decide (r = "") && (code c =? 48) then "" else String c r
  end.

(** [time.Time.MarshalJSON]: RFC 3339, an error outside the years 0 to 9999. *)
Definition marshalTime (t : Z) : option string :=
  let '(y, _, _) := civil (t / 1000000000 / 86400) in
  if (0 <=? y) && (y <=? 9999) then
    let frac := trimZeros (padded 9 (t mod 1000000000)) in
    Some (dateTime (t / 1000000000) +:+ (if bool_decide (frac = "") then "" else "." +:+ frac) +:+ "Z")
  else None.

Example FormatTime_tests :
  FormatTime 0 = "1970-01-01T00:00:00.000Z"
  /\ FormatTime 1709210096123456789 = "2024-02-29T12:34:56.123Z"
  /\ FormatTime (-1) = "1969-12-31T23:59:59.999Z"
  /\ marshalTime 1709210096120000000 = Some "2024-02-29T12:34:56.12Z".
Proof. vm_compute. done. Qed.

(** ** Hashes *)

(** [json.Marshal], which yields some text of the value, and [CanonicalJSONRaw]. *)
Definition MarshalCanonical (v : json) : option string :=
  t ← writeCanonicalJSON v; CanonicalJSONRaw t.

Definition hashString (s : string) : string := "sha256:" +:+ Sha256.hexEncode (Sha256.sum256 s).

Definition HashCanonical (v : json) : option string := hashString <$> MarshalCanonical v.

Definition nul : string := String (ascii_of_nat 0) "".
Definition SubjectHash (subjectType subjectID : string) : string := hashString (subjectType +:+ nul +:+ subjectID).
Definition LabelHash (key value : string) : string := hashString (key +:+ nul +:+ value).

(** ** Documents *)

(** A Go string, an integer, a list and a raw message as JSON values. *)
Definition jstr (s : string) : json := JStr (toValid s).
Definition jint (n : Z) : json := JNum (pretty n).
Definition nullIfEmpty (raw : string) : string := if bool_decide (raw = "") then "null" else raw.
Definition jraw (raw : string) : option json := decodeOne (nullIfEmpty raw).

(** A struct field with [omitempty]. *)
Definition field (k s : string) : list (string * json) := if bool_decide (s = "") then [] else [(k, jstr s)].

Definition jactor (a : Actor) : json := JObj (field "type" (ActorType a) ++ field "id" (ActorID a)).
Definition jlabel (l : Label) : json := JObj [("key", jstr (Key l)); ("value", jstr (Value l))].
(** A nil slice or map is [null]. *)
Definition jlabels (l : list Label) : json :=
  match l with [] => JNull | _ => JArr (jlabel <$> l) end.
Definition jmeta (m : list (string * string)) : json :=
  match m with [] => JNull | _ => JObj ((fun p => (toValid (fst p), jstr (snd p))) <$> m) end.

(** [LabelsToMap]: a later label of the same key wins. *)
Definition LabelsToMap (labels : list Label) : gmap string string :=
  foldl (fun m l => <[Key l := Value l]> m) ∅ labels.

(** [LabelsFromMap], in the order of a [range]. *)
Definition LabelsFromMap (order : gmap string string -> list (string * string))
    (m : gmap string string) : list Label :=
  (fun p => {| Key := fst p; Value := snd p |}) <$> order m.

Section documents.
Context (order : gmap string string -> list (string * string)).

(** The fields that [CreateHash] and [GenesisDocument] share. *)
Definition createFields (tenantID : string) (req : CreateRequest) (retention : json)
    : list (string * json) :=
  [("tenant_id", jstr tenantID); ("journal_id", jstr (JournalID req)); ("kind", jstr (Kind req));
   ("title", jstr (Title req)); ("actor", jactor (RActor req)); ("source", jstr (RSource req));
   ("meta", jmeta (order (Meta req))); ("labels", jlabels (Labels req)); ("retention", retention)].

Definition CreateHash (tenantID : string) (req : CreateRequest) : option string :=
  r ← jraw (Retention req); HashCanonical (JObj (createFields tenantID req r)).

Definition GenesisDocument (tenantID : string) (req : CreateRequest) (createdAt : Z) : option json :=
  r ← jraw (Retention req);
  Some (JObj (createFields tenantID req r ++ [("created_at", jstr (FormatTime createdAt))])).

End documents.

(** The payload of [EntryHash]; the hash of the entry itself is not part of it. *)
Definition entryDoc (e : Entry) : option json :=
  summary ← jraw (ESummary e);
  Some (JObj
    [("tenant_id", jstr (ETenantID e)); ("journal_id", jstr (EJournalID e)); ("seq", jint (ESeq e));
     ("entry_id", jstr (EEntryID e)); ("type", jstr (EType e));
     ("schema_version", jint (ESchemaVersion e)); ("status", jstr (EStatus e));
     ("occurred_at", jstr (FormatTime (EOccurredAt e)));
     ("observed_at", jstr (FormatTime (EObservedAt e)));
     ("actor_type", jstr (ActorType (EActor e))); ("actor_id", jstr (ActorID (EActor e)));
     ("source", jstr (ESource e)); ("parent_entry_id", jstr (EParentEntryID e));
     ("correlation_id", jstr (ECorrelationID e)); ("subjects", JArr (jstr <$> ESubjects e));
     ("summary", summary); ("artifact_refs", JNull); ("prev_hash", jstr (EPrevHash e))]).

Definition EntryHash (e : Entry) : option string := d ← entryDoc e; HashCanonical d.

(** ** Normalization *)

Section normalize.
Context (nfc toLower : string -> string).
Context (order : gmap string string -> list (string * string)).

Definition normalizeDefault (value def : string) : string :=
  let value := TrimSpace value in if bool_decide (value = "") then def else toLower value.

Definition ParseSubject (raw : string) : (string * string) + journalError :=
  match Cut ":"%char (TrimSpace raw) with
  | None => inr ErrInvalid
  | Some (subjectType, subjectID) =>
      if bool_decide (subjectType = "") || bool_decide (subjectID = "") then inr ErrInvalid
      else
        let subjectType := toLower (TrimSpace subjectType) in
        let subjectID := nfc (TrimSpace subjectID) in
        if negb (namePattern 63 subjectType) then inr ErrInvalid
        else if negb (ValidString subjectID) then inr ErrInvalid
        else if MaxSubjectValueBytes <? blen subjectID then inr ErrPayloadTooLarge
        else inl (subjectType, subjectID)
  end.

(** The loop of [NormalizeSubjects]; [seen] holds the elements of [out]. *)
Fixpoint collectSubjects (out subjects : list string) : list string + journalError :=
  match subjects with
  | [] => inl out
  | raw :: subjects =>
      match ParseSubject raw with
      | inr e => inr e
      | inl (ty, id) =>
          let normalized := ty +:+ ":" +:+ id in
          if bool_decide (normalized ∈ out) then collectSubjects out subjects
          else collectSubjects (out ++ [normalized]) subjects
      end
  end.
Definition NormalizeSubjects (subjects : list string) : list string + journalError :=
  match collectSubjects [] subjects with
  | inl out => inl (sortBy String.ltb out)
  | inr e => inr e
  end.

Definition normLabel (l : Label) : Label :=
  {| Key := toLower (TrimSpace (Key l)); Value := nfc (TrimSpace (Value l)) |}.
Definition fingerprint (l : Label) : string := Key l +:+ nul +:+ Value l.
Definition labelLt (a b : Label) : bool :=
  if bool_decide (Key a = Key b) then String.ltb (Value a) (Value b) else String.ltb (Key a) (Key b).

(** Keep the first label of each fingerprint. *)
Definition dedupLabels (labels : list Label) : list Label :=
  foldl (fun out l => if bool_decide (fingerprint l ∈ (fingerprint <$> out)) then out else out ++ [l])
    [] labels.
Definition NormalizeLabels (labels : list Label) : list Label :=
  sortBy labelLt (dedupLabels (normLabel <$> labels)).

(** An error stops, as in a Go function that returns it. *)
Definition guard {A} (e : option journalError) (k : A + journalError) : A + journalError :=
  match e with Some e => inr e | None => k end.

Definition NormalizeCreateRequest (req : CreateRequest) : CreateRequest + journalError :=
  let journalID := TrimSpace (JournalID req) in
  guard (if bool_decide (journalID = "") then None else ValidateJournalID journalID)
    (let kind := normalizeDefault (Kind req) DefaultKind in
     let source := normalizeDefault (RSource req) SourceSelf in
     guard (check (bool_decide (source = SourceSelf)) ErrInvalid)
       (guard (ValidateKind kind)
         (guard (ValidateSource source)
           (let labels := NormalizeLabels (LabelsFromMap order (Meta req) ++ Labels req) in
            match (if bool_decide (Retention req = "") then Some "" else CanonicalJSONRaw (Retention req)) with
            | None => inr ErrInvalid
            | Some retention =>
                inl {| JournalID := journalID; Kind := kind; Title := TrimSpace (Title req);
                       RActor := {| ActorType := TrimSpace (ActorType (RActor req));
                                    ActorID := TrimSpace (ActorID (RActor req)) |};
                       RSource := source; Meta := LabelsToMap labels; Labels := labels;
                       Retention := retention |}
            end)))).

Definition NormalizeEntryInput (inp : EntryInput) (defaultType : string) (defaultSubjects : list string)
    : EntryInput + journalError :=
  let ty := normalizeDefault (IType inp) defaultType in
  guard (check (negb (bool_decide (ty = ""))) ErrInvalid)
  (guard (ValidateEntryType ty)
  (let version := if ISchemaVersion inp <=? 0 then 1 else ISchemaVersion inp in
   let status := if bool_decide (IStatus inp = "") then "" else TrimSpace (toLower (IStatus inp)) in
   guard (if bool_decide (IStatus inp = "") then None else ValidateStatus status)
   (let source := normalizeDefault (ISource inp) SourceSelf in
    guard (ValidateSource source)
    (guard (check (IArtifacts inp =? 0) ErrInvalid)
    (match NormalizeSubjects (defaultSubjects ++ ISubjects inp) with
     | inr e => inr e
     | inl subjects =>
         guard (check (zlen subjects <=? MaxSubjectsPerEntry) ErrPayloadTooLarge)
         (match (if bool_decide (ISummary inp = "") then Some "" else CanonicalJSONRaw (ISummary inp)) with
          | None => inr ErrInvalid
          | Some summary =>
              guard (check (bool_decide (ISummary inp = "") || (blen summary <=? MaxInlineSummaryBytes))
                       ErrPayloadTooLarge)
              (inl {| IType := ty; ISchemaVersion := version; IStatus := status;
                      IOccurredAt := NormalizeTime <$> IOccurredAt inp;
                      IActor := {| ActorType := TrimSpace (ActorType (IActor inp));
                                   ActorID := TrimSpace (ActorID (IActor inp)) |};
                      ISource := source; IParentEntryID := TrimSpace (IParentEntryID inp);
                      ICorrelationID := TrimSpace (ICorrelationID inp); ISubjects := subjects;
                      ISummary := summary; IArtifacts := IArtifacts inp |})
          end)
     end))))).

End normalize.

(** ** The request hash of a batch *)

Definition optField (k : string) (v : option json) : list (string * json) :=
  match v with Some v => [(k, v)] | None => [] end.

(** [json.Marshal] of an [EntryInput]: [actor] is a struct and never omitted, the
    artifact lists are empty after normalization. *)
Definition entryInputDoc (i : EntryInput) : option json :=
  summary ← (if bool_decide (ISummary i = "") then Some None else Some <$> decodeOne (ISummary i));
  occurred ← (match IOccurredAt i with None => Some None | Some t => Some <$> marshalTime t end);
  Some (JObj (field "type" (IType i)
    ++ optField "schema_version" (if ISchemaVersion i =? 0 then None else Some (jint (ISchemaVersion i)))
    ++ field "status" (IStatus i)
    ++ optField "occurred_at" (jstr <$> occurred)
    ++ [("actor", jactor (IActor i))]
    ++ field "source" (ISource i) ++ field "parent_entry_id" (IParentEntryID i)
    ++ field "correlation_id" (ICorrelationID i)
    ++ optField "subjects" (match ISubjects i with [] => None | l => Some (JArr (jstr <$> l)) end)
    ++ optField "summary" summary)).

Definition batchDoc (entries : list EntryInput) : option json :=
  JArr <$> allSome (entryInputDoc <$> entries).

Definition RequestHash (entries : list EntryInput) : option string :=
  d ← batchDoc entries; HashCanonical d.

Definition ValidateAppendBatch (entries : list EntryInput) : option journalError :=
  if MaxEntriesPerBatch <? zlen entries then Some ErrPayloadTooLarge
  else match d ← batchDoc entries; MarshalCanonical d with
       | None => Some ErrInvalid
       | Some raw => if MaxBatchBytes <? blen raw then Some ErrPayloadTooLarge else None
       end.

End Journal.
