(* ===== verification/JournalStore.v ===== *)
(** * The journal store

    Model of [src/pkg/datastore/journal.go] over the tables of
    [src/pkg/tenant/schema/journal.go]: creating a journal, appending a batch of
    entries under an idempotency key, listing and verifying.  A transaction is a
    function on the tables that leaves them unchanged on an error.  A JSON column keeps
    the text that was written; what the database returns for it is the parameter
    [reread], since MySQL reformats JSON.  [VerifyJournal] decodes the genesis document
    into [float64] numbers, of which integers below [10^15] keep their text and others
    are formatted by the parameter [floatText].  Clocks and the fresh identifiers of
    ULIDs are arguments.  Deadlock retries, column widths and the search queries, which
    only read, are not modelled. *)

From Stdlib Require Import Strings.Ascii.
From S2P Require Import Prelude GoStrings PathUtil Json Sha256 JournalDoc.

Import GoStr Paths Json Journal.

Module JStore.

#[local] Arguments String.append !_ _ / : simpl nomatch.

Inductive storeError :=
  | ErrJournalValidation
  | ErrJournalPayloadTooLarge
  | ErrJournalConflict
  | ErrIdempotencyConflict
  | ErrJournalClosed
  | ErrNotFound
  | ErrInternal.

(** ** Tables *)

Record journalRow := {
  kind : string;
  title : option string;
  actor_type : option string;
  actor_id : option string;
  jsource : option string;
  meta : gmap string string;
  retention : option string;
  next_seq : Z;
  genesis : string;
  create_hash : string;
  genesis_hash : string;
  head_hash : string;
  created_at : Z;
  updated_at : Z;
  closed_at : option Z
}.

Record labelRow := { label_value : string; label_created_at : Z }.

Record appendRequestRow := {
  requestHash : string;
  writerType : string;
  writerID : string;
  effectiveSource : string;
  firstSeq : Z;
  lastSeq : Z;
  rcount : Z;
  headHash : string
}.

Record entryRow := {
  entry_id : string;
  type : string;
  schema_version : Z;
  status : option string;
  occurred_at : Z;
  observed_at : Z;
  eactor_type : option string;
  eactor_id : option string;
  source : string;
  parent_entry_id : option string;
  correlation_id : option string;
  subjects : list string;
  summary : option string;
  prev_hash : string;
  entry_hash : string
}.

Record subjectRow := { subject_id : string; s_occurred_at : Z; s_entry_id : string }.

(** The tables by their unique keys: tenant and journal; tenant, journal, label key and
    label hash; tenant, journal and append id; tenant, journal and sequence number;
    tenant, journal, sequence number, subject type and subject hash. *)
Record db := {
  journals : gmap (string * string) journalRow;
  journal_labels : gmap (string * string * string * string) labelRow;
  append_requests : gmap (string * string * string) appendRequestRow;
  journal_entries : gmap (string * string * Z) entryRow;
  entry_subjects : gmap (string * string * Z * string * string) subjectRow
}.

Definition emptyDB : db := {|
  journals := ∅; journal_labels := ∅; append_requests := ∅; journal_entries := ∅;
  entry_subjects := ∅ |}.

Definition nullStr (s : string) : option string := if bool_decide (s = "") then None else Some s.
Definition nullJSON (raw : string) : option string :=
  if bool_decide (raw = "") || bool_decide (raw = "null") then None else Some raw.

Definition wrapJournalInputError (e : journalError) : storeError :=
  match e with ErrPayloadTooLarge => ErrJournalPayloadTooLarge | ErrInvalid => ErrJournalValidation end.

(** ** The journal a row describes *)

Record JournalInfo := {
  JTenantID : string;
  JJournalID : string;
  JKind : string;
  JTitle : string;
  JActor : Actor;
  JSource : string;
  JMeta : gmap string string;
  JLabels : list Label;
  JRetention : string;
  NextSeq : Z;
  GenesisHash : string;
  HeadHash : string;
  CreatedAt : Z;
  UpdatedAt : Z;
  ClosedAt : option Z
}.

Definition labelOf (p : (string * string * string * string) * labelRow) : Label :=
  {| Key := snd (fst (fst p)); Value := label_value (snd p) |}.

(** The rows of [journal_labels] of a journal, by key and value. *)
Definition labelRows (d : db) (tenantID journalID : string)
    : list ((string * string * string * string) * labelRow) :=
  sortBy (fun p q => labelLt (labelOf p) (labelOf q))
    (filter (fun p => fst (fst (fst p)) = (tenantID, journalID)) (map_to_list (journal_labels d))).

Section store.
Context (nfc toLower : string -> string).
Context (order : gmap string string -> list (string * string)).
Context (reread : string -> string) (floatText : string -> option string).

(** [selectJournalTx] with [scanJournal]. *)
Definition selectJournal (d : db) (tenantID journalID : string) : option (JournalInfo * string) :=
  match journals d !! (tenantID, journalID) with
  | None => None
  | Some r =>
      let labels := labelOf <$> labelRows d tenantID journalID in
      Some ({| JTenantID := tenantID; JJournalID := journalID; JKind := kind r;
               JTitle := default "" (title r);
               JActor := {| ActorType := default "" (actor_type r); ActorID := default "" (actor_id r) |};
               JSource := default "" (jsource r);
               JMeta := if decide (meta r = ∅) then LabelsToMap labels else meta r;
               JLabels := labels;
               JRetention := match retention r with Some t => reread t | None => "" end;
               NextSeq := next_seq r; GenesisHash := genesis_hash r; HeadHash := head_hash r;
               CreatedAt := NormalizeTime (created_at r); UpdatedAt := NormalizeTime (updated_at r);
               ClosedAt := NormalizeTime <$> closed_at r |}, create_hash r)
  end.

(** ** Create *)

(** One [INSERT INTO journal_labels]; a key that is taken is an error. *)
Definition insertLabel (tenantID journalID : string) (now : Z)
    (o : option (gmap (string * string * string * string) labelRow)) (l : Label)
    : option (gmap (string * string * string * string) labelRow) :=
  m ← o;
  let k := (tenantID, journalID, Key l, LabelHash (Key l) (Value l)) in
  if bool_decide (m !! k = None)
  then Some (<[k := {| label_value := Value l; label_created_at := now |}]> m) else None.

Definition CreateJournal (d : db) (tenantID : string) (req : CreateRequest) (newID : string) (clock : Z)
    : db * (JournalInfo + storeError) :=
  if bool_decide (tenantID = "") then (d, inr ErrJournalValidation)
  else
    let req := if bool_decide (JournalID req = "")
               then {| JournalID := newID; Kind := Kind req; Title := Title req; RActor := RActor req;
                       RSource := RSource req; Meta := Meta req; Labels := Labels req;
                       Retention := Retention req |}
               else req in
    match NormalizeCreateRequest nfc toLower order req with
    | inr e => (d, inr (wrapJournalInputError e))
    | inl req =>
        match ValidateLabels (Labels req) with
        | Some e => (d, inr (wrapJournalInputError e))
        | None =>
            let now := NormalizeTime clock in
            match CreateHash order tenantID req,
                  (doc ← GenesisDocument order tenantID req now; raw ← MarshalCanonical doc;
                   hash ← HashCanonical doc; Some (raw, hash)) with
            | Some createHash, Some (genesisRaw, genesisHash) =>
                match selectJournal d tenantID (JournalID req) with
                | Some (existing, existingCreateHash) =>
                    if bool_decide (existingCreateHash = createHash) then (d, inl existing)
                    else (d, inr ErrJournalConflict)
                | None =>
                    let row := {| kind := Kind req; title := nullStr (Title req);
                                  actor_type := nullStr (ActorType (RActor req));
                                  actor_id := nullStr (ActorID (RActor req));
                                  jsource := nullStr (RSource req); meta := Meta req;
                                  retention := nullJSON (Retention req); next_seq := 1;
                                  genesis := genesisRaw; create_hash := createHash;
                                  genesis_hash := genesisHash; head_hash := genesisHash;
                                  created_at := now; updated_at := now; closed_at := None |} in
                    match foldl (insertLabel tenantID (JournalID req) now) (Some (journal_labels d))
                            (Labels req) with
                    | None => (d, inr ErrInternal)
                    | Some labels =>
                        ({| journals := <[(tenantID, JournalID req) := row]> (journals d);
                            journal_labels := labels; append_requests := append_requests d;
                            journal_entries := journal_entries d; entry_subjects := entry_subjects d |},
                         inl {| JTenantID := tenantID; JJournalID := JournalID req; JKind := Kind req;
                                JTitle := Title req; JActor := RActor req; JSource := RSource req;
                                JMeta := Meta req; JLabels := Labels req; JRetention := Retention req;
                                NextSeq := 1; GenesisHash := genesisHash; HeadHash := genesisHash;
                                CreatedAt := now; UpdatedAt := now; ClosedAt := None |})
                    end
                end
            | _, _ => (d, inr ErrInternal)
            end
        end
    end.

(** ** Append *)

Record JournalWriter := { WType : string; WID : string; WSource : string }.

(** The loop that normalizes the entries of a batch. *)
Fixpoint normalizeBatch (effectiveSource : string) (entries : list EntryInput)
    : list EntryInput + storeError :=
  match entries with
  | [] => inl []
  | entry :: entries =>
      match NormalizeEntryInput nfc toLower entry "" [] with
      | inr e => inr (wrapJournalInputError e)
      | inl n =>
          if bool_decide (effectiveSource = SourceSelf) && negb (bool_decide (ISource n = SourceSelf))
          then inr ErrJournalValidation
          else if negb (bool_decide (ISource n = SourceSelf))
                  && negb (bool_decide (ISource n = effectiveSource))
          then inr ErrJournalValidation
          else match normalizeBatch effectiveSource entries with
               | inl l => inl (n :: l)
               | inr e => inr e
               end
      end
  end.

Definition isZeroActor (a : Actor) : bool := bool_decide (ActorType a = "") && bool_decide (ActorID a = "").

(** The entry for one input, before it is hashed. *)
Definition newEntry (tenantID journalID effectiveSource : string) (writer : JournalWriter)
    (current : JournalInfo) (observedAt seq : Z) (id prevHash : string) (input : EntryInput) : Entry :=
  let actor := if isZeroActor (IActor input)
               then if isZeroActor (JActor current)
                    then {| ActorType := WType writer; ActorID := WID writer |} else JActor current
               else IActor input in
  {| ETenantID := tenantID; EJournalID := journalID; ESeq := seq; EEntryID := id;
     EType := IType input; ESchemaVersion := ISchemaVersion input; EStatus := IStatus input;
     EOccurredAt := default observedAt (IOccurredAt input); EObservedAt := observedAt;
     EActor := actor; ESource := effectiveSource; EParentEntryID := IParentEntryID input;
     ECorrelationID := ICorrelationID input; ESubjects := ISubjects input; ESummary := ISummary input;
     EPrevHash := prevHash; EEntryHash := "" |}.

Definition withHash (e : Entry) (h : string) : Entry :=
  {| ETenantID := ETenantID e; EJournalID := EJournalID e; ESeq := ESeq e; EEntryID := EEntryID e;
     EType := EType e; ESchemaVersion := ESchemaVersion e; EStatus := EStatus e;
     EOccurredAt := EOccurredAt e; EObservedAt := EObservedAt e; EActor := EActor e;
     ESource := ESource e; EParentEntryID := EParentEntryID e; ECorrelationID := ECorrelationID e;
     ESubjects := ESubjects e; ESummary := ESummary e; EPrevHash := EPrevHash e; EEntryHash := h |}.

(** The loop that chains the new entries; [ids] gives the fresh id for a position. *)
Fixpoint chainEntries (mk : Z -> string -> string -> EntryInput -> Entry) (ids : Z -> string) (seq : Z)
    (prevHash : string) (inputs : list EntryInput) : option (list Entry) :=
  match inputs with
  | [] => Some []
  | input :: inputs =>
      let entry := mk seq (ids seq) prevHash input in
      entryHash ← EntryHash entry;
      rest ← chainEntries mk ids (seq + 1) entryHash inputs;
      Some (withHash entry entryHash :: rest)
  end.

(** [insertJournalEntryTx]: the row and its subject rows. *)
Definition rowOf (e : Entry) : entryRow :=
  {| entry_id := EEntryID e; type := EType e; schema_version := ESchemaVersion e;
     status := nullStr (EStatus e); occurred_at := EOccurredAt e; observed_at := EObservedAt e;
     eactor_type := nullStr (ActorType (EActor e)); eactor_id := nullStr (ActorID (EActor e));
     source := ESource e; parent_entry_id := nullStr (EParentEntryID e);
     correlation_id := nullStr (ECorrelationID e); subjects := toValid <$> ESubjects e;
     summary := nullJSON (ESummary e); prev_hash := EPrevHash e; entry_hash := EEntryHash e |}.

Definition insertSubject (e : Entry) (o : option (gmap (string * string * Z * string * string) subjectRow))
    (raw : string) : option (gmap (string * string * Z * string * string) subjectRow) :=
  m ← o;
  match ParseSubject nfc toLower raw with
  | inr _ => None
  | inl (ty, id) =>
      let k := (ETenantID e, EJournalID e, ESeq e, ty, SubjectHash ty id) in
      if bool_decide (m !! k = None)
      then Some (<[k := {| subject_id := id; s_occurred_at := EOccurredAt e; s_entry_id := EEntryID e |}]> m)
      else None
  end.

(** The entry ids of a tenant are unique. *)
Definition idTaken (m : gmap (string * string * Z) entryRow) (tenantID id : string) : bool :=
  bool_decide (Exists (fun p => fst (fst (fst p)) = tenantID /\ entry_id (snd p) = id) (map_to_list m)).

Definition insertJournalEntry
    (o : option (gmap (string * string * Z) entryRow * gmap (string * string * Z * string * string) subjectRow))
    (e : Entry)
    : option (gmap (string * string * Z) entryRow * gmap (string * string * Z * string * string) subjectRow) :=
  st ← o;
  let '(m, s) := st in
  let k := (ETenantID e, EJournalID e, ESeq e) in
  if bool_decide (m !! k = None) && negb (idTaken m (ETenantID e) (EEntryID e)) then
    s ← foldl (insertSubject e) (Some s) (ESubjects e);
    Some (<[k := rowOf e]> m, s)
  else None.

Definition response (r : appendRequestRow) (journalID appendID : string) : AppendResponse :=
  {| AJournalID := journalID; AAppendID := appendID; FirstSeq := firstSeq r; LastSeq := lastSeq r;
     Count := rcount r; AHeadHash := headHash r; Idempotent := true |}.

Definition sameRequest (r : appendRequestRow) (hash : string) (writer : JournalWriter) (src : string) : bool :=
  bool_decide (requestHash r = hash) && bool_decide (writerType r = WType writer)
    && bool_decide (writerID r = WID writer) && bool_decide (effectiveSource r = src).

(** The row with a new head. *)
Definition advance (r : journalRow) (seq : Z) (hash : string) (now : Z) : journalRow :=
  {| kind := kind r; title := title r; actor_type := actor_type r; actor_id := actor_id r;
     jsource := jsource r; meta := meta r; retention := retention r; next_seq := seq;
     genesis := genesis r; create_hash := create_hash r; genesis_hash := genesis_hash r;
     head_hash := hash; created_at := created_at r; updated_at := now; closed_at := closed_at r |}.

(** The transaction of an append, on normalized input. *)
Definition appendTx (d : db) (tenantID journalID appendID : string) (writer : JournalWriter)
    (src hash : string) (inputs : list EntryInput) (ids : Z -> string) (clock : Z)
    : db * (AppendResponse + storeError) :=
  match selectJournal d tenantID journalID, journals d !! (tenantID, journalID) with
  | Some (current, _), Some row =>
      match ClosedAt current, append_requests d !! (tenantID, journalID, appendID) with
      | Some _, _ => (d, inr ErrJournalClosed)
      | None, Some r =>
          if sameRequest r hash writer src then (d, inl (response r journalID appendID))
          else (d, inr ErrIdempotencyConflict)
      | None, None =>
          let observedAt := NormalizeTime clock in
          let mk := newEntry tenantID journalID src writer current observedAt in
          match chainEntries mk ids (NextSeq current) (HeadHash current) inputs with
          | None => (d, inr ErrInternal)
          | Some inserted =>
              match head inserted, last inserted,
                    foldl insertJournalEntry (Some (journal_entries d, entry_subjects d)) inserted with
              | Some first, Some lst, Some (entries, subs) =>
                  let r := {| requestHash := hash; writerType := WType writer; writerID := WID writer;
                              effectiveSource := src; firstSeq := ESeq first; lastSeq := ESeq lst;
                              rcount := zlen inserted; headHash := EEntryHash lst |} in
                  ({| journals := <[(tenantID, journalID) := advance row (ESeq lst + 1) (EEntryHash lst) observedAt]>
                                    (journals d);
                      journal_labels := journal_labels d;
                      append_requests := <[(tenantID, journalID, appendID) := r]> (append_requests d);
                      journal_entries := entries; entry_subjects := subs |},
                   inl {| AJournalID := journalID; AAppendID := appendID; FirstSeq := ESeq first;
                          LastSeq := ESeq lst; Count := zlen inserted; AHeadHash := EEntryHash lst;
                          Idempotent := false |})
              | _, _, _ => (d, inr ErrInternal)
              end
          end
      end
  | _, _ => (d, inr ErrNotFound)
  end.

(** The checks before the transaction: the writer, its source, the normalized batch
    and its hash. *)
Definition prepareAppend (tenantID journalID appendID : string) (writer : JournalWriter)
    (entries : list EntryInput) : (JournalWriter * string * list EntryInput * string) + storeError :=
  if bool_decide (tenantID = "") || bool_decide (journalID = "") then inr ErrJournalValidation
  else match ValidateJournalID journalID with
  | Some _ => inr ErrJournalValidation
  | None =>
  if bool_decide (appendID = "") then inr ErrJournalValidation
  else match ValidateAppendID appendID with
  | Some _ => inr ErrJournalValidation
  | None =>
  if bool_decide (entries = []) then inr ErrJournalValidation
  else if MaxEntriesPerBatch <? zlen entries then inr ErrJournalPayloadTooLarge
  else
    let writer := {| WType := if bool_decide (WType writer = "") then "api_key" else WType writer;
                     WID := if bool_decide (WID writer = "") then "unknown" else WID writer;
                     WSource := WSource writer |} in
    let src := TrimSpace (WSource writer) in
    let src := if bool_decide (src = "") then SourceSelf else src in
    match ValidateSource src with
    | Some e => inr (wrapJournalInputError e)
    | None =>
        match normalizeBatch src entries with
        | inr e => inr e
        | inl normalized =>
            match ValidateAppendBatch normalized, RequestHash normalized with
            | Some e, _ => inr (wrapJournalInputError e)
            | None, None => inr ErrInternal
            | None, Some hash => inl (writer, src, normalized, hash)
            end
        end
    end
  end
  end.

Definition AppendJournalEntries (d : db) (tenantID journalID appendID : string) (writer : JournalWriter)
    (entries : list EntryInput) (ids : Z -> string) (clock : Z) : db * (AppendResponse + storeError) :=
  match prepareAppend tenantID journalID appendID writer entries with
  | inr e => (d, inr e)
  | inl (writer, src, normalized, hash) =>
      appendTx d tenantID journalID appendID writer src hash normalized ids clock
  end.

(** ** List *)

Definition scanEntry (p : (string * string * Z) * entryRow) : Entry :=
  let '(tenantID, journalID, seq, r) := p in
  {| ETenantID := tenantID; EJournalID := journalID; ESeq := seq; EEntryID := entry_id r;
     EType := type r; ESchemaVersion := schema_version r; EStatus := default "" (status r);
     EOccurredAt := NormalizeTime (occurred_at r); EObservedAt := NormalizeTime (observed_at r);
     EActor := {| ActorType := default "" (eactor_type r); ActorID := default "" (eactor_id r) |};
     ESource := source r; EParentEntryID := default "" (parent_entry_id r);
     ECorrelationID := default "" (correlation_id r); ESubjects := subjects r;
     ESummary := match summary r with Some t => reread t | None => "" end;
     EPrevHash := prev_hash r; EEntryHash := entry_hash r |}.

(** [WHERE tenant_id = ? AND journal_id = ? AND seq > ? ORDER BY seq] *)
Definition entriesAfter (d : db) (tenantID journalID : string) (afterSeq : Z)
    : list ((string * string * Z) * entryRow) :=
  sortBy (fun p q => snd (fst p) <? snd (fst q))
    (filter (fun p => fst (fst p) = (tenantID, journalID) /\ afterSeq < snd (fst p))
       (map_to_list (journal_entries d))).

Definition ListJournalEntries (d : db) (tenantID journalID : string) (afterSeq limit : Z)
    : list Entry + storeError :=
  if bool_decide (tenantID = "") || bool_decide (journalID = "") then inr ErrJournalValidation
  else match ValidateJournalID journalID with
  | Some _ => inr ErrJournalValidation
  | None =>
      let out := scanEntry <$> take (Z.to_nat (NormalizeLimit limit))
                                 (entriesAfter d tenantID journalID afterSeq) in
      if bool_decide (out = []) && bool_decide (journals d !! (tenantID, journalID) = None)
      then inr ErrNotFound else inl out
  end.

(** ** Verify *)

(** An integer literal below [10^15]. *)
Definition plainNum (n : string) : bool :=
  match n with
  | EmptyString => false
  | String c rest =>
      everyByte digit n && (negb (code c =? 48) || bool_decide (rest = ""))
        && (Z.of_nat (String.length n) <=? 15)
  end.

(** A number literal after a round trip through [float64]. *)
Definition refloat (n : string) : option string := if plainNum n then Some n else floatText n.

(** The value [json.Unmarshal] into [any] keeps. *)
Fixpoint unmarshalAny (v : json) : option json :=
  match v with
  | JNum n => JNum <$> refloat n
  | JArr l => JArr <$> allSome (unmarshalAny <$> l)
  | JObj m => JObj <$> allSome ((fun p => option_map (fun v => (fst p, v)) (unmarshalAny (snd p))) <$> m)
  | _ => Some v
  end.

(** A field of an object. *)
Definition getField {A} (m : list (string * A)) (k : string) : option A :=
  snd <$> head (filter (fun p => fst p = k) m).

(** A JSON value decoded into a Go [string]. *)
Definition asString (v : json) : option string :=
  match v with JStr s => Some s | JNull => Some "" | _ => None end.

Definition asLabel (v : json) : option Label :=
  match v with
  | JNull => Some {| Key := ""; Value := "" |}
  | JObj m =>
      k ← asString (default JNull (getField m "key"));
      v ← asString (default JNull (getField m "value"));
      Some {| Key := k; Value := v |}
  | _ => None
  end.

(** The [meta] and [labels] fields of a decoded genesis document. *)
Definition genesisLabels (v : json) : option (gmap string string * list Label) :=
  match v with
  | JNull => Some (∅, [])
  | JObj m =>
      meta ← match default JNull (getField m "meta") with
             | JNull => Some ∅
             | JObj fields =>
                 l ← allSome ((fun p => option_map (fun s => (fst p, s)) (asString (snd p))) <$> fields);
                 Some (list_to_map l)
             | _ => None
             end;
      labels ← match default JNull (getField m "labels") with
               | JNull => Some []
               | JArr l => allSome (asLabel <$> l)
               | _ => None
               end;
      Some (meta, labels)
  | _ => None
  end.

Definition LabelsFromGenesis (v : json) : option (list Label) :=
  p ← genesisLabels v;
  let labels := NormalizeLabels nfc toLower (LabelsFromMap order (fst p) ++ snd p) in
  match ValidateLabels labels with None => Some labels | Some _ => None end.

(** One row of [loadJournalLabels]. *)
Definition loadLabel (st : list Label * bool) (p : (string * string * string * string) * labelRow)
    : list Label * bool :=
  let '(labels, ok) := st in
  let label := labelOf p in
  let canonical := normLabel nfc toLower label in
  let ok := ok && bool_decide (canonical = label) in
  match ValidateLabels [canonical] with
  | Some _ => (labels, false)
  | None => (labels ++ [canonical],
             ok && bool_decide (snd (fst p) = LabelHash (Key canonical) (Value canonical)))
  end.
Definition loadJournalLabels (d : db) (tenantID journalID : string) : list Label * bool :=
  let '(labels, ok) := foldl loadLabel ([], true) (labelRows d tenantID journalID) in
  let labels := NormalizeLabels nfc toLower labels in
  match ValidateLabels labels with Some _ => ([], false) | None => (labels, ok) end.

(** The rows of [journal_entry_subjects] of a journal from one sequence number to
    another. *)
Definition subjectRows (d : db) (tenantID journalID : string) (firstSeq lastSeq : Z)
    : list ((string * string * Z * string * string) * subjectRow) :=
  filter (fun p => let '(t, j, s, _, _) := fst p in
                   t = tenantID /\ j = journalID /\ firstSeq <= s <= lastSeq)
    (map_to_list (entry_subjects d)).

Definition rowSeq (p : (string * string * Z * string * string) * subjectRow) : Z :=
  let '(_, _, s, _, _) := fst p in s.

(** The canonical subject of a row, if it parses. *)
Definition rowSubject (p : (string * string * Z * string * string) * subjectRow) : option (string * string) :=
  match ParseSubject nfc toLower (snd (fst (fst p)) +:+ ":" +:+ subject_id (snd p)) with
  | inl c => Some c
  | inr _ => None
  end.

(** The row is as an append writes it. *)
Definition rowSubjectOK (p : (string * string * Z * string * string) * subjectRow) : bool :=
  match rowSubject p with
  | None => false
  | Some (ty, id) =>
      bool_decide (ty = snd (fst (fst p))) && bool_decide (id = subject_id (snd p))
        && bool_decide (snd (fst p) = SubjectHash ty id)
  end.

Definition subjectsAt (rows : list ((string * string * Z * string * string) * subjectRow)) (seq : Z)
    : list string :=
  (fun c => fst c +:+ ":" +:+ snd c) <$> omap rowSubject (filter (fun p => rowSeq p = seq) rows).

(** [loadJournalEntrySubjects]: the subjects by sequence number, and whether every row is
    canonical; [None] is an error. *)
Definition loadJournalEntrySubjects (d : db) (tenantID journalID : string) (firstSeq lastSeq : Z)
    : option ((Z -> list string) * bool) :=
  let rows := subjectRows d tenantID journalID firstSeq lastSeq in
  let normalized seq := NormalizeSubjects nfc toLower (subjectsAt rows seq) in
  if forallb (fun p => match normalized (rowSeq p) with inl _ => true | inr _ => false end) rows
  then Some (fun seq => match normalized seq with inl l => l | inr _ => [] end,
             forallb rowSubjectOK rows)
  else None.

(** The state of the loop over the entries. *)
Record chainState := { prev : string; chainOK : bool; projOK : bool; count : Z }.

Definition verifyEntry (subjectsBySeq : Z -> list string) (st : option chainState) (entry : Entry)
    : option chainState :=
  st ← st;
  recomputed ← EntryHash (withHash entry "");
  Some {| prev := recomputed;
          chainOK := chainOK st && bool_decide (EPrevHash entry = prev st)
                       && bool_decide (recomputed = EEntryHash entry);
          projOK := projOK st && bool_decide (ESubjects entry = subjectsBySeq (ESeq entry));
          count := count st + 1 |}.

(** One page of entries. *)
Definition verifyPage (d : db) (tenantID journalID : string) (st : chainState) (entries : list Entry)
    : option chainState :=
  match head entries, last entries with
  | Some fst_, Some lst =>
      match loadJournalEntrySubjects d tenantID journalID (ESeq fst_) (ESeq lst) with
      | None => None
      | Some (subjectsBySeq, subjectsOK) =>
          foldl (verifyEntry subjectsBySeq)
            (Some {| prev := prev st; chainOK := chainOK st; projOK := projOK st && subjectsOK;
                     count := count st |}) entries
      end
  | _, _ => Some st
  end.

(** The pages of [MaxLimit] entries. *)
Fixpoint verifyPages (fuel : nat) (d : db) (tenantID journalID : string) (afterSeq : Z) (st : chainState)
    : chainState + storeError :=
  match fuel with
  | O => inr ErrInternal
  | S fuel =>
      match ListJournalEntries d tenantID journalID afterSeq MaxLimit with
      | inr e => inr e
      | inl entries =>
          match last entries with
          | None => inl st
          | Some lst =>
              match verifyPage d tenantID journalID st entries with
              | None => inr ErrInternal
              | Some st => verifyPages fuel d tenantID journalID (ESeq lst) st
              end
          end
      end
  end.

(** [VerifyJournal].  The row of the journal is read first, in [d]; labels, entries and
    subjects are read by later statements, in [d']. *)
Definition verifyWith (d d' : db) (tenantID journalID : string) : VerifyResult + storeError :=
  match journals d !! (tenantID, journalID) with
  | None => inr ErrNotFound
  | Some r =>
      match (doc ← decodeOne (reread (genesis r));
             any ← unmarshalAny doc; genesisHash ← HashCanonical any;
             expected ← LabelsFromGenesis doc; Some (genesisHash, expected)) with
      | None => inr ErrInternal
      | Some (genesisHash, expected) =>
          let '(stored, labelsOK) := loadJournalLabels d' tenantID journalID in
          match verifyPages (S (size (journal_entries d'))) d' tenantID journalID 0
                  {| prev := genesisHash; chainOK := bool_decide (genesisHash = genesis_hash r);
                     projOK := labelsOK && bool_decide (expected = stored); count := 0 |} with
          | inr e => inr e
          | inl st =>
              let ok := chainOK st && bool_decide (prev st = head_hash r) in
              inl {| OK := ok && projOK st; VJournalID := journalID; Entries := count st;
                     VHeadHash := head_hash r; HashChainOK := ok; ProjectionOK := projOK st |}
          end
      end
  end.

Definition VerifyJournal (d : db) (tenantID journalID : string) : VerifyResult + storeError :=
  verifyWith d d tenantID journalID.

End store.

End JStore.
