(* ===== verification/JournalNorm.v ===== *)
(** * Normalized journal input

    Lemmas on the normalization functions of [JournalDoc]: trimming, labels and
    subjects.  Normalizing what is already normalized and valid changes nothing, which
    is what verification relies on when it recomputes the projections.  Of the Unicode
    parameters it is assumed that lower-casing keeps names, and that normalization is
    idempotent and creates no space at the ends of a trimmed text. *)

From Stdlib Require Import Strings.Ascii.
From S2P Require Import Prelude GoStrings PathUtil Json JournalDoc.

Import GoStr Paths Json Journal.

Module JournalNorm.

#[local] Arguments String.append !_ _ / : simpl nomatch.

(** The laws of the Unicode functions. *)
Class UnicodeLaws (nfc toLower : string -> string) : Prop := {
  lower_name : forall s, namePattern 127 s = true -> toLower s = s;
  nfc_idemp : forall s, nfc (nfc s) = nfc s;
  nfc_trimmed : forall s, TrimSpace (nfc (TrimSpace s)) = nfc (TrimSpace s)
}.

(** ** Trimming *)

(** A visible ASCII byte. *)
Definition visible (c : ascii) : Prop := 32 < code c < 128.

Lemma cutSpace_visible c s : visible c -> cutSpace (String c s) = None.
Proof.
  unfold visible, cutSpace. intros Hc. rewrite !(proj2 (Z.eqb_neq (code c) _)) by lia.
  rewrite (proj2 (Z.leb_gt (code c) 13)) by lia. rewrite !andb_false_r. cbn [orb andb].
  destruct s as [|b [|e s]]; done.
Qed.

Lemma isBlank_visible c s : visible c -> isBlank (String c s) = false.
Proof.
  intros Hc. unfold isBlank. apply bool_decide_eq_false. cbn [String.length trimLeft].
  by rewrite (cutSpace_visible c s Hc).
Qed.

Lemma trimLeft_visible f c s : visible c -> trimLeft f (String c s) = String c s.
Proof. intros Hc. destruct f; [done|]. cbn [trimLeft]. by rewrite cutSpace_visible. Qed.

Fixpoint allVisible (s : string) : Prop :=
  match s with EmptyString => True | String c s => visible c /\ allVisible s end.

Lemma trimRight_visible s u : allVisible s -> trimRight u = u -> trimRight (s +:+ u) = s +:+ u.
Proof.
  intros Hs Hu. induction s as [|c s IH]; [done|]. destruct Hs as [Hc Hs]. simpl String.append.
  cbn [trimRight]. rewrite isBlank_visible by done. by rewrite IH.
Qed.

Lemma cutSpace_shorter s r : cutSpace s = Some r -> (String.length r < String.length s)%nat.
Proof.
  unfold cutSpace. destruct s as [|a s1]; [done|]. destruct (_ || _); [intros [= <-]; simpl; lia|].
  destruct s1 as [|b s2]; [done|]. destruct (_ && _); [intros [= <-]; simpl; lia|].
  destruct s2 as [|c s3]; [done|]. destruct (_ || _); [intros [= <-]; simpl; lia|done].
Qed.

Lemma trimLeft_shorter f s : (String.length (trimLeft f s) <= String.length s)%nat
  /\ (trimLeft f s <> s -> String.length (trimLeft f s) < String.length s)%nat.
Proof.
  revert s. induction f as [|f IH]; intros s; cbn [trimLeft]; [done|].
  destruct (cutSpace s) as [r|] eqn:E; [|done]. apply cutSpace_shorter in E. destruct (IH r). lia.
Qed.

Lemma trimRight_shorter s : (String.length (trimRight s) <= String.length s)%nat.
Proof. induction s as [|c s IH]; cbn [trimRight]; case_if; simpl; lia. Qed.

(** A text that trimming keeps has no space at either end. *)
Lemma trimmed_right s : TrimSpace s = s -> trimRight s = s.
Proof.
  unfold TrimSpace. intros H. destruct (decide (trimLeft (String.length s) s = s)) as [E|E]; [congruence|].
  destruct (trimLeft_shorter (String.length s) s) as [_ Hlt]. specialize (Hlt E).
  pose proof (trimRight_shorter (trimLeft (String.length s) s)). rewrite H in *. lia.
Qed.

(** Trimming twice trims once. *)
Inductive Blank : string -> Prop :=
  | Blank_nil : Blank ""
  | Blank_cut s r : cutSpace s = Some r -> Blank r -> Blank s.

Lemma trimLeft_blank f s : (String.length s <= f)%nat -> trimLeft f s = "" <-> Blank s.
Proof.
  revert s. induction f as [|f IH]; intros s Hf; cbn [trimLeft].
  - destruct s; [|simpl in Hf; lia]. split; [constructor|done].
  - destruct (cutSpace s) as [r|] eqn:E.
    + rewrite IH by (apply cutSpace_shorter in E; lia). split; [by econstructor|]. intros H. inversion H; subst; [done|congruence].
    + split; [intros ->; constructor|]. intros H. inversion H; subst; [done|congruence].
Qed.

Lemma isBlank_Blank s : isBlank s = true <-> Blank s.
Proof. unfold isBlank. rewrite bool_decide_eq_true. by apply trimLeft_blank. Qed.

Lemma cutSpace_app s r u : cutSpace s = Some r -> cutSpace (s +:+ u) = Some (r +:+ u).
Proof.
  destruct s as [|a s1]; [done|]. cbn [cutSpace String.append]. destruct (_ || _); [by intros [= <-]|].
  destruct s1 as [|b s2]; [done|]. cbn [String.append]. destruct (_ && _); [by intros [= <-]|].
  destruct s2 as [|c s3]; [done|]. cbn [String.append]. destruct (_ || _); [by intros [= <-]|done].
Qed.

Lemma Blank_app s u : Blank s -> Blank u -> Blank (s +:+ u).
Proof. induction 1 as [|s r E _ IH]; intros Hu; [done|]. econstructor; [by apply cutSpace_app|by apply IH]. Qed.

Lemma trimRight_split s : exists w, s = trimRight s +:+ w /\ Blank w.
Proof.
  induction s as [|c s (w & E & Hw)]; cbn [trimRight].
  - exists "". split; [by destruct (isBlank "")|constructor].
  - destruct (isBlank (String c s)) eqn:Eb; [exists (String c s); split; [done|by apply isBlank_Blank]|].
    exists w. split; [|done]. cbn [String.append]. by rewrite <- E.
Qed.

Lemma trimRight_idemp s : trimRight (trimRight s) = trimRight s.
Proof.
  induction s as [|c s IH]; [by vm_compute|]. cbn [trimRight]. destruct (isBlank (String c s)) eqn:Eb; [by vm_compute|].
  cbn [trimRight]. destruct (isBlank (String c (trimRight s))) eqn:Eb'; [|by rewrite IH].
  apply isBlank_Blank in Eb'. destruct (trimRight_split s) as (w & E & Hw).
  pose proof (Blank_app _ _ Eb' Hw) as Hb. cbn [String.append] in Hb. rewrite <- E in Hb.
  apply isBlank_Blank in Hb. congruence.
Qed.

Lemma trimLeft_end f s : (String.length s <= f)%nat -> cutSpace (trimLeft f s) = None.
Proof.
  revert s. induction f as [|f IH]; intros s Hf; cbn [trimLeft]; [destruct s; [done|simpl in Hf; lia]|].
  destruct (cutSpace s) as [r|] eqn:E; [|done]. apply IH. apply cutSpace_shorter in E. lia.
Qed.

Lemma TrimSpace_idemp s : TrimSpace (TrimSpace s) = TrimSpace s.
Proof.
  unfold TrimSpace at 1 3. set (u := trimLeft (String.length s) s). change (TrimSpace s) with (trimRight u).
  assert (cutSpace (trimRight u) = None) as E.
  { destruct (cutSpace (trimRight u)) as [r|] eqn:E; [|done]. destruct (trimRight_split u) as (w & Ew & _).
    apply (cutSpace_app _ _ w) in E. rewrite <- Ew in E. unfold u in E. by rewrite trimLeft_end in E. }
  destruct (String.length (trimRight u)) as [|n]; cbn [trimLeft]; [apply trimRight_idemp|]. rewrite E. apply trimRight_idemp.
Qed.

Lemma TrimSpace_visible c s u :
  visible c -> allVisible s -> trimRight u = u -> TrimSpace (String c (s +:+ u)) = String c (s +:+ u).
Proof.
  intros Hc Hs Hu. unfold TrimSpace. rewrite trimLeft_visible by done.
  apply (trimRight_visible (String c s) u); [done|done].
Qed.

(** ** Names *)

Definition nameByte (n : Z) : bool := lower n || digit n || punct n.

Lemma nameByte_visible c : nameByte (code c) = true -> visible c /\ code c <> 58.
Proof.
  unfold nameByte, lower, digit, punct, visible. intros H.
  rewrite !orb_true_iff, !andb_true_iff, !Z.leb_le, !Z.eqb_eq in H. lia.
Qed.

Lemma namePattern_bytes n s :
  namePattern n s = true ->
  exists c r, s = String c r /\ lower (code c) = true /\ everyByte nameByte r = true.
Proof.
  destruct s as [|c r]; [done|]. simpl. intros H. bool_prop. exists c, r. split_and!; [done..|].
  unfold nameByte. done.
Qed.

Lemma everyByte_visible r : everyByte nameByte r = true -> allVisible r.
Proof.
  induction r as [|c r IH]; [done|]. simpl. intros H. bool_prop. split; [|auto]. by apply nameByte_visible.
Qed.

Lemma lower_nameByte n : lower n = true -> nameByte n = true.
Proof. unfold nameByte. by intros ->. Qed.

Lemma name_visible n s : namePattern n s = true -> allVisible s.
Proof.
  intros H. apply namePattern_bytes in H as (c & r & -> & Hc & Hr). split; [|by apply everyByte_visible].
  by apply nameByte_visible, lower_nameByte.
Qed.

Lemma name_trimmed n s : namePattern n s = true -> TrimSpace s = s.
Proof.
  intros H. pose proof (name_visible n s H) as Hv. apply namePattern_bytes in H as (c & r & -> & _ & _).
  destruct Hv as [Hc Hr]. pose proof (TrimSpace_visible c r "" Hc Hr ltac:(done)) as E.
  by rewrite string_app_nil_r in E.
Qed.

Lemma namePattern_weaken n m s : n <= m -> namePattern n s = true -> namePattern m s = true.
Proof. intros Hnm. destruct s; [done|]. simpl. intros H. bool_prop. rewrite !andb_true_iff, Z.leb_le. split_and!; try done; lia. Qed.

Lemma name_cut n s u : namePattern n s = true -> Cut ":"%char (s +:+ ":" +:+ u) = Some (s, u).
Proof.
  intros H. apply namePattern_bytes in H as (c & r & -> & Hc & Hr).
  assert (everyByte nameByte (String c r) = true) as Hall by (simpl; by rewrite lower_nameByte).
  clear Hc Hr. induction (String c r) as [|b s IH]; [done|]. simpl in Hall. bool_prop.
  change (String b s +:+ ":" +:+ u) with (String b (s +:+ ":" +:+ u)). cbn [Cut].
  destruct (Ascii.eqb_spec b ":") as [->|]; [done|]. by rewrite IH.
Qed.

Lemma subject_trimmed n ty u :
  namePattern n ty = true -> trimRight u = u -> TrimSpace (ty +:+ ":" +:+ u) = ty +:+ ":" +:+ u.
Proof.
  intros Hn Hu. pose proof (name_visible _ _ Hn) as Hvis. destruct ty as [|c ty]; [done|]. destruct Hvis as [Hc Hty].
  change (String c ty +:+ ":" +:+ u) with (String c (ty +:+ ":" +:+ u)).
  apply TrimSpace_visible; [done|done|]. apply (trimRight_visible ":"); [|done].
  unfold allVisible, visible. vm_compute. done.
Qed.

Lemma name_valid n s : namePattern n s = true -> valid s.
Proof.
  intros H. apply name_visible in H. induction s as [|c s IH]; [apply valid_nil|]. destruct H as [Hc Hs].
  apply (valid_app (String c "") s); [|auto]. apply rune_valid. unfold isRune, utf8Head, visible in *.
  by rewrite (proj2 (Z.ltb_lt (code c) 0x80)) by lia.
Qed.

(** ** Labels *)

Lemma validateLabelList_ok ls : validateLabelList ls = None <->
  Forall (fun l => namePattern 127 (Key l) = true /\ ValidString (Value l) = true
                   /\ MaxLabelValueBytes <? blen (Value l) = false) ls.
Proof.
  induction ls as [|l ls IH]; [done|]. cbn [validateLabelList]. rewrite Forall_cons.
  destruct (namePattern 127 (Key l)); cbn [negb]; [|split; [done|by intros [(? & _) _]]].
  destruct (ValidString (Value l)); cbn [negb]; [|split; [done|by intros [(_ & ? & _) _]]].
  destruct (MaxLabelValueBytes <? blen (Value l)); [split; [done|by intros [(_ & _ & ?) _]]|].
  rewrite IH. tauto.
Qed.

Lemma labelLt_trans x y z : labelLt x y = true -> labelLt y z = true -> labelLt x z = true.
Proof.
  unfold labelLt. destruct (decide (Key x = Key y)) as [E1|E1], (decide (Key y = Key z)) as [E2|E2];
    rewrite ?(bool_decide_true (Key x = Key y)), ?(bool_decide_true (Key y = Key z)),
      ?(bool_decide_false (Key x = Key y)), ?(bool_decide_false (Key y = Key z)) by done; intros Hxy Hyz.
  - rewrite bool_decide_true by congruence. by eapply ltb_trans.
  - rewrite bool_decide_false by congruence. by rewrite E1.
  - rewrite bool_decide_false by congruence. by rewrite <- E2.
  - rewrite bool_decide_false; [by eapply ltb_trans|]. intros E. rewrite E in Hxy.
    apply ltb_asym in Hxy. congruence.
Qed.

Lemma labelLt_irrefl x : labelLt x x = false.
Proof. unfold labelLt. case_bool_decide; [apply ltb_irrefl|done]. Qed.

Lemma labelLt_total x y : x = y \/ labelLt x y = true \/ labelLt y x = true.
Proof.
  unfold labelLt. destruct x as [k v], y as [k' v']. simpl. repeat case_bool_decide; subst; try done.
  - destruct (ltb_total v v') as [->|?]; [by left|by right].
  - destruct (ltb_total k k') as [?|?]; [done|by right].
Qed.

Lemma labelLt_asym x y : labelLt x y = true -> labelLt y x = false.
Proof.
  intros H. destruct (labelLt y x) eqn:E; [|done].
  pose proof (labelLt_trans _ _ _ H E) as H'. by rewrite labelLt_irrefl in H'.
Qed.

(** Deduplication keeps one label per fingerprint. *)
Lemma dedup_spec ls :
  NoDup (fingerprint <$> dedupLabels ls)
  /\ (forall l, l ∈ dedupLabels ls -> l ∈ ls)
  /\ (forall l, l ∈ ls -> fingerprint l ∈ (fingerprint <$> dedupLabels ls)).
Proof.
  unfold dedupLabels. induction ls as [|l ls IH] using rev_ind.
  { split_and!; [constructor|set_solver|set_solver]. }
  rewrite foldl_app. cbn [foldl]. destruct IH as (Hnd & Hin & Hall).
  set (out := foldl _ [] ls) in *. case_bool_decide as E.
  - split_and!; [done|set_solver|]. intros x [Hx|Hx]%elem_of_app; [by apply Hall|].
    apply list_elem_of_singleton in Hx as ->. done.
  - split_and!.
    + rewrite fmap_app. apply NoDup_app. split_and!; [done|set_solver|apply NoDup_singleton].
    + set_solver.
    + intros x Hx. rewrite fmap_app, elem_of_app. set_solver.
Qed.

Lemma dedup_id ls : NoDup (fingerprint <$> ls) -> dedupLabels ls = ls.
Proof.
  unfold dedupLabels. induction ls as [|l ls IH] using rev_ind; [done|]. rewrite fmap_app. intros Hnd.
  apply NoDup_app in Hnd as (Hnd & Hd & _). rewrite foldl_app, IH by done. cbn [foldl].
  rewrite bool_decide_false by set_solver. done.
Qed.

(** The labels that the meta map lists are among the labels. *)
Lemma labels_of_meta order ls x :
  iterates order -> x ∈ LabelsFromMap order (LabelsToMap ls) -> x ∈ ls.
Proof.
  intros Ho. unfold LabelsFromMap. rewrite list_elem_of_fmap. intros ([k v] & -> & Hp).
  apply (iterates_elem order) in Hp; [|done]. unfold LabelsToMap in Hp. simpl.
  induction ls as [|l ls IH] using rev_ind; [cbn in Hp; by rewrite lookup_empty in Hp|].
  rewrite foldl_app in Hp. cbn [foldl] in Hp. apply lookup_insert_Some in Hp as [[<- <-]|[_ Hp]].
  - destruct l. set_solver.
  - specialize (IH Hp). set_solver.
Qed.

Section norm.
Context {nfc toLower : string -> string} {laws : UnicodeLaws nfc toLower}.

#[local] Set Default Proof Using "Type*".

Lemma normLabel_value l : nfc (TrimSpace (Value (normLabel nfc toLower l))) = Value (normLabel nfc toLower l).
Proof. simpl. rewrite (nfc_trimmed (Value l)). apply nfc_idemp. Qed.

(** A normalized label with a valid key. *)
Definition goodLabel (l : Label) : Prop :=
  namePattern 127 (Key l) = true /\ ValidString (Value l) = true /\ nfc (TrimSpace (Value l)) = Value l
  /\ MaxLabelValueBytes <? blen (Value l) = false.

Lemma goodLabel_norm l : goodLabel l -> normLabel nfc toLower l = l.
Proof.
  intros (Hk & _ & Hv & _). destruct l as [k v]. unfold normLabel. simpl in *.
  rewrite (name_trimmed _ _ Hk), (lower_name _ Hk), Hv. done.
Qed.

(** The labels of a journal: normalized, sorted, one per fingerprint. *)
Record labelsOk (ls : list Label) : Prop := {
  lo_good : Forall goodLabel ls;
  lo_sorted : StronglySorted (fun x y => labelLt x y = true) ls;
  lo_finger : NoDup (fingerprint <$> ls);
  lo_valid : ValidateLabels ls = None
}.

Lemma normalized_labels_ok ls :
  ValidateLabels (NormalizeLabels nfc toLower ls) = None -> labelsOk (NormalizeLabels nfc toLower ls).
Proof.
  intros Hv. set (out := NormalizeLabels nfc toLower ls) in *.
  destruct (dedup_spec (normLabel nfc toLower <$> ls)) as (Hnd & Hin & _).
  assert (out ≡ₚ dedupLabels (normLabel nfc toLower <$> ls)) as Hp by apply sortBy_perm.
  assert (NoDup (dedupLabels (normLabel nfc toLower <$> ls))) as Hnd' by (by apply NoDup_fmap_1 in Hnd).
  split.
  - unfold ValidateLabels in Hv. destruct (_ <? _); [done|]. apply validateLabelList_ok in Hv.
    rewrite Forall_forall in *. intros l Hl. destruct (Hv l Hl) as (H1 & H2 & H3). split_and!; try done.
    rewrite Hp in Hl. apply Hin in Hl. apply list_elem_of_fmap in Hl as (l0 & -> & _). apply normLabel_value.
  - apply sortBy_sorted; [done|apply labelLt_trans|]. intros. apply labelLt_total.
  - by rewrite Hp.
  - done.
Qed.

(** Normalizing them again, with some of them repeated in front, changes nothing. *)
Lemma normalize_labels_again xs ls :
  labelsOk ls -> (forall x, x ∈ xs -> x ∈ ls) -> NormalizeLabels nfc toLower (xs ++ ls) = ls.
Proof.
  intros [Hg Hs Hf Hv] Hxs. unfold NormalizeLabels.
  assert (normLabel nfc toLower <$> (xs ++ ls) = xs ++ ls) as ->.
  { rewrite <- (list_fmap_id (xs ++ ls)) at 2. apply fmap_Forall_ext. apply Forall_forall.
    intros l Hl. rewrite Forall_forall in Hg. apply goodLabel_norm, Hg. set_solver. }
  destruct (dedup_spec (xs ++ ls)) as (Hnd & Hin & Hall).
  assert (forall l, l ∈ dedupLabels (xs ++ ls) <-> l ∈ ls) as Hiff.
  { intros l. split; [intros Hl; apply Hin in Hl; set_solver|]. intros Hl.
    specialize (Hall l ltac:(set_solver)). apply list_elem_of_fmap in Hall as (l' & E & Hl').
    assert (l' ∈ ls) as Hl2 by (apply Hin in Hl'; set_solver).
    apply list_elem_of_lookup in Hl as [i Hi]. apply list_elem_of_lookup in Hl2 as [i' Hi'].
    assert (i = i') as <-; [|congruence].
    eapply (NoDup_lookup (fingerprint <$> ls)); [done|..]; rewrite list_lookup_fmap; [by rewrite Hi|].
    rewrite Hi'. simpl. congruence. }
  transitivity (sortBy labelLt ls); [|by apply sortBy_sorted_id; [|apply labelLt_asym]].
  apply sortBy_unique; [apply labelLt_irrefl|apply labelLt_trans|by apply NoDup_fmap_1 in Hnd| |].
  - intros. apply labelLt_total.
  - apply NoDup_Permutation; [by apply NoDup_fmap_1 in Hnd|by apply NoDup_fmap_1 in Hf|done].
Qed.

(** ** Subjects *)

Lemma ParseSubject_spec raw ty id :
  ParseSubject nfc toLower raw = inl (ty, id) ->
  namePattern 63 ty = true /\ ValidString id = true /\ MaxSubjectValueBytes <? blen id = false
  /\ exists s, id = nfc (TrimSpace s).
Proof.
  unfold ParseSubject. destruct (Cut _ _) as [[a b]|]; [|done]. destruct (_ || _); [done|].
  destruct (namePattern _ _) eqn:E1; [|done]. destruct (ValidString _) eqn:E2; [|done]. cbn [negb].
  destruct (_ <? _) eqn:E3; [done|]. intros [= <- <-]. split_and!; [done..|eauto].
Qed.

(** A normalized subject parses to its parts. *)
Lemma ParseSubject_again raw ty id :
  ParseSubject nfc toLower raw = inl (ty, id) -> id <> "" ->
  ParseSubject nfc toLower (ty +:+ ":" +:+ id) = inl (ty, id).
Proof.
  intros H Hid. apply ParseSubject_spec in H as (Hn & Hv & Hl & s & Es).
  assert (TrimSpace id = id) as Ht by (rewrite Es; apply nfc_trimmed).
  assert (nfc id = id) as Hi by (rewrite Es at 1; rewrite nfc_idemp; done).
  assert (TrimSpace (ty +:+ ":" +:+ id) = ty +:+ ":" +:+ id) as E by (eapply subject_trimmed; [done|by apply trimmed_right]).
  unfold ParseSubject. rewrite E, (name_cut _ _ _ Hn).
  rewrite (bool_decide_false (ty = "")), (bool_decide_false (id = "")) by (try done; by intros ->).
  cbn [orb]. rewrite (name_trimmed _ _ Hn), (lower_name ty), Ht, Hi, Hn, Hv, Hl; [done|].
  by apply (namePattern_weaken 63).
Qed.

(** A subject as it is stored. *)
Definition goodSubject (s : string) : Prop :=
  exists ty id, s = ty +:+ ":" +:+ id /\ ParseSubject nfc toLower s = inl (ty, id).

Lemma goodSubject_valid s : goodSubject s -> valid s.
Proof.
  intros (ty & id & -> & H). apply ParseSubject_spec in H as (Hn & Hv & _).
  apply valid_app; [by eapply name_valid|]. apply valid_app; [|by apply ValidString_valid].
  apply rune_valid. reflexivity.
Qed.

(** The result of the collecting loop. *)
Lemma collectSubjects_spec subjects : forall out res,
  NoDup out -> collectSubjects nfc toLower out subjects = inl res ->
  NoDup res /\ (forall s, s ∈ res -> s ∈ out \/ exists raw ty id, s = ty +:+ ":" +:+ id
                  /\ ParseSubject nfc toLower raw = inl (ty, id)).
Proof.
  induction subjects as [|raw subjects IH]; intros out res Hnd H; cbn [collectSubjects] in H.
  - injection H as <-. auto.
  - destruct (ParseSubject nfc toLower raw) as [[ty id]|] eqn:E; [|done]. case_bool_decide as Hin.
    + by apply IH.
    + apply IH in H as [H1 H2]; [|apply NoDup_app; split_and!; [done|set_solver|apply NoDup_singleton]].
      split; [done|]. intros s Hs. destruct (H2 s Hs) as [Ho|?]; [|by right].
      apply elem_of_app in Ho as [?|Ho]; [by left|]. apply list_elem_of_singleton in Ho as ->. right. eauto.
Qed.

(** Collecting good subjects keeps them. *)
Lemma collectSubjects_good subjects : forall out,
  Forall goodSubject subjects -> NoDup (out ++ subjects) ->
  collectSubjects nfc toLower out subjects = inl (out ++ subjects).
Proof.
  induction subjects as [|s subjects IH]; intros out Hg Hnd; cbn [collectSubjects].
  - by rewrite app_nil_r.
  - apply Forall_cons in Hg as [(ty & id & Es & Hs) Hg]. rewrite Hs, <- Es.
    apply NoDup_app in Hnd as (H1 & H2 & H3). rewrite bool_decide_false by (intros Hin; apply (H2 s Hin); set_solver).
    rewrite IH; [by rewrite <- app_assoc|done|]. rewrite <- app_assoc. apply NoDup_app. split_and!; [done|done|done].
Qed.

(** The subjects of an entry: good, sorted, distinct. *)
Record subjectsOk (l : list string) : Prop := {
  so_nodup : NoDup l;
  so_sorted : StronglySorted (fun x y => String.ltb x y = true) l
}.

Lemma normalized_subjects_ok subjects l :
  NormalizeSubjects nfc toLower subjects = inl l ->
  subjectsOk l /\ Forall (fun s => exists raw ty id, s = ty +:+ ":" +:+ id
                             /\ ParseSubject nfc toLower raw = inl (ty, id)) l.
Proof.
  unfold NormalizeSubjects. destruct (collectSubjects _ _ [] subjects) as [out|] eqn:E; [|done]. intros [= <-].
  apply collectSubjects_spec in E as [Hnd Hin]; [|constructor]. split; [split|].
  - by rewrite sortBy_perm.
  - apply sortBy_sorted; [done|apply ltb_trans|]. intros. apply ltb_total.
  - rewrite sortBy_perm. apply Forall_forall. intros s Hs. destruct (Hin s Hs) as [?|?]; [set_solver|done].
Qed.

(** Any order of the subjects of an entry normalizes to the entry's list. *)
Lemma normalize_subjects_again l l' :
  subjectsOk l -> Forall goodSubject l -> l' ≡ₚ l -> NormalizeSubjects nfc toLower l' = inl l.
Proof.
  intros [Hnd Hs] Hg Hp. unfold NormalizeSubjects.
  rewrite (collectSubjects_good l' []); [|by rewrite Hp|simpl; by rewrite Hp]. simpl. f_equal.
  transitivity (sortBy String.ltb l); [|by apply sortBy_sorted_id; [|apply ltb_asym]].
  apply sortBy_unique; [apply ltb_irrefl|apply ltb_trans|by rewrite Hp| |done]. intros. apply ltb_total.
Qed.

End norm.

End JournalNorm.
