(* ===== verification/JournalProps.v ===== *)
(** * The hash chain of a journal

    The hash chain of [JournalStore]: hashes of documents, pages of entries, chains; and
    that a chain which verifies under a known head is the known history, or the two
    histories exhibit a collision of SHA-256. *)

From Stdlib Require Import Strings.Ascii.
From S2P Require Import Prelude GoStrings PathUtil Json Sha256 JournalDoc JournalStore.

Import GoStr Paths Json Journal JStore.

Module JournalProps.

#[local] Arguments String.append !_ _ / : simpl nomatch.

(** ** Hashes of documents *)

Lemma marshal_doc d v t :
  shape d v -> MarshalCanonical v = Some t ->
  writeCanonicalJSON v = Some t /\ decodeOne t = Some (canon v).
Proof.
  unfold MarshalCanonical, CanonicalJSONRaw. intros Hs H.
  destruct (writeCanonicalJSON v) as [t0|] eqn:E; [|done]. cbn [mbind option_bind] in H.
  rewrite (write_not_blank _ _ E) in H. destruct (decodeOne t0) as [w|] eqn:Ew; [|done]. cbn [mbind option_bind] in H.
  pose proof (decodeOne_doc _ _ _ _ Hs E Ew) as ->. rewrite (write_canon _ _ _ Hs) in H.
  assert (t0 = t) as -> by congruence. done.
Qed.

(** The text depends on the value only. *)
Lemma marshal_same d d' v v' :
  shape d v -> shape d' v' -> canon v = canon v' -> MarshalCanonical v = MarshalCanonical v'.
Proof.
  intros H H' E. unfold MarshalCanonical. by rewrite <- (write_canon _ _ _ H), E, (write_canon _ _ _ H').
Qed.

Lemma hash_same d d' v v' :
  shape d v -> shape d' v' -> canon v = canon v' -> HashCanonical v = HashCanonical v'.
Proof. intros H H' E. unfold HashCanonical. by rewrite (marshal_same d d' v v'). Qed.

(** Two documents whose canonical texts differ and have the same SHA-256 sum. *)
Definition clash (v v' : json) : Prop :=
  exists x y, MarshalCanonical v = Some x /\ MarshalCanonical v' = Some y /\ Sha256.collision x y.

(** Equal hashes are hashes of the same value, or of clashing documents. *)
Lemma hash_inj d d' v v' h :
  shape d v -> shape d' v' -> HashCanonical v = Some h -> HashCanonical v' = Some h ->
  sameValue v v' \/ clash v v'.
Proof.
  unfold HashCanonical. intros Hs Hs' H H'.
  destruct (MarshalCanonical v) as [t|] eqn:E; [|done]. destruct (MarshalCanonical v') as [t'|] eqn:E'; [|done].
  cbn in H, H'. injection H as <-. injection H' as H'.
  apply Sha256.hexEncode_inj in H'. destruct (decide (t = t')) as [->|Hne].
  - left. apply canon_same. apply (marshal_doc d) in E as [_ E]; [|done]. apply (marshal_doc d') in E' as [_ E']; [|done].
    congruence.
  - right. exists t, t'. split_and!; [done|done|]. split; [done|congruence].
Qed.

(** ** Shapes of documents *)

Lemma jstr_shape d s : shape d (jstr s).
Proof. constructor. apply toValid_valid. Qed.

Lemma jint_shape d n : shape d (jint n).
Proof. by constructor. Qed.

Lemma jraw_shape s v : jraw s = Some v -> shape maxNestingDepth v.
Proof. unfold jraw. intros H. apply decodeOne_wf in H. eapply wfG_mono; [|exact H|done]. done. Qed.

(** A literal key. *)
Lemma literal_valid s : bool_decide (toValid s = s) = true -> valid s.
Proof. intros H. apply bool_decide_eq_true in H. rewrite <- H. apply toValid_valid. Qed.

#[local] Ltac solve_keys := apply (bool_decide_unpack _); vm_compute; exact I.
#[local] Ltac solve_fields :=
  repeat (constructor; [split; [apply literal_valid; vm_compute; reflexivity|cbn [snd];
    first [apply jstr_shape | apply jint_shape | assumption | by constructor | idtac]]|]); try apply Forall_nil_2.

Lemma strings_shape d l : shape (S d) (JArr (jstr <$> l)).
Proof. constructor. apply Forall_fmap, Forall_true. intros s. apply jstr_shape. Qed.

Lemma entryDoc_shape e v : entryDoc e = Some v -> shape (S maxNestingDepth) v.
Proof.
  unfold entryDoc. destruct (jraw (ESummary e)) as [s|] eqn:E; [|done]. apply jraw_shape in E.
  intros [= <-]. constructor; [solve_keys|]. solve_fields. apply (strings_shape (Nat.pred maxNestingDepth)).
Qed.

Lemma field_shape d k s : valid k -> Forall (fun p => valid (fst p) /\ shape d (snd p)) (field k s).
Proof. intros Hk. unfold field. case_bool_decide; constructor; [|constructor]. split; [done|apply jstr_shape]. Qed.

Lemma jactor_shape d a : shape (S d) (jactor a).
Proof.
  constructor.
  - unfold field. repeat case_bool_decide; solve_keys.
  - apply Forall_app. split; apply field_shape; apply literal_valid; vm_compute; reflexivity.
Qed.

Lemma jlabels_shape d l : shape (S (S d)) (jlabels l).
Proof.
  assert (Forall (shape (S d)) (jlabel <$> l)) as H.
  { apply Forall_fmap, Forall_true. intros x. constructor; [solve_keys|]. solve_fields. }
  unfold jlabels. destruct l; [constructor|]. by constructor.
Qed.

(** The meta map of a normalized request has valid, distinct keys. *)
Lemma jmeta_shape d (m : list (string * string)) :
  NoDup (fst <$> m) -> Forall (fun p => valid (fst p)) m -> shape (S d) (jmeta m).
Proof.
  intros Hnd Hv. unfold jmeta. destruct m as [|p0 m0]; [constructor|]. remember (p0 :: m0) as m eqn:Em.
  clear Em p0 m0. constructor.
  - rewrite <- list_fmap_compose.
    replace ((fst ∘ (λ p : string * string, (toValid p.1, jstr p.2))) <$> m) with (fst <$> m); [done|].
    induction Hv as [|p m Hp _ IH]; [done|]. rewrite !fmap_cons. simpl. f_equal.
    + by rewrite valid_toValid.
    + apply IH. by apply NoDup_cons in Hnd as [_ ?].
  - apply Forall_fmap, Forall_true. intros p. split; [apply toValid_valid|apply jstr_shape].
Qed.

(** ** Pages *)

Abbreviation entryRec := ((string * string * Z) * entryRow)%type.

Definition seqOf (p : entryRec) : Z := snd (fst p).

Lemma entriesAfter_elem d t j a p :
  p ∈ entriesAfter d t j a
  <-> journal_entries d !! fst p = Some (snd p) /\ fst (fst p) = (t, j) /\ a < seqOf p.
Proof.
  unfold entriesAfter. rewrite sortBy_perm, list_elem_of_filter. destruct p as [k r].
  rewrite elem_of_map_to_list. cbn [fst snd]. unfold seqOf. cbn [fst snd]. tauto.
Qed.

Lemma entriesAfter_inj d t j a p q :
  p ∈ entriesAfter d t j a -> q ∈ entriesAfter d t j a -> seqOf p = seqOf q -> p = q.
Proof.
  rewrite !entriesAfter_elem. destruct p as [[tj s] r], q as [[tj' s'] r']. unfold seqOf. cbn [fst snd].
  intros (Hr & -> & _) (Hr' & -> & _) ->. congruence.
Qed.

Lemma entriesAfter_sorted d t j a :
  NoDup (entriesAfter d t j a)
  /\ StronglySorted (fun p q => (seqOf p <? seqOf q) = true) (entriesAfter d t j a).
Proof.
  assert (NoDup (entriesAfter d t j a)) as Hnd.
  { unfold entriesAfter. rewrite sortBy_perm. apply NoDup_filter, NoDup_map_to_list. }
  split; [done|]. apply sortBy_sorted.
  - apply NoDup_filter, NoDup_map_to_list.
  - intros x y z. rewrite !Z.ltb_lt. lia.
  - intros p q Hp Hq. rewrite !Z.ltb_lt. destruct (Z.lt_total (seqOf p) (seqOf q)) as [?|[E|?]]; [by right; left| |by right; right].
    left. apply (entriesAfter_inj d t j a); [..|done]; unfold entriesAfter; by rewrite sortBy_perm.
Qed.

Lemma sorted_app_inv {A} (R : A -> A -> Prop) l1 l2 :
  StronglySorted R (l1 ++ l2) -> StronglySorted R l2 /\ forall x y, x ∈ l1 -> y ∈ l2 -> R x y.
Proof.
  induction l1 as [|z l1 IH]; simpl; intros H; [split; [done|set_solver]|].
  inversion H as [|z' l' Hs Hz]; subst. destruct (IH Hs) as [Hs2 Hc]. split; [done|].
  intros x y [->|Hx]%elem_of_cons Hy; [|by apply Hc]. rewrite Forall_forall in Hz. apply Hz. set_solver.
Qed.

(** After the last row of a page come the rows that follow the page. *)
Lemma entriesAfter_next d t j a page rest p :
  entriesAfter d t j a = page ++ rest -> last page = Some p -> entriesAfter d t j (seqOf p) = rest.
Proof.
  intros E Hl. destruct (entriesAfter_sorted d t j a) as [Hnd Hs]. rewrite E in Hnd, Hs.
  destruct (entriesAfter_sorted d t j (seqOf p)) as [Hnd' Hs'].
  apply last_Some in Hl as [page' ->]. apply NoDup_app in Hnd as (Hnd1 & Hdis & Hnd2).
  destruct (sorted_app_inv _ _ _ Hs) as [Hs2 Hlt].
  assert (forall q, q ∈ page' -> seqOf q < seqOf p) as Hpage.
  { intros q Hq. rewrite <- app_assoc in Hs. apply sorted_app_inv in Hs as [_ Hs].
    apply Z.ltb_lt, Hs; set_solver. }
  assert (forall q, q ∈ rest -> seqOf p < seqOf q) as Hrest by (intros q Hq; apply Z.ltb_lt, Hlt; set_solver).
  apply (StronglySorted_unique_strong (fun p q => (seqOf p <? seqOf q) = true)); [|done|done|].
  { intros x y _ _ ?%Z.ltb_lt ?%Z.ltb_lt. lia. }
  apply NoDup_Permutation; [done|done|]. intros q. rewrite entriesAfter_elem.
  assert (p ∈ entriesAfter d t j a) as Hp by (rewrite E; set_solver).
  apply entriesAfter_elem in Hp as (_ & _ & Hap). split.
  - intros (Hr & Hk & Hq). assert (q ∈ entriesAfter d t j a) as Hin by (apply entriesAfter_elem; split_and!; [done..|lia]).
    rewrite E in Hin. rewrite !elem_of_app in Hin. destruct Hin as [[Hin|Hin]|Hin]; [|..|done].
    + specialize (Hpage q Hin). lia.
    + apply list_elem_of_singleton in Hin as ->. lia.
  - intros Hq. assert (q ∈ entriesAfter d t j a) as Hin by (rewrite E; set_solver).
    apply entriesAfter_elem in Hin as (Hr & Hk & _). split_and!; [done..|]. by apply Hrest.
Qed.

(** ** Chains *)

(** [es] is a hash chain from [g] to [h]. *)
Inductive chained : string -> list Entry -> string -> Prop :=
  | chained_nil g : chained g [] g
  | chained_cons g e es h1 h : EPrevHash e = g -> EntryHash (withHash e "") = Some h1 ->
      EEntryHash e = h1 -> chained h1 es h -> chained g (e :: es) h.

Lemma chained_app g es h es' h' : chained g es h -> chained h es' h' -> chained g (es ++ es') h'.
Proof. induction 1; [done|]. intros. simpl. econstructor; eauto. Qed.

Lemma chained_snoc_inv g es e h :
  chained g (es ++ [e]) h ->
  exists g', chained g es g' /\ EPrevHash e = g' /\ EntryHash (withHash e "") = Some h.
Proof.
  revert g. induction es as [|e0 es IH]; intros g H; simpl in H; inversion H as [|g0 e1 es1 h1 h0 Hp Hh Hs Hc]; subst.
  - inversion Hc; subst. exists (EPrevHash e). split_and!; [constructor|done|done].
  - destruct (IH _ Hc) as (g' & Hc' & Hrest). exists g'. split; [|done]. by econstructor.
Qed.

(** The entries of a page, whatever the projection says. *)
Lemma verifyEntries_chain f es st st' :
  foldl (verifyEntry f) (Some st) es = Some st' ->
  count st' = count st + zlen es
  /\ (chainOK st' = true -> chainOK st = true /\ chained (prev st) es (prev st'))
  /\ (projOK st' = true -> projOK st = true /\ Forall (fun e => ESubjects e = f (ESeq e)) es).
Proof.
  revert st. induction es as [|e es IH]; intros st H.
  - cbn in H. simplify_eq. split_and!; [unfold zlen; simpl; lia|intros; split; [done|constructor]..].
  - cbn [foldl] in H. unfold verifyEntry at 2 in H. cbn [mbind option_bind] in H.
    destruct (EntryHash (withHash e "")) as [h|] eqn:Eh.
    2:{ exfalso. clear -H. cbn [mbind option_bind] in H. by induction es. }
    cbn [mbind option_bind] in H. destruct (IH _ H) as (Hc & Hok & Hp). clear IH H.
    cbn [prev chainOK projOK count] in *. split_and!.
    + rewrite Hc. unfold zlen. simpl. lia.
    + intros H. destruct (Hok H) as [H1 H2]. bool_prop. split; [done|]. econstructor; eauto.
    + intros H. destruct (Hp H) as [H1 H2]. bool_prop. split; [done|]. by constructor.
Qed.

Section chain.
Context (nfc toLower : string -> string) (reread : string -> string).

Abbreviation entriesOf d t j a := (scanEntry reread <$> entriesAfter d t j a).

Lemma scanEntry_seq p : ESeq (scanEntry reread p) = seqOf p.
Proof. by destruct p as [[[]] ]. Qed.

Lemma list_page d t j a es :
  ListJournalEntries reread d t j a MaxLimit = inl es ->
  es = take (Z.to_nat MaxLimit) (entriesOf d t j a).
Proof.
  unfold ListJournalEntries. destruct (_ || _); [done|]. destruct (ValidateJournalID j); [done|].
  rewrite fmap_take. destruct (_ && _); [done|]. intros [= <-]. done.
Qed.

(** The pages together check the whole chain. *)
Lemma verifyPages_chain fuel d t j a st st' :
  verifyPages nfc toLower reread fuel d t j a st = inl st' ->
  count st' = count st + zlen (entriesAfter d t j a)
  /\ (chainOK st' = true -> chainOK st = true /\ chained (prev st) (entriesOf d t j a) (prev st')).
Proof.
  revert a st. induction fuel as [|fuel IH]; intros a st H; [done|]. cbn [verifyPages] in H.
  destruct (ListJournalEntries _ _ _ _ _ _) as [es|] eqn:El; [|done]. apply list_page in El.
  destruct (last es) as [lst|] eqn:Elast.
  - destruct (verifyPage _ _ _ _ _ _ _) as [st1|] eqn:Ep; [|done].
    unfold verifyPage in Ep. destruct (head es) as [e0|] eqn:Eh; [|by destruct es]. rewrite Elast in Ep.
    destruct (loadJournalEntrySubjects _ _ _ _ _ _ _) as [[f ok]|]; [|done].
    apply verifyEntries_chain in Ep as (Hc1 & Hok1 & _). cbn [prev chainOK count] in *.
    set (page := take (Z.to_nat MaxLimit) (entriesAfter d t j a)).
    set (rest := drop (Z.to_nat MaxLimit) (entriesAfter d t j a)).
    assert (entriesAfter d t j a = page ++ rest) as Epr by (symmetry; apply take_drop).
    assert (es = scanEntry reread <$> page) as Ees by (rewrite El; symmetry; apply fmap_take).
    rewrite Ees, fmap_last in Elast. destruct (last page) as [p|] eqn:Epl; [|done].
    injection Elast as Elast.
    rewrite <- Elast, scanEntry_seq in H. destruct (IH _ _ H) as [Hc2 Hok2].
    rewrite (entriesAfter_next _ _ _ _ _ _ _ Epr Epl) in Hc2, Hok2.
    rewrite Epr, zlen_app, fmap_app. rewrite Ees in Hc1, Hok1. split.
    + rewrite Hc2, Hc1. unfold zlen. rewrite length_fmap. lia.
    + intros Hok. destruct (Hok2 Hok) as [H1 H2]. destruct (Hok1 H1) as [H3 H4]. split; [done|].
      by eapply chained_app.
  - injection H as <-. assert (entriesAfter d t j a = []) as ->.
    { apply last_None in Elast. rewrite Elast in El. symmetry in El. destruct (entriesAfter d t j a); [done|].
      exfalso. clear -El. cbn [fmap list_fmap] in El. unfold MaxLimit in El.
      destruct (Z.to_nat 1000) eqn:E1000; [done|]. done. }
    split; [unfold zlen; simpl; lia|]. intros. split; [done|constructor].
Qed.

End chain.

(** ** Tamper evidence *)

(** Two entries are hashed as the same document. *)
Definition sameEntry (e e' : Entry) : Prop :=
  exists v v', entryDoc e = Some v /\ entryDoc e' = Some v' /\ sameValue v v'.

Definition clashEntry (e e' : Entry) : Prop :=
  exists v v', entryDoc e = Some v /\ entryDoc e' = Some v' /\ clash v v'.

Lemma same_field m m' k v v' :
  sameValue (JObj m) (JObj m') -> NoDup (fst <$> m') -> (k, v) ∈ m -> (k, v') ∈ m' -> sameValue v v'.
Proof.
  intros Hs Hnd Hv Hv'. inversion Hs as [| | | | |m0 m1 m2 Hp Hm]; subst. rewrite Hp in Hv. clear Hp Hs.
  apply list_elem_of_lookup in Hv as [i Hi]. destruct (Forall2_lookup_l _ _ _ _ _ Hm Hi) as ([k2 v2] & Hi' & Hk & Hvv).
  cbn [fst snd] in *. subst k2. apply list_elem_of_lookup in Hv' as [i' Hi2].
  assert (i = i') as <-; [|congruence].
  eapply (NoDup_lookup (fst <$> m')); [done|..]; rewrite list_lookup_fmap; [by rewrite Hi'|by rewrite Hi2].
Qed.

Lemma hex_valid s : toValid (hashString s) = hashString s.
Proof.
  apply valid_toValid. unfold hashString. apply valid_app; [apply literal_valid; vm_compute; reflexivity|].
  induction (Sha256.sum256 s) as [|c u IH]; [apply valid_nil|]. cbn [Sha256.hexEncode].
  assert (forall n, 0 <= n < 16 -> valid (String (Sha256.hexDigit n) "")) as Hd.
  { intros n Hn. apply rune_valid. apply byte_rune. destruct (n <? 10) eqn:E; bool_prop; lia. }
  assert (0 <= code c < 256) by apply code_range.
  apply (valid_app (String _ "") (String _ _)); [apply Hd; split; [apply Z.div_pos; lia|apply Z.div_lt_upper_bound; lia]|].
  apply (valid_app (String _ "") _); [apply Hd, Z.mod_pos_bound; lia|done].
Qed.

Lemma HashCanonical_valid v h : HashCanonical v = Some h -> toValid h = h.
Proof. unfold HashCanonical. destruct (MarshalCanonical v); [|done]. intros [= <-]. apply hex_valid. Qed.

Lemma EntryHash_doc e h : EntryHash e = Some h -> exists v, entryDoc e = Some v /\ HashCanonical v = Some h.
Proof. unfold EntryHash. destruct (entryDoc e) as [v|]; [|done]. eauto. Qed.

Lemma chained_valid g es h : chained g es h -> toValid g = g -> toValid h = h.
Proof.
  induction 1 as [|g e es h1 h Hp Hh Hs _ IH]; intros Hg; [done|]. apply IH.
  apply EntryHash_doc in Hh as (v & _ & Hh). by eapply HashCanonical_valid.
Qed.

Lemma entryDoc_prev e v :
  entryDoc e = Some v ->
  exists m, v = JObj m /\ NoDup (fst <$> m) /\ ("prev_hash", jstr (EPrevHash e)) ∈ m.
Proof.
  intros H. pose proof (entryDoc_shape e v H) as Hs. unfold entryDoc in H. destruct (jraw _); [|done].
  cbn [mbind option_bind] in H. injection H as <-. eexists. split; [done|].
  apply wf_obj_inv in Hs as (d' & _ & Hnd & _). split; [done|]. set_solver.
Qed.

(** Equal hashes of entries: the same document and the same predecessor. *)
Lemma same_hash_entry e e' h :
  EntryHash e = Some h -> EntryHash e' = Some h ->
  (sameEntry e e' /\ toValid (EPrevHash e) = toValid (EPrevHash e')) \/ clashEntry e e'.
Proof.
  intros H H'. apply EntryHash_doc in H as (v & Hv & H). apply EntryHash_doc in H' as (v' & Hv' & H').
  destruct (hash_inj _ _ _ _ _ (entryDoc_shape _ _ Hv) (entryDoc_shape _ _ Hv') H H') as [Hs|?];
    [|right; by exists v, v'].
  left. split; [by exists v, v'|]. apply entryDoc_prev in Hv as (m & -> & _ & Hp).
  apply entryDoc_prev in Hv' as (m' & -> & Hnd & Hp').
  pose proof (same_field _ _ _ _ _ Hs Hnd Hp Hp') as Hf. by inversion Hf.
Qed.

Lemma withHash_doc e h : entryDoc (withHash e h) = entryDoc e.
Proof. done. Qed.

Lemma chains_agree es : forall g g' es' h,
  chained g es h -> chained g' es' h -> toValid g = g -> toValid g' = g' -> length es = length es' ->
  (g = g' /\ Forall2 sameEntry es es')
  \/ exists i e e', es !! i = Some e /\ es' !! i = Some e' /\ clashEntry e e'.
Proof.
  induction es as [|e es IH] using rev_ind; intros g g' es' h Hc Hc' Hg Hg' Hl.
  - destruct es' as [|]; [|done]. inversion Hc; inversion Hc'; subst. left. split; [congruence|constructor].
  - rewrite length_app in Hl. simpl in Hl. destruct es' as [|e' es' _] using rev_ind; [simpl in Hl; lia|].
    rewrite length_app in Hl. simpl in Hl. apply chained_snoc_inv in Hc as (g1 & Hc & Hp & Hh).
    apply chained_snoc_inv in Hc' as (g1' & Hc' & Hp' & Hh').
    destruct (same_hash_entry _ _ _ Hh Hh') as [[Hs He]|Hcl].
    2:{ right. exists (length es), e, e'. rewrite !list_lookup_middle by lia. done. }
    cbn [EPrevHash withHash] in He. rewrite Hp, Hp', (chained_valid _ _ _ Hc Hg), (chained_valid _ _ _ Hc' Hg') in He.
    rewrite He in Hc. destruct (IH g g' es' g1' Hc Hc' Hg Hg' ltac:(lia)) as [[-> Hf]|(i & x & x' & Hx & Hx' & Hcl)].
    2:{ right. exists i, x, x'. rewrite !lookup_app_l by (by eapply lookup_lt_Some). done. }
    left. split; [done|]. apply Forall2_app; [done|]. by repeat constructor.
Qed.

Section tamper.
Context (nfc toLower : string -> string) (order : gmap string string -> list (string * string)).
Context (reread : string -> string) (floatText : string -> option string).

(** The genesis document and the entries that a reader of the tables sees. *)
Definition genesisOf (d : db) (t j : string) : option json :=
  r ← journals d !! (t, j); doc ← decodeOne (reread (genesis r)); unmarshalAny floatText doc.
Definition historyOf (d : db) (t j : string) : list Entry := scanEntry reread <$> entriesAfter d t j 0.

Lemma unmarshalAny_shape v : forall d w, wf d v -> unmarshalAny floatText v = Some w -> shape d w.
Proof.
  induction v as [|b|n|s|l IH|m IH] using json_rect'; intros d w Hv H; simpl in H.
  - injection H as <-. constructor.
  - injection H as <-. constructor.
  - destruct (refloat floatText n); [|done]. injection H as <-. by constructor.
  - injection H as <-. inversion Hv; subst. by constructor.
  - apply wf_arr_inv in Hv as (d' & -> & Hl). destruct (allSome _) as [l'|] eqn:E; [|done]. injection H as <-.
    constructor. apply allSome_Some in E. revert l' E.
    induction IH as [|v l Hv _ IH']; intros [|w l'] E; try done.
    apply Forall_cons in Hl as [Hwv Hl]. rewrite !fmap_cons in E. injection E as E1 E2.
    constructor; [by eapply Hv|by apply IH'].
  - apply wf_obj_inv in Hv as (d' & -> & Hnd & Hm). destruct (allSome _) as [m'|] eqn:E; [|done].
    injection H as <-. apply allSome_Some in E.
    assert (fst <$> m' = fst <$> m /\ Forall (fun p => valid (fst p) /\ shape d' (snd p)) m') as [Hk Hf].
    { clear Hnd. revert m' E. induction IH as [|p m Hp _ IH']; intros [|q m'] E; try done.
      apply Forall_cons in Hm as [[Hk Hwp] Hm]. rewrite !fmap_cons in E.
      destruct (unmarshalAny floatText (snd p)) as [w|] eqn:Ew; [|done]. injection E as E1 E2. subst q.
      destruct (IH' Hm m' E2) as [IH1 IH2]. split; [rewrite !fmap_cons; by rewrite IH1|].
      constructor; [split; [done|by eapply Hp]|done]. }
    constructor; [by rewrite Hk|done].
Qed.

Lemma verify_chain d t j r :
  VerifyJournal nfc toLower order reread floatText d t j = inl r -> HashChainOK r = true ->
  exists g gh, genesisOf d t j = Some g /\ shape maxNestingDepth g /\ HashCanonical g = Some gh
    /\ chained gh (historyOf d t j) (VHeadHash r) /\ Entries r = zlen (historyOf d t j).
Proof.
  unfold VerifyJournal, verifyWith, genesisOf. intros H Hok.
  destruct (journals d !! (t, j)) as [row|]; [|done]. cbn [mbind option_bind].
  destruct (decodeOne (reread (genesis row))) as [doc|] eqn:Ed; [|done]. cbn [mbind option_bind] in *.
  destruct (unmarshalAny floatText doc) as [g|] eqn:Eg; [|done]. cbn [mbind option_bind] in *.
  destruct (HashCanonical g) as [gh|] eqn:Eh; [|done]. cbn [mbind option_bind] in H.
  destruct (LabelsFromGenesis _ _ _ doc) as [ls|]; [|done]. cbn [mbind option_bind] in H.
  destruct (loadJournalLabels _ _ _ _ _) as [ls' lok]. destruct (verifyPages _ _ _ _ _ _ _ _ _) as [st|] eqn:Ev; [|done].
  injection H as <-. cbn [HashChainOK VHeadHash Entries] in *. bool_prop.
  apply verifyPages_chain in Ev as [Hcount Hch]. destruct (Hch ltac:(done)) as [_ Hchain]. cbn [prev count] in *.
  exists g, gh. split_and!; [done| |done| |].
  - eapply unmarshalAny_shape; [by eapply decodeOne_wf|done].
  - unfold historyOf. congruence.
  - rewrite Hcount. unfold historyOf, zlen. rewrite length_fmap. lia.
Qed.

(** C27: the journal is tamper evident.  If two states of the tables, say the one a
    client saw and a later one, verify for a journal with the same head hash and the
    same number of entries, then they have the same genesis document and the same
    entries as documents, in the same order: nothing before a known head can be
    changed, dropped, reordered or inserted unnoticed.  Otherwise the two histories
    exhibit a collision of SHA-256: at some position they hold different documents
    whose canonical texts have the same sum. *)
Theorem journal_tamper_evident d d' t j r r' :
  VerifyJournal nfc toLower order reread floatText d t j = inl r ->
  VerifyJournal nfc toLower order reread floatText d' t j = inl r' ->
  HashChainOK r = true -> HashChainOK r' = true ->
  VHeadHash r = VHeadHash r' -> Entries r = Entries r' ->
  exists g g', genesisOf d t j = Some g /\ genesisOf d' t j = Some g'
    /\ (sameValue g g' /\ Forall2 sameEntry (historyOf d t j) (historyOf d' t j)
        \/ clash g g'
        \/ exists i e e', historyOf d t j !! i = Some e /\ historyOf d' t j !! i = Some e' /\ clashEntry e e').
Proof.
  intros H H' Hok Hok' Hh Hn. destruct (verify_chain _ _ _ _ H Hok) as (g & gh & Hg & Hs & Hgh & Hc & He).
  destruct (verify_chain _ _ _ _ H' Hok') as (g' & gh' & Hg' & Hs' & Hgh' & Hc' & He').
  exists g, g'. split; [done|]. split; [done|].
  rewrite Hh in Hc. destruct (chains_agree _ _ _ _ _ Hc Hc') as [[-> Hf]|?]; [..|by right; right].
  - by eapply HashCanonical_valid.
  - by eapply HashCanonical_valid.
  - unfold zlen in *. lia.
  - destruct (hash_inj _ _ _ _ _ Hs Hs' Hgh Hgh') as [Hv|?]; [by left|by right; left].
Qed.

End tamper.

End JournalProps.
