(* ===== verification/JournalVerify.v ===== *)
(** * Journals verify

    The invariant of the journal tables under [CreateJournal] and
    [AppendJournalEntries]: every journal is a hash chain from its genesis document to
    its head, and the label and subject projections are what the documents say.  From
    it follows that a journal always verifies.  What MySQL returns for a JSON column is
    assumed to have the same value as the stored text when its numbers are plain
    integers. *)

From Stdlib Require Import Strings.Ascii.
From S2P Require Import Prelude GoStrings PathUtil Json Sha256 JournalDoc JournalStore JournalNorm JournalProps.

Import GoStr Paths Json Journal JStore JournalNorm JournalProps.

Module JournalVerify.

#[local] Arguments String.append !_ _ / : simpl nomatch.

(** Documents whose numbers are plain integers. *)
Definition plainDoc (v : json) : Prop := exists d, wfG (fun n => plainNum n = true) d v.

(** The law of a JSON column. *)
Class ColumnLaw (reread : string -> string) : Prop :=
  column_value : forall t v, decodeOne t = Some v -> plainDoc v ->
    exists v', decodeOne (reread t) = Some v' /\ sameValue v v'.

(** ** Fields of documents *)

Lemma getField_elem {A} (m : list (string * A)) k v :
  NoDup (fst <$> m) -> (k, v) ∈ m -> getField m k = Some v.
Proof.
  intros Hnd Hin. unfold getField. destruct (filter _ m) as [|[k' v'] l] eqn:E.
  - exfalso. assert ((k, v) ∈ filter (fun p => fst p = k) m) as H by (by apply list_elem_of_filter).
    rewrite E in H. set_solver.
  - simpl. assert ((k', v') ∈ filter (fun p => fst p = k) m) as H by (rewrite E; set_solver).
    apply list_elem_of_filter in H as [Hk H]. simpl in Hk. subst k'.
    apply list_elem_of_lookup in Hin as [i Hi]. apply list_elem_of_lookup in H as [i' Hi'].
    assert (i = i') as <-; [|congruence].
    eapply (NoDup_lookup (fst <$> m)); [done|..]; rewrite list_lookup_fmap; [by rewrite Hi|by rewrite Hi'].
Qed.

Lemma same_getField P d m v' :
  sameValue (JObj m) v' -> wfG P d v' ->
  exists m', v' = JObj m' /\ forall k v, (k, v) ∈ m -> exists w, getField m' k = Some w /\ sameValue v w.
Proof.
  intros Hs Hw. inversion Hs as [| | | | |m0 m1 m' Hp Hm]; subst. exists m'. split; [done|].
  intros k v Hin. rewrite Hp in Hin. apply list_elem_of_lookup in Hin as [i Hi].
  destruct (Forall2_lookup_l _ _ _ _ _ Hm Hi) as ([k2 w] & Hi' & Hk & Hvw). simpl in *. subst k2.
  exists w. split; [|done]. apply wf_obj_inv in Hw as (d' & _ & Hnd & _).
  apply getField_elem; [done|]. by eapply list_elem_of_lookup_2.
Qed.

Lemma same_str s w : sameValue (JStr s) w -> w = JStr s.
Proof. by inversion 1. Qed.

Lemma asLabel_same P d l w :
  sameValue (jlabel l) w -> wfG P d w -> valid (Key l) -> valid (Value l) -> asLabel w = Some l.
Proof.
  intros Hs Hw Hk Hv. destruct (same_getField _ _ _ _ Hs Hw) as (m' & -> & Hget). simpl.
  destruct (Hget "key" (jstr (Key l))) as (w1 & -> & ->%same_str); [set_solver|].
  destruct (Hget "value" (jstr (Value l))) as (w2 & -> & ->%same_str); [set_solver|].
  simpl. rewrite !valid_toValid by done. by destruct l.
Qed.

Lemma labels_same P d ls w :
  sameValue (jlabels ls) w -> wfG P d w -> Forall (fun l => valid (Key l) /\ valid (Value l)) ls ->
  match w with JNull => Some [] | JArr l => allSome (asLabel <$> l) | _ => None end = Some ls.
Proof.
  intros Hs Hw Hv. destruct ls as [|l0 ls0]; [by inversion Hs|]. unfold jlabels in Hs.
  remember (l0 :: ls0) as ls eqn:E. clear E l0 ls0. inversion Hs as [| | | |l1 l' Hl|]; subst.
  apply wf_arr_inv in Hw as (d' & -> & Hw). apply allSome_Some. clear Hs. revert l' Hl Hw.
  induction Hv as [|l ls [Hk Hval] _ IH]; intros l' Hl Hw; inversion Hl as [|x y xs ys Hxy Hl2]; subst; [done|].
  apply Forall_cons in Hw as [Hwy Hw]. rewrite !fmap_cons. f_equal; [by eapply asLabel_same|by apply IH].
Qed.

(** A map of strings survives the document. *)
Lemma meta_same order (M : gmap string string) w :
  iterates order -> Forall (fun p => valid (fst p) /\ valid (snd p)) (order M) ->
  sameValue (jmeta (order M)) w ->
  match w with
  | JNull => Some ∅
  | JObj fields =>
      l ← allSome ((fun p => option_map (fun s => (fst p, s)) (asString (snd p))) <$> fields);
      Some (list_to_map l : gmap string string)
  | _ => None
  end = Some M.
Proof.
  intros Ho Hv Hs. destruct (order M) as [|p0 l0] eqn:E.
  - simpl in Hs. inversion Hs; subst. f_equal. specialize (Ho M). rewrite E in Ho.
    symmetry in Ho. apply Permutation_nil_r in Ho. symmetry. by apply map_to_list_empty_iff.
  - unfold jmeta in Hs. rewrite <- E in *. clear E p0 l0. inversion Hs as [| | | | |m0 m1 fields Hp Hm]; subst.
    assert (forall (m : list (string * json)) fields,
      Forall (fun p => exists s, snd p = JStr s) m ->
      Forall2 (fun p q => fst p = fst q /\ sameValue (snd p) (snd q)) m fields -> m = fields) as Heq.
    { intros m f Hm' H2. induction H2 as [|[k v] [k' v'] m f [Hk Hvv] H2 IH]; [done|]. simpl in *. subst k'.
      apply Forall_cons in Hm' as [[s Es] Hm']. simpl in Es. subst v. apply same_str in Hvv as ->.
      by rewrite IH. }
    apply Heq in Hm as <-.
    2:{ rewrite <- Hp. apply Forall_fmap, Forall_true. intros p. by eexists. }
    symmetry in Hp. apply Permutation_map_inv in Hp as (l & -> & Hp).
    assert (allSome ((λ p : string * json, option_map (λ s : string, (p.1, s)) (asString p.2)) <$>
      ((λ p : string * string, (toValid p.1, jstr p.2)) <$> l)) = Some l) as El.
    { apply allSome_Some. rewrite <- list_fmap_compose. apply fmap_Forall_ext. rewrite <- Hp.
      eapply Forall_impl; [exact Hv|]. intros [k v] [Hk Hval]. simpl in *. by rewrite !valid_toValid. }
    change (map (λ p : string * string, (toValid p.1, jstr p.2)) l)
      with ((λ p : string * string, (toValid p.1, jstr p.2)) <$> l). rewrite El. cbn [mbind option_bind].
    f_equal. rewrite (list_to_map_proper l (order M)); [rewrite (list_to_map_proper (order M) (map_to_list M))| |].
    + apply list_to_map_to_list.
    + rewrite (Ho M). apply NoDup_fst_map_to_list.
    + apply Ho.
    + rewrite <- Hp, (Ho M). apply NoDup_fst_map_to_list.
    + by rewrite Hp.
Qed.

Lemma same_wfG P v : forall k v', wfG P k v -> sameValue v v' -> wfG P k v'.
Proof.
  induction v as [| | | |l IH|m IH] using json_rect'; intros k v' Hv Hs; try by (inversion Hs; subst).
  - inversion Hs as [| | | |l1 l' Hl|]; subst. apply wf_arr_inv in Hv as (k' & -> & Hw). constructor.
    clear Hs. revert l' Hl. induction IH as [|v l Hv _ IH']; intros l' Hl; inversion Hl; subst; [constructor|].
    apply Forall_cons in Hw as [Hwv Hw]. constructor; [by apply Hv|by apply IH'].
  - inversion Hs as [| | | | |m0 m1 m' Hp Hm]; subst. apply wf_obj_inv in Hv as (k' & -> & Hnd & Hw).
    rewrite Hp in Hnd, Hw, IH. clear Hs Hp.
    assert (fst <$> m' = fst <$> m1 /\ Forall (fun p => valid (fst p) /\ wfG P k' (snd p)) m') as [Hk Hf].
    { clear Hnd. revert m' Hm. induction IH as [|p l Hp _ IH']; intros m' Hm; inversion Hm as [|p' q l1 l2 [Ek Ev] Hm2]; subst;
        [done|]. apply Forall_cons in Hw as [[Hval Hwp] Hw]. destruct (IH' Hw l2 Hm2) as [E1 E2].
      rewrite !fmap_cons, E1, Ek. split; [done|]. constructor; [|done]. rewrite <- Ek. split; [done|by apply Hp]. }
    constructor; [by rewrite Hk|done].
Qed.

Lemma unmarshal_plain floatText v : forall k, wfG (fun n => plainNum n = true) k v -> unmarshalAny floatText v = Some v.
Proof.
  induction v as [| |n| |l IH|m IH] using json_rect'; intros k Hv; try done.
  - inversion Hv as [| |k' n' Hn| | |]; subst. simpl. unfold refloat. by rewrite Hn.
  - apply wf_arr_inv in Hv as (k' & -> & Hl). simpl. rewrite (proj2 (allSome_Some _ l)); [done|].
    apply fmap_Forall_ext. eapply Forall_impl2; [exact IH|exact Hl|]. simpl. eauto.
  - apply wf_obj_inv in Hv as (k' & -> & _ & Hm). simpl. rewrite (proj2 (allSome_Some _ m)); [done|].
    apply fmap_Forall_ext. eapply Forall_impl2; [exact IH|exact Hm|]. intros [x v] Hx [_ Hw]. simpl in *.
    by rewrite (Hx _ Hw).
Qed.

Lemma chained_app_inv g l1 l2 h : chained g (l1 ++ l2) h -> exists m, chained g l1 m /\ chained m l2 h.
Proof.
  revert g. induction l1 as [|e l1 IH]; intros g H; [by exists g; split; [constructor|]|].
  inversion H as [|g0 e0 l0 h1 h0 Hp Hh Hs Hc]; subst. destruct (IH _ Hc) as (m & H1 & H2).
  exists m. split; [by econstructor|done].
Qed.

Section verify.
Context {nfc toLower : string -> string} {laws : UnicodeLaws nfc toLower}.
Context {order : gmap string string -> list (string * string)} {Horder : iterates order}.
Context {reread : string -> string} {column : ColumnLaw reread}.
Context {floatText : string -> option string}.

#[local] Unset Default Proof Using.

Abbreviation Create := (CreateJournal nfc toLower order reread).
Abbreviation Append := (AppendJournalEntries nfc toLower reread).
Abbreviation Verify := (VerifyJournal nfc toLower order reread floatText).

(** ** The genesis document *)

Lemma labelsOk_valid ls :
  labelsOk (nfc := nfc) ls -> Forall (fun l => valid (Key l) /\ valid (Value l)) ls.
Proof.
  intros [Hg _ _ _]. eapply Forall_impl; [exact Hg|]. intros l (Hk & Hv & _).
  split; [by eapply name_valid|by apply ValidString_valid].
Qed.

Lemma meta_valid ls :
  labelsOk (nfc := nfc) ls -> Forall (fun p => valid (fst p) /\ valid (snd p)) (order (LabelsToMap ls)).
Proof.
  intros Hok. apply labelsOk_valid in Hok. rewrite Forall_forall in Hok. apply Forall_forall. intros [k v] Hp.
  apply (Hok {| Key := k; Value := v |}). eapply labels_of_meta; [done|].
  unfold LabelsFromMap. apply list_elem_of_fmap. by exists (k, v).
Qed.

(** A request that was normalized and validated. *)
Definition requestOk (req : CreateRequest) : Prop :=
  labelsOk (nfc := nfc) (Labels req) /\ Meta req = LabelsToMap (Labels req).

Lemma genesis_shape t req now g :
  GenesisDocument order t req now = Some g -> requestOk req -> shape (S maxNestingDepth) g.
Proof.
  intros H [Hl Hm]. unfold GenesisDocument in H. destruct (jraw (Retention req)) as [r|] eqn:Er; [|done].
  apply jraw_shape in Er. injection H as <-.
  assert (shape maxNestingDepth (jmeta (order (Meta req)))) as Hmeta.
  { rewrite Hm. apply (jmeta_shape (Nat.pred maxNestingDepth)).
    - rewrite (Horder (LabelsToMap (Labels req))). apply NoDup_fst_map_to_list.
    - eapply Forall_impl; [apply meta_valid; exact Hl|]. by intros p []. }
  assert (shape maxNestingDepth (jlabels (Labels req))) as Hlabels
    by apply (jlabels_shape (Nat.pred (Nat.pred maxNestingDepth))).
  assert (shape maxNestingDepth (jactor (RActor req))) as Hactor
    by apply (jactor_shape (Nat.pred maxNestingDepth)).
  constructor.
  - apply (bool_decide_unpack _). vm_compute. exact I.
  - cbn [createFields app].
    repeat (constructor; [split; [apply literal_valid; vm_compute; reflexivity|cbn [snd];
      first [apply jstr_shape | assumption]]|]). constructor.
Qed.

(** The labels are read back from the document. *)
Lemma genesis_labels t req now g d v :
  GenesisDocument order t req now = Some g -> requestOk req -> sameValue g v -> wf d v ->
  LabelsFromGenesis nfc toLower order v = Some (Labels req).
Proof.
  intros H [Hl Hm] Hs Hw. unfold GenesisDocument in H. destruct (jraw (Retention req)) as [r|]; [|done].
  cbn [mbind option_bind] in H. injection H as <-. destruct (same_getField _ _ _ _ Hs Hw) as (m & -> & Hget).
  destruct (Hget "meta" (jmeta (order (Meta req)))) as (w1 & E1 & Hs1); [by apply (list_elem_of_lookup_2 _ 6)|].
  destruct (Hget "labels" (jlabels (Labels req))) as (w2 & E2 & Hs2); [by apply (list_elem_of_lookup_2 _ 7)|].
  assert (wf d w2) as Hw2.
  { apply wf_obj_inv in Hw as (d' & -> & Hnd & Hall). unfold getField in E2.
    destruct (filter _ m) as [|p l] eqn:Ef; [done|]. injection E2 as <-.
    assert (p ∈ filter (fun p => fst p = "labels") m) as Hp by (rewrite Ef; apply elem_of_cons; by left).
    apply list_elem_of_filter in Hp as [_ Hp].
    rewrite Forall_forall in Hall. destruct (Hall p Hp) as [_ Hwp]. eapply wfG_mono; [|exact Hwp|lia]. done. }
  unfold LabelsFromGenesis, genesisLabels. rewrite E1, E2. cbn [default].
  rewrite Hm in Hs1. pose proof (meta_same order (LabelsToMap (Labels req)) w1 Horder (meta_valid _ Hl) Hs1) as M1.
  pose proof (labels_same _ _ _ _ Hs2 Hw2 (labelsOk_valid _ Hl)) as M2.
  cbn [from_option id] in M1, M2 |- *. rewrite M1. cbn [mbind option_bind]. rewrite M2. cbn [mbind option_bind fst snd].
  rewrite normalize_labels_again; [|done|intros x Hx; by apply (labels_of_meta order)]. by rewrite (lo_valid _ Hl).
Qed.

(** ** Entries and their rows *)

Lemma default_nullStr s : default "" (nullStr s) = s.
Proof. unfold nullStr. by case_bool_decide. Qed.

Lemma jstrs_toValid (l : list string) : jstr <$> (toValid <$> l) = jstr <$> l.
Proof. rewrite <- list_fmap_compose. apply list_fmap_ext. intros i x _. unfold compose, jstr. by rewrite toValid_idemp. Qed.

Lemma NormalizeTime_idemp z : NormalizeTime (NormalizeTime z) = NormalizeTime z.
Proof. unfold NormalizeTime. by rewrite Z.div_mul by lia. Qed.

(** A stored summary has plain numbers. *)
Definition plainSummary (e : Entry) : Prop := forall v, jraw (ESummary e) = Some v -> plainDoc v.

Definition timesOk (e : Entry) : Prop :=
  NormalizeTime (EOccurredAt e) = EOccurredAt e /\ NormalizeTime (EObservedAt e) = EObservedAt e.

Lemma scan_summary e v :
  jraw (ESummary e) = Some v -> plainDoc v ->
  exists v', jraw (match nullJSON (ESummary e) with Some t => reread t | None => "" end) = Some v'
    /\ sameValue v v'.
Proof.
  intros Hv Hp. unfold nullJSON. case_bool_decide as E1; [|case_bool_decide as E2]; cbn [orb].
  - rewrite E1 in Hv. exists v. split; [done|apply same_refl].
  - rewrite E2 in Hv. exists v. split; [done|apply same_refl].
  - unfold jraw, nullIfEmpty in Hv. rewrite bool_decide_false in Hv by done.
    destruct (column_value _ _ Hv Hp) as (v' & Hv' & Hs). exists v'. split; [|done].
    unfold jraw, nullIfEmpty. rewrite bool_decide_false; [done|]. intros E. rewrite E in Hv'. vm_compute in Hv'. done.
Qed.

(** The scanned entry hashes as the one that was written. *)
Lemma scan_hash e :
  timesOk e -> plainSummary e ->
  let e' := scanEntry reread ((ETenantID e, EJournalID e, ESeq e), rowOf e) in
  EPrevHash e' = EPrevHash e /\ EEntryHash e' = EEntryHash e /\ ESeq e' = ESeq e
  /\ ESubjects e' = toValid <$> ESubjects e
  /\ (forall h, EntryHash (withHash e "") = Some h -> EntryHash (withHash e' "") = Some h).
Proof.
  intros [Ho1 Ho2] Hp e'. split_and!; [done..|]. intros h Hh. apply EntryHash_doc in Hh as (v & Hv & Hh).
  pose proof (entryDoc_shape _ _ Hv) as Hsh. unfold entryDoc in Hv. cbn [ESummary withHash] in Hv.
  destruct (jraw (ESummary e)) as [s|] eqn:Es; [|done]. destruct (scan_summary e s Es (Hp s Es)) as (s' & Es' & Hs).
  assert (exists v', entryDoc (withHash e' "") = Some v' /\ canon v' = canon v) as (v' & Hv' & Ec).
  { unfold entryDoc. cbn [ESummary withHash e' scanEntry rowOf summary]. rewrite Es'. cbn [mbind option_bind].
    eexists. split; [reflexivity|]. cbn [mbind option_bind] in Hv. injection Hv as <-. rewrite !canon_obj.
    pose proof (jraw_shape _ _ Es) as Hsh1. pose proof (same_canon _ _ _ _ Hsh1 Hs) as Ecs.
    cbn [ETenantID EJournalID ESeq EEntryID EType ESchemaVersion EStatus EOccurredAt EObservedAt EActor
      ESource EParentEntryID ECorrelationID ESubjects EPrevHash withHash e' scanEntry rowOf type entry_id
      schema_version status occurred_at observed_at eactor_type eactor_id source parent_entry_id
      correlation_id subjects prev_hash ActorType ActorID].
    rewrite !default_nullStr, Ho1, Ho2, jstrs_toValid. cbn [fmap list_fmap]. unfold onValue at 16 34.
    cbn [fst snd]. by rewrite Ecs. }
  unfold EntryHash. rewrite Hv'. cbn [mbind option_bind].
  rewrite <- Hh. eapply hash_same; [by eapply entryDoc_shape|exact Hsh|done].
Qed.

(** ** What the tables hold for a journal *)

Definition subjectRowOf (e : Entry) (id : string) : subjectRow :=
  {| subject_id := id; s_occurred_at := EOccurredAt e; s_entry_id := EEntryID e |}.

Record entryOk (t j : string) (i : nat) (e : Entry) : Prop := {
  eo_key : (ETenantID e, EJournalID e, ESeq e) = (t, j, Z.of_nat i + 1);
  eo_times : timesOk e;
  eo_sorted : subjectsOk (ESubjects e);
  eo_good : Forall (goodSubject (nfc := nfc) (toLower := toLower)) (ESubjects e)
}.

(** [r] is the row of a journal created by [req] at [now], with the entries [es]. *)
Record journalOk (d : db) (t j : string) (r : journalRow) (req : CreateRequest) (now : Z) (es : list Entry)
    : Prop := {
  jo_request : requestOk req;
  jo_genesis : exists g, GenesisDocument order t req now = Some g
    /\ MarshalCanonical g = Some (genesis r) /\ HashCanonical g = Some (genesis_hash r);
  jo_labels : forall k h row, journal_labels d !! (t, j, k, h) = Some row ->
    h = LabelHash k (label_value row) /\ {| Key := k; Value := label_value row |} ∈ Labels req;
  jo_labels' : forall l, l ∈ Labels req -> exists row,
    journal_labels d !! (t, j, Key l, LabelHash (Key l) (Value l)) = Some row /\ label_value row = Value l;
  jo_chain : chained (genesis_hash r) es (head_hash r);
  jo_next : next_seq r = zlen es + 1;
  jo_open : closed_at r = None;
  jo_entry : forall i e, es !! i = Some e -> entryOk t j i e;
  jo_rows : forall s row, journal_entries d !! (t, j, s) = Some row <->
    exists e, e ∈ es /\ ESeq e = s /\ row = rowOf e;
  jo_subjects : forall s ty h row, entry_subjects d !! (t, j, s, ty, h) = Some row <->
    exists e id, e ∈ es /\ ESeq e = s /\ ty +:+ ":" +:+ id ∈ ESubjects e
      /\ ParseSubject nfc toLower (ty +:+ ":" +:+ id) = inl (ty, id)
      /\ h = SubjectHash ty id /\ row = subjectRowOf e id
}.

(** ** The label projection *)

Lemma loadLabels_good rows : forall ls,
  Forall (fun p => goodLabel (nfc := nfc) (labelOf p)
                   /\ snd (fst p) = LabelHash (Key (labelOf p)) (Value (labelOf p))) rows ->
  foldl (loadLabel nfc toLower) (ls, true) rows = (ls ++ (labelOf <$> rows), true).
Proof.
  induction rows as [|p rows IH]; intros ls H; [by rewrite app_nil_r|].
  apply Forall_cons in H as [[Hg Hh] H]. cbn [foldl]. unfold loadLabel at 2. rewrite goodLabel_norm by done.
  assert (ValidateLabels [labelOf p] = None) as ->.
  { destruct Hg as (H1 & H2 & _ & H3). unfold ValidateLabels. cbn [zlen length]. apply validateLabelList_ok. by constructor. }
  rewrite bool_decide_true, bool_decide_true by done. cbn [andb]. rewrite IH by done. by rewrite <- app_assoc.
Qed.

Section ok.
Context {d : db} {t j : string} {r : journalRow} {req : CreateRequest} {now : Z} {es : list Entry}.
Context (Hok : journalOk d t j r req now es).

Lemma labelRows_elem p :
  p ∈ labelRows d t j <-> journal_labels d !! fst p = Some (snd p) /\ fst (fst (fst p)) = (t, j).
Proof.
  unfold labelRows. rewrite sortBy_perm, list_elem_of_filter. destruct p as [k row].
  rewrite elem_of_map_to_list. simpl. tauto.
Qed.

Lemma labelRow_ok p :
  p ∈ labelRows d t j -> snd (fst p) = LabelHash (Key (labelOf p)) (Value (labelOf p)) /\ labelOf p ∈ Labels req.
Proof.
  rewrite labelRows_elem. destruct p as [[[tj k] h] row]. simpl. intros [Hp ->].
  exact (jo_labels _ _ _ _ _ _ _ Hok k h row Hp).
Qed.

Lemma labelRows_ok : labelOf <$> labelRows d t j = Labels req.
Proof.
  destruct (jo_request _ _ _ _ _ _ _ Hok) as [[Hg Hs Hf _] _]. unfold labelRows.
  set (rows := filter _ _).
  assert (forall p, p ∈ rows <-> p ∈ labelRows d t j) as Hrows by (intros p; unfold labelRows; by rewrite sortBy_perm).
  rewrite <- (sortBy_fmap _ labelLt labelOf) by done.
  assert (NoDup rows) as Hnd by apply NoDup_filter, NoDup_map_to_list.
  assert (NoDup (labelOf <$> rows)) as Hnd2.
  { apply NoDup_fmap_2_strong; [|done]. intros p q Hp%Hrows Hq%Hrows E.
    destruct (labelRow_ok p Hp) as [Eh _], (labelRow_ok q Hq) as [Eh' _].
    apply labelRows_elem in Hp as [Hp Ep], Hq as [Hq Eq].
    rewrite E, <- Eh' in Eh. destruct p as [[[tj k] h] row], q as [[[tj' k'] h'] row']. simpl in *.
    injection E as -> _. simplify_eq. congruence. }
  transitivity (sortBy labelLt (Labels req)); [|by apply sortBy_sorted_id; [|apply labelLt_asym]].
  apply sortBy_unique; [apply labelLt_irrefl|apply labelLt_trans|done|intros; apply labelLt_total|].
  apply NoDup_Permutation; [done|by apply NoDup_fmap_1 in Hf|]. intros l. rewrite list_elem_of_fmap. split.
  - intros (p & -> & Hp%Hrows). by apply labelRow_ok.
  - intros Hl. destruct (jo_labels' _ _ _ _ _ _ _ Hok l Hl) as (row & Hrow & Ev).
    exists ((t, j, Key l, LabelHash (Key l) (Value l)), row). split; [unfold labelOf; cbn [fst snd]; rewrite Ev; by destruct l|].
    apply Hrows, labelRows_elem. done.
Qed.

Lemma labels_load : loadJournalLabels nfc toLower d t j = (Labels req, true).
Proof.
  destruct (jo_request _ _ _ _ _ _ _ Hok) as [Hl _]. unfold loadJournalLabels. rewrite loadLabels_good.
  - rewrite labelRows_ok. cbn [app]. rewrite (normalize_labels_again [] (Labels req)) by (done || set_solver).
    by rewrite (lo_valid _ Hl).
  - apply Forall_forall. intros p Hp. destruct (labelRow_ok p Hp) as [Hh Hin]. split; [|done].
    pose proof (lo_good _ Hl) as Hg. rewrite Forall_forall in Hg. by apply Hg.
Qed.

(** ** Entry rows *)

Lemma entry_elem e : e ∈ es -> exists i, es !! i = Some e /\ entryOk t j i e.
Proof. intros [i Hi]%list_elem_of_lookup. exists i. split; [done|]. exact (jo_entry _ _ _ _ _ _ _ Hok i e Hi). Qed.

Lemma entry_inj e e' : e ∈ es -> e' ∈ es -> ESeq e = ESeq e' -> e = e'.
Proof.
  intros (i & Hi & [Hk _ _ _])%entry_elem (i' & Hi' & [Hk' _ _ _])%entry_elem E.
  injection Hk as _ _ Hk. injection Hk' as _ _ Hk'. assert (i = i') as <- by lia. congruence.
Qed.

Definition entryRecOf (e : Entry) : entryRec := ((t, j, ESeq e), rowOf e).

Lemma drop_sorted n : StronglySorted (fun p q => (seqOf p <? seqOf q) = true) (entryRecOf <$> drop n es).
Proof.
  assert (forall i e, drop n es !! i = Some e -> ESeq e = Z.of_nat n + Z.of_nat i + 1) as Hseq.
  { intros i e He. rewrite lookup_drop in He. destruct (jo_entry _ _ _ _ _ _ _ Hok _ _ He) as [Hk _ _ _].
    injection Hk as _ _ Hk. lia. }
  remember (drop n es) as l eqn:E. clear E. revert n Hseq. clear. induction l as [|e l IH]; intros n Hseq; [constructor|].
  rewrite fmap_cons. constructor.
  - apply (IH (S n)). intros i e' He'. rewrite (Hseq (S i) e' He'). lia.
  - apply Forall_fmap, Forall_forall. intros e' [i Hi]%list_elem_of_lookup. unfold compose, seqOf, entryRecOf. simpl.
    apply Z.ltb_lt. rewrite (Hseq 0%nat e eq_refl), (Hseq (S i) e' Hi). lia.
Qed.

Lemma entriesAfter_ok n : entriesAfter d t j (Z.of_nat n) = entryRecOf <$> drop n es.
Proof.
  destruct (entriesAfter_sorted d t j (Z.of_nat n)) as [Hnd Hs]. pose proof (drop_sorted n) as Hs'.
  apply (StronglySorted_unique_strong (fun p q => (seqOf p <? seqOf q) = true)); [|done|done|].
  { intros x y _ _ ?%Z.ltb_lt ?%Z.ltb_lt. lia. }
  apply NoDup_Permutation; [done| |].
  { clear -Hs'. induction Hs' as [|x l Hs IH Hx]; constructor; [|done]. intros Hin. rewrite Forall_forall in Hx.
    specialize (Hx x Hin). apply Z.ltb_lt in Hx. lia. }
  intros [[[t' j'] s] row]. rewrite entriesAfter_elem, list_elem_of_fmap. unfold seqOf. cbn [fst snd]. split.
  - intros (Hrow & [= -> ->] & Hlt). apply (jo_rows _ _ _ _ _ _ _ Hok) in Hrow as (e & He & <- & ->).
    exists e. split; [done|]. destruct (entry_elem e He) as (i & Hi & [Hk _ _ _]). injection Hk as _ _ Hk.
    apply list_elem_of_lookup. exists (i - n)%nat. rewrite lookup_drop. by replace (n + (i - n))%nat with i by lia.
  - intros (e & [= -> -> -> ->] & [i Hi]%list_elem_of_lookup). rewrite lookup_drop in Hi.
    destruct (jo_entry _ _ _ _ _ _ _ Hok _ _ Hi) as [Hk _ _ _]. injection Hk as _ _ Hk. split_and!; [|done|lia].
    apply (jo_rows _ _ _ _ _ _ _ Hok). exists e. split; [by eapply list_elem_of_lookup_2|done].
Qed.

(** ** The subject projection *)

Lemma subject_row a b p :
  p ∈ subjectRows d t j a b <->
  exists e ty id, e ∈ es /\ a <= ESeq e <= b /\ ty +:+ ":" +:+ id ∈ ESubjects e
    /\ ParseSubject nfc toLower (ty +:+ ":" +:+ id) = inl (ty, id)
    /\ p = ((t, j, ESeq e, ty, SubjectHash ty id), subjectRowOf e id).
Proof.
  unfold subjectRows. rewrite list_elem_of_filter. destruct p as [[[[[t' j'] s] ty] h] row].
  rewrite elem_of_map_to_list. cbn [fst]. split.
  - intros [(-> & -> & Hs) Hp]. apply (jo_subjects _ _ _ _ _ _ _ Hok) in Hp as (e & id & He & <- & Hin & Hparse & -> & ->).
    by exists e, ty, id.
  - intros (e & ty' & id & He & Hs & Hin & Hparse & [= -> -> -> -> -> ->]). split; [done|].
    apply (jo_subjects _ _ _ _ _ _ _ Hok). by exists e, id.
Qed.

Lemma subject_row_ok a b p :
  p ∈ subjectRows d t j a b ->
  rowSubject nfc toLower p = Some (snd (fst (fst p)), subject_id (snd p)) /\ rowSubjectOK nfc toLower p = true.
Proof.
  intros (e & ty & id & _ & _ & _ & Hparse & ->)%subject_row. unfold rowSubjectOK, rowSubject. cbn [fst snd subjectRowOf subject_id].
  rewrite Hparse. split; [done|]. by rewrite !bool_decide_true.
Qed.

Lemma subjectsAt_ok a b e :
  e ∈ es -> a <= ESeq e <= b -> subjectsAt nfc toLower (subjectRows d t j a b) (ESeq e) ≡ₚ ESubjects e.
Proof.
  intros He Hr. destruct (entry_elem e He) as (i & Hi & [_ _ [Hnd _] Hg]). unfold subjectsAt.
  set (rows := filter _ _).
  assert (forall p, p ∈ rows -> rowSeq p = ESeq e /\ p ∈ subjectRows d t j a b) as Hrows
    by (intros p Hp; by apply list_elem_of_filter in Hp).
  rewrite (omap_fmap _ (fun p => (snd (fst (fst p)), subject_id (snd p)))).
  2:{ intros p [_ Hp]%Hrows. by eapply subject_row_ok. }
  rewrite <- list_fmap_compose.
  assert (forall p, p ∈ rows -> exists ty id, ty +:+ ":" +:+ id ∈ ESubjects e
      /\ ParseSubject nfc toLower (ty +:+ ":" +:+ id) = inl (ty, id)
      /\ p = ((t, j, ESeq e, ty, SubjectHash ty id), subjectRowOf e id)) as Hrow.
  { intros p [Es (e' & ty & id & He' & _ & Hin & Hparse & ->)%subject_row]%Hrows. unfold rowSeq in Es. simpl in Es.
    apply entry_inj in Es as <-; [|done..]. by exists ty, id. }
  apply NoDup_Permutation; [|done|].
  - apply NoDup_fmap_2_strong; [|apply NoDup_filter, NoDup_filter, NoDup_map_to_list].
    intros p q (ty & id & _ & Hp & ->)%Hrow (ty' & id' & _ & Hq & ->)%Hrow. unfold compose. cbn [fst snd subjectRowOf subject_id].
    intros E. rewrite E, Hq in Hp. by simplify_eq.
  - intros s. rewrite list_elem_of_fmap. split.
    + intros (p & -> & (ty & id & Hin & _ & ->)%Hrow). done.
    + intros Hs. rewrite Forall_forall in Hg. destruct (Hg s Hs) as (ty & id & -> & Hparse).
      exists ((t, j, ESeq e, ty, SubjectHash ty id), subjectRowOf e id). split; [done|].
      apply list_elem_of_filter. split; [done|]. apply subject_row. by exists e, ty, id.
Qed.

Lemma subjects_load a b :
  exists f, loadJournalEntrySubjects nfc toLower d t j a b = Some (f, true)
    /\ forall e, e ∈ es -> a <= ESeq e <= b -> f (ESeq e) = ESubjects e.
Proof.
  assert (forall e, e ∈ es -> a <= ESeq e <= b ->
    NormalizeSubjects nfc toLower (subjectsAt nfc toLower (subjectRows d t j a b) (ESeq e)) = inl (ESubjects e)) as Hn.
  { intros e He Hr. destruct (entry_elem e He) as (i & Hi & [_ _ Hs Hg]).
    apply normalize_subjects_again; [done|done|]. by apply subjectsAt_ok. }
  unfold loadJournalEntrySubjects. cbv zeta.
  rewrite (proj2 (forallb_forall _ _)).
  2:{ intros p Hp%list_elem_of_In. apply subject_row in Hp as (e & ty & id & He & Hr & _ & _ & ->).
      change (rowSeq _) with (ESeq e). by rewrite Hn. }
  rewrite (proj2 (forallb_forall _ _)).
  2:{ intros p Hp%list_elem_of_In. by apply (subject_row_ok a b). }
  eexists. split; [reflexivity|]. intros e He Hr. cbv beta. by rewrite Hn.
Qed.

(** ** The pages of a verification *)

Abbreviation scanned l := (scanEntry reread <$> (entryRecOf <$> l)).

Lemma verifyEntries_ok f l h : forall st,
  (forall e, e ∈ l -> e ∈ es /\ plainSummary e /\ f (ESeq e) = ESubjects e) -> chained (prev st) l h ->
  foldl (verifyEntry f) (Some st) (scanned l)
    = Some {| prev := h; chainOK := chainOK st; projOK := projOK st; count := count st + zlen l |}.
Proof.
  induction l as [|e l IH]; intros st Hl Hc; inversion Hc as [|g e0 l0 h1 h0 Hp Hh Hs Hc']; subst.
  - destruct st. cbn. by rewrite Z.add_0_r.
  - destruct (Hl e ltac:(set_solver)) as (He & Hplain & Hf). destruct (entry_elem e He) as (i & _ & [Hk Ht _ Hg]).
    destruct (scan_hash e Ht Hplain) as (E1 & E2 & E3 & E4 & E5). injection Hk as Ek1 Ek2 _.
    rewrite Ek1, Ek2 in E1, E2, E3, E4, E5.
    change ((t, j, ESeq e), rowOf e) with (entryRecOf e) in E1, E2, E3, E4, E5.
    rewrite !fmap_cons. cbn [foldl]. unfold verifyEntry at 2. cbn [mbind option_bind]. rewrite (E5 _ Hh).
    cbn [mbind option_bind]. rewrite E1, E2, E3, E4, Hf, Hp.
    rewrite !bool_decide_true; [|..|done|done].
    2:{ rewrite <- (list_fmap_id (ESubjects e)) at 2. apply fmap_Forall_ext. eapply Forall_impl; [exact Hg|].
        intros s Hs. apply valid_toValid. by eapply goodSubject_valid. }
    rewrite !andb_true_r, IH; [|intros; apply Hl; set_solver|done].
    cbn [prev chainOK projOK count]. f_equal. f_equal. unfold zlen. simpl. lia.
Qed.

Lemma page_listed n :
  t <> "" -> j <> "" -> ValidateJournalID j = None -> journals d !! (t, j) = Some r ->
  ListJournalEntries reread d t j (Z.of_nat n) MaxLimit = inl (scanned (take (Z.to_nat MaxLimit) (drop n es))).
Proof.
  intros Ht Hj Hv Hr. unfold ListJournalEntries. rewrite !bool_decide_false, Hv by done. cbn [orb].
  rewrite entriesAfter_ok, Hr, andb_false_r. by rewrite <- fmap_take.
Qed.

Lemma page_verified l st h :
  (forall e, e ∈ l -> e ∈ es /\ plainSummary e) -> chained (prev st) l h ->
  (forall e0 e1 e, head l = Some e0 -> last l = Some e1 -> e ∈ l -> ESeq e0 <= ESeq e <= ESeq e1) ->
  verifyPage nfc toLower d t j st (scanned l)
    = Some {| prev := h; chainOK := chainOK st; projOK := projOK st; count := count st + zlen l |}.
Proof.
  intros Hl Hc Hrange. unfold verifyPage. rewrite !fmap_last.
  assert (head (scanned l) = scanEntry reread <$> (entryRecOf <$> head l)) as -> by (by destruct l).
  destruct (head l) as [e0|] eqn:E0.
  - destruct (last l) as [e1|] eqn:E1; [|apply last_None in E1; by subst l].
    cbn [fmap option_fmap option_map]. rewrite !scanEntry_seq. unfold seqOf at 1 2. cbn [entryRecOf fst snd].
    destruct (subjects_load (ESeq e0) (ESeq e1)) as (f & -> & Hf).
    rewrite (verifyEntries_ok f l h); [|intros e He; destruct (Hl e He); split_and!; [done|done|]|done].
    + by rewrite andb_true_r.
    + apply Hf; [done|]. by apply (Hrange e0 e1).
  - destruct l; [|done]. inversion Hc; subst. destruct st. cbn. by rewrite Z.add_0_r.
Qed.

(** The rows between the first and the last entry of a page are the page's. *)
Lemma page_range n k e0 e1 e :
  head (take k (drop n es)) = Some e0 -> last (take k (drop n es)) = Some e1 -> e ∈ take k (drop n es) ->
  ESeq e0 <= ESeq e <= ESeq e1.
Proof.
  intros H0 H1 [i Hi]%list_elem_of_lookup. set (l := take k (drop n es)) in *.
  assert (forall i e, l !! i = Some e -> ESeq e = Z.of_nat n + Z.of_nat i + 1 /\ (i < length l)%nat) as Hseq.
  { intros i' e' He. split; [|by eapply lookup_lt_Some]. apply lookup_take_Some in He as [He _].
    rewrite lookup_drop in He. destruct (jo_entry _ _ _ _ _ _ _ Hok _ _ He) as [Hk _ _ _]. injection Hk as _ _ Hk. lia. }
  rewrite head_lookup in H0. rewrite last_lookup in H1.
  destruct (Hseq _ _ H0), (Hseq _ _ H1), (Hseq _ _ Hi). lia.
Qed.

Lemma verifyPages_ok fuel : forall n st h,
  t <> "" -> j <> "" -> ValidateJournalID j = None -> journals d !! (t, j) = Some r ->
  (forall e, e ∈ es -> plainSummary e) -> (length es - n < fuel)%nat -> chained (prev st) (drop n es) h ->
  verifyPages nfc toLower reread fuel d t j (Z.of_nat n) st
    = inl {| prev := h; chainOK := chainOK st; projOK := projOK st; count := count st + zlen (drop n es) |}.
Proof.
  induction fuel as [|fuel IH]; intros n st h Ht Hj Hv Hr Hplain Hfuel Hc; [lia|]. cbn [verifyPages].
  rewrite page_listed by done. set (k := Z.to_nat MaxLimit). set (page := take k (drop n es)).
  rewrite <- (take_drop k (drop n es)) in Hc. fold page in Hc. rewrite drop_drop in Hc.
  apply chained_app_inv in Hc as (m & Hc1 & Hc2). rewrite !fmap_last.
  destruct (last page) as [e1|] eqn:E1; cbn [fmap option_fmap option_map].
  - rewrite (page_verified page st m); [|intros e He; split; [|apply Hplain]|done|].
    2,3: unfold page in He; apply list_elem_of_lookup in He as [i Hi]; apply lookup_take_Some in Hi as [Hi _];
      rewrite lookup_drop in Hi; by eapply list_elem_of_lookup_2.
    2:{ intros e0 e2 e. apply page_range. }
    rewrite scanEntry_seq. unfold seqOf. cbn [entryRecOf fst snd].
    assert (ESeq e1 = Z.of_nat (n + length page)) as ->.
    { rewrite last_lookup in E1. pose proof (lookup_lt_Some _ _ _ E1). unfold page in E1. apply lookup_take_Some in E1 as [E1 _].
      rewrite lookup_drop in E1. destruct (jo_entry _ _ _ _ _ _ _ Hok _ _ E1) as [Hk _ _ _]. injection Hk as _ _ Hk. fold page in Hk. lia. }
    assert (page <> []) as Hne by (intros ->; done).
    assert (length page = k `min` (length es - n))%nat as Hlen by (unfold page; by rewrite length_take, length_drop).
    assert (0 < length page)%nat by (destruct page; [done|simpl; lia]).
    assert (drop (n + length page) es = drop (n + k) es) as Edrop.
    { destruct (decide (k <= length es - n)%nat); [f_equal; lia|]. rewrite !drop_ge; [done|lia|lia]. }
    rewrite (IH (n + length page)%nat _ h); [|done..|lia|by rewrite Edrop].
    cbn [prev chainOK projOK count]. f_equal. f_equal. rewrite Edrop. unfold zlen. rewrite !length_drop. lia.
  - apply last_None in E1. rewrite E1 in Hc1. inversion Hc1; subst m.
    assert (drop n es = []) as En.
    { destruct (drop n es) eqn:E; [done|]. exfalso. unfold page, k, MaxLimit in E1.
      change (Z.to_nat 1000) with (S 999) in E1. done. }
    rewrite <- drop_drop, En, drop_nil in Hc2. inversion Hc2. rewrite En. destruct st. simpl in *. subst. by rewrite Z.add_0_r.
Qed.

(** The stored genesis document is read back with its hash and its labels. *)
Lemma genesis_reread :
  (forall v, decodeOne (genesis r) = Some v -> plainDoc v) ->
  exists v, decodeOne (reread (genesis r)) = Some v /\ unmarshalAny floatText v = Some v
    /\ HashCanonical v = Some (genesis_hash r) /\ LabelsFromGenesis nfc toLower order v = Some (Labels req).
Proof.
  intros Hplain. destruct (jo_genesis _ _ _ _ _ _ _ Hok) as (g & Hg & Hm & Hh).
  pose proof (genesis_shape _ _ _ _ Hg (jo_request _ _ _ _ _ _ _ Hok)) as Hsh.
  destruct (marshal_doc _ _ _ Hsh Hm) as [_ Hd]. destruct (column_value _ _ Hd (Hplain _ Hd)) as (v & Hv & Hs).
  assert (canon g = canon v) as Ec.
  { rewrite <- (same_canon _ _ _ _ (canon_wf _ _ _ Hsh) Hs). by rewrite (canon_idemp _ _ _ Hsh). }
  pose proof (decodeOne_wf _ _ Hv) as Hw. destruct (Hplain _ Hd) as (k & Hk). exists v. split_and!.
  - done.
  - eapply unmarshal_plain, same_wfG; [exact Hk|done].
  - rewrite <- Hh. eapply hash_same; [eapply wfG_mono; [|exact Hw|done]; done|exact Hsh|done].
  - eapply genesis_labels; [exact Hg|exact (jo_request _ _ _ _ _ _ _ Hok)|by apply canon_same|exact Hw].
Qed.

Lemma verify_ok :
  t <> "" -> j <> "" -> ValidateJournalID j = None -> journals d !! (t, j) = Some r ->
  (forall v, decodeOne (genesis r) = Some v -> plainDoc v) -> (forall e, e ∈ es -> plainSummary e) ->
  Verify d t j = inl {| OK := true; VJournalID := j; Entries := zlen es; VHeadHash := head_hash r;
                        HashChainOK := true; ProjectionOK := true |}.
Proof.
  intros Ht Hj Hv Hr Hplain Hsum. unfold VerifyJournal, verifyWith. rewrite Hr.
  destruct (genesis_reread Hplain) as (v & Ed & Eu & Eh & El).
  rewrite Ed. cbn [mbind option_bind]. rewrite Eu. cbn [mbind option_bind]. rewrite Eh. cbn [mbind option_bind].
  rewrite El. cbn [mbind option_bind]. rewrite labels_load.
  assert (length es <= size (journal_entries d))%nat as Hsize.
  { pose proof (entriesAfter_ok 0) as E. rewrite drop_0 in E. apply (f_equal length) in E. rewrite length_fmap in E.
    rewrite <- E. unfold entriesAfter. rewrite sortBy_perm. etransitivity; [apply length_filter|].
    by rewrite length_map_to_list. }
  rewrite (verifyPages_ok (S (size (journal_entries d))) 0 _ (head_hash r)); [|done..|lia|exact (jo_chain _ _ _ _ _ _ _ Hok)].
  cbn [prev chainOK projOK count]. rewrite drop_0, !bool_decide_true by done. cbn [andb]. done.
Qed.

End ok.

End verify.

End JournalVerify.
