(* ===== verification/JournalRun.v ===== *)
(** * Runs of the journal store

    Every sequence of [CreateJournal] and [AppendJournalEntries] keeps the invariant
    [journalInv]: the rows of a journal are a hash chain from its genesis document to
    its head with the label and subject projections of the documents.  Hence a journal
    verifies after any run, an append is applied exactly once under its idempotency
    key; and three defects of creation and verification are shown on concrete runs. *)

From Stdlib Require Import Strings.Ascii.
From stdpp Require Import pretty.
From S2P Require Import Prelude GoStrings PathUtil Json Sha256 JournalDoc JournalStore JournalNorm JournalProps JournalVerify.

Import GoStr Paths Json Journal JStore JournalNorm JournalProps JournalVerify.

Module JournalRun.

#[local] Arguments String.append !_ _ / : simpl nomatch.

(** ** Loops that insert rows *)

(** A loop that inserts a fresh row per element adds just these rows. *)
Lemma fold_fresh `{Countable K} {V A} (step : option (gmap K V) -> A -> option (gmap K V))
    (f : A -> option (K * V)) (l : list A) :
  (forall a, step None a = None) ->
  (forall m a m', step (Some m) a = Some m' -> exists k v, f a = Some (k, v) /\ m !! k = None /\ m' = <[k := v]> m) ->
  forall m m', foldl step (Some m) l = Some m' ->
  (forall k v, m' !! k = Some v <-> m !! k = Some v \/ exists a, a ∈ l /\ f a = Some (k, v))
  /\ (forall a, a ∈ l -> is_Some (f a)).
Proof.
  intros Hnone Hstep. induction l as [|a l IH] using rev_ind; intros m m' Hf.
  - injection Hf as <-. split; [|set_solver]. intros k v. split; [by left|]. intros [?|(a & Ha & _)]; [done|set_solver].
  - rewrite foldl_app in Hf. cbn [foldl] in Hf. destruct (foldl step (Some m) l) as [m1|] eqn:E; [|by rewrite Hnone in Hf].
    destruct (Hstep _ _ _ Hf) as (k0 & v0 & Hk0 & Hnew & ->). destruct (IH _ _ E) as [IH1 IH2]. split.
    + intros k v. rewrite lookup_insert_Some, IH1. split.
      * intros [[-> ->]|[_ [?|(a' & Ha' & Hf')]]]; [|by left|]; right; [exists a|exists a']; set_solver.
      * intros [Hm|(a' & [Ha'|Ha']%elem_of_app & Hf')].
        -- right. split; [|by left]. intros ->. assert (m1 !! k = Some v) as Hc by (apply IH1; by left). congruence.
        -- right. split; [|right; by exists a']. intros ->.
           assert (m1 !! k = Some v) as Hc by (apply IH1; right; by exists a'). congruence.
        -- apply list_elem_of_singleton in Ha' as ->. left. by simplify_eq.
    + intros a' [Ha'|Ha']%elem_of_app; [by apply IH2|]. apply list_elem_of_singleton in Ha' as ->. by exists (k0, v0).
Qed.

Lemma insertLabels t j now ls m m' :
  foldl (insertLabel t j now) (Some m) ls = Some m' ->
  forall k v, m' !! k = Some v <-> m !! k = Some v
    \/ exists l, l ∈ ls /\ k = (t, j, Key l, LabelHash (Key l) (Value l))
         /\ v = {| label_value := Value l; label_created_at := now |}.
Proof.
  intros H. apply (fold_fresh _ (fun l => Some ((t, j, Key l, LabelHash (Key l) (Value l)),
    {| label_value := Value l; label_created_at := now |}))) in H as [H _]; [|done|].
  - intros k v. rewrite H. apply or_iff_compat_l. split; intros (l & Hl & E); exists l; [|naive_solver].
    injection E as <- <-. done.
  - intros m0 l m1. unfold insertLabel. cbn [mbind option_bind]. case_bool_decide; [|done]. intros [= <-]. eauto.
Qed.

Section run.
Context {nfc toLower : string -> string} {laws : UnicodeLaws nfc toLower}.
Context {order : gmap string string -> list (string * string)} {Horder : iterates order}.
Context {reread : string -> string}.

#[local] Unset Default Proof Using.

Abbreviation Parse := (ParseSubject nfc toLower).

Definition subjectEntry (e : Entry) (raw : string)
    : option ((string * string * Z * string * string) * subjectRow) :=
  match Parse raw with
  | inl (ty, id) => Some ((ETenantID e, EJournalID e, ESeq e, ty, SubjectHash ty id), subjectRowOf e id)
  | inr _ => None
  end.

Lemma insertSubjects e s s' :
  foldl (insertSubject nfc toLower e) (Some s) (ESubjects e) = Some s' ->
  (forall k v, s' !! k = Some v <-> s !! k = Some v \/ exists raw, raw ∈ ESubjects e /\ subjectEntry e raw = Some (k, v))
  /\ (forall raw, raw ∈ ESubjects e -> is_Some (subjectEntry e raw)).
Proof.
  apply fold_fresh; [done|]. intros m raw m'. unfold insertSubject, subjectEntry. cbn [mbind option_bind].
  destruct (Parse raw) as [[ty id]|]; [|done]. case_bool_decide; [|done]. intros [= <-]. eauto.
Qed.

Lemma insertEntries_none l : foldl (insertJournalEntry nfc toLower) None l = None.
Proof. by induction l. Qed.

Lemma insertEntries l : forall m s m' s',
  foldl (insertJournalEntry nfc toLower) (Some (m, s)) l = Some (m', s') ->
  (forall k v, m' !! k = Some v <-> m !! k = Some v
     \/ exists e, e ∈ l /\ k = (ETenantID e, EJournalID e, ESeq e) /\ v = rowOf e)
  /\ (forall k v, s' !! k = Some v <-> s !! k = Some v
        \/ exists e raw, e ∈ l /\ raw ∈ ESubjects e /\ subjectEntry e raw = Some (k, v))
  /\ (forall e raw, e ∈ l -> raw ∈ ESubjects e -> is_Some (subjectEntry e raw)).
Proof.
  induction l as [|e l IH]; intros m s m' s' H; cbn [foldl] in H.
  - injection H as <- <-. split_and!; [intros k v..|set_solver]; (split; [by left|]); intros [?|H]; [done| |done|];
      destruct H as (e & H); set_solver.
  - unfold insertJournalEntry at 2 in H. cbn [mbind option_bind] in H.
    destruct (_ && _) eqn:E; [|by rewrite insertEntries_none in H]. apply andb_true_iff in E as [E _].
    apply bool_decide_eq_true in E.
    destruct (foldl (insertSubject nfc toLower e) (Some s) (ESubjects e)) as [s1|] eqn:Es; [|by rewrite insertEntries_none in H].
    cbn [mbind option_bind] in H. destruct (insertSubjects _ _ _ Es) as [S1 S2]. destruct (IH _ _ _ _ H) as (H1 & H2 & H3).
    split_and!.
    + intros k v. rewrite H1, lookup_insert_Some. split.
      * intros [[[<- <-]|[_ ?]]|(e' & He' & Hk)]; [right; exists e; by split; [constructor|]|by left|].
        right. exists e'. split; [by constructor|done].
      * intros [Hm|(e' & [->|He']%elem_of_cons & -> & ->)]; [|by left; left|right; by exists e'].
        left. right. split; [|done]. intros <-. congruence.
    + intros k v. rewrite H2, S1. split.
      * intros [[?|(raw & Hr & Hk)]|(e' & raw & He' & Hk)]; [by left|right; exists e, raw|right; exists e', raw];
          (split; [by constructor|done]).
      * intros [?|(e' & raw & [->|He']%elem_of_cons & Hr & Hk)]; [by left; left|left; right; by exists raw|right; by exists e', raw].
    + intros e' raw [->|He']%elem_of_cons; [by apply S2|by apply H3].
Qed.

(** ** New entries *)

(** A normalized input has normalized subjects and times. *)
Definition inputOk (i : EntryInput) : Prop :=
  (exists l, NormalizeSubjects nfc toLower l = inl (ISubjects i))
  /\ (forall z, IOccurredAt i = Some z -> NormalizeTime z = z).

Lemma guard_inl {A} e (k : A + journalError) x : guard e k = inl x -> e = None /\ k = inl x.
Proof. by destruct e. Qed.

Lemma NormalizeEntryInput_ok i ty subs n : NormalizeEntryInput nfc toLower i ty subs = inl n -> inputOk n.
Proof.
  unfold NormalizeEntryInput. cbv zeta. intros H. do 5 apply guard_inl in H as [_ H].
  destruct (NormalizeSubjects _ _ _) as [l|] eqn:E; [|done]. apply guard_inl in H as [_ H].
  destruct (if bool_decide (ISummary i = "") then _ else _) as [s|]; [|done]. apply guard_inl in H as [_ H].
  injection H as <-. split; [by eexists|]. cbn [IOccurredAt]. intros z Hz.
  destruct (IOccurredAt i); [|done]. injection Hz as <-. apply NormalizeTime_idemp.
Qed.

Lemma normalizeBatch_ok src entries l : normalizeBatch nfc toLower src entries = inl l -> Forall inputOk l.
Proof.
  revert l. induction entries as [|e entries IH]; intros l H; cbn [normalizeBatch] in H; [injection H as <-; constructor|].
  destruct (NormalizeEntryInput nfc toLower e "" []) as [n|] eqn:E; [|done]. destruct (_ && _); [done|].
  destruct (_ && _); [done|]. destruct (normalizeBatch _ _ _ _) as [l'|]; [|done]. injection H as <-.
  constructor; [by eapply NormalizeEntryInput_ok|by apply IH].
Qed.

Lemma prepare_ok t j a w entries w' src inputs hash :
  prepareAppend nfc toLower t j a w entries = inl (w', src, inputs, hash) -> Forall inputOk inputs.
Proof.
  unfold prepareAppend. cbv zeta. destruct (_ || _); [done|]. destruct (ValidateJournalID j); [done|].
  case_bool_decide; [done|]. destruct (ValidateAppendID a); [done|]. case_bool_decide; [done|].
  destruct (_ <? _); [done|]. destruct (ValidateSource _); [done|].
  destruct (normalizeBatch _ _ _ entries) as [l|] eqn:E; [|done]. destruct (ValidateAppendBatch l); [done|].
  destruct (RequestHash l); [|done]. intros [= <- <- <- <-]. by eapply normalizeBatch_ok.
Qed.

Section chain.
Context (t j src : string) (w : JournalWriter) (cur : JournalInfo) (at_ : Z) (ids : Z -> string).

Abbreviation mk := (newEntry t j src w cur at_).

Lemma chainEntries_ok inputs : forall n g ins,
  chainEntries mk ids n g inputs = Some ins ->
  (forall i e, ins !! i = Some e -> exists input prev h, inputs !! i = Some input
     /\ e = withHash (mk (n + Z.of_nat i) (ids (n + Z.of_nat i)) prev input) h)
  /\ (forall e1, last ins = Some e1 -> chained g ins (EEntryHash e1)).
Proof.
  induction inputs as [|input inputs IH]; intros n g ins H; cbn [chainEntries] in H.
  - injection H as <-. split; done.
  - destruct (EntryHash _) as [h|] eqn:Eh; [|done]. cbn [mbind option_bind] in H.
    destruct (chainEntries mk ids (n + 1) h inputs) as [rest|] eqn:Er; [|done]. cbn [mbind option_bind] in H.
    injection H as <-. destruct (IH _ _ _ Er) as [H1 H2]. split.
    + intros [|i] e He; cbn [lookup list_lookup] in He.
      * injection He as <-. exists input, g, h. split; [done|]. by rewrite Z.add_0_r.
      * destruct (H1 i e He) as (inp & p & h' & Hi & ->). exists inp, p, h'. split; [done|].
        by replace (n + Z.of_nat (S i)) with (n + 1 + Z.of_nat i) by lia.
    + intros e1 Hl. econstructor; [done|exact Eh|done|]. destruct rest as [|e2 rest].
      * injection Hl as <-. constructor.
      * apply H2. exact Hl.
Qed.

End chain.

(** ** The invariant *)

Definition noRows (d : db) (t j : string) : Prop :=
  (forall k h, journal_labels d !! (t, j, k, h) = None)
  /\ (forall s, journal_entries d !! (t, j, s) = None)
  /\ (forall s ty h, entry_subjects d !! (t, j, s, ty, h) = None).

Abbreviation jOk := (journalOk (nfc := nfc) (toLower := toLower) (order := order)).

Record journalInv (d : db) : Prop := {
  ji_ok : forall t j r, journals d !! (t, j) = Some r ->
    t <> "" /\ (j = "" \/ ValidateJournalID j = None) /\ exists req now es, jOk d t j r req now es;
  ji_none : forall t j, journals d !! (t, j) = None -> noRows d t j
}.

Lemma inv_empty : journalInv emptyDB.
Proof. split; [done|]. intros t j _. by repeat split. Qed.

(** The rows of a journal are the same in two states. *)
Record sameRows (d d' : db) (t j : string) : Prop := {
  sr_journal : journals d' !! (t, j) = journals d !! (t, j);
  sr_labels : forall k h, journal_labels d' !! (t, j, k, h) = journal_labels d !! (t, j, k, h);
  sr_entries : forall s, journal_entries d' !! (t, j, s) = journal_entries d !! (t, j, s);
  sr_subjects : forall s ty h, entry_subjects d' !! (t, j, s, ty, h) = entry_subjects d !! (t, j, s, ty, h)
}.

Lemma jOk_frame d d' t j r req now es : sameRows d d' t j -> jOk d t j r req now es -> jOk d' t j r req now es.
Proof.
  intros [_ Hl He Hs] []. split; try done; intros *; rewrite ?Hl, ?He, ?Hs; auto.
Qed.

(** A step that touches one journal only keeps the invariant of the others. *)
Lemma inv_step d d' t j r' :
  journalInv d -> (forall t' j', (t', j') <> (t, j) -> sameRows d d' t' j') ->
  journals d' !! (t, j) = Some r' -> t <> "" -> j = "" \/ ValidateJournalID j = None ->
  (exists req now es, jOk d' t j r' req now es) -> journalInv d'.
Proof.
  intros [H1 H2] Hsame Hr' Ht Hj Hok. split.
  - intros t' j' r Hr. destruct (decide ((t', j') = (t, j))) as [[= -> ->]|Hne]; [by simplify_eq|].
    destruct (Hsame _ _ Hne) as [Ej _ _ _]. rewrite Ej in Hr. destruct (H1 _ _ _ Hr) as (? & ? & req & now & es & Hok').
    split_and!; [done..|]. exists req, now, es. eapply jOk_frame; [by apply Hsame|done].
  - intros t' j' Hn. destruct (decide ((t', j') = (t, j))) as [[= -> ->]|Hne]; [by simplify_eq|].
    destruct (Hsame _ _ Hne) as [Ej Hl He Hs]. rewrite Ej in Hn. destruct (H2 _ _ Hn) as (N1 & N2 & N3).
    split_and!; intros; rewrite ?Hl, ?He, ?Hs; auto.
Qed.

(** ** Creation *)

Lemma NormalizeCreateRequest_ok req0 req :
  NormalizeCreateRequest nfc toLower order req0 = inl req ->
  (JournalID req = "" \/ ValidateJournalID (JournalID req) = None) /\ Meta req = LabelsToMap (Labels req)
  /\ exists l, Labels req = NormalizeLabels nfc toLower l.
Proof.
  unfold NormalizeCreateRequest. cbv zeta. intros H. apply guard_inl in H as [Hid H]. do 3 apply guard_inl in H as [_ H].
  destruct (if bool_decide (Retention req0 = "") then _ else _); [|done]. injection H as <-. cbn [JournalID Meta Labels].
  split_and!; [|done|by eexists]. by case_bool_decide; [left|right].
Qed.

Lemma create_inv d t req0 newID clock :
  journalInv d -> journalInv (fst (CreateJournal nfc toLower order reread d t req0 newID clock)).
Proof.
  intros Hinv. unfold CreateJournal. case_bool_decide as Ht; [done|]. cbv zeta.
  destruct (NormalizeCreateRequest nfc toLower order _) as [req|] eqn:En; [|done].
  destruct (ValidateLabels (Labels req)) eqn:Ev; [done|].
  destruct (CreateHash order t req) as [ch|]; [|done].
  destruct (GenesisDocument order t req _) as [g|] eqn:Eg; [|done]. cbn [mbind option_bind].
  destruct (MarshalCanonical g) as [raw|] eqn:Em; [|done]. cbn [mbind option_bind].
  destruct (HashCanonical g) as [gh|] eqn:Eh; [|done]. cbn [mbind option_bind].
  destruct (selectJournal _ d t (JournalID req)) as [[ex ech]|] eqn:Es; [destruct (bool_decide (ech = ch)); exact Hinv|].
  assert (journals d !! (t, JournalID req) = None) as Hnone.
  { unfold selectJournal in Es. by destruct (journals d !! _). }
  destruct (foldl _ _ _) as [labels|] eqn:El; [|done]. cbn [fst].
  destruct (NormalizeCreateRequest_ok _ _ En) as (Hid & Hmeta & l & Hl).
  destruct (ji_none _ Hinv _ _ Hnone) as (N1 & N2 & N3). pose proof (insertLabels _ _ _ _ _ _ El) as HL.
  eapply inv_step; [exact Hinv| |apply lookup_insert_eq|done|done|].
  - intros t' j' Hne. split; cbn; [by rewrite lookup_insert_ne by congruence| |done..].
    intros k h. apply option_eq. intros v. rewrite HL. split; [|by left].
    intros [?|(lb & _ & [= -> -> _ _] & _)]; done.
  - exists req, (NormalizeTime clock), []. split; cbn [journals journal_labels journal_entries entry_subjects genesis genesis_hash head_hash next_seq closed_at]; try done.
    + split; [|done]. rewrite Hl in *. by apply normalized_labels_ok.
    + by exists g.
    + intros k h row [Hr|(lb & Hlb & [= -> ->] & ->)]%HL; [by rewrite N1 in Hr|]. split; [done|]. by destruct lb.
    + intros lb Hlb. eexists. split; [apply HL; right; by exists lb|done].
    + constructor.
    + intros s row. rewrite N2. split; [done|]. intros (e & He & _). set_solver.
    + intros s ty h row. rewrite N3. split; [done|]. intros (e & id & He & _). set_solver.
Qed.

(** ** Appends *)

(** What a transaction that changes the tables has done. *)
Record appended (d d' : db) (t j a : string) (w : JournalWriter) (src hash : string) (inputs : list EntryInput)
    (ids : Z -> string) (clock : Z) (row : journalRow) (ins : list Entry) (resp : AppendResponse) : Prop := {
  ap_row : journals d !! (t, j) = Some row;
  ap_key : append_requests d !! (t, j, a) = None;
  ap_chain : exists cur, chainEntries (newEntry t j src w cur (NormalizeTime clock)) ids (next_seq row) (head_hash row) inputs
    = Some ins;
  ap_rows : foldl (insertJournalEntry nfc toLower) (Some (journal_entries d, entry_subjects d)) ins
    = Some (journal_entries d', entry_subjects d');
  ap_last : exists e0 e1, head ins = Some e0 /\ last ins = Some e1
    /\ resp = {| AJournalID := j; AAppendID := a; FirstSeq := ESeq e0; LastSeq := ESeq e1; Count := zlen ins;
                 AHeadHash := EEntryHash e1; Idempotent := false |}
    /\ journals d' = <[(t, j) := advance row (ESeq e1 + 1) (EEntryHash e1) (NormalizeTime clock)]> (journals d)
    /\ append_requests d' = <[(t, j, a) := {| requestHash := hash; writerType := WType w; writerID := WID w;
         effectiveSource := src; firstSeq := ESeq e0; lastSeq := ESeq e1; rcount := zlen ins;
         headHash := EEntryHash e1 |}]> (append_requests d);
  ap_labels : journal_labels d' = journal_labels d
}.

Lemma appendTx_cases d t j a w src hash inputs ids clock :
  let out := appendTx nfc toLower reread d t j a w src hash inputs ids clock in
  fst out = d \/ exists row ins resp, snd out = inl resp /\ appended d (fst out) t j a w src hash inputs ids clock row ins resp.
Proof.
  unfold appendTx. destruct (selectJournal reread d t j) as [[cur c]|] eqn:Es; [|by left].
  destruct (journals d !! (t, j)) as [row|] eqn:Er; [|by left]. cbv zeta.
  destruct (ClosedAt cur); [by left|]. destruct (append_requests d !! (t, j, a)) as [rq|] eqn:Ea.
  { left. by destruct (sameRequest _ _ _ _). }
  destruct (chainEntries _ _ _ _ _) as [ins|] eqn:Ec; [|by left].
  destruct (head ins) as [e0|] eqn:E0; [|by left]. destruct (last ins) as [e1|] eqn:E1; [|by left].
  destruct (foldl (insertJournalEntry nfc toLower) _ _) as [[m s]|] eqn:Ef; [|by left]. right.
  exists row, ins. eexists. cbn [fst snd]. split; [reflexivity|]. split; cbn; try done.
  - exists cur. unfold selectJournal in Es. rewrite Er in Es. injection Es as <- _. exact Ec.
  - exists e0, e1. done.
Qed.

Section appended.
Context {d d' : db} {t j a : string} {w : JournalWriter} {src hash : string} {inputs : list EntryInput}.
Context {ids : Z -> string} {clock : Z} {row : journalRow} {ins : list Entry} {resp : AppendResponse}.
Context (Hap : appended d d' t j a w src hash inputs ids clock row ins resp) (Hin : Forall inputOk inputs).

Lemma inserted_key i e :
  ins !! i = Some e -> (ETenantID e, EJournalID e, ESeq e) = (t, j, next_seq row + Z.of_nat i) /\ timesOk e
    /\ exists l, NormalizeSubjects nfc toLower l = inl (ESubjects e).
Proof.
  intros He. destruct (ap_chain _ _ _ _ _ _ _ _ _ _ _ _ _ _ Hap) as [cur Hc].
  destruct (chainEntries_ok _ _ _ _ _ _ _ _ _ _ _ Hc) as [Hmk _].
  destruct (Hmk i e He) as (input & p & h & Hi & ->). rewrite Forall_forall in Hin.
  destruct (Hin input) as [Hs Ht]; [by eapply list_elem_of_lookup_2|]. split_and!; [done| |done].
  split; cbn [withHash newEntry EOccurredAt EObservedAt]; [|apply NormalizeTime_idemp].
  destruct (IOccurredAt input) as [z|] eqn:Ez; simpl; [by apply Ht|apply NormalizeTime_idemp].
Qed.

(** A subject that was inserted is a normalized one. *)
Lemma inserted_good e raw :
  e ∈ ins -> raw ∈ ESubjects e ->
  exists ty id, raw = ty +:+ ":" +:+ id /\ Parse raw = inl (ty, id).
Proof.
  intros He Hr. destruct (insertEntries _ _ _ _ _ (ap_rows _ _ _ _ _ _ _ _ _ _ _ _ _ _ Hap)) as (_ & _ & Hparse).
  destruct (Hparse e raw He Hr) as [kv Hkv]. unfold subjectEntry in Hkv.
  apply list_elem_of_lookup in He as [i Hi]. destruct (inserted_key i e Hi) as (_ & _ & l & Hl).
  apply normalized_subjects_ok in Hl as [_ Hg]. rewrite Forall_forall in Hg.
  destruct (Hg raw Hr) as (raw0 & ty & id & -> & Hp). exists ty, id. split; [done|].
  eapply ParseSubject_again; [exact Hp|]. intros ->. apply ParseSubject_spec in Hp as (Hn & _).
  assert (Parse (ty +:+ ":" +:+ "") = inr ErrInvalid) as E; [|by rewrite E in Hkv].
  unfold ParseSubject.
  rewrite (subject_trimmed _ _ _ Hn eq_refl), (name_cut _ _ _ Hn). by rewrite orb_true_r.
Qed.

(** The rows of the other journals are untouched. *)
Lemma appended_frame t' j' : (t', j') <> (t, j) -> sameRows d d' t' j'.
Proof.
  intros Hne. destruct (ap_last _ _ _ _ _ _ _ _ _ _ _ _ _ _ Hap) as (e0 & e1 & _ & _ & _ & Ej & _).
  destruct (insertEntries _ _ _ _ _ (ap_rows _ _ _ _ _ _ _ _ _ _ _ _ _ _ Hap)) as (H1 & H2 & _).
  assert (forall e, e ∈ ins -> ETenantID e = t /\ EJournalID e = j) as Hk.
  { intros e [i Hi]%list_elem_of_lookup. destruct (inserted_key i e Hi) as (Hkey & _). by injection Hkey as ? ? ?. }
  split.
  - rewrite Ej. by rewrite lookup_insert_ne by congruence.
  - intros. by rewrite (ap_labels _ _ _ _ _ _ _ _ _ _ _ _ _ _ Hap).
  - intros s. apply option_eq. intros v. rewrite H1. split; [|by left].
    intros [?|(e & He & [= -> -> _] & _)]; [done|]. destruct (Hk e He). congruence.
  - intros s ty h. apply option_eq. intros v. rewrite H2. split; [|by left].
    intros [?|(e & raw & He & _ & E)]; [done|]. destruct (Hk e He). unfold subjectEntry in E.
    destruct (Parse raw) as [[ty0 id0]|]; [|done]. congruence.
Qed.

Lemma appended_ok req now es e1 :
  jOk d t j row req now es -> last ins = Some e1 ->
  jOk d' t j (advance row (ESeq e1 + 1) (EEntryHash e1) (NormalizeTime clock)) req now (es ++ ins).
Proof.
  intros [Hreq Hgen Hl1 Hl2 Hch Hnext Hopen Hent Hrows Hsub] Hlast.
  destruct (ap_chain _ _ _ _ _ _ _ _ _ _ _ _ _ _ Hap) as [cur Hc].
  destruct (chainEntries_ok _ _ _ _ _ _ _ _ _ _ _ Hc) as [_ Hch']. specialize (Hch' _ Hlast).
  destruct (insertEntries _ _ _ _ _ (ap_rows _ _ _ _ _ _ _ _ _ _ _ _ _ _ Hap)) as (H1 & H2 & _).
  assert (forall e, e ∈ ins -> (ETenantID e, EJournalID e) = (t, j)) as Hk.
  { intros e [i Hi]%list_elem_of_lookup. destruct (inserted_key i e Hi) as (Hkey & _). congruence. }
  split; cbn [genesis genesis_hash head_hash next_seq closed_at advance]; try done.
  - intros k h r'. rewrite (ap_labels _ _ _ _ _ _ _ _ _ _ _ _ _ _ Hap). apply Hl1.
  - intros l Hl. rewrite (ap_labels _ _ _ _ _ _ _ _ _ _ _ _ _ _ Hap). by apply Hl2.
  - by eapply chained_app.
  - rewrite last_lookup in Hlast. pose proof (lookup_lt_Some _ _ _ Hlast).
    destruct (inserted_key _ _ Hlast) as ([= _ _ ->] & _). rewrite Hnext, zlen_app. unfold zlen. lia.
  - intros i e [He|[Hlen He]]%lookup_app_Some; [by apply Hent|]. destruct (inserted_key _ _ He) as (Hkey & Ht & l & Hl).
    destruct (normalized_subjects_ok _ _ Hl) as [Hso _]. split; [|done|done|].
    + rewrite Hkey, Hnext. f_equal. unfold zlen. lia.
    + apply Forall_forall. intros raw Hr. apply (inserted_good e raw); [by eapply list_elem_of_lookup_2|done].
  - intros s v. rewrite H1, Hrows. split.
    + intros [(e & He & <- & ->)|(e & He & [= _ _ ->] & ->)]; exists e; set_solver.
    + intros (e & [He|He]%elem_of_app & <- & ->); [left; by exists e|]. right. exists e. split_and!; [done| |done].
      specialize (Hk e He). congruence.
  - intros s ty h v. rewrite H2, Hsub. split.
    + intros [(e & id & He & Hr)|(e & raw & He & Hr & E)]; [exists e, id; set_solver|].
      destruct (inserted_good e raw He Hr) as (ty0 & id0 & -> & Hp). unfold subjectEntry in E. rewrite Hp in E.
      injection E as _ _ <- <- <- <-. exists e, id0. split_and!; [set_solver|done..].
    + intros (e & id & [He|He]%elem_of_app & <- & Hr & Hp & -> & ->); [left; by exists e, id|].
      right. exists e, (ty +:+ ":" +:+ id). split_and!; [done..|]. unfold subjectEntry. rewrite Hp.
      specialize (Hk e He). injection Hk as -> ->. done.
Qed.

Lemma appended_inv : journalInv d -> journalInv d'.
Proof.
  intros Hinv. destruct (ji_ok _ Hinv _ _ _ (ap_row _ _ _ _ _ _ _ _ _ _ _ _ _ _ Hap)) as (Ht & Hj & req & now & es & Hok).
  destruct (ap_last _ _ _ _ _ _ _ _ _ _ _ _ _ _ Hap) as (e0 & e1 & _ & Hl & _ & Ej & _).
  eapply (inv_step d d' t j); [done|apply appended_frame| |done|done|].
  - rewrite Ej. apply lookup_insert_eq.
  - do 3 eexists. by eapply appended_ok.
Qed.

End appended.

Lemma append_inv d t j a w entries ids clock :
  journalInv d -> journalInv (fst (AppendJournalEntries nfc toLower reread d t j a w entries ids clock)).
Proof.
  intros Hinv. unfold AppendJournalEntries. destruct (prepareAppend _ _ _ _ _ _ _) as [[[[w' src] inputs] hash]|] eqn:Ep; [|done].
  destruct (appendTx_cases d t j a w' src hash inputs ids clock) as [->|(row & ins & resp & _ & Hap)]; [done|].
  eapply appended_inv; [exact Hap|by eapply prepare_ok|done].
Qed.

(** ** Runs *)

Inductive storeStep : db -> db -> Prop :=
  | step_create d t req newID clock :
      storeStep d (fst (CreateJournal nfc toLower order reread d t req newID clock))
  | step_append d t j a w entries ids clock :
      storeStep d (fst (AppendJournalEntries nfc toLower reread d t j a w entries ids clock)).

Lemma reachable_inv d : rtc storeStep emptyDB d -> journalInv d.
Proof.
  intros H. assert (forall d1, rtc storeStep d1 d -> journalInv d1 -> journalInv d) as Hr.
  { clear H. intros d1 Hr. induction Hr as [|d1 d2 d3 Hs _ IH]; [done|]. intros Hinv. apply IH.
    inversion Hs; subst; [by apply create_inv|by apply append_inv]. }
  by apply (Hr emptyDB), inv_empty.
Qed.

(** ** A journal verifies after any run *)

(** The numbers of the stored documents of a journal are plain integers. *)
Definition plainJournal (d : db) (t j : string) (r : journalRow) : Prop :=
  (forall v, decodeOne (genesis r) = Some v -> plainDoc v)
  /\ (forall s row raw v, journal_entries d !! (t, j, s) = Some row -> summary row = Some raw ->
        decodeOne raw = Some v -> plainDoc v).

Lemma plain_summaries d t j r req now es :
  jOk d t j r req now es -> plainJournal d t j r -> forall e, e ∈ es -> plainSummary e.
Proof.
  intros Hok [_ Hp] e He v Hv. unfold jraw, nullIfEmpty in Hv. case_bool_decide as E1.
  { vm_compute in Hv. injection Hv as <-. exists 0%nat. constructor. }
  destruct (decide (ESummary e = "null")) as [E2|E2].
  { rewrite E2 in Hv. vm_compute in Hv. injection Hv as <-. exists 0%nat. constructor. }
  apply (Hp (ESeq e) (rowOf e) (ESummary e)); [|cbn; unfold nullJSON; by rewrite !bool_decide_false|done].
  apply (jo_rows _ _ _ _ _ _ _ Hok). by exists e.
Qed.

(** C26: a journal that is only written by the store verifies in every reachable state.
    After any sequence of creations and appends, from the empty database,
    [VerifyJournal] of a journal that exists returns a result with hash chain and
    projection intact, that counts every entry and names the current head - if the
    identifier is not empty, if every number in the stored genesis document and in the
    summaries is a non-negative integer of at most fifteen digits, and if the database
    returns for a JSON column a text of the same document.  (Without the first two conditions it does
    not: see [verify_rejects_float] and [blank_id_unusable].) *)
Theorem journal_always_verifies (column : ColumnLaw reread) floatText d t j r :
  rtc storeStep emptyDB d -> journals d !! (t, j) = Some r -> j <> "" -> plainJournal d t j r ->
  VerifyJournal nfc toLower order reread floatText d t j
    = inl {| OK := true; VJournalID := j; Entries := next_seq r - 1; VHeadHash := head_hash r;
             HashChainOK := true; ProjectionOK := true |}.
Proof.
  intros Hd Hr Hj Hp. destruct (ji_ok _ (reachable_inv d Hd) _ _ _ Hr) as (Ht & [->|Hv] & req & now & es & Hok); [done|].
  rewrite (verify_ok (Horder := Horder) Hok); [|done..|apply Hp|by eapply plain_summaries].
  rewrite (jo_next _ _ _ _ _ _ _ Hok). by replace (zlen es + 1 - 1) with (zlen es) by lia.
Qed.

(** ** Idempotency keys *)

(** The answer that is recorded for a key. *)
Definition recorded (d : db) (t j a hash : string) (w : JournalWriter) (src : string) (resp : AppendResponse) : Prop :=
  exists rq, append_requests d !! (t, j, a) = Some rq /\ sameRequest rq hash w src = true /\ response rq j a = resp.

Definition asIdempotent (r : AppendResponse) : AppendResponse :=
  {| AJournalID := AJournalID r; AAppendID := AAppendID r; FirstSeq := FirstSeq r; LastSeq := LastSeq r;
     Count := Count r; AHeadHash := AHeadHash r; Idempotent := true |}.

Lemma append_recorded d t j a w src hash inputs ids clock resp :
  let out := appendTx nfc toLower reread d t j a w src hash inputs ids clock in
  snd out = inl resp -> recorded (fst out) t j a hash w src (asIdempotent resp).
Proof.
  cbv zeta. intros H. destruct (appendTx_cases d t j a w src hash inputs ids clock) as [Hd|(row & ins & resp' & Hr & Hap)].
  - rewrite Hd. revert H Hd. unfold appendTx. destruct (selectJournal reread d t j) as [[cur c]|]; [|done].
    destruct (journals d !! (t, j)) as [row|]; [|done]. cbv zeta. destruct (ClosedAt cur); [done|].
    destruct (append_requests d !! (t, j, a)) as [rq|] eqn:Ea.
    + destruct (sameRequest rq hash w src) eqn:Es; [|done]. intros [= <-] _. exists rq. done.
    + destruct (chainEntries _ _ _ _ _) as [ins|]; [|done]. destruct (head ins); [|done]. destruct (last ins); [|done].
      destruct (foldl _ _ _) as [[m s]|]; [|done]. intros [= <-] Hd. apply (f_equal append_requests) in Hd. cbn in Hd.
      rewrite <- Hd in Ea. by rewrite lookup_insert_eq in Ea.
  - rewrite H in Hr. injection Hr as <-. unfold recorded.
    destruct (ap_last _ _ _ _ _ _ _ _ _ _ _ _ _ _ Hap) as (e0 & e1 & _ & _ & -> & _ & ->).
    eexists. split; [apply lookup_insert_eq|]. split; [|done]. unfold sameRequest. cbn. by rewrite !bool_decide_true.
Qed.

(** Steps keep the answers and the journals. *)
Lemma step_keeps d d' : storeStep d d' ->
  (forall k rq, append_requests d !! k = Some rq -> append_requests d' !! k = Some rq)
  /\ (forall k, is_Some (journals d !! k) -> is_Some (journals d' !! k)).
Proof.
  intros [d0 t req newID clock|d0 t j a w entries ids clock].
  - unfold CreateJournal. case_bool_decide; [done|]. cbv zeta. destruct (NormalizeCreateRequest _ _ _ _) as [rq|]; [|done].
    destruct (ValidateLabels _); [done|]. destruct (CreateHash _ _ _); [|done].
    destruct (GenesisDocument _ _ _ _) as [g|]; [|done]. cbn [mbind option_bind].
    destruct (MarshalCanonical g); [|done]. destruct (HashCanonical g); [|done]. cbn [mbind option_bind].
    destruct (selectJournal _ _ _ _) as [[ex ech]|]; [by destruct (bool_decide _)|].
    destruct (foldl _ _ _); [|done]. cbn. split; [done|]. intros k Hk. destruct (decide (k = (t, JournalID rq))) as [->|].
    + by rewrite lookup_insert_eq.
    + by rewrite lookup_insert_ne by done.
  - unfold AppendJournalEntries. destruct (prepareAppend _ _ _ _ _ _ _) as [[[[w' src] inputs] hash]|]; [|done].
    destruct (appendTx_cases d0 t j a w' src hash inputs ids clock) as [->|(row & ins & resp & _ & Hap)]; [done|].
    destruct (ap_last _ _ _ _ _ _ _ _ _ _ _ _ _ _ Hap) as (e0 & e1 & _ & _ & _ & -> & ->). split.
    + intros k rq Hk. rewrite lookup_insert_ne; [done|]. intros <-.
      rewrite (ap_key _ _ _ _ _ _ _ _ _ _ _ _ _ _ Hap) in Hk. done.
    + intros k Hk. destruct (decide (k = (t, j))) as [->|]; [by rewrite lookup_insert_eq|by rewrite lookup_insert_ne by done].
Qed.

Lemma run_keeps d d' k rq : rtc storeStep d d' -> append_requests d !! k = Some rq -> append_requests d' !! k = Some rq.
Proof. intros H. induction H as [|d1 d2 d3 Hs _ IH]; [done|]. intros Hk. by apply IH, (step_keeps _ _ Hs). Qed.

Lemma run_journals d d' k : rtc storeStep d d' -> is_Some (journals d !! k) -> is_Some (journals d' !! k).
Proof. intros H. induction H as [|d1 d2 d3 Hs _ IH]; [done|]. intros Hk. by apply IH, (step_keeps _ _ Hs). Qed.

(** An append under a key that is taken is answered from the record. *)
Lemma append_taken d t j a w src hash inputs ids clock rq r :
  journalInv d -> journals d !! (t, j) = Some r -> append_requests d !! (t, j, a) = Some rq ->
  appendTx nfc toLower reread d t j a w src hash inputs ids clock
    = (d, if sameRequest rq hash w src then inl (response rq j a) else inr ErrIdempotencyConflict).
Proof.
  intros Hinv Hr Hrq. destruct (ji_ok _ Hinv _ _ _ Hr) as (_ & _ & req & now & es & Hok).
  unfold appendTx, selectJournal. rewrite Hr. cbv zeta. cbn [ClosedAt]. rewrite (jo_open _ _ _ _ _ _ _ Hok).
  cbn [fmap option_fmap option_map]. rewrite Hrq. by destruct (sameRequest _ _ _ _).
Qed.

(** C35: An append is applied exactly once under its idempotency key.  Once an append has
    been answered, in every later state the same request is answered with the same
    sequence numbers and head and changes nothing; any other request under that key
    changes nothing either, and is answered by the recorded response or an error. *)
Theorem append_exactly_once d t j a w entries ids clock d1 resp d2 :
  rtc storeStep emptyDB d ->
  AppendJournalEntries nfc toLower reread d t j a w entries ids clock = (d1, inl resp) -> rtc storeStep d1 d2 ->
  (forall ids' clock', AppendJournalEntries nfc toLower reread d2 t j a w entries ids' clock'
     = (d2, inl (asIdempotent resp)))
  /\ (forall w' entries' ids' clock', exists e,
        AppendJournalEntries nfc toLower reread d2 t j a w' entries' ids' clock' = (d2, inr e)
        \/ AppendJournalEntries nfc toLower reread d2 t j a w' entries' ids' clock' = (d2, inl (asIdempotent resp))).
Proof.
  intros Hd Ha Hrun. pose proof (step_append d t j a w entries ids clock) as Hs. rewrite Ha in Hs. cbn [fst] in Hs.
  assert (journalInv d2) as Hinv2.
  { apply reachable_inv. etransitivity; [exact Hd|]. by eapply rtc_l. }
  unfold AppendJournalEntries in *.
  destruct (prepareAppend nfc toLower t j a w entries) as [[[[w0 src] inputs] hash]|e] eqn:Ep; [|done].
  pose proof (append_recorded d t j a w0 src hash inputs ids clock resp) as Hrec. cbv zeta in Hrec. rewrite Ha in Hrec.
  destruct (Hrec eq_refl) as (rq & Hrq & Hsame & Hresp). cbn [fst] in Hrq.
  assert (is_Some (journals d1 !! (t, j))) as Hj1.
  { apply (proj2 (step_keeps _ _ Hs)). revert Ha. unfold appendTx, selectJournal. by destruct (journals d !! (t, j)). }
  destruct (run_journals _ _ _ Hrun Hj1) as [r Hr]. pose proof (run_keeps _ _ _ _ Hrun Hrq) as Hrq2. split.
  - intros ids' clock'. rewrite (append_taken d2 t j a w0 src hash inputs ids' clock' rq r) by done.
    by rewrite Hsame, Hresp.
  - intros w' entries' ids' clock'.
    destruct (prepareAppend nfc toLower t j a w' entries') as [[[[w1 src1] inputs1] hash1]|e]; [|exists e; by left].
    rewrite (append_taken d2 t j a w1 src1 hash1 inputs1 ids' clock' rq r) by done.
    destruct (sameRequest rq hash1 w1 src1); [|eexists; by left]. exists ErrInternal. right. by rewrite Hresp.
Qed.

End run.

(** ** Concrete runs *)

(** Lower-casing of ASCII letters, a model of [strings.ToLower] on ASCII text. *)
Fixpoint asciiLower (s : string) : string :=
  match s with
  | EmptyString => EmptyString
  | String c s =>
      String (if upper (code c) then ascii_of_nat (Z.to_nat (code c + 32)) else c) (asciiLower s)
  end.

Lemma asciiLower_name s : everyByte nameByte s = true -> asciiLower s = s.
Proof.
  induction s as [|c s IH]; [done|]. cbn [everyByte asciiLower]. intros H. apply andb_true_iff in H as [Hc Hs].
  rewrite (IH Hs). unfold nameByte, lower, digit, punct, upper in *.
  rewrite !orb_true_iff, !andb_true_iff, !Z.leb_le, !Z.eqb_eq in Hc.
  destruct ((65 <=? code c) && (code c <=? 90)) eqn:E; [|done]. apply andb_true_iff in E as [?%Z.leb_le ?%Z.leb_le]. lia.
Qed.

#[local] Instance asciiLaws : UnicodeLaws id asciiLower.
Proof.
  split; [|done|exact TrimSpace_idemp]. intros s H. apply namePattern_bytes in H as (c & r & -> & Hc & Hr).
  apply asciiLower_name. cbn [everyByte]. by rewrite (lower_nameByte _ Hc).
Qed.

(** A column that returns the text as written. *)
#[local] Instance sameColumn : ColumnLaw id.
Proof. intros t v Hv _. exists v. split; [done|apply same_refl]. Qed.

Definition demoOrder : gmap string string -> list (string * string) := map_to_list.

Definition nobody : Actor := {| ActorType := ""; ActorID := "" |}.

Definition demoCreate (id retention : string) : CreateRequest :=
  {| JournalID := id; Kind := ""; Title := "t"; RActor := nobody; RSource := ""; Meta := {["a" := "b"]};
     Labels := [{| Key := "Z "; Value := "1" |}; {| Key := "a"; Value := "2" |}]; Retention := retention |}.

Definition demoInput (summary : string) : EntryInput :=
  {| IType := "note"; ISchemaVersion := 0; IStatus := ""; IOccurredAt := None; IActor := nobody; ISource := "";
     IParentEntryID := ""; ICorrelationID := ""; ISubjects := ["file:x"; "File:y "; "file:x"]; ISummary := summary;
     IArtifacts := 0 |}.

Definition demoIds (n : Z) : string := "jre_" +:+ pretty n.

Definition demoWriter : JournalWriter := {| WType := ""; WID := ""; WSource := "" |}.

Definition demoBatch : list EntryInput := [demoInput (text "{'b':1,'a':[2,null]}"); demoInput ""].

Definition demoDB0 (id retention : string) : db :=
  fst (CreateJournal Datatypes.id asciiLower demoOrder Datatypes.id emptyDB "t1" (demoCreate id retention) "jrn_1" 5).

Definition demoAppend (d : db) : db * (AppendResponse + storeError) :=
  AppendJournalEntries id asciiLower id d "t1" "jrn_1" "k1" demoWriter demoBatch demoIds 1000000000000.

Definition demoDB1 : db := fst (demoAppend (demoDB0 "jrn_1" "")).

Lemma demo_run : rtc (storeStep (nfc := id) (toLower := asciiLower) (order := demoOrder) (reread := id)) emptyDB demoDB1.
Proof. eapply rtc_l; [apply step_create|]. apply rtc_once. apply step_append. Qed.

Definition demoRow : journalRow :=
  Eval vm_compute in default (advance {| kind := ""; title := None; actor_type := None; actor_id := None; jsource := None;
    meta := ∅; retention := None; next_seq := 0; genesis := ""; create_hash := ""; genesis_hash := ""; head_hash := "";
    created_at := 0; updated_at := 0; closed_at := None |} 0 "" 0) (journals demoDB1 !! ("t1", "jrn_1")).

(** Plain numbers can be checked. *)
Fixpoint plainCheck (v : json) : bool :=
  match v with
  | JNum n => plainNum n
  | JArr l => forallb plainCheck l
  | JObj m => forallb (fun p => plainCheck (snd p)) m
  | _ => true
  end.

Lemma plainCheck_ok v : forall k, wf k v -> plainCheck v = true -> wfG (fun n => plainNum n = true) k v.
Proof.
  induction v as [| | | |l IH|m IH] using json_rect'; intros k Hv Hc; try (inversion Hv; subst; by constructor).
  - apply wf_arr_inv in Hv as (k' & -> & Hl). constructor. cbn [plainCheck] in Hc.
    apply Forall_forall. intros x Hx. rewrite Forall_forall in IH, Hl. apply IH; [done|by apply Hl|].
    rewrite forallb_forall in Hc. by apply Hc, list_elem_of_In.
  - apply wf_obj_inv in Hv as (k' & -> & Hnd & Hm). constructor; [done|]. cbn [plainCheck] in Hc.
    apply Forall_forall. intros x Hx. rewrite Forall_forall in IH, Hm. destruct (Hm x Hx) as [Hk Hw]. split; [done|].
    apply IH; [done|done|]. rewrite forallb_forall in Hc. by apply Hc, list_elem_of_In.
Qed.

Definition plainRows (d : db) : bool :=
  forallb (fun p => match summary (snd p) with
                    | Some raw => match decodeOne raw with Some v => plainCheck v | None => true end
                    | None => true
                    end) (map_to_list (journal_entries d)).

Lemma plainRows_ok d t j r :
  plainRows d = true -> match decodeOne (genesis r) with Some v => plainCheck v | None => true end = true ->
  plainJournal d t j r.
Proof.
  intros Hrows Hg. split.
  - intros v Hv. rewrite Hv in Hg. eexists. apply plainCheck_ok; [by eapply decodeOne_wf|done].
  - intros s row raw v Hrow Hs Hv. unfold plainRows in Hrows. rewrite forallb_forall in Hrows.
    specialize (Hrows ((t, j, s), row)). cbn [snd] in Hrows. rewrite Hs, Hv in Hrows.
    eexists. apply plainCheck_ok; [by eapply decodeOne_wf|]. apply Hrows, list_elem_of_In. by apply elem_of_map_to_list.
Qed.

Lemma journal_always_verifies_witness :
  VerifyJournal id asciiLower demoOrder id (fun _ => None) demoDB1 "t1" "jrn_1"
    = inl {| OK := true; VJournalID := "jrn_1"; Entries := 2; VHeadHash := head_hash demoRow;
             HashChainOK := true; ProjectionOK := true |}.
Proof.
  apply (journal_always_verifies (Horder := iterates_map_to_list) sameColumn (fun _ => None) demoDB1 "t1" "jrn_1" demoRow);
    [exact demo_run|vm_compute; reflexivity|discriminate|].
  apply plainRows_ok; vm_compute; reflexivity.
Defined.

Definition demoResponse : AppendResponse :=
  Eval vm_compute in match snd (demoAppend (demoDB0 "jrn_1" "")) with
    | inl r => r
    | inr _ => {| AJournalID := ""; AAppendID := ""; FirstSeq := 0; LastSeq := 0; Count := 0; AHeadHash := ""; Idempotent := false |}
    end.

Lemma demo_appended :
  AppendJournalEntries id asciiLower id (demoDB0 "jrn_1" "") "t1" "jrn_1" "k1" demoWriter demoBatch demoIds 1000000000000
    = (demoDB1, inl demoResponse).
Proof. vm_cast_no_check (eq_refl (demoDB1, @inl AppendResponse storeError demoResponse)). Qed.

Lemma append_exactly_once_witness :
  Count demoResponse = 2 /\ Idempotent demoResponse = false
  /\ AppendJournalEntries id asciiLower id demoDB1 "t1" "jrn_1" "k1" demoWriter demoBatch demoIds 2000000000000
     = (demoDB1, inl (asIdempotent demoResponse)).
Proof.
  split; [reflexivity|]. split; [reflexivity|].
  exact (proj1 (append_exactly_once (Horder := iterates_map_to_list) (demoDB0 "jrn_1" "") "t1" "jrn_1" "k1" demoWriter demoBatch demoIds
    1000000000000 demoDB1 demoResponse demoDB1 (rtc_once _ _ (step_create emptyDB "t1" (demoCreate "jrn_1" "") "jrn_1" 5))
    demo_appended (rtc_refl _ _)) demoIds 2000000000000).
Defined.

(** The state after one more journal was created. *)
Definition demoDB2 : db :=
  fst (CreateJournal id asciiLower demoOrder id demoDB1 "t1" (demoCreate "jrn_2" "") "jrn_1" 7).

Definition demoVerified : VerifyResult :=
  {| OK := true; VJournalID := "jrn_1"; Entries := 2; VHeadHash := head_hash demoRow; HashChainOK := true;
     ProjectionOK := true |}.

Abbreviation demoVerify := (VerifyJournal id asciiLower demoOrder id (fun _ => None)).

Lemma demo_verified : demoVerify demoDB1 "t1" "jrn_1" = inl demoVerified /\ demoVerify demoDB2 "t1" "jrn_1" = inl demoVerified.
Proof.
  split; vm_cast_no_check (eq_refl (@inl VerifyResult storeError demoVerified)).
Qed.

Lemma journal_tamper_evident_witness :
  exists g g', genesisOf id (fun _ => None) demoDB1 "t1" "jrn_1" = Some g
    /\ genesisOf id (fun _ => None) demoDB2 "t1" "jrn_1" = Some g'
    /\ (sameValue g g' /\ Forall2 sameEntry (historyOf id demoDB1 "t1" "jrn_1") (historyOf id demoDB2 "t1" "jrn_1")
        \/ clash g g'
        \/ exists i e e', historyOf id demoDB1 "t1" "jrn_1" !! i = Some e
             /\ historyOf id demoDB2 "t1" "jrn_1" !! i = Some e' /\ clashEntry e e').
Proof.
  exact (journal_tamper_evident id asciiLower demoOrder id (fun _ => None) demoDB1 demoDB2 "t1" "jrn_1" demoVerified demoVerified
    (proj1 demo_verified) (proj2 demo_verified) eq_refl eq_refl eq_refl eq_refl).
Defined.

(** ** Defects *)

(** A journal that was just created, with the retention document given. *)
Definition created (retention : string) : JournalInfo + storeError :=
  snd (CreateJournal id asciiLower demoOrder id emptyDB "t1" (demoCreate "jrn_1" retention) "jrn_1" 5).

(** Verification depends on the float formatting of the literals of the genesis. *)
Lemma verify_float nfc toLower order reread ft ft' d t j :
  (forall r doc, journals d !! (t, j) = Some r -> decodeOne (reread (genesis r)) = Some doc ->
     unmarshalAny ft doc = unmarshalAny ft' doc) ->
  VerifyJournal nfc toLower order reread ft d t j = VerifyJournal nfc toLower order reread ft' d t j.
Proof.
  intros H. unfold VerifyJournal, verifyWith. destruct (journals d !! (t, j)) as [r|]; [|done].
  destruct (decodeOne (reread (genesis r))) as [doc|] eqn:E; [|done]. cbn [mbind option_bind]. by rewrite (H r doc).
Qed.

(** Verification reads the genesis document into [float64] numbers and hashes these,
    while creation hashed the literals.  A journal whose retention holds [1.0], which
    [float64] prints as [1], is created without an error and then never verifies. *)
Theorem verify_rejects_float floatText :
  floatText "1.0" = Some "1" ->
  (exists info, created (text "{'days':1.0}") = inl info)
  /\ exists r, VerifyJournal id asciiLower demoOrder id floatText (demoDB0 "jrn_1" (text "{'days':1.0}")) "t1" "jrn_1" = inl r
       /\ HashChainOK r = false /\ ProjectionOK r = true /\ OK r = false.
Proof.
  intros Hf. split; [eexists; vm_compute; reflexivity|].
  rewrite (verify_float _ _ _ _ floatText (fun n => if bool_decide (n = "1.0") then Some "1" else None)).
  - eexists. split; [vm_compute; reflexivity|]. done.
  - intros r doc Hr Hdoc. vm_compute in Hr. injection Hr as <-. vm_compute in Hdoc. injection Hdoc as <-.
    vm_compute in Hf. vm_compute. by rewrite Hf.
Qed.

Lemma verify_rejects_float_witness :
  (exists info, created (text "{'days':1.0}") = inl info)
  /\ exists r, VerifyJournal id asciiLower demoOrder id (fun _ => Some "1") (demoDB0 "jrn_1" (text "{'days':1.0}")) "t1" "jrn_1"
       = inl r /\ HashChainOK r = false /\ ProjectionOK r = true /\ OK r = false.
Proof. exact (verify_rejects_float (fun _ => Some "1") eq_refl). Defined.

(** Verification reads the head of the journal before the entries, in separate
    statements.  When an append commits in between, a journal that is intact before and
    after is reported as broken. *)
Theorem verify_races_append :
  (exists r, demoVerify (demoDB0 "jrn_1" "") "t1" "jrn_1" = inl r /\ OK r = true)
  /\ (exists r, demoVerify demoDB1 "t1" "jrn_1" = inl r /\ OK r = true)
  /\ (exists r, verifyWith id asciiLower demoOrder id (fun _ => None) (demoDB0 "jrn_1" "") demoDB1 "t1" "jrn_1" = inl r
        /\ HashChainOK r = false /\ OK r = false).
Proof. split_and!; eexists; (split; [vm_compute; reflexivity|]); repeat split; reflexivity. Qed.

(** Creation looks for an empty journal id before it trims the id, so a blank id makes
    a journal whose id is empty, in the name of which nothing can be appended, listed
    or verified. *)
Theorem blank_id_unusable :
  (exists info, snd (CreateJournal id asciiLower demoOrder id emptyDB "t1" (demoCreate " " "") "jrn_1" 5) = inl info
     /\ JJournalID info = "")
  /\ (forall d a w entries ids clock,
        AppendJournalEntries id asciiLower id d "t1" "" a w entries ids clock = (d, inr ErrJournalValidation))
  /\ (forall d afterSeq limit, ListJournalEntries id d "t1" "" afterSeq limit = inr ErrJournalValidation)
  /\ demoVerify (demoDB0 " " "") "t1" "" = inr ErrJournalValidation.
Proof. split_and!; [eexists; split; vm_compute; reflexivity|done|done|vm_compute; reflexivity]. Qed.

End JournalRun.
