(* ===== verification/FileStore.v ===== *)
(** * The file store

    Model of the file namespace of [src/pkg/datastore/store.go], with [file_tx.go],
    [inode.go], [content.go] and [semantic.go]: directory entries ([file_nodes]),
    inodes, contents, search texts, tags and, on a tenant that still has it, the legacy
    [files] table, which is written along.  A transaction is a computation in a state
    and error monad over the tables; an error rolls it back.  Each SQL statement is
    written out as its effect on the rows its [WHERE] clause selects; the clock and
    fresh identifiers are arguments.  [LIKE] is modelled with its wildcards.  Row locks,
    which make the transactions serial, deadlock retries, column widths, the vector
    columns and the read paths that only select fewer columns are not modelled, and
    string columns compare exactly. *)

From Stdlib Require Import Strings.Ascii.
From S2P Require Import Prelude GoStrings PathUtil Json Sha256 SemanticQueue FileGCQueue.

Import GoStr Paths.

Module FileStore.

#[local] Arguments String.append !_ _ / : simpl nomatch.

Inductive storeError :=
  | ErrNotFound
  | ErrPathConflict
  | ErrRevisionConflict
  | ErrNotEmpty
  | ErrSourceIsDirectory
  | ErrTagPrefix
  | ErrUploadConflict
  | ErrIdempotencyConflict
  | ErrUploadNotActive
  | ErrStorageQuotaExceeded   (** raised by the backend inside a transaction *)
  | ErrRowMissing   (** [ErrNotFound] wrapped by [GetFile] *)
  | ErrSQL.   (** a duplicate key, or no row where one is required *)

#[global] Instance storeError_eq_dec : EqDecision storeError.
Proof. solve_decision. Defined.

Inductive FileStatus := StatusPending | StatusConfirmed | StatusDeleted.

#[global] Instance FileStatus_eq_dec : EqDecision FileStatus.
Proof. solve_decision. Defined.

(** ** Tables *)

(** A row of [file_nodes], which is keyed by [node_id]; [path] is unique. *)
Record nodeRow := {
  path : string;
  parent_path : string;
  name : string;
  is_directory : bool;
  file_id : option string;
  inode_id : option string;
  n_created_at : Z
}.

Record inodeRow := {
  size_bytes : Z;
  revision : Z;
  mode : Z;
  status : FileStatus;
  created_at : Z;
  mtime : Z;
  confirmed_at : option Z;
  expires_at : option Z
}.

(** The column [storage_ref_hash] is a function of [storage_ref]. *)
Record contentRow := {
  storage_type : string;
  storage_ref : string;
  encryption_mode : string;
  encryption_key_id : string;
  content_blob : option string;
  content_type : option string;
  checksum_sha256 : option string;
  source_id : option string
}.

Record semanticRow := {
  content_text : option string;
  description : option string;
  embedding_revision : option Z;
  description_embedding_revision : option Z
}.

(** A row of the legacy table [files], its columns grouped as in the tables it was
    split into. *)
Record fileRow := {
  f_content : contentRow;
  f_semantic : semanticRow;
  f_size : Z;
  f_revision : Z;
  f_status : FileStatus;
  f_created_at : Z;
  f_confirmed_at : option Z;
  f_expires_at : option Z
}.

Inductive UploadStatus := UploadInitiated | UploadUploading | UploadCompleted | UploadAborted | UploadExpired.

#[global] Instance UploadStatus_eq_dec : EqDecision UploadStatus.
Proof. solve_decision. Defined.

(** A row of [uploads], which is keyed by its id; the empty string stands for no value. *)
Record Upload := {
  UploadID : string;
  UFileID : string;
  TargetPath : string;
  S3UploadID : string;
  S3Key : string;
  UEncryptionMode : string;
  UEncryptionKeyID : string;
  TotalSize : Z;
  PartSize : Z;
  PartsTotal : Z;
  ExpectedRevision : option Z;
  UStatus : UploadStatus;
  FingerprintSHA : string;
  IdempotencyKey : string;
  UDescription : string;
  UCreatedAt : Z;
  UUpdatedAt : Z;
  UExpiresAt : Z
}.

(** The tables by primary key; [files] is [None] on a tenant without the legacy table
    ([useLegacyFiles]). *)
Record db := {
  file_nodes : gmap string nodeRow;
  inodes : gmap string inodeRow;
  contents : gmap string contentRow;
  semantic : gmap string semanticRow;
  files : option (gmap string fileRow);
  file_tags : gmap (string * string) string;
  uploads : gmap string Upload;
  gc_tasks : FileGC.table;
  semantic_tasks : Queue.table
}.

Definition emptyDB (legacy : bool) : db :=
  {| file_nodes := ∅; inodes := ∅; contents := ∅; semantic := ∅; files := if legacy then Some ∅ else None;
     file_tags := ∅; uploads := ∅; gc_tasks := ∅; semantic_tasks := ∅ |}.

Definition set_nodes (v : gmap string nodeRow) (d : db) : db :=
  {| file_nodes := v; inodes := inodes d; contents := contents d; semantic := semantic d; files := files d;
     file_tags := file_tags d; uploads := uploads d; gc_tasks := gc_tasks d; semantic_tasks := semantic_tasks d |}.
Definition set_inodes (v : gmap string inodeRow) (d : db) : db :=
  {| file_nodes := file_nodes d; inodes := v; contents := contents d; semantic := semantic d; files := files d;
     file_tags := file_tags d; uploads := uploads d; gc_tasks := gc_tasks d; semantic_tasks := semantic_tasks d |}.
Definition set_contents (v : gmap string contentRow) (d : db) : db :=
  {| file_nodes := file_nodes d; inodes := inodes d; contents := v; semantic := semantic d; files := files d;
     file_tags := file_tags d; uploads := uploads d; gc_tasks := gc_tasks d; semantic_tasks := semantic_tasks d |}.
Definition set_semantic (v : gmap string semanticRow) (d : db) : db :=
  {| file_nodes := file_nodes d; inodes := inodes d; contents := contents d; semantic := v; files := files d;
     file_tags := file_tags d; uploads := uploads d; gc_tasks := gc_tasks d; semantic_tasks := semantic_tasks d |}.
Definition set_files (v : option (gmap string fileRow)) (d : db) : db :=
  {| file_nodes := file_nodes d; inodes := inodes d; contents := contents d; semantic := semantic d; files := v;
     file_tags := file_tags d; uploads := uploads d; gc_tasks := gc_tasks d; semantic_tasks := semantic_tasks d |}.
Definition set_tags (v : gmap (string * string) string) (d : db) : db :=
  {| file_nodes := file_nodes d; inodes := inodes d; contents := contents d; semantic := semantic d;
     files := files d; file_tags := v; uploads := uploads d; gc_tasks := gc_tasks d;
     semantic_tasks := semantic_tasks d |}.
Definition set_uploads (v : gmap string Upload) (d : db) : db :=
  {| file_nodes := file_nodes d; inodes := inodes d; contents := contents d; semantic := semantic d;
     files := files d; file_tags := file_tags d; uploads := v; gc_tasks := gc_tasks d;
     semantic_tasks := semantic_tasks d |}.
Definition set_gc (v : FileGC.table) (d : db) : db :=
  {| file_nodes := file_nodes d; inodes := inodes d; contents := contents d; semantic := semantic d;
     files := files d; file_tags := file_tags d; uploads := uploads d; gc_tasks := v;
     semantic_tasks := semantic_tasks d |}.
Definition set_tasks (v : Queue.table) (d : db) : db :=
  {| file_nodes := file_nodes d; inodes := inodes d; contents := contents d; semantic := semantic d;
     files := files d; file_tags := file_tags d; uploads := uploads d; gc_tasks := gc_tasks d; semantic_tasks := v |}.

(** ** Transactions *)

Definition tx (A : Type) : Type := db -> (db * A) + storeError.

Definition ok {A} (a : A) : tx A := fun d => inl (d, a).
Definition throw {A} (e : storeError) : tx A := fun _ => inr e.
Definition bind {A B} (m : tx A) (k : A -> tx B) : tx B :=
  fun d => match m d with inl (d', a) => k a d' | inr e => inr e end.
Definition read {A} (f : db -> A) : tx A := fun d => inl (d, f d).
Definition modify (f : db -> db) : tx unit := fun d => inl (f d, tt).
Definition throwIf (b : bool) (e : storeError) : tx unit := if b then throw e else ok tt.

Declare Scope tx_scope.
Delimit Scope tx_scope with tx.
Notation "'let*' x := m 'in' k" := (bind m (fun x => k))
  (at level 200, x name, m at level 100, k at level 200, right associativity) : tx_scope.
Notation "m ;; k" := (bind m (fun _ => k)) (at level 100, k at level 200, right associativity) : tx_scope.
Open Scope tx_scope.

(** [Store.InTx] *)
Definition InTx {A} (m : tx A) (d : db) : db * (A + storeError) :=
  match m d with inl (d', a) => (d', inl a) | inr e => (d, inr e) end.

(** A loop over a list. *)
Fixpoint forEach {A} (f : A -> tx unit) (l : list A) : tx unit :=
  match l with
  | [] => ok tt
  | a :: l => f a ;; forEach f l
  end.

(** ** Paths *)

(** The text up to and after the last slash. *)
Fixpoint lastSlash (s : string) : option (string * string) :=
  match s with
  | EmptyString => None
  | String c s =>
      match lastSlash s with
      | Some (a, b) => Some (String c a, b)
      | None => if Ascii.eqb c slash then Some ("", s) else None
      end
  end.

Definition parentPath (p : string) : string :=
  if bool_decide (p = "/") then "/"
  else match lastSlash (TrimSuffix p "/") with
       | None => "/"
       | Some (a, _) => if bool_decide (a = "") then "/" else a +:+ "/"
       end.

Definition baseName (p : string) : string :=
  let p := TrimSuffix p "/" in
  match lastSlash p with
  | None => p
  | Some (_, b) => b
  end.

(** ** LIKE *)

(** The text after its first character. *)
Definition dropRune (s : string) : option string :=
  match Json.utf8Head s with
  | Some (_, r) => Some r
  | None => match s with EmptyString => None | String _ r => Some r end
  end.

(** The texts that begin at a character. *)
Fixpoint suffixes (fuel : nat) (s : string) : list string :=
  match fuel with
  | O => [s]
  | S fuel => s :: match dropRune s with Some r => suffixes fuel r | None => [] end
  end.

Definition isPercent (c : ascii) : bool := code c =? 37.
Definition isUnderscore (c : ascii) : bool := code c =? 95.
Definition isBackslash (c : ascii) : bool := code c =? 92.

(** The next byte is [c]. *)
Definition byteThen (c : ascii) (k : string -> bool) (s : string) : bool :=
  match s with String b s => Ascii.eqb b c && k s | EmptyString => false end.

(** [s LIKE p] with the escape character [\]. *)
Fixpoint like (p s : string) : bool :=
  match p with
  | EmptyString => bool_decide (s = "")
  | String c p1 =>
      if isPercent c then existsb (like p1) (suffixes (String.length s) s)
      else if isUnderscore c then match dropRune s with Some r => like p1 r | None => false end
      else match p1 with
           | String c' p2 => if isBackslash c then byteThen c' (like p2) s else byteThen c (like p1) s
           | EmptyString => byteThen c (like p1) s
           end
  end.

(** The replacer escapes the special characters of [LIKE]. *)
Fixpoint escapeLike (s : string) : string :=
  match s with
  | EmptyString => EmptyString
  | String c s =>
      if isPercent c || isUnderscore c || isBackslash c
      then String (ascii_of_nat 92) (String c (escapeLike s)) else String c (escapeLike s)
  end.
Definition likeLiteralPrefixPattern (prefix : string) : string := escapeLike prefix +:+ "%".

(** ** file_nodes *)

Definition nullStr (s : string) : option string := if bool_decide (s = "") then None else Some s.

(** The node at a path, with its key. *)
Definition nodeAt (d : db) (p : string) : option (string * nodeRow) :=
  head (filter (fun kv => path (snd kv) = p) (map_to_list (file_nodes d))).

(** Another node has the path. *)
Definition pathTaken (m : gmap string nodeRow) (id p : string) : bool :=
  bool_decide (Exists (fun kv => fst kv <> id /\ path (snd kv) = p) (map_to_list m)).

(** The Go struct; the empty string stands for no id. *)
Record FileNode := {
  NodeID : string;
  Path : string;
  ParentPath_ : string;
  Name : string;
  IsDirectory : bool;
  FileID : string;
  InodeID : string;
  CreatedAt : Z
}.

Definition rowOfNode (n : FileNode) : nodeRow :=
  {| path := Path n; parent_path := ParentPath_ n; name := Name n; is_directory := IsDirectory n;
     file_id := nullStr (FileID n); inode_id := nullStr (InodeID n); n_created_at := CreatedAt n |}.

Definition scanNode (p : string * nodeRow) : FileNode :=
  let '(id, r) := p in
  {| NodeID := id; Path := path r; ParentPath_ := parent_path r; Name := name r;
     IsDirectory := is_directory r; FileID := default "" (file_id r);
     InodeID := default "" (inode_id r); CreatedAt := n_created_at r |}.

(** [INSERT INTO file_nodes] *)
Definition insertNodeRow (id : string) (r : nodeRow) : tx unit :=
  let* m := read file_nodes in
  throwIf (bool_decide (is_Some (m !! id)) || pathTaken m id (path r)) ErrPathConflict ;;
  modify (set_nodes (<[id := r]> m)).

Definition InsertNode (n : FileNode) : tx unit := insertNodeRow (NodeID n) (rowOfNode n).

Definition GetNode (d : db) (p : string) : FileNode + storeError :=
  match nodeAt d p with Some kv => inl (scanNode kv) | None => inr ErrNotFound end.

Definition ListNodes (d : db) (parent : string) : list FileNode :=
  scanNode <$> sortBy (fun a b => String.ltb (name (snd a)) (name (snd b)))
                 (filter (fun kv => parent_path (snd kv) = parent) (map_to_list (file_nodes d))).

(** [DELETE FROM file_nodes WHERE ...] *)
Definition deleteNodes (P : nodeRow -> bool) : tx unit :=
  modify (fun d => set_nodes (filter (fun kv => P (snd kv) = false) (file_nodes d)) d).
Definition nodesWhere (P : nodeRow -> bool) (d : db) : list (string * nodeRow) :=
  filter (fun kv => P (snd kv) = true) (map_to_list (file_nodes d)).

Definition DeleteNode (p : string) : tx unit :=
  let* rows := read (nodesWhere (fun r => bool_decide (path r = p))) in
  throwIf (bool_decide (rows = [])) ErrNotFound ;;
  deleteNodes (fun r => bool_decide (path r = p)).

Definition dirHasChildrenTx (p : string) : tx bool :=
  read (fun d => negb (bool_decide (nodesWhere (fun r => bool_decide (parent_path r = p)) d = []))).

Definition DeleteEmptyDir (p : string) : tx unit :=
  let* hasChildren := dirHasChildrenTx p in
  throwIf hasChildren ErrNotEmpty ;;
  let* rows := read (nodesWhere (fun r => bool_decide (path r = p) && is_directory r)) in
  throwIf (bool_decide (rows = [])) ErrNotFound ;;
  deleteNodes (fun r => bool_decide (path r = p) && is_directory r).

Definition DeleteNodesByPrefix (prefix : string) : tx Z :=
  let* rows := read (nodesWhere (fun r => like (likeLiteralPrefixPattern prefix) (path r))) in
  deleteNodes (fun r => like (likeLiteralPrefixPattern prefix) (path r)) ;;
  ok (zlen rows).

(** [UPDATE file_nodes SET path, parent_path, name] of one row. *)
Definition moved (r : nodeRow) (newPath newParent newName : string) : nodeRow :=
  {| path := newPath; parent_path := newParent; name := newName; is_directory := is_directory r;
     file_id := file_id r; inode_id := inode_id r; n_created_at := n_created_at r |}.
Definition moveNode (e : storeError) (u : string * string * string * string) : tx unit :=
  let '(id, newPath, newParent, newName) := u in
  let* m := read file_nodes in
  match m !! id with
  | None => ok tt
  | Some r =>
      throwIf (pathTaken m id newPath) e ;;
      modify (set_nodes (<[id := moved r newPath newParent newName]> m))
  end.

Definition UpdateNodePath (oldPath newPath newParent newName : string) : tx unit :=
  let* o := read (fun d => nodeAt d oldPath) in
  match o with
  | None => throw ErrNotFound
  | Some (id, _) => moveNode ErrSQL (id, newPath, newParent, newName)
  end.

(** The rows that [path = ? OR path LIKE ?] selects for a directory. *)
Definition underLike (prefix : string) (r : nodeRow) : bool :=
  bool_decide (path r = prefix) || like (prefix +:+ "%") (path r).

Definition dirUpdate (oldPrefix newPrefix : string) (kv : string * nodeRow) : string * string * string * string :=
  let r := snd kv in
  if bool_decide (path r = oldPrefix) then (fst kv, newPrefix, parentPath newPrefix, baseName newPrefix)
  else (fst kv, newPrefix +:+ TrimPrefix (path r) oldPrefix,
        newPrefix +:+ TrimPrefix (parent_path r) oldPrefix, name r).

Definition RenameDir (oldPrefix newPrefix : string) : tx Z :=
  let* rows := read (nodesWhere (underLike oldPrefix)) in
  let updates := dirUpdate oldPrefix newPrefix
                   <$> sortBy (fun a b => String.ltb (path (snd a)) (path (snd b))) rows in
  forEach (moveNode ErrSQL) updates ;;
  ok (zlen updates).

Definition refCount (d : db) (fileID : string) : Z :=
  zlen (nodesWhere (fun r => bool_decide (file_id r = Some fileID)) d).
Definition RefCount (fileID : string) : tx Z := read (fun d => refCount d fileID).

(** ** Parent directories *)

Definition deterministicNodeID (p : string) : string := Sha256.hexEncode (Sha256.sum256 p).

(** The ancestors of a path without the root, the nearest first. *)
Fixpoint ancestors (fuel : nat) (cur : string) : list string :=
  match fuel with
  | O => []
  | S fuel =>
      let parent := parentPath cur in
      if bool_decide (parent = cur) || bool_decide (parent = "/") then []
      else parent :: ancestors fuel parent
  end.

Definition newInode (mode now : Z) : inodeRow :=
  {| size_bytes := 0; revision := 1; mode := mode; status := StatusConfirmed; created_at := now; mtime := now;
     confirmed_at := None; expires_at := None |}.

(** [INSERT IGNORE INTO inodes] *)
Definition insertIgnoreInode (id : string) (r : inodeRow) : tx unit :=
  modify (fun d => match inodes d !! id with
                   | Some _ => d
                   | None => set_inodes (<[id := r]> (inodes d)) d
                   end).

(** One directory of [ensureParentDirsWithExecer]. *)
Definition ensureDir (now : Z) (dirPath : string) : tx unit :=
  let* existing := read (fun d => head (nodesWhere (fun r => bool_decide (path r = dirPath) && is_directory r) d)) in
  let nodeID := deterministicNodeID dirPath in
  match existing with
  | Some (_, {| inode_id := Some _ |}) => ok tt
  | Some (id, r) =>
      insertIgnoreInode nodeID (newInode 493 now) ;;
      modify (fun d => set_nodes (<[id := {| path := path r; parent_path := parent_path r; name := name r;
                                             is_directory := is_directory r; file_id := file_id r;
                                             inode_id := Some nodeID; n_created_at := n_created_at r |}]>
                                    (file_nodes d)) d)
  | None =>
      insertIgnoreInode nodeID (newInode 493 now) ;;
      modify (fun d =>
        if bool_decide (is_Some (file_nodes d !! nodeID)) || pathTaken (file_nodes d) nodeID dirPath then d
        else set_nodes (<[nodeID := {| path := dirPath; parent_path := parentPath dirPath; name := baseName dirPath;
                                       is_directory := true; file_id := None; inode_id := Some nodeID;
                                       n_created_at := now |}]> (file_nodes d)) d)
  end.

Definition EnsureParentDirsTx (now : Z) (p : string) : tx unit :=
  forEach (ensureDir now) (reverse (ancestors (String.length p) p)).

(** ** Files *)

(** The Go struct; the empty string and a nil pointer stand for no value. *)
Record File := {
  FFileID : string;
  StorageType : string;
  StorageRef : string;
  StorageEncryptionMode : string;
  StorageEncryptionKeyID : string;
  ContentBlob : string;
  ContentType : string;
  SizeBytes : Z;
  ChecksumSHA256 : string;
  Revision : Z;
  Mode : Z;
  EmbeddingRevision : option Z;
  Status : FileStatus;
  SourceID : string;
  ContentText : string;
  Description : string;
  DescriptionEmbeddingRevision : option Z;
  FCreatedAt : Z;
  ConfirmedAt : option Z;
  ExpiresAt : option Z
}.

Definition fileStorageEncryptionModeForWrite (m : string) : string := if bool_decide (m = "") then "legacy" else m.
Definition storageEncryptionKeyIDForWrite (m keyID : string) : string :=
  if bool_decide (m = "sse-kms") || bool_decide (m = "dsse-kms") then keyID else "".

Definition contentOf (f : File) : contentRow :=
  let m := fileStorageEncryptionModeForWrite (StorageEncryptionMode f) in
  {| storage_type := StorageType f; storage_ref := StorageRef f; encryption_mode := m;
     encryption_key_id := storageEncryptionKeyIDForWrite m (StorageEncryptionKeyID f);
     content_blob := nullStr (ContentBlob f); content_type := nullStr (ContentType f);
     checksum_sha256 := nullStr (ChecksumSHA256 f); source_id := nullStr (SourceID f) |}.

(** [INSERT INTO] a table by primary key. *)
Definition insertInodeRow (id : string) (r : inodeRow) : tx unit :=
  let* m := read inodes in throwIf (bool_decide (is_Some (m !! id))) ErrSQL ;; modify (set_inodes (<[id := r]> m)).
Definition insertContentRow (id : string) (r : contentRow) : tx unit :=
  let* m := read contents in throwIf (bool_decide (is_Some (m !! id))) ErrSQL ;; modify (set_contents (<[id := r]> m)).
Definition insertSemanticRow (id : string) (r : semanticRow) : tx unit :=
  let* m := read semantic in throwIf (bool_decide (is_Some (m !! id))) ErrSQL ;; modify (set_semantic (<[id := r]> m)).

Definition insertSplitTablesTx (f : File) (now : Z) : tx unit :=
  let m := if Mode f =? 0 then 420 else Mode f in
  insertInodeRow (FFileID f)
    {| size_bytes := SizeBytes f; revision := Revision f; mode := m; status := Status f;
       created_at := FCreatedAt f; mtime := default now (ConfirmedAt f); confirmed_at := ConfirmedAt f;
       expires_at := ExpiresAt f |} ;;
  insertContentRow (FFileID f) (contentOf f) ;;
  insertSemanticRow (FFileID f)
    {| content_text := nullStr (ContentText f); description := nullStr (Description f);
       embedding_revision := EmbeddingRevision f;
       description_embedding_revision := DescriptionEmbeddingRevision f |}.

(** The legacy row of a new file. *)
Definition legacyOf (f : File) : fileRow :=
  {| f_content := contentOf f;
     f_semantic := {| content_text := nullStr (ContentText f); description := nullStr (Description f);
                      embedding_revision := None;
                      description_embedding_revision := DescriptionEmbeddingRevision f |};
     f_size := SizeBytes f; f_revision := Revision f; f_status := Status f; f_created_at := FCreatedAt f;
     f_confirmed_at := ConfirmedAt f; f_expires_at := ExpiresAt f |}.

Definition InsertFileTx (f : File) (now : Z) : tx unit :=
  let* legacy := read files in
  match legacy with
  | None => ok tt
  | Some m =>
      throwIf (bool_decide (is_Some (m !! FFileID f))) ErrSQL ;;
      modify (set_files (Some (<[FFileID f := legacyOf f]> m)))
  end ;;
  insertSplitTablesTx f now.

Definition assembleFile (id : string) (i : inodeRow) (c : option contentRow) (s : option semanticRow) : File :=
  {| FFileID := id; StorageType := default "" (storage_type <$> c); StorageRef := default "" (storage_ref <$> c);
     StorageEncryptionMode := default "" (encryption_mode <$> c);
     StorageEncryptionKeyID := default "" (encryption_key_id <$> c);
     ContentBlob := default "" (c ≫= content_blob); ContentType := default "" (c ≫= content_type);
     SizeBytes := size_bytes i; ChecksumSHA256 := default "" (c ≫= checksum_sha256); Revision := revision i;
     Mode := mode i; EmbeddingRevision := s ≫= embedding_revision; Status := status i;
     SourceID := default "" (c ≫= source_id); ContentText := default "" (s ≫= content_text);
     Description := default "" (s ≫= description);
     DescriptionEmbeddingRevision := s ≫= description_embedding_revision; FCreatedAt := created_at i;
     ConfirmedAt := confirmed_at i; ExpiresAt := expires_at i |}.

(** [GetFile].  The row helpers map a missing row to the package's [ErrNotFound], which
    is not the [sql.ErrNoRows] that the caller tolerates, so a missing content or
    semantic row is an error. *)
Definition GetFile (d : db) (fileID : string) : File + storeError :=
  match inodes d !! fileID, contents d !! fileID, semantic d !! fileID with
  | Some i, Some c, Some s => inl (assembleFile fileID i (Some c) (Some s))
  | None, _, _ => inr ErrNotFound
  | _, _, _ => inr ErrRowMissing
  end.

Definition Stat (d : db) (p : string) : (FileNode * option File) + storeError :=
  match GetNode d p with
  | inr e => inr e
  | inl node =>
      if negb (IsDirectory node) && negb (bool_decide (FileID node = ""))
      then match GetFile d (FileID node) with
           | inl f => inl (node, Some f)
           | inr e => inr e
           end
      else inl (node, None)
  end.

(** [lockConfirmedFileForAttachTx] *)
Definition lockConfirmedFileForAttachTx (fileID : string) : tx unit :=
  let* legacy := read files in
  let* i := read (fun d => inodes d !! fileID) in
  throwIf (match legacy with
           | None => false
           | Some m => negb (bool_decide (f_status <$> m !! fileID = Some StatusConfirmed))
           end) ErrNotFound ;;
  throwIf (negb (bool_decide (status <$> i = Some StatusConfirmed))) ErrNotFound.

Definition InsertNodeTx (n : FileNode) : tx unit :=
  (if negb (IsDirectory n) && negb (bool_decide (FileID n = "")) then lockConfirmedFileForAttachTx (FileID n)
   else ok tt) ;;
  InsertNode n.

(** ** Content updates *)

(** The new content of a file. *)
Record Update := {
  uStorageType : string;
  uStorageRef : string;
  uContentType : string;
  uChecksum : string;
  uContentText : string;
  uContentBlob : string;
  uSize : Z;
  uDescription : string
}.

Definition withContent (u : Update) (c : contentRow) : contentRow :=
  {| storage_type := uStorageType u; storage_ref := uStorageRef u; encryption_mode := encryption_mode c;
     encryption_key_id := encryption_key_id c; content_blob := nullStr (uContentBlob u);
     content_type := nullStr (uContentType u); checksum_sha256 := nullStr (uChecksum u);
     source_id := source_id c |}.

(** The updates of one row in each table; a missing row is left missing. *)
Definition updateInode (id : string) (f : inodeRow -> inodeRow) : tx unit :=
  modify (fun d => set_inodes (alter f id (inodes d)) d).
Definition updateContent (id : string) (f : contentRow -> contentRow) : tx unit :=
  modify (fun d => set_contents (alter f id (contents d)) d).
Definition updateSemantic (id : string) (f : semanticRow -> semanticRow) : tx unit :=
  modify (fun d => set_semantic (alter f id (semantic d)) d).
Definition updateLegacy (id : string) (f : fileRow -> fileRow) : tx unit :=
  modify (fun d => set_files (alter f id <$> files d) d).

Definition UpdateInodeContentTx (id : string) (size rev : Z) (st : FileStatus) (at_ : Z) : tx unit :=
  updateInode id (fun i => {| size_bytes := size; revision := rev; mode := mode i; status := st;
                              created_at := created_at i; mtime := at_; confirmed_at := Some at_;
                              expires_at := expires_at i |}).

Definition UpdateContentTx (id : string) (u : Update) (encMode : string) : tx unit :=
  updateContent id (fun c =>
    let c := withContent u c in
    {| storage_type := storage_type c; storage_ref := storage_ref c;
       encryption_mode := fileStorageEncryptionModeForWrite encMode;
       encryption_key_id := encryption_key_id c; content_blob := content_blob c; content_type := content_type c;
       checksum_sha256 := checksum_sha256 c; source_id := source_id c |}).

Definition UpdateSemanticTx (id text descr : string) : tx unit :=
  updateSemantic id (fun _ => {| content_text := nullStr text; description := nullStr descr;
                                 embedding_revision := None; description_embedding_revision := None |}).
Definition updateSemanticNoEmbedTx (id text descr : string) : tx unit :=
  updateSemantic id (fun s => {| content_text := nullStr text; description := nullStr descr;
                                 embedding_revision := embedding_revision s;
                                 description_embedding_revision := description_embedding_revision s |}).

(** The legacy row after a content update; [current] is the stored description. *)
Definition legacyUpdated (u : Update) (preserveEmbedding : bool) (current : string) (now : Z) (f : fileRow) : fileRow :=
  let s := f_semantic f in
  let rev := f_revision f in
  {| f_content := withContent u (f_content f);
     f_semantic :=
       {| content_text := nullStr (uContentText u);
          description := if bool_decide (uDescription u = "") then description s else Some (uDescription u);
          embedding_revision := if preserveEmbedding then embedding_revision s else None;
          description_embedding_revision :=
            if bool_decide (uDescription u = "") || bool_decide (current = uDescription u)
            then description_embedding_revision s
            else if preserveEmbedding then Some (rev + 1) else None |};
     f_size := uSize u; f_revision := rev + 1; f_status := StatusConfirmed; f_created_at := f_created_at f;
     f_confirmed_at := Some now; f_expires_at := f_expires_at f |}.

(** The legacy part of [updateFileContentTx], which yields the new revision. *)
Definition updateLegacyContentTx (fileID : string) (expectedRevision : Z) (preserveEmbedding : bool) (u : Update)
    (now : Z) (m : gmap string fileRow) : tx Z :=
  let* sem := read (fun d => semantic d !! fileID) in
  throwIf (negb (bool_decide (uDescription u = "")) && bool_decide (sem = None)) ErrSQL ;;
  let current := default "" (sem ≫= description) in
  match m !! fileID with
  | Some f =>
      throwIf ((0 <? expectedRevision)
               && negb (bool_decide (f_revision f = expectedRevision) && bool_decide (f_status f = StatusConfirmed)))
        ErrRevisionConflict ;;
      modify (set_files (Some (<[fileID := legacyUpdated u preserveEmbedding current now f]> m))) ;;
      ok (if 0 <? expectedRevision then expectedRevision + 1 else f_revision f + 1)
  | None => throw (if 0 <? expectedRevision then ErrRevisionConflict else ErrNotFound)
  end.

Definition updateFileContentTx (fileID : string) (expectedRevision : Z) (preserveEmbedding : bool) (u : Update)
    (now : Z) : tx Z :=
  let* legacy := read files in
  let* rev := match legacy with
              | Some m => updateLegacyContentTx fileID expectedRevision preserveEmbedding u now m
              | None =>
                  let* i := read (fun d => inodes d !! fileID) in
                  match i with
                  | Some i =>
                      throwIf (negb (bool_decide (status i = StatusConfirmed)))
                        (if 0 <? expectedRevision then ErrRevisionConflict else ErrNotFound) ;;
                      throwIf ((0 <? expectedRevision) && negb (revision i =? expectedRevision))
                        ErrRevisionConflict ;;
                      ok (revision i + 1)
                  | None => throw (if 0 <? expectedRevision then ErrRevisionConflict else ErrNotFound)
                  end
              end in
  UpdateInodeContentTx fileID (uSize u) rev StatusConfirmed now ;;
  let* c := read (fun d => contents d !! fileID) in
  match c with
  | None => throw ErrSQL
  | Some c =>
      UpdateContentTx fileID u (encryption_mode c) ;;
      (if preserveEmbedding then updateSemanticNoEmbedTx fileID (uContentText u) (uDescription u)
       else UpdateSemanticTx fileID (uContentText u) (uDescription u)) ;;
      ok rev
  end.

Definition UpdateFileContentTx (fileID : string) (u : Update) (now : Z) : tx Z :=
  updateFileContentTx fileID 0 false u now.
Definition UpdateFileContentIfRevisionTx (fileID : string) (expectedRevision : Z) (u : Update) (now : Z) : tx Z :=
  updateFileContentTx fileID expectedRevision false u now.
Definition UpdateFileContentAutoEmbeddingTx (fileID : string) (u : Update) (now : Z) : tx Z :=
  updateFileContentTx fileID 0 true u now.
Definition UpdateFileContentAutoEmbeddingIfRevisionTx (fileID : string) (expectedRevision : Z) (u : Update) (now : Z)
    : tx Z := updateFileContentTx fileID expectedRevision true u now.

Definition withEncryption (m keyID : string) (c : contentRow) : contentRow :=
  {| storage_type := storage_type c; storage_ref := storage_ref c; encryption_mode := m;
     encryption_key_id := storageEncryptionKeyIDForWrite m keyID; content_blob := content_blob c;
     content_type := content_type c; checksum_sha256 := checksum_sha256 c; source_id := source_id c |}.

(** [UpdateFileStorageEncryptionTx].  When the legacy update changes no row, either
    because there is none or because it had the values already, only the inode has to
    exist. *)
Definition UpdateFileStorageEncryptionTx (fileID encMode keyID : string) : tx unit :=
  let m := fileStorageEncryptionModeForWrite encMode in
  let* legacy := read files in
  let* i := read (fun d => inodes d !! fileID) in
  throwIf (bool_decide (i = None)
           && match legacy with
              | None => true
              | Some l => match l !! fileID with
                          | None => true
                          | Some f => bool_decide (encryption_mode (f_content f) = m)
                                        && bool_decide (encryption_key_id (f_content f)
                                                        = storageEncryptionKeyIDForWrite m keyID)
                          end
              end) ErrNotFound ;;
  updateLegacy fileID (fun f => {| f_content := withEncryption m keyID (f_content f); f_semantic := f_semantic f;
                                   f_size := f_size f; f_revision := f_revision f; f_status := f_status f;
                                   f_created_at := f_created_at f; f_confirmed_at := f_confirmed_at f;
                                   f_expires_at := f_expires_at f |}) ;;
  updateContent fileID (withEncryption m keyID).

(** ** Pending files *)

Definition legacyConfirmed (u : Update) (auto : bool) (now : Z) (f : fileRow) : fileRow :=
  let s := f_semantic f in
  {| f_content := {| storage_type := uStorageType u; storage_ref := uStorageRef u;
                     encryption_mode := encryption_mode (f_content f);
                     encryption_key_id := encryption_key_id (f_content f);
                     content_blob := content_blob (f_content f); content_type := nullStr (uContentType u);
                     checksum_sha256 := None; source_id := source_id (f_content f) |};
     f_semantic :=
       {| content_text := None;
          description := if bool_decide (uDescription u = "") then description s else Some (uDescription u);
          embedding_revision := if auto then embedding_revision s else None;
          description_embedding_revision :=
            if auto && negb (bool_decide (uDescription u = "")) then Some (f_revision f)
            else description_embedding_revision s |};
     f_size := uSize u; f_revision := f_revision f; f_status := StatusConfirmed; f_created_at := f_created_at f;
     f_confirmed_at := Some now; f_expires_at := f_expires_at f |}.

(** The file is pending, in the legacy table or in [inodes]. *)
Definition requirePending (fileID : string) : tx unit :=
  let* legacy := read files in
  let* i := read (fun d => inodes d !! fileID) in
  throwIf (negb (match legacy with
                 | Some m => bool_decide (f_status <$> m !! fileID = Some StatusPending)
                 | None => bool_decide (status <$> i = Some StatusPending)
                 end)) ErrNotFound.

Definition confirmPendingTx (auto : bool) (fileID : string) (u : Update) (now : Z) : tx unit :=
  requirePending fileID ;;
  updateLegacy fileID (legacyConfirmed u auto now) ;;
  UpdateInodeContentTx fileID (uSize u) 1 StatusConfirmed now ;;
  let* c := read (fun d => contents d !! fileID) in
  UpdateContentTx fileID {| uStorageType := uStorageType u; uStorageRef := uStorageRef u;
                            uContentType := uContentType u; uChecksum := ""; uContentText := "";
                            uContentBlob := ""; uSize := uSize u; uDescription := uDescription u |}
    (default "legacy" (encryption_mode <$> c)) ;;
  (if auto
   then if bool_decide (uDescription u = "") then ok tt else updateSemanticNoEmbedTx fileID "" (uDescription u)
   else UpdateSemanticTx fileID "" (uDescription u)).

Definition ConfirmPendingFileTx : string -> Update -> Z -> tx unit := confirmPendingTx false.
Definition ConfirmPendingFileAutoEmbeddingTx : string -> Update -> Z -> tx unit := confirmPendingTx true.

Definition clearRef (c : contentRow) : contentRow :=
  {| storage_type := storage_type c; storage_ref := ""; encryption_mode := encryption_mode c;
     encryption_key_id := encryption_key_id c; content_blob := content_blob c; content_type := content_type c;
     checksum_sha256 := checksum_sha256 c; source_id := source_id c |}.

Definition withStatus (st : FileStatus) (i : inodeRow) : inodeRow :=
  {| size_bytes := size_bytes i; revision := revision i; mode := mode i; status := st; created_at := created_at i;
     mtime := mtime i; confirmed_at := confirmed_at i; expires_at := expires_at i |}.
Definition legacyWithStatus (st : FileStatus) (f : fileRow) : fileRow :=
  {| f_content := f_content f; f_semantic := f_semantic f; f_size := f_size f; f_revision := f_revision f;
     f_status := st; f_created_at := f_created_at f; f_confirmed_at := f_confirmed_at f;
     f_expires_at := f_expires_at f |}.

Definition DeletePendingFileTx (fileID : string) (now : Z) : tx unit :=
  let* legacy := read files in
  let* i := read (fun d => inodes d !! fileID) in
  throwIf (match legacy with
           | Some m => negb (bool_decide (f_status <$> m !! fileID = Some StatusPending))
           | None => false
           end) ErrNotFound ;;
  updateLegacy fileID (fun f =>
    let f := legacyWithStatus StatusDeleted f in
    {| f_content := clearRef (f_content f); f_semantic := f_semantic f; f_size := f_size f;
       f_revision := f_revision f; f_status := f_status f; f_created_at := f_created_at f;
       f_confirmed_at := f_confirmed_at f; f_expires_at := f_expires_at f |}) ;;
  throwIf (negb (bool_decide (status <$> i = Some StatusPending))) ErrNotFound ;;
  updateInode fileID (fun i =>
    {| size_bytes := size_bytes i; revision := revision i; mode := mode i; status := StatusDeleted;
       created_at := created_at i; mtime := now; confirmed_at := confirmed_at i; expires_at := expires_at i |}) ;;
  updateContent fileID clearRef.

(** ** Deletion *)

Definition markOne (id : string) : tx unit :=
  updateLegacy id (legacyWithStatus StatusDeleted) ;; updateInode id (withStatus StatusDeleted).
(** [markFilesDeletedTx] of one batch. *)
Definition markFilesDeletedTx (ids : list string) : tx unit := forEach markOne ids.

Definition MarkFileDeleted (fileID : string) : tx unit := markFilesDeletedTx [fileID].

Definition deleteFileTagsByIDsTx (ids : list string) : tx unit :=
  modify (fun d => set_tags (filter (fun kv => fst (fst kv) ∉ ids) (file_tags d)) d).

(** The columns of a file that a cleanup task needs. *)
Record gcFile := { gFileID : string; gStorageType : string; gStorageRef : string; gSize : Z; gContentType : string }.

Definition gcFileOf (id : string) (size : Z) (c : contentRow) : gcFile :=
  {| gFileID := id; gStorageType := storage_type c; gStorageRef := storage_ref c; gSize := size;
     gContentType := default "" (content_type c) |}.

(** The file as the legacy table or the split tables have it. *)
Definition fileForGC (d : db) (fileID : string) : option gcFile :=
  match files d with
  | Some m => (fun f => gcFileOf fileID (f_size f) (f_content f)) <$> m !! fileID
  | None => match inodes d !! fileID, contents d !! fileID with
            | Some i, Some c => Some (gcFileOf fileID (size_bytes i) c)
            | _, _ => None
            end
  end.

Definition scanFileForGCTx (fileID : string) : tx gcFile :=
  let* o := read (fun d => fileForGC d fileID) in
  match o with Some f => ok f | None => throw ErrNotFound end.

(** [NewFileGCTaskFromFile] and [EnqueueFileGCTaskTx]. *)
Definition enqueueGC (f : gcFile) (now : Z) : tx unit :=
  match FileGC.NewFileGCTaskFromFile
          (Some (gFileID f, gStorageType f, gStorageRef f, gSize f, gContentType f)) now with
  | inr _ => throw ErrSQL
  | inl task =>
      let* t := read gc_tasks in
      match FileGC.enqueueFileGCTask t (Some task) now with
      | (t', inl _) => modify (set_gc t')
      | (_, inr _) => throw ErrSQL
      end
  end.

(** [scanDeleteCandidateTx]: the legacy join needs the row of [files], the other one the
    row of [contents]. *)
Definition candidateFile (d : db) (fileID : string) : option gcFile :=
  match files d with
  | Some m => (fun f => gcFileOf fileID (f_size f) (f_content f)) <$> m !! fileID
  | None => (fun c => gcFileOf fileID (default 0 (size_bytes <$> inodes d !! fileID)) c) <$> contents d !! fileID
  end.

(** What the last step of removing a file's only entry does. *)
Definition retireFile (f : gcFile) (now : Z) : tx unit :=
  markFilesDeletedTx [gFileID f] ;;
  deleteFileTagsByIDsTx [gFileID f] ;;
  enqueueGC f now.

Definition DeleteFileWithRefCheck (p : string) (now : Z) : tx (option gcFile) :=
  let* o := read (fun d => nodeAt d p) in
  match o with
  | None => throw ErrNotFound
  | Some (_, r) =>
      throwIf (is_directory r) ErrNotFound ;;
      let fileID := default "" (file_id r) in
      let* file := read (fun d => candidateFile d fileID) in
      deleteNodes (fun r => bool_decide (path r = p)) ;;
      if bool_decide (fileID = "") then ok None
      else
        let* count := RefCount fileID in
        if 0 <? count then ok None
        else match file with
             | None => throw ErrNotFound
             | Some f => retireFile f now ;; ok (Some f)
             end
  end.

(** [scanOrphanedFilesByIDTx]: the batches of ids together. *)
Definition orphanedFiles (d : db) (ids : list string) : list gcFile :=
  omap (fun id => if refCount d id =? 0 then fileForGC d id else None) ids.

Definition DeleteDirRecursive (dirPath : string) (now : Z) : tx (list gcFile) :=
  let* rows := read (nodesWhere (underLike dirPath)) in
  let fileIDs := remove_dups (omap (fun kv => file_id (snd kv)) rows) in
  deleteNodes (underLike dirPath) ;;
  let* orphaned := read (fun d => orphanedFiles d fileIDs) in
  markFilesDeletedTx (gFileID <$> orphaned) ;;
  deleteFileTagsByIDsTx (gFileID <$> orphaned) ;;
  forEach (fun f => enqueueGC f now) orphaned ;;
  ok orphaned.

(** ** Renaming a file *)

Definition RenameFileReplacingTarget (oldPath newPath newParent newName : string) (now : Z) : tx (option gcFile) :=
  let* o := read (fun d => nodeAt d oldPath) in
  match o with
  | None => throw ErrNotFound
  | Some (oldID, old) =>
      throwIf (is_directory old) ErrSourceIsDirectory ;;
      if bool_decide (oldPath = newPath) then ok None
      else
        let* dst := read (fun d => nodeAt d newPath) in
        match dst with
        | Some (_, {| is_directory := true |}) => throw ErrPathConflict
        | Some (dstID, dstRow) =>
            if bool_decide (dstID = oldID) then ok None
            else
              modify (fun d => set_nodes (delete dstID (file_nodes d)) d) ;;
              moveNode ErrPathConflict (oldID, newPath, newParent, newName) ;;
              match file_id dstRow with
              | None => ok None
              | Some fileID =>
                  if bool_decide (fileID = "") then ok None
                  else
                    let* count := RefCount fileID in
                    if count =? 0 then
                      markFilesDeletedTx [fileID] ;;
                      deleteFileTagsByIDsTx [fileID] ;;
                      let* f := scanFileForGCTx fileID in
                      enqueueGC f now ;;
                      ok (Some f)
                    else ok None
              end
        | None => moveNode ErrPathConflict (oldID, newPath, newParent, newName) ;; ok None
        end
  end.

(** ** Tags and mode *)

Definition insertTag (fileID : string) (kv : string * string) : tx unit :=
  let* m := read file_tags in
  throwIf (bool_decide (is_Some (m !! (fileID, fst kv)))) ErrSQL ;;
  modify (set_tags (<[(fileID, fst kv) := snd kv]> m)).

(** The pairs of a map by key. *)
Definition sortedTags (tags : gmap string string) : list (string * string) :=
  sortBy (fun a b => String.ltb (fst a) (fst b)) (map_to_list tags).

Definition ReplaceFileTagsTx (fileID : string) (tags : gmap string string) : tx unit :=
  modify (fun d => set_tags (filter (fun kv => fst (fst kv) <> fileID) (file_tags d)) d) ;;
  forEach (insertTag fileID) (sortedTags tags).

Definition ReplaceFileTagsByPrefixTx (fileID prefix : string) (tags : gmap string string) : tx unit :=
  let prefix := TrimSpace prefix in
  throwIf (bool_decide (prefix = "")) ErrTagPrefix ;;
  modify (fun d => set_tags (filter (fun kv => ~ (fst (fst kv) = fileID
    /\ like (likeLiteralPrefixPattern prefix) (snd (fst kv)) = true)) (file_tags d)) d) ;;
  throwIf (negb (forallb (fun kv => HasPrefix (fst kv) prefix) (map_to_list tags))) ErrTagPrefix ;;
  forEach (insertTag fileID) (sortedTags tags).

Definition GetFileTags (d : db) (fileID : string) : gmap string string :=
  list_to_map (omap (fun kv => if bool_decide (fst (fst kv) = fileID) then Some (snd (fst kv), snd kv) else None)
                 (map_to_list (file_tags d))).

(** The update reports the rows it changed, not those it found: the connection does not
    ask for the latter. *)
Definition Chmod (p : string) (m : Z) : tx unit :=
  let* o := read (fun d => nodeAt d p) in
  match o with
  | None => throw ErrNotFound
  | Some kv =>
      let node := scanNode kv in
      let inodeID := if bool_decide (InodeID node = "") && negb (IsDirectory node) then FileID node else InodeID node in
      throwIf (bool_decide (inodeID = "")) ErrNotFound ;;
      let m := Z.land m 511 in
      let* i := read (fun d => inodes d !! inodeID) in
      throwIf (negb (bool_decide (status <$> i = Some StatusConfirmed)) || bool_decide (mode <$> i = Some m))
        ErrNotFound ;;
      updateInode inodeID (fun i =>
        {| size_bytes := size_bytes i; revision := revision i; mode := m; status := status i;
           created_at := created_at i; mtime := mtime i; confirmed_at := confirmed_at i;
           expires_at := expires_at i |})
  end.

End FileStore.
