(* ===== verification/FileRules.v ===== *)
(** * Reasoning about transactions of the file store

    Rules for the transactions of [FileStore], in the style of a Hoare logic for a
    state and error monad: a rolled-back transaction satisfies every postcondition,
    since nothing of it remains. *)

From S2P Require Import Prelude GoStrings PathUtil FileGCQueue FileStore.

Import GoStr FileStore.

Create HintDb keeps.

Module FileRules.

(** The postcondition [Q] holds after [m] when it commits. *)
Definition wp {A} (m : tx A) (Q : A -> db -> Prop) (d : db) : Prop :=
  match m d with inl (d', a) => Q a d' | inr _ => True end.

Lemma wp_ok {A} (a : A) Q d : Q a d -> wp (ok a) Q d.
Proof. done. Qed.

Lemma wp_throw {A} e (Q : A -> db -> Prop) d : wp (throw e) Q d.
Proof. done. Qed.

Lemma wp_bind {A B} (m : tx A) (k : A -> tx B) Q d :
  wp m (fun a d' => wp (k a) Q d') d -> wp (bind m k) Q d.
Proof. unfold wp, bind. by destruct (m d) as [[d' a]|e]. Qed.

Lemma wp_read {A} (f : db -> A) Q d : Q (f d) d -> wp (read f) Q d.
Proof. done. Qed.

Lemma wp_modify f Q d : Q tt (f d) -> wp (modify f) Q d.
Proof. done. Qed.

Lemma wp_throwIf b e Q d : (b = false -> Q tt d) -> wp (throwIf b e) Q d.
Proof. destruct b; unfold wp; simpl; auto. Qed.

Lemma wp_mono {A} (m : tx A) (P Q : A -> db -> Prop) d :
  wp m P d -> (forall a d', P a d' -> Q a d') -> wp m Q d.
Proof. unfold wp. destruct (m d) as [[d' a]|e]; auto. Qed.

Lemma wp_and {A} (m : tx A) (P Q : A -> db -> Prop) d :
  wp m P d -> wp m Q d -> wp m (fun a d' => P a d' /\ Q a d') d.
Proof. unfold wp. destruct (m d) as [[d' a]|e]; auto. Qed.

(** A loop, with an invariant on what is left to do. *)
Lemma wp_forEach {A} (f : A -> tx unit) (I : list A -> db -> Prop) l d :
  (forall a l' d, I (a :: l') d -> wp (f a) (fun _ => I l') d) ->
  I l d -> wp (forEach f l) (fun _ => I []) d.
Proof.
  intros Hstep. revert d. induction l as [|a l IH]; intros d HI; [by apply wp_ok|].
  simpl. apply wp_bind. eapply wp_mono; [by apply Hstep|]. intros [] d' HI'. by apply IH.
Qed.

Lemma wp_forEach_inv {A} (f : A -> tx unit) (I : db -> Prop) l d :
  (forall a d, a ∈ l -> I d -> wp (f a) (fun _ => I) d) ->
  I d -> wp (forEach f l) (fun _ => I) d.
Proof.
  intros Hstep HI.
  eapply wp_mono; [apply (wp_forEach f (fun l' d => (forall a, a ∈ l' -> a ∈ l) /\ I d)); [|done]|].
  - intros a l' d' [Hin HI']. eapply wp_mono; [apply Hstep; [apply Hin; left|done]|].
    intros [] d'' HI''. split; [|done]. intros b Hb. apply Hin. by right.
  - by intros [] d' [_ HI'].
Qed.

(** A committed transaction. *)
Lemma wp_inl {A} (m : tx A) Q d d' a : wp m Q d -> m d = inl (d', a) -> Q a d'.
Proof. unfold wp. intros H E. by rewrite E in H. Qed.

Lemma wp_InTx {A} (m : tx A) (P : db -> Prop) d : P d -> wp m (fun _ => P) d -> P (fst (InTx m d)).
Proof. unfold wp, InTx. by destruct (m d) as [[d' a]|e]. Qed.

(** ** What a transaction leaves alone *)

(** A component [p] of the tables is the same after [m]. *)
Definition keeps {T A} (p : db -> T) (m : tx A) : Prop := forall d, wp m (fun _ d' => p d' = p d) d.

Section keeps.
Context {T : Type} (p : db -> T).

Lemma keeps_ok {A} (a : A) : keeps p (ok a).
Proof. done. Qed.
Lemma keeps_throw {A} e : keeps p (@throw A e).
Proof. done. Qed.
Lemma keeps_read {A} (f : db -> A) : keeps p (read f).
Proof. done. Qed.
Lemma keeps_throwIf b e : keeps p (throwIf b e).
Proof. intros d. by apply wp_throwIf. Qed.
Lemma keeps_modify f : (forall d, p (f d) = p d) -> keeps p (modify f).
Proof. intros H d. apply H. Qed.
Lemma keeps_bind {A B} (m : tx A) (k : A -> tx B) : keeps p m -> (forall a, keeps p (k a)) -> keeps p (bind m k).
Proof.
  intros Hm Hk d. apply wp_bind. eapply wp_mono; [apply Hm|]. intros a d' E. rewrite <- E. apply Hk.
Qed.
Lemma keeps_forEach {A} (f : A -> tx unit) l : (forall a, keeps p (f a)) -> keeps p (forEach f l).
Proof. intros Hf. induction l as [|a l IH]; [apply keeps_ok|]. apply keeps_bind; [apply Hf|]. intros _. apply IH. Qed.
Lemma keeps_if {A} (b : bool) (m m' : tx A) : keeps p m -> keeps p m' -> keeps p (if b then m else m').
Proof. by destruct b. Qed.

End keeps.

(** A relation between the tables before and after that holds step by step. *)
Definition respects {A} (R : db -> db -> Prop) (m : tx A) : Prop := forall d, wp m (fun _ d' => R d d') d.

Section respects.
Context (R : db -> db -> Prop) `{!PreOrder R}.
#[local] Set Default Proof Using "Type*".

Lemma respects_ok {A} (a : A) : respects R (ok a).
Proof. intros d. apply wp_ok. reflexivity. Qed.
Lemma respects_throw {A} e : respects R (@throw A e).
Proof. done. Qed.
Lemma respects_read {A} (f : db -> A) : respects R (read f).
Proof. intros d. apply wp_read. reflexivity. Qed.
Lemma respects_throwIf b e : respects R (throwIf b e).
Proof. intros d. apply wp_throwIf. reflexivity. Qed.
Lemma respects_modify f : (forall d, R d (f d)) -> respects R (modify f).
Proof. intros H d. apply H. Qed.
Lemma respects_bind {A B} (m : tx A) (k : A -> tx B) :
  respects R m -> (forall a, respects R (k a)) -> respects R (bind m k).
Proof.
  intros Hm Hk d. apply wp_bind. eapply wp_mono; [apply Hm|]. intros a d' E. eapply wp_mono; [apply Hk|].
  intros a' d'' E'. etransitivity; [exact E|exact E'].
Qed.
Lemma respects_forEach {A} (f : A -> tx unit) l : (forall a, respects R (f a)) -> respects R (forEach f l).
Proof.
  intros Hf. induction l as [|a l IH]; [apply respects_ok|]. apply respects_bind; [apply Hf|]. intros _. apply IH.
Qed.
Lemma respects_if {A} (b : bool) (m m' : tx A) : respects R m -> respects R m' -> respects R (if b then m else m').
Proof. by destruct b. Qed.

End respects.

#[export] Hint Resolve respects_ok respects_throw respects_read respects_throwIf respects_forEach : respects.
#[export] Hint Resolve keeps_ok keeps_throw keeps_read keeps_throwIf keeps_forEach : keeps.

End FileRules.

(** Prove that a transaction keeps a component. *)
Ltac keeps_tac :=
  repeat match goal with
  | |- FileRules.keeps _ (bind _ _) => apply FileRules.keeps_bind; [|intros]
  | |- FileRules.keeps _ (forEach _ _) => apply FileRules.keeps_forEach; intros
  | |- FileRules.keeps _ (if _ then _ else _) => apply FileRules.keeps_if
  | |- FileRules.keeps _ (modify _) => apply FileRules.keeps_modify; intros; cbn
  | |- FileRules.keeps _ (match ?x with _ => _ end) => destruct x
  | |- _ = _ => reflexivity || (repeat case_match; reflexivity)
  | |- FileRules.keeps _ _ => solve [eauto with keeps]
  end.

(** Split a transaction along its steps; what is left are the updates. *)
Ltac respects_tac :=
  repeat match goal with
  | |- FileRules.respects _ (bind _ _) => apply FileRules.respects_bind; [exact _| |intros]
  | |- FileRules.respects _ (forEach _ _) => apply FileRules.respects_forEach; [exact _|intros]
  | |- FileRules.respects _ (if _ then _ else _) => apply FileRules.respects_if; [exact _|..]
  | |- FileRules.respects _ (match ?x with _ => _ end) => destruct x
  | |- FileRules.respects _ _ => solve [eauto with respects typeclass_instances]
  | |- FileRules.respects _ (modify _) => apply FileRules.respects_modify; [exact _|intros]
  end.

(** Symbolic execution of a transaction. *)
Ltac wp_step :=
  match goal with
  | |- FileRules.wp (bind _ _) _ _ => apply FileRules.wp_bind
  | |- FileRules.wp (ok _) _ _ => apply FileRules.wp_ok
  | |- FileRules.wp (throw _) _ _ => apply FileRules.wp_throw
  | |- FileRules.wp (read _) _ _ => apply FileRules.wp_read
  | |- FileRules.wp (modify _) _ _ => apply FileRules.wp_modify
  | |- FileRules.wp (throwIf _ _) _ _ =>
      apply FileRules.wp_throwIf; let H := fresh "Hg" in intros H
  end.
Ltac wp_steps := repeat (wp_step; cbv beta).

(** Use a specification and go on from its postcondition. *)
Tactic Notation "wp_apply" uconstr(spec) := eapply FileRules.wp_mono; [eapply spec|].
