(* ===== verification/FileSafety.v ===== *)
(** * Files, their names and their cleanup

    The invariant that ties the tables of the file store together: a name leads to a
    confirmed file, a confirmed file has a name, and exactly the files that lost their
    last name have a cleanup task, which says where their bytes are.  On a tenant with
    the legacy table the two copies of a file agree. *)

From S2P Require Import Prelude GoStrings PathUtil SemanticQueue FileGCQueue FileStore FileRules.

Import GoStr FileStore FileRules.

Module FileSafety.

(** ** The invariant *)

Definition live (d : db) (f : string) : Prop :=
  exists i c, inodes d !! f = Some i /\ contents d !! f = Some c /\ status i = StatusConfirmed.

Definition referenced (d : db) (f : string) : Prop :=
  exists id r, file_nodes d !! id = Some r /\ file_id r = Some f.

Definition nodeOk (d : db) (r : nodeRow) : Prop :=
  (is_directory r = true <-> file_id r = None)
  /\ forall f, file_id r = Some f -> f <> "" /\ live d f.

(** The unique index on paths. *)
Definition pathsUnique (m : gmap string nodeRow) : Prop :=
  forall id id' r r', m !! id = Some r -> m !! id' = Some r' -> path r = path r' -> id = id'.

(** The legacy row of a file and its rows in the split tables. *)
Definition legacyAgrees (o : option fileRow) (i : option inodeRow) (c : option contentRow) : Prop :=
  match o with
  | None => c = None
  | Some l => exists i' c', i = Some i' /\ c = Some c'
      /\ f_status l = status i' /\ f_size l = size_bytes i' /\ f_revision l = revision i'
      /\ f_confirmed_at l = confirmed_at i'
      /\ storage_type (f_content l) = storage_type c' /\ storage_ref (f_content l) = storage_ref c'
      /\ content_type (f_content l) = content_type c'
  end.

Definition pendingIn (ins : gmap string inodeRow) (cs : gmap string contentRow) (f : string) : Prop :=
  exists i c, ins !! f = Some i /\ cs !! f = Some c /\ status i = StatusPending.
Definition pending (d : db) : string -> Prop := pendingIn (inodes d) (contents d).

Definition isActive (u : Upload) : bool :=
  bool_decide (UStatus u = UploadInitiated) || bool_decide (UStatus u = UploadUploading).

(** An upload that is under way has a pending file of its own. *)
Record uploadsOk (us : gmap string Upload) (ins : gmap string inodeRow) (cs : gmap string contentRow) : Prop := {
  upload_key : forall k u, us !! k = Some u -> UploadID u = k;
  upload_pending : forall k u, us !! k = Some u -> isActive u = true ->
    UFileID u <> "" /\ pendingIn ins cs (UFileID u);
  upload_unique : forall k k' u u', us !! k = Some u -> us !! k' = Some u' ->
    isActive u = true -> isActive u' = true -> UFileID u = UFileID u' -> k = k'
}.

(** The invariant inside a transaction; the files of [X] may be between two states. *)
Record filesOkBut (X : string -> Prop) (d : db) : Prop := {
  content_inode : forall f c, contents d !! f = Some c -> is_Some (inodes d !! f);
  legacy_agrees : forall m f, files d = Some m -> legacyAgrees (m !! f) (inodes d !! f) (contents d !! f);
  pending_first : forall f i, inodes d !! f = Some i -> status i = StatusPending ->
    revision i = 1 /\ confirmed_at i = None /\ is_Some (contents d !! f);
  unique_paths : pathsUnique (file_nodes d);
  nodes_ok : forall id r, file_nodes d !! id = Some r -> nodeOk d r;
  named : forall f, live d f -> X f \/ referenced d f;
  tasks_table : FileGC.fileTable (gc_tasks d);
  task_dead : forall f t, gc_tasks d !! f = Some t ->
    exists i c, inodes d !! f = Some i /\ contents d !! f = Some c /\ status i = StatusDeleted
      /\ FileGC.cleanup t = (f, storage_type c, storage_ref c, size_bytes i, default "" (content_type c));
  retired : forall f i c, inodes d !! f = Some i -> contents d !! f = Some c ->
    status i = StatusDeleted -> confirmed_at i <> None -> X f \/ is_Some (gc_tasks d !! f);
  semantic_row : forall f c, contents d !! f = Some c -> is_Some (semantic d !! f);
  uploads_ok : uploadsOk (uploads d) (inodes d) (contents d)
}.

Definition filesOk : db -> Prop := filesOkBut (fun _ => False).

Lemma filesOk_empty legacy : filesOk (emptyDB legacy).
Proof.
  assert (forall A (m : gmap string A) k v (P : Prop), m = ∅ -> m !! k = Some v -> P) as E.
  { intros A m k v P -> H. rewrite lookup_empty in H. done. }
  split; try (intros; eapply E; [|eassumption]; done).
  - intros m f Hm. destruct legacy; [|done]. injection Hm as <-. by rewrite lookup_empty.
  - intros id id' r r' H. by eapply E; [|eassumption].
  - intros f (i & c & H & _). by eapply E; [|eassumption].
  - intros id r H. by eapply E; [|eassumption].
  - split; intros; (eapply E; [|eassumption]; done).
Qed.

(** Uploads under way are not disturbed by what leaves their files alone. *)
Lemma uploadsOk_frame us ins cs ins' cs' :
  uploadsOk us ins cs ->
  (forall k u, us !! k = Some u -> isActive u = true ->
     ins' !! UFileID u = ins !! UFileID u /\ cs' !! UFileID u = cs !! UFileID u) ->
  uploadsOk us ins' cs'.
Proof.
  intros [] He. split; [done| |done]. intros k u Hu Ha. destruct (upload_pending0 k u Hu Ha). split; [done|].
  unfold pendingIn. by destruct (He k u Hu Ha) as [-> ->].
Qed.

Lemma pending_not_live d f : pending d f -> ~ live d f.
Proof. intros (i & ? & Hi & _ & Hs) (i' & ? & Hi' & _ & Hs'). simplify_eq. congruence. Qed.

Lemma pathTaken_spec m id p :
  pathTaken m id p = false <-> forall id' r, m !! id' = Some r -> path r = p -> id' = id.
Proof.
  unfold pathTaken. rewrite bool_decide_eq_false, Exists_exists. split.
  - intros H id' r Hr Hp. destruct (decide (id' = id)); [done|]. destruct H. exists (id', r).
    by rewrite elem_of_map_to_list.
  - intros H ([id' r] & Hin & Hne & Hp). apply elem_of_map_to_list in Hin. apply Hne. by eapply H.
Qed.

Lemma pathsUnique_insert m id r :
  pathsUnique m -> pathTaken m id (path r) = false -> pathsUnique (<[id := r]> m).
Proof.
  rewrite pathTaken_spec. intros H Ht a b ra rb Ha Hb E.
  apply lookup_insert_Some in Ha as [[<- <-]|[Hna Ha]]; apply lookup_insert_Some in Hb as [[<- <-]|[Hnb Hb]].
  - done.
  - symmetry. by eapply Ht.
  - by eapply Ht.
  - by eapply H.
Qed.

(** No other entry has the path of an entry. *)
Lemma pathsUnique_own m id r : pathsUnique m -> m !! id = Some r -> pathTaken m id (path r) = false.
Proof. intros H Hr. apply pathTaken_spec. intros id' r' Hr' E. by eapply H. Qed.

Lemma filesOk_weaken X Y d : filesOkBut X d -> (forall f, X f -> Y f) -> filesOkBut Y d.
Proof.
  intros [] H. split; try done.
  - intros f Hl. destruct (named0 f Hl); auto.
  - intros f i c Hi Hc Hs Ha. destruct (retired0 f i c Hi Hc Hs Ha); auto.
Qed.

Lemma live_not_dead d f i : live d f -> inodes d !! f = Some i -> status i <> StatusDeleted.
Proof. intros (i' & c & Hi & _ & Hs) Hi'. simplify_eq. by rewrite Hs. Qed.

Lemma referenced_live X d f : filesOkBut X d -> referenced d f -> f <> "" /\ live d f.
Proof. intros H (id & r & Hr & Hf). by apply (nodes_ok X d H id r Hr). Qed.

(** Files that have a name need no exemption. *)
Lemma filesOk_settle X Y d :
  filesOkBut X d -> (forall f, X f -> Y f \/ referenced d f) -> filesOkBut Y d.
Proof.
  intros H HX. pose proof H as []. split; try done.
  - intros f Hl. destruct (named0 f Hl) as [Hx|Hr]; [by apply HX|by right].
  - intros f i c Hi Hc Hs Ha. destruct (retired0 f i c Hi Hc Hs Ha) as [Hx|Ht]; [|by right].
    destruct (HX f Hx) as [Hy|Hr]; [by left|].
    destruct (referenced_live X d f H Hr) as [_ Hl]. by destruct (live_not_dead d f i Hl Hi).
Qed.

(** ** Changes of the namespace *)

Lemma live_set_nodes m d f : live (set_nodes m d) f = live d f.
Proof. done. Qed.

Lemma nodeOk_set_nodes m d r : nodeOk (set_nodes m d) r = nodeOk d r.
Proof. done. Qed.

(** Any change of the entries that only leads to live files. *)
Lemma filesOk_set_nodes X Y d m :
  filesOkBut X d -> pathsUnique m ->
  (forall id r, m !! id = Some r -> nodeOk d r) ->
  (forall f, X f \/ referenced d f -> Y f \/ referenced (set_nodes m d) f) ->
  filesOkBut Y (set_nodes m d).
Proof.
  intros H Hu Hm HY. apply (filesOk_settle (fun f => X f \/ Y f)).
  - pose proof H as []. split; try done.
    + intros f Hl. destruct (named0 f Hl) as [Hx|Hr]; [by left; left|].
      destruct (HY f (or_intror Hr)); [by left; right|by right].
    + intros f i c Hi Hc Hs Ha. destruct (retired0 f i c Hi Hc Hs Ha); [by left; left|by right].
  - intros f [Hx|Hy]; [|by left]. by apply HY; left.
Qed.

Lemma referenced_insert m d id r f :
  referenced (set_nodes m d) f -> m !! id = None \/ file_id <$> m !! id = Some (file_id r) ->
  referenced (set_nodes (<[id := r]> m) d) f.
Proof.
  intros (id' & r' & Hr & Hf) Ho. cbn in Hr. destruct (decide (id' = id)) as [->|Hne].
  - exists id, r. cbn. rewrite lookup_insert_eq. split; [done|]. destruct Ho as [Ho|Ho]; rewrite Hr in Ho; simplify_eq/=.
    congruence.
  - exists id', r'. cbn. by rewrite lookup_insert_ne.
Qed.

(** A new entry, or one that is replaced by another for the same file. *)
Lemma filesOk_insert_node X d id r :
  filesOkBut X d -> nodeOk d r ->
  file_nodes d !! id = None \/ file_id <$> file_nodes d !! id = Some (file_id r) ->
  pathTaken (file_nodes d) id (path r) = false ->
  filesOkBut (fun f => X f /\ file_id r <> Some f) (set_nodes (<[id := r]> (file_nodes d)) d).
Proof.
  intros H Hr Ho Hp. eapply filesOk_set_nodes; [done|apply pathsUnique_insert, Hp; by apply (unique_paths X)|..].
  - intros id' r'. rewrite lookup_insert_Some. intros [[<- <-]|[_ Hr']]; [done|]. by apply (nodes_ok X d H id').
  - intros f Hf. destruct (decide (file_id r = Some f)) as [E|E].
    + right. exists id, r. cbn. by rewrite lookup_insert_eq.
    + destruct Hf as [Hx|Hf]; [by left|]. right. by apply referenced_insert.
Qed.

Lemma insertNodeRow_ok X id r d :
  filesOkBut X d -> nodeOk d r ->
  wp (insertNodeRow id r) (fun _ => filesOkBut (fun f => X f /\ file_id r <> Some f)) d.
Proof.
  intros H Hr. unfold insertNodeRow. wp_steps. bool_prop.
  apply filesOk_insert_node; [done|done| |done]. left. by apply eq_None_not_Some.
Qed.

Lemma moveNode_ok X e u d : filesOkBut X d -> wp (moveNode e u) (fun _ => filesOkBut X) d.
Proof.
  intros H. destruct u as [[[id p] q] n]. unfold moveNode. wp_steps.
  destruct (file_nodes d !! id) as [r|] eqn:Hr; wp_steps; [|done].
  eapply filesOk_weaken; [apply filesOk_insert_node; [done| |right; by rewrite Hr|done]|by intros f []].
  apply (nodes_ok X d H id r Hr).
Qed.

Lemma moveNode_frame e u d : wp (moveNode e u) (fun _ d' => exists m, d' = set_nodes m d) d.
Proof.
  destruct u as [[[id p] q] n]. unfold moveNode. wp_steps.
  destruct (file_nodes d !! id) as [r|]; wp_steps; [by eexists|]. exists (file_nodes d). by destruct d.
Qed.

(** ** Directories *)

(** Inodes that are no file's. *)
Lemma filesOk_new_inode X d id i :
  filesOkBut X d -> inodes d !! id = None -> status i <> StatusPending ->
  filesOkBut X (set_inodes (<[id := i]> (inodes d)) d).
Proof.
  intros H Hn Hi. pose proof H as [].
  assert (contents d !! id = None) as Hc.
  { destruct (contents d !! id) eqn:Hc; [|done]. destruct (content_inode0 _ _ Hc). congruence. }
  assert (forall f, live (set_inodes (<[id := i]> (inodes d)) d) f <-> live d f) as Hl.
  { intros f. unfold live. cbn. destruct (decide (f = id)) as [->|Hne].
    - rewrite Hn, Hc. split; intros (? & ? & ? & ? & _); congruence.
    - by rewrite lookup_insert_ne. }
  split; cbn.
  - intros f c Hf. rewrite lookup_insert_ne; [eauto|]. congruence.
  - intros m f Hm. pose proof (legacy_agrees0 m f Hm) as Ha. destruct (decide (f = id)) as [->|Hne].
    + rewrite lookup_insert_eq, Hc. rewrite Hn in Ha. destruct (m !! id); [|done].
      by destruct Ha as (? & ? & ? & _).
    + by rewrite lookup_insert_ne.
  - intros f i' Hf Hp. apply lookup_insert_Some in Hf as [[<- <-]|[_ Hf]]; [done|eauto].
  - done.
  - intros k r Hk. destruct (nodes_ok0 k r Hk) as [Hd Hr]. split; [done|]. intros f Hf.
    destruct (Hr f Hf). by rewrite Hl.
  - intros f Hf. apply named0. by apply Hl.
  - done.
  - intros f t Ht. destruct (task_dead0 f t Ht) as (i' & c & Hi' & Hc' & Hx). exists i', c.
    rewrite lookup_insert_ne; [done|]. congruence.
  - intros f i' c Hi' Hc'. rewrite lookup_insert_ne in Hi'; [eauto|]. congruence.
  - done.
  - eapply uploadsOk_frame; [done|]. intros k u Hu Ha. split; [|done].
    destruct (upload_pending _ _ _ uploads_ok0 k u Hu Ha) as [_ (? & ? & Hi' & _)].
    rewrite lookup_insert_ne; congruence.
Qed.

Lemma insertIgnoreInode_ok X id i d :
  filesOkBut X d -> status i <> StatusPending ->
  wp (insertIgnoreInode id i) (fun _ d' => filesOkBut X d' /\ file_nodes d' = file_nodes d) d.
Proof.
  intros H Hi. unfold insertIgnoreInode. wp_steps. destruct (inodes d !! id) eqn:Hn; [done|].
  split; [|done]. by apply filesOk_new_inode.
Qed.

Lemma insertInodeRow_ok X id i d :
  filesOkBut X d -> status i <> StatusPending -> wp (insertInodeRow id i) (fun _ => filesOkBut X) d.
Proof.
  intros H Hi. unfold insertInodeRow. wp_steps. bool_prop.
  apply filesOk_new_inode; [done| |done]. by apply eq_None_not_Some.
Qed.

(** A directory's entry. *)
Lemma nodeOk_dir d r : is_directory r = true -> file_id r = None -> nodeOk d r.
Proof. intros Hd Hf. split; [done|]. by rewrite Hf. Qed.

Lemma nodesWhere_elem P d id r :
  (id, r) ∈ nodesWhere P d <-> file_nodes d !! id = Some r /\ P r = true.
Proof. unfold nodesWhere. rewrite list_elem_of_filter, elem_of_map_to_list. simpl. tauto. Qed.

Lemma nodesWhere_head P d id r :
  head (nodesWhere P d) = Some (id, r) -> file_nodes d !! id = Some r /\ P r = true.
Proof. intros H. apply nodesWhere_elem. destruct (nodesWhere P d); [done|]. simplify_eq/=. left. Qed.

Lemma nodeAt_spec d p id r : nodeAt d p = Some (id, r) -> file_nodes d !! id = Some r /\ path r = p.
Proof.
  unfold nodeAt. intros H.
  assert ((id, r) ∈ filter (fun kv => path (snd kv) = p) (map_to_list (file_nodes d))) as Hin.
  { destruct (filter _ _); [done|]. simplify_eq/=. left. }
  apply list_elem_of_filter in Hin as [? Hin]. by apply elem_of_map_to_list in Hin.
Qed.

Lemma ensureDir_ok X now p d : filesOkBut X d -> wp (ensureDir now p) (fun _ => filesOkBut X) d.
Proof.
  intros H. unfold ensureDir. wp_steps.
  destruct (head _) as [[id r]|] eqn:Hh.
  - apply nodesWhere_head in Hh as [Hr Hp]. bool_prop.
    destruct (inode_id r) as [ino|] eqn:Hino; destruct r; simpl in Hino; subst; [by wp_steps|].
    wp_steps. wp_apply insertIgnoreInode_ok; [done..|]. intros [] d' [H' E]. wp_steps. rewrite <- E in Hr.
    eapply filesOk_weaken; [apply filesOk_insert_node; [done| |right; by rewrite Hr|]|by intros f []].
    + exact (nodes_ok X d' H' id _ Hr).
    + exact (pathsUnique_own _ _ _ (unique_paths X d' H') Hr).
  - wp_steps. wp_apply insertIgnoreInode_ok; [done..|]. intros [] d' [H' _]. wp_steps.
    case_if; [done|]. bool_prop.
    eapply filesOk_weaken; [apply filesOk_insert_node; [done|by apply nodeOk_dir| |done]|by intros f []].
    left. by apply eq_None_not_Some.
Qed.

Lemma EnsureParentDirsTx_ok X now p d : filesOkBut X d -> wp (EnsureParentDirsTx now p) (fun _ => filesOkBut X) d.
Proof. intros H. apply wp_forEach_inv; [|done]. intros a d' _ H'. by apply ensureDir_ok. Qed.

Lemma EnsureParentDirsTx_frame now p d :
  wp (EnsureParentDirsTx now p) (fun _ d' => contents d' = contents d /\ files d' = files d /\ uploads d' = uploads d) d.
Proof.
  apply wp_forEach_inv; [|done]. intros a d' _ H'. unfold ensureDir, insertIgnoreInode. wp_steps.
  destruct (head _) as [[id r]|]; [destruct r as [? ? ? ? ? [?|] ?]|]; wp_steps; try done.
  all: repeat case_match; done.
Qed.

(** ** New files *)

(** New rows for a file, the first or others. *)
Lemma filesOk_put X Y d f i c l :
  filesOkBut X d -> legacyAgrees (Some l) (Some i) (Some c) ->
  (status i = StatusPending -> revision i = 1 /\ confirmed_at i = None) ->
  (status i = StatusConfirmed -> Y f \/ referenced d f) ->
  (status i <> StatusConfirmed -> ~ referenced d f) ->
  (status i = StatusDeleted -> confirmed_at i <> None -> Y f) ->
  gc_tasks d !! f = None -> (forall g, g <> f -> X g -> Y g) -> is_Some (semantic d !! f) ->
  (forall k u, uploads d !! k = Some u -> isActive u = true -> UFileID u <> f) ->
  filesOkBut Y (set_contents (<[f := c]> (contents d))
                  (set_inodes (<[f := i]> (inodes d)) (set_files (insert f l <$> files d) d))).
Proof.
  intros H Hl Hp Hname Hun Hdel Ht HY Hsem Hup. set (d' := set_contents _ _). pose proof H as [].
  assert (forall g, g <> f -> inodes d' !! g = inodes d !! g /\ contents d' !! g = contents d !! g) as Hne.
  { intros g Hg. subst d'. cbn. by rewrite !lookup_insert_ne. }
  assert (inodes d' !! f = Some i /\ contents d' !! f = Some c) as [Hi Hc].
  { subst d'. cbn. by rewrite !lookup_insert_eq. }
  assert (forall g, g <> f -> live d' g <-> live d g) as Hlive.
  { intros g Hg. unfold live. by destruct (Hne g Hg) as [-> ->]. }
  split.
  - intros g c' Hg. destruct (decide (g = f)) as [->|Hgf]; [by rewrite Hi|].
    destruct (Hne g Hgf) as [E1 E2]. rewrite E1. rewrite E2 in Hg. eauto.
  - intros m g Hm. subst d'. cbn in Hm. destruct (files d) as [m0|] eqn:Hf; [|done]. injection Hm as <-.
    destruct (decide (g = f)) as [->|Hgf]; [by rewrite lookup_insert_eq, Hi, Hc|].
    destruct (Hne g Hgf) as [-> ->]. rewrite lookup_insert_ne by done. by apply legacy_agrees0.
  - intros g i' Hg Hs. destruct (decide (g = f)) as [->|Hgf].
    + rewrite Hi in Hg. injection Hg as <-. destruct (Hp Hs). rewrite Hc. eauto.
    + destruct (Hne g Hgf) as [E1 E2]. rewrite E1 in Hg. rewrite E2. eauto.
  - done.
  - intros id r Hr. destruct (nodes_ok0 id r Hr) as [Hd Hfi]. split; [done|]. intros g Hg.
    destruct (Hfi g Hg) as [Hg0 Hgl]. split; [done|]. destruct (decide (g = f)) as [->|Hgf]; [|by apply Hlive].
    exists i, c. split_and!; try done. destruct (decide (status i = StatusConfirmed)) as [|Hs]; [done|].
    destruct (Hun Hs). by exists id, r.
  - intros g Hg. destruct (decide (g = f)) as [->|Hgf].
    + destruct Hg as (i' & c' & Hi' & _ & Hs). simplify_eq. by apply Hname.
    + apply Hlive in Hg; [|done]. destruct (named0 g Hg); [left; by apply HY|by right].
  - done.
  - intros g t Hg. destruct (task_dead0 g t Hg) as (i' & c' & Hi' & Hc' & Hx).
    exists i', c'. destruct (Hne g) as [-> ->]; [|done]. intros ->. change (gc_tasks d') with (gc_tasks d) in Hg.
    congruence.
  - intros g i' c' Hi' Hc' Hs Ha. destruct (decide (g = f)) as [->|Hgf]; [left; simplify_eq; auto|].
    destruct (Hne g Hgf) as [E1 E2]. rewrite E1 in Hi'. rewrite E2 in Hc'.
    destruct (retired0 g i' c' Hi' Hc' Hs Ha); [left; by apply HY|by right].
  - intros g c' Hg. change (semantic d') with (semantic d). destruct (decide (g = f)) as [->|Hgf]; [done|].
    destruct (Hne g Hgf) as [_ E2]. rewrite E2 in Hg. eauto.
  - eapply uploadsOk_frame; [done|]. intros k u Hu Ha. apply Hne. by eapply Hup.
Qed.

(** The files of uploads are pending, and no others. *)
Lemma upload_file_pending X d k u : filesOkBut X d -> uploads d !! k = Some u -> isActive u = true ->
  pending d (UFileID u).
Proof. intros H Hu Ha. by apply (upload_pending _ _ _ (uploads_ok _ _ H) k u). Qed.

(** The rows of a new file. *)
Lemma filesOk_new_file X d f i c l :
  filesOkBut X d -> inodes d !! f = None ->
  (status i = StatusPending -> revision i = 1 /\ confirmed_at i = None) -> status i <> StatusDeleted ->
  legacyAgrees (Some l) (Some i) (Some c) -> is_Some (semantic d !! f) ->
  filesOkBut (fun g => X g \/ g = f /\ status i = StatusConfirmed)
    (set_contents (<[f := c]> (contents d))
       (set_inodes (<[f := i]> (inodes d)) (set_files (insert f l <$> files d) d))).
Proof.
  intros H Hn Hp Hs Hl Hsem. eapply filesOk_put; [done..| | | | | |done|]; try tauto.
  - intros _ Hr. destruct (referenced_live X d f H Hr) as [_ (? & ? & ? & _)]. congruence.
  - destruct (gc_tasks d !! f) as [t|] eqn:Ht; [|done].
    destruct (task_dead X d H f t Ht) as (? & ? & ? & _). congruence.
  - intros k u Hu Ha E. destruct (upload_file_pending _ _ _ _ H Hu Ha) as (? & ? & Hi & _). congruence.
Qed.

(** Any change of the search texts. *)
Lemma filesOk_semantic X v d :
  filesOkBut X d -> (forall f, is_Some (semantic d !! f) -> is_Some (v !! f)) -> filesOkBut X (set_semantic v d).
Proof. intros [] Hv. split; try done. intros f c Hc. eauto. Qed.

Lemma InsertFileTx_ok X fl now d :
  filesOkBut X d -> Status fl <> StatusDeleted ->
  (Status fl = StatusPending -> Revision fl = 1 /\ ConfirmedAt fl = None) ->
  wp (InsertFileTx fl now)
    (fun _ d' => filesOkBut (fun g => X g \/ g = FFileID fl /\ Status fl = StatusConfirmed) d'
       /\ file_nodes d' = file_nodes d /\ is_Some (contents d' !! FFileID fl)) d.
Proof.
  intros H Hs Hp. unfold InsertFileTx, insertSplitTablesTx, insertInodeRow, insertContentRow, insertSemanticRow.
  assert (forall i c sr, let s' := <[FFileID fl := sr]> (semantic d) in
    inodes d !! FFileID fl = None -> status i = Status fl -> revision i = Revision fl ->
    confirmed_at i = ConfirmedAt fl -> legacyAgrees (Some (legacyOf fl)) (Some i) (Some c) ->
    filesOkBut (fun g => X g \/ g = FFileID fl /\ Status fl = StatusConfirmed)
      (set_semantic s' (set_contents (<[FFileID fl := c]> (contents d))
        (set_inodes (<[FFileID fl := i]> (inodes d))
           (set_files (insert (FFileID fl) (legacyOf fl) <$> files d) d))))) as Hnew.
  { intros i c sr s' Hn E1 E2 E3 Hl. rewrite <- E1.
    apply (filesOk_new_file X (set_semantic s' d)); rewrite ?E1, ?E2, ?E3; try done.
    - apply filesOk_semantic; [done|]. intros f Hf. subst s'. rewrite lookup_insert_is_Some'. auto.
    - subst s'. cbn. by rewrite lookup_insert_eq. }
  wp_steps. destruct (files d) as [m|] eqn:Hf; wp_steps; bool_prop;
    (split; [|split; [done|by cbn; rewrite lookup_insert_eq]]).
  - eapply Hnew; try done; [by apply eq_None_not_Some|by repeat eexists].
  - destruct d. cbn in Hf. subst. eapply Hnew; try done; [by apply eq_None_not_Some|by repeat eexists].
Qed.

(** ** Entries *)

(** Attaching a file checks that it is confirmed. *)
Lemma InsertNodeTx_ok X n d :
  filesOkBut X d -> (IsDirectory n = true <-> FileID n = "") ->
  (FileID n = "" \/ is_Some (contents d !! FileID n)) ->
  wp (InsertNodeTx n) (fun _ => filesOkBut (fun f => X f /\ nullStr (FileID n) <> Some f)) d.
Proof.
  intros H Hdir Hc. unfold InsertNodeTx, InsertNode. wp_steps.
  destruct (IsDirectory n) eqn:Hd; cbn [negb andb]; [|case_bool_decide as Hf; cbn [negb]].
  - wp_steps. apply insertNodeRow_ok; [done|]. apply nodeOk_dir; [done|]. cbn. by rewrite (proj1 Hdir eq_refl).
  - by apply Hdir in Hf.
  - unfold lockConfirmedFileForAttachTx. wp_steps. bool_prop. apply insertNodeRow_ok; [done|].
    assert (nullStr (FileID n) = Some (FileID n)) as En by (unfold nullStr; by rewrite bool_decide_false).
    split; cbn; rewrite En; [by rewrite Hd|]. intros f [= <-]. destruct Hc as [|[c Hc]]; [done|]. split; [done|].
    destruct (inodes d !! FileID n) as [i|] eqn:Hi; [|done]. exists i, c. cbn in *. split_and!; congruence.
Qed.

(** ** Losing names *)

(** Entries that are deleted leave their files exempt. *)
Lemma deleteNodes_ok X P d :
  filesOkBut X d ->
  wp (deleteNodes P)
    (fun _ d' => filesOkBut (fun f => X f \/ exists id r, file_nodes d !! id = Some r /\ P r = true /\ file_id r = Some f) d'
       /\ d' = set_nodes (filter (fun kv => P (snd kv) = false) (file_nodes d)) d) d.
Proof.
  intros H. unfold deleteNodes. wp_steps. split; [|done]. eapply filesOk_set_nodes; [done|..].
  - intros a b ra rb Ha Hb. apply map_lookup_filter_Some in Ha as [Ha _], Hb as [Hb _].
    by apply (unique_paths X d H).
  - intros id r Hr. apply map_lookup_filter_Some in Hr as [Hr _]. by apply (nodes_ok X d H id).
  - intros f [Hx|(id & r & Hr & Hf)]; [by left; left|]. destruct (P r) eqn:HP; [left; right; eauto|].
    right. exists id, r. cbn. by rewrite map_lookup_filter_Some.
Qed.

Lemma referenced_refCount d f : refCount d f <> 0 <-> referenced d f.
Proof.
  unfold refCount, referenced, zlen. split.
  - intros Hn. destruct (nodesWhere _ d) as [|[id r] l] eqn:E; [done|].
    match type of E with ?l0 = _ => assert ((id, r) ∈ l0) as Hin by (rewrite E; left) end.
    apply nodesWhere_elem in Hin as [Hr Hf]. exists id, r. by bool_prop.
  - intros (id & r & Hr & Hf) Hn.
    assert ((id, r) ∈ nodesWhere (fun r => bool_decide (file_id r = Some f)) d) as Hin.
    { apply nodesWhere_elem. by rewrite bool_decide_true. }
    destruct (nodesWhere _ d); [by apply elem_of_nil in Hin|simpl in Hn; lia].
Qed.

Lemma refCount_zero d f : refCount d f <= 0 -> ~ referenced d f.
Proof. rewrite <- referenced_refCount. unfold refCount, zlen. lia. Qed.

(** Marking one file that has no name deleted. *)
Lemma markOne_ok X id d :
  filesOkBut X d -> ~ referenced d id ->
  (forall i, inodes d !! id = Some i -> X id \/ confirmed_at i = None) ->
  (forall k u, uploads d !! k = Some u -> isActive u = true -> UFileID u <> id) ->
  wp (markOne id) (fun _ d' => filesOkBut X d' /\ file_nodes d' = file_nodes d /\ contents d' = contents d
    /\ gc_tasks d' = gc_tasks d /\ uploads d' = uploads d /\ inodes d' = alter (withStatus StatusDeleted) id (inodes d)
    /\ files d' = alter (legacyWithStatus StatusDeleted) id <$> files d) d.
Proof.
  intros H Hr Hx Hup. unfold markOne, updateLegacy, updateInode. wp_steps. cbn. split; [|done].
  pose proof H as [].
  set (d' := set_inodes _ _). assert (forall g, g <> id -> inodes d' !! g = inodes d !! g) as Hne.
  { intros g Hg. subst d'. cbn. by rewrite lookup_alter_ne. }
  assert (inodes d' !! id = withStatus StatusDeleted <$> inodes d !! id) as Hid.
  { subst d'. cbn. by rewrite lookup_alter_eq. }
  assert (forall g, live d' g <-> live d g /\ g <> id) as Hl.
  { intros g. unfold live. change (contents d') with (contents d). destruct (decide (g = id)) as [->|Hg].
    - split; [|tauto]. intros (i & c & Hi & _ & Hs). rewrite Hid in Hi. destruct (inodes d !! id); [|done].
      by simplify_eq/=.
    - rewrite Hne by done. tauto. }
  split.
  - intros f c Hc. destruct (content_inode0 f c Hc) as [i Hi]. destruct (decide (f = id)) as [->|Hg].
    + rewrite Hid, Hi. eauto.
    + rewrite Hne, Hi by done. eauto.
  - intros m f Hm. subst d'. cbn in Hm |- *. destruct (files d) as [m0|] eqn:Hf; [|done]. injection Hm as <-.
    pose proof (legacy_agrees0 m0 f eq_refl) as Ha. destruct (decide (f = id)) as [->|Hg].
    + rewrite !lookup_alter_eq. destruct (m0 !! id) as [l|]; [|done].
      destruct Ha as (i & c & -> & -> & E1 & Ha). cbn. by exists (withStatus StatusDeleted i), c.
    + by rewrite !lookup_alter_ne.
  - intros f i Hi Hp. destruct (decide (f = id)) as [->|Hg].
    + rewrite Hid in Hi. destruct (inodes d !! id); [|done]. by simplify_eq/=.
    + rewrite Hne in Hi by done. eauto.
  - done.
  - intros k r Hk. destruct (nodes_ok0 k r Hk) as [Hd Hf]. split; [done|]. intros f E.
    destruct (Hf f E). split; [done|]. apply Hl. split; [done|]. intros ->. apply Hr. by exists k, r.
  - intros f [Hf _]%Hl. by apply named0.
  - done.
  - intros f t Ht. destruct (task_dead0 f t Ht) as (i & c & Hi & Hc & Hs & E).
    destruct (decide (f = id)) as [->|Hg].
    + exists (withStatus StatusDeleted i), c. by rewrite Hid, Hi.
    + exists i, c. by rewrite Hne.
  - intros f i c Hi Hc Hs Ha. destruct (decide (f = id)) as [->|Hg].
    + rewrite Hid in Hi. destruct (inodes d !! id) as [i0|] eqn:Hi0; [|done]. injection Hi as <-. cbn in Ha.
      destruct (Hx i0 eq_refl); [by left|done].
    + rewrite Hne in Hi by done. eauto.
  - done.
  - eapply uploadsOk_frame; [done|]. intros k u Hu Ha. split; [|done]. eapply Hne, Hup; done.
Qed.

(** ** Cleanup tasks *)

(** The record of a file that a task is made from describes its rows. *)
Definition gcFileOk (d : db) (g : gcFile) : Prop :=
  exists i c, inodes d !! gFileID g = Some i /\ contents d !! gFileID g = Some c
    /\ gStorageType g = storage_type c /\ gStorageRef g = storage_ref c /\ gSize g = size_bytes i
    /\ gContentType g = default "" (content_type c).

Lemma gcFileOf_ok X d f g :
  filesOkBut X d -> (fileForGC d f = Some g \/ candidateFile d f = Some g) -> gFileID g = f /\ gcFileOk d g.
Proof.
  intros H Hg. pose proof H as []. unfold fileForGC, candidateFile in Hg. unfold gcFileOk.
  destruct (files d) as [m|] eqn:Hm.
  - assert (exists l, m !! f = Some l /\ g = gcFileOf f (f_size l) (f_content l)) as (l & Hl & ->).
    { destruct (m !! f) as [l|]; destruct Hg as [Hg|Hg]; simplify_eq/=; eauto. }
    pose proof (legacy_agrees0 m f eq_refl) as Ha. rewrite Hl in Ha.
    destruct Ha as (i & c & Hi & Hc & _ & E1 & _ & _ & E2 & E3 & E4). split; [done|]. exists i, c.
    cbn. rewrite E4. by split_and!.
  - destruct (contents d !! f) as [c|] eqn:Hc; [|destruct (inodes d !! f); by destruct Hg].
    destruct (content_inode0 f c Hc) as [i Hi]. rewrite Hi in Hg. cbn in Hg.
    assert (g = gcFileOf f (size_bytes i) c) as -> by (destruct Hg; congruence).
    split; [done|]. exists i, c. cbn. by split_and!.
Qed.

Lemma live_gcFile X d f :
  filesOkBut X d -> is_Some (contents d !! f) -> is_Some (fileForGC d f) /\ is_Some (candidateFile d f).
Proof.
  intros [] [c Hc]. destruct (content_inode0 f c Hc) as [i Hi]. unfold fileForGC, candidateFile.
  destruct (files d) as [m|] eqn:Hm.
  - pose proof (legacy_agrees0 m f eq_refl) as Ha. rewrite Hi, Hc in Ha. destruct (m !! f); [|done]. eauto.
  - rewrite Hi, Hc. eauto.
Qed.

(** The rows that a cleanup task needs are those of the file. *)
Lemma gcFileOk_frame d d' g :
  gcFileOk d g -> contents d' = contents d ->
  (forall i, inodes d !! gFileID g = Some i ->
     exists i', inodes d' !! gFileID g = Some i' /\ size_bytes i' = size_bytes i) ->
  gcFileOk d' g.
Proof.
  intros (i & c & Hi & Hc & E1 & E2 & E3 & E4) Ec Ei. destruct (Ei i Hi) as (i' & Hi' & Es).
  exists i', c. rewrite Ec. split_and!; congruence.
Qed.

Lemma enqueueGC_ok X g now d :
  filesOkBut X d -> gcFileOk d g -> (forall i, inodes d !! gFileID g = Some i -> status i = StatusDeleted) ->
  wp (enqueueGC g now)
    (fun _ d' => filesOkBut (fun f => X f /\ f <> gFileID g) d'
       /\ inodes d' = inodes d /\ contents d' = contents d /\ file_nodes d' = file_nodes d) d.
Proof.
  intros H (i & c & Hi & Hc & E1 & E2 & E3 & E4) Hd. specialize (Hd i Hi). unfold enqueueGC.
  destruct (FileGC.NewFileGCTaskFromFile _ now) as [task|] eqn:Ht; [|by wp_steps]. wp_steps.
  destruct (FileGC.enqueueFileGCTask _ _ now) as [t' [b|e]] eqn:Hq; [|by wp_steps]. wp_steps. cbn. split; [|done].
  pose proof H as []. pose proof (FileGC.fromFile_row _ _ _ now Ht) as (Hid & Hb & Hrow & Hcl).
  assert (FileGC.FileID task = gFileID g) as Hfid.
  { cbn in Ht. destruct (isBlank (gFileID g)); [done|]. by injection Ht as <-. }
  pose proof (FileGC.cleanup_step (gc_tasks d) now (FileGC.Enqueue task) tasks_table0
    (ex_intro _ _ (ex_intro _ now Ht))) as [Htab _].
  cbn [FileGC.apply] in Htab. rewrite Hq in Htab. cbn [fst] in Htab.
  unfold FileGC.enqueueFileGCTask in Hq. rewrite Hid, Hfid, FileGC.rowByFile_fileTable, andb_diag in Hq by done.
  rewrite <- Hfid, Hb, Hfid in Hq. clear Hb.
  assert (forall f t, t' !! f = Some t -> gc_tasks d !! f = Some t
    \/ f = gFileID g /\ FileGC.cleanup t = (f, gStorageType g, gStorageRef g, gSize g, gContentType g)) as Hback.
  { intros f t Hf. case_bool_decide; simplify_eq; [|by left].
    apply lookup_insert_Some in Hf as [[<- <-]|[_ Hf]]; [right; by rewrite Hcl|by left]. }
  assert (is_Some (t' !! gFileID g)) as Hin.
  { case_bool_decide as Hn; simplify_eq; [by rewrite lookup_insert_eq|].
    by destruct (gc_tasks d !! gFileID g). }
  assert (forall f, is_Some (gc_tasks d !! f) -> is_Some (t' !! f)) as Hkeep.
  { intros f Hf. case_bool_decide; simplify_eq; [|done]. rewrite lookup_insert_is_Some'. auto. }
  split; cbn; try done.
  - intros f Hl. destruct (named0 f Hl) as [Hx|]; [|by right]. left. split; [done|]. intros ->.
    by destruct (live_not_dead _ _ i Hl Hi).
  - intros f t Hf. destruct (Hback f t Hf) as [Ho|[-> Hcl']]; [by apply task_dead0|].
    exists i, c. rewrite Hcl'. split_and!; try done. congruence.
  - intros f i' c' Hi' Hc' Hs Ha. destruct (decide (f = gFileID g)) as [->|Hne]; [by right|].
    destruct (retired0 f i' c' Hi' Hc' Hs Ha); auto.
Qed.

(** ** Retiring files *)

Lemma markFilesDeletedTx_ok X ids d :
  filesOkBut X d -> (forall f, f ∈ ids -> X f /\ ~ referenced d f /\ ~ pending d f) ->
  wp (markFilesDeletedTx ids)
    (fun _ d' => filesOkBut X d' /\ file_nodes d' = file_nodes d /\ contents d' = contents d
       /\ forall f i, inodes d !! f = Some i ->
            exists i', inodes d' !! f = Some i' /\ size_bytes i' = size_bytes i
              /\ (f ∈ ids -> status i' = StatusDeleted)) d.
Proof.
  intros H Hids. unfold markFilesDeletedTx.
  eapply wp_mono; [apply (wp_forEach markOne (fun l d' => (forall f, f ∈ l -> f ∈ ids) /\ filesOkBut X d'
    /\ file_nodes d' = file_nodes d /\ contents d' = contents d /\ uploads d' = uploads d
    /\ forall f i, inodes d !! f = Some i ->
         exists i', inodes d' !! f = Some i' /\ size_bytes i' = size_bytes i
           /\ (f ∈ ids -> f ∈ l \/ status i' = StatusDeleted)))|].
  - intros a l d' (Hsub & H' & En & Ec & Eu & Hi). destruct (Hids a ltac:(apply Hsub; left)) as (Hx & Hr & Hp).
    wp_apply markOne_ok; [done|..].
    { intros (id & r & Hnr & Hf). apply Hr. exists id, r. by rewrite <- En. }
    { by left. }
    { intros k u Hu Ha <-. apply Hp. rewrite Eu in Hu. by eapply upload_file_pending. }
    intros [] d'' (H'' & En' & Ec' & _ & Eu' & Ei & _). split; [intros f Hf; apply Hsub; by right|].
    split; [done|]. do 3 (split; [congruence|]). intros f i Hf.
    destruct (Hi f i Hf) as (i' & Hi' & Es & Hd). rewrite Ei. destruct (decide (f = a)) as [->|Hne].
    + rewrite lookup_alter_eq, Hi'. exists (withStatus StatusDeleted i'). split_and!; auto.
    + rewrite lookup_alter_ne by done. exists i'. split_and!; [done..|]. intros Hin.
      destruct (Hd Hin) as [Hl|]; [|by right]. left. by apply elem_of_cons in Hl as [|].
  - split_and!; try done. intros f i Hf. exists i. auto.
  - intros [] d' (_ & H' & En & Ec & _ & Hi). split_and!; [done..|]. intros f i Hf.
    destruct (Hi f i Hf) as (i' & Hi' & Es & Hd). exists i'. split_and!; [done..|]. intros Hin.
    by destruct (Hd Hin) as [?%elem_of_nil|].
Qed.

Lemma filesOk_tags X v d : filesOkBut X (set_tags v d) <-> filesOkBut X d.
Proof. split; intros []; by split. Qed.

(** Files without a name are marked and get their tasks. *)
Lemma retireFiles_ok {A} X gs now (k : tx A) Q d :
  filesOkBut X d -> (forall g, g ∈ gs -> gcFileOk d g /\ X (gFileID g) /\ ~ referenced d (gFileID g)
                                /\ ~ pending d (gFileID g)) ->
  (forall d', filesOkBut (fun f => X f /\ f ∉ gFileID <$> gs) d' -> wp k Q d') ->
  wp (markFilesDeletedTx (gFileID <$> gs) ;; deleteFileTagsByIDsTx (gFileID <$> gs) ;;
      forEach (fun f => enqueueGC f now) gs ;; k) Q d.
Proof.
  intros H Hgs Hk. wp_steps. wp_apply markFilesDeletedTx_ok; [done|..].
  { intros f (g & -> & Hg)%list_elem_of_fmap. by destruct (Hgs g Hg) as (_ & ? & ? & ?). }
  intros [] d1 (H1 & En & Ec & Hi). unfold deleteFileTagsByIDsTx. wp_steps.
  set (tags := filter _ _). clearbody tags.
  eapply wp_mono; [apply (wp_forEach (fun f => enqueueGC f now) (fun l d' => (forall g, g ∈ l -> g ∈ gs)
    /\ filesOkBut (fun f => X f /\ (f ∈ gFileID <$> l \/ f ∉ gFileID <$> gs)) d'
    /\ inodes d' = inodes d1 /\ contents d' = contents d1))|].
  - intros g l d' (Hsub & H' & Ei & Ec'). destruct (Hgs g ltac:(apply Hsub; left)) as (Hok & _).
    wp_apply enqueueGC_ok; [done|..].
    { eapply gcFileOk_frame; [done|congruence|]. intros i Hf. destruct (Hi _ i Hf) as (i' & Hi' & Es & _).
      exists i'. by rewrite Ei. }
    { intros i Hf. rewrite Ei in Hf. destruct Hok as (i0 & _ & Hi0 & _).
      destruct (Hi _ i0 Hi0) as (i' & Hi' & _ & Hd). simplify_eq. apply Hd, list_elem_of_fmap. exists g.
      split; [done|]. apply Hsub. left. }
    intros [] d'' (H'' & Ei' & Ec'' & _). split_and!; [intros x Hx; apply Hsub; by right| |congruence..].
    eapply filesOk_weaken; [done|]. intros f [[Hx Hl] Hne]. split; [done|].
    destruct Hl as [Hl|]; [|by right]. left. rewrite fmap_cons in Hl. by apply elem_of_cons in Hl as [|].
  - split_and!; try done. apply filesOk_tags. eapply filesOk_weaken; [done|]. intros f Hx. split; [done|].
    destruct (decide (f ∈ gFileID <$> gs)); auto.
  - intros [] d' (_ & H' & _). apply Hk. eapply filesOk_weaken; [done|]. intros f [Hx [?%elem_of_nil|Hn]]; done.
Qed.

Lemma retireFile_ok X g now d :
  filesOkBut X d -> gcFileOk d g -> X (gFileID g) -> ~ referenced d (gFileID g) -> ~ pending d (gFileID g) ->
  wp (retireFile g now) (fun _ => filesOkBut (fun f => X f /\ f <> gFileID g)) d.
Proof.
  intros H Hok Hx Hr Hp. unfold retireFile.
  assert (forall g', g' ∈ [g] -> gcFileOk d g' /\ X (gFileID g') /\ ~ referenced d (gFileID g')
    /\ ~ pending d (gFileID g')) as Hg.
  { by intros g' ->%list_elem_of_singleton. }
  pose proof (retireFiles_ok X [g] now (ok tt) (fun _ => filesOkBut (fun f => X f /\ f ∉ gFileID <$> [g])) d H Hg
    (fun _ H' => H')) as Hret.
  revert Hret. unfold wp, bind. cbn [fmap list_fmap forEach].
  destruct (markFilesDeletedTx [gFileID g] d) as [[d2 []]|]; [|done].
  destruct (deleteFileTagsByIDsTx [gFileID g] d2) as [[d3 []]|]; [|done]. unfold bind.
  destruct (enqueueGC g now d3) as [[d4 []]|]; [|done]. cbn. intros Hret.
  eapply filesOk_weaken; [done|]. intros f [Hf Hn]. split; [done|]. intros ->. apply Hn. left.
Qed.

(** ** The operations that delete and rename *)

Lemma referenced_filter d P f :
  referenced (set_nodes (filter (fun kv => P (snd kv) = false) (file_nodes d)) d) f
  <-> exists id r, file_nodes d !! id = Some r /\ P r = false /\ file_id r = Some f.
Proof.
  unfold referenced. cbn. split; intros (id & r & Hr).
  - destruct Hr as [Hr Hf]. apply map_lookup_filter_Some in Hr as [Hr HP]. eauto.
  - destruct Hr as (Hr & HP & Hf). exists id, r. by rewrite map_lookup_filter_Some.
Qed.

Lemma DeleteEmptyDir_ok p d : filesOk d -> wp (DeleteEmptyDir p) (fun _ => filesOk) d.
Proof.
  intros H. unfold DeleteEmptyDir, dirHasChildrenTx. wp_steps.
  wp_apply deleteNodes_ok; [done|]. intros [] d' [H' _]. eapply filesOk_weaken; [done|].
  intros f [[]|(id & r & Hr & HP & Hf)]. bool_prop.
  destruct (nodes_ok _ _ H id r Hr) as [Hd _]. rewrite (proj1 Hd) in Hf by done. done.
Qed.

Lemma DeleteFileWithRefCheck_ok p now d : filesOk d -> wp (DeleteFileWithRefCheck p now) (fun _ => filesOk) d.
Proof.
  intros H. unfold DeleteFileWithRefCheck, RefCount. wp_steps.
  destruct (nodeAt d p) as [[id r]|] eqn:Hn; wp_steps. apply nodeAt_spec in Hn as [Hr Hp].
  wp_apply deleteNodes_ok; [done|]. intros [] d1 [H1 Ed1].
  assert (forall f, ((fun _ => False) f \/ (exists id r, file_nodes d !! id = Some r
            /\ bool_decide (path r = p) = true /\ file_id r = Some f)) -> file_id r = Some f) as Honly.
  { intros f [[]|(id' & r' & Hr' & Hp' & Hf)]. bool_prop.
    assert (id' = id) as -> by (eapply (unique_paths _ _ H); [done..|congruence]). by simplify_eq. }
  apply (filesOk_weaken _ _ _ H1) in Honly. clear H1. rename Honly into H1.
  destruct (nodes_ok _ _ H id r Hr) as [_ Hnode].
  case_bool_decide as Hf0; wp_steps.
  { eapply filesOk_weaken; [done|]. intros f Hf. cbn in Hf. rewrite Hf in Hf0. by destruct (Hnode f Hf). }
  destruct (file_id r) as [f|] eqn:Hfr; [|done]. change (default "" (Some f)) with f in *.
  case_if; wp_steps; bool_prop.
  - eapply filesOk_settle; [done|]. intros g [= <-]. right. apply referenced_refCount. lia.
  - destruct (candidateFile d f) as [g|] eqn:Hcf; wp_steps.
    destruct (gcFileOf_ok _ d f g H (or_intror Hcf)) as [E Hok].
    assert (~ referenced d1 f) as Hnr by by apply refCount_zero.
    wp_apply retireFile_ok; [done|..].
    + eapply gcFileOk_frame; [done|by rewrite Ed1|]. intros i Hi. exists i. by rewrite Ed1.
    + by rewrite E.
    + by rewrite E.
    + rewrite E, Ed1. intros Hp'. apply (pending_not_live d f); [done|]. by apply Hnode.
    + intros [] d2 H2. wp_steps. eapply filesOk_weaken; [done|]. intros f' [[= <-] Hn]. by apply Hn.
Qed.

Lemma orphanedFiles_elem d ids g :
  g ∈ orphanedFiles d ids <-> exists f, f ∈ ids /\ refCount d f = 0 /\ fileForGC d f = Some g.
Proof.
  unfold orphanedFiles. rewrite list_elem_of_omap. split; intros (f & Hf & Hg); exists f.
  - destruct (refCount d f =? 0) eqn:E; [|done]. by apply Z.eqb_eq in E.
  - destruct Hg as [E Hg]. by rewrite E.
Qed.

Lemma DeleteDirRecursive_ok p now d : filesOk d -> wp (DeleteDirRecursive p now) (fun _ => filesOk) d.
Proof.
  intros H. unfold DeleteDirRecursive. wp_step. wp_step. wp_step.
  set (ids := remove_dups _). wp_apply deleteNodes_ok; [done|]. intros [] d1 [H1 Ed1]. wp_step. wp_step. cbv beta.
  pose proof (orphanedFiles_elem d1 ids) as Hor. set (gs := orphanedFiles d1 ids) in *.
  assert (forall f, f ∈ ids <-> exists id r, file_nodes d !! id = Some r /\ underLike p r = true /\ file_id r = Some f)
    as Hids.
  { intros f. unfold ids. rewrite elem_of_remove_dups, list_elem_of_omap. split.
    - intros ([id r] & Hin & Hf). apply nodesWhere_elem in Hin as [? ?]. eauto.
    - intros (id & r & Hr & Hp & Hf). exists (id, r). by rewrite nodesWhere_elem. }
  assert (forall f, f ∈ ids -> live d1 f) as Hlive.
  { intros f (id & r & Hr & _ & Hf)%Hids. rewrite Ed1. by apply (nodes_ok _ _ H id r Hr). }
  apply (retireFiles_ok (fun f => f ∈ gFileID <$> gs)).
  - eapply filesOk_settle; [done|]. intros f [[]|Hf]. apply Hids in Hf.
    destruct (decide (refCount d1 f = 0)) as [Hc|Hc]; [left|right; by apply referenced_refCount].
    destruct (Hlive f Hf) as (_ & c & _ & Hcf & _).
    destruct (live_gcFile _ d1 f H1) as [[g Hg] _]; [eauto|]. apply list_elem_of_fmap. exists g.
    split; [symmetry; apply (gcFileOf_ok _ d1 f g H1 (or_introl Hg))|]. apply Hor. eauto.
  - intros g Hg. pose proof Hg as Hg0. apply Hor in Hg0 as (f & Hf & Hc & Hg').
    destruct (gcFileOf_ok _ d1 f g H1 (or_introl Hg')) as [E Hok].
    split_and!; [done|by apply list_elem_of_fmap; eauto|..]; rewrite E.
    + apply refCount_zero. lia.
    + intros Hp. apply (pending_not_live d1 f Hp). auto.
  - intros d' H'. wp_steps. eapply filesOk_weaken; [done|]. by intros f [Hf Hn].
Qed.

Lemma RenameDir_ok p q d : filesOk d -> wp (RenameDir p q) (fun _ => filesOk) d.
Proof.
  intros H. unfold RenameDir. wp_steps. eapply wp_mono; [apply wp_forEach_inv|].
  - intros u d' _ H'. by apply moveNode_ok.
  - done.
  - intros [] d' H'. by wp_steps.
Qed.

(** ** Chmod *)

(** Changes of a file's inode that the other tables do not see. *)
Lemma updateInode_ok X id g d :
  filesOkBut X d -> (forall i, status (g i) = status i /\ revision (g i) = revision i
    /\ confirmed_at (g i) = confirmed_at i /\ size_bytes (g i) = size_bytes i) ->
  wp (updateInode id g) (fun _ => filesOkBut X) d.
Proof.
  intros H Hg. unfold updateInode. wp_steps. pose proof H as []. set (d' := set_inodes _ d).
  assert (forall f, inodes d' !! f = inodes d !! f \/
    exists i, inodes d !! f = Some i /\ inodes d' !! f = Some (g i)) as Hf.
  { intros f. subst d'. cbn. destruct (decide (f = id)) as [->|Hne]; [|left; by rewrite lookup_alter_ne].
    rewrite lookup_alter_eq. destruct (inodes d !! id) as [i|]; [right; by exists i|by left]. }
  assert (forall f, live d' f <-> live d f) as Hl.
  { intros f. unfold live. destruct (Hf f) as [->|(i & -> & ->)]; [done|]. destruct (Hg i) as (E & _).
    split; intros (i' & c & [= <-] & Hc & Hs); [exists i, c|exists (g i), c]; split_and!; try done; congruence. }
  split.
  - intros f c Hc. destruct (content_inode0 f c Hc) as [i Hi]. destruct (Hf f) as [->|(i' & _ & ->)]; eauto.
  - intros m f Hm. pose proof (legacy_agrees0 m f Hm) as Ha. destruct (Hf f) as [->|(i & Hi & ->)]; [done|].
    destruct (m !! f) as [l|]; [|done]. destruct Ha as (i' & c & Hi' & Hc & E1 & E2 & E3 & E4 & E5 & E6 & E7).
    rewrite Hi in Hi'. injection Hi' as <-. destruct (Hg i) as (? & ? & ? & ?).
    exists (g i), c. split_and!; try done; congruence.
  - intros f i Hi Hp. destruct (Hf f) as [E|(i0 & Hi0 & E)]; rewrite E in Hi; [eauto|]. injection Hi as <-.
    destruct (Hg i0) as (E1 & E2 & E3 & _). rewrite E2, E3. apply (pending_first0 f i0 Hi0). congruence.
  - done.
  - intros k r Hk. destruct (nodes_ok0 k r Hk) as [Hd Hr]. split; [done|]. intros f E. destruct (Hr f E).
    by rewrite Hl.
  - intros f Hlf. by apply named0, Hl.
  - done.
  - intros f t Ht. destruct (task_dead0 f t Ht) as (i & c & Hi & Hc & Hs & E).
    destruct (Hf f) as [->|(i' & Hi' & ->)]; [by exists i, c|]. simplify_eq. destruct (Hg i) as (? & ? & ? & Es).
    exists (g i), c. rewrite Es. split_and!; try done. congruence.
  - intros f i c Hi Hc Hs Ha. destruct (Hf f) as [E|(i0 & Hi0 & E)]; rewrite E in Hi; [eauto|]. injection Hi as <-.
    destruct (Hg i0) as (E1 & _ & E2 & _). eapply retired0; [done..|congruence|congruence].
  - done.
  - destruct uploads_ok0. split; try done. intros k u Hu Ha.
    destruct (upload_pending0 k u Hu Ha) as [Hu0 (i & c & Hi & Hc & Hs)]. split; [done|].
    destruct (Hf (UFileID u)) as [E|(i0 & Hi0 & E)]; [exists i, c; by rewrite E|]. simplify_eq.
    destruct (Hg i) as (E1 & _). exists (g i), c. rewrite E. split_and!; try done. congruence.
Qed.

Lemma Chmod_ok p m d : filesOk d -> wp (Chmod p m) (fun _ => filesOk) d.
Proof.
  intros H. unfold Chmod. wp_steps. destruct (nodeAt d p) as [kv|]; wp_steps.
  by apply updateInode_ok.
Qed.

(** The step of a rename that takes the entry at the target away. *)
Lemma filesOk_delete_node d id r :
  filesOk d -> file_nodes d !! id = Some r ->
  filesOkBut (fun f => file_id r = Some f) (set_nodes (delete id (file_nodes d)) d).
Proof.
  intros H Hr. eapply filesOk_set_nodes; [done|..].
  - intros a b ra rb Ha Hb. apply lookup_delete_Some in Ha as [_ Ha], Hb as [_ Hb]. by apply (unique_paths _ _ H).
  - intros a ra [_ Ha]%lookup_delete_Some. by apply (nodes_ok _ _ H a).
  - intros f [[]|(a & ra & Ha & Hf)]. destruct (decide (a = id)) as [->|Hne]; [left; congruence|].
    right. exists a, ra. cbn. by rewrite lookup_delete_ne.
Qed.

(** The replaced file goes when that was its last name. *)
Lemma replaced_ok f now d :
  filesOkBut (fun g => Some f = Some g) d -> f <> "" -> live d f ->
  wp (let* count := RefCount f in
      if count =? 0 then
        markFilesDeletedTx [f] ;; deleteFileTagsByIDsTx [f] ;;
        let* g := scanFileForGCTx f in enqueueGC g now ;; ok (Some g)
      else ok None) (fun _ => filesOk) d.
Proof.
  intros H Hf Hl. pose proof Hl as (i & c & Hfi & Hc & _). unfold RefCount, scanFileForGCTx, deleteFileTagsByIDsTx. wp_steps.
  case_if; wp_steps; bool_prop.
  - wp_apply markFilesDeletedTx_ok; [done|..].
    { intros g ->%list_elem_of_singleton. split_and!; [done|apply refCount_zero; lia|].
      intros Hp. by apply (pending_not_live d f Hp). }
    intros [] d1 (H1 & _ & Ec & Hi).
    wp_steps. match goal with |- wp _ _ ?x => set (d2 := x) end.
    assert (filesOkBut (fun g => Some f = Some g) d2) as H2 by by apply filesOk_tags.
    destruct (fileForGC d2 f) as [g|] eqn:Hg; wp_steps.
    destruct (gcFileOf_ok _ d2 f g H2 (or_introl Hg)) as [E Hok].
    wp_apply enqueueGC_ok; [done|done|..].
    + intros i' Hi'. destruct (Hi f i Hfi) as (i1 & Hi1 & _ & Hd). rewrite E in Hi'.
      change (inodes d2) with (inodes d1) in Hi'. simplify_eq. apply Hd. left.
    + intros [] d3 (H3 & _). wp_steps. eapply filesOk_weaken; [done|]. intros g' [[= <-] Hn]. by apply Hn.
  - eapply filesOk_settle; [done|]. intros g [= <-]. right. by apply referenced_refCount.
Qed.

Lemma RenameFileReplacingTarget_ok p q q1 n now d :
  filesOk d -> wp (RenameFileReplacingTarget p q q1 n now) (fun _ => filesOk) d.
Proof.
  intros H. unfold RenameFileReplacingTarget. wp_steps.
  destruct (nodeAt d p) as [[oldID old]|] eqn:Ho; wp_steps. case_bool_decide; wp_steps; [done|].
  destruct (nodeAt d q) as [[dstID dst]|] eqn:Hd; wp_steps.
  - apply nodeAt_spec in Hd as [Hdst _]. destruct (nodes_ok _ _ H dstID dst Hdst) as [_ Hlive].
    destruct (is_directory dst) eqn:Hdir; destruct dst as [? ? ? dir fid ? ?]; cbn in Hdir; subst dir; [by wp_steps|].
    case_bool_decide; wp_steps; [done|].
    pose proof (filesOk_delete_node d dstID _ H Hdst) as Hdel. cbn in Hdel.
    wp_apply wp_and; [by apply moveNode_ok|apply moveNode_frame|]. intros [] d2 [H2 [m Em]]. cbn [file_id] in *.
    destruct fid as [f|]; wp_steps; [|by eapply filesOk_weaken].
    destruct (Hlive f eq_refl) as [Hf (i & c & Hi & Hc & Hs)]. rewrite bool_decide_false by done.
    apply replaced_ok; [done|done|]. rewrite Em. by exists i, c.
  - wp_apply moveNode_ok; [done|]. intros [] d2 H2. by wp_steps.
Qed.

(** ** Content updates *)

(** The rows of a file after a content update. *)
Definition updatedInode (u : Update) (now : Z) (i : inodeRow) : inodeRow :=
  {| size_bytes := uSize u; revision := revision i + 1; mode := mode i; status := StatusConfirmed;
     created_at := created_at i; mtime := now; confirmed_at := Some now; expires_at := expires_at i |}.

Definition updatedContent (u : Update) (c : contentRow) : contentRow :=
  {| storage_type := uStorageType u; storage_ref := uStorageRef u;
     encryption_mode := fileStorageEncryptionModeForWrite (encryption_mode c);
     encryption_key_id := encryption_key_id c; content_blob := nullStr (uContentBlob u);
     content_type := nullStr (uContentType u); checksum_sha256 := nullStr (uChecksum u);
     source_id := source_id c |}.

Definition updatedSemantic (preserve : bool) (u : Update) (s : semanticRow) : semanticRow :=
  {| content_text := nullStr (uContentText u); description := nullStr (uDescription u);
     embedding_revision := if preserve then embedding_revision s else None;
     description_embedding_revision := if preserve then description_embedding_revision s else None |}.

(** What an update of a live file's content does: nothing but a conflict when another
    revision was expected, and otherwise the new content under the next revision. *)
Lemma updateFileContentTx_exact X f i c expected preserve u now d :
  filesOkBut X d -> inodes d !! f = Some i -> contents d !! f = Some c -> status i = StatusConfirmed ->
  exists l, legacyAgrees (Some l) (Some (updatedInode u now i)) (Some (updatedContent u c)) /\
  updateFileContentTx f expected preserve u now d =
    if (0 <? expected) && negb (revision i =? expected) then inr ErrRevisionConflict
    else inl (set_semantic (alter (updatedSemantic preserve u) f (semantic d))
               (set_contents (<[f := updatedContent u c]> (contents d))
                 (set_inodes (<[f := updatedInode u now i]> (inodes d))
                   (set_files (insert f l <$> files d) d))), revision i + 1).
Proof.
  intros H Hi Hc Hs. destruct (semantic_row X d H f c Hc) as [sm Hsem]. unfold updateFileContentTx, updateLegacyContentTx, UpdateInodeContentTx,
    UpdateContentTx, updateSemanticNoEmbedTx, UpdateSemanticTx, updateInode, updateContent, updateSemantic.
  pose proof (fun m => legacy_agrees X d H m f) as Ha. rewrite Hi, Hc in Ha.
  destruct (files d) as [m|] eqn:Hf.
  - specialize (Ha m eq_refl). destruct (m !! f) as [l|] eqn:Hl; [|done].
    destruct Ha as (i' & c' & [= <-] & [= <-] & E1 & E2 & E3 & E4 & E5 & E6 & E7).
    exists (legacyUpdated u preserve (default "" (Some sm ≫= description)) now l).
    split; [exists (updatedInode u now i), (updatedContent u c); cbn; rewrite ?E3; done|].
    unfold bind, read, throwIf, modify, ok. rewrite Hf, Hsem. rewrite bool_decide_false with (P := Some sm = None) by done.
    rewrite andb_false_r. rewrite Hl. rewrite E1, Hs, E3, bool_decide_true with (P := StatusConfirmed = StatusConfirmed) by done.
    rewrite andb_true_r.
    assert (bool_decide (revision i = expected) = (revision i =? expected)) as ->.
    { destruct (Z.eqb_spec (revision i) expected); case_bool_decide; done. }
    destruct ((0 <? expected) && negb (revision i =? expected)) eqn:Hg; [done|]. unfold throw. cbn.
    rewrite Hc. cbn.
    assert ((if 0 <? expected then expected + 1 else revision i + 1) = revision i + 1) as E.
    { destruct (0 <? expected); [|done]. cbn in Hg. bool_prop. lia. }
    rewrite E.
    destruct preserve; cbn; by rewrite (alter_is_insert _ f (inodes d) i), (alter_is_insert _ f (contents d) c).
  - exists {| f_content := updatedContent u c; f_semantic := updatedSemantic preserve u sm; f_size := uSize u;
              f_revision := revision i + 1; f_status := StatusConfirmed; f_created_at := created_at i;
              f_confirmed_at := Some now; f_expires_at := expires_at i |}.
    split; [by exists (updatedInode u now i), (updatedContent u c)|].
    unfold bind, read, throwIf, modify, ok. rewrite Hf, Hi, Hs, bool_decide_true by done. cbn [negb].
    destruct ((0 <? expected) && negb (revision i =? expected)); [done|]. cbn. rewrite Hc. cbn.
    destruct d. cbn in *. subst.
    destruct preserve; cbn; by rewrite (alter_is_insert _ f inodes0 i), (alter_is_insert _ f contents0 c).
Qed.

Lemma updateFileContentTx_ok f expected preserve u now d :
  filesOk d -> live d f ->
  wp (updateFileContentTx f expected preserve u now) (fun _ => filesOk) d.
Proof.
  intros H (i & c & Hi & Hc & Hs).
  destruct (updateFileContentTx_exact _ f i c expected preserve u now d H Hi Hc Hs) as (l & Hl & E).
  unfold wp. rewrite E. case_if; [done|].
  destruct (named _ _ H f) as [[]|Hr]; [by exists i, c|].
  set (v := alter _ f (semantic d)). destruct (semantic_row _ _ H f c Hc) as [sm Hsem].
  assert (forall k u0, uploads d !! k = Some u0 -> isActive u0 = true -> UFileID u0 <> f) as Hup.
  { intros k u0 Hu Ha <-. by apply (pending_not_live d (UFileID u0) (upload_file_pending _ _ _ _ H Hu Ha)); exists i, c. }
  apply (filesOk_put (fun _ => False) _ (set_semantic v d)); try done; cbn; auto.
  - apply filesOk_semantic; [done|]. intros g Hg. subst v. rewrite lookup_alter_is_Some. done.
  - destruct (gc_tasks d !! f) as [t|] eqn:Ht; [|done].
    destruct (task_dead _ _ H f t Ht) as (i' & ? & Hi' & _ & Hs' & _). simplify_eq. congruence.
  - subst v. by rewrite lookup_alter_eq, Hsem.
Qed.

Lemma live_no_task X d f : filesOkBut X d -> live d f -> gc_tasks d !! f = None.
Proof.
  intros H (i & c & Hi & _ & Hs). destruct (gc_tasks d !! f) as [t|] eqn:Ht; [|done].
  destruct (task_dead _ _ H f t Ht) as (i' & ? & Hi' & _ & Hs' & _). simplify_eq. congruence.
Qed.

Lemma live_referenced d f : filesOk d -> live d f -> referenced d f.
Proof. intros H Hl. by destruct (named _ _ H f Hl). Qed.

Lemma UpdateFileStorageEncryptionTx_ok f m k d :
  filesOk d -> live d f -> wp (UpdateFileStorageEncryptionTx f m k) (fun _ d' => filesOk d') d.
Proof.
  intros H Hl. pose proof Hl as (i & c & Hi & Hc & Hs).
  unfold UpdateFileStorageEncryptionTx, updateLegacy, updateContent. wp_steps. clear Hg.
  set (m' := fileStorageEncryptionModeForWrite m).
  pose proof (fun fm => legacy_agrees _ _ H fm f) as Ha. rewrite Hi, Hc in Ha.
  set (encl := fun f0 : fileRow => {| f_content := withEncryption m' k (f_content f0); f_semantic := f_semantic f0;
    f_size := f_size f0; f_revision := f_revision f0; f_status := f_status f0; f_created_at := f_created_at f0;
    f_confirmed_at := f_confirmed_at f0; f_expires_at := f_expires_at f0 |}).
  assert (exists l, legacyAgrees (Some l) (Some i) (Some (withEncryption m' k c))
    /\ alter encl f <$> files d = insert f l <$> files d) as (l & Hal & El).
  { destruct (files d) as [fm|].
    - specialize (Ha fm eq_refl). destruct (fm !! f) as [l|] eqn:Hfl; [|done]. exists (encl l).
      split; [|cbn; f_equal; by apply alter_is_insert].
      destruct Ha as (i' & c' & [= <-] & [= <-] & Ha). by exists i, (withEncryption m' k c).
    - exists {| f_content := withEncryption m' k c;
                f_semantic := {| content_text := None; description := None; embedding_revision := None;
                                 description_embedding_revision := None |};
                f_size := size_bytes i; f_revision := revision i; f_status := status i; f_created_at := 0;
                f_confirmed_at := confirmed_at i; f_expires_at := None |}.
      split; [|done]. by exists i, (withEncryption m' k c). }
  cbn. rewrite El, (alter_is_insert _ f (contents d) c) by done.
  assert (inodes d = <[f := i]> (inodes d)) as Ei by (symmetry; by apply insert_id).
  assert (filesOk (set_contents (<[f := withEncryption m' k c]> (contents d))
    (set_inodes (<[f := i]> (inodes d)) (set_files (insert f l <$> files d) d)))) as Hput.
  { eapply filesOk_put; [done|done|by rewrite Hs| |by rewrite Hs|by rewrite Hs| |done|..].
    - intros _. right. by apply live_referenced.
    - by eapply live_no_task.
    - by apply (semantic_row _ _ H f c).
    - intros k' u Hu Hact <-. by apply (pending_not_live _ _ (upload_file_pending _ _ _ _ H Hu Hact)). }
  rewrite <- Ei in Hput. by destruct d.
Qed.

Lemma live_after_update f expected preserve u now d :
  filesOk d -> live d f -> wp (updateFileContentTx f expected preserve u now) (fun _ d' => live d' f) d.
Proof.
  intros H (i & c & Hi & Hc & Hs).
  destruct (updateFileContentTx_exact _ f i c expected preserve u now d H Hi Hc Hs) as (l & Hl & E).
  unfold wp. rewrite E. case_if; [done|]. exists (updatedInode u now i), (updatedContent u c). cbn.
  by rewrite !lookup_insert_eq.
Qed.

End FileSafety.
