(* ===== verification/Media.v ===== *)
(** * Content types and the tasks they cause

    Model of the content-type detection and text extraction of
    [src/pkg/backend/dat9.go], of the media classification of [image_extract.go] and
    [audio_extract.go], and of the task constructors of [semantic_tasks.go].  The table
    behind [mime.TypeByExtension] and [strings.ToLower] outside ASCII are parameters. *)

From Stdlib Require Import Strings.Ascii.
From S2P Require Import Prelude GoStrings PathUtil Json SemanticQueue.

Import GoStr Paths.

Module Media.

Definition DefaultTextExtractMaxBytes : Z := 8192.

(** [int64(len(s))] *)
Definition slen (s : string) : Z := Z.of_nat (String.length s).

Section media.
Context (typeByExtension : string -> string) (toLower : string -> string).

(** ** Content types *)

Definition isTextContent (data : string) : bool :=
  everyByte (fun c => negb (c =? 0)) data && ValidString data.

Definition isTextualContentType (contentType : string) : bool :=
  HasPrefix contentType "text/" || bool_decide (contentType = "application/json")
  || bool_decide (contentType = "application/xml") || bool_decide (contentType = "application/yaml").

Definition detectContentType (path data : string) : string :=
  let sniffed := if (0 <? slen data) && isTextContent data then "text/plain" else "application/octet-stream" in
  let ext := Ext path in
  if bool_decide (ext = "") then sniffed
  else
    let ct := typeByExtension ext in
    if bool_decide (ct = "") then sniffed
    else if isTextualContentType ct && negb (isTextContent data) then "application/octet-stream" else ct.

Definition extractText (data contentType : string) (maxBytes : Z) : string :=
  if negb (isTextualContentType contentType) then ""
  else if negb (isTextContent data) then ""
  else
    let maxBytes := if maxBytes <=? 0 then DefaultTextExtractMaxBytes else maxBytes in
    if maxBytes <? slen data then "" else data.

(** ** Images and audio *)

Definition isImageContentType (contentType : string) : bool := HasPrefix (toLower (TrimSpace contentType)) "image/".

Definition imageExtensions : list (string * string) :=
  [(".png", "image/png"); (".jpg", "image/jpeg"); (".jpeg", "image/jpeg"); (".gif", "image/gif");
   (".bmp", "image/bmp"); (".webp", "image/webp"); (".svg", "image/svg+xml"); (".tiff", "image/tiff");
   (".tif", "image/tiff"); (".ico", "image/x-icon")].

(** The entry of a table of extensions that a path ends in; no extension of the tables
    is the suffix of another, so at most one entry fits. *)
Definition byExtension (table : list (string * string)) (path : string) : string :=
  default "" (snd <$> find (fun e => HasSuffix path (fst e)) table).

Definition contentTypeFromPath (path : string) : string := byExtension imageExtensions (toLower path).

Definition audioExtensionMIME : list (string * string) :=
  [(".mp3", "audio/mpeg"); (".wav", "audio/wav"); (".mp4", "audio/mp4"); (".m4a", "audio/mp4")].

Definition stripMIMEParams (ct : string) : string :=
  let ct := TrimSpace (toLower ct) in
  match Cut ";"%char ct with
  | Some (a, _) => TrimSpace a
  | None => ct
  end.

Definition oneOf (l : list string) (s : string) : bool := bool_decide (s ∈ l).

Definition normalizeStdlibAudioMIMEAliases (ct : string) : string :=
  let ct := stripMIMEParams ct in
  if oneOf ["audio/wave"; "audio/vnd.wave"; "audio/x-pn-wav"] ct then "audio/wav"
  else if oneOf ["video/mp4"; "application/mp4"; "audio/mp4a-latm"] ct then "audio/mp4"
  else ct.

Definition isAllowedAudioMIME (ct : string) : bool :=
  oneOf ["audio/mpeg"; "audio/wav"; "audio/x-wav"; "audio/mp4"; "audio/x-m4a"] (normalizeStdlibAudioMIMEAliases ct).

Definition audioMIMEAllowsPathFallback (ct : string) : bool :=
  oneOf [""; "application/octet-stream"; "text/plain"] (stripMIMEParams ct).

Definition effectiveAudioMIME (path contentType : string) : string :=
  if isAllowedAudioMIME contentType then normalizeStdlibAudioMIMEAliases contentType
  else if negb (audioMIMEAllowsPathFallback (stripMIMEParams contentType)) then ""
  else byExtension audioExtensionMIME (toLower path).

Definition isAudioContentType (contentType path : string) : bool :=
  negb (bool_decide (effectiveAudioMIME path contentType = "")).

(** ** Semantic tasks *)

Definition newTask (taskType : string) (payload : bytes) (taskID fileID : string) (revision now : Z) : Queue.Task :=
  {| Queue.TaskID := taskID; Queue.TaskType := taskType; Queue.ResourceID := fileID;
     Queue.ResourceVersion := revision; Queue.Status := Some Queue.TaskQueued; Queue.AttemptCount := 0;
     Queue.MaxAttempts := 5; Queue.Receipt := ""; Queue.LeasedAt := None; Queue.LeaseUntil := None;
     Queue.AvailableAt := Some now; Queue.PayloadJSON := payload; Queue.LastError := "";
     Queue.CreatedAt := Some now; Queue.UpdatedAt := Some now; Queue.CompletedAt := None |}.

Definition newEmbedTask : string -> string -> Z -> Z -> Queue.Task := newTask "embed" [].

(** A member of a JSON object that is left out when it is empty. *)
Definition member (key value : string) : list string :=
  if bool_decide (value = "") then [] else [Json.encodeString key +:+ ":" +:+ Json.encodeString value].

(** The payload of an extraction task: none, or [json.Marshal] of the hints. *)
Definition extractPayload (path contentType : string) : bytes :=
  match member "path" path ++ member "content_type" contentType with
  | [] => []
  | ms => String.list_byte_of_string ("{" +:+ String.concat "," ms +:+ "}")
  end.

Definition newImgExtractTask (taskID fileID : string) (revision : Z) (path contentType : string) (now : Z) : Queue.Task :=
  newTask "img_extract_text" (extractPayload path contentType) taskID fileID revision now.
Definition newAudioExtractTask (taskID fileID : string) (revision : Z) (path contentType : string) (now : Z)
    : Queue.Task := newTask "audio_extract_text" (extractPayload path contentType) taskID fileID revision now.

End media.

End Media.
