(* ===== verification/Backend.v ===== *)
(** * The storage backend

    Model of the file operations of [src/pkg/backend/dat9.go] (create, mkdir, chmod,
    remove, rename, copy, write, read), of the quota checks of [quota.go] and of the
    task enqueueing of [semantic_tasks.go], over the transactions of [FileStore].  A
    call that runs several transactions is their sequence.  Object storage is a map
    from keys to objects.  What a call gets from outside is an argument: the clock,
    fresh identifiers, whether object storage answers, the central quota store's
    numbers.  The mirror of file sizes in that store and the in-memory queue of image
    extractions are not modelled. *)

From Stdlib Require Import Strings.Ascii.
From S2P Require Import Prelude GoStrings PathUtil Json Sha256 SemanticQueue FileGCQueue FileStore Media.

Import GoStr Paths FileStore Media.

Module Backend.

#[local] Arguments String.append !_ _ / : simpl nomatch.

(** The configuration of a backend. *)
Record config := {
  smallInDB : bool;
  inlineThreshold : Z;
  s3 : bool;                   (** an object store is configured *)
  s3Mode : string;             (** the encryption mode and key of its policy *)
  s3KeyID : string;
  databaseAutoEmbedding : bool;
  maxUploadBytes : Z;
  maxTenantStorageBytes : Z;
  maxMediaLLMFiles : Z;
  textExtractMaxBytes : Z;
  useServerQuota : bool;       (** [UseServerQuota] *)
  objectGC : bool;             (** candidates for object cleanup can be recorded *)
  imageExtract : bool;         (** [SupportsAsyncImageExtract] *)
  audioExtract : bool          (** [SupportsAsyncAudioExtract] *)
}.

(** The central quota store's row for the tenant. *)
Record usage := { StorageBytes : Z; ReservedBytes : Z; MediaFileCount : Z }.
Record limits := { MaxStorageBytes : Z; MaxMediaLLMFiles : Z }.

(** What a call gets from outside; the quota numbers are [None] when the central store
    does not answer. *)
Record env := {
  now : Z;
  newFileID : string;
  newNodeID : string;
  newTaskID : string;
  newTaskID2 : string;
  newBlobID : string;
  putOK : bool;
  quotaUsage : option usage;
  quotaLimits : option limits
}.

(** The tables, the objects and the keys recorded for object cleanup. *)
Record backend := { store : db; objects : gmap string string; candidates : list string }.

Inductive backendError :=
  | Store (e : storeError)
  | BadPath (e : pathError)
  | ErrNoS3
  | ErrS3   (** object storage failed *)
  | ErrGetObject
  | ErrCopyDirectory
  | ErrIsDirectory
  | ErrFileExists
  | ErrNoFile
  | ErrUploadTooLarge
  | ErrStorageKind
  | ErrEOF.

Definition set_store (d : db) (b : backend) : backend :=
  {| store := d; objects := objects b; candidates := candidates b |}.
Definition set_objects (o : gmap string string) (b : backend) : backend :=
  {| store := store b; objects := o; candidates := candidates b |}.

(** Run a transaction. *)
Definition run {A} (m : tx A) (b : backend) : backend * (A + backendError) :=
  match InTx m (store b) with
  | (d, inl a) => (set_store d b, inl a)
  | (d, inr e) => (set_store d b, inr (Store e))
  end.

(** Run a transaction and go on when it succeeds. *)
Definition andThen {A B} (m : tx A) (k : A -> backend -> backend * (B + backendError)) (b : backend)
    : backend * (B + backendError) :=
  match run m b with
  | (b', inl a) => k a b'
  | (b', inr e) => (b', inr e)
  end.

Section backend.
Context (nfc typeByExtension toLower : string -> string) (cfg : config).

Definition shouldStoreInDB (size : Z) : bool := smallInDB cfg && (size <? inlineThreshold cfg).

(** ** Paths *)

Definition normalizePath (p : string) : string :=
  match (if IsDir p then CanonicalizeDir nfc p else Canonicalize nfc p) with inl q => q | inr _ => p end.

Definition canonicalizePathForKind (p : string) (isDir : bool) : string :=
  if isDir then match CanonicalizeDir nfc p with inl q => q | inr _ => p end
  else normalizePath p.

Definition resolveNodePath (d : db) (rawPath : string) : (string * FileNode) + backendError :=
  let resolvedPath := normalizePath rawPath in
  match GetNode d resolvedPath with
  | inl node => inl (resolvedPath, node)
  | inr err =>
      if negb (bool_decide (err = ErrNotFound)) || IsDir rawPath then inr (Store err)
      else match CanonicalizeDir nfc rawPath with
           | inr _ => inr (Store err)
           | inl dirPath =>
               if bool_decide (dirPath = resolvedPath) then inr (Store err)
               else match GetNode d dirPath with
                    | inl dirNode => inl (dirPath, dirNode)
                    | inr dirErr => inr (Store (if bool_decide (dirErr = ErrNotFound) then err else dirErr))
                    end
           end
  end.

(** ** Operations *)

(** The file and the entry that [CreateCtx] inserts. *)
Definition emptyFile (fileID : string) (now : Z) : File :=
  let inDB := shouldStoreInDB 0 in
  {| FFileID := fileID; StorageType := if inDB then "db9" else "s3";
     StorageRef := if inDB then "inline" else "blobs/" +:+ fileID;
     StorageEncryptionMode := if inDB then "none" else s3Mode cfg;
     StorageEncryptionKeyID := if inDB then "" else s3KeyID cfg; ContentBlob := ""; ContentType := "";
     SizeBytes := 0; ChecksumSHA256 := ""; Revision := 1; Mode := 0; EmbeddingRevision := None;
     Status := StatusConfirmed; SourceID := ""; ContentText := ""; Description := "";
     DescriptionEmbeddingRevision := None; FCreatedAt := now; ConfirmedAt := Some now; ExpiresAt := None |}.

Definition fileNode (nodeID p fileID : string) (now : Z) : FileNode :=
  {| NodeID := nodeID; Path := p; ParentPath_ := ParentPath p; Name := BaseName p; IsDirectory := false;
     FileID := fileID; InodeID := ""; CreatedAt := now |}.

Definition dirNode (nodeID p inodeID : string) (now : Z) : FileNode :=
  {| NodeID := nodeID; Path := p; ParentPath_ := ParentPath p; Name := BaseName p; IsDirectory := true;
     FileID := ""; InodeID := inodeID; CreatedAt := now |}.

(** The transaction of [CreateCtx]. *)
Definition createTx (p fileID nodeID : string) (now : Z) : tx unit :=
  InsertFileTx (emptyFile fileID now) now ;;
  EnsureParentDirsTx now p ;;
  InsertNodeTx (fileNode nodeID p fileID now).

Definition deleteBlob (ref : string) (b : backend) : backend :=
  if s3 cfg && negb (bool_decide (ref = "")) then set_objects (delete ref (objects b)) b else b.

Definition CreateCtx (b : backend) (p fileID nodeID : string) (putOK : bool) (now : Z)
    : backend * (unit + backendError) :=
  match Canonicalize nfc p with
  | inr e => (b, inr (BadPath e))
  | inl p =>
      if shouldStoreInDB 0 then run (createTx p fileID nodeID now) b
      else if negb (s3 cfg) then (b, inr ErrNoS3)
      else if negb putOK then (b, inr ErrS3)
      else
        let ref := "blobs/" +:+ fileID in
        let b := set_objects (<[ref := ""]> (objects b)) b in
        match run (createTx p fileID nodeID now) b with
        | (b, inl u) => (b, inl u)
        | (b, inr e) => (deleteBlob ref b, inr e)
        end
  end.

Definition MkdirCtx (b : backend) (p : string) (perm : Z) (inodeID nodeID : string) (now : Z)
    : backend * (unit + backendError) :=
  match CanonicalizeDir nfc p with
  | inr e => (b, inr (BadPath e))
  | inl dirPath =>
      andThen (EnsureParentDirsTx now dirPath) (fun _ =>
        run (insertInodeRow inodeID (newInode perm now) ;; InsertNodeTx (dirNode nodeID dirPath inodeID now))) b
  end.

Definition ChmodCtx (b : backend) (p : string) (m : Z) : backend * (unit + backendError) :=
  match resolveNodePath (store b) p with
  | inr e => (b, inr e)
  | inl (p, _) => run (Chmod p m) b
  end.

Definition RemoveCtx (b : backend) (p : string) (now : Z) : backend * (unit + backendError) :=
  match resolveNodePath (store b) p with
  | inr e => (b, inr e)
  | inl (p, node) =>
      if IsDirectory node then run (DeleteEmptyDir p) b
      else run (DeleteFileWithRefCheck p now ;; ok tt) b
  end.

Definition RemoveFileCtx (b : backend) (p : string) (now : Z) : backend * (unit + backendError) :=
  match Canonicalize nfc p with
  | inr e => (b, inr (BadPath e))
  | inl p => run (DeleteFileWithRefCheck p now ;; ok tt) b
  end.

Definition RemoveDirCtx (b : backend) (p : string) : backend * (unit + backendError) :=
  match CanonicalizeDir nfc p with
  | inr e => (b, inr (BadPath e))
  | inl p => run (DeleteEmptyDir p) b
  end.

Definition RemoveAllCtx (b : backend) (p : string) (now : Z) : backend * (unit + backendError) :=
  match resolveNodePath (store b) p with
  | inr e => (b, inr e)
  | inl (p, node) =>
      if negb (IsDirectory node) then run (DeleteFileWithRefCheck p now ;; ok tt) b
      else run (DeleteDirRecursive p now ;; ok tt) b
  end.

Definition RenameCtx (b : backend) (oldPath newPath : string) (now : Z) : backend * (unit + backendError) :=
  match resolveNodePath (store b) oldPath with
  | inr e => (b, inr e)
  | inl (oldPath, node) =>
      let newPath := canonicalizePathForKind newPath (IsDirectory node) in
      if bool_decide (oldPath = newPath) then (b, inl tt)
      else
        andThen (EnsureParentDirsTx now newPath) (fun _ =>
          if IsDirectory node then run (RenameDir oldPath newPath ;; ok tt)
          else run (RenameFileReplacingTarget oldPath newPath (ParentPath newPath) (BaseName newPath) now ;; ok tt)) b
  end.

Definition CopyFileCtx (b : backend) (srcPath dstPath nodeID : string) (now : Z) : backend * (unit + backendError) :=
  match Canonicalize nfc srcPath, Canonicalize nfc dstPath with
  | inr e, _ => (b, inr (BadPath e))
  | _, inr e => (b, inr (BadPath e))
  | inl srcPath, inl dstPath =>
      match GetNode (store b) srcPath with
      | inr e => (b, inr (Store e))
      | inl srcNode =>
          if IsDirectory srcNode then (b, inr ErrCopyDirectory)
          else andThen (EnsureParentDirsTx now dstPath) (fun _ =>
                 run (InsertNodeTx (fileNode nodeID dstPath (FileID srcNode) now))) b
      end
  end.

(** ** Quotas *)

Definition ensureUploadSizeAllowed (size : Z) : bool :=
  if (size <=? 0) || (maxUploadBytes cfg <=? 0) then true else size <=? maxUploadBytes cfg.

(** The size of a confirmed inode. *)
Definition confirmedSize (i : inodeRow) : Z := if bool_decide (status i = StatusConfirmed) then size_bytes i else 0.

Definition ConfirmedStorageBytesTx (d : db) : Z := map_sum confirmedSize (inodes d).

(** The confirmed inode that [COALESCE(fn.inode_id, fn.file_id)] leads to. *)
Definition inodeOfNode (d : db) (r : nodeRow) : option inodeRow :=
  match (match inode_id r with Some i => Some i | None => file_id r end) with
  | None => None
  | Some id => match inodes d !! id with
               | Some i => if bool_decide (status i = StatusConfirmed) then Some i else None
               | None => None
               end
  end.

Definition activeUpload (now : Z) (u : Upload) : bool :=
  (bool_decide (UStatus u = UploadInitiated) || bool_decide (UStatus u = UploadUploading)) && (now <? UExpiresAt u).

(** What an active upload reserves beyond the file it replaces. *)
Definition reservedBytes (d : db) (now : Z) (u : Upload) : Z :=
  if activeUpload now u then
    let current := default 0 (size_bytes <$> (nodeAt d (TargetPath u) ≫= fun kv => inodeOfNode d (snd kv))) in
    if current <? TotalSize u then TotalSize u - current else 0
  else 0.

Definition ActiveUploadReservedBytesTx (d : db) (now : Z) : Z := map_sum (reservedBytes d now) (uploads d).

Definition ConfirmedFileSizeByPathTx (d : db) (p : string) : Z :=
  match nodeAt d p with
  | Some (_, r) => if is_directory r then 0 else default 0 (size_bytes <$> inodeOfNode d r)
  | None => 0
  end.

Definition isMedia (d : db) (f : string) (i : inodeRow) : bool :=
  bool_decide (status i = StatusConfirmed)
  && match contents d !! f ≫= content_type with
     | Some ct => like "image/%" ct || like "audio/%" ct
     | None => false
     end.

Definition ConfirmedMediaFileCountTx (d : db) : Z :=
  zlen (filter (fun kv => isMedia d (fst kv) (snd kv) = true) (map_to_list (inodes d))).

Definition ensureTenantStorageQuotaTx (e : env) (p : string) (newSize : Z) : tx unit :=
  if (newSize <=? 0) || (maxTenantStorageBytes cfg <=? 0) then ok tt
  else
    let* confirmed := read ConfirmedStorageBytesTx in
    let* reserved := read (fun d => ActiveUploadReservedBytesTx d (now e)) in
    let* current := read (fun d => ConfirmedFileSizeByPathTx d p) in
    throwIf (maxTenantStorageBytes cfg <? confirmed + reserved + Z.max 0 (newSize - current)) ErrStorageQuotaExceeded.

(** A central store that does not answer does not stop a write. *)
Definition ensureStorageQuotaServer (e : env) (deltaBytes : Z) : tx unit :=
  match quotaUsage e, quotaLimits e with
  | Some u, Some l =>
      throwIf ((0 <? MaxStorageBytes l) && (MaxStorageBytes l <? StorageBytes u + ReservedBytes u + deltaBytes))
        ErrStorageQuotaExceeded
  | _, _ => ok tt
  end.

Definition ensureStorageQuota (e : env) (p : string) (newSize : Z) : tx unit :=
  if useServerQuota cfg then
    let* current := read (fun d => ConfirmedFileSizeByPathTx d p) in
    if newSize - current <=? 0 then ok tt else ensureStorageQuotaServer e (newSize - current)
  else ensureTenantStorageQuotaTx e p newSize.

Definition mediaLLMQuotaExceededCheckTx (e : env) (d : db) : bool :=
  if useServerQuota cfg then
    match quotaUsage e, quotaLimits e with
    | Some u, Some l => (0 <? MaxMediaLLMFiles l) && (MaxMediaLLMFiles l <? MediaFileCount u)
    | _, _ => false
    end
  else (0 <? maxMediaLLMFiles cfg) && (maxMediaLLMFiles cfg <? ConfirmedMediaFileCountTx d).

(** ** Semantic tasks *)

Definition enqueueTaskTx (task : Queue.Task) (now : Z) : tx unit :=
  let* t := read semantic_tasks in
  match Queue.EnqueueSemanticTask t (Some task) now with
  | (t', inl _) => modify (set_tasks t')
  | (_, inr _) => throw ErrSQL
  end.

Definition enqueueEmbedTaskTx (e : env) (fileID : string) (revision : Z) : tx unit :=
  enqueueTaskTx (newEmbedTask (newTaskID e) fileID revision (now e)) (now e).

Definition hasAsyncImageTextSource (p contentType : string) : bool :=
  imageExtract cfg && (isImageContentType toLower contentType || isImageContentType toLower (contentTypeFromPath toLower p)).

Definition shouldEnqueueAudioExtractTask (p contentType : string) : bool :=
  audioExtract cfg && isAudioContentType toLower contentType p.

Definition shouldEnqueueEmbedForRevision (p contentType contentText description : string) : bool :=
  negb (bool_decide (TrimSpace contentText = "")) || negb (bool_decide (TrimSpace description = ""))
  || hasAsyncImageTextSource p contentType.

Definition enqueueTiDBAutoSemanticTasksTx (e : env) (fileID : string) (revision : Z) (p contentType : string) : tx unit :=
  let isImage := hasAsyncImageTextSource p contentType in
  let isAudio := shouldEnqueueAudioExtractTask p contentType in
  if negb isImage && negb isAudio then ok tt
  else
    let* exceeded := read (mediaLLMQuotaExceededCheckTx e) in
    if exceeded then ok tt
    else
      (if isImage then enqueueTaskTx (newImgExtractTask (newTaskID e) fileID revision p contentType (now e)) (now e)
       else ok tt) ;;
      (if isAudio
       then enqueueTaskTx (newAudioExtractTask (if isImage then newTaskID2 e else newTaskID e) fileID revision p
                             contentType (now e)) (now e)
       else ok tt).

(** The end of a write transaction. *)
Definition enqueueSemanticTx (e : env) (fileID : string) (revision : Z) (p contentType contentText descr : string)
    : tx unit :=
  if databaseAutoEmbedding cfg then enqueueTiDBAutoSemanticTasksTx e fileID revision p contentType
  else if shouldEnqueueEmbedForRevision p contentType contentText descr then enqueueEmbedTaskTx e fileID revision
  else ok tt.

(** ** Reading *)

Definition readFileDataCtx (b : backend) (f : File) : string + backendError :=
  if bool_decide (StorageType f = "s3") then
    if negb (s3 cfg) then inr ErrNoS3
    else match objects b !! StorageRef f with Some data => inl data | None => inr ErrGetObject end
  else if bool_decide (StorageType f = "db9") then inl (ContentBlob f)
  else inr ErrStorageKind.

(** [s[:n]] and [s[n:]] *)
Definition sliceTo (n : Z) (s : string) : string := String.substring 0 (Z.to_nat n) s.
Definition sliceFrom (n : Z) (s : string) : string :=
  String.substring (Z.to_nat n) (String.length s - Z.to_nat n) s.

Definition ReadCtx (b : backend) (p : string) (offset size : Z) : string + backendError :=
  match Canonicalize nfc p with
  | inr err => inr (BadPath err)
  | inl p =>
      match Stat (store b) p with
      | inr err => inr (Store err)
      | inl (node, f) =>
          if IsDirectory node then inr ErrIsDirectory
          else match f with
               | None => inr ErrNoFile
               | Some f =>
                   match readFileDataCtx b f with
                   | inr err => inr err
                   | inl data =>
                       if (0 <? offset) && (slen data <=? offset) then inr ErrEOF
                       else
                         let data := if 0 <? offset then sliceFrom offset data else data in
                         inl (if (0 <=? size) && (size <? slen data) then sliceTo size data else data)
                   end
               end
      end
  end.

(** ** Writing *)

Record writeFlags := { flagCreate : bool; flagExclusive : bool; flagAppend : bool; flagTruncate : bool }.

Definition sha256sum (data : string) : string := Sha256.hexEncode (Sha256.sum256 data).

(** Where new content is stored: inline, or under a key of object storage. *)
Record placement := { plType : string; plRef : string; plMode : string; plKeyID : string; plBlob : string }.

Definition placeContent (data blobID : string) : placement :=
  if shouldStoreInDB (slen data)
  then {| plType := "db9"; plRef := "inline"; plMode := "none"; plKeyID := ""; plBlob := data |}
  else {| plType := "s3"; plRef := "blobs/" +:+ blobID; plMode := s3Mode cfg; plKeyID := s3KeyID cfg; plBlob := "" |}.

(** The put of content that is not stored inline. *)
Definition putContent (pl : placement) (data : string) (e : env) (b : backend) : backend + backendError :=
  if bool_decide (plType pl = "s3") then
    if negb (s3 cfg) then inr ErrNoS3
    else if negb (putOK e) then inr ErrS3
    else inl (set_objects (<[plRef pl := data]> (objects b)) b)
  else inl b.

(** Take the put back after a failed transaction. *)
Definition unputContent (pl : placement) (b : backend) : backend :=
  if bool_decide (plType pl = "s3") then deleteBlob (plRef pl) b else b.

(** [ReplaceFileTagsTx] unless the tags are nil. *)
Definition replaceTags (fileID : string) (tags : option (gmap string string)) : tx unit :=
  match tags with Some tags => ReplaceFileTagsTx fileID tags | None => ok tt end.

(** The file that [createAndWriteCtx] inserts. *)
Definition createdFile (e : env) (pl : placement) (p data descr : string) : File :=
  let contentType := detectContentType typeByExtension p data in
  {| FFileID := newFileID e; StorageType := plType pl; StorageRef := plRef pl; StorageEncryptionMode := plMode pl;
     StorageEncryptionKeyID := plKeyID pl; ContentBlob := plBlob pl; ContentType := contentType;
     SizeBytes := slen data; ChecksumSHA256 := sha256sum data; Revision := 1; Mode := 0; EmbeddingRevision := None;
     Status := StatusConfirmed; SourceID := "";
     ContentText := extractText data contentType (textExtractMaxBytes cfg); Description := descr;
     DescriptionEmbeddingRevision :=
       if databaseAutoEmbedding cfg && negb (bool_decide (descr = "")) then Some 1 else None;
     FCreatedAt := now e; ConfirmedAt := Some (now e); ExpiresAt := None |}.

Definition createAndWriteTx (e : env) (pl : placement) (p data : string) (tags : option (gmap string string))
    (descr : string) : tx unit :=
  let f := createdFile e pl p data descr in
  ensureStorageQuota e p (slen data) ;;
  InsertFileTx f (now e) ;;
  EnsureParentDirsTx (now e) p ;;
  InsertNodeTx (fileNode (newNodeID e) p (newFileID e) (now e)) ;;
  replaceTags (newFileID e) tags ;;
  enqueueSemanticTx e (newFileID e) 1 p (ContentType f) (ContentText f) descr.

Definition createAndWriteCtx (b : backend) (e : env) (p data : string) (tags : option (gmap string string))
    (descr : string) : backend * (Z + backendError) :=
  if negb (ensureUploadSizeAllowed (slen data)) then (b, inr ErrUploadTooLarge)
  else
    let pl := placeContent data (newFileID e) in
    match putContent pl data e b with
    | inr err => (b, inr err)
    | inl b =>
        match run (createAndWriteTx e pl p data tags descr) b with
        | (b, inl _) => (b, inl (slen data))
        | (b, inr err) => (unputContent pl b, inr err)
        end
    end.

(** [make([]byte, n)] *)
Definition zeros (n : Z) : string := Nat.iter (Z.to_nat n) (String (ascii_of_nat 0)) "".

(** The new contents of a file that is written to. *)
Definition finalData (b : backend) (f : File) (data : string) (offset : Z) (flags : writeFlags) : string + backendError :=
  if flagAppend flags then
    match readFileDataCtx b f with
    | inl existing => inl (existing +:+ data)
    | inr err => inr err
    end
  else if flagTruncate flags || (offset <=? 0) then inl data
  else match readFileDataCtx b f with
       | inr err => inr err
       | inl existing =>
           let existing := if slen existing <? offset then existing +:+ zeros (offset - slen existing) else existing in
           let end_ := offset + slen data in
           inl (sliceTo offset existing +:+ data
                +:+ (if end_ <? slen existing then sliceFrom end_ existing else ""))
       end.

(** [deleteBlobIfS3Ctx].  Where object GC is configured the candidate is recorded; an error
    of the server's database, which the source logs and otherwise ignores, would leave the
    candidate out, and the object would stay stored. *)
Definition deleteBlobIfS3 (storageType storageRef keepRef : string) (b : backend) : backend :=
  if negb (bool_decide (storageType = "s3")) || bool_decide (storageRef = "") || bool_decide (storageRef = keepRef)
  then b
  else if objectGC cfg
  then {| store := store b; objects := objects b; candidates := candidates b ++ [storageRef] |}
  else b.

Definition overwriteTx (e : env) (pl : placement) (node : FileNode) (f : File) (data : string) (expectedRevision : Z)
    (tags : option (gmap string string)) (descr : string) : tx Z :=
  let contentType := detectContentType typeByExtension (Path node) data in
  let contentText := extractText data contentType (textExtractMaxBytes cfg) in
  let u := {| uStorageType := plType pl; uStorageRef := plRef pl; uContentType := contentType;
              uChecksum := sha256sum data; uContentText := contentText; uContentBlob := plBlob pl;
              uSize := slen data; uDescription := descr |} in
  ensureStorageQuota e (Path node) (slen data) ;;
  let* newRev := updateFileContentTx (FFileID f) (Z.max 0 expectedRevision) (databaseAutoEmbedding cfg) u (now e) in
  UpdateFileStorageEncryptionTx (FFileID f) (plMode pl) (plKeyID pl) ;;
  replaceTags (FFileID f) tags ;;
  enqueueSemanticTx e (FFileID f) newRev (Path node) contentType contentText descr ;;
  ok newRev.

Definition overwriteFileCtxWithRev (b : backend) (e : env) (node : FileNode) (f : File) (data : string) (offset : Z)
    (flags : writeFlags) (expectedRevision : Z) (tags : option (gmap string string)) (descr : string)
    : backend * (Z * Z + backendError) :=
  match finalData b f data offset flags with
  | inr err => (b, inr err)
  | inl final =>
      if negb (ensureUploadSizeAllowed (slen final)) then (b, inr ErrUploadTooLarge)
      else
        let pl := placeContent final (newBlobID e) in
        match putContent pl final e b with
        | inr err => (b, inr err)
        | inl b =>
            match run (overwriteTx e pl node f final expectedRevision tags descr) b with
            | (b, inr err) => (unputContent pl b, inr err)
            | (b, inl newRev) =>
                (deleteBlobIfS3 (StorageType f) (StorageRef f) (plRef pl) b, inl (slen data, newRev))
            end
        end
  end.

(** The write itself, after the file has been looked up. *)
Definition writeFound (b : backend) (e : env) (node : FileNode) (file : option File) (data : string) (offset : Z)
    (flags : writeFlags) (expectedRevision : Z) (tags : option (gmap string string)) (descr : string)
    : backend * (Z * Z + backendError) :=
  if expectedRevision =? 0 then (b, inr (Store ErrRevisionConflict))
  else if IsDirectory node then (b, inr ErrIsDirectory)
  else if flagExclusive flags then (b, inr ErrFileExists)
  else match file with
       | None => (b, inr (if 0 <? expectedRevision then Store ErrRevisionConflict else ErrNoFile))
       | Some f =>
           if (0 <? expectedRevision) && negb (Revision f =? expectedRevision)
           then (b, inr (Store ErrRevisionConflict))
           else overwriteFileCtxWithRev b e node f data offset flags expectedRevision tags descr
       end.

Definition writeMissing (b : backend) (e : env) (p data : string) (flags : writeFlags) (expectedRevision : Z)
    (tags : option (gmap string string)) (descr : string) : backend * (Z * Z + backendError) :=
  if 0 <? expectedRevision then (b, inr (Store ErrRevisionConflict))
  else if negb (flagCreate flags)
  then (b, inr (Store (if expectedRevision =? 0 then ErrRevisionConflict else ErrNotFound)))
  else match createAndWriteCtx b e p data tags descr with
       | (b, inl n) => (b, inl (n, 1))
       | (b, inr (Store ErrPathConflict)) =>
           (b, inr (Store (if expectedRevision =? 0 then ErrRevisionConflict else ErrPathConflict)))
       | (b, inr err) => (b, inr err)
       end.

(** [WriteCtxIfRevisionWithTagsResult]: the bytes written and the new revision. *)
Definition WriteCtx (b : backend) (e : env) (p data : string) (offset : Z) (flags : writeFlags) (expectedRevision : Z)
    (tags : option (gmap string string)) (descr : string) : backend * (Z * Z + backendError) :=
  match Canonicalize nfc p with
  | inr err => (b, inr (BadPath err))
  | inl p =>
      match Stat (store b) p with
      | inr ErrNotFound => writeMissing b e p data flags expectedRevision tags descr
      | inr err => (b, inr (Store err))
      | inl (node, file) => writeFound b e node file data offset flags expectedRevision tags descr
      end
  end.

End backend.

End Backend.
