(* ===== verification/BackendSafety.v ===== *)
(** * What every file operation keeps

    The invariant of [FileSafety] under the operations of [Backend]. *)

From S2P Require Import Prelude GoStrings PathUtil SemanticQueue FileGCQueue FileStore FileRules FileSafety Media Backend.

Import GoStr Paths FileStore FileRules FileSafety Media Backend.

Module BackendSafety.

Section ops.
Context (nfc typeByExtension toLower : string -> string) (cfg : config).

Lemma run_ok {A} (m : tx A) b :
  filesOk (store b) -> wp m (fun _ => filesOk) (store b) -> filesOk (store (fst (run m b))).
Proof.
  intros H Hm. unfold run, InTx. unfold wp in Hm. by destruct (m (store b)) as [[d' a]|e].
Qed.

Lemma andThen_ok {A B} (m : tx A) (k : A -> backend -> backend * (B + backendError)) b :
  filesOk (store b) -> wp m (fun _ => filesOk) (store b) ->
  (forall a b', filesOk (store b') -> filesOk (store (fst (k a b')))) -> filesOk (store (fst (andThen m k b))).
Proof.
  intros H Hm Hk. pose proof (run_ok m b H Hm) as Hr. unfold andThen.
  destruct (run m b) as [b' [a|e]]; cbn in *; auto.
Qed.

(** A transaction whose result is dropped. *)
Lemma wp_drop {A} (m : tx A) (I : db -> Prop) d : wp m (fun _ => I) d -> wp (m ;; ok tt) (fun _ => I) d.
Proof. intros H. wp_steps. wp_apply H. intros a d' H'. by wp_steps. Qed.

(** A new file together with its entry. *)
Lemma newFile_ok {A} fl now p nodeID (k : tx A) Q d :
  filesOk d -> Status fl = StatusConfirmed -> FFileID fl <> "" -> (forall d', filesOk d' -> wp k Q d') ->
  wp (InsertFileTx fl now ;; EnsureParentDirsTx now p ;; InsertNodeTx (fileNode nodeID p (FFileID fl) now) ;; k) Q d.
Proof.
  intros H Hs Hf Hk. wp_steps. wp_apply InsertFileTx_ok; [done|by rewrite Hs|by rewrite Hs|].
  intros [] d1 (H1 & _ & Hc). wp_steps.
  wp_apply wp_and; [by apply EnsureParentDirsTx_ok|apply EnsureParentDirsTx_frame|].
  intros [] d2 [H2 (Ec & _)]. wp_steps. wp_apply InsertNodeTx_ok; [done|done|right; cbn; by rewrite Ec|].
  intros [] d3 H3. apply Hk. eapply filesOk_weaken; [done|]. cbn. unfold nullStr.
  rewrite bool_decide_false by done. intros f [[[]|[-> _]] Hn]. by apply Hn.
Qed.

Lemma createTx_ok p fileID nodeID now d :
  filesOk d -> fileID <> "" -> wp (createTx cfg p fileID nodeID now) (fun _ => filesOk) d.
Proof.
  intros H Hf. unfold createTx.
  pose proof (newFile_ok (emptyFile cfg fileID now) now p nodeID (ok tt) (fun _ => filesOk) d H eq_refl Hf
    (fun _ H => H)) as Hw.
  revert Hw. unfold wp, bind, emptyFile. cbn [FFileID]. 
  destruct (InsertFileTx _ now d) as [[d1 []]|]; [|done]. destruct (EnsureParentDirsTx now p d1) as [[d2 []]|]; [|done].
  by destruct (InsertNodeTx _ d2) as [[d3 []]|].
Qed.

Lemma store_deleteBlob ref b : store (deleteBlob cfg ref b) = store b.
Proof. unfold deleteBlob. by case_if. Qed.

Lemma CreateCtx_ok b p fileID nodeID put now :
  filesOk (store b) -> fileID <> "" -> filesOk (store (fst (CreateCtx nfc cfg b p fileID nodeID put now))).
Proof.
  intros H Hf. unfold CreateCtx. destruct (Canonicalize nfc p) as [q|]; [|done].
  case_if; [by apply run_ok, createTx_ok|]. case_if; [done|]. case_if; [done|].
  set (b' := set_objects _ b). pose proof (run_ok (createTx cfg q fileID nodeID now) b' H
    (createTx_ok q fileID nodeID now _ H Hf)) as Hr.
  destruct (run _ b') as [b1 [u|err]]; cbn in *; [done|]. by rewrite store_deleteBlob.
Qed.

Lemma MkdirCtx_ok b p perm inodeID nodeID now :
  filesOk (store b) -> filesOk (store (fst (MkdirCtx nfc b p perm inodeID nodeID now))).
Proof.
  intros H. unfold MkdirCtx. destruct (CanonicalizeDir nfc p) as [q|]; [|done].
  apply andThen_ok; [done|by apply EnsureParentDirsTx_ok|]. intros [] b' H'. apply run_ok; [done|]. wp_steps.
  wp_apply insertInodeRow_ok; [done..|]. intros [] d' H2. wp_apply InsertNodeTx_ok; [done|done|by left|].
  intros [] d2 H3. eapply filesOk_weaken; [done|]. by intros f [].
Qed.

Lemma ChmodCtx_ok b p m : filesOk (store b) -> filesOk (store (fst (ChmodCtx nfc b p m))).
Proof.
  intros H. unfold ChmodCtx. destruct (resolveNodePath nfc (store b) p) as [[q n]|]; [|done]. by apply run_ok, Chmod_ok.
Qed.

Lemma removeFile_ok p now b :
  filesOk (store b) -> filesOk (store (fst (run (DeleteFileWithRefCheck p now ;; ok tt) b))).
Proof. intros H. by apply run_ok, wp_drop, DeleteFileWithRefCheck_ok. Qed.

Lemma RemoveCtx_ok b p now : filesOk (store b) -> filesOk (store (fst (RemoveCtx nfc b p now))).
Proof.
  intros H. unfold RemoveCtx. destruct (resolveNodePath nfc (store b) p) as [[q n]|]; [|done].
  case_if; [by apply run_ok, DeleteEmptyDir_ok|by apply removeFile_ok].
Qed.

Lemma RemoveFileCtx_ok b p now : filesOk (store b) -> filesOk (store (fst (RemoveFileCtx nfc b p now))).
Proof.
  intros H. unfold RemoveFileCtx. destruct (Canonicalize nfc p); [by apply removeFile_ok|done].
Qed.

Lemma RemoveDirCtx_ok b p : filesOk (store b) -> filesOk (store (fst (RemoveDirCtx nfc b p))).
Proof.
  intros H. unfold RemoveDirCtx. destruct (CanonicalizeDir nfc p); [by apply run_ok, DeleteEmptyDir_ok|done].
Qed.

Lemma RemoveAllCtx_ok b p now : filesOk (store b) -> filesOk (store (fst (RemoveAllCtx nfc b p now))).
Proof.
  intros H. unfold RemoveAllCtx. destruct (resolveNodePath nfc (store b) p) as [[q n]|]; [|done].
  case_if; [by apply removeFile_ok|by apply run_ok, wp_drop, DeleteDirRecursive_ok].
Qed.

Lemma RenameCtx_ok b p q now : filesOk (store b) -> filesOk (store (fst (RenameCtx nfc b p q now))).
Proof.
  intros H. unfold RenameCtx. destruct (resolveNodePath nfc (store b) p) as [[p' n]|]; [|done].
  case_if; [done|]. apply andThen_ok; [done|by apply EnsureParentDirsTx_ok|]. intros [] b' H'. case_if.
  - by apply run_ok, wp_drop, RenameDir_ok.
  - by apply run_ok, wp_drop, RenameFileReplacingTarget_ok.
Qed.

Lemma GetNode_live d p n : filesOk d -> GetNode d p = inl n -> FileID n <> "" -> live d (FileID n).
Proof.
  intros H Hg Hf. unfold GetNode in Hg. destruct (nodeAt d p) as [[id r]|] eqn:Hn; [|done]. simplify_eq/=.
  apply nodeAt_spec in Hn as [Hr _]. destruct (file_id r) as [f|] eqn:E; [|done].
  by apply (nodes_ok _ _ H id r Hr).
Qed.

Lemma GetNode_file d p n :
  filesOk d -> GetNode d p = inl n -> IsDirectory n = false -> FileID n <> "" /\ live d (FileID n).
Proof.
  intros H Hg Hdir. assert (FileID n <> "") as Hf; [|split; [done|by eapply GetNode_live]].
  unfold GetNode in Hg. destruct (nodeAt d p) as [[id r]|] eqn:Hn; [|done]. simplify_eq/=.
  apply nodeAt_spec in Hn as [Hr _]. destruct (nodes_ok _ _ H id r Hr) as [Hd Hl].
  destruct (file_id r) as [f|]; [by apply Hl|]. by rewrite (proj2 Hd) in Hdir.
Qed.

Lemma CopyFileCtx_ok b p q nodeID now :
  filesOk (store b) -> filesOk (store (fst (CopyFileCtx nfc b p q nodeID now))).
Proof.
  intros H. unfold CopyFileCtx. destruct (Canonicalize nfc p) as [p'|]; [|done].
  destruct (Canonicalize nfc q) as [q'|]; [|done]. destruct (GetNode (store b) p') as [n|] eqn:Hn; [|done].
  case_if; [done|]. destruct (GetNode_file _ _ _ H Hn Eif) as [Hf Hl]. unfold andThen.
  assert (wp (EnsureParentDirsTx now q') (fun _ d' => filesOk d' /\ contents d' = contents (store b)) (store b)) as Hw.
  { wp_apply wp_and; [by apply EnsureParentDirsTx_ok|apply EnsureParentDirsTx_frame|]. by intros [] d' [? (? & _)]. }
  unfold wp in Hw. unfold run at 1, InTx. destruct (EnsureParentDirsTx now q' (store b)) as [[d1 []]|]; [|done].
  destruct Hw as [H1 Ec]. apply run_ok; [done|]. wp_apply InsertNodeTx_ok; [done|done| |].
  - right. cbn. rewrite Ec. destruct Hl as (? & c & _ & -> & _). eauto.
  - intros [] d2 H2. eapply filesOk_weaken; [done|]. by intros f [].
Qed.

(** ** Writes *)

Lemma filesOk_tasks X v d : filesOkBut X d -> filesOkBut X (set_tasks v d).
Proof. intros []; by split. Qed.

Lemma ensureStorageQuota_wp e p n (Q : unit -> db -> Prop) d : Q tt d -> wp (ensureStorageQuota cfg e p n) Q d.
Proof.
  intros H. unfold ensureStorageQuota, ensureTenantStorageQuotaTx, ensureStorageQuotaServer.
  repeat (case_if || case_match || wp_step); done.
Qed.

Lemma insertTag_ok X f kv d : filesOkBut X d -> wp (insertTag f kv) (fun _ => filesOkBut X) d.
Proof. intros H. unfold insertTag. wp_steps. by apply filesOk_tags. Qed.

Lemma replaceTags_ok X f tags d : filesOkBut X d -> wp (replaceTags f tags) (fun _ => filesOkBut X) d.
Proof.
  intros H. destruct tags as [tags|]; [|by wp_steps]. cbn. unfold ReplaceFileTagsTx. wp_steps.
  apply wp_forEach_inv; [|by apply filesOk_tags]. intros kv d' _ H'. by apply insertTag_ok.
Qed.

Lemma enqueueTaskTx_ok X task now d : filesOkBut X d -> wp (enqueueTaskTx task now) (fun _ => filesOkBut X) d.
Proof.
  intros H. unfold enqueueTaskTx. wp_steps. destruct (Queue.EnqueueSemanticTask _ _ _) as [t [|]]; wp_steps.
  by apply filesOk_tasks.
Qed.

Lemma enqueueSemanticTx_ok X e f rev p ct text descr d :
  filesOkBut X d -> wp (enqueueSemanticTx toLower cfg e f rev p ct text descr) (fun _ => filesOkBut X) d.
Proof.
  intros H. unfold enqueueSemanticTx, enqueueTiDBAutoSemanticTasksTx, enqueueEmbedTaskTx.
  repeat first [case_if | progress wp_steps]; try done; try by apply enqueueTaskTx_ok.
  all: wp_apply enqueueTaskTx_ok; [done|]; intros [] d' H'; wp_steps; try done; by apply enqueueTaskTx_ok.
Qed.

Lemma createAndWriteTx_ok e pl p data tags descr d :
  filesOk d -> newFileID e <> "" ->
  wp (createAndWriteTx typeByExtension toLower cfg e pl p data tags descr) (fun _ => filesOk) d.
Proof.
  intros H Hf. unfold createAndWriteTx. wp_step. apply ensureStorageQuota_wp.
  apply (newFile_ok (createdFile typeByExtension cfg e pl p data descr)); [done|done|done|].
  intros d1 H1. wp_steps. wp_apply replaceTags_ok; [done|]. intros [] d2 H2. by apply enqueueSemanticTx_ok.
Qed.

Lemma store_unput pl b : store (unputContent cfg pl b) = store b.
Proof. unfold unputContent. case_if; [apply store_deleteBlob|done]. Qed.

Lemma putContent_store pl data e b b' : putContent cfg pl data e b = inl b' -> store b' = store b.
Proof. unfold putContent. repeat case_if; by intros [= <-]. Qed.

Lemma createAndWriteCtx_ok b e p data tags descr :
  filesOk (store b) -> newFileID e <> "" ->
  filesOk (store (fst (createAndWriteCtx typeByExtension toLower cfg b e p data tags descr))).
Proof.
  intros H Hf. unfold createAndWriteCtx. case_if; [done|]. set (pl := placeContent _ _ _).
  destruct (putContent cfg pl data e b) as [b1|] eqn:Hp; [|done]. apply putContent_store in Hp. rewrite <- Hp in H.
  pose proof (run_ok _ b1 H (createAndWriteTx_ok e pl p data tags descr _ H Hf)) as Hr.
  destruct (run _ b1) as [b2 [u|err]]; cbn in *; [done|]. by rewrite store_unput.
Qed.

Lemma overwriteTx_ok e pl node f data expected tags descr d :
  filesOk d -> live d (FFileID f) ->
  wp (overwriteTx typeByExtension toLower cfg e pl node f data expected tags descr) (fun _ => filesOk) d.
Proof.
  intros H Hl. unfold overwriteTx. wp_step. apply ensureStorageQuota_wp. wp_step.
  wp_apply wp_and; [by apply updateFileContentTx_ok|by apply live_after_update|]. intros rev d1 [H1 Hl1]. wp_steps.
  wp_apply UpdateFileStorageEncryptionTx_ok; [done..|]. intros [] d2 H2. wp_steps.
  wp_apply replaceTags_ok; [done|]. intros [] d3 H3. wp_steps.
  wp_apply enqueueSemanticTx_ok; [done|]. intros [] d4 H4. by wp_steps.
Qed.

Lemma store_deleteBlobIfS3 t r k b : store (deleteBlobIfS3 cfg t r k b) = store b.
Proof. unfold deleteBlobIfS3. by repeat case_if. Qed.

Lemma overwriteFileCtxWithRev_ok b e node f data offset flags expected tags descr :
  filesOk (store b) -> live (store b) (FFileID f) ->
  filesOk (store (fst (overwriteFileCtxWithRev typeByExtension toLower cfg b e node f data offset flags expected tags descr))).
Proof.
  intros H Hl. unfold overwriteFileCtxWithRev. destruct (finalData _ _ _ _ _ _) as [final|]; [|done].
  case_if; [done|]. set (pl := placeContent _ _ _).
  destruct (putContent cfg pl final e b) as [b1|] eqn:Hp; [|done]. apply putContent_store in Hp.
  rewrite <- Hp in H, Hl.
  pose proof (run_ok _ b1 H (overwriteTx_ok e pl node f final expected tags descr _ H Hl)) as Hr.
  destruct (run _ b1) as [b2 [rev|err]]; cbn in *; [by rewrite store_deleteBlobIfS3|by rewrite store_unput].
Qed.

Lemma Stat_live d p n f :
  filesOk d -> Stat d p = inl (n, Some f) -> FFileID f = FileID n /\ FileID n <> "" /\ live d (FileID n).
Proof.
  intros H. unfold Stat. destruct (GetNode d p) as [n'|] eqn:Hn; [|done]. case_if; [|done]. bool_prop.
  destruct (GetFile d (FileID n')) as [f'|] eqn:Hf; [|done]. intros [= <- <-].
  assert (FFileID f' = FileID n') as ->.
  { unfold GetFile in Hf. repeat case_match; simplify_eq. done. }
  split_and!; [done..|]. by eapply GetNode_live.
Qed.

Lemma WriteCtx_ok b e p data offset flags expected tags descr :
  filesOk (store b) -> newFileID e <> "" ->
  filesOk (store (fst (WriteCtx nfc typeByExtension toLower cfg b e p data offset flags expected tags descr))).
Proof.
  intros H Hf. unfold WriteCtx. destruct (Canonicalize nfc p) as [q|]; [|done].
  destruct (Stat (store b) q) as [[n o]|err] eqn:Hs.
  - unfold writeFound. repeat (case_if; [done|]). destruct o as [f|]; [|done]. case_if; [done|].
    destruct (Stat_live _ _ _ _ H Hs) as (E & _ & Hl). apply overwriteFileCtxWithRev_ok; [done|]. by rewrite E.
  - destruct err; try done. unfold writeMissing. repeat (case_if; [done|]).
    pose proof (createAndWriteCtx_ok b e q data tags descr H Hf) as Hc.
    destruct (createAndWriteCtx _ _ _ _ _ _ _ _ _) as [b' [k|[[]|?| | | | | | | | | |]]]; done.
Qed.

End ops.

End BackendSafety.
