(* ===== verification/BackendContent.v ===== *)
(** * What a write stores

    A write through [Backend.WriteCtx] and the reads that follow: the new content under
    every name of the file, nothing else changed, and revisions that let only one of
    several conditional writers through. *)

From Stdlib Require Import Strings.Ascii.
From S2P Require Import Prelude GoStrings PathUtil Json Sha256 SemanticQueue FileGCQueue FileStore FileRules FileSafety.
From S2P Require Import Media Backend BackendSafety.

Import GoStr Paths FileStore FileRules FileSafety Media Backend BackendSafety.

Module Content.

#[local] Arguments String.append !_ _ / : simpl nomatch.

Section content.
Context (nfc typeByExtension toLower : string -> string) (cfg : config).

(** ** Reading *)

(** The bytes that a content row stands for. *)
Definition contentData (objs : gmap string string) (c : contentRow) : string + backendError :=
  if bool_decide (storage_type c = "s3") then
    if negb (s3 cfg) then inr ErrNoS3
    else match objs !! storage_ref c with Some data => inl data | None => inr ErrGetObject end
  else if bool_decide (storage_type c = "db9") then inl (default "" (content_blob c))
  else inr ErrStorageKind.

Definition fileData (b : backend) (f : string) : string + backendError :=
  match contents (store b) !! f with
  | Some c => contentData (objects b) c
  | None => inr ErrNoFile
  end.

Lemma nodeAt_unique d p id r :
  pathsUnique (file_nodes d) -> file_nodes d !! id = Some r -> path r = p -> nodeAt d p = Some (id, r).
Proof.
  intros Hu Hr Hp. unfold nodeAt.
  assert ((id, r) ∈ filter (fun kv => path (snd kv) = p) (map_to_list (file_nodes d))) as Hin.
  { apply list_elem_of_filter. by rewrite elem_of_map_to_list. }
  destruct (filter _ _) as [|[id' r'] l] eqn:E; [by apply elem_of_nil in Hin|]. cbn. f_equal.
  assert ((id', r') ∈ filter (fun kv => path (snd kv) = p) (map_to_list (file_nodes d))) as Hin' by (rewrite E; left).
  apply list_elem_of_filter in Hin' as [Hp' Hin']. apply elem_of_map_to_list in Hin'. cbn in Hp'.
  assert (id' = id) as -> by (eapply Hu; [done..|congruence]). by simplify_eq.
Qed.

Lemma file_not_dir d r f : nodeOk d r -> file_id r = Some f -> is_directory r = false.
Proof. intros [Hd _] Hf. destruct (is_directory r); [|done]. rewrite (proj1 Hd) in Hf; done. Qed.

Lemma Stat_file d p id r f :
  filesOk d -> nodeAt d p = Some (id, r) -> file_id r = Some f ->
  exists i c s, inodes d !! f = Some i /\ contents d !! f = Some c /\ status i = StatusConfirmed
    /\ Stat d p = inl (scanNode (id, r), Some (assembleFile f i (Some c) (Some s))).
Proof.
  intros H Hn Hf. pose proof (nodeAt_spec _ _ _ _ Hn) as [Hr _].
  pose proof (nodes_ok _ _ H id r Hr) as Hok. pose proof (file_not_dir _ _ _ Hok Hf) as Hd. destruct Hok as [_ Hl].
  destruct (Hl f Hf) as [Hf0 (i & c & Hi & Hc & Hs)]. destruct (semantic_row _ _ H f c Hc) as [s Hsem].
  exists i, c, s. split_and!; try done. unfold Stat, GetNode. rewrite Hn. cbn. rewrite Hf, Hd.
  change (default "" (Some f)) with f. rewrite bool_decide_false by done. cbn.
  unfold GetFile. by rewrite Hi, Hc, Hsem.
Qed.

(** A whole file that is read by one of its names. *)
Lemma ReadCtx_whole b p q id r f :
  filesOk (store b) -> Canonicalize nfc p = inl q -> nodeAt (store b) q = Some (id, r) -> file_id r = Some f ->
  ReadCtx nfc cfg b p 0 (-1) = fileData b f.
Proof.
  intros H Hp Hn Hf. destruct (Stat_file _ _ _ _ _ H Hn Hf) as (i & c & s & _ & Hc & _ & E).
  unfold ReadCtx, fileData. rewrite Hp, E, Hc. cbn.
  pose proof (nodeAt_spec _ _ _ _ Hn) as [Hr _]. rewrite (file_not_dir _ _ _ (nodes_ok _ _ H id r Hr) Hf).
  unfold readFileDataCtx, contentData. cbn. repeat case_match; done.
Qed.

(** ** Overwriting *)

(** The content of [f] is where [pl] says, and no other content or entry has changed. *)
Definition storedAt (pl : placement) (f : string) (d d' : db) : Prop :=
  (exists c, contents d' !! f = Some c /\ storage_type c = plType pl /\ storage_ref c = plRef pl
     /\ default "" (content_blob c) = plBlob pl)
  /\ forall g, g <> f -> contents d' !! g = contents d !! g.

Lemma nullStr_default s : default "" (nullStr s) = s.
Proof. unfold nullStr. by case_bool_decide. Qed.

Lemma encryption_stored pl f m k d0 d :
  storedAt pl f d0 d -> wp (UpdateFileStorageEncryptionTx f m k) (fun _ d' => storedAt pl f d0 d') d.
Proof.
  intros [(c & Hc & E1 & E2 & E3) Ho]. unfold UpdateFileStorageEncryptionTx, updateLegacy, updateContent. wp_steps.
  split; cbn.
  - rewrite lookup_alter_eq, Hc. by eexists.
  - intros g Hne. rewrite lookup_alter_ne by done. by apply Ho.
Qed.

Lemma keeps_contents_tags f tags : keeps contents (replaceTags f tags).
Proof. unfold replaceTags, ReplaceFileTagsTx, insertTag. keeps_tac. Qed.

Lemma keeps_contents_semantic e f rev p ct text descr :
  keeps contents (enqueueSemanticTx toLower cfg e f rev p ct text descr).
Proof.
  unfold enqueueSemanticTx, enqueueTiDBAutoSemanticTasksTx, enqueueEmbedTaskTx, enqueueTaskTx. keeps_tac.
Qed.

Lemma stored_keeps {A} pl f d0 (m : tx A) d :
  keeps contents m -> storedAt pl f d0 d -> wp m (fun _ d' => storedAt pl f d0 d') d.
Proof. intros Hk Hs. wp_apply Hk. intros a d' E. unfold storedAt. by rewrite E. Qed.

Lemma keeps_nodes_overwrite e pl node f data expected tags descr :
  keeps file_nodes (overwriteTx typeByExtension toLower cfg e pl node f data expected tags descr).
Proof.
  unfold overwriteTx, ensureStorageQuota, ensureTenantStorageQuotaTx, ensureStorageQuotaServer, updateFileContentTx,
    updateLegacyContentTx, UpdateInodeContentTx, UpdateContentTx, updateInode, updateContent, updateSemanticNoEmbedTx,
    UpdateSemanticTx, updateSemantic, UpdateFileStorageEncryptionTx, updateLegacy, updateContent, replaceTags,
    ReplaceFileTagsTx, insertTag, enqueueSemanticTx, enqueueTiDBAutoSemanticTasksTx, enqueueEmbedTaskTx, enqueueTaskTx.
  keeps_tac.
Qed.

(** What is left of a write's transaction after the content has been updated. *)
Definition overwriteRest (e : env) (f m k : string) (tags : option (gmap string string)) (rev : Z)
    (p ct text descr : string) : tx Z :=
  UpdateFileStorageEncryptionTx f m k ;;
  replaceTags f tags ;;
  enqueueSemanticTx toLower cfg e f rev p ct text descr ;;
  ok rev.

Lemma keeps_inodes_rest e f m k tags rev p ct text descr :
  keeps inodes (overwriteRest e f m k tags rev p ct text descr).
Proof.
  unfold overwriteRest, UpdateFileStorageEncryptionTx, updateLegacy, updateContent, replaceTags, ReplaceFileTagsTx,
    insertTag, enqueueSemanticTx, enqueueTiDBAutoSemanticTasksTx, enqueueEmbedTaskTx, enqueueTaskTx.
  keeps_tac.
Qed.

Lemma encryption_rest_stored e pl f m k tags rev p ct text descr d0 d :
  storedAt pl f d0 d ->
  wp (overwriteRest e f m k tags rev p ct text descr) (fun rev' d' => storedAt pl f d0 d' /\ rev' = rev) d.
Proof.
  intros H. unfold overwriteRest. wp_step. wp_apply (encryption_stored pl f m k d0); [done|]. intros [] d2 H2. wp_steps.
  wp_apply stored_keeps; [apply keeps_contents_tags|done|]. intros [] d3 H3. wp_steps.
  wp_apply stored_keeps; [apply keeps_contents_semantic|done|]. intros [] d4 H4. by wp_steps.
Qed.

Lemma overwriteTx_stored e pl node f data expected tags descr d i :
  filesOk d -> live d (FFileID f) -> inodes d !! FFileID f = Some i ->
  wp (overwriteTx typeByExtension toLower cfg e pl node f data expected tags descr)
    (fun rev d' => storedAt pl (FFileID f) d d' /\ rev = revision i + 1
       /\ (0 < expected -> revision i = expected)
       /\ revision <$> inodes d' !! FFileID f = Some rev) d.
Proof.
  intros H Hl Hi. unfold overwriteTx. wp_step. apply ensureStorageQuota_wp. wp_step.
  destruct Hl as (i' & c & Hi' & Hc & Hs). rewrite Hi in Hi'. injection Hi' as <-.
  match goal with |- wp (updateFileContentTx ?g ?x ?p ?u ?t) _ _ =>
    destruct (updateFileContentTx_exact _ g i c x p u t d H Hi Hc Hs) as (l & _ & E) end.
  unfold wp at 1. rewrite E. clear E. case_if; [done|].
  assert (0 < expected -> revision i = expected) as Hrev.
  { intros Hpos. rewrite Z.max_r in Eif by lia. apply andb_false_iff in Eif as [Eif|Eif]; bool_prop; lia. }
  wp_apply wp_and; [apply (keeps_inodes_rest e (FFileID f))|apply (encryption_rest_stored e pl (FFileID f) _ _ _ _ _ _ _ _ d)|].
  { split; cbn.
    - rewrite lookup_insert_eq. eexists. split_and!; try done. cbn. apply nullStr_default.
    - intros g Hg. by rewrite lookup_insert_ne. }
  cbn. intros rev d2 [E2 [H2 ->]]. rewrite E2, lookup_insert_eq. done.
Qed.

(** ** The bytes of a write *)

Abbreviation chars := String.list_ascii_of_string.

Lemma chars_app a b : chars (a +:+ b) = chars a ++ chars b.
Proof. induction a as [|c a IH]; [done|]. simpl. by rewrite IH. Qed.

Lemma chars_length s : length (chars s) = String.length s.
Proof. induction s as [|c s IH]; [done|]. cbn. by rewrite IH. Qed.

Lemma chars_substring n m s : chars (String.substring n m s) = take m (drop n (chars s)).
Proof.
  revert n m. induction s as [|c s IH]; intros n m; [by destruct n, m|].
  destruct n as [|n]; [|cbn; by rewrite IH]. destruct m as [|m]; [done|]. cbn. by rewrite IH.
Qed.

Lemma chars_zeros n : chars (zeros n) = replicate (Z.to_nat n) (ascii_of_nat 0).
Proof. unfold zeros. induction (Z.to_nat n) as [|k IH]; [done|]. cbn. f_equal. exact IH. Qed.

(** A write of [data] at [off] into [old]: the bytes of [data] in its range, zeros in a
    gap before it, and the old bytes elsewhere. *)
Definition overlays (old data final : string) (off : nat) : Prop :=
  forall i, chars final !! i =
    if decide (i < off)%nat then Some (default (ascii_of_nat 0) (chars old !! i))
    else if decide (i < off + String.length data)%nat then chars data !! (i - off)%nat
    else chars old !! i.

Lemma finalData_overlays b f data offset flags old final :
  readFileDataCtx cfg b f = inl old -> flagAppend flags = false -> flagTruncate flags = false -> 0 < offset ->
  finalData cfg b f data offset flags = inl final -> overlays old data final (Z.to_nat offset).
Proof.
  intros Hr Ha Ht Ho. unfold finalData. rewrite Ha, Ht, Hr, (proj2 (Z.leb_gt offset 0) Ho). cbn [orb].
  set (pad := if slen old <? offset then old +:+ zeros (offset - slen old) else old). intros [= <-].
  set (n := Z.to_nat offset).
  assert (forall i, chars pad !! i = match chars old !! i with
      Some c => Some c | None => if decide (i < n)%nat then Some (ascii_of_nat 0) else None end) as Hpad.
  { intros i. unfold pad. destruct (slen old <? offset) eqn:E; bool_prop; unfold slen in E.
    - rewrite chars_app, chars_zeros. destruct (chars old !! i) as [c|] eqn:Hi; [by apply lookup_app_l_Some|].
      apply lookup_ge_None in Hi. rewrite lookup_app_r by done. rewrite chars_length in *. case_decide.
      + apply lookup_replicate_2. unfold slen. lia.
      + apply lookup_ge_None. rewrite length_replicate. unfold slen. lia.
    - destruct (chars old !! i) eqn:Hi; [done|]. apply lookup_ge_None in Hi. rewrite chars_length in Hi.
      rewrite decide_False; [done|]. lia. }
  assert (n <= length (chars pad))%nat as Hlen.
  { unfold pad. case_if; bool_prop; rewrite ?chars_app, ?length_app, ?chars_zeros, ?length_replicate, chars_length;
      unfold slen in *; lia. }
  intros i. unfold sliceTo, sliceFrom. rewrite !chars_app, chars_substring, drop_0. fold n.
  case_decide as H1; [|case_decide as H2].
  - rewrite lookup_app_l by (rewrite length_take; lia). rewrite lookup_take_lt, Hpad by done.
    rewrite decide_True by done. by destruct (chars old !! i).
  - rewrite lookup_app_r by (rewrite length_take; lia). rewrite length_take, Nat.min_l by done.
    rewrite lookup_app_l by (rewrite chars_length; lia). done.
  - rewrite lookup_app_r by (rewrite length_take; lia). rewrite length_take, Nat.min_l by done.
    rewrite lookup_app_r by (rewrite chars_length; lia). rewrite chars_length.
    specialize (Hpad i). rewrite decide_False in Hpad by lia.
    assert (chars old !! i = chars pad !! i) as -> by (rewrite Hpad; by destruct (chars old !! i)).
    case_if; bool_prop.
    + rewrite chars_substring, take_ge by (rewrite length_drop, chars_length; lia). rewrite lookup_drop.
      f_equal. unfold slen, n. lia.
    + cbn. symmetry. apply lookup_ge_None. rewrite chars_length. unfold slen in *. lia.
Qed.

(** ** Creating *)

(** Every entry is still there, for the same file. *)
Definition entriesKept (d d' : db) : Prop :=
  forall id r, file_nodes d !! id = Some r ->
    exists r', file_nodes d' !! id = Some r' /\ path r' = path r /\ file_id r' = file_id r.

Lemma entriesKept_refl d d' : file_nodes d' = file_nodes d -> entriesKept d d'.
Proof. intros E id r Hr. exists r. by rewrite E. Qed.

Lemma entriesKept_trans d1 d2 d3 : entriesKept d1 d2 -> entriesKept d2 d3 -> entriesKept d1 d3.
Proof.
  intros H1 H2 id r Hr. destruct (H1 id r Hr) as (r2 & Hr2 & E2 & F2). destruct (H2 id r2 Hr2) as (r3 & Hr3 & E3 & F3).
  exists r3. split_and!; congruence.
Qed.

(** The entry of a path that is kept. *)
Lemma nodeAt_kept d d' q id r :
  entriesKept d d' -> pathsUnique (file_nodes d') -> nodeAt d q = Some (id, r) ->
  exists r', nodeAt d' q = Some (id, r') /\ file_id r' = file_id r.
Proof.
  intros Hk Hu Hn. apply nodeAt_spec in Hn as [Hr Hp]. destruct (Hk id r Hr) as (r' & Hr' & Ep & Ef).
  exists r'. split; [|done]. apply nodeAt_unique; [done..|congruence].
Qed.

Lemma ensureDir_kept now p d : wp (ensureDir now p) (fun _ d' => entriesKept d d') d.
Proof.
  unfold ensureDir. wp_step. wp_step. cbv beta.
  assert (forall ino, wp (insertIgnoreInode (deterministicNodeID p) ino) (fun _ d' => file_nodes d' = file_nodes d) d) as Hi.
  { intros ino. unfold insertIgnoreInode. wp_steps. by case_match. }
  destruct (head _) as [[id r]|] eqn:Hh.
  - apply nodesWhere_head in Hh as [Hr _].
    destruct (inode_id r) as [ino|] eqn:Hino; destruct r; simpl in Hino; subst; [wp_steps; by apply entriesKept_refl|].
    wp_step. wp_apply Hi. intros [] d' E. wp_steps. intros id' r' Hr'. cbn. rewrite E.
    destruct (decide (id' = id)) as [->|Hne]; [rewrite lookup_insert_eq; simplify_eq; by eexists|].
    rewrite lookup_insert_ne by done. by exists r'.
  - wp_step. wp_apply Hi. intros [] d' E. wp_steps. case_if; [by apply entriesKept_refl|]. bool_prop.
    intros id' r' Hr'. cbn. exists r'. rewrite lookup_insert_ne; [by rewrite E|]. intros <-.
    rewrite E in *. match goal with Hx : ~ is_Some _ |- _ => apply Hx; eauto end.
Qed.

Lemma EnsureParentDirsTx_kept now p d : wp (EnsureParentDirsTx now p) (fun _ d' => entriesKept d d') d.
Proof.
  apply wp_forEach_inv; [|by apply entriesKept_refl]. intros a d' _ H'. wp_apply ensureDir_kept.
  intros [] d'' H''. by eapply entriesKept_trans.
Qed.

Lemma InsertNodeTx_kept n d :
  wp (InsertNodeTx n) (fun _ d' => entriesKept d d' /\ file_nodes d' !! NodeID n = Some (rowOfNode n)
    /\ contents d' = contents d) d.
Proof.
  unfold InsertNodeTx, InsertNode, insertNodeRow, lockConfirmedFileForAttachTx.
  assert (forall Q : unit -> db -> Prop, Q tt d -> wp (if negb (IsDirectory n) && negb (bool_decide (FileID n = ""))
    then lockConfirmedFileForAttachTx (FileID n) else ok tt) Q d) as Hlock.
  { intros Q HQ. case_if; [|done]. unfold lockConfirmedFileForAttachTx. by wp_steps. }
  wp_step. apply Hlock. wp_steps. bool_prop. cbn. split_and!; [|by rewrite lookup_insert_eq|done].
  intros id r Hr. exists r. cbn. rewrite lookup_insert_ne; [done|]. intros <-. 
  match goal with Hx : ~ is_Some _ |- _ => apply Hx; eauto end.
Qed.

Lemma keeps_nodes_rest e f rev p ct text descr tags :
  keeps file_nodes (replaceTags f tags ;; enqueueSemanticTx toLower cfg e f rev p ct text descr).
Proof.
  unfold replaceTags, ReplaceFileTagsTx, insertTag, enqueueSemanticTx, enqueueTiDBAutoSemanticTasksTx,
    enqueueEmbedTaskTx, enqueueTaskTx. keeps_tac.
Qed.

Lemma InsertFileTx_contents fl now d :
  wp (InsertFileTx fl now) (fun _ d' => contents d' = <[FFileID fl := contentOf fl]> (contents d)
    /\ file_nodes d' = file_nodes d) d.
Proof.
  unfold InsertFileTx, insertSplitTablesTx, insertInodeRow, insertContentRow, insertSemanticRow. wp_steps.
  by destruct (files d); wp_steps.
Qed.

Lemma createAndWriteTx_stored e pl p data tags descr d :
  wp (createAndWriteTx typeByExtension toLower cfg e pl p data tags descr)
    (fun _ d' => storedAt pl (newFileID e) d d' /\ entriesKept d d'
       /\ file_nodes d' !! newNodeID e = Some (rowOfNode (fileNode (newNodeID e) p (newFileID e) (now e)))) d.
Proof.
  unfold createAndWriteTx. wp_step. apply ensureStorageQuota_wp. wp_step.
  wp_apply InsertFileTx_contents. intros [] d1 [Ec1 En1]. wp_step.
  wp_apply wp_and; [apply EnsureParentDirsTx_kept|apply EnsureParentDirsTx_frame|]. intros [] d2 [Hk2 (Ec2 & _)]. wp_step.
  wp_apply InsertNodeTx_kept. intros [] d3 (Hk3 & Hn3 & Ec3).
  wp_apply wp_and; [apply keeps_nodes_rest|apply stored_keeps|].
  - apply keeps_bind; [apply keeps_contents_tags|]. intros _. apply keeps_contents_semantic.
  - instantiate (1 := d). instantiate (1 := newFileID e). instantiate (1 := pl). split.
    + rewrite Ec3, Ec2, Ec1. cbn. rewrite lookup_insert_eq. eexists. split_and!; [done|done|done|]. apply nullStr_default.
    + intros g Hg. rewrite Ec3, Ec2, Ec1. by rewrite lookup_insert_ne.
  - intros [] d4 [En4 Hs4]. split_and!; [done| |by rewrite En4].
    eapply entriesKept_trans; [by apply entriesKept_refl|]. eapply entriesKept_trans; [exact Hk2|].
    eapply entriesKept_trans; [exact Hk3|]. by apply entriesKept_refl.
Qed.

(** ** Write, then read *)

(** The file that a path names. *)
Definition fileAt (d : db) (q : string) : option string := nodeAt d q ≫= fun kv => file_id (snd kv).

(** The key that a write can put to is in use by no content. *)
Definition freshKeys (e : env) (d : db) : Prop :=
  forall g c, contents d !! g = Some c ->
    storage_ref c <> "blobs/" +:+ newFileID e /\ storage_ref c <> "blobs/" +:+ newBlobID e.

(** What is put can be read back, and no other object is touched. *)
Lemma putContent_data data blobID e b b1 :
  let pl := placeContent cfg data blobID in
  putContent cfg pl data e b = inl b1 ->
  (forall c, storage_type c = plType pl -> storage_ref c = plRef pl -> default "" (content_blob c) = plBlob pl ->
     contentData (objects b1) c = inl data)
  /\ forall k, k <> "blobs/" +:+ blobID -> objects b1 !! k = objects b !! k.
Proof.
  unfold putContent, placeContent, contentData. destruct (shouldStoreInDB cfg (slen data)); cbn.
  - intros [= <-]. split; [|done]. intros c -> _ Hb. cbn. by rewrite Hb.
  - destruct (s3 cfg); [|done]. destruct (putOK e); [|done]. intros [= <-]. cbn. split.
    + intros c -> -> _. cbn. by rewrite lookup_insert_eq.
    + intros k Hk. by rewrite lookup_insert_ne.
Qed.

Lemma fileAt_node d q f : fileAt d q = Some f -> exists id r, nodeAt d q = Some (id, r) /\ file_id r = Some f.
Proof. unfold fileAt. destruct (nodeAt d q) as [[id r]|]; [|done]. intros H. by exists id, r. Qed.

(** Reads after content has been stored: of the file, and of the others. *)
Lemma stored_reads b b' d0 pl f data e blobID b1 :
  pl = placeContent cfg data blobID -> (blobID = newFileID e \/ blobID = newBlobID e) ->
  putContent cfg pl data e b = inl b1 -> d0 = store b -> objects b' = objects b1 ->
  filesOk d0 -> filesOk (store b') -> storedAt pl f d0 (store b') -> entriesKept d0 (store b') ->
  (forall p' q', Canonicalize nfc p' = inl q' -> fileAt (store b') q' = Some f ->
     ReadCtx nfc cfg b' p' 0 (-1) = inl data)
  /\ (freshKeys e (store b) -> forall p' q' g, Canonicalize nfc p' = inl q' -> fileAt (store b) q' = Some g ->
        g <> f -> ReadCtx nfc cfg b' p' 0 (-1) = ReadCtx nfc cfg b p' 0 (-1)).
Proof.
  intros -> Hid Hput -> Eo H H' [(c & Hc & E1 & E2 & E3) Hother] Hk.
  destruct (putContent_data data blobID e b b1 Hput) as [Hdata Hobj]. split.
  - intros p' q' Hp (id & r & Hn & Hf)%fileAt_node. rewrite (ReadCtx_whole b' p' q' id r f) by done.
    unfold fileData. rewrite Hc, Eo. by apply Hdata.
  - intros Hfresh p' q' g Hp (id & r & Hn & Hf)%fileAt_node Hg.
    destruct (nodeAt_kept _ _ _ _ _ Hk (unique_paths _ _ H') Hn) as (r' & Hn' & Hf').
    rewrite (ReadCtx_whole b' p' q' id r' g), (ReadCtx_whole b p' q' id r g) by (done || congruence).
    unfold fileData. rewrite Hother by done. destruct (contents (store b) !! g) as [cg|] eqn:Hcg; [|done].
    unfold contentData. rewrite Eo, Hobj; [done|]. destruct (Hfresh g cg Hcg). destruct Hid as [-> | ->]; done.
Qed.

Lemma run_inl {A} (m : tx A) b b' a : run m b = (b', inl a) -> m (store b) = inl (store b', a) /\ objects b' = objects b.
Proof. unfold run, InTx. destruct (m (store b)) as [[d x]|]; intros [= <- <-]; done. Qed.

Lemma Stat_missing d q : filesOk d -> Stat d q = inr ErrNotFound -> fileAt d q = None.
Proof.
  intros H Hs. destruct (fileAt d q) as [f|] eqn:E; [|done]. apply fileAt_node in E as (id & r & Hn & Hf).
  destruct (Stat_file _ _ _ _ _ H Hn Hf) as (? & ? & ? & _ & _ & _ & E). congruence.
Qed.

Lemma create_then_read b e q data tags descr b' n :
  filesOk (store b) -> newFileID e <> "" ->
  createAndWriteCtx typeByExtension toLower cfg b e q data tags descr = (b', inl n) ->
  n = slen data /\ fileAt (store b') q = Some (newFileID e)
  /\ (forall p' q', Canonicalize nfc p' = inl q' -> fileAt (store b') q' = Some (newFileID e) ->
        ReadCtx nfc cfg b' p' 0 (-1) = inl data)
  /\ (freshKeys e (store b) -> forall p' q' g, Canonicalize nfc p' = inl q' -> fileAt (store b) q' = Some g ->
        g <> newFileID e -> ReadCtx nfc cfg b' p' 0 (-1) = ReadCtx nfc cfg b p' 0 (-1)).
Proof.
  intros H Hf Hw. pose proof (createAndWriteCtx_ok typeByExtension toLower cfg b e q data tags descr H Hf) as H'.
  unfold createAndWriteCtx in Hw, H'.
  destruct (negb (ensureUploadSizeAllowed cfg (slen data))); [done|]. set (pl := placeContent cfg data (newFileID e)) in *.
  destruct (putContent cfg pl data e b) as [b1|] eqn:Hput; [|done].
  destruct (run _ b1) as [b2 [u|err]] eqn:Hrun; simplify_eq. cbn in H'. apply run_inl in Hrun as [Hrun Eo].
  pose proof (putContent_store cfg pl data e b b1 Hput) as Es.
  pose proof (wp_inl _ _ _ _ _ (createAndWriteTx_stored e pl q data tags descr (store b1)) Hrun) as (Hst & Hk & Hn).
  rewrite Es in Hst, Hk. split; [done|]. split.
  - unfold fileAt. rewrite (nodeAt_unique _ _ _ _ (unique_paths _ _ H') Hn) by done. cbn. unfold nullStr.
    by rewrite bool_decide_false.
  - apply (stored_reads b b' (store b) pl (newFileID e) data e (newFileID e) b1); auto.
Qed.

(** ** Writing *)

(** What a write leaves in a file that held [old]. *)
Definition writes (flags : writeFlags) (offset : Z) (old data final : string) : Prop :=
  if flagAppend flags then final = old +:+ data
  else if flagTruncate flags || (offset <=? 0) then final = data
  else overlays old data final (Z.to_nat offset).

Lemma finalData_writes b f data offset flags old final :
  readFileDataCtx cfg b f = inl old -> finalData cfg b f data offset flags = inl final ->
  writes flags offset old data final.
Proof.
  intros Hr Hf. unfold writes. destruct (flagAppend flags) eqn:Ha.
  - unfold finalData in Hf. rewrite Ha, Hr in Hf. by injection Hf.
  - destruct (flagTruncate flags) eqn:Ht; cbn.
    + unfold finalData in Hf. rewrite Ha, Ht in Hf. by injection Hf.
    + destruct (offset <=? 0) eqn:Ho.
      * unfold finalData in Hf. rewrite Ha, Ht, Ho in Hf. by injection Hf.
      * bool_prop. by eapply finalData_overlays.
Qed.

Lemma readFileData_content b f i c s : readFileDataCtx cfg b (assembleFile f i (Some c) s) = contentData (objects b) c.
Proof. unfold readFileDataCtx, contentData. done. Qed.

Lemma objects_deleteBlobIfS3 t r k b : objects (deleteBlobIfS3 cfg t r k b) = objects b.
Proof. unfold deleteBlobIfS3. by repeat case_if. Qed.

Lemma overwrite_then_read b e node f i c s data offset flags expected tags descr b' n rev :
  filesOk (store b) -> inodes (store b) !! f = Some i -> contents (store b) !! f = Some c -> status i = StatusConfirmed ->
  overwriteFileCtxWithRev typeByExtension toLower cfg b e node (assembleFile f i (Some c) (Some s)) data offset flags
    expected tags descr = (b', inl (n, rev)) ->
  n = slen data /\ rev = revision i + 1 /\ (0 < expected -> revision i = expected)
  /\ revision <$> inodes (store b') !! f = Some rev /\ file_nodes (store b') = file_nodes (store b)
  /\ exists final, (forall old, fileData b f = inl old -> writes flags offset old data final)
  /\ (forall p' q', Canonicalize nfc p' = inl q' -> fileAt (store b') q' = Some f ->
        ReadCtx nfc cfg b' p' 0 (-1) = inl final)
  /\ (freshKeys e (store b) -> forall p' q' g, Canonicalize nfc p' = inl q' -> fileAt (store b) q' = Some g ->
        g <> f -> ReadCtx nfc cfg b' p' 0 (-1) = ReadCtx nfc cfg b p' 0 (-1)).
Proof.
  intros H Hi Hc Hs Hw. set (fl := assembleFile f i (Some c) (Some s)) in *.
  assert (live (store b) (FFileID fl)) as Hl by by exists i, c.
  pose proof (overwriteFileCtxWithRev_ok typeByExtension toLower cfg b e node fl data offset flags expected tags descr H Hl) as H'.
  rewrite Hw in H'. cbn in H'. unfold overwriteFileCtxWithRev in Hw.
  destruct (finalData cfg b fl data offset flags) as [final|] eqn:Hfin; [|done].
  destruct (negb (ensureUploadSizeAllowed cfg (slen final))); [done|].
  set (pl := placeContent cfg final (newBlobID e)) in *.
  destruct (putContent cfg pl final e b) as [b1|] eqn:Hput; [|done].
  destruct (run _ b1) as [b2 [r2|err]] eqn:Hrun; [|done]. injection Hw as <- <- <-.
  rewrite store_deleteBlobIfS3 in H'. apply run_inl in Hrun as [Hrun Eo].
  rewrite (putContent_store cfg pl final e b b1 Hput) in Hrun.
  destruct (wp_inl _ _ _ _ _ (overwriteTx_stored e pl node fl final expected tags descr (store b) i H Hl Hi) Hrun)
    as (Hst & -> & Hexp & Hrev).
  pose proof (wp_inl _ _ _ _ _ (keeps_nodes_overwrite e pl node fl final expected tags descr (store b)) Hrun) as En.
  split_and!; rewrite ?store_deleteBlobIfS3; try done. exists final. split.
  - intros old Ho. eapply (finalData_writes b fl); [|done]. unfold fileData in Ho. by rewrite Hc in Ho.
  - rewrite <- (store_deleteBlobIfS3 cfg (StorageType fl) (StorageRef fl) (plRef pl) b2) in *.
    apply (stored_reads b _ (store b) pl f final e (newBlobID e) b1); auto.
    + by rewrite objects_deleteBlobIfS3.
    + by apply entriesKept_refl.
Qed.

Lemma WriteCtx_reads b e p q data offset flags expected tags descr b' n rev :
  filesOk (store b) -> newFileID e <> "" -> Canonicalize nfc p = inl q ->
  WriteCtx nfc typeByExtension toLower cfg b e p data offset flags expected tags descr = (b', inl (n, rev)) ->
  n = slen data /\ exists f final, fileAt (store b') q = Some f
  /\ match fileAt (store b) q with
     | None => f = newFileID e /\ rev = 1 /\ expected <= 0 /\ flagCreate flags = true /\ final = data
     | Some g => f = g /\ revision <$> inodes (store b) !! g = Some (rev - 1)
         /\ revision <$> inodes (store b') !! g = Some rev
         /\ (expected < 0 \/ expected = rev - 1) /\ flagExclusive flags = false
         /\ forall old, ReadCtx nfc cfg b p 0 (-1) = inl old -> writes flags offset old data final
     end
  /\ (forall p' q', Canonicalize nfc p' = inl q' -> fileAt (store b') q' = Some f ->
        ReadCtx nfc cfg b' p' 0 (-1) = inl final)
  /\ (freshKeys e (store b) -> forall p' q' g, Canonicalize nfc p' = inl q' -> fileAt (store b) q' = Some g -> g <> f ->
        ReadCtx nfc cfg b' p' 0 (-1) = ReadCtx nfc cfg b p' 0 (-1)).
Proof.
  intros H Hf Hp Hw. unfold WriteCtx in Hw. rewrite Hp in Hw.
  destruct (fileAt (store b) q) as [g|] eqn:Hat.
  - destruct (fileAt_node _ _ _ Hat) as (id & r & Hn & Hr).
    destruct (Stat_file _ _ _ _ _ H Hn Hr) as (i & c & s & Hi & Hc & Hs & E). rewrite E in Hw. unfold writeFound in Hw.
    destruct (expected =? 0) eqn:E0; [done|]. destruct (IsDirectory _); [done|]. destruct (flagExclusive flags); [done|].
    destruct ((0 <? expected) && _) eqn:Ee; [done|].
    destruct (overwrite_then_read _ _ _ _ _ _ _ _ _ _ _ _ _ _ _ _ H Hi Hc Hs Hw)
      as (-> & -> & Hexp & Hrev & En & final & Hfin & Hread & Hother).
    split; [done|]. exists g, final. split_and!; auto.
    + unfold fileAt, nodeAt. rewrite En. fold (nodeAt (store b) q). by rewrite Hn.
    + rewrite Hi. cbn. f_equal. lia.
    + bool_prop. destruct (Z.lt_ge_cases expected 0); [by left|right]. rewrite Hexp; lia.
    + intros old. rewrite (ReadCtx_whole b p q id r g) by done. apply Hfin.
  - assert (Stat (store b) q = inr ErrNotFound) as Es.
    { destruct (Stat (store b) q) as [[nd [fl|]]|err] eqn:Es; [..|].
      - destruct (Stat_live _ _ _ _ H Es) as (_ & Hne & _). unfold Stat, GetNode in Es.
        destruct (nodeAt (store b) q) as [[id r]|] eqn:Hn; [|done]. cbn in Es.
        unfold fileAt in Hat. rewrite Hn in Hat. cbn in Hat. rewrite Hat in Es. cbn in Es.
        rewrite bool_decide_true, andb_false_r in Es by done. done.
      - exfalso. unfold writeFound in Hw. repeat case_match; done.
      - by destruct err. }
    rewrite Es in Hw. unfold writeMissing in Hw. destruct (0 <? expected) eqn:E0; [done|].
    destruct (flagCreate flags); [|done]. cbn in Hw.
    destruct (createAndWriteCtx _ _ _ _ _ _ _ _ _) as [b1 [k|[[]|?| | | | | | | | | |]]] eqn:Ec; simplify_eq.
    destruct (create_then_read _ _ _ _ _ _ _ _ H Hf Ec) as (-> & Hfile & Hread & Hother).
    split; [done|]. exists (newFileID e), data. bool_prop.  split_and!; auto.
Qed.

(** C5: what a successful write through the backend does.  It returns the length of the
    data.  A path without a file gets a new file of revision 1 that holds the data (only
    if creation is allowed and no revision was expected); a file that is there gets the
    next revision, only if the caller expected the current one or none, and holds the old
    bytes with the data appended, replaced, or overlaid at the offset with zeros in a gap.
    From then on every path that names the file reads exactly these bytes, and every
    other file reads as before. *)
Theorem write_then_read b e p q data offset flags expected tags descr b' n rev :
  filesOk (store b) -> newFileID e <> "" -> freshKeys e (store b) -> Canonicalize nfc p = inl q ->
  WriteCtx nfc typeByExtension toLower cfg b e p data offset flags expected tags descr = (b', inl (n, rev)) ->
  n = slen data /\ exists f final, fileAt (store b') q = Some f
  /\ match fileAt (store b) q with
     | None => f = newFileID e /\ rev = 1 /\ expected <= 0 /\ flagCreate flags = true /\ final = data
     | Some g => f = g /\ revision <$> inodes (store b) !! g = Some (rev - 1)
         /\ revision <$> inodes (store b') !! g = Some rev
         /\ (expected < 0 \/ expected = rev - 1) /\ flagExclusive flags = false
         /\ forall old, ReadCtx nfc cfg b p 0 (-1) = inl old -> writes flags offset old data final
     end
  /\ (forall p' q', Canonicalize nfc p' = inl q' -> fileAt (store b') q' = Some f ->
        ReadCtx nfc cfg b' p' 0 (-1) = inl final)
  /\ (forall p' q' g, Canonicalize nfc p' = inl q' -> fileAt (store b) q' = Some g -> g <> f ->
        ReadCtx nfc cfg b' p' 0 (-1) = ReadCtx nfc cfg b p' 0 (-1)).
Proof.
  intros H Hf Hfresh Hp Hw. destruct (WriteCtx_reads _ _ _ _ _ _ _ _ _ _ _ _ _ H Hf Hp Hw)
    as (En & f & final & Hat & Hm & Hread & Hother).
  split; [done|]. exists f, final. split_and!; [done|done|done|]. exact (Hother Hfresh).
Qed.

End content.

(** ** A concrete write *)

Definition demoConfig : config :=
  {| smallInDB := true; inlineThreshold := 4; s3 := true; s3Mode := "sse-s3"; s3KeyID := ""; databaseAutoEmbedding := false;
     maxUploadBytes := 0; maxTenantStorageBytes := 0; maxMediaLLMFiles := 0; textExtractMaxBytes := 100;
     useServerQuota := false; objectGC := true; imageExtract := false; audioExtract := false |}.
Definition demoEnv (n : string) (t : Z) : env :=
  {| now := t; newFileID := "f" +:+ n; newNodeID := "n" +:+ n; newTaskID := "t" +:+ n; newTaskID2 := "u" +:+ n;
     newBlobID := "b" +:+ n; putOK := true; quotaUsage := None; quotaLimits := None |}.
Definition demoFlags : writeFlags :=
  {| flagCreate := true; flagExclusive := false; flagAppend := false; flagTruncate := false |}.
Definition emptyBackend : backend := {| store := emptyDB false; objects := ∅; candidates := [] |}.

Definition demoRun : backend * (Z * Z + backendError) :=
  WriteCtx (fun s => s) (fun _ => "") (fun s => s) demoConfig emptyBackend (demoEnv "1" 1) "/d/a" "hello" 0 demoFlags (-1) None "".

Lemma demoRun_ok : snd demoRun = inl (5, 1).
Proof. vm_compute. reflexivity. Qed.

Lemma write_then_read_witness :
  exists f final, fileAt (store (fst demoRun)) "/d/a" = Some f /\ f = "f1" /\ final = "hello"
    /\ forall p' q', Canonicalize (fun s => s) p' = inl q' -> fileAt (store (fst demoRun)) q' = Some f ->
         ReadCtx (fun s => s) demoConfig (fst demoRun) p' 0 (-1) = inl final.
Proof.
  assert (freshKeys (demoEnv "1" 1) (store emptyBackend)) as Hf.
  { intros g c H. change (contents (store emptyBackend)) with (∅ : gmap string contentRow) in H. by rewrite lookup_empty in H. }
  destruct (write_then_read (fun s => s) (fun _ => "") (fun s => s) demoConfig emptyBackend (demoEnv "1" 1) "/d/a" "/d/a"
    "hello" 0 demoFlags (-1) None "" (fst demoRun) 5 1 (filesOk_empty false) ltac:(done) Hf ltac:(reflexivity))
    as (_ & f & final & Hat & H & Hread & _).
  - pose proof demoRun_ok as E. unfold demoRun in *. destruct (WriteCtx _ _ _ _ _ _ _ _ _ _ _ _ _) as [b r]. cbn in *. by subst.
  - exists f, final. split; [exact Hat|]. cbn in H. destruct H as (-> & _ & _ & _ & ->). auto.
Defined.

End Content.
