(* ===== verification/Uploads.v ===== *)
(** * Multipart uploads

    Model of the upload protocol of [src/pkg/backend/upload.go] with the upload
    operations of [src/pkg/datastore/store.go] and the part layout of
    [src/pkg/s3client/s3client.go].  An upload is initiated with a pending file, its
    parts go from the client straight to object storage, and a confirmation completes
    the object and publishes the file in one transaction.  What object storage answers
    is an argument.  An operation that first reads the upload and then acts on what it
    read has its second half as a definition of its own, because other calls can come in
    between.  The signing of URLs and the reservations in the central quota store are
    not modelled, except that such a reservation can be refused. *)

From Stdlib Require Import Strings.Ascii.
From S2P Require Import Prelude GoStrings PathUtil Json Sha256 SemanticQueue FileGCQueue FileStore Media Backend.

Import GoStr Paths FileStore Media Backend.

Module Uploads.

#[local] Arguments String.append !_ _ / : simpl nomatch.

(** ** Parts *)

Record Part := { Number : Z; PSize : Z; ETag : string }.

Definition defaultPartSize : Z := Z.shiftl 8 20.
Definition MaxAdaptivePartSize : Z := Z.shiftl 512 20.
Definition MaxMultipartParts : Z := 10000.

Definition CalcAdaptivePartSize (totalSize : Z) : Z :=
  let align := Z.shiftl 1 20 in
  let ps := Z.quot (wrap64 (totalSize + 9999)) 10000 in
  let ps := Z.quot (ps + align - 1) align * align in
  let ps := if ps <? defaultPartSize then defaultPartSize else ps in
  if MaxAdaptivePartSize <? ps then MaxAdaptivePartSize else ps.

(** The layout of an upload; the sum is one of [int64] and the division rounds towards
    zero.  When the sum overflows, the length is negative and [make] panics
    ([CalcPartsPanics]); the calls below stop there with [ErrPanic]. *)
Definition CalcPartsPanics (totalSize partSize : Z) : bool :=
  let partSize := if partSize <=? 0 then defaultPartSize else partSize in
  Z.quot (wrap64 (totalSize + partSize - 1)) partSize <? 0.
Definition CalcParts (totalSize partSize : Z) : list Part :=
  let partSize := if partSize <=? 0 then defaultPartSize else partSize in
  let n := Z.quot (wrap64 (totalSize + partSize - 1)) partSize in
  (fun i => {| Number := i + 1; PSize := if i =? n - 1 then totalSize - i * partSize else partSize; ETag := "" |})
    <$> seqZ 0 n.

(** [strings.Trim(etag, QUOTE)] *)
Fixpoint trimQuotesLeft (s : string) : string :=
  match s with
  | String c r => if code c =? 34 then trimQuotesLeft r else s
  | EmptyString => s
  end.
Fixpoint trimQuotesRight (s : string) : string :=
  match s with
  | EmptyString => EmptyString
  | String c r => match trimQuotesRight r with
                  | EmptyString => if code c =? 34 then EmptyString else String c EmptyString
                  | r' => String c r'
                  end
  end.
Definition normalizeETag (etag : string) : string := trimQuotesRight (trimQuotesLeft etag).

(** ** The uploads table *)

Definition uploadStorageEncryptionModeForWrite (m : string) : string := if bool_decide (m = "") then "none" else m.

(** The row that is inserted. *)
Definition uploadRow (u : Upload) : Upload :=
  let m := uploadStorageEncryptionModeForWrite (UEncryptionMode u) in
  {| UploadID := UploadID u; UFileID := UFileID u; TargetPath := TargetPath u; S3UploadID := S3UploadID u;
     S3Key := S3Key u; UEncryptionMode := m;
     UEncryptionKeyID := storageEncryptionKeyIDForWrite m (UEncryptionKeyID u); TotalSize := TotalSize u;
     PartSize := PartSize u; PartsTotal := PartsTotal u; ExpectedRevision := ExpectedRevision u;
     UStatus := UStatus u; FingerprintSHA := FingerprintSHA u; IdempotencyKey := IdempotencyKey u;
     UDescription := UDescription u; UCreatedAt := UCreatedAt u; UUpdatedAt := UUpdatedAt u;
     UExpiresAt := UExpiresAt u |}.

(** The unique index on [active_target_path]: another upload in progress has the path. *)
Definition pathUploading (m : gmap string Upload) (id p : string) : bool :=
  bool_decide (Exists (fun kv => fst kv <> id /\ UStatus (snd kv) = UploadUploading /\ TargetPath (snd kv) = p)
                 (map_to_list m)).

(** The unique index on [idempotency_key]. *)
Definition keyTaken (m : gmap string Upload) (key : string) : bool :=
  negb (bool_decide (key = "")) && bool_decide (Exists (fun kv => IdempotencyKey (snd kv) = key) (map_to_list m)).

Definition InsertUploadTx (u : Upload) : tx unit :=
  let* m := read uploads in
  throwIf (bool_decide (is_Some (m !! UploadID u))) ErrUploadConflict ;;
  throwIf (keyTaken m (IdempotencyKey u)) ErrIdempotencyConflict ;;
  throwIf (bool_decide (UStatus u = UploadUploading) && pathUploading m (UploadID u) (TargetPath u)) ErrUploadConflict ;;
  modify (set_uploads (<[UploadID u := uploadRow u]> m)).

Definition GetUpload (d : db) (uploadID : string) : Upload + storeError :=
  match uploads d !! uploadID with Some u => inl u | None => inr ErrNotFound end.

Definition GetUploadByPath (d : db) (p : string) (now : Z) : option Upload :=
  head (sortBy (fun a b => UCreatedAt b <? UCreatedAt a)
          (filter (fun u => TargetPath u = p /\ activeUpload now u = true) (snd <$> map_to_list (uploads d)))).

Definition withUStatus (st : UploadStatus) (now : Z) (u : Upload) : Upload :=
  {| UploadID := UploadID u; UFileID := UFileID u; TargetPath := TargetPath u; S3UploadID := S3UploadID u;
     S3Key := S3Key u; UEncryptionMode := UEncryptionMode u; UEncryptionKeyID := UEncryptionKeyID u;
     TotalSize := TotalSize u; PartSize := PartSize u; PartsTotal := PartsTotal u;
     ExpectedRevision := ExpectedRevision u; UStatus := st; FingerprintSHA := FingerprintSHA u;
     IdempotencyKey := IdempotencyKey u; UDescription := UDescription u; UCreatedAt := UCreatedAt u;
     UUpdatedAt := now; UExpiresAt := UExpiresAt u |}.

Definition withUFile (fileID : string) (u : Upload) : Upload :=
  {| UploadID := UploadID u; UFileID := fileID; TargetPath := TargetPath u; S3UploadID := S3UploadID u;
     S3Key := S3Key u; UEncryptionMode := UEncryptionMode u; UEncryptionKeyID := UEncryptionKeyID u;
     TotalSize := TotalSize u; PartSize := PartSize u; PartsTotal := PartsTotal u;
     ExpectedRevision := ExpectedRevision u; UStatus := UStatus u; FingerprintSHA := FingerprintSHA u;
     IdempotencyKey := IdempotencyKey u; UDescription := UDescription u; UCreatedAt := UCreatedAt u;
     UUpdatedAt := UUpdatedAt u; UExpiresAt := UExpiresAt u |}.

(** [UPDATE uploads SET status WHERE upload_id AND status IN ...]; no row is no error. *)
Definition setUploadStatus (st : UploadStatus) (from : list UploadStatus) (uploadID : string) (now : Z) : tx unit :=
  modify (fun d => set_uploads (alter (fun u => if bool_decide (UStatus u ∈ from) then withUStatus st now u else u)
                                  uploadID (uploads d)) d).

Definition CompleteUploadTx : string -> Z -> tx unit := setUploadStatus UploadCompleted [UploadUploading].
Definition AbortUploadStore : string -> Z -> tx unit := setUploadStatus UploadAborted [UploadUploading].
Definition AbortUploadV2Store : string -> Z -> tx unit :=
  setUploadStatus UploadAborted [UploadInitiated; UploadUploading].

Definition TransitionUploadStatus (uploadID : string) (expected st : UploadStatus) (now : Z) : tx unit :=
  let* m := read uploads in
  match m !! uploadID with
  | None => throw ErrUploadNotActive
  | Some u =>
      throwIf (negb (bool_decide (UStatus u = expected))) ErrUploadNotActive ;;
      throwIf (bool_decide (st = UploadUploading) && pathUploading m uploadID (TargetPath u)) ErrSQL ;;
      modify (set_uploads (<[uploadID := withUStatus st now u]> m))
  end.

(** ** The protocol *)

Inductive uploadError :=
  | Base (e : backendError)
  | ErrDescriptionTooLong
  | ErrChecksumCount
  | ErrTooManyParts
  | ErrUnsupportedAlgorithm
  | ErrUploadExpired
  | ErrListParts
  | ErrCompleteMultipart
  | ErrClientProtocol
  | ErrPanic.               (** the handler panics: no error value, no response *)

(** What an upload call gets from outside, besides [env]. *)
Record senv := {
  base : env;
  newUploadID : string;
  createMultipart : option string;   (** the id of the multipart upload *)
  reserveOK : bool;                  (** the central store does not refuse the size *)
  presignOK : bool;
  listParts : option (list Part);
  completeOK : bool;
  assembled : string                 (** the object that completing makes *)
}.

Section uploads.
Context (nfc typeByExtension toLower : string -> string) (cfg : config).

Definition storeErr {A} (r : A + backendError) : A + uploadError :=
  match r with inl a => inl a | inr e => inr (Base e) end.

Definition expectedRevisionPtr (expectedRevision : Z) : option Z :=
  if expectedRevision <? 0 then None else Some expectedRevision.
Definition uploadExpectedRevision (u : Upload) : Z := default (-1) (ExpectedRevision u).

Definition validateUploadTargetRevision (d : db) (p : string) (expectedRevision : Z) : option backendError :=
  match Stat d p with
  | inr ErrNotFound => if 0 <? expectedRevision then Some (Store ErrRevisionConflict) else None
  | inr e => Some (Store e)
  | inl (node, file) =>
      if IsDirectory node then Some ErrIsDirectory
      else if expectedRevision =? 0 then Some (Store ErrRevisionConflict)
      else if 0 <? expectedRevision then
        match file with
        | Some f => if bool_decide (Status f = StatusConfirmed) && (Revision f =? expectedRevision) then None
                    else Some (Store ErrRevisionConflict)
        | None => Some (Store ErrRevisionConflict)
        end
      else None
  end.

(** The pending file and the upload of an initiation. *)
Definition pendingFile (e : senv) (totalSize : Z) : File :=
  let fileID := newFileID (base e) in
  {| FFileID := fileID; StorageType := "s3"; StorageRef := "blobs/" +:+ fileID;
     StorageEncryptionMode := s3Mode cfg; StorageEncryptionKeyID := s3KeyID cfg; ContentBlob := "";
     ContentType := ""; SizeBytes := totalSize; ChecksumSHA256 := ""; Revision := 1; Mode := 0;
     EmbeddingRevision := None; Status := StatusPending; SourceID := ""; ContentText := ""; Description := "";
     DescriptionEmbeddingRevision := None; FCreatedAt := now (base e); ConfirmedAt := None; ExpiresAt := None |}.

(** 24 hours, in nanoseconds. *)
Definition uploadLifetime : Z := 24 * 60 * 60 * 1000000000.

Definition newUpload (e : senv) (mpu p descr : string) (totalSize partSize partsTotal expectedRevision : Z)
    (st : UploadStatus) : Upload :=
  {| UploadID := newUploadID e; UFileID := newFileID (base e); TargetPath := p; S3UploadID := mpu;
     S3Key := "blobs/" +:+ newFileID (base e); UEncryptionMode := s3Mode cfg; UEncryptionKeyID := s3KeyID cfg;
     TotalSize := totalSize; PartSize := partSize; PartsTotal := partsTotal;
     ExpectedRevision := expectedRevisionPtr expectedRevision; UStatus := st; FingerprintSHA := "";
     IdempotencyKey := ""; UDescription := descr; UCreatedAt := now (base e); UUpdatedAt := now (base e);
     UExpiresAt := now (base e) + uploadLifetime |}.

Definition initiateTx (e : senv) (u : Upload) : tx unit :=
  (if useServerQuota cfg then ok tt else ensureTenantStorageQuotaTx cfg (base e) (TargetPath u) (TotalSize u)) ;;
  InsertFileTx (pendingFile e (TotalSize u)) (now (base e)) ;;
  InsertUploadTx u.

(** The runes of a text, an invalid byte counting as one. *)
Definition runeCount (s : string) : Z := zlen (Json.runesOf s).

(** The checks before an upload is created: the canonical path. *)
Definition initiateChecks (b : backend) (e : senv) (p descr : string) (totalSize expectedRevision : Z)
    : string + uploadError :=
  if 2000 <? runeCount descr then inr ErrDescriptionTooLong
  else if negb (ensureUploadSizeAllowed cfg totalSize) then inr (Base ErrUploadTooLarge)
  else match Canonicalize nfc p with
       | inr err => inr (Base (BadPath err))
       | inl p =>
           if negb (s3 cfg) then inr (Base ErrNoS3)
           else match validateUploadTargetRevision (store b) p expectedRevision with
                | Some err => inr (Base err)
                | None => match GetUploadByPath (store b) p (now (base e)) with
                          | Some _ => inr (Base (Store ErrUploadConflict))
                          | None => inl p
                          end
                end
       end.

(** Create the upload with its reservation. *)
Definition initiateWith (b : backend) (e : senv) (u : Upload) : backend * (Upload + uploadError) :=
  if negb (reserveOK e) then (b, inr (Base (Store ErrStorageQuotaExceeded)))
  else match run (initiateTx e u) b with
       | (b, inl _) => (b, inl u)
       | (b, inr err) => (b, inr (Base err))
       end.

(** [InitiateUploadWithChecksumsIfRevision]; the upload stands for the plan. *)
Definition InitiateUpload (b : backend) (e : senv) (p : string) (totalSize : Z) (partChecksums : list string)
    (expectedRevision : Z) (descr : string) : backend * (Upload + uploadError) :=
  match initiateChecks b e p descr totalSize expectedRevision with
  | inr err => (b, inr err)
  | inl p =>
      match createMultipart e with
      | None => (b, inr (Base ErrS3))
      | Some mpu =>
          let parts := CalcParts totalSize defaultPartSize in
          if CalcPartsPanics totalSize defaultPartSize then (b, inr ErrPanic)
          else if (0 <? zlen partChecksums) && negb (zlen partChecksums =? zlen parts) then (b, inr ErrChecksumCount)
          else if (0 <? zlen parts) && negb (presignOK e) then (b, inr (Base ErrS3))
          else initiateWith b e (newUpload e mpu p descr totalSize defaultPartSize (zlen parts) expectedRevision
                                   UploadUploading)
      end
  end.

Definition InitiateUploadV2 (b : backend) (e : senv) (p : string) (totalSize expectedRevision : Z) (descr : string)
    : backend * (Upload + uploadError) :=
  match initiateChecks b e p descr totalSize expectedRevision with
  | inr err => (b, inr err)
  | inl p =>
      let partSize := CalcAdaptivePartSize totalSize in
      let parts := CalcParts totalSize partSize in
      if CalcPartsPanics totalSize partSize then (b, inr ErrPanic)
      else if MaxMultipartParts <? zlen parts then (b, inr ErrTooManyParts)
      else match createMultipart e with
           | None => (b, inr (Base ErrS3))
           | Some mpu =>
               initiateWith b e (newUpload e mpu p descr totalSize partSize (zlen parts) expectedRevision
                                   UploadInitiated)
           end
  end.

(** ** Aborting *)

(** The second half of [AbortUploadV2], with the upload as it was read. *)
Definition abortV2Read (b : backend) (e : senv) (upload : Upload) : backend :=
  if bool_decide (UStatus upload ∈ [UploadAborted; UploadCompleted; UploadExpired]) then b
  else
    let b := fst (run (AbortUploadV2Store (UploadID upload) (now (base e))) b) in
    if bool_decide (UFileID upload = "") then b else fst (run (MarkFileDeleted (UFileID upload)) b).

Definition AbortUploadV2 (b : backend) (e : senv) (uploadID : string) : backend :=
  match GetUpload (store b) uploadID with
  | inr _ => b
  | inl upload => abortV2Read b e upload
  end.

Definition AbortUpload (b : backend) (e : senv) (uploadID : string) : backend * (unit + uploadError) :=
  match GetUpload (store b) uploadID with
  | inr err => (b, inr (Base (Store err)))
  | inl upload =>
      if negb (bool_decide (UStatus upload = UploadUploading)) then (b, inr (Base (Store ErrUploadNotActive)))
      else let '(b, r) := run (AbortUploadStore uploadID (now (base e))) b in (b, storeErr r)
  end.

(** ** Presigning *)

Definition ensureUploadPresignable (b : backend) (e : senv) (upload : Upload) : backend * (Upload + uploadError) :=
  let id := UploadID upload in
  if negb (bool_decide (UStatus upload = UploadUploading)) && negb (bool_decide (UStatus upload = UploadInitiated))
  then (b, inr (Base (Store ErrUploadNotActive)))
  else if UExpiresAt upload <? now (base e) then (AbortUploadV2 b e id, inr ErrUploadExpired)
  else if negb (bool_decide (UStatus upload = UploadInitiated)) then (b, inl upload)
  else match run (TransitionUploadStatus id UploadInitiated UploadUploading (now (base e))) b with
       | (b, inl _) => (b, inl (withUStatus UploadUploading (UUpdatedAt upload) upload))
       | (b, inr (Store ErrUploadNotActive)) =>
           match GetUpload (store b) id with
           | inr err => (b, inr (Base (Store err)))
           | inl refreshed =>
               if bool_decide (UStatus refreshed = UploadUploading) then (b, inl refreshed)
               else if negb (bool_decide (UStatus refreshed = UploadInitiated))
               then (b, inr (Base (Store ErrUploadNotActive)))
               else if UExpiresAt refreshed <? now (base e) then (AbortUploadV2 b e id, inr ErrUploadExpired)
               else (b, inr (Base (Store ErrUploadNotActive)))
           end
       | (b, inr err) => (b, inr (Base err))
       end.

(** An optional checksum, its algorithm and value. *)
Definition resolveChecksumSHA256 (cs : option (string * string)) : string + uploadError :=
  match cs with
  | None => inl ""
  | Some (alg, value) =>
      if bool_decide (value = "") then inl ""
      else if bool_decide (alg ∈ ["sha256"; "SHA256"; "SHA-256"]) then inl value else inr ErrUnsupportedAlgorithm
  end.

(** The number, size and checksum that a URL is signed for. *)
Definition presignOne (e : senv) (upload : Upload) (entry : Z * option (string * string))
    : Z * Z * string + uploadError :=
  let '(partNumber, checksum) := entry in
  if (partNumber <? 1) || (PartsTotal upload <? partNumber) then inr ErrClientProtocol
  else match resolveChecksumSHA256 checksum with
       | inr err => inr err
       | inl sha =>
           if negb (presignOK e) then inr (Base ErrS3)
           else inl (partNumber,
                     default 0 (PSize <$> CalcParts (TotalSize upload) (PartSize upload) !! Z.to_nat (partNumber - 1)),
                     sha)
       end.

Definition PresignPart (b : backend) (e : senv) (uploadID : string) (entry : Z * option (string * string))
    : backend * (Z * Z * string + uploadError) :=
  match GetUpload (store b) uploadID with
  | inr err => (b, inr (Base (Store err)))
  | inl upload =>
      match ensureUploadPresignable b e upload with
      | (b, inr err) => (b, inr err)
      | (b, inl upload) => (b, presignOne e upload entry)
      end
  end.

(** The results up to the first error. *)
Fixpoint collect {A B E} (f : A -> B + E) (l : list A) : list B + E :=
  match l with
  | [] => inl []
  | a :: l => match f a with
              | inr err => inr err
              | inl x => match collect f l with inl xs => inl (x :: xs) | inr err => inr err end
              end
  end.

Definition MaxPresignBatch : Z := 500.

Definition PresignParts (b : backend) (e : senv) (uploadID : string) (entries : list (Z * option (string * string)))
    : backend * (list (Z * Z * string) + uploadError) :=
  match GetUpload (store b) uploadID with
  | inr err => (b, inr (Base (Store err)))
  | inl upload =>
      match ensureUploadPresignable b e upload with
      | (b, inr err) => (b, inr err)
      | (b, inl upload) =>
          if (MaxPresignBatch <? zlen entries) || negb (bool_decide (NoDup (fst <$> entries)))
          then (b, inr ErrClientProtocol)
          else (b, collect (presignOne e upload) entries)
      end
  end.

(** ** Confirming *)

(** The storage columns of a confirmed file. *)
Definition GetFileStorageMetaForUpdateTx (d : db) (fileID : string) : option (string * string * Z) :=
  match inodes d !! fileID, contents d !! fileID with
  | Some i, Some c => if bool_decide (status i = StatusConfirmed) then Some (storage_type c, storage_ref c, revision i)
                      else None
  | _, _ => None
  end.

(** Replace an error. *)
Definition mapError {A} (h : storeError -> storeError) (m : tx A) : tx A :=
  fun d => match m d with inl r => inl r | inr err => inr (h err) end.

Definition uploadUpdate (upload : Upload) (contentType : string) : Update :=
  {| uStorageType := "s3"; uStorageRef := S3Key upload; uContentType := contentType; uChecksum := "";
     uContentText := ""; uContentBlob := ""; uSize := TotalSize upload; uDescription := UDescription upload |}.

(** The overwrite branch: the storage of the replaced content. *)
Definition finalizeOverwriteTx (e : senv) (upload : Upload) (fileID contentType : string)
    (tags : option (gmap string string)) : tx (option (string * string)) :=
  let expected := uploadExpectedRevision upload in
  throwIf (expected =? 0) ErrRevisionConflict ;;
  let* meta := read (fun d => GetFileStorageMetaForUpdateTx d fileID) in
  match meta with
  | None => throw ErrRevisionConflict
  | Some (oldType, oldRef, rev) =>
      throwIf ((0 <? expected) && negb (rev =? expected)) ErrRevisionConflict ;;
      let* newRev := updateFileContentTx fileID (Z.max 0 expected) (databaseAutoEmbedding cfg)
                       (uploadUpdate upload contentType) (now (base e)) in
      UpdateFileStorageEncryptionTx fileID (UEncryptionMode upload) (UEncryptionKeyID upload) ;;
      replaceTags fileID tags ;;
      DeletePendingFileTx (UFileID upload) (now (base e)) ;;
      modify (fun d => set_uploads (alter (withUFile fileID) (UploadID upload) (uploads d)) d) ;;
      enqueueSemanticTx toLower cfg (base e) fileID newRev (TargetPath upload) contentType "" (UDescription upload) ;;
      ok (Some (oldType, oldRef))
  end.

(** The create branch. *)
Definition finalizeCreateTx (e : senv) (upload : Upload) (contentType : string) (tags : option (gmap string string))
    : tx (option (string * string)) :=
  let expected := uploadExpectedRevision upload in
  let fileID := UFileID upload in
  throwIf (0 <? expected) ErrRevisionConflict ;;
  confirmPendingTx (databaseAutoEmbedding cfg) fileID (uploadUpdate upload contentType) (now (base e)) ;;
  mapError (fun err => if (0 <=? expected) && bool_decide (err = ErrPathConflict) then ErrRevisionConflict else err)
    (InsertNodeTx (fileNode (newNodeID (base e)) (TargetPath upload) fileID (now (base e)))) ;;
  replaceTags fileID tags ;;
  enqueueSemanticTx toLower cfg (base e) fileID 1 (TargetPath upload) contentType "" (UDescription upload) ;;
  ok None.

Definition finalizeTx (e : senv) (upload : Upload) (tags : option (gmap string string)) : tx (option (string * string)) :=
  let contentType := detectContentType typeByExtension (TargetPath upload) "" in
  CompleteUploadTx (UploadID upload) (now (base e)) ;;
  EnsureParentDirsTx (now (base e)) (TargetPath upload) ;;
  let* node := read (fun d => nodeAt d (TargetPath upload)) in
  match node ≫= (fun kv => file_id (snd kv)) with
  | Some fileID => finalizeOverwriteTx e upload fileID contentType tags
  | None => finalizeCreateTx e upload contentType tags
  end.

Definition cleanupFailedFinalizeUpload (b : backend) (e : senv) (upload : Upload) : backend :=
  let b := deleteBlob cfg (S3Key upload) b in
  let b := fst (run (AbortUploadV2Store (UploadID upload) (now (base e))) b) in
  if bool_decide (UFileID upload = "") then b else fst (run (MarkFileDeleted (UFileID upload)) b).

(** [finalizeUpload], with the upload as it was read. *)
Definition finalizeUpload (b : backend) (e : senv) (upload : Upload) (tags : option (gmap string string))
    : backend * (unit + uploadError) :=
  if negb (completeOK e) then (b, inr ErrCompleteMultipart)
  else
    let b := set_objects (<[S3Key upload := assembled e]> (objects b)) b in
    match run (finalizeTx e upload tags) b with
    | (b, inr err) => (cleanupFailedFinalizeUpload b e upload, inr (Base err))
    | (b, inl old) =>
        (match old with
         | Some (oldType, oldRef) => deleteBlobIfS3 cfg oldType oldRef (S3Key upload) b
         | None => b
         end, inl tt)
    end.

Definition partsSized (parts : list Part) (upload : Upload) : bool :=
  bool_decide (PSize <$> parts = PSize <$> CalcParts (TotalSize upload) (PartSize upload)).

(** The check of [ConfirmUploadWithTags], which compares the parts that are there. *)
Definition partsSizedV1 (parts : list Part) (upload : Upload) : bool :=
  bool_decide (PSize <$> parts = take (length parts) (PSize <$> CalcParts (TotalSize upload) (PartSize upload))).

(** The second half of [ConfirmUploadWithTags]. *)
Definition confirmRead (b : backend) (e : senv) (upload : Upload) (tags : option (gmap string string))
    : backend * (unit + uploadError) :=
  if negb (bool_decide (UStatus upload = UploadUploading)) then (b, inr (Base (Store ErrUploadNotActive)))
  else match listParts e with
       | None => (b, inr ErrListParts)
       | Some parts =>
           if negb (zlen parts =? PartsTotal upload) || negb (partsSizedV1 parts upload)
              || negb (forallb (fun p => negb (bool_decide (ETag p = ""))) parts)
           then (b, inr ErrClientProtocol)
           else finalizeUpload b e upload tags
       end.

Definition ConfirmUpload (b : backend) (e : senv) (uploadID : string) (tags : option (gmap string string))
    : backend * (unit + uploadError) :=
  match GetUpload (store b) uploadID with
  | inr err => (b, inr (Base (Store err)))
  | inl upload => confirmRead b e upload tags
  end.

(** The client's list of parts is complete and agrees with what was stored. *)
Definition clientPartsOk (clientParts : list (Z * string)) (parts : list Part) (upload : Upload) : bool :=
  (zlen clientParts =? PartsTotal upload)
  && bool_decide (NoDup (fst <$> clientParts))
  && forallb (fun cp => (1 <=? fst cp) && (fst cp <=? PartsTotal upload)) clientParts
  && forallb (fun cp => match find (fun p => Number p =? fst cp) (reverse parts) with
                        | Some p => bool_decide (normalizeETag (snd cp) = normalizeETag (ETag p))
                        | None => false
                        end) clientParts
  && partsSized parts upload.

(** The second half of [ConfirmUploadV2WithTags]. *)
Definition confirmV2Read (b : backend) (e : senv) (upload : Upload) (clientParts : list (Z * string))
    (tags : option (gmap string string)) : backend * (unit + uploadError) :=
  if negb (bool_decide (UStatus upload = UploadUploading)) then (b, inr (Base (Store ErrUploadNotActive)))
  else if UExpiresAt upload <? now (base e) then (AbortUploadV2 b e (UploadID upload), inr ErrUploadExpired)
  else if negb (zlen clientParts =? PartsTotal upload) then (b, inr ErrClientProtocol)
  else match listParts e with
       | None => (b, inr (if bool_decide (NoDup (fst <$> clientParts))
                            && forallb (fun cp => (1 <=? fst cp) && (fst cp <=? PartsTotal upload)) clientParts
                          then ErrListParts else ErrClientProtocol))
       | Some parts => if clientPartsOk clientParts parts upload then finalizeUpload b e upload tags
                       else (b, inr ErrClientProtocol)
       end.

Definition ConfirmUploadV2 (b : backend) (e : senv) (uploadID : string) (clientParts : list (Z * string))
    (tags : option (gmap string string)) : backend * (unit + uploadError) :=
  match GetUpload (store b) uploadID with
  | inr err => (b, inr (Base (Store err)))
  | inl upload => confirmV2Read b e upload clientParts tags
  end.

(** [ResumeUploadWithChecksums]: the numbers and sizes of the missing parts. *)
Definition ResumeUpload (b : backend) (e : senv) (uploadID : string) (partChecksums : list string)
    : backend * (list (Z * Z) + uploadError) :=
  match GetUpload (store b) uploadID with
  | inr err => (b, inr (Base (Store err)))
  | inl upload =>
      if negb (bool_decide (UStatus upload = UploadUploading)) then (b, inr (Base (Store ErrUploadNotActive)))
      else if UExpiresAt upload <? now (base e)
      then (fst (run (AbortUploadStore uploadID (now (base e))) b), inr ErrUploadExpired)
      else match listParts e with
           | None => (b, inr ErrListParts)
           | Some parts =>
               let all := CalcParts (TotalSize upload) (PartSize upload) in
               let missing := filter (fun p => ~ Exists (fun q => Number q = Number p) parts) all in
               if (0 <? zlen partChecksums) && negb (zlen partChecksums =? zlen all) then (b, inr ErrChecksumCount)
               else if (0 <? zlen missing) && negb (presignOK e) then (b, inr (Base ErrS3))
               else (b, inl ((fun p => (Number p, PSize p)) <$> missing))
           end
  end.

End uploads.

End Uploads.
