(* ===== verification/UploadSafety.v ===== *)
(** * What every upload call keeps

    The invariant of [FileSafety] under the upload protocol, one call at a time. *)

From S2P Require Import Prelude GoStrings PathUtil SemanticQueue FileGCQueue FileStore FileRules FileSafety Media.
From S2P Require Import Backend BackendSafety Uploads.

Import GoStr FileStore FileRules FileSafety Media Backend BackendSafety Uploads.

Module UploadSafety.

Section uploads.
Context (nfc typeByExtension toLower : string -> string) (cfg : config).

(** ** The uploads table *)

(** No upload becomes active, or changes the file it is for. *)
Lemma filesOk_uploads X d us :
  filesOkBut X d ->
  (forall k u', us !! k = Some u' -> exists u, uploads d !! k = Some u /\ UploadID u' = UploadID u
     /\ (isActive u' = true -> isActive u = true /\ UFileID u' = UFileID u)) ->
  filesOkBut X (set_uploads us d).
Proof.
  intros H Hus. pose proof H as []. split; try done. destruct uploads_ok0. split; cbn.
  - intros k u' Hu'. destruct (Hus k u' Hu') as (u & Hu & -> & _). by apply upload_key0.
  - intros k u' Hu' Ha. destruct (Hus k u' Hu') as (u & Hu & _ & Hact). destruct (Hact Ha) as [Ha' ->].
    by apply (upload_pending0 k u).
  - intros k k' u u' Hu Hu' Ha Ha' E. destruct (Hus k u Hu) as (v & Hv & _ & Hact).
    destruct (Hus k' u' Hu') as (v' & Hv' & _ & Hact'). destruct (Hact Ha) as [? ?]. destruct (Hact' Ha') as [? ?].
    eapply upload_unique0; [done..|congruence].
Qed.

(** Ending an upload: it is not active afterwards, if it was in one of the states. *)
Lemma setUploadStatus_ok X st from k now d :
  filesOkBut X d -> st <> UploadInitiated -> st <> UploadUploading ->
  wp (setUploadStatus st from k now)
    (fun _ d' => filesOkBut X d' /\ file_nodes d' = file_nodes d /\ inodes d' = inodes d /\ contents d' = contents d
       /\ forall k' u, uploads d' !! k' = Some u -> isActive u = true ->
            uploads d !! k' = Some u /\ (k' = k -> UStatus u ∉ from)) d.
Proof.
  intros H H1 H2. unfold setUploadStatus. wp_steps. split; [|split_and!; try done].
  - apply filesOk_uploads; [done|]. intros k' u' Hu'.
    apply lookup_alter_Some in Hu' as [(<- & u & Hu & ->)|[_ Hu]]; [|by exists u']. exists u. case_bool_decide; cbn; [|done].
    split_and!; try done. by destruct st.
  - cbn. intros k' u Hk Ha. apply lookup_alter_Some in Hk as [(<- & v & Hv & ->)|[Hne Hu]]; [|by split].
    case_bool_decide as Hin; [|done]. by destruct st.
Qed.

(** A pending file is marked deleted when its upload has ended. *)
Lemma markPending_ok f d :
  filesOk d -> pending d f ->
  (forall k u, uploads d !! k = Some u -> isActive u = true -> UFileID u <> f) ->
  wp (MarkFileDeleted f) (fun _ => filesOk) d.
Proof.
  intros H Hp Hup. unfold MarkFileDeleted, markFilesDeletedTx. cbn [forEach]. wp_steps.
  wp_apply markOne_ok; [done|..|done|].
  - intros Hr. destruct (referenced_live _ _ _ H Hr) as [_ Hl]. by apply (pending_not_live d f).
  - intros i Hi. right. destruct Hp as (i' & c & Hi' & _ & Hs). rewrite Hi in Hi'. injection Hi' as <-.
    by apply (pending_first _ _ H f i).
  - intros [] d' (H' & _). by wp_steps.
Qed.

(** Ending an upload that is under way together with its file. *)
Lemma abortUpload_ok b u now :
  filesOk (store b) -> uploads (store b) !! UploadID u = Some u -> isActive u = true ->
  filesOk (store (fst (run (MarkFileDeleted (UFileID u)) (fst (run (AbortUploadV2Store (UploadID u) now) b))))).
Proof.
  intros H Hu Ha. set (m := AbortUploadV2Store (UploadID u) now).
  assert (wp m (fun _ d' => filesOk d' /\ pending d' (UFileID u)
    /\ forall k v, uploads d' !! k = Some v -> isActive v = true -> UFileID v <> UFileID u) (store b)) as Hw.
  { wp_apply setUploadStatus_ok; [done..|]. intros [] d' (H' & En & Ei & Ec & Hact). split; [done|]. split.
    - unfold pending. rewrite Ei, Ec. by eapply upload_file_pending.
    - intros k v Hv Hav E. destruct (Hact k v Hv Hav) as [Hv0 Hk].
      assert (k = UploadID u) as -> by (by apply (upload_unique _ _ _ (uploads_ok _ _ H) _ _ v u)).
      simplify_eq. apply Hk; [done|]. unfold isActive in Ha. apply orb_true_iff in Ha as [Ha|Ha]; bool_prop; rewrite Ha, !elem_of_cons; auto. }
  unfold run at 2, InTx. unfold wp in Hw. destruct (m (store b)) as [[d' []]|] eqn:Em; [|done].
  destruct Hw as (H' & Hp & Hup). apply run_ok; [done|]. by apply markPending_ok.
Qed.

Lemma GetUpload_key d k u : filesOk d -> GetUpload d k = inl u -> uploads d !! UploadID u = Some u /\ UploadID u = k.
Proof.
  intros H Hg. unfold GetUpload in Hg. destruct (uploads d !! k) as [u'|] eqn:Hu; [|done]. simplify_eq.
  rewrite (upload_key _ _ _ (uploads_ok _ _ H) k u Hu). done.
Qed.

Lemma AbortUploadV2_ok b e k : filesOk (store b) -> filesOk (store (AbortUploadV2 b e k)).
Proof.
  intros H. unfold AbortUploadV2. destruct (GetUpload (store b) k) as [u|] eqn:Hg; [|done].
  destruct (GetUpload_key _ _ _ H Hg) as [Hu _]. unfold abortV2Read. case_bool_decide as Hin; [done|].
  assert (isActive u = true) as Ha.
  { unfold isActive. rewrite !elem_of_cons in Hin. by destruct (UStatus u); try done; exfalso; apply Hin; auto. }
  destruct (upload_pending _ _ _ (uploads_ok _ _ H) _ u Hu Ha) as [Hf _].
  rewrite bool_decide_false by done. by apply abortUpload_ok.
Qed.

Lemma AbortUpload_ok b e k : filesOk (store b) -> filesOk (store (fst (AbortUpload b e k))).
Proof.
  intros H. unfold AbortUpload. destruct (GetUpload (store b) k) as [u|]; [|done]. case_if; [done|].
  assert (filesOk (store (fst (run (AbortUploadStore k (now (base e))) b)))) as Hr.
  { apply run_ok; [done|]. wp_apply setUploadStatus_ok; [done..|]. by intros [] d' []. }
  by destruct (run _ b) as [b' r].
Qed.

(** ** Initiating *)

(** A file is only inserted under an id that no inode has. *)
Lemma InsertFileTx_new fl now d :
  wp (InsertFileTx fl now)
    (fun _ d' => inodes d !! FFileID fl = None /\ uploads d' = uploads d
       /\ exists i c, inodes d' !! FFileID fl = Some i /\ contents d' !! FFileID fl = Some c /\ status i = Status fl) d.
Proof.
  unfold InsertFileTx, insertSplitTablesTx, insertInodeRow, insertContentRow, insertSemanticRow. wp_steps.
  destruct (files d); wp_steps; bool_prop; cbn in *.
  all: split; [by apply eq_None_not_Some|]; split; [done|]; eexists _, _; by rewrite !lookup_insert_eq.
Qed.

(** A new upload for a pending file that no other upload is for. *)
Lemma InsertUploadTx_ok X u d :
  filesOkBut X d -> UFileID u <> "" -> pending d (UFileID u) ->
  (forall k v, uploads d !! k = Some v -> isActive v = true -> UFileID v <> UFileID u) ->
  wp (InsertUploadTx u) (fun _ => filesOkBut X) d.
Proof.
  intros H Hf Hp Hup. unfold InsertUploadTx. wp_steps. bool_prop. pose proof H as []. split; try done.
  destruct uploads_ok0. split; cbn.
  - intros k v Hv. apply lookup_insert_Some in Hv as [[<- <-]|[_ Hv]]; [done|]. by apply upload_key0.
  - intros k v Hv Ha. apply lookup_insert_Some in Hv as [[<- <-]|[_ Hv]]; [done|]. by apply (upload_pending0 k).
  - intros k k' v v' Hv Hv' Ha Ha' E.
    apply lookup_insert_Some in Hv as [[<- <-]|[_ Hv]]; apply lookup_insert_Some in Hv' as [[<- <-]|[_ Hv']]; try done.
    + by destruct (Hup k' v' Hv' Ha').
    + by destruct (Hup k v Hv Ha).
    + by eapply upload_unique0.
Qed.

(** The pending file of an initiation and its upload. *)
Lemma insertPending_ok e u n d :
  filesOk d -> newFileID (base e) <> "" -> UFileID u = newFileID (base e) ->
  wp (InsertFileTx (pendingFile cfg e n) (now (base e)) ;; InsertUploadTx u) (fun _ => filesOk) d.
Proof.
  intros H Hf Eu. wp_step.
  wp_apply wp_and; [apply (InsertFileTx_ok (fun _ => False)); [done|done|done]|apply InsertFileTx_new|].
  intros [] d1 [(H1 & _) (Hn & Eup & i & c & Hi & Hc & Hs)]. apply InsertUploadTx_ok.
  - eapply filesOk_weaken; [done|]. by intros f [|[_ ?]].
  - by rewrite Eu.
  - rewrite Eu. by exists i, c.
  - rewrite Eup, Eu. intros k v Hv Ha E. destruct (upload_file_pending _ _ _ _ H Hv Ha) as (? & ? & Hi' & _).
    cbn in Hn. congruence.
Qed.

Lemma initiateTx_ok e u d :
  filesOk d -> newFileID (base e) <> "" -> UFileID u = newFileID (base e) ->
  wp (initiateTx cfg e u) (fun _ => filesOk) d.
Proof.
  intros H Hf Eu. unfold initiateTx. wp_step.
  assert (wp (if useServerQuota cfg then ok tt else ensureTenantStorageQuotaTx cfg (base e) (TargetPath u) (TotalSize u))
    (fun _ d' => d' = d) d) as Hq.
  { case_if; [done|]. unfold ensureTenantStorageQuotaTx. case_if; by wp_steps. }
  wp_apply Hq. intros [] d0 ->. by apply insertPending_ok.
Qed.

Lemma initiateWith_ok b e u :
  filesOk (store b) -> newFileID (base e) <> "" -> UFileID u = newFileID (base e) ->
  filesOk (store (fst (initiateWith cfg b e u))).
Proof.
  intros H Hf Eu. unfold initiateWith. case_if; [done|].
  pose proof (run_ok _ b H (initiateTx_ok e u _ H Hf Eu)) as Hr. by destruct (run _ b) as [b' [|]].
Qed.

Lemma InitiateUpload_ok b e p n cs r descr :
  filesOk (store b) -> newFileID (base e) <> "" -> filesOk (store (fst (InitiateUpload nfc cfg b e p n cs r descr))).
Proof.
  intros H Hf. unfold InitiateUpload. destruct (initiateChecks _ _ _ _ _ _ _ _) as [q|]; [|done].
  destruct (createMultipart e); [|done]. do 3 (case_if; [done|]). by apply initiateWith_ok.
Qed.

Lemma InitiateUploadV2_ok b e p n r descr :
  filesOk (store b) -> newFileID (base e) <> "" -> filesOk (store (fst (InitiateUploadV2 nfc cfg b e p n r descr))).
Proof.
  intros H Hf. unfold InitiateUploadV2. destruct (initiateChecks _ _ _ _ _ _ _ _) as [q|]; [|done].
  do 2 (case_if; [done|]). destruct (createMultipart e); [|done]. by apply initiateWith_ok.
Qed.

(** ** Presigning *)

Lemma TransitionUploadStatus_ok k now d :
  filesOk d -> wp (TransitionUploadStatus k UploadInitiated UploadUploading now) (fun _ => filesOk) d.
Proof.
  intros H. unfold TransitionUploadStatus. wp_steps. destruct (uploads d !! k) as [u|] eqn:Hu; wp_steps. bool_prop.
  apply filesOk_uploads; [done|]. intros k' u' Hu'. apply lookup_insert_Some in Hu' as [[<- <-]|[_ Hu']]; [|by exists u'].
  exists u. split_and!; try done. intros _. unfold isActive. split; [|done].
  match goal with Hst : UStatus u = UploadInitiated |- _ => by rewrite Hst end.
Qed.

Lemma ensureUploadPresignable_ok b e u :
  filesOk (store b) -> filesOk (store (fst (ensureUploadPresignable b e u))).
Proof.
  intros H. unfold ensureUploadPresignable. case_if; [done|]. case_if; [by apply AbortUploadV2_ok|]. case_if; [done|].
  pose proof (run_ok _ b H (TransitionUploadStatus_ok (UploadID u) (now (base e)) _ H)) as Hr.
  destruct (run _ b) as [b' [[]|[[]|?| | | | | | | | | |]]]; cbn in *; try done.
  destruct (GetUpload (store b') (UploadID u)); [|done]. repeat (case_if; [done|]).
  case_if; [by apply AbortUploadV2_ok|done].
Qed.

Lemma PresignPart_ok b e k x : filesOk (store b) -> filesOk (store (fst (PresignPart b e k x))).
Proof.
  intros H. unfold PresignPart. destruct (GetUpload (store b) k) as [u|]; [|done].
  pose proof (ensureUploadPresignable_ok b e u H) as Hr. by destruct (ensureUploadPresignable b e u) as [b' [|]].
Qed.

Lemma PresignParts_ok b e k xs : filesOk (store b) -> filesOk (store (fst (PresignParts b e k xs))).
Proof.
  intros H. unfold PresignParts. destruct (GetUpload (store b) k) as [u|]; [|done].
  pose proof (ensureUploadPresignable_ok b e u H) as Hr. destruct (ensureUploadPresignable b e u) as [b' [|]]; [|done].
  by case_if.
Qed.

Lemma ResumeUpload_ok b e k cs : filesOk (store b) -> filesOk (store (fst (ResumeUpload b e k cs))).
Proof.
  intros H. unfold ResumeUpload. destruct (GetUpload (store b) k) as [u|]; [|done]. case_if; [done|]. case_if.
  - apply run_ok; [done|]. wp_apply setUploadStatus_ok; [done..|]. by intros [] d' [].
  - destruct (listParts e); [|done]. by repeat case_if.
Qed.

(** ** Confirming *)

Lemma keeps_uploads_update f expected preserve u now : keeps uploads (updateFileContentTx f expected preserve u now).
Proof.
  unfold updateFileContentTx, updateLegacyContentTx, UpdateInodeContentTx, UpdateContentTx, updateInode,
    updateContent, updateSemanticNoEmbedTx, UpdateSemanticTx, updateSemantic. keeps_tac.
Qed.

Lemma keeps_uploads_encryption f m k : keeps uploads (UpdateFileStorageEncryptionTx f m k).
Proof. unfold UpdateFileStorageEncryptionTx, updateLegacy, updateContent. keeps_tac. Qed.

Lemma keeps_uploads_tags f tags : keeps uploads (replaceTags f tags).
Proof. unfold replaceTags, ReplaceFileTagsTx, insertTag. keeps_tac. Qed.

(** The new rows of a pending file, with its legacy copy. *)
Lemma filesOk_settle_pending Y f i c l v d :
  filesOk d -> pending d f -> legacyAgrees (Some l) (Some i) (Some c) ->
  status i <> StatusPending -> (status i = StatusConfirmed -> Y f) ->
  (status i = StatusDeleted -> confirmed_at i = None) ->
  (forall k u, uploads d !! k = Some u -> isActive u = true -> UFileID u <> f) ->
  (forall g, is_Some (semantic d !! g) -> is_Some (v !! g)) ->
  filesOkBut Y (set_semantic v (set_contents (<[f := c]> (contents d))
    (set_inodes (<[f := i]> (inodes d)) (set_files (insert f l <$> files d) d)))).
Proof.
  intros H Hp Hl Hs HY Hdel Hup Hv. pose proof Hp as (i0 & c0 & Hi0 & Hc0 & Hs0).
  assert (~ referenced d f) as Hr.
  { intros Hr. destruct (referenced_live _ _ _ H Hr) as [_ Hlv]. by apply (pending_not_live d f). }
  apply (filesOk_put (fun _ => False) Y (set_semantic v d)); try done; cbn.
  - by apply filesOk_semantic.
  - intros ?. left. auto.
  - intros Hd Ha. by rewrite (Hdel Hd) in Ha.
  - destruct (gc_tasks d !! f) as [t|] eqn:Ht; [|done].
    destruct (task_dead _ _ H f t Ht) as (i' & ? & Hi' & _ & Hs' & _). simplify_eq. congruence.
  - apply Hv. by apply (semantic_row _ _ H f c0).
Qed.

Lemma legacy_alter d f (g : fileRow -> fileRow) l :
  (forall m, files d = Some m -> m !! f = Some l) ->
  alter g f <$> files d = insert f (g l) <$> files d.
Proof. intros Hm. destruct (files d) as [m|]; [|done]. cbn. f_equal. apply alter_is_insert. by apply Hm. Qed.

(** The legacy row of a file, when there is the table. *)
Lemma legacy_row X d f i c :
  filesOkBut X d -> inodes d !! f = Some i -> contents d !! f = Some c ->
  exists l, legacyAgrees (Some l) (Some i) (Some c) /\ forall m, files d = Some m -> m !! f = Some l.
Proof.
  intros H Hi Hc. pose proof (fun m => legacy_agrees _ _ H m f) as Ha. rewrite Hi, Hc in Ha.
  destruct (files d) as [m|].
  - specialize (Ha m eq_refl). destruct (m !! f) as [l|] eqn:Hl; [|done]. exists l. split; [done|]. by intros m' [= <-].
  - exists {| f_content := c;
              f_semantic := {| content_text := None; description := None; embedding_revision := None;
                               description_embedding_revision := None |};
              f_size := size_bytes i; f_revision := revision i; f_status := status i; f_created_at := 0;
              f_confirmed_at := confirmed_at i; f_expires_at := None |}.
    split; [|done]. by exists i, c.
Qed.

Lemma DeletePendingFileTx_ok f now d :
  filesOk d -> (forall k u, uploads d !! k = Some u -> isActive u = true -> UFileID u <> f) ->
  wp (DeletePendingFileTx f now) (fun _ => filesOk) d.
Proof.
  intros H Hup. unfold DeletePendingFileTx, updateLegacy, updateInode, updateContent. wp_steps. bool_prop.
  destruct (inodes d !! f) as [i|] eqn:Hi; [|done]. cbn in *. 
  match goal with Hst : Some (status i) = Some StatusPending |- _ => injection Hst as Hs end.
  destruct (pending_first _ _ H f i Hi Hs) as (Hrev & Hca & [c Hc]).
  destruct (legacy_row _ _ _ _ _ H Hi Hc) as (l & Hl & Hm).
  rewrite (legacy_alter d f _ l Hm), (alter_is_insert _ f (inodes d) i), (alter_is_insert _ f (contents d) c) by done.
  assert (pending d f) as Hp by by exists i, c.
  destruct Hl as (i' & c' & [= <-] & [= <-] & E1 & E2 & E3 & E4 & E5 & E6 & E7).
  refine (filesOk_settle_pending (fun _ => False) f _ _ _ (semantic d) d H Hp _ _ _ _ Hup _); try done.
  eexists _, _. split; [done|]. split; [done|]. cbn. by rewrite E5, E7.
Qed.

(** The rows of an uploaded file. *)
Definition confirmedInode (u : Update) (now : Z) (i : inodeRow) : inodeRow :=
  {| size_bytes := uSize u; revision := 1; mode := mode i; status := StatusConfirmed; created_at := created_at i;
     mtime := now; confirmed_at := Some now; expires_at := expires_at i |}.
Definition confirmedContent (u : Update) (c : contentRow) : contentRow :=
  {| storage_type := uStorageType u; storage_ref := uStorageRef u;
     encryption_mode := fileStorageEncryptionModeForWrite (encryption_mode c);
     encryption_key_id := encryption_key_id c; content_blob := None; content_type := nullStr (uContentType u);
     checksum_sha256 := None; source_id := source_id c |}.

Lemma confirmPendingTx_ok auto f u now d :
  filesOk d -> (forall k v, uploads d !! k = Some v -> isActive v = true -> UFileID v <> f) ->
  wp (confirmPendingTx auto f u now) (fun _ d' => filesOkBut (fun g => g = f) d' /\ is_Some (contents d' !! f)) d.
Proof.
  intros H Hup. unfold confirmPendingTx, requirePending. wp_steps.
  assert (exists i, inodes d !! f = Some i /\ status i = StatusPending) as (i & Hi & Hs).
  { apply negb_false_iff in Hg. destruct (files d) as [m|] eqn:Hf; bool_prop.
    - pose proof (legacy_agrees _ _ H m f Hf) as Ha. destruct (m !! f) as [l|]; [|done].
      destruct Ha as (i & c & Hi & _ & E & _). exists i. cbn in *. split; congruence.
    - destruct (inodes d !! f) as [i|]; [|done]. exists i. cbn in *. split; congruence. }
  destruct (pending_first _ _ H f i Hi Hs) as (Hrev & Hca & [c Hc]).
  destruct (legacy_row _ _ _ _ _ H Hi Hc) as (l & Hl & Hm).
  destruct Hl as (i' & c' & [= <-] & [= <-] & E1 & E2 & E3 & E4 & E5 & E6 & E7).
  assert (pending d f) as Hp by by exists i, c.
  unfold updateLegacy, UpdateInodeContentTx, UpdateContentTx, updateInode, updateContent, UpdateSemanticTx,
    updateSemanticNoEmbedTx, updateSemantic. wp_steps. cbn.
  rewrite (legacy_alter d f _ l Hm), (alter_is_insert _ f (inodes d) i), (alter_is_insert _ f (contents d) c) by done.
  rewrite Hc. cbn.
  assert (forall v, (forall g, is_Some (semantic d !! g) -> is_Some (v !! g)) ->
    filesOkBut (fun g => g = f) (set_semantic v (set_contents (<[f := confirmedContent u c]> (contents d))
      (set_inodes (<[f := confirmedInode u now i]> (inodes d))
         (set_files (insert f (legacyConfirmed u auto now l) <$> files d) d))))) as Hput.
  { intros v Hv. apply filesOk_settle_pending; try done. eexists _, _. split; [done|]. split; [done|]. cbn.
    by rewrite E3, Hrev. }
  destruct auto; [destruct (bool_decide (uDescription u = ""))|]; wp_steps; cbn.
  - split; [|by rewrite lookup_insert_eq]. exact (Hput (semantic d) (fun _ x => x)).
  - split; [|by rewrite lookup_insert_eq]. refine (Hput _ _). intros g Hgs. by rewrite lookup_alter_is_Some.
  - split; [|by rewrite lookup_insert_eq]. refine (Hput _ _). intros g Hgs. by rewrite lookup_alter_is_Some.
Qed.

Lemma keeps_uploads_deletePending f now : keeps uploads (DeletePendingFileTx f now).
Proof. unfold DeletePendingFileTx, updateLegacy, updateInode, updateContent. keeps_tac. Qed.

(** The upload has ended, and no other upload is for its file. *)
Definition ended (u : Upload) (d : db) : Prop :=
  (forall k v, uploads d !! k = Some v -> isActive v = true -> UFileID v <> UFileID u)
  /\ forall v, uploads d !! UploadID u = Some v -> isActive v = false.

Lemma ended_keeps {A} u (m : tx A) d : keeps uploads m -> ended u d -> wp m (fun _ d' => ended u d') d.
Proof. intros Hk Hn. wp_apply Hk. intros a d' E. unfold ended. by rewrite E. Qed.

Lemma finalizeOverwriteTx_ok e u f ct tags d :
  filesOk d -> live d f -> ended u d ->
  wp (finalizeOverwriteTx toLower cfg e u f ct tags) (fun _ => filesOk) d.
Proof.
  intros H Hl Hn. unfold finalizeOverwriteTx. wp_steps.
  destruct (GetFileStorageMetaForUpdateTx d f) as [[[t r] rev]|]; wp_steps.
  wp_apply wp_and; [by apply updateFileContentTx_ok|apply wp_and; [by apply live_after_update|]|].
  { apply ended_keeps; [apply keeps_uploads_update|exact Hn]. }
  intros newRev d1 (H1 & Hl1 & Hn1). wp_steps.
  wp_apply wp_and; [by apply UpdateFileStorageEncryptionTx_ok|by apply ended_keeps; [apply keeps_uploads_encryption|]|].
  intros [] d2 [H2 Hn2]. wp_steps.
  wp_apply wp_and; [by apply replaceTags_ok|by apply ended_keeps; [apply keeps_uploads_tags|]|].
  intros [] d3 [H3 Hn3]. wp_steps.
  wp_apply wp_and; [apply DeletePendingFileTx_ok; [done|apply Hn3]|
                    by apply ended_keeps; [apply keeps_uploads_deletePending|]|].
  intros [] d4 [H4 [_ Hk4]]. wp_steps.
  wp_apply enqueueSemanticTx_ok; [|intros [] d5 H5; wp_steps; exact H5].
  apply filesOk_uploads; [done|]. intros k v' Hv. apply lookup_alter_Some in Hv as [(<- & v & Hv & ->)|[_ Hv]]; [|by exists v'].
  exists v. split_and!; [done..|]. intros Ha. unfold isActive in Ha. cbn in Ha. specialize (Hk4 v Hv).
  unfold isActive in Hk4. congruence.
Qed.

Lemma finalizeCreateTx_ok e u ct tags d :
  filesOk d -> UFileID u <> "" -> ended u d ->
  wp (finalizeCreateTx toLower cfg e u ct tags) (fun _ => filesOk) d.
Proof.
  intros H Hf [Hn _]. unfold finalizeCreateTx. wp_steps. wp_apply confirmPendingTx_ok; [done..|].
  intros [] d1 [H1 Hc]. wp_steps.
  assert (wp (InsertNodeTx (fileNode (newNodeID (base e)) (TargetPath u) (UFileID u) (now (base e))))
    (fun _ => filesOk) d1) as Hi.
  { wp_apply InsertNodeTx_ok; [done|done|by right|]. intros [] d2 H2. eapply filesOk_weaken; [done|].
    cbn. unfold nullStr. rewrite bool_decide_false by done. by intros g [-> Hng]. }
  unfold mapError. unfold wp in Hi |- * at 1. destruct (InsertNodeTx _ d1) as [[d2 []]|]; [|done]. wp_steps.
  wp_apply replaceTags_ok; [done|]. intros [] d3 H3. wp_steps.
  wp_apply enqueueSemanticTx_ok; [done|]. intros [] d4 H4. by wp_steps.
Qed.

(** Marking an upload as completed ends it. *)
Lemma completed_ended u d d1 :
  filesOk d -> uploads d !! UploadID u = Some u -> UStatus u = UploadUploading ->
  (forall k v, uploads d1 !! k = Some v -> isActive v = true ->
     uploads d !! k = Some v /\ (k = UploadID u -> UStatus v ∉ [UploadUploading])) ->
  ended u d1.
Proof.
  intros H Hu Hs Hact. assert (isActive u = true) as Ha by (unfold isActive; by rewrite Hs). split.
  - intros k v Hv Hav E. destruct (Hact k v Hv Hav) as [Hv0 Hk].
    assert (k = UploadID u) as -> by (by apply (upload_unique _ _ _ (uploads_ok _ _ H) _ _ v u)).
    simplify_eq. apply Hk; [done|]. rewrite Hs. left.
  - intros v Hv. destruct (isActive v) eqn:Hav; [|done]. destruct (Hact _ _ Hv Hav) as [Hv0 Hk].
    simplify_eq. destruct Hk; [done|]. rewrite Hs. left.
Qed.

Lemma finalizeTx_ok e u tags d :
  filesOk d -> uploads d !! UploadID u = Some u -> UStatus u = UploadUploading ->
  wp (finalizeTx typeByExtension toLower cfg e u tags) (fun _ => filesOk) d.
Proof.
  intros H Hu Hs. assert (isActive u = true) as Ha by (unfold isActive; by rewrite Hs).
  destruct (upload_pending _ _ _ (uploads_ok _ _ H) _ u Hu Ha) as [Hf _].
  unfold finalizeTx. wp_steps. wp_apply setUploadStatus_ok; [done..|].
  intros [] d1 (H1 & _ & _ & _ & Hact). wp_steps.
  pose proof (completed_ended u d d1 H Hu Hs Hact) as He.
  wp_apply wp_and; [by apply EnsureParentDirsTx_ok|apply EnsureParentDirsTx_frame|].
  intros [] d2 [H2 (_ & _ & Eu)]. wp_steps.
  assert (ended u d2) as He2 by (unfold ended; by rewrite Eu).
  destruct (nodeAt d2 (TargetPath u)) as [[id r]|] eqn:Hn; cbn [mbind option_bind snd].
  - destruct (file_id r) as [f|] eqn:Hfr; [|by apply finalizeCreateTx_ok].
    apply finalizeOverwriteTx_ok; [done| |done]. apply nodeAt_spec in Hn as [Hr _].
    by apply (nodes_ok _ _ H2 id r Hr).
  - by apply finalizeCreateTx_ok.
Qed.

Lemma finalizeUpload_ok b e u tags :
  filesOk (store b) -> uploads (store b) !! UploadID u = Some u -> UStatus u = UploadUploading ->
  filesOk (store (fst (finalizeUpload typeByExtension toLower cfg b e u tags))).
Proof.
  intros H Hu Hs. unfold finalizeUpload. case_if; [done|]. set (b0 := set_objects _ b).
  pose proof (run_ok _ b0 H (finalizeTx_ok e u tags _ H Hu Hs)) as Hr.
  assert (isActive u = true) as Ha by (unfold isActive; by rewrite Hs).
  destruct (upload_pending _ _ _ (uploads_ok _ _ H) _ u Hu Ha) as [Hf _].
  destruct (run _ b0) as [b1 [old|err]] eqn:Erun; cbn [fst] in *.
  - destruct old as [[t r]|]; [by rewrite store_deleteBlobIfS3|done].
  - unfold cleanupFailedFinalizeUpload. rewrite bool_decide_false by done.
    assert (store b1 = store b0) as E1.
    { unfold run, InTx in Erun. destruct (finalizeTx _ _ _ _ _ _ _) as [[d x]|]; simplify_eq; done. }
    apply abortUpload_ok; [rewrite store_deleteBlob, E1; done|rewrite store_deleteBlob, E1; exact Hu|done].
Qed.

Lemma ConfirmUpload_ok b e k tags :
  filesOk (store b) -> filesOk (store (fst (ConfirmUpload typeByExtension toLower cfg b e k tags))).
Proof.
  intros H. unfold ConfirmUpload, confirmRead. destruct (GetUpload (store b) k) as [u|] eqn:Hg; [|done].
  destruct (GetUpload_key _ _ _ H Hg) as [Hu _]. case_if; [done|]. bool_prop.
  destruct (listParts e); [|done]. case_if; [done|]. by apply finalizeUpload_ok.
Qed.

Lemma ConfirmUploadV2_ok b e k cps tags :
  filesOk (store b) -> filesOk (store (fst (ConfirmUploadV2 typeByExtension toLower cfg b e k cps tags))).
Proof.
  intros H. unfold ConfirmUploadV2, confirmV2Read. destruct (GetUpload (store b) k) as [u|] eqn:Hg; [|done].
  destruct (GetUpload_key _ _ _ H Hg) as [Hu _]. case_if; [done|]. bool_prop.
  case_if; [by apply AbortUploadV2_ok|]. case_if; [done|]. destruct (listParts e); [|done].
  case_if; [by apply finalizeUpload_ok|done].
Qed.

End uploads.

End UploadSafety.
