(* ===== verification/FileGCWorker.v ===== *)
(** * The worker that cleans up orphaned files

    Model of [src/pkg/backend/file_gc_worker.go]: the worker claims a cleanup task,
    hands the object of the file to the object garbage collector and acknowledges the
    task, or puts it back with a delay.  The answers of the central store (whether the
    file's quota rows could be removed and whether the candidate was recorded) are
    arguments. *)

From S2P Require Import Prelude GoStrings PathUtil Json Sha256 SemanticQueue FileGCQueue FileStore FileRules FileSafety.
From S2P Require Import Media Backend BackendSafety.

Import GoStr FileStore FileSafety Backend BackendSafety.

Module FileGCWorker.

Record FileGCWorkerOptions := {
  PollInterval : Z;
  LeaseDuration : Z;
  BatchSize : Z;
  RecoverLimit : Z;
  RetryBase : Z;
  RetryMax : Z
}.

Definition second : Z := 1000000000.

Definition orDefault (z dflt : Z) : Z := if z <=? 0 then dflt else z.

Definition defaultFileGCRetryBaseDelay : Z := 2 * second.
Definition defaultFileGCRetryMaxDelay : Z := 120 * second.

Definition normalize (o : FileGCWorkerOptions) : FileGCWorkerOptions :=
  {| PollInterval := orDefault (PollInterval o) (10 * second);
     LeaseDuration := orDefault (LeaseDuration o) (300 * second);
     BatchSize := orDefault (BatchSize o) 100;
     RecoverLimit := orDefault (RecoverLimit o) 100;
     RetryBase := orDefault (RetryBase o) defaultFileGCRetryBaseDelay;
     RetryMax := orDefault (RetryMax o) defaultFileGCRetryMaxDelay |}.

(** [for i := 1; i < attempt && delay < max; i++ { delay *= 2 }], with [n] the rounds
    that [attempt] leaves. *)
Fixpoint doubled (n : nat) (delay max : Z) : Z :=
  match n with
  | O => delay
  | S n => if delay <? max then doubled n (wrap64 (delay * 2)) max else delay
  end.

Definition fileGCRetryDelay (attempt base max : Z) : Z :=
  let base := orDefault base defaultFileGCRetryBaseDelay in
  let max := orDefault max defaultFileGCRetryMaxDelay in
  if attempt <=? 1 then base
  else
    let delay := doubled (Z.to_nat (attempt - 1)) base max in
    if max <? delay then max else delay.

(** What one round of the worker gets from outside. *)
Record gcEnv := {
  claimAt : Z;
  claimLocked : gset string;     (** rows other workers hold locks on *)
  newReceipt : string;
  centralOK : bool;              (** [deleteCentralFileMetaForGCTask] *)
  candidateOK : bool;            (** [EnqueueObjectGCCandidate] *)
  failure : string;              (** the text of the error, when there is one *)
  endAt : Z                      (** when the task is acknowledged or put back *)
}.

Section worker.
Context (cfg : config).

(** [processFileGCTask]: the candidates and whether the task is done. *)
Definition processFileGCTask (e : gcEnv) (task : FileGC.FileGCTask) (b : backend) : backend * bool :=
  if negb (centralOK e) then (b, false)
  else if bool_decide (FileGC.StorageType task = "s3") && negb (bool_decide (FileGC.StorageRef task = "")) then
    if objectGC cfg && candidateOK e
    then ({| store := store b; objects := objects b; candidates := candidates b ++ [FileGC.StorageRef task] |}, true)
    else (b, false)
  else (b, true).

Definition setTasks (t : FileGC.table) (b : backend) : backend := set_store (set_gc t (store b)) b.

(** What the worker does with a task it has claimed. *)
Definition finishFileGCTask (opts : FileGCWorkerOptions) (e : gcEnv) (task : FileGC.FileGCTask) (b : backend) : backend :=
  let '(b, done) := processFileGCTask e task b in
  let t := gc_tasks (store b) in
  if done then setTasks (fst (FileGC.AckFileGCTask t (FileGC.TaskID task) (FileGC.Receipt task) (endAt e))) b
  else
    let retryAt := endAt e + fileGCRetryDelay (FileGC.AttemptCount task) (RetryBase opts) (RetryMax opts) in
    setTasks (fst (FileGC.RetryFileGCTask t (FileGC.TaskID task) (FileGC.Receipt task) (Some retryAt) (failure e)
                 (endAt e))) b.

(** Whether a task was found. *)
Definition processOneFileGCTask (opts : FileGCWorkerOptions) (e : gcEnv) (b : backend) : backend * bool :=
  match FileGC.ClaimFileGCTask (gc_tasks (store b)) (claimLocked e) (newReceipt e) (claimAt e) (LeaseDuration opts) with
  | (t, None) => (setTasks t b, false)
  | (t, Some task) => (finishFileGCTask opts e task (setTasks t b), true)
  end.

(** The loop of [processAvailable], one environment for each round. *)
Fixpoint processBatch (opts : FileGCWorkerOptions) (rounds : list gcEnv) (b : backend) : backend :=
  match rounds with
  | [] => b
  | e :: rounds =>
      let '(b, processed) := processOneFileGCTask opts e b in
      if processed then processBatch opts rounds b else b
  end.

(** [processAvailable]; [sorted] is the order in which the database returns the rows
    whose lease is over. *)
Definition processAvailable (opts : FileGCWorkerOptions) (sorted : list FileGC.row -> list FileGC.row)
    (locked : gset string) (now : Z) (rounds : list gcEnv) (b : backend) : backend :=
  let b := setTasks (fst (FileGC.RecoverExpiredFileGCTasks sorted (gc_tasks (store b)) locked now (RecoverLimit opts))) b in
  processBatch opts (take (Z.to_nat (BatchSize opts)) rounds) b.

End worker.

(** ** Delays *)

Lemma doubled_spec n delay max :
  0 < delay -> 0 < max < 2 ^ 62 ->
  let r := doubled n delay max in
  r = delay * 2 ^ Z.of_nat n \/ max <= r <= delay * 2 ^ Z.of_nat n.
Proof.
  revert delay. induction n as [|n IH]; intros delay Hd Hm; [left; cbn; lia|].
  cbn [doubled]. rewrite Nat2Z.inj_succ, Z.pow_succ_r by lia.
  assert (0 < 2 ^ Z.of_nat n) as Hpow by (apply Z.pow_pos_nonneg; lia).
  destruct (delay <? max) eqn:E; bool_prop; [|right; nia].
  rewrite wrap64_small by (unfold max_int64; lia).
  destruct (IH (delay * 2) ltac:(lia) Hm) as [Hr|Hr]; lia.
Qed.

(** The delay before a cleanup is tried again: the base for the first attempt, then
    twice as long after each attempt up to the maximum.  No delay is too short, and the
    arithmetic of 64 bits does not overflow for a maximum below 2^62 nanoseconds. *)
Theorem retry_backoff attempt base max :
  0 < base -> 0 < max < 2 ^ 62 ->
  fileGCRetryDelay attempt base max = if attempt <=? 1 then base else Z.min max (base * 2 ^ (attempt - 1)).
Proof.
  intros Hb Hm. unfold fileGCRetryDelay, orDefault.
  rewrite (proj2 (Z.leb_gt base 0)), (proj2 (Z.leb_gt max 0)) by lia.
  destruct (attempt <=? 1) eqn:Ea; [done|]. bool_prop.
  pose proof (doubled_spec (Z.to_nat (attempt - 1)) base max Hb Hm) as H. cbv zeta in H.
  rewrite Z2Nat.id in H by lia. destruct H as [->|Hr]; case_if; bool_prop; lia.
Qed.

Lemma retry_backoff_witness :
  0 < defaultFileGCRetryBaseDelay /\ 0 < defaultFileGCRetryMaxDelay < 2 ^ 62
  /\ fileGCRetryDelay 4 defaultFileGCRetryBaseDelay defaultFileGCRetryMaxDelay = 16 * second
  /\ fileGCRetryDelay 40 defaultFileGCRetryBaseDelay defaultFileGCRetryMaxDelay = 120 * second.
Proof.
  assert (0 < defaultFileGCRetryBaseDelay) as H1 by reflexivity.
  assert (0 < defaultFileGCRetryMaxDelay < 2 ^ 62) as H2 by by split.
  split_and!; [done|apply H2|apply H2| |].
  - by rewrite (retry_backoff 4 _ _ H1 H2).
  - by rewrite (retry_backoff 40 _ _ H1 H2).
Defined.

(** ** The worker keeps the store in order *)

(** A change of the cleanup tasks that keeps what they say. *)
Lemma filesOk_gc d t' :
  filesOk d -> FileGC.fileTable t' ->
  (forall f t, t' !! f = Some t -> exists t0, gc_tasks d !! f = Some t0 /\ FileGC.cleanup t = FileGC.cleanup t0) ->
  (forall f, is_Some (gc_tasks d !! f) -> is_Some (t' !! f)) ->
  filesOk (set_gc t' d).
Proof.
  intros [] Ht Hback Hforth. split; try done; cbn.
  - intros f t Hf. destruct (Hback f t Hf) as (t0 & H0 & ->). by apply task_dead0.
  - intros f i c Hi Hc Hs Ha. destruct (retired0 f i c Hi Hc Hs Ha); [by left|right; auto].
Qed.

(** Events of workers: no new task. *)
Definition byWorker (ev : FileGC.event) : Prop := FileGC.eventOk ev /\ forall task, ev <> FileGC.Enqueue task.

Lemma worker_fromFile ev : byWorker ev -> FileGC.fromFile ev.
Proof. intros [H Hn]. destruct ev; try done. by destruct (Hn task). Qed.

Lemma worker_back t now ev f r' :
  FileGC.fileTable t -> byWorker ev -> FileGC.apply t now ev !! f = Some r' ->
  exists r, t !! f = Some r /\ FileGC.cleanup r' = FileGC.cleanup r.
Proof.
  intros Ht [Hok Hn] Hr'.
  destruct (FileGC.gc_change t now ev f (FileGC.fileTable_keyed t Ht) Hok) as [E|[(task & -> & _)|(r & r1 & Hr & E & Hs)]].
  - exists r'. by rewrite <- E.
  - by destruct (Hn task).
  - rewrite Hr' in E. injection E as <-. exists r. split; [done|]. by destruct Hs.
Qed.

Lemma worker_event_ok d now ev :
  filesOk d -> byWorker ev -> filesOk (set_gc (FileGC.apply (gc_tasks d) now ev) d).
Proof.
  intros H Hev. pose proof (tasks_table _ _ H) as Ht.
  destruct (FileGC.cleanup_step (gc_tasks d) now ev Ht (worker_fromFile ev Hev)) as [Ht' Hk].
  apply filesOk_gc; [done|done| |].
  - intros f t Hf. by eapply worker_back.
  - intros f [r Hr]. destruct (Hk f r Hr) as (r' & -> & _). done.
Qed.

(** A task that is done has handed its object to the garbage collector. *)
Definition handedOver (b : backend) : Prop :=
  forall f t, gc_tasks (store b) !! f = Some t -> FileGC.status t = FileGC.FileGCTaskSucceeded ->
    FileGC.storage_type t = "s3" -> FileGC.storage_ref t <> "" -> FileGC.storage_ref t ∈ candidates b.

(** The task that a worker holds and the row it was claimed from. *)
Definition taskOf (t : FileGC.table) (task : FileGC.FileGCTask) : Prop :=
  exists r, t !! FileGC.TaskID task = Some r
    /\ FileGC.StorageType task = FileGC.storage_type r /\ FileGC.StorageRef task = FileGC.storage_ref r.

End FileGCWorker.
