(* ===== verification/ObjectSafety.v ===== *)
(** * The bytes of the files

    Where the bytes of a file are and that nothing deletes them: every confirmed file
    that is kept in object storage has its object there, no two files share one, and
    neither a candidate for object cleanup nor a cleanup task names the object of a file
    that can still be read. *)

From S2P Require Import Prelude GoStrings PathUtil Json Sha256 SemanticQueue FileGCQueue FileStore FileRules FileSafety.
From S2P Require Import Media Backend BackendSafety BackendContent Uploads UploadSafety FileGCWorker.

Import GoStr Paths FileStore FileRules FileSafety Media Backend BackendSafety Uploads UploadSafety FileGCWorker.

Module ObjectSafety.

#[local] Arguments String.append !_ _ / : simpl nomatch.

(** ** Quiet transactions *)

(** Where the bytes of a file are. *)
Definition place (d : db) (f : string) : option (string * string) :=
  (fun c => (storage_type c, storage_ref c)) <$> contents d !! f.

Definition statusOf (d : db) (f : string) : option FileStatus := status <$> inodes d !! f.

Definition contentInodes (d : db) : Prop := forall f c, contents d !! f = Some c -> is_Some (inodes d !! f).

(** Active uploads are among those that were active before. *)
Definition uploadsFewer (us us' : gmap string Upload) : Prop :=
  forall k u', us' !! k = Some u' -> isActive u' = true ->
    exists u, us !! k = Some u /\ isActive u = true /\ UFileID u = UFileID u' /\ S3Key u = S3Key u'.

(** No bytes have moved, and the only change of a file's status is its end. *)
Definition quiet (d d' : db) : Prop :=
  contentInodes d ->
  contentInodes d' /\ (forall f, place d' f = place d f)
  /\ (forall f, is_Some (place d f) -> statusOf d' f = statusOf d f \/ statusOf d' f = Some StatusDeleted)
  /\ uploadsFewer (uploads d) (uploads d').

Lemma uploadsFewer_refl us : uploadsFewer us us.
Proof. intros k u Hu Ha. by exists u. Qed.

#[export] Instance quiet_preorder : PreOrder quiet.
Proof.
  split.
  - intros d H. split_and!; auto. apply uploadsFewer_refl.
  - intros d1 d2 d3 H12 H23 Hc. destruct (H12 Hc) as (Hc2 & P2 & S2 & U2). destruct (H23 Hc2) as (Hc3 & P3 & S3 & U3).
    split_and!; [done|congruence| |].
    + intros f Hf. destruct (S3 f) as [E|]; [by rewrite P2| |by right]. rewrite E. auto.
    + intros k u Hu Ha. destruct (U3 k u Hu Ha) as (u2 & Hu2 & Ha2 & E2 & F2).
      destruct (U2 k u2 Hu2 Ha2) as (u1 & Hu1 & Ha1 & E1 & F1). exists u1. split_and!; congruence.
Qed.

(** What decides whether a transaction is quiet. *)
Definition rows (d : db) : gmap string inodeRow * gmap string contentRow * gmap string Upload :=
  (inodes d, contents d, uploads d).

Lemma quiet_rows d d' : rows d' = rows d -> quiet d d'.
Proof.
  unfold rows. intros E. injection E as E1 E2 E3. unfold quiet, contentInodes, place, statusOf.
  rewrite E1, E2, E3. intros Hc. split_and!; [done|done|by left|]. apply uploadsFewer_refl.
Qed.

Lemma keeps_quiet {A} (m : tx A) : keeps rows m -> respects quiet m.
Proof. intros H d. wp_apply H. intros a d' E. by apply quiet_rows. Qed.

(** A new inode for something that is no file. *)
Lemma quiet_new_inode d id i : inodes d !! id = None -> quiet d (set_inodes (<[id := i]> (inodes d)) d).
Proof.
  intros Hn Hc. split_and!; [..|apply uploadsFewer_refl].
  - intros f c Hf. cbn in *. rewrite lookup_insert_is_Some'. eauto.
  - done.
  - intros f Hf. left. unfold statusOf. cbn. rewrite lookup_insert_ne; [done|]. intros <-.
    unfold place in Hf. destruct (contents d !! id) eqn:E; [|by destruct Hf]. destruct (Hc id _ E). congruence.
Qed.

(** The update of an inode that keeps or ends its status. *)
Lemma updateInode_quiet id h :
  (forall i, status (h i) = status i \/ status (h i) = StatusDeleted) -> respects quiet (updateInode id h).
Proof.
  intros Hh d. unfold updateInode. wp_steps. intros Hc. split_and!; [..|apply uploadsFewer_refl].
  - intros f c Hf. cbn. rewrite lookup_alter_is_Some. eauto.
  - done.
  - intros f _. unfold statusOf. cbn. destruct (decide (f = id)) as [->|]; [|left; by rewrite lookup_alter_ne].
    rewrite lookup_alter_eq. destruct (inodes d !! id) as [i|]; [|by left]. cbn. destruct (Hh i) as [-> | ->]; auto.
Qed.

(** The update of a content that leaves the bytes where they are. *)
Lemma updateContent_quiet id h :
  (forall c, storage_type (h c) = storage_type c /\ storage_ref (h c) = storage_ref c) ->
  respects quiet (updateContent id h).
Proof.
  intros Hh d. unfold updateContent. wp_steps. intros Hc. split_and!; [..|apply uploadsFewer_refl].
  - intros f c Hf. cbn in *. destruct (decide (f = id)) as [->|Hne]; [|rewrite lookup_alter_ne in Hf by done; eauto].
    rewrite lookup_alter_eq in Hf. destruct (contents d !! id) eqn:E; [eauto|done].
  - intros f. unfold place. cbn. destruct (decide (f = id)) as [->|]; [|by rewrite lookup_alter_ne].
    rewrite lookup_alter_eq. destruct (contents d !! id) as [c|]; [|done]. cbn. by destruct (Hh c) as [-> ->].
  - by left.
Qed.

#[export] Hint Resolve quiet_preorder : respects.

(** ** The transactions of the store *)

(** Close the updates that touch neither inodes, contents nor uploads. *)
Ltac quiet_tac := respects_tac; try (apply quiet_rows; cbn; repeat case_match; reflexivity).

Lemma insertIgnoreInode_quiet id r : respects quiet (insertIgnoreInode id r).
Proof.
  intros d. unfold insertIgnoreInode. wp_steps. destruct (inodes d !! id) eqn:E; [reflexivity|].
  by apply quiet_new_inode.
Qed.

Lemma insertInodeRow_quiet id r : respects quiet (insertInodeRow id r).
Proof. intros d. unfold insertInodeRow. wp_steps. bool_prop. apply quiet_new_inode. by apply eq_None_not_Some. Qed.

Lemma EnsureParentDirsTx_quiet now p : respects quiet (EnsureParentDirsTx now p).
Proof.
  unfold EnsureParentDirsTx. apply respects_forEach; [exact _|]. intros q. unfold ensureDir.
  pose proof insertIgnoreInode_quiet. quiet_tac.
Qed.

Lemma markFilesDeletedTx_quiet ids : respects quiet (markFilesDeletedTx ids).
Proof.
  unfold markFilesDeletedTx, markOne, updateLegacy. quiet_tac. apply updateInode_quiet. by right.
Qed.

Lemma enqueueGC_quiet f now : respects quiet (enqueueGC f now).
Proof. unfold enqueueGC. quiet_tac. Qed.

Lemma UpdateFileStorageEncryptionTx_quiet f m k : respects quiet (UpdateFileStorageEncryptionTx f m k).
Proof. unfold UpdateFileStorageEncryptionTx, updateLegacy. quiet_tac. by apply updateContent_quiet. Qed.

Lemma moveNode_quiet e u : respects quiet (moveNode e u).
Proof. unfold moveNode. quiet_tac. Qed.

#[export] Hint Resolve insertIgnoreInode_quiet insertInodeRow_quiet EnsureParentDirsTx_quiet markFilesDeletedTx_quiet
  enqueueGC_quiet UpdateFileStorageEncryptionTx_quiet moveNode_quiet : respects.

Lemma InsertNodeTx_quiet n : respects quiet (InsertNodeTx n).
Proof. unfold InsertNodeTx, InsertNode, insertNodeRow, lockConfirmedFileForAttachTx. quiet_tac. Qed.

Lemma DeleteEmptyDir_quiet p : respects quiet (DeleteEmptyDir p).
Proof. unfold DeleteEmptyDir, dirHasChildrenTx, deleteNodes. quiet_tac. Qed.

Lemma RenameDir_quiet p q : respects quiet (RenameDir p q).
Proof. unfold RenameDir. quiet_tac. Qed.

Lemma DeleteFileWithRefCheck_quiet p now : respects quiet (DeleteFileWithRefCheck p now).
Proof. unfold DeleteFileWithRefCheck, RefCount, deleteNodes, retireFile, deleteFileTagsByIDsTx. quiet_tac. Qed.

Lemma DeleteDirRecursive_quiet p now : respects quiet (DeleteDirRecursive p now).
Proof. unfold DeleteDirRecursive, deleteNodes, deleteFileTagsByIDsTx. quiet_tac. Qed.

Lemma RenameFileReplacingTarget_quiet p q pp n now : respects quiet (RenameFileReplacingTarget p q pp n now).
Proof. unfold RenameFileReplacingTarget, RefCount, deleteFileTagsByIDsTx, scanFileForGCTx. quiet_tac. Qed.

Lemma Chmod_quiet p m : respects quiet (Chmod p m).
Proof. unfold Chmod. quiet_tac. apply updateInode_quiet. by left. Qed.

Lemma replaceTags_quiet f tags : respects quiet (replaceTags f tags).
Proof. unfold replaceTags, ReplaceFileTagsTx, insertTag. quiet_tac. Qed.

Lemma enqueueSemanticTx_quiet toLower cfg e f rev p ct text descr :
  respects quiet (enqueueSemanticTx toLower cfg e f rev p ct text descr).
Proof. unfold enqueueSemanticTx, enqueueTiDBAutoSemanticTasksTx, enqueueEmbedTaskTx, enqueueTaskTx. quiet_tac. Qed.

Lemma ensureStorageQuota_quiet cfg e p n : respects quiet (ensureStorageQuota cfg e p n).
Proof. unfold ensureStorageQuota, ensureTenantStorageQuotaTx, ensureStorageQuotaServer. quiet_tac. Qed.

#[export] Hint Resolve InsertNodeTx_quiet DeleteEmptyDir_quiet RenameDir_quiet DeleteFileWithRefCheck_quiet
  DeleteDirRecursive_quiet RenameFileReplacingTarget_quiet Chmod_quiet replaceTags_quiet enqueueSemanticTx_quiet
  ensureStorageQuota_quiet : respects.

Lemma setUploadStatus_quiet st from k now :
  st <> UploadInitiated -> st <> UploadUploading -> respects quiet (setUploadStatus st from k now).
Proof.
  intros H1 H2 d. unfold setUploadStatus. wp_steps. intros Hc. split_and!; [done|done|by left|].
  intros k' u'. cbn. rewrite lookup_alter. case_decide as E; [subst|by exists u'].
  destruct (uploads d !! k') as [u|]; [|done]. cbn. case_bool_decide; intros [= <-] Ha; [|by exists u].
  unfold isActive, withUStatus in Ha. cbn in Ha. by rewrite !bool_decide_false in Ha.
Qed.

Lemma TransitionUploadStatus_quiet k now : respects quiet (TransitionUploadStatus k UploadInitiated UploadUploading now).
Proof.
  intros d. unfold TransitionUploadStatus. wp_steps. destruct (uploads d !! k) as [u|] eqn:Hu; wp_steps.
  bool_prop. intros Hc. split_and!; [done|done|by left|]. intros k' u'. cbn. rewrite lookup_insert_Some.
  intros [[<- <-]|[_ Hu']] Ha; [|by exists u']. exists u. split_and!; try done. unfold isActive.
  by match goal with H : UStatus u = _ |- _ => rewrite H end.
Qed.

(** ** The invariant *)

Definition keyed (used : gset string) (r : string) : Prop := exists k, k ∈ used /\ r = "blobs/" +:+ k.

(** The bytes of the files of [d] in [objs], when the objects [cands] may be deleted and
    the identifiers [used] have been given out.  The files of [X] may be between two
    states. *)
Record bytesOkBut (X : string -> Prop) (used : gset string) (objs : gmap string string) (cands : list string) (d : db)
    : Prop := {
  bytes_there : forall f r, statusOf d f = Some StatusConfirmed -> place d f = Some ("s3", r) -> is_Some (objs !! r);
  types_known : forall f t r, place d f = Some (t, r) -> t = "s3" \/ t = "db9";
  refs_used : forall f r, place d f = Some ("s3", r) -> r = "" \/ keyed used r;
  refs_own : forall f g r, place d f = Some ("s3", r) -> place d g = Some ("s3", r) -> r <> "" ->
    f = g \/ X f \/ X g;
  uploads_own : forall k u, uploads d !! k = Some u -> isActive u = true ->
    place d (UFileID u) = Some ("s3", S3Key u) /\ S3Key u <> "";
  candidates_dead : forall r, r ∈ cands ->
    keyed used r /\ forall f, place d f = Some ("s3", r) -> statusOf d f = Some StatusDeleted
}.

Abbreviation bytesOk := (bytesOkBut (fun _ => False)).

Lemma keyed_mono used used' r : used ⊆ used' -> keyed used r -> keyed used' r.
Proof. intros H (k & Hk & E). exists k. split; [|done]. by apply H. Qed.

Lemma keyed_nonempty used r : keyed used r -> r <> "".
Proof. intros (k & _ & ->). done. Qed.

(** More identifiers and more objects. *)
Lemma bytesOk_more X used used' objs objs' cands d :
  bytesOkBut X used objs cands d -> used ⊆ used' -> (forall k, is_Some (objs !! k) -> is_Some (objs' !! k)) ->
  bytesOkBut X used' objs' cands d.
Proof.
  intros [] Hu Ho. split; try done.
  - intros f r Hs Hp. eauto.
  - intros f r Hp. destruct (refs_used0 f r Hp); [by left|right; by eapply keyed_mono].
  - intros r Hr. destruct (candidates_dead0 r Hr). split; [by eapply keyed_mono|done].
Qed.

Lemma bytesOk_quiet X used objs cands d d' :
  bytesOkBut X used objs cands d -> contentInodes d -> quiet d d' -> bytesOkBut X used objs cands d'.
Proof.
  intros [] Hc Hq. destruct (Hq Hc) as (_ & P & S & U). split; setoid_rewrite P.
  - intros f r Hs Hp. apply (bytes_there0 f r); [|done]. destruct (S f) as [<-|E]; [by rewrite Hp|done|congruence].
  - done.
  - done.
  - done.
  - intros k u Hu Ha. destruct (U k u Hu Ha) as (u0 & Hu0 & Ha0 & <- & <-). eauto.
  - intros r Hr. destruct (candidates_dead0 r Hr) as [Hk Hd]. split; [done|]. intros f Hp.
    destruct (S f) as [->|]; [by rewrite Hp|by apply Hd|done].
Qed.

(** The wp form: a quiet step inside a transaction. *)
Lemma wp_quiet {A} X used objs cands (m : tx A) d :
  respects quiet m -> bytesOkBut X used objs cands d -> contentInodes d ->
  wp m (fun _ d' => bytesOkBut X used objs cands d' /\ contentInodes d') d.
Proof.
  intros Hm H Hc. wp_apply Hm. intros a d' Hq. split; [by eapply bytesOk_quiet|]. apply (Hq Hc).
Qed.

(** The bytes of [f] are now at [r], which nobody else had. *)
Lemma bytesOk_moved X used objs cands d d' f ty r :
  bytesOkBut X used objs cands d -> (ty = "s3" \/ ty = "db9") ->
  place d' f = Some (ty, r) -> (forall g, g <> f -> place d' g = place d g) ->
  (forall g, g <> f -> is_Some (place d g) -> statusOf d' g = statusOf d g) ->
  uploadsFewer (uploads d) (uploads d') ->
  (forall k u, uploads d' !! k = Some u -> isActive u = true -> UFileID u <> f) ->
  (ty = "s3" -> keyed used r /\ (statusOf d' f = Some StatusConfirmed -> is_Some (objs !! r)) /\ r ∉ cands
     /\ forall g, g <> f -> place d g = Some ("s3", r) -> X g) ->
  bytesOkBut X used objs cands d'.
Proof.
  intros [] Hty Hf Hg Hs HU Hup Hr.
  assert (forall g r0, place d' g = Some ("s3", r0) -> g <> f -> place d g = Some ("s3", r0)) as Hold.
  { intros g r0 Hp Hne. by rewrite <- Hg. }
  split.
  - intros g r0 Hst Hp. destruct (decide (g = f)) as [->|Hne].
    + rewrite Hf in Hp. injection Hp as Ht <-. destruct (Hr Ht) as (_ & Hobj & _). auto.
    + apply (bytes_there0 g r0); [|by apply Hold]. rewrite <- Hs; [done..|]. by rewrite (Hold g r0).
  - intros g t r0 Hp. destruct (decide (g = f)) as [->|Hne].
    + rewrite Hf in Hp. by injection Hp as <- _.
    + rewrite Hg in Hp by done. eauto.
  - intros g r0 Hp. destruct (decide (g = f)) as [->|Hne]; [|by eapply refs_used0, Hold].
    rewrite Hf in Hp. injection Hp as Ht <-. right. by apply Hr.
  - intros a b r0 Ha Hb Hne. destruct (decide (a = f)) as [->|Hna]; destruct (decide (b = f)) as [->|Hnb].
    + by left.
    + rewrite Hf in Ha. injection Ha as Ht <-. destruct (Hr Ht) as (_ & _ & _ & Hx). auto.
    + rewrite Hf in Hb. injection Hb as Ht <-. destruct (Hr Ht) as (_ & _ & _ & Hx). auto.
    + apply (refs_own0 a b r0); auto.
  - intros k u Hu Ha. pose proof (Hup k u Hu Ha) as Hne. destruct (HU k u Hu Ha) as (u0 & Hu0 & Ha0 & E1 & E2).
    rewrite Hg by done. destruct (uploads_own0 k u0 Hu0 Ha0). by rewrite <- E1, <- E2.
  - intros r0 Hc. destruct (candidates_dead0 r0 Hc) as [Hk Hd]. split; [done|]. intros g Hp.
    destruct (decide (g = f)) as [->|Hne].
    + rewrite Hf in Hp. injection Hp as Ht <-. destruct (Hr Ht) as (_ & _ & ? & _). done.
    + pose proof (Hold g r0 Hp Hne) as Hp0. rewrite Hs; [by apply Hd|done|by rewrite Hp0].
Qed.

(** ** New content *)

(** A key of object storage that nobody has. *)
Definition unowned (cands : list string) (d : db) (r : string) : Prop :=
  r ∉ cands /\ forall g, place d g <> Some ("s3", r).

Lemma fresh_unowned X used objs cands d k :
  bytesOkBut X used objs cands d -> k ∉ used -> unowned cands d ("blobs/" +:+ k).
Proof.
  assert (forall r, keyed used r -> k ∉ used -> r <> "blobs/" +:+ k) as Hk.
  { intros r (k' & Hk' & ->) Hn E. by apply (inj (String.append "blobs/")) in E as ->. }
  intros H Hn. split.
  - intros Hc. destruct (candidates_dead _ _ _ _ _ H _ Hc) as [Hx _]. by destruct (Hk _ Hx Hn).
  - intros g Hg. destruct (refs_used _ _ _ _ _ H g _ Hg) as [E|Hx]; [done|]. by destruct (Hk _ Hx Hn).
Qed.

(** A new file whose bytes are at [pl]. *)
Lemma InsertFileTx_bytes X used objs cands fl now d :
  bytesOkBut X used objs cands d -> contentInodes d -> (StorageType fl = "s3" \/ StorageType fl = "db9") ->
  (StorageType fl = "s3" -> keyed used (StorageRef fl) /\ unowned cands d (StorageRef fl)
     /\ (Status fl = StatusConfirmed -> is_Some (objs !! StorageRef fl))) ->
  wp (InsertFileTx fl now) (fun _ d' => (bytesOkBut X used objs cands d' /\ contentInodes d')
    /\ place d' (FFileID fl) = Some (StorageType fl, StorageRef fl) /\ uploads d' = uploads d) d.
Proof.
  intros H Hc Hty Hr. unfold InsertFileTx.
  assert (forall m, wp (insertSplitTablesTx fl now) (fun _ d' => (bytesOkBut X used objs cands d' /\ contentInodes d')
    /\ place d' (FFileID fl) = Some (StorageType fl, StorageRef fl) /\ uploads d' = uploads d) (set_files m d)) as Hsplit.
  { intros m. unfold insertSplitTablesTx, insertInodeRow, insertContentRow, insertSemanticRow. wp_steps. bool_prop. cbn in *.
    split_and!; [..|unfold place; cbn; by rewrite lookup_insert_eq|done].
    - apply (bytesOk_moved X used objs cands d _ (FFileID fl) (StorageType fl) (StorageRef fl)); try done.
      + unfold place. cbn. by rewrite lookup_insert_eq.
      + intros g Hng. unfold place. cbn. by rewrite lookup_insert_ne.
      + intros g Hng _. unfold statusOf. cbn. by rewrite lookup_insert_ne.
      + apply uploadsFewer_refl.
      + intros k u Hu Ha E. cbn in Hu. destruct (uploads_own _ _ _ _ _ H k u Hu Ha) as [Hp _]. unfold place in Hp.
        rewrite E in Hp. destruct (contents d !! FFileID fl); [|done].
        match goal with Hx : ~ is_Some (Some _) |- _ => by apply Hx end.
      + intros Ht. destruct (Hr Ht) as (? & [? Hx] & Ho). split_and!; [done| |done|intros g _ Hpg; by destruct (Hx g)].
        unfold statusOf. cbn. rewrite lookup_insert_eq. cbn. intros [= E]. by apply Ho.
    - intros f c Hf. cbn in *. rewrite lookup_insert_is_Some'. destruct (decide (FFileID fl = f)); [by left|right].
      rewrite lookup_insert_ne in Hf by done. eauto. }
  wp_steps. destruct (files d) as [m|] eqn:Hfiles; wp_steps; [apply Hsplit|].
  specialize (Hsplit (files d)). by destruct d.
Qed.

(** What an update of the content of a live file does to its bytes. *)
Lemma update_bytes X used objs cands f i c u now l v d :
  bytesOkBut X used objs cands d -> contentInodes d -> inodes d !! f = Some i -> contents d !! f = Some c ->
  (forall k u, uploads d !! k = Some u -> isActive u = true -> UFileID u <> f) ->
  (uStorageType u = "s3" \/ uStorageType u = "db9") ->
  (uStorageType u = "s3" -> keyed used (uStorageRef u) /\ is_Some (objs !! uStorageRef u) /\ uStorageRef u ∉ cands
     /\ forall g, g <> f -> place d g = Some ("s3", uStorageRef u) -> X g) ->
  let d' := set_semantic v (set_contents (<[f := updatedContent u c]> (contents d))
              (set_inodes (<[f := updatedInode u now i]> (inodes d)) (set_files l d))) in
  bytesOkBut X used objs cands d' /\ contentInodes d'.
Proof.
  intros H Hc Hi Hcf Hup Hty Hr d'. split.
  - apply (bytesOk_moved X used objs cands d d' f (uStorageType u) (uStorageRef u)); try done.
    + unfold place. cbn. by rewrite lookup_insert_eq.
    + intros g Hg. unfold place. cbn. by rewrite lookup_insert_ne.
    + intros g Hg _. unfold statusOf. cbn. by rewrite lookup_insert_ne.
    + apply uploadsFewer_refl.
    + intros Ht. destruct (Hr Ht) as (? & ? & ? & ?). auto.
  - intros g x Hg. cbn in *. rewrite lookup_insert_is_Some'. destruct (decide (f = g)); [by left|right].
    rewrite lookup_insert_ne in Hg by done. eauto.
Qed.

Lemma updateFileContentTx_bytes X Y used objs cands f i c expected preserve u now d :
  filesOkBut Y d -> bytesOkBut X used objs cands d -> inodes d !! f = Some i -> contents d !! f = Some c ->
  status i = StatusConfirmed -> (uStorageType u = "s3" \/ uStorageType u = "db9") ->
  (uStorageType u = "s3" -> keyed used (uStorageRef u) /\ is_Some (objs !! uStorageRef u) /\ uStorageRef u ∉ cands
     /\ forall g, g <> f -> place d g = Some ("s3", uStorageRef u) -> X g) ->
  wp (updateFileContentTx f expected preserve u now)
    (fun _ d' => (bytesOkBut X used objs cands d' /\ contentInodes d')
       /\ place d' f = Some (uStorageType u, uStorageRef u) /\ forall g, g <> f -> place d' g = place d g) d.
Proof.
  intros Hok Hb Hi Hc Hs Hty Hr. destruct (updateFileContentTx_exact _ f i c expected preserve u now d Hok Hi Hc Hs) as (l & _ & E).
  unfold wp. rewrite E. case_if; [done|]. split; [|unfold place; cbn; rewrite lookup_insert_eq; split; [done|]].
  2: { intros g Hne. by rewrite lookup_insert_ne. }
  apply update_bytes; try done; [exact (content_inode _ _ Hok)|].
  intros k v Hv Ha E'. subst f. destruct (upload_pending _ _ _ (uploads_ok _ _ Hok) k v Hv Ha) as [_ (i' & c' & Hi' & _ & Hp)].
  congruence.
Qed.

(** ** Calls *)

Definition bytesSafe (used : gset string) (b : backend) : Prop :=
  bytesOk used (objects b) (candidates b) (store b) /\ contentInodes (store b).

Lemma bytesSafe_more used used' b : bytesSafe used b -> used ⊆ used' -> bytesSafe used' b.
Proof. intros [H Hc] Hu. split; [|done]. by eapply bytesOk_more. Qed.

Lemma run_wp {A} (m : tx A) (P : db -> Prop) b :
  P (store b) -> wp m (fun _ => P) (store b) -> P (store (fst (run m b))).
Proof. intros H Hm. unfold run, InTx, wp in *. by destruct (m (store b)) as [[d a]|e]. Qed.

Lemma run_objects {A} (m : tx A) b :
  objects (fst (run m b)) = objects b /\ candidates (fst (run m b)) = candidates b.
Proof. unfold run. by destruct (InTx m (store b)) as [d [a|e]]. Qed.

Lemma run_quiet {A} used (m : tx A) b : respects quiet m -> bytesSafe used b -> bytesSafe used (fst (run m b)).
Proof.
  intros Hm [H Hc]. destruct (run_objects m b) as [Eo Ec]. unfold bytesSafe. rewrite Eo, Ec.
  apply (run_wp m (fun d => bytesOk used (objects b) (candidates b) d /\ contentInodes d)); [done|].
  by apply wp_quiet.
Qed.

Lemma andThen_quiet {A B} used (m : tx A) (k : A -> backend -> backend * (B + backendError)) b :
  respects quiet m -> (forall a b, bytesSafe used b -> bytesSafe used (fst (k a b))) ->
  bytesSafe used b -> bytesSafe used (fst (andThen m k b)).
Proof.
  intros Hm Hk H. pose proof (run_quiet used m b Hm H) as Hr. unfold andThen.
  destruct (run m b) as [b' [a|e]]; [by apply Hk|done].
Qed.

Lemma bind_quiet {A B} (m : tx A) (k : A -> tx B) : respects quiet m -> (forall a, respects quiet (k a)) -> respects quiet (bind m k).
Proof. apply respects_bind. exact _. Qed.

(** A file as [Stat] returns it. *)
Lemma Stat_assembled d p n f :
  filesOk d -> Stat d p = inl (n, Some f) ->
  exists i c s, f = assembleFile (FileID n) i (Some c) s /\ inodes d !! FileID n = Some i /\ contents d !! FileID n = Some c
    /\ status i = StatusConfirmed.
Proof.
  intros H Hs. destruct (Stat_live _ _ _ _ H Hs) as (_ & _ & (i & c & Hi & Hc & Hst)). unfold Stat in Hs.
  destruct (GetNode d p) as [n'|]; [|done]. destruct (negb _ && _); [|done].
  destruct (GetFile d (FileID n')) as [f'|] eqn:Hg; [|done]. injection Hs as -> ->.
  unfold GetFile in Hg. rewrite Hi, Hc in Hg. destruct (semantic d !! FileID n) as [s|]; [|done]. injection Hg as <-.
  by exists i, c, (Some s).
Qed.

Section calls.
Context (nfc typeByExtension toLower : string -> string) (cfg : config) (used : gset string).

Ltac quiet_call := apply run_quiet; [quiet_tac|assumption].

Lemma MkdirCtx_bytes b p perm ino id now : bytesSafe used b -> bytesSafe used (fst (MkdirCtx nfc b p perm ino id now)).
Proof.
  intros H. unfold MkdirCtx. destruct (CanonicalizeDir nfc p); [|done].
  apply andThen_quiet; [quiet_tac| |done]. intros _ b' H'. quiet_call.
Qed.

Lemma ChmodCtx_bytes b p m : bytesSafe used b -> bytesSafe used (fst (ChmodCtx nfc b p m)).
Proof. intros H. unfold ChmodCtx. destruct (resolveNodePath nfc (store b) p) as [[q n]|]; [|done]. quiet_call. Qed.

Lemma RemoveCtx_bytes b p now : bytesSafe used b -> bytesSafe used (fst (RemoveCtx nfc b p now)).
Proof.
  intros H. unfold RemoveCtx. destruct (resolveNodePath nfc (store b) p) as [[q n]|]; [|done]. case_if; quiet_call.
Qed.

Lemma RemoveFileCtx_bytes b p now : bytesSafe used b -> bytesSafe used (fst (RemoveFileCtx nfc b p now)).
Proof. intros H. unfold RemoveFileCtx. destruct (Canonicalize nfc p); [|done]. quiet_call. Qed.

Lemma RemoveDirCtx_bytes b p : bytesSafe used b -> bytesSafe used (fst (RemoveDirCtx nfc b p)).
Proof. intros H. unfold RemoveDirCtx. destruct (CanonicalizeDir nfc p); [|done]. quiet_call. Qed.

Lemma RemoveAllCtx_bytes b p now : bytesSafe used b -> bytesSafe used (fst (RemoveAllCtx nfc b p now)).
Proof.
  intros H. unfold RemoveAllCtx. destruct (resolveNodePath nfc (store b) p) as [[q n]|]; [|done]. case_if; quiet_call.
Qed.

Lemma RenameCtx_bytes b p q now : bytesSafe used b -> bytesSafe used (fst (RenameCtx nfc b p q now)).
Proof.
  intros H. unfold RenameCtx. destruct (resolveNodePath nfc (store b) p) as [[o n]|]; [|done]. case_if; [done|].
  apply andThen_quiet; [quiet_tac| |done]. intros _ b' H'. case_if; quiet_call.
Qed.

Lemma CopyFileCtx_bytes b p q id now : bytesSafe used b -> bytesSafe used (fst (CopyFileCtx nfc b p q id now)).
Proof.
  intros H. unfold CopyFileCtx. destruct (Canonicalize nfc p); [|done]. destruct (Canonicalize nfc q); [|done].
  destruct (GetNode _ _); [|done]. case_if; [done|].
  apply andThen_quiet; [quiet_tac| |done]. intros _ b' H'. quiet_call.
Qed.

(** ** Puts *)

Lemma bytesSafe_put k data b :
  bytesSafe used b -> bytesSafe (used ∪ {[k]}) (set_objects (<["blobs/" +:+ k := data]> (objects b)) b).
Proof.
  intros [H Hc]. split; [|done]. eapply bytesOk_more; [done|apply union_subseteq_l|]. intros r Hr. cbn.
  rewrite lookup_insert_is_Some'. by right.
Qed.

Lemma bytesSafe_unput_at used' r b :
  bytesSafe used' b -> (forall f, place (store b) f = Some ("s3", r) -> statusOf (store b) f <> Some StatusConfirmed) ->
  bytesSafe used' (deleteBlob cfg r b).
Proof.
  intros [H Hc] Hr. unfold deleteBlob. case_if; [|done]. split; [|done]. pose proof H as []. split; try done; cbn.
  intros f r0 Hs Hp. rewrite lookup_delete_ne; [eauto|]. intros <-. by destruct (Hr f Hp).
Qed.

(** A put, a transaction, and the put taken back when the transaction fails. *)
Lemma put_run_bytes {A} (m : tx A) k data b :
  bytesSafe used b -> k ∉ used ->
  (forall objs, is_Some (objs !! ("blobs/" +:+ k)) -> bytesOk (used ∪ {[k]}) objs (candidates b) (store b) ->
     wp m (fun _ d' => bytesOk (used ∪ {[k]}) objs (candidates b) d' /\ contentInodes d') (store b)) ->
  let ref := "blobs/" +:+ k in
  let r := run m (set_objects (<[ref := data]> (objects b)) b) in
  bytesSafe (used ∪ {[k]}) (match snd r with inl _ => fst r | inr _ => deleteBlob cfg ref (fst r) end).
Proof.
  intros H Hk Hm ref r. pose proof (bytesSafe_put k data b H) as Hput. destruct H as [H Hc].
  pose proof (fresh_unowned _ _ _ _ _ k H Hk) as Hun. specialize (Hm (<[ref := data]> (objects b))).
  destruct Hput as [Hput _]. cbn in Hput. specialize (Hm ltac:(rewrite lookup_insert_eq; done) Hput).
  subst r. unfold run, InTx, wp in *. cbn in *. destruct (m (store b)) as [[d a]|e]; cbn; [exact Hm|].
  apply (bytesSafe_unput_at (used ∪ {[k]})); [by split|]. intros f Hf. by destruct (proj2 Hun f).
Qed.

Lemma CreateCtx_bytes b p fileID nodeID put now :
  bytesSafe used b -> fileID ∉ used ->
  bytesSafe (used ∪ {[fileID]}) (fst (CreateCtx nfc cfg b p fileID nodeID put now)).
Proof.
  intros H Hk. assert (used ⊆ used ∪ {[fileID]}) as Hu by apply union_subseteq_l. unfold CreateCtx.
  destruct (Canonicalize nfc p) as [q|]; [|by eapply bytesSafe_more].
  assert (forall objs, (shouldStoreInDB cfg 0 = false -> is_Some (objs !! ("blobs/" +:+ fileID))) ->
    bytesOk (used ∪ {[fileID]}) objs (candidates b) (store b) ->
    wp (createTx cfg q fileID nodeID now)
      (fun _ d' => bytesOk (used ∪ {[fileID]}) objs (candidates b) d' /\ contentInodes d') (store b)) as Hm.
  { intros objs Ho Hb. destruct H as [H Hc]. unfold createTx. wp_step. wp_apply InsertFileTx_bytes; [done|done|cbn; case_if; auto|..].
    - unfold emptyFile. cbn. destruct (shouldStoreInDB cfg 0); [done|]. intros _. split_and!; [|exact (fresh_unowned _ _ _ _ _ fileID H Hk)|auto].
      exists fileID. split; [|done]. apply elem_of_union_r, elem_of_singleton_2. done.
    - intros [] d1 [[H1 Hc1] _]. apply wp_quiet; [quiet_tac|done|done]. }
  destruct (shouldStoreInDB cfg 0) eqn:E.
  - destruct (bytesSafe_more _ _ _ H Hu) as [Hb Hc]. destruct (run_objects (createTx cfg q fileID nodeID now) b) as [Eo Ec].
    unfold bytesSafe. rewrite Eo, Ec.
    apply (run_wp _ (fun d => bytesOk _ (objects b) (candidates b) d /\ contentInodes d)); [done|]. by apply Hm.
  - repeat (case_if; [by eapply bytesSafe_more|]).
    pose proof (put_run_bytes (createTx cfg q fileID nodeID now) fileID "" b H Hk ltac:(auto)) as Hr. cbv zeta in Hr.
    by destruct (run _ _) as [b' [u|e]].
Qed.

(** ** Writes *)

Lemma in_used_new k : k ∈ used ∪ {[k]}.
Proof. apply elem_of_union_r, elem_of_singleton_2. done. Qed.

(** Content that has been put and the transaction that refers to it. *)
Lemma place_run_bytes {A} (m : tx A) k data e b b1 :
  bytesSafe used b -> k ∉ used ->
  let pl := placeContent cfg data k in
  (forall objs, (plType pl = "s3" -> is_Some (objs !! plRef pl)) -> bytesOk (used ∪ {[k]}) objs (candidates b) (store b) ->
     wp m (fun _ d' => bytesOk (used ∪ {[k]}) objs (candidates b) d' /\ contentInodes d') (store b)) ->
  putContent cfg pl data e b = inl b1 ->
  bytesSafe (used ∪ {[k]})
    (match snd (run m b1) with inl _ => fst (run m b1) | inr _ => unputContent cfg pl (fst (run m b1)) end).
Proof.
  intros H Hk pl Hm Hput. unfold putContent, unputContent, pl, placeContent in *.
  destruct (shouldStoreInDB cfg (slen data)); cbn in *.
  - injection Hput as <-. destruct (bytesSafe_more _ _ _ H (union_subseteq_l used {[k]})) as [Hb Hc].
    destruct (run_objects m b) as [Eo Ec].
    assert (bytesSafe (used ∪ {[k]}) (fst (run m b))) as Hr.
    { unfold bytesSafe. rewrite Eo, Ec.
      apply (run_wp _ (fun d => bytesOk _ (objects b) (candidates b) d /\ contentInodes d)); [done|]. by apply Hm. }
    by destruct (snd (run m b)).
  - destruct (s3 cfg); [|done]. destruct (putOK e); [|done]. injection Hput as <-.
    apply (put_run_bytes m k data b H Hk). intros objs Ho. by apply Hm.
Qed.

Lemma placed_type data k : plType (placeContent cfg data k) = "s3" \/ plType (placeContent cfg data k) = "db9".
Proof. unfold placeContent. case_if; auto. Qed.

Lemma placed_keyed data k :
  plType (placeContent cfg data k) = "s3" -> keyed (used ∪ {[k]}) (plRef (placeContent cfg data k))
  /\ plRef (placeContent cfg data k) = "blobs/" +:+ k.
Proof.
  unfold placeContent. case_if; [done|]. intros _. cbn. split; [|done]. exists k. split; [apply in_used_new|done].
Qed.

Lemma createAndWriteCtx_bytes b e p data tags descr :
  bytesSafe used b -> newFileID e ∉ used ->
  bytesSafe (used ∪ {[newFileID e]}) (fst (createAndWriteCtx typeByExtension toLower cfg b e p data tags descr)).
Proof.
  intros H Hk. assert (used ⊆ used ∪ {[newFileID e]}) as Hu by apply union_subseteq_l.
  unfold createAndWriteCtx. case_if; [by eapply bytesSafe_more|]. set (pl := placeContent cfg data (newFileID e)).
  destruct (putContent cfg pl data e b) as [b1|] eqn:Hput; [|by eapply bytesSafe_more].
  assert (forall objs, (plType pl = "s3" -> is_Some (objs !! plRef pl)) ->
    bytesOk (used ∪ {[newFileID e]}) objs (candidates b) (store b) ->
    wp (createAndWriteTx typeByExtension toLower cfg e pl p data tags descr)
      (fun _ d' => bytesOk (used ∪ {[newFileID e]}) objs (candidates b) d' /\ contentInodes d') (store b)) as Hm.
  { intros objs Ho Hb. destruct H as [H Hc]. unfold createAndWriteTx. wp_step. apply ensureStorageQuota_wp. wp_step.
    wp_apply InsertFileTx_bytes; [done|done|apply placed_type|..].
    - cbn. intros Ht. destruct (placed_keyed _ _ Ht) as [Hx Er]. split_and!; [done| |auto].
      fold pl in Er. rewrite Er. exact (fresh_unowned _ _ _ _ _ (newFileID e) H Hk).
    - intros [] d1 [[H1 Hc1] _]. apply wp_quiet; [quiet_tac|done|done]. }
  pose proof (place_run_bytes _ (newFileID e) data e b b1 H Hk Hm Hput) as Hr.
  fold pl in Hr. by destruct (run _ b1) as [b2 [u|err]].
Qed.

(** An object that no file has any more can be deleted. *)
Lemma bytesSafe_candidate used' r t keep b :
  bytesSafe used' b -> (t = "s3" -> r <> "" -> r <> keep -> keyed used' r /\ forall g, place (store b) g <> Some ("s3", r)) ->
  bytesSafe used' (deleteBlobIfS3 cfg t r keep b).
Proof.
  intros [H Hc] Hr. unfold deleteBlobIfS3. case_if; [done|]. case_if; [|done]. bool_prop.
  assert (t = "s3" /\ r <> "" /\ r <> keep) as (Ht & Hr0 & Hr1) by (clear nfc typeByExtension toLower; tauto).
  destruct (Hr Ht Hr0 Hr1) as [Hk Hn]. split; [|done]. pose proof H as []. split; try done; cbn.
  intros r0 [Hin|Hin]%elem_of_app; [by apply candidates_dead0|]. apply list_elem_of_singleton in Hin as ->.
  split; [done|]. intros g Hg. by destruct (Hn g).
Qed.

Lemma overwriteTx_bytes objs cands e data node f i c expected tags descr d :
  let pl := placeContent cfg data (newBlobID e) in
  filesOk d -> inodes d !! FFileID f = Some i -> contents d !! FFileID f = Some c -> status i = StatusConfirmed ->
  (plType pl = "s3" -> is_Some (objs !! plRef pl) /\ unowned cands d (plRef pl)) ->
  bytesOk (used ∪ {[newBlobID e]}) objs cands d ->
  wp (overwriteTx typeByExtension toLower cfg e pl node f data expected tags descr)
    (fun _ d' => bytesOk (used ∪ {[newBlobID e]}) objs cands d' /\ contentInodes d') d.
Proof.
  intros pl Hok Hi Hc Hs Ho Hb. assert (contentInodes d) as Hci by exact (content_inode _ _ Hok).
  unfold overwriteTx. wp_step. apply ensureStorageQuota_wp. wp_step.
  wp_apply updateFileContentTx_bytes; [done..|apply placed_type| |].
  - intros Ht. destruct (placed_keyed _ _ Ht) as [Hk _]; destruct (Ho Ht) as [? [? Hu]].
    split_and!; try done; intros g _ Hg; by destruct (Hu g).
  - intros rev d1 [[H1 Hc1] _]. apply wp_quiet; [quiet_tac|done|done].
Qed.

(** After an overwrite nobody has the old object. *)
Lemma stored_disowns pl f r d d' used' objs cands :
  Content.storedAt pl f d d' -> bytesOk used' objs cands d -> place d f = Some ("s3", r) -> r <> "" -> r <> plRef pl ->
  keyed used' r /\ forall g, place d' g <> Some ("s3", r).
Proof.
  intros [(c & Hc & E1 & E2 & _) Hother] Hb Hp Hr Hne. split.
  - destruct (refs_used _ _ _ _ _ Hb f r Hp); done.
  - intros g Hg. destruct (decide (g = f)) as [->|Hgf].
    + unfold place in Hg. rewrite Hc in Hg. injection Hg as _ Eg. congruence.
    + unfold place in Hg. rewrite Hother in Hg by done. fold (place d g) in Hg.
      destruct (refs_own _ _ _ _ _ Hb f g r Hp Hg Hr) as [->|[[]|[]]]. done.
Qed.

Lemma overwriteFileCtxWithRev_bytes b e node g i c s data offset flags expected tags descr :
  let f := assembleFile g i (Some c) s in
  filesOk (store b) -> bytesSafe used b -> newBlobID e ∉ used ->
  inodes (store b) !! g = Some i -> contents (store b) !! g = Some c -> status i = StatusConfirmed ->
  bytesSafe (used ∪ {[newBlobID e]})
    (fst (overwriteFileCtxWithRev typeByExtension toLower cfg b e node f data offset flags expected tags descr)).
Proof.
  intros f Hok H Hk Hi Hc Hs. pose proof (bytesSafe_more _ _ _ H (union_subseteq_l used {[newBlobID e]})) as Hmore.
  unfold overwriteFileCtxWithRev. destruct (finalData _ _ _ _ _ _) as [final|]; [|done]. case_if; [done|].
  set (pl := placeContent cfg final (newBlobID e)). destruct (putContent cfg pl final e b) as [b1|] eqn:Hput; [|done].
  set (m := overwriteTx typeByExtension toLower cfg e pl node f final expected tags descr).
  assert (forall objs, (plType pl = "s3" -> is_Some (objs !! plRef pl)) ->
    bytesOk (used ∪ {[newBlobID e]}) objs (candidates b) (store b) ->
    wp m (fun _ d' => bytesOk (used ∪ {[newBlobID e]}) objs (candidates b) d' /\ contentInodes d') (store b)) as Hm.
  { intros objs Ho Hb. apply (overwriteTx_bytes _ _ _ _ _ _ i c); try done. intros Ht. split; [auto|].
    destruct (placed_keyed _ _ Ht) as [_ ->]. by eapply fresh_unowned; [apply H|]. }
  pose proof (place_run_bytes m (newBlobID e) final e b b1 H Hk Hm Hput) as Hr. fold pl in Hr.
  destruct (run m b1) as [b2 [rev|err]] eqn:Hrun; [|exact Hr]. cbn in Hr |- *.
  apply bytesSafe_candidate; [exact Hr|]. intros Ht H0 Hne. apply Content.run_inl in Hrun as [Hrun _].
  rewrite (putContent_store cfg pl final e b b1 Hput) in Hrun.
  assert (live (store b) (FFileID f)) as Hl by by exists i, c.
  destruct (wp_inl _ _ _ _ _ (Content.overwriteTx_stored typeByExtension toLower cfg e pl node f final expected tags descr
    (store b) i Hok Hl Hi) Hrun) as [Hst _].
  eapply stored_disowns; [exact Hst|apply Hmore| |done|done]. unfold place. change (FFileID f) with g. rewrite Hc. cbn.
  by rewrite Ht.
Qed.

Lemma WriteCtx_bytes b e p data offset flags expected tags descr :
  filesOk (store b) -> bytesSafe used b -> newFileID e ∉ used -> newBlobID e ∉ used ->
  bytesSafe (used ∪ {[newFileID e]} ∪ {[newBlobID e]})
    (fst (WriteCtx nfc typeByExtension toLower cfg b e p data offset flags expected tags descr)).
Proof.
  intros Hok H Hf Hb.
  assert (forall b', bytesSafe (used ∪ {[newFileID e]}) b' -> bytesSafe (used ∪ {[newFileID e]} ∪ {[newBlobID e]}) b') as W1.
  { intros b' H'. eapply bytesSafe_more; [done|]. apply union_subseteq_l. }
  assert (forall b', bytesSafe (used ∪ {[newBlobID e]}) b' -> bytesSafe (used ∪ {[newFileID e]} ∪ {[newBlobID e]}) b') as W2.
  { intros b' H'. eapply bytesSafe_more; [done|]. apply union_mono_r, union_subseteq_l. }
  assert (bytesSafe (used ∪ {[newFileID e]} ∪ {[newBlobID e]}) b) as H0 by (eapply W1, bytesSafe_more; [done|apply union_subseteq_l]).
  unfold WriteCtx. destruct (Canonicalize nfc p) as [q|]; [|done]. destruct (Stat (store b) q) as [[n o]|err] eqn:Hs.
  - unfold writeFound. repeat (case_if; [done|]). destruct o as [f|]; [|done]. case_if; [done|].
    destruct (Stat_assembled _ _ _ _ Hok Hs) as (i & c & s & -> & Hi & Hc & Hst). apply W2.
    by apply overwriteFileCtxWithRev_bytes.
  - destruct err; try done. unfold writeMissing. repeat (case_if; [done|]).
    pose proof (createAndWriteCtx_bytes b e q data tags descr H Hf) as Hr. apply W1 in Hr.
    destruct (createAndWriteCtx _ _ _ _ _ _ _ _ _) as [b' [k|[[]|?| | | | | | | | | |]]]; done.
Qed.

End calls.

End ObjectSafety.
