(* ===== verification/UploadObjects.v ===== *)
(** * The bytes of uploads

    The upload calls keep the invariant of [ObjectSafety]: while an upload runs, its
    object belongs to its pending file alone; confirming it hands the object over to the
    file at the target path, and a confirmation that fails takes only its own object
    away. *)

From S2P Require Import Prelude GoStrings PathUtil Json Sha256 SemanticQueue FileGCQueue FileStore FileRules FileSafety.
From S2P Require Import Media Backend BackendSafety BackendContent Uploads UploadSafety FileGCWorker ObjectSafety.

Import GoStr Paths FileStore FileRules FileSafety Media Backend BackendSafety Uploads UploadSafety ObjectSafety.

Module UploadObjects.

#[local] Arguments String.append !_ _ / : simpl nomatch.

Lemma bytesOk_weaken X used objs cands d : bytesOk used objs cands d -> bytesOkBut X used objs cands d.
Proof. intros []. split; try done. intros f g r Hf Hg Hr. destruct (refs_own0 f g r Hf Hg Hr) as [|[[]|[]]]. by left. Qed.

Lemma bytesOk_fewer X used objs cands cands' d :
  bytesOkBut X used objs cands d -> cands' ⊆ cands -> bytesOkBut X used objs cands' d.
Proof. intros [] Hs. split; try done. intros r Hr. by apply candidates_dead0, Hs. Qed.

(** An object that a file no longer has, when it may be deleted. *)
Definition dropped (t r keep : string) : list string :=
  if negb (bool_decide (t = "s3")) || bool_decide (r = "") || bool_decide (r = keep) then [] else [r].

Lemma deleteBlobIfS3_dropped cfg t r keep b :
  store (deleteBlobIfS3 cfg t r keep b) = store b /\ objects (deleteBlobIfS3 cfg t r keep b) = objects b
  /\ candidates (deleteBlobIfS3 cfg t r keep b) ⊆ candidates b ++ dropped t r keep.
Proof.
  unfold deleteBlobIfS3, dropped. case_if; [by rewrite app_nil_r|]. case_if; [done|]. split_and!; [done..|].
  cbn. apply list_subseteq_app_l. done.
Qed.

(** The old object of [f] after its bytes have moved to [key]. *)
Lemma bytesOk_dropped X used objs cands d d' f t r key :
  bytesOk used objs cands d -> place d f = Some (t, r) ->
  place d' f = Some ("s3", key) -> (forall g, g <> f -> place d' g = place d g) ->
  bytesOkBut X used objs cands d' -> bytesOkBut X used objs (cands ++ dropped t r key) d'.
Proof.
  intros Hb Hp Hp' Hg Hb'. unfold dropped. case_if; [by rewrite app_nil_r|]. bool_prop.
  destruct Hb'. split; try done. intros r0 [Hin|Hin]%elem_of_app; [by apply candidates_dead0|].
  apply list_elem_of_singleton in Hin as ->. destruct (refs_used _ _ _ _ _ Hb f r) as [?|Hk]; [naive_solver..|].
  split; [done|]. intros g Hpg. destruct (decide (g = f)) as [->|Hne].
  - rewrite Hp' in Hpg. injection Hpg as ->. naive_solver.
  - rewrite Hg in Hpg by done.
    destruct (refs_own _ _ _ _ _ Hb f g r) as [->|[[]|[]]]; naive_solver.
Qed.

(** The pending file of an upload whose object another file has now. *)
Lemma DeletePendingFileTx_bytes used objs cands f now d :
  bytesOkBut (fun g => g = f) used objs cands d -> contentInodes d ->
  (forall k u, uploads d !! k = Some u -> isActive u = true -> UFileID u <> f) ->
  wp (DeletePendingFileTx f now) (fun _ d' => bytesOk used objs cands d' /\ contentInodes d' /\ uploads d' = uploads d) d.
Proof.
  intros H Hc Hup. unfold DeletePendingFileTx, updateLegacy, updateInode, updateContent. wp_steps. clear Hg Hg0.
  match goal with |- bytesOk _ _ _ ?x /\ _ => set (d' := x) end.
  assert (forall g, g <> f -> place d' g = place d g /\ statusOf d' g = statusOf d g) as Hother.
  { intros g Hne. unfold place, statusOf. cbn. by rewrite !lookup_alter_ne. }
  assert (forall r, place d' f = Some ("s3", r) -> r = "") as Hf.
  { intros r. unfold place. cbn. rewrite lookup_alter_eq. destruct (contents d !! f) as [c|]; [|done]. cbn. by intros [= _ <-]. }
  assert (statusOf d' f <> Some StatusConfirmed) as Hst.
  { unfold statusOf. cbn. rewrite lookup_alter_eq. by destruct (inodes d !! f). }
  split_and!; [|..|done].
  - destruct H. split.
    + intros g r Hs Hp. destruct (decide (g = f)) as [->|Hne]; [done|]. destruct (Hother g Hne) as [E1 E2].
      rewrite E1 in Hp. rewrite E2 in Hs. eauto.
    + intros g t r Hp. destruct (decide (g = f)) as [->|Hne]; [|rewrite (proj1 (Hother g Hne)) in Hp; eauto].
      unfold place in Hp. cbn in Hp. rewrite lookup_alter_eq in Hp. destruct (contents d !! f) as [c|] eqn:E; [|done].
      injection Hp as <- _. apply (types_known0 f _ (storage_ref c)). unfold place. by rewrite E.
    + intros g r Hp. destruct (decide (g = f)) as [->|Hne]; [left; auto|]. destruct (Hother g Hne) as [E1 _].
      rewrite E1 in Hp. eauto.
    + intros a b r Ha Hb Hr. destruct (decide (a = f)) as [->|Hna]; [by destruct Hr; auto|].
      destruct (decide (b = f)) as [->|Hnb]; [by destruct Hr; auto|].
      rewrite (proj1 (Hother a Hna)) in Ha. rewrite (proj1 (Hother b Hnb)) in Hb.
      destruct (refs_own0 a b r Ha Hb Hr) as [|[|]]; [by left|done..].
    + intros k u Hu Ha. pose proof (Hup k u Hu Ha) as Hne. rewrite (proj1 (Hother _ Hne)). eauto.
    + intros r Hr. destruct (candidates_dead0 r Hr) as [Hk Hd]. split; [done|]. intros g Hp.
      destruct (decide (g = f)) as [->|Hne]; [by destruct (keyed_nonempty _ _ Hk); auto|].
      destruct (Hother g Hne) as [E1 E2]. rewrite E1 in Hp. rewrite E2. auto.
  - intros g c Hcg. cbn in *. rewrite lookup_alter_is_Some. destruct (decide (g = f)) as [->|Hne].
    + rewrite lookup_alter_eq in Hcg. destruct (contents d !! f) eqn:E; [eauto|done].
    + rewrite lookup_alter_ne in Hcg by done. eauto.
Qed.

(** The pending file of an upload that becomes the file at the target. *)
Lemma confirmPendingTx_bytes auto used objs cands f u now d :
  bytesOk used objs cands d -> contentInodes d -> is_Some (contents d !! f) ->
  (forall k u, uploads d !! k = Some u -> isActive u = true -> UFileID u <> f) -> uStorageType u = "s3" ->
  keyed used (uStorageRef u) -> is_Some (objs !! uStorageRef u) -> uStorageRef u ∉ cands ->
  (forall g, place d g = Some ("s3", uStorageRef u) -> g = f) ->
  wp (confirmPendingTx auto f u now) (fun _ d' => bytesOk used objs cands d' /\ contentInodes d') d.
Proof.
  intros H Hc [c Hcf] Hup Hty Hk Ho Hn Hown. unfold confirmPendingTx, requirePending. wp_steps. clear Hg.
  unfold updateLegacy, UpdateInodeContentTx, UpdateContentTx, updateInode, updateContent. wp_steps.
  apply wp_quiet; [unfold UpdateSemanticTx, updateSemanticNoEmbedTx, updateSemantic; quiet_tac|..].
  - eapply (bytesOk_moved _ _ _ _ d _ f (uStorageType u) (uStorageRef u)); try done; [by left|..].
    + unfold place. cbn. by rewrite lookup_alter_eq, Hcf.
    + intros g Hne. unfold place. cbn. by rewrite lookup_alter_ne.
    + intros g Hne _. unfold statusOf. cbn. by rewrite lookup_alter_ne.
    + apply uploadsFewer_refl.
    + intros _. split_and!; try done. intros g Hne Hp. by destruct Hne; apply Hown.
  - intros g c' Hg. cbn in *. rewrite lookup_alter_is_Some. destruct (decide (g = f)) as [->|Hne]; [eauto|].
    rewrite lookup_alter_ne in Hg by done. eauto.
Qed.

Section calls.
Context (nfc typeByExtension toLower : string -> string) (cfg : config).

(** The object of an upload before it is confirmed. *)
Record owns (used : gset string) (objs : gmap string string) (cands : list string) (u : Upload) (d : db) : Prop := {
  own_keyed : keyed used (S3Key u);
  own_there : is_Some (objs !! S3Key u);
  own_unlisted : S3Key u ∉ cands;
  own_only : forall g, place d g = Some ("s3", S3Key u) -> g = UFileID u
}.

Lemma finalizeOverwriteTx_bytes used objs cands e u f ct tags d :
  filesOk d -> live d f -> ended u d -> owns used objs cands u d ->
  bytesOk used objs cands d -> contentInodes d ->
  wp (finalizeOverwriteTx toLower cfg e u f ct tags)
    (fun old d' => bytesOk used objs (cands ++ match old with Some (t, r) => dropped t r (S3Key u) | None => [] end) d'
       /\ contentInodes d') d.
Proof.
  intros Hok (i & c & Hi & Hc & Hs) He [] Hb Hci. unfold finalizeOverwriteTx. wp_steps.
  unfold GetFileStorageMetaForUpdateTx. rewrite Hi, Hc, bool_decide_true by done. wp_steps.
  wp_apply wp_and; [apply (updateFileContentTx_bytes (fun g => g = UFileID u) (fun _ => False) used objs cands f i c); try done|
                    apply keeps_uploads_update|].
  { by apply bytesOk_weaken. }
  { by left. }
  { intros _. split_and!; try done. intros g _ Hp. auto. }
  intros rev d1 [[[H1 Hc1] [Hp Hpo]] Eu1].
  assert (bytesOkBut (fun g => g = UFileID u) used objs (cands ++ dropped (storage_type c) (storage_ref c) (S3Key u)) d1) as H1'.
  { eapply bytesOk_dropped; [exact Hb| |exact Hp|exact Hpo|exact H1]. unfold place. by rewrite Hc. }
  clear H1. wp_steps.
  wp_apply wp_and; [by apply wp_quiet; [apply UpdateFileStorageEncryptionTx_quiet|..]|apply keeps_uploads_encryption|].
  intros [] d2 [[H2 Hc2] Eu2]. wp_steps.
  wp_apply wp_and; [by apply wp_quiet; [apply replaceTags_quiet|..]|apply keeps_uploads_tags|].
  intros [] d3 [[H3 Hc3] Eu3]. wp_steps.
  wp_apply DeletePendingFileTx_bytes; [done|done|rewrite Eu3, Eu2, Eu1; apply He|].
  intros [] d4 (H4 & Hc4 & Eu4). wp_steps.
  wp_apply wp_quiet; [apply enqueueSemanticTx_quiet|..]; cycle 2.
  { intros [] d5 [H5 Hc5]. wp_steps. done. }
  - eapply bytesOk_quiet; [exact H4|done|]. intros _. split_and!; [done|done|by left|].
    intros k v' Hv Ha. cbn in Hv. apply lookup_alter_Some in Hv as [(<- & v & Hv & ->)|[_ Hv]]; [|by exists v'].
    rewrite Eu4, Eu3, Eu2, Eu1 in Hv. pose proof (proj2 He v Hv) as Hx. unfold isActive in *. cbn in Ha. congruence.
  - done.
Qed.

Lemma finalizeCreateTx_bytes used objs cands e u ct tags d :
  ended u d -> owns used objs cands u d -> is_Some (contents d !! UFileID u) ->
  bytesOk used objs cands d -> contentInodes d ->
  wp (finalizeCreateTx toLower cfg e u ct tags)
    (fun old d' => bytesOk used objs (cands ++ match old with Some (t, r) => dropped t r (S3Key u) | None => [] end) d'
       /\ contentInodes d') d.
Proof.
  intros [He _] [] Hcf Hb Hci. unfold finalizeCreateTx. wp_steps. wp_apply confirmPendingTx_bytes; [done..|].
  intros [] d1 [H1 Hc1]. wp_steps.
  pose proof (wp_quiet _ _ _ _ _ d1 (InsertNodeTx_quiet
    (fileNode (newNodeID (base e)) (TargetPath u) (UFileID u) (now (base e)))) H1 Hc1) as Hi.
  unfold mapError. unfold wp in Hi |- * at 1. destruct (InsertNodeTx _ d1) as [[d2 []]|]; [|done]. destruct Hi as [H2 Hc2].
  wp_steps. wp_apply wp_quiet; [apply replaceTags_quiet|done|done|]. intros [] d3 [H3 Hc3]. wp_steps.
  wp_apply wp_quiet; [apply enqueueSemanticTx_quiet|done|done|]. intros [] d4 [H4 Hc4]. wp_steps. by rewrite app_nil_r.
Qed.

(** An upload that runs owns its object. *)
Lemma upload_owns used objs cands u d :
  filesOk d -> bytesOk used objs cands d -> uploads d !! UploadID u = Some u -> isActive u = true ->
  is_Some (objs !! S3Key u) -> owns used objs cands u d /\ place d (UFileID u) = Some ("s3", S3Key u).
Proof.
  intros Hok Hb Hu Ha Ho. destruct (uploads_own _ _ _ _ _ Hb _ u Hu Ha) as [Hp Hne]. split; [|done].
  destruct (upload_pending _ _ _ (uploads_ok _ _ Hok) _ u Hu Ha) as [_ (i & c & Hi & _ & Hs)]. split.
  - destruct (refs_used _ _ _ _ _ Hb _ _ Hp); done.
  - done.
  - intros Hc. destruct (candidates_dead _ _ _ _ _ Hb _ Hc) as [_ Hd]. specialize (Hd _ Hp). unfold statusOf in Hd.
    rewrite Hi in Hd. cbn in Hd. congruence.
  - intros g Hg. by destruct (refs_own _ _ _ _ _ Hb _ _ _ Hg Hp Hne) as [|[[]|[]]].
Qed.

Lemma owns_quiet used objs cands u d d' :
  contentInodes d -> quiet d d' -> owns used objs cands u d -> owns used objs cands u d'.
Proof. intros Hc Hq []. destruct (Hq Hc) as (_ & P & _). split; try done. intros g. rewrite P. auto. Qed.

Lemma finalizeTx_bytes used objs cands e u tags d :
  filesOk d -> bytesOk used objs cands d -> uploads d !! UploadID u = Some u -> UStatus u = UploadUploading ->
  is_Some (objs !! S3Key u) ->
  wp (finalizeTx typeByExtension toLower cfg e u tags)
    (fun old d' => bytesOk used objs (cands ++ match old with Some (t, r) => dropped t r (S3Key u) | None => [] end) d'
       /\ contentInodes d') d.
Proof.
  intros Hok Hb Hu Hs Ho. assert (isActive u = true) as Ha by (unfold isActive; by rewrite Hs).
  destruct (upload_owns _ _ _ _ _ Hok Hb Hu Ha Ho) as [Hown Hp].
  assert (contentInodes d) as Hci by exact (content_inode _ _ Hok).
  unfold finalizeTx. wp_steps.
  wp_apply wp_and; [apply setUploadStatus_ok; [exact Hok|done|done]|apply (setUploadStatus_quiet UploadCompleted); done|].
  intros [] d1 [(H1 & _ & _ & _ & Hact) Q1]. wp_steps.
  pose proof (completed_ended u d d1 Hok Hu Hs Hact) as He.
  wp_apply wp_and; [by apply EnsureParentDirsTx_ok|apply wp_and; [apply EnsureParentDirsTx_frame|apply EnsureParentDirsTx_quiet]|].
  intros [] d2 (H2 & (_ & _ & Eu) & Q2). wp_steps.
  assert (ended u d2) as He2 by (unfold ended; by rewrite Eu).
  assert (quiet d d2) as Q by (etransitivity; [exact Q1|exact Q2]).
  assert (contentInodes d2) as Hc2 by apply (Q Hci).
  pose proof (owns_quiet _ _ _ _ _ _ Hci Q Hown) as Hown2. pose proof (bytesOk_quiet _ _ _ _ _ _ Hb Hci Q) as Hb2.
  assert (is_Some (contents d2 !! UFileID u)) as Hcf.
  { rewrite <- (proj1 (proj2 (Q Hci))) in Hp. unfold place in Hp. by destruct (contents d2 !! UFileID u). }
  destruct (nodeAt d2 (TargetPath u)) as [[id r]|] eqn:Hn; cbn [mbind option_bind snd]; [|by apply finalizeCreateTx_bytes].
  destruct (file_id r) as [f|] eqn:Hfr; [|by apply finalizeCreateTx_bytes].
  apply finalizeOverwriteTx_bytes; try done. apply nodeAt_spec in Hn as [Hr _]. by apply (nodes_ok _ _ H2 id r Hr).
Qed.

(** ** Confirming *)

(** A failed confirmation takes its own object away and nothing else. *)
Lemma cleanup_bytes used b e u :
  filesOk (store b) -> bytesSafe used b -> uploads (store b) !! UploadID u = Some u -> isActive u = true ->
  bytesSafe used (cleanupFailedFinalizeUpload cfg b e u).
Proof.
  intros Hok H Hu Ha. unfold cleanupFailedFinalizeUpload.
  assert (bytesSafe used (deleteBlob cfg (S3Key u) b)) as Hd.
  { apply bytesSafe_unput_at; [done|]. intros g Hg. destruct H as [Hb _].
    destruct (uploads_own _ _ _ _ _ Hb _ u Hu Ha) as [Hp Hne].
    destruct (refs_own _ _ _ _ _ Hb _ _ _ Hg Hp Hne) as [->|[[]|[]]].
    destruct (upload_pending _ _ _ (uploads_ok _ _ Hok) _ u Hu Ha) as [_ (i & c & Hi & _ & Hs)].
    unfold statusOf. rewrite Hi. cbn. congruence. }
  pose proof (run_quiet used _ _ (setUploadStatus_quiet UploadAborted [UploadInitiated; UploadUploading] (UploadID u)
    (now (base e)) ltac:(done) ltac:(done)) Hd) as Hr.
  case_if; [done|]. apply run_quiet; [|done]. apply markFilesDeletedTx_quiet.
Qed.

Lemma finalizeUpload_bytes used b e u tags :
  filesOk (store b) -> bytesSafe used b -> uploads (store b) !! UploadID u = Some u -> UStatus u = UploadUploading ->
  bytesSafe used (fst (finalizeUpload typeByExtension toLower cfg b e u tags)).
Proof.
  intros Hok H Hu Hs. assert (isActive u = true) as Ha by (unfold isActive; by rewrite Hs).
  unfold finalizeUpload. case_if; [done|]. set (b0 := set_objects _ b).
  assert (bytesSafe used b0) as H0.
  { destruct H as [Hb Hc]. split; [|done]. eapply bytesOk_more; [done|done|]. intros k Hk. cbn. rewrite lookup_insert_is_Some'.
    by right. }
  pose proof (finalizeTx_bytes used (objects b0) (candidates b0) e u tags (store b0) Hok (proj1 H0) Hu Hs
    ltac:(cbn; rewrite lookup_insert_eq; done)) as Hw.
  unfold run, InTx. unfold wp in Hw. destruct (finalizeTx _ _ _ _ _ _ (store b0)) as [[d old]|err].
  - destruct Hw as [Hb Hc]. cbn [fst]. destruct old as [[t r]|]; [|by rewrite app_nil_r in Hb].
    destruct (deleteBlobIfS3_dropped cfg t r (S3Key u) (set_store d b0)) as (E1 & E2 & E3).
    split; [|by rewrite E1]. rewrite E1, E2. eapply bytesOk_fewer; [exact Hb|exact E3].
  - cbn [fst]. apply cleanup_bytes; [exact Hok|exact H0|exact Hu|exact Ha].
Qed.

Lemma ConfirmUpload_bytes used b e k tags :
  filesOk (store b) -> bytesSafe used b ->
  bytesSafe used (fst (ConfirmUpload typeByExtension toLower cfg b e k tags)).
Proof.
  intros Hok H. unfold ConfirmUpload, confirmRead. destruct (GetUpload (store b) k) as [u|] eqn:Hg; [|done].
  destruct (GetUpload_key _ _ _ Hok Hg) as [Hu _]. case_if; [done|]. bool_prop.
  destruct (listParts e); [|done]. case_if; [done|]. by apply finalizeUpload_bytes.
Qed.

Lemma AbortUploadV2_bytes used b e k : bytesSafe used b -> bytesSafe used (AbortUploadV2 b e k).
Proof.
  intros H. unfold AbortUploadV2. destruct (GetUpload (store b) k) as [u|]; [|done]. unfold abortV2Read.
  case_bool_decide; [done|].
  pose proof (run_quiet used _ _ (setUploadStatus_quiet UploadAborted [UploadInitiated; UploadUploading] (UploadID u)
    (now (base e)) ltac:(done) ltac:(done)) H) as Hr.
  case_if; [done|]. apply run_quiet; [|done]. apply markFilesDeletedTx_quiet.
Qed.

Lemma ConfirmUploadV2_bytes used b e k cps tags :
  filesOk (store b) -> bytesSafe used b ->
  bytesSafe used (fst (ConfirmUploadV2 typeByExtension toLower cfg b e k cps tags)).
Proof.
  intros Hok H. unfold ConfirmUploadV2, confirmV2Read. destruct (GetUpload (store b) k) as [u|] eqn:Hg; [|done].
  destruct (GetUpload_key _ _ _ Hok Hg) as [Hu _]. case_if; [done|]. bool_prop. case_if; [by apply AbortUploadV2_bytes|].
  repeat (case_match; [|done] || case_if; try done). all: try by apply finalizeUpload_bytes.
Qed.

Lemma AbortUpload_bytes used b e k : bytesSafe used b -> bytesSafe used (fst (AbortUpload b e k)).
Proof.
  intros H. unfold AbortUpload. destruct (GetUpload (store b) k) as [u|]; [|done]. case_if; [done|].
  pose proof (run_quiet used _ _ (setUploadStatus_quiet UploadAborted [UploadUploading] k (now (base e)) ltac:(done)
    ltac:(done)) H) as Hr.
  by destruct (run _ b) as [b' r].
Qed.

Lemma ensureUploadPresignable_bytes used b e u :
  bytesSafe used b -> bytesSafe used (fst (ensureUploadPresignable b e u)).
Proof.
  intros H. unfold ensureUploadPresignable. case_if; [done|]. case_if; [by apply AbortUploadV2_bytes|]. case_if; [done|].
  pose proof (run_quiet used _ b (TransitionUploadStatus_quiet (UploadID u) (now (base e))) H) as Hr.
  destruct (run _ b) as [b' [[]|[[]|?| | | | | | | | | |]]]; cbn in *; try done.
  destruct (GetUpload (store b') (UploadID u)); [|done]. repeat (case_if; [done|]).
  case_if; [by apply AbortUploadV2_bytes|done].
Qed.

Lemma PresignPart_bytes used b e k x : bytesSafe used b -> bytesSafe used (fst (PresignPart b e k x)).
Proof.
  intros H. unfold PresignPart. destruct (GetUpload (store b) k) as [u|]; [|done].
  pose proof (ensureUploadPresignable_bytes used b e u H) as Hr. by destruct (ensureUploadPresignable b e u) as [b' [|]].
Qed.

Lemma PresignParts_bytes used b e k xs : bytesSafe used b -> bytesSafe used (fst (PresignParts b e k xs)).
Proof.
  intros H. unfold PresignParts. destruct (GetUpload (store b) k) as [u|]; [|done].
  pose proof (ensureUploadPresignable_bytes used b e u H) as Hr. destruct (ensureUploadPresignable b e u) as [b' [|]]; [|done].
  by case_if.
Qed.

Lemma ResumeUpload_bytes used b e k cs : bytesSafe used b -> bytesSafe used (fst (ResumeUpload b e k cs)).
Proof.
  intros H. unfold ResumeUpload. destruct (GetUpload (store b) k) as [u|]; [|done]. case_if; [done|]. case_if.
  - apply run_quiet; [|done]. by apply setUploadStatus_quiet.
  - destruct (listParts e); [|done]. by repeat case_if.
Qed.

(** ** Initiating *)

Lemma InsertUploadTx_bytes used objs cands u d :
  bytesOk used objs cands d -> contentInodes d -> place d (UFileID u) = Some ("s3", S3Key u) -> S3Key u <> "" ->
  wp (InsertUploadTx u) (fun _ d' => bytesOk used objs cands d' /\ contentInodes d') d.
Proof.
  intros [] Hc Hp Hne. unfold InsertUploadTx. wp_steps. split; [|done]. split; try done. cbn.
  intros k v. rewrite lookup_insert_Some. intros [[<- <-]|[_ Hv]] Ha; [|eauto]. done.
Qed.

(** The pending file of an initiation and its upload. *)
Lemma insertPending_bytes used objs cands e mpu p descr n ps parts rev st d :
  bytesOk used objs cands d -> contentInodes d -> newFileID (base e) ∉ used ->
  wp (InsertFileTx (pendingFile cfg e n) (now (base e)) ;; InsertUploadTx (newUpload cfg e mpu p descr n ps parts rev st))
    (fun _ d' => bytesOk (used ∪ {[newFileID (base e)]}) objs cands d' /\ contentInodes d') d.
Proof.
  intros H Hc Hk. wp_step. wp_apply (InsertFileTx_bytes (fun _ => False) (used ∪ {[newFileID (base e)]}) objs cands).
  - eapply bytesOk_more; [exact H|apply union_subseteq_l|done].
  - exact Hc.
  - by left.
  - intros _. split_and!; [|exact (fresh_unowned _ _ _ _ _ _ H Hk)|done]. exists (newFileID (base e)).
    split; [|done]. apply in_used_new.
  - intros [] d1 [[H1 Hc1] [Hp _]]. by apply InsertUploadTx_bytes.
Qed.

(** A transaction that leaves the objects alone. *)
Lemma run_bytes {A} used used' (m : tx A) b :
  used ⊆ used' -> bytesSafe used b ->
  wp m (fun _ d' => bytesOk used' (objects b) (candidates b) d' /\ contentInodes d') (store b) ->
  bytesSafe used' (fst (run m b)).
Proof.
  intros Hu H Hw. destruct (run_objects m b) as [Eo Ec]. unfold bytesSafe. rewrite Eo, Ec.
  apply (run_wp m (fun d => bytesOk used' (objects b) (candidates b) d /\ contentInodes d)); [|done].
  by apply (bytesSafe_more used used').
Qed.

Lemma initiateWith_bytes used b e mpu p descr n ps parts rev st :
  bytesSafe used b -> newFileID (base e) ∉ used ->
  bytesSafe (used ∪ {[newFileID (base e)]})
    (fst (initiateWith cfg b e (newUpload cfg e mpu p descr n ps parts rev st))).
Proof.
  intros H Hk. unfold initiateWith. case_if; [by apply (bytesSafe_more used); [|apply union_subseteq_l]|].
  set (u := newUpload _ _ _ _ _ _ _ _ _ _).
  assert (bytesSafe (used ∪ {[newFileID (base e)]}) (fst (run (initiateTx cfg e u) b))) as Hr.
  { apply (run_bytes used); [apply union_subseteq_l|done|]. unfold initiateTx. wp_step.
    assert (forall (Q : unit -> db -> Prop), Q tt (store b) -> wp (if useServerQuota cfg then ok tt
      else ensureTenantStorageQuotaTx cfg (base e) (TargetPath u) (TotalSize u)) Q (store b)) as Hq.
    { intros Q HQ. unfold ensureTenantStorageQuotaTx. repeat (case_if || wp_step); done. }
    apply Hq. destruct H as [Hb Hc]. by apply insertPending_bytes. }
  by destruct (run _ b) as [b' [|]].
Qed.

Lemma InitiateUpload_bytes used b e p n cs r descr :
  bytesSafe used b -> newFileID (base e) ∉ used ->
  bytesSafe (used ∪ {[newFileID (base e)]}) (fst (InitiateUpload nfc cfg b e p n cs r descr)).
Proof.
  intros H Hk. pose proof (bytesSafe_more _ _ _ H (union_subseteq_l used {[newFileID (base e)]})) as H'.
  unfold InitiateUpload. destruct (initiateChecks _ _ _ _ _ _ _ _) as [q|]; [|done].
  destruct (createMultipart e); [|done]. do 3 (case_if; [done|]). by apply initiateWith_bytes.
Qed.

Lemma InitiateUploadV2_bytes used b e p n r descr :
  bytesSafe used b -> newFileID (base e) ∉ used ->
  bytesSafe (used ∪ {[newFileID (base e)]}) (fst (InitiateUploadV2 nfc cfg b e p n r descr)).
Proof.
  intros H Hk. pose proof (bytesSafe_more _ _ _ H (union_subseteq_l used {[newFileID (base e)]})) as H'.
  unfold InitiateUploadV2. destruct (initiateChecks _ _ _ _ _ _ _ _) as [q|]; [|done].
  do 2 (case_if; [done|]). destruct (createMultipart e); [|done]. by apply initiateWith_bytes.
Qed.

End calls.

End UploadObjects.
