(* ===== verification/BackendPlans.v ===== *)
(** * Read plans, listings and patch uploads

    Model of the read side of [src/pkg/backend/dat9.go] (stat, listing, read plans) over
    the joined queries of [src/pkg/datastore/store.go], and of [src/pkg/backend/patch.go]:
    an upload that replaces or appends to a file in object storage, for which unchanged
    parts are copied inside object storage and the client uploads the others.  What object
    storage answers is an argument; a signed URL is the key and the range it is for. *)

From Stdlib Require Import Strings.Ascii.
From S2P Require Import Prelude GoStrings PathUtil Json Sha256 SemanticQueue FileGCQueue FileStore Media Backend Uploads.

Import GoStr Paths FileStore Media Backend Uploads.

Module Plans.

#[local] Arguments String.append !_ _ / : simpl nomatch.

(** ** Joined queries *)

Record NodeWithFile := { Node : FileNode; NFile : option File; NMode : Z; HasMode : bool }.

(** [LEFT JOIN inodes i ON COALESCE(fn.inode_id, fn.file_id) = i.inode_id AND i.status =
    'CONFIRMED'] *)
Definition joinInode (d : db) (r : nodeRow) : option (string * inodeRow) :=
  match (match inode_id r with Some i => Some i | None => file_id r end) with
  | None => None
  | Some id => match inodes d !! id with
               | Some i => if bool_decide (status i = StatusConfirmed) then Some (id, i) else None
               | None => None
               end
  end.

(** The columns of the node that these queries select. *)
Definition nodeColumns (kv : string * nodeRow) : FileNode :=
  let n := scanNode kv in
  {| NodeID := NodeID n; Path := Path n; ParentPath_ := ParentPath_ n; Name := Name n; IsDirectory := IsDirectory n;
     FileID := FileID n; InodeID := ""; CreatedAt := CreatedAt n |}.

Definition withJoin (d : db) (file : string -> inodeRow -> File) (kv : string * nodeRow) : NodeWithFile :=
  match joinInode d (snd kv) with
  | Some (id, i) => {| Node := nodeColumns kv; NFile := Some (file id i); NMode := mode i; HasMode := true |}
  | None => {| Node := nodeColumns kv; NFile := None; NMode := 0; HasMode := false |}
  end.

(** [scanNodeWithFileLite] *)
Definition liteFile (id : string) (i : inodeRow) : File :=
  {| FFileID := id; StorageType := ""; StorageRef := ""; StorageEncryptionMode := ""; StorageEncryptionKeyID := "";
     ContentBlob := ""; ContentType := ""; SizeBytes := size_bytes i; ChecksumSHA256 := ""; Revision := revision i;
     Mode := mode i; EmbeddingRevision := None; Status := status i; SourceID := ""; ContentText := "";
     Description := ""; DescriptionEmbeddingRevision := None; FCreatedAt := created_at i;
     ConfirmedAt := confirmed_at i; ExpiresAt := None |}.

(** [scanNodeWithFileForRead] *)
Definition readFile (d : db) (id : string) (i : inodeRow) : File :=
  let c := contents d !! id in
  {| FFileID := id; StorageType := default "" (storage_type <$> c); StorageRef := default "" (storage_ref <$> c);
     StorageEncryptionMode := ""; StorageEncryptionKeyID := ""; ContentBlob := default "" (c ≫= content_blob);
     ContentType := ""; SizeBytes := size_bytes i; ChecksumSHA256 := ""; Revision := revision i; Mode := 0;
     EmbeddingRevision := None; Status := status i; SourceID := ""; ContentText := ""; Description := "";
     DescriptionEmbeddingRevision := None; FCreatedAt := created_at i; ConfirmedAt := confirmed_at i;
     ExpiresAt := None |}.

(** [scanNodeWithFileWithBlob] *)
Definition wholeFile (d : db) (id : string) (i : inodeRow) : File :=
  assembleFile id i (contents d !! id) (semantic d !! id).

Definition StatLite (d : db) (p : string) : NodeWithFile + storeError :=
  match nodeAt d p with Some kv => inl (withJoin d liteFile kv) | None => inr ErrNotFound end.

Definition StatForRead (d : db) (p : string) : NodeWithFile + storeError :=
  match nodeAt d p with Some kv => inl (withJoin d (readFile d) kv) | None => inr ErrNotFound end.

(** [WHERE fn.path = ? OR fn.path = ?], the first one preferred. *)
Definition nodeAtEither (d : db) (primaryPath fallbackPath : string) : option (string * nodeRow) :=
  match nodeAt d primaryPath with Some kv => Some kv | None => nodeAt d fallbackPath end.

Definition StatPathFallback (d : db) (primaryPath fallbackPath : string) : NodeWithFile + storeError :=
  match nodeAtEither d primaryPath fallbackPath with
  | Some kv => inl (withJoin d (wholeFile d) kv)
  | None => inr ErrNotFound
  end.

Definition StatPathFallbackLite (d : db) (primaryPath fallbackPath : string) : NodeWithFile + storeError :=
  match nodeAtEither d primaryPath fallbackPath with
  | Some kv => inl (withJoin d liteFile kv)
  | None => inr ErrNotFound
  end.

(** [ListDir]; the embedding revision comes along. *)
Definition listFile (d : db) (id : string) (i : inodeRow) : File :=
  let f := liteFile id i in
  {| FFileID := FFileID f; StorageType := ""; StorageRef := ""; StorageEncryptionMode := "";
     StorageEncryptionKeyID := ""; ContentBlob := ""; ContentType := ""; SizeBytes := SizeBytes f;
     ChecksumSHA256 := ""; Revision := Revision f; Mode := Mode f;
     EmbeddingRevision := semantic d !! id ≫= embedding_revision; Status := Status f; SourceID := "";
     ContentText := ""; Description := ""; DescriptionEmbeddingRevision := None; FCreatedAt := FCreatedAt f;
     ConfirmedAt := ConfirmedAt f; ExpiresAt := None |}.

Definition ListDir (d : db) (parent : string) : list NodeWithFile :=
  withJoin d (listFile d)
    <$> sortBy (fun a b => String.ltb (name (snd a)) (name (snd b)))
          (filter (fun kv => parent_path (snd kv) = parent) (map_to_list (file_nodes d))).

Definition ListUploadsByPath (d : db) (p : string) (st : UploadStatus) : list Upload :=
  sortBy (fun a b => UCreatedAt b <? UCreatedAt a)
    (filter (fun u => TargetPath u = p /\ UStatus u = st) (snd <$> map_to_list (uploads d))).

Section plans.
Context (nfc : string -> string) (cfg : config).

(** ** Stat and listings *)

Definition fromStat (r : (FileNode * option File) + storeError) : NodeWithFile + storeError :=
  match r with
  | inl (n, f) => inl {| Node := n; NFile := f; NMode := 0; HasMode := false |}
  | inr e => inr e
  end.

(** The common part of [StatNodeCtx] and [StatNodeLiteCtx]. *)
Definition statResolved (stat : string -> NodeWithFile + storeError)
    (statEither : string -> string -> NodeWithFile + storeError) (p : string) : NodeWithFile + storeError :=
  let resolvedPath := normalizePath nfc p in
  if IsDir p then stat resolvedPath
  else match CanonicalizeDir nfc p with
       | inr _ => stat resolvedPath
       | inl dirPath => if bool_decide (dirPath = resolvedPath) then stat resolvedPath
                        else statEither resolvedPath dirPath
       end.

Definition StatNodeCtx (d : db) (p : string) : NodeWithFile + storeError :=
  statResolved (fun q => fromStat (Stat d q)) (StatPathFallback d) p.
Definition StatNodeLiteCtx (d : db) (p : string) : NodeWithFile + storeError :=
  statResolved (StatLite d) (StatPathFallbackLite d) p.

Definition fileMtime (f : File) : Z := default (FCreatedAt f) (ConfirmedAt f).

Record FileInfo := { IName : string; ISize : Z; IIsDir : bool; IModTime : Z; IMode : Z; IHasMode : bool }.

Definition infoOf (e : NodeWithFile) : FileInfo :=
  {| IName := Name (Node e); ISize := match NFile e with Some f => SizeBytes f | None => 0 end;
     IIsDir := IsDirectory (Node e);
     IModTime := match NFile e with Some f => fileMtime f | None => CreatedAt (Node e) end;
     IMode := if HasMode e then NMode e else if IsDirectory (Node e) then 493 else 420;
     IHasMode := HasMode e |}.

Definition ReadDirCtx (d : db) (p : string) : list FileInfo + backendError :=
  match CanonicalizeDir nfc p with
  | inr e => inr (BadPath e)
  | inl dirPath => inl (infoOf <$> ListDir d dirPath)
  end.

Definition ListUploads (d : db) (p : string) (st : UploadStatus) : list Upload + backendError :=
  match Canonicalize nfc p with
  | inr e => inr (BadPath e)
  | inl p => inl (ListUploadsByPath d p st)
  end.

(** ** Read plans *)

(** The content itself, or the key of the object that the client is sent to. *)
Inductive readSource := InlineData (data : string) | PresignURL (key : string).

Record ReadPlan := { source : readSource; RSize : Z; RRevision : Z; RMtime : Z }.

Definition planFor (f : File) (s : readSource) : ReadPlan :=
  {| source := s; RSize := SizeBytes f; RRevision := Revision f; RMtime := fileMtime f |}.

Definition ReadPlanCtx (d : db) (presignOK : bool) (p : string) : ReadPlan + backendError :=
  match Canonicalize nfc p with
  | inr e => inr (BadPath e)
  | inl p =>
      match StatForRead d p with
      | inr e => inr (Store e)
      | inl nf =>
          if IsDirectory (Node nf) then inr (Store ErrNotFound)
          else match NFile nf with
               | None => inr (Store ErrNotFound)
               | Some f =>
                   if bool_decide (StorageType f = "db9") then inl (planFor f (InlineData (ContentBlob f)))
                   else if bool_decide (StorageType f = "s3") then
                     if negb (s3 cfg) then inr ErrNoS3
                     else if negb presignOK then inr ErrS3
                     else inl (planFor f (PresignURL (StorageRef f)))
                   else inr ErrStorageKind
               end
      end
  end.

Inductive inlineError := ReadError (e : backendError) | ErrNotInlineStorage.

Definition ReadInlinePlanCtx (d : db) (p : string) : ReadPlan + inlineError :=
  match Canonicalize nfc p with
  | inr e => inr (ReadError (BadPath e))
  | inl p =>
      match StatForRead d p with
      | inr e => inr (ReadError (Store e))
      | inl nf =>
          if IsDirectory (Node nf) then inr (ReadError (Store ErrNotFound))
          else match NFile nf with
               | None => inr (ReadError (Store ErrNotFound))
               | Some f => if bool_decide (StorageType f = "db9") then inl (planFor f (InlineData (ContentBlob f)))
                           else inr ErrNotInlineStorage
               end
      end
  end.

(** ** Patch uploads *)

Definition MinPartSize : Z := Z.shiftl 5 20.
Definition MaxPartSize : Z := Z.shiftl 5 30.

(** A part that was copied inside object storage, from a range of the old object, or one
    that the client uploads, with the range of the old object it may read for it. *)
Inductive partPlan :=
  | CopiedPart (number : Z) (key : string) (from_ to_ : Z)
  | UploadPart (number size : Z) (read : option (Z * Z)).

Record PatchPlan := { PlanUploadID : string; PlanPartSize : Z; PlanParts : list partPlan }.

Inductive patchError :=
  | Up (e : uploadError)
  | ErrNotS3Stored
  | ErrPartSize
  | ErrCopyPart
  | ErrAppendSize
  | ErrAppendOverflow.

(** What a patch call gets from outside: the answers of object storage by part. *)
Record penv := { up : senv; copyOK : Z -> bool; presignPart : Z -> bool; presignRead : Z -> bool }.

(** The range of a part in the old object. *)
Definition partRange (partSize origSize : Z) (p : Part) : Z * Z :=
  let partStart := (Number p - 1) * partSize in
  let partEnd := partStart + PSize p - 1 in
  (partStart, if origSize <=? partEnd then origSize - 1 else partEnd).

Definition planPart (e : penv) (sourceKey : string) (partSize origSize origPartCount : Z) (dirty : list Z) (p : Part)
    : partPlan + patchError :=
  let '(a, z) := partRange partSize origSize p in
  if negb (bool_decide (Number p ∈ dirty)) && (Number p <=? origPartCount) then
    if copyOK e (Number p) then inl (CopiedPart (Number p) sourceKey a z) else inr ErrCopyPart
  else if negb (presignPart e (Number p)) then inr (Up (Base ErrS3))
  else inl (UploadPart (Number p) (PSize p)
              (if (Number p <=? origPartCount) && presignRead e (Number p) then Some (a, z) else None)).

Definition patchTx (e : penv) (u : Upload) : tx unit :=
  ensureStorageQuota cfg (base (up e)) (TargetPath u) (TotalSize u) ;;
  InsertFileTx (pendingFile cfg (up e) (TotalSize u)) (now (base (up e))) ;;
  InsertUploadTx u.

(** The file that a patch starts from. *)
Definition patchTarget (b : backend) (p : string) (expectedRevision : Z) : File + patchError :=
  if negb (s3 cfg) then inr (Up (Base ErrNoS3))
  else match Stat (store b) p with
       | inr err => inr (Up (Base (Store err)))
       | inl (_, None) => inr ErrNotS3Stored
       | inl (_, Some f) =>
           if negb (bool_decide (StorageType f = "s3")) then inr ErrNotS3Stored
           else if expectedRevision =? 0 then inr (Up (Base (Store ErrRevisionConflict)))
           else if (0 <? expectedRevision) && negb (Revision f =? expectedRevision)
           then inr (Up (Base (Store ErrRevisionConflict)))
           else inl f
       end.

Definition partCount (size partSize : Z) : Z := if 0 <? size then zlen (CalcParts size partSize) else 0.

(** [InitiatePatchUploadIfRevision] *)
Definition InitiatePatchUpload (b : backend) (e : penv) (p : string) (newSize : Z) (dirtyParts : list Z)
    (clientPartSize expectedRevision : Z) : backend * (PatchPlan + patchError) :=
  if negb (ensureUploadSizeAllowed cfg newSize) then (b, inr (Up (Base ErrUploadTooLarge)))
  else match Canonicalize nfc p with
  | inr err => (b, inr (Up (Base (BadPath err))))
  | inl p =>
      match patchTarget b p expectedRevision with
      | inr err => (b, inr err)
      | inl f =>
          match GetUploadByPath (store b) p (now (base (up e))) with
          | Some _ => (b, inr (Up (Base (Store ErrUploadConflict))))
          | None =>
              let partSize := if clientPartSize <? MinPartSize then defaultPartSize else clientPartSize in
              if MaxPartSize <? partSize then (b, inr ErrPartSize)
              else
                let newParts := CalcParts newSize partSize in
                if CalcPartsPanics newSize partSize then (b, inr (Up ErrPanic))
                else if MaxMultipartParts <? zlen newParts then (b, inr (Up ErrTooManyParts))
                else match createMultipart (up e) with
                | None => (b, inr (Up (Base ErrS3)))
                | Some mpu =>
                    if (0 <? SizeBytes f) && CalcPartsPanics (SizeBytes f) partSize then (b, inr (Up ErrPanic))
                    else match collect (planPart e (StorageRef f) partSize (SizeBytes f)
                                     (partCount (SizeBytes f) partSize) dirtyParts) newParts with
                    | inr err => (b, inr err)
                    | inl plan =>
                        if negb (reserveOK (up e)) then (b, inr (Up (Base (Store ErrStorageQuotaExceeded))))
                        else
                          let u := newUpload cfg (up e) mpu p "" newSize partSize (zlen newParts) expectedRevision
                                     UploadUploading in
                          match run (patchTx e u) b with
                          | (b, inr err) => (b, inr (Up (Base err)))
                          | (b, inl _) =>
                              (b, inl {| PlanUploadID := UploadID u; PlanPartSize := partSize; PlanParts := plan |})
                          end
                    end
                end
          end
      end
  end.

Definition appendDirtyPartNumbers (baseSize newSize partSize : Z) : list Z :=
  if (newSize <=? baseSize) || (partSize <=? 0) then []
  else
    let newParts := zlen (CalcParts newSize partSize) in
    let basePartCount := partCount baseSize partSize in
    let dirty := (if (0 <? baseSize) && negb (Z.rem baseSize partSize =? 0) then [basePartCount] else [])
                   ++ seqZ (basePartCount + 1) (newParts - basePartCount) in
    if bool_decide (dirty = []) && (0 <? newParts) then [newParts] else dirty.

(** [InitiateAppendUploadIfRevision]: the size of the file and the plan. *)
Definition InitiateAppendUpload (b : backend) (e : penv) (p : string) (appendSize clientPartSize expectedRevision : Z)
    : backend * (Z * PatchPlan + patchError) :=
  if appendSize <=? 0 then (b, inr ErrAppendSize)
  else match Canonicalize nfc p with
  | inr err => (b, inr (Up (Base (BadPath err))))
  | inl p =>
      match patchTarget b p expectedRevision with
      | inr err => (b, inr err)
      | inl f =>
          let baseSize := SizeBytes f in
          let newSize := wrap64 (baseSize + appendSize) in
          if newSize <? baseSize then (b, inr ErrAppendOverflow)
          else
            let partSize := if clientPartSize <? MinPartSize then CalcAdaptivePartSize baseSize else clientPartSize in
            if CalcPartsPanics newSize partSize then (b, inr (Up ErrPanic))
            else
            let partSize := if MaxMultipartParts <? zlen (CalcParts newSize partSize) then CalcAdaptivePartSize newSize
                            else partSize in
            if CalcPartsPanics newSize partSize || (0 <? baseSize) && CalcPartsPanics baseSize partSize
            then (b, inr (Up ErrPanic))
            else match InitiatePatchUpload b e p newSize (appendDirtyPartNumbers baseSize newSize partSize) partSize
                    expectedRevision with
            | (b, inr err) => (b, inr err)
            | (b, inl plan) => (b, inl (baseSize, plan))
            end
      end
  end.

End plans.

End Plans.
