(* ===== verification/StoreHistory.v ===== *)
(** * Histories of the file store

    Every sequence of backend and upload calls, interleaved with the rounds of cleanup
    workers, keeps the invariants of [FileSafety] and [ObjectSafety].  The theorems at the
    end say what that means for a client: names lead to files and files have names, the
    bytes of a file are there as long as it has a name, and exactly the files that lost
    their last name are cleaned up. *)

From S2P Require Import Prelude GoStrings PathUtil Json Sha256 LeaseQueue SemanticQueue FileGCQueue FileStore FileRules FileSafety.
From S2P Require Import Media Backend BackendSafety BackendContent Uploads UploadSafety FileGCWorker ObjectSafety UploadObjects.
From S2P Require Import BackendPlans.

Import GoStr Paths FileStore FileRules FileSafety Media Backend BackendSafety Uploads UploadSafety FileGCWorker.
Import ObjectSafety UploadObjects Plans.

Module StoreHistory.

#[local] Arguments String.append !_ _ / : simpl nomatch.

(** ** Cleanup tasks stay *)

(** The entry of a file has no inode of its own. *)
Definition bare (m : gmap string nodeRow) : Prop :=
  forall id r, m !! id = Some r -> is_directory r = false -> inode_id r = None.

(** Every cleanup task is still there, a new one is queued, and the entries of files stay
    bare. *)
Definition tasksKept (d d' : db) : Prop :=
  (forall f r, gc_tasks d !! f = Some r -> gc_tasks d' !! f = Some r)
  /\ (forall f r, gc_tasks d' !! f = Some r -> gc_tasks d !! f = Some r \/ FileGC.status r = FileGC.FileGCTaskQueued)
  /\ (bare (file_nodes d) -> bare (file_nodes d')).

#[export] Instance tasksKept_preorder : PreOrder tasksKept.
Proof.
  split; [intros d; by split; auto|]. intros d1 d2 d3 (F1 & B1 & N1) (F2 & B2 & N2). split_and!; [auto| |auto]. intros f r Hr.
  destruct (B2 f r Hr); [auto|by right].
Qed.

Lemma tasksKept_nodes d d' :
  gc_tasks d' = gc_tasks d -> (bare (file_nodes d) -> bare (file_nodes d')) -> tasksKept d d'.
Proof. intros E Hn. split_and!; rewrite ?E; auto. Qed.

Lemma tasksKept_same d d' : gc_tasks d' = gc_tasks d -> file_nodes d' = file_nodes d -> tasksKept d d'.
Proof. intros E En. apply tasksKept_nodes; [done|]. by rewrite En. Qed.

Lemma bare_filter (P : string * nodeRow -> Prop) `{!forall kv, Decision (P kv)} m : bare m -> bare (filter P m).
Proof. intros Hm id r [Hr _]%map_lookup_filter_Some. by apply (Hm id). Qed.

Lemma bare_delete k m : bare m -> bare (delete k m).
Proof. intros H id r [_ Hr]%lookup_delete_Some. by apply (H id). Qed.

Lemma bare_insert k r m : bare m -> (is_directory r = false -> inode_id r = None) -> bare (<[k := r]> m).
Proof. intros H Hr id r' [[<- <-]|[_ Hr']]%lookup_insert_Some; [done|]. by apply (H id). Qed.

Lemma enqueueGC_tasksKept f now : respects tasksKept (enqueueGC f now).
Proof.
  intros d. unfold enqueueGC. destruct (FileGC.NewFileGCTaskFromFile _ _) as [task|] eqn:Ht; [|done]. wp_steps.
  unfold FileGC.enqueueFileGCTask. destruct (isBlank _); [done|]. case_if; wp_steps; [|by apply tasksKept_same].
  bool_prop. split_and!; cbn; [| |done].
  - intros f' r Hr. rewrite lookup_insert_ne; [done|]. congruence.
  - intros f' r [[<- <-]|[_ Hr]]%lookup_insert_Some; [right|by left].
    unfold FileGC.NewFileGCTaskFromFile in Ht. destruct (isBlank (gFileID f)); [done|]. by injection Ht as <-.
Qed.

(** Close the updates that do not touch the cleanup tasks and leave entries or drop them. *)
Ltac tasks_tac :=
  respects_tac;
  try (apply tasksKept_same; cbn; repeat case_match; reflexivity);
  try (apply tasksKept_nodes; cbn; [reflexivity|first [apply bare_filter|apply bare_delete]]).

#[local] Hint Resolve enqueueGC_tasksKept : respects.

Lemma ensureDir_tasks now p d : wp (ensureDir now p) (fun _ d' => tasksKept d d') d.
Proof.
  unfold ensureDir. wp_step. wp_step. cbv beta.
  assert (forall ino, wp (insertIgnoreInode (deterministicNodeID p) ino)
    (fun _ d' => file_nodes d' = file_nodes d /\ gc_tasks d' = gc_tasks d) d) as Hi.
  { intros ino. unfold insertIgnoreInode. wp_steps. by case_match. }
  destruct (head _) as [[id r]|] eqn:Hh.
  - apply nodesWhere_head in Hh as [Hr Hd]. apply andb_true_iff in Hd as [_ Hd].
    destruct r as [pa pp na di fi [ino|] cr]; [by wp_steps; apply tasksKept_same|]. cbn in Hd. subst di. wp_step.
    wp_apply Hi. intros [] d' [En Eg]. wp_steps. apply tasksKept_nodes; [done|]. intros Hb. apply bare_insert; [|done]. by rewrite En.
  - wp_step. wp_apply Hi. intros [] d' [En Eg]. wp_steps. case_if; [by apply tasksKept_same|]. apply tasksKept_nodes; [done|].
    intros Hb. apply bare_insert; [|done]. by rewrite En.
Qed.

Lemma EnsureParentDirsTx_tasks now p : respects tasksKept (EnsureParentDirsTx now p).
Proof. unfold EnsureParentDirsTx. apply respects_forEach; [exact _|]. intros q d. apply ensureDir_tasks. Qed.

Lemma InsertNodeTx_bare n : (IsDirectory n = false -> InodeID n = "") -> respects tasksKept (InsertNodeTx n).
Proof.
  intros Hn d. unfold InsertNodeTx, InsertNode, insertNodeRow. wp_step.
  assert (wp (if negb (IsDirectory n) && negb (bool_decide (FileID n = "")) then lockConfirmedFileForAttachTx (FileID n) else ok tt)
    (fun _ d' => d' = d) d) as Hl by (case_if; [unfold lockConfirmedFileForAttachTx; wp_steps; done|done]).
  wp_apply Hl. intros [] d' ->. wp_steps. apply tasksKept_nodes; [done|]. intros Hb. apply bare_insert; [done|]. cbn.
  intros Hd. by rewrite (Hn Hd).
Qed.

Lemma InsertNodeTx_tasks id p f now : respects tasksKept (InsertNodeTx (fileNode id p f now)).
Proof. by apply InsertNodeTx_bare. Qed.

Lemma InsertDirTx_tasks id p i now : respects tasksKept (InsertNodeTx (dirNode id p i now)).
Proof. by apply InsertNodeTx_bare. Qed.

Lemma InsertFileTx_tasks f now : respects tasksKept (InsertFileTx f now).
Proof. unfold InsertFileTx, insertSplitTablesTx, insertInodeRow, insertContentRow, insertSemanticRow. tasks_tac. Qed.

Lemma markFilesDeletedTx_tasks ids : respects tasksKept (markFilesDeletedTx ids).
Proof. unfold markFilesDeletedTx, markOne, updateLegacy, updateInode. tasks_tac. Qed.

Lemma moveNode_tasks e u : respects tasksKept (moveNode e u).
Proof.
  intros d. unfold moveNode. destruct u as [[[id p] pp] n]. wp_step. wp_step. cbv beta.
  destruct (file_nodes d !! id) as [r|] eqn:Hr; [|by wp_steps]. wp_steps. apply tasksKept_nodes; [done|]. intros Hb.
  apply bare_insert; [done|]. cbn. by apply (Hb id).
Qed.

Lemma updateFileContentTx_tasks f x p u now : respects tasksKept (updateFileContentTx f x p u now).
Proof.
  unfold updateFileContentTx, updateLegacyContentTx, UpdateInodeContentTx, UpdateContentTx, updateInode,
    updateContent, updateSemanticNoEmbedTx, UpdateSemanticTx, updateSemantic. tasks_tac.
Qed.

Lemma UpdateFileStorageEncryptionTx_tasks f m k : respects tasksKept (UpdateFileStorageEncryptionTx f m k).
Proof. unfold UpdateFileStorageEncryptionTx, updateLegacy, updateContent. tasks_tac. Qed.

Lemma replaceTags_tasks f tags : respects tasksKept (replaceTags f tags).
Proof. unfold replaceTags, ReplaceFileTagsTx, insertTag. tasks_tac. Qed.

Lemma enqueueSemanticTx_tasks toLower cfg e f rev p ct text descr :
  respects tasksKept (enqueueSemanticTx toLower cfg e f rev p ct text descr).
Proof. unfold enqueueSemanticTx, enqueueTiDBAutoSemanticTasksTx, enqueueEmbedTaskTx, enqueueTaskTx. tasks_tac. Qed.

Lemma setUploadStatus_tasks st from k now : respects tasksKept (setUploadStatus st from k now).
Proof. unfold setUploadStatus. tasks_tac. Qed.

#[local] Hint Resolve EnsureParentDirsTx_tasks InsertNodeTx_tasks InsertDirTx_tasks InsertFileTx_tasks markFilesDeletedTx_tasks moveNode_tasks
  updateFileContentTx_tasks UpdateFileStorageEncryptionTx_tasks replaceTags_tasks enqueueSemanticTx_tasks
  setUploadStatus_tasks : respects.

(** Nor is a candidate for object cleanup forgotten. *)
Definition grows (b b' : backend) : Prop := tasksKept (store b) (store b') /\ candidates b ⊆ candidates b'.

#[export] Instance grows_preorder : PreOrder grows.
Proof.
  split; [intros b; by split|]. intros b1 b2 b3 [T1 C1] [T2 C2]. split; [by transitivity (store b2)|].
  by transitivity (candidates b2).
Qed.

Lemma run_tasks {A} (m : tx A) b : respects tasksKept m -> grows b (fst (run m b)).
Proof.
  intros Hm. destruct (run_objects m b) as [_ Ec]. split; [|by rewrite Ec].
  apply (run_wp m (tasksKept (store b))); [reflexivity|apply Hm].
Qed.

Lemma grows_same b b' : store b' = store b -> candidates b ⊆ candidates b' -> grows b b'.
Proof. intros E Hc. split; [by rewrite E|done]. Qed.

Lemma andThen_tasks {A B} (m : tx A) (k : A -> backend -> backend * (B + backendError)) b :
  respects tasksKept m -> (forall a b, grows b (fst (k a b))) ->
  grows b (fst (andThen m k b)).
Proof.
  intros Hm Hk. pose proof (run_tasks m b Hm) as Hr. unfold andThen. destruct (run m b) as [b' [a|e]]; [|done].
  etransitivity; [exact Hr|apply Hk].
Qed.

Section history.
Context (nfc typeByExtension toLower : string -> string) (cfg : config).

Lemma deleteBlob_tasks r b : grows b (deleteBlob cfg r b).
Proof. apply grows_same; unfold deleteBlob; by case_if. Qed.

Lemma unput_tasks pl b : grows b (unputContent cfg pl b).
Proof. unfold unputContent. case_if; [apply deleteBlob_tasks|reflexivity]. Qed.

Lemma drop_tasks t r k b : grows b (deleteBlobIfS3 cfg t r k b).
Proof.
  apply grows_same; [apply store_deleteBlobIfS3|]. unfold deleteBlobIfS3. repeat case_if; try done. cbn.
  by apply list_subseteq_app_l.
Qed.

Lemma DeleteFileWithRefCheck_tasks p now : respects tasksKept (DeleteFileWithRefCheck p now).
Proof. unfold DeleteFileWithRefCheck, RefCount, deleteNodes, retireFile, deleteFileTagsByIDsTx. tasks_tac. Qed.

Lemma DeleteDirRecursive_tasks p now : respects tasksKept (DeleteDirRecursive p now).
Proof. unfold DeleteDirRecursive, deleteNodes, deleteFileTagsByIDsTx. tasks_tac. Qed.

Lemma DeleteEmptyDir_tasks p : respects tasksKept (DeleteEmptyDir p).
Proof. unfold DeleteEmptyDir, dirHasChildrenTx, deleteNodes. tasks_tac. Qed.

Lemma RenameDir_tasks p q : respects tasksKept (RenameDir p q).
Proof. unfold RenameDir. tasks_tac. Qed.

Lemma RenameFileReplacingTarget_tasks p q pp n now : respects tasksKept (RenameFileReplacingTarget p q pp n now).
Proof. unfold RenameFileReplacingTarget, RefCount, deleteFileTagsByIDsTx, scanFileForGCTx. tasks_tac. Qed.

#[local] Hint Resolve DeleteFileWithRefCheck_tasks DeleteDirRecursive_tasks DeleteEmptyDir_tasks RenameDir_tasks
  RenameFileReplacingTarget_tasks : respects.

Lemma CreateCtx_tasks b p f n put now : grows b (fst (CreateCtx nfc cfg b p f n put now)).
Proof.
  unfold CreateCtx, createTx. destruct (Canonicalize nfc p); [|reflexivity]. case_if; [apply run_tasks; tasks_tac|].
  repeat (case_if; [reflexivity|]). set (b0 := set_objects _ b).
  pose proof (run_tasks (createTx cfg s f n now) b0 ltac:(unfold createTx; tasks_tac)) as Hr.
  assert (grows b b0) as H0 by by apply grows_same.
  unfold createTx in Hr. destruct (run _ b0) as [b1 [u|e]]; (etransitivity; [exact H0|]); [exact Hr|].
  etransitivity; [exact Hr|apply deleteBlob_tasks].
Qed.

Lemma MkdirCtx_tasks b p m i n now : grows b (fst (MkdirCtx nfc b p m i n now)).
Proof.
  unfold MkdirCtx, insertInodeRow. destruct (CanonicalizeDir nfc p); [|reflexivity].
  apply andThen_tasks; [tasks_tac|]. intros. apply run_tasks. tasks_tac.
Qed.

Lemma ChmodCtx_tasks b p m : grows b (fst (ChmodCtx nfc b p m)).
Proof.
  unfold ChmodCtx, Chmod, updateInode. destruct (resolveNodePath nfc (store b) p) as [[q n]|]; [|reflexivity].
  apply run_tasks. tasks_tac.
Qed.

Lemma RemoveCtx_tasks b p now : grows b (fst (RemoveCtx nfc b p now)).
Proof.
  unfold RemoveCtx. destruct (resolveNodePath nfc (store b) p) as [[q n]|]; [|reflexivity].
  case_if; apply run_tasks; tasks_tac.
Qed.

Lemma RemoveFileCtx_tasks b p now : grows b (fst (RemoveFileCtx nfc b p now)).
Proof. unfold RemoveFileCtx. destruct (Canonicalize nfc p); [|reflexivity]. apply run_tasks; tasks_tac. Qed.

Lemma RemoveDirCtx_tasks b p : grows b (fst (RemoveDirCtx nfc b p)).
Proof. unfold RemoveDirCtx. destruct (CanonicalizeDir nfc p); [|reflexivity]. apply run_tasks; tasks_tac. Qed.

Lemma RemoveAllCtx_tasks b p now : grows b (fst (RemoveAllCtx nfc b p now)).
Proof.
  unfold RemoveAllCtx. destruct (resolveNodePath nfc (store b) p) as [[q n]|]; [|reflexivity].
  case_if; apply run_tasks; tasks_tac.
Qed.

Lemma RenameCtx_tasks b p q now : grows b (fst (RenameCtx nfc b p q now)).
Proof.
  unfold RenameCtx. destruct (resolveNodePath nfc (store b) p) as [[o n]|]; [|reflexivity]. case_if; [reflexivity|].
  apply andThen_tasks; [tasks_tac|]. intros. case_if; apply run_tasks; tasks_tac.
Qed.

Lemma CopyFileCtx_tasks b p q n now : grows b (fst (CopyFileCtx nfc b p q n now)).
Proof.
  unfold CopyFileCtx. destruct (Canonicalize nfc p), (Canonicalize nfc q); try reflexivity.
  destruct (GetNode _ _); [|reflexivity]. case_if; [reflexivity|].
  apply andThen_tasks; [tasks_tac|]. intros. apply run_tasks. tasks_tac.
Qed.

Lemma put_tasks pl data e b b1 : putContent cfg pl data e b = inl b1 -> grows b b1.
Proof.
  intros Hp. apply grows_same; [exact (putContent_store _ _ _ _ _ _ Hp)|]. unfold putContent in Hp.
  destruct (bool_decide _), (s3 cfg), (putOK e); simplify_eq/=; done.
Qed.

Lemma createAndWriteTx_tasks e pl p data tags descr :
  respects tasksKept (createAndWriteTx typeByExtension toLower cfg e pl p data tags descr).
Proof.
  unfold createAndWriteTx, ensureStorageQuota, ensureTenantStorageQuotaTx, ensureStorageQuotaServer. tasks_tac.
Qed.

Lemma overwriteTx_tasks e pl n f data x tags descr :
  respects tasksKept (overwriteTx typeByExtension toLower cfg e pl n f data x tags descr).
Proof. unfold overwriteTx, ensureStorageQuota, ensureTenantStorageQuotaTx, ensureStorageQuotaServer. tasks_tac. Qed.

Lemma createAndWriteCtx_tasks b e p data tags descr :
  grows b (fst (createAndWriteCtx typeByExtension toLower cfg b e p data tags descr)).
Proof.
  unfold createAndWriteCtx. case_if; [reflexivity|]. set (pl := placeContent _ _ _).
  destruct (putContent cfg pl data e b) as [b1|] eqn:Hp; [|reflexivity]. apply put_tasks in Hp.
  pose proof (run_tasks _ b1 (createAndWriteTx_tasks e pl p data tags descr)) as Hr.
  destruct (run _ b1) as [b2 [u|err]]; (etransitivity; [exact Hp|]); [exact Hr|].
  etransitivity; [exact Hr|apply unput_tasks].
Qed.

Lemma WriteCtx_tasks b e p data offset flags x tags descr :
  grows b (fst (WriteCtx nfc typeByExtension toLower cfg b e p data offset flags x tags descr)).
Proof.
  unfold WriteCtx. destruct (Canonicalize nfc p) as [q|]; [|reflexivity]. destruct (Stat (store b) q) as [[n o]|err].
  - unfold writeFound. repeat (case_if; [reflexivity|]). destruct o as [f|]; [|reflexivity]. case_if; [reflexivity|].
    unfold overwriteFileCtxWithRev. destruct (finalData _ _ _ _ _ _) as [final|]; [|reflexivity]. case_if; [reflexivity|].
    set (pl := placeContent _ _ _). destruct (putContent cfg pl final e b) as [b1|] eqn:Hp; [|reflexivity].
    apply put_tasks in Hp. pose proof (run_tasks _ b1 (overwriteTx_tasks e pl n f final x tags descr)) as Hr.
    destruct (run _ b1) as [b2 [u|err]]; (etransitivity; [exact Hp|]); (etransitivity; [exact Hr|]);
      [apply drop_tasks|apply unput_tasks].
  - pose proof (createAndWriteCtx_tasks b e q data tags descr) as Hr. destruct err; try reflexivity.
    unfold writeMissing. repeat (case_if; [reflexivity|]).
    destruct (createAndWriteCtx _ _ _ _ _ _ _ _ _) as [b' [k|[[]|?| | | | | | | | | |]]]; exact Hr.
Qed.

(** ** Uploads *)

Lemma initiateWith_tasks b e u : grows b (fst (initiateWith cfg b e u)).
Proof.
  unfold initiateWith. case_if; [reflexivity|].
  pose proof (run_tasks (initiateTx cfg e u) b) as Hr. destruct (run _ b) as [b' [|]]; apply Hr;
    unfold initiateTx, ensureTenantStorageQuotaTx, InsertUploadTx; tasks_tac.
Qed.

Lemma InitiateUpload_tasks b e p n cs r descr : grows b (fst (InitiateUpload nfc cfg b e p n cs r descr)).
Proof.
  unfold InitiateUpload. destruct (initiateChecks _ _ _ _ _ _ _ _); [|reflexivity].
  destruct (createMultipart e); [|reflexivity]. repeat (case_if; [reflexivity|]). apply initiateWith_tasks.
Qed.

Lemma InitiateUploadV2_tasks b e p n r descr : grows b (fst (InitiateUploadV2 nfc cfg b e p n r descr)).
Proof.
  unfold InitiateUploadV2. destruct (initiateChecks _ _ _ _ _ _ _ _); [|reflexivity]. do 2 (case_if; [reflexivity|]).
  destruct (createMultipart e); [|reflexivity]. apply initiateWith_tasks.
Qed.

Lemma patchTx_tasks e u : respects tasksKept (patchTx cfg e u).
Proof. unfold patchTx, ensureStorageQuota, ensureTenantStorageQuotaTx, ensureStorageQuotaServer, InsertUploadTx. tasks_tac. Qed.

(** A patch leaves the backend alone, or it ran its transaction. *)
Lemma InitiatePatchUpload_runs b e p n dirty cps r :
  fst (InitiatePatchUpload nfc cfg b e p n dirty cps r) = b
  \/ exists mpu q ps parts,
       fst (InitiatePatchUpload nfc cfg b e p n dirty cps r)
       = fst (run (patchTx cfg e (newUpload cfg (up e) mpu q "" n ps parts r UploadUploading)) b).
Proof.
  unfold InitiatePatchUpload. case_if; [by left|]. destruct (Canonicalize nfc p); [|by left].
  destruct (patchTarget cfg b _ r); [|by left]. destruct (GetUploadByPath _ _ _); [by left|].
  set (ps := if cps <? MinPartSize then defaultPartSize else cps). cbv zeta.
  destruct (MaxPartSize <? ps); [by left|]. destruct (CalcPartsPanics n ps); [by left|].
  destruct (MaxMultipartParts <? _); [by left|]. destruct (createMultipart (up e)) as [mpu|]; [|by left].
  destruct (_ && CalcPartsPanics _ ps); [by left|].
  destruct (collect _ _); [|by left]. case_if; [by left|]. right. exists mpu. do 3 eexists.
  match goal with |- context [run (patchTx cfg e ?u) b] => set (r1 := run (patchTx cfg e u) b) end.
  destruct r1 as [b' [|]] eqn:E; unfold r1 in E; rewrite E; reflexivity.
Qed.

(** An append is a patch. *)
Lemma InitiateAppendUpload_patch b e p n cps r :
  fst (InitiateAppendUpload nfc cfg b e p n cps r) = b
  \/ exists q m dirty ps, fst (InitiateAppendUpload nfc cfg b e p n cps r)
       = fst (InitiatePatchUpload nfc cfg b e q m dirty ps r).
Proof.
  unfold InitiateAppendUpload. case_if; [by left|]. destruct (Canonicalize nfc p) as [q|]; [|by left].
  destruct (patchTarget cfg b q r); [|by left]. case_if; [by left|]. cbv zeta.
  match goal with |- context [if CalcPartsPanics ?m ?ps then _ else _] => destruct (CalcPartsPanics m ps); [by left|] end.
  match goal with |- context [if CalcPartsPanics ?m ?ps || ?c then _ else _] =>
    destruct (CalcPartsPanics m ps || c); [by left|] end. right. do 4 eexists.
  match goal with |- context [InitiatePatchUpload nfc cfg b e ?q ?m ?d ?ps r] =>
    set (r1 := InitiatePatchUpload nfc cfg b e q m d ps r) end.
  destruct r1 as [b' [|]] eqn:E; unfold r1 in E; rewrite E; reflexivity.
Qed.

(** What holds without a patch and after its transaction holds after it, and after an append. *)
Lemma patch_ind (P : backend -> Prop) b e r :
  P b ->
  (forall mpu q n ps parts, P (fst (run (patchTx cfg e (newUpload cfg (up e) mpu q "" n ps parts r UploadUploading)) b))) ->
  (forall p n dirty cps, P (fst (InitiatePatchUpload nfc cfg b e p n dirty cps r)))
  /\ (forall p n cps, P (fst (InitiateAppendUpload nfc cfg b e p n cps r))).
Proof.
  intros Hb Hr. assert (forall p n dirty cps, P (fst (InitiatePatchUpload nfc cfg b e p n dirty cps r))) as Hp.
  { intros p n dirty cps. destruct (InitiatePatchUpload_runs b e p n dirty cps r) as [->|(mpu & q & ps & parts & ->)]; auto. }
  split; [exact Hp|]. intros p n cps.
  destruct (InitiateAppendUpload_patch b e p n cps r) as [->|(q & m & dirty & ps & ->)]; auto.
Qed.

Lemma patchTx_run_tasks b e mpu q n ps parts r :
  grows b (fst (run (patchTx cfg e (newUpload cfg (up e) mpu q "" n ps parts r UploadUploading)) b)).
Proof. apply run_tasks, patchTx_tasks. Qed.

Lemma patchTx_run_ok b e mpu q n ps parts r :
  filesOk (store b) -> newFileID (base (up e)) <> "" ->
  filesOk (store (fst (run (patchTx cfg e (newUpload cfg (up e) mpu q "" n ps parts r UploadUploading)) b))).
Proof.
  intros H Hf. apply run_ok; [done|]. unfold patchTx. wp_step. apply ensureStorageQuota_wp. by apply insertPending_ok.
Qed.

Lemma patchTx_run_bytes used b e mpu q n ps parts r :
  bytesSafe used b -> newFileID (base (up e)) ∉ used ->
  bytesSafe (used ∪ {[newFileID (base (up e))]})
    (fst (run (patchTx cfg e (newUpload cfg (up e) mpu q "" n ps parts r UploadUploading)) b)).
Proof.
  intros H Hf. apply (run_bytes used); [apply union_subseteq_l|done|]. destruct H as [Hb Hc].
  unfold patchTx. wp_step. apply ensureStorageQuota_wp. by apply insertPending_bytes.
Qed.

(** The two transactions that end an upload without a file. *)
Lemma abort_tasks b u now :
  grows b (fst (run (MarkFileDeleted (UFileID u)) (fst (run (AbortUploadV2Store (UploadID u) now) b)))).
Proof.
  transitivity (fst (run (AbortUploadV2Store (UploadID u) now) b)).
  - apply run_tasks. apply setUploadStatus_tasks.
  - apply run_tasks. apply markFilesDeletedTx_tasks.
Qed.

Lemma abortV2Read_tasks b e u : grows b (abortV2Read b e u).
Proof.
  unfold abortV2Read. case_if; [reflexivity|]. case_if; [apply run_tasks; apply setUploadStatus_tasks|apply abort_tasks].
Qed.

Lemma AbortUploadV2_tasks b e k : grows b (AbortUploadV2 b e k).
Proof. unfold AbortUploadV2. destruct (GetUpload (store b) k); [apply abortV2Read_tasks|reflexivity]. Qed.

Lemma AbortUpload_tasks b e k : grows b (fst (AbortUpload b e k)).
Proof.
  unfold AbortUpload. destruct (GetUpload (store b) k); [|reflexivity]. case_if; [reflexivity|].
  pose proof (run_tasks _ b (setUploadStatus_tasks UploadAborted [UploadUploading] k (now (base e)))) as Hr.
  by destruct (run _ b) as [b' r].
Qed.

Lemma ensureUploadPresignable_tasks b e u : grows b (fst (ensureUploadPresignable b e u)).
Proof.
  unfold ensureUploadPresignable. case_if; [reflexivity|]. case_if; [apply AbortUploadV2_tasks|]. case_if; [reflexivity|].
  pose proof (run_tasks (TransitionUploadStatus (UploadID u) UploadInitiated UploadUploading (now (base e))) b
    ltac:(unfold TransitionUploadStatus; tasks_tac)) as Hr.
  destruct (run _ b) as [b' [[]|[[]|?| | | | | | | | | |]]]; cbn in *; try exact Hr.
  destruct (GetUpload (store b') (UploadID u)); [|exact Hr]. repeat (case_if; [exact Hr|]).
  case_if; [|exact Hr]. etransitivity; [exact Hr|apply AbortUploadV2_tasks].
Qed.

Lemma PresignPart_tasks b e k x : grows b (fst (PresignPart b e k x)).
Proof.
  unfold PresignPart. destruct (GetUpload (store b) k) as [u|]; [|reflexivity].
  pose proof (ensureUploadPresignable_tasks b e u) as Hr. by destruct (ensureUploadPresignable b e u) as [b' [|]].
Qed.

Lemma PresignParts_tasks b e k xs : grows b (fst (PresignParts b e k xs)).
Proof.
  unfold PresignParts. destruct (GetUpload (store b) k) as [u|]; [|reflexivity].
  pose proof (ensureUploadPresignable_tasks b e u) as Hr. destruct (ensureUploadPresignable b e u) as [b' [|]]; [|exact Hr].
  by case_if.
Qed.

Lemma ResumeUpload_tasks b e k cs : grows b (fst (ResumeUpload b e k cs)).
Proof.
  unfold ResumeUpload. destruct (GetUpload (store b) k) as [u|]; [|reflexivity]. case_if; [reflexivity|].
  case_if; [apply run_tasks; apply setUploadStatus_tasks|]. destruct (listParts e); [|reflexivity]. by repeat case_if.
Qed.

Lemma mapError_tasks {A} h (m : tx A) : respects tasksKept m -> respects tasksKept (mapError h m).
Proof. intros H d. specialize (H d). unfold wp, mapError in *. by destruct (m d) as [[d' a]|]. Qed.

Lemma finalizeTx_tasks e u tags : respects tasksKept (finalizeTx typeByExtension toLower cfg e u tags).
Proof.
  pose proof (@mapError_tasks unit). unfold finalizeTx, finalizeOverwriteTx, finalizeCreateTx, confirmPendingTx, requirePending,
    DeletePendingFileTx, updateLegacy, UpdateInodeContentTx, UpdateContentTx, updateInode, updateContent, UpdateSemanticTx,
    updateSemanticNoEmbedTx, updateSemantic, CompleteUploadTx. tasks_tac.
Qed.

Lemma finalizeUpload_tasks b e u tags :
  grows b (fst (finalizeUpload typeByExtension toLower cfg b e u tags)).
Proof.
  unfold finalizeUpload. case_if; [reflexivity|]. set (b0 := set_objects _ b).
  transitivity b0; [by apply grows_same|]. pose proof (run_tasks _ b0 (finalizeTx_tasks e u tags)) as Hr.
  destruct (run _ b0) as [b1 [old|err]]; cbn [fst] in *; (transitivity b1; [exact Hr|]).
  - destruct old as [[t r]|]; [apply drop_tasks|reflexivity].
  - unfold cleanupFailedFinalizeUpload. transitivity (deleteBlob cfg (S3Key u) b1); [apply deleteBlob_tasks|].
    case_if; [apply run_tasks; apply setUploadStatus_tasks|apply abort_tasks].
Qed.

Lemma ConfirmUpload_tasks b e k tags : grows b (fst (ConfirmUpload typeByExtension toLower cfg b e k tags)).
Proof.
  unfold ConfirmUpload, confirmRead. destruct (GetUpload (store b) k) as [u|]; [|reflexivity]. case_if; [reflexivity|].
  destruct (listParts e); [|reflexivity]. case_if; [reflexivity|]. apply finalizeUpload_tasks.
Qed.

Lemma ConfirmUploadV2_tasks b e k cps tags :
  grows b (fst (ConfirmUploadV2 typeByExtension toLower cfg b e k cps tags)).
Proof.
  unfold ConfirmUploadV2, confirmV2Read. destruct (GetUpload (store b) k) as [u|]; [|reflexivity]. case_if; [reflexivity|].
  case_if; [apply AbortUploadV2_tasks|]. repeat (case_match; try reflexivity); apply finalizeUpload_tasks.
Qed.

(** ** Calls and histories *)

Inductive call :=
  | Create (p fileID nodeID : string) (put : bool) (t : Z)
  | Mkdir (p : string) (perm : Z) (inodeID nodeID : string) (t : Z)
  | ChangeMode (p : string) (m : Z)
  | Remove (p : string) (t : Z)
  | RemoveFile (p : string) (t : Z)
  | RemoveDir (p : string)
  | RemoveAll (p : string) (t : Z)
  | Rename (p q : string) (t : Z)
  | CopyFile (p q nodeID : string) (t : Z)
  | Write (e : env) (p data : string) (offset : Z) (flags : writeFlags) (expected : Z)
      (tags : option (gmap string string)) (descr : string)
  | Initiate (e : senv) (p : string) (size : Z) (sums : list string) (expected : Z) (descr : string)
  | InitiateV2 (e : senv) (p : string) (size expected : Z) (descr : string)
  | Presign (e : senv) (k : string) (part : Z * option (string * string))
  | PresignMany (e : senv) (k : string) (parts : list (Z * option (string * string)))
  | Resume (e : senv) (k : string) (sums : list string)
  | Confirm (e : senv) (k : string) (tags : option (gmap string string))
  | ConfirmV2 (e : senv) (k : string) (parts : list (Z * string)) (tags : option (gmap string string))
  | Abort (e : senv) (k : string)
  | AbortV2 (e : senv) (k : string)
  | Patch (e : penv) (p : string) (size : Z) (dirty : list Z) (partSize expected : Z)
  | Append (e : penv) (p : string) (size partSize expected : Z).

Definition perform (c : call) (b : backend) : backend :=
  match c with
  | Create p f n put t => fst (CreateCtx nfc cfg b p f n put t)
  | Mkdir p m i n t => fst (MkdirCtx nfc b p m i n t)
  | ChangeMode p m => fst (ChmodCtx nfc b p m)
  | Remove p t => fst (RemoveCtx nfc b p t)
  | RemoveFile p t => fst (RemoveFileCtx nfc b p t)
  | RemoveDir p => fst (RemoveDirCtx nfc b p)
  | RemoveAll p t => fst (RemoveAllCtx nfc b p t)
  | Rename p q t => fst (RenameCtx nfc b p q t)
  | CopyFile p q n t => fst (CopyFileCtx nfc b p q n t)
  | Write e p data o fl x tags d => fst (WriteCtx nfc typeByExtension toLower cfg b e p data o fl x tags d)
  | Initiate e p n cs x d => fst (InitiateUpload nfc cfg b e p n cs x d)
  | InitiateV2 e p n x d => fst (InitiateUploadV2 nfc cfg b e p n x d)
  | Presign e k x => fst (PresignPart b e k x)
  | PresignMany e k xs => fst (PresignParts b e k xs)
  | Resume e k cs => fst (ResumeUpload b e k cs)
  | Confirm e k tags => fst (ConfirmUpload typeByExtension toLower cfg b e k tags)
  | ConfirmV2 e k cps tags => fst (ConfirmUploadV2 typeByExtension toLower cfg b e k cps tags)
  | Abort e k => fst (AbortUpload b e k)
  | AbortV2 e k => AbortUploadV2 b e k
  | Patch e p n dirty ps x => fst (InitiatePatchUpload nfc cfg b e p n dirty ps x)
  | Append e p n ps x => fst (InitiateAppendUpload nfc cfg b e p n ps x)
  end.

(** The identifiers that a call draws for files and objects. *)
Definition draws (c : call) : list string :=
  match c with
  | Create _ f _ _ _ => [f]
  | Write e _ _ _ _ _ _ _ => [newFileID e; newBlobID e]
  | Initiate e _ _ _ _ _ | InitiateV2 e _ _ _ _ => [newFileID (base e)]
  | Patch e _ _ _ _ _ | Append e _ _ _ _ => [newFileID (base (up e))]
  | _ => []
  end.

(** The backend, the tasks that workers hold and the identifiers drawn so far. *)
Record world := { be : backend; held : list FileGC.FileGCTask; drawn : gset string }.

(** A worker claims a task. *)
Definition claim (locked : gset string) (rcpt : string) (t lease : Z) (w : world) : world :=
  let r := FileGC.ClaimFileGCTask (gc_tasks (store (be w))) locked rcpt t lease in
  {| be := setTasks (fst r) (be w); held := held w ++ option_list (snd r); drawn := drawn w |}.

Inductive step : world -> world -> Prop :=
  | step_call c w :
      Forall (fun k => k <> "" /\ k ∉ drawn w) (draws c) ->
      step w {| be := perform c (be w); held := held w; drawn := drawn w ∪ list_to_set (draws c) |}
  | step_claim locked rcpt t lease w :
      rcpt <> "" -> step w (claim locked rcpt t lease w)
  | step_finish opts e task w :
      task ∈ held w ->
      step w {| be := finishFileGCTask cfg opts e task (be w); held := held w; drawn := drawn w |}
  | step_recover sorted locked t limit w :
      (forall l, sorted l ≡ₚ l) ->
      step w {| be := setTasks (fst (FileGC.RecoverExpiredFileGCTasks sorted (gc_tasks (store (be w))) locked t limit)) (be w);
                held := held w; drawn := drawn w |}.

Definition start (legacy : bool) : world :=
  {| be := {| store := emptyDB legacy; objects := ∅; candidates := [] |}; held := []; drawn := ∅ |}.

Definition reachable (legacy : bool) (w : world) : Prop := rtc step (start legacy) w.

(** ** The invariant of a history *)

Record worldOk (w : world) : Prop := {
  world_files : filesOk (store (be w));
  world_bytes : bytesSafe (drawn w) (be w);
  world_handed : handedOver (be w);
  world_held : Forall (taskOf (gc_tasks (store (be w)))) (held w)
}.

Lemma perform_files c b :
  filesOk (store b) -> Forall (fun k => k <> "") (draws c) -> filesOk (store (perform c b)).
Proof.
  intros H Hd. destruct c; cbn in Hd |- *; repeat match type of Hd with Forall _ (_ :: _) => apply Forall_cons in Hd as [? Hd] end.
  - by apply CreateCtx_ok.
  - by apply MkdirCtx_ok.
  - by apply ChmodCtx_ok.
  - by apply RemoveCtx_ok.
  - by apply RemoveFileCtx_ok.
  - by apply RemoveDirCtx_ok.
  - by apply RemoveAllCtx_ok.
  - by apply RenameCtx_ok.
  - by apply CopyFileCtx_ok.
  - by apply WriteCtx_ok.
  - by apply InitiateUpload_ok.
  - by apply InitiateUploadV2_ok.
  - by apply PresignPart_ok.
  - by apply PresignParts_ok.
  - by apply ResumeUpload_ok.
  - by apply ConfirmUpload_ok.
  - by apply ConfirmUploadV2_ok.
  - by apply AbortUpload_ok.
  - by apply AbortUploadV2_ok.
  - apply (patch_ind (fun b => filesOk (store b))); [done|]. intros. by apply patchTx_run_ok.
  - apply (patch_ind (fun b => filesOk (store b))); [done|]. intros. by apply patchTx_run_ok.
Qed.

Lemma perform_bytes c b used :
  filesOk (store b) -> bytesSafe used b -> Forall (fun k => k ∉ used) (draws c) ->
  bytesSafe (used ∪ list_to_set (draws c)) (perform c b).
Proof.
  intros Hok H Hd. destruct c; cbn in Hd |- *; repeat match type of Hd with Forall _ (_ :: _) => apply Forall_cons in Hd as [? Hd] end;
    rewrite ?union_empty_r_L, ?union_assoc_L.
  - by apply CreateCtx_bytes.
  - by apply MkdirCtx_bytes.
  - by apply ChmodCtx_bytes.
  - by apply RemoveCtx_bytes.
  - by apply RemoveFileCtx_bytes.
  - by apply RemoveDirCtx_bytes.
  - by apply RemoveAllCtx_bytes.
  - by apply RenameCtx_bytes.
  - by apply CopyFileCtx_bytes.
  - by apply WriteCtx_bytes.
  - by apply InitiateUpload_bytes.
  - by apply InitiateUploadV2_bytes.
  - by apply PresignPart_bytes.
  - by apply PresignParts_bytes.
  - by apply ResumeUpload_bytes.
  - by apply ConfirmUpload_bytes.
  - by apply ConfirmUploadV2_bytes.
  - by apply AbortUpload_bytes.
  - by apply AbortUploadV2_bytes.
  - apply (patch_ind (bytesSafe _)); [by apply (bytesSafe_more used); [|apply union_subseteq_l]|]. intros. by apply patchTx_run_bytes.
  - apply (patch_ind (bytesSafe _)); [by apply (bytesSafe_more used); [|apply union_subseteq_l]|]. intros. by apply patchTx_run_bytes.
Qed.

Lemma perform_grows c b : grows b (perform c b).
Proof.
  destruct c; cbn.
  - apply CreateCtx_tasks.
  - apply MkdirCtx_tasks.
  - apply ChmodCtx_tasks.
  - apply RemoveCtx_tasks.
  - apply RemoveFileCtx_tasks.
  - apply RemoveDirCtx_tasks.
  - apply RemoveAllCtx_tasks.
  - apply RenameCtx_tasks.
  - apply CopyFileCtx_tasks.
  - apply WriteCtx_tasks.
  - apply InitiateUpload_tasks.
  - apply InitiateUploadV2_tasks.
  - apply PresignPart_tasks.
  - apply PresignParts_tasks.
  - apply ResumeUpload_tasks.
  - apply ConfirmUpload_tasks.
  - apply ConfirmUploadV2_tasks.
  - apply AbortUpload_tasks.
  - apply AbortUploadV2_tasks.
  - apply (patch_ind (grows b)); [reflexivity|]. intros. apply patchTx_run_tasks.
  - apply (patch_ind (grows b)); [reflexivity|]. intros. apply patchTx_run_tasks.
Qed.

(** ** The worker's steps *)

Lemma setTasks_bytes used t b : bytesSafe used b -> bytesSafe used (setTasks t b).
Proof.
  intros [H Hc]. split; [|done]. eapply bytesOk_quiet; [exact H|done|]. apply quiet_rows. reflexivity.
Qed.

(** A task that a worker holds stays what it was. *)
Lemma taskOf_event t now ev task :
  FileGC.fileTable t -> byWorker ev -> taskOf t task -> taskOf (FileGC.apply t now ev) task.
Proof.
  intros Ht Hev (r & Hr & E1 & E2). destruct (FileGC.cleanup_step t now ev Ht (worker_fromFile ev Hev)) as [_ Hk].
  destruct (Hk _ _ Hr) as (r' & Hr' & Ec). exists r'. split; [done|]. unfold FileGC.cleanup in Ec.
  injection Ec as _ -> -> _ _. done.
Qed.

Lemma taskOf_kept d d' task : tasksKept d d' -> taskOf (gc_tasks d) task -> taskOf (gc_tasks d') task.
Proof. intros [Hk _] (r & Hr & E). exists r. auto. Qed.

(** What is done after anything but an acknowledgement was done before. *)
Lemma event_not_done t now ev f r :
  FileGC.fileTable t -> byWorker ev -> (forall id rcpt, ev <> FileGC.Ack id rcpt) ->
  FileGC.apply t now ev !! f = Some r -> FileGC.status r = FileGC.FileGCTaskSucceeded -> t !! f = Some r.
Proof.
  intros Ht [Hok Hne] Hna Hr Hs. pose proof (FileGC.fileTable_keyed t Ht) as Hk.
  destruct ev as [task|locked rcpt l|id rcpt|id rcpt at_ err|sorted locked limit]; [by destruct (Hne task)|..].
  2: by destruct (Hna id rcpt).
  2: { cbn in Hr. unfold FileGC.RetryFileGCTask in Hr. destruct (t !! id) as [r0|] eqn:Hr0; [|done].
       destruct (_ || _); [done|]. destruct (_ && _); cbn in Hr;
         apply lookup_insert_Some in Hr as [[<- <-]|[_ Hr]]; done. }
  all: match type of Hr with FileGC.apply _ _ ?ev !! _ = _ =>
    destruct (FileGC.gc_change t now ev f Hk Hok) as [E|[(task & E & _)|(r0 & r1 & Hr0 & E & Hst)]];
      [congruence|done|]; rewrite Hr in E; injection E as <-; by destruct Hst end.
Qed.

Lemma handed_event b now ev :
  filesOk (store b) -> byWorker ev -> (forall id rcpt, ev <> FileGC.Ack id rcpt) -> handedOver b ->
  handedOver (setTasks (FileGC.apply (gc_tasks (store b)) now ev) b).
Proof.
  intros H Hev Hna Hh f t Ht Hs. cbn in *. apply (Hh f t); [|done]. eapply event_not_done; try done.
  apply (tasks_table _ _ H).
Qed.

Lemma worldOk_event w now ev tasks :
  worldOk w -> byWorker ev -> (forall id rcpt, ev <> FileGC.Ack id rcpt) ->
  let t' := FileGC.apply (gc_tasks (store (be w))) now ev in
  Forall (taskOf t') tasks ->
  worldOk {| be := setTasks t' (be w); held := held w ++ tasks; drawn := drawn w |}.
Proof.
  intros [Hf Hb Hh Hd] Hev Hna t' Hn. split; cbn.
  - by apply worker_event_ok.
  - by apply setTasks_bytes.
  - by apply handed_event.
  - apply Forall_app. split; [|done]. eapply Forall_impl; [exact Hd|]. intros task. apply taskOf_event; [|done].
    apply (tasks_table _ _ Hf).
Qed.

(** The task that a claim returns and the row it is for. *)
Lemma claim_taskOf t locked rcpt now lease t' task :
  FileGC.fileTable t -> rcpt <> "" -> FileGC.ClaimFileGCTask t locked rcpt now lease = (t', Some task) -> taskOf t' task.
Proof.
  intros Ht Hrc Hc. assert (t' = FileGC.apply t now (FileGC.Claim locked rcpt lease)) as -> by (cbn; by rewrite Hc).
  apply taskOf_event; [done|by split|]. unfold FileGC.ClaimFileGCTask in Hc.
  set (P := fun r => FileGC.claimable now r = true /\ FileGC.task_id r ∉ locked) in *.
  pose proof (Lease.firstBy_spec FileGC.claimBefore (fun _ _ => True) (Lease.rowsWhere P t)
    ltac:(done) ltac:(done) ltac:(done) ltac:(done)) as H.
  destruct (Lease.firstBy _ _) as [r|]; [|done]. destruct H as [Hr _].
  apply (Lease.elem_of_rowsWhere FileGC.task_id) in Hr as [_ Hr]; [|by apply FileGC.fileTable_keyed].
  rewrite Hr in Hc. destruct (FileGC.claimable now r); [|done]. injection Hc as _ <-. by exists r.
Qed.

(** The object of a cleanup task belongs to no file that can be read. *)
Lemma task_candidate used b task :
  filesOk (store b) -> bytesSafe used b -> taskOf (gc_tasks (store b)) task ->
  FileGC.StorageType task = "s3" -> FileGC.StorageRef task <> "" ->
  bytesSafe used {| store := store b; objects := objects b; candidates := candidates b ++ [FileGC.StorageRef task] |}.
Proof.
  intros Hf [H Hc] (r & Hr & E1 & E2) Et Hne. split; [|done]. cbn.
  destruct (task_dead _ _ Hf _ r Hr) as (i & c & Hi & Hcn & Hs & Ecl). unfold FileGC.cleanup in Ecl. injection Ecl as Ei E3 E4 _ _.
  set (f := FileGC.TaskID task) in *. set (ref := FileGC.StorageRef task) in *.
  assert (place (store b) f = Some ("s3", ref)) as Hp by (unfold place; rewrite Hcn; cbn; congruence).
  pose proof H as []. split; try done. intros r0 [Hin|Hin]%elem_of_app; [by apply candidates_dead0|].
  apply list_elem_of_singleton in Hin as ->. split.
  - by destruct (refs_used0 f ref Hp).
  - intros g Hg. destruct (refs_own0 f g ref Hp Hg Hne) as [<-|[[]|[]]]. unfold statusOf. by rewrite Hi, <- Hs.
Qed.

(** An acknowledgement, after the object has been handed over. *)
Lemma worldOk_ack w b' task now :
  worldOk w -> taskOf (gc_tasks (store (be w))) task ->
  store b' = store (be w) -> candidates (be w) ⊆ candidates b' -> bytesSafe (drawn w) b' ->
  (FileGC.StorageType task = "s3" -> FileGC.StorageRef task <> "" -> FileGC.StorageRef task ∈ candidates b') ->
  worldOk {| be := setTasks (fst (FileGC.AckFileGCTask (gc_tasks (store b')) (FileGC.TaskID task) (FileGC.Receipt task) now)) b';
             held := held w; drawn := drawn w |}.
Proof.
  intros [Hf Hb Hh Hd] Ht Es Hc Hb' Hcand. pose proof (tasks_table _ _ Hf) as Htab.
  set (ev := FileGC.Ack (FileGC.TaskID task) (FileGC.Receipt task)). assert (byWorker ev) as Hev by by split.
  change (fst (FileGC.AckFileGCTask (gc_tasks (store b')) (FileGC.TaskID task) (FileGC.Receipt task) now))
    with (FileGC.apply (gc_tasks (store b')) now ev).
  rewrite Es. split; cbn [be held drawn].
  - unfold setTasks. rewrite Es. exact (worker_event_ok (store (be w)) now ev Hf Hev).
  - by apply setTasks_bytes.
  - intros f t Htf Hs Ety Hre. cbn in Htf. unfold FileGC.AckFileGCTask in Htf.
    destruct Ht as (r & Hr & E1 & E2). rewrite Hr in Htf.
    assert (gc_tasks (store (be w)) !! f = Some t -> FileGC.storage_ref t ∈ candidates b') as Hold.
    { intros Hx. apply Hc. by apply (Hh f t). }
    destruct (_ && _); [|by apply Hold]. cbn in Htf. apply lookup_insert_Some in Htf as [[<- <-]|[_ Htf]]; [|by apply Hold].
    cbn in Ety, Hre |- *. rewrite <- E2. apply Hcand; congruence.
  - eapply Forall_impl; [exact Hd|]. intros x. by apply taskOf_event.
Qed.

Lemma worldOk_finish opts e task w :
  worldOk w -> task ∈ held w ->
  worldOk {| be := finishFileGCTask cfg opts e task (be w); held := held w; drawn := drawn w |}.
Proof.
  intros Hw Hin. pose proof Hw as [Hf Hb Hh Hd]. pose proof (proj1 (Forall_forall _ _) Hd task Hin) as Ht.
  pose proof (worldOk_event w (endAt e) (FileGC.Retry (FileGC.TaskID task) (FileGC.Receipt task)
    (Some (endAt e + fileGCRetryDelay (FileGC.AttemptCount task) (RetryBase opts) (RetryMax opts))) (failure e)) [] Hw
    ltac:(by split) ltac:(done) (Forall_nil_2 _)) as Hretry. rewrite app_nil_r in Hretry.
  unfold finishFileGCTask, processFileGCTask. destruct (centralOK e); cbn [negb]; [|exact Hretry].
  destruct (_ && negb _) eqn:Es3.
  - apply andb_true_iff in Es3 as [Et Hne]. apply bool_decide_eq_true in Et.
    apply negb_true_iff, bool_decide_eq_false in Hne. destruct (objectGC cfg && candidateOK e); [|exact Hretry].
    apply worldOk_ack; [done|done|done|by apply list_subseteq_app_l|by apply task_candidate|].
    intros _ _. apply elem_of_app. right. left.
  - apply worldOk_ack; [done..|]. intros Et Hne. rewrite Et, bool_decide_true in Es3 by done. cbn in Es3.
    apply negb_false_iff, bool_decide_eq_true in Es3. done.
Qed.

Lemma world_step_ok w w' : step w w' -> worldOk w -> worldOk w'.
Proof.
  intros Hs Hw. pose proof Hw as [Hf Hb Hh Hd]. destruct Hs as [c w Hids|locked rcpt t lease w Hr|opts e task w Hin|sorted locked t limit w Hs].
  - destruct (perform_grows c (be w)) as [Hk Hc]. split; cbn.
    + apply perform_files; [done|]. eapply Forall_impl; [exact Hids|]. by intros k [].
    + apply perform_bytes; [done|done|]. eapply Forall_impl; [exact Hids|]. by intros k [].
    + intros f r Hr Hs Ht Hne. destruct (proj1 (proj2 Hk) f r Hr) as [Hr0|E]; [|congruence]. apply Hc. by eapply Hh.
    + eapply Forall_impl; [exact Hd|]. intros task. by apply taskOf_kept.
  - unfold claim. destruct (FileGC.ClaimFileGCTask _ _ _ _ _) as [t' o] eqn:Hc. cbn.
    assert (t' = FileGC.apply (gc_tasks (store (be w))) t (FileGC.Claim locked rcpt lease)) as -> by (cbn; by rewrite Hc).
    apply worldOk_event; [done|by split|done|]. destruct o as [task|]; [|constructor]. constructor; [|constructor].
    eapply claim_taskOf; [apply (tasks_table _ _ Hf)|exact Hr|exact Hc].
  - by apply worldOk_finish.
  - pose proof (worldOk_event w t (FileGC.Recover sorted locked limit) [] Hw ltac:(by split) ltac:(done) (Forall_nil_2 _)) as Hx.
    rewrite app_nil_r in Hx. exact Hx.
Qed.

Lemma start_ok legacy : worldOk (start legacy).
Proof.
  assert (forall f, place (emptyDB legacy) f = None) as Hp by (intros f; unfold place; cbn; by rewrite lookup_empty).
  split; cbn.
  - apply filesOk_empty.
  - split; [|exact (content_inode _ _ (filesOk_empty legacy))]. split; try (intros *; rewrite Hp; done); cbn.
    intros r Hr. by apply elem_of_nil in Hr.
  - intros f t Ht. cbn in Ht. by rewrite lookup_empty in Ht.
  - constructor.
Qed.

Lemma reachable_ok legacy w : reachable legacy w -> worldOk w.
Proof.
  intros Hr. pose proof (start_ok legacy) as Hw. unfold reachable in Hr. induction Hr as [|w1 w2 w3 Hs _ IH]; [done|].
  apply IH. by eapply world_step_ok.
Qed.

Lemma step_bare w w' : step w w' -> bare (file_nodes (store (be w))) -> bare (file_nodes (store (be w'))).
Proof.
  intros Hs Hb. destruct Hs as [c w _|locked rcpt t lease w _|opts e task w _|sorted locked t limit w _]; cbn; [|exact Hb| |exact Hb].
  - by apply (perform_grows c (be w)).
  - unfold finishFileGCTask, processFileGCTask. by repeat case_if; cbn.
Qed.

(** In every history the entries of files have no inode of their own. *)
Lemma reachable_bare legacy w : reachable legacy w -> bare (file_nodes (store (be w))).
Proof.
  intros Hr. assert (bare (file_nodes (store (be (start legacy))))) as Hb by (intros id r; cbn; by rewrite lookup_empty).
  unfold reachable in Hr. induction Hr as [|w1 w2 w3 Hs _ IH]; [done|]. apply IH. by eapply step_bare.
Qed.

(** ** What a client can rely on *)

(** C6: in every history of backend calls, upload calls and cleanup rounds, names and
    files belong together: no two entries have the same path, a directory entry has no
    file, the entry of a file leads [Stat] to a confirmed file, and the confirmed files
    are exactly the files that some entry names. *)
Theorem names_and_files legacy w :
  reachable legacy w ->
  let d := store (be w) in
  pathsUnique (file_nodes d)
  /\ (forall q id r, nodeAt d q = Some (id, r) ->
        if is_directory r then file_id r = None /\ Stat d q = inl (scanNode (id, r), None)
        else exists f file, file_id r = Some f /\ Stat d q = inl (scanNode (id, r), Some file)
               /\ FFileID file = f /\ Status file = StatusConfirmed)
  /\ (forall f, live d f <-> referenced d f).
Proof.
  intros Hr d. destruct (reachable_ok _ _ Hr) as [Hf _ _ _]. fold d in Hf. split_and!.
  - apply (unique_paths _ _ Hf).
  - intros q id r Hn. pose proof (nodeAt_spec _ _ _ _ Hn) as [Hrow _].
    pose proof (nodes_ok _ _ Hf id r Hrow) as [Hdir Hlive]. destruct (is_directory r) eqn:Hd.
    + rewrite (proj1 Hdir eq_refl). split; [done|]. unfold Stat, GetNode. rewrite Hn. cbn. by rewrite Hd.
    + destruct (file_id r) as [f|] eqn:Hfi; [|discriminate (proj2 Hdir eq_refl)].
      destruct (Content.Stat_file d q id r f Hf Hn Hfi) as (i & c & s & Hi & Hc & Hs & E).
      exists f, (assembleFile f i (Some c) (Some s)). done.
  - intros f. split; [by apply live_referenced|]. intros Href. by apply (referenced_live _ _ f Hf Href).
Qed.

(** A live file has its bytes. *)
Lemma live_data legacy w f :
  reachable legacy w -> s3 cfg = true -> live (store (be w)) f -> exists data, Content.fileData cfg (be w) f = inl data.
Proof.
  intros Hr Hs3 (i & c & Hi & Hc & Hs). destruct (reachable_ok _ _ Hr) as [_ [Hb _] _ _].
  unfold Content.fileData, Content.contentData. rewrite Hc, Hs3.
  assert (place (store (be w)) f = Some (storage_type c, storage_ref c)) as Hpl by (unfold place; by rewrite Hc).
  destruct (types_known _ _ _ _ _ Hb f _ _ Hpl) as [E|E]; rewrite E in Hpl |- *; cbn; [|by eexists].
  destruct (bytes_there _ _ _ _ _ Hb f (storage_ref c)) as [data Hdata]; [unfold statusOf; rewrite Hi; cbn; congruence|done|].
  exists data. by rewrite Hdata.
Qed.

(** C2: no history loses the bytes of a file: with object storage configured, whatever
    calls, failed calls, uploads and cleanup rounds came before, every path that names a
    file can be read. *)
Theorem every_name_reads legacy w p q id r :
  reachable legacy w -> s3 cfg = true -> Canonicalize nfc p = inl q ->
  nodeAt (store (be w)) q = Some (id, r) -> is_directory r = false ->
  exists data, ReadCtx nfc cfg (be w) p 0 (-1) = inl data.
Proof.
  intros Hr Hs3 Hp Hn Hd. destruct (reachable_ok _ _ Hr) as [Hf [Hb _] _ _].
  pose proof (nodeAt_spec _ _ _ _ Hn) as [Hrow _]. pose proof (nodes_ok _ _ Hf id r Hrow) as [Hdir Hlive].
  destruct (file_id r) as [f|] eqn:Hfi; [|by rewrite (proj2 Hdir eq_refl) in Hd].
  rewrite (Content.ReadCtx_whole nfc cfg (be w) p q id r f) by done. apply (live_data legacy); [done..|].
  by apply Hlive.
Qed.

(** C28: cleanup never touches a file that can be read.  In every history, an object that
    has been recorded for deletion and an object that a cleanup task names belong to no
    confirmed file, and a cleanup task whose file is kept in object storage is only
    marked as done after its object has been recorded. *)
Theorem cleanup_spares_live legacy w f c :
  reachable legacy w -> live (store (be w)) f -> contents (store (be w)) !! f = Some c -> storage_type c = "s3" ->
  storage_ref c ∉ candidates (be w)
  /\ (forall g t, gc_tasks (store (be w)) !! g = Some t -> FileGC.storage_type t = "s3" ->
        FileGC.storage_ref t <> "" -> FileGC.storage_ref t <> storage_ref c)
  /\ (forall g t, gc_tasks (store (be w)) !! g = Some t -> FileGC.status t = FileGC.FileGCTaskSucceeded ->
        FileGC.storage_type t = "s3" -> FileGC.storage_ref t <> "" -> FileGC.storage_ref t ∈ candidates (be w)).
Proof.
  intros Hr (i & c' & Hi & Hc' & Hs) Hc Ht. destruct (reachable_ok _ _ Hr) as [Hf [Hb _] Hh _].
  assert (place (store (be w)) f = Some ("s3", storage_ref c)) as Hp by (unfold place; rewrite Hc; cbn; by rewrite Ht).
  assert (statusOf (store (be w)) f = Some StatusConfirmed) as Hst by (unfold statusOf; rewrite Hi; cbn; congruence).
  split_and!; [..|exact Hh].
  - intros Hin. destruct (candidates_dead _ _ _ _ _ Hb _ Hin) as [_ Hdead]. rewrite (Hdead f Hp) in Hst. done.
  - intros g t Hg Hty Hne E. destruct (task_dead _ _ Hf g t Hg) as (i2 & c2 & Hi2 & Hc2 & Hs2 & Ecl).
    unfold FileGC.cleanup in Ecl. injection Ecl as _ E3 E4 _ _.
    assert (place (store (be w)) g = Some ("s3", storage_ref c)) as Hpg by (unfold place; rewrite Hc2; cbn; congruence).
    rewrite E in Hne. destruct (refs_own _ _ _ _ _ Hb f g _ Hp Hpg Hne) as [<-|[[]|[]]]. simplify_eq. congruence.
Qed.

(** C29: cleanup is exact.  In every history, a file has a cleanup task only if it is
    deleted and no entry names it, and the task says where its bytes are; and a file that
    was confirmed once and is deleted has its task, so that nothing is left behind. *)
Theorem cleanup_exact legacy w f :
  reachable legacy w ->
  let d := store (be w) in
  (forall t, gc_tasks d !! f = Some t ->
     ~ referenced d f /\ exists i c, inodes d !! f = Some i /\ contents d !! f = Some c /\ status i = StatusDeleted
       /\ FileGC.cleanup t = (f, storage_type c, storage_ref c, size_bytes i, default "" (content_type c)))
  /\ (forall i c, inodes d !! f = Some i -> contents d !! f = Some c -> confirmed_at i <> None ->
        status i = StatusDeleted -> is_Some (gc_tasks d !! f)).
Proof.
  intros Hr d. destruct (reachable_ok _ _ Hr) as [Hf _ _ _]. fold d in Hf. split.
  - intros t Ht. destruct (task_dead _ _ Hf f t Ht) as (i & c & Hi & Hc & Hs & Ecl). split; [|by exists i, c].
    intros Href. destruct (referenced_live _ _ _ Hf Href) as [_ Hl]. by destruct (live_not_dead d f i Hl Hi).
  - intros i c Hi Hc Hca Hs. by destruct (retired _ _ Hf f i c Hi Hc Hs Hca).
Qed.

(** On a tenant that still has the legacy table, in every history the legacy row of a
    file and its rows in the split tables agree on status, size, revision, confirmation
    time, storage and content type, and there is a legacy row for every content row and
    for nothing else. *)
Theorem legacy_copies_agree legacy w m f :
  reachable legacy w -> files (store (be w)) = Some m ->
  legacyAgrees (m !! f) (inodes (store (be w)) !! f) (contents (store (be w)) !! f).
Proof. intros Hr Hm. destruct (reachable_ok _ _ Hr) as [Hf _ _ _]. by apply (legacy_agrees _ _ Hf). Qed.

End history.

(** ** A concrete history *)

Definition idStr (s : string) : string := s.
Definition noType (s : string) : string := "".

Abbreviation demoStep := (step idStr noType idStr Content.demoConfig).
Abbreviation demoReachable := (reachable idStr noType idStr Content.demoConfig).

Definition demoCall (c : call) (w : world) : world :=
  {| be := perform idStr noType idStr Content.demoConfig c (be w); held := held w;
     drawn := drawn w ∪ list_to_set (draws c) |}.

Definition demoWrite (n p data : string) (t : Z) : call :=
  Write (Content.demoEnv n t) p data 0 Content.demoFlags (-1) None "".

(** Two files, of which one is removed and cleaned up. *)
Definition demo1 : world := Eval vm_compute in demoCall (demoWrite "1" "/d/a" "hello" 1) (start true).
Definition demo2 : world := Eval vm_compute in demoCall (demoWrite "2" "/d/x" "hello world" 2) demo1.
Definition demo3 : world := Eval vm_compute in demoCall (RemoveFile "/d/a" 3) demo2.
Definition demo4 : world := Eval vm_compute in claim ∅ "receipt" 10 5 demo3.
Definition demoTask : FileGC.FileGCTask :=
  Eval vm_compute in default (FileGC.scanFileGCTask FileGC.gcRow) (head (held demo4)).
Definition demoOpts : FileGCWorkerOptions :=
  normalize {| PollInterval := 0; LeaseDuration := 0; BatchSize := 0; RecoverLimit := 0; RetryBase := 0; RetryMax := 0 |}.
Definition demoGC : gcEnv :=
  {| claimAt := 10; claimLocked := ∅; newReceipt := "receipt"; centralOK := true; candidateOK := true; failure := "";
     endAt := 12 |}.
Definition demo5 : world := Eval vm_compute in
  {| be := finishFileGCTask Content.demoConfig demoOpts demoGC demoTask (be demo4); held := held demo4; drawn := drawn demo4 |}.

Lemma demoCall_step c w w' :
  demoCall c w = w' -> bool_decide (Forall (fun k => k <> "" /\ k ∉ drawn w) (draws c)) = true -> demoStep w w'.
Proof. intros <- H. apply step_call. by apply bool_decide_eq_true in H. Qed.

Lemma demo_world_reachable : demoReachable true demo5.
Proof.
  unfold reachable.
  apply rtc_l with demo1. { apply (demoCall_step (demoWrite "1" "/d/a" "hello" 1)); vm_compute; reflexivity. }
  apply rtc_l with demo2. { apply (demoCall_step (demoWrite "2" "/d/x" "hello world" 2)); vm_compute; reflexivity. }
  apply rtc_l with demo3. { apply (demoCall_step (RemoveFile "/d/a" 3)); vm_compute; reflexivity. }
  apply rtc_l with demo4. { assert (demo4 = claim ∅ "receipt" 10 5 demo3) as -> by (vm_compute; reflexivity).
                            by apply step_claim. }
  apply rtc_once.
  assert (demo5 = {| be := finishFileGCTask Content.demoConfig demoOpts demoGC demoTask (be demo4); held := held demo4;
                     drawn := drawn demo4 |}) as -> by (vm_compute; reflexivity).
  apply step_finish. assert (held demo4 = [demoTask]) as -> by (vm_compute; reflexivity). left.
Qed.

Lemma names_and_files_witness :
  exists id r f file, nodeAt (store (be demo5)) "/d/x" = Some (id, r) /\ file_id r = Some f
    /\ Stat (store (be demo5)) "/d/x" = inl (scanNode (id, r), Some file) /\ Status file = StatusConfirmed.
Proof.
  destruct (names_and_files idStr noType idStr Content.demoConfig true demo5 demo_world_reachable) as (_ & H & _).
  destruct (nodeAt (store (be demo5)) "/d/x") as [[id r]|] eqn:E; [|by vm_compute in E].
  specialize (H "/d/x" id r E). exists id, r.
  assert (is_directory r = false) as Hd by (vm_compute in E; injection E as <- <-; reflexivity). rewrite Hd in H.
  destruct H as (f & file & H1 & H2 & _ & H4). exists f, file. auto.
Defined.

Lemma every_name_reads_witness :
  exists data, ReadCtx idStr Content.demoConfig (be demo5) "/d/x" 0 (-1) = inl data.
Proof.
  destruct (nodeAt (store (be demo5)) "/d/x") as [[id r]|] eqn:E; [|by vm_compute in E].
  apply (every_name_reads idStr noType idStr Content.demoConfig true demo5 "/d/x" "/d/x" id r demo_world_reachable);
    [reflexivity|reflexivity|exact E|vm_compute in E; injection E as <- <-; reflexivity].
Defined.

Lemma demo_live : exists c, live (store (be demo5)) "f2" /\ contents (store (be demo5)) !! "f2" = Some c /\ storage_type c = "s3".
Proof.
  destruct (inodes (store (be demo5)) !! "f2") as [i|] eqn:Ei; [|by vm_compute in Ei].
  destruct (contents (store (be demo5)) !! "f2") as [c|] eqn:Ec; [|by vm_compute in Ec]. exists c. split_and!.
  - exists i, c. split_and!; [done..|]. vm_compute in Ei. by injection Ei as <-.
  - done.
  - vm_compute in Ec. by injection Ec as <-.
Qed.

Lemma cleanup_spares_live_witness :
  exists c, contents (store (be demo5)) !! "f2" = Some c /\ storage_ref c ∉ candidates (be demo5)
    /\ candidates (be demo5) = ["blobs/f1"].
Proof.
  destruct demo_live as (c & Hl & Hc & Ht). exists c. split; [exact Hc|]. split; [|vm_compute; reflexivity].
  exact (proj1 (cleanup_spares_live idStr noType idStr Content.demoConfig true demo5 "f2" c demo_world_reachable Hl Hc Ht)).
Defined.

Lemma cleanup_exact_witness :
  exists t, gc_tasks (store (be demo5)) !! "f1" = Some t /\ ~ referenced (store (be demo5)) "f1".
Proof.
  destruct (gc_tasks (store (be demo5)) !! "f1") as [t|] eqn:E; [|by vm_compute in E]. exists t. split; [done|].
  exact (proj1 (proj1 (cleanup_exact idStr noType idStr Content.demoConfig true demo5 "f1" demo_world_reachable) t E)).
Defined.

Lemma legacy_copies_agree_witness :
  exists m l, files (store (be demo5)) = Some m /\ m !! "f2" = Some l
    /\ legacyAgrees (Some l) (inodes (store (be demo5)) !! "f2") (contents (store (be demo5)) !! "f2").
Proof.
  destruct (files (store (be demo5))) as [m|] eqn:E; [|by vm_compute in E].
  pose proof (legacy_copies_agree idStr noType idStr Content.demoConfig true demo5 m "f2" demo_world_reachable E) as H.
  destruct (m !! "f2") as [l|] eqn:El; [|vm_compute in E; injection E as <-; by vm_compute in El].
  exists m, l. auto.
Defined.

End StoreHistory.
