(* ===== verification/Namespace.v ===== *)
(** * Directory trees in the file store

    What the calls of [src/pkg/datastore/store.go] that select a whole subtree do to the
    names below it: the LIKE patterns they are written with, the loop that climbs to the
    root, the renaming and the removal of a directory.  A pattern is exact for a path
    without wildcards; what the others hit is shown at the end, on concrete trees. *)

From Stdlib Require Import Strings.Ascii.
From S2P Require Import Prelude GoStrings PathUtil Json Sha256 SemanticQueue FileGCQueue FileStore FileRules FileSafety.
From S2P Require Import Backend BackendContent Uploads StoreHistory.

Import GoStr FileStore FileRules FileSafety Backend Uploads StoreHistory.

Module Namespace.

#[local] Arguments String.append !_ _ / : simpl nomatch.

(** ** LIKE patterns of a prefix *)

(** No character of the text is special in a pattern. *)
Fixpoint plain (s : string) : bool :=
  match s with
  | EmptyString => true
  | String c s => negb (isPercent c || isUnderscore c || isBackslash c) && plain s
  end.

Lemma dropRune_shorter s r : dropRune s = Some r -> (String.length r < String.length s)%nat.
Proof.
  unfold dropRune. destruct (Json.utf8Head s) as [[x t]|] eqn:E.
  - intros [= <-]. apply Json.utf8Head_app in E as [-> Hx]. rewrite string_app_length.
    destruct x; [done|]. cbn. lia.
  - destruct s; intros; simplify_eq. cbn. lia.
Qed.

Lemma suffixes_end n s : (String.length s <= n)%nat -> "" ∈ suffixes n s.
Proof.
  revert s. induction n as [|n IH]; intros s Hs; cbn.
  - destruct s; [left|cbn in Hs; lia].
  - destruct (dropRune s) as [r|] eqn:E.
    + right. apply IH. apply dropRune_shorter in E. lia.
    + destruct s; [left|]. unfold dropRune in E. by destruct (Json.utf8Head _) as [[]|].
Qed.

Lemma like_any s : like "%" s = true.
Proof.
  cbn. apply existsb_exists. exists "". split; [|done]. apply list_elem_of_In. by apply suffixes_end.
Qed.

(** Appending a character that a pattern reads literally. *)
Lemma like_literal c p s : isPercent c || isUnderscore c || isBackslash c = false ->
  like (String c p) s = byteThen c (like p) s.
Proof. intros H. bool_prop. cbn. rewrite H, H1, H0. by destruct p. Qed.

Lemma HasPrefix_cons c p s : HasPrefix s (String c p) = byteThen c (fun s => HasPrefix s p) s.
Proof.
  apply eq_true_iff_eq. rewrite HasPrefix_spec. destruct s as [|b s]; cbn.
  - split; [by intros [r [=]]|done].
  - rewrite andb_true_iff, Ascii.eqb_eq, HasPrefix_spec.
    split; [intros [r [= -> ->]]; eauto|intros [-> [r ->]]; eauto].
Qed.

Lemma byteThen_ext c f g s : (forall s, f s = g s) -> byteThen c f s = byteThen c g s.
Proof. intros H. destruct s; cbn; [done|]. by rewrite H. Qed.

Lemma HasPrefix_nil s : HasPrefix s "" = true.
Proof. apply HasPrefix_spec. by exists s. Qed.

Lemma like_plain_prefix p s : plain p = true -> like (p +:+ "%") s = HasPrefix s p.
Proof.
  revert s. induction p as [|c p IH]; intros s Hp.
  - rewrite HasPrefix_nil. apply like_any.
  - cbn in Hp. apply andb_true_iff in Hp as [Hc Hp]. apply negb_true_iff in Hc.
    change (String c p +:+ "%") with (String c (p +:+ "%")).
    rewrite like_literal, HasPrefix_cons by done. apply byteThen_ext. intros. by apply IH.
Qed.

Lemma like_escaped c p s : like (String (ascii_of_nat 92) (String c p)) s = byteThen c (like p) s.
Proof. reflexivity. Qed.

Lemma likeLiteralPrefixPattern_exact p s : like (likeLiteralPrefixPattern p) s = HasPrefix s p.
Proof.
  unfold likeLiteralPrefixPattern. revert s. induction p as [|c p IH]; intros s.
  - rewrite HasPrefix_nil. apply like_any.
  - cbn [escapeLike]. rewrite HasPrefix_cons. case_match eqn:Hc.
    + change (String (ascii_of_nat 92) (String c (escapeLike p)) +:+ "%")
        with (String (ascii_of_nat 92) (String c (escapeLike p +:+ "%"))).
      rewrite like_escaped. by apply byteThen_ext.
    + change (String c (escapeLike p) +:+ "%") with (String c (escapeLike p +:+ "%")).
      rewrite like_literal by done. by apply byteThen_ext.
Qed.

(** ** The parents of a path *)

Lemma lastSlash_spec s a b : lastSlash s = Some (a, b) -> s = a +:+ "/" +:+ b.
Proof.
  revert a. induction s as [|c s IH]; cbn; intros a H; [done|].
  destruct (lastSlash s) as [[x y]|] eqn:E; simplify_eq; [cbn; f_equal; by apply IH|].
  case_match eqn:Ec; simplify_eq. apply Ascii.eqb_eq in Ec as ->. done.
Qed.

Lemma HasSuffix_split s x : HasSuffix s x = true -> exists q, s = q +:+ x.
Proof.
  induction s as [|c s IH]; cbn [HasSuffix]; intros H; apply orb_true_iff in H as [H|H]; try done;
    try (apply String.eqb_eq in H as <-; by exists "").
  destruct (IH H) as [q ->]. by exists (String c q).
Qed.

Lemma parentPath_shorter p :
  parentPath p = "/" \/ (String.length (parentPath p) < String.length p)%nat.
Proof.
  unfold parentPath. case_bool_decide as Hp; [by left|].
  destruct (lastSlash _) as [[a b]|] eqn:E; [|by left]. case_bool_decide as Ha; [by left|right].
  apply lastSlash_spec in E. destruct (HasSuffix p "/") eqn:Hs.
  - apply HasSuffix_split in Hs as [q ->]. rewrite Paths.TrimSuffix_app in E. subst q.
    rewrite !string_app_length. cbn. lia.
  - rewrite Paths.TrimSuffix_none in E by done. subst p. rewrite !string_app_length. cbn.
    destruct b; [|cbn; lia]. by rewrite string_app_nil_r, HasSuffix_app in Hs.
Qed.

(** The loop at the head of [ensureParentDirsWithExecer]: from [cur] it collects the
    list and stops. *)
Inductive climbs : string -> list string -> Prop :=
  | climbs_stop cur : parentPath cur = cur \/ parentPath cur = "/" -> climbs cur []
  | climbs_up cur l : parentPath cur <> cur -> parentPath cur <> "/" -> climbs (parentPath cur) l ->
      climbs cur (parentPath cur :: l).

Lemma ancestors_climbs n p : (String.length p <= n)%nat -> climbs p (ancestors n p).
Proof.
  revert p. induction n as [|n IH]; intros p Hp; cbn.
  - destruct p; [|cbn in Hp; lia]. constructor. by right.
  - destruct (bool_decide (parentPath p = p)) eqn:E1; cbn; bool_prop; [constructor; by left|].
    destruct (bool_decide (parentPath p = "/")) eqn:E2; bool_prop; [constructor; by right|].
    constructor; [done..|]. apply IH. destruct (parentPath_shorter p); [done|lia].
Qed.

Lemma climbs_unique p l l' : climbs p l -> climbs p l' -> l = l'.
Proof.
  intros H. revert l'. induction H as [cur Hs|cur l H1 H2 H IH]; intros l' H'; inversion H'; subst; try done; try tauto.
  f_equal. by apply IH.
Qed.

(** A path that names a directory with an inode. *)
Definition isDir (m : gmap string nodeRow) (p : string) : Prop :=
  exists id r, m !! id = Some r /\ path r = p /\ is_directory r = true /\ is_Some (inode_id r).

(** Every node keeps its place, and its inode once it has one. *)
Definition extends (m m' : gmap string nodeRow) : Prop :=
  forall id r, m !! id = Some r -> exists r', m' !! id = Some r' /\ path r' = path r
    /\ parent_path r' = parent_path r /\ is_directory r' = is_directory r /\ file_id r' = file_id r
    /\ (is_Some (inode_id r) -> inode_id r' = inode_id r).

(** The node of a directory to be made can only stand for that directory. *)
Definition freeFor (m : gmap string nodeRow) (p : string) : Prop :=
  (forall r, m !! deterministicNodeID p = Some r -> path r = p)
  /\ (forall id r, m !! id = Some r -> path r = p -> is_directory r = true).

#[local] Instance extends_preorder : PreOrder extends.
Proof.
  split.
  - intros m id r H. exists r. by split_and!.
  - intros m1 m2 m3 H12 H23 id r Hr. destruct (H12 _ _ Hr) as (r2 & Hr2 & ? & ? & ? & ? & Hi).
    destruct (H23 _ _ Hr2) as (r3 & Hr3 & ? & ? & ? & ? & Hi'). exists r3. split_and!; [done|congruence..|].
    intros Hs. rewrite <- Hi by done. apply Hi'. by rewrite Hi.
Qed.

Lemma isDir_extends m m' p : extends m m' -> isDir m p -> isDir m' p.
Proof.
  intros He (id & r & Hr & Hp & Hd & Hi). destruct (He _ _ Hr) as (r' & Hr' & ? & ? & ? & ? & Hi').
  exists id, r'. split_and!; [done|congruence..|]. by rewrite Hi'.
Qed.

(** What one round leaves. *)
Definition ensured (p : string) (m m' : gmap string nodeRow) : Prop :=
  isDir m' p /\ extends m m' /\ pathsUnique m'
  /\ forall id r', m' !! id = Some r' -> (exists r, m !! id = Some r /\ path r = path r' /\ is_directory r = is_directory r')
       \/ (id = deterministicNodeID p /\ path r' = p /\ is_directory r' = true).

Lemma nodesWhere_none P d : nodesWhere P d = [] -> forall id r, file_nodes d !! id = Some r -> P r = false.
Proof.
  intros H id r Hr. destruct (P r) eqn:E; [|done].
  assert ((id, r) ∈ nodesWhere P d) as Hin by (by apply nodesWhere_elem). rewrite H in Hin. by apply not_elem_of_nil in Hin.
Qed.

Lemma insertIgnoreInode_nodes id i d : exists d', insertIgnoreInode id i d = inl (d', tt) /\ file_nodes d' = file_nodes d.
Proof. unfold insertIgnoreInode, modify. destruct (inodes d !! id); eauto. Qed.

Lemma pathsUnique_same m id r r' :
  pathsUnique m -> m !! id = Some r -> path r' = path r -> pathsUnique (<[id := r']> m).
Proof. intros Hu Hr Hp. apply pathsUnique_insert; [done|]. rewrite Hp. by apply pathsUnique_own. Qed.

Lemma ensureDir_new now p d m :
  file_nodes d = m -> pathsUnique m -> freeFor m p ->
  (forall id r, m !! id = Some r -> path r <> p) ->
  exists d', ensureDir now p d = inl (d', tt) /\ ensured p m (file_nodes d').
Proof.
  intros Hm Hu [Hf _] Hno. unfold ensureDir, bind, read.
  assert (nodesWhere (fun r => bool_decide (path r = p) && is_directory r) d = []) as ->.
  { apply elem_of_nil_inv. intros [id r] H. apply nodesWhere_elem in H as [Hr H]. bool_prop. rewrite Hm in Hr. by apply (Hno id r). }
  cbn [head]. destruct (insertIgnoreInode_nodes (deterministicNodeID p) (newInode 493 now) d) as (d1 & -> & E1).
  unfold modify. rewrite E1, Hm.
  destruct (m !! deterministicNodeID p) as [r|] eqn:Er; [by destruct (Hno _ _ Er); apply Hf|].
  rewrite bool_decide_eq_false_2 by (by intros [? ?]).
  assert (pathTaken m (deterministicNodeID p) p = false) as Et.
  { apply pathTaken_spec. intros id r Hr Hp. by destruct (Hno _ _ Hr). }
  rewrite Et.
  cbn. eexists. split; [done|]. cbn. split_and!.
  - eexists _, _. rewrite lookup_insert_eq. split_and!; [done..|]. by eexists.
  - intros id r Hr. exists r. rewrite lookup_insert_ne by congruence. by split_and!.
  - by apply pathsUnique_insert.
  - intros id r'. rewrite lookup_insert. case_decide as E; [|eauto]. intros [= <-]. right. auto.
Qed.

Lemma ensureDir_post now p d :
  pathsUnique (file_nodes d) -> freeFor (file_nodes d) p ->
  exists d', ensureDir now p d = inl (d', tt) /\ ensured p (file_nodes d) (file_nodes d').
Proof.
  intros Hu Hf. destruct (nodesWhere (fun r => bool_decide (path r = p) && is_directory r) d) as [|[id r] l] eqn:E.
  { apply (ensureDir_new now p d _ eq_refl Hu Hf). intros id r Hr Hp.
    pose proof (nodesWhere_none _ _ E id r Hr) as H. destruct Hf as [_ Hd]. cbv beta in H.
    by rewrite (Hd _ _ Hr Hp), bool_decide_eq_true_2 in H. }
  assert (head (nodesWhere (fun r => bool_decide (path r = p) && is_directory r) d) = Some (id, r)) as Eh by (by rewrite E).
  destruct (nodesWhere_head _ _ _ _ Eh) as [Hr Hp]. bool_prop.
  unfold ensureDir, bind, read. rewrite Eh. destruct (inode_id r) as [i|] eqn:Ei.
  - exists d. destruct r. cbn in Ei. rewrite Ei. split; [done|]. split_and!; [|done|done|eauto].
    eexists id, _. cbn in *. rewrite Ei in Hr. eauto 10.
  - destruct (insertIgnoreInode_nodes (deterministicNodeID p) (newInode 493 now) d) as (d1 & Ed & E1).
    destruct r as [rp rpp rn rd rf ri rc]. cbn in Ei, Hr. subst ri. cbv beta iota zeta. rewrite Ed. unfold modify. eexists. split; [done|].
    cbn. rewrite E1. split_and!.
    + eexists id, _. rewrite lookup_insert_eq. split_and!; [done..|]. by eexists.
    + intros id' r'. rewrite lookup_insert. case_decide as En; [subst id'|by exists r'; split_and!]. rewrite Hr. intros [= <-].
      eexists. split; [done|]. cbn. split_and!; done.
    + by eapply pathsUnique_same.
    + intros id' r'. rewrite lookup_insert. case_decide as En; [subst id'|eauto]. intros [= <-]. left. eexists. split; [done|done].
Qed.

Lemma freeFor_step p q m m' :
  ensured p m m' -> deterministicNodeID q <> deterministicNodeID p -> freeFor m q -> freeFor m' q.
Proof.
  intros (_ & _ & _ & Hback) Hne [H1 H2]. split.
  - intros r Hr. destruct (Hback _ _ Hr) as [(r0 & Hr0 & <- & _)|(E & _)]; [by apply H1|done].
  - intros id r Hr Hp. destruct (Hback _ _ Hr) as [(r0 & Hr0 & E & <-)|(_ & _ & E)]; [|done].
    eapply H2; [done|congruence].
Qed.

Lemma forEach_ensureDir now l d :
  pathsUnique (file_nodes d) -> Forall (freeFor (file_nodes d)) l -> NoDup (deterministicNodeID <$> l) ->
  exists d', forEach (ensureDir now) l d = inl (d', tt) /\ Forall (isDir (file_nodes d')) l
    /\ extends (file_nodes d) (file_nodes d') /\ pathsUnique (file_nodes d').
Proof.
  revert d. induction l as [|p l IH]; intros d Hu Hf Hn.
  { exists d. by split_and!. }
  apply Forall_cons in Hf as [Hp Hf]. cbn in Hn. apply NoDup_cons in Hn as [Hnp Hn].
  destruct (ensureDir_post now p d Hu Hp) as (d1 & E1 & He). pose proof He as (Hd & Hx & Hu1 & _).
  destruct (IH d1 Hu1) as (d2 & E2 & Hl & Hx2 & Hu2); [|done|].
  { apply Forall_forall. intros q Hq. apply (freeFor_step p q _ _ He).
    - intros E. apply Hnp. rewrite <- E. by apply list_elem_of_fmap_2.
    - by apply (proj1 (Forall_forall _ _) Hf). }
  exists d2. split; [by cbn; unfold bind; rewrite E1|]. split_and!; [|by etrans|done].
  constructor; [by apply (isDir_extends _ _ _ Hx2)|done].
Qed.

Lemma climbs_ancestors p l : climbs p l -> l = ancestors (String.length p) p.
Proof. intros H. apply (climbs_unique _ _ _ H). by apply ancestors_climbs. Qed.

(** C32: the loop of [ensureParentDirsWithExecer] that climbs from a path to the root
    always stops, after at most one round per character of the path, with one list of
    directories; and the call that makes them returns without an error, after which
    every one of them is a directory with an inode and every node that was there is
    still at its path - provided that no file has the path of one and that the ids that
    are computed from the paths are not in use for others. *)
Theorem parents_ensured now p d :
  exists l, climbs p l /\ (forall l', climbs p l' -> l' = l) /\ (length l <= String.length p)%nat
    /\ (pathsUnique (file_nodes d) -> Forall (freeFor (file_nodes d)) l -> NoDup (deterministicNodeID <$> l) ->
        exists d', EnsureParentDirsTx now p d = inl (d', tt)
          /\ Forall (isDir (file_nodes d')) l /\ extends (file_nodes d) (file_nodes d')).
Proof.
  exists (ancestors (String.length p) p). split; [by apply ancestors_climbs|]. split; [apply climbs_ancestors|].
  split. { generalize (String.length p) as n. intros n. revert p. induction n as [|n IH]; intros p; cbn; [lia|].
           case_match; cbn; [lia|]. specialize (IH (parentPath p)). lia. }
  intros Hu Hf Hn. unfold EnsureParentDirsTx.
  destruct (forEach_ensureDir now (reverse (ancestors (String.length p) p)) d Hu) as (d' & E & Hd & Hx & _).
  - by rewrite Forall_reverse.
  - by rewrite fmap_reverse, reverse_Permutation.
  - exists d'. rewrite Forall_reverse in Hd. auto.
Qed.

Lemma parents_ensured_witness : exists d',
  EnsureParentDirsTx 5 "/a/b/c.txt" (emptyDB true) = inl (d', tt) /\ Forall (isDir (file_nodes d')) ["/a/b/"; "/a/"].
Proof.
  destruct (parents_ensured 5 "/a/b/c.txt" (emptyDB true)) as (l & Hl & _ & _ & H).
  assert (l = ["/a/b/"; "/a/"]) as ->. { rewrite (climbs_ancestors _ _ Hl). vm_compute. reflexivity. }
  destruct H as (d' & E & Hd & _).
  - by intros id id' r r' H.
  - apply Forall_forall. intros q _. split; by intros.
  - apply (bool_decide_eq_true_1 (NoDup _)). vm_compute. reflexivity.
  - exists d'. auto.
Defined.

(** ** Removing a tree *)

(** The rows of a tree by prefix. *)
Definition inDir (prefix : string) (r : nodeRow) : bool := HasPrefix (path r) prefix.

Lemma underLike_plain prefix r : plain prefix = true -> underLike prefix r = inDir prefix r.
Proof.
  intros H. unfold underLike, inDir. rewrite like_plain_prefix by done. case_bool_decide as E; [|done].
  rewrite E. cbn. symmetry. apply HasPrefix_spec. exists "". by rewrite string_app_nil_r.
Qed.

Lemma markOne_succeeds id d : exists d', markOne id d = inl (d', tt).
Proof.
  unfold markOne, updateLegacy, updateInode, bind, modify, read. repeat (case_match; simplify_eq; cbn); eauto.
Qed.

Lemma forEach_succeeds {A} (f : A -> tx unit) l d :
  (forall a d, a ∈ l -> exists d', f a d = inl (d', tt)) -> exists d', forEach f l d = inl (d', tt).
Proof.
  revert d. induction l as [|a l IH]; intros d H; [by exists d|]. cbn. unfold bind.
  destruct (H a d ltac:(left)) as [d1 ->]. apply IH. intros b d' Hb. apply H. by right.
Qed.

Lemma enqueueGC_succeeds g now d : isBlank (gFileID g) = false -> exists d', enqueueGC g now d = inl (d', tt).
Proof.
  intros H. unfold enqueueGC, FileGC.NewFileGCTaskFromFile. rewrite H. cbn. unfold bind, read.
  unfold FileGC.enqueueFileGCTask. cbn. rewrite H. repeat case_match; simplify_eq; unfold modify; eauto.
Qed.

Lemma DeleteDirRecursive_succeeds p now d :
  filesOk d -> (forall f, referenced d f -> isBlank f = false) ->
  exists d' gs, DeleteDirRecursive p now d = inl (d', gs).
Proof.
  intros H Hb. unfold DeleteDirRecursive, bind, read, deleteNodes, modify.
  pose proof (deleteNodes_ok _ (underLike p) d H) as Hd1. cbn in Hd1.
  set (ids := remove_dups _). set (d1 := set_nodes _ d) in *. set (gs := orphanedFiles d1 ids).
  destruct (forEach_succeeds markOne (gFileID <$> gs) d1) as [d2 E2]. { intros. apply markOne_succeeds. }
  unfold markFilesDeletedTx. rewrite E2. unfold deleteFileTagsByIDsTx, modify.
  destruct (forEach_succeeds (fun f => enqueueGC f now) gs
    (set_tags (filter (fun kv => fst (fst kv) ∉ gFileID <$> gs) (file_tags d2)) d2)) as [d3 E3].
  - intros g d' Hg. apply enqueueGC_succeeds. apply orphanedFiles_elem in Hg as (f & Hf & _ & Hg).
    destruct (gcFileOf_ok _ d1 f g (proj1 Hd1) (or_introl Hg)) as [-> _].
    unfold ids in Hf. apply elem_of_remove_dups, list_elem_of_omap in Hf as ([id r] & Hin & Hf).
    apply nodesWhere_elem in Hin as [Hr _]. apply Hb. by exists id, r.
  - rewrite E3. eexists _, _. reflexivity.
Qed.

Lemma enqueueGC_nodes g now : keeps file_nodes (enqueueGC g now).
Proof. unfold enqueueGC. keeps_tac. Qed.

Lemma DeleteDirRecursive_nodes p now d :
  wp (DeleteDirRecursive p now) (fun _ d' => file_nodes d' = filter (fun kv => underLike p (snd kv) = false) (file_nodes d)) d.
Proof.
  unfold DeleteDirRecursive, deleteNodes. apply wp_bind, wp_read, wp_bind, wp_modify, wp_bind, wp_read. cbv beta.
  set (d1 := set_nodes _ d). set (ids := remove_dups _).
  assert (keeps file_nodes (markFilesDeletedTx (gFileID <$> orphanedFiles d1 ids) ;;
    deleteFileTagsByIDsTx (gFileID <$> orphanedFiles d1 ids) ;;
    forEach (fun f => enqueueGC f now) (orphanedFiles d1 ids) ;; ok (orphanedFiles d1 ids))) as Hk.
  { unfold markFilesDeletedTx, markOne, updateLegacy, updateInode, deleteFileTagsByIDsTx. keeps_tac; apply enqueueGC_nodes. }
  exact (Hk d1).
Qed.

(** C31: [DeleteDirRecursive] of a directory whose path has no character that is special
    in a LIKE pattern removes exactly the names below it: in a store that is consistent
    and whose file ids are not blank the call returns, every entry whose path begins with the directory's is gone and
    every other is as it was, and a file is live afterwards exactly when some name
    outside the directory refers to it. *)
Theorem remove_tree_exact p now d :
  filesOk d -> (forall f, referenced d f -> isBlank f = false) -> plain p = true ->
  exists d' gs, DeleteDirRecursive p now d = inl (d', gs)
    /\ (forall id, file_nodes d' !! id
          = match file_nodes d !! id with
            | Some r => if HasPrefix (path r) p then None else Some r
            | None => None
            end)
    /\ forall f, live d' f <-> exists id r, file_nodes d !! id = Some r /\ HasPrefix (path r) p = false /\ file_id r = Some f.
Proof.
  intros H Hb Hp. destruct (DeleteDirRecursive_succeeds p now d H Hb) as (d' & gs & E).
  exists d', gs. split; [done|].
  pose proof (wp_inl _ _ _ _ _ (DeleteDirRecursive_ok p now d H) E) as H'.
  pose proof (wp_inl _ _ _ _ _ (DeleteDirRecursive_nodes p now d) E) as En. cbv beta in En.
  assert (forall id, file_nodes d' !! id = match file_nodes d !! id with
            | Some r => if HasPrefix (path r) p then None else Some r | None => None end) as Hn.
  { intros id. rewrite En, map_lookup_filter. destruct (file_nodes d !! id) as [r|]; [|done]. cbn.
    rewrite underLike_plain by done. unfold inDir. destruct (HasPrefix _ _); [by rewrite option_guard_False|by rewrite option_guard_True]. }
  split; [done|]. intros f. split.
  - intros Hl. destruct (named _ _ H' f Hl) as [[]|(id & r & Hr & Hf)]. rewrite Hn in Hr.
    destruct (file_nodes d !! id) as [r0|] eqn:E0; [|done]. case_match eqn:Ep; simplify_eq. eauto 10.
  - intros (id & r & Hr & Hpr & Hf). apply (nodes_ok _ _ H' id r); [|done]. by rewrite Hn, Hr, Hpr.
Qed.

(** ** Renaming a tree *)

(** The row of an entry after the directory [old] has become [new]. *)
Definition renamed (old new : string) (r : nodeRow) : nodeRow :=
  if HasPrefix (path r) old then
    if bool_decide (path r = old) then moved r new (parentPath new) (baseName new)
    else moved r (new +:+ TrimPrefix (path r) old) (new +:+ TrimPrefix (parent_path r) old) (name r)
  else r.

(** The two places do not overlap and nothing is at the new one. *)
Definition roomFor (old new : string) (m : gmap string nodeRow) : Prop :=
  HasPrefix old new = false /\ HasPrefix new old = false
  /\ forall id r, m !! id = Some r -> HasPrefix (path r) new = false.

Lemma HasPrefix_self p s : HasPrefix (p +:+ s) p = true.
Proof. apply HasPrefix_spec. eauto. Qed.

Lemma prefixes_apart a b s : HasPrefix a b = false -> HasPrefix b a = false -> HasPrefix s a = true -> HasPrefix s b = false.
Proof.
  intros Hab Hba (x & ->)%HasPrefix_spec. destruct (HasPrefix (a +:+ x) b) eqn:E; [|done].
  apply HasPrefix_spec in E as [y E]. destruct (app_prefix_cases _ _ _ _ E) as [(z & -> & _)|(z & -> & _)].
  - by rewrite HasPrefix_self in Hab.
  - by rewrite HasPrefix_self in Hba.
Qed.

Lemma renamed_path old new r : HasPrefix (path r) old = true -> path (renamed old new r) = new +:+ TrimPrefix (path r) old.
Proof.
  intros H. unfold renamed. rewrite H. case_bool_decide as E; [|done]. cbn. rewrite E.
  rewrite <- (string_app_nil_r old) at 1. by rewrite TrimPrefix_app, string_app_nil_r.
Qed.

Lemma renamed_out old new r : HasPrefix (path r) old = false -> renamed old new r = r.
Proof. intros H. unfold renamed. by rewrite H. Qed.

Lemma dirUpdate_renamed old new id r : HasPrefix (path r) old = true ->
  exists p q n, dirUpdate old new (id, r) = (id, p, q, n) /\ renamed old new r = moved r p q n.
Proof. intros H. unfold dirUpdate, renamed. rewrite H. cbn. case_bool_decide; eauto 10. Qed.

Section renaming.
Context (old new : string) (m : gmap string nodeRow) (Hu : pathsUnique m) (Hroom : roomFor old new m).
#[local] Set Default Proof Using "Type*".

(** No two entries end up at one path, even while the renaming is under way. *)
Lemma renamed_apart id id' r r' :
  m !! id = Some r -> m !! id' = Some r' -> HasPrefix (path r) old = true ->
  path r' = path (renamed old new r) \/ path (renamed old new r') = path (renamed old new r) -> id' = id.
Proof.
  intros Hr Hr' Hp HE. destruct Hroom as (Hon & Hno & Hfree). rewrite (renamed_path _ _ r Hp) in HE.
  assert (path r' = new +:+ TrimPrefix (path r) old -> False) as Hbad.
  { intros E. pose proof (Hfree _ _ Hr') as Hf. by rewrite E, HasPrefix_self in Hf. }
  destruct HE as [E|E]; [by destruct (Hbad E)|]. destruct (HasPrefix (path r') old) eqn:Hp'.
  - rewrite renamed_path in E by done. apply string_app_inj in E.
    apply HasPrefix_spec in Hp as [x Hx], Hp' as [y Hy]. rewrite Hx, Hy, !TrimPrefix_app in E. subst y.
    apply (Hu id' id r' r); congruence.
  - rewrite renamed_out in E by done. by destruct (Hbad E).
Qed.

(** The loop over the updates that are left. *)
Lemma forEach_moveNode l d :
  NoDup l.*1 -> (forall id r, (id, r) ∈ l -> m !! id = Some r /\ HasPrefix (path r) old = true) ->
  (forall id, file_nodes d !! id = (if decide (id ∈ l.*1) then m !! id else renamed old new <$> m !! id)) ->
  exists d', forEach (moveNode ErrSQL) (dirUpdate old new <$> l) d = inl (d', tt)
    /\ d' = set_nodes (file_nodes d') d /\ forall id, file_nodes d' !! id = renamed old new <$> m !! id.
Proof.
  revert d. induction l as [|[id r] l IH]; intros d Hn Hl Hd.
  { exists d. split_and!; [done|by destruct d|]. intros id. by rewrite Hd. }
  cbn [fmap list_fmap fst] in Hn. apply NoDup_cons in Hn as [Hnin Hn].
  destruct (Hl id r ltac:(left)) as [Hr Hp]. destruct (dirUpdate_renamed old new id r Hp) as (p & q & n & E & Er).
  assert (path (renamed old new r) = p) as Ep by (by rewrite Er).
  cbn [fmap list_fmap forEach]. unfold bind at 1. rewrite E. unfold moveNode, bind, read.
  assert (file_nodes d !! id = Some r) as Hdr. { rewrite Hd, decide_True; [done|]. left. }
  rewrite Hdr. assert (pathTaken (file_nodes d) id p = false) as ->.
  { apply pathTaken_spec. intros id' r' Hr' Hp'. rewrite Hd in Hr'. case_decide.
    - apply (renamed_apart id id' r r' Hr Hr' Hp). left. congruence.
    - apply fmap_Some in Hr' as (r0 & Hr0 & ->). apply (renamed_apart id id' r r0 Hr Hr0 Hp). right. congruence. }
  cbn. rewrite <- Er. set (d1 := set_nodes _ d).
  destruct (IH d1) as (d' & Ed' & Eset & Hfin); [done|by intros; apply Hl; right| |].
  - intros id'. cbn. rewrite lookup_insert. case_decide as Ei; [subst id'|].
    + by rewrite decide_False, Hr.
    + rewrite Hd. rewrite (decide_ext (id' ∈ ((id, r) :: l).*1) (id' ∈ l.*1)); [done|].
      cbn. rewrite elem_of_cons. split; [|by right]. by intros [|].
  - exists d'. split; [done|]. split; [|done]. by rewrite Eset at 1.
Qed.

End renaming.

(** *** The columns that are derived from the path *)

Definition entryOk (r : nodeRow) : Prop := parent_path r = parentPath (path r) /\ name r = baseName (path r).

Lemma lastSlash_app s y :
  lastSlash (s +:+ "/" +:+ y) = Some (match lastSlash y with Some (a, b) => (s +:+ "/" +:+ a, b) | None => (s, y) end).
Proof.
  induction s as [|c s IH]; [cbn; by destruct (lastSlash y) as [[]|]|].
  change (String c s +:+ "/" +:+ y) with (String c (s +:+ "/" +:+ y)). cbn [lastSlash]. rewrite IH.
  by destruct (lastSlash y) as [[]|].
Qed.

Lemma TrimSuffix_in s x : x <> "" -> Paths.TrimSuffix (s +:+ x) "/" = s +:+ Paths.TrimSuffix x "/".
Proof.
  intros Hx. destruct (HasSuffix x "/") eqn:E.
  - apply HasSuffix_split in E as [q ->]. by rewrite string_app_assoc, !Paths.TrimSuffix_app.
  - rewrite (Paths.TrimSuffix_none x) by done. apply Paths.TrimSuffix_none.
    destruct (HasSuffix (s +:+ x) "/") eqn:E2; [|done]. apply HasSuffix_split in E2 as [q E2].
    destruct (app_prefix_cases _ _ _ _ E2) as [(r & -> & Er)|(r & -> & ->)]; [|by rewrite HasSuffix_app in E].
    destruct r as [|c r]; [by cbn in Er; subst x|]. injection Er as _ Er. by destruct r, x.
Qed.

(** The parent and the last segment of what follows a directory. *)
Definition relParent (x : string) : string :=
  match lastSlash (Paths.TrimSuffix x "/") with Some (a, _) => a +:+ "/" | None => "" end.

Lemma string_not_app (s : string) c x : s +:+ String c x <> "".
Proof. by destruct s. Qed.

Lemma parentPath_in s x : x <> "" -> parentPath (s +:+ "/" +:+ x) = s +:+ "/" +:+ relParent x.
Proof.
  intros Hx. unfold parentPath, relParent. rewrite bool_decide_eq_false_2.
  2: { destruct s; [destruct x; [done|intros [=]]|intros [= -> H]; by destruct s]. }
  rewrite (string_app_assoc s "/" x), TrimSuffix_in, <- string_app_assoc, lastSlash_app by done.
  destruct (lastSlash _) as [[a b]|].
  - rewrite bool_decide_eq_false_2 by apply string_not_app. by rewrite !string_app_assoc.
  - rewrite string_app_nil_r. case_bool_decide as E; [by subst s|done].
Qed.

Lemma baseName_in s x : x <> "" -> baseName (s +:+ "/" +:+ x)
  = match lastSlash (Paths.TrimSuffix x "/") with Some (_, b) => b | None => Paths.TrimSuffix x "/" end.
Proof.
  intros Hx. unfold baseName.
  rewrite (string_app_assoc s "/" x), TrimSuffix_in, <- string_app_assoc, lastSlash_app by done.
  by destruct (lastSlash _) as [[a b]|].
Qed.

Lemma renamed_entryOk s t r : entryOk r -> entryOk (renamed (s +:+ "/") (t +:+ "/") r).
Proof.
  intros [H1 H2]. unfold renamed. destruct (HasPrefix (path r) (s +:+ "/")) eqn:E; [|done].
  case_bool_decide as Ep; [done|]. apply HasPrefix_spec in E as [x E]. unfold entryOk. cbn [moved path parent_path name].
  assert (x <> "") as Hx by (intros ->; by rewrite string_app_nil_r in E).
  rewrite H1, H2, E, TrimPrefix_app, <- !string_app_assoc, !parentPath_in, !baseName_in by done.
  split; [|done]. by rewrite (string_app_assoc s), TrimPrefix_app.
Qed.

(** C30: [RenameDir] moves exactly the tree: when the path of the directory has no
    character that is special in a LIKE pattern, the new path does not overlap with it
    and nothing is at the new path, the call succeeds, every entry below the directory
    has the new path in place of the old one in its path and in its parent's path, every
    other entry and every other table is as it was, and it reports the number of
    entries it moved.  Entries whose parent and name columns agree with their path keep
    that property. *)
Theorem rename_tree_exact s t d :
  pathsUnique (file_nodes d) -> plain s = true -> roomFor (s +:+ "/") (t +:+ "/") (file_nodes d) ->
  exists d', RenameDir (s +:+ "/") (t +:+ "/") d
             = inl (d', zlen (nodesWhere (fun r => HasPrefix (path r) (s +:+ "/")) d))
    /\ d' = set_nodes (renamed (s +:+ "/") (t +:+ "/") <$> file_nodes d) d
    /\ ((forall id r, file_nodes d !! id = Some r -> entryOk r) ->
        forall id r, file_nodes d' !! id = Some r -> entryOk r).
Proof.
  intros Hu Hs Hroom. assert (plain (s +:+ "/") = true) as Hp.
  { clear - Hs. induction s as [|c s IH]; [done|]. cbn in *. apply andb_true_iff in Hs as [-> Hs]. by apply IH. }
  set (old := s +:+ "/") in *. set (new := t +:+ "/") in *.
  set (l := sortBy (fun a b => String.ltb (path (snd a)) (path (snd b))) (nodesWhere (underLike old) d)).
  assert (nodesWhere (underLike old) d = nodesWhere (fun r => HasPrefix (path r) old) d) as Er.
  { unfold nodesWhere. apply list_filter_iff. intros [id r]. cbn. by rewrite underLike_plain. }
  assert (l ≡ₚ nodesWhere (fun r => HasPrefix (path r) old) d) as El by (unfold l; by rewrite sortBy_perm, Er).
  assert (forall id r, (id, r) ∈ l <-> file_nodes d !! id = Some r /\ HasPrefix (path r) old = true) as Hl.
  { intros id r. rewrite El. apply nodesWhere_elem. }
  destruct (forEach_moveNode old new (file_nodes d) Hu Hroom l d) as (d' & E & Eset & Hfin).
  - rewrite El. unfold nodesWhere. apply NoDup_fmap_fst; [|apply NoDup_filter, NoDup_map_to_list].
    intros id r r' H H'. apply list_elem_of_filter in H as [_ H], H' as [_ H']. apply elem_of_map_to_list in H, H'. congruence.
  - intros id r. apply Hl.
  - intros id. case_decide as Hin; [done|]. destruct (file_nodes d !! id) as [r|] eqn:Hr; [|done]. cbn.
    destruct (HasPrefix (path r) old) eqn:Ep; [|by rewrite renamed_out].
    destruct Hin. apply list_elem_of_fmap. exists (id, r). split; [done|]. by apply Hl.
  - assert (file_nodes d' = renamed old new <$> file_nodes d) as En. { apply map_eq. intros id. by rewrite Hfin, lookup_fmap. }
    exists d'. split_and!.
    + unfold RenameDir, bind, read. fold l. rewrite E. unfold ok, zlen. by rewrite length_fmap, El.
    + by rewrite <- En.
    + intros Hok id r. rewrite En, lookup_fmap. intros (r0 & Hr0 & ->)%fmap_Some. apply renamed_entryOk. by eapply Hok.
Qed.

(** ** On a concrete store *)

Lemma demo_filesOk : filesOk (store (be demo5)).
Proof. by destruct (reachable_ok _ _ _ _ _ _ demo_world_reachable). Qed.

Definition wellNamed (r : nodeRow) : Prop := match file_id r with Some f => isBlank f = false | None => True end.
#[local] Instance wellNamed_dec r : Decision (wellNamed r).
Proof. unfold wellNamed. destruct (file_id r); apply _. Defined.

Lemma remove_tree_exact_witness : exists d' gs,
  DeleteDirRecursive "/d/" 20 (store (be demo5)) = inl (d', gs) /\ ~ live d' "f2".
Proof.
  destruct (remove_tree_exact "/d/" 20 (store (be demo5)) demo_filesOk) as (d' & gs & E & _ & H).
  - intros f (id & r & Hr & Hf).
    assert (map_Forall (fun _ r => wellNamed r) (file_nodes (store (be demo5)))) as Hall
      by (apply (bool_decide_eq_true_1 (map_Forall _ _)); vm_compute; reflexivity).
    specialize (Hall id r Hr). unfold wellNamed in Hall. by rewrite Hf in Hall.
  - reflexivity.
  - exists d', gs. split; [exact E|]. rewrite H. intros (id & r & Hr & Hp & _).
    assert (map_Forall (fun _ r => HasPrefix (path r) "/d/" = true) (file_nodes (store (be demo5)))) as Hall
      by (apply (bool_decide_eq_true_1 (map_Forall _ _)); vm_compute; reflexivity).
    by rewrite (Hall id r Hr) in Hp.
Defined.

Lemma rename_tree_exact_witness : exists d',
  RenameDir "/d/" "/new/" (store (be demo5)) = inl (d', 2) /\ is_Some (nodeAt d' "/new/x").
Proof.
  destruct (rename_tree_exact "/d" "/new" (store (be demo5)) (unique_paths _ _ demo_filesOk)) as (d' & E & Ed & _).
  - reflexivity.
  - split_and!; [reflexivity|reflexivity|].
    assert (map_Forall (fun _ r => HasPrefix (path r) "/new/" = false) (file_nodes (store (be demo5)))) as Hall
      by (apply (bool_decide_eq_true_1 (map_Forall _ _)); vm_compute; reflexivity).
    exact Hall.
  - exists d'. split; [exact E|]. rewrite Ed. apply (bool_decide_eq_true_1 (is_Some _)). vm_compute. reflexivity.
Defined.

(** ** What goes wrong *)

(** A sequence of calls on an empty store. *)
Definition demoWorld (cs : list call) : backend :=
  foldl (fun b c => perform idStr noType idStr Content.demoConfig c b) Content.emptyBackend cs.
Definition namesOf (b : backend) : list string := (fun kv => path (snd kv)) <$> map_to_list (file_nodes (store b)).

(** The directory whose path is removed has an underscore: its neighbour, which the
    pattern also matches, is removed with it. *)
Lemma remove_hits_neighbour :
  namesOf (demoWorld [demoWrite "1" "/a_b/x" "hello" 1; demoWrite "2" "/axb/y" "hello" 1]) ≡ₚ ["/a_b/"; "/a_b/x"; "/axb/"; "/axb/y"]
  /\ namesOf (demoWorld [demoWrite "1" "/a_b/x" "hello" 1; demoWrite "2" "/axb/y" "hello" 1; RemoveAll "/a_b/" 2]) = [].
Proof. split; [apply (bool_decide_eq_true_1 (_ ≡ₚ _))|]; vm_compute; reflexivity. Qed.

(** A rename moves the neighbour too, to a path that no lookup forms. *)
Lemma rename_hits_neighbour :
  namesOf (demoWorld [demoWrite "1" "/a_b/x" "hello" 1; demoWrite "2" "/axb/y" "hello" 1; Rename "/a_b/" "/c/" 2])
    ≡ₚ ["/c/"; "/c/x"; "/c//axb/"; "/c//axb/y"].
Proof. apply (bool_decide_eq_true_1 (_ ≡ₚ _)). vm_compute. reflexivity. Qed.

(** A directory that was made for a file and renamed keeps the id that is computed from
    its first path; a new file below that path finds the id in use and gets no parent. *)
Lemma parent_missing_after_rename :
  namesOf (demoWorld [demoWrite "1" "/d/a" "hello" 1; Rename "/d/" "/e/" 2; demoWrite "2" "/d/b" "hello" 3])
    ≡ₚ ["/e/"; "/e/a"; "/d/b"].
Proof. apply (bool_decide_eq_true_1 (_ ≡ₚ _)). vm_compute. reflexivity. Qed.

(** A directory is renamed into itself and cut off from the root. *)
Lemma rename_into_itself :
  namesOf (demoWorld [demoWrite "1" "/d/a" "hello" 1; Rename "/d/" "/d/s/" 2]) ≡ₚ ["/d/s/"; "/d/s/a"].
Proof. apply (bool_decide_eq_true_1 (_ ≡ₚ _)). vm_compute. reflexivity. Qed.

(** A path that does not canonicalize is stored as it is given. *)
Lemma rename_to_dot_segment :
  namesOf (demoWorld [demoWrite "1" "/d/a" "hello" 1; Rename "/d/a" "/d/../b" 2]) ≡ₚ ["/d/"; "/d/../"; "/d/../b"].
Proof. apply (bool_decide_eq_true_1 (_ ≡ₚ _)). vm_compute. reflexivity. Qed.

(** A change of mode to the mode that the file has is reported as a missing file. *)
Lemma chmod_same_mode :
  let b := demoWorld [demoWrite "1" "/a" "hello" 1] in
  snd (ChmodCtx idStr b "/a" 384) = inl tt
  /\ snd (ChmodCtx idStr (fst (ChmodCtx idStr b "/a" 384)) "/a" 384) = inr (Store ErrNotFound).
Proof. vm_compute. split; reflexivity. Qed.

End Namespace.
