(* ===== verification/UploadProps.v ===== *)
(** * The layout of uploads, and two races

    What [Uploads] promises about the division of a file into parts, and what happens
    when an abort overtakes a confirmation and when an upload is left to expire. *)

From Stdlib Require Import Strings.Ascii.
From S2P Require Import Prelude GoStrings PathUtil Json SemanticQueue FileGCQueue FileStore FileRules FileSafety.
From S2P Require Import Backend BackendContent Uploads StoreHistory.

Import GoStr FileStore FileRules FileSafety Backend Uploads StoreHistory.

Module UploadProps.

(** ** Parts *)

Definition sumSizes (l : list Part) : Z := foldr (fun p n => PSize p + n) 0 l.

Lemma sumSizes_app l l' : sumSizes (l ++ l') = sumSizes l + sumSizes l'.
Proof. induction l as [|p l IH]; cbn; [done|]. unfold sumSizes in *. lia. Qed.

(** The number of parts that the division yields. *)
Lemma parts_count total ps : 0 < total -> 0 < ps -> total + ps - 1 <= max_int64 ->
  let n := Z.quot (wrap64 (total + ps - 1)) ps in
  n = Z.quot (total + ps - 1) ps /\ 0 < n /\ (n - 1) * ps < total <= n * ps.
Proof.
  intros Ht Hp Hm n. unfold n. rewrite wrap64_small by (unfold max_int64 in *; lia). split; [done|].
  rewrite Z.quot_div_nonneg by lia.
  pose proof (Z.div_mod (total + ps - 1) ps ltac:(lia)). pose proof (Z.mod_pos_bound (total + ps - 1) ps Hp).
  set (q := (total + ps - 1) / ps) in *. split; [|split]; nia.
Qed.

(** The layout of a size up to [max_int64] panics exactly if the sum overflows, for parts
    of at most 2^62 bytes. *)
Lemma panics_spec total ps : 0 < total <= max_int64 -> 0 < ps <= 2 ^ 62 ->
  CalcPartsPanics total ps = true <-> max_int64 < total + ps - 1.
Proof.
  intros Ht Hp. unfold CalcPartsPanics. rewrite (proj2 (Z.leb_gt ps 0)) by lia. rewrite Z.ltb_lt.
  destruct (Z.le_gt_cases (total + ps - 1) max_int64) as [Hle|Hgt].
  - destruct (parts_count total ps ltac:(lia) ltac:(lia) Hle) as (_ & Hn & _). lia.
  - split; [done|]. intros _. assert (wrap64 (total + ps - 1) = total + ps - 1 - 2 ^ 64) as ->.
    { unfold wrap64, max_int64 in *. rewrite <- (Z.mod_unique_pos (total + ps - 1 + 2 ^ 63) (2 ^ 64) 1 (total + ps - 1 + 2 ^ 63 - 2 ^ 64)); lia. }
    assert (Z.quot (total + ps - 1 - 2 ^ 64) ps <= -1); [|lia].
    rewrite <- (Z.opp_involutive (total + ps - 1 - 2 ^ 64)), Z.quot_opp_l by lia.
    assert (1 <= Z.quot (- (total + ps - 1 - 2 ^ 64)) ps); [|lia].
    apply Z.quot_le_lower_bound; unfold max_int64 in *; lia.
Qed.

Lemma seqZ_snoc k : 0 <= k -> seqZ 0 (k + 1) = seqZ 0 k ++ [k].
Proof. intros H. rewrite seqZ_app by lia. f_equal. Qed.

Lemma sum_full_parts (f : Z -> Part) ps k : 0 <= k -> (forall i, 0 <= i < k -> PSize (f i) = ps) ->
  sumSizes (f <$> seqZ 0 k) = k * ps.
Proof.
  intros Hk. pattern k. apply natlike_ind; [done| |done]. clear k Hk. intros k Hk IH Hf.
  replace (Z.succ k) with (k + 1) by lia. rewrite seqZ_snoc, fmap_app, sumSizes_app by done.
  rewrite IH by (intros; apply Hf; lia). cbn. rewrite Hf by lia. lia.
Qed.

Lemma adaptive_size total : 0 < total <= MaxMultipartParts * MaxAdaptivePartSize ->
  let ps := CalcAdaptivePartSize total in
  total <= MaxMultipartParts * ps /\ defaultPartSize <= ps <= MaxAdaptivePartSize /\ ps mod 2 ^ 20 = 0.
Proof.
  intros Ht. unfold CalcAdaptivePartSize, MaxMultipartParts, defaultPartSize, MaxAdaptivePartSize in *.
  change (Z.shiftl 1 20) with 1048576. change (Z.shiftl 8 20) with (8 * 1048576).
  change (Z.shiftl 512 20) with (512 * 1048576) in *. change (2 ^ 20) with 1048576.
  rewrite wrap64_small by (unfold max_int64; lia). rewrite (Z.quot_div_nonneg (total + 9999)) by lia.
  pose proof (Z.div_mod (total + 9999) 10000 ltac:(lia)). pose proof (Z.mod_pos_bound (total + 9999) 10000 ltac:(lia)).
  set (q := (total + 9999) / 10000) in *. set (r := (total + 9999) mod 10000) in *.
  rewrite (Z.quot_div_nonneg (q + 1048576 - 1)) by lia.
  pose proof (Z.div_mod (q + 1048576 - 1) 1048576 ltac:(lia)).
  pose proof (Z.mod_pos_bound (q + 1048576 - 1) 1048576 ltac:(lia)).
  set (k := (q + 1048576 - 1) / 1048576) in *. set (m := (q + 1048576 - 1) mod 1048576) in *.
  assert (k <= 512) by lia. destruct (k * 1048576 <? 8 * 1048576) eqn:E1.
  - change (512 * 1048576 <? 8 * 1048576) with false. cbv iota. split_and!; try lia. reflexivity.
  - destruct (512 * 1048576 <? k * 1048576) eqn:E2; [lia|]. split_and!; try lia. by rewrite Z.mod_mul.
Qed.

(** C34: the layout of an upload.  For a positive size and part size whose sum, less one, is
    in the range of [int64], the computation does not panic, the parts are numbered from 1
    without a gap, they cover the file exactly, every part but the last has the part size
    and the last is neither empty nor larger; for a larger sum (and a part size up to 2^62)
    the computation panics.  With the part size that is chosen by [CalcAdaptivePartSize] a
    file of up to 10000 times 512 MiB is in this range and has at most 10000 parts, of
    between 8 MiB and 512 MiB and a whole number of mebibytes. *)
Theorem upload_layout total ps :
  0 < total <= max_int64 -> 0 < ps <= max_int64 ->
  let parts := CalcParts total ps in
  (total + ps - 1 <= max_int64 ->
     CalcPartsPanics total ps = false
     /\ Number <$> parts = seqZ 1 (zlen parts) /\ 0 < zlen parts /\ sumSizes parts = total
     /\ Forall (fun p => 0 < PSize p <= ps /\ (Number p < zlen parts -> PSize p = ps)) parts)
  /\ (max_int64 < total + ps - 1 -> ps <= 2 ^ 62 -> CalcPartsPanics total ps = true)
  /\ (total <= MaxMultipartParts * MaxAdaptivePartSize -> ps = CalcAdaptivePartSize total ->
      total + ps - 1 <= max_int64 /\ zlen parts <= MaxMultipartParts
      /\ defaultPartSize <= ps <= MaxAdaptivePartSize /\ ps mod 2 ^ 20 = 0).
Proof.
  intros Ht Hp parts.
  assert (total + ps - 1 <= max_int64 -> zlen parts = Z.quot (wrap64 (total + ps - 1)) ps) as Hlen.
  { intros Hm. unfold parts, CalcParts. rewrite (proj2 (Z.leb_gt ps 0)) by lia.
    destruct (parts_count total ps ltac:(lia) ltac:(lia) Hm) as (_ & Hn & _).
    unfold zlen. rewrite length_fmap, length_seqZ. lia. }
  split_and!.
  - intros Hm. specialize (Hlen Hm). rewrite Hlen. unfold parts, CalcParts, CalcPartsPanics.
    assert ((ps <=? 0) = false) as -> by lia. destruct (parts_count total ps ltac:(lia) ltac:(lia) Hm) as (_ & Hn & Hlo & Hhi).
    set (n := Z.quot (wrap64 (total + ps - 1)) ps) in *.
    set (f := fun i => {| Number := i + 1; PSize := if i =? n - 1 then total - i * ps else ps; ETag := "" |}).
    split_and!; [lia| |done|..].
    + rewrite <- list_fmap_compose. rewrite <- (Z.add_0_r 1) at 1. rewrite <- fmap_add_seqZ.
      apply list_fmap_ext. intros i x _. unfold f. cbn. lia.
    + replace n with ((n - 1) + 1) by lia. rewrite seqZ_snoc, fmap_app, sumSizes_app by lia.
      rewrite (sum_full_parts f ps) by (try lia; intros i Hi; unfold f; cbn; destruct (Z.eqb_spec i (n - 1)); lia).
      cbn. rewrite Z.eqb_refl. lia.
    + apply Forall_fmap, Forall_forall. intros i Hi%elem_of_seqZ. cbn. destruct (Z.eqb_spec i (n - 1)); subst; lia.
  - intros Hgt Hps. apply panics_spec; lia.
  - intros Hmax Hps. destruct (adaptive_size total ltac:(lia)) as (Hc & [H1 H2] & H3). rewrite <- Hps in *.
    assert (total + ps - 1 <= max_int64) as Hm.
    { unfold MaxMultipartParts, MaxAdaptivePartSize, max_int64 in *. change (Z.shiftl 512 20) with (512 * 1048576) in *. lia. }
    split_and!; try done. rewrite (Hlen Hm). destruct (parts_count total ps ltac:(lia) ltac:(lia) Hm) as (_ & Hn & Hlo & Hhi).
    unfold MaxMultipartParts in *. nia.
Qed.

Lemma upload_layout_witness :
  PSize <$> CalcParts 20000000 (CalcAdaptivePartSize 20000000) = [8388608; 8388608; 3222784]
  /\ sumSizes (CalcParts 20000000 (CalcAdaptivePartSize 20000000)) = 20000000
  /\ zlen (CalcParts 20000000 (CalcAdaptivePartSize 20000000)) <= 10000.
Proof.
  destruct (upload_layout 20000000 (CalcAdaptivePartSize 20000000) ltac:(vm_compute; split; congruence)
    ltac:(vm_compute; split; congruence)) as (Hl & _ & Ha).
  split; [vm_compute; reflexivity|]. split; [apply Hl; vm_compute; congruence|].
  apply Ha; [vm_compute; discriminate|reflexivity].
Defined.

(** ** An abort that overtakes a confirmation *)

Definition bigConfig : config :=
  {| smallInDB := true; inlineThreshold := 4; s3 := true; s3Mode := ""; s3KeyID := ""; databaseAutoEmbedding := false;
     maxUploadBytes := 1000; maxTenantStorageBytes := 0; maxMediaLLMFiles := 0; textExtractMaxBytes := 0;
     useServerQuota := false; objectGC := false; imageExtract := false; audioExtract := false |}.

Definition upEnv (n : string) (t : Z) : senv :=
  {| base := Content.demoEnv n t; newUploadID := "up" +:+ n; createMultipart := Some ("m" +:+ n); reserveOK := true;
     presignOK := true; listParts := Some [{| Number := 1; PSize := 20; ETag := "x" |}]; completeOK := true;
     assembled := "aaaaaaaaaaaaaaaaaaaa" |}.

(** The upload of [/big] after its initiation and after its confirmation. *)
Definition initiated : backend :=
  fst (InitiateUpload idStr bigConfig Content.emptyBackend (upEnv "1" 1) "/big" 20 [] (-1) "").
Definition confirmed : backend := fst (ConfirmUpload noType idStr bigConfig initiated (upEnv "2" 2) "up1" None).

(** An abort that has read the upload before the confirmation and goes on after it
    marks the file that was just published as deleted, without a cleanup
    task, although the name is left. *)
Lemma abort_overtakes_confirm :
  ReadCtx idStr bigConfig confirmed "/big" 0 (-1) = inl "aaaaaaaaaaaaaaaaaaaa"
  /\ match GetUpload (store initiated) "up1" with
     | inl upload =>
         let b := abortV2Read confirmed (upEnv "3" 3) upload in
         (status <$> inodes (store b) !! "f1") = Some StatusDeleted /\ is_Some (nodeAt (store b) "/big")
         /\ gc_tasks (store b) !! "f1" = None
     | inr _ => False
     end.
Proof.
  split; [vm_compute; reflexivity|]. destruct (GetUpload (store initiated) "up1") as [u|] eqn:E; [|by vm_compute in E].
  vm_compute in E. injection E as <-. split_and!; try (vm_compute; reflexivity).
  apply (bool_decide_eq_true_1 (is_Some _)). vm_compute. reflexivity.
Qed.

(** ** An upload that is left to expire *)

(** Long after its expiry the upload no longer counts as one for its path, but its row
    still has the status that the unique index covers: a new upload of the path is
    refused. *)
Lemma expired_upload_blocks_path :
  let later := 10 * uploadLifetime in
  GetUploadByPath (store initiated) "/big" later = None
  /\ snd (InitiateUpload idStr bigConfig initiated (upEnv "2" later) "/big" 20 [] (-1) "") = inr (Base (Store ErrUploadConflict)).
Proof. vm_compute. split; reflexivity. Qed.

End UploadProps.
