(* ===== verification/PlanProps.v ===== *)
(** * What read plans and patch uploads promise

    A read plan leads to the bytes that a read through the backend returns; the plan of an
    append, carried out, makes the object that holds the old bytes and the new ones; and
    the confirmation of an upload makes the target readable with exactly the bytes of the
    assembled object. *)

From Stdlib Require Import Strings.Ascii.
From S2P Require Import Prelude GoStrings PathUtil Json Sha256 SemanticQueue FileGCQueue FileStore FileRules FileSafety.
From S2P Require Import Media Backend BackendSafety BackendContent Uploads UploadSafety ObjectSafety UploadObjects StoreHistory.
From S2P Require Import UploadProps BackendPlans.

Import GoStr Paths FileStore FileRules FileSafety Media Backend BackendSafety Content Uploads UploadSafety ObjectSafety UploadObjects StoreHistory.
Import UploadProps Plans.

Module PlanProps.

#[local] Arguments String.append !_ _ / : simpl nomatch.

Section props.
Context (nfc typeByExtension toLower : string -> string) (cfg : config).

(** ** Read plans *)

(** What the client gets that follows a plan. *)
Definition follow (b : backend) (s : readSource) : string + backendError :=
  match s with
  | InlineData data => inl data
  | PresignURL key => match objects b !! key with Some data => inl data | None => inr ErrGetObject end
  end.

Lemma StatForRead_file d q id r f :
  filesOk d -> nodeAt d q = Some (id, r) -> file_id r = Some f -> (inode_id r = None \/ inode_id r = Some f) ->
  exists i, inodes d !! f = Some i
    /\ StatForRead d q = inl {| Node := nodeColumns (id, r); NFile := Some (readFile d f i); NMode := mode i;
                                HasMode := true |}.
Proof.
  intros H Hn Hf Hi. destruct (Stat_file d q id r f H Hn Hf) as (i & c & s & Ei & Ec & Es & _). exists i. split; [done|].
  unfold StatForRead, withJoin, joinInode. rewrite Hn. cbn [snd].
  assert (match inode_id r with Some i0 => Some i0 | None => file_id r end = Some f) as -> by (destruct Hi as [-> | ->]; done).
  rewrite Ei, bool_decide_true by done. done.
Qed.

(** A read plan and a read through the backend agree, for an entry without another inode. *)
Lemma plan_agrees b p q id r f :
  filesOk (store b) -> Canonicalize nfc p = inl q -> nodeAt (store b) q = Some (id, r) -> file_id r = Some f ->
  (inode_id r = None \/ inode_id r = Some f) ->
  match ReadPlanCtx nfc cfg (store b) true p with
  | inr err => ReadCtx nfc cfg b p 0 (-1) = inr err
  | inl plan =>
      ReadCtx nfc cfg b p 0 (-1) = follow b (source plan)
      /\ (exists i, inodes (store b) !! f = Some i /\ RSize plan = size_bytes i /\ RRevision plan = revision i)
      /\ (forall data, source plan = InlineData data <->
            exists plan', ReadInlinePlanCtx nfc (store b) p = inl plan' /\ source plan' = InlineData data)
  end.
Proof.
  intros H Hp Hn Hf Hi. rewrite (ReadCtx_whole nfc cfg b p q id r f) by done.
  destruct (StatForRead_file _ _ _ _ _ H Hn Hf Hi) as (i & Ei & Es).
  destruct (Stat_file _ q id r f H Hn Hf) as (i' & c & s & Ei' & Ec & _). simplify_eq.
  unfold ReadPlanCtx, ReadInlinePlanCtx. rewrite Hp, Es. cbn [Node NFile].
  assert (IsDirectory (nodeColumns (id, r)) = false) as ->.
  { cbn. apply (file_not_dir (store b) r f); [|done]. apply nodeAt_spec in Hn as [Hr _]. by apply (nodes_ok _ _ H id r). }
  unfold fileData, contentData, readFile. rewrite Ec. cbn.
  destruct (decide (storage_type c = "db9")) as [E|E].
  - rewrite E. cbn. split_and!; [done|by exists i|]. intros data. split; [|by intros (? & [= <-] & ?)].
    intros [= <-]. by eexists.
  - rewrite (bool_decide_false (storage_type c = "db9")) by done. destruct (decide (storage_type c = "s3")) as [E3|E3].
    + rewrite E3. cbn. destruct (s3 cfg); cbn; [|done]. split_and!; [done|by exists i|]. intros data.
      split; [done|by intros (? & ? & ?)].
    + rewrite (bool_decide_false (storage_type c = "s3")) by done. done.
Qed.

(** C17: a read plan and a read through the backend agree, in every history, when signing a link
    succeeds.  For every path
    that names a file, the plan fails exactly when, and as, the read fails before it gets
    to the object; otherwise following the plan (its inline bytes, or the object under the
    key that the client is redirected to) gives what the read gives, with the size and the
    revision of the file; and a plan is inline exactly when the inline plan is offered.  With
    object storage configured there is such a plan, and following it gives bytes. *)
Theorem read_plan_agrees legacy w p q id r :
  reachable nfc typeByExtension toLower cfg legacy w -> Canonicalize nfc p = inl q ->
  nodeAt (store (be w)) q = Some (id, r) -> is_directory r = false ->
  match ReadPlanCtx nfc cfg (store (be w)) true p with
  | inr err => ReadCtx nfc cfg (be w) p 0 (-1) = inr err /\ s3 cfg = false
  | inl plan =>
      ReadCtx nfc cfg (be w) p 0 (-1) = follow (be w) (source plan)
      /\ (s3 cfg = true -> exists data, follow (be w) (source plan) = inl data)
      /\ (exists f i, file_id r = Some f /\ inodes (store (be w)) !! f = Some i /\ RSize plan = size_bytes i
            /\ RRevision plan = revision i)
      /\ (forall data, source plan = InlineData data <->
            exists plan', ReadInlinePlanCtx nfc (store (be w)) p = inl plan' /\ source plan' = InlineData data)
  end.
Proof.
  intros Hr Hp Hn Hd. destruct (reachable_ok _ _ _ _ _ _ Hr) as [H [Hb _] _ _].
  pose proof (nodeAt_spec _ _ _ _ Hn) as [Hrow _]. pose proof (nodes_ok _ _ H id r Hrow) as [Hdir Hlive].
  destruct (file_id r) as [f|] eqn:Hf; [|by rewrite (proj2 Hdir eq_refl) in Hd].
  pose proof (plan_agrees (be w) p q id r f H Hp Hn Hf
    (or_introl (reachable_bare _ _ _ _ _ _ Hr id r Hrow Hd))) as Ha.
  assert (s3 cfg = true -> exists data, ReadCtx nfc cfg (be w) p 0 (-1) = inl data) as Hread.
  { intros Hs3. rewrite (ReadCtx_whole nfc cfg (be w) p q id r f) by done. destruct (Hlive f eq_refl) as [_ Hl].
    by apply (live_data nfc typeByExtension toLower cfg legacy w f). }
  destruct (ReadPlanCtx nfc cfg (store (be w)) true p) as [plan|err].
  - destruct Ha as (E & (i & Hi & Hz & Hv) & Hin). split_and!; [done| |by exists f, i|done]. by rewrite <- E.
  - split; [done|]. destruct (s3 cfg) eqn:Hs3; [|done]. destruct (Hread eq_refl) as [data E]. congruence.
Qed.

(** ** Cutting a text into parts *)

Abbreviation chars := String.list_ascii_of_string.

(** [n] bytes from [a]. *)
Definition slice (a n : Z) (s : string) : string := String.substring (Z.to_nat a) (Z.to_nat n) s.

Lemma chars_slice a n s : chars (slice a n s) = take (Z.to_nat n) (drop (Z.to_nat a) (chars s)).
Proof. apply chars_substring. Qed.

Lemma chars_inj s t : chars s = chars t -> s = t.
Proof.
  intros E. rewrite <- (String.string_of_list_ascii_of_string s), E. apply String.string_of_list_ascii_of_string.
Qed.

(** The bytes of a part of a text that is cut into parts of [ps] bytes. *)
Definition partOf (ps : Z) (s : string) (p : Part) : string := slice ((Number p - 1) * ps) (PSize p) s.

Definition joinAll (l : list string) : string := foldr (fun x y => x +:+ y) "" l.

Lemma chars_joinAll l : chars (joinAll l) = concat (chars <$> l).
Proof.
  induction l as [|s l IH]; [done|]. change (joinAll (s :: l)) with (s +:+ joinAll l). rewrite chars_app, IH. done.
Qed.

Lemma take_parts {A} (l : list A) ps k : 0 <= k -> 0 < ps ->
  concat ((fun i => take (Z.to_nat ps) (drop (Z.to_nat (i * ps)) l)) <$> seqZ 0 k) = take (Z.to_nat (k * ps)) l.
Proof.
  intros Hk Hp. pattern k. apply natlike_ind; [done| |done]. clear k Hk. intros k Hk IH.
  replace (Z.succ k) with (k + 1) by lia. rewrite seqZ_snoc, fmap_app, concat_app, IH by done. cbn. rewrite app_nil_r.
  replace (Z.to_nat ((k + 1) * ps)) with (Z.to_nat (k * ps) + Z.to_nat ps)%nat by lia.
  rewrite <- (take_drop (Z.to_nat (k * ps)) l) at 3. destruct (Nat.le_gt_cases (Z.to_nat (k * ps)) (length l)).
  - rewrite <- (length_take_le l (Z.to_nat (k * ps))) at 3 by done. by rewrite take_app_add.
  - rewrite (drop_ge l) by lia. rewrite take_nil, !app_nil_r. rewrite (take_ge (take _ l)); [done|].
    rewrite length_take. lia.
Qed.

(** The parts of a layout put together are the text. *)
Lemma parts_join total ps s : 0 < total -> 0 < ps -> total + ps - 1 <= max_int64 -> slen s = total ->
  joinAll (partOf ps s <$> CalcParts total ps) = s.
Proof.
  intros Ht Hp Hm Hs. apply chars_inj. rewrite chars_joinAll, <- list_fmap_compose. unfold CalcParts.
  rewrite (proj2 (Z.leb_gt ps 0) Hp). destruct (parts_count total ps Ht Hp Hm) as (_ & Hn & Hlo & Hhi).
  set (n := Z.quot (wrap64 (total + ps - 1)) ps) in *. rewrite <- list_fmap_compose.
  rewrite (list_fmap_ext _ (fun i => take (Z.to_nat ps) (drop (Z.to_nat (i * ps)) (chars s))) (seqZ 0 n)).
  - rewrite take_parts by lia. rewrite take_ge; [done|]. rewrite chars_length. unfold slen in Hs. nia.
  - intros j i Hj%lookup_seqZ. cbn. unfold partOf. cbn. rewrite chars_slice. replace (i + 1 - 1) with i by lia.
    destruct (Z.eqb_spec i (n - 1)); [|done]. subst i. unfold slen in Hs.
    rewrite (take_ge _ (Z.to_nat ps)), take_ge; [done|..]; rewrite length_drop, chars_length; nia.
Qed.

Lemma slen_nonneg s : 0 <= slen s.
Proof. unfold slen. lia. Qed.

Lemma slen_app s t : slen (s +:+ t) = slen s + slen t.
Proof. unfold slen. rewrite <- !chars_length, chars_app, length_app. lia. Qed.

Lemma slen_slice a n s : 0 <= a -> 0 <= n -> a + n <= slen s -> slen (slice a n s) = n.
Proof.
  intros. unfold slen in *. rewrite <- chars_length, chars_slice, length_take, length_drop, chars_length. lia.
Qed.

Lemma slice_app a n s t : 0 <= a -> 0 <= n ->
  slice a n (s +:+ t) = slice a n s +:+ slice (a - slen s) (n - Z.max 0 (slen s - a)) t.
Proof.
  intros. apply chars_inj. rewrite chars_app, !chars_slice, chars_app, drop_app, take_app, length_drop, chars_length.
  unfold slen. do 3 f_equal; lia.
Qed.

Lemma slice_clip a n m s : 0 <= a -> slen s - a <= n -> slen s - a <= m -> slice a n s = slice a m s.
Proof.
  intros. apply chars_inj. rewrite !chars_slice. unfold slen in *.
  rewrite !take_ge; [done|..]; rewrite length_drop, chars_length; lia.
Qed.

Lemma slice_none a n s : n <= 0 -> slice a n s = "".
Proof. intros. apply chars_inj. rewrite chars_slice. by rewrite Z2Nat.nonpos. Qed.

Lemma zlen_parts total ps : 0 < total -> 0 < ps -> total + ps - 1 <= max_int64 ->
  zlen (CalcParts total ps) = Z.quot (total + ps - 1) ps.
Proof.
  intros Ht Hp Hm. unfold CalcParts. rewrite (proj2 (Z.leb_gt ps 0) Hp). unfold zlen. rewrite length_fmap, length_seqZ.
  destruct (parts_count total ps Ht Hp Hm) as (-> & ? & _). lia.
Qed.

Lemma parts_elem total ps p : 0 < total -> 0 < ps -> total + ps - 1 <= max_int64 -> p ∈ CalcParts total ps ->
  1 <= Number p /\ 0 < PSize p <= ps /\ (Number p - 1) * ps + PSize p <= total.
Proof.
  intros Ht Hp Hm. unfold CalcParts. rewrite (proj2 (Z.leb_gt ps 0) Hp).
  destruct (parts_count total ps Ht Hp Hm) as (_ & Hn & Hlo & Hhi). set (n := Z.quot (wrap64 (total + ps - 1)) ps) in *.
  intros (i & -> & Hi%elem_of_seqZ)%list_elem_of_fmap. cbn. destruct (Z.eqb_spec i (n - 1)); [subst i; nia|].
  split_and!; try lia. nia.
Qed.

(** ** Patches *)

Lemma collect_parts {A B E} (f : A -> B + E) l xs : collect f l = inl xs -> Forall2 (fun a x => f a = inl x) l xs.
Proof.
  revert xs. induction l as [|a l IH]; intros xs; cbn; [by intros [= <-]; constructor|].
  destruct (f a) eqn:Ef; [|done]. destruct (collect f l); [|done]. intros [= <-]. constructor; auto.
Qed.

(** What a part of a plan puts into the new object, with the parts of the client. *)
Definition pieceBytes (old : string) (client : Z -> string) (x : partPlan) : string :=
  match x with
  | CopiedPart _ _ a z => slice a (z - a + 1) old
  | UploadPart k _ _ => client k
  end.

(** A plan in which every part that is copied is whole and unchanged makes the new text,
    with the parts that the upload expects. *)
Lemma plan_rebuilds e key ps total dirty old new client plan :
  0 < total -> 0 < ps -> total + ps - 1 <= max_int64 -> slen new = total ->
  collect (planPart e key ps (slen old) (partCount (slen old) ps) dirty) (CalcParts total ps) = inl plan ->
  (forall p, p ∈ CalcParts total ps -> client (Number p) = partOf ps new p) ->
  (forall p, p ∈ CalcParts total ps -> Number p ∉ dirty -> Number p <= partCount (slen old) ps ->
     (Number p - 1) * ps + PSize p <= slen old /\ partOf ps old p = partOf ps new p) ->
  joinAll (pieceBytes old client <$> plan) = new
  /\ slen <$> (pieceBytes old client <$> plan) = PSize <$> CalcParts total ps.
Proof.
  intros Ht Hp Hm Hs Hc%collect_parts Hcl Hun.
  assert (pieceBytes old client <$> plan = partOf ps new <$> CalcParts total ps) as E.
  { clear -Hc Hcl Hun Ht Hp Hm.
    assert (forall p, p ∈ CalcParts total ps -> 0 < PSize p) as Hpos by (intros p Hin; by apply (parts_elem total ps)).
    revert Hcl Hun Hpos. induction Hc as [|p x l xs Hx _ IH]; intros Hcl Hun Hpos; [done|]. cbn. f_equal.
    - unfold planPart, partRange in Hx. destruct (negb (bool_decide (Number p ∈ dirty)) && _) eqn:Ed.
      + apply andb_true_iff in Ed as [Ed1 Ed2]. apply negb_true_iff, bool_decide_eq_false in Ed1. apply Z.leb_le in Ed2.
        destruct (copyOK e (Number p)); [|done]. injection Hx as <-. cbn.
        destruct (Hun p ltac:(left) Ed1 Ed2) as [Hfit <-]. specialize (Hpos p ltac:(left)).
        destruct (Z.leb_spec (slen old) ((Number p - 1) * ps + PSize p - 1)); [lia|]. unfold partOf. f_equal. lia.
      + destruct (presignPart e (Number p)); [|done]. injection Hx as <-. cbn. apply Hcl. left.
    - apply IH; intros p' Hp'; [apply Hcl|apply Hun|apply Hpos]; by right. }
  rewrite E. split; [by apply parts_join|]. rewrite <- list_fmap_compose. apply list_fmap_ext. intros j p Hj. cbn.
  apply list_elem_of_lookup_2, parts_elem in Hj; [|done..]. apply slen_slice; nia.
Qed.

(** ** Appends *)

Lemma adaptive_min total : 0 <= total -> MinPartSize <= CalcAdaptivePartSize total.
Proof.
  intros Ht. unfold CalcAdaptivePartSize, MinPartSize, defaultPartSize, MaxAdaptivePartSize.
  match goal with |- context [if ?x <? Z.shiftl 8 20 then _ else _] => set (q := x) end.
  change (Z.shiftl 8 20) with 8388608. change (Z.shiftl 512 20) with 536870912. change (Z.shiftl 5 20) with 5242880.
  destruct (Z.ltb_spec q 8388608).
  - change (536870912 <? 8388608) with false. lia.
  - destruct (Z.ltb_spec 536870912 q); lia.
Qed.

(** The parts that an append does not name lie within the old bytes. *)
Lemma append_clean base n ps k :
  0 <= base -> 0 < n -> 0 < ps -> base + n + ps - 1 <= max_int64 -> 1 <= k -> k ∉ appendDirtyPartNumbers base (base + n) ps ->
  k <= partCount base ps -> k * ps <= base.
Proof.
  intros Hb Hn Hp Hm Hk Hd Hc. unfold appendDirtyPartNumbers in Hd.
  destruct (Z.leb_spec (base + n) base); [lia|]. destruct (Z.leb_spec ps 0); [lia|]. cbn [orb] in Hd.
  assert (0 < base) as Hpos. { unfold partCount in Hc. destruct (Z.ltb_spec 0 base); lia. }
  assert (partCount base ps = Z.quot (base + ps - 1) ps) as Epc.
  { unfold partCount. rewrite (proj2 (Z.ltb_lt 0 base) Hpos). apply zlen_parts; lia. }
  destruct (parts_count base ps Hpos Hp ltac:(lia)) as (Eq1 & Hn1 & Hlo & Hhi). rewrite Eq1, <- Epc in *. set (N := partCount base ps) in *.
  rewrite (proj2 (Z.ltb_lt 0 base) Hpos) in Hd. cbn [andb] in Hd.
  destruct (Z.eqb_spec (Z.rem base ps) 0) as [E|E].
  - destruct (Z.eq_dec k N) as [->|]; [|nia]. pose proof (Z.quot_rem' base ps) as Eq. set (c := Z.quot base ps) in *.
    assert (N - 1 < c) by nia. nia.
  - cbn [negb] in Hd. rewrite (bool_decide_false (_ = [])) in Hd by done. cbn [andb] in Hd.
    assert (k <> N) as Hne. { intros ->. apply Hd. left. } nia.
Qed.

Lemma uploadOf_run e u b b' :
  run (patchTx cfg e u) b = (b', inl tt) -> uploads (store b') !! UploadID u = Some (uploadRow u).
Proof.
  intros [Hr _]%run_inl. revert Hr.
  assert (wp (patchTx cfg e u) (fun _ d' => uploads d' !! UploadID u = Some (uploadRow u)) (store b)) as Hw.
  { unfold patchTx. wp_step. apply ensureStorageQuota_wp. wp_step. wp_apply InsertFileTx_new. intros [] d1 _.
    unfold InsertUploadTx. wp_steps. cbn. by rewrite lookup_insert_eq. }
  intros Hr. exact (wp_inl _ _ _ _ _ Hw Hr).
Qed.

(** A patch that succeeds: its plan and its upload. *)
Lemma patch_succeeds b e p q n dirty cps r b' plan f :
  Canonicalize nfc p = inl q -> patchTarget cfg b q r = inl f ->
  InitiatePatchUpload nfc cfg b e p n dirty cps r = (b', inl plan) ->
  let ps := if cps <? MinPartSize then defaultPartSize else cps in
  PlanPartSize plan = ps /\ ps <= MaxPartSize /\ CalcPartsPanics n ps = false
  /\ collect (planPart e (StorageRef f) ps (SizeBytes f) (partCount (SizeBytes f) ps) dirty) (CalcParts n ps)
     = inl (PlanParts plan)
  /\ exists u, uploads (store b') !! PlanUploadID plan = Some u /\ TargetPath u = q /\ TotalSize u = n
       /\ PartSize u = ps /\ PartsTotal u = zlen (CalcParts n ps) /\ UStatus u = UploadUploading
       /\ S3Key u = "blobs/" +:+ newFileID (base (up e)).
Proof.
  intros Hp Hf H ps. unfold InitiatePatchUpload in H. destruct (negb (ensureUploadSizeAllowed cfg n)); [done|].
  rewrite Hp, Hf in H. destruct (GetUploadByPath _ _ _); [done|]. fold ps in H. cbv zeta in H.
  destruct (Z.ltb_spec MaxPartSize ps); [done|]. destruct (CalcPartsPanics n ps) eqn:Epan; [done|].
  destruct (MaxMultipartParts <? _); [done|]. destruct (createMultipart (up e)) as [mpu|]; [|done].
  destruct (_ && CalcPartsPanics _ ps); [done|]. destruct (collect _ _) as [l|]; [|done].
  destruct (negb (reserveOK (up e))); [done|].
  destruct (run _ b) as [b1 [[]|]] eqn:Hr; [|done]. injection H as <- <-. cbn [PlanPartSize PlanParts PlanUploadID].
  split_and!; [done|done|done|done|]. apply uploadOf_run in Hr. cbn in Hr |- *. eexists. split; [exact Hr|]. done.
Qed.

(** A part of an append consists of bytes that its read range covers and of appended bytes. *)
Lemma append_part_source old data ps n p :
  0 < ps -> 0 < n -> slen old + n + ps - 1 <= max_int64 -> p ∈ CalcParts (slen old + n) ps ->
  let '(a, z) := partRange ps (slen old) p in
  exists x y, partOf ps (old +:+ data) p
    = (if Number p <=? partCount (slen old) ps then slice a (z - a + 1) old else "") +:+ slice x y data.
Proof.
  intros Hp Hn Hm Hin. pose proof (slen_nonneg old) as Ho.
  destruct (parts_elem (slen old + n) ps p ltac:(lia) Hp Hm Hin) as (H1 & H2 & H3).
  unfold partRange. set (a := (Number p - 1) * ps). assert (0 <= a) as Ha by nia.
  eexists _, _. unfold partOf. fold a. rewrite slice_app by lia. f_equal.
  assert (Number p <= partCount (slen old) ps <-> a < slen old) as Hcount.
  { unfold partCount. destruct (Z.ltb_spec 0 (slen old)); [|lia]. rewrite zlen_parts by lia.
    destruct (parts_count (slen old) ps ltac:(lia) Hp ltac:(lia)) as (<- & ? & ? & ?). split; intros; nia. }
  destruct (Z.leb_spec (Number p) (partCount (slen old) ps)).
  - destruct (Z.leb_spec (slen old) (a + PSize p - 1)); [|f_equal; lia]. apply slice_clip; lia.
  - rewrite (slice_clip a (PSize p) 0) by lia. by apply slice_none.
Qed.

Lemma append_size base n : 0 <= base <= max_int64 -> 0 < n <= max_int64 ->
  (wrap64 (base + n) <? base) = false -> wrap64 (base + n) = base + n.
Proof.
  intros Hb Hn Hw. apply Z.ltb_ge in Hw. unfold wrap64, max_int64 in *. 
  destruct (Z.le_gt_cases (base + n) (2 ^ 63 - 1)); [rewrite Z.mod_small; lia|].
  assert ((base + n + 2 ^ 63) mod 2 ^ 64 = base + n - 2 ^ 63) as E.
  { symmetry. apply (Z.mod_unique_pos _ _ 1); lia. }
  lia.
Qed.

Lemma planned_upload e key ps orig count dirty l plan k size rd :
  collect (planPart e key ps orig count dirty) l = inl plan -> UploadPart k size rd ∈ plan ->
  exists p, p ∈ l /\ Number p = k /\ PSize p = size
    /\ rd = (if (k <=? count) && presignRead e k then Some (partRange ps orig p) else None).
Proof.
  intros Hc%collect_parts Hin. apply list_elem_of_lookup in Hin as [j Hj].
  destruct (Forall2_lookup_r _ _ _ _ _ Hc Hj) as (p & Hl & Hp). exists p. split; [by eapply list_elem_of_lookup_2|].
  unfold planPart in Hp. destruct (partRange ps orig p) as [a z]. destruct (negb (bool_decide _) && _).
  { by destruct (copyOK e (Number p)). }
  destruct (negb (presignPart e (Number p))); [done|]. by injection Hp as <- <- <-.
Qed.

(** The plan of an append that succeeds. *)
Lemma append_succeeds b e p q nd f n cps r b' baseSize plan :
  Canonicalize nfc p = inl q -> Canonicalize nfc q = inl q -> Stat (store b) q = inl (nd, Some f) ->
  0 <= SizeBytes f <= max_int64 -> n <= max_int64 ->
  InitiateAppendUpload nfc cfg b e p n cps r = (b', inl (baseSize, plan)) ->
  let ps := PlanPartSize plan in
  0 < n /\ 0 < ps /\ baseSize = SizeBytes f /\ baseSize + n + ps - 1 <= max_int64
  /\ collect (planPart e (StorageRef f) ps baseSize (partCount baseSize ps) (appendDirtyPartNumbers baseSize (baseSize + n) ps))
       (CalcParts (baseSize + n) ps) = inl (PlanParts plan)
  /\ exists u, uploads (store b') !! PlanUploadID plan = Some u /\ TargetPath u = q /\ TotalSize u = baseSize + n
       /\ PartSize u = ps /\ PartsTotal u = zlen (CalcParts (baseSize + n) ps) /\ UStatus u = UploadUploading
       /\ S3Key u = "blobs/" +:+ newFileID (base (up e)).
Proof.
  intros Hp Hq Hst Hb Hn H. unfold InitiateAppendUpload in H. destruct (Z.leb_spec n 0); [done|]. rewrite Hp in H.
  destruct (patchTarget cfg b q r) as [f'|] eqn:Ht; [|done].
  assert (f' = f) as ->.
  { unfold patchTarget in Ht. rewrite Hst in Ht. repeat case_match; try done; by injection Ht. }
  destruct (wrap64 (SizeBytes f + n) <? SizeBytes f) eqn:Ew; [done|]. rewrite (append_size _ n Hb ltac:(lia) Ew) in H.
  set (ps0 := if cps <? MinPartSize then CalcAdaptivePartSize (SizeBytes f) else cps) in H.
  set (ps := if MaxMultipartParts <? zlen (CalcParts (SizeBytes f + n) ps0) then CalcAdaptivePartSize (SizeBytes f + n)
             else ps0) in H. cbv zeta in H. destruct (CalcPartsPanics _ ps0); [done|].
  destruct (CalcPartsPanics _ ps || _); [done|].
  assert (MinPartSize <= ps) as Hmin.
  { unfold ps, ps0. destruct (_ <? zlen _); [apply adaptive_min; lia|].
    destruct (Z.ltb_spec cps MinPartSize); [apply adaptive_min; lia|done]. }
  destruct (InitiatePatchUpload _ _ _ _ _ _ _ _ _) as [b1 [pl|]] eqn:Hi; [|done]. injection H as <- <- <-.
  destruct (patch_succeeds _ _ _ _ _ _ _ _ _ _ _ Hq Ht Hi) as (Eps & Hmax & Hpan & Hc & Hu).
  rewrite (proj2 (Z.ltb_ge ps MinPartSize) Hmin) in Eps, Hmax, Hpan, Hc, Hu. rewrite Eps.
  assert (0 < MinPartSize) by done. assert (MaxPartSize <= 2 ^ 62) by done.
  pose proof (append_size _ n Hb ltac:(lia) Ew) as Esz. pose proof (wrap64_range (SizeBytes f + n)) as Hrange.
  assert (SizeBytes f + n + ps - 1 <= max_int64) as Hm.
  { destruct (Z.le_gt_cases (SizeBytes f + n + ps - 1) max_int64) as [|Hgt]; [done|].
    rewrite (proj2 (panics_spec (SizeBytes f + n) ps ltac:(lia) ltac:(lia))) in Hpan by lia. done. }
  split_and!; try done; lia.
Qed.

(** C18: an append rebuilds the file.  When an append is initiated on a file whose object
    holds [old], the plan that comes back covers the new size without overflow, and if
    the client uploads the parts of [old ++ data] that the plan asks for, then the parts
    that were copied inside object storage and the parts of the client make, in order,
    exactly [old ++ data].  Every part has the size that the recorded upload expects, so
    the confirmation will accept them, and what the client needs for a part are the
    old bytes that its read range covers followed by appended bytes, nothing else. *)
Theorem append_rebuilds b e p q nd f n cps r b' baseSize plan old data client :
  Canonicalize nfc p = inl q -> Canonicalize nfc q = inl q -> Stat (store b) q = inl (nd, Some f) ->
  objects b !! StorageRef f = Some old -> slen old = SizeBytes f -> slen old <= max_int64 -> slen data = n ->
  n <= max_int64 -> InitiateAppendUpload nfc cfg b e p n cps r = (b', inl (baseSize, plan)) ->
  (forall x, x ∈ CalcParts (baseSize + n) (PlanPartSize plan) ->
     client (Number x) = partOf (PlanPartSize plan) (old +:+ data) x) ->
  joinAll (pieceBytes old client <$> PlanParts plan) = old +:+ data
  /\ (exists u, uploads (store b') !! PlanUploadID plan = Some u /\ TargetPath u = q /\ UStatus u = UploadUploading
        /\ TotalSize u = slen old + slen data /\ S3Key u = "blobs/" +:+ newFileID (base (up e))
        /\ slen <$> (pieceBytes old client <$> PlanParts plan) = PSize <$> CalcParts (TotalSize u) (PartSize u))
  /\ (forall k size rd, UploadPart k size rd ∈ PlanParts plan -> presignRead e k = true ->
        exists x y, client k = match rd with Some (a, z) => slice a (z - a + 1) old | None => "" end +:+ slice x y data).
Proof.
  intros Hp Hq Hst Ho Hlen Hb Hd Hn H Hcl. pose proof (slen_nonneg old).
  destruct (append_succeeds _ _ _ _ _ _ _ _ _ _ _ _ Hp Hq Hst ltac:(lia) Hn H) as (Hn0 & Hps & -> & Hm & Hc & u & Hu & E1 & E2 & E3 & E4 & E5 & E6).
  set (ps := PlanPartSize plan) in *. rewrite <- Hlen in *.
  assert (slen (old +:+ data) = slen old + n) as Hnew by (rewrite slen_app; lia).
  destruct (plan_rebuilds e (StorageRef f) ps (slen old + n) _ old (old +:+ data) client (PlanParts plan) ltac:(lia) Hps Hm Hnew Hc Hcl)
    as [Hj Hs].
  { intros x Hx Hclean Hle. destruct (parts_elem (slen old + n) ps x ltac:(lia) Hps Hm Hx) as (H1 & H2 & H3).
    pose proof (append_clean (slen old) n ps (Number x) ltac:(lia) Hn0 Hps Hm H1 Hclean Hle). split; [nia|].
    unfold partOf. rewrite slice_app by nia. rewrite (slice_none (_ - _)) by nia. by rewrite string_app_nil_r. }
  split_and!; [done|exists u; rewrite E2, E3; split_and!; try done; lia|].
  intros k size rd Hin Hrd. destruct (planned_upload _ _ _ _ _ _ _ _ _ _ _ Hc Hin) as (x & Hx & <- & <- & ->).
  rewrite Hrd, andb_true_r, (Hcl x Hx). pose proof (append_part_source old data ps n x Hps Hn0 Hm Hx) as Hsrc.
  destruct (partRange ps (slen old) x) as [a z]. destruct (Number x <=? _); exact Hsrc.
Qed.

(** ** Confirmations *)

(** The file [f] has the object of the upload, and no content but its own and that of the
    upload's pending file has changed. *)
Definition published (u : Upload) (f : string) (d d' : db) : Prop :=
  (exists c, contents d' !! f = Some c /\ storage_type c = "s3" /\ storage_ref c = S3Key u)
  /\ forall g, g <> f -> g <> UFileID u -> contents d' !! g = contents d !! g.

Lemma published_keeps {A} u f d0 (m : tx A) d :
  keeps contents m -> published u f d0 d -> wp m (fun _ d' => published u f d0 d') d.
Proof. intros Hk Hs. wp_apply Hk. intros a d' E. unfold published. by rewrite E. Qed.

Definition uploadPlacement (u : Upload) : placement :=
  {| plType := "s3"; plRef := S3Key u; plMode := ""; plKeyID := ""; plBlob := "" |}.

Lemma keeps_nodes_pending f now : keeps file_nodes (DeletePendingFileTx f now).
Proof. unfold DeletePendingFileTx, updateLegacy, updateInode, updateContent. keeps_tac. Qed.

Lemma keeps_nodes_tags f tags : keeps file_nodes (replaceTags f tags).
Proof. unfold replaceTags, ReplaceFileTagsTx, insertTag. keeps_tac. Qed.

Lemma keeps_nodes_semantic e f rev p ct text descr : keeps file_nodes (enqueueSemanticTx toLower cfg e f rev p ct text descr).
Proof. unfold enqueueSemanticTx, enqueueTiDBAutoSemanticTasksTx, enqueueEmbedTaskTx, enqueueTaskTx. keeps_tac. Qed.

Lemma keeps_nodes_finalize e u f ct tags : keeps file_nodes (finalizeOverwriteTx toLower cfg e u f ct tags).
Proof.
  pose proof keeps_nodes_pending as Hp.
  unfold finalizeOverwriteTx, updateFileContentTx, updateLegacyContentTx, UpdateInodeContentTx, UpdateContentTx, updateInode,
    updateContent, updateSemanticNoEmbedTx, UpdateSemanticTx, updateSemantic, UpdateFileStorageEncryptionTx, updateLegacy,
    updateContent, replaceTags, ReplaceFileTagsTx, insertTag, enqueueSemanticTx, enqueueTiDBAutoSemanticTasksTx,
    enqueueEmbedTaskTx, enqueueTaskTx. keeps_tac.
Qed.

Lemma finalizeOverwriteTx_published e u f ct tags d :
  filesOk d -> live d f -> f <> UFileID u ->
  wp (finalizeOverwriteTx toLower cfg e u f ct tags) (fun _ d' => published u f d d') d.
Proof.
  intros H (i & c & Hi & Hc & Hs) Hne. unfold finalizeOverwriteTx. wp_steps.
  unfold GetFileStorageMetaForUpdateTx. rewrite Hi, Hc, bool_decide_true by done. wp_steps.
  match goal with |- wp (updateFileContentTx ?g ?x ?p ?v ?t) _ _ =>
    destruct (updateFileContentTx_exact _ g i c x p v t d H Hi Hc Hs) as (l & _ & E) end.
  unfold wp at 1. rewrite E. clear E. case_if; [done|]. wp_steps.
  wp_apply (encryption_stored (uploadPlacement u) f _ _ d).
  { split; cbn; [|intros g Hgf; by rewrite lookup_insert_ne]. rewrite lookup_insert_eq. eexists. done. }
  intros [] d2 H2. wp_steps. wp_apply stored_keeps; [apply keeps_contents_tags|done|]. intros [] d3 [(c3 & Hc3 & T3 & R3 & _) Ho].
  wp_steps. unfold DeletePendingFileTx, updateLegacy, updateInode, updateContent. wp_steps.
  wp_apply published_keeps; [apply keeps_contents_semantic| |intros [] d5 H5; wp_steps; exact H5].
  split; cbn.
  - exists c3. by rewrite lookup_alter_ne.
  - intros g Hgf Hgu. rewrite lookup_alter_ne by done. by apply Ho.
Qed.

Lemma finalizeCreateTx_published e u ct tags d :
  is_Some (contents d !! UFileID u) ->
  wp (finalizeCreateTx toLower cfg e u ct tags) (fun _ d' => published u (UFileID u) d d' /\ entriesKept d d'
    /\ file_nodes d' !! newNodeID (base e)
       = Some (rowOfNode (fileNode (newNodeID (base e)) (TargetPath u) (UFileID u) (now (base e))))) d.
Proof.
  intros [c Hc]. unfold finalizeCreateTx. wp_steps.
  assert (wp (confirmPendingTx (databaseAutoEmbedding cfg) (UFileID u) (uploadUpdate u ct) (now (base e)))
    (fun _ d' => published u (UFileID u) d d' /\ file_nodes d' = file_nodes d) d) as Hcp.
  { unfold confirmPendingTx, requirePending, updateLegacy, UpdateInodeContentTx, UpdateContentTx, updateInode, updateContent,
      UpdateSemanticTx, updateSemanticNoEmbedTx, updateSemantic. wp_steps.
    repeat (case_if || wp_step); (split; [|done]); split; cbn; try (rewrite lookup_alter_eq, Hc; by eexists);
      intros g Hgf _; by rewrite lookup_alter_ne. }
  wp_apply Hcp. intros [] d1 [[(c1 & Hc1 & T1 & R1) Ho1] En1]. wp_steps.
  pose proof (InsertNodeTx_kept (fileNode (newNodeID (base e)) (TargetPath u) (UFileID u) (now (base e))) d1) as Hi.
  unfold mapError. unfold wp in Hi |- * at 1. destruct (InsertNodeTx _ d1) as [[d2 []]|]; [|done].
  destruct Hi as (Hk2 & Hn2 & Ec2). wp_steps.
  wp_apply (wp_and (replaceTags (UFileID u) tags)); [apply keeps_contents_tags|
    apply (keeps_nodes_tags (UFileID u) tags)|]. intros [] d3 [Ec3 En3]. wp_steps.
  wp_apply wp_and; [apply keeps_contents_semantic|apply keeps_nodes_semantic|]. intros [] d4 [Ec4 En4]. wp_steps.
  unfold published. rewrite Ec4, Ec3, Ec2. split_and!; [by exists c1|done| |by rewrite En4, En3].
  eapply entriesKept_trans; [by apply (entriesKept_refl d d1)|]. eapply entriesKept_trans; [exact Hk2|].
  apply entriesKept_refl. by rewrite En4, En3.
Qed.

(** The entry at a path and the file it leads to. *)
Definition leads (d : db) (q f : string) : Prop :=
  exists id r, file_nodes d !! id = Some r /\ path r = q /\ file_id r = Some f.

Lemma leads_fileAt d q f : filesOk d -> leads d q f -> fileAt d q = Some f.
Proof.
  intros H (id & r & Hr & Hp & Hf). unfold fileAt. by rewrite (nodeAt_unique _ _ _ _ (unique_paths _ _ H) Hr Hp).
Qed.

Lemma finalizeTx_published e u tags d :
  filesOk d -> uploads d !! UploadID u = Some u -> UStatus u = UploadUploading ->
  wp (finalizeTx typeByExtension toLower cfg e u tags)
    (fun _ d' => exists f, leads d' (TargetPath u) f /\ (forall g, fileAt d (TargetPath u) = Some g -> f = g)
       /\ published u f d d' /\ entriesKept d d') d.
Proof.
  intros H Hu Hs. assert (isActive u = true) as Ha by (unfold isActive; by rewrite Hs).
  destruct (upload_pending _ _ _ (uploads_ok _ _ H) _ u Hu Ha) as [Hf (ip & cp & Hip & Hcp & Hsp)].
  unfold finalizeTx. wp_steps. wp_apply setUploadStatus_ok; [done..|].
  intros [] d1 (H1 & En1 & Ei1 & Ec1 & _). wp_steps.
  wp_apply wp_and; [by apply EnsureParentDirsTx_ok|apply wp_and; [apply EnsureParentDirsTx_frame|apply wp_and;
    [apply EnsureParentDirsTx_kept|apply EnsureParentDirsTx_quiet]]|].
  intros [] d2 (H2 & (Ec2 & _) & Hk2 & Q2). wp_steps.
  assert (entriesKept d d2) as Hk by (eapply entriesKept_trans; [by apply (entriesKept_refl d d1)|exact Hk2]).
  assert (contents d2 = contents d) as Ec by congruence.
  assert (forall g, fileAt d (TargetPath u) = Some g -> fileAt d2 (TargetPath u) = Some g) as Hat.
  { intros g (id & r & Hn & Hg)%fileAt_node. destruct (nodeAt_kept _ _ _ _ _ Hk (unique_paths _ _ H2) Hn) as (r' & Hn' & E).
    unfold fileAt. rewrite Hn'. cbn. congruence. }
  change (nodeAt d2 (TargetPath u) ≫= _) with (fileAt d2 (TargetPath u)).
  destruct (fileAt d2 (TargetPath u)) as [f|] eqn:Hf2.
  - destruct (fileAt_node _ _ _ Hf2) as (id & r & [Hr Hp]%nodeAt_spec & Hfr).
    destruct (nodes_ok _ _ H2 id r Hr) as [_ Hlive]. destruct (Hlive f Hfr) as [_ Hl].
    assert (f <> UFileID u) as Hne.
    { intros ->. destruct Hl as (i & c & Hi & _ & Hst). destruct (Q2 (content_inode _ _ H1)) as (_ & _ & Hst2 & _).
      specialize (Hst2 (UFileID u)). unfold statusOf, place in Hst2. rewrite Hi, Ei1, Hip, Ec1, Hcp in Hst2. cbn in Hst2.
      destruct Hst2 as [E|E]; [done|congruence|congruence]. }
    wp_apply wp_and; [by apply finalizeOverwriteTx_published|apply keeps_nodes_finalize|].
    intros old d3 [[Hc3 Ho3] En3]. exists f. split_and!.
    + exists id, r. by rewrite En3.
    + intros g Hg. specialize (Hat g Hg). congruence.
    + split; [done|]. intros g Hg1 Hg2. rewrite Ho3 by done. by rewrite Ec.
    + eapply entriesKept_trans; [exact Hk|]. by apply entriesKept_refl.
  - wp_apply finalizeCreateTx_published; [rewrite Ec, Hcp; done|]. intros old d3 ([Hc3 Ho3] & Hk3 & Hn3). exists (UFileID u). split_and!.
    + eexists _, _. split; [exact Hn3|]. split; [done|]. cbn. unfold nullStr. by rewrite bool_decide_false.
    + intros g Hg. specialize (Hat g Hg). congruence.
    + split; [done|]. intros g Hg1 Hg2. rewrite Ho3 by done. by rewrite Ec.
    + by eapply entriesKept_trans.
Qed.

(** Reads after the object of an upload has been published. *)
Lemma published_reads used b e u f b' :
  s3 cfg = true -> filesOk (store b) -> bytesSafe used b -> uploads (store b) !! UploadID u = Some u -> isActive u = true ->
  filesOk (store b') -> objects b' = <[S3Key u := assembled e]> (objects b) ->
  published u f (store b) (store b') -> entriesKept (store b) (store b') ->
  (forall p' q', Canonicalize nfc p' = inl q' -> fileAt (store b') q' = Some f ->
     ReadCtx nfc cfg b' p' 0 (-1) = inl (assembled e))
  /\ (forall p' q' g, Canonicalize nfc p' = inl q' -> fileAt (store b) q' = Some g -> g <> f ->
        ReadCtx nfc cfg b' p' 0 (-1) = ReadCtx nfc cfg b p' 0 (-1)).
Proof.
  intros Hs3 H [Hb _] Hu Ha H' Eo [(c & Hc & E1 & E2) Hother] Hk. split.
  - intros p' q' Hp (id & r & Hn & Hf)%fileAt_node. rewrite (ReadCtx_whole nfc cfg b' p' q' id r f) by done.
    unfold fileData, contentData. rewrite Hc, E1, E2, Hs3, Eo. cbn. by rewrite lookup_insert_eq.
  - intros p' q' g Hp (id & r & Hn & Hg)%fileAt_node Hne.
    destruct (nodeAt_kept _ _ _ _ _ Hk (unique_paths _ _ H') Hn) as (r' & Hn' & Hf').
    rewrite (ReadCtx_whole nfc cfg b' p' q' id r' g), (ReadCtx_whole nfc cfg b p' q' id r g) by (done || congruence).
    destruct (uploads_own _ _ _ _ _ Hb _ u Hu Ha) as [Hpl Hkey].
    destruct (upload_pending _ _ _ (uploads_ok _ _ H) _ u Hu Ha) as [_ (ip & cp & Hip & _ & Hsp)].
    apply nodeAt_spec in Hn as [Hr _]. destruct (nodes_ok _ _ H id r Hr) as [_ Hlive].
    destruct (Hlive g Hg) as [_ (i & cg & Hi & Hcg & Hsg)].
    assert (g <> UFileID u) as Hgu by (intros ->; congruence).
    unfold fileData. rewrite Hother, Hcg by done. unfold contentData. case_bool_decide as Et; [|done].
    destruct (negb (s3 cfg)); [done|]. rewrite Eo, lookup_insert_ne; [done|]. intros E. apply Hgu.
    assert (place (store b) g = Some ("s3", S3Key u)) as Hpg by (unfold place; rewrite Hcg; cbn; congruence).
    by destruct (refs_own _ _ _ _ _ Hb g (UFileID u) _ Hpg Hpl Hkey) as [|[[]|[]]].
Qed.

Lemma finalize_then_read used b e u tags b' :
  s3 cfg = true -> filesOk (store b) -> bytesSafe used b -> uploads (store b) !! UploadID u = Some u ->
  UStatus u = UploadUploading -> finalizeUpload typeByExtension toLower cfg b e u tags = (b', inl tt) ->
  exists f, fileAt (store b') (TargetPath u) = Some f
  /\ (forall g, fileAt (store b) (TargetPath u) = Some g -> f = g)
  /\ (forall p' q', Canonicalize nfc p' = inl q' -> fileAt (store b') q' = Some f ->
        ReadCtx nfc cfg b' p' 0 (-1) = inl (assembled e))
  /\ (forall p' q' g, Canonicalize nfc p' = inl q' -> fileAt (store b) q' = Some g -> g <> f ->
        ReadCtx nfc cfg b' p' 0 (-1) = ReadCtx nfc cfg b p' 0 (-1)).
Proof.
  intros Hs3 H Hb Hu Hs Hf. assert (isActive u = true) as Ha by (unfold isActive; by rewrite Hs).
  pose proof (finalizeUpload_ok typeByExtension toLower cfg b e u tags H Hu Hs) as H'. rewrite Hf in H'. cbn [fst] in H'.
  unfold finalizeUpload in Hf. destruct (negb (completeOK e)); [done|].
  set (b0 := set_objects (<[S3Key u := assembled e]> (objects b)) b) in Hf.
  destruct (run _ b0) as [b1 [old|err]] eqn:Hr; [|done]. apply run_inl in Hr as [Hr Eo].
  assert (store b' = store b1 /\ objects b' = objects b1) as [Es Eo'].
  { destruct old as [[t r]|]; injection Hf as <-; [|done]. by rewrite store_deleteBlobIfS3, objects_deleteBlobIfS3. }
  destruct (wp_inl _ _ _ _ _ (finalizeTx_published e u tags (store b0) H Hu Hs) Hr) as (f & Hl & Hsame & Hpub & Hk).
  rewrite <- Es in Hl, Hpub, Hk. exists f. split; [by apply leads_fileAt|]. split; [exact Hsame|].
  apply (published_reads used b e u f b'); try done. by rewrite Eo', Eo.
Qed.

(** C19: what the confirmation of an upload does, in every history of backend and upload
    calls.  When either version of the protocol confirms an upload, its target
    names a file, which is the file that was there before if there was one; every path
    that names this file reads exactly the bytes of the assembled object; and every other
    file reads as before. *)
Theorem confirm_then_read legacy w e k u tags b' :
  reachable nfc typeByExtension toLower cfg legacy w -> s3 cfg = true -> GetUpload (store (be w)) k = inl u ->
  (ConfirmUpload typeByExtension toLower cfg (be w) e k tags = (b', inl tt)
   \/ exists cps, ConfirmUploadV2 typeByExtension toLower cfg (be w) e k cps tags = (b', inl tt)) ->
  exists f, fileAt (store b') (TargetPath u) = Some f
  /\ (forall g, fileAt (store (be w)) (TargetPath u) = Some g -> f = g)
  /\ (forall p' q', Canonicalize nfc p' = inl q' -> fileAt (store b') q' = Some f ->
        ReadCtx nfc cfg b' p' 0 (-1) = inl (assembled e))
  /\ (forall p' q' g, Canonicalize nfc p' = inl q' -> fileAt (store (be w)) q' = Some g -> g <> f ->
        ReadCtx nfc cfg b' p' 0 (-1) = ReadCtx nfc cfg (be w) p' 0 (-1)).
Proof.
  intros Hr Hs3 Hg Hc. destruct (reachable_ok _ _ _ _ _ _ Hr) as [H Hb _ _]. destruct (GetUpload_key _ _ _ H Hg) as [Hu _].
  assert (UStatus u = UploadUploading /\ finalizeUpload typeByExtension toLower cfg (be w) e u tags = (b', inl tt)) as [Hs Hfin].
  { destruct Hc as [Hc|[cps Hc]]; unfold ConfirmUpload, ConfirmUploadV2, confirmRead, confirmV2Read in Hc; rewrite Hg in Hc.
    - destruct (bool_decide_reflect (UStatus u = UploadUploading)); [|done]. cbn [negb] in Hc.
      destruct (listParts e); [|done]. by destruct (negb _ || _ || _).
    - destruct (bool_decide_reflect (UStatus u = UploadUploading)); [|done]. cbn [negb] in Hc.
      destruct (UExpiresAt u <? _); [done|]. destruct (negb _); [done|]. destruct (listParts e); [|done].
      by destruct (clientPartsOk _ _ _). }
  by apply (finalize_then_read (drawn w) (be w) e u tags b').
Qed.

End props.

(** ** A concrete append *)

Definition planSenv (n : string) (t : Z) : senv :=
  {| base := demoEnv n t; newUploadID := "up" +:+ n; createMultipart := Some ("m" +:+ n); reserveOK := true;
     presignOK := true; listParts := Some [{| Number := 1; PSize := 17; ETag := "x" |}]; completeOK := true;
     assembled := "hello world again" |}.
Definition planPenv (n : string) (t : Z) : penv :=
  {| up := planSenv n t; copyOK := fun _ => true; presignPart := fun _ => true; presignRead := fun _ => true |}.

Definition plan1 : world := Eval vm_compute in demoCall (demoWrite "1" "/d/a" "hello world" 1) (start true).
Definition plan2 : world := Eval vm_compute in demoCall (Append (planPenv "2" 2) "/d/a" 6 0 (-1)) plan1.
Definition plan3 : world := Eval vm_compute in demoCall (Confirm (planSenv "3" 3) "up2" None) plan2.

Lemma plan1_reachable : demoReachable true plan1.
Proof. apply rtc_once. apply (demoCall_step (demoWrite "1" "/d/a" "hello world" 1)); vm_compute; reflexivity. Qed.

Lemma plan2_reachable : demoReachable true plan2.
Proof.
  unfold reachable. eapply rtc_r; [exact plan1_reachable|].
  apply (demoCall_step (Append (planPenv "2" 2) "/d/a" 6 0 (-1))); vm_compute; reflexivity.
Qed.

Definition plannedAppend : Z * PatchPlan :=
  match snd (InitiateAppendUpload idStr demoConfig (be plan1) (planPenv "2" 2) "/d/a" 6 0 (-1)) with
  | inl r => r
  | inr _ => (0, {| PlanUploadID := ""; PlanPartSize := 0; PlanParts := [] |})
  end.

Lemma read_plan_agrees_witness :
  exists plan, ReadPlanCtx idStr demoConfig (store (be plan1)) true "/d/a" = inl plan
    /\ source plan = PresignURL "blobs/f1" /\ RSize plan = 11
    /\ ReadCtx idStr demoConfig (be plan1) "/d/a" 0 (-1) = follow (be plan1) (PresignURL "blobs/f1").
Proof.
  destruct (nodeAt (store (be plan1)) "/d/a") as [[id r]|] eqn:En; [|vm_compute in En; discriminate En].
  assert (is_directory r = false) as Ed by (vm_compute in En; injection En as <- <-; reflexivity).
  pose proof (read_plan_agrees idStr noType idStr demoConfig true plan1 "/d/a" "/d/a" id r plan1_reachable eq_refl En Ed) as H.
  destruct (ReadPlanCtx idStr demoConfig (store (be plan1)) true "/d/a") as [plan|] eqn:Ep; [|vm_compute in Ep; discriminate Ep].
  exists plan. destruct H as (H & _). assert (source plan = PresignURL "blobs/f1") as Es by (vm_compute in Ep; injection Ep as <-; reflexivity).
  rewrite <- Es. split; [reflexivity|]. split; [reflexivity|]. split; [vm_compute in Ep; injection Ep as <-; reflexivity|exact H].
Defined.

Lemma append_rebuilds_witness :
  joinAll (pieceBytes "hello world" (fun _ => "hello world again") <$> PlanParts (snd plannedAppend)) = "hello world again"
  /\ PlanParts (snd plannedAppend) = [UploadPart 1 17 (Some (0, 10))].
Proof.
  split; [|vm_compute; reflexivity].
  destruct (Stat (store (be plan1)) "/d/a") as [[nd [f|]]|] eqn:Es; [|vm_compute in Es; discriminate Es..].
  assert (StorageRef f = "blobs/f1" /\ SizeBytes f = 11) as [Er Ez] by (vm_compute in Es; injection Es as <- <-; split; reflexivity).
  refine (proj1 (append_rebuilds idStr demoConfig (be plan1) (planPenv "2" 2) "/d/a" "/d/a" nd f 6 0 (-1)
    (fst (InitiateAppendUpload idStr demoConfig (be plan1) (planPenv "2" 2) "/d/a" 6 0 (-1)))
    (fst plannedAppend) (snd plannedAppend) "hello world" " again" (fun _ => "hello world again")
    eq_refl eq_refl Es _ _ _ _ _ _ _)).
  - rewrite Er. vm_compute. reflexivity.
  - rewrite Ez. reflexivity.
  - vm_compute. discriminate.
  - reflexivity.
  - vm_compute. discriminate.
  - vm_compute. reflexivity.
  - intros x Hx. assert (CalcParts (fst plannedAppend + 6) (PlanPartSize (snd plannedAppend))
                         = [{| Number := 1; PSize := 17; ETag := "" |}]) as E by (vm_compute; reflexivity).
    rewrite E in Hx. apply list_elem_of_singleton in Hx as ->. vm_compute. reflexivity.
Defined.

Lemma confirm_then_read_witness :
  exists u f, GetUpload (store (be plan2)) "up2" = inl u /\ fileAt (store (be plan3)) (TargetPath u) = Some f
    /\ ReadCtx idStr demoConfig (be plan3) "/d/a" 0 (-1) = inl "hello world again".
Proof.
  destruct (GetUpload (store (be plan2)) "up2") as [u|] eqn:Eg; [|vm_compute in Eg; discriminate Eg].
  assert (TargetPath u = "/d/a") as Et by (vm_compute in Eg; injection Eg as <-; reflexivity).
  destruct (confirm_then_read idStr noType idStr demoConfig true plan2 (planSenv "3" 3) "up2" u None (be plan3)
    plan2_reachable eq_refl Eg) as (f & Hf & _ & Hr & _).
  { left. vm_compute. reflexivity. }
  exists u, f. split; [done|]. split; [exact Hf|]. apply (Hr "/d/a" "/d/a"); [reflexivity|]. by rewrite <- Et.
Defined.

(** The parts of an append are counted before the size is compared with the limit of the
    server: a size of append near 2^63 passes the check of the overflow, and the sum in
    [CalcParts] overflows. *)
Lemma append_size_panics :
  InitiateAppendUpload idStr demoConfig (be plan1) (planPenv "2" 2) "/d/a" (2 ^ 63 - 1 - 11) 0 (-1)
  = (be plan1, inr (Up ErrPanic)).
Proof. vm_compute. reflexivity. Qed.

End PlanProps.
