(* ===== verification/QuotaStore.v ===== *)
(** * The central quota store

    Model of [src/pkg/meta/quota.go]: the tables of the server's own database that count
    what each tenant stores and reserves, with the outbox of mutations that have to be
    applied to them.  A transaction is a computation in a state and error monad over the
    tables, an error rolls it back; every call outside a transaction is one statement.
    The clock and the first day of the current month are arguments.  An [UPDATE] reports
    the rows whose values it changed, which is what the driver asks for.  The payload of
    an outbox entry is the value that its JSON stands for; creation and update times of
    rows that nothing reads and errors of an overflowing [BIGINT] are not modelled. *)

From S2P Require Import Prelude GoStrings.

Import GoStr.

Module QuotaStore.

Inductive quotaError :=
  | ErrNotFound
  | ErrStorageQuotaExceeded
  | ErrReservationAlreadyExists
  | ErrUsageRowMissing
  | ErrMutationNotPending
  | ErrDuplicateKey
  | ErrBadPayload.

(** ** Tables *)

Record QuotaConfig := { MaxStorageBytes : Z; MaxMediaLLMFiles : Z; MaxMonthlyCostMC : Z }.

Record QuotaUsage := { StorageBytes : Z; ReservedBytes : Z; MediaFileCount : Z }.

Record FileMeta := { SizeBytes : Z; IsMedia : bool }.

Inductive reservationStatus := Active | Completed | Aborted.

#[global] Instance reservationStatus_eq_dec : EqDecision reservationStatus.
Proof. solve_decision. Defined.

Record UploadReservation := {
  RReservedBytes : Z;
  TargetPath : string;
  RStatus : reservationStatus;
  ExpiresAt : Z
}.

Record LLMUsageRecord := {
  LTenantID : string;
  TaskType : string;
  TaskID : string;
  CostMillicents : Z;
  RawUnits : Z;
  RawUnitType : string
}.

(** The types of entries in the outbox with their payloads; the last two are an entry
    whose payload does not decode and one of a type that is not known. *)
Inductive mutation :=
  | FileCreate (fileID : string) (size : Z) (isMedia : bool)
  | FileOverwrite (fileID : string) (oldSize : Z) (oldIsMedia : bool) (newSize : Z) (newIsMedia : bool)
  | FileDelete (fileID : string) (size : Z) (isMedia : bool)
  | UploadComplete (uploadID fileID : string) (reserved oldSize : Z) (oldIsMedia : bool) (newSize : Z) (newIsMedia : bool)
  | LLMCostRecord (taskType taskID : string) (cost rawUnits : Z) (rawUnitType : string)
  | BadPayload
  | UnknownType.

Inductive mutationStatus := Pending | Applied | Failed.

#[global] Instance mutationStatus_eq_dec : EqDecision mutationStatus.
Proof. solve_decision. Defined.

Record MutationLogEntry := {
  MTenantID : string;
  Mutation : mutation;
  MStatus : mutationStatus;
  RetryCount : Z;
  MCreatedAt : Z;
  AppliedAt : option Z
}.

Record qdb := {
  configs : gmap string QuotaConfig;
  usages : gmap string QuotaUsage;
  file_meta : gmap (string * string) FileMeta;
  reservations : gmap (string * string) UploadReservation;
  llm_usage : list LLMUsageRecord;
  monthly_cost : gmap (string * Z) Z;   (** by tenant and first day of the month *)
  mutation_log : gmap Z MutationLogEntry;
  next_id : Z
}.

Definition emptyQuota : qdb :=
  {| configs := ∅; usages := ∅; file_meta := ∅; reservations := ∅; llm_usage := []; monthly_cost := ∅;
     mutation_log := ∅; next_id := 1 |}.

Definition set_configs (v : gmap string QuotaConfig) (d : qdb) : qdb :=
  {| configs := v; usages := usages d; file_meta := file_meta d; reservations := reservations d;
     llm_usage := llm_usage d; monthly_cost := monthly_cost d; mutation_log := mutation_log d; next_id := next_id d |}.
Definition set_usages (v : gmap string QuotaUsage) (d : qdb) : qdb :=
  {| configs := configs d; usages := v; file_meta := file_meta d; reservations := reservations d;
     llm_usage := llm_usage d; monthly_cost := monthly_cost d; mutation_log := mutation_log d; next_id := next_id d |}.
Definition set_file_meta (v : gmap (string * string) FileMeta) (d : qdb) : qdb :=
  {| configs := configs d; usages := usages d; file_meta := v; reservations := reservations d;
     llm_usage := llm_usage d; monthly_cost := monthly_cost d; mutation_log := mutation_log d; next_id := next_id d |}.
Definition set_reservations (v : gmap (string * string) UploadReservation) (d : qdb) : qdb :=
  {| configs := configs d; usages := usages d; file_meta := file_meta d; reservations := v;
     llm_usage := llm_usage d; monthly_cost := monthly_cost d; mutation_log := mutation_log d; next_id := next_id d |}.
Definition set_llm_usage (v : list LLMUsageRecord) (d : qdb) : qdb :=
  {| configs := configs d; usages := usages d; file_meta := file_meta d; reservations := reservations d;
     llm_usage := v; monthly_cost := monthly_cost d; mutation_log := mutation_log d; next_id := next_id d |}.
Definition set_monthly_cost (v : gmap (string * Z) Z) (d : qdb) : qdb :=
  {| configs := configs d; usages := usages d; file_meta := file_meta d; reservations := reservations d;
     llm_usage := llm_usage d; monthly_cost := v; mutation_log := mutation_log d; next_id := next_id d |}.
Definition set_mutation_log (v : gmap Z MutationLogEntry) (d : qdb) : qdb :=
  {| configs := configs d; usages := usages d; file_meta := file_meta d; reservations := reservations d;
     llm_usage := llm_usage d; monthly_cost := monthly_cost d; mutation_log := v; next_id := next_id d |}.

(** ** Transactions *)

Definition qtx (A : Type) : Type := qdb -> (qdb * A) + quotaError.

Definition qret {A} (a : A) : qtx A := fun d => inl (d, a).
Definition qthrow {A} (e : quotaError) : qtx A := fun _ => inr e.
Definition qbind {A B} (m : qtx A) (k : A -> qtx B) : qtx B :=
  fun d => match m d with inl (d', a) => k a d' | inr e => inr e end.
Definition qread {A} (f : qdb -> A) : qtx A := fun d => inl (d, f d).
Definition qmodify (f : qdb -> qdb) : qtx unit := fun d => inl (f d, tt).

Declare Scope quota_scope.
Delimit Scope quota_scope with quota.
Open Scope quota_scope.
Notation "'do' x <- m ; k" := (qbind m (fun x => k)) (at level 100, x binder, m at next level, right associativity) : quota_scope.
Notation "m >> k" := (qbind m (fun _ => k)) (at level 100, right associativity) : quota_scope.

(** [InTx]: an error rolls everything back. *)
Definition InTx {A} (m : qtx A) (d : qdb) : qdb * (A + quotaError) :=
  match m d with inl (d', a) => (d', inl a) | inr e => (d, inr e) end.

(** ** Configuration *)

Definition defaultMaxStorageBytes : Z := 50 * Z.shiftl 1 30.

Definition GetQuotaConfig (d : qdb) (tenant : string) : QuotaConfig :=
  default {| MaxStorageBytes := 53687091200; MaxMediaLLMFiles := 500; MaxMonthlyCostMC := 0 |} (configs d !! tenant).

Definition SetQuotaConfig (tenant : string) (cfg : QuotaConfig) (d : qdb) : qdb :=
  set_configs (<[tenant := cfg]> (configs d)) d.

Definition CopyQuotaConfig (source dest : string) (d : qdb) : qdb := SetQuotaConfig dest (GetQuotaConfig d source) d.

(** ** Counters *)

Definition GetQuotaUsage (d : qdb) (tenant : string) : QuotaUsage :=
  default {| StorageBytes := 0; ReservedBytes := 0; MediaFileCount := 0 |} (usages d !! tenant).

Definition EnsureQuotaUsageRow (tenant : string) (d : qdb) : qdb :=
  match usages d !! tenant with
  | Some _ => d
  | None => set_usages (<[tenant := {| StorageBytes := 0; ReservedBytes := 0; MediaFileCount := 0 |}]> (usages d)) d
  end.

(** The counters with some bytes and files more. *)
Definition addUsage (storage reserved media : Z) (u : QuotaUsage) : QuotaUsage :=
  {| StorageBytes := StorageBytes u + storage; ReservedBytes := ReservedBytes u + reserved;
     MediaFileCount := MediaFileCount u + media |}.

(** [UPDATE tenant_quota_usage SET ... + ?] with [ensureRowsAffected]: a row that does not
    change does not count. *)
Definition incrUsageTx (tenant : string) (storage reserved media : Z) : qtx unit :=
  do m <- qread usages;
  match m !! tenant with
  | Some u => if (storage =? 0) && (reserved =? 0) && (media =? 0) then qthrow ErrUsageRowMissing
              else qmodify (set_usages (<[tenant := addUsage storage reserved media u]> m))
  | None => qthrow ErrUsageRowMissing
  end.

Definition IncrStorageBytesTx (tenant : string) (delta : Z) : qtx unit := incrUsageTx tenant delta 0 0.
Definition IncrReservedBytesTx (tenant : string) (delta : Z) : qtx unit := incrUsageTx tenant 0 delta 0.
Definition IncrMediaFileCountTx (tenant : string) (delta : Z) : qtx unit := incrUsageTx tenant 0 0 delta.
Definition TransferReservedToConfirmedTx (tenant : string) (reservedDelta storageDelta : Z) : qtx unit :=
  incrUsageTx tenant storageDelta reservedDelta 0.

(** The limit that the reservation compares with. *)
Definition storageLimit (d : qdb) (tenant : string) : Z :=
  default defaultMaxStorageBytes (MaxStorageBytes <$> configs d !! tenant).

Definition AtomicReserveAndInsertUpload (tenant uploadID targetPath : string) (bytes expiresAt : Z) : qtx unit :=
  do d <- qread (fun d => d);
  match usages d !! tenant with
  | None => qthrow ErrStorageQuotaExceeded
  | Some u =>
      if negb (StorageBytes u + ReservedBytes u + bytes <=? storageLimit d tenant) || (bytes =? 0)
      then qthrow ErrStorageQuotaExceeded
      else
        qmodify (set_usages (<[tenant := addUsage 0 bytes 0 u]> (usages d))) >>
        match reservations d !! (tenant, uploadID) with
        | Some _ => qthrow ErrReservationAlreadyExists
        | None => qmodify (fun d => set_reservations (<[(tenant, uploadID) :=
                    {| RReservedBytes := bytes; TargetPath := targetPath; RStatus := Active; ExpiresAt := expiresAt |}]>
                    (reservations d)) d)
        end
  end.

Definition SetQuotaCounters (tenant : string) (storageBytes mediaFileCount : Z) (d : qdb) : qdb :=
  let reserved := match usages d !! tenant with Some u => ReservedBytes u | None => 0 end in
  set_usages (<[tenant := {| StorageBytes := storageBytes; ReservedBytes := reserved;
                             MediaFileCount := mediaFileCount |}]> (usages d)) d.

(** ** File metadata *)

Definition UpsertFileMetaTx (tenant fileID : string) (size : Z) (isMedia : bool) : qtx unit :=
  qmodify (fun d => set_file_meta (<[(tenant, fileID) := {| SizeBytes := size; IsMedia := isMedia |}]> (file_meta d)) d).

Definition GetFileMeta (d : qdb) (tenant fileID : string) : FileMeta + quotaError :=
  match file_meta d !! (tenant, fileID) with Some fm => inl fm | None => inr ErrNotFound end.

Definition DeleteFileMetaTx (tenant fileID : string) : qtx unit :=
  qmodify (fun d => set_file_meta (delete (tenant, fileID) (file_meta d)) d).

Definition DeleteFileMetaIfExistsTx (tenant fileID : string) : qtx bool :=
  do m <- qread file_meta;
  qmodify (set_file_meta (delete (tenant, fileID) m)) >>
  qret (bool_decide (is_Some (m !! (tenant, fileID)))).

(** ** Reservations *)

Definition withRStatus (st : reservationStatus) (r : UploadReservation) : UploadReservation :=
  {| RReservedBytes := RReservedBytes r; TargetPath := TargetPath r; RStatus := st; ExpiresAt := ExpiresAt r |}.

Definition isActive (r : UploadReservation) : bool := bool_decide (RStatus r = Active).

(** The guard of the status makes a second settlement find no row. *)
Definition SettleActiveReservationTx (tenant uploadID : string) (st : reservationStatus) : qtx bool :=
  do m <- qread reservations;
  match m !! (tenant, uploadID) with
  | Some r => if isActive r then qmodify (set_reservations (<[(tenant, uploadID) := withRStatus st r]> m)) >> qret true
              else qret false
  | None => qret false
  end.

Definition UpdateUploadReservationStatusTx (tenant uploadID : string) (st : reservationStatus) : qtx unit :=
  SettleActiveReservationTx tenant uploadID st >> qret tt.

Definition GetUploadReservation (d : qdb) (tenant uploadID : string) : UploadReservation + quotaError :=
  match reservations d !! (tenant, uploadID) with Some r => inl r | None => inr ErrNotFound end.

(** The rows of a tenant. *)
Definition ofTenant {A} (tenant : string) (m : gmap (string * string) A) : gmap (string * string) A :=
  filter (fun kv => fst (fst kv) = tenant) m.

Definition HasActiveUploadReservations (d : qdb) (tenant : string) (now : Z) : bool :=
  existsb (fun kv => isActive (snd kv) && (now <? ExpiresAt (snd kv))) (map_to_list (ofTenant tenant (reservations d))).

(** [SUM(reserved_bytes)] over the selected rows of a tenant. *)
Definition activeBytes (r : UploadReservation) : Z := if isActive r then RReservedBytes r else 0.
Definition activeSum (tenant : string) (m : gmap (string * string) UploadReservation) : Z :=
  map_sum activeBytes (ofTenant tenant m).

Definition AbortActiveUploadReservations (tenant : string) : qtx unit :=
  do d <- qread (fun d => d);
  let total := activeSum tenant (reservations d) in
  (if total =? 0 then qret tt
   else match usages d !! tenant with
        | None => qthrow ErrUsageRowMissing
        | Some u =>
            let rest := Z.max (ReservedBytes u - total) 0 in
            if rest =? ReservedBytes u then qthrow ErrUsageRowMissing
            else qmodify (set_usages (<[tenant := {| StorageBytes := StorageBytes u; ReservedBytes := rest;
                                                     MediaFileCount := MediaFileCount u |}]> (usages d)))
        end) >>
  qmodify (fun d => set_reservations
    (map_imap (fun k r => Some (if bool_decide (fst k = tenant) && isActive r then withRStatus Aborted r else r))
       (reservations d)) d).

(** ** Expiry *)

Definition isExpired (now : Z) (r : UploadReservation) : bool := isActive r && (ExpiresAt r <? now).
Definition expiredBytes (now : Z) (r : UploadReservation) : Z := if isExpired now r then RReservedBytes r else 0.
Definition expiredRows (now : Z) (m : gmap (string * string) UploadReservation) : gmap (string * string) UploadReservation :=
  filter (fun kv => isExpired now (snd kv) = true) m.
(** The tenants of the groups, and the total of one. *)
Definition expiredTenants (now : Z) (d : qdb) : list string :=
  remove_dups ((fun kv => fst (fst kv)) <$> map_to_list (expiredRows now (reservations d))).
Definition expiredSum (now : Z) (tenant : string) (m : gmap (string * string) UploadReservation) : Z :=
  map_sum (expiredBytes now) (ofTenant tenant m).

Fixpoint releaseAll (releases : list (string * Z)) : qtx Z :=
  match releases with
  | [] => qret 0
  | (tenant, released) :: rest =>
      IncrReservedBytesTx tenant (- released) >>
      do total <- releaseAll rest;
      qret (released + total)
  end.

(** The order of the groups is the argument [order]. *)
Definition ExpireActiveReservations (order : list string -> list string) (now : Z) : qtx Z :=
  do d <- qread (fun d => d);
  do total <- releaseAll ((fun t => (t, expiredSum now t (reservations d))) <$> order (expiredTenants now d));
  qmodify (fun d => set_reservations
    ((fun r => if isExpired now r then withRStatus Aborted r else r) <$> reservations d) d) >>
  qret total.

(** ** LLM costs *)

Definition InsertCentralLLMUsageTx (r : LLMUsageRecord) : qtx unit :=
  qmodify (fun d => set_llm_usage (llm_usage d ++ [r]) d).

Definition IncrMonthlyLLMCostTx (tenant : string) (month costMC : Z) : qtx unit :=
  qmodify (fun d => set_monthly_cost
    (<[(tenant, month) := default 0 (monthly_cost d !! (tenant, month)) + costMC]> (monthly_cost d)) d).

(** ** The outbox *)

Definition InsertMutationLog (tenant : string) (mu : mutation) (now : Z) (d : qdb) : qdb * Z :=
  let e := {| MTenantID := tenant; Mutation := mu; MStatus := Pending; RetryCount := 0; MCreatedAt := now;
              AppliedAt := None |} in
  ({| configs := configs d; usages := usages d; file_meta := file_meta d; reservations := reservations d;
      llm_usage := llm_usage d; monthly_cost := monthly_cost d; mutation_log := <[next_id d := e]> (mutation_log d);
      next_id := next_id d + 1 |}, next_id d).

(** [ORDER BY tenant_id, id] *)
Definition logBefore (a b : Z * MutationLogEntry) : bool :=
  String.ltb (MTenantID (snd a)) (MTenantID (snd b))
  || bool_decide (MTenantID (snd a) = MTenantID (snd b)) && (fst a <? fst b).

Definition ListPendingMutations (d : qdb) (minAge limit now : Z) : list (Z * MutationLogEntry) :=
  let limit := if limit <=? 0 then 100 else limit in
  let cutoff := now - minAge in
  take (Z.to_nat limit)
    (sortBy logBefore
       (filter (fun e => MStatus (snd e) = Pending /\ MCreatedAt (snd e) < cutoff) (map_to_list (mutation_log d)))).

(** The file of the two types that the query names. *)
Definition fileOfMutation (mu : mutation) : option string :=
  match mu with
  | FileCreate f _ _ => Some f
  | FileOverwrite f _ _ _ _ => Some f
  | _ => None
  end.

Definition HasPendingFileMutation (d : qdb) (tenant fileID : string) : bool :=
  existsb (fun kv => bool_decide (MTenantID (snd kv) = tenant) && bool_decide (MStatus (snd kv) = Pending)
             && bool_decide (fileOfMutation (Mutation (snd kv)) = Some fileID)) (map_to_list (mutation_log d)).

Definition withMStatus (st : mutationStatus) (retries : Z) (applied : option Z) (e : MutationLogEntry) : MutationLogEntry :=
  {| MTenantID := MTenantID e; Mutation := Mutation e; MStatus := st; RetryCount := retries;
     MCreatedAt := MCreatedAt e; AppliedAt := applied |}.

Definition MarkMutationAppliedTx (id now : Z) : qtx unit :=
  do m <- qread mutation_log;
  match m !! id with
  | Some e => if bool_decide (MStatus e = Pending)
              then qmodify (set_mutation_log (<[id := withMStatus Applied (RetryCount e) (Some now) e]> m))
              else qthrow ErrMutationNotPending
  | None => qthrow ErrMutationNotPending
  end.

Definition IncrMutationRetry (id maxRetries : Z) (d : qdb) : qdb :=
  set_mutation_log (alter (fun e =>
    if bool_decide (MStatus e = Pending)
    then withMStatus (if maxRetries <=? RetryCount e + 1 then Failed else Pending) (RetryCount e + 1) (AppliedAt e) e
    else e) id (mutation_log d)) d.

(** ** The same statements outside a transaction *)

Definition IncrStorageBytes (tenant : string) (delta : Z) : qdb -> qdb * (unit + quotaError) :=
  InTx (IncrStorageBytesTx tenant delta).
Definition IncrReservedBytes (tenant : string) (delta : Z) : qdb -> qdb * (unit + quotaError) :=
  InTx (IncrReservedBytesTx tenant delta).
Definition IncrMediaFileCount (tenant : string) (delta : Z) : qdb -> qdb * (unit + quotaError) :=
  InTx (IncrMediaFileCountTx tenant delta).
Definition TransferReservedToConfirmed (tenant : string) (reservedDelta storageDelta : Z) : qdb -> qdb * (unit + quotaError) :=
  InTx (TransferReservedToConfirmedTx tenant reservedDelta storageDelta).
Definition UpsertFileMeta (tenant fileID : string) (size : Z) (isMedia : bool) : qdb -> qdb * (unit + quotaError) :=
  InTx (UpsertFileMetaTx tenant fileID size isMedia).
Definition DeleteFileMeta (tenant fileID : string) : qdb -> qdb * (unit + quotaError) :=
  InTx (DeleteFileMetaTx tenant fileID).
Definition UpdateUploadReservationStatus (tenant uploadID : string) (st : reservationStatus) : qdb -> qdb * (unit + quotaError) :=
  InTx (UpdateUploadReservationStatusTx tenant uploadID st).
Definition InsertCentralLLMUsage (r : LLMUsageRecord) : qdb -> qdb * (unit + quotaError) :=
  InTx (InsertCentralLLMUsageTx r).
Definition IncrMonthlyLLMCost (tenant : string) (month costMC : Z) : qdb -> qdb * (unit + quotaError) :=
  InTx (IncrMonthlyLLMCostTx tenant month costMC).

Definition InsertUploadReservation (tenant uploadID targetPath : string) (bytes expiresAt : Z) (d : qdb)
    : qdb * (unit + quotaError) :=
  match reservations d !! (tenant, uploadID) with
  | Some _ => (d, inr ErrDuplicateKey)
  | None => (set_reservations (<[(tenant, uploadID) :=
               {| RReservedBytes := bytes; TargetPath := targetPath; RStatus := Active; ExpiresAt := expiresAt |}]>
               (reservations d)) d, inl tt)
  end.

End QuotaStore.
