(* ===== verification/QuotaSync.v ===== *)
(** * Keeping the central quota in step

    Model of [src/pkg/backend/upload_reservation.go], [quota_mutation.go],
    [mutation_replay.go], [expiry_sweep.go] and of the central part of
    [file_gc_worker.go]: how a backend reports to the central quota store what a tenant's
    own database has committed.  A mutation is first written to the outbox and then
    applied in one transaction that also marks it; what fails stays pending and a worker
    replays it.  Every access to the central database can fail, which is a flag of the
    call ([false] for a lost connection); a call that first reads and then acts on what
    it read has its two halves as definitions of their own.  Logging and metrics are left
    out, as is the case of a server without a central store, in which none of this
    runs. *)

From S2P Require Import Prelude GoStrings QuotaStore.

Import GoStr QuotaStore.

Module QuotaSync.

(** A transaction on a connection that may be lost before the commit. *)
Definition tryTx {A} (up : bool) (m : qtx A) (d : qdb) : qdb * option (A + quotaError) :=
  if up then let '(d', r) := InTx m d in (d', Some r) else (d, None).

(** ** Reservations of uploads *)

Definition reservationLifetime : Z := 24 * 60 * 60 * 1000000000.

(** The answer says whether the server holds a reservation; a server that cannot be
    reached lets the upload go on. *)
Definition reserveUploadOnServer (up : bool) (tenant uploadID targetPath : string) (totalSize now : Z) (d : qdb)
    : qdb * (bool + quotaError) :=
  match tryTx up (AtomicReserveAndInsertUpload tenant uploadID targetPath totalSize (now + reservationLifetime)) d with
  | (d', Some (inl _)) => (d', inl true)
  | (d', Some (inr ErrStorageQuotaExceeded)) => (d', inr ErrStorageQuotaExceeded)
  | (d', Some (inr ErrReservationAlreadyExists)) => (d', inl true)
  | (d', _) => (d', inl false)
  end.

(** The lookup of [abortUploadReservation]: a reservation that is active. *)
Definition abortLookup (up : bool) (tenant uploadID : string) (d : qdb) : option UploadReservation :=
  if up then
    match GetUploadReservation d tenant uploadID with
    | inl r => if isActive r then Some r else None
    | inr _ => None
    end
  else None.

(** Its transaction, with the row that was read. *)
Definition abortRelease (up : bool) (tenant uploadID : string) (r : UploadReservation) (d : qdb) : qdb :=
  fst (tryTx up (IncrReservedBytesTx tenant (- RReservedBytes r) >>
                 UpdateUploadReservationStatusTx tenant uploadID Aborted) d).

Definition abortUploadReservation (upRead upTx : bool) (tenant uploadID : string) (d : qdb) : qdb :=
  match abortLookup upRead tenant uploadID d with
  | Some r => abortRelease upTx tenant uploadID r d
  | None => d
  end.

(** ** Applying mutations *)

Definition mediaDelta (oldIsMedia newIsMedia : bool) : Z :=
  if negb oldIsMedia && newIsMedia then 1 else if oldIsMedia && negb newIsMedia then -1 else 0.

Definition unless (b : bool) (m : qtx unit) : qtx unit := if b then qret tt else m.

Definition applyUploadCompleteTx (tenant uploadID fileID : string) (reserved oldSize : Z) (oldIsMedia : bool)
    (newSize : Z) (newIsMedia : bool) : qtx unit :=
  do settled <- SettleActiveReservationTx tenant uploadID Completed;
  (if settled then TransferReservedToConfirmedTx tenant (- reserved) reserved
   else unless (newSize =? 0) (IncrStorageBytesTx tenant newSize)) >>
  unless (oldSize =? 0) (IncrStorageBytesTx tenant (- oldSize)) >>
  UpsertFileMetaTx tenant fileID newSize newIsMedia >>
  unless (mediaDelta oldIsMedia newIsMedia =? 0) (IncrMediaFileCountTx tenant (mediaDelta oldIsMedia newIsMedia)).

(** The closures of [syncCentralFileCreate] and [syncCentralFileOverwrite]. *)
Definition applyFileCreateTx (tenant fileID : string) (size : Z) (isMedia : bool) : qtx unit :=
  UpsertFileMetaTx tenant fileID size isMedia >>
  unless (size =? 0) (IncrStorageBytesTx tenant size) >>
  unless (negb isMedia) (IncrMediaFileCountTx tenant 1).

Definition applyFileOverwriteTx (tenant fileID : string) (oldSize : Z) (oldIsMedia : bool) (newSize : Z)
    (newIsMedia : bool) : qtx unit :=
  UpsertFileMetaTx tenant fileID newSize newIsMedia >>
  unless (newSize - oldSize =? 0) (IncrStorageBytesTx tenant (newSize - oldSize)) >>
  unless (mediaDelta oldIsMedia newIsMedia =? 0) (IncrMediaFileCountTx tenant (mediaDelta oldIsMedia newIsMedia)).

(** [applyCentralFileDeleteCountersTx] *)
Definition deleteCountersTx (tenant : string) (size : Z) (isMedia : bool) : qtx unit :=
  unless (size =? 0) (IncrStorageBytesTx tenant (- size)) >>
  unless (negb isMedia) (IncrMediaFileCountTx tenant (-1)).

Definition applyFileDeleteTx (tenant fileID : string) (size : Z) (isMedia : bool) : qtx unit :=
  do deleted <- DeleteFileMetaIfExistsTx tenant fileID;
  if negb deleted then qret tt else deleteCountersTx tenant size isMedia.

Definition applyLLMCostTx (tenant : string) (month : Z) (taskType taskID : string) (cost rawUnits : Z)
    (rawUnitType : string) : qtx unit :=
  InsertCentralLLMUsageTx {| LTenantID := tenant; TaskType := taskType; TaskID := taskID; CostMillicents := cost;
                             RawUnits := rawUnits; RawUnitType := rawUnitType |} >>
  IncrMonthlyLLMCostTx tenant month cost.

(** [applyMutation] of the replay worker; the inline calls apply the same transactions. *)
Definition applyMutation (month : Z) (tenant : string) (mu : mutation) : qtx unit :=
  match mu with
  | FileCreate f size m => applyFileCreateTx tenant f size m
  | FileOverwrite f s0 m0 s1 m1 => applyFileOverwriteTx tenant f s0 m0 s1 m1
  | FileDelete f size m => applyFileDeleteTx tenant f size m
  | UploadComplete up f res s0 m0 s1 m1 => applyUploadCompleteTx tenant up f res s0 m0 s1 m1
  | LLMCostRecord ty id cost units unit => applyLLMCostTx tenant month ty id cost units unit
  | BadPayload => qthrow ErrBadPayload
  | UnknownType => qret tt
  end.

(** ** The outbox *)

(** Apply an entry and mark it, in one transaction. *)
Definition applyEntryTx (month now id : Z) (tenant : string) (mu : mutation) : qtx unit :=
  applyMutation month tenant mu >> MarkMutationAppliedTx id now.

(** What a call needs from outside. *)
Record syncEnv := { upInsert : bool; upApply : bool; clock : Z; monthStart : Z }.

(** [applyLoggedQuotaMutation], which [completeUploadReservation] writes out. *)
Definition applyLogged (e : syncEnv) (tenant : string) (mu : mutation) (d : qdb) : qdb :=
  if upInsert e then
    let '(d, id) := InsertMutationLog tenant mu (clock e) d in
    fst (tryTx (upApply e) (applyEntryTx (monthStart e) (clock e) id tenant mu) d)
  else d.

Definition applyLoggedQuotaMutation (e : syncEnv) (tenant : string) (mu : mutation) (d : qdb) : qdb :=
  if bool_decide (tenant = "") then d else applyLogged e tenant mu d.

Definition isQuotaMediaContentType (contentType : string) : bool :=
  HasPrefix contentType "image/" || HasPrefix contentType "audio/".

Definition syncCentralFileCreate (e : syncEnv) (tenant fileID : string) (size : Z) (contentType : string) : qdb -> qdb :=
  applyLoggedQuotaMutation e tenant (FileCreate fileID size (isQuotaMediaContentType contentType)).

Definition syncCentralFileOverwrite (e : syncEnv) (tenant fileID : string) (oldSize : Z) (oldContentType : string)
    (newSize : Z) (newContentType : string) : qdb -> qdb :=
  applyLoggedQuotaMutation e tenant (FileOverwrite fileID oldSize (isQuotaMediaContentType oldContentType)
                                       newSize (isQuotaMediaContentType newContentType)).

Definition syncCentralLLMCostRecord (e : syncEnv) (tenant taskType taskID : string) (cost rawUnits : Z)
    (rawUnitType : string) : qdb -> qdb :=
  applyLoggedQuotaMutation e tenant (LLMCostRecord taskType taskID cost rawUnits rawUnitType).

Definition completeUploadReservation (e : syncEnv) (tenant uploadID : string) (reservedBytes : Z) (fileID : string)
    (oldSize : Z) (oldIsMedia : bool) (newSize : Z) (newIsMedia : bool) : qdb -> qdb :=
  applyLogged e tenant (UploadComplete uploadID fileID reservedBytes oldSize oldIsMedia newSize newIsMedia).

(** ** Replay *)

Definition replayMinAge : Z := 5 * 1000000000.
Definition replayBatchLimit : Z := 100.
Definition replayMaxRetries : Z := 5.

(** The connection of each entry's transaction and of its retry count, and the times. *)
Record replayEnv := { upEntry : Z -> bool; upRetry : Z -> bool; replayAt : Z; replayMonth : Z }.

Definition replayOne (e : replayEnv) (entry : Z * MutationLogEntry) (d : qdb) : qdb * bool :=
  match tryTx (upEntry e (fst entry))
          (applyEntryTx (replayMonth e) (replayAt e) (fst entry) (MTenantID (snd entry)) (Mutation (snd entry))) d with
  | (d, Some (inl _)) => (d, true)
  | (d, _) => (d, false)
  end.

(** The loop over the entries that were listed: a tenant with a failure is blocked. *)
Fixpoint replayLoop (e : replayEnv) (blocked : gset string) (entries : list (Z * MutationLogEntry)) (d : qdb) : qdb :=
  match entries with
  | [] => d
  | entry :: rest =>
      let tenant := MTenantID (snd entry) in
      if bool_decide (tenant ∈ blocked) then replayLoop e blocked rest d
      else match replayOne e entry d with
           | (d, true) => replayLoop e blocked rest d
           | (d, false) =>
               let d := if upRetry e (fst entry) then IncrMutationRetry (fst entry) replayMaxRetries d else d in
               replayLoop e ({[tenant]} ∪ blocked) rest d
           end
  end.

Definition replayBatch (e : replayEnv) (d : qdb) : qdb :=
  replayLoop e ∅ (ListPendingMutations d replayMinAge replayBatchLimit (replayAt e)) d.

(** ** Expiry *)

Definition sweep (up : bool) (order : list string -> list string) (now : Z) (d : qdb) : qdb :=
  fst (tryTx up (ExpireActiveReservations order now) d).

(** ** Cleanup of a deleted file *)

Inductive cleanupPlan :=
  | CleanupFails                  (** a mutation of the file is pending, or the connection is lost *)
  | CleanupDone                   (** the central store does not know the file *)
  | CleanupFile (fm : FileMeta).  (** the metadata that was read *)

(** The reads of [deleteCentralFileMetaForGCTask]. *)
Definition cleanupLookup (up : bool) (tenant fileID : string) (d : qdb) : cleanupPlan :=
  if bool_decide (tenant = "") then CleanupDone
  else if negb up then CleanupFails
  else if HasPendingFileMutation d tenant fileID then CleanupFails
  else match GetFileMeta d tenant fileID with
       | inl fm => CleanupFile fm
       | inr _ => CleanupDone
       end.

(** Its transaction; the answer says whether the step of the cleanup is done. *)
Definition cleanupApply (up : bool) (tenant fileID : string) (plan : cleanupPlan) (d : qdb) : qdb * bool :=
  match plan with
  | CleanupFails => (d, false)
  | CleanupDone => (d, true)
  | CleanupFile fm =>
      match tryTx up (applyFileDeleteTx tenant fileID (SizeBytes fm) (IsMedia fm)) d with
      | (d, Some (inl _)) => (d, true)
      | (d, _) => (d, false)
      end
  end.

Definition deleteCentralFileMetaForGCTask (upRead upTx : bool) (tenant fileID : string) (d : qdb) : qdb * bool :=
  cleanupApply upTx tenant fileID (cleanupLookup upRead tenant fileID d) d.

End QuotaSync.
