(* ===== verification/QuotaLedger.v ===== *)
(** * Rules for the central quota

    What the transactions of [QuotaSync] do to the accounts: the sums over the rows of a
    tenant, the effect of one mutation on the counters, and the calls that leave every
    account as it is - releasing, expiring and aborting reservations, replaying and
    marking entries of the outbox. *)

From S2P Require Import Prelude GoStrings QuotaStore QuotaSync.

Import GoStr QuotaStore QuotaSync.

Module QuotaLedger.


(** ** Rules for transactions *)

Definition qwp {A} (m : qtx A) (Q : A -> qdb -> Prop) (d : qdb) : Prop :=
  match m d with inl (d', a) => Q a d' | inr _ => True end.

Lemma qwp_bind {A B} (m : qtx A) (k : A -> qtx B) Q d : qwp m (fun a => qwp (k a) Q) d -> qwp (qbind m k) Q d.
Proof. unfold qwp, qbind. by destruct (m d) as [[]|]. Qed.

Lemma qwp_mono {A} (m : qtx A) (P Q : A -> qdb -> Prop) d :
  qwp m P d -> (forall a d', P a d' -> Q a d') -> qwp m Q d.
Proof. unfold qwp. destruct (m d) as [[]|]; auto. Qed.

Lemma qwp_InTx {A} (m : qtx A) (P : qdb -> Prop) d : P d -> qwp m (fun _ => P) d -> P (fst (InTx m d)).
Proof. unfold InTx, qwp. by destruct (m d) as [[]|]. Qed.

Lemma qwp_tryTx {A} up (m : qtx A) (P : qdb -> Prop) d : P d -> qwp m (fun _ => P) d -> P (fst (tryTx up m d)).
Proof. unfold tryTx, InTx, qwp. destruct up; [|done]. by destruct (m d) as [[]|]. Qed.

(** ** What a transaction adds to the counters *)

(** The counters of the tenant grow by the three numbers and the other tables that the
    accounts read are as they were. *)
Definition bumped (t : string) (s r m : Z) (d d' : qdb) : Prop :=
  (forall t', GetQuotaUsage d' t' = if decide (t' = t) then addUsage s r m (GetQuotaUsage d t) else GetQuotaUsage d t')
  /\ reservations d' = reservations d /\ mutation_log d' = mutation_log d /\ next_id d' = next_id d.

Lemma addUsage_0 u : addUsage 0 0 0 u = u.
Proof. destruct u. unfold addUsage. cbn. by rewrite !Z.add_0_r. Qed.

Lemma bumped_refl t d d' :
  usages d' = usages d -> reservations d' = reservations d -> mutation_log d' = mutation_log d ->
  next_id d' = next_id d -> bumped t 0 0 0 d d'.
Proof.
  intros E1 E2 E3 E4. split_and!; [|done..]. intros t'. unfold GetQuotaUsage. rewrite E1, addUsage_0.
  by case_decide; subst.
Qed.

Lemma bumped_trans t s1 r1 m1 s2 r2 m2 d1 d2 d3 :
  bumped t s1 r1 m1 d1 d2 -> bumped t s2 r2 m2 d2 d3 -> bumped t (s1 + s2) (r1 + r2) (m1 + m2) d1 d3.
Proof.
  intros (U1 & R1 & L1 & N1) (U2 & R2 & L2 & N2). split_and!; [|congruence..]. intros t'. rewrite U2.
  case_decide; [|by rewrite U1, decide_False]. rewrite U1, decide_True by done. destruct (GetQuotaUsage d1 t). unfold addUsage. cbn. f_equal; lia.
Qed.

Lemma incrUsage_bumped t s r m d : qwp (incrUsageTx t s r m) (fun _ => bumped t s r m d) d.
Proof.
  unfold qwp, incrUsageTx, qbind, qread. destruct (usages d !! t) as [u|] eqn:E; [|exact I]. destruct ((s =? 0) && (r =? 0) && (m =? 0)); [exact I|].
  cbn. split_and!; try done. intros t'. unfold GetQuotaUsage. cbn. rewrite lookup_insert.
  case_decide as E1; case_decide as E2; subst; try done. by rewrite E.
Qed.

Lemma unless_bumped b t s r m d : (b = true -> s = 0 /\ r = 0 /\ m = 0) ->
  qwp (unless b (incrUsageTx t s r m)) (fun _ => bumped t s r m d) d.
Proof.
  intros H. destruct b; cbn; [|apply incrUsage_bumped]. destruct H as (-> & -> & ->); [done|]. by apply bumped_refl.
Qed.

(** Sequencing of two parts. *)
Lemma qwp_bumped {A B} (m1 : qtx A) (m2 : A -> qtx B) t s1 r1 n1 s2 r2 n2 d :
  qwp m1 (fun _ => bumped t s1 r1 n1 d) d -> (forall a d', qwp (m2 a) (fun _ => bumped t s2 r2 n2 d') d') ->
  qwp (qbind m1 m2) (fun _ => bumped t (s1 + s2) (r1 + r2) (n1 + n2) d) d.
Proof.
  intros H1 H2. apply qwp_bind. eapply qwp_mono; [exact H1|]. intros a d' B1. eapply qwp_mono; [apply H2|].
  intros b d'' B2. exact (bumped_trans _ _ _ _ _ _ _ _ _ _ B1 B2).
Qed.

(** ** What a mutation stands for *)

(** The two things that are counted of a file. *)
Definition weighs := FileMeta -> Z.
Definition bytesOf : weighs := SizeBytes.
Definition mediaOf : weighs := fun fm => Z.b2z (IsMedia fm).

Definition mkMeta (size : Z) (isMedia : bool) : FileMeta := {| SizeBytes := size; IsMedia := isMedia |}.

(** How much a mutation changes what is counted. *)
Definition delta (w : weighs) (mu : mutation) : Z :=
  match mu with
  | FileCreate _ s m => w (mkMeta s m)
  | FileOverwrite _ s0 m0 s1 m1 => w (mkMeta s1 m1) - w (mkMeta s0 m0)
  | UploadComplete _ _ _ s0 m0 s1 m1 => w (mkMeta s1 m1) - w (mkMeta s0 m0)
  | _ => 0
  end.

(** The mutations that the backend writes today: an upload reserves the size it ends up
    with, and deletions go through the file-GC queue. *)
Definition current (mu : mutation) : Prop :=
  match mu with
  | UploadComplete _ _ reserved _ _ newSize _ => reserved = newSize
  | FileDelete _ _ _ => False
  | _ => True
  end.

(** The reservation that a completion will settle holds what it releases. *)
Definition fitsReservation (d : qdb) (t : string) (mu : mutation) : Prop :=
  match mu with
  | UploadComplete k _ reserved _ _ _ _ => forall r, reservations d !! (t, k) = Some r -> RReservedBytes r = reserved
  | _ => True
  end.

(** Reserved bytes beyond the active reservations. *)
Definition slack (d : qdb) (t : string) : Z := ReservedBytes (GetQuotaUsage d t) - activeSum t (reservations d).

(** No reservation changes its size. *)
Definition sizesKept (d d' : qdb) : Prop :=
  forall k r', reservations d' !! k = Some r' -> exists r, reservations d !! k = Some r /\ RReservedBytes r = RReservedBytes r'.

Lemma mediaDelta_spec a b : mediaDelta a b = Z.b2z b - Z.b2z a.
Proof. by destruct a, b. Qed.

(** ** Sums over the rows of a tenant *)

Section tenant_sum.
Context {A : Type} (f : A -> Z) (t : string).
Implicit Types m : gmap (string * string) A.

Lemma tenantSum_insert m t' k v :
  map_sum f (ofTenant t (<[(t', k) := v]> m))
  = map_sum f (ofTenant t m) + (if decide (t' = t) then f v - default 0 (f <$> m !! (t', k)) else 0).
Proof.
  unfold ofTenant. case_decide as E.
  - rewrite map_filter_insert_True, map_sum_insert by done. rewrite map_lookup_filter.
    destruct (m !! (t', k)) as [x|]; cbn; [rewrite option_guard_True by done; cbn|]; lia.
  - rewrite map_filter_insert_False by done. rewrite map_filter_delete_not; [lia|]. by intros y _.
Qed.

Lemma tenantSum_delete m t' k :
  map_sum f (ofTenant t (delete (t', k) m))
  = map_sum f (ofTenant t m) - (if decide (t' = t) then default 0 (f <$> m !! (t', k)) else 0).
Proof.
  destruct (m !! (t', k)) as [v|] eqn:E.
  - rewrite <- (insert_delete_id m (t', k) v E) at 2. rewrite tenantSum_insert, lookup_delete_eq. cbn. case_decide; lia.
  - rewrite delete_id by done. cbn. case_decide; lia.
Qed.

(** An update of every row, by how much it lowers the sum. *)
Lemma tenantSum_update (g : string * string -> A -> A) (h : A -> Z) m :
  (forall k x, fst k = t -> f (g k x) = f x - h x) ->
  map_sum f (ofTenant t (map_imap (fun k x => Some (g k x)) m)) = map_sum f (ofTenant t m) - map_sum h (ofTenant t m).
Proof.
  intros Hg. induction m as [|[t' k] x m Hm IH] using map_ind.
  { rewrite map_imap_empty. unfold ofTenant. rewrite map_filter_empty, !map_sum_empty. lia. }
  rewrite map_imap_insert_Some with (y := g (t', k) x) by done.
  assert (map_imap (fun k x => Some (g k x)) m !! (t', k) = None) as Hi by (by rewrite map_lookup_imap, Hm).
  unfold ofTenant in *. destruct (decide (t' = t)) as [->|Hne].
  - rewrite !map_filter_insert_True, !map_sum_insert_new by (try done; by rewrite map_lookup_filter, ?Hi, ?Hm).
    rewrite IH, Hg by done. lia.
  - rewrite !map_filter_insert_not' by (cbn; intros; congruence). exact IH.
Qed.

End tenant_sum.

(** ** One mutation *)

(** What applying a mutation of a tenant does to the accounts. *)
Definition counted (t : string) (mu : mutation) (d d' : qdb) : Prop :=
  (forall t', StorageBytes (GetQuotaUsage d' t')
                = StorageBytes (GetQuotaUsage d t') + (if decide (t' = t) then delta bytesOf mu else 0)
              /\ MediaFileCount (GetQuotaUsage d' t')
                = MediaFileCount (GetQuotaUsage d t') + (if decide (t' = t) then delta mediaOf mu else 0)
              /\ slack d' t' = slack d t')
  /\ mutation_log d' = mutation_log d /\ next_id d' = next_id d /\ sizesKept d d'.

Lemma sizesKept_same d d' : reservations d' = reservations d -> sizesKept d d'.
Proof. intros E k r' H. rewrite E in H. eauto. Qed.

Lemma bumped_counted t mu s m d d' :
  bumped t s 0 m d d' -> s = delta bytesOf mu -> m = delta mediaOf mu -> counted t mu d d'.
Proof.
  intros (U & R & L & N) -> ->. split; [|by split_and!; [| |apply sizesKept_same]]. intros t'. unfold slack. rewrite U, R.
  case_decide; [subst t'|rewrite !Z.add_0_r; done]. cbn. split_and!; lia.
Qed.

Lemma upsert_bumped t f s m t' d : qwp (UpsertFileMetaTx t f s m) (fun _ => bumped t' 0 0 0 d) d.
Proof. by apply bumped_refl. Qed.

Lemma fileCreate_counted t f s m d : qwp (applyFileCreateTx t f s m) (fun _ => counted t (FileCreate f s m) d) d.
Proof.
  eapply qwp_mono; [apply qwp_bumped with (s1 := 0) (r1 := 0) (n1 := 0); [apply upsert_bumped|intros _ d1]|].
  - apply qwp_bumped with (s1 := s) (r1 := 0) (n1 := 0) (s2 := 0) (r2 := 0) (n2 := Z.b2z m).
    + apply unless_bumped. lia.
    + intros _ d2. destruct m; [apply (incrUsage_bumped t 0 0 1)|by apply bumped_refl].
  - intros [] d' H. eapply bumped_counted; [exact H|cbn; unfold bytesOf; cbn; lia|cbn; unfold mediaOf; cbn; lia].
Qed.

Lemma fileOverwrite_counted t f s0 m0 s1 m1 d :
  qwp (applyFileOverwriteTx t f s0 m0 s1 m1) (fun _ => counted t (FileOverwrite f s0 m0 s1 m1) d) d.
Proof.
  eapply qwp_mono; [apply qwp_bumped with (s1 := 0) (r1 := 0) (n1 := 0); [apply upsert_bumped|intros _ d1]|].
  - apply qwp_bumped with (s1 := s1 - s0) (r1 := 0) (n1 := 0) (s2 := 0) (r2 := 0) (n2 := mediaDelta m0 m1).
    + apply unless_bumped. lia.
    + intros _ d2. apply unless_bumped. lia.
  - intros [] d' H. eapply bumped_counted; [exact H|cbn; unfold bytesOf; cbn; lia|cbn; rewrite mediaDelta_spec; unfold mediaOf; cbn; lia].
Qed.

Lemma llm_counted t month ty k c u n d :
  qwp (applyLLMCostTx t month ty k c u n) (fun _ => counted t (LLMCostRecord ty k c u n) d) d.
Proof. cbn. apply (bumped_counted _ _ 0 0); [by apply bumped_refl|done|done]. Qed.

(** The part of a completion after the reservation. *)
Lemma completeRest_bumped t f s0 m0 s1 m1 d :
  qwp (unless (s0 =? 0) (IncrStorageBytesTx t (- s0)) >> UpsertFileMetaTx t f s1 m1 >>
       unless (mediaDelta m0 m1 =? 0) (IncrMediaFileCountTx t (mediaDelta m0 m1)))
    (fun _ => bumped t (- s0) 0 (mediaDelta m0 m1) d) d.
Proof.
  eapply qwp_mono; [apply qwp_bumped with (s1 := - s0) (r1 := 0) (n1 := 0); [apply unless_bumped; lia|intros _ d1]|].
  - apply qwp_bumped with (s1 := 0) (r1 := 0) (n1 := 0) (s2 := 0) (r2 := 0) (n2 := mediaDelta m0 m1); [apply upsert_bumped|].
    intros _ d2. apply unless_bumped. lia.
  - intros [] d' H. by rewrite !Z.add_0_r, !Z.add_0_l in H.
Qed.

Lemma activeSum_settle t t' k r st m : m !! (t, k) = Some r -> isActive r = true -> st <> Active ->
  activeSum t' (<[(t, k) := withRStatus st r]> m) = activeSum t' m - (if decide (t = t') then RReservedBytes r else 0).
Proof.
  intros Hr Ha Hst. unfold activeSum. rewrite tenantSum_insert, Hr. cbn. unfold activeBytes. rewrite Ha.
  unfold isActive. cbn. rewrite bool_decide_eq_false_2 by done. case_decide; lia.
Qed.

Lemma uploadComplete_counted t k f n s0 m0 m1 d :
  (forall r, reservations d !! (t, k) = Some r -> RReservedBytes r = n) ->
  qwp (applyUploadCompleteTx t k f n s0 m0 n m1) (fun _ => counted t (UploadComplete k f n s0 m0 n m1) d) d.
Proof.
  intros Hfit. unfold applyUploadCompleteTx. apply qwp_bind. unfold SettleActiveReservationTx at 1, qwp at 1, qbind at 1, qread.
  assert (qwp (unless (n =? 0) (IncrStorageBytesTx t n) >> unless (s0 =? 0) (IncrStorageBytesTx t (- s0)) >>
    UpsertFileMetaTx t f n m1 >> unless (mediaDelta m0 m1 =? 0) (IncrMediaFileCountTx t (mediaDelta m0 m1)))
    (fun _ => counted t (UploadComplete k f n s0 m0 n m1) d) d) as Hdirect.
  { eapply qwp_mono; [apply qwp_bumped with (s1 := n) (r1 := 0) (n1 := 0);
      [apply unless_bumped; lia|intros _ d1; apply completeRest_bumped]|].
    intros [] d' H. eapply bumped_counted; [exact H|cbn; unfold bytesOf; cbn; lia|cbn; rewrite mediaDelta_spec; unfold mediaOf; cbn; lia]. }
  destruct (reservations d !! (t, k)) as [r|] eqn:Hr; [|exact Hdirect].
  destruct (isActive r) eqn:Ha; [|exact Hdirect]. clear Hdirect. specialize (Hfit r eq_refl). subst n.
  cbn [qbind qmodify qret]. set (d1 := set_reservations _ d).
  eapply qwp_mono; [apply qwp_bumped with (s1 := RReservedBytes r) (r1 := - RReservedBytes r) (n1 := 0);
    [apply incrUsage_bumped|intros _ d2; apply completeRest_bumped]|].
  intros [] d' (U & R & L & N). split; [|split_and!; [done..|]].
  - intros t'. unfold slack. rewrite U, R. cbn [d1 set_reservations reservations].
    rewrite (activeSum_settle t t' k r Completed) by done. change (GetQuotaUsage d1) with (GetQuotaUsage d).
    destruct (decide (t' = t)) as [->|Hne].
    + rewrite decide_True by done. cbn. rewrite mediaDelta_spec. unfold bytesOf, mediaOf. cbn. split_and!; lia.
    + rewrite decide_False by done. split_and!; lia.
  - intros kk r' H. rewrite R in H. cbn in H. apply lookup_insert_Some in H as [[<- <-]|[_ H]]; eauto.
Qed.

Lemma applyMutation_counted month t mu d :
  current mu -> fitsReservation d t mu -> qwp (applyMutation month t mu) (fun _ => counted t mu d) d.
Proof.
  destruct mu; cbn [applyMutation current fitsReservation]; intros Hc Hf.
  - apply fileCreate_counted.
  - apply fileOverwrite_counted.
  - done.
  - subst. by apply uploadComplete_counted.
  - apply llm_counted.
  - done.
  - apply (bumped_counted _ _ 0 0); [by apply bumped_refl|done|done].
Qed.

(** ** What the outbox still owes *)

Definition unapplied (w : weighs) (t : string) (e : MutationLogEntry) : Z :=
  if bool_decide (MTenantID e = t) && negb (bool_decide (MStatus e = Applied)) then delta w (Mutation e) else 0.
Definition owed (w : weighs) (t : string) (d : qdb) : Z := map_sum (unapplied w t) (mutation_log d).

(** The counters once the outbox is applied. *)
Definition bytesDue (d : qdb) (t : string) : Z := StorageBytes (GetQuotaUsage d t) + owed bytesOf t d.
Definition mediaDue (d : qdb) (t : string) : Z := MediaFileCount (GetQuotaUsage d t) + owed mediaOf t d.

(** Work that changes no account: the sums of every tenant are the same, the entries of
    the outbox stand for the same mutations and the reservations keep their sizes. *)
Definition conserves (d d' : qdb) : Prop :=
  (forall t, bytesDue d' t = bytesDue d t /\ mediaDue d' t = mediaDue d t /\ slack d' t = slack d t)
  /\ (forall id e', mutation_log d' !! id = Some e' ->
        exists e, mutation_log d !! id = Some e /\ MTenantID e = MTenantID e' /\ Mutation e = Mutation e')
  /\ next_id d' = next_id d /\ sizesKept d d'.

#[export] Instance conserves_preorder : PreOrder conserves.
Proof.
  split.
  - intros d. split_and!; [done|eauto|done|by apply sizesKept_same].
  - intros d1 d2 d3 (S1 & L1 & N1 & K1) (S2 & L2 & N2 & K2). split_and!; [|..|congruence|].
    + intros t. destruct (S1 t) as (? & ? & ?), (S2 t) as (? & ? & ?). split_and!; congruence.
    + intros id e3 H3. destruct (L2 _ _ H3) as (e2 & H2 & ? & ?). destruct (L1 _ _ H2) as (e1 & H1 & ? & ?).
      exists e1. split_and!; congruence.
    + intros k r3 H3. destruct (K2 _ _ H3) as (r2 & H2 & ?). destruct (K1 _ _ H2) as (r1 & H1 & ?). exists r1.
      split; congruence.
Qed.

(** Only the counters and the reservations are at stake. *)
Lemma conserves_usage d d' :
  (forall t, StorageBytes (GetQuotaUsage d' t) = StorageBytes (GetQuotaUsage d t)
             /\ MediaFileCount (GetQuotaUsage d' t) = MediaFileCount (GetQuotaUsage d t) /\ slack d' t = slack d t) ->
  mutation_log d' = mutation_log d -> next_id d' = next_id d -> sizesKept d d' -> conserves d d'.
Proof.
  intros H E N K. split_and!; [|by rewrite E; eauto|done|done]. intros t. destruct (H t) as (? & ? & ?).
  unfold bytesDue, mediaDue, owed. rewrite E. split_and!; congruence.
Qed.

Lemma conserves_same d d' :
  usages d' = usages d -> reservations d' = reservations d -> mutation_log d' = mutation_log d -> next_id d' = next_id d ->
  conserves d d'.
Proof.
  intros E1 E2 E3 E4. apply conserves_usage; [|done|done|by apply sizesKept_same]. intros t. unfold slack, GetQuotaUsage.
  by rewrite E1, E2.
Qed.

(** The same for all but the reserved bytes of some tenants. *)
Definition conservesBut (ts : gset string) (d d' : qdb) : Prop :=
  (forall t, bytesDue d' t = bytesDue d t /\ mediaDue d' t = mediaDue d t /\ (t ∉ ts -> slack d' t = slack d t))
  /\ (forall id e', mutation_log d' !! id = Some e' ->
        exists e, mutation_log d !! id = Some e /\ MTenantID e = MTenantID e' /\ Mutation e = Mutation e')
  /\ next_id d' = next_id d /\ sizesKept d d'.

Lemma conserves_but ts d d' : conserves d d' -> conservesBut ts d d'.
Proof. intros (S & L & N & K). split_and!; try done. intros t. destruct (S t) as (? & ? & ?). by split_and!. Qed.

Lemma conservesBut_usage ts d d' :
  (forall t, StorageBytes (GetQuotaUsage d' t) = StorageBytes (GetQuotaUsage d t)
             /\ MediaFileCount (GetQuotaUsage d' t) = MediaFileCount (GetQuotaUsage d t)
             /\ (t ∉ ts -> slack d' t = slack d t)) ->
  mutation_log d' = mutation_log d -> next_id d' = next_id d -> sizesKept d d' -> conservesBut ts d d'.
Proof.
  intros H E N K. split_and!; [|by rewrite E; eauto|done|done]. intros t. destruct (H t) as (? & ? & ?).
  unfold bytesDue, mediaDue, owed. rewrite E. split_and!; [congruence..|done].
Qed.

(** Marking an entry of the outbox, one way or the other. *)
Lemma owed_insert w t d id e e' :
  mutation_log d !! id = Some e ->
  owed w t (set_mutation_log (<[id := e']> (mutation_log d)) d) = owed w t d + unapplied w t e' - unapplied w t e.
Proof. intros H. unfold owed. cbn. rewrite map_sum_insert, H. cbn. lia. Qed.

Lemma IncrMutationRetry_conserves id n d : conserves d (IncrMutationRetry id n d).
Proof.
  unfold IncrMutationRetry. destruct (mutation_log d !! id) as [e|] eqn:E.
  - erewrite alter_is_insert by exact E. set (e' := if bool_decide (MStatus e = Pending) then _ else _).
    assert (MTenantID e' = MTenantID e /\ Mutation e' = Mutation e) as [Et Em] by (unfold e'; case_bool_decide; done).
    assert (bool_decide (MStatus e' = Applied) = bool_decide (MStatus e = Applied)) as Es.
    { unfold e'. destruct (bool_decide (MStatus e = Pending)) eqn:Hp; [|done]. bool_prop. cbn. rewrite Hp. by destruct (n <=? _). }
    split_and!; [|..|done|by apply sizesKept_same].
    + intros t. unfold bytesDue, mediaDue. rewrite !(owed_insert _ _ _ _ e) by done. unfold unapplied. rewrite Et, Em, Es.
      split_and!; [| |done]; unfold GetQuotaUsage; cbn; lia.
    + intros id' e0. cbn. intros [[<- <-]|[_ H]]%lookup_insert_Some; eauto.
  - rewrite alter_id; [by apply conserves_same|]. congruence.
Qed.

(** Applying an entry of the outbox and marking it. *)
Lemma applyEntry_conserves month now id e d :
  mutation_log d !! id = Some e -> current (Mutation e) -> fitsReservation d (MTenantID e) (Mutation e) ->
  qwp (applyEntryTx month now id (MTenantID e) (Mutation e)) (fun _ => conserves d) d.
Proof.
  intros He Hc Hf. unfold applyEntryTx. apply qwp_bind. eapply qwp_mono; [by apply applyMutation_counted|].
  intros [] d1 (HU & HL & HN & HK). unfold MarkMutationAppliedTx, qwp, qbind, qread. rewrite HL, He.
  destruct (bool_decide (MStatus e = Pending)) eqn:Hp; [|done]. bool_prop. cbn. rewrite <- HL.
  assert (mutation_log d1 !! id = Some e) as He1 by congruence.
  set (e' := withMStatus _ _ _ e). split_and!; [|..|done|done].
  - intros t. unfold bytesDue, mediaDue. rewrite !(owed_insert _ _ _ _ e) by done.
    destruct (HU t) as (E1 & E2 & E3).
    change (GetQuotaUsage (set_mutation_log (<[id:=e']> (mutation_log d1)) d1) t) with (GetQuotaUsage d1 t).
    change (slack (set_mutation_log (<[id:=e']> (mutation_log d1)) d1) t) with (slack d1 t).
    rewrite E1, E2, E3. unfold owed. rewrite HL. unfold unapplied. cbn. rewrite Hp. cbn. rewrite andb_false_r, andb_true_r.
    destruct (decide (t = MTenantID e)) as [->|Hne]; [rewrite bool_decide_eq_true_2 by done|
      rewrite bool_decide_eq_false_2 by congruence]; split_and!; lia.
  - intros id' e0. cbn. rewrite HL. intros [[<- <-]|[_ H]]%lookup_insert_Some; eauto.
Qed.

(** ** Reservations *)

Lemma bumped_slack t s r m d d' t' :
  bumped t s r m d d' -> slack d' t' = slack d t' + (if decide (t' = t) then r else 0).
Proof. intros (U & R & _). unfold slack. rewrite U, R. case_decide; [subst; cbn; lia|lia]. Qed.

(** Settling an active reservation. *)
Lemma settle_step t k st d : st <> Active ->
  qwp (SettleActiveReservationTx t k st) (fun settled d' =>
    usages d' = usages d /\ mutation_log d' = mutation_log d /\ next_id d' = next_id d /\ sizesKept d d'
    /\ (if settled then exists r, reservations d !! (t, k) = Some r /\ isActive r = true
             /\ forall t', slack d' t' = slack d t' + (if decide (t' = t) then RReservedBytes r else 0)
        else d' = d /\ forall r, reservations d !! (t, k) = Some r -> isActive r = false)) d.
Proof.
  intros Hst. unfold SettleActiveReservationTx, qwp, qbind, qread.
  destruct (reservations d !! (t, k)) as [r|] eqn:Hr; [|by split_and!; try done; apply sizesKept_same].
  destruct (isActive r) eqn:Ha.
  2: { split_and!; try done; [by apply sizesKept_same|]. by intros r' [= <-]. }
  cbn. split_and!; try done.
  - intros kk r' H. cbn in H. apply lookup_insert_Some in H as [[<- <-]|[_ H]]; eauto.
  - exists r. split_and!; try done. intros t'. unfold slack. cbn [set_reservations reservations].
    rewrite (activeSum_settle t t' k r st) by done. unfold GetQuotaUsage. cbn. repeat case_decide; subst; try done; lia.
Qed.

(** The transaction of an abort: it conserves what there is if the row is the one that was
    read, and otherwise all but the reserved bytes of the tenant. *)
Lemma abortRelease_conserves up t k r d ts :
  (t ∉ ts -> reservations d !! (t, k) = Some r /\ isActive r = true) -> conservesBut ts d (abortRelease up t k r d).
Proof.
  intros Hr. unfold abortRelease. apply qwp_tryTx; [by apply conserves_but|]. apply qwp_bind.
  eapply qwp_mono; [apply incrUsage_bumped|]. intros [] d1 B. pose proof B as (U & R & L & N).
  unfold UpdateUploadReservationStatusTx. apply qwp_bind. eapply qwp_mono; [by apply settle_step|].
  intros settled d2 (E1 & E2 & E3 & E4 & E5). apply conservesBut_usage; [|congruence|congruence|].
  - intros t'. assert (GetQuotaUsage d2 t' = GetQuotaUsage d1 t') as Eu by (unfold GetQuotaUsage; by rewrite E1).
    rewrite Eu, U. split_and!; [case_decide; subst; cbn; lia..|]. intros Hts.
    destruct settled.
    + destruct E5 as (r' & Hr' & _ & Hs). rewrite Hs, (bumped_slack _ _ _ _ _ _ _ B).
      case_decide; [subst t'|lia]. destruct (Hr Hts) as [Hr0 _]. assert (r' = r) as -> by congruence. lia.
    + destruct E5 as [-> E5]. rewrite (bumped_slack _ _ _ _ _ _ _ B). case_decide; [subst t'|lia].
      destruct (Hr Hts) as [Hr0 Ha]. rewrite R in E5. rewrite (E5 r Hr0) in Ha. done.
  - intros kk r' H. destruct (E4 _ _ H) as (r1 & H1 & ?). rewrite R in H1. eauto.
Qed.

(** Releasing the sums of distinct tenants. *)
Lemma releaseAll_step (s : string -> Z) ts d : NoDup ts ->
  qwp (releaseAll ((fun t => (t, s t)) <$> ts)) (fun _ d' =>
    (forall t, GetQuotaUsage d' t = addUsage 0 (if decide (t ∈ ts) then - s t else 0) 0 (GetQuotaUsage d t))
    /\ reservations d' = reservations d /\ mutation_log d' = mutation_log d /\ next_id d' = next_id d) d.
Proof.
  revert d. induction ts as [|t ts IH]; intros d Hn.
  { cbn. split_and!; try done. intros t. by rewrite decide_False by apply not_elem_of_nil; rewrite addUsage_0. }
  apply NoDup_cons in Hn as [Hnin Hn]. cbn [fmap list_fmap releaseAll]. apply qwp_bind.
  eapply qwp_mono; [apply incrUsage_bumped|]. intros [] d1 (U & R & L & N). apply qwp_bind.
  eapply qwp_mono; [by apply IH|]. intros z d2 (U2 & R2 & L2 & N2). cbn. split_and!; try congruence.
  intros t'. rewrite U2, U. destruct (decide (t' = t)) as [->|Hne].
  - rewrite (decide_False (P := t ∈ ts)) by done. rewrite decide_True by left. destruct (GetQuotaUsage d t). unfold addUsage. cbn.
    f_equal; lia.
  - erewrite (decide_ext (t' ∈ ts) (t' ∈ t :: ts)); [done|]. rewrite elem_of_cons. by intuition.
Qed.

Lemma expiredSum_none now t d : t ∉ expiredTenants now d -> expiredSum now t (reservations d) = 0.
Proof.
  unfold expiredTenants. rewrite elem_of_remove_dups. intros H. unfold expiredSum.
  apply map_sum_zero. intros [t' k] r Hr. apply map_lookup_filter_Some in Hr as [Hr E]. cbn in E. subst t'.
  unfold expiredBytes. destruct (isExpired now r) eqn:Ex; [|done]. destruct H. apply list_elem_of_fmap.
  exists ((t, k), r). split; [done|]. by apply elem_of_map_to_list, map_lookup_filter_Some.
Qed.

Lemma sweep_conserves up order now d :
  (forall l, order l ≡ₚ l) -> conserves d (sweep up order now d).
Proof.
  intros Ho. unfold sweep. apply qwp_tryTx; [reflexivity|]. unfold ExpireActiveReservations. apply qwp_bind.
  change (qwp (do total <- releaseAll ((fun t => (t, expiredSum now t (reservations d))) <$> order (expiredTenants now d));
    qmodify (fun d => set_reservations ((fun r => if isExpired now r then withRStatus Aborted r else r) <$> reservations d) d) >>
    qret total) (fun _ => conserves d) d). apply qwp_bind.
  eapply qwp_mono; [apply releaseAll_step; rewrite Ho; apply NoDup_remove_dups|].
  intros z d1 (U & R & L & N). cbn. apply conserves_usage; [|done|done|].
  - intros t. set (d2 := set_reservations _ d1). change (GetQuotaUsage d2 t) with (GetQuotaUsage d1 t).
    rewrite U. cbn. split_and!; [lia..|]. unfold slack. change (GetQuotaUsage d2 t) with (GetQuotaUsage d1 t). rewrite U.
    cbn [d2 set_reservations reservations]. rewrite R. unfold activeSum.
    assert ((fun r => if isExpired now r then withRStatus Aborted r else r) <$> reservations d
      = map_imap (fun _ r => Some (if isExpired now r then withRStatus Aborted r else r)) (reservations d)) as ->.
    { apply map_eq. intros k. rewrite lookup_fmap, map_lookup_imap. by destruct (reservations d !! k). }
    rewrite (tenantSum_update _ _ _ (expiredBytes now)).
    2: { intros k r _. unfold activeBytes, expiredBytes. unfold isExpired. destruct (isActive r) eqn:Ha; cbn.
         - destruct (ExpiresAt r <? now); [change (isActive (withRStatus Aborted r)) with false|rewrite Ha]; cbv iota; lia.
         - rewrite Ha. lia. }
    fold (expiredSum now t (reservations d)). cbn. case_decide as Hin; [lia|]. rewrite Ho in Hin.
    rewrite (expiredSum_none now t d Hin). lia.
  - intros k r'. cbn. rewrite R, lookup_fmap. intros (r & Hr & ->)%fmap_Some. exists r. split; [done|]. by case_match.
Qed.


Lemma ensureRow_conserves t d : conserves d (EnsureQuotaUsageRow t d).
Proof.
  unfold EnsureQuotaUsageRow. destruct (usages d !! t) eqn:E; [reflexivity|].
  assert (forall t', GetQuotaUsage (set_usages (<[t := {| StorageBytes := 0; ReservedBytes := 0; MediaFileCount := 0 |}]>
    (usages d)) d) t' = GetQuotaUsage d t') as Eu.
  { intros t'. unfold GetQuotaUsage. cbn. rewrite lookup_insert. case_decide; [subst; by rewrite E|done]. }
  apply conserves_usage; [|done|done|by apply sizesKept_same]. intros t'. unfold slack. by rewrite Eu.
Qed.

(** Aborting all reservations of a tenant whose counter agrees with them. *)
Lemma abortActive_conserves t d ts :
  (t ∉ ts -> slack d t = 0) -> conservesBut ts d (fst (InTx (AbortActiveUploadReservations t) d)).
Proof.
  intros H0. apply qwp_InTx; [by apply conserves_but|].
  unfold AbortActiveUploadReservations. apply qwp_bind.
  change (qwp ((if activeSum t (reservations d) =? 0 then qret tt
   else match usages d !! t with
        | None => qthrow ErrUsageRowMissing
        | Some u => let rest := Z.max (ReservedBytes u - activeSum t (reservations d)) 0 in
            if rest =? ReservedBytes u then qthrow ErrUsageRowMissing
            else qmodify (set_usages (<[t := {| StorageBytes := StorageBytes u; ReservedBytes := rest;
                                                MediaFileCount := MediaFileCount u |}]> (usages d)))
        end) >>
    qmodify (fun d => set_reservations
      (map_imap (fun k r => Some (if bool_decide (fst k = t) && isActive r then withRStatus Aborted r else r))
         (reservations d)) d)) (fun _ => conservesBut ts d) d).
  apply qwp_bind. eapply (qwp_mono _ (fun _ d1 => exists n, bumped t 0 n 0 d d1 /\ (t ∉ ts -> n = - activeSum t (reservations d)))).
  - destruct (Z.eqb_spec (activeSum t (reservations d)) 0) as [->|Hne]; [by exists 0; split; [apply bumped_refl|]|].
    destruct (usages d !! t) as [u|] eqn:Eu; [|done]. cbv zeta.
    destruct (Z.max _ 0 =? ReservedBytes u) eqn:Em; [done|]. cbn.
    exists (Z.max (ReservedBytes u - activeSum t (reservations d)) 0 - ReservedBytes u). unfold slack, GetQuotaUsage in *.
    rewrite Eu in H0. cbn in H0. split; [|intros Hts; specialize (H0 Hts); lia]. split_and!; try done. intros t'.
    unfold GetQuotaUsage. cbn. rewrite lookup_insert.
    destruct (decide (t = t')) as [<-|Hn]; [rewrite decide_True, Eu by done|by rewrite decide_False by congruence].
    unfold addUsage. cbn. f_equal; lia.
  - intros [] d1 (n & (U & R & L & N) & Hn). cbn. apply conservesBut_usage; [|done|done|].
    + intros t'. unfold slack. set (d2 := set_reservations _ d1). change (GetQuotaUsage d2) with (GetQuotaUsage d1).
      rewrite U. cbn [d2 set_reservations reservations]. rewrite R. unfold activeSum in *.
      destruct (decide (t' = t)) as [->|Hne]; cbn [addUsage StorageBytes MediaFileCount ReservedBytes]; split_and!; try lia; intros Hts.
      * specialize (Hn Hts). rewrite (tenantSum_update _ _ _ activeBytes); [lia|]. intros k r Hk. rewrite bool_decide_eq_true_2 by done.
        unfold activeBytes. cbn [andb]. destruct (isActive r) eqn:Ha; [|rewrite Ha; lia].
        change (isActive (withRStatus Aborted r)) with false. cbv iota. lia.
      * rewrite (tenantSum_update _ _ _ (fun _ => 0)); [rewrite (map_sum_zero (fun _ : UploadReservation => 0)) by done; lia|].
        intros k r Hk. rewrite bool_decide_eq_false_2 by congruence. cbn. lia.
    + intros k r'. cbn. rewrite R, map_lookup_imap. destruct (reservations d !! k) as [r|]; [|done]. cbn. intros [= <-].
      exists r. split; [done|]. by case_match.
Qed.

End QuotaLedger.
