(* ===== verification/QuotaProps.v ===== *)
(** * The central quota accounts exactly

    Histories of the calls of [QuotaSync] on the tables of [QuotaStore], in which the
    central database may be lost at any time: what the counters say in terms of the files
    that the tenants have, the mutations that are still to be applied and the ones that
    never reached the outbox; that replaying drains the outbox; that reservations respect
    the limit; and the races in which the accounts go wrong. *)

From S2P Require Import Prelude GoStrings QuotaStore QuotaSync QuotaLedger.

Import GoStr QuotaStore QuotaSync QuotaLedger.

Module QuotaProps.

(** ** Histories *)

(** The tables, the files that tenants have and that are to be charged, and the mutations
    that could not be written to the outbox.  Calls under way: the aborts that have read
    an active reservation, and the cleanups that have read the metadata of a file, and have
    not run their transaction.  What went wrong so far: the cleanups with the metadata that
    was charged and the metadata that was given back, and the tenants of which a
    reservation was released by an abort after something else had settled it. *)
Record world := {
  quota : qdb;
  charged : gmap (string * string) FileMeta;
  missed : list (string * mutation);
  aborts : list (string * string * UploadReservation);
  cleanups : list (string * string * cleanupPlan);
  cleaned : list (string * FileMeta * FileMeta);
  overtaken : gset string
}.

Definition chargedSum (w : weighs) (t : string) (x : world) : Z := map_sum w (ofTenant t (charged x)).
Definition missedSum (w : weighs) (t : string) (x : world) : Z :=
  foldr (fun p acc => (if decide (fst p = t) then delta w (snd p) else 0) + acc) 0 (missed x).

(** What the cleanups of a tenant have left charged. *)
Definition cleanedSum (w : weighs) (t : string) (x : world) : Z :=
  foldr (fun p acc => (if decide (fst (fst p) = t) then w (snd (fst p)) - w (snd p) else 0) + acc) 0 (cleaned x).

(** The upload is not yet reported as complete. *)
Definition notCompleted (d : qdb) (t k : string) : Prop :=
  forall id e, mutation_log d !! id = Some e -> MTenantID e = t ->
    match Mutation e with UploadComplete k' _ _ _ _ _ _ => k' <> k | _ => True end.

Definition withQuota (d : qdb) (x : world) : world :=
  {| quota := d; charged := charged x; missed := missed x; aborts := aborts x; cleanups := cleanups x;
     cleaned := cleaned x; overtaken := overtaken x |}.
Definition withFiles (d : qdb) (ch : gmap (string * string) FileMeta) (ms : list (string * mutation)) (x : world) : world :=
  {| quota := d; charged := ch; missed := ms; aborts := aborts x; cleanups := cleanups x;
     cleaned := cleaned x; overtaken := overtaken x |}.

(** What the transaction of a cleanup gives back: the metadata as it was read, if there is
    still a row. *)
Definition givenBack (d : qdb) (t f : string) (plan : cleanupPlan) : FileMeta :=
  match plan, file_meta d !! (t, f) with CleanupFile fm, Some _ => fm | _, _ => mkMeta 0 false end.

#[global] Instance UploadReservation_eq_dec : EqDecision UploadReservation.
Proof. solve_decision. Defined.

(** The reservation is as it was read, and active. *)
Definition asRead (d : qdb) (t k : string) (r : UploadReservation) : bool :=
  bool_decide (reservations d !! (t, k) = Some r) && isActive r.

(** One call of a backend or of a worker; an abort and a cleanup are two steps, a read
    and a transaction, between which anything can happen.  A file is created once and
    overwritten or completed with the size and type it has; an upload is reserved before
    it is complete and completes with the size it reserved. *)
Inductive step : world -> world -> Prop :=
  | step_create x e t f size ct :
      t <> "" -> charged x !! (t, f) = None ->
      step x (withFiles (syncCentralFileCreate e t f size ct (quota x))
                (<[(t, f) := mkMeta size (isQuotaMediaContentType ct)]> (charged x))
                (if upInsert e then missed x
                 else (t, FileCreate f size (isQuotaMediaContentType ct)) :: missed x) x)
  | step_overwrite x e t f fm ct size ct' :
      t <> "" -> charged x !! (t, f) = Some fm -> IsMedia fm = isQuotaMediaContentType ct ->
      step x (withFiles (syncCentralFileOverwrite e t f (SizeBytes fm) ct size ct' (quota x))
                (<[(t, f) := mkMeta size (isQuotaMediaContentType ct')]> (charged x))
                (if upInsert e then missed x
                 else (t, FileOverwrite f (SizeBytes fm) (isQuotaMediaContentType ct) size
                            (isQuotaMediaContentType ct')) :: missed x) x)
  | step_complete x e t k f size media :
      let old := default (mkMeta 0 false) (charged x !! (t, f)) in
      (forall r, reservations (quota x) !! (t, k) = Some r -> RReservedBytes r = size) ->
      step x (withFiles (completeUploadReservation e t k size f (SizeBytes old) (IsMedia old) size media (quota x))
                (<[(t, f) := mkMeta size media]> (charged x))
                (if upInsert e then missed x
                 else (t, UploadComplete k f size (SizeBytes old) (IsMedia old) size media) :: missed x) x)
  | step_cost x e t ty k cost units unit :
      step x (withQuota (syncCentralLLMCostRecord e t ty k cost units unit (quota x)) x)
  | step_reserve x up t k p size now :
      notCompleted (quota x) t k ->
      step x (withQuota (fst (reserveUploadOnServer up t k p size now (quota x))) x)
  | step_abort_read x up t k r :
      abortLookup up t k (quota x) = Some r ->
      step x {| quota := quota x; charged := charged x; missed := missed x; aborts := (t, k, r) :: aborts x;
                cleanups := cleanups x; cleaned := cleaned x; overtaken := overtaken x |}
  | step_abort x up t k r l1 l2 :
      aborts x = l1 ++ (t, k, r) :: l2 ->
      step x {| quota := abortRelease up t k r (quota x); charged := charged x; missed := missed x; aborts := l1 ++ l2;
                cleanups := cleanups x; cleaned := cleaned x;
                overtaken := if negb up || asRead (quota x) t k r then overtaken x else {[t]} ∪ overtaken x |}
  | step_abort_all x t : step x (withQuota (fst (InTx (AbortActiveUploadReservations t) (quota x))) x)
  | step_sweep x up order now : (forall l, order l ≡ₚ l) -> step x (withQuota (sweep up order now (quota x)) x)
  | step_replay x e id entry :
      mutation_log (quota x) !! id = Some entry ->
      step x (withQuota (fst (replayOne e (id, entry) (quota x))) x)
  | step_retry x id n : step x (withQuota (IncrMutationRetry id n (quota x)) x)
  | step_ensure x t : step x (withQuota (EnsureQuotaUsageRow t (quota x)) x)
  | step_config x t cfg : step x (withQuota (SetQuotaConfig t cfg (quota x)) x)
  | step_cleanup_read x up t f :
      t <> "" ->
      step x {| quota := quota x; charged := charged x; missed := missed x; aborts := aborts x;
                cleanups := (t, f, cleanupLookup up t f (quota x)) :: cleanups x; cleaned := cleaned x;
                overtaken := overtaken x |}
  | step_cleanup x up t f plan l1 l2 d' done :
      cleanups x = l1 ++ (t, f, plan) :: l2 -> cleanupApply up t f plan (quota x) = (d', done) ->
      step x {| quota := d'; charged := if done then delete (t, f) (charged x) else charged x; missed := missed x;
                aborts := aborts x; cleanups := l1 ++ l2;
                cleaned := if done then (t, default (mkMeta 0 false) (charged x !! (t, f)), givenBack (quota x) t f plan)
                                        :: cleaned x
                           else cleaned x;
                overtaken := overtaken x |}.

Definition start : world :=
  {| quota := emptyQuota; charged := ∅; missed := []; aborts := []; cleanups := []; cleaned := []; overtaken := ∅ |}.
Definition reachable (x : world) : Prop := rtc step start x.

(** ** The invariant *)

Record worldOk (x : world) : Prop := {
  bytes_account : forall t, bytesDue (quota x) t + missedSum bytesOf t x = chargedSum bytesOf t x + cleanedSum bytesOf t x;
  media_account : forall t, mediaDue (quota x) t + missedSum mediaOf t x = chargedSum mediaOf t x + cleanedSum mediaOf t x;
  no_slack : forall t, t ∉ overtaken x -> slack (quota x) t = 0;
  entries_ok : forall id e, mutation_log (quota x) !! id = Some e ->
    id < next_id (quota x) /\ current (Mutation e) /\ fitsReservation (quota x) (MTenantID e) (Mutation e);
  reserved_some : forall k r, reservations (quota x) !! k = Some r -> RReservedBytes r <> 0
}.

Lemma fits_kept d d' t mu : sizesKept d d' -> fitsReservation d t mu -> fitsReservation d' t mu.
Proof.
  intros K. destruct mu; cbn; try done. intros H r' Hr'. destruct (K _ _ Hr') as (r & Hr & <-). by apply H.
Qed.

(** The invariant reads the tables, the charged and missed files and what went wrong. *)
Lemma worldOk_but x d' ab cl ov :
  worldOk x -> overtaken x ⊆ ov -> conservesBut ov (quota x) d' ->
  worldOk {| quota := d'; charged := charged x; missed := missed x; aborts := ab; cleanups := cl;
             cleaned := cleaned x; overtaken := ov |}.
Proof.
  intros [Hb Hm Hs He Hz] Hov (C & L & N & K). split; cbn.
  - intros t. destruct (C t) as (-> & _). apply Hb.
  - intros t. destruct (C t) as (_ & -> & _). apply Hm.
  - intros t Ht. destruct (C t) as (_ & _ & E). rewrite (E Ht). apply Hs. set_solver.
  - intros id e' He'. destruct (L _ _ He') as (e & Hl & Et & Em). destruct (He _ _ Hl) as (? & ? & ?).
    rewrite N, <- Et, <- Em. split_and!; [done..|]. by eapply fits_kept.
  - intros k r' Hr'. destruct (K _ _ Hr') as (r & Hr & <-). by eapply Hz.
Qed.

Lemma worldOk_conserves x d' : worldOk x -> conserves (quota x) d' -> worldOk (withQuota d' x).
Proof. intros H C. apply worldOk_but; [done|done|by apply conserves_but]. Qed.

Lemma replayOne_ok x e id entry :
  worldOk x -> mutation_log (quota x) !! id = Some entry -> worldOk (withQuota (fst (replayOne e (id, entry) (quota x))) x).
Proof.
  intros H Hl. apply worldOk_conserves; [done|]. destruct (entries_ok _ H _ _ Hl) as (_ & Hc & Hf). unfold replayOne. cbn [fst snd].
  assert (fst (match tryTx (upEntry e id) (applyEntryTx (replayMonth e) (replayAt e) id (MTenantID entry) (Mutation entry)) (quota x)
    with (d, Some (inl _)) => (d, true) | (d, _) => (d, false) end)
    = fst (tryTx (upEntry e id) (applyEntryTx (replayMonth e) (replayAt e) id (MTenantID entry) (Mutation entry)) (quota x))) as ->.
  { by destruct (tryTx _ _ _) as [d [[]|]]. }
  apply qwp_tryTx; [reflexivity|]. by apply applyEntry_conserves.
Qed.

(** A mutation is written to the outbox. *)
Lemma insert_due w t mu now d t' : (forall id e, mutation_log d !! id = Some e -> id < next_id d) ->
  owed w t' (fst (InsertMutationLog t mu now d)) = owed w t' d + (if decide (t = t') then delta w mu else 0).
Proof.
  intros H. unfold owed. cbn. rewrite map_sum_insert_new.
  - unfold unapplied at 1. cbn. rewrite andb_true_r. case_decide; [rewrite bool_decide_eq_true_2 by done|
      rewrite bool_decide_eq_false_2 by done]; lia.
  - destruct (mutation_log d !! next_id d) eqn:E; [|done]. specialize (H _ _ E). lia.
Qed.

(** A file is charged and the change is reported, or missed. *)
Lemma report_ok x e t mu ch :
  worldOk x -> current mu -> fitsReservation (quota x) t mu ->
  (forall w t', w (mkMeta 0 false) = 0 ->
     map_sum w (ofTenant t' ch) = chargedSum w t' x + (if decide (t = t') then delta w mu else 0)) ->
  worldOk (withFiles (applyLogged e t mu (quota x)) ch (if upInsert e then missed x else (t, mu) :: missed x) x).
Proof.
  intros [Hb Hm Hs He Hz] Hc Hf Hd. unfold applyLogged. destruct (upInsert e).
  - destruct (InsertMutationLog t mu (clock e) (quota x)) as [d id] eqn:Ei.
    assert (d = fst (InsertMutationLog t mu (clock e) (quota x))) as Ed by by rewrite Ei.
    set (entry := {| MTenantID := t; Mutation := mu; MStatus := Pending; RetryCount := 0; MCreatedAt := clock e; AppliedAt := None |}).
    assert (mutation_log d !! id = Some entry) as Hid. { injection Ei as <- <-. cbn. by rewrite lookup_insert_eq. }
    assert (worldOk (withFiles d ch (missed x) x)) as H1.
    { split; cbn; unfold missedSum, cleanedSum; try (unfold chargedSum at 1); cbn.
      - intros t'. unfold bytesDue. rewrite Ed, insert_due by (intros; by eapply He). rewrite (Hd bytesOf) by done.
        specialize (Hb t'). unfold bytesDue, missedSum, cleanedSum in Hb.
        change (GetQuotaUsage (fst (InsertMutationLog t mu (clock e) (quota x)))) with (GetQuotaUsage (quota x)). case_decide; lia.
      - intros t'. unfold mediaDue. rewrite Ed, insert_due by (intros; by eapply He). rewrite (Hd mediaOf) by done.
        specialize (Hm t'). unfold mediaDue, missedSum, cleanedSum in Hm.
        change (GetQuotaUsage (fst (InsertMutationLog t mu (clock e) (quota x)))) with (GetQuotaUsage (quota x)). case_decide; lia.
      - intros t'. rewrite Ed. apply Hs.
      - injection Ei as <- <-. cbn. intros id' e'. rewrite lookup_insert. case_decide as Eid.
        + intros [= <-]. cbn. split_and!; [lia|done|done].
        + intros He'. destruct (He _ _ He') as (? & ? & ?). split_and!; [lia|done|done].
      - rewrite Ed. exact Hz. }
    apply (worldOk_conserves _ _ H1). destruct (entries_ok _ H1 _ _ Hid) as (_ & Hc' & Hf').
    apply qwp_tryTx; [reflexivity|]. by apply (applyEntry_conserves _ _ id entry d).
  - split; cbn; try done; unfold missedSum, cleanedSum; try (unfold chargedSum at 1); cbn; intros t'.
    + rewrite (Hd bytesOf) by done. specialize (Hb t'). unfold missedSum, cleanedSum in Hb. case_decide; lia.
    + rewrite (Hd mediaOf) by done. specialize (Hm t'). unfold missedSum, cleanedSum in Hm. case_decide; lia.
Qed.

(** The sums when one file is charged anew. *)
Lemma charge_one x t f fm mu :
  (forall w, w (mkMeta 0 false) = 0 -> delta w mu = w fm - default 0 (w <$> charged x !! (t, f))) ->
  forall w t', w (mkMeta 0 false) = 0 ->
    map_sum w (ofTenant t' (<[(t, f) := fm]> (charged x))) = chargedSum w t' x + (if decide (t = t') then delta w mu else 0).
Proof. intros H w t' H0. rewrite tenantSum_insert, (H w H0). unfold chargedSum. case_decide; lia. Qed.

Lemma reserve_ok x up t k p n now :
  worldOk x -> notCompleted (quota x) t k -> worldOk (withQuota (fst (reserveUploadOnServer up t k p n now (quota x))) x).
Proof.
  intros H Hn. unfold reserveUploadOnServer, tryTx, InTx. destruct up; [|by destruct x].
  unfold AtomicReserveAndInsertUpload, qbind, qread. destruct (usages (quota x) !! t) as [u|] eqn:Eu; [|by destruct x].
  destruct (negb _ || _) eqn:Eg; [by destruct x|]. cbn [qmodify].
  destruct (reservations (quota x) !! (t, k)) as [r0|] eqn:Er; [by destruct x|]. cbn.
  destruct H as [Hb Hm Hs He Hz]. set (d1 := set_reservations _ _).
  assert (forall t', GetQuotaUsage d1 t' = if decide (t' = t) then addUsage 0 n 0 (GetQuotaUsage (quota x) t)
    else GetQuotaUsage (quota x) t') as U.
  { intros t'. unfold GetQuotaUsage. cbn. rewrite lookup_insert, Eu. repeat case_decide; subst; done. }
  split; cbn.
  - intros t'. specialize (Hb t'). unfold bytesDue in *. rewrite U. change (owed bytesOf t' d1) with (owed bytesOf t' (quota x)).
    unfold missedSum, chargedSum, cleanedSum in *. cbn [withQuota charged missed cleaned].
    case_decide; subst; cbn [addUsage StorageBytes MediaFileCount]; lia.
  - intros t'. specialize (Hm t'). unfold mediaDue in *. rewrite U. change (owed mediaOf t' d1) with (owed mediaOf t' (quota x)).
    unfold missedSum, chargedSum, cleanedSum in *. cbn [withQuota charged missed cleaned].
    case_decide; subst; cbn [addUsage StorageBytes MediaFileCount]; lia.
  - intros t' Ht'. specialize (Hs t' Ht'). unfold slack in *. rewrite U. cbn [d1 set_reservations reservations set_usages].
    unfold activeSum in *. rewrite tenantSum_insert, Er.
    destruct (decide (t' = t)) as [->|Hne]; [rewrite decide_True by done|rewrite decide_False by congruence];
      cbn [addUsage ReservedBytes fmap option_fmap option_map default from_option id]; [|lia].
    change (activeBytes _) with n. lia.
  - intros id e Hl. destruct (He id e Hl) as (? & ? & Hf). split_and!; [done..|]. specialize (Hn id e Hl).
    destruct (Mutation e); try done. cbn in *. intros r. rewrite lookup_insert. case_decide as Ek; [|apply Hf].
    injection Ek as E1 E2. by destruct (Hn (eq_sym E1)).
  - intros k' r'. rewrite lookup_insert. case_decide; [|apply Hz]. intros [= <-]. cbn. apply orb_false_iff in Eg as [_ Eg]. lia.
Qed.

(** The transaction of a cleanup lowers the counters by what it gives back. *)
Lemma fileDelete_bumped t f fm d :
  let g := givenBack d t f (CleanupFile fm) in
  qwp (applyFileDeleteTx t f (SizeBytes fm) (IsMedia fm)) (fun _ => bumped t (- SizeBytes g) 0 (- Z.b2z (IsMedia g)) d) d.
Proof.
  unfold givenBack, applyFileDeleteTx, DeleteFileMetaIfExistsTx. unfold qwp, qbind at 1 2, qread at 1. cbn [qmodify qret qbind].
  destruct (file_meta d !! (t, f)) as [x|] eqn:E; cbn; [|by apply bumped_refl].
  set (d1 := set_file_meta _ _). change (qwp (deleteCountersTx t (SizeBytes fm) (IsMedia fm))
    (fun _ => bumped t (- SizeBytes fm) 0 (- Z.b2z (IsMedia fm)) d) d1).
  eapply (qwp_mono _ (fun _ => bumped t (- SizeBytes fm + 0) (0 + 0) (0 + - Z.b2z (IsMedia fm)) d1)).
  - unfold deleteCountersTx. apply qwp_bumped; [apply unless_bumped; lia|]. intros _ d2.
    destruct (IsMedia fm); [apply (incrUsage_bumped t 0 0 (-1))|by apply bumped_refl].
  - intros [] d2. by rewrite !Z.add_0_r, !Z.add_0_l.
Qed.

Lemma cleanupApply_bumped up t f plan d d' :
  cleanupApply up t f plan d = (d', true) ->
  let g := givenBack d t f plan in bumped t (- SizeBytes g) 0 (- Z.b2z (IsMedia g)) d d'.
Proof.
  destruct plan as [| |fm]; cbn [cleanupApply]; try done; [intros [= <-]; by apply bumped_refl|].
  pose proof (fileDelete_bumped t f fm d) as H. unfold tryTx, InTx, qwp in *. destruct up; [|done].
  destruct (applyFileDeleteTx _ _ _ _ _) as [[d1 []]|]; [|done]. by intros [= <-].
Qed.

Lemma cleanupApply_fails up t f plan d d' : cleanupApply up t f plan d = (d', false) -> d' = d.
Proof.
  destruct plan as [| |fm]; cbn [cleanupApply]; try done; [by intros [= <-]|]. unfold tryTx, InTx. destruct up; [|by intros [= <-]].
  destruct (applyFileDeleteTx _ _ _ _ _) as [[d1 []]|]; [done|]. by intros [= <-].
Qed.

Lemma cleanup_ok x up t f plan d' done cl :
  worldOk x -> cleanupApply up t f plan (quota x) = (d', done) ->
  worldOk {| quota := d'; charged := if done then delete (t, f) (charged x) else charged x; missed := missed x;
             aborts := aborts x; cleanups := cl;
             cleaned := if done then (t, default (mkMeta 0 false) (charged x !! (t, f)), givenBack (quota x) t f plan)
                                     :: cleaned x
                        else cleaned x;
             overtaken := overtaken x |}.
Proof.
  intros H E. destruct done.
  2: { rewrite (cleanupApply_fails _ _ _ _ _ _ E). by apply worldOk_but; [..|apply conserves_but]. }
  apply cleanupApply_bumped in E. cbv zeta in E. set (g := givenBack _ _ _ _) in *.
  destruct E as (U & R & L & N), H as [Hb Hm Hs He Hz]. split; cbn.
  - intros t'. specialize (Hb t'). unfold bytesDue, missedSum, chargedSum, cleanedSum, owed in *. cbn.
    rewrite U, L, tenantSum_delete. destruct (charged x !! (t, f)) as [fm|]; cbn;
      destruct (decide (t' = t)) as [->|Hne]; rewrite ?decide_True, ?(decide_False (P := t = t')) by congruence;
      cbn [addUsage StorageBytes]; unfold bytesOf in *; cbn in *; lia.
  - intros t'. specialize (Hm t'). unfold mediaDue, missedSum, chargedSum, cleanedSum, owed in *. cbn.
    rewrite U, L, tenantSum_delete. destruct (charged x !! (t, f)) as [fm|]; cbn;
      destruct (decide (t' = t)) as [->|Hne]; rewrite ?decide_True, ?(decide_False (P := t = t')) by congruence;
      cbn [addUsage MediaFileCount]; unfold mediaOf in *; cbn in *; lia.
  - intros t' Ht'. specialize (Hs t' Ht'). unfold slack in *. rewrite U, R. case_decide; subst; cbn [addUsage ReservedBytes]; lia.
  - rewrite L, N. intros id e Hl. destruct (He id e Hl) as (? & ? & ?). split_and!; [done..|]. eapply fits_kept; [|done].
    by apply sizesKept_same.
  - by rewrite R.
Qed.

Lemma abort_ok x up t k r ab :
  worldOk x ->
  worldOk {| quota := abortRelease up t k r (quota x); charged := charged x; missed := missed x; aborts := ab;
             cleanups := cleanups x; cleaned := cleaned x;
             overtaken := if negb up || asRead (quota x) t k r then overtaken x else {[t]} ∪ overtaken x |}.
Proof.
  intros H. destruct up; cbn [negb orb]; [|by apply worldOk_but; [..|apply conserves_but]].
  apply worldOk_but; [done|case_match; set_solver|]. apply abortRelease_conserves. unfold asRead.
  destruct (bool_decide (reservations (quota x) !! (t, k) = Some r)) eqn:E; [|set_solver]. bool_prop.
  destruct (isActive r); [done|set_solver].
Qed.

Lemma start_accounts : worldOk start.
Proof. split; try done; unfold bytesDue, mediaDue, slack; intros t; vm_compute; reflexivity. Qed.

Lemma logged_wrapped e t mu d : t <> "" -> applyLoggedQuotaMutation e t mu d = applyLogged e t mu d.
Proof. intros H. unfold applyLoggedQuotaMutation. by rewrite bool_decide_eq_false_2. Qed.

Lemma cost_ok x e t ty k c u n : worldOk x -> worldOk (withQuota (syncCentralLLMCostRecord e t ty k c u n (quota x)) x).
Proof.
  intros H. unfold syncCentralLLMCostRecord, applyLoggedQuotaMutation. case_bool_decide; [by destruct x|].
  pose proof (report_ok x e t (LLMCostRecord ty k c u n) (charged x) H I I) as Hr. destruct (upInsert e) eqn:E.
  - apply Hr. intros w t' _. cbn. case_decide; unfold chargedSum; lia.
  - unfold applyLogged. rewrite E. by destruct x.
Qed.

Lemma step_accounts x x' : worldOk x -> step x x' -> worldOk x'.
Proof.
  intros H Hs. destruct Hs.
  - unfold syncCentralFileCreate. rewrite logged_wrapped by done. apply report_ok; [done..|].
    apply charge_one. intros w _. rewrite H1. cbn. lia.
  - unfold syncCentralFileOverwrite. rewrite logged_wrapped by done. apply report_ok; [done..|].
    apply charge_one. intros w _. rewrite H1. cbn. rewrite <- H2. by destruct fm.
  - apply report_ok; [done..|]. apply charge_one. intros w Hw. cbn. unfold old.
    destruct (charged x !! (t, f)) as [[]|]; cbn; unfold mkMeta in *; cbn in *; lia.
  - by apply cost_ok.
  - by apply reserve_ok.
  - by apply worldOk_but; [..|apply conserves_but].
  - by apply abort_ok.
  - apply worldOk_but; [done|done|apply abortActive_conserves, (no_slack _ H)].
  - apply worldOk_conserves; [done|by apply sweep_conserves].
  - by apply replayOne_ok.
  - apply worldOk_conserves; [done|apply IncrMutationRetry_conserves].
  - apply worldOk_conserves; [done|apply ensureRow_conserves].
  - apply worldOk_conserves; [done|by apply conserves_same].
  - by apply worldOk_but; [..|apply conserves_but].
  - by eapply cleanup_ok.
Qed.

Lemma reachable_accounts x : reachable x -> worldOk x.
Proof.
  unfold reachable. generalize start_accounts. induction 2 as [|y z u Hyz _ IH]; [done|]. apply IH. by eapply step_accounts.
Qed.

(** C7: the central quota accounts for every byte.  In any history of file creations,
    overwrites, uploads, cleanups, reservations, aborts, expiry sweeps and replays, in
    which the central database may be lost at any moment and an abort and a cleanup read
    in one step and write in a later one, for every tenant: the storage counter plus the
    sizes that the outbox has not applied yet plus those that never reached it is the
    total size of the tenant's files plus, for each cleanup, what was charged for the file
    less what the cleanup gave back; the same holds of the count of media files; and the
    reserved bytes are those of the active reservations unless an abort of the tenant
    released a reservation that was settled after the abort had read it.  So the counters
    are exact once the outbox is drained, if no mutation was missed and every cleanup
    gave back what was charged.  The calls are taken to report the size and type that a
    file has, a file identifier to be created once, an upload to be reserved before it
    completes and to complete with the size that it reserved. *)
Theorem quota_accounts x t :
  reachable x ->
  StorageBytes (GetQuotaUsage (quota x) t) + owed bytesOf t (quota x) + missedSum bytesOf t x
    = chargedSum bytesOf t x + cleanedSum bytesOf t x
  /\ MediaFileCount (GetQuotaUsage (quota x) t) + owed mediaOf t (quota x) + missedSum mediaOf t x
    = chargedSum mediaOf t x + cleanedSum mediaOf t x
  /\ (t ∉ overtaken x -> ReservedBytes (GetQuotaUsage (quota x) t) = activeSum t (reservations (quota x)))
  /\ ((forall id e, mutation_log (quota x) !! id = Some e -> MTenantID e = t -> MStatus e = Applied) ->
      (forall p, p ∈ missed x -> fst p <> t) -> (forall fm g, (t, fm, g) ∈ cleaned x -> g = fm) ->
      StorageBytes (GetQuotaUsage (quota x) t) = chargedSum bytesOf t x
      /\ MediaFileCount (GetQuotaUsage (quota x) t) = chargedSum mediaOf t x).
Proof.
  intros H. destruct (reachable_accounts x H) as [Hb Hm Hs _ _]. specialize (Hb t). specialize (Hm t). specialize (Hs t).
  unfold bytesDue, mediaDue, slack in *. split_and!; [done|done|intros Ht; specialize (Hs Ht); lia|]. intros Hall Hnone Hgiven.
  assert (forall w, owed w t (quota x) = 0) as Ho.
  { intros w. apply map_sum_zero. intros id e He. unfold unapplied. case_bool_decide as Et; [|done].
    by rewrite (Hall id e He Et). }
  assert (forall w, missedSum w t x = 0) as Hz.
  { intros w. unfold missedSum. induction (missed x) as [|p l IH]; [done|].
    cbn. rewrite decide_False by (apply Hnone; left). rewrite IH; [done|]. intros q Hq. apply Hnone. by right. }
  assert (forall w, cleanedSum w t x = 0) as Hc.
  { intros w. unfold cleanedSum. induction (cleaned x) as [|[[t' fm] g] l IH]; [done|]. cbn.
    rewrite IH by (intros fm' g' Hin; apply Hgiven; by right). case_decide; [subst t'|done]. rewrite (Hgiven fm g) by left. lia. }
  rewrite !Ho, !Hz, !Hc in *. lia.
Qed.

(** ** Draining the outbox *)

(** A transaction that succeeds. *)
Definition qtot {A} (m : qtx A) (Q : A -> qdb -> Prop) (d : qdb) : Prop :=
  match m d with inl (d', a) => Q a d' | inr _ => False end.

Lemma qtot_bind {A B} (m : qtx A) (k : A -> qtx B) Q d : qtot m (fun a => qtot (k a) Q) d -> qtot (qbind m k) Q d.
Proof. unfold qtot, qbind. by destruct (m d) as [[]|]. Qed.

Lemma qtot_mono {A} (m : qtx A) (P Q : A -> qdb -> Prop) d :
  qtot m P d -> (forall a d', P a d' -> Q a d') -> qtot m Q d.
Proof. unfold qtot. destruct (m d) as [[]|]; auto. Qed.

Definition hasRow (t : string) (d : qdb) : Prop := is_Some (usages d !! t).

(** The usage rows stay, and the outbox is untouched. *)
Definition rowsStay (d d' : qdb) : Prop :=
  (forall t, hasRow t d -> hasRow t d') /\ mutation_log d' = mutation_log d /\ sizesKept d d'.

#[local] Instance rowsStay_preorder : PreOrder rowsStay.
Proof.
  split; [intros d; split_and!; [done|done|by apply sizesKept_same]|].
  intros d1 d2 d3 (R1 & L1 & K1) (R2 & L2 & K2). split_and!; [auto|congruence|].
  intros k r3 H3. destruct (K2 _ _ H3) as (r2 & H2 & ?). destruct (K1 _ _ H2) as (r1 & H1 & ?). exists r1. split; congruence.
Qed.

Lemma incrUsage_total t s r m d : hasRow t d -> (s <> 0 \/ r <> 0 \/ m <> 0) -> qtot (incrUsageTx t s r m) (fun _ => rowsStay d) d.
Proof.
  intros [u Hu] Hne. unfold qtot, incrUsageTx, qbind, qread. rewrite Hu.
  destruct ((s =? 0) && (r =? 0) && (m =? 0)) eqn:E; [exfalso; lia|]. cbn. split_and!; [|done|by apply sizesKept_same].
  intros t'. unfold hasRow. cbn. rewrite lookup_insert_is_Some'. auto.
Qed.

Lemma unless_total b t s r m d : hasRow t d -> (b = false -> s <> 0 \/ r <> 0 \/ m <> 0) ->
  qtot (unless b (incrUsageTx t s r m)) (fun _ => rowsStay d) d.
Proof. intros Ht Hb. destruct b; cbn; [split_and!; [done|done|by apply sizesKept_same]|]. by apply incrUsage_total; [|apply Hb]. Qed.

(** Sequencing. *)
Lemma qtot_seq {A B} t (m : qtx A) (k : A -> qtx B) d :
  hasRow t d -> qtot m (fun _ => rowsStay d) d -> (forall a d', hasRow t d' -> qtot (k a) (fun _ => rowsStay d') d') ->
  qtot (qbind m k) (fun _ => rowsStay d) d.
Proof.
  intros Ht Hm Hk. apply qtot_bind. eapply qtot_mono; [exact Hm|]. intros a d' Hs. eapply qtot_mono; [apply Hk; by apply Hs|].
  intros b d'' Hs'. cbv beta in Hs'. etransitivity; [exact Hs|exact Hs'].
Qed.

Lemma upsert_total t f s m d : qtot (UpsertFileMetaTx t f s m) (fun _ => rowsStay d) d.
Proof. cbn. split_and!; [done|done|by apply sizesKept_same]. Qed.

Lemma completeRest_total t f s0 m0 s1 m1 d : hasRow t d ->
  qtot (unless (s0 =? 0) (IncrStorageBytesTx t (- s0)) >> UpsertFileMetaTx t f s1 m1 >>
        unless (mediaDelta m0 m1 =? 0) (IncrMediaFileCountTx t (mediaDelta m0 m1))) (fun _ => rowsStay d) d.
Proof.
  intros Ht. apply (qtot_seq t); [done|apply unless_total; [done|lia]|]. intros _ d1 H1.
  apply (qtot_seq t); [done|apply upsert_total|]. intros _ d2 H2. apply unless_total; [done|lia].
Qed.

Lemma applyMutation_total month t mu d :
  hasRow t d -> current mu -> mu <> BadPayload -> fitsReservation d t mu ->
  (forall k r, reservations d !! k = Some r -> RReservedBytes r <> 0) ->
  qtot (applyMutation month t mu) (fun _ => rowsStay d) d.
Proof.
  intros Ht Hc Hb Hf Hz. destruct mu; cbn [applyMutation]; try done.
  - apply (qtot_seq t); [done|apply upsert_total|]. intros _ d1 H1.
    apply (qtot_seq t); [done|apply unless_total; [done|lia]|]. intros _ d2 H2. apply unless_total; [done|lia].
  - apply (qtot_seq t); [done|apply upsert_total|]. intros _ d1 H1.
    apply (qtot_seq t); [done|apply unless_total; [done|lia]|]. intros _ d2 H2. apply unless_total; [done|lia].
  - cbn in Hc, Hf. subst. unfold applyUploadCompleteTx.
    pose proof (settle_step t uploadID Completed d ltac:(done)) as Hset.
    apply qtot_bind. unfold qtot at 1. unfold qwp in Hset.
    destruct (SettleActiveReservationTx t uploadID Completed d) as [[d1 settled]|] eqn:E.
    2: { unfold SettleActiveReservationTx, qbind, qread in E. repeat (case_match; try done). }
    destruct Hset as (E1 & E2 & E3 & E4 & E5).
    assert (rowsStay d d1) as Hs1. { split_and!; [intros t'; unfold hasRow; by rewrite E1|done|done]. }
    eapply qtot_mono; [apply (qtot_seq t); [by apply Hs1| |intros _ d2 H2; by apply completeRest_total]|].
    + destruct settled; [|apply unless_total; [by apply Hs1|lia]]. destruct E5 as (r & Hr & _). apply incrUsage_total; [by apply Hs1|].
      rewrite <- (Hf r Hr). left. by eapply Hz.
    + intros [] d2 H2. cbv beta in H2. etransitivity; [exact Hs1|exact H2].
  - cbn. split_and!; [done|done|by apply sizesKept_same].
  - cbn. split_and!; [done|done|by apply sizesKept_same].
Qed.

(** An entry that can be applied now. *)
Definition ready (d : qdb) (p : Z * MutationLogEntry) : Prop :=
  mutation_log d !! fst p = Some (snd p) /\ MStatus (snd p) = Pending /\ current (Mutation (snd p))
  /\ Mutation (snd p) <> BadPayload /\ fitsReservation d (MTenantID (snd p)) (Mutation (snd p)) /\ hasRow (MTenantID (snd p)) d.

Definition nonzero (d : qdb) : Prop := forall k r, reservations d !! k = Some r -> RReservedBytes r <> 0.

Lemma replayOne_applies e p d : upEntry e (fst p) = true -> ready d p -> nonzero d ->
  exists d', replayOne e p d = (d', true) /\ (forall t, hasRow t d -> hasRow t d') /\ sizesKept d d'
    /\ mutation_log d' = <[fst p := withMStatus Applied (RetryCount (snd p)) (Some (replayAt e)) (snd p)]> (mutation_log d).
Proof.
  intros Hup (Hl & Hp & Hc & Hb & Hf & Hr) Hz. unfold replayOne, tryTx, InTx. rewrite Hup. unfold applyEntryTx, qbind at 1.
  pose proof (applyMutation_total (replayMonth e) _ _ d Hr Hc Hb Hf Hz) as Ht. unfold qtot in Ht.
  destruct (applyMutation _ _ _ d) as [[d1 []]|]; [|done]. destruct Ht as (R1 & L1 & K1).
  unfold MarkMutationAppliedTx, qbind, qread. rewrite L1, Hl, bool_decide_eq_true_2 by done. cbn.
  eexists. split; [done|]. by split_and!.
Qed.

Lemma ready_kept d d' id e p :
  (forall t, hasRow t d -> hasRow t d') -> sizesKept d d' -> mutation_log d' = <[id := e]> (mutation_log d) ->
  fst p <> id -> ready d p -> ready d' p.
Proof.
  intros R K L Hne (Hl & ? & ? & ? & ? & ?). split_and!; try done; [|by eapply fits_kept|auto].
  rewrite L, lookup_insert_ne; [done|]. congruence.
Qed.

Lemma replayLoop_applies e l d :
  (forall id, upEntry e id = true) -> NoDup l.*1 -> Forall (ready d) l -> nonzero d ->
  forall id, mutation_log (replayLoop e ∅ l d) !! id
    = if decide (id ∈ l.*1)
      then (fun x => withMStatus Applied (RetryCount x) (Some (replayAt e)) x) <$> mutation_log d !! id
      else mutation_log d !! id.
Proof.
  intros Hup. revert d. induction l as [|p l IH]; intros d Hn Hr Hz id; [done|].
  apply Forall_cons in Hr as [Hp Hr]. cbn [fmap list_fmap] in Hn. apply NoDup_cons in Hn as [Hnin Hn].
  cbn [replayLoop]. rewrite bool_decide_eq_false_2 by set_solver.
  destruct (replayOne_applies e p d (Hup _) Hp Hz) as (d' & -> & R & K & L).
  rewrite IH; [|done| |by intros k r Hkr; destruct (K _ _ Hkr) as (r0 & Hr0 & <-); eapply Hz].
  - rewrite L. cbn [fmap list_fmap]. destruct (decide (id = fst p)) as [->|Hne].
    + rewrite decide_False by done. rewrite decide_True by left. rewrite lookup_insert_eq. destruct Hp as (-> & _). done.
    + rewrite lookup_insert_ne by congruence. erewrite (decide_ext (id ∈ l.*1) (id ∈ fst p :: l.*1)); [done|].
      rewrite elem_of_cons. by intuition.
  - apply Forall_forall. intros q Hq. rewrite Forall_forall in Hr. eapply ready_kept; [exact R|exact K|exact L| |by apply Hr].
    intros E. apply Hnin. rewrite <- E. by apply list_elem_of_fmap_2.
Qed.

(** C33: replaying drains the outbox.  In any reachable state, if the central database is up,
    every tenant with a pending entry has its row of counters and no payload is malformed,
    then one batch of the replay worker applies every entry that it lists - the pending
    ones that are older than five seconds, at most a hundred of them - and changes no
    other entry; in particular, with at most a hundred such entries none is left. *)
Theorem replay_drains x e :
  reachable x -> (forall id, upEntry e id = true) ->
  (forall id en, mutation_log (quota x) !! id = Some en -> MStatus en = Pending ->
     hasRow (MTenantID en) (quota x) /\ Mutation en <> BadPayload) ->
  let listed := ListPendingMutations (quota x) replayMinAge replayBatchLimit (replayAt e) in
  let log' := mutation_log (replayBatch e (quota x)) in
  (forall id en, (id, en) ∈ listed -> exists en', log' !! id = Some en' /\ MStatus en' = Applied)
  /\ (forall id, id ∉ listed.*1 -> log' !! id = mutation_log (quota x) !! id)
  /\ (zlen (filter (fun p => MStatus (snd p) = Pending /\ MCreatedAt (snd p) < replayAt e - replayMinAge)
              (map_to_list (mutation_log (quota x)))) <= 100 ->
      forall id en, log' !! id = Some en -> MStatus en = Pending -> replayAt e - replayMinAge <= MCreatedAt en).
Proof.
  intros Hx Hup Hgood listed log'. destruct (reachable_accounts x Hx) as [_ _ _ He Hz].
  set (all := filter (fun p => MStatus (snd p) = Pending /\ MCreatedAt (snd p) < replayAt e - replayMinAge)
                 (map_to_list (mutation_log (quota x)))).
  assert (listed = take 100 (sortBy logBefore all)) as El by done.
  assert (forall p, p ∈ all <-> mutation_log (quota x) !! fst p = Some (snd p) /\ MStatus (snd p) = Pending
    /\ MCreatedAt (snd p) < replayAt e - replayMinAge) as Hall.
  { intros [id en]. unfold all. rewrite list_elem_of_filter, elem_of_map_to_list. cbn. tauto. }
  assert (forall p, p ∈ listed -> p ∈ all) as Hin.
  { intros p. rewrite El. intros (i & Hi & _)%elem_of_take. apply list_elem_of_lookup_2 in Hi. by rewrite sortBy_perm in Hi. }
  assert (NoDup listed.*1) as Hnd.
  { rewrite El, fmap_take. eapply sublist_NoDup; [|apply sublist_take]. rewrite sortBy_perm.
    apply NoDup_fmap_fst; [|apply NoDup_filter, NoDup_map_to_list].
    intros id a b Ha Hb. apply Hall in Ha as [Ha _], Hb as [Hb _]. cbn in *. congruence. }
  assert (Forall (ready (quota x)) listed) as Hrd.
  { apply Forall_forall. intros [id en] Hp%Hin%Hall. cbn in Hp. destruct Hp as (Hl & Hp & _).
    destruct (He _ _ Hl) as (_ & Hc & Hf), (Hgood _ _ Hl Hp) as [Hr Hb]. by split_and!. }
  pose proof (replayLoop_applies e listed (quota x) Hup Hnd Hrd Hz) as Hloop. fold log' in Hloop.
  change (mutation_log (replayLoop e ∅ listed (quota x))) with log' in Hloop. split_and!.
  - intros id en Hp. rewrite Hloop, decide_True by (apply (list_elem_of_fmap_2 fst _ _ Hp)).
    apply Hin, Hall in Hp as [Hp _]. cbn in Hp. rewrite Hp. cbn. eauto.
  - intros id Hn. by rewrite Hloop, decide_False.
  - intros Hlen id en. rewrite Hloop. case_decide as Hd.
    + intros (en0 & _ & ->)%fmap_Some. done.
    + intros Hl Hp. destruct (Z.le_gt_cases (replayAt e - replayMinAge) (MCreatedAt en)) as [|Hlt]; [done|]. destruct Hd.
      apply list_elem_of_fmap. exists (id, en). split; [done|]. rewrite El, take_ge by (rewrite sortBy_perm; unfold zlen in Hlen; fold all in Hlen; lia).
      rewrite sortBy_perm. by apply Hall.
Qed.

(** ** Reservations respect the limit *)

(** A reservation of a positive size that is granted anew fits: with it the tenant's
    stored and reserved bytes are within the tenant's limit (or the default of 50 GiB),
    and exactly its bytes are added to the reserved ones.  A retry of a reservation that
    exists changes nothing; a refusal happens only when the tenant has no counters or the
    sum would exceed the limit, and changes nothing; and a central database that is down
    lets the upload go on without a reservation. *)
Theorem reserve_exact up t k p n now d :
  0 < n ->
  let u := GetQuotaUsage d t in
  let fits := StorageBytes u + ReservedBytes u + n <= storageLimit d t in
  let '(d', r) := reserveUploadOnServer up t k p n now d in
  match r with
  | inl true =>
      up = true /\ fits /\ hasRow t d
      /\ if decide (reservations d !! (t, k) = None) then
           ReservedBytes (GetQuotaUsage d' t) = ReservedBytes u + n
           /\ StorageBytes (GetQuotaUsage d' t) + ReservedBytes (GetQuotaUsage d' t) <= storageLimit d' t
           /\ activeSum t (reservations d') = activeSum t (reservations d) + n
           /\ (forall t', t' <> t -> GetQuotaUsage d' t' = GetQuotaUsage d t')
         else d' = d
  | inl false => up = false /\ d' = d
  | inr err => err = ErrStorageQuotaExceeded /\ up = true /\ d' = d /\ (~ hasRow t d \/ ~ fits)
  end.
Proof.
  intros Hn u fits. unfold reserveUploadOnServer, tryTx, InTx. destruct up; [|done].
  unfold AtomicReserveAndInsertUpload, qbind, qread, hasRow. destruct (usages d !! t) as [v|] eqn:Eu.
  2: { split_and!; try done. left. by intros [? ?]. }
  assert (u = v) as Ev by (unfold u, GetQuotaUsage; by rewrite Eu). unfold fits. rewrite Ev. clear fits.
  destruct (Z.leb_spec (StorageBytes v + ReservedBytes v + n) (storageLimit d t)) as [Hle|Hgt]; cbn [negb orb].
  2: { split_and!; try done. right. lia. }
  rewrite (proj2 (Z.eqb_neq n 0)) by lia. cbn [qmodify].
  destruct (reservations d !! (t, k)) as [r0|] eqn:Er.
  { cbn [qthrow]. split_and!; [done|done|by eexists|]. by rewrite decide_False. }
  cbn [qmodify set_usages]. set (d1 := set_reservations _ _).
  assert (GetQuotaUsage d1 t = addUsage 0 n 0 v) as U. { unfold GetQuotaUsage. cbn. by rewrite lookup_insert_eq. }
  split_and!; [done|done|by eexists|]. rewrite decide_True by done. split_and!.
  - rewrite U. done.
  - rewrite U. change (storageLimit d1 t) with (storageLimit d t). cbn. lia.
  - assert (reservations d1 = <[(t, k) := {| RReservedBytes := n; TargetPath := p; RStatus := Active;
      ExpiresAt := now + reservationLifetime |}]> (reservations d)) as -> by done.
    unfold activeSum. rewrite tenantSum_insert, decide_True, Er by done.
    cbn [fmap option_fmap option_map default from_option id]. change (activeBytes _) with n. lia.
  - intros t' Hne. unfold GetQuotaUsage. cbn. by rewrite lookup_insert_ne.
Qed.

(** ** A concrete history *)

Definition syncUp (t : Z) : syncEnv := {| upInsert := true; upApply := true; clock := t; monthStart := 0 |}.
Definition syncDown (t : Z) : syncEnv := {| upInsert := true; upApply := false; clock := t; monthStart := 0 |}.
Definition replayUp (t : Z) : replayEnv :=
  {| upEntry := fun _ => true; upRetry := fun _ => true; replayAt := t; replayMonth := 0 |}.

(** A picture is stored, then an upload of 20 bytes completes while the database is down. *)
Definition demo1 : world := withQuota (EnsureQuotaUsageRow "t" emptyQuota) start.
Definition demo2 : world :=
  withFiles (syncCentralFileCreate (syncUp 1) "t" "f1" 10 "image/png" (quota demo1)) {[("t", "f1") := mkMeta 10 true]} [] demo1.
Definition demo3 : world := withQuota (fst (reserveUploadOnServer true "t" "u1" "/big" 20 2 (quota demo2))) demo2.
Definition demo4 : world :=
  withFiles (completeUploadReservation (syncDown 3) "t" "u1" 20 "f2" 0 false 20 false (quota demo3))
    (<[("t", "f2") := mkMeta 20 false]> (charged demo3)) (missed demo3) demo3.

Lemma demo4_reachable : reachable demo4.
Proof.
  unfold reachable. apply rtc_l with demo1. { apply (step_ensure start "t"). }
  apply rtc_l with demo2. { by apply (step_create demo1 (syncUp 1) "t" "f1" 10 "image/png"). }
  apply rtc_l with demo3.
  { apply step_reserve. intros id e He Ht. vm_compute in He.
    assert (map_Forall (fun _ e => match Mutation e with UploadComplete k' _ _ _ _ _ _ => k' <> "u1" | _ => True end)
      (mutation_log (quota demo2))) as Hall.
    { intros i e' Hi. change (mutation_log (quota demo2)) with ({[1 := withMStatus Applied 0 (Some 1)
        {| MTenantID := "t"; Mutation := FileCreate "f1" 10 true; MStatus := Pending; RetryCount := 0; MCreatedAt := 1;
           AppliedAt := None |}]} : gmap Z MutationLogEntry) in Hi. by apply lookup_singleton_Some in Hi as [_ <-]. }
    by apply (Hall id). }
  apply rtc_once. apply (step_complete demo3 (syncDown 3) "t" "u1" "f2" 20 false).
  intros r Hr. vm_compute in Hr. by injection Hr as <-.
Qed.

Lemma quota_accounts_witness :
  StorageBytes (GetQuotaUsage (quota demo4) "t") = 10 /\ owed bytesOf "t" (quota demo4) = 20
  /\ chargedSum bytesOf "t" demo4 = 30 /\ ReservedBytes (GetQuotaUsage (quota demo4) "t") = 20
  /\ StorageBytes (GetQuotaUsage (quota demo4) "t") + owed bytesOf "t" (quota demo4) + missedSum bytesOf "t" demo4
     = chargedSum bytesOf "t" demo4.
Proof.
  pose proof (quota_accounts demo4 "t" demo4_reachable) as (H & _).
  refine (conj _ (conj _ (conj _ (conj _ H)))); vm_compute; reflexivity.
Defined.

Lemma replay_drains_witness :
  exists en, mutation_log (replayBatch (replayUp 6000000000) (quota demo4)) !! 2 = Some en /\ MStatus en = Applied.
Proof.
  destruct (replay_drains demo4 (replayUp 6000000000) demo4_reachable) as (H & _ & _); [done|..].
  - intros id en Hid Hp.
    assert (MTenantID en = "t" /\ Mutation en <> BadPayload) as [-> Hb].
    { assert (map_Forall (fun _ e => MTenantID e = "t" /\ negb (match Mutation e with BadPayload => true | _ => false end) = true)
        (mutation_log (quota demo4))) as Hall by (apply (bool_decide_eq_true_1 (map_Forall _ _)); vm_compute; reflexivity).
      destruct (Hall id en Hid) as [Ht Hm]. split; [done|]. intros E. by rewrite E in Hm. }
    split; [|done]. apply (bool_decide_eq_true_1 (is_Some _)). vm_compute. reflexivity.
  - destruct (mutation_log (quota demo4) !! 2) as [en|] eqn:E; [|by vm_compute in E]. apply (H 2 en).
    vm_compute in E. injection E as <-. vm_compute. left.
Defined.

Lemma reserve_exact_witness :
  let '(d', r) := reserveUploadOnServer true "t" "u2" "/other" 5 4 (quota demo4) in
  r = inl true /\ ReservedBytes (GetQuotaUsage d' "t") = 25.
Proof.
  pose proof (reserve_exact true "t" "u2" "/other" 5 4 (quota demo4) ltac:(lia)) as H.
  destruct (reserveUploadOnServer true "t" "u2" "/other" 5 4 (quota demo4)) as [d' r] eqn:E.
  assert (r = inl true) as -> by (vm_compute in E; by injection E as _ <-). split; [done|].
  destruct H as (_ & _ & _ & H). rewrite decide_True in H by (vm_compute; reflexivity). destruct H as (-> & _). vm_compute. reflexivity.
Defined.

(** ** What goes wrong *)

(** An abort that has read an active reservation and goes on after the expiry sweep has
    released it releases the bytes a second time: nothing checks that the status was
    changed. *)
Lemma abort_releases_twice :
  let d0 := quota demo3 in
  let d1 := sweep true (fun l => l) (2 + reservationLifetime + 1) d0 in
  ReservedBytes (GetQuotaUsage d1 "t") = 0
  /\ match abortLookup true "t" "u1" d0 with
     | Some r => ReservedBytes (GetQuotaUsage (abortRelease true "t" "u1" r d1) "t") = -20
     | None => False
     end.
Proof. vm_compute. split; reflexivity. Qed.

(** The cleanup of a file waits for pending creations and overwrites of it but not for a
    pending upload: it reports that it is done, and the replay charges the tenant for a
    file that is gone. *)
Lemma cleanup_before_upload :
  let '(d, done) := deleteCentralFileMetaForGCTask true true "t" "f2" (quota demo4) in
  done = true /\ StorageBytes (GetQuotaUsage d "t") = 10
  /\ StorageBytes (GetQuotaUsage (replayBatch (replayUp 6000000000) d) "t") = 30
  /\ file_meta (replayBatch (replayUp 6000000000) d) !! ("t", "f2") = Some (mkMeta 20 false).
Proof. vm_compute. split_and!; reflexivity. Qed.

(** A creation that stays pending is replayed after a later overwrite: the counters are
    right, the metadata of the file is that of the creation, and so is what its cleanup
    gives back. *)
Lemma replay_out_of_order :
  let d1 := syncCentralFileCreate (syncDown 1) "t" "f" 10 "" (quota demo1) in
  let d2 := syncCentralFileOverwrite (syncUp 2) "t" "f" 10 "" 50 "" d1 in
  let d3 := replayBatch (replayUp 6000000000) d2 in
  StorageBytes (GetQuotaUsage d3 "t") = 50 /\ file_meta d3 !! ("t", "f") = Some (mkMeta 10 false)
  /\ StorageBytes (GetQuotaUsage (fst (deleteCentralFileMetaForGCTask true true "t" "f" d3)) "t") = 40.
Proof. vm_compute. split_and!; reflexivity. Qed.


(** ** A batch is a sequence of steps *)

(** The entries of the second log stand for the same mutations. *)
Definition sameEntry (a b : MutationLogEntry) : Prop := MTenantID a = MTenantID b /\ Mutation a = Mutation b.
Definition logKept (d d' : qdb) : Prop :=
  forall id a, mutation_log d !! id = Some a -> exists b, mutation_log d' !! id = Some b /\ sameEntry b a.

Lemma retry_logKept id n d : logKept d (IncrMutationRetry id n d).
Proof.
  intros id' a Ha. unfold IncrMutationRetry. cbn. destruct (decide (id' = id)) as [->|Hne].
  - rewrite lookup_alter_eq, Ha. cbn. eexists. split; [done|]. by case_bool_decide.
  - rewrite lookup_alter_ne by done. by exists a.
Qed.

Lemma replayOne_logKept x e id en : worldOk x -> mutation_log (quota x) !! id = Some en ->
  logKept (quota x) (fst (replayOne e (id, en) (quota x))).
Proof.
  intros Hok Hen id' a Ha. destruct (entries_ok _ Hok _ _ Hen) as (_ & Hc & Hf). unfold replayOne, tryTx, InTx. cbn [fst snd].
  destruct (upEntry e id); [|by exists a]. unfold applyEntryTx, qbind at 1.
  pose proof (applyMutation_counted (replayMonth e) _ _ (quota x) Hc Hf) as Ht. unfold qwp in Ht.
  destruct (applyMutation _ _ _ (quota x)) as [[d1 []]|]; [|by exists a]. destruct Ht as (_ & L & _).
  unfold MarkMutationAppliedTx, qbind, qread. rewrite L, Hen. case_bool_decide; [|by exists a]. cbn.
  rewrite lookup_insert. case_decide; [subst id'|by exists a]. eexists. split; [done|]. by simplify_eq.
Qed.

Lemma replayOne_same e id a b d : sameEntry a b -> replayOne e (id, a) d = replayOne e (id, b) d.
Proof. intros [E1 E2]. unfold replayOne. cbn. by rewrite E1, E2. Qed.

Lemma replayLoop_steps e l blocked x :
  worldOk x -> (forall p, p ∈ l -> exists en, mutation_log (quota x) !! fst p = Some en /\ sameEntry en (snd p)) ->
  rtc step x (withQuota (replayLoop e blocked l (quota x)) x).
Proof.
  revert blocked x. induction l as [|[id a] l IH]; intros blocked x Hok Hl; [by destruct x; apply rtc_refl|].
  cbn [replayLoop fst snd]. case_bool_decide; [apply IH; [done|]; intros p Hp; apply Hl; by right|].
  destruct (Hl (id, a) ltac:(left)) as (en & Hen & Hsame). cbn in Hen, Hsame. rewrite <- (replayOne_same e id en a) by done.
  pose proof (step_replay x e id en Hen) as Hstep. pose proof (step_accounts _ _ Hok Hstep) as Hok1.
  pose proof (replayOne_logKept x e id en Hok Hen) as Hk. destruct (replayOne e (id, en) (quota x)) as [d1 ok] eqn:E1. cbn [fst] in *.
  assert (forall d', logKept d1 d' -> forall p, p ∈ l -> exists en, mutation_log d' !! fst p = Some en /\ sameEntry en (snd p)) as Hl'.
  { intros d' Hk' p Hp. destruct (Hl p ltac:(by right)) as (e0 & H0 & S0 & M0). destruct (Hk _ _ H0) as (e1 & H1 & S1 & M1).
    destruct (Hk' _ _ H1) as (e2 & H2 & S2 & M2). exists e2. split; [done|]. split; congruence. }
  eapply rtc_l; [exact Hstep|]. destruct ok.
  - apply (IH blocked (withQuota d1 x) Hok1). apply Hl'. intros i b Hb. by exists b.
  - destruct (upRetry e id).
    + eapply rtc_l; [apply (step_retry (withQuota d1 x) id replayMaxRetries)|].
      apply (IH _ (withQuota (IncrMutationRetry id replayMaxRetries d1) x)); [exact (step_accounts _ _ Hok1 (step_retry (withQuota d1 x) id replayMaxRetries))|].
      apply Hl'. apply retry_logKept.
    + apply (IH _ (withQuota d1 x) Hok1). apply Hl'. intros i b Hb. by exists b.
Qed.

Lemma replayBatch_reachable x e : reachable x -> reachable (withQuota (replayBatch e (quota x)) x).
Proof.
  intros H. unfold reachable in *. etransitivity; [exact H|]. apply replayLoop_steps; [by apply reachable_accounts|]. intros [id en] Hp.
  unfold ListPendingMutations in Hp. apply elem_of_take in Hp as (i & Hi & _). apply list_elem_of_lookup_2 in Hi.
  rewrite sortBy_perm, list_elem_of_filter, elem_of_map_to_list in Hi. exists en. by destruct Hi.
Qed.

End QuotaProps.
