(* ===== verification/Shadow.v ===== *)
(** * The shadow store

    Model of [src/pkg/fuse/shadow.go]: the local files in which a mount stages what it
    writes.  The directory maps names to files, a file is reached through open
    descriptors, and a rename or an unlink of a name leaves the descriptors valid; the
    store's maps hold pointers to [ShadowFile] records, which the path map and the
    generation map share.  The mutex makes each call atomic; [WriteAt] and its kin write
    the file between two sections under the lock, but only their caller's file.  The hash
    that names the files is a parameter; [hashPath], at the end, is the one the program uses.  Disk errors are not modelled,
    except that a rename may fail, and neither is [fsync], which changes no content. *)

From stdpp Require Import pretty.
From S2P Require Import Prelude GoStrings PathUtil Sha256 WriteBuffer.

Import GoStr Paths.

Module Shadow.

#[local] Arguments String.append !_ _ / : simpl nomatch.

(** ** Files *)

(** [pwrite]: a gap before the data is filled with zeros. *)
Definition pwrite (f : bytes) (off : Z) (data : bytes) : bytes :=
  if bool_decide (data = []) then f else gcopy (f ++ gmake (off + zlen data - zlen f)) off data.

(** [ftruncate] *)
Definition ftruncate (f : bytes) (n : Z) : bytes := take (Z.to_nat n) (f ++ gmake (n - zlen f)).

(** [pread] of [n] bytes. *)
Definition pread (f : bytes) (off n : Z) : bytes := gslice f off (off + n).

(** ** The store *)

Record DirtyExtent := { Offset : Z; Length : Z }.

Record ShadowFile := { fd : Z; size : Z; baseRev : Z; extents : list DirtyExtent }.

Record retiredShadow := { rfd : Z; diskPath : string; rsize : Z }.

(** The directory and the open files of the process. *)
Record disk := {
  names : gmap string Z;        (** name to file *)
  blobs : gmap Z bytes;         (** contents of files *)
  fds : gmap Z (Z * bool);      (** open descriptors: the file, and whether it is writable *)
  nextBlob : Z;
  nextFd : Z
}.

Record ShadowStore := {
  os : disk;
  heap : gmap Z ShadowFile;     (** what the pointers point to *)
  nextPtr : Z;
  files : gmap string Z;
  nextGen : Z;
  active : gmap string Z;
  genFile : gmap Z Z;
  refs : gmap Z Z;
  retired : gmap Z retiredShadow
}.

Inductive shadowError := ErrNoFile | ErrBadFd | ErrInvalid | ErrEOF | ErrUnknownGen.

Definition set_os (v : disk) (s : ShadowStore) : ShadowStore :=
  {| os := v; heap := heap s; nextPtr := nextPtr s; files := files s; nextGen := nextGen s; active := active s;
     genFile := genFile s; refs := refs s; retired := retired s |}.
Definition set_heap (v : gmap Z ShadowFile) (s : ShadowStore) : ShadowStore :=
  {| os := os s; heap := v; nextPtr := nextPtr s; files := files s; nextGen := nextGen s; active := active s;
     genFile := genFile s; refs := refs s; retired := retired s |}.
Definition set_files (v : gmap string Z) (s : ShadowStore) : ShadowStore :=
  {| os := os s; heap := heap s; nextPtr := nextPtr s; files := v; nextGen := nextGen s; active := active s;
     genFile := genFile s; refs := refs s; retired := retired s |}.
Definition set_active (v : gmap string Z) (s : ShadowStore) : ShadowStore :=
  {| os := os s; heap := heap s; nextPtr := nextPtr s; files := files s; nextGen := nextGen s; active := v;
     genFile := genFile s; refs := refs s; retired := retired s |}.
Definition set_genFile (v : gmap Z Z) (s : ShadowStore) : ShadowStore :=
  {| os := os s; heap := heap s; nextPtr := nextPtr s; files := files s; nextGen := nextGen s; active := active s;
     genFile := v; refs := refs s; retired := retired s |}.
Definition set_refs (v : gmap Z Z) (s : ShadowStore) : ShadowStore :=
  {| os := os s; heap := heap s; nextPtr := nextPtr s; files := files s; nextGen := nextGen s; active := active s;
     genFile := genFile s; refs := v; retired := retired s |}.
Definition set_retired (v : gmap Z retiredShadow) (s : ShadowStore) : ShadowStore :=
  {| os := os s; heap := heap s; nextPtr := nextPtr s; files := files s; nextGen := nextGen s; active := active s;
     genFile := genFile s; refs := refs s; retired := v |}.

Definition NewShadowStore (d : disk) : ShadowStore :=
  {| os := d; heap := ∅; nextPtr := 1; files := ∅; nextGen := 0; active := ∅; genFile := ∅; refs := ∅; retired := ∅ |}.

(** *** System calls *)

(** The contents behind a descriptor. *)
Definition fdBytes (d : disk) (f : Z) : option bytes := fds d !! f ≫= fun p => blobs d !! fst p.

(** Open a name; with [create] a missing file is made. *)
Definition openFile (create writable : bool) (n : string) (d : disk) : option (disk * Z) :=
  match names d !! n with
  | Some b => Some ({| names := names d; blobs := blobs d; fds := <[nextFd d := (b, writable)]> (fds d);
                       nextBlob := nextBlob d; nextFd := nextFd d + 1 |}, nextFd d)
  | None =>
      if create
      then Some ({| names := <[n := nextBlob d]> (names d); blobs := <[nextBlob d := []]> (blobs d);
                    fds := <[nextFd d := (nextBlob d, writable)]> (fds d);
                    nextBlob := nextBlob d + 1; nextFd := nextFd d + 1 |}, nextFd d)
      else None
  end.

Definition closeFd (f : Z) (d : disk) : disk :=
  {| names := names d; blobs := blobs d; fds := delete f (fds d); nextBlob := nextBlob d; nextFd := nextFd d |}.

(** A system call that changes a file through a descriptor. *)
Definition fdModify (f : Z) (g : bytes -> bytes) (d : disk) : disk + shadowError :=
  match fds d !! f with
  | Some (b, true) => inl {| names := names d; blobs := alter g b (blobs d); fds := fds d; nextBlob := nextBlob d;
                             nextFd := nextFd d |}
  | _ => inr ErrBadFd
  end.

Definition removeName (n : string) (d : disk) : disk :=
  {| names := delete n (names d); blobs := blobs d; fds := fds d; nextBlob := nextBlob d; nextFd := nextFd d |}.

(** [os.Rename]; the name that is replaced is lost. *)
Definition renameName (ok : bool) (a b : string) (d : disk) : option disk :=
  match names d !! a with
  | Some x => if ok then Some {| names := <[b := x]> (delete a (names d)); blobs := blobs d; fds := fds d;
                                 nextBlob := nextBlob d; nextFd := nextFd d |} else None
  | None => None
  end.

Section store.
Context (hashPath : string -> string).

Definition shadowPath (p : string) : string := hashPath p +:+ ".shadow".

(** Register a descriptor as the shadow of a path. *)
Definition addFile (p : string) (f : Z) (rev : Z) (d : disk) (s : ShadowStore) : ShadowStore * Z :=
  let n := match fdBytes d f with Some b => zlen b | None => 0 end in
  ({| os := d; heap := <[nextPtr s := {| fd := f; size := n; baseRev := rev; extents := [] |}]> (heap s);
      nextPtr := nextPtr s + 1; files := <[p := nextPtr s]> (files s); nextGen := nextGen s; active := active s;
      genFile := genFile s; refs := refs s; retired := retired s |}, nextPtr s).

Definition withRev (rev : Z) (sf : ShadowFile) : ShadowFile :=
  if rev =? 0 then sf else {| fd := fd sf; size := size sf; baseRev := rev; extents := extents sf |}.
Definition withSize (n : Z) (sf : ShadowFile) : ShadowFile :=
  {| fd := fd sf; size := n; baseRev := baseRev sf; extents := extents sf |}.

(** The pointer to the shadow of a path, which is opened or created. *)
Definition ensureShadowFile (p : string) (rev : Z) (s : ShadowStore) : ShadowStore * Z :=
  match files s !! p with
  | Some ptr => (set_heap (alter (withRev rev) ptr (heap s)) s, ptr)
  | None =>
      match openFile true true (shadowPath p) (os s) with
      | Some (d, f) => addFile p f rev d s
      | None => (s, 0)   (** creating does not fail *)
      end
  end.

Definition ptrFd (s : ShadowStore) (ptr : Z) : Z := match heap s !! ptr with Some sf => fd sf | None => 0 end.

(** Change the file of a pointer; then [k] continues. *)
Definition writeFd {A} (ptr : Z) (g : bytes -> bytes) (s : ShadowStore)
    (k : ShadowStore -> ShadowStore * (A + shadowError)) : ShadowStore * (A + shadowError) :=
  match fdModify (ptrFd s ptr) g (os s) with
  | inl d => k (set_os d s)
  | inr e => (s, inr e)
  end.

Definition setMeta (ptr : Z) (g : ShadowFile -> ShadowFile) (s : ShadowStore) : ShadowStore :=
  set_heap (alter g ptr (heap s)) s.

Definition Ensure (p : string) (n rev : Z) (s : ShadowStore) : ShadowStore * (unit + shadowError) :=
  let '(s, ptr) := ensureShadowFile p rev s in
  if n <? 0 then (s, inr ErrInvalid)
  else writeFd ptr (fun f => ftruncate f n) s (fun s => (setMeta ptr (fun sf => withRev rev (withSize n sf)) s, inl tt)).

Definition WriteAt (p : string) (offset : Z) (data : bytes) (rev : Z) (s : ShadowStore) : ShadowStore * (Z + shadowError) :=
  let '(s, ptr) := ensureShadowFile p rev s in
  if offset <? 0 then (s, inr ErrInvalid)
  else
    let finish s :=
      (setMeta ptr (fun sf => withRev rev (withSize (Z.max (size sf) (offset + zlen data)) sf)) s, inl (zlen data)) in
    if bool_decide (data = []) then finish s else writeFd ptr (fun f => pwrite f offset data) s finish.

Definition WriteFull (p : string) (data : bytes) (rev : Z) (s : ShadowStore) : ShadowStore * (unit + shadowError) :=
  let '(s, ptr) := ensureShadowFile p rev s in
  writeFd ptr (fun f => ftruncate f 0) s (fun s =>
  writeFd ptr (fun f => pwrite f 0 data) s (fun s =>
  writeFd ptr (fun f => ftruncate f (zlen data)) s (fun s =>
    (setMeta ptr (fun sf => {| fd := fd sf; size := zlen data; baseRev := rev; extents := extents sf |}) s, inl tt)))).

Definition Truncate (p : string) (n rev : Z) (s : ShadowStore) : ShadowStore * (unit + shadowError) :=
  let '(s, ptr) := ensureShadowFile p rev s in
  if n <? 0 then (s, inr ErrInvalid)
  else writeFd ptr (fun f => ftruncate f n) s (fun s => (setMeta ptr (fun sf => withRev rev (withSize n sf)) s, inl tt)).

(** [Sync] opens the shadow when it is not there. *)
Definition Sync (p : string) (s : ShadowStore) : ShadowStore := fst (ensureShadowFile p 0 s).

(** The dirty parts of a buffer at their offsets, in the order of the map. *)
Fixpoint writeParts (ptr : Z) (wb : Buffer.WriteBuffer) (parts : list (Z * bool)) (acc : list DirtyExtent)
    (s : ShadowStore) : ShadowStore * (list DirtyExtent + shadowError) :=
  match parts with
  | [] => (s, inl acc)
  | (idx, dirty) :: rest =>
      match (if dirty then Buffer.PartData wb (idx + 1) else None) with
      | None => writeParts ptr wb rest acc s
      | Some data =>
          let offset := idx * Buffer.PartSize wb in
          writeFd ptr (fun f => pwrite f offset data) s
            (writeParts ptr wb rest (acc ++ [{| Offset := offset; Length := zlen data |}]))
      end
  end.

Definition WriteExtents (order : gmap Z bool -> list (Z * bool)) (p : string) (wb : Buffer.WriteBuffer) (rev : Z)
    (s : ShadowStore) : ShadowStore * (unit + shadowError) :=
  let '(s, ptr) := ensureShadowFile p rev s in
  let '(s, r) :=
    match Buffer.smallFileBytes wb with
    | Some [] => (s, inl [])
    | Some data => writeFd ptr (fun f => pwrite f 0 data) s
                     (fun s => (s, inl [{| Offset := 0; Length := zlen data |}]))
    | None => writeParts ptr wb (order (Buffer.dirtyParts wb)) [] s
    end in
  match r with
  | inr e => (s, inr e)
  | inl exts =>
      let s := setMeta ptr (fun sf => withRev rev {| fd := fd sf; size := Buffer.Size wb; baseRev := baseRev sf;
                                                     extents := exts |}) s in
      writeFd ptr (fun f => ftruncate f (Buffer.Size wb)) s (fun s => (s, inl tt))
  end.

(** ** Reads *)

(** [fd.ReadAt]: fewer bytes than asked for come with an end-of-file error. *)
Definition fdReadAt (d : disk) (f offset n : Z) : (bytes * bool) + shadowError :=
  match fdBytes d f with
  | None => inr ErrBadFd
  | Some b => if offset <? 0 then inr ErrInvalid
              else let r := pread b offset n in inl (r, zlen r <? n)
  end.

Definition ReadAtGen (gen offset n : Z) (s : ShadowStore) : (bytes * bool) + shadowError :=
  match genFile s !! gen with
  | Some ptr => fdReadAt (os s) (ptrFd s ptr) offset n
  | None => match retired s !! gen with
            | Some rt => fdReadAt (os s) (rfd rt) offset n
            | None => inr ErrUnknownGen
            end
  end.

Definition SizeGen (gen : Z) (s : ShadowStore) : Z :=
  match genFile s !! gen with
  | Some ptr => match heap s !! ptr with Some sf => size sf | None => 0 end
  | None => match retired s !! gen with Some rt => rsize rt | None => -1 end
  end.

(** A shadow that is only on disk is opened for reading. *)
Definition ReadAt (p : string) (offset n : Z) (s : ShadowStore) : ShadowStore * ((bytes * bool) + shadowError) :=
  match files s !! p with
  | Some ptr => (s, fdReadAt (os s) (ptrFd s ptr) offset n)
  | None =>
      match openFile false false (shadowPath p) (os s) with
      | None => (s, inr ErrNoFile)
      | Some (d, f) => let '(s, ptr) := addFile p f 0 d s in (s, fdReadAt (os s) f offset n)
      end
  end.

Definition ReadAll (p : string) (s : ShadowStore) : bytes + shadowError :=
  match files s !! p with
  | Some ptr =>
      match heap s !! ptr with
      | None => inr ErrNoFile
      | Some sf => match fdReadAt (os s) (fd sf) 0 (size sf) with
                   | inl (b, false) => inl b
                   | inl (_, true) => inr ErrEOF
                   | inr e => inr e
                   end
      end
  | None => match names (os s) !! shadowPath p ≫= fun b => blobs (os s) !! b with
            | Some b => inl b
            | None => inr ErrNoFile
            end
  end.

Definition Size (p : string) (s : ShadowStore) : Z :=
  match files s !! p with
  | Some ptr => match heap s !! ptr with Some sf => size sf | None => 0 end
  | None => match names (os s) !! shadowPath p ≫= fun b => blobs (os s) !! b with
            | Some b => zlen b
            | None => -1
            end
  end.

Definition BaseRev (p : string) (s : ShadowStore) : Z :=
  match files s !! p ≫= fun ptr => heap s !! ptr with Some sf => baseRev sf | None => 0 end.

Definition Has (p : string) (s : ShadowStore) : bool :=
  bool_decide (is_Some (files s !! p)) || bool_decide (is_Some (names (os s) !! shadowPath p)).

(** ** Pins *)

Definition refsOf (s : ShadowStore) (gen : Z) : Z := default 0 (refs s !! gen).

(** A new generation for a path whose shadow is [ptr]. *)
Definition newGen (p : string) (ptr : option Z) (s : ShadowStore) : ShadowStore * Z :=
  let gen := nextGen s + 1 in
  ({| os := os s; heap := heap s; nextPtr := nextPtr s; files := files s; nextGen := gen;
      active := <[p := gen]> (active s);
      genFile := match ptr with Some x => <[gen := x]> (genFile s) | None => genFile s end;
      refs := refs s; retired := retired s |}, gen).

Definition addRef (gen : Z) (s : ShadowStore) : ShadowStore := set_refs (<[gen := refsOf s gen + 1]> (refs s)) s.

Definition Pin (p : string) (s : ShadowStore) : ShadowStore * Z :=
  match active s !! p with
  | Some gen => (addRef gen s, gen)
  | None => let '(s, gen) := newGen p (files s !! p) s in (addRef gen s, gen)
  end.

Definition PinIfExists (p : string) (s : ShadowStore) : ShadowStore * option Z :=
  let found :=
    match files s !! p with
    | Some ptr => Some (s, ptr)
    | None => match openFile false true (shadowPath p) (os s) with
              | None => None
              | Some (d, f) => Some (addFile p f 0 d s)
              end
    end in
  match found with
  | None => (s, None)
  | Some (s, ptr) =>
      let '(s, gen) := match active s !! p with Some gen => (s, gen) | None => newGen p (Some ptr) s end in
      (addRef gen s, Some gen)
  end.

Definition Unpin (gen : Z) (s : ShadowStore) : ShadowStore :=
  if gen =? 0 then s
  else
    let r := refsOf s gen - 1 in
    let s := set_refs (if r <=? 0 then delete gen (refs s) else <[gen := r]> (refs s)) s in
    if r <=? 0 then
      match retired s !! gen with
      | Some rt => set_os (removeName (diskPath rt) (closeFd (rfd rt) (os s))) (set_retired (delete gen (retired s)) s)
      | None => s
      end
    else s.

(** The name of a retired file. *)
Definition retiredName (p : string) (gen : Z) : string := shadowPath p +:+ ".retired." +:+ pretty gen.

Definition Remove (renameOK : bool) (p : string) (s : ShadowStore) : ShadowStore :=
  match active s !! p with
  | Some gen =>
      if 0 <? refsOf s gen then
        let ptr := files s !! p in
        let dp := shadowPath p in
        let '(d, rp) := match renameName renameOK dp (retiredName p gen) (os s) with
                        | Some d => (d, retiredName p gen)
                        | None => (removeName dp (os s), dp)
                        end in
        let rts := match ptr ≫= fun x => heap s !! x with
                   | Some sf => <[gen := {| rfd := fd sf; diskPath := rp; rsize := size sf |}]> (retired s)
                   | None => retired s
                   end in
        {| os := d; heap := heap s; nextPtr := nextPtr s; files := delete p (files s); nextGen := nextGen s;
           active := delete p (active s); genFile := delete gen (genFile s); refs := refs s; retired := rts |}
      else
        let d := match files s !! p with Some ptr => closeFd (ptrFd s ptr) (os s) | None => os s end in
        {| os := removeName (shadowPath p) d; heap := heap s; nextPtr := nextPtr s; files := delete p (files s);
           nextGen := nextGen s; active := delete p (active s); genFile := delete gen (genFile s);
           refs := delete gen (refs s); retired := retired s |}
  | None =>
      let d := match files s !! p with Some ptr => closeFd (ptrFd s ptr) (os s) | None => os s end in
      set_os (removeName (shadowPath p) d) (set_files (delete p (files s)) s)
  end.

Definition Rename (renameOK : bool) (old new : string) (s : ShadowStore) : ShadowStore * bool :=
  match files s !! old with
  | None => (s, false)
  | Some ptr =>
      let s1 := set_files (<[new := ptr]> (delete old (files s))) s in
      let s1 := match active s !! old with
                | Some g => set_active (delete old (<[new := g]> (active s1))) s1
                | None => s1
                end in
      match renameName renameOK (shadowPath old) (shadowPath new) (os s1) with
      | Some d => (set_os d s1, true)
      | None =>
          let s2 := set_files (<[old := ptr]> (delete new (files s1))) s1 in
          (match active s !! old with
           | Some g => set_active (delete new (<[old := g]> (active s2))) s2
           | None => s2
           end, false)
      end
  end.

(** Every descriptor is closed and the maps are emptied. *)
Definition Close (s : ShadowStore) : ShadowStore :=
  let open := (ptrFd s <$> (snd <$> map_to_list (files s))) ++ ((fun p => rfd (snd p)) <$> map_to_list (retired s)) in
  {| os := foldr closeFd (os s) open; heap := heap s; nextPtr := nextPtr s; files := ∅; nextGen := nextGen s;
     active := ∅; genFile := ∅; refs := ∅; retired := ∅ |}.

(** [RecoverFromDisk] over the names of the directory, in its order; a file is entered
    under its hash. *)
Definition recoverOne (s : ShadowStore) (n : string) : ShadowStore :=
  if HasSuffix n ".shadow" then
    match openFile false true n (os s) with
    | Some (d, f) => fst (addFile ("__hash:" +:+ TrimSuffix n ".shadow") f 0 d s)
    | None => s
    end
  else s.
Definition RecoverFromDisk (s : ShadowStore) : ShadowStore :=
  foldl recoverOne s (sortBy String.ltb (fst <$> map_to_list (names (os s)))).

End store.

(** ** Free space *)

Definition diskWatermarkBytes : Z := Z.shiftl 1 30.
Definition diskCheckInterval : Z := 5 * 10 ^ 9.

(** [CheckDiskSpace] with the answer of [statfs]. *)
Definition CheckDiskSpace (avail : option Z) : bool :=
  match avail with None => true | Some a => diskWatermarkBytes <=? a end.

Record diskCheck := { lastDiskCheck : Z; diskOK : bool }.

(** [swapped]: no other call has taken this turn. *)
Definition CheckDiskSpaceThrottled (now : Z) (swapped : bool) (avail : option Z) (c : diskCheck) : diskCheck * bool :=
  if now - lastDiskCheck c <? diskCheckInterval then (c, diskOK c)
  else if swapped then let ok := CheckDiskSpace avail in ({| lastDiskCheck := now; diskOK := ok |}, ok)
  else (c, diskOK c).

(** [hashPath] of [src/pkg/fuse/writeback.go] *)
Definition hashPath (remotePath : string) : string := Sha256.hexEncode (Sha256.sum256 remotePath).

End Shadow.
