(* ===== verification/ShadowProps.v ===== *)
(** * The shadow store keeps what is written

    The store of [Shadow] behaves as a map from paths to files, with pins that keep the
    bytes of a file they were taken on: an abstract machine ([spec]) and the proof that
    any program of calls gives the same answers on both.  The calls that can break it -
    a pin on a missing file, a rename over a file with pins, a failing rename - are shown
    at the end, on concrete stores. *)

From Stdlib Require Import Strings.Ascii.
From stdpp Require Import pretty.
From S2P Require Import Prelude GoStrings PathUtil Sha256 WriteBuffer Shadow.

Import GoStr Paths Shadow.

Module ShadowProps.

#[local] Arguments String.append !_ _ / : simpl nomatch.

(** ** Bytes *)

Lemma zlen_ftruncate f n : 0 <= n -> zlen (ftruncate f n) = n.
Proof.
  intros Hn. unfold ftruncate, zlen. rewrite length_take, length_app. unfold gmake. rewrite length_replicate. unfold zlen. lia.
Qed.

Lemma zlen_pwrite f off data : 0 <= off -> zlen (pwrite f off data)
  = if bool_decide (data = []) then zlen f else Z.max (zlen f) (off + zlen data).
Proof.
  intros Ho. unfold pwrite. case_bool_decide; [done|]. pose proof (zlen_nonneg f). pose proof (zlen_nonneg data).
  destruct (Z.le_gt_cases 0 (off + zlen data - zlen f)).
  - rewrite zlen_gcopy; rewrite zlen_app, zlen_gmake; lia.
  - assert (gmake (off + zlen data - zlen f) = []) as ->. { unfold gmake. by replace (Z.to_nat (off + zlen data - zlen f)) with 0%nat by lia. }
    rewrite app_nil_r, zlen_gcopy; lia.
Qed.

Lemma pread_all f : pread f 0 (zlen f) = f.
Proof.
  unfold pread, gslice. rewrite Z.add_0_l, Z.sub_0_r. cbn. apply take_ge. unfold zlen. lia.
Qed.

(** ** Names *)

Fixpoint nodot (s : string) : bool :=
  match s with EmptyString => true | String c s => negb (Ascii.eqb c ".") && nodot s end.

(** Two names are split at their first dots alike. *)
Lemma dot_split (a b x y : string) : nodot a = true -> nodot b = true ->
  a +:+ String "." x = b +:+ String "." y -> a = b /\ x = y.
Proof.
  revert b. induction a as [|c a IH]; intros [|c' b] Ha Hb E; cbn [String.append nodot] in *.
  - by injection E.
  - injection E as <- _. by cbn in Hb.
  - injection E as -> _. by cbn in Ha.
  - injection E as <- E. apply andb_prop in Ha as [_ Ha], Hb as [_ Hb]. by destruct (IH b Ha Hb E) as [-> ->].
Qed.

Section store.
Context (hashPath : string -> string).
Hypothesis hash_inj : forall p q, hashPath p = hashPath q -> p = q.
Hypothesis hash_nodot : forall p, nodot (hashPath p) = true.

Abbreviation shadowPath := (shadowPath hashPath).
Abbreviation retiredName := (retiredName hashPath).

Lemma shadowPath_inj p q : shadowPath p = shadowPath q -> p = q.
Proof using hash_inj. intros H. apply hash_inj. by apply string_app_inj_r in H. Qed.

Lemma retiredName_dot p g : retiredName p g = hashPath p +:+ String "." ("shadow.retired." +:+ pretty g).
Proof. unfold Shadow.retiredName, Shadow.shadowPath. by rewrite <- string_app_assoc. Qed.

Lemma retired_apart p q g : retiredName p g <> shadowPath q.
Proof using hash_nodot.
  rewrite retiredName_dot. intros H. by apply dot_split in H as [_ H]; [|apply hash_nodot..].
Qed.

Lemma retired_inj p q g g' : retiredName p g = retiredName q g' -> g = g'.
Proof using hash_nodot.
  rewrite !retiredName_dot. intros H. apply dot_split in H as [_ H]; [|apply hash_nodot..].
  apply string_app_inj in H. by apply (inj pretty) in H.
Qed.

(** ** The directory *)

(** Names stand for distinct files that exist, and what is allocated is below the
    counters. *)
Record diskOk (d : disk) : Prop := {
  name_blob : forall n i, names d !! n = Some i -> is_Some (blobs d !! i);
  name_inj : forall n n' i, names d !! n = Some i -> names d !! n' = Some i -> n = n';
  blob_old : forall i, is_Some (blobs d !! i) -> i < nextBlob d;
  fd_old : forall f, is_Some (fds d !! f) -> f < nextFd d
}.

(** A writable descriptor of the file with name [n], whose contents are [b]. *)
Definition sees (d : disk) (f : Z) (n : string) (b : bytes) : Prop :=
  exists i, fds d !! f = Some (i, true) /\ names d !! n = Some i /\ blobs d !! i = Some b.

Lemma sees_bytes d f n b : sees d f n b -> fdBytes d f = Some b.
Proof. intros (i & H1 & _ & H3). unfold fdBytes. by rewrite H1. Qed.

Lemma sees_name d f n n' b b' : diskOk d -> sees d f n b -> sees d f n' b' -> n = n'.
Proof. intros Hd (i & H1 & H2 & _) (i' & H1' & H2' & _). simplify_eq. by eapply name_inj. Qed.

Lemma sees_fun d f n b b' : sees d f n b -> sees d f n b' -> b = b'.
Proof. intros (i & H1 & _ & H3) (i' & H1' & _ & H3'). by simplify_eq. Qed.

Lemma open_new d n : diskOk d -> names d !! n = None ->
  exists d', openFile true true n d = Some (d', nextFd d) /\ diskOk d' /\ sees d' (nextFd d) n []
    /\ (forall f n' b, sees d f n' b -> sees d' f n' b)
    /\ (forall n', n' <> n -> names d' !! n' = names d !! n').
Proof.
  intros Hd Hn. unfold openFile. rewrite Hn. eexists. split; [done|].
  assert (forall n' i, names d !! n' = Some i -> i < nextBlob d) as Hold.
  { intros n' i H. apply (blob_old _ Hd). by eapply name_blob. }
  split_and!.
  - split; cbn [names blobs fds nextBlob nextFd].
    + intros n' i [[<- <-]|[_ H]]%lookup_insert_Some; [rewrite lookup_insert_eq; by eexists|].
      rewrite lookup_insert_ne by (apply Hold in H; lia). by eapply name_blob.
    + intros n1 n2 i [[<- <-]|[N1 H1]]%lookup_insert_Some [[<- E]|[N2 H2]]%lookup_insert_Some.
      * done.
      * apply Hold in H2. lia.
      * apply Hold in H1. lia.
      * by eapply name_inj.
    + intros i [x [[<- _]|[_ H]]%lookup_insert_Some]; [lia|]. pose proof (blob_old _ Hd i ltac:(by eexists)). lia.
    + intros f [x [[<- _]|[_ H]]%lookup_insert_Some]; [lia|]. pose proof (fd_old _ Hd f ltac:(by eexists)). lia.
  - exists (nextBlob d). cbn. by rewrite !lookup_insert_eq.
  - intros f n' b (i & H1 & H2 & H3). exists i. cbn. pose proof (fd_old _ Hd f ltac:(by eexists)).
    pose proof (Hold _ _ H2). rewrite !lookup_insert_ne; [done|lia|congruence|lia].
  - intros n' H. cbn. by rewrite lookup_insert_ne.
Qed.

Lemma modify_seen d f n b (g : bytes -> bytes) : diskOk d -> sees d f n b ->
  exists d', fdModify f g d = inl d' /\ diskOk d' /\ names d' = names d /\ sees d' f n (g b)
    /\ forall f' n' b', n' <> n -> sees d f' n' b' -> sees d' f' n' b'.
Proof.
  intros Hd (i & H1 & H2 & H3). unfold fdModify. rewrite H1. eexists. split_and!; [done|..].
  - split; cbn; [|apply Hd|..|apply Hd].
    + intros n' j H. apply lookup_alter_is_Some. by eapply name_blob.
    + intros j H. apply lookup_alter_is_Some in H. by apply Hd.
  - done.
  - exists i. cbn. rewrite lookup_alter_eq. by rewrite H3.
  - intros f' n' b' Hne (j & G1 & G2 & G3). exists j. cbn. rewrite lookup_alter_ne; [done|].
    intros <-. apply Hne. by eapply name_inj.
Qed.

Lemma close_seen d f n b f' n' b' : diskOk d -> sees d f n b -> n' <> n -> sees d f' n' b' -> sees (closeFd f d) f' n' b'.
Proof.
  intros Hd H Hne H'. assert (f' <> f) as Hf. { intros ->. apply Hne. by eapply sees_name. }
  destruct H' as (i & H1 & H2 & H3). exists i. cbn. by rewrite lookup_delete_ne.
Qed.

Lemma close_ok d f : diskOk d -> diskOk (closeFd f d).
Proof.
  intros Hd. split; cbn; try apply Hd. intros f' [x [_ H]%lookup_delete_Some]. apply (fd_old _ Hd). by eexists.
Qed.

Lemma remove_ok d n : diskOk d -> diskOk (removeName n d).
Proof.
  intros Hd. split; cbn; try apply Hd.
  - intros n' i [_ H]%lookup_delete_Some. by eapply name_blob.
  - intros n1 n2 i [_ H1]%lookup_delete_Some [_ H2]%lookup_delete_Some. by eapply name_inj.
Qed.

Lemma remove_seen d n f' n' b' : n' <> n -> sees d f' n' b' -> sees (removeName n d) f' n' b'.
Proof. intros Hne (i & H1 & H2 & H3). exists i. cbn. by rewrite lookup_delete_ne. Qed.

Lemma rename_seen d a n f b : diskOk d -> sees d f a b -> n <> a ->
  exists d', renameName true a n d = Some d' /\ diskOk d' /\ sees d' f n b
    /\ (forall f' n' b', n' <> n -> n' <> a -> sees d f' n' b' -> sees d' f' n' b')
    /\ names d' = <[n := default 0 (names d !! a)]> (delete a (names d)).
Proof.
  intros Hd (i & H1 & H2 & H3) Hna. unfold renameName. rewrite H2. eexists. split_and!; [done|..].
  - split; cbn; try apply Hd.
    + intros n' j [[<- <-]|[_ [_ H]%lookup_delete_Some]]%lookup_insert_Some; [by eexists|]. by eapply name_blob.
    + intros n1 n2 j [[<- <-]|[N1 [M1 G1]%lookup_delete_Some]]%lookup_insert_Some
        [[<- E]|[N2 [M2 G2]%lookup_delete_Some]]%lookup_insert_Some; [done|..].
      * destruct M2. by eapply name_inj.
      * subst. destruct M1. by eapply name_inj.
      * by eapply name_inj.
  - exists i. cbn. by rewrite lookup_insert_eq.
  - intros f' n' b' N1 N2 (j & G1 & G2 & G3). exists j. cbn. by rewrite lookup_insert_ne, lookup_delete_ne.
  - done.
Qed.

(** ** The invariant *)

Record shadowOk (s : ShadowStore) : Prop := {
  disk_ok : diskOk (os s);
  file_open : forall p ptr, files s !! p = Some ptr ->
    exists sf b, heap s !! ptr = Some sf /\ sees (os s) (fd sf) (shadowPath p) b /\ size sf = zlen b;
  file_loaded : forall p, is_Some (names (os s) !! shadowPath p) -> is_Some (files s !! p);
  heap_old : forall ptr, is_Some (heap s !! ptr) -> ptr < nextPtr s;
  gen_active : forall p g, active s !! p = Some g -> exists ptr, files s !! p = Some ptr /\ genFile s !! g = Some ptr;
  gen_file : forall g, is_Some (genFile s !! g) -> exists p, active s !! p = Some g;
  gen_inj : forall p q g, active s !! p = Some g -> active s !! q = Some g -> p = q;
  gen_old : forall g, is_Some (genFile s !! g) \/ is_Some (retired s !! g) \/ is_Some (refs s !! g) -> 0 < g <= nextGen s;
  gen_nonneg : 0 <= nextGen s;
  ret_file : forall g rt, retired s !! g = Some rt ->
    genFile s !! g = None /\ (exists p, diskPath rt = retiredName p g)
    /\ exists b, sees (os s) (rfd rt) (diskPath rt) b /\ rsize rt = zlen b
}.


(** What is stored for a path: its bytes, and the revision they are based on. *)
Definition content (s : ShadowStore) (p : string) : option (bytes * Z) :=
  files s !! p ≫= fun ptr => heap s !! ptr ≫= fun sf => (fun b => (b, baseRev sf)) <$> fdBytes (os s) (fd sf).

Lemma content_files s p ptr : shadowOk s -> files s !! p = Some ptr ->
  exists sf b, heap s !! ptr = Some sf /\ sees (os s) (fd sf) (shadowPath p) b /\ size sf = zlen b
    /\ fdBytes (os s) (fd sf) = Some b /\ ptrFd s ptr = fd sf /\ content s p = Some (b, baseRev sf).
Proof.
  intros H Hp. destruct (file_open _ H _ _ Hp) as (sf & b & Hh & Ho & Hs). exists sf, b.
  pose proof (sees_bytes _ _ _ _ Ho) as Hb.
  split_and!; try done; unfold ptrFd, content; rewrite ?Hp; cbn; by rewrite Hh; cbn; rewrite ?Hb.
Qed.

(** Distinct paths have distinct pointers. *)
Lemma files_inj s p q ptr : shadowOk s -> files s !! p = Some ptr -> files s !! q = Some ptr -> p = q.
Proof using hash_inj.
  intros H Hp Hq. destruct (file_open _ H _ _ Hp) as (sf & b & Hh & Ho & _).
  destruct (file_open _ H _ _ Hq) as (sf' & b' & Hh' & Ho' & _). simplify_eq.
  apply shadowPath_inj. exact (sees_name _ _ _ _ _ _ (disk_ok _ H) Ho Ho').
Qed.

(** A store whose paths have no generation has none at all. *)
Lemma gen_absent s g : shadowOk s -> nextGen s < g -> genFile s !! g = None /\ retired s !! g = None /\ refs s !! g = None.
Proof.
  intros H Hg. split_and!; apply eq_None_not_Some; intros Hs; [pose proof (gen_old _ H g (or_introl Hs))
    |pose proof (gen_old _ H g (or_intror (or_introl Hs)))|pose proof (gen_old _ H g (or_intror (or_intror Hs)))]; lia.
Qed.

(** ** The abstract machine *)

(** A pin is on the file that has a path now, or keeps the bytes of one that is gone. *)
Inductive pinned := Live (p : string) | Kept (b : bytes).

Record spec := {
  cont : gmap string (bytes * Z);
  live : gmap string Z;       (** the pin on the file of a path, of those that can be on it *)
  pins : gmap Z pinned;
  counts : gmap Z Z;
  gens : Z
}.

Definition emptySpec : spec := {| cont := ∅; live := ∅; pins := ∅; counts := ∅; gens := 0 |}.
Definition set_cont (c : gmap string (bytes * Z)) (v : spec) : spec :=
  {| cont := c; live := live v; pins := pins v; counts := counts v; gens := gens v |}.

Record refines (s : ShadowStore) (v : spec) : Prop := {
  r_ok : shadowOk s;
  r_cont : forall p, cont v !! p = content s p;
  r_active : live v = active s;
  r_live : forall g p, pins v !! g = Some (Live p) <-> active s !! p = Some g;
  r_kept : forall g b, pins v !! g = Some (Kept b)
    <-> exists rt, retired s !! g = Some rt /\ sees (os s) (rfd rt) (diskPath rt) b;
  r_counts : counts v = refs s;
  r_gens : gens v = nextGen s
}.

Definition emptyDisk : disk := {| names := ∅; blobs := ∅; fds := ∅; nextBlob := 1; nextFd := 1 |}.

Lemma refines_empty : refines (NewShadowStore emptyDisk) emptySpec.
Proof.
  split; [split; [split|..]|..]; cbn; intros *; rewrite ?lookup_empty; try done; try by intros [? ?].
  - by intros [[? ?]|[[? ?]|[? ?]]].
  - split; [done|]. intros (rt & ? & _). done.
Qed.

(** One file changes, and its record. *)
Lemma update_refines s v p ptr sf b d' (h : ShadowFile -> ShadowFile) : refines s v -> files s !! p = Some ptr ->
  heap s !! ptr = Some sf -> diskOk d' -> names d' = names (os s) -> sees d' (fd sf) (shadowPath p) b ->
  (forall f n b', n <> shadowPath p -> sees (os s) f n b' -> sees d' f n b') ->
  fd (h sf) = fd sf -> size (h sf) = zlen b ->
  refines (setMeta ptr h (set_os d' s)) (set_cont (<[p := (b, baseRev (h sf))]> (cont v)) v).
Proof using hash_inj hash_nodot.
  intros R Hp Hsf Hd Hn Hb Hoth Hfd Hsz. pose proof (r_ok _ _ R) as H.
  assert (forall q x, q <> p -> files s !! q = Some x -> x <> ptr) as Hne by (intros q x Hq Hx ->; by apply Hq, (files_inj s q p ptr)).
  assert (forall q, q <> p -> shadowPath q <> shadowPath p) as Hsp by (intros q Hq E; by apply Hq, shadowPath_inj).
  assert (shadowOk (setMeta ptr h (set_os d' s))) as Hok.
  { split; cbn; try exact (gen_nonneg _ H); try apply H; try done.
    - intros q x Hx. destruct (decide (q = p)) as [->|Hq].
      + simplify_eq. exists (h sf), b. by rewrite lookup_alter_eq, Hsf, Hfd.
      + destruct (file_open _ H _ _ Hx) as (sf' & b' & Hh & Ho & Hs). exists sf', b'.
        rewrite lookup_alter_ne by (intros ->; by eapply Hne). auto.
    - intros q. rewrite Hn. apply H.
    - intros x Hx%lookup_alter_is_Some. by apply H.
    - intros g rt Hrt. destruct (ret_file _ H g rt Hrt) as (G1 & (q & G2) & b' & G3 & G4).
      split_and!; [done|by eexists|]. exists b'. split; [|done]. apply Hoth; [|done]. rewrite G2. apply retired_apart. }
  split; cbn; try apply R; [done|..].
  - intros q. destruct (decide (q = p)) as [->|Hq].
    + rewrite lookup_insert_eq. destruct (content_files _ p ptr Hok Hp) as (sf' & b' & Hh & Ho & _ & _ & _ & ->).
      cbn in Hh. rewrite lookup_alter_eq, Hsf in Hh. simplify_eq/=. rewrite Hfd in Ho. by rewrite (sees_fun _ _ _ _ _ Hb Ho).
    + rewrite lookup_insert_ne, (r_cont _ _ R) by done. unfold content. cbn.
      destruct (files s !! q) as [x|] eqn:Hx; [|done]. destruct (file_open _ H _ _ Hx) as (sf' & b' & Hh & Ho & Hs). cbn.
      rewrite lookup_alter_ne by (intros ->; by eapply Hne). rewrite Hh. cbn.
      rewrite (sees_bytes _ _ _ _ Ho). by rewrite (sees_bytes _ _ _ _ (Hoth _ _ _ (Hsp q Hq) Ho)).
  - intros g b'. rewrite (r_kept _ _ R). split; intros (rt & Hrt & Hs); exists rt; (split; [done|]);
      destruct (ret_file _ H g rt Hrt) as (G1 & (q & G2) & b'' & G3 & G4);
      assert (sees d' (rfd rt) (diskPath rt) b'') as G5 by (apply Hoth; [rewrite G2; apply retired_apart|done]).
    + by rewrite (sees_fun _ _ _ _ _ Hs G3).
    + by rewrite (sees_fun _ _ _ _ _ Hs G5).
Qed.

(** The file of a path is changed, or made by [g] from the empty file. *)
Definition put (p : string) (rev : Z) (g : bytes -> bytes) (v : spec) : spec :=
  let '(b, r) := default ([], 0) (cont v !! p) in
  set_cont (<[p := (g b, if rev =? 0 then r else rev)]> (cont v)) v.

(** A path gets a file, and the revision when one is given. *)
Definition touch (p : string) (rev : Z) (v : spec) : spec := put p rev id v.

Lemma setMeta_os s ptr h : setMeta ptr h s = setMeta ptr h (set_os (os s) s).
Proof. by destruct s. Qed.

Lemma ensure_refines s v p rev s' ptr : refines s v -> ensureShadowFile hashPath p rev s = (s', ptr) ->
  refines s' (touch p rev v) /\ files s' !! p = Some ptr.
Proof using hash_inj hash_nodot.
  intros R E. pose proof (r_ok _ _ R) as H. unfold ensureShadowFile in E. destruct (files s !! p) as [x|] eqn:Hp.
  - injection E as <- <-. destruct (content_files s p x H Hp) as (sf & b & Hh & Ho & Hs & Hb & _ & Hc).
    split; [|done]. unfold touch, put. rewrite (r_cont _ _ R), Hc. cbn [from_option id].
    change (set_heap (alter (withRev rev) x (heap s)) s) with (setMeta x (withRev rev) s). rewrite setMeta_os.
    replace (if rev =? 0 then baseRev sf else rev) with (baseRev (withRev rev sf)) by (unfold withRev; by destruct (rev =? 0)).
    apply (update_refines s v p x sf b (os s) (withRev rev)); try done; [apply H|..]; unfold withRev; by destruct (rev =? 0).
  - assert (names (os s) !! shadowPath p = None) as Hn.
    { apply eq_None_not_Some. intros Hs%(file_loaded _ H). destruct Hs. congruence. }
    destruct (open_new (os s) _ (disk_ok _ H) Hn) as (d & Eo & Hd & Hs & Hoth & Hnames). rewrite Eo in E.
    unfold addFile in E. rewrite (sees_bytes _ _ _ _ Hs) in E. injection E as <- <-.
    split; [|cbn; by rewrite lookup_insert_eq].
    assert (forall q x, files s !! q = Some x -> x <> nextPtr s) as Hold.
    { intros q x Hx. destruct (file_open _ H _ _ Hx) as (? & ? & Hh & _). pose proof (heap_old _ H x ltac:(by eexists)). lia. }
    unfold touch, put. rewrite (r_cont _ _ R). unfold content. rewrite Hp. cbn [mbind option_bind from_option id].
    split; cbn; try apply R.
    + split; cbn; try exact (gen_nonneg _ H); try apply H; try done.
      * intros q x [[<- <-]|[Hq Hx]]%lookup_insert_Some; [eexists _, []; by rewrite lookup_insert_eq|].
        destruct (file_open _ H _ _ Hx) as (sf & b & Hh & Ho & Hz). exists sf, b.
        rewrite lookup_insert_ne by (apply not_eq_sym; by eapply Hold). auto.
      * intros q Hq. destruct (decide (q = p)) as [->|Hne]; [rewrite lookup_insert_eq; by eexists|].
        rewrite lookup_insert_ne by done. apply (file_loaded _ H). rewrite Hnames in Hq; [done|]. intros E. by apply Hne, shadowPath_inj.
      * intros x [y [[<- _]|[_ Hy]]%lookup_insert_Some]; [lia|]. pose proof (heap_old _ H x ltac:(by eexists)). lia.
      * intros q g Hg. destruct (gen_active _ H _ _ Hg) as (x & Hx & Hgf). exists x. rewrite lookup_insert_ne; [done|]. congruence.
      * intros g rt Hrt. destruct (ret_file _ H g rt Hrt) as (G1 & G2 & b' & G3 & G4). eauto 10.
    + intros q. destruct (decide (q = p)) as [->|Hne].
      * rewrite lookup_insert_eq. unfold content. cbn. rewrite lookup_insert_eq. cbn. rewrite lookup_insert_eq. cbn.
        rewrite (sees_bytes _ _ _ _ Hs). cbn. f_equal. f_equal. destruct (Z.eqb_spec rev 0); congruence.
      * rewrite lookup_insert_ne, (r_cont _ _ R) by done. unfold content. cbn. rewrite lookup_insert_ne by done.
        destruct (files s !! q) as [x|] eqn:Hx; [|done]. destruct (file_open _ H _ _ Hx) as (sf & b & Hh & Ho & Hz). cbn.
        rewrite lookup_insert_ne by (apply not_eq_sym; by eapply Hold). rewrite Hh. cbn.
        by rewrite (sees_bytes _ _ _ _ Ho), (sees_bytes _ _ _ _ (Hoth _ _ _ Ho)).
    + intros g b. rewrite (r_kept _ _ R). split; intros (rt & Hrt & Hse); exists rt; (split; [done|]); [by apply Hoth|].
      destruct (ret_file _ H g rt Hrt) as (_ & _ & b' & G3 & _). by rewrite (sees_fun _ _ _ _ _ Hse (Hoth _ _ _ G3)).
Qed.

(** A write through the descriptor of a path, and the new record. *)
Lemma writeFd_refines {A} s v p ptr b rev g h rev' (r : A) : refines s v -> files s !! p = Some ptr ->
  cont v !! p = Some (b, rev) ->
  (forall sf, size sf = zlen b -> baseRev sf = rev -> fd (h sf) = fd sf /\ size (h sf) = zlen (g b) /\ baseRev (h sf) = rev') ->
  exists s', writeFd ptr g s (fun s => (setMeta ptr h s, inl r)) = (s', inl r)
    /\ refines s' (set_cont (<[p := (g b, rev')]> (cont v)) v).
Proof using hash_inj hash_nodot.
  intros R Hp Hv Hh. pose proof (r_ok _ _ R) as H.
  destruct (content_files s p ptr H Hp) as (sf & b' & Hsf & Ho & Hs & Hb & Hfd & Hc).
  rewrite (r_cont _ _ R), Hc in Hv. injection Hv as -> <-.
  destruct (modify_seen (os s) (fd sf) _ b g (disk_ok _ H) Ho) as (d' & Em & Hd' & Hn & Hse & Hoth).
  destruct (Hh sf Hs eq_refl) as (H1 & H2 & <-).
  exists (setMeta ptr h (set_os d' s)). unfold writeFd. rewrite Hfd, Em. split; [done|].
  by apply (update_refines s v p ptr sf (g b) d' h).
Qed.


(** *** Pins *)

Definition set_counts (c : gmap Z Z) (v : spec) : spec :=
  {| cont := cont v; live := live v; pins := pins v; counts := c; gens := gens v |}.

Definition countOf (v : spec) (g : Z) : Z := default 0 (counts v !! g).

Definition newPin (p : string) (v : spec) : spec * Z :=
  let g := gens v + 1 in
  ({| cont := cont v; live := <[p := g]> (live v); pins := <[g := Live p]> (pins v); counts := counts v; gens := g |}, g).

Definition specPin (p : string) (v : spec) : spec * option Z :=
  match cont v !! p with
  | None => (v, None)
  | Some _ => let '(v, g) := match live v !! p with Some g => (v, g) | None => newPin p v end in
              (set_counts (<[g := countOf v g + 1]> (counts v)) v, Some g)
  end.

(** The last pin of a file that is gone releases its bytes. *)
Definition specUnpin (g : Z) (v : spec) : spec :=
  if g =? 0 then v
  else
    let r := countOf v g - 1 in
    let v := set_counts (if r <=? 0 then delete g (counts v) else <[g := r]> (counts v)) v in
    match pins v !! g with
    | Some (Kept _) => if r <=? 0 then {| cont := cont v; live := live v; pins := delete g (pins v); counts := counts v; gens := gens v |}
                       else v
    | _ => v
    end.

Lemma newGen_refines s v p ptr : refines s v -> files s !! p = Some ptr -> active s !! p = None ->
  refines (fst (newGen p (Some ptr) s)) (fst (newPin p v)).
Proof.
  intros R Hp Ha. pose proof (r_ok _ _ R) as H. unfold newGen, newPin. rewrite (r_gens _ _ R), (r_active _ _ R).
  set (g := nextGen s + 1). destruct (gen_absent s g H ltac:(unfold g; lia)) as (A1 & A2 & A3).
  assert (forall q, active s !! q <> Some g) as Hno by (intros q Hq; destruct (gen_active _ H _ _ Hq) as (x & _ & E); congruence).
  split; cbn [fst cont live pins counts gens active retired os]; try apply R; try done.
  - split; cbn; try exact (gen_nonneg _ H); try apply H.
    + intros q g' [[<- <-]|[Hq Hg]]%lookup_insert_Some.
      * exists ptr. by rewrite lookup_insert_eq.
      * destruct (gen_active _ H _ _ Hg) as (x & Hx & Hgx). exists x. split; [done|]. rewrite lookup_insert_ne; [done|]. congruence.
    + intros g' [x [[<- _]|[Hne Hx]]%lookup_insert_Some]; [exists p; by rewrite lookup_insert_eq|].
      destruct (gen_file _ H g' ltac:(by eexists)) as [q Hq]. exists q. rewrite lookup_insert_ne; [done|]. intros <-. congruence.
    + intros q1 q2 g' [[<- <-]|[N1 G1]]%lookup_insert_Some [[<- E]|[N2 G2]]%lookup_insert_Some; try done.
      * by destruct (Hno q2).
      * subst. by destruct (Hno q1).
      * by eapply gen_inj.
    + intros g' Hg. fold g. destruct (decide (g' = g)) as [->|Hne].
      * pose proof (gen_nonneg _ H). unfold g. lia.
      * assert (0 < g' <= nextGen s); [|unfold g; lia]. apply (gen_old _ H). by rewrite lookup_insert_ne in Hg.
    + pose proof (gen_nonneg _ H). unfold g. lia.
    + intros g' rt Hrt. rewrite lookup_insert_ne by congruence. by apply (ret_file _ H).
  - intros g' q. destruct (decide (g' = g)) as [->|Hne].
    + rewrite lookup_insert_eq. split; [intros [= <-]; by rewrite lookup_insert_eq|].
      intros [[<- _]|[_ Hq]]%lookup_insert_Some; [done|]. by destruct (Hno q).
    + rewrite lookup_insert_ne by done. rewrite (r_live _ _ R). destruct (decide (q = p)) as [->|Hq].
      * rewrite lookup_insert_eq. split; [congruence|]. intros [= <-]. done.
      * by rewrite lookup_insert_ne.
  - intros g' b. destruct (decide (g' = g)) as [->|Hne]; [|rewrite lookup_insert_ne by done; apply (r_kept _ _ R)].
    rewrite lookup_insert_eq. split; [done|]. intros (rt & Hrt & _). congruence.
Qed.

(** Counts change where there is a pin. *)
Lemma counts_refines s v c : refines s v -> (forall g, is_Some (c !! g) -> 0 < g <= nextGen s) ->
  refines (set_refs c s) (set_counts c v).
Proof.
  intros R Hc. pose proof (r_ok _ _ R) as H. split; cbn; try apply R; [|done].
  split; cbn; try exact (gen_nonneg _ H); try apply H. intros g [Hg|[Hg|Hg]]; [..|by apply Hc]; apply (gen_old _ H); auto.
Qed.

Lemma refsOf_count s v g : refines s v -> refsOf s g = countOf v g.
Proof. intros R. unfold refsOf, countOf. by rewrite (r_counts _ _ R). Qed.

Lemma live_old s g p : shadowOk s -> active s !! p = Some g -> 0 < g <= nextGen s.
Proof. intros H Hg. destruct (gen_active _ H _ _ Hg) as (x & _ & Hx). apply (gen_old _ H). left. by eexists. Qed.

Lemma addRef_refines s v g p : refines s v -> active s !! p = Some g ->
  refines (addRef g s) (set_counts (<[g := countOf v g + 1]> (counts v)) v).
Proof.
  intros R Hg. unfold addRef. rewrite (refsOf_count s v), (r_counts _ _ R) by done. apply counts_refines; [done|].
  intros g' [x [[<- _]|[_ Hx]]%lookup_insert_Some]; [by eapply live_old; [apply R|]|].
  apply (gen_old _ (r_ok _ _ R)). right. right. by eexists.
Qed.

Lemma loaded_openFile s p : shadowOk s -> files s !! p = None -> names (os s) !! shadowPath p = None.
Proof. intros H Hp. apply eq_None_not_Some. intros Hs%(file_loaded _ H). destruct Hs. congruence. Qed.

Lemma pin_refines s v p : refines s v ->
  refines (fst (PinIfExists hashPath p s)) (fst (specPin p v)) /\ snd (PinIfExists hashPath p s) = snd (specPin p v).
Proof.
  intros R. pose proof (r_ok _ _ R) as H. unfold PinIfExists, specPin. rewrite (r_cont _ _ R).
  destruct (files s !! p) as [ptr|] eqn:Hp.
  - destruct (content_files s p ptr H Hp) as (sf & b & _ & _ & _ & _ & _ & ->). rewrite (r_active _ _ R).
    destruct (active s !! p) as [g|] eqn:Ha; [split; [by eapply addRef_refines|done]|].
    pose proof (newGen_refines s v p ptr R Hp Ha) as R'. unfold newGen, newPin in *. cbn [fst snd] in *.
    rewrite (r_gens _ _ R) in *. split; [|done]. eapply (addRef_refines _ _ _ p R'). cbn. by rewrite lookup_insert_eq.
  - unfold openFile. rewrite (loaded_openFile s p H Hp). unfold content. rewrite Hp. done.
Qed.

Lemma unpin_refines s v g : refines s v -> refines (Unpin g s) (specUnpin g v).
Proof using hash_inj hash_nodot.
  intros R. pose proof (r_ok _ _ R) as H. unfold Unpin, specUnpin. destruct (g =? 0); [done|]. rewrite (refsOf_count s v g R).
  set (r := countOf v g - 1). set (c := if r <=? 0 then delete g (refs s) else <[g := r]> (refs s)).
  rewrite (r_counts _ _ R). fold c. assert (refines (set_refs c s) (set_counts c v)) as R'.
  { apply counts_refines; [done|]. intros g' Hg'. apply (gen_old _ H). right. right. unfold c in Hg'.
    destruct (Z.leb_spec r 0); [destruct Hg' as [x [_ Hx]%lookup_delete_Some]; by eexists|].
    destruct Hg' as [x [[<- _]|[_ Hx]]%lookup_insert_Some]; [|by eexists].
    unfold r, countOf in *. rewrite (r_counts _ _ R) in *. destruct (refs s !! g); [by eexists|cbn in *; lia]. }
  cbn [pins set_counts retired set_refs]. destruct (retired s !! g) as [rt|] eqn:Hrt.
  - destruct (ret_file _ H g rt Hrt) as (Hgf & (p & Hdp) & b & Hse & Hsz).
    assert (pins v !! g = Some (Kept b)) as -> by (apply (r_kept _ _ R); eauto). destruct (Z.leb_spec r 0); [|done].
    pose proof (r_ok _ _ R') as H'. clearbody c. assert (forall n, (exists q, n = shadowPath q) \/ (exists q g', g' <> g /\ n = retiredName q g') -> n <> diskPath rt) as Hn.
    { rewrite Hdp. intros n [[q ->]|(q & g' & Hne & ->)]; [apply not_eq_sym, retired_apart|]. by intros E%retired_inj. }
    change (os (set_refs c s)) with (os s). set (d := removeName (diskPath rt) (closeFd (rfd rt) (os s))).
    assert (forall f n b', n <> diskPath rt -> sees (os s) f n b' -> sees d f n b') as Hkeep.
    { intros f n b' Hne Hs. apply remove_seen; [done|]. by eapply close_seen; [apply H|..]. }
    assert (forall g' rt', g' <> g -> retired s !! g' = Some rt' -> diskPath rt' <> diskPath rt) as Hrts.
    { intros g' rt' Hne Hr. apply Hn. right. destruct (ret_file _ H g' rt' Hr) as (_ & (q & Hq) & _). eauto. }
    assert (diskOk d) as Hd by (apply remove_ok, close_ok, H).
    assert (forall q, is_Some (names d !! shadowPath q) -> is_Some (files s !! q)) as Hload.
    { intros q [x Hx]. unfold d, removeName in Hx. cbn in Hx. apply lookup_delete_Some in Hx as [_ Hx]. apply (file_loaded _ H). by eexists. }
    clearbody d. split; cbn; try apply R'; [split|..]; cbn; try exact (gen_nonneg _ H); try apply H'; try done.
    + intros q x Hx. destruct (file_open _ H q x Hx) as (sf & b' & Hh & Ho & Hz). exists sf, b'. split_and!; [done| |done].
      apply Hkeep; [|done]. apply Hn. eauto.
    + intros g' [Hg|[[x [_ Hg]%lookup_delete_Some]|Hg]]; apply (gen_old _ H'); [by left| |by right; right]. right. left. by eexists.
    + intros g' rt' [Hne Hr]%lookup_delete_Some. destruct (ret_file _ H g' rt' Hr) as (G1 & G2 & b' & G3 & G4).
      split_and!; [done|done|]. exists b'. split; [|done]. apply Hkeep; [|done]. by eapply Hrts; [apply not_eq_sym|].
    + intros q. rewrite (r_cont _ _ R). unfold content. cbn. destruct (files s !! q) as [x|] eqn:Hx; [|done].
      destruct (file_open _ H q x Hx) as (sf & b' & Hh & Ho & Hz). cbn. rewrite Hh. cbn.
      assert (sees d (fd sf) (shadowPath q) b') as Ho' by (apply Hkeep; [apply Hn; eauto|done]).
      by rewrite (sees_bytes _ _ _ _ Ho), (sees_bytes _ _ _ _ Ho').
    + intros g' q. rewrite <- (r_live _ _ R), lookup_delete_Some. split; [by intros [_ ?]|]. intros Hq. split; [|done].
      intros <-. apply (r_live _ _ R) in Hq. destruct (gen_active _ H _ _ Hq) as (x & _ & E). congruence.
    + intros g' b'. rewrite lookup_delete_Some, (r_kept _ _ R). setoid_rewrite lookup_delete_Some. split.
      * intros (Hne & rt' & Hr & Hs). exists rt'. split_and!; [done|done|]. apply Hkeep; [|done]. by eapply Hrts; [apply not_eq_sym|].
      * intros (rt' & (Hne & Hr) & Hs). split; [done|]. exists rt'. split; [done|].
        destruct (ret_file _ H g' rt' Hr) as (_ & _ & b'' & G3 & _).
        assert (sees d (rfd rt') (diskPath rt') b'') as G5 by (apply Hkeep; [by eapply Hrts; [apply not_eq_sym|]|done]).
        by rewrite (sees_fun _ _ _ _ _ Hs G5).
  - assert (forall b, pins v !! g <> Some (Kept b)) as Hk.
    { intros b Hb. apply (r_kept _ _ R) in Hb as (rt & Hr & _). congruence. }
    destruct (pins v !! g) as [[q|b]|] eqn:Hp; destruct (r <=? 0); try done; by destruct (Hk b).
Qed.

(** *** Removal *)

Definition specRemove (p : string) (v : spec) : spec :=
  match live v !! p with
  | Some g =>
      if 0 <? countOf v g
      then {| cont := delete p (cont v); live := delete p (live v);
              pins := match cont v !! p with Some (b, _) => <[g := Kept b]> (pins v) | None => pins v end;
              counts := counts v; gens := gens v |}
      else {| cont := delete p (cont v); live := delete p (live v); pins := delete g (pins v);
              counts := delete g (counts v); gens := gens v |}
  | None => set_cont (delete p (cont v)) v
  end.

(** The name of a path is gone, and the names of the other files are as before. *)
Record gone (s : ShadowStore) (p : string) (d' : disk) : Prop := {
  gone_ok : diskOk d';
  gone_name : names d' !! shadowPath p = None;
  gone_names : forall q, q <> p -> names d' !! shadowPath q = names (os s) !! shadowPath q;
  gone_files : forall f q b, q <> p -> sees (os s) f (shadowPath q) b -> sees d' f (shadowPath q) b;
  gone_rets : forall f q g b, is_Some (retired s !! g) -> sees (os s) f (retiredName q g) b -> sees d' f (retiredName q g) b
}.

(** The store without a path, whatever becomes of its pin. *)
Definition without (p : string) (d : disk) (ac : gmap string Z) (gf rf : gmap Z Z) (rts : gmap Z retiredShadow)
    (s : ShadowStore) : ShadowStore :=
  {| os := d; heap := heap s; nextPtr := nextPtr s; files := delete p (files s); nextGen := nextGen s; active := ac;
     genFile := gf; refs := rf; retired := rts |}.

Lemma without_content s p d ac gf rf rts q : shadowOk s -> gone s p d ->
  content (without p d ac gf rf rts s) q = if decide (q = p) then None else content s q.
Proof.
  intros H G. unfold content. cbn. destruct (decide (q = p)) as [->|Hne]; [by rewrite lookup_delete_eq|].
  rewrite lookup_delete_ne by done. destruct (files s !! q) as [x|] eqn:Hx; [|done].
  destruct (file_open _ H q x Hx) as (sf & b' & Hh & Ho & Hz). cbn. rewrite Hh. cbn.
  by rewrite (sees_bytes _ _ _ _ Ho), (sees_bytes _ _ _ _ (gone_files _ _ _ G _ _ _ Hne Ho)).
Qed.

Lemma without_files s p d q x : shadowOk s -> gone s p d -> delete p (files s) !! q = Some x ->
  exists sf b, heap s !! x = Some sf /\ sees d (fd sf) (shadowPath q) b /\ size sf = zlen b.
Proof.
  intros H G [Hne Hx]%lookup_delete_Some. destruct (file_open _ H q x Hx) as (sf & b & Hh & Ho & Hz).
  exists sf, b. split_and!; try done. by apply (gone_files _ _ _ G).
Qed.

Lemma without_loaded s p d q : shadowOk s -> gone s p d -> is_Some (names d !! shadowPath q) -> is_Some (delete p (files s) !! q).
Proof.
  intros H G Hq. destruct (decide (q = p)) as [->|Hne]; [rewrite (gone_name _ _ _ G) in Hq; by destruct Hq|].
  rewrite lookup_delete_ne by done. apply (file_loaded _ H). by rewrite <- (gone_names _ _ _ G).
Qed.

Lemma without_retired s p d g rt : shadowOk s -> gone s p d -> retired s !! g = Some rt ->
  genFile s !! g = None /\ (exists q, diskPath rt = retiredName q g)
  /\ exists b, sees (os s) (rfd rt) (diskPath rt) b /\ sees d (rfd rt) (diskPath rt) b /\ rsize rt = zlen b.
Proof.
  intros H G Hr. destruct (ret_file _ H g rt Hr) as (G1 & (q & G2) & b & G3 & G4). split_and!; [done|by eexists|].
  exists b. split_and!; [done| |done]. rewrite G2 in *. apply (gone_rets _ _ _ G); [by eexists|done].
Qed.

Lemma without_kept s p d g rt b : shadowOk s -> gone s p d -> retired s !! g = Some rt ->
  sees d (rfd rt) (diskPath rt) b <-> sees (os s) (rfd rt) (diskPath rt) b.
Proof.
  intros H G Hr. destruct (without_retired s p d g rt H G Hr) as (_ & _ & b' & G3 & G4 & _).
  split; intros Hs; [by rewrite (sees_fun _ _ _ _ _ Hs G4)|by rewrite (sees_fun _ _ _ _ _ Hs G3)].
Qed.

(** The file of a path is closed and its name removed. *)
Lemma removed_gone s p : shadowOk s ->
  gone s p (removeName (shadowPath p) (match files s !! p with Some ptr => closeFd (ptrFd s ptr) (os s) | None => os s end)).
Proof using hash_inj hash_nodot.
  intros H. assert (exists d, d = match files s !! p with Some ptr => closeFd (ptrFd s ptr) (os s) | None => os s end
    /\ diskOk d /\ names d = names (os s) /\ forall f n b, n <> shadowPath p -> sees (os s) f n b -> sees d f n b)
    as (d & <- & Hd & Hn & Hk).
  { eexists. split; [done|]. destruct (files s !! p) as [ptr|] eqn:Hp; [|split_and!; [apply H|done|done]].
    destruct (content_files s p ptr H Hp) as (sf & b & _ & Ho & _ & _ & -> & _).
    split_and!; [apply close_ok, H|done|]. intros f n b' Hne Hs. by eapply close_seen; [apply H|..]. }
  split.
  - by apply remove_ok.
  - cbn. by rewrite lookup_delete_eq.
  - intros q Hq. cbn. rewrite lookup_delete_ne, Hn; [done|]. by intros E%shadowPath_inj.
  - intros f q b Hq Hs. assert (shadowPath q <> shadowPath p) by (by intros E%shadowPath_inj). apply remove_seen; [done|]. by apply Hk.
  - intros f q g b _ Hs. apply remove_seen; [apply retired_apart|]. apply Hk; [apply retired_apart|done].
Qed.

(** The file of a path is kept under another name for a pin. *)
Lemma retire_gone s p ptr g : shadowOk s -> files s !! p = Some ptr -> retired s !! g = None ->
  exists sf b d, heap s !! ptr = Some sf /\ size sf = zlen b /\ content s p = Some (b, baseRev sf)
    /\ renameName true (shadowPath p) (retiredName p g) (os s) = Some d
    /\ gone s p d /\ sees d (fd sf) (retiredName p g) b.
Proof using hash_inj hash_nodot.
  intros H Hp Hr. destruct (content_files s p ptr H Hp) as (sf & b & Hh & Ho & Hs & _ & _ & Hc).
  destruct (rename_seen (os s) _ (retiredName p g) _ _ (disk_ok _ H) Ho) as (d & E & Hd & Hse & Hk & Hn); [apply retired_apart|].
  exists sf, b, d. split_and!; try done. split; [done|..].
  - rewrite Hn, lookup_insert_ne by apply retired_apart. by rewrite lookup_delete_eq.
  - intros q Hq. rewrite Hn, lookup_insert_ne by apply retired_apart. rewrite lookup_delete_ne; [done|]. by intros E'%shadowPath_inj.
  - intros f q b' Hq Hs'. apply Hk; [apply not_eq_sym, retired_apart| |done]. by intros E'%shadowPath_inj.
  - intros f q g' b' [rt Hg] Hs'. apply Hk; [|apply retired_apart|done]. intros E'%retired_inj. congruence.
Qed.

(** The invariant, when the path's pin goes with it, or is kept with a retired file. *)
Lemma without_ok s p d ac gf rf rts : shadowOk s -> gone s p d ->
  (forall q g, ac !! q = Some g -> q <> p /\ active s !! q = Some g /\ gf !! g = genFile s !! g) ->
  (forall g, is_Some (gf !! g) -> gf !! g = genFile s !! g /\ exists q, ac !! q = Some g) ->
  (forall g, is_Some (rf !! g) -> is_Some (refs s !! g)) ->
  (forall g rt, rts !! g = Some rt -> gf !! g = None /\ 0 < g <= nextGen s /\ (exists q, diskPath rt = retiredName q g)
     /\ exists b, sees d (rfd rt) (diskPath rt) b /\ rsize rt = zlen b) ->
  shadowOk (without p d ac gf rf rts s).
Proof.
  intros H G Hac Hgf Hrf Hrts. split; cbn; try exact (gen_nonneg _ H); try apply H.
  - apply G.
  - intros q x Hx. by apply (without_files s p d).
  - intros q Hq. by apply (without_loaded s p d).
  - intros q g Hq. destruct (Hac q g Hq) as (Hne & Ha & Hg). destruct (gen_active _ H _ _ Ha) as (x & Hx & Hgx).
    exists x. rewrite lookup_delete_ne by done. by rewrite Hg.
  - intros g Hg. by apply Hgf.
  - intros q q' g Hq Hq'. apply Hac in Hq as (_ & Hq & _), Hq' as (_ & Hq' & _). by eapply gen_inj.
  - intros g [Hg|[[rt Hg]|Hg]].
    + apply (gen_old _ H). left. by rewrite <- (proj1 (Hgf g Hg)).
    + by apply Hrts in Hg as (_ & ? & _).
    + apply (gen_old _ H). right. right. by apply Hrf.
  - intros g rt Hg. destruct (Hrts g rt Hg) as (G1 & _ & G2 & G3). done.
Qed.

Lemma without_active s p g q g' : shadowOk s -> active s !! p = Some g -> delete p (active s) !! q = Some g' ->
  q <> p /\ active s !! q = Some g' /\ delete g (genFile s) !! g' = genFile s !! g'.
Proof.
  intros H Ha [Hne Hq]%lookup_delete_Some. split_and!; [done|done|]. rewrite lookup_delete_ne; [done|].
  intros <-. apply Hne. by eapply gen_inj.
Qed.

Lemma without_gens s p g g' : shadowOk s -> active s !! p = Some g -> is_Some (delete g (genFile s) !! g') ->
  delete g (genFile s) !! g' = genFile s !! g' /\ exists q, delete p (active s) !! q = Some g'.
Proof.
  intros H Ha [x [Hne Hx]%lookup_delete_Some]. split; [by rewrite lookup_delete_ne|].
  destruct (gen_file _ H g' ltac:(by eexists)) as [q Hq]. exists q. rewrite lookup_delete_ne; [done|]. congruence.
Qed.

Section remove.
Context (s : ShadowStore) (v : spec) (p : string) (d : disk).
Hypothesis R : refines s v.
Hypothesis G : gone s p d.

Lemma without_cont ac gf rf rts q : delete p (cont v) !! q = content (without p d ac gf rf rts s) q.
Proof using R G.
  rewrite (without_content s p) by (done || apply R). destruct (decide (q = p)) as [->|Hne]; [by rewrite lookup_delete_eq|].
  rewrite lookup_delete_ne by done. apply R.
Qed.

Lemma without_keeps g b : pins v !! g = Some (Kept b)
  <-> exists rt, retired s !! g = Some rt /\ sees d (rfd rt) (diskPath rt) b.
Proof using R G.
  rewrite (r_kept _ _ R). split; intros (rt & Hr & Hs); exists rt; (split; [done|]);
    by apply (without_kept s p d g rt b (r_ok _ _ R) G Hr).
Qed.

Lemma without_rets (gf : gmap Z Z) : (forall g, is_Some (gf !! g) -> gf !! g = genFile s !! g) ->
  forall g rt, retired s !! g = Some rt -> gf !! g = None /\ 0 < g <= nextGen s
    /\ (exists q, diskPath rt = retiredName q g) /\ exists b, sees d (rfd rt) (diskPath rt) b /\ rsize rt = zlen b.
Proof using R G.
  pose proof (r_ok _ _ R) as H. intros Hgf g rt Hr. destruct (without_retired s p d g rt H G Hr) as (G1 & G2 & b & _ & G4 & G5).
  split_and!; [| | |done|eauto]; [|apply (gen_old _ H); right; left; by eexists..].
  destruct (gf !! g) as [x|] eqn:E; [|done]. rewrite Hgf in E by (by eexists). congruence.
Qed.

(** The generations that are left are on the other paths. *)
Lemma without_live g : active s !! p = Some g ->
  (forall g' q, g' <> g -> pins v !! g' = Some (Live q) <-> delete p (active s) !! q = Some g')
  /\ forall q, delete p (active s) !! q <> Some g.
Proof using R.
  intros Ha. pose proof (r_ok _ _ R) as H. split.
  - intros g' q Hne. rewrite (r_live _ _ R), lookup_delete_Some. split; [|by intros [_ ?]]. intros Hq. split; [congruence|done].
  - intros q [Hne Hq]%lookup_delete_Some. apply Hne. by eapply gen_inj.
Qed.

Lemma retire_refines g sf b : active s !! p = Some g -> sees d (fd sf) (retiredName p g) b -> size sf = zlen b ->
  refines (without p d (delete p (active s)) (delete g (genFile s)) (refs s)
    (<[g := {| rfd := fd sf; diskPath := retiredName p g; rsize := size sf |}]> (retired s)) s)
    {| cont := delete p (cont v); live := delete p (active s); pins := <[g := Kept b]> (pins v); counts := counts v; gens := gens v |}.
Proof using R G.
  intros Ha Hse Hsz. pose proof (r_ok _ _ R) as H. destruct (without_live g Ha) as [Hlive Hnot].
  split; cbn; try apply R; [|by apply without_cont|done|..].
  - apply without_ok; try done; [intros q g'; by apply without_active|intros g'; by apply without_gens|].
    intros g' rt [[<- <-]|[Hne Hr]]%lookup_insert_Some.
    + rewrite lookup_delete_eq. split_and!; [done|by eapply live_old|by eapply live_old|by eexists|]. by exists b.
    + apply without_rets; [|done]. intros g0 [x [? E]%lookup_delete_Some]. by rewrite lookup_delete_ne.
  - intros g' q. destruct (decide (g' = g)) as [->|Hne]; [|by rewrite lookup_insert_ne; [apply Hlive|]].
    rewrite lookup_insert_eq. split; [done|]. intros Hq. by destruct (Hnot q).
  - intros g' b'. destruct (decide (g' = g)) as [->|Hne].
    + rewrite lookup_insert_eq. setoid_rewrite lookup_insert_eq. split; [intros [= <-]; by eexists|].
      intros (rt & [= <-] & Hs). cbn in Hs. by rewrite (sees_fun _ _ _ _ _ Hs Hse).
    + rewrite lookup_insert_ne by done. setoid_rewrite lookup_insert_ne; [|done]. apply without_keeps.
Qed.

Lemma discard_refines g : active s !! p = Some g -> retired s !! g = None ->
  refines (without p d (delete p (active s)) (delete g (genFile s)) (delete g (refs s)) (retired s) s)
    {| cont := delete p (cont v); live := delete p (active s); pins := delete g (pins v); counts := delete g (counts v); gens := gens v |}.
Proof using R G.
  intros Ha Hrg. pose proof (r_ok _ _ R) as H. destruct (without_live g Ha) as [Hlive Hnot].
  split; cbn; try apply R; [|by apply without_cont|done|..].
  - apply without_ok; try done; [intros q g'; by apply without_active|intros g'; by apply without_gens|..].
    + intros g' [x [_ Hx]%lookup_delete_Some]. by eexists.
    + apply without_rets. intros g0 [x [? E]%lookup_delete_Some]. by rewrite lookup_delete_ne.
  - intros g' q. destruct (decide (g' = g)) as [->|Hne]; [|by rewrite lookup_delete_ne; [apply Hlive|]].
    rewrite lookup_delete_eq. split; [done|]. intros Hq. by destruct (Hnot q).
  - intros g' b'. destruct (decide (g' = g)) as [->|Hne]; [|rewrite lookup_delete_ne by done; apply without_keeps].
    rewrite lookup_delete_eq. split; [done|]. intros (rt & Hr & _). congruence.
  - by rewrite (r_counts _ _ R).
Qed.

Lemma drop_refines : active s !! p = None ->
  refines (without p d (active s) (genFile s) (refs s) (retired s) s) (set_cont (delete p (cont v)) v).
Proof using R G.
  intros Ha. pose proof (r_ok _ _ R) as H. split; cbn; try apply R; [|by apply without_cont|by apply without_keeps].
  apply without_ok; try done.
  - intros q g Hq. split_and!; [congruence|done|done].
  - intros g Hg. split; [done|]. by apply (gen_file _ H).
  - by apply without_rets.
Qed.

End remove.

Lemma remove_refines s v p : refines s v -> refines (Remove hashPath true p s) (specRemove p v).
Proof using hash_inj hash_nodot.
  intros R. pose proof (r_ok _ _ R) as H. pose proof (removed_gone s p H) as G0. unfold Remove, specRemove. rewrite (r_active _ _ R).
  destruct (active s !! p) as [g|] eqn:Ha; [|by apply (drop_refines s v p _ R G0)].
  rewrite (refsOf_count s v g R). destruct (gen_active _ H _ _ Ha) as (ptr & Hp & Hg).
  assert (retired s !! g = None) as Hrg.
  { destruct (retired s !! g) as [rt|] eqn:E; [|done]. destruct (ret_file _ H g rt E) as [? _]. congruence. }
  destruct (0 <? countOf v g); [|by apply (discard_refines s v p _ R G0 g)].
  destruct (retire_gone s p ptr g H Hp Hrg) as (sf & b & d & Hh & Hsz & Hc & -> & G & Hse).
  rewrite Hp. cbn [mbind option_bind]. rewrite Hh, (r_cont _ _ R), Hc. by apply (retire_refines s v p d R G g sf b).
Qed.

(** *** Renaming *)

Definition specRename (a b : string) (v : spec) : spec * bool :=
  match cont v !! a with
  | None => (v, false)
  | Some x =>
      ({| cont := <[b := x]> (delete a (cont v));
          live := match live v !! a with Some g => delete a (<[b := g]> (live v)) | None => live v end;
          pins := match live v !! a with Some g => <[g := Live b]> (pins v) | None => pins v end;
          counts := counts v; gens := gens v |}, true)
  end.

(** Where the generations of the paths are after a rename. *)
Definition movedActive (a b : string) (s : ShadowStore) : gmap string Z :=
  match active s !! a with Some g => delete a (<[b := g]> (active s)) | None => active s end.

Lemma movedActive_lookup a b s q : a <> b -> active s !! b = None ->
  movedActive a b s !! q = if decide (q = a) then None else if decide (q = b) then active s !! a else active s !! q.
Proof.
  intros Hab Hb. unfold movedActive. destruct (active s !! a) as [g|] eqn:Ha.
  - destruct (decide (q = a)) as [->|Ha']; [by rewrite lookup_delete_eq|]. rewrite lookup_delete_ne by done.
    destruct (decide (q = b)) as [->|Hb']; [by rewrite lookup_insert_eq|]. by rewrite lookup_insert_ne.
  - destruct (decide (q = a)) as [->|Ha']; [done|]. by destruct (decide (q = b)) as [->|Hb'].
Qed.

Definition moved (a b : string) (ptr : Z) (d : disk) (s : ShadowStore) : ShadowStore :=
  {| os := d; heap := heap s; nextPtr := nextPtr s; files := <[b := ptr]> (delete a (files s)); nextGen := nextGen s;
     active := movedActive a b s; genFile := genFile s; refs := refs s; retired := retired s |}.

Lemma shadowRename_moved a b ptr d s : files s !! a = Some ptr -> renameName true (shadowPath a) (shadowPath b) (os s) = Some d ->
  Rename hashPath true a b s = (moved a b ptr d s, true).
Proof.
  intros Hp Hr. unfold Rename, moved, movedActive. rewrite Hp. by destruct (active s !! a); cbn; rewrite Hr.
Qed.

Section rename.
Context (s : ShadowStore) (a b : string) (ptr : Z) (d : disk).
Hypothesis H : shadowOk s.
Hypothesis Hab : a <> b.
Hypothesis Hb : active s !! b = None.
Hypothesis Hp : files s !! a = Some ptr.
Hypothesis Hr : renameName true (shadowPath a) (shadowPath b) (os s) = Some d.

Lemma rename_disk : diskOk d
  /\ (forall f x, sees (os s) f (shadowPath a) x -> sees d f (shadowPath b) x)
  /\ (forall f n x, n <> shadowPath a -> n <> shadowPath b -> sees (os s) f n x -> sees d f n x)
  /\ (forall q, q <> a -> q <> b -> names d !! shadowPath q = names (os s) !! shadowPath q)
  /\ names d !! shadowPath a = None.
Proof using H Hab Hp Hr hash_inj.
  assert (shadowPath b <> shadowPath a) as Hne by (intros E%shadowPath_inj; congruence).
  destruct (content_files s a ptr H Hp) as (sf & x & Hh & Ho & _).
  destruct (rename_seen (os s) _ (shadowPath b) _ _ (disk_ok _ H) Ho Hne) as (d' & E & Hd & Hse & Hk & Hn).
  rewrite Hr in E. injection E as <-. split_and!; [done| |auto|..].
  - intros f y Hy. destruct (rename_seen (os s) _ (shadowPath b) _ _ (disk_ok _ H) Hy Hne) as (d' & E & _ & Hse' & _). congruence.
  - intros q Hqa Hqb. rewrite Hn, lookup_insert_ne by (intros E%shadowPath_inj; congruence).
    by rewrite lookup_delete_ne by (intros E%shadowPath_inj; congruence).
  - rewrite Hn, lookup_insert_ne by done. by rewrite lookup_delete_eq.
Qed.

Lemma moved_ret g rt : retired s !! g = Some rt -> exists x, sees (os s) (rfd rt) (diskPath rt) x
  /\ sees d (rfd rt) (diskPath rt) x /\ rsize rt = zlen x.
Proof using All.
  intros Hg. destruct (ret_file _ H g rt Hg) as (_ & (q & Hq) & x & Hx & Hz). exists x. split_and!; [done| |done].
  destruct rename_disk as (_ & _ & Hk & _). apply Hk; [rewrite Hq; apply retired_apart|rewrite Hq; apply retired_apart|done].
Qed.

Lemma moved_ok : shadowOk (moved a b ptr d s).
Proof using All.
  destruct rename_disk as (Hd & Hs & Hk & Hn & Hna).
  pose proof (movedActive_lookup a b s) as Hm. split; cbn; try exact (gen_nonneg _ H); try apply H; try done.
  - intros q x [[<- <-]|[Hqb [Hqa Hx]%lookup_delete_Some]]%lookup_insert_Some.
    + destruct (file_open _ H _ _ Hp) as (sf & y & Hh & Ho & Hz). exists sf, y. auto.
    + destruct (file_open _ H _ _ Hx) as (sf & y & Hh & Ho & Hz). exists sf, y. split_and!; [done| |done].
      apply Hk; [by intros E%shadowPath_inj|by intros E%shadowPath_inj|done].
  - intros q Hq. destruct (decide (q = b)) as [->|Hqb]; [rewrite lookup_insert_eq; by eexists|]. rewrite lookup_insert_ne by done.
    destruct (decide (q = a)) as [->|Hqa]; [rewrite Hna in Hq; by destruct Hq|]. rewrite lookup_delete_ne by done.
    apply (file_loaded _ H). by rewrite <- Hn.
  - intros q g. rewrite Hm by done. destruct (decide (q = a)) as [->|Hqa]; [done|]. destruct (decide (q = b)) as [->|Hqb].
    + intros Ha. destruct (gen_active _ H _ _ Ha) as (x & Hx & Hg). exists ptr. rewrite lookup_insert_eq. split; [done|congruence].
    + intros Hq. destruct (gen_active _ H _ _ Hq) as (x & Hx & Hg). exists x. by rewrite lookup_insert_ne, lookup_delete_ne.
  - intros g Hg. destruct (gen_file _ H g Hg) as [q Hq]. destruct (decide (q = a)) as [->|Hqa].
    + exists b. rewrite Hm by done. by rewrite decide_False, decide_True.
    + exists q. rewrite Hm by done. rewrite !decide_False; [done|congruence|done].
  - assert (forall q g, q <> a -> active s !! q = Some g -> active s !! a = Some g -> False) as Hno.
    { intros q g Hq G1 G2. apply Hq. exact (gen_inj _ H _ _ _ G1 G2). }
    intros q q' g. rewrite !Hm by done. repeat case_decide; intros G1 G2; subst; try done;
      first [exact (gen_inj _ H _ _ _ G1 G2)|destruct (Hno q g); done|destruct (Hno q' g); done].
  - intros g rt Hg. destruct (ret_file _ H g rt Hg) as (G1 & G2 & _). destruct (moved_ret g rt Hg) as (x & _ & G3 & G4). eauto 10.
Qed.

Lemma moved_content q : content (moved a b ptr d s) q
  = if decide (q = b) then content s a else if decide (q = a) then None else content s q.
Proof using All.
  destruct rename_disk as (Hd & Hs & Hk & Hn & Hna). unfold content. cbn. destruct (decide (q = b)) as [->|Hqb].
  - rewrite lookup_insert_eq, Hp. cbn. destruct (file_open _ H _ _ Hp) as (sf & y & -> & Ho & Hz). cbn.
    by rewrite (sees_bytes _ _ _ _ Ho), (sees_bytes _ _ _ _ (Hs _ _ Ho)).
  - rewrite lookup_insert_ne by done. destruct (decide (q = a)) as [->|Hqa]; [by rewrite lookup_delete_eq|].
    rewrite lookup_delete_ne by done. destruct (files s !! q) as [x|] eqn:Hx; [|done]. cbn.
    destruct (file_open _ H _ _ Hx) as (sf & y & -> & Ho & Hz). cbn.
    assert (sees d (fd sf) (shadowPath q) y) as Ho' by (apply Hk; [by intros E%shadowPath_inj|by intros E%shadowPath_inj|done]).
    by rewrite (sees_bytes _ _ _ _ Ho), (sees_bytes _ _ _ _ Ho').
Qed.

End rename.

Lemma rename_refines s v a b : refines s v -> a <> b -> live v !! b = None ->
  refines (fst (Rename hashPath true a b s)) (fst (specRename a b v))
  /\ snd (Rename hashPath true a b s) = snd (specRename a b v).
Proof using hash_inj hash_nodot.
  intros R Hab Hb. pose proof (r_ok _ _ R) as H. rewrite (r_active _ _ R) in Hb. unfold specRename. rewrite (r_cont _ _ R).
  destruct (files s !! a) as [ptr|] eqn:Hp; [|unfold Rename, content; by rewrite Hp].
  destruct (content_files s a ptr H Hp) as (sf & y & Hh & Ho & _ & _ & _ & Hc). rewrite Hc.
  destruct (rename_seen (os s) _ (shadowPath b) _ _ (disk_ok _ H) Ho) as (d & Hr & _); [intros E%shadowPath_inj; congruence|].
  rewrite (shadowRename_moved a b ptr d s Hp Hr). cbn [fst snd]. split; [|done]. rewrite (r_active _ _ R).
  split; cbn; try apply R.
  - by apply moved_ok.
  - intros q. rewrite (moved_content s a b ptr d) by done. destruct (decide (q = b)) as [->|Hqb]; [by rewrite lookup_insert_eq|].
    rewrite lookup_insert_ne by done. destruct (decide (q = a)) as [->|Hqa]; [by rewrite lookup_delete_eq|].
    rewrite lookup_delete_ne by done. apply R.
  - done.
  - intros g q. rewrite movedActive_lookup by done. destruct (active s !! a) as [g0|] eqn:Ha.
    + destruct (decide (g = g0)) as [->|Hne].
      * rewrite lookup_insert_eq. repeat case_decide; subst; split; try done; try congruence.
        intros Hq. by destruct (gen_inj _ H _ _ _ Hq Ha).
      * rewrite lookup_insert_ne, (r_live _ _ R) by done. repeat case_decide; subst; split; try done; try congruence.
    + rewrite (r_live _ _ R). repeat case_decide; subst; split; try done; try congruence.
  - intros g x. assert (forall g0, active s !! a = Some g0 -> pins v !! g0 = Some (Live a)) as Hlv by (intros g0; by apply R).
    transitivity (pins v !! g = Some (Kept x)).
    { destruct (active s !! a) as [g0|] eqn:Ha; [|done]. destruct (decide (g = g0)) as [->|Hne]; [|by rewrite lookup_insert_ne].
      rewrite lookup_insert_eq, (Hlv g0 eq_refl). split; done. }
    rewrite (r_kept _ _ R). split; intros (rt & Hg & Hs); exists rt; (split; [done|]);
      destruct (moved_ret s a b ptr d H Hab Hb Hp Hr g rt Hg) as (z & Z1 & Z2 & _).
    + by rewrite (sees_fun _ _ _ _ _ Hs Z1).
    + by rewrite (sees_fun _ _ _ _ _ Hs Z2).
Qed.

(** *** Programs of calls *)

Inductive op :=
  | OEnsure (p : string) (n rev : Z) | OWrite (p : string) (off : Z) (data : bytes) (rev : Z)
  | OFull (p : string) (data : bytes) (rev : Z) | OTruncate (p : string) (n rev : Z) | OSync (p : string)
  | ORead (p : string) (off n : Z) | OReadAll (p : string) | OSize (p : string) | OBaseRev (p : string) | OHas (p : string)
  | OPin (p : string) | OUnpin (g : Z) | OReadGen (g off n : Z) | OSizeGen (g : Z)
  | ORemove (p : string) | ORename (a b : string).

Inductive answer := AUnit | AErr (e : shadowError) | AInt (n : Z) | ABytes (b : bytes) | ARead (b : bytes) (eof : bool)
  | ABool (b : bool) | AGen (g : option Z).

Definition ofSum {A} (f : A -> answer) (r : ShadowStore * (A + shadowError)) : ShadowStore * answer :=
  (fst r, match snd r with inl x => f x | inr e => AErr e end).

Definition ofRead (r : (bytes * bool) + shadowError) : answer := match r with inl (b, e) => ARead b e | inr e => AErr e end.

Definition call (o : op) (s : ShadowStore) : ShadowStore * answer :=
  match o with
  | OEnsure p n rev => ofSum (fun _ => AUnit) (Ensure hashPath p n rev s)
  | OWrite p off data rev => ofSum AInt (WriteAt hashPath p off data rev s)
  | OFull p data rev => ofSum (fun _ => AUnit) (WriteFull hashPath p data rev s)
  | OTruncate p n rev => ofSum (fun _ => AUnit) (Truncate hashPath p n rev s)
  | OSync p => (Sync hashPath p s, AUnit)
  | ORead p off n => let '(s, r) := ReadAt hashPath p off n s in (s, ofRead r)
  | OReadAll p => (s, match ReadAll hashPath p s with inl b => ABytes b | inr e => AErr e end)
  | OSize p => (s, AInt (Size hashPath p s))
  | OBaseRev p => (s, AInt (BaseRev p s))
  | OHas p => (s, ABool (Has hashPath p s))
  | OPin p => let '(s, g) := PinIfExists hashPath p s in (s, AGen g)
  | OUnpin g => (Unpin g s, AUnit)
  | OReadGen g off n => (s, ofRead (ReadAtGen g off n s))
  | OSizeGen g => (s, AInt (SizeGen g s))
  | ORemove p => (Remove hashPath true p s, AUnit)
  | ORename a b => let '(s, r) := Rename hashPath true a b s in (s, ABool r)
  end.

Definition readBytes (b : bytes) (off n : Z) : answer :=
  if off <? 0 then AErr ErrInvalid else ARead (pread b off n) (zlen (pread b off n) <? n).

Definition pinBytes (v : spec) (g : Z) : option bytes :=
  match pins v !! g with
  | Some (Live p) => fst <$> cont v !! p
  | Some (Kept b) => Some b
  | None => None
  end.

Definition specCall (o : op) (v : spec) : spec * answer :=
  match o with
  | OEnsure p n rev | OTruncate p n rev =>
      if n <? 0 then (put p rev id v, AErr ErrInvalid) else (put p rev (fun b => ftruncate b n) v, AUnit)
  | OWrite p off data rev =>
      if off <? 0 then (put p rev id v, AErr ErrInvalid) else (put p rev (fun b => pwrite b off data) v, AInt (zlen data))
  | OFull p data rev => (set_cont (<[p := (data, rev)]> (cont v)) v, AUnit)
  | OSync p => (put p 0 id v, AUnit)
  | ORead p off n => (v, match cont v !! p with Some (b, _) => readBytes b off n | None => AErr ErrNoFile end)
  | OReadAll p => (v, match cont v !! p with Some (b, _) => ABytes b | None => AErr ErrNoFile end)
  | OSize p => (v, AInt match cont v !! p with Some (b, _) => zlen b | None => -1 end)
  | OBaseRev p => (v, AInt match cont v !! p with Some (_, r) => r | None => 0 end)
  | OHas p => (v, ABool (bool_decide (is_Some (cont v !! p))))
  | OPin p => let '(v, g) := specPin p v in (v, AGen g)
  | OUnpin g => (specUnpin g v, AUnit)
  | OReadGen g off n => (v, match pinBytes v g with Some b => readBytes b off n | None => AErr ErrUnknownGen end)
  | OSizeGen g => (v, AInt match pinBytes v g with Some b => zlen b | None => -1 end)
  | ORemove p => (specRemove p v, AUnit)
  | ORename a b => let '(v, r) := specRename a b v in (v, ABool r)
  end.

(** No path is renamed to itself, or over a file that has a pin, and no write is empty. *)
Definition allowed (o : op) (v : spec) : bool :=
  match o with
  | OWrite _ _ data _ => bool_decide (data <> [])
  | ORename a b => bool_decide (a <> b) && bool_decide (live v !! b = None)
  | _ => true
  end.

Fixpoint calls (os : list op) (s : ShadowStore) : list answer :=
  match os with [] => [] | o :: os => let '(s, r) := call o s in r :: calls os s end.
Fixpoint specCalls (os : list op) (v : spec) : list answer :=
  match os with [] => [] | o :: os => let '(v, r) := specCall o v in r :: specCalls os v end.
Fixpoint allAllowed (os : list op) (v : spec) : bool :=
  match os with [] => true | o :: os => allowed o v && allAllowed os (fst (specCall o v)) end.

Lemma touched p rev v : exists b r, cont (touch p rev v) !! p = Some (b, r) /\ (rev <> 0 -> r = rev)
  /\ forall g, set_cont (<[p := (g b, r)]> (cont (touch p rev v))) (touch p rev v) = put p rev g v.
Proof.
  unfold touch, put. destruct (default ([], 0) (cont v !! p)) as [b r0]. cbn. exists b, (if rev =? 0 then r0 else rev).
  rewrite lookup_insert_eq. split_and!; [done|by intros ->%Z.eqb_neq|]. intros g. by rewrite insert_insert_eq.
Qed.

Lemma writeFd_twice {A} ptr g1 g2 s (k : ShadowStore -> ShadowStore * (A + shadowError)) x :
  fds (os s) !! ptrFd s ptr = Some (x, true) ->
  writeFd ptr g1 s (fun s => writeFd ptr g2 s k) = writeFd ptr (fun b => g2 (g1 b)) s k.
Proof.
  intros E. unfold writeFd, fdModify. rewrite E. change (ptrFd (set_os _ s) ptr) with (ptrFd s ptr). cbn [os set_os fds].
  rewrite E. cbn [names blobs nextBlob nextFd]. unfold set_os. cbn. do 3 f_equal. apply map_eq. intros i. rewrite !lookup_alter. repeat case_decide; try done; by match goal with |- _ <$> (_ <$> ?x) = _ => destruct x end.
Qed.

Lemma full_bytes b data : ftruncate (pwrite (ftruncate b 0) 0 data) (zlen data) = data.
Proof.
  assert (ftruncate b 0 = []) as -> by done. unfold pwrite. case_bool_decide as E; [by subst|].
  replace (0 + zlen data - zlen []) with (zlen data) by (change (zlen []) with 0; lia). change ([] ++ gmake (zlen data)) with (gmake (zlen data)). assert (gcopy (gmake (zlen data)) 0 data = data) as ->.
  { unfold gcopy, gmake, zlen. rewrite Nat2Z.id, length_replicate. cbn [Z.to_nat Nat.add take app].
    by rewrite Nat.sub_0_r, firstn_all, drop_ge, app_nil_r by (rewrite length_replicate; lia). }
  unfold ftruncate, gmake. rewrite Z.sub_diag. cbn. rewrite app_nil_r. apply take_ge. unfold zlen. lia.
Qed.

(** A write at a path: the file is there, one change of its bytes is made, and the record
    follows. *)
Lemma put_refines {A} s v p rev g h (r : A) s' ptr : refines s v -> ensureShadowFile hashPath p rev s = (s', ptr) ->
  (forall sf b, size sf = zlen b -> fd (h sf) = fd sf /\ size (h sf) = zlen (g b)
     /\ baseRev (h sf) = if rev =? 0 then baseRev sf else rev) ->
  exists s'', writeFd ptr g s' (fun s => (setMeta ptr h s, inl r)) = (s'', inl r : A + shadowError) /\ refines s'' (put p rev g v).
Proof using hash_inj hash_nodot.
  intros R E Hh. destruct (ensure_refines s v p rev s' ptr R E) as [R' Hp].
  destruct (touched p rev v) as (b & rv & Hv & Hrev & <-).
  apply (writeFd_refines s' (touch p rev v) p ptr b rv g h rv r R' Hp Hv).
  intros sf Hs Hb. destruct (Hh sf b Hs) as (H1 & H2 & H3). split_and!; [done|done|]. rewrite H3.
  destruct (Z.eqb_spec rev 0); [done|]. symmetry. auto.
Qed.

Lemma shadowTruncate_refines s v p n rev : refines s v ->
  exists s' r, Truncate hashPath p n rev s = (s', r) /\ refines s' (fst (specCall (OTruncate p n rev) v))
    /\ match r with inl _ => AUnit | inr e => AErr e end = snd (specCall (OTruncate p n rev) v).
Proof using hash_inj hash_nodot.
  intros R. unfold Truncate. destruct (ensureShadowFile hashPath p rev s) as [s' ptr] eqn:E. cbn.
  destruct (Z.ltb_spec n 0); [destruct (ensure_refines s v p rev s' ptr R E); by eexists _, _|].
  destruct (put_refines s v p rev (fun b => ftruncate b n) (fun sf => withRev rev (withSize n sf)) tt s' ptr R E)
    as (s'' & E' & R'); [|by exists s'', (inl tt)].
  intros sf b _. unfold withRev, withSize. rewrite zlen_ftruncate by done. by destruct (rev =? 0).
Qed.

Lemma writeAt_refines s v p off data rev : refines s v -> data <> [] ->
  exists s' r, WriteAt hashPath p off data rev s = (s', r) /\ refines s' (fst (specCall (OWrite p off data rev) v))
    /\ match r with inl n => AInt n | inr e => AErr e end = snd (specCall (OWrite p off data rev) v).
Proof using hash_inj hash_nodot.
  intros R Hdata. unfold WriteAt. destruct (ensureShadowFile hashPath p rev s) as [s' ptr] eqn:E. cbn.
  destruct (Z.ltb_spec off 0); [destruct (ensure_refines s v p rev s' ptr R E); by eexists _, _|].
  rewrite bool_decide_false by done.
  destruct (put_refines s v p rev (fun b => pwrite b off data)
    (fun sf => withRev rev (withSize (Z.max (size sf) (off + zlen data)) sf)) (zlen data) s' ptr R E)
    as (s'' & E' & R'); [|by exists s'', (inl (zlen data))].
  intros sf b Hs. unfold withRev, withSize. rewrite zlen_pwrite, bool_decide_false, <- Hs by done. by destruct (rev =? 0).
Qed.

Lemma writeFull_refines s v p data rev : refines s v ->
  exists s', WriteFull hashPath p data rev s = (s', inl tt) /\ refines s' (set_cont (<[p := (data, rev)]> (cont v)) v).
Proof using hash_inj hash_nodot.
  intros R. unfold WriteFull. destruct (ensureShadowFile hashPath p rev s) as [s' ptr] eqn:E.
  destruct (ensure_refines s v p rev s' ptr R E) as [R' Hp].
  destruct (content_files s' p ptr (r_ok _ _ R') Hp) as (sf & b0 & _ & (x & Hx & _) & _ & _ & Hfd & _). rewrite <- Hfd in Hx.
  rewrite (writeFd_twice _ _ _ _ _ x Hx), (writeFd_twice _ _ _ _ _ x Hx).
  destruct (touched p rev v) as (b & rv & Hv & _ & Hput).
  destruct (writeFd_refines s' (touch p rev v) p ptr b rv (fun b => ftruncate (pwrite (ftruncate b 0) 0 data) (zlen data))
    (fun sf => {| fd := fd sf; size := zlen data; baseRev := rev; extents := extents sf |}) rev tt R' Hp Hv) as (s'' & E' & R'').
  - intros sf' _ _. by rewrite full_bytes.
  - exists s''. split; [done|]. rewrite full_bytes in R''. unfold touch, put in R''.
    destruct (default ([], 0) (cont v !! p)) as [b1 r1]. cbn in R''. by rewrite insert_insert_eq in R''.
Qed.

(** *** Reads *)

Lemma fdRead_bytes d f b off n : fdBytes d f = Some b -> ofRead (fdReadAt d f off n) = readBytes b off n.
Proof. intros E. unfold fdReadAt, readBytes. rewrite E. by destruct (off <? 0). Qed.

(** A pin reads the bytes it stands for. *)
Lemma gen_bytes s v g : refines s v ->
  match pinBytes v g with
  | Some b => (forall off n, ofRead (ReadAtGen g off n s) = readBytes b off n) /\ SizeGen g s = zlen b
  | None => (forall off n, ReadAtGen g off n s = inr ErrUnknownGen) /\ SizeGen g s = -1
  end.
Proof.
  intros R. pose proof (r_ok _ _ R) as H. unfold pinBytes, ReadAtGen, SizeGen. destruct (genFile s !! g) as [ptr|] eqn:Hg.
  - destruct (gen_file _ H g ltac:(by eexists)) as [p Hp]. rewrite (proj2 (r_live _ _ R g p) Hp).
    destruct (gen_active _ H _ _ Hp) as (x & Hx & Hgx). simplify_eq.
    destruct (content_files s p ptr H Hx) as (sf & b & Hh & Ho & Hz & Hb & Hfd & Hc). rewrite (r_cont _ _ R), Hc. cbn [fmap option_fmap option_map fst].
    rewrite Hfd, Hh. split; [|done]. intros off n. by apply fdRead_bytes.
  - assert (forall p, pins v !! g <> Some (Live p)) as Hno.
    { intros p Hp. apply (r_live _ _ R) in Hp. destruct (gen_active _ H _ _ Hp) as (x & _ & E). congruence. }
    destruct (retired s !! g) as [rt|] eqn:Hr.
    + destruct (ret_file _ H g rt Hr) as (_ & _ & b & Hse & Hz). assert (pins v !! g = Some (Kept b)) as -> by (apply R; eauto).
      split; [|done]. intros off n. apply fdRead_bytes. by eapply sees_bytes.
    + destruct (pins v !! g) as [[p|b]|] eqn:Hp; [by destruct (Hno p)| |done].
      apply (r_kept _ _ R) in Hp as (rt & E & _). congruence.
Qed.

Lemma read_refines s v p off n : refines s v ->
  exists r, ReadAt hashPath p off n s = (s, r) /\ ofRead r = snd (specCall (ORead p off n) v).
Proof.
  intros R. pose proof (r_ok _ _ R) as H. unfold ReadAt. cbn. rewrite (r_cont _ _ R). destruct (files s !! p) as [ptr|] eqn:Hp.
  - destruct (content_files s p ptr H Hp) as (sf & b & Hh & Ho & Hz & Hb & Hfd & ->). eexists. split; [done|].
    rewrite Hfd. by apply fdRead_bytes.
  - unfold openFile. rewrite (loaded_openFile s p H Hp). unfold content. rewrite Hp. by eexists.
Qed.

(** The queries that open nothing. *)
Lemma query_refines s v p : refines s v ->
  match cont v !! p with
  | Some (b, r) => ReadAll hashPath p s = inl b /\ Size hashPath p s = zlen b /\ BaseRev p s = r /\ Has hashPath p s = true
  | None => ReadAll hashPath p s = inr ErrNoFile /\ Size hashPath p s = -1 /\ BaseRev p s = 0 /\ Has hashPath p s = false
  end.
Proof.
  intros R. pose proof (r_ok _ _ R) as H. rewrite (r_cont _ _ R). unfold ReadAll, Size, BaseRev, Has.
  destruct (files s !! p) as [ptr|] eqn:Hp.
  - destruct (content_files s p ptr H Hp) as (sf & b & Hh & Ho & Hz & Hb & Hfd & ->). cbn [mbind option_bind]. rewrite Hh.
    split_and!; [|done|done|by rewrite bool_decide_true by (by eexists)].
    unfold fdReadAt. rewrite Hb, Hz. cbn -[zlen pread]. by rewrite pread_all, Z.ltb_irrefl.
  - rewrite (loaded_openFile s p H Hp). unfold content. rewrite Hp. done.
Qed.

Lemma call_refines s v o : refines s v -> allowed o v = true ->
  refines (fst (call o s)) (fst (specCall o v)) /\ snd (call o s) = snd (specCall o v).
Proof using hash_inj hash_nodot.
  intros R Hal. destruct o; cbn [call allowed] in *.
  - destruct (shadowTruncate_refines s v p n rev R) as (s' & r & E & R' & A). unfold ofSum.
    change (Ensure hashPath p n rev s) with (Truncate hashPath p n rev s). rewrite E. by destruct r.
  - apply bool_decide_eq_true in Hal. destruct (writeAt_refines s v p off data rev R Hal) as (s' & r & E & R' & A).
    unfold ofSum. rewrite E. by destruct r.
  - destruct (writeFull_refines s v p data rev R) as (s' & E & R'). unfold ofSum. by rewrite E.
  - destruct (shadowTruncate_refines s v p n rev R) as (s' & r & E & R' & A). unfold ofSum. rewrite E. by destruct r.
  - unfold Sync. destruct (ensureShadowFile hashPath p 0 s) as [s' ptr] eqn:E. by destruct (ensure_refines s v p 0 s' ptr R E).
  - destruct (read_refines s v p off n R) as (r & -> & A). done.
  - pose proof (query_refines s v p R) as Q. cbn. by destruct (cont v !! p) as [[b r]|]; destruct Q as (-> & _).
  - pose proof (query_refines s v p R) as Q. cbn. by destruct (cont v !! p) as [[b r]|]; destruct Q as (_ & -> & _).
  - pose proof (query_refines s v p R) as Q. cbn. by destruct (cont v !! p) as [[b r]|]; destruct Q as (_ & _ & -> & _).
  - pose proof (query_refines s v p R) as Q. cbn. by destruct (cont v !! p) as [[b r]|]; destruct Q as (_ & _ & _ & ->).
  - pose proof (pin_refines s v p R) as Q. cbn. destruct (PinIfExists hashPath p s), (specPin p v). cbn in *. destruct Q. by subst.
  - split; [by apply unpin_refines|done].
  - pose proof (gen_bytes s v g R) as Q. cbn. destruct (pinBytes v g); destruct Q as [Q _]; by rewrite Q.
  - pose proof (gen_bytes s v g R) as Q. cbn. destruct (pinBytes v g); destruct Q as [_ Q]; by rewrite Q.
  - split; [by apply remove_refines|done].
  - apply andb_prop in Hal as [H1 H2]. apply bool_decide_eq_true in H1, H2.
    pose proof (rename_refines s v a b R H1 H2) as Q. cbn. destruct (Rename hashPath true a b s), (specRename a b v). cbn in *. destruct Q. by subst.
Qed.

Lemma calls_refine os s v : refines s v -> allAllowed os v = true -> calls os s = specCalls os v.
Proof using hash_inj hash_nodot.
  revert s v. induction os as [|o os IH]; intros s v R Hal; [done|]. cbn in *. apply andb_prop in Hal as [H1 H2].
  destruct (call_refines s v o R H1) as [R' A]. destruct (call o s) as [s' r], (specCall o v) as [v' r']. cbn in *. subst r'.
  f_equal. by apply IH.
Qed.

(** *** Pinned readers *)

Fixpoint after (os : list op) (s : ShadowStore) : ShadowStore :=
  match os with [] => s | o :: os => after os (fst (call o s)) end.
Fixpoint specAfter (os : list op) (v : spec) : spec :=
  match os with [] => v | o :: os => specAfter os (fst (specCall o v)) end.

Lemma after_refines os s v : refines s v -> allAllowed os v = true -> refines (after os s) (specAfter os v).
Proof using hash_inj hash_nodot.
  revert s v. induction os as [|o os IH]; intros s v R Hal; [done|]. cbn in *. apply andb_prop in Hal as [H1 H2].
  apply IH; [|done]. by apply call_refines.
Qed.

Lemma allAllowed_app os os' v : allAllowed (os ++ os') v = allAllowed os v && allAllowed os' (specAfter os v).
Proof. revert v. induction os as [|o os IH]; intros v; [done|]. cbn. by rewrite IH, andb_assoc. Qed.

(** Every count is of at least one pin. *)
Definition counted (v : spec) : Prop := forall g c, counts v !! g = Some c -> 0 < c.

Lemma counted_countOf v g : counted v -> 0 <= countOf v g.
Proof. intros Hc. unfold countOf. destruct (counts v !! g) as [c|] eqn:E; [apply Hc in E; cbn; lia|done]. Qed.

Lemma call_counted o v : counted v -> counted (fst (specCall o v)).
Proof.
  intros Hc. assert (forall p rev g, counted (put p rev g v)) as Hput by (intros p rev g; unfold put; by destruct (default _ _)).
  assert (forall v g, counted v -> counted (set_counts (<[g := countOf v g + 1]> (counts v)) v)) as Hadd.
  { intros w g Hw g' c. cbn. intros [[<- <-]|[_ E]]%lookup_insert_Some; [|by eapply Hw]. pose proof (counted_countOf w g Hw). lia. }
  destruct o; cbn; repeat case_match; try done; try apply Hput.
  - unfold specPin in *. repeat case_match; simplify_eq; try done; [by apply Hadd|]. unfold newPin in *. simplify_eq. by apply Hadd.
  - unfold specUnpin. destruct (g =? 0); [done|].
    assert (counted (set_counts (if countOf v g - 1 <=? 0 then delete g (counts v) else <[g := countOf v g - 1]> (counts v)) v)) as Hu.
    { intros g' c. cbn. destruct (Z.leb_spec (countOf v g - 1) 0); [by intros [_ E]%lookup_delete_Some; eapply Hc|].
      intros [[<- <-]|[_ E]]%lookup_insert_Some; [lia|by eapply Hc]. }
    cbn. repeat case_match; exact Hu.
  - unfold specRemove. repeat case_match; try done. intros g' c. cbn. intros [_ E]%lookup_delete_Some. by eapply Hc.
  - unfold specRename in *. repeat case_match; simplify_eq; done.
Qed.

Lemma specAfter_counted os v : counted v -> counted (specAfter os v).
Proof. revert v. induction os as [|o os IH]; intros v Hc; [done|]. cbn. apply IH. by apply call_counted. Qed.

Lemma specPin_pins p v : pins (fst (specPin p v)) = pins v \/ pins (fst (specPin p v)) = <[gens v + 1 := Live p]> (pins v).
Proof. unfold specPin. destruct (cont v !! p); [|auto]. destruct (live v !! p); auto. Qed.

(** Bytes that are kept for a pin stay until it is released. *)
Lemma kept_stays s v o g b : refines s v -> o <> OUnpin g -> pins v !! g = Some (Kept b) ->
  pins (fst (specCall o v)) !! g = Some (Kept b).
Proof.
  intros R Ho Hg. pose proof (r_ok _ _ R) as H. assert (g <= nextGen s) as Hold.
  { apply (r_kept _ _ R) in Hg as (rt & Hr & _). apply (gen_old _ H). right. left. by eexists. }
  assert (forall p g', live v !! p = Some g' -> g' <> g) as Hlive.
  { intros p g' Hp ->. rewrite (r_active _ _ R) in Hp. apply (r_live _ _ R) in Hp. congruence. }
  assert (forall p rev f, pins (put p rev f v) = pins v) as Hput by (intros p rev f; unfold put; by destruct (default _ _)).
  destruct o; cbn [specCall]; repeat case_match; cbn [fst]; rewrite ?Hput; try done.
  - match goal with E : specPin p v = _ |- _ => pose proof (specPin_pins p v) as Q; rewrite E in Q end.
    destruct Q as [Q|Q]; cbn in *; rewrite Q; [done|]. rewrite lookup_insert_ne; [done|]. rewrite (r_gens _ _ R). lia.
  - unfold specUnpin. destruct (g0 =? 0); [done|]. assert (g0 <> g) by congruence.
    cbn. repeat case_match; cbn; rewrite ?lookup_delete_ne by done; done.
  - unfold specRemove. repeat case_match; cbn; rewrite ?lookup_insert_ne, ?lookup_delete_ne by (by eapply Hlive); done.
  - unfold specRename in *. repeat case_match; simplify_eq; cbn; rewrite ?lookup_insert_ne by (by eapply Hlive); done.
Qed.

Lemma kept_after os s v g b : refines s v -> allAllowed os v = true -> OUnpin g ∉ os -> pins v !! g = Some (Kept b) ->
  pins (specAfter os v) !! g = Some (Kept b).
Proof using hash_inj hash_nodot.
  revert s v. induction os as [|o os IH]; intros s v R Hal Hnin Hg; [done|]. cbn in *. apply andb_prop in Hal as [H1 H2].
  apply not_elem_of_cons in Hnin as [Hne Hnin]. eapply IH; [by apply (call_refines s v o)|done|done|].
  apply (kept_stays s); [done|congruence|done].
Qed.

Lemma pinned_keeps pre p post b g s1 : allAllowed (pre ++ [OPin p; ORemove p] ++ post) emptySpec = true -> OUnpin g ∉ post ->
  ReadAll hashPath p (after pre (NewShadowStore emptyDisk)) = inl b ->
  PinIfExists hashPath p (after pre (NewShadowStore emptyDisk)) = (s1, Some g) ->
  forall off n, ofRead (ReadAtGen g off n (after post (Remove hashPath true p s1))) = readBytes b off n.
Proof using hash_inj hash_nodot.
  rewrite !allAllowed_app. intros Hal Hnin Hall Hpin. apply andb_prop in Hal as [H1 H2].
  pose proof (after_refines pre _ _ refines_empty H1) as R. pose proof (specAfter_counted pre emptySpec ltac:(done)) as Hc.
  set (s := after pre _) in *. set (v := specAfter pre emptySpec) in *. clearbody s v. clear H1.
  pose proof (query_refines s v p R) as Q. destruct (cont v !! p) as [[b' rv]|] eqn:Hv; destruct Q as (Q & _); [|congruence].
  assert (b' = b) as -> by congruence. clear Q. cbn [allAllowed specAfter] in H2. apply andb_prop in H2 as [_ H2].
  destruct (pin_refines s v p R) as [R1 E1]. rewrite Hpin in R1, E1. cbn [fst snd] in R1, E1.
  cbn [specCall] in H2. destruct (specPin p v) as [v1 og] eqn:Hsp. cbn [fst snd] in *. subst og.
  assert (live v1 !! p = Some g /\ cont v1 = cont v /\ 0 < countOf v1 g) as (L1 & L2 & L3).
  { unfold specPin in Hsp. rewrite Hv in Hsp. destruct (live v !! p) as [g0|] eqn:Hl.
    - injection Hsp as <- ->. cbn. unfold countOf at 1. cbn. rewrite lookup_insert_eq. cbn. pose proof (counted_countOf v g Hc). split_and!; [done|done|lia].
    - unfold newPin in Hsp. cbn in Hsp. injection Hsp as <- <-. cbn. unfold countOf at 1. cbn. rewrite !lookup_insert_eq. cbn.
      split_and!; [done|done|]. pose proof (counted_countOf v (gens v + 1) Hc). unfold countOf in *. cbn. lia. }
  pose proof (remove_refines s1 v1 p R1) as R2.
  assert (pins (specRemove p v1) !! g = Some (Kept b)) as Hk.
  { unfold specRemove. rewrite L1, L2, Hv. destruct (Z.ltb_spec 0 (countOf v1 g)); [|lia]. cbn. by rewrite lookup_insert_eq. }
  cbn [specCall fst] in H2. pose proof (kept_after post _ _ g b R2 H2 Hnin Hk) as Hk'.
  pose proof (gen_bytes _ _ g (after_refines post _ _ R2 H2)) as G. unfold pinBytes in G. rewrite Hk' in G. apply G.
Qed.

End store.

(** ** The hash of the paths that are used *)

(** The paths of a call. *)
Definition opPaths (o : op) : list string :=
  match o with
  | OEnsure p _ _ | OWrite p _ _ _ | OFull p _ _ | OTruncate p _ _ | OSync p | ORead p _ _ | OReadAll p | OSize p | OBaseRev p
  | OHas p | OPin p | ORemove p => [p]
  | ORename a b => [a; b]
  | OUnpin _ | OReadGen _ _ _ | OSizeGen _ => []
  end.
Definition pathsOf (os : list op) : list string := os ≫= opPaths.

Lemma pathsOf_app a b : pathsOf (a ++ b) = pathsOf a ++ pathsOf b.
Proof. apply bind_app. Qed.

Lemma call_agree h h' o s : (forall p, p ∈ opPaths o -> h p = h' p) -> call h o s = call h' o s.
Proof.
  intros E. assert (forall p, p ∈ opPaths o -> shadowPath h p = shadowPath h' p) as S by (intros p Hp; unfold shadowPath; by rewrite E).
  assert (forall p rev s, p ∈ opPaths o -> ensureShadowFile h p rev s = ensureShadowFile h' p rev s) as En.
  { intros p rev s' Hp. unfold ensureShadowFile. by rewrite S. }
  destruct o; cbn in *; unfold Ensure, WriteAt, WriteFull, Truncate, Sync, ReadAt, ReadAll, Size, Has, PinIfExists, Remove, Rename,
    retiredName; rewrite ?En, ?S by set_solver; done.
Qed.

Lemma calls_agree h h' os s : (forall p, p ∈ pathsOf os -> h p = h' p) -> calls h os s = calls h' os s.
Proof.
  revert s. induction os as [|o os IH]; intros s E; [done|]. cbn. rewrite (call_agree h h' o) by set_solver.
  destruct (call h' o s). f_equal. apply IH. set_solver.
Qed.

Lemma after_agree h h' os s : (forall p, p ∈ pathsOf os -> h p = h' p) -> after h os s = after h' os s.
Proof.
  revert s. induction os as [|o os IH]; intros s E; [done|]. cbn. rewrite (call_agree h h' o) by set_solver. apply IH. set_solver.
Qed.

(** A hash of some paths, continued to all paths without a collision. *)
Fixpoint xs (n : nat) : string := match n with O => EmptyString | S n => String "x" (xs n) end.
Definition spread (ps : list string) (h : string -> string) (p : string) : string :=
  if decide (p ∈ ps) then h p else xs (S (max_list (String.length ∘ h <$> ps))) +:+ Sha256.hexEncode p.

Lemma nodot_app a b : nodot (a +:+ b) = nodot a && nodot b.
Proof. induction a as [|c a IH]; [done|]. cbn [String.append nodot]. by rewrite IH, andb_assoc. Qed.

Lemma xs_nodot n : nodot (xs n) = true.
Proof. by induction n. Qed.

Lemma xs_length n : String.length (xs n) = n.
Proof. induction n as [|n IH]; [done|]. cbn. by rewrite IH. Qed.

Lemma hexEncode_nodot s : nodot (Sha256.hexEncode s) = true.
Proof.
  assert (forall n, 0 <= n < 16 -> negb (Ascii.eqb (Sha256.hexDigit n) ".") = true) as Hd.
  { intros n Hn. assert (Forall (fun n => negb (Ascii.eqb (Sha256.hexDigit n) ".") = true) (Z.of_nat <$> seq 0 16)) as F
      by (repeat constructor). rewrite Forall_forall in F. apply F, list_elem_of_fmap. exists (Z.to_nat n).
    split; [lia|apply elem_of_seq; lia]. }
  induction s as [|c s IH]; [done|]. cbn [Sha256.hexEncode nodot].
  assert (0 <= code c < 256) by (unfold code; pose proof (N_ascii_bounded c); lia).
  rewrite !Hd, IH; [done|apply Z.mod_pos_bound; lia|split; [apply Z.div_pos; lia|apply Z.div_lt_upper_bound; lia]].
Qed.

Section spread.
Context (ps : list string) (h : string -> string).
Hypothesis inj_ps : forall p q, p ∈ ps -> q ∈ ps -> h p = h q -> p = q.
Hypothesis nodot_ps : forall p, nodot (h p) = true.

Lemma spread_length p : p ∈ ps -> (String.length (h p) < S (max_list (String.length ∘ h <$> ps)))%nat.
Proof.
  intros Hp. apply Nat.lt_succ_r, max_list_elem_of_le, list_elem_of_fmap. by exists p.
Qed.

Lemma spread_inj p q : spread ps h p = spread ps h q -> p = q.
Proof using inj_ps.
  unfold spread. intros E. destruct (decide (p ∈ ps)) as [Hp|Hp], (decide (q ∈ ps)) as [Hq|Hq].
  - by apply inj_ps.
  - pose proof (spread_length p Hp) as L. rewrite E, string_app_length, xs_length in L. lia.
  - pose proof (spread_length q Hq) as L. rewrite <- E, string_app_length, xs_length in L. lia.
  - apply string_app_inj in E. by apply Sha256.hexEncode_inj.
Qed.

Lemma spread_nodot p : nodot (spread ps h p) = true.
Proof using nodot_ps.
  unfold spread. destruct (decide (p ∈ ps)); [apply nodot_ps|]. by rewrite nodot_app, xs_nodot, hexEncode_nodot.
Qed.

Lemma spread_same p : p ∈ ps -> h p = spread ps h p.
Proof. intros Hp. unfold spread. by rewrite decide_True. Qed.

End spread.

(** Two of the paths collide, or none do. *)
Lemma collides_or_not (ps : list string) : (exists p q, p ∈ ps /\ q ∈ ps /\ Sha256.collision p q)
  \/ forall p q, p ∈ ps -> q ∈ ps -> hashPath p = hashPath q -> p = q.
Proof.
  destruct (decide (Exists (fun p => Exists (fun q => p <> q /\ hashPath p = hashPath q) ps) ps)) as [H|H].
  - left. apply Exists_exists in H as (p & Hp & H). apply Exists_exists in H as (q & Hq & Hne & E). exists p, q.
    split_and!; [done|done|]. split; [done|]. by apply Sha256.hexEncode_inj.
  - right. intros p q Hp Hq E. destruct (decide (p = q)) as [|Hne]; [done|]. destruct H.
    apply Exists_exists. exists p. split; [done|]. apply Exists_exists. by exists q.
Qed.

(** C14: the shadow store answers every program of its calls - ensure, write, overwrite,
    truncate, sync, the reads and queries, pins and reads through pins, removal, rename -
    as a map from paths to files does in which a pin keeps the bytes of the file it was
    taken on after the path is removed, unless two of the paths have the same SHA-256
    hash; provided that no write is empty, that no path is renamed to itself or over a
    file that has a pin, and that the local disk does not fail. *)
Theorem shadow_refines os : allAllowed os emptySpec = true ->
  (exists p q, p ∈ pathsOf os /\ q ∈ pathsOf os /\ Sha256.collision p q)
  \/ calls hashPath os (NewShadowStore emptyDisk) = specCalls os emptySpec.
Proof.
  intros Hal. destruct (collides_or_not (pathsOf os)) as [|Hi]; [by left|right].
  rewrite (calls_agree hashPath (spread (pathsOf os) hashPath)) by (intros p; apply spread_same).
  apply calls_refine; [by apply spread_inj|by apply spread_nodot; intros ?; apply hexEncode_nodot|apply refines_empty|done].
Qed.

(** A reader that pins the shadow of a path keeps reading the bytes it had when the
    path is removed, whatever is written, renamed, removed or pinned after that, until
    the reader's pin is released. *)
Theorem pinned_reader pre p post b g s1 :
  allAllowed (pre ++ [OPin p; ORemove p] ++ post) emptySpec = true -> OUnpin g ∉ post ->
  ReadAll hashPath p (after hashPath pre (NewShadowStore emptyDisk)) = inl b ->
  PinIfExists hashPath p (after hashPath pre (NewShadowStore emptyDisk)) = (s1, Some g) ->
  (exists x y, x ∈ pathsOf (pre ++ [OPin p] ++ post) /\ y ∈ pathsOf (pre ++ [OPin p] ++ post) /\ Sha256.collision x y)
  \/ forall off n, ofRead (ReadAtGen g off n (after hashPath post (Remove hashPath true p s1))) = readBytes b off n.
Proof.
  intros Hal Hu Hr Hp. destruct (collides_or_not (pathsOf (pre ++ [OPin p] ++ post))) as [|Hi]; [by left|right].
  set (ps := pathsOf (pre ++ [OPin p] ++ post)) in *.
  assert (forall x, x ∈ pathsOf pre \/ x = p \/ x ∈ pathsOf post -> hashPath x = spread ps hashPath x) as Hs.
  { intros x Hx. apply spread_same. unfold ps. rewrite !pathsOf_app, !elem_of_app. cbn. rewrite list_elem_of_singleton. tauto. }
  assert (forall s, ReadAll hashPath p s = ReadAll (spread ps hashPath) p s) as Hra by
    (intros s; unfold ReadAll, shadowPath; by rewrite Hs by auto).
  assert (forall s, PinIfExists hashPath p s = PinIfExists (spread ps hashPath) p s) as Hpi by
    (intros s; unfold PinIfExists, shadowPath; by rewrite Hs by auto).
  assert (forall s, Remove hashPath true p s = Remove (spread ps hashPath) true p s) as Hrm by
    (intros s; unfold Remove, retiredName, shadowPath; by rewrite Hs by auto).
  rewrite Hra, (after_agree hashPath (spread ps hashPath)) in Hr by auto.
  rewrite Hpi, (after_agree hashPath (spread ps hashPath)) in Hp by auto.
  rewrite Hrm, (after_agree hashPath (spread ps hashPath)) by auto.
  apply (pinned_keeps (spread ps hashPath)) with (pre := pre); [by apply spread_inj|by apply spread_nodot; intros ?; apply hexEncode_nodot|done..].
Qed.


(** ** Concrete runs *)

(** A path is written, pinned, removed and written again; the pin is released; another
    path is moved. *)
Definition demo : list op :=
  [OWrite "/a" 2 [x07; x08] 5; OReadAll "/a"; OPin "/a"; ORemove "/a"; OHas "/a"; OFull "/a" [x01] 0; OReadGen 1 0 9; OUnpin 1;
   OReadGen 1 0 9; OTruncate "/a" 3 0; ORename "/a" "/b"; OReadAll "/b"; OBaseRev "/b"; OReadAll "/a"].

Lemma shadow_refines_witness :
  (exists p q, p ∈ pathsOf demo /\ q ∈ pathsOf demo /\ Sha256.collision p q)
  \/ calls hashPath demo (NewShadowStore emptyDisk)
     = [AInt 2; ABytes [x00; x00; x07; x08]; AGen (Some 1); AUnit; ABool false; AUnit; ARead [x00; x00; x07; x08] true; AUnit;
        AErr ErrUnknownGen; AUnit; ABool true; ABytes [x01; x00; x00]; AInt 0; AErr ErrNoFile].
Proof.
  destruct (shadow_refines demo) as [H|H]; [by vm_compute|by left|right]. rewrite H. by vm_compute.
Defined.

Lemma pinned_reader_witness :
  (exists x y, x ∈ pathsOf ([OFull "/a" [x04; x05] 0] ++ [OPin "/a"] ++ [OFull "/a" [x06] 0; ORemove "/a"])
     /\ y ∈ pathsOf ([OFull "/a" [x04; x05] 0] ++ [OPin "/a"] ++ [OFull "/a" [x06] 0; ORemove "/a"]) /\ Sha256.collision x y)
  \/ let s1 := fst (PinIfExists hashPath "/a" (after hashPath [OFull "/a" [x04; x05] 0] (NewShadowStore emptyDisk))) in
     ofRead (ReadAtGen 1 1 1 (after hashPath [OFull "/a" [x06] 0; ORemove "/a"] (Remove hashPath true "/a" s1))) = ARead [x05] false.
Proof.
  pose proof (pinned_reader [OFull "/a" [x04; x05] 0] "/a" [OFull "/a" [x06] 0; ORemove "/a"] [x04; x05] 1
    (fst (PinIfExists hashPath "/a" (after hashPath [OFull "/a" [x04; x05] 0] (NewShadowStore emptyDisk))))) as H.
  destruct H as [H|H]; [by vm_compute|set_solver|by vm_compute|by vm_compute|by left|right]. exact (H 1 1).
Defined.

(** *** What the store does outside the hypotheses *)

Definition start : ShadowStore := NewShadowStore emptyDisk.

(** A rename over a path with a reader: the reader's pin stays on the path's name, and
    when the path is removed it is given the bytes of the file that replaced its own. *)
Lemma rename_over_pin :
  let '(s, g) := PinIfExists hashPath "/b" (after hashPath [OFull "/a" [x01] 0; OFull "/b" [x02] 0] start) in
  match g with
  | Some g => ofRead (ReadAtGen g 0 1 s) = ARead [x02] false
      /\ ofRead (ReadAtGen g 0 1 (after hashPath [ORename "/a" "/b"; ORemove "/b"] s)) = ARead [x01] false
  | None => False
  end.
Proof. vm_compute. done. Qed.

(** After a restart a read opens a shadow for reading only, and the next write fails. *)
Lemma read_then_write_fails :
  let s := NewShadowStore (os (Close (after hashPath [OFull "/a" [x01] 0] start))) in
  snd (call hashPath (OWrite "/a" 0 [x09] 0) s) = AInt 1
  /\ snd (call hashPath (OWrite "/a" 0 [x09] 0) (after hashPath [ORead "/a" 0 1] s)) = AErr ErrBadFd.
Proof. vm_compute. done. Qed.

(** An empty write past the end moves the recorded size and not the file's: the whole
    file cannot be read any more. *)
Lemma empty_write_breaks_size :
  let s := after hashPath [OFull "/a" [x01] 0; OWrite "/a" 5 [] 0] start in
  Size hashPath "/a" s = 5 /\ ReadAll hashPath "/a" s = inr ErrEOF.
Proof. vm_compute. done. Qed.

(** When the rename of a pinned file fails, its name stays recorded for the pin: releasing
    the pin removes the file that was written at the path in the meantime. *)
Lemma failed_retire_unlinks_successor :
  let '(s, g) := PinIfExists hashPath "/a" (after hashPath [OFull "/a" [x01] 0] start) in
  match g with
  | Some g => let s := Unpin g (after hashPath [OFull "/a" [x02] 0] (Remove hashPath false "/a" s)) in
      is_Some (names (os s) !! shadowPath hashPath "/a") -> False
  | None => False
  end.
Proof. vm_compute. by intros [? ?]. Qed.

(** A pin taken by [Pin] on a path that has no shadow yet is not on the file that is
    written later. *)
Lemma pin_before_write :
  let '(s, g) := Pin "/a" start in
  ReadAtGen g 0 1 (after hashPath [OFull "/a" [x01] 0] s) = inr ErrUnknownGen.
Proof. vm_compute. done. Qed.

(** A file written before a restart is found by its path afterwards, and also under the
    name of its hash once the directory is scanned. *)
Lemma restart_keeps :
  let s := RecoverFromDisk (NewShadowStore (os (Close (after hashPath [OFull "/a" [x01; x02] 7] start)))) in
  ReadAll hashPath "/a" s = inl [x01; x02] /\ BaseRev "/a" s = 0 /\ ReadAll hashPath ("__hash:" +:+ hashPath "/a") s = inl [x01; x02].
Proof. vm_compute. done. Qed.
End ShadowProps.
