(* ===== verification/CommitQueue.v ===== *)
(** * The commit queue

    Model of [src/pkg/fuse/commit_queue.go] with [src/pkg/fuse/remote_upload.go]: the
    queue through which a mount uploads in the background what it has staged locally.
    The state is the queue's fields, with entries behind pointers; the mutex makes each
    of its critical sections one step, and a worker is at one of the points between two
    sections or calls ([point]), so that the calls of the file system, cancellations and
    the other workers run in between.  The shadow store and the pending index are used
    through the classes [ShadowOps] and [IndexOps].  The client and the server are the
    answers of a step ([answers]); what the server has stored is the log [accepted], keyed
    by remote path.  An upload that streams from the shadow reads it at one moment.  The
    context that a cancellation ends makes an upload or a sleep fail, which the answers
    allow; timeouts, the counters and the two callbacks, which change nothing of the
    queue, are not modelled. *)

From S2P Require Import Prelude GoStrings PathUtil PendingIndex.

Import GoStr.

Module CommitQueue.

(** ** What the queue uses of the local stores *)

Class ShadowOps (S : Type) := {
  shReadAll : string -> S -> option bytes;
  shHas : string -> S -> bool;
  shSync : string -> S -> S;
  shRemove : string -> S -> S
}.

Class IndexOps (I : Type) := {
  ixPaths : I -> gset string;
  ixMeta : string -> I -> option Pending.WriteBackMeta;
  ixRemove : string -> I -> I;
  ixMarkConflict : bool -> string -> I -> I * bool    (** the first argument: the write succeeds *)
}.

(** ** Data *)

Record CommitEntry := {
  Path : string;
  Inode : Z;
  BaseRev : Z;
  Size : Z;
  Kind : Pending.PendingKind;
  ShadowSpill : bool;
  canceled : bool
}.

Record CommitQueue := {
  entries : gmap Z CommitEntry;              (** what the pointers point to *)
  nextEntry : Z;
  queue : list Z;
  queuedByPath : gmap string (gset Z);
  inFlight : gmap string Z;
  maxPending : Z;
  remoteRoot : string;
  stopped : bool;
  workCh : list Z;
  bufSize : Z;
  sending : option Z                         (** an [Enqueue] that waits for room, holding the mutex *)
}.

Definition maxCommitQueuePending : Z := 100.

Definition NewCommitQueue (maxPending : Z) (root : string) : CommitQueue :=
  let maxPending := if maxPending <=? 0 then maxCommitQueuePending else maxPending in
  {| entries := ∅; nextEntry := 1; queue := []; queuedByPath := ∅; inFlight := ∅; maxPending := maxPending;
     remoteRoot := if bool_decide (root = EmptyString) then "/" else root; stopped := false; workCh := [];
     bufSize := Z.max (maxPending * 2) 256; sending := None |}.

Definition set_entries (v : gmap Z CommitEntry) (q : CommitQueue) : CommitQueue :=
  {| entries := v; nextEntry := nextEntry q; queue := queue q; queuedByPath := queuedByPath q; inFlight := inFlight q;
     maxPending := maxPending q; remoteRoot := remoteRoot q; stopped := stopped q; workCh := workCh q; bufSize := bufSize q;
     sending := sending q |}.
Definition set_queue (v : list Z) (ix : gmap string (gset Z)) (q : CommitQueue) : CommitQueue :=
  {| entries := entries q; nextEntry := nextEntry q; queue := v; queuedByPath := ix; inFlight := inFlight q;
     maxPending := maxPending q; remoteRoot := remoteRoot q; stopped := stopped q; workCh := workCh q; bufSize := bufSize q;
     sending := sending q |}.
Definition set_inFlight (v : gmap string Z) (q : CommitQueue) : CommitQueue :=
  {| entries := entries q; nextEntry := nextEntry q; queue := queue q; queuedByPath := queuedByPath q; inFlight := v;
     maxPending := maxPending q; remoteRoot := remoteRoot q; stopped := stopped q; workCh := workCh q; bufSize := bufSize q;
     sending := sending q |}.
Definition set_workCh (v : list Z) (w : option Z) (q : CommitQueue) : CommitQueue :=
  {| entries := entries q; nextEntry := nextEntry q; queue := queue q; queuedByPath := queuedByPath q; inFlight := inFlight q;
     maxPending := maxPending q; remoteRoot := remoteRoot q; stopped := stopped q; workCh := v; bufSize := bufSize q;
     sending := w |}.
Definition set_stopped (q : CommitQueue) : CommitQueue :=
  {| entries := entries q; nextEntry := nextEntry q; queue := queue q; queuedByPath := queuedByPath q; inFlight := inFlight q;
     maxPending := maxPending q; remoteRoot := remoteRoot q; stopped := true; workCh := workCh q; bufSize := bufSize q;
     sending := sending q |}.

Definition pathOf (q : CommitQueue) (e : Z) : string := match entries q !! e with Some x => Path x | None => EmptyString end.

Definition remotePath (q : CommitQueue) (localPath : string) : string := Paths.ToRemote (remoteRoot q) localPath.

(** ** The index of the queue *)

Definition addQueued (p : string) (e : Z) (ix : gmap string (gset Z)) : gmap string (gset Z) :=
  <[p := {[e]} ∪ default ∅ (ix !! p)]> ix.

Definition removeQueued (p : string) (e : Z) (ix : gmap string (gset Z)) : gmap string (gset Z) :=
  match ix !! p with
  | None => ix
  | Some es => if bool_decide (es ∖ {[e]} = ∅) then delete p ix else <[p := es ∖ {[e]}]> ix
  end.

Definition hasQueuedPath (q : CommitQueue) (p : string) : bool :=
  bool_decide (default ∅ (queuedByPath q !! p) <> ∅).

Definition rebuildQueuedIndex (q : CommitQueue) : gmap string (gset Z) :=
  foldl (fun ix e => addQueued (pathOf q e) e ix) ∅ (queue q).

Fixpoint removeFirst (e : Z) (l : list Z) : list Z :=
  match l with [] => [] | x :: l => if x =? e then l else x :: removeFirst e l end.

Definition removeFromQueue (e : Z) (q : CommitQueue) : CommitQueue :=
  if bool_decide (e ∈ queue q)
  then set_queue (removeFirst e (queue q)) (removeQueued (pathOf q e) e (queuedByPath q)) q
  else q.

(** ** The calls of the file system *)

Inductive enqueueError := ErrStopped | ErrFull.

(** [Enqueue] up to the send; the send waits when the channel is full. *)
Definition Enqueue (x : CommitEntry) (q : CommitQueue) : CommitQueue * (Z + enqueueError) :=
  if stopped q then (q, inr ErrStopped)
  else if maxPending q <=? zlen (queue q) then (q, inr ErrFull)
  else
    let e := nextEntry q in
    let full := bufSize q <=? zlen (workCh q) in
    ({| entries := <[e := x]> (entries q); nextEntry := e + 1; queue := queue q ++ [e];
        queuedByPath := addQueued (Path x) e (queuedByPath q); inFlight := inFlight q; maxPending := maxPending q;
        remoteRoot := remoteRoot q; stopped := stopped q; workCh := if full then workCh q else workCh q ++ [e];
        bufSize := bufSize q; sending := if full then Some e else None |}, inl e).

(** The send that waited goes through. *)
Definition finishSend (q : CommitQueue) : option CommitQueue :=
  match sending q with
  | Some e => if zlen (workCh q) <? bufSize q then Some (set_workCh (workCh q ++ [e]) None q) else None
  | None => None
  end.

Definition HasPath (p : string) (q : CommitQueue) : bool :=
  bool_decide (is_Some (inFlight q !! p)) || hasQueuedPath q p.

(** What [WaitPath] and [WaitPrefix] wait for. *)
Definition WaitPathDone (p : string) (q : CommitQueue) : bool := negb (HasPath p q).
Definition WaitPrefixDone (prefix : string) (q : CommitQueue) : bool :=
  negb (existsb (fun p => HasPrefix p prefix) (fst <$> map_to_list (inFlight q)))
  && negb (existsb (fun e => HasPrefix (pathOf q e) prefix) (queue q)).

Definition Pending (q : CommitQueue) : Z := zlen (queue q).
Definition IsFull (q : CommitQueue) : bool := maxPending q <=? zlen (queue q).

(** Queued entries and those in flight, each counted once. *)
Definition PendingStats (q : CommitQueue) : Z * Z :=
  let seen := remove_dups (queue q ++ (snd <$> map_to_list (inFlight q))) in
  (zlen seen, foldr Z.add 0 ((fun e => match entries q !! e with Some x => Size x | None => 0 end) <$> seen)).

Definition markCanceled (x : CommitEntry) : CommitEntry :=
  {| Path := Path x; Inode := Inode x; BaseRev := BaseRev x; Size := Size x; Kind := Kind x; ShadowSpill := ShadowSpill x;
     canceled := true |}.
Definition markAll (es : list Z) (m : gmap Z CommitEntry) : gmap Z CommitEntry := foldr (alter markCanceled) m es.

(** The critical section of [cancelPath]. *)
Definition cancelPath (p : string) (q : CommitQueue) : CommitQueue :=
  let es := option_list (inFlight q !! p) ++ elements (default ∅ (queuedByPath q !! p)) in
  let q' := set_entries (markAll es (entries q)) q in
  if bool_decide (default ∅ (queuedByPath q !! p) = ∅) then q'
  else set_queue (filter (fun e => pathOf q e <> p) (queue q)) (delete p (queuedByPath q)) q'.

(** The critical section of [CancelPrefix], with the paths whose local state goes. *)
Definition CancelPrefix (prefix : string) (q : CommitQueue) : CommitQueue * list string :=
  let fl := filter (fun pe => HasPrefix (fst pe) prefix = true) (map_to_list (inFlight q)) in
  let qs := filter (fun e => HasPrefix (pathOf q e) prefix = true) (queue q) in
  let q1 := set_entries (markAll ((snd <$> fl) ++ qs) (entries q)) q in
  let q2 := set_queue (filter (fun e => HasPrefix (pathOf q e) prefix <> true) (queue q)) ∅ q1 in
  (set_queue (queue q2) (rebuildQueuedIndex q2) q2, (fst <$> fl) ++ (pathOf q <$> qs)).

Definition DrainAll (q : CommitQueue) : CommitQueue := set_stopped q.

Definition isEntryCanceled (q : CommitQueue) (e : Z) : bool :=
  match entries q !! e with Some x => canceled x | None => false end.

(** What [RecoverPending] enqueues for a path, or that it prunes the entry. *)
Inductive recovery := RPrune | RSkip | REnqueue (x : CommitEntry).

Definition RecoverPath {S I} `{!ShadowOps S} `{!IndexOps I} (sh : S) (ix : I) (p : string) : recovery :=
  match ixMeta p ix with
  | None => RSkip
  | Some m =>
      if negb (shHas p sh) then RPrune
      else if bool_decide (Pending.Kind m = Pending.PendingConflict) then RSkip
      else if bool_decide (Pending.Kind m = Pending.PendingOverwrite) && (Pending.BaseRev m <=? 0) then RSkip
      else REnqueue {| Path := p; Inode := 0; BaseRev := Pending.BaseRev m; Size := Pending.Size m; Kind := Pending.Kind m;
                       ShadowSpill := Pending.ShadowSpill m; canceled := false |}
  end.

(** [RecoverPending] over the paths of the index in some order. *)
Definition recoverOne {S I} `{!ShadowOps S} `{!IndexOps I} (sh : S) (st : CommitQueue * I) (p : string) : CommitQueue * I :=
  match RecoverPath sh (snd st) p with
  | RPrune => (fst st, ixRemove p (snd st))
  | RSkip => st
  | REnqueue x => (fst (Enqueue x (fst st)), snd st)
  end.
Definition RecoverPending {S I} `{!ShadowOps S} `{!IndexOps I} (order : gset string -> list string) (sh : S) (ix : I)
    (q : CommitQueue) : CommitQueue * I :=
  foldl (recoverOne sh) (q, ix) (order (ixPaths ix)).

(** ** Workers *)

(** Where an upload goes. *)
Inductive route := Stream | DirectPut | Multipart.

Definition uploadRoute (threshold : Z) (x : CommitEntry) : route :=
  if ShadowSpill x then Stream
  else if (Size x =? 0) || ((0 <? threshold) && (Size x <? threshold)) then DirectPut else Multipart.

(** The points at which a worker can be, with the entry it holds.  [tries] counts the
    uploads that failed; the thread of [CommitNow] has none. *)
Inductive point :=
  | WIdle | WExit
  | WTaken (e : Z)                                        (** received from the channel *)
  | WSkip (e : Z)                                         (** canceled: to be dropped *)
  | WMark (e : Z)                                         (** to be marked as in flight *)
  | WStart (e : Z)                                        (** [commitOne] *)
  | WTry (e : Z) (tries : nat)
  | WSleep (e : Z) (tries : nat)
  | WReady (e : Z) (tries : nat)
  | WUpload (e : Z) (tries : option nat)                  (** [uploadEntry] *)
  | WSend (e : Z) (tries : option nat) (data : option bytes)
  | WSent (e : Z)                                         (** the upload succeeded *)
  | WFailed (e : Z) (tries : nat) (conflict : bool)
  | WCommitted (e : Z)                                    (** [onCommitSuccess] *)
  | WRmShadow (e : Z)
  | WRmIndex (e : Z)
  | WResolve (e : Z)                                      (** [tryAutoResolveConflict] *)
  | WLocal (e : Z)
  | WNoLocal (e : Z)
  | WStat (e : Z) (localData : bytes)
  | WFetch (e : Z) (localData : bytes) (serverRev : Z)
  | WDiffer (e : Z) (localData : bytes) (serverRev : Z)
  | WResend (e : Z) (localData : bytes) (serverRev : Z)
  | WTerminal (e : Z)                                     (** [onCommitTerminalFailure] *)
  | WDequeue (e : Z)                                      (** [removeFromQueue] *)
  | WClear (e : Z).                                       (** out of [inFlight] *)

(** The answer to an upload; after an error the server may have stored the bytes. *)
Inductive upResult := UpOk | UpConflict | UpErr (stored : bool).

Record answers := {
  aSlept : bool;              (** the back-off was not interrupted *)
  aUpload : upResult;
  aStat : option Z;           (** the server's revision *)
  aServer : option bytes;     (** the server's content *)
  aJournal : bool;            (** the commit record is durable *)
  aMark : bool;               (** the conflict marker is durable *)
  aThreshold : Z
}.

Definition maxRetries : nat := 5.

(** The local and remote state a worker sees. *)
Record world (S I : Type) := {
  shadows : S;
  index : I;
  journal : list string;                      (** paths with a commit record *)
  accepted : list (string * bytes)            (** what the server has stored, the latest first *)
}.
Arguments shadows {S I}.
Arguments index {S I}.
Arguments journal {S I}.
Arguments accepted {S I}.

Section worker.
Context {S I : Type} `{!ShadowOps S} `{!IndexOps I}.

Abbreviation world := (world S I).

Definition set_shadows (v : S) (w : world) : world :=
  {| shadows := v; index := index w; journal := journal w; accepted := accepted w |}.
Definition set_index (v : I) (w : world) : world :=
  {| shadows := shadows w; index := v; journal := journal w; accepted := accepted w |}.
Definition addJournal (p : string) (w : world) : world :=
  {| shadows := shadows w; index := index w; journal := p :: journal w; accepted := accepted w |}.
Definition accept (p : string) (b : bytes) (w : world) : world :=
  {| shadows := shadows w; index := index w; journal := journal w; accepted := (p, b) :: accepted w |}.

(** An upload of [b] to the remote path [rp]. *)
Definition doUpload (r : upResult) (rp : string) (b : bytes) (w : world) : world :=
  match r with UpOk | UpErr true => accept rp b w | _ => w end.

(** Where a worker continues after an upload. *)
Definition afterUpload (r : upResult) (e : Z) (tries : option nat) : point :=
  match r, tries with
  | UpOk, Some _ => WSent e
  | UpOk, None => WCommitted e
  | _, None => WIdle
  | UpConflict, Some n => WFailed e n true
  | UpErr _, Some n => WFailed e n false
  end.

(** [uploadFromShadowRemote]: the sync makes a missing shadow, which is then empty. *)
Definition streamed (p : string) (w : world) : world * option bytes :=
  let sh := shSync p (shadows w) in (set_shadows sh w, shReadAll p sh).

(** The steps of [commitOne]. *)
Definition commitOne (a : answers) (pt : point) (q : CommitQueue) (w : world) : CommitQueue * world * point :=
  match pt with
  | WStart e => (q, w, if isEntryCanceled q e then WDequeue e else WTry e 0)
  | WTry e n => (q, w, if isEntryCanceled q e then WDequeue e else match n with O => WReady e n | _ => WSleep e n end)
  | WSleep e n => (q, w, if aSlept a then WReady e n else WDequeue e)
  | WReady e n => (q, w, if isEntryCanceled q e then WDequeue e else WUpload e (Some n))
  | WSent e => (q, w, WCommitted e)
  | WFailed e n conflict =>
      (q, w, if isEntryCanceled q e then WDequeue e
             else if conflict then WResolve e
             else if Nat.ltb (Datatypes.S n) maxRetries then WTry e (Datatypes.S n) else WTerminal e)
  | _ => (q, w, pt)
  end.

(** The steps of [uploadEntry]: the shadow is read, then it is sent. *)
Definition uploadEntry (a : answers) (pt : point) (q : CommitQueue) (w : world) : CommitQueue * world * point :=
  match pt with
  | WUpload e tries =>
      match entries q !! e with
      | None => (q, w, WIdle)
      | Some x =>
          if bool_decide (Kind x = Pending.PendingOverwrite) && (BaseRev x <=? 0)
          then (q, w, afterUpload (UpErr false) e tries)
          else match uploadRoute (aThreshold a) x with
               | Stream => (q, w, WSend e tries None)
               | _ => match shReadAll (Path x) (shadows w) with
                      | Some b => (q, w, WSend e tries (Some b))
                      | None => (q, w, afterUpload (UpErr false) e tries)
                      end
               end
      end
  | WSend e tries data =>
      let '(w, b) := match data with Some b => (w, Some b) | None => streamed (pathOf q e) w end in
      match b with
      | Some b => (q, doUpload (aUpload a) (remotePath q (pathOf q e)) b w, afterUpload (aUpload a) e tries)
      | None => (q, w, afterUpload (UpErr false) e tries)
      end
  | _ => (q, w, pt)
  end.

(** The steps of [onCommitSuccess]. *)
Definition onCommitSuccess (a : answers) (pt : point) (q : CommitQueue) (w : world) : CommitQueue * world * point :=
  match pt with
  | WCommitted e =>
      if aJournal a then (q, addJournal (pathOf q e) w, WRmShadow e) else (q, w, WDequeue e)
  | WRmShadow e => (q, set_shadows (shRemove (pathOf q e) (shadows w)) w, WRmIndex e)
  | WRmIndex e => (q, set_index (ixRemove (pathOf q e) (index w)) w, WDequeue e)
  | _ => (q, w, pt)
  end.

(** The steps of [tryAutoResolveConflict]. *)
Definition tryAutoResolveConflict (a : answers) (pt : point) (q : CommitQueue) (w : world) : CommitQueue * world * point :=
  match pt with
  | WResolve e =>
      (q, w, if isEntryCanceled q e then WDequeue e
             else match entries q !! e with
                  | Some x => if ShadowSpill x then WTerminal e else WLocal e
                  | None => WTerminal e
                  end)
  | WLocal e => (q, w, match shReadAll (pathOf q e) (shadows w) with Some b => WStat e b | None => WNoLocal e end)
  | WNoLocal e => (q, w, if isEntryCanceled q e then WDequeue e else WTerminal e)
  | WStat e b => (q, w, match aStat a with Some r => WFetch e b r | None => WTerminal e end)
  | WFetch e b r =>
      (q, w, match aServer a with
             | None => WTerminal e
             | Some c => if bool_decide (b = c) then WCommitted e else WDiffer e b r
             end)
  | WDiffer e b r => (q, w, if isEntryCanceled q e then WDequeue e else WResend e b r)
  | WResend e b r =>
      (q, doUpload (aUpload a) (remotePath q (pathOf q e)) b w,
       match aUpload a with UpOk => WCommitted e | _ => WTerminal e end)
  | _ => (q, w, pt)
  end.

(** [onCommitTerminalFailure] up to its [removeFromQueue]. *)
Definition onCommitTerminalFailure (a : answers) (e : Z) (q : CommitQueue) (w : world) : CommitQueue * world * point :=
  let '(ix, ok) := ixMarkConflict (aMark a) (pathOf q e) (index w) in
  let w := set_index ix w in
  (q, if ok && aJournal a then addJournal (pathOf q e) w else w, WDequeue e).

(** One step of a thread at a point; [now] is the thread of [CommitNow], which leaves the
    queue alone when it is done. *)
Definition advance (a : answers) (now : bool) (pt : point) (q : CommitQueue) (w : world) : CommitQueue * world * point :=
  match pt with
  | WIdle => match workCh q with
             | e :: ch => (set_workCh ch (sending q) q, w, WTaken e)
             | [] => (q, w, if stopped q then WExit else WIdle)
             end
  | WExit => (q, w, WExit)
  | WTaken e => (q, w, if isEntryCanceled q e then WSkip e else WMark e)
  | WSkip e => (removeFromQueue e q, w, WIdle)
  | WMark e => (set_inFlight (<[pathOf q e := e]> (inFlight q)) q, w, WStart e)
  | WStart _ | WTry _ _ | WSleep _ _ | WReady _ _ | WSent _ | WFailed _ _ _ => commitOne a pt q w
  | WUpload _ _ | WSend _ _ _ => uploadEntry a pt q w
  | WCommitted _ | WRmShadow _ | WRmIndex _ => onCommitSuccess a pt q w
  | WResolve _ | WLocal _ | WNoLocal _ | WStat _ _ | WFetch _ _ _ | WDiffer _ _ _ | WResend _ _ _ => tryAutoResolveConflict a pt q w
  | WTerminal e => onCommitTerminalFailure a e q w
  | WDequeue e => (removeFromQueue e q, w, if now then WIdle else WClear e)
  | WClear e =>
      (if bool_decide (inFlight q !! pathOf q e = Some e) then set_inFlight (delete (pathOf q e) (inFlight q)) q else q, w, WIdle)
  end.

(** The points at which the next step takes the mutex. *)
Definition locks (pt : point) : bool :=
  match pt with
  | WIdle | WExit | WSleep _ _ | WUpload _ _ | WSend _ _ _ | WCommitted _ | WRmShadow _ | WRmIndex _ | WLocal _ | WStat _ _
  | WFetch _ _ _ | WResend _ _ _ | WTerminal _ => false
  | _ => true
  end.

(** ** The system *)

(** Threads by number, the workers and those of [CommitNow]; cancellations that still
    have to remove the local state of a path. *)
Record sys := {
  cq : CommitQueue;
  wd : world;
  threads : gmap Z (bool * point);
  cancels : list string
}.

Definition set_cq (q : CommitQueue) (s : sys) : sys := {| cq := q; wd := wd s; threads := threads s; cancels := cancels s |}.
Definition set_wd (w : world) (s : sys) : sys := {| cq := cq s; wd := w; threads := threads s; cancels := cancels s |}.
Definition set_cancels (l : list string) (s : sys) : sys := {| cq := cq s; wd := wd s; threads := threads s; cancels := l |}.

(** A thread can take a step: it is not waiting for work or for the mutex. *)
Definition enabled (q : CommitQueue) (now : bool) (pt : point) : bool :=
  match pt with
  | WExit => false
  | WIdle => negb now && (negb (bool_decide (workCh q = [])) || stopped q)
  | _ => negb (locks pt) || bool_decide (sending q = None)
  end.

(** One step of the thread [t]. *)
Definition runThread (a : answers) (t : Z) (s : sys) : sys :=
  match threads s !! t with
  | None => s
  | Some (now, pt) =>
      let '(q, w, pt') := advance a now pt (cq s) (wd s) in
      {| cq := q; wd := w; threads := <[t := (now, pt')]> (threads s); cancels := cancels s |}
  end.

(** The server's content is what someone has stored at the path. *)
Definition honest (a : answers) (s : sys) (pt : point) : Prop :=
  match pt with
  | WFetch e _ _ => match aServer a with
                    | Some c => (remotePath (cq s) (pathOf (cq s) e), c) ∈ accepted (wd s)
                    | None => True
                    end
  | _ => True
  end.

(** [CommitNow] adds a thread that starts with the upload. *)
Definition startCommitNow (x : CommitEntry) (t : Z) (s : sys) : sys :=
  let q := cq s in
  {| cq := {| entries := <[nextEntry q := x]> (entries q); nextEntry := nextEntry q + 1; queue := queue q;
              queuedByPath := queuedByPath q; inFlight := inFlight q; maxPending := maxPending q; remoteRoot := remoteRoot q;
              stopped := stopped q; workCh := workCh q; bufSize := bufSize q; sending := sending q |};
     wd := wd s; threads := <[t := (true, WUpload (nextEntry q) None)]> (threads s); cancels := cancels s |}.

(** The local state of a canceled path goes. *)
Definition removeLocal (p : string) (s : sys) : sys :=
  set_wd (set_index (ixRemove p (index (wd s))) (set_shadows (shRemove p (shadows (wd s))) (wd s))) s.

(** The steps of the threads, and of a send that waits. *)
Inductive workStep (s : sys) : sys -> Prop :=
  | ws_thread a t now pt : threads s !! t = Some (now, pt) -> enabled (cq s) now pt = true -> honest a s pt ->
      workStep s (runThread a t s)
  | ws_send q : finishSend (cq s) = Some q -> workStep s (set_cq q s).

(** The steps of everyone else: the calls of the file system, which take the mutex, the
    rest of a cancellation, the file system's own writes to the shadow of a path and to
    the index, and other clients of the server. *)
Inductive callStep (write : string -> bytes -> S -> S) (s : sys) : sys -> Prop :=
  | cs_enqueue x : sending (cq s) = None -> canceled x = false -> callStep write s (set_cq (fst (Enqueue x (cq s))) s)
  | cs_now x t : threads s !! t = None -> canceled x = false -> callStep write s (startCommitNow x t s)
  | cs_cancel p : sending (cq s) = None -> callStep write s (set_cancels (p :: cancels s) (set_cq (cancelPath p (cq s)) s))
  | cs_cancelPreserve p : sending (cq s) = None -> callStep write s (set_cq (cancelPath p (cq s)) s)
  | cs_cancelPrefix p : sending (cq s) = None ->
      callStep write s (set_cancels (snd (CancelPrefix p (cq s)) ++ cancels s) (set_cq (fst (CancelPrefix p (cq s))) s))
  | cs_removeLocal p l : cancels s ≡ₚ p :: l -> callStep write s (set_cancels l (removeLocal p s))
  | cs_drain : sending (cq s) = None -> callStep write s (set_cq (DrainAll (cq s)) s)
  | cs_write p b : callStep write s (set_wd (set_shadows (write p b (shadows (wd s))) (wd s)) s)
  | cs_index ix : callStep write s (set_wd (set_index ix (wd s)) s)
  | cs_server rp b : callStep write s (set_wd (accept rp b (wd s)) s).

(** The mount starts the queue with its workers. *)
Definition workersOf (numWorkers : nat) : gmap Z (bool * point) :=
  list_to_map ((fun t => (Z.of_nat t, (false, WIdle))) <$> seq 0 numWorkers).
Definition initial (max : Z) (root : string) (numWorkers : nat) (sh : S) (ix : I) (stored : list (string * bytes)) : sys :=
  {| cq := NewCommitQueue max root; wd := {| shadows := sh; index := ix; journal := []; accepted := stored |};
     threads := workersOf (if Nat.eqb numWorkers 0 then 4 else numWorkers); cancels := [] |}.

End worker.

Arguments sys : clear implicits.

End CommitQueue.
