(* ===== verification/CommitProps.v ===== *)
(** * The commit queue loses nothing and drains

    Theorems on the steps of [CommitQueue]: the index of the queue is exact and an entry
    is never lost between the channel, the workers and the queue; local bytes are dropped
    only when the server has stored them; the workers come to an end with an empty queue.
    At the end, what happens outside the hypotheses, on concrete runs. *)

From S2P Require Import Prelude GoStrings PathUtil PendingIndex CommitQueue.

Import GoStr CommitQueue.

Module CommitProps.

(** The step of a thread at a known point. *)
Ltac expand E := cbn [advance commitOne uploadEntry onCommitSuccess tryAutoResolveConflict onCommitTerminalFailure] in E;
  try unfold onCommitTerminalFailure in E.

(** ** Lists and entries *)

Lemma queueRemove_elem e x l : NoDup l -> x ∈ removeFirst e l <-> x ∈ l /\ x <> e.
Proof.
  induction l as [|y l IH]; intros Hnd; cbn; [set_solver|]. apply NoDup_cons in Hnd as [Hy Hnd].
  destruct (Z.eqb_spec y e) as [->|Hne]; [set_solver|]. set_solver.
Qed.

Lemma removeFirst_sublist e l : removeFirst e l `sublist_of` l.
Proof. induction l as [|y l IH]; cbn; [done|]. destruct (y =? e); [by apply sublist_cons|by apply sublist_skip]. Qed.

Lemma zlen_sublist {A} (l l' : list A) : l `sublist_of` l' -> zlen l <= zlen l'.
Proof. intros H%sublist_length. unfold zlen. lia. Qed.

(** The entry a worker holds. *)
Definition held (pt : point) : option Z :=
  match pt with
  | WIdle | WExit => None
  | WTaken e | WSkip e | WMark e | WStart e | WTry e _ | WSleep e _ | WReady e _ | WUpload e _ | WSend e _ _ | WSent e
  | WFailed e _ _ | WCommitted e | WRmShadow e | WRmIndex e | WResolve e | WLocal e | WNoLocal e | WStat e _ | WFetch e _ _
  | WDiffer e _ _ | WResend e _ _ | WTerminal e | WDequeue e | WClear e => Some e
  end.

(** The entry a worker has yet to take off the queue. *)
Definition owed (pt : point) : option Z := match pt with WClear _ => None | _ => held pt end.

Lemma markAll_lookup es m e : markAll es m !! e = (if decide (e ∈ es) then markCanceled else id) <$> m !! e.
Proof.
  induction es as [|x es IH].
  - rewrite decide_False by set_solver. by rewrite option_fmap_id.
  - change (markAll (x :: es) m) with (alter markCanceled x (markAll es m)). rewrite lookup_alter. destruct (decide (x = e)) as [->|Hne].
    + rewrite IH. destruct (m !! e); cbn; repeat case_decide; done || set_solver.
    + rewrite IH. destruct (decide (e ∈ es)); destruct (decide (e ∈ x :: es)); done || set_solver.
Qed.

(** Cancellations change no path. *)
Lemma markAll_path es q e : pathOf (set_entries (markAll es (entries q)) q) e = pathOf q e.
Proof. unfold pathOf. cbn. rewrite markAll_lookup. destruct (entries q !! e); [|done]. cbn. by case_decide. Qed.

Lemma markAll_canceled es q e : isEntryCanceled (set_entries (markAll es (entries q)) q) e = false ->
  isEntryCanceled q e = false /\ (is_Some (entries q !! e) -> e ∉ es).
Proof.
  unfold isEntryCanceled. cbn. rewrite markAll_lookup. destruct (entries q !! e) as [x|] eqn:E; cbn.
  - case_decide; cbn; [done|]. auto.
  - intros _. split; [done|]. by intros [? ?].
Qed.

(** ** The queue and its index *)

Record queueOk (q : CommitQueue) : Prop := {
  q_nodup : NoDup (queue q);
  q_index : forall p e, e ∈ default ∅ (queuedByPath q !! p) <-> e ∈ queue q /\ pathOf q e = p;
  q_nonempty : forall p, queuedByPath q !! p <> Some ∅;
  q_bound : zlen (queue q) <= maxPending q;
  q_heap : forall e, is_Some (entries q !! e) <-> 0 < e < nextEntry q;
  q_old : forall e, e ∈ queue q -> 0 < e < nextEntry q;
  q_start : 0 < nextEntry q
}.

Lemma queueOk_new max root : queueOk (NewCommitQueue max root).
Proof.
  unfold NewCommitQueue. split; cbn; try done.
  - constructor.
  - intros p e. rewrite lookup_empty. cbn. set_solver.
  - destruct (Z.leb_spec max 0); unfold zlen, maxCommitQueuePending; cbn; lia.
  - intros e. rewrite lookup_empty. split; [by intros [? ?]|lia].
  - set_solver.
Qed.

Lemma hasQueued_exact q p : queueOk q -> hasQueuedPath q p = true <-> exists e, e ∈ queue q /\ pathOf q e = p.
Proof.
  intros H. unfold hasQueuedPath. rewrite bool_decide_eq_true. split.
  - intros Hne. apply set_choose_L in Hne as [e He]. exists e. by apply (q_index _ H).
  - intros (e & He). apply (q_index _ H) in He. set_solver.
Qed.

Lemma removeQueued_lookup p e ix p' : default ∅ (removeQueued p e ix !! p')
  = if decide (p' = p) then default ∅ (ix !! p) ∖ {[e]} else default ∅ (ix !! p').
Proof.
  unfold removeQueued. destruct (ix !! p) as [es|] eqn:E.
  - case_bool_decide as Hes; destruct (decide (p' = p)) as [->|Hne].
    + rewrite lookup_delete_eq. cbn. by rewrite Hes.
    + by rewrite lookup_delete_ne.
    + by rewrite lookup_insert_eq.
    + by rewrite lookup_insert_ne.
  - destruct (decide (p' = p)) as [->|Hne]; [|done]. rewrite E. cbn. set_solver.
Qed.

Lemma removeFromQueue_ok e q : queueOk q -> queueOk (removeFromQueue e q).
Proof.
  intros H. unfold removeFromQueue. case_bool_decide as He; [|done]. split; cbn; try exact (q_start _ H); try apply H.
  - eapply sublist_NoDup; [apply H|apply removeFirst_sublist].
  - intros p e'. rewrite removeQueued_lookup, queueRemove_elem by apply H. change (pathOf (set_queue _ _ q) e') with (pathOf q e').
    case_decide as Hp; rewrite ?elem_of_difference, (q_index _ H), ?elem_of_singleton; [subst; naive_solver|].
    split; [|naive_solver]. intros [H1 H2]. split_and!; [done| |done]. intros ->. congruence.
  - intros p E. unfold removeQueued in E. destruct (queuedByPath q !! pathOf q e) as [es|] eqn:Ees; [|by eapply (q_nonempty _ H)].
    case_bool_decide as Hes.
    + apply lookup_delete_Some in E as [_ E]. by eapply (q_nonempty _ H).
    + apply lookup_insert_Some in E as [[_ E]|[_ E]]; [done|by eapply (q_nonempty _ H)].
  - pose proof (q_bound _ H). pose proof (zlen_sublist _ _ (removeFirst_sublist e (queue q))). lia.
  - intros e' He'. apply queueRemove_elem in He' as [He' _]; [|apply H]. by apply (q_old _ H).
Qed.

Lemma removeFromQueue_fields e q : entries (removeFromQueue e q) = entries q /\ workCh (removeFromQueue e q) = workCh q
  /\ sending (removeFromQueue e q) = sending q /\ nextEntry (removeFromQueue e q) = nextEntry q
  /\ stopped (removeFromQueue e q) = stopped q /\ inFlight (removeFromQueue e q) = inFlight q
  /\ (NoDup (queue q) -> forall x, x ∈ queue (removeFromQueue e q) <-> x ∈ queue q /\ x <> e).
Proof.
  unfold removeFromQueue. case_bool_decide; cbn; split_and!; try done; intros; [by apply queueRemove_elem|].
  split; [|naive_solver]. intros Hx. split; [done|]. by intros ->.
Qed.

Lemma addQueued_lookup p e ix p' : default ∅ (addQueued p e ix !! p')
  = if decide (p' = p) then {[e]} ∪ default ∅ (ix !! p) else default ∅ (ix !! p').
Proof.
  unfold addQueued. destruct (decide (p' = p)) as [->|Hne]; [by rewrite lookup_insert_eq|by rewrite lookup_insert_ne].
Qed.

Lemma addQueued_nonempty p e ix : (forall p, ix !! p <> Some ∅) -> forall p', addQueued p e ix !! p' <> Some ∅.
Proof. intros H p' E. unfold addQueued in E. apply lookup_insert_Some in E as [[_ E]|[_ E]]; [set_solver|by eapply H]. Qed.

Lemma rebuilt_index f (l : list Z) : forall ix, (forall p, ix !! p <> Some ∅) ->
  let r := foldl (fun ix e => addQueued (f e) e ix) ix l in
  (forall p, r !! p <> Some ∅) /\ forall p e, e ∈ default ∅ (r !! p) <-> e ∈ default ∅ (ix !! p) \/ (e ∈ l /\ f e = p).
Proof.
  induction l as [|x l IH]; intros ix Hix; cbn [foldl]; [split; [done|]; set_solver|].
  destruct (IH (addQueued (f x) x ix)) as [H1 H2]; [by apply addQueued_nonempty|]. split; [done|].
  intros p e. rewrite H2, addQueued_lookup. case_decide as Hp; [subst|]; set_solver.
Qed.

Lemma enqueue_ok x q : queueOk q -> queueOk (fst (Enqueue x q)).
Proof.
  intros H. unfold Enqueue. destruct (stopped q); [done|]. destruct (Z.leb_spec (maxPending q) (zlen (queue q))) as [|Hlt]; [done|].
  assert (nextEntry q ∉ queue q) as Hnew by (intros Hin; apply (q_old _ H) in Hin; lia). pose proof (q_start _ H).
  cbn [fst]. split; cbn.
  - apply NoDup_app. split_and!; [apply H| |apply NoDup_singleton]. intros e He ->%list_elem_of_singleton. done.
  - intros p e. rewrite addQueued_lookup. unfold pathOf. cbn. rewrite elem_of_app, list_elem_of_singleton.
    assert (forall e, e ∈ queue q -> e <> nextEntry q) as Hne by (intros ? ? ->; done).
    destruct (decide (e = nextEntry q)) as [->|Hen].
    + rewrite lookup_insert_eq. case_decide; [subst; set_solver|]. rewrite (q_index _ H). naive_solver.
    + rewrite lookup_insert_ne by done. fold (pathOf q e). case_decide as Hp.
      * rewrite elem_of_union, elem_of_singleton, (q_index _ H). subst. naive_solver.
      * rewrite (q_index _ H). naive_solver.
  - apply addQueued_nonempty, H.
  - unfold zlen in *. rewrite length_app. cbn. lia.
  - intros e. destruct (decide (e = nextEntry q)) as [->|Hne].
    + rewrite lookup_insert_eq. split; [lia|by eexists].
    + rewrite lookup_insert_ne, (q_heap _ H) by done. lia.
  - intros e [He| ->%list_elem_of_singleton]%elem_of_app; [apply (q_old _ H) in He|]; lia.
  - lia.
Qed.

(** Entries are canceled, and some of them leave the queue. *)
Record cancels_to (q q' : CommitQueue) : Prop := {
  c_same : nextEntry q' = nextEntry q /\ workCh q' = workCh q /\ sending q' = sending q /\ stopped q' = stopped q
    /\ inFlight q' = inFlight q /\ maxPending q' = maxPending q /\ remoteRoot q' = remoteRoot q /\ bufSize q' = bufSize q;
  c_heap : forall e, is_Some (entries q' !! e) <-> is_Some (entries q !! e);
  c_path : forall e, pathOf q' e = pathOf q e;
  c_queue : queue q' `sublist_of` queue q;
  c_live : forall e, is_Some (entries q !! e) -> isEntryCanceled q' e = false ->
    isEntryCanceled q e = false /\ (e ∈ queue q -> e ∈ queue q')
}.

Lemma mark_ok es q : queueOk q -> queueOk (set_entries (markAll es (entries q)) q).
Proof.
  intros H. split; try exact (q_start _ H); try apply H.
  - intros p e. rewrite markAll_path. apply H.
  - intros e. cbn. rewrite markAll_lookup, fmap_is_Some. apply H.
Qed.

Lemma mark_heap es (m : gmap Z CommitEntry) e : is_Some (markAll es m !! e) <-> is_Some (m !! e).
Proof. by rewrite markAll_lookup, fmap_is_Some. Qed.

Lemma cancelPath_ok p q : queueOk q -> queueOk (cancelPath p q) /\ cancels_to q (cancelPath p q).
Proof.
  intros H. unfold cancelPath. set (es := option_list (inFlight q !! p) ++ elements (default ∅ (queuedByPath q !! p))).
  assert (forall e, e ∈ queue q -> pathOf q e = p -> e ∈ es) as Hes.
  { intros e He Hp. apply elem_of_app. right. by apply elem_of_elements, (q_index _ H). }
  pose proof (mark_ok es q H) as Hm. case_bool_decide as Hempty.
  - split; [done|]. split; [done|apply mark_heap|apply markAll_path|done|].
    intros e He Hc. apply markAll_canceled in Hc as [Hc _]. auto.
  - split.
    + split; cbn; try exact (q_start _ H); try apply Hm.
      * apply NoDup_filter, H.
      * intros p' e. change (pathOf (set_queue _ _ _) e) with (pathOf (set_entries (markAll es (entries q)) q) e).
        rewrite markAll_path, list_elem_of_filter. destruct (decide (p' = p)) as [->|Hne].
        { rewrite lookup_delete_eq. cbn. set_solver. }
        rewrite lookup_delete_ne, (q_index _ H) by done. naive_solver.
      * intros p' [_ E]%lookup_delete_Some. by eapply (q_nonempty _ H).
      * pose proof (q_bound _ H). pose proof (zlen_sublist _ _ (sublist_filter (fun e => pathOf q e <> p) (queue q))). lia.
      * intros e [_ He]%list_elem_of_filter. by apply (q_old _ H).
    + split; [done|apply mark_heap|apply markAll_path|apply sublist_filter|].
      intros e He Hc. apply markAll_canceled in Hc as [Hc Hn]. split; [done|]. intros Hq. cbn. apply list_elem_of_filter.
      split; [|done]. intros Hp. apply (Hn He). auto.
Qed.

Lemma cancelPrefix_ok pre q : queueOk q -> queueOk (fst (CancelPrefix pre q)) /\ cancels_to q (fst (CancelPrefix pre q)).
Proof.
  intros H. unfold CancelPrefix. cbn [fst]. set (es := _ ++ filter _ (queue q)).
  set (q1 := set_entries (markAll es (entries q)) q). set (q2 := set_queue _ ∅ q1).
  destruct (rebuilt_index (pathOf q2) (queue q2) ∅) as [R1 R2]; [intros p; by rewrite lookup_empty|].
  pose proof (mark_ok es q H) as Hm. fold q1 in Hm. split.
  - split; try exact (q_start _ H); try apply Hm.
    + apply NoDup_filter, H.
    + intros p e. change (e ∈ default ∅ (rebuildQueuedIndex q2 !! p) <-> e ∈ queue q2 /\ pathOf q2 e = p).
      unfold rebuildQueuedIndex. rewrite R2, lookup_empty. cbn [default]. set_solver.
    + done.
    + cbn. pose proof (q_bound _ H). pose proof (zlen_sublist _ _ (sublist_filter (fun e => HasPrefix (pathOf q e) pre <> true) (queue q))). lia.
    + intros e [_ He]%list_elem_of_filter. by apply (q_old _ H).
  - split; [done|apply mark_heap|apply markAll_path|apply sublist_filter|].
    intros e He Hc. apply (markAll_canceled es q) in Hc as [Hc Hn]. split; [done|]. intros Hq. cbn. apply list_elem_of_filter.
    split; [|done]. intros Hp. apply (Hn He). apply elem_of_app. right. by apply list_elem_of_filter.
Qed.

(** ** What a step of a thread does to the queue *)

(** Only the thread of [CommitNow] is without a count of its tries. *)
Definition counted (now : bool) (pt : point) : Prop :=
  match pt with WUpload _ None | WSend _ None _ => now = true | _ => True end.

Inductive moves (now : bool) (q : CommitQueue) (pt : point) : CommitQueue -> point -> Prop :=
  | mv_take e ch : pt = WIdle -> workCh q = e :: ch -> moves now q pt (set_workCh ch (sending q) q) (WTaken e)
  | mv_exit : pt = WIdle -> workCh q = [] -> stopped q = true -> moves now q pt q WExit
  | mv_go e f pt' : owed pt = Some e -> owed pt' = Some e -> counted now pt' -> moves now q pt (set_inFlight f q) pt'
  | mv_drop e pt' : owed pt = Some e -> pt' = WIdle \/ pt' = WClear e -> moves now q pt (removeFromQueue e q) pt'
  | mv_clear e f : pt = WClear e -> moves now q pt (set_inFlight f q) WIdle
  | mv_end e : now = true -> owed pt = Some e -> moves now q pt q WIdle.

Section system.
Context {S I : Type} `{!ShadowOps S} `{!IndexOps I}.

Lemma same_inFlight q : q = set_inFlight (inFlight q) q.
Proof. by destruct q. Qed.

Lemma advance_moves a now pt q (w : world S I) q' w' pt' : advance a now pt q w = (q', w', pt') ->
  enabled q now pt = true -> counted now pt -> (forall e, held pt = Some e -> is_Some (entries q !! e)) -> moves now q pt q' pt'.
Proof.
  intros E En Hc Hh.
  assert (forall e pt1, owed pt = Some e -> owed pt1 = Some e -> counted now pt1 -> moves now q pt q pt1) as Hgo.
  { intros e pt1 H1 H2 H3. rewrite (same_inFlight q) at 2. by eapply mv_go. }
  assert (forall r e tries, owed pt = Some e -> (tries = None -> now = true) -> moves now q pt q (afterUpload r e tries)) as Hup.
  { intros r e tries H1 H2. destruct r, tries; cbn; by (eapply mv_end; [by apply H2|done]) || by eapply Hgo. }
  destruct pt; expand E; cbn in En, Hc; try (destruct (Hh _ eq_refl) as [x Hx]);
    try (unfold streamed in E; repeat case_match; simplify_eq; (by eapply Hgo) || by eapply Hup; [|naive_solver]).
  - destruct (workCh q) as [|e ch] eqn:Ew; simplify_eq; [|by eapply mv_take].
    apply andb_prop in En as [_ En]. rewrite bool_decide_true in En by done. cbn in En. rewrite En. by apply mv_exit.
  - simplify_eq. eapply mv_drop; auto.
  - simplify_eq. by eapply mv_go.
  - simplify_eq. eapply mv_drop; [done|]. destruct now; auto.
  - clear En. case_bool_decide; injection E as <- <- <-; [by eapply mv_clear|]. rewrite (same_inFlight q) at 2. by eapply mv_clear.
Qed.

(** ** No entry is lost *)

Definition buffered (q : CommitQueue) : list Z := workCh q ++ option_list (sending q).

Record sysOk (s : sys S I) : Prop := {
  s_queue : queueOk (cq s);
  s_buffer : NoDup (buffered (cq s));
  s_bufHeap : forall e, e ∈ buffered (cq s) -> 0 < e < nextEntry (cq s);
  s_heldHeap : forall t now pt e, threads s !! t = Some (now, pt) -> held pt = Some e -> 0 < e < nextEntry (cq s);
  s_apart : forall t now pt e, threads s !! t = Some (now, pt) -> held pt = Some e -> e ∉ buffered (cq s);
  s_unique : forall t t' now now' pt pt' e, threads s !! t = Some (now, pt) -> threads s !! t' = Some (now', pt') ->
    held pt = Some e -> held pt' = Some e -> t = t';
  s_kept : forall e, e ∈ queue (cq s) -> e ∈ buffered (cq s)
    \/ exists t pt, threads s !! t = Some (false, pt) /\ owed pt = Some e;
  s_liveBuf : forall e, e ∈ buffered (cq s) -> isEntryCanceled (cq s) e = false -> e ∈ queue (cq s);
  s_liveWork : forall t pt e, threads s !! t = Some (false, pt) -> owed pt = Some e -> isEntryCanceled (cq s) e = false ->
    e ∈ queue (cq s);
  s_counted : forall t now pt, threads s !! t = Some (now, pt) -> counted now pt;
  s_stop : stopped (cq s) = true -> sending (cq s) = None;
  s_exit : forall t, threads s !! t = Some (false, WExit) -> stopped (cq s) = true /\ workCh (cq s) = [] /\ sending (cq s) = None
}.

Lemma owed_held pt e : owed pt = Some e -> held pt = Some e.
Proof. by destruct pt. Qed.

Lemma workersOf_lookup n t x : workersOf n !! t = Some x -> x = (false, WIdle).
Proof.
  unfold workersOf. intros H. apply elem_of_list_to_map_2, list_elem_of_fmap in H as (i & E & _). by simplify_eq.
Qed.

Lemma sysOk_initial max root n sh ix st : sysOk (initial max root n sh ix st).
Proof.
  split; cbn [cq threads initial]; try (intros *; intros ->%workersOf_lookup; done || by intros ?).
  all: try (intros * H; apply workersOf_lookup in H; simplify_eq; done).
  - apply queueOk_new.
  - constructor.
  - unfold buffered. cbn. set_solver.
  - cbn. set_solver.
  - unfold buffered. cbn. set_solver.
  - done.
Qed.

Lemma thread_heap s t now pt e : sysOk s -> threads s !! t = Some (now, pt) -> held pt = Some e -> is_Some (entries (cq s) !! e).
Proof. intros H Ht He. apply (q_heap _ (s_queue _ H)). by eapply (s_heldHeap _ H). Qed.

(** A thread moves on. *)
Definition moved (t : Z) (now : bool) (pt : point) (q : CommitQueue) (w : world S I) (s : sys S I) : sys S I :=
  {| cq := q; wd := w; threads := <[t := (now, pt)]> (threads s); cancels := cancels s |}.

(** Threads after a step: the one that moved, and the others. *)
Lemma moved_threads t now pt q w s t' x : threads (moved t now pt q w s) !! t' = Some x ->
  (t' = t /\ x = (now, pt)) \/ (t' <> t /\ threads s !! t' = Some x).
Proof. cbn. intros [[<- <-]|[Hne H]]%lookup_insert_Some; auto. Qed.

(** The same entry is held, and the queue is as before up to [inFlight]. *)
Lemma go_ok s t now pt pt' e f w : sysOk s -> threads s !! t = Some (now, pt) -> owed pt = Some e -> owed pt' = Some e ->
  counted now pt' -> sysOk (moved t now pt' (set_inFlight f (cq s)) w s).
Proof.
  intros H Ht He He' Hc. pose proof (owed_held _ _ He) as Hh. pose proof (owed_held _ _ He') as Hh'.
  split; try apply H.
  - pose proof (s_queue _ H) as Q. split; try exact (q_start _ Q); try apply Q.
  - intros t' now' pt1 e' [[-> [= -> ->]]|[_ Ht']]%moved_threads He1; [|by eapply (s_heldHeap _ H)].
    rewrite Hh' in He1. injection He1 as <-. exact (s_heldHeap _ H _ _ _ _ Ht Hh).
  - intros t' now' pt1 e' [[-> [= -> ->]]|[_ Ht']]%moved_threads He1; [|by eapply (s_apart _ H)].
    rewrite Hh' in He1. injection He1 as <-. exact (s_apart _ H _ _ _ _ Ht Hh).
  - intros t1 t2 n1 n2 p1 p2 e' [[-> [= -> ->]]|[N1 T1]]%moved_threads [[-> [= -> ->]]|[N2 T2]]%moved_threads E1 E2; [done|..].
    + rewrite Hh' in E1. injection E1 as <-. exact (s_unique _ H _ _ _ _ _ _ _ Ht T2 Hh E2).
    + rewrite Hh' in E2. injection E2 as <-. exact (s_unique _ H _ _ _ _ _ _ _ T1 Ht E1 Hh).
    + exact (s_unique _ H _ _ _ _ _ _ _ T1 T2 E1 E2).
  - intros e1 Hq. destruct (s_kept _ H e1 Hq) as [Hb|(t' & p1 & Ht' & Ho)]; [by left|right].
    destruct (decide (t' = t)) as [->|Hne].
    + exists t, pt'. rewrite Ht in Ht'. injection Ht' as -> ->. cbn. rewrite lookup_insert_eq. split; [done|congruence].
    + exists t', p1. cbn. by rewrite lookup_insert_ne.
  - intros t' p1 e1 [[-> [= <- ->]]|[_ Ht']]%moved_threads Ho Hl; [|by eapply (s_liveWork _ H)].
    apply (s_liveWork _ H t pt e1); [done|congruence|done].
  - intros t' n1 p1 [[-> [= -> ->]]|[_ Ht']]%moved_threads; [done|by eapply (s_counted _ H)].
  - intros t' [[-> [= _ E2]]|[_ Ht']]%moved_threads; [by subst pt'|]. by apply (s_exit _ H t').
Qed.

(** A thread is done with its entry, which has left the queue. *)
Lemma drop_ok s t now pt pt' e w : sysOk s -> threads s !! t = Some (now, pt) -> owed pt = Some e -> pt' = WIdle \/ pt' = WClear e ->
  sysOk (moved t now pt' (removeFromQueue e (cq s)) w s).
Proof.
  intros H Ht He Hpt. pose proof (owed_held _ _ He) as Hh.
  destruct (removeFromQueue_fields e (cq s)) as (F1 & F2 & F3 & F4 & F5 & F6 & F7). specialize (F7 (q_nodup _ (s_queue _ H))).
  assert (buffered (removeFromQueue e (cq s)) = buffered (cq s)) as Fb by (unfold buffered; by rewrite F2, F3).
  assert (forall x, isEntryCanceled (removeFromQueue e (cq s)) x = isEntryCanceled (cq s) x) as Fc by (intros x; unfold isEntryCanceled; by rewrite F1).
  assert (forall e', held pt' = Some e' -> e' = e) as Hpt' by (intros e'; destruct Hpt as [-> | ->]; cbn; congruence).
  assert (owed pt' = None) as Ho' by (destruct Hpt as [-> | ->]; done).
  split; cbn [cq moved]; rewrite ?Fb, ?F4, ?F5, ?F2, ?F3; try apply H.
  - apply removeFromQueue_ok, H.
  - intros t' now' pt1 e' [[-> [= -> ->]]|[_ Ht']]%moved_threads He1; [|by eapply (s_heldHeap _ H)].
    rewrite (Hpt' _ He1). exact (s_heldHeap _ H _ _ _ _ Ht Hh).
  - intros t' now' pt1 e' [[-> [= -> ->]]|[_ Ht']]%moved_threads He1; [|by eapply (s_apart _ H)].
    rewrite (Hpt' _ He1). exact (s_apart _ H _ _ _ _ Ht Hh).
  - intros t1 t2 n1 n2 p1 p2 e' [[-> [= -> ->]]|[N1 T1]]%moved_threads [[-> [= -> ->]]|[N2 T2]]%moved_threads E1 E2; [done|..].
    + rewrite (Hpt' _ E1) in E2. exact (s_unique _ H _ _ _ _ _ _ _ Ht T2 Hh E2).
    + rewrite (Hpt' _ E2) in E1. exact (s_unique _ H _ _ _ _ _ _ _ T1 Ht E1 Hh).
    + exact (s_unique _ H _ _ _ _ _ _ _ T1 T2 E1 E2).
  - intros e1 [Hq Hne]%F7. destruct (s_kept _ H e1 Hq) as [Hb|(t' & p1 & Ht' & Ho)]; [by left|right].
    exists t', p1. cbn. rewrite lookup_insert_ne; [done|]. intros <-. rewrite Ht in Ht'. congruence.
  - intros e1 Hb Hl. rewrite Fc in Hl. apply F7. split; [by apply (s_liveBuf _ H)|]. intros ->. by apply (s_apart _ H _ _ _ _ Ht Hh).
  - intros t' p1 e1 [[-> [= <- ->]]|[Hne Ht']]%moved_threads Ho Hl; [congruence|]. rewrite Fc in Hl. apply F7.
    split; [by eapply (s_liveWork _ H)|]. intros ->. apply Hne. exact (s_unique _ H _ _ _ _ _ _ _ Ht' Ht (owed_held _ _ Ho) Hh).
  - intros t' n1 p1 [[-> [= -> ->]]|[_ Ht']]%moved_threads; [by destruct Hpt as [-> | ->]|by eapply (s_counted _ H)].
  - intros t' [[-> [= _ E2]]|[_ Ht']]%moved_threads; [subst pt'; by destruct Hpt|]. by apply (s_exit _ H t').
Qed.

(** A thread that owes nothing comes to rest. *)
Lemma rest_ok s t now pt pt' f w : sysOk s -> threads s !! t = Some (now, pt) -> now = true \/ owed pt = None -> pt' = WIdle \/ pt' = WExit ->
  (pt' = WExit -> stopped (cq s) = true /\ workCh (cq s) = [] /\ sending (cq s) = None) ->
  sysOk (moved t now pt' (set_inFlight f (cq s)) w s).
Proof.
  intros H Ht Ho Hpt Hex. assert (held pt' = None) as Hh by (by destruct Hpt as [-> | ->]).
  split; try apply H.
  - pose proof (s_queue _ H) as Q. split; try exact (q_start _ Q); try apply Q.
  - intros t' now' pt1 e' [[-> [= -> ->]]|[_ Ht']]%moved_threads He1; [congruence|by eapply (s_heldHeap _ H)].
  - intros t' now' pt1 e' [[-> [= -> ->]]|[_ Ht']]%moved_threads He1; [congruence|by eapply (s_apart _ H)].
  - intros t1 t2 n1 n2 p1 p2 e' [[-> [= -> ->]]|[N1 T1]]%moved_threads [[-> [= -> ->]]|[N2 T2]]%moved_threads E1 E2; [congruence..|].
    exact (s_unique _ H _ _ _ _ _ _ _ T1 T2 E1 E2).
  - intros e1 Hq. destruct (s_kept _ H e1 Hq) as [Hb|(t' & p1 & Ht' & Ho')]; [by left|right].
    exists t', p1. cbn. rewrite lookup_insert_ne; [done|]. intros <-. rewrite Ht in Ht'. destruct Ho; congruence.
  - intros t' p1 e1 [[-> [= <- ->]]|[_ Ht']]%moved_threads Ho1 Hl; [|by eapply (s_liveWork _ H)].
    apply owed_held in Ho1. congruence.
  - intros t' n1 p1 [[-> [= -> ->]]|[_ Ht']]%moved_threads; [by destruct Hpt as [-> | ->]|by eapply (s_counted _ H)].
  - intros t' [[-> [= _ E]]|[_ Ht']]%moved_threads; [by apply Hex|]. by apply (s_exit _ H t').
Qed.

(** A worker takes an entry from the channel. *)
Lemma take_ok s t e ch w : sysOk s -> threads s !! t = Some (false, WIdle) -> workCh (cq s) = e :: ch ->
  sysOk (moved t false (WTaken e) (set_workCh ch (sending (cq s)) (cq s)) w s).
Proof.
  intros H Ht Ech. set (q' := set_workCh ch (sending (cq s)) (cq s)).
  assert (buffered (cq s) = e :: buffered q') as Hb by (unfold buffered; by rewrite Ech).
  pose proof (s_buffer _ H) as Hnd. rewrite Hb in Hnd. apply NoDup_cons in Hnd as [Hni Hnd].
  assert (forall x, x ∈ buffered q' -> x ∈ buffered (cq s)) as Hsub by (rewrite Hb; set_solver).
  assert (e ∈ buffered (cq s)) as Hin by (rewrite Hb; set_solver).
  split; cbn [cq moved].
  - pose proof (s_queue _ H) as Q. split; try exact (q_start _ Q); try apply Q.
  - done.
  - intros x Hx. apply (s_bufHeap _ H). auto.
  - intros t' now' pt1 e' [[-> [= -> ->]]|[_ Ht']]%moved_threads He1; [|by eapply (s_heldHeap _ H)].
    injection He1 as <-. by apply (s_bufHeap _ H).
  - intros t' now' pt1 e' [[-> [= -> ->]]|[_ Ht']]%moved_threads He1; [by injection He1 as <-|].
    intros Hx. eapply (s_apart _ H); [done..|auto].
  - intros t1 t2 n1 n2 p1 p2 e' [[-> [= -> ->]]|[N1 T1]]%moved_threads [[-> [= -> ->]]|[N2 T2]]%moved_threads E1 E2; [done|..].
    + injection E1 as <-. destruct (s_apart _ H _ _ _ _ T2 E2 Hin).
    + injection E2 as <-. destruct (s_apart _ H _ _ _ _ T1 E1 Hin).
    + exact (s_unique _ H _ _ _ _ _ _ _ T1 T2 E1 E2).
  - intros e1 Hq. destruct (decide (e1 = e)) as [->|Hne]; [right; exists t, (WTaken e); cbn; by rewrite lookup_insert_eq|].
    destruct (s_kept _ H e1 Hq) as [Hb1|(t' & p1 & Ht' & Ho')]; [left; rewrite Hb in Hb1; set_solver|right].
    exists t', p1. cbn. rewrite lookup_insert_ne; [done|]. intros <-. rewrite Ht in Ht'. by injection Ht' as <-.
  - intros x Hx Hl. apply (s_liveBuf _ H); auto.
  - intros t' p1 e1 [[-> [= ->]]|[_ Ht']]%moved_threads Ho1 Hl; [|by eapply (s_liveWork _ H)].
    injection Ho1 as <-. by apply (s_liveBuf _ H).
  - intros t' n1 p1 [[-> [= -> ->]]|[_ Ht']]%moved_threads; [done|by eapply (s_counted _ H)].
  - apply (s_stop _ H).
  - intros t' [[-> [= ?]]|[_ Ht']]%moved_threads. destruct (s_exit _ H t' Ht') as (_ & Hw & _). congruence.
Qed.

Lemma thread_ok a t now pt s : sysOk s -> threads s !! t = Some (now, pt) -> enabled (cq s) now pt = true -> sysOk (runThread a t s).
Proof.
  intros H Ht En. unfold runThread. rewrite Ht. destruct (advance a now pt (cq s) (wd s)) as [[q w] pt'] eqn:E.
  change (sysOk (moved t now pt' q w s)).
  apply advance_moves in E; [|done|by eapply (s_counted _ H)|intros e He; by eapply thread_heap].
  inversion E as [e ch -> Ech| -> Ech Hst|e f pt1 Ho Ho' Hc|e pt1 Ho Hpt|e f ->|e -> Ho]; subst.
  - destruct now; [done|]. by apply take_ok.
  - rewrite (same_inFlight (cq s)). apply (rest_ok s t now WIdle); [done|done|by right|by right|].
    intros _. split_and!; [done|done|]. by apply (s_stop _ H).
  - by apply (go_ok s t now pt pt' e).
  - by apply (drop_ok s t now pt pt' e).
  - apply (rest_ok s t now (WClear e)); [done|done|by right|by left|done].
  - rewrite (same_inFlight (cq s)). apply (rest_ok s t true pt); [done|done|by left|by left|done].
Qed.

Lemma send_ok q s : sysOk s -> finishSend (cq s) = Some q -> sysOk (set_cq q s).
Proof.
  intros H E. unfold finishSend in E. destruct (sending (cq s)) as [e|] eqn:Es; [|done].
  destruct (zlen (workCh (cq s)) <? bufSize (cq s)); [|done]. injection E as <-.
  assert (buffered (set_workCh (workCh (cq s) ++ [e]) None (cq s)) = buffered (cq s)) as Hb.
  { unfold buffered. rewrite Es. cbn. by rewrite app_nil_r. }
  pose proof (s_queue _ H) as Q. split; cbn [cq set_cq]; rewrite ?Hb; try apply H; try done.
  - split; try exact (q_start _ Q); try apply Q.
  - intros t Ht. destruct (s_exit _ H t Ht) as (_ & _ & E). congruence.
Qed.

(** Cancellations keep the invariant. *)
Lemma cancel_ok q s : sysOk s -> queueOk q -> cancels_to (cq s) q -> sysOk (set_cq q s).
Proof.
  intros H Q C. pose proof (c_same _ _ C) as (E1 & E2 & E3 & E4 & E5 & _).
  assert (buffered q = buffered (cq s)) as Hb by (unfold buffered; by rewrite E2, E3).
  assert (forall e, 0 < e < nextEntry (cq s) -> is_Some (entries (cq s) !! e)) as Hheap by (intros e; apply (q_heap _ (s_queue _ H))).
  split; cbn [cq set_cq threads]; rewrite ?Hb, ?E1, ?E2, ?E3, ?E4; try apply H; try done.
  - intros e He. apply (s_kept _ H). by apply (elem_of_sublist _ _ _ He), (c_queue _ _ C).
  - intros e He Hc. destruct (c_live _ _ C e) as [Hc' Hq]; [by apply Hheap, (s_bufHeap _ H)|done|]. apply Hq. by apply (s_liveBuf _ H).
  - intros t pt e Ht Ho Hc. destruct (c_live _ _ C e) as [Hc' Hq]; [by eapply Hheap, (s_heldHeap _ H), owed_held|done|].
    apply Hq. by eapply (s_liveWork _ H).
Qed.

Lemma enqueue_sys_ok x s : sysOk s -> sending (cq s) = None -> sysOk (set_cq (fst (Enqueue x (cq s))) s).
Proof.
  intros H Hs. pose proof (s_queue _ H) as Q. pose proof (enqueue_ok x _ Q) as Q'. revert Q'. unfold Enqueue.
  destruct (stopped (cq s)) eqn:Est; [by destruct s|]. destruct (maxPending (cq s) <=? zlen (queue (cq s))); [by destruct s|].
  cbn [fst]. set (q' := Build_CommitQueue _ _ _ _ _ _ _ _ _ _ _). intros Q'. set (e0 := nextEntry (cq s)).
  assert (forall e, e ∈ buffered q' <-> e ∈ buffered (cq s) \/ e = e0) as Hb.
  { intros e. unfold buffered, q'. cbn. rewrite Hs. destruct (bufSize (cq s) <=? zlen (workCh (cq s))); cbn; set_solver. }
  assert (e0 ∉ buffered (cq s)) as Hnew by (intros Hin%(s_bufHeap _ H); unfold e0 in *; lia).
  assert (forall e, e <> e0 -> isEntryCanceled q' e = isEntryCanceled (cq s) e) as Hc.
  { intros e He. unfold isEntryCanceled, q'. cbn. by rewrite lookup_insert_ne. }
  split; cbn [cq set_cq threads wd cancels].
  - done.
  - pose proof (s_buffer _ H) as Hn. unfold buffered in *. unfold q'. cbn. rewrite Hs, app_nil_r in *.
    assert (NoDup (workCh (cq s) ++ [e0])) by (apply NoDup_app; split_and!; [done|set_solver|apply NoDup_singleton]).
    destruct (bufSize (cq s) <=? zlen (workCh (cq s))); cbn; [done|by rewrite app_nil_r].
  - intros e [He%(s_bufHeap _ H)| ->]%Hb; unfold q', e0; cbn; [lia|]. pose proof (q_start _ Q). lia.
  - intros t now pt e Ht He. pose proof (s_heldHeap _ H _ _ _ _ Ht He). unfold q'. cbn. lia.
  - intros t now pt e Ht He [Hin| ->]%Hb; [by eapply (s_apart _ H)|]. pose proof (s_heldHeap _ H _ _ _ _ Ht He). unfold e0 in *. lia.
  - apply (s_unique _ H).
  - intros e He. unfold q' in He. cbn in He. apply elem_of_app in He as [He| ->%list_elem_of_singleton].
    + destruct (s_kept _ H e He) as [?|?]; [left; apply Hb; auto|by right].
    + left. apply Hb. by right.
  - intros e [He| ->]%Hb Hl; unfold q'; cbn; [|set_solver]. apply elem_of_app. left. apply (s_liveBuf _ H); [done|].
    rewrite Hc in Hl; [done|]. by intros ->.
  - intros t pt e Ht Ho Hl. unfold q'. cbn. apply elem_of_app. left. eapply (s_liveWork _ H); [done|done|].
    rewrite Hc in Hl; [done|]. pose proof (s_heldHeap _ H _ _ _ _ Ht (owed_held _ _ Ho)). unfold e0. lia.
  - apply (s_counted _ H).
  - intros E. unfold q' in E. cbn in E. congruence.
  - intros t Ht. destruct (s_exit _ H t Ht) as (E & _). congruence.
Qed.

Lemma commitNow_ok x t s : sysOk s -> threads s !! t = None -> sysOk (startCommitNow x t s).
Proof.
  intros H Ht. pose proof (s_queue _ H) as Q. set (e0 := nextEntry (cq s)). pose proof (q_start _ Q).
  assert (forall e, 0 < e < e0 -> <[e0 := x]> (entries (cq s)) !! e = entries (cq s) !! e) as Hl.
  { intros e He. rewrite lookup_insert_ne; [done|lia]. }
  assert (forall t' y, <[t := (true, WUpload e0 None)]> (threads s) !! t' = Some y ->
    (t' = t /\ y = (true, WUpload e0 None)) \/ threads s !! t' = Some y) as Hth.
  { intros t' y [[<- <-]|[_ ?]]%lookup_insert_Some; auto. }
  split; cbn [cq startCommitNow threads buffered stopped workCh sending].
  - split; cbn; [apply Q| |apply Q|apply Q| | |].
    + intros p e. rewrite (q_index _ Q). split; intros [He Hp]; (split; [done|]); unfold pathOf in *; cbn in *;
        rewrite Hl in * by (by apply (q_old _ Q)); done.
    + intros e. destruct (decide (e = e0)) as [->|Hne]; [rewrite lookup_insert_eq; split; [unfold e0; lia|by eexists]|].
      rewrite lookup_insert_ne, (q_heap _ Q) by done. unfold e0 in *. lia.
    + intros e He. apply (q_old _ Q) in He. lia.
    + unfold e0 in *. pose proof (q_start _ Q). lia.
  - apply (s_buffer _ H).
  - intros e He. apply (s_bufHeap _ H) in He. cbn. lia.
  - intros t' now pt e [[-> [= -> ->]]|Ht']%Hth He; cbn; [injection He as <-; unfold e0; lia|]. pose proof (s_heldHeap _ H _ _ _ _ Ht' He). lia.
  - intros t' now pt e [[-> [= -> ->]]|Ht']%Hth He; [|by eapply (s_apart _ H)]. injection He as <-.
    intros Hin%(s_bufHeap _ H). unfold e0 in *. lia.
  - intros t1 t2 n1 n2 p1 p2 e [[-> [= -> ->]]|T1]%Hth [[-> [= -> ->]]|T2]%Hth E1 E2; [done|..].
    + injection E1 as <-. pose proof (s_heldHeap _ H _ _ _ _ T2 E2). unfold e0 in *. lia.
    + injection E2 as <-. pose proof (s_heldHeap _ H _ _ _ _ T1 E1). unfold e0 in *. lia.
    + exact (s_unique _ H _ _ _ _ _ _ _ T1 T2 E1 E2).
  - intros e He. destruct (s_kept _ H e He) as [?|(t' & pt & Ht' & Ho)]; [by left|right]. exists t', pt.
    rewrite lookup_insert_ne; [done|]. congruence.
  - intros e He Hc. apply (s_liveBuf _ H); [done|]. unfold isEntryCanceled in *. cbn in Hc. by rewrite Hl in Hc by (by apply (s_bufHeap _ H)).
  - intros t' pt e [[-> [=]]|Ht']%Hth Ho Hc. eapply (s_liveWork _ H); [done..|]. unfold isEntryCanceled in *. cbn in Hc.
    by rewrite Hl in Hc by (by eapply (s_heldHeap _ H), owed_held).
  - intros t' now pt [[-> [= -> ->]]|Ht']%Hth; [done|by eapply (s_counted _ H)].
  - apply (s_stop _ H).
  - intros t' [[-> [=]]|Ht']%Hth. by apply (s_exit _ H t').
Qed.

Lemma world_ok s s' : cq s' = cq s -> threads s' = threads s -> sysOk s -> sysOk s'.
Proof. intros E1 E2 H. split; rewrite ?E1, ?E2; apply H. Qed.

Lemma drain_ok s : sysOk s -> sending (cq s) = None -> sysOk (set_cq (DrainAll (cq s)) s).
Proof.
  intros H Hs. pose proof (s_queue _ H) as Q. split; cbn [cq set_cq threads]; try apply H; try done.
  - split; try exact (q_start _ Q); try apply Q.
  - intros t Ht. by destruct (s_exit _ H t Ht) as (_ & ? & ?).
Qed.

Context (write : string -> bytes -> S -> S).

Definition step (s s' : sys S I) : Prop := workStep s s' \/ callStep write s s'.

Lemma sysStep_ok s s' : step s s' -> sysOk s -> sysOk s'.
Proof.
  intros [H|H] Hok.
  - destruct H; [by eapply thread_ok|by eapply send_ok].
  - destruct H; try (by apply (world_ok s)).
    + by apply enqueue_sys_ok.
    + by apply commitNow_ok.
    + apply (world_ok (set_cq (cancelPath p (cq s)) s)); [done..|]. destruct (cancelPath_ok p (cq s) (s_queue _ Hok)). by apply cancel_ok.
    + destruct (cancelPath_ok p (cq s) (s_queue _ Hok)). by apply cancel_ok.
    + apply (world_ok (set_cq (fst (CancelPrefix p (cq s))) s)); [done..|].
      destruct (cancelPrefix_ok p (cq s) (s_queue _ Hok)). by apply cancel_ok.
    + by apply drain_ok.
Qed.

(** The states the queue can be in. *)
Definition reachable (max : Z) (root : string) (n : nat) (s : sys S I) : Prop :=
  exists sh ix st, rtc step (initial max root n sh ix st) s.

Lemma reachable_sysOk max root n s : reachable max root n s -> sysOk s.
Proof.
  intros (sh & ix & st & H). assert (forall s s', rtc step s s' -> sysOk s -> sysOk s') as Hr.
  { intros ? ? R. induction R; [done|]. intros. apply IHR. by eapply sysStep_ok. }
  eapply Hr; [done|]. apply sysOk_initial.
Qed.

(** C15: in every state the commit queue can reach, whatever the interleaving of the
    workers with enqueues, cancellations and drains and whatever the server answers: the
    queue never exceeds its limit and its index by path is exact; every queued entry is
    still waiting in the channel or in the hands of a worker, so none is forgotten, and
    no entry is at two places; and when [HasPath] answers no, as [WaitPath] waits for,
    every entry of that path that still waits or is being worked on has been canceled. *)
Theorem queue_sound max root n s : reachable max root n s ->
  zlen (queue (cq s)) <= maxPending (cq s)
  /\ (forall p, hasQueuedPath (cq s) p = true <-> exists e, e ∈ queue (cq s) /\ pathOf (cq s) e = p)
  /\ (forall e, e ∈ queue (cq s) -> e ∈ buffered (cq s) \/ exists t pt, threads s !! t = Some (false, pt) /\ owed pt = Some e)
  /\ NoDup (buffered (cq s))
  /\ (forall t now pt e, threads s !! t = Some (now, pt) -> held pt = Some e -> e ∉ buffered (cq s)
       /\ forall t' now' pt', threads s !! t' = Some (now', pt') -> held pt' = Some e -> t' = t)
  /\ forall p e, HasPath p (cq s) = false -> pathOf (cq s) e = p ->
       e ∈ buffered (cq s) \/ (exists t pt, threads s !! t = Some (false, pt) /\ owed pt = Some e) ->
       isEntryCanceled (cq s) e = true.
Proof.
  intros H%reachable_sysOk. pose proof (s_queue _ H) as Q. split_and!.
  - apply (q_bound _ Q).
  - intros p. by apply hasQueued_exact.
  - apply (s_kept _ H).
  - apply (s_buffer _ H).
  - intros t now pt e Ht He. split; [by eapply (s_apart _ H)|]. intros t' now' pt' Ht' He'. symmetry.
    exact (s_unique _ H _ _ _ _ _ _ _ Ht Ht' He He').
  - intros p e Hp Hpath Hin. destruct (isEntryCanceled (cq s) e) eqn:Hc; [done|].
    assert (e ∈ queue (cq s)) as Hq by (destruct Hin as [Hb|(t & pt & Ht & Ho)]; [by apply (s_liveBuf _ H)|by eapply (s_liveWork _ H)]).
    apply orb_false_elim in Hp as [_ Hp]. assert (hasQueuedPath (cq s) p = true) by (apply hasQueued_exact; eauto). congruence.
Qed.

(** ** The workers come to an end *)

(** How far a worker is from its end. *)
Definition rank (pt : point) : nat :=
  match pt with
  | WExit => 0 | WIdle => 1 | WClear _ => 2 | WSkip _ => 2 | WDequeue _ => 3
  | WRmIndex _ => 4 | WRmShadow _ => 5 | WCommitted _ => 6 | WTerminal _ => 6 | WSent _ => 7
  | WResend _ _ _ => 8 | WDiffer _ _ _ => 9 | WFetch _ _ _ => 10 | WStat _ _ => 11 | WNoLocal _ => 11 | WLocal _ => 12 | WResolve _ => 13
  | WFailed _ n _ => 14 + 6 * (5 - n) | WSend _ (Some n) _ => 15 + 6 * (5 - n) | WUpload _ (Some n) => 16 + 6 * (5 - n)
  | WReady _ n => 17 + 6 * (5 - n) | WSleep _ n => 18 + 6 * (5 - n) | WTry _ n => 19 + 6 * (5 - n)
  | WSend _ None _ => 8 | WUpload _ None => 9
  | WStart _ => 50 | WMark _ => 51 | WTaken _ => 52
  end.

(** All that is left to do: an entry in the channel is worth a whole run of a worker, and
    one that waits for room one step more. *)
Definition measure (s : sys S I) : Z :=
  52 * zlen (workCh (cq s)) + 53 * zlen (option_list (sending (cq s))) + map_sum (fun x => Z.of_nat (rank (snd x))) (threads s).

Lemma advance_rank a now pt q w q' w' pt' : advance a now pt q w = (q', w', pt') -> enabled q now pt = true ->
  (52 * length (workCh q') + rank pt' < 52 * length (workCh q) + rank pt)%nat /\ sending q' = sending q.
Proof.
  intros E En. assert (forall e tries r, (rank (afterUpload r e tries) < rank (WSend e tries None))%nat) as Hup.
  { intros e tries r. destruct tries, r; cbn; lia. }
  assert (forall e tries d, rank (WSend e tries d) = rank (WSend e tries None)) as Hs by (intros e [] d; done).
  assert (forall e tries, (rank (WSend e tries None) < rank (WUpload e tries))%nat) as Hu by (intros e []; cbn; lia).
  destruct pt; expand E; try done.
  1: { cbn in En. destruct (workCh q) as [|e ch] eqn:Ew; injection E as <- <- <-; cbn; [|rewrite ?Ew; cbn; split; [lia|done]].
    apply andb_prop in En as [_ En]. cbn in En. rewrite En, Ew. cbn. split; [lia|done]. }
  all: clear En; try unfold streamed in E; cbn zeta in E; repeat case_match; injection E as <- <- <-.
  all: try match goal with |- context [afterUpload ?r ?e ?t] => pose proof (Hup e t r); pose proof (Hu e t) end.
  all: try match goal with |- context [removeFromQueue ?e ?q] => destruct (removeFromQueue_fields e q) as (_ & -> & -> & _) end.
  all: rewrite ?Hs; split; try done; try (case_bool_decide; done).
  all: try (cbn -[Nat.mul Nat.sub Nat.add afterUpload]; lia).
  all: try (destruct tries; try destruct (aUpload a); cbn -[Nat.mul Nat.sub Nat.add]; lia).
  match goal with Hlt : Nat.ltb _ _ = true |- _ => apply Nat.ltb_lt in Hlt; unfold maxRetries in Hlt end. cbn -[Nat.mul Nat.sub Nat.add]. lia.
Qed.

Lemma work_decreases s s' : workStep s s' -> measure s' + 1 <= measure s.
Proof.
  intros [a t now pt Ht En _|q E].
  - unfold runThread. rewrite Ht. destruct (advance a now pt (cq s) (wd s)) as [[q w] pt'] eqn:E.
    destruct (advance_rank _ _ _ _ _ _ _ _ E En) as [Hr Hs]. unfold measure. cbn [cq threads]. rewrite Hs, map_sum_insert, Ht. cbn [fmap option_fmap option_map from_option id snd].
    unfold zlen. lia.
  - unfold finishSend in E. destruct (sending (cq s)) as [e|] eqn:Es; [|done]. destruct (zlen (workCh (cq s)) <? bufSize (cq s)); [|done].
    injection E as <-. unfold measure. cbn [cq set_cq set_workCh workCh sending threads]. rewrite Es, zlen_app. unfold zlen. cbn. lia.
Qed.

Lemma measure_nonneg s : 0 <= measure s.
Proof.
  unfold measure. pose proof (zlen_nonneg (workCh (cq s))). pose proof (zlen_nonneg (option_list (sending (cq s)))).
  pose proof (map_sum_nonneg (fun x : bool * point => Z.of_nat (rank (snd x))) (threads s) (fun x => Nat2Z.is_nonneg _)). lia.
Qed.

(** What no step changes: the sizes, the root, and that there is a worker. *)
Lemma advance_static a now pt q w q' w' pt' : advance a now pt q w = (q', w', pt') ->
  bufSize q' = bufSize q /\ maxPending q' = maxPending q /\ remoteRoot q' = remoteRoot q.
Proof.
  intros E. destruct pt; expand E; unfold streamed, removeFromQueue in *; cbn zeta in E; repeat case_match; by simplify_eq.
Qed.

Definition static (s s' : sys S I) : Prop :=
  bufSize (cq s') = bufSize (cq s) /\ maxPending (cq s') = maxPending (cq s) /\ remoteRoot (cq s') = remoteRoot (cq s)
  /\ ((exists t pt, threads s !! t = Some (false, pt)) -> exists t pt, threads s' !! t = Some (false, pt)).

Lemma step_static s s' : step s s' -> sysOk s -> static s s'.
Proof.
  intros H Hok. unfold static. destruct H as [[a t now pt Ht En _|q E]|H].
  - unfold runThread. rewrite Ht. destruct (advance a now pt (cq s) (wd s)) as [[q w] pt'] eqn:E.
    destruct (advance_static _ _ _ _ _ _ _ _ E) as (E1 & E2 & E3). cbn. split_and!; [done..|].
    intros (t' & pt1 & Ht'). destruct (decide (t' = t)) as [->|Hne]; [|exists t', pt1; by rewrite lookup_insert_ne].
    exists t, pt'. rewrite lookup_insert_eq. congruence.
  - unfold finishSend in E. repeat case_match; by simplify_eq.
  - destruct H as [x| x t Ht| p| p| p| | | | |]; try (by split_and!).
    + cbn. unfold Enqueue. repeat case_match; by split_and!.
    + cbn. split_and!; [done..|]. intros (t' & pt & Ht'). exists t', pt. rewrite lookup_insert_ne; [done|]. congruence.
    + destruct (cancelPath_ok p (cq s) (s_queue _ Hok)) as [_ C]. destruct (c_same _ _ C) as (_ & _ & _ & _ & _ & ? & ? & ?). by split_and!.
    + destruct (cancelPath_ok p (cq s) (s_queue _ Hok)) as [_ C]. destruct (c_same _ _ C) as (_ & _ & _ & _ & _ & ? & ? & ?). by split_and!.
Qed.

Lemma steps_static s s' : rtc step s s' -> sysOk s -> static s s'.
Proof.
  intros H. induction H as [s|s s1 s' H1 _ IH]; intros Hok; [by split_and!|].
  destruct (step_static _ _ H1 Hok) as (A1 & A2 & A3 & A4). destruct (IH (sysStep_ok _ _ H1 Hok)) as (B1 & B2 & B3 & B4).
  split_and!; [congruence..|auto].
Qed.

Lemma reachable_static max root n s : reachable max root n s ->
  0 < bufSize (cq s) /\ (exists t pt, threads s !! t = Some (false, pt)).
Proof.
  intros (sh & ix & st & H). destruct (steps_static _ _ H (sysOk_initial _ _ _ _ _ _)) as (E & _ & _ & Hw). split.
  - rewrite E. cbn. lia.
  - apply Hw. exists 0, WIdle. cbn [initial threads]. unfold workersOf. apply elem_of_list_to_map_1.
    + rewrite <- list_fmap_compose. apply NoDup_fmap_2; [|apply NoDup_seq]. intros x y. cbn. lia.
    + apply list_elem_of_fmap. exists 0%nat. split; [done|]. apply elem_of_seq. destruct (Nat.eqb_spec n 0); lia.
Qed.

Lemma reachable_step max root n s s' : reachable max root n s -> step s s' -> reachable max root n s'.
Proof. intros (sh & ix & st & H) Hs. exists sh, ix, st. by eapply rtc_r. Qed.

(** Nothing is left to do for the workers. *)
Definition drained (s : sys S I) : Prop :=
  queue (cq s) = [] /\ workCh (cq s) = [] /\ sending (cq s) = None
  /\ forall t pt, threads s !! t = Some (false, pt) -> pt = if stopped (cq s) then WExit else WIdle.

(** An [Enqueue] waits for room in the channel, holding the mutex that every worker needs. *)
Definition deadlocked (s : sys S I) : Prop :=
  is_Some (sending (cq s)) /\ bufSize (cq s) <= zlen (workCh (cq s))
  /\ forall t pt, threads s !! t = Some (false, pt) -> locks pt = true.

(** Entries that wait and are not canceled are queued. *)
Lemma buffered_bound s : sysOk s ->
  zlen (buffered (cq s)) <= maxPending (cq s) + zlen (filter (fun e => isEntryCanceled (cq s) e = true) (buffered (cq s))).
Proof.
  intros H. set (l := buffered (cq s)). set (P := fun e => isEntryCanceled (cq s) e = true).
  assert (zlen l = zlen (filter P l) + zlen (filter (fun e => ¬ P e) l)) as ->.
  { unfold zlen. rewrite <- Nat2Z.inj_add, <- length_app. f_equal. apply Permutation_length. symmetry. apply filter_app_complement. }
  assert (zlen (filter (fun e => ¬ P e) l) <= zlen (queue (cq s))).
  { unfold zlen. apply inj_le. apply submseteq_length, NoDup_submseteq; [apply NoDup_filter, H|].
    intros e [He Hl]%list_elem_of_filter. apply (s_liveBuf _ H); [done|]. by apply not_true_is_false. }
  pose proof (q_bound _ (s_queue _ H)). lia.
Qed.

Definition noAnswers : answers :=
  {| aSlept := true; aUpload := UpErr false; aStat := None; aServer := None; aJournal := false; aMark := false; aThreshold := 0 |}.

Lemma stuck_threads s : (forall s', ~ workStep s s') -> forall t now pt, threads s !! t = Some (now, pt) -> enabled (cq s) now pt = false.
Proof.
  intros H t now pt Ht. destruct (enabled (cq s) now pt) eqn:E; [|done]. destruct (H (runThread noAnswers t s)).
  eapply ws_thread; [done|done|]. by destruct pt.
Qed.

Lemma stuck_cases max root n s : reachable max root n s -> (forall s', ~ workStep s s') -> drained s \/ deadlocked s.
Proof.
  intros Hr Hst. pose proof (reachable_sysOk _ _ _ _ Hr) as H. destruct (reachable_static _ _ _ _ Hr) as [Hbuf (t0 & pt0 & Ht0)].
  pose proof (stuck_threads s Hst) as Hen. destruct (sending (cq s)) as [e|] eqn:Es.
  - right. split; [by eexists|]. assert (bufSize (cq s) <= zlen (workCh (cq s))) as Hfull.
    { destruct (Z.ltb_spec (zlen (workCh (cq s))) (bufSize (cq s))) as [Hlt|]; [|lia].
      edestruct Hst. apply ws_send. unfold finishSend. rewrite Es, (proj2 (Z.ltb_lt _ _) Hlt). done. }
    split; [done|]. intros t pt Ht. specialize (Hen t false pt Ht). unfold enabled in Hen.
    destruct (locks pt) eqn:El; [done|]. destruct pt; try done.
    + destruct (workCh (cq s)); [|done]. unfold zlen in Hfull. cbn in Hfull. lia.
    + destruct (s_exit _ H t Ht) as (_ & _ & E). congruence.
  - left. assert (forall t pt, threads s !! t = Some (false, pt) -> pt = WExit \/ (pt = WIdle /\ workCh (cq s) = [] /\ stopped (cq s) = false)) as Hpt.
    { intros t pt Ht. specialize (Hen t false pt Ht). unfold enabled in Hen. rewrite Es in Hen. rewrite (bool_decide_true (None = None)) in Hen by done.
      destruct pt; try (by rewrite orb_true_r in Hen); [|by left]. cbn in Hen. apply orb_false_elim in Hen as [H1 H2].
      apply negb_false_iff, bool_decide_eq_true in H1. auto. }
    assert (workCh (cq s) = []) as Hw.
    { destruct (Hpt t0 pt0 Ht0) as [->|(_ & ? & _)]; [|done]. by destruct (s_exit _ H t0 Ht0) as (_ & ? & _). }
    split_and!; [|done|done|].
    + destruct (queue (cq s)) as [|e l] eqn:Eq; [done|]. destruct (s_kept _ H e) as [Hb|(t & pt & Ht & Ho)]; [rewrite Eq; set_solver|..].
      * unfold buffered in Hb. rewrite Hw, Es in Hb. set_solver.
      * by destruct (Hpt t pt Ht) as [->|(-> & _)].
    + intros t pt Ht. destruct (Hpt t pt Ht) as [->|(-> & _ & ->)]; [|done]. by destruct (s_exit _ H t Ht) as (-> & _).
Qed.

(** C16: the workers come to an end. From any state the queue can reach, they take at most
    as many steps as the measure counts, a fixed number per entry, whatever the server
    answers; and when none of them can take a step, then the queue and the channel are
    empty, no [Enqueue] is waiting and every worker is idle or, after [DrainAll], has
    exited - unless an [Enqueue] holds the mutex while it waits for room in the channel,
    which takes more canceled entries in the channel than it has room beyond the limit of
    the queue. *)
Theorem workers_drain max root n s : reachable max root n s ->
  (forall k s', nsteps workStep k s s' -> Z.of_nat k <= measure s)
  /\ forall s', rtc workStep s s' -> (forall s'', ~ workStep s' s'') ->
     drained s'
     \/ (deadlocked s' /\ bufSize (cq s') - maxPending (cq s')
           < zlen (filter (fun e => isEntryCanceled (cq s') e = true) (buffered (cq s')))).
Proof.
  intros Hr. split.
  - intros k s' Hk. assert (Z.of_nat k + measure s' <= measure s); [|pose proof (measure_nonneg s'); lia].
    clear Hr. induction Hk as [s|k s s1 s' H1 _ IH]; [lia|]. apply work_decreases in H1. lia.
  - intros s' Hs Hst. assert (reachable max root n s') as Hr'.
    { clear Hst. induction Hs as [|s s1 s' H1 _ IH]; [done|]. apply IH. eapply reachable_step; [done|by left]. }
    destruct (stuck_cases _ _ _ _ Hr' Hst) as [?|D]; [by left|right]. split; [done|].
    destruct D as ([e Es] & Hfull & _). pose proof (buffered_bound s' (reachable_sysOk _ _ _ _ Hr')) as B.
    assert (zlen (buffered (cq s')) = zlen (workCh (cq s')) + 1) by (unfold buffered; rewrite Es, zlen_app; done). lia.
Qed.

(** ** Local bytes go only when the server has them *)

(** What the shadow store promises: calls on a path leave the others alone. *)
Class ShadowLaws := {
  shOk : S -> Prop;
  sync_ok : forall p s, shOk s -> shOk (shSync p s);
  remove_ok : forall p s, shOk s -> shOk (shRemove p s);
  write_ok : forall p b s, shOk s -> shOk (write p b s);
  read_sync : forall p q s, shOk s ->
    shReadAll q (shSync p s) = if decide (q = p) then Some (default [] (shReadAll p s)) else shReadAll q s;
  read_remove : forall p q s, shOk s -> shReadAll q (shRemove p s) = if decide (q = p) then None else shReadAll q s;
  read_write : forall p b q s, shOk s -> shReadAll q (write p b s) = if decide (q = p) then Some b else shReadAll q s
}.
Context {laws : ShadowLaws}.

(** The bytes of the shadow that a worker has in hand, or has uploaded. *)
Definition reading (pt : point) : option bytes :=
  match pt with WSend _ _ (Some b) | WStat _ b | WFetch _ b _ | WDiffer _ b _ | WResend _ b _ => Some b | _ => None end.
Definition uploaded (pt : point) : bool := match pt with WSent _ | WCommitted _ | WRmShadow _ => true | _ => false end.

Definition read (s : sys S I) (p : string) : option bytes := shReadAll p (shadows (wd s)).
Definition stored (s : sys S I) (p : string) (b : bytes) : Prop := (remotePath (cq s) p, b) ∈ accepted (wd s).

(** A worker has read the shadow of a path and has not removed it yet. *)
Definition busy (s : sys S I) (p : string) : Prop :=
  exists t now pt e, threads s !! t = Some (now, pt) /\ held pt = Some e /\ pathOf (cq s) e = p
    /\ (is_Some (reading pt) \/ uploaded pt = true).

(** Steps in which the file system does not write to a path that is busy. *)
Definition calmStep (s s' : sys S I) : Prop :=
  workStep s s' \/ (callStep write s s' /\ forall p, busy s p -> read s' p = read s p \/ read s' p = None).

(** What is known of the shadow of a worker's path. *)
Definition known (s : sys S I) (pt : point) (p : string) : Prop :=
  (forall b, reading pt = Some b -> read s p = None \/ read s p = Some [] \/ read s p = Some b)
  /\ (uploaded pt = true -> forall b, read s p = Some b -> b = [] \/ stored s p b).

Record bytesOk (s : sys S I) : Prop := {
  b_sys : sysOk s;
  b_shadow : shOk (shadows (wd s));
  b_known : forall t now pt e, threads s !! t = Some (now, pt) -> held pt = Some e -> known s pt (pathOf (cq s) e)
}.

(** What is known stays known when the shadow keeps its bytes, is removed, or is made
    empty from nothing. *)
Lemma known_mono s s' pt p : known s pt p -> (forall b, stored s p b -> stored s' p b) ->
  read s' p = read s p \/ read s' p = None \/ (read s p = None /\ read s' p = Some []) -> known s' pt p.
Proof.
  intros [H1 H2] Hst Hr. split.
  - intros b Hb. destruct (H1 b Hb) as [E|[E|E]]; destruct Hr as [Hr|[Hr|[_ Hr]]]; rewrite Hr; rewrite ?E; auto.
  - intros Hu b Hb. destruct Hr as [Hr|[Hr|[_ Hr]]]; rewrite Hr in Hb; [|done|left; congruence].
    destruct (H2 Hu b Hb) as [?|?]; auto.
Qed.

Lemma known_free s pt p : reading pt = None -> uploaded pt = false -> known s pt p.
Proof. intros H1 H2. split; [by rewrite H1|by rewrite H2]. Qed.

(** What a step of a thread that holds an entry of [p] does to the local bytes and the
    server. *)
Record effect (s : sys S I) (p : string) (up : bool) (w : world S I) (pt' : point) : Prop := {
  e_ok : shOk (shadows w);
  e_accepted : accepted (wd s) ⊆ accepted w;
  e_others : forall p', p' <> p -> shReadAll p' (shadows w) = read s p';
  e_own : shReadAll p (shadows w) = read s p \/ (read s p = None /\ shReadAll p (shadows w) = Some [])
    \/ (up = true /\ shReadAll p (shadows w) = None);
  e_reading : forall b, reading pt' = Some b ->
    shReadAll p (shadows w) = None \/ shReadAll p (shadows w) = Some [] \/ shReadAll p (shadows w) = Some b;
  e_uploaded : uploaded pt' = true -> forall b, shReadAll p (shadows w) = Some b -> b = [] \/ (remotePath (cq s) p, b) ∈ accepted w
}.

(** The shadow store is not touched. *)
Lemma effect_still s p up w pt' : shOk (shadows (wd s)) -> shadows w = shadows (wd s) -> accepted (wd s) ⊆ accepted w ->
  (forall b, reading pt' = Some b -> read s p = None \/ read s p = Some [] \/ read s p = Some b) ->
  (uploaded pt' = true -> forall b, read s p = Some b -> b = [] \/ (remotePath (cq s) p, b) ∈ accepted w) -> effect s p up w pt'.
Proof. intros Hok E Ha H1 H2. unfold read in *. split; rewrite ?E; auto. Qed.

Lemma upload_accepts r rp b (w : world S I) : shadows (doUpload r rp b w) = shadows w /\ accepted w ⊆ accepted (doUpload r rp b w)
  /\ (r = UpOk -> (rp, b) ∈ accepted (doUpload r rp b w)).
Proof. destruct r as [| |[]]; cbn; split_and!; try done; set_solver. Qed.

Lemma afterUpload_free r e tries : (uploaded (afterUpload r e tries) = true -> r = UpOk) /\ reading (afterUpload r e tries) = None.
Proof. by destruct r, tries. Qed.

(** The upload of bytes that were read. *)
Lemma effect_upload s p up r b e tries : shOk (shadows (wd s)) -> (read s p = None \/ read s p = Some [] \/ read s p = Some b) ->
  effect s p up (doUpload r (remotePath (cq s) p) b (wd s)) (afterUpload r e tries).
Proof.
  intros Hok Hr. destruct (upload_accepts r (remotePath (cq s) p) b (wd s)) as (U1 & U2 & U3).
  destruct (afterUpload_free r e tries) as [F1 F2]. apply effect_still; [done..|by rewrite F2|].
  intros Hu c Hc. destruct Hr as [E|[E|E]]; rewrite E in Hc; simplify_eq; auto.
Qed.

Lemma effect_stream s p up r e tries w b : shOk (shadows (wd s)) -> streamed p (wd s) = (w, Some b) ->
  effect s p up (doUpload r (remotePath (cq s) p) b w) (afterUpload r e tries).
Proof.
  intros Hok E. unfold streamed in E. injection E as <- Eb. set (w := set_shadows (shSync p (shadows (wd s))) (wd s)) in *.
  destruct (upload_accepts r (remotePath (cq s) p) b w) as (U1 & U2 & U3). destruct (afterUpload_free r e tries) as [F1 F2].
  assert (forall q, shReadAll q (shSync p (shadows (wd s))) = if decide (q = p) then Some (default [] (read s p)) else read s q) as Hs
    by (intros q; by apply read_sync).
  rewrite Hs, decide_True in Eb by done. split; rewrite ?U1; cbn [w shadows set_shadows].
  - by apply sync_ok.
  - done.
  - intros p' Hp. by rewrite Hs, decide_False.
  - rewrite Hs, decide_True by done. destruct (read s p); cbn; auto.
  - by rewrite F2.
  - intros Hu c. rewrite Hs, decide_True by done. intros Hc. right. assert (c = b) as -> by congruence. auto.
Qed.

Lemma advance_bytes a now pt (s : sys S I) q w pt' e : advance a now pt (cq s) (wd s) = (q, w, pt') -> shOk (shadows (wd s)) ->
  held pt = Some e -> (forall x, entries (cq s) !! e = Some x -> Path x = pathOf (cq s) e) ->
  known s pt (pathOf (cq s) e) -> honest a s pt -> effect s (pathOf (cq s) e) (uploaded pt) w pt'.
Proof.
  intros E Hok He Hpx [K1 K2] Hh. unfold stored in K2.
  assert (forall pt1 w1, shadows w1 = shadows (wd s) -> accepted w1 = accepted (wd s) -> reading pt1 = None -> uploaded pt1 = false ->
    effect s (pathOf (cq s) e) (uploaded pt) w1 pt1) as Hfree.
  { intros pt1 w1 E1 E2 F1 F2. apply effect_still; [done|done|by rewrite E2|by rewrite F1|by rewrite F2]. }
  destruct pt; cbn in He; simplify_eq; expand E;
    try (repeat case_match; simplify_eq; by apply Hfree).
  - (* uploadEntry *)
    destruct (entries (cq s) !! e) as [x|] eqn:Ex; [|injection E as <- <- <-; by apply Hfree]. specialize (Hpx x eq_refl).
    destruct (bool_decide _ && _); [injection E as <- <- <-; destruct tries; by apply Hfree|].
    destruct (uploadRoute (aThreshold a) x); [injection E as <- <- <-; by apply Hfree|..];
      (destruct (shReadAll (Path x) (shadows (wd s))) as [b|] eqn:Eb; injection E as <- <- <-;
       [|destruct tries; by apply Hfree]);
      rewrite Hpx in Eb; (apply effect_still; [done..|intros b' [= <-]; by right; right|done]).
  - (* the upload *)
    destruct data as [b|].
    + injection E as <- <- <-. apply effect_upload; [done|by apply K1].
    + destruct (streamed (pathOf (cq s) e) (wd s)) as [w1 [b|]] eqn:Es.
      * injection E as <- <- <-. by apply (effect_stream s _ _ _ _ _ w1).
      * unfold streamed in Es. injection Es as <- Eb. rewrite read_sync, decide_True in Eb by done. done.
  - injection E as <- <- <-. apply effect_still; [done..|by intros|by apply K2].
  - destruct (aJournal a); injection E as <- <- <-; [apply effect_still; [done..|by intros|by apply K2]|by apply Hfree].
  - injection E as <- <- <-. unfold read in *. split; cbn [shadows set_shadows accepted uploaded reading]; try done.
    + by apply remove_ok.
    + intros p' Hp. by rewrite read_remove, decide_False.
    + right. right. by rewrite read_remove, decide_True.
  - destruct (shReadAll (pathOf (cq s) e) (shadows (wd s))) as [b|] eqn:Eb; injection E as <- <- <-; [|by apply Hfree].
    apply effect_still; [done..|intros b' [= <-]; by right; right|done].
  - destruct (aStat a); injection E as <- <- <-; [|by apply Hfree]. apply effect_still; [done..|intros b' Hb'; by apply K1|done].
  - cbn in Hh. destruct (aServer a) as [c|]; [|injection E as <- <- <-; by apply Hfree].
    case_bool_decide as Ec; injection E as <- <- <-.
    + apply effect_still; [done..|by intros|]. intros _ b Hb. subst c.
      destruct (K1 _ eq_refl) as [K|[K|K]]; rewrite K in Hb; simplify_eq; auto.
    + apply effect_still; [done..|intros b' Hb'; by apply K1|done].
  - destruct (isEntryCanceled (cq s) e); injection E as <- <- <-; [by apply Hfree|].
    apply effect_still; [done..|intros b' Hb'; by apply K1|done].
  - injection E as <- <- <-. destruct (upload_accepts (aUpload a) (remotePath (cq s) (pathOf (cq s) e)) localData (wd s)) as (U1 & U2 & U3).
    apply effect_still; [done..|by destruct (aUpload a)|]. intros Hu b Hb. destruct (aUpload a) eqn:Ea; try done.
    destruct (K1 _ eq_refl) as [K|[K|K]]; rewrite K in Hb; simplify_eq; auto.
Qed.


Lemma advance_entries a now pt q (w : world S I) q' w' pt' : advance a now pt q w = (q', w', pt') -> entries q' = entries q.
Proof.
  intros E. destruct pt; expand E; unfold streamed, removeFromQueue in *; cbn zeta in E; repeat case_match; by simplify_eq.
Qed.

Lemma moves_held now q pt q' pt' e : moves now q pt q' pt' -> held pt = Some e -> held pt' = None \/ held pt' = Some e.
Proof.
  intros [e' ch -> | -> _ _ |e' f pt1 Ho Ho' _|e' pt1 Ho Hpt|e' f -> |e' _ Ho] He; try done; auto.
  - right. apply owed_held in Ho, Ho'. congruence.
  - destruct Hpt as [-> | ->]; [by left|right]. apply owed_held in Ho. cbn. congruence.
Qed.

Lemma remotePath_root q q' p : remoteRoot q' = remoteRoot q -> remotePath q' p = remotePath q p.
Proof. unfold remotePath. by intros ->. Qed.

(** Bytes that a step of the workers takes away are on the server. *)
Definition spares (s s' : sys S I) : Prop :=
  forall p b, read s p = Some b -> read s' p = Some b \/ b = [] \/ stored s p b.

Lemma thread_bytes a t now pt s : bytesOk s -> threads s !! t = Some (now, pt) -> enabled (cq s) now pt = true -> honest a s pt ->
  bytesOk (runThread a t s) /\ spares s (runThread a t s).
Proof.
  intros [Hs Hok Hk] Ht En Hh. pose proof (thread_ok a t now pt s Hs Ht En) as Hs'. revert Hs'. unfold runThread. rewrite Ht.
  destruct (advance a now pt (cq s) (wd s)) as [[q w] pt'] eqn:E. intros Hs'.
  assert (moves now (cq s) pt q pt') as Hm.
  { eapply advance_moves; [done|done|by eapply (s_counted _ Hs)|intros e He; by eapply thread_heap]. }
  pose proof (advance_entries _ _ _ _ _ _ _ _ E) as Een. destruct (advance_static _ _ _ _ _ _ _ _ E) as (_ & _ & Er).
  set (s' := {| cq := q; wd := w; threads := _; cancels := _ |}) in *.
  assert (forall x, pathOf q x = pathOf (cq s) x) as Hpath by (intros x; unfold pathOf; by rewrite Een).
  assert (forall x, remotePath q x = remotePath (cq s) x) as Hrp by (intros x; by apply remotePath_root).
  destruct (held pt) as [e|] eqn:He.
  - assert (forall x, entries (cq s) !! e = Some x -> Path x = pathOf (cq s) e) as Hpx by (intros x Hx; unfold pathOf; by rewrite Hx).
    pose proof (advance_bytes _ _ _ _ _ _ _ _ E Hok He Hpx (Hk _ _ _ _ Ht He) Hh) as F.
    assert (forall p c, stored s p c -> stored s' p c) as Hst.
    { intros p c Hc. unfold stored in *. cbn. rewrite Hrp. by apply (e_accepted _ _ _ _ _ F). }
    split; [split; [done|apply F|]|].
    + intros t1 n1 p1 e1 [[-> [= -> ->]]|[Hne Ht1]]%(moved_threads t now pt' q w s) He1; cbn [cq s']; rewrite Hpath.
      * destruct (moves_held _ _ _ _ _ _ Hm He) as [Hn|Hn]; [congruence|]. assert (e1 = e) as -> by congruence.
        split; unfold read, stored; cbn [wd cq s']; [apply F|]. rewrite Hrp. apply F.
      * apply (known_mono s); [by eapply Hk|intros b; apply Hst|]. unfold read at 1 3 5. cbn [wd s'].
        destruct (decide (pathOf (cq s) e1 = pathOf (cq s) e)) as [Heq|Hneq]; [|left; by apply (e_others _ _ _ _ _ F)].
        rewrite Heq. destruct (e_own _ _ _ _ _ F) as [?|[?|[_ ?]]]; auto.
    + intros p b Hb. unfold read at 1. cbn [wd s']. destruct (decide (p = pathOf (cq s) e)) as [->|Hneq].
      * destruct (e_own _ _ _ _ _ F) as [Ho|[[Ho _]|[Hu _]]]; [left; congruence|congruence|right].
        destruct (Hk _ _ _ _ Ht He) as [_ K2]. by apply K2.
      * left. rewrite (e_others _ _ _ _ _ F) by done. done.
  - assert (w = wd s) as ->.
    { destruct pt; try done; cbn in E; destruct (workCh (cq s)); by simplify_eq. }
    split; [split; [done|done|]|intros p b Hb; by left].
    intros t1 n1 p1 e1 [[-> [= -> ->]]|[Hne Ht1]]%(moved_threads t now pt' q (wd s) s) He1; cbn [cq s']; rewrite Hpath.
    + destruct pt; try done; cbn in E; destruct (workCh (cq s)); simplify_eq; try (destruct (stopped _)); by apply known_free.
    + apply (known_mono s); [by eapply Hk| |by left]. intros b Hb. unfold stored in *. cbn. by rewrite Hrp.
Qed.

Lemma work_bytes s s' : bytesOk s -> workStep s s' -> bytesOk s' /\ spares s s'.
Proof.
  intros Hb [a t now pt Ht En Hh|q E]; [by eapply thread_bytes|].
  pose proof (send_ok q s (b_sys _ Hb) E) as Hs'. unfold finishSend in E. repeat case_match; simplify_eq.
  split; [|intros p b ?; by left]. split; [done|apply Hb|]. intros t now pt e Ht He. by apply (b_known _ Hb t now pt e).
Qed.

(** Calls leave the paths of entries, the server's log and the threads as they were. *)
Lemma call_frame s s' : callStep write s s' -> sysOk s ->
  (forall e, 0 < e < nextEntry (cq s) -> pathOf (cq s') e = pathOf (cq s) e) /\ accepted (wd s) ⊆ accepted (wd s')
  /\ (forall t x, threads s' !! t = Some x -> threads s !! t = Some x \/ exists e, x = (true, WUpload e None))
  /\ (shOk (shadows (wd s)) -> shOk (shadows (wd s'))).
Proof.
  intros H Hs. assert (forall e, e < nextEntry (cq s) -> e <> nextEntry (cq s)) as Hne by lia.
  destruct H as [x Hq|x t Ht|p|p|p|p l|  |p b|ix|rp b]; cbn; split_and!; auto; try set_solver.
  - intros e He. unfold Enqueue. repeat case_match; try done; unfold pathOf; cbn; by rewrite lookup_insert_ne by lia.
  - intros e He. unfold pathOf. cbn. by rewrite lookup_insert_ne by lia.
  - intros t' y [[<- <-]|[_ ?]]%lookup_insert_Some; eauto.
  - intros e _. destruct (cancelPath_ok p (cq s) (s_queue _ Hs)) as [_ C]. apply C.
  - intros e _. destruct (cancelPath_ok p (cq s) (s_queue _ Hs)) as [_ C]. apply C.
  - intros e _. destruct (cancelPrefix_ok p (cq s) (s_queue _ Hs)) as [_ C]. apply C.
  - apply remove_ok.
  - apply write_ok.
Qed.

Lemma call_bytes s s' : bytesOk s -> callStep write s s' -> (forall p, busy s p -> read s' p = read s p \/ read s' p = None) -> bytesOk s'.
Proof.
  intros [Hs Hok Hk] H Hcalm. destruct (call_frame _ _ H Hs) as (F1 & F2 & F3 & F4).
  destruct (step_static s s' (or_intror H) Hs) as (_ & _ & Er & _). split; [by eapply sysStep_ok; [right|]|auto|].
  intros t now pt e Ht He. destruct (F3 _ _ Ht) as [Ht0|[e' [= -> ->]]]; [|by apply known_free].
  rewrite F1 by (by eapply (s_heldHeap _ Hs)).
  destruct (decide (is_Some (reading pt) \/ uploaded pt = true)) as [Hb|Hb].
  - apply (known_mono s); [by eapply Hk|intros b Hst; unfold stored in *; rewrite (remotePath_root (cq s)) by done; auto|].
    destruct (Hcalm (pathOf (cq s) e)) as [?|?]; [by exists t, now, pt, e|auto..].
  - apply known_free; [apply eq_None_not_Some; tauto|destruct (uploaded pt); tauto].
Qed.

(** C9: the commit queue does not lose local bytes. As long as the file system does not
    write to a path between the moment a worker has read its shadow and the moment the
    worker is done with it, then whatever the interleaving of workers, enqueues,
    cancellations and restarts of uploads, and whatever the server answers - errors,
    conflicts, stored uploads whose answer is lost - a step of a worker leaves the shadow
    of every path as it is, unless it is empty or the server has stored exactly its bytes
    under the path's remote path. *)
Theorem commit_keeps_bytes max root n sh ix st s s' : shOk sh -> rtc calmStep (initial max root n sh ix st) s -> workStep s s' ->
  forall p b, shReadAll p (shadows (wd s)) = Some b ->
    shReadAll p (shadows (wd s')) = Some b \/ b = [] \/ (remotePath (cq s) p, b) ∈ accepted (wd s).
Proof.
  intros Hsh Hr Hw. assert (forall s s', rtc calmStep s s' -> bytesOk s -> bytesOk s') as Hrun.
  { intros ? ? R. induction R as [|x y z [Hx|[Hx Hc]] _ IH]; [done|..]; intros Hb; apply IH; [by apply (work_bytes x)|by eapply call_bytes]. }
  apply work_bytes in Hw as [_ Hw]; [apply Hw|]. eapply Hrun; [done|]. split; [apply sysOk_initial|done|].
  intros t now pt e Ht He. cbn [initial threads] in Ht. apply workersOf_lookup in Ht. by simplify_eq.
Qed.
End system.

End CommitProps.
