(* ===== verification/CommitRun.v ===== *)
(** * The commit queue over the shadow store

    The local stores of [Shadow] and [PendingIndex] behind the interfaces of
    [CommitQueue], with the proof that the shadow store keeps the promises the queue
    relies on, and runs of the composed system: witnesses of the theorems of
    [CommitProps], and what happens outside their hypotheses. *)

From S2P Require Import Prelude GoStrings PathUtil Sha256 WriteBuffer Shadow ShadowProps PendingIndex CommitQueue CommitProps.

Import CommitQueue CommitProps.

Module CommitRun.

(** ** The stores *)

Section stores.
Context (hash : string -> string).
Hypothesis hash_inj : forall p q, hash p = hash q -> p = q.
Hypothesis hash_nodot : forall p, ShadowProps.nodot (hash p) = true.

Definition readShadow (p : string) (s : Shadow.ShadowStore) : option bytes :=
  match Shadow.ReadAll hash p s with inl b => Some b | inr _ => None end.

#[local] Instance shadowOps : ShadowOps Shadow.ShadowStore := {
  shReadAll := readShadow;
  shHas := Shadow.Has hash;
  shSync := Shadow.Sync hash;
  shRemove := Shadow.Remove hash true
}.

(** A write of the whole file. *)
Definition writeShadow (p : string) (b : bytes) (s : Shadow.ShadowStore) : Shadow.ShadowStore :=
  fst (Shadow.WriteFull hash p b 0 s).

Definition storeOk (s : Shadow.ShadowStore) : Prop := exists v, ShadowProps.refines hash s v.

Lemma readShadow_cont s v p : ShadowProps.refines hash s v -> readShadow p s = fst <$> ShadowProps.cont v !! p.
Proof.
  intros R. pose proof (ShadowProps.query_refines hash s v p R) as Q. unfold readShadow.
  destruct (ShadowProps.cont v !! p) as [[b r]|]; destruct Q as (-> & _); done.
Qed.

Lemma sync_refines s v p : ShadowProps.refines hash s v -> ShadowProps.refines hash (Shadow.Sync hash p s) (ShadowProps.touch p 0 v).
Proof using hash_inj hash_nodot.
  intros R. unfold Shadow.Sync. destruct (Shadow.ensureShadowFile hash p 0 s) as [s' ptr] eqn:E.
  by apply (ShadowProps.ensure_refines hash hash_inj hash_nodot s v p 0 s' ptr).
Qed.

Lemma touch_cont p q v : fst <$> ShadowProps.cont (ShadowProps.touch p 0 v) !! q
  = if decide (q = p) then Some (default [] (fst <$> ShadowProps.cont v !! p)) else fst <$> ShadowProps.cont v !! q.
Proof.
  unfold ShadowProps.touch, ShadowProps.put. destruct (decide (q = p)) as [->|Hne].
  - destruct (ShadowProps.cont v !! p) as [[b r]|]; cbn; by rewrite lookup_insert_eq.
  - destruct (default _ _). cbn. by rewrite lookup_insert_ne.
Qed.

Lemma specRemove_cont p v : ShadowProps.cont (ShadowProps.specRemove p v) = delete p (ShadowProps.cont v).
Proof. unfold ShadowProps.specRemove. by repeat case_match. Qed.

(** The shadow store is what the queue takes it for. *)
#[local] Instance shadowLaws : ShadowLaws writeShadow.
Proof using hash_inj hash_nodot.
  refine {| shOk := storeOk |}.
  - intros p s [v R]. exists (ShadowProps.touch p 0 v). by apply sync_refines.
  - intros p s [v R]. exists (ShadowProps.specRemove p v). by apply (ShadowProps.remove_refines hash hash_inj hash_nodot).
  - intros p b s [v R]. destruct (ShadowProps.writeFull_refines hash hash_inj hash_nodot s v p b 0 R) as (s' & E & R').
    unfold writeShadow. rewrite E. by eexists.
  - intros p q s [v R]. cbn. rewrite (readShadow_cont _ _ q (sync_refines s v p R)), !(readShadow_cont s v) by done. apply touch_cont.
  - intros p q s [v R]. cbn.
    rewrite (readShadow_cont _ _ q (ShadowProps.remove_refines hash hash_inj hash_nodot s v p R)), specRemove_cont, (readShadow_cont s v) by done.
    destruct (decide (q = p)) as [->|Hne]; [by rewrite lookup_delete_eq|by rewrite lookup_delete_ne].
  - intros p b q s [v R]. destruct (ShadowProps.writeFull_refines hash hash_inj hash_nodot s v p b 0 R) as (s' & E & R').
    unfold writeShadow. rewrite E. cbn. rewrite (readShadow_cont _ _ q R'), (readShadow_cont s v) by done. cbn.
    destruct (decide (q = p)) as [->|Hne]; [by rewrite lookup_insert_eq|by rewrite lookup_insert_ne].
Defined.

(** The pending index; its file is removed without an error. *)
Definition indexOps {codec : Pending.MetaCodec} : IndexOps Pending.PendingIndex := {|
  ixPaths := Pending.ListPendingPaths;
  ixMeta := fun p ix => Pending.GetMeta ix p;
  ixRemove := fun p ix => Pending.Remove hash ix p true;
  ixMarkConflict := fun ok p ix => Pending.MarkConflict hash ix p ok
|}.

End stores.


(** ** Runs *)

Definition hash : string -> string := Sha256.hexEncode.

#[local] Instance demoShadow : ShadowOps Shadow.ShadowStore := shadowOps hash.
#[local] Instance demoIndex : IndexOps Pending.PendingIndex := indexOps hash (codec := Pending.bitMetaCodec).
#[local] Instance demoLaws : ShadowLaws (writeShadow hash) := shadowLaws hash Sha256.hexEncode_inj ShadowProps.hexEncode_nodot.

Abbreviation system := (sys Shadow.ShadowStore Pending.PendingIndex).

(** What happens in a run: threads by number, and the calls. *)
Inductive action :=
  | DoThread (t : Z) (a : answers)
  | DoEnqueue (x : CommitEntry)
  | DoCancel (p : string)
  | DoRemoveLocal (p : string)
  | DoWrite (p : string) (b : bytes).

Definition perform (s : system) (c : action) : option system :=
  match c with
  | DoThread t a =>
      match threads s !! t with
      | Some (now, pt) =>
          if enabled (cq s) now pt && match pt with WFetch _ _ _ => bool_decide (aServer a = None) | _ => true end
          then Some (runThread a t s) else None
      | None => None
      end
  | DoEnqueue x =>
      if bool_decide (sending (cq s) = None) && negb (canceled x) then Some (set_cq (fst (Enqueue x (cq s))) s) else None
  | DoCancel p =>
      if bool_decide (sending (cq s) = None) then Some (set_cancels (p :: cancels s) (set_cq (cancelPath p (cq s)) s)) else None
  | DoRemoveLocal p =>
      match cancels s with
      | p' :: l => if bool_decide (p = p') then Some (set_cancels l (removeLocal p s)) else None
      | [] => None
      end
  | DoWrite p b => Some (set_wd (set_shadows (writeShadow hash p b (shadows (wd s))) (wd s)) s)
  end.

Fixpoint runActions (s : system) (l : list action) : option system :=
  match l with [] => Some s | c :: l => perform s c ≫= fun s => runActions s l end.

Lemma perform_step s c s' : perform s c = Some s' -> step (writeShadow hash) s s'.
Proof.
  destruct c as [t a|x|p|p|p b]; cbn; intros E.
  - destruct (threads s !! t) as [[now pt]|] eqn:Ht; [|done]. destruct (enabled (cq s) now pt) eqn:En; [|done].
    left. destruct (match pt with WFetch _ _ _ => _ | _ => _ end) eqn:Eh; [|done]. injection E as <-.
    apply (ws_thread s a t now pt Ht En). destruct pt; try done. cbn in *. apply bool_decide_eq_true in Eh. by rewrite Eh.
  - case_bool_decide; [|done]. destruct (canceled x) eqn:Ec; [done|]. injection E as <-. right. by apply cs_enqueue.
  - case_bool_decide; [|done]. injection E as <-. right. by apply cs_cancel.
  - destruct (cancels s) as [|p' l] eqn:El; [done|]. case_bool_decide; [|done]. injection E as <-. subst. right.
    apply cs_removeLocal. by rewrite El.
  - injection E as <-. right. by apply cs_write.
Qed.

Lemma runActions_steps l s s' : runActions s l = Some s' -> rtc (step (writeShadow hash)) s s'.
Proof.
  revert s. induction l as [|c l IH]; intros s E; cbn in E; [injection E as <-; apply rtc_refl|].
  destruct (perform s c) as [s1|] eqn:E1; [|done]. eapply rtc_l; [by apply (perform_step s c)|by apply IH].
Qed.

(** Threads and enqueues do not write to a shadow of their own. *)
Definition calm (c : action) : bool := match c with DoThread _ _ | DoEnqueue _ => true | _ => false end.

Lemma runActions_calm l s s' : forallb calm l = true -> runActions s l = Some s' -> rtc (calmStep (writeShadow hash)) s s'.
Proof.
  revert s. induction l as [|c l IH]; intros s Hc E; cbn in E, Hc; [injection E as <-; apply rtc_refl|].
  apply andb_prop in Hc as [Hc Hcl]. destruct (perform s c) as [s1|] eqn:E1; [|done]. eapply rtc_l; [|by apply IH].
  pose proof (perform_step s c s1 E1) as H. destruct c as [t a|x| | |]; try done.
  - cbn in E1. left. destruct (threads s !! t) as [[now pt]|] eqn:Ht; [|done]. destruct (enabled (cq s) now pt) eqn:En; [|done].
    destruct (match pt with WFetch _ _ _ => _ | _ => _ end) eqn:Eh; [|done]. injection E1 as <-.
    apply (ws_thread s a t now pt Ht En). destruct pt; try done. cbn in *. apply bool_decide_eq_true in Eh. by rewrite Eh.
  - cbn in E1. case_bool_decide; [|done]. destruct (canceled x) eqn:Ec; [done|]. injection E1 as <-.
    right. split; [by apply cs_enqueue|]. intros p _. by left.
Qed.

(** *** Witnesses *)

Definition entryOf (p : string) (size : Z) : CommitEntry :=
  {| Path := p; Inode := 0; BaseRev := 0; Size := size; Kind := Pending.PendingNew; ShadowSpill := false; canceled := false |}.
Definition ok : answers :=
  {| aSlept := true; aUpload := UpOk; aStat := None; aServer := None; aJournal := true; aMark := true; aThreshold := 100 |}.
Definition failing : answers :=
  {| aSlept := true; aUpload := UpErr false; aStat := None; aServer := None; aJournal := true; aMark := true; aThreshold := 100 |}.

(** A mount of [/data] with two files staged. *)
Definition shadow0 : Shadow.ShadowStore :=
  writeShadow hash "/b" [x02] (writeShadow hash "/a" [x01] (Shadow.NewShadowStore ShadowProps.emptyDisk)).
Definition index0 : Pending.PendingIndex := Pending.NewPendingIndex ∅.
Definition start (max : Z) (n : nat) : system := initial max "/data" n shadow0 index0 [].

Lemma shadow0_ok : storeOk hash shadow0.
Proof.
  pose proof (ShadowProps.refines_empty hash) as R.
  destruct (ShadowProps.writeFull_refines hash Sha256.hexEncode_inj ShadowProps.hexEncode_nodot _ _ "/a" [x01] 0 R) as (s1 & E1 & R1).
  destruct (ShadowProps.writeFull_refines hash Sha256.hexEncode_inj ShadowProps.hexEncode_nodot _ _ "/b" [x02] 0 R1) as (s2 & E2 & R2).
  unfold shadow0, writeShadow. rewrite E1. cbn [fst]. rewrite E2. by eexists.
Qed.

Lemma shadow0_shOk : shOk (writeShadow hash) shadow0.
Proof. exact shadow0_ok. Qed.

Lemma start_reachable max n l s : runActions (start max n) l = Some s -> reachable (writeShadow hash) max "/data" n s.
Proof. intros E. exists shadow0, index0, []. by eapply runActions_steps. Qed.

Definition run (max : Z) (n : nat) (l : list action) : system := default (start max n) (runActions (start max n) l).

(** A worker in the middle of its upload. *)
Definition uploading : list action :=
  DoEnqueue (entryOf "/a" 1) :: replicate 7 (DoThread 0 ok).

Lemma queue_sound_witness : let s := run 100 2 uploading in
  HasPath "/a" (cq s) = true /\ HasPath "/b" (cq s) = false /\ zlen (queue (cq s)) <= maxPending (cq s).
Proof.
  split_and!; [by vm_compute..|].
  apply (queue_sound (writeShadow hash) 100 "/data" 2). apply (start_reachable 100 2 uploading). by vm_compute.
Defined.

Lemma workers_drain_witness : let s := run 100 2 uploading in
  (forall k s', nsteps workStep k s s' -> Z.of_nat k <= 46) /\ queue (cq s) = [1].
Proof.
  assert (reachable (writeShadow hash) 100 "/data" 2 (run 100 2 uploading)) as R.
  { apply (start_reachable 100 2 uploading). by vm_compute. }
  split; [|by vm_compute]. intros k s' Hk. transitivity (measure (run 100 2 uploading)).
  - by apply (proj1 (workers_drain (writeShadow hash) 100 "/data" 2 _ R) k s').
  - by vm_compute.
Defined.

Lemma commit_keeps_bytes_witness : let s := run 100 2 (uploading ++ [DoThread 0 ok; DoThread 0 ok; DoThread 0 ok]) in
  let s' := runThread ok 0 s in
  shReadAll "/a" (shadows (wd s')) = None
  /\ (shReadAll "/a" (shadows (wd s')) = Some [x01] \/ [x01] = [] \/ ("/data/a", [x01]) ∈ accepted (wd s)).
Proof.
  cbv zeta. set (l := uploading ++ [DoThread 0 ok; DoThread 0 ok; DoThread 0 ok]). split; [by vm_compute|].
  apply (commit_keeps_bytes (writeShadow hash) 100 "/data" 2 shadow0 index0 [] (run 100 2 l) (runThread ok 0 (run 100 2 l)) shadow0_shOk).
  - apply (runActions_calm l); by vm_compute.
  - apply (ws_thread _ ok 0 false (WRmShadow 1)); by vm_compute.
  - by vm_compute.
Defined.

(** *** Outside the hypotheses *)

Definition readOf (s : system) (p : string) : option bytes := shReadAll p (shadows (wd s)).

(** The file system writes to a path while its bytes are being uploaded: the worker then
    removes the shadow, and with it bytes that no one has. *)
Lemma write_during_upload_lost :
  let s := run 100 2 (uploading ++ [DoWrite "/a" [x09]] ++ replicate 4 (DoThread 0 ok)) in
  readOf s "/a" = None /\ accepted (wd s) = [("/data/a", [x01])].
Proof. vm_compute. done. Qed.

(** The second entry of a path whose upload streams from the shadow: the first one has
    removed the shadow, the sync makes an empty one, and the empty file is uploaded. *)
Definition streamEntry : CommitEntry :=
  {| Path := "/a"; Inode := 0; BaseRev := 1; Size := 1; Kind := Pending.PendingOverwrite; ShadowSpill := true; canceled := false |}.
Lemma stream_uploads_empty :
  let s := run 100 2 ([DoEnqueue (entryOf "/a" 1); DoEnqueue streamEntry] ++ replicate 14 (DoThread 0 ok) ++ replicate 8 (DoThread 1 ok)) in
  accepted (wd s) = [("/data/a", []); ("/data/a", [x01])].
Proof. vm_compute. done. Qed.

(** Two entries of a path are in flight and the path is canceled: when the second one is
    done, [HasPath] answers no, although the first one's upload is under way and succeeds
    after that. *)
Definition hidden : list action :=
  [DoEnqueue (entryOf "/a" 1)] ++ replicate 7 (DoThread 0 ok) ++ [DoEnqueue (entryOf "/a" 1)] ++ replicate 4 (DoThread 1 ok)
  ++ [DoCancel "/a"; DoRemoveLocal "/a"] ++ replicate 3 (DoThread 1 ok).
Lemma canceled_upload_hidden :
  HasPath "/a" (cq (run 100 2 hidden)) = false /\ accepted (wd (run 100 2 hidden)) = []
  /\ accepted (wd (run 100 2 (hidden ++ [DoThread 0 ok]))) = [("/data/a", [x01])].
Proof. vm_compute. done. Qed.

(** A worker is busy with a long upload while a file is created and deleted again and
    again: the canceled entries stay in the channel, which fills up although one entry is
    queued; the next [Enqueue] waits for room with the mutex held, which the worker needs
    when its upload ends.  Nothing can happen any more. *)
Definition churn : list action :=
  [DoEnqueue (entryOf "/b" 1)] ++ replicate 7 (DoThread 0 ok)
  ++ mjoin (replicate 256 [DoEnqueue (entryOf "/a" 0); DoCancel "/a"; DoRemoveLocal "/a"])
  ++ [DoEnqueue (entryOf "/a" 0); DoThread 0 ok].
Lemma enqueue_deadlocks :
  let s := run 100 1 churn in
  zlen (queue (cq s)) = 2 /\ is_Some (sending (cq s)) /\ zlen (workCh (cq s)) = bufSize (cq s)
  /\ map_to_list (threads s) = [(0, (false, WSent 1))] /\ enabled (cq s) false (WSent 1) = false
  /\ finishSend (cq s) = None.
Proof. vm_compute. eauto 10. Qed.

Lemma stuck_here (s s' : system) t now pt : map_to_list (threads s) = [(t, (now, pt))] -> enabled (cq s) now pt = false ->
  finishSend (cq s) = None -> ~ workStep s s'.
Proof.
  intros Ht En Ef H. inversion H as [a t' now' pt' Hl E _|q E]; [|congruence].
  apply elem_of_map_to_list in Hl. rewrite Ht in Hl. apply list_elem_of_singleton in Hl. simplify_eq. congruence.
Qed.

Lemma enqueue_deadlocks_forever s' : ~ workStep (run 100 1 churn) s'.
Proof. destruct enqueue_deadlocks as (_ & _ & _ & Ht & En & Ef). exact (stuck_here _ s' _ _ _ Ht En Ef). Qed.

(** Recovery after a restart: entries beyond the limit of the queue are passed over, and
    stay pending until the next restart. *)
Definition metaOf (p : string) : Pending.WriteBackMeta :=
  {| Pending.Path := p; Pending.Size := 1; Pending.Mtime := 0; Pending.CreatedAt := 0; Pending.Generation := 1;
     Pending.Kind := Pending.PendingNew; Pending.BaseRev := 0; Pending.ShadowSpill := false |}.
Lemma recovery_stops_at_limit :
  let ix := {| Pending.items := <["/a" := metaOf "/a"]> {["/b" := metaOf "/b"]}; Pending.dir := ∅; Pending.nextGen := 1 |} in
  let '(q, ix') := RecoverPending (fun _ => ["/a"; "/b"]) shadow0 ix (NewCommitQueue 1 "/") in
  HasPath "/a" q = true /\ HasPath "/b" q = false /\ Pending.GetMeta ix' "/b" = Some (metaOf "/b").
Proof. vm_compute. done. Qed.

(** An upload that fails five times is kept aside: the shadow stays, and the entry leaves
    the queue. *)
Lemma failed_upload_kept :
  let s := run 100 1 (uploading ++ replicate 31 (DoThread 0 failing)) in
  queue (cq s) = [] /\ readOf s "/a" = Some [x01] /\ accepted (wd s) = [] /\ threads s !! 0 = Some (false, WIdle).
Proof. vm_compute. done. Qed.
End CommitRun.
