(* ===== verification/AesGcm.v ===== *)
(** * AES-256-GCM and base64url

    The parts of Go's [crypto/aes], [crypto/cipher] and [encoding/base64] the vault uses:
    AES with a 32-byte key, Galois/counter mode with 12-byte nonces, 16-byte tags and no
    additional data, and unpadded URL-safe base64.  Bytes are numbers below 256, byte
    strings are [string].  Sealed text opens again and encoded text decodes again;
    nothing is assumed about how hard either is to forge. *)

From Stdlib Require Import Strings.Ascii.
From S2P Require Import Prelude GoStrings Sha256.

Import GoStr Sha256.

Module Gcm.

(** ** The field of 256 elements *)

Definition xtime (b : Z) : Z := let d := 2 * b in if 256 <=? d then Z.lxor d 0x11b else d.

Fixpoint gmulLoop (n : nat) (a b : Z) : Z :=
  match n with
  | O => 0
  | S n => Z.lxor (if Z.odd b then a else 0) (gmulLoop n (xtime a) (Z.shiftr b 1))
  end.
Definition gmul : Z -> Z -> Z := gmulLoop 8.

(** The inverse is the 254th power. *)
Definition ginv (a : Z) : Z := Nat.iter 254 (gmul a) 1.

Definition rotl8 (x n : Z) : Z := Z.land (Z.lor (Z.shiftl x n) (Z.shiftr x (8 - n))) 255.
Definition sboxOf (x : Z) : Z :=
  let b := ginv x in
  Z.lxor (Z.lxor (Z.lxor b (rotl8 b 1)) (Z.lxor (rotl8 b 2) (rotl8 b 3))) (Z.lxor (rotl8 b 4) 0x63).
Definition sbox : list Z := Eval vm_compute in sboxOf ∘ Z.of_nat <$> seq 0 256.
Definition subByte (x : Z) : Z := nth (Z.to_nat x) sbox 0.

(** ** AES *)

Definition xorBytes (a b : list Z) : list Z := zip_with (fun x y => Z.land (Z.lxor x y) 255) a b.

Definition rotWord (w : list Z) : list Z := match w with a :: w => w ++ [a] | [] => [] end.

(** The next word of the key schedule, from the words so far, the last one first. *)
Definition nextKey (ws : list (list Z)) : list (list Z) :=
  let i := length ws in
  let last := nth 0 ws [] in
  let t :=
    if Nat.eqb (i mod 8) 0
    then xorBytes (subByte <$> rotWord last) [Nat.iter (i / 8 - 1) xtime 1; 0; 0; 0]
    else if Nat.eqb (i mod 8) 4 then subByte <$> last else last in
  xorBytes (nth 7 ws []) t :: ws.

Fixpoint chunks (fuel n : nat) (l : list Z) : list (list Z) :=
  match fuel, l with
  | S fuel, _ :: _ => take n l :: chunks fuel n (drop n l)
  | _, _ => []
  end.

(** The fifteen round keys. *)
Definition keySchedule (key : list Z) : list (list Z) :=
  let ws := reverse (Nat.iter 52 nextKey (reverse (chunks 8 4 key))) in
  chunks 15 16 (mjoin ws).

Definition shiftRows (st : list Z) : list Z := (fun i => nth (5 * i mod 16) st 0) <$> seq 0 16.

Definition mixColumn (c : list Z) : list Z :=
  match c with
  | [a; b; c; d] =>
      let m x y z w := Z.lxor (Z.lxor (gmul x 2) (gmul y 3)) (Z.lxor z w) in
      [m a b c d; m b c d a; m c d a b; m d a b c]
  | _ => c
  end.
Definition mixColumns (st : list Z) : list Z := mjoin (mixColumn <$> chunks 4 4 st).

Fixpoint aesRounds (st : list Z) (ks : list (list Z)) : list Z :=
  match ks with
  | [] => st
  | [k] => xorBytes (shiftRows (subByte <$> st)) k
  | k :: ks => aesRounds (xorBytes (mixColumns (shiftRows (subByte <$> st))) k) ks
  end.

(** The block cipher of [aes.NewCipher]. *)
Definition aesBlock (ks : list (list Z)) (block : list Z) : list Z :=
  match ks with [] => block | k :: ks => aesRounds (xorBytes block k) ks end.

(** ** Galois/counter mode *)

(** Multiplication in the field of [2^128] elements, the first bit the highest. *)
Fixpoint gfMulLoop (n : nat) (x v acc : Z) : Z :=
  match n with
  | O => acc
  | S n =>
      let acc := if Z.testbit x (Z.of_nat n) then Z.lxor acc v else acc in
      let v' := Z.shiftr v 1 in
      gfMulLoop n x (if Z.odd v then Z.lxor v' (Z.shiftl 0xe1 120) else v') acc
  end.
Definition gfMul (x y : Z) : Z := gfMulLoop 128 x y 0.

Definition blockZ (b : list Z) : Z :=
  foldl (fun acc x => acc * 256 + x) 0 (b ++ replicate (16 - length b) 0).

Definition ghash (h : Z) (ct : list Z) : Z :=
  let y := foldl (fun y b => gfMul (Z.lxor y (blockZ b)) h) 0 (chunks (length ct) 16 ct) in
  gfMul (Z.lxor y (8 * zlen ct)) h.

(** The block of a counter. *)
Definition counterBlock (nonce : list Z) (n : Z) : list Z := nonce ++ bigEndian 4 n.

(** As many bytes of key stream as the text has, from the second counter on. *)
Definition keyStream (ks : list (list Z)) (nonce : list Z) (len : nat) : list Z :=
  take len (mjoin ((fun i => aesBlock ks (counterBlock nonce (Z.of_nat i))) <$> seq 2 (len / 16 + 1))).

Definition gcmTag (ks : list (list Z)) (nonce ct : list Z) : list Z :=
  let h := blockZ (aesBlock ks (replicate 16 0)) in
  bigEndian 16 (Z.lxor (ghash h ct) (blockZ (aesBlock ks (counterBlock nonce 1)))).

(** [cipher.AEAD.Seal] without additional data, after the empty slice. *)
Definition gcmSeal (key nonce plain : string) : string :=
  let ks := keySchedule (bytesOf key) in
  let p := bytesOf plain in
  let ct := xorBytes p (keyStream ks (bytesOf nonce) (length p)) in
  stringOf (ct ++ gcmTag ks (bytesOf nonce) ct).

Definition gcmNonceSize : nat := 12.
Definition gcmTagSize : nat := 16.

(** [cipher.AEAD.Open]: [None] when the text is shorter than a tag or the tag differs,
    and for a nonce of another length, where the Go code panics. *)
Definition gcmOpen (key nonce cipher : string) : option string :=
  let ks := keySchedule (bytesOf key) in
  let c := bytesOf cipher in
  if negb (Nat.eqb (String.length nonce) gcmNonceSize) || (length c <? gcmTagSize)%nat then None
  else
    let ct := take (length c - gcmTagSize) c in
    if bool_decide (drop (length c - gcmTagSize) c = gcmTag ks (bytesOf nonce) ct)
    then Some (stringOf (xorBytes ct (keyStream ks (bytesOf nonce) (length ct))))
    else None.

(** The vectors of FIPS 197 (C.3) and of the GCM submission (13 and 14). *)
Example aes_gcm_vectors :
  let zeros n := stringOf (replicate n 0) in
  hexEncode (stringOf (aesBlock (keySchedule (Z.of_nat <$> seq 0 32)) ((fun i => 17 * Z.of_nat i) <$> seq 0 16)))
  = "8ea2b7ca516745bfeafc49904b496089"
  /\ hexEncode (gcmSeal (zeros 32%nat) (zeros 12%nat) "") = "530f8afbc74536b9a963b4f1c4cb738b"
  /\ hexEncode (gcmSeal (zeros 32%nat) (zeros 12%nat) (zeros 16%nat))
     = "cea7403d4d606b6e074ec5d3baf39d18d0d1c8a799996bf0265b98b5d48ab919".
Proof. vm_compute. done. Qed.

(** ** Bytes *)

Definition isByte (x : Z) : Prop := 0 <= x < 256.

Lemma bytesOf_byte s : Forall isByte (bytesOf s).
Proof.
  induction s as [|c s IH]; constructor; [|done]. unfold isByte, code.
  destruct c as [[] [] [] [] [] [] [] []]; simpl; lia.
Qed.

Lemma stringOf_bytesOf s : stringOf (bytesOf s) = s.
Proof.
  induction s as [|c s IH]; [done|]. cbn [bytesOf]. change (stringOf (code c :: bytesOf s))
    with (String (ascii_of_nat (Z.to_nat (code c))) (stringOf (bytesOf s))).
  rewrite IH. f_equal. unfold code, ascii_of_nat.
  replace (N.of_nat (Z.to_nat (Z.of_N (N_of_ascii c)))) with (N_of_ascii c) by lia. apply ascii_N_embedding.
Qed.

Lemma bytesOf_stringOf l : Forall isByte l -> bytesOf (stringOf l) = l.
Proof.
  induction 1 as [|x l Hx _ IH]; [done|].
  change (code (ascii_of_nat (Z.to_nat x)) :: bytesOf (stringOf l) = x :: l). rewrite IH. f_equal.
  unfold code, ascii_of_nat. rewrite N_ascii_embedding; unfold isByte in Hx; lia.
Qed.

Lemma length_bytesOf s : length (bytesOf s) = String.length s.
Proof. induction s as [|c s IH]; [done|]. cbn. by rewrite IH. Qed.

Lemma byte_land x : isByte (Z.land x 255).
Proof. unfold isByte. change 255 with (Z.ones 8). rewrite Z.land_ones by lia. pose proof (Z.mod_pos_bound x (2 ^ 8)). lia. Qed.

Lemma xorBytes_byte a b : Forall isByte (xorBytes a b).
Proof.
  unfold xorBytes. revert b. induction a as [|x a IH]; intros [|y b]; constructor; [apply byte_land|apply IH].
Qed.

Lemma bigEndian_byte n z : Forall isByte (bigEndian n z).
Proof. induction n; constructor; [apply byte_land|done]. Qed.

Lemma length_bigEndian n z : length (bigEndian n z) = n.
Proof. induction n; cbn; congruence. Qed.

Lemma length_xorBytes a b : length a = length b -> length (xorBytes a b) = length a.
Proof. intros H. unfold xorBytes. rewrite length_zip_with. lia. Qed.

(** The second xor undoes the first. *)
Lemma xor_xor x k : isByte x -> Z.land (Z.lxor (Z.land (Z.lxor x k) 255) k) 255 = x.
Proof.
  intros Hx. change 255 with (Z.ones 8). apply Z.bits_inj'. intros n Hn.
  rewrite !Z.land_spec, !Z.lxor_spec, Z.land_spec, Z.lxor_spec, !Z.testbit_ones_nonneg by lia.
  destruct (Z.ltb_spec n 8).
  - by destruct (Z.testbit x n), (Z.testbit k n).
  - rewrite !andb_false_r. symmetry. unfold isByte in Hx.
    destruct (Z.eq_dec x 0) as [->|]; [apply Z.bits_0|].
    apply Z.bits_above_log2; [lia|]. apply Z.log2_lt_pow2; [lia|].
    apply Z.lt_le_trans with (2 ^ 8); [lia|]. apply Z.pow_le_mono_r; lia.
Qed.

Lemma xorBytes_twice p k : Forall isByte p -> (length p <= length k)%nat -> xorBytes (xorBytes p k) k = p.
Proof.
  intros Hp. revert k. induction Hp as [|x p Hx _ IH]; intros [|y k] Hk; try done; [cbn in Hk; lia|].
  cbn. f_equal; [by apply xor_xor|]. apply IH. cbn in Hk. lia.
Qed.

(** ** Lengths *)

Lemma chunks_length fuel n k l : length l = (k * n)%nat -> (k <= fuel)%nat -> (0 < n)%nat ->
  Forall (fun c => length c = n) (chunks fuel n l) /\ length (chunks fuel n l) = k.
Proof.
  revert k l. induction fuel as [|fuel IH]; intros k l Hl Hk Hn.
  { assert (k = 0%nat) as -> by lia. destruct l; [done|]. cbn in Hl. lia. }
  destruct k as [|k]; [destruct l; [done|]; cbn in Hl; lia|].
  destruct l as [|x l]; [cbn in Hl; lia|]. cbn [chunks].
  destruct (IH k (drop n (x :: l))) as [H1 H2]; [rewrite length_drop; lia|lia|done|].
  split; [|cbn; lia]. constructor; [|done]. rewrite length_take. lia.
Qed.

Lemma mjoin_length {A} (l : list (list A)) n : Forall (fun c => length c = n) l ->
  length (mjoin l) = (length l * n)%nat.
Proof. induction 1 as [|c l Hc _ IH]; [done|]. change (length (c ++ mjoin l) = (S (length l) * n)%nat). rewrite length_app, IH. lia. Qed.

Definition word (w : list Z) : Prop := length w = 4%nat.

Lemma nextKey_words ws : Forall word ws -> (8 <= length ws)%nat -> Forall word (nextKey ws).
Proof.
  intros H Hlen. unfold nextKey. constructor; [|done].
  assert (forall i, (i < 8)%nat -> word (nth i ws [])) as Hnth.
  { intros i Hi. apply (proj1 (Forall_forall _ _) H). apply list_elem_of_In, nth_In. lia. }
  unfold word in *. rewrite length_xorBytes; [apply Hnth; lia|]. rewrite Hnth by lia. symmetry.
  specialize (Hnth 0%nat ltac:(lia)). destruct (Nat.eqb _ 0); [|destruct (Nat.eqb _ 4)].
  - rewrite length_xorBytes; rewrite length_fmap; destruct (nth 0 ws []) as [|a w]; cbn in *; rewrite ?length_app; cbn; lia.
  - by rewrite length_fmap.
  - done.
Qed.

Lemma keySchedule_length key : length key = 32%nat ->
  Forall (fun k => length k = 16%nat) (keySchedule key) /\ length (keySchedule key) = 15%nat.
Proof.
  intros Hk. unfold keySchedule.
  destruct (chunks_length 8 4 8 key) as [H1 H2]; [done|lia|lia|].
  assert (forall n, Forall word (Nat.iter n nextKey (reverse (chunks 8 4 key)))
    /\ length (Nat.iter n nextKey (reverse (chunks 8 4 key))) = (8 + n)%nat) as Hn.
  { induction n as [|n [IH1 IH2]]; cbn [Nat.iter nat_rect].
    - rewrite length_reverse, H2. split; [|lia]. by apply Forall_reverse.
    - split; [apply nextKey_words; [done|unfold Nat.iter in IH2; lia]|]. cbn [nextKey length]. unfold Nat.iter in IH2. lia. }
  destruct (Hn 52%nat) as [H3 H4]. apply chunks_length; [|lia|lia].
  rewrite (mjoin_length _ 4); [by rewrite length_reverse, H4|]. by apply Forall_reverse.
Qed.

Lemma mixColumns_length st : length st = 16%nat -> length (mixColumns st) = 16%nat.
Proof.
  intros H. unfold mixColumns. destruct (chunks_length 4 4 4 st) as [H1 H2]; [done|lia|lia|].
  rewrite (mjoin_length _ 4); [by rewrite length_fmap, H2|]. apply Forall_fmap.
  eapply Forall_impl; [exact H1|]. intros c Hc. cbn.
  destruct c as [|? [|? [|? [|? [|]]]]]; cbn in *; lia.
Qed.

Lemma shiftRows_length st : length (shiftRows st) = 16%nat.
Proof. unfold shiftRows. by rewrite length_fmap, length_seq. Qed.

Lemma aesRounds_length ks st : Forall (fun k => length k = 16%nat) ks -> length st = 16%nat ->
  length (aesRounds st ks) = 16%nat.
Proof.
  intros H. revert st. induction H as [|k ks Hk Hks IH]; intros st Hst; [done|].
  destruct ks as [|k' ks].
  - cbn [aesRounds]. rewrite length_xorBytes; rewrite shiftRows_length; done.
  - change (length (aesRounds (xorBytes (mixColumns (shiftRows (subByte <$> st))) k) (k' :: ks)) = 16%nat).
    apply IH. rewrite length_xorBytes; rewrite mixColumns_length; try done; apply shiftRows_length.
Qed.

Lemma aesBlock_length key b : length key = 32%nat -> length b = 16%nat ->
  length (aesBlock (keySchedule key) b) = 16%nat.
Proof.
  intros Hk Hb. destruct (keySchedule_length key Hk) as [H1 H2]. unfold aesBlock.
  destruct (keySchedule key) as [|k ks]; [done|]. apply Forall_cons in H1 as [H0 H1].
  apply aesRounds_length; [done|]. rewrite length_xorBytes; lia.
Qed.

Lemma keyStream_length key nonce len : length key = 32%nat -> length nonce = gcmNonceSize ->
  length (keyStream (keySchedule key) nonce len) = len.
Proof.
  intros Hk Hn. unfold keyStream. rewrite length_take, (mjoin_length _ 16).
  - rewrite length_fmap, length_seq. assert (len < (len / 16 + 1) * 16)%nat; [|lia].
    rewrite (Nat.div_mod_eq len 16) at 1. assert (len mod 16 < 16)%nat by (apply Nat.mod_upper_bound; lia). lia.
  - apply Forall_fmap, Forall_forall. intros i _. change (length (aesBlock (keySchedule key) (counterBlock nonce (Z.of_nat i))) = 16%nat). apply aesBlock_length; [done|].
    unfold counterBlock. rewrite length_app, length_bigEndian, Hn. done.
Qed.

(** What was sealed opens to the same text. *)
Lemma gcmOpen_seal key nonce plain : String.length key = 32%nat -> String.length nonce = gcmNonceSize ->
  gcmOpen key nonce (gcmSeal key nonce plain) = Some plain.
Proof.
  intros Hk Hn. unfold gcmOpen, gcmSeal. rewrite Hn, Nat.eqb_refl. cbn [negb orb].
  set (ks := keySchedule (bytesOf key)). set (p := bytesOf plain).
  set (ct := xorBytes p (keyStream ks (bytesOf nonce) (length p))).
  assert (length (keyStream ks (bytesOf nonce) (length p)) = length p) as HL.
  { apply keyStream_length; by rewrite length_bytesOf. }
  assert (length ct = length p) as Hct by (apply length_xorBytes; done).
  rewrite bytesOf_stringOf by (apply Forall_app; split; [apply xorBytes_byte|apply bigEndian_byte]).
  assert (length (gcmTag ks (bytesOf nonce) ct) = gcmTagSize) as Ht by exact (length_bigEndian 16 _).
  rewrite length_app, Ht, Nat.add_sub.
  destruct (Nat.ltb_spec (length ct + gcmTagSize) gcmTagSize); [lia|].
  rewrite take_app_length, drop_app_length, bool_decide_eq_true_2 by done.
  rewrite Hct. unfold ct at 1. rewrite xorBytes_twice; [|apply bytesOf_byte|lia].
  f_equal. apply stringOf_bytesOf.
Qed.

End Gcm.

Module B64.

(** ** [base64.RawURLEncoding] *)

Definition b64Char (n : Z) : ascii :=
  ascii_of_nat (Z.to_nat
    (if n <? 26 then 65 + n else if n <? 52 then 71 + n else if n <? 62 then n - 4
     else if n =? 62 then 45 else 95)).

Definition b64Value (c : ascii) : option Z :=
  let n := code c in
  if (65 <=? n) && (n <=? 90) then Some (n - 65)
  else if (97 <=? n) && (n <=? 122) then Some (n - 71)
  else if (48 <=? n) && (n <=? 57) then Some (n + 4)
  else if n =? 45 then Some 62
  else if n =? 95 then Some 63
  else None.

Fixpoint encodeBytes (l : list Z) : string :=
  match l with
  | a :: b :: c :: l =>
      String (b64Char (a / 4)) (String (b64Char (a mod 4 * 16 + b / 16))
        (String (b64Char (b mod 16 * 4 + c / 64)) (String (b64Char (c mod 64)) (encodeBytes l))))
  | [a; b] =>
      String (b64Char (a / 4)) (String (b64Char (a mod 4 * 16 + b / 16))
        (String (b64Char (b mod 16 * 4)) EmptyString))
  | [a] => String (b64Char (a / 4)) (String (b64Char (a mod 4 * 16)) EmptyString)
  | [] => EmptyString
  end.

Definition EncodeToString (s : string) : string := encodeBytes (bytesOf s).

(** The values of the characters; line breaks are skipped. *)
Fixpoint b64Values (s : string) : option (list Z) :=
  match s with
  | EmptyString => Some []
  | String c s =>
      if (code c =? 10) || (code c =? 13) then b64Values s
      else match b64Value c, b64Values s with Some v, Some l => Some (v :: l) | _, _ => None end
  end.

(** Groups of four; the bits a last short group has too many are ignored. *)
Fixpoint decodeValues (l : list Z) : option (list Z) :=
  match l with
  | a :: b :: c :: d :: l =>
      match decodeValues l with
      | Some r => Some (a * 4 + b / 16 :: b mod 16 * 16 + c / 4 :: c mod 4 * 64 + d :: r)
      | None => None
      end
  | [a; b; c] => Some [a * 4 + b / 16; b mod 16 * 16 + c / 4]
  | [a; b] => Some [a * 4 + b / 16]
  | [_] => None
  | [] => Some []
  end.

Definition DecodeString (s : string) : option string :=
  l ← b64Values s; r ← decodeValues l; Some (stringOf r).

Lemma b64Char_value n : 0 <= n < 64 ->
  b64Value (b64Char n) = Some n /\ (code (b64Char n) =? 10) || (code (b64Char n) =? 13) = false
  /\ code (b64Char n) <> 46.
Proof.
  intros H. assert (exists k, (k < 64)%nat /\ n = Z.of_nat k) as (k & Hk & ->).
  { exists (Z.to_nat n). lia. }
  do 64 (destruct k as [|k]; [by vm_compute|]). lia.
Qed.

Lemma b64Values_char n s : 0 <= n < 64 ->
  b64Values (String (b64Char n) s) = match b64Values s with Some l => Some (n :: l) | None => None end.
Proof. intros H. destruct (b64Char_value n H) as (H1 & H2 & _). cbn [b64Values]. by rewrite H2, H1. Qed.

(** Three bytes at a time. *)
Lemma bytes_ind3 (P : list Z -> Prop) :
  P [] -> (forall a, P [a]) -> (forall a b, P [a; b]) -> (forall a b c l, P l -> P (a :: b :: c :: l)) ->
  forall l, P l.
Proof.
  intros H0 H1 H2 H3. enough (forall l, P l /\ (forall a, P (a :: l)) /\ (forall a b, P (a :: b :: l))) as H.
  { intros l. apply H. }
  induction l as [|c l (IH1 & IH2 & IH3)]; [done|]. split; [apply IH2|split; [intros; apply IH3|intros; by apply H3]].
Qed.

Lemma group3 a b c : Gcm.isByte a -> Gcm.isByte b -> Gcm.isByte c ->
  (0 <= a / 4 < 64 /\ 0 <= a mod 4 * 16 + b / 16 < 64 /\ 0 <= b mod 16 * 4 + c / 64 < 64 /\ 0 <= c mod 64 < 64
   /\ 0 <= a mod 4 * 16 < 64 /\ 0 <= b mod 16 * 4 < 64)
  /\ (a / 4 * 4 + (a mod 4 * 16 + b / 16) / 16 = a
      /\ (a mod 4 * 16 + b / 16) mod 16 * 16 + (b mod 16 * 4 + c / 64) / 4 = b
      /\ (b mod 16 * 4 + c / 64) mod 4 * 64 + c mod 64 = c
      /\ a / 4 * 4 + a mod 4 * 16 / 16 = a
      /\ (a mod 4 * 16 + b / 16) mod 16 * 16 + b mod 16 * 4 / 4 = b).
Proof. unfold Gcm.isByte. intros. Z.to_euclidean_division_equations. lia. Qed.

Lemma byte0 : Gcm.isByte 0.
Proof. unfold Gcm.isByte. lia. Qed.

(** The characters of an encoding are in the alphabet, so none of them is a dot. *)
Lemma encode_values l : Forall Gcm.isByte l -> exists vs,
  b64Values (encodeBytes l) = Some vs /\ decodeValues vs = Some l.
Proof.
  induction l as [|a|a b|a b c l IH] using bytes_ind3; intros H.
  - by exists [].
  - apply Forall_cons in H as [H _]. destruct (group3 a 0 0 H byte0 byte0) as [R E].
    eexists. cbn [encodeBytes]. rewrite !b64Values_char by lia. split; [done|]. cbn. by rewrite (proj1 (proj2 (proj2 (proj2 E)))).
  - apply Forall_cons in H as [Ha Hb]. apply Forall_cons in Hb as [Hb _]. destruct (group3 a b 0 Ha Hb byte0) as [R (E1 & E2 & E3 & E4 & E5)].
    eexists. cbn [encodeBytes]. rewrite !b64Values_char by lia. split; [done|]. cbn. by rewrite E1, E5.
  - apply Forall_cons in H as [Ha H]. apply Forall_cons in H as [Hb H]. apply Forall_cons in H as [Hc H].
    destruct (group3 a b c Ha Hb Hc) as [R (E1 & E2 & E3 & _)]. destruct (IH H) as (vs & V1 & V2).
    eexists. cbn [encodeBytes]. rewrite !b64Values_char by lia. rewrite V1. split; [done|]. cbn. by rewrite V2, E1, E2, E3.
Qed.

Lemma Decode_Encode s : DecodeString (EncodeToString s) = Some s.
Proof.
  unfold DecodeString, EncodeToString. destruct (encode_values (bytesOf s)) as (vs & -> & H); [apply Gcm.bytesOf_byte|].
  cbn. rewrite H. cbn. by rewrite Gcm.stringOf_bytesOf.
Qed.

(** No dot. *)
Definition nodots (s : string) : Prop := everyByte (fun n => negb (n =? 46)) s = true.

Lemma Encode_nodots s : nodots (EncodeToString s).
Proof.
  unfold EncodeToString, nodots. assert (Forall Gcm.isByte (bytesOf s)) as H by apply Gcm.bytesOf_byte. revert H.
  assert (forall n t, 0 <= n < 64 -> everyByte (fun n => negb (n =? 46)) t = true ->
    everyByte (fun n => negb (n =? 46)) (String (b64Char n) t) = true) as K.
  { intros n t Hn Ht. cbn [everyByte]. destruct (b64Char_value n Hn) as (_ & _ & H). rewrite Ht.
    destruct (Z.eqb_spec (code (b64Char n)) 46); done. }
  induction (bytesOf s) as [|a|a b|a b c l IH] using bytes_ind3; intros H; [done|..].
  - apply Forall_cons in H as [H _]. destruct (group3 a 0 0 H byte0 byte0) as [R _]. cbn [encodeBytes].
    do 2 (apply K; [lia|]). done.
  - apply Forall_cons in H as [Ha Hb]. apply Forall_cons in Hb as [Hb _]. destruct (group3 a b 0 Ha Hb byte0) as [R _].
    cbn [encodeBytes]. do 3 (apply K; [lia|]). done.
  - apply Forall_cons in H as [Ha H]. apply Forall_cons in H as [Hb H]. apply Forall_cons in H as [Hc H].
    destruct (group3 a b c Ha Hb Hc) as [R _]. cbn [encodeBytes]. do 4 (apply K; [lia|]). by apply IH.
Qed.

(** The decoder refuses a dot. *)
Lemma Decode_nodots s t : DecodeString s = Some t -> nodots s.
Proof.
  unfold DecodeString, nodots. destruct (b64Values s) as [vs|] eqn:E; [|done]. intros _. revert vs E.
  induction s as [|c s IH]; intros vs E; [done|]. cbn [b64Values] in E. cbn [everyByte].
  destruct ((code c =? 10) || (code c =? 13)) eqn:Ec.
  - rewrite (IH _ E). bool_prop. destruct (Z.eqb_spec (code c) 46); [lia|done].
  - destruct (b64Value c) as [v|] eqn:Ev; [|done]. destruct (b64Values s) as [l|]; [|done].
    rewrite (IH _ eq_refl). destruct (Z.eqb_spec (code c) 46) as [H|]; [|done].
    unfold b64Value in Ev. rewrite H in Ev. done.
Qed.

End B64.
