(* ===== verification/JsonStruct.v ===== *)
(** * Decoding JSON into structs

    How [encoding/json] decodes an object into a Go struct and encodes a struct: members
    in their order, a name matched exactly or else under Unicode case folding, [null]
    without effect on strings and numbers, a type that does not fit an error, [int64]
    numbers in decimal, a slice decoded over the slots it had, a map merged into the one
    that is there.  Built on the values and texts of [Json]. *)

From Stdlib Require Import Strings.Ascii.
From S2P Require Import Prelude GoStrings PathUtil Json.

Import GoStr Json.

Module JStruct.

#[local] Arguments String.append !_ _ / : simpl nomatch.

(** ** Integers *)

Definition digit (n : Z) : ascii := ascii_of_nat (Z.to_nat (48 + n)).

Fixpoint showDigits (fuel : nat) (n : Z) (acc : string) : string :=
  match fuel with
  | O => acc
  | S fuel =>
      if n <? 10 then String (digit n) acc
      else showDigits fuel (n / 10) (String (digit (n mod 10)) acc)
  end.

(** [strconv.FormatInt(z, 10)] *)
Definition FormatInt (z : Z) : string :=
  let n := Z.abs z in
  let text := showDigits (Z.to_nat (Z.log2 n) + 1) n "" in
  if z <? 0 then String "-" text else text.

Fixpoint parseDigits (acc : Z) (s : string) : option Z :=
  match s with
  | EmptyString => Some acc
  | String c s => if isDigit c then parseDigits (acc * 10 + (code c - 48)) s else None
  end.

(** [strconv.ParseInt(s, 10, 64)]: an optional sign, digits, the range of [int64]. *)
Definition ParseInt (s : string) : option Z :=
  let '(neg, body) :=
    match s with
    | String c rest =>
        if code c =? 45 then (true, rest) else if code c =? 43 then (false, rest) else (false, s)
    | EmptyString => (false, s)
    end in
  if bool_decide (body = "") then None
  else
    match parseDigits 0 body with
    | Some n =>
        let z := if neg : bool then - n else n in
        if (- 2 ^ 63 <=? z) && (z <=? max_int64) then Some z else None
    | None => None
    end.

(** ** The members of an object *)

(** The members of an object after its opening brace, in order and with repeats: each
    with its name, its value and the value's text. *)
Fixpoint rawMembers (fuel depth : nat) (s : string) : option (list (string * (json * string)) * string) :=
  match fuel with
  | O => None
  | S fuel =>
      match CutPrefix (skipSpace s) quote with
      | None => None
      | Some rest =>
          match decodeChars (String.length rest) rest with
          | None => None
          | Some (k, rest) =>
              match CutPrefix (skipSpace rest) ":" with
              | None => None
              | Some rest =>
                  match parseValue (2 * String.length rest + 2) depth rest with
                  | None => None
                  | Some (v, rest') =>
                      let text := String.substring 0 (String.length rest - String.length rest') rest in
                      let rest := skipSpace rest' in
                      match CutPrefix rest "}", CutPrefix rest "," with
                      | Some rest, _ => Some ([(k, (v, text))], rest)
                      | _, Some rest =>
                          match rawMembers fuel depth rest with
                          | Some (m, rest) => Some ((k, (v, text)) :: m, rest)
                          | None => None
                          end
                      | _, _ => None
                      end
                  end
              end
          end
      end
  end.

(** The members of an object text; [None] for any other value. *)
Definition objectMembers (depth : nat) (s : string) : option (list (string * (json * string)) * string) :=
  match CutPrefix (skipSpace s) "{" with
  | None => None
  | Some rest =>
      match CutPrefix (skipSpace rest) "}" with
      | Some rest => Some ([], rest)
      | None => rawMembers (String.length rest) depth rest
      end
  end.

(** ** Names *)

(** [foldName] on the runes of a name, as far as it reaches ASCII: letters in upper case,
    the long s and the Kelvin sign as the letters they fold to. *)
Definition foldPiece (p : piece) : string :=
  match p with
  | Rune (String c "") =>
      let n := code c in
      String (if (97 <=? n) && (n <=? 122) then byteOf (n - 32) else c) ""
  | Rune r =>
      if bool_decide (r = encodeRune 0x17F) then "S"
      else if bool_decide (r = encodeRune 0x212A) then "K" else r
  | BadByte _ => replacementChar
  end.
Definition foldName (s : string) : string := concatStrings (foldPiece <$> runesOf s).

(** A decoder of one field: the struct after it, or a type error. *)
Definition field (A : Type) : Type := string * (A -> json -> string -> option A).

Definition findField {A} (fs : list (field A)) (k : string) : option (A -> json -> string -> option A) :=
  match List.find (fun f => bool_decide (fst f = k)) fs with
  | Some f => Some (snd f)
  | None => snd <$> List.find (fun f => bool_decide (foldName (fst f) = foldName k)) fs
  end.

Fixpoint decodeFields {A} (fs : list (field A)) (strict : bool) (ms : list (string * (json * string)))
    (a : A) : option A :=
  match ms with
  | [] => Some a
  | (k, (v, text)) :: ms =>
      match findField fs k with
      | Some set => a ← set a v text; decodeFields fs strict ms a
      | None => if strict then None else decodeFields fs strict ms a
      end
  end.

(** [Decoder.Decode] of the first value of a text into a struct, with
    [DisallowUnknownFields] if strict: the struct and the rest of the text. *)
Definition decodeStruct {A} (fs : list (field A)) (strict : bool) (zero : A) (s : string) : option (A * string) :=
  match objectMembers (pred maxNestingDepth) s with
  | Some (ms, rest) => a ← decodeFields fs strict ms zero; Some (a, rest)
  | None =>
      match CutPrefix (skipSpace s) "null" with
      | Some rest => Some (zero, rest)
      | None => None
      end
  end.

(** What [Decoder.Decode] leaves in a struct when its error is ignored: a member whose
    type does not fit is skipped, a syntax error leaves the struct as it was. *)
Fixpoint decodeLeniently {A} (fs : list (field A)) (ms : list (string * (json * string))) (a : A) : A :=
  match ms with
  | [] => a
  | (k, (v, text)) :: ms =>
      decodeLeniently fs ms (match findField fs k with Some set => default a (set a v text) | None => a end)
  end.
Definition decodeIgnoring {A} (fs : list (field A)) (zero : A) (s : string) : A :=
  match objectMembers (pred maxNestingDepth) s with
  | Some (ms, _) => decodeLeniently fs ms zero
  | None => zero
  end.

(** [json.Unmarshal]: nothing but space after the value. *)
Definition Unmarshal {A} (fs : list (field A)) (zero : A) (s : string) : option A :=
  match decodeStruct fs false zero s with
  | Some (a, rest) => if bool_decide (skipSpace rest = "") then Some a else None
  | None => None
  end.

(** ** Fields *)

Definition stringField {A} (name : string) (set : string -> A -> A) : field A :=
  (name, fun a v _ => match v with
                      | JStr s => Some (set s a)
                      | JNull => Some a
                      | _ => None
                      end).

Definition intField {A} (name : string) (set : Z -> A -> A) : field A :=
  (name, fun a v _ => match v with
                      | JNum n => z ← ParseInt n; Some (set z a)
                      | JNull => Some a
                      | _ => None
                      end).

(** A [[]string] with the slots past its length that its array still holds. *)
Record goSlice := { elems : list string; spare : list string }.
Definition nilSlice : goSlice := {| elems := []; spare := [] |}.

(** The elements decoded over the slots there are; [null] leaves a slot as it is. *)
Fixpoint decodeElems (slots : list string) (l : list json) : option (list string) :=
  match l with
  | [] => Some []
  | v :: l =>
      let old := default "" (head slots) in
      match (match v with JStr s => Some s | JNull => Some old | _ => None end), decodeElems (tail slots) l with
      | Some s, Some r => Some (s :: r)
      | _, _ => None
      end
  end.

Definition sliceField {A} (name : string) (get : A -> goSlice) (set : goSlice -> A -> A) : field A :=
  (name, fun a v _ =>
     match v with
     | JNull => Some (set nilSlice a)
     | JArr [] => Some (set nilSlice a)
     | JArr l =>
         let slots := elems (get a) ++ spare (get a) in
         r ← decodeElems slots l; Some (set {| elems := r; spare := drop (length l) slots |} a)
     | _ => None
     end).

(** A [map[string]string]; a nil map is an empty one. *)
Fixpoint decodePairs (ms : list (string * (json * string))) (m : gmap string string) : option (gmap string string) :=
  match ms with
  | [] => Some m
  | (k, (v, _)) :: ms =>
      match v with
      | JStr s => decodePairs ms (<[k := s]> m)
      | JNull => decodePairs ms (<[k := ""]> m)
      | _ => None
      end
  end.

Definition mapField {A} (name : string) (get : A -> gmap string string) (set : gmap string string -> A -> A)
    : field A :=
  (name, fun a v text =>
     match v with
     | JNull => Some (set ∅ a)
     | JObj _ =>
         match objectMembers (pred (pred maxNestingDepth)) text with
         | Some (ms, _) => m ← decodePairs ms (get a); Some (set m a)
         | None => None
         end
     | _ => None
     end).

(** ** Encoding *)

(** [json.Marshal] of a struct whose fields have these names and texts. *)
Definition marshalFields (fs : list (string * string)) : string :=
  "{" +:+ commaSep ((fun f => encodeString (fst f) +:+ ":" +:+ snd f) <$> fs) +:+ "}".

(** A [[]string]; the empty list stands for a nil slice. *)
Definition marshalStrings (l : list string) : string :=
  match l with [] => "null" | _ => "[" +:+ commaSep (encodeString <$> l) +:+ "]" end.

(** [omitempty] on a string. *)
Definition omitEmpty (name s : string) : list (string * string) :=
  if bool_decide (s = "") then [] else [(name, encodeString s)].

(** ** Round trips *)

Lemma code_digit n : 0 <= n < 10 -> code (digit n) = 48 + n.
Proof. intros H. unfold code, digit, ascii_of_nat. rewrite N_ascii_embedding; lia. Qed.

Lemma isDigit_digit n : 0 <= n < 10 -> isDigit (digit n) = true.
Proof. intros H. unfold isDigit. rewrite code_digit by done. lia. Qed.

Lemma showDigits_length fuel n acc : (String.length acc <= String.length (showDigits fuel n acc))%nat.
Proof.
  revert n acc. induction fuel as [|fuel IH]; intros n acc; cbn [showDigits]; [done|].
  destruct (n <? 10); [cbn [String.length]; lia|]. specialize (IH (n / 10) (String (digit (n mod 10)) acc)).
  cbn [String.length] in IH. lia.
Qed.

(** The digits of a number: their value before any text that follows them, none but
    digits, and no leading zero unless the number is zero. *)
Lemma showDigits_spec fuel n acc : 0 <= n < 2 ^ Z.of_nat fuel ->
  (forall a, parseDigits a (showDigits fuel n acc) = parseDigits (a * 10 ^ Z.of_nat (String.length (showDigits fuel n acc) - String.length acc) + n) acc)
  /\ (fuel <> 0%nat -> exists d rest, showDigits fuel n acc = String (digit d) rest /\ 0 <= d < 10 /\ (d = 0 -> n = 0 /\ rest = acc)).
Proof.
  revert n acc. induction fuel as [|fuel IH]; intros n acc Hn.
  { cbn in Hn. assert (n = 0) as -> by lia. split; [|done]. intros a. cbn [showDigits]. rewrite Nat.sub_diag.
    f_equal. lia. }
  cbn [showDigits]. destruct (Z.ltb_spec n 10) as [Hs|Hs].
  - split.
    + intros a. cbn [parseDigits]. rewrite isDigit_digit, code_digit by lia. cbn [String.length].
      replace (S (String.length acc) - String.length acc)%nat with 1%nat by lia. f_equal. lia.
    + intros _. exists n, acc. split; [done|]. split; [lia|]. done.
  - assert (0 <= n / 10 < 2 ^ Z.of_nat fuel) as Hd.
    { rewrite Nat2Z.inj_succ, Z.pow_succ_r in Hn by lia. split; [apply Z.div_pos; lia|]. apply Z.div_lt_upper_bound; lia. }
    destruct (IH (n / 10) (String (digit (n mod 10)) acc) Hd) as [H1 H2]. pose proof (Z.mod_pos_bound n 10 ltac:(lia)).
    set (t := showDigits fuel (n / 10) (String (digit (n mod 10)) acc)) in *.
    assert (fuel <> 0%nat) as Hf by (intros ->; cbn in Hd; assert (1 <= n / 10) by (apply Z.div_le_lower_bound; lia); lia).
    destruct (H2 Hf) as (d & rest & Et & Hd1 & Hd2).
    assert (String.length acc < String.length t)%nat as Hl.
    { unfold t. pose proof (showDigits_length fuel (n / 10) (String (digit (n mod 10)) acc)) as K. cbn [String.length] in K. lia. }
    split.
    + intros a. rewrite H1. cbn [parseDigits]. rewrite isDigit_digit, code_digit by done. f_equal. cbn [String.length].
      replace (String.length t - String.length acc)%nat with (S (String.length t - S (String.length acc))) by lia.
      rewrite Nat2Z.inj_succ, Z.pow_succ_r by lia. pose proof (Z.div_mod n 10 ltac:(lia)). lia.
    + intros _. exists d, rest. split; [done|]. split; [done|]. intros E. destruct (Hd2 E) as [E1 _].
      assert (1 <= n / 10) by (apply Z.div_le_lower_bound; lia). lia.
Qed.

Lemma show_spec n : 0 <= n -> let t := showDigits (Z.to_nat (Z.log2 n) + 1) n "" in
  parseDigits 0 t = Some n /\ exists d rest, t = String (digit d) rest /\ 0 <= d < 10 /\ (d = 0 -> rest = "").
Proof.
  intros Hn t. destruct (showDigits_spec (Z.to_nat (Z.log2 n) + 1) n "") as [H1 H2].
  { destruct (Z.eq_dec n 0) as [->|]; [by vm_compute|]. pose proof (Z.log2_spec n ltac:(lia)) as [_ H].
    rewrite Nat2Z.inj_add, Z2Nat.id by apply Z.log2_nonneg. rewrite <- Z.add_1_r in H. lia. }
  split; [unfold t; rewrite H1; cbn [parseDigits]; f_equal; lia|].
  destruct (H2 ltac:(lia)) as (d & rest & E & Hd & Hz). exists d, rest. split; [done|]. split; [done|].
  intros ->. by apply Hz.
Qed.

Lemma ParseInt_FormatInt z : - 2 ^ 63 <= z <= max_int64 -> ParseInt (FormatInt z) = Some z.
Proof.
  intros Hz. unfold FormatInt. destruct (show_spec (Z.abs z)) as [H1 (d & rest & E & Hd & _)]; [lia|].
  unfold ParseInt. destruct (Z.ltb_spec z 0) as [Hneg|Hneg].
  - cbn [code]. change (code "-" =? 45) with true. cbv iota beta zeta. rewrite bool_decide_eq_false_2 by (rewrite E; done).
    rewrite H1. replace (- Z.abs z) with z by lia.
    rewrite (proj2 (Z.leb_le _ _) (proj1 Hz)), (proj2 (Z.leb_le _ _) (proj2 Hz)). done.
  - rewrite E. rewrite code_digit by done. destruct (Z.eqb_spec (48 + d) 45); [lia|].
    destruct (Z.eqb_spec (48 + d) 43); [lia|]. rewrite <- E. rewrite bool_decide_eq_false_2 by (rewrite E; done).
    rewrite H1. replace (Z.abs z) with z by lia.
    rewrite (proj2 (Z.leb_le _ _) (proj1 Hz)), (proj2 (Z.leb_le _ _) (proj2 Hz)). done.
Qed.

Lemma parseDigits_span s : forall a n, parseDigits a s = Some n -> spanDigits s = (s, "").
Proof.
  induction s as [|c s IH]; intros a n H; [done|]. cbn [parseDigits spanDigits] in *. destruct (isDigit c); [|done].
  by rewrite (IH _ _ H).
Qed.

Lemma FormatInt_numOk z : numOk (FormatInt z) = true.
Proof.
  unfold numOk. apply bool_decide_eq_true. unfold FormatInt.
  destruct (show_spec (Z.abs z)) as [H1 (d & rest & E & Hd & Hz)]; [lia|].
  set (t := showDigits _ _ _) in *.
  assert (scanInt t = Some (t, "")) as Hi.
  { rewrite E at 1. cbn [scanInt]. rewrite code_digit by done. destruct (Z.eqb_spec (48 + d) 48) as [E0|].
    - assert (d = 0) as -> by lia. rewrite Hz in E by done. by rewrite E, (Hz eq_refl).
    - rewrite <- E. unfold digits1. rewrite (parseDigits_span _ _ _ H1). rewrite bool_decide_eq_false_2; [done|]. by rewrite E. }
  unfold scanNumber. destruct (z <? 0).
  - change (code "-" =? 45) with true. cbv iota beta. rewrite Hi. cbn. by rewrite string_app_nil_r.
  - rewrite E at 1. rewrite code_digit by done. destruct (Z.eqb_spec (48 + d) 45); [lia|]. cbv iota beta.
    rewrite Hi. cbn. by rewrite string_app_nil_r.
Qed.

Lemma substring_prefix t rest :
  String.substring 0 (String.length (t +:+ rest) - String.length rest) (t +:+ rest) = t.
Proof.
  rewrite string_app_length, Nat.add_sub. induction t as [|c t IH]; [by destruct rest|]. cbn. by rewrite IH.
Qed.

(** A member with its value and its text. *)
Definition memberText (p : string * (json * string)) : string := encodeString (fst p) +:+ ":" +:+ snd (snd p).
Definition readsRaw (d : nat) (p : string * (json * string)) : Prop :=
  valid (fst p) /\ reads d (fst (snd p)) (snd (snd p)).

Lemma rawMember_text d k v t rest fuel :
  valid k -> reads d v t -> stops rest ->
  rawMembers (S fuel) d ((encodeString k +:+ ":" +:+ t) +:+ rest)
  = let rest := skipSpace rest in
    match CutPrefix rest "}", CutPrefix rest "," with
    | Some rest, _ => Some ([(k, (v, t))], rest)
    | _, Some rest => match rawMembers fuel d rest with
                      | Some (m, rest) => Some ((k, (v, t)) :: m, rest)
                      | None => None
                      end
    | _, _ => None
    end.
Proof.
  intros Hk Hv Hs. rewrite <- !string_app_assoc.
  destruct (decode_encodeString k (":" +:+ t +:+ rest)) as (u & -> & Hu).
  rewrite (valid_toValid k Hk) in Hu. cbn [rawMembers].
  change (CutPrefix (skipSpace (String (ascii_of_nat 34) u)) quote) with (Some u). cbv iota beta.
  rewrite Hu. change (CutPrefix (skipSpace (":" +:+ t +:+ rest)) ":") with (Some (t +:+ rest)).
  cbv iota beta. replace (2 * String.length (t +:+ rest) + 2)%nat with (S (2 * String.length (t +:+ rest) + 1)) by lia.
  rewrite (Hv rest); [|done|rewrite string_app_length; lia]. cbv iota beta zeta. by rewrite substring_prefix.
Qed.

Lemma rawMembers_text d ms rest fuel : Forall (readsRaw d) ms -> ms <> [] -> (length ms <= fuel)%nat ->
  rawMembers fuel d (commaSep (memberText <$> ms) +:+ "}" +:+ rest) = Some (ms, rest).
Proof.
  intros H. revert fuel. induction H as [|[k [v t]] ms [Hk Hv] Hms IH]; intros fuel Hne Hf; [done|].
  cbn [fst snd] in *. destruct fuel as [|fuel]; [cbn in Hf; lia|]. cbn [length] in Hf.
  destruct Hms as [|q ms Hq Hms].
  - change (commaSep (memberText <$> [(k, (v, t))])) with (encodeString k +:+ ":" +:+ t).
    rewrite (rawMember_text d k v t); done.
  - rewrite !fmap_cons, commaSep_cons. rewrite <- (string_app_assoc _ ("," +:+ _)), <- (string_app_assoc ",").
    unfold memberText at 1. cbn [fst snd]. rewrite (rawMember_text d k v t); [|done..]. cbv zeta.
    change (memberText q :: (memberText <$> ms)) with (memberText <$> q :: ms).
    set (more := commaSep (memberText <$> q :: ms) +:+ "}" +:+ rest).
    change (skipSpace ("," +:+ more)) with ("," +:+ more).
    change (CutPrefix ("," +:+ more) "}") with (@None string). change (CutPrefix ("," +:+ more) ",") with (Some more).
    cbv iota beta. unfold more. by rewrite (IH fuel ltac:(done) ltac:(lia)).
Qed.

(** A marshalled struct is read back as its members. *)
Lemma objectMembers_text d ms rest : Forall (readsRaw d) ms -> ms <> [] ->
  objectMembers d (marshalFields ((fun p => (fst p, snd (snd p))) <$> ms) +:+ rest) = Some (ms, rest).
Proof.
  intros H Hne. unfold marshalFields. rewrite <- list_fmap_compose.
  change ((fun f : string * string => encodeString (fst f) +:+ ":" +:+ snd f) ∘ (fun p : string * (json * string) => (fst p, snd (snd p))))
    with memberText.
  rewrite <- !string_app_assoc. set (body := commaSep (memberText <$> ms) +:+ "}" +:+ rest).
  unfold objectMembers. change (CutPrefix (skipSpace ("{" +:+ body)) "{") with (Some body). cbv iota beta.
  assert (exists w, body = String (ascii_of_nat 34) w /\ (length ms <= String.length body)%nat) as (w & Ew & Hl).
  { unfold body. rewrite string_app_length. assert (length ms <= String.length (commaSep (memberText <$> ms)))%nat as K.
    { clear. induction ms as [|p ms IH]; [done|]. destruct ms as [|q ms]; [cbn; lia|].
      rewrite !fmap_cons, commaSep_cons, !string_app_length. rewrite fmap_cons in IH. cbn [length String.length] in *. lia. }
    destruct ms as [|[k [v t]] ms]; [done|]. destruct (decode_encodeString k ":") as (u & Eu & _).
    assert (exists x, memberText (k, (v, t)) = String (ascii_of_nat 34) x) as [x Ex] by (unfold memberText, encodeString; by eexists).
    destruct ms as [|q ms].
    - eexists. split; [|lia]. rewrite fmap_cons. cbn [fmap list_fmap commaSep]. rewrite Ex. reflexivity.
    - eexists. split; [|lia]. rewrite !fmap_cons, commaSep_cons, Ex. reflexivity. }
  assert (CutPrefix (skipSpace body) "}" = None) as -> by (rewrite Ew; reflexivity).
  by apply rawMembers_text.
Qed.

Lemma decodeStruct_text {A} (fs : list (field A)) strict zero ms rest :
  Forall (readsRaw (pred maxNestingDepth)) ms -> ms <> [] ->
  decodeStruct fs strict zero (marshalFields ((fun p => (fst p, snd (snd p))) <$> ms) +:+ rest)
  = (a ← decodeFields fs strict ms zero; Some (a, rest)).
Proof. intros H Hne. unfold decodeStruct. by rewrite objectMembers_text. Qed.

(** ** Texts of values *)

Lemma reads_string d s : valid s -> reads d (JStr s) (encodeString s).
Proof. intros H rest fuel _ _. by rewrite parseValue_str, valid_toValid. Qed.

Lemma reads_int d z : reads d (JNum (FormatInt z)) (FormatInt z).
Proof. intros rest fuel Hr _. apply parseValue_number; [apply FormatInt_numOk|done]. Qed.

(** The value a marshalled list of strings stands for. *)
Definition stringsValue (l : list string) : json := match l with [] => JNull | _ => JArr (JStr <$> l) end.

Lemma allSome_strings l : allSome (writeCanonicalJSON <$> (JStr <$> l)) = Some (encodeString <$> l).
Proof.
  induction l as [|s l IH]; [done|]. rewrite !fmap_cons. cbn [allSome foldr writeCanonicalJSON]. fold (@allSome string).
  unfold allSome in IH. by rewrite IH.
Qed.

Lemma reads_strings d l : Forall valid l -> reads (S d) (stringsValue l) (marshalStrings l).
Proof.
  intros H. destruct l as [|s l]; [intros rest fuel _ _; reflexivity|]. apply reads_write.
  - constructor. apply Forall_fmap. eapply Forall_impl; [exact H|]. intros x Hx. by constructor.
  - cbn. f_equal. f_equal. rewrite <- list_fmap_compose. by apply list_fmap_ext.
  - cbn [stringsValue writeCanonicalJSON marshalStrings].
    by rewrite allSome_strings.
Qed.

Lemma decodeElems_strings slots l : decodeElems slots (JStr <$> l) = Some l.
Proof. revert slots. induction l as [|s l IH]; intros slots; [done|]. cbn. by rewrite IH. Qed.

(** ** Decoded strings are UTF-8 *)

Lemma rawMembers_wf fuel d s ms rest : rawMembers fuel d s = Some (ms, rest) -> Forall (fun p => wf d (fst (snd p))) ms.
Proof.
  revert s ms rest. induction fuel as [|fuel IH]; intros s ms rest H; [done|]. cbn [rawMembers] in H.
  destruct (CutPrefix (skipSpace s) quote) as [r1|]; [|done]. destruct (decodeChars _ r1) as [[k r2]|]; [|done].
  destruct (CutPrefix (skipSpace r2) ":") as [r3|]; [|done].
  destruct (parseValue _ d r3) as [[v r4]|] eqn:Ev; [|done]. apply (proj1 (parse_wf _)) in Ev.
  cbv zeta in H. destruct (CutPrefix (skipSpace r4) "}"); [injection H as <- _; by repeat constructor|].
  destruct (CutPrefix (skipSpace r4) ",") as [r5|]; [|done]. destruct (rawMembers fuel d r5) as [[m r6]|] eqn:Em; [|done].
  injection H as <- _. constructor; [done|]. by eapply IH.
Qed.

Lemma objectMembers_wf d s ms rest : objectMembers d s = Some (ms, rest) -> Forall (fun p => wf d (fst (snd p))) ms.
Proof.
  unfold objectMembers. destruct (CutPrefix _ "{"); [|done]. destruct (CutPrefix _ "}"); [intros [= <- _]; constructor|].
  apply rawMembers_wf.
Qed.

(** A field whose decoder keeps a property of the struct. *)
Definition fieldKeeps {A} (P : A -> Prop) (f : field A) : Prop :=
  forall d a v text a', P a -> wf d v -> snd f a v text = Some a' -> P a'.

Lemma findField_elem {A} (fs : list (field A)) k set : findField fs k = Some set -> exists f, f ∈ fs /\ set = snd f.
Proof.
  unfold findField. destruct (List.find (fun f => bool_decide (fst f = k)) fs) as [f|] eqn:E.
  - intros [= <-]. apply find_some in E as [E _]. exists f. split; [by apply list_elem_of_In|done].
  - destruct (List.find (fun f => bool_decide (foldName (fst f) = foldName k)) fs) as [f|] eqn:E'; [|done].
    intros [= <-]. apply find_some in E' as [E' _]. exists f. split; [by apply list_elem_of_In|done].
Qed.

Lemma decodeFields_keeps {A} (P : A -> Prop) (fs : list (field A)) strict d ms : Forall (fieldKeeps P) fs ->
  Forall (fun p => wf d (fst (snd p))) ms -> forall a a', P a -> decodeFields fs strict ms a = Some a' -> P a'.
Proof.
  intros Hfs Hms. induction Hms as [|[k [v text]] ms Hv Hms IH]; intros a a' Ha H; [by injection H as <-|].
  cbn [decodeFields] in H. destruct (findField fs k) as [set|] eqn:E.
  - apply findField_elem in E as (f & Hf & ->). destruct (snd f a v text) as [a1|] eqn:Es; [|done].
    eapply IH; [|exact H]. eapply (proj1 (Forall_forall _ _) Hfs f Hf); [done|exact Hv|exact Es].
  - destruct strict; [done|]. by eapply IH.
Qed.

Lemma decodeStruct_keeps {A} (P : A -> Prop) (fs : list (field A)) strict zero s a rest : Forall (fieldKeeps P) fs ->
  P zero -> decodeStruct fs strict zero s = Some (a, rest) -> P a.
Proof.
  intros Hfs Hz. unfold decodeStruct. destruct (objectMembers _ s) as [[ms r]|] eqn:E.
  - destruct (decodeFields fs strict ms zero) as [a'|] eqn:Ed; [|done]. intros [= <- _].
    eapply decodeFields_keeps; [done|by eapply objectMembers_wf|done|exact Ed].
  - destruct (CutPrefix _ "null"); [|done]. by intros [= <- _].
Qed.

Lemma stringField_keeps {A} (P : A -> Prop) name set : (forall a s, P a -> valid s -> P (set s a)) ->
  fieldKeeps P (stringField name set).
Proof. intros H d a v text a' Ha Hv E. destruct v; try done; injection E as <-; [done|]. apply H; [done|]. by inversion Hv. Qed.

Lemma intField_keeps {A} (P : A -> Prop) name set : (forall a z, P a -> - 2 ^ 63 <= z <= max_int64 -> P (set z a)) ->
  fieldKeeps P (intField name set).
Proof.
  intros H d a v text a' Ha Hv E. destruct v as [| |num| | |]; try done; [by injection E as <-|].
  unfold intField in E. cbn [snd] in E. unfold ParseInt in E.
  destruct (match num with EmptyString => _ | _ => _ end) as [neg body]. case_bool_decide; [done|].
  destruct (parseDigits 0 body) as [z|]; [|done].
  destruct ((- 2 ^ 63 <=? _) && _) eqn:Ez; [|done]. injection E as <-. apply H; [done|].
  apply andb_true_iff in Ez as [E1 E2]. by apply Z.leb_le in E1, E2.
Qed.

Lemma mapField_keeps {A} (P : A -> Prop) name get set : (forall a m, P a -> P (set m a)) -> fieldKeeps P (mapField name get set).
Proof.
  intros H d a v text a' Ha Hv E. destruct v; try done; [injection E as <-; by apply H|]. unfold mapField in E. cbn [snd] in E.
  destruct (objectMembers _ text) as [[ms r]|]; [|done]. destruct (decodePairs ms (get a)); [|done]. injection E as <-. by apply H.
Qed.

Lemma decodeElems_valid slots l r : Forall valid slots -> (forall d, Forall (wf d) l -> decodeElems slots l = Some r -> Forall valid r).
Proof.
  intros Hs d Hl. revert slots r Hs. induction Hl as [|v l Hv Hl IH]; intros slots r Hs E; [injection E as <-; constructor|].
  cbn [decodeElems] in E.
  destruct (match v with JStr s => Some s | JNull => Some (default "" (head slots)) | _ => None end) as [s|] eqn:Es; [|done].
  destruct (decodeElems (tail slots) l) as [r'|] eqn:Er; [|done]. injection E as <-. constructor.
  - destruct v; try done; injection Es as <-; [|by inversion Hv].
    destruct slots as [|x slots]; [apply valid_nil|]. by apply Forall_cons in Hs as [? _].
  - eapply IH; [|exact Er]. destruct slots as [|x slots]; [done|]. by apply Forall_cons in Hs as [_ ?].
Qed.

(** All slots of a slice are UTF-8. *)
Definition sliceValid (s : goSlice) : Prop := Forall valid (elems s) /\ Forall valid (spare s).

Lemma sliceField_keeps {A} (P : A -> Prop) name get set : (forall a, P a -> sliceValid (get a)) ->
  (forall a s, P a -> sliceValid s -> P (set s a)) -> fieldKeeps P (sliceField name get set).
Proof.
  intros Hg Hset d a v text a' Ha Hv E. unfold sliceField in E. cbn [snd] in E. destruct v as [| | | |l|]; try done.
  - injection E as <-. apply Hset; [done|]. split; constructor.
  - destruct (Hg a Ha) as [G1 G2]. assert (Forall valid (elems (get a) ++ spare (get a))) as Hs by (by apply Forall_app).
    destruct l as [|x l]; [injection E as <-; apply Hset; [done|]; split; constructor|].
    destruct (decodeElems _ (x :: l)) as [r|] eqn:Er; [|done]. injection E as <-. apply Hset; [done|]. split.
    + inversion Hv as [| | | |d' l' Hl|]; subst. by eapply decodeElems_valid.
    + cbn [spare]. by apply Forall_drop.
Qed.
End JStruct.
