(* ===== verification/VaultToken.v ===== *)
(** * Vault tokens

    Model of [src/pkg/vault/grant_sign.go] and of the token part of
    [src/pkg/vault/crypto.go]: capability tokens and grants as signed JSON claims.
    A token is a prefix, the base64 of the claims and the base64 of their HMAC under the
    tenant's key; verification decodes only what the signature covers.  Times are
    nanoseconds since the Unix epoch.  The texts the standard library gives its decoding
    errors are parameters: they only reach messages. *)

From Stdlib Require Import Strings.Ascii.
From S2P Require Import Prelude GoStrings Json Sha256 AesGcm JsonStruct VaultScope.

Import GoStr Sha256 Gcm B64 JStruct Scope.

Module VToken.

#[local] Arguments String.append !_ _ / : simpl nomatch.

(** ** Errors *)

Inductive error :=
  | ErrNotFound
  | ErrFieldNotFound
  | Err (text : string).
#[global] Instance error_eq_dec : EqDecision error.
Proof. solve_decision. Defined.

(** [err.Error()] *)
Definition errorText (e : error) : string :=
  match e with
  | ErrNotFound => "vault: not found"
  | ErrFieldNotFound => "vault: field not found"
  | Err text => text
  end.

(** Texts of the standard library: [fmt]'s [%q], and the errors of the base64 and JSON
    decoders on an input. *)
Record texts := { quoted : string -> string; base64Error : string -> string; jsonError : string -> string }.

(** [time.Time.Unix] *)
Definition second : Z := 10 ^ 9.
Definition Unix (t : Z) : Z := t / second.

(** ** Claims *)

Record CapTokenClaims := {
  TokenID : string;
  CTenantID : string;
  AgentID : string;
  TaskID : string;
  CScope : list string;
  CIssuedAt : Z;
  CExpiresAt : Z;
  Nonce : string
}.

Definition PrincipalOwner : string := "owner".
Definition PrincipalDelegated : string := "delegated".
Definition GrantPermRead : string := "read".
Definition GrantPermWrite : string := "write".

Record VaultGrantClaims := {
  Issuer : string;
  GrantID : string;
  TenantID : string;
  PrincipalType : string;
  Agent : string;
  GScope : list string;
  Perm : string;
  ExpiresAt : Z;
  LabelHint : string
}.

Definition marshalCap (c : CapTokenClaims) : string :=
  marshalFields
    ([("token_id", Json.encodeString (TokenID c)); ("tenant_id", Json.encodeString (CTenantID c));
      ("agent_id", Json.encodeString (AgentID c))]
     ++ omitEmpty "task_id" (TaskID c)
     ++ [("scope", marshalStrings (CScope c)); ("iat", FormatInt (CIssuedAt c));
         ("exp", FormatInt (CExpiresAt c)); ("nonce", Json.encodeString (Nonce c))]).

Definition marshalGrant (c : VaultGrantClaims) : string :=
  marshalFields
    ([("iss", Json.encodeString (Issuer c)); ("grant_id", Json.encodeString (GrantID c));
      ("tenant_id", Json.encodeString (TenantID c)); ("principal_type", Json.encodeString (PrincipalType c));
      ("agent", Json.encodeString (Agent c)); ("scope", marshalStrings (GScope c));
      ("perm", Json.encodeString (Perm c)); ("exp", FormatInt (ExpiresAt c))]
     ++ omitEmpty "label_hint" (LabelHint c)).

(** Decoding carries the slots past the scope's length. *)
Definition capState : Type := CapTokenClaims * list string.
Definition zeroCap : capState :=
  ({| TokenID := ""; CTenantID := ""; AgentID := ""; TaskID := ""; CScope := [];
      CIssuedAt := 0; CExpiresAt := 0; Nonce := "" |}, []).

Definition setCap (f : CapTokenClaims -> CapTokenClaims) (s : capState) : capState := (f (fst s), snd s).

Definition capFields : list (field capState) :=
  let str name (put : string -> CapTokenClaims -> CapTokenClaims) := stringField name (fun v => setCap (put v)) in
  let int name (put : Z -> CapTokenClaims -> CapTokenClaims) := intField name (fun v => setCap (put v)) in
  [str "token_id" (fun v '(Build_CapTokenClaims _ t a k s i e n) => Build_CapTokenClaims v t a k s i e n);
   str "tenant_id" (fun v '(Build_CapTokenClaims d _ a k s i e n) => Build_CapTokenClaims d v a k s i e n);
   str "agent_id" (fun v '(Build_CapTokenClaims d t _ k s i e n) => Build_CapTokenClaims d t v k s i e n);
   str "task_id" (fun v '(Build_CapTokenClaims d t a _ s i e n) => Build_CapTokenClaims d t a v s i e n);
   sliceField "scope" (fun st => {| elems := CScope (fst st); spare := snd st |})
     (fun v '(Build_CapTokenClaims d t a k _ i e n, _) => (Build_CapTokenClaims d t a k (elems v) i e n, spare v));
   int "iat" (fun v '(Build_CapTokenClaims d t a k s _ e n) => Build_CapTokenClaims d t a k s v e n);
   int "exp" (fun v '(Build_CapTokenClaims d t a k s i _ n) => Build_CapTokenClaims d t a k s i v n);
   str "nonce" (fun v '(Build_CapTokenClaims d t a k s i e _) => Build_CapTokenClaims d t a k s i e v)].

Definition grantState : Type := VaultGrantClaims * list string.
Definition zeroGrant : grantState :=
  ({| Issuer := ""; GrantID := ""; TenantID := ""; PrincipalType := ""; Agent := ""; GScope := [];
      Perm := ""; ExpiresAt := 0; LabelHint := "" |}, []).

Definition setGrant (f : VaultGrantClaims -> VaultGrantClaims) (s : grantState) : grantState := (f (fst s), snd s).

Definition grantFields : list (field grantState) :=
  let str name (put : string -> VaultGrantClaims -> VaultGrantClaims) := stringField name (fun v => setGrant (put v)) in
  [str "iss" (fun v '(Build_VaultGrantClaims _ g t p a s m e l) => Build_VaultGrantClaims v g t p a s m e l);
   str "grant_id" (fun v '(Build_VaultGrantClaims i _ t p a s m e l) => Build_VaultGrantClaims i v t p a s m e l);
   str "tenant_id" (fun v '(Build_VaultGrantClaims i g _ p a s m e l) => Build_VaultGrantClaims i g v p a s m e l);
   str "principal_type" (fun v '(Build_VaultGrantClaims i g t _ a s m e l) => Build_VaultGrantClaims i g t v a s m e l);
   str "agent" (fun v '(Build_VaultGrantClaims i g t p _ s m e l) => Build_VaultGrantClaims i g t p v s m e l);
   sliceField "scope" (fun st => {| elems := GScope (fst st); spare := snd st |})
     (fun v '(Build_VaultGrantClaims i g t p a _ m e l, _) => (Build_VaultGrantClaims i g t p a (elems v) m e l, spare v));
   str "perm" (fun v '(Build_VaultGrantClaims i g t p a s _ e l) => Build_VaultGrantClaims i g t p a s v e l);
   intField "exp" (fun v => setGrant (fun '(Build_VaultGrantClaims i g t p a s m _ l) => Build_VaultGrantClaims i g t p a s m v l));
   str "label_hint" (fun v '(Build_VaultGrantClaims i g t p a s m e _) => Build_VaultGrantClaims i g t p a s m e v)].

Definition decodeCap (s : string) : option CapTokenClaims := fst <$> Unmarshal capFields zeroCap s.

(** The grant's decoder refuses unknown fields and ignores what follows the value. *)
Definition decodeGrant (s : string) : option VaultGrantClaims :=
  fst ∘ fst <$> decodeStruct grantFields true zeroGrant s.

(** The [tenant_id] alone. *)
Definition decodePeek (s : string) : option string :=
  Unmarshal [stringField "tenant_id" (fun v _ => v)] "" s.

(** ** Keys *)

(** [MasterKey.DeriveCSK] *)
Definition DeriveCSK (mk tenantID : string) : string := hmac256 mk ("vault-csk:" +:+ tenantID).

(** ** Validation *)

Section errors.
Context (T : texts).

(** The error of [ValidateScope] with its text. *)
Fixpoint scopeText (scope : list string) : option string :=
  match scope with
  | [] => None
  | entry :: scope =>
      match validateEntry entry with
      | Some ErrEmptyEntry => Some "empty scope entry"
      | Some ErrWildcard => Some ("wildcard scope entries are not supported: " +:+ quoted T entry)
      | Some ErrEmptySecret => Some ("empty secret name in scope entry: " +:+ quoted T entry)
      | Some ErrEmptyField => Some ("empty field name in scope entry: " +:+ quoted T entry)
      | None => scopeText scope
      end
  end.

Definition validateClaimsForSign (c : VaultGrantClaims) : option error :=
  if bool_decide (Issuer c = "") then Some (Err "iss is required")
  else if bool_decide (GrantID c = "") then Some (Err "grant_id is required")
  else if bool_decide (TenantID c = "") then Some (Err "tenant_id is required")
  else if negb (bool_decide (PrincipalType c = PrincipalOwner))
          && negb (bool_decide (PrincipalType c = PrincipalDelegated))
  then Some (Err "principal_type must be owner or delegated")
  else if bool_decide (Agent c = "") then Some (Err "agent is required")
  else if negb (bool_decide (Perm c = GrantPermRead)) && negb (bool_decide (Perm c = GrantPermWrite))
  then Some (Err "perm must be read or write")
  else if ExpiresAt c <=? 0 then Some (Err "exp is required")
  else if bool_decide (GScope c = []) then Some (Err "scope must not be empty")
  else Err <$> scopeText (GScope c).

Definition grantClockSkew : Z := 60.

Definition validateClaimsForVerify (c : VaultGrantClaims) (now : Z) : option error :=
  if negb (bool_decide (PrincipalType c = PrincipalOwner))
     && negb (bool_decide (PrincipalType c = PrincipalDelegated))
  then Some (Err "malformed grant: bad principal_type")
  else if negb (bool_decide (Perm c = GrantPermRead)) && negb (bool_decide (Perm c = GrantPermWrite))
  then Some (Err "malformed grant: bad perm")
  else if bool_decide (GrantID c = "") || bool_decide (Issuer c = "") || bool_decide (Agent c = "")
          || bool_decide (TenantID c = "")
  then Some (Err "malformed grant: missing required claim")
  else if bool_decide (GScope c = []) then Some (Err "malformed grant: empty scope")
  else
    match scopeText (GScope c) with
    | Some t => Some (Err ("malformed grant: " +:+ t))
    | None =>
        if ExpiresAt c <=? 0 then Some (Err "malformed grant: missing exp")
        else if wrap64 (ExpiresAt c + grantClockSkew) <? Unix now then Some (Err "grant expired")
        else None
    end.

(** ** Grants *)

Definition grantTokenPrefix : string := "vt_".
Definition dquote : string := Json.quote.
Definition grantHeaderJSON : string :=
  "{" +:+ dquote +:+ "alg" +:+ dquote +:+ ":" +:+ dquote +:+ "HS256" +:+ dquote +:+ ","
  +:+ dquote +:+ "typ" +:+ dquote +:+ ":" +:+ dquote +:+ "JWT" +:+ dquote +:+ "}".

Definition SignGrant (csk : string) (c : VaultGrantClaims) : string + error :=
  match validateClaimsForSign c with
  | Some e => inr e
  | None =>
      let signingInput := EncodeToString grantHeaderJSON +:+ "." +:+ EncodeToString (marshalGrant c) in
      let sig := EncodeToString (hmac256 csk signingInput) in
      inl (grantTokenPrefix +:+ signingInput +:+ "." +:+ sig)
  end.

(** [strings.Split(s, ".")] *)
Fixpoint splitDots (s : string) : list string :=
  match s with
  | EmptyString => [""]
  | String c s =>
      if Ascii.eqb c "." then "" :: splitDots s
      else match splitDots s with p :: ps => String c p :: ps | [] => [String c ""] end
  end.

Definition VerifyGrant (csk raw : string) (now : Z) : VaultGrantClaims + error :=
  match CutPrefix raw grantTokenPrefix with
  | None => inr (Err "invalid grant format")
  | Some body =>
      match splitDots body with
      | [headerB64; payloadB64; sigB64] =>
          let expectedSig := hmac256 csk (headerB64 +:+ "." +:+ payloadB64) in
          match DecodeString sigB64 with
          | None => inr (Err ("decode signature: " +:+ base64Error T sigB64))
          | Some sig =>
              if negb (bool_decide (sig = expectedSig)) then inr (Err "invalid grant signature")
              else
                match DecodeString payloadB64 with
                | None => inr (Err ("decode payload: " +:+ base64Error T payloadB64))
                | Some payloadJSON =>
                    match decodeGrant payloadJSON with
                    | None => inr (Err ("unmarshal claims: " +:+ jsonError T payloadJSON))
                    | Some claims =>
                        match validateClaimsForVerify claims now with
                        | Some e => inr e
                        | None => inl claims
                        end
                    end
                end
          end
      | _ => inr (Err "invalid grant format")
      end
  end.

(** [strings.SplitN(s, ".", 3)], of which the first two parts are looked at. *)
Definition PeekGrantTenantID (raw : string) : string + error :=
  match CutPrefix raw grantTokenPrefix with
  | None => inr (Err "invalid grant token format")
  | Some body =>
      match splitDots body with
      | _ :: payloadB64 :: _ :: _ =>
          match DecodeString payloadB64 with
          | None => inr (Err ("decode payload: " +:+ base64Error T payloadB64))
          | Some payloadJSON =>
              match decodePeek payloadJSON with
              | None => inr (Err ("unmarshal claims: " +:+ jsonError T payloadJSON))
              | Some tenantID =>
                  if bool_decide (tenantID = "") then inr (Err "missing tenant_id in grant token")
                  else inl tenantID
              end
          end
      | _ => inr (Err "invalid grant token format")
      end
  end.

(** ** Capability tokens *)

Definition capTokenPrefix : string := "vault_".

Definition SignCapToken (csk : string) (c : CapTokenClaims) : string :=
  let payloadB64 := EncodeToString (marshalCap c) in
  let sig := EncodeToString (hmac256 csk payloadB64) in
  capTokenPrefix +:+ payloadB64 +:+ "." +:+ sig.

(** [s[n:]] *)
Fixpoint dropBytes (n : nat) (s : string) : string :=
  match n, s with S n, String _ s => dropBytes n s | _, _ => s end.

(** The text before and after the last dot. *)
Fixpoint lastDot (s : string) : option (string * string) :=
  match s with
  | EmptyString => None
  | String c s =>
      match lastDot s with
      | Some (a, b) => Some (String c a, b)
      | None => if Ascii.eqb c "." then Some ("", s) else None
      end
  end.

(** The body of a token: what follows its first six bytes. *)
Definition capBody (raw : string) : option (string * string) :=
  if (String.length raw <? String.length capTokenPrefix)%nat then None
  else lastDot (dropBytes (String.length capTokenPrefix) raw).

Definition VerifyCapToken (csk raw : string) (now : Z) : CapTokenClaims + error :=
  match capBody raw with
  | None => inr (Err "invalid capability token format")
  | Some (payloadB64, sigB64) =>
      let expectedSig := hmac256 csk payloadB64 in
      match DecodeString sigB64 with
      | None => inr (Err ("decode signature: " +:+ base64Error T sigB64))
      | Some sig =>
          if negb (bool_decide (sig = expectedSig)) then inr (Err "invalid token signature")
          else
            match DecodeString payloadB64 with
            | None => inr (Err ("decode payload: " +:+ base64Error T payloadB64))
            | Some payloadJSON =>
                match decodeCap payloadJSON with
                | None => inr (Err ("unmarshal claims: " +:+ jsonError T payloadJSON))
                | Some claims =>
                    if CExpiresAt claims <? Unix now then inr (Err "token expired") else inl claims
                end
            end
      end
  end.

Definition PeekCapTokenTenantID (raw : string) : string + error :=
  match capBody raw with
  | None => inr (Err "invalid capability token format")
  | Some (payloadB64, _) =>
      match DecodeString payloadB64 with
      | None => inr (Err ("decode payload: " +:+ base64Error T payloadB64))
      | Some payloadJSON =>
          match decodePeek payloadJSON with
          | None => inr (Err ("unmarshal claims: " +:+ jsonError T payloadJSON))
          | Some tenantID =>
              if bool_decide (tenantID = "") then inr (Err "missing tenant_id in token") else inl tenantID
          end
      end
  end.

End errors.

(** ** Claims survive the wire *)

(** Claims whose strings are UTF-8 and whose times fit [int64]. *)
Record capOk (c : CapTokenClaims) : Prop := {
  cap_strings : Forall Json.valid [TokenID c; CTenantID c; AgentID c; TaskID c; Nonce c];
  cap_scope : Forall Json.valid (CScope c);
  cap_iat : - 2 ^ 63 <= CIssuedAt c <= max_int64;
  cap_exp : - 2 ^ 63 <= CExpiresAt c <= max_int64
}.
Record grantOk (c : VaultGrantClaims) : Prop := {
  grant_strings : Forall Json.valid [Issuer c; GrantID c; TenantID c; PrincipalType c; Agent c; Perm c; LabelHint c];
  grant_scope : Forall Json.valid (GScope c);
  grant_exp : - 2 ^ 63 <= ExpiresAt c <= max_int64
}.

Lemma ascii_valid s : everyByte (fun n => n <? 128) s = true -> Json.valid s.
Proof.
  induction s as [|c s IH]; intros H; [apply Json.valid_nil|]. cbn [everyByte] in H. apply andb_true_iff in H as [Hc Hs].
  change (String c s) with (String c "" +:+ s). apply Json.valid_app; [|by apply IH].
  replace c with (Json.byteOf (code c)).
  - apply Json.rune_valid, Json.byte_rune. apply Z.ltb_lt in Hc. pose proof (Json.code_range c). lia.
  - apply code_inj. rewrite Json.code_byteOf; [done|apply Json.code_range].
Qed.

Definition member (name : string) (v : Json.json) (text : string) : string * (Json.json * string) := (name, (v, text)).
Definition strMember (name s : string) : string * (Json.json * string) := member name (Json.JStr s) (Json.encodeString s).
Definition intMember (name : string) (z : Z) : string * (Json.json * string) := member name (Json.JNum (FormatInt z)) (FormatInt z).
Definition listMember (name : string) (l : list string) : string * (Json.json * string) := member name (stringsValue l) (marshalStrings l).
Definition optMember (name s : string) : list (string * (Json.json * string)) :=
  if bool_decide (s = "") then [] else [strMember name s].

Definition grantMembers (c : VaultGrantClaims) : list (string * (Json.json * string)) :=
  [strMember "iss" (Issuer c); strMember "grant_id" (GrantID c); strMember "tenant_id" (TenantID c);
   strMember "principal_type" (PrincipalType c); strMember "agent" (Agent c); listMember "scope" (GScope c);
   strMember "perm" (Perm c); intMember "exp" (ExpiresAt c)] ++ optMember "label_hint" (LabelHint c).
Definition capMembers (c : CapTokenClaims) : list (string * (Json.json * string)) :=
  [strMember "token_id" (TokenID c); strMember "tenant_id" (CTenantID c); strMember "agent_id" (AgentID c)]
  ++ optMember "task_id" (TaskID c)
  ++ [listMember "scope" (CScope c); intMember "iat" (CIssuedAt c); intMember "exp" (CExpiresAt c); strMember "nonce" (Nonce c)].

Lemma marshalGrant_members c : marshalGrant c = marshalFields ((fun p => (fst p, snd (snd p))) <$> grantMembers c).
Proof. unfold marshalGrant, grantMembers, omitEmpty, optMember. by case_bool_decide. Qed.
Lemma marshalCap_members c : marshalCap c = marshalFields ((fun p => (fst p, snd (snd p))) <$> capMembers c).
Proof. unfold marshalCap, capMembers, omitEmpty, optMember. by case_bool_decide. Qed.

Lemma strMember_reads d name s : Json.valid name -> Json.valid s -> readsRaw d (strMember name s).
Proof. intros Hn Hs. split; [done|]. by apply reads_string. Qed.
Lemma intMember_reads d name z : Json.valid name -> readsRaw d (intMember name z).
Proof. intros Hn. split; [done|]. apply reads_int. Qed.
Lemma listMember_reads d name l : Json.valid name -> Forall Json.valid l -> readsRaw (S d) (listMember name l).
Proof. intros Hn Hl. split; [done|]. by apply reads_strings. Qed.
Lemma optMember_reads d name s : Json.valid name -> Json.valid s -> Forall (readsRaw d) (optMember name s).
Proof. intros Hn Hs. unfold optMember. case_bool_decide; constructor; [by apply strMember_reads|done]. Qed.

Ltac names := by apply ascii_valid; vm_compute.

Lemma grantMembers_read d c : grantOk c -> Forall (readsRaw (S d)) (grantMembers c).
Proof.
  intros [Hs Hl _]. rewrite !Forall_cons in Hs. destruct Hs as (H1 & H2 & H3 & H4 & H5 & H6 & H7 & _).
  unfold grantMembers. apply Forall_app. split; [|apply optMember_reads; [names|done]].
  repeat constructor; cbn [fst]; try names; try (by apply reads_string); [by apply reads_strings|apply reads_int].
Qed.

Lemma capMembers_read d c : capOk c -> Forall (readsRaw (S d)) (capMembers c).
Proof.
  intros [Hs Hl _ _]. rewrite !Forall_cons in Hs. destruct Hs as (H1 & H2 & H3 & H4 & H5 & _).
  unfold capMembers. apply Forall_app. split; [|apply Forall_app; split; [apply optMember_reads; [names|done]|]];
  repeat constructor; cbn [fst]; try names; try (by apply reads_string); try (by apply reads_strings); apply reads_int.
Qed.

(** A decoded struct, one member at a time. *)
Section steps.
Context {A : Type} (fs : list (field A)) (strict : bool) (k : string) (text : string)
  (ms : list (string * (Json.json * string))) (a : A).

Lemma decode_str s name set : findField fs k = Some (snd (stringField name set)) ->
  decodeFields fs strict ((k, (Json.JStr s, text)) :: ms) a = decodeFields fs strict ms (set s a).
Proof. intros H. cbn [decodeFields]. by rewrite H. Qed.

Lemma decode_int z name set : findField fs k = Some (snd (intField name set)) -> - 2 ^ 63 <= z <= max_int64 ->
  decodeFields fs strict ((k, (Json.JNum (FormatInt z), text)) :: ms) a = decodeFields fs strict ms (set z a).
Proof. intros H Hz. cbn [decodeFields]. rewrite H. unfold intField. cbn [snd]. by rewrite ParseInt_FormatInt. Qed.

Lemma decode_strings l name get set : findField fs k = Some (snd (sliceField name get set)) ->
  elems (get a) = [] -> spare (get a) = [] ->
  decodeFields fs strict ((k, (stringsValue l, text)) :: ms) a
  = decodeFields fs strict ms (set {| elems := l; spare := [] |} a).
Proof.
  intros H H1 H2. cbn [decodeFields]. rewrite H. unfold sliceField. cbn [snd]. destruct l as [|s l]; [done|].
  cbn [stringsValue]. rewrite fmap_cons. cbn match. rewrite <- fmap_cons, decodeElems_strings. cbn. by rewrite H1, H2.
Qed.

End steps.

Ltac member_step :=
  first [erewrite decode_str; [|reflexivity] | erewrite decode_int; [|reflexivity|done]
        | erewrite decode_strings; [|reflexivity|reflexivity|reflexivity]];
  cbn [setGrant setCap fst snd zeroGrant zeroCap elems spare].

Lemma decodeGrant_marshal c : grantOk c -> decodeGrant (marshalGrant c) = Some c.
Proof.
  intros Hc. unfold decodeGrant. rewrite marshalGrant_members, <- (string_app_nil_r (marshalFields _)).
  rewrite decodeStruct_text; [|apply grantMembers_read, Hc|done].
  destruct c as [i g t p a s m e l]. pose proof (grant_exp _ Hc) as He. cbn [ExpiresAt] in He.
  unfold grantMembers, optMember, strMember, listMember, intMember, member.
  cbn [Issuer GrantID TenantID PrincipalType Agent GScope Perm ExpiresAt LabelHint app].
  do 8 member_step. case_bool_decide as El; [by rewrite El|]. by member_step.
Qed.

Lemma decodeCap_marshal c : capOk c -> decodeCap (marshalCap c) = Some c.
Proof.
  intros Hc. unfold decodeCap, Unmarshal. rewrite marshalCap_members, <- (string_app_nil_r (marshalFields _)).
  rewrite decodeStruct_text; [|apply capMembers_read, Hc|unfold capMembers; by destruct (optMember _ _)].
  destruct c as [d t a k s i e n]. pose proof (cap_exp _ Hc) as He. pose proof (cap_iat _ Hc) as Hi. cbn [CExpiresAt CIssuedAt] in He, Hi.
  unfold capMembers, optMember, strMember, listMember, intMember, member.
  cbn [TokenID CTenantID AgentID TaskID CScope CIssuedAt CExpiresAt Nonce app].
  do 3 member_step. case_bool_decide as El; cbn [app]; [do 4 member_step; by rewrite El|]. by do 5 member_step.
Qed.

(** ** Dots *)

Lemma nodots_cons c s : nodots (String c s) <-> c <> "."%char /\ nodots s.
Proof.
  unfold nodots. cbn [everyByte]. rewrite andb_true_iff, negb_true_iff, Z.eqb_neq.
  split; intros [H1 H2]; (split; [|done]).
  - intros ->. by apply H1.
  - intros E. apply H1. apply code_inj. by rewrite E.
Qed.

Lemma splitDots_nonempty s : splitDots s <> [].
Proof. destruct s as [|c s]; [done|]. cbn. destruct (Ascii.eqb c "."); [done|]. by destruct (splitDots s). Qed.

Lemma splitDots_nodots s : nodots s -> splitDots s = [s].
Proof.
  induction s as [|c s IH]; intros H; [done|]. apply nodots_cons in H as [Hc Hs]. cbn [splitDots].
  destruct (Ascii.eqb_spec c "."); [done|]. by rewrite IH.
Qed.

Lemma splitDots_app a s : nodots a -> splitDots (a +:+ "." +:+ s) = a :: splitDots s.
Proof.
  induction a as [|c a IH]; intros H; [done|]. apply nodots_cons in H as [Hc Ha].
  change (String c a +:+ "." +:+ s) with (String c (a +:+ "." +:+ s)). cbn [splitDots].
  destruct (Ascii.eqb_spec c "."); [done|]. by rewrite IH.
Qed.

Lemma splitDots_head s p ps : splitDots s = p :: ps ->
  nodots p /\ (ps = [] /\ s = p \/ exists rest, s = p +:+ "." +:+ rest /\ splitDots rest = ps).
Proof.
  revert p ps. induction s as [|c s IH]; intros p ps H; cbn [splitDots] in H.
  - injection H as <- <-. split; [done|]. by left.
  - destruct (Ascii.eqb_spec c ".") as [->|Hc].
    + injection H as <- <-. split; [done|]. right. by exists s.
    + destruct (splitDots s) as [|q qs] eqn:E; [by apply splitDots_nonempty in E|]. injection H as <- <-.
      destruct (IH q qs eq_refl) as [Hq [[-> ->]|(rest & -> & Hr)]].
      * split; [by apply nodots_cons|]. by left.
      * split; [by apply nodots_cons|]. right. by exists rest.
Qed.

Lemma splitDots_three s h p g : splitDots s = [h; p; g] <->
  s = h +:+ "." +:+ p +:+ "." +:+ g /\ nodots h /\ nodots p /\ nodots g.
Proof.
  split.
  - intros H. destruct (splitDots_head _ _ _ H) as [Hh [[? _]|(r & -> & Hr)]]; [done|].
    destruct (splitDots_head _ _ _ Hr) as [Hp [[? _]|(r' & -> & Hr')]]; [done|].
    destruct (splitDots_head _ _ _ Hr') as [Hg [[_ ->]|(r'' & _ & Hr'')]]; [done|].
    by apply splitDots_nonempty in Hr''.
  - intros (-> & Hh & Hp & Hg). by rewrite !splitDots_app, splitDots_nodots.
Qed.

Lemma lastDot_nodots s : nodots s -> lastDot s = None.
Proof.
  induction s as [|c s IH]; intros H; [done|]. apply nodots_cons in H as [Hc Hs]. cbn [lastDot]. rewrite IH by done.
  by destruct (Ascii.eqb_spec c ".").
Qed.

Lemma lastDot_app a b : nodots b -> lastDot (a +:+ "." +:+ b) = Some (a, b).
Proof.
  intros Hb. induction a as [|c a IH].
  - change ("" +:+ "." +:+ b) with (String "." b). cbn [lastDot]. by rewrite lastDot_nodots.
  - change (String c a +:+ "." +:+ b) with (String c (a +:+ "." +:+ b)). cbn [lastDot]. by rewrite IH.
Qed.

Lemma lastDot_spec s a b : lastDot s = Some (a, b) -> s = a +:+ "." +:+ b.
Proof.
  revert a. induction s as [|c s IH]; intros a H; [done|]. cbn [lastDot] in H.
  destruct (lastDot s) as [[x y]|] eqn:E.
  - injection H as <- <-. by rewrite (IH x eq_refl).
  - destruct (Ascii.eqb_spec c ".") as [->|]; [|done]. by injection H as <- <-.
Qed.

Lemma dropBytes_app a b : dropBytes (String.length a) (a +:+ b) = b.
Proof. induction a as [|c a IH]; [by destruct b|]. exact IH. Qed.

(** ** What a token is signed over *)

#[local] Opaque EncodeToString DecodeString hmac256 marshalGrant marshalCap.

Definition grantInput (c : VaultGrantClaims) : string :=
  EncodeToString grantHeaderJSON +:+ "." +:+ EncodeToString (marshalGrant c).
Definition capInput (c : CapTokenClaims) : string := EncodeToString (marshalCap c).

(** The token ends in a signature of the message under the key. *)
Definition carriesMAC (csk raw msg : string) : Prop :=
  exists prefix sig, raw = prefix +:+ msg +:+ "." +:+ sig /\ DecodeString sig = Some (hmac256 csk msg).

(** The messages of the two kinds of token differ. *)
Lemma inputs_apart g c : grantInput g <> capInput c.
Proof.
  intros E. assert (nodots (grantInput g)) as H by (rewrite E; apply Encode_nodots).
  pose proof (splitDots_nodots _ H) as H1. unfold grantInput in H1. rewrite splitDots_app in H1 by apply Encode_nodots.
  injection H1 as _ H1. by apply splitDots_nonempty in H1.
Qed.

Section tokens.
Context (T : texts) (csk : string).

(** A grant that verifies carries a signature over a message; if a signer of grants
    signed that message, the claims are the ones it signed. *)
Lemma VerifyGrant_authentic raw now c : VerifyGrant T csk raw now = inl c ->
  validateClaimsForVerify T c now = None
  /\ exists msg, carriesMAC csk raw msg
     /\ (forall c', grantOk c' -> msg = grantInput c' -> c' = c) /\ (forall c', msg <> capInput c').
Proof.
  unfold VerifyGrant. destruct (CutPrefix raw grantTokenPrefix) as [body|] eqn:E1; [|done].
  apply CutPrefix_spec in E1 as ->.
  destruct (splitDots body) as [|h [|p [|g [|]]]] eqn:E2; try done. apply splitDots_three in E2 as (-> & Hh & Hp & Hg).
  destruct (DecodeString g) as [sig|] eqn:E3; [|done]. case_bool_decide as E4; [|done]. cbn [negb].
  destruct (DecodeString p) as [payload|] eqn:E5; [|done]. destruct (decodeGrant payload) as [c0|] eqn:E6; [|done].
  destruct (validateClaimsForVerify T c0 now) eqn:E7; [done|]. intros [= <-]. split; [done|].
  exists (h +:+ "." +:+ p). split; [|split].
  - exists grantTokenPrefix, g. split; [by rewrite !string_app_assoc|]. by rewrite E3, E4.
  - intros c' Hc' E. pose proof (splitDots_app h p Hh) as S1. rewrite E in S1. unfold grantInput in S1.
    rewrite splitDots_app, !splitDots_nodots in S1; [|done|apply Encode_nodots..]. injection S1 as _ S1.
    rewrite <- S1, Decode_Encode in E5. injection E5 as <-. rewrite decodeGrant_marshal in E6 by done. by injection E6.
  - intros c' E. assert (nodots (h +:+ "." +:+ p)) as H by (rewrite E; apply Encode_nodots).
    apply splitDots_nodots in H. rewrite splitDots_app in H by done. injection H as _ H. by apply splitDots_nonempty in H.
Qed.

(** What was signed verifies, with the claims it was given, until it expires. *)
Lemma VerifyGrant_signed c raw now : grantOk c -> SignGrant T csk c = inl raw ->
  VerifyGrant T csk raw now = match validateClaimsForVerify T c now with Some e => inr e | None => inl c end.
Proof.
  intros Hc. unfold SignGrant. destruct (validateClaimsForSign T c); [done|].
  intros E. match type of E with inl ?x = _ => assert (x = raw) as <- by congruence end. clear E. unfold VerifyGrant. rewrite (proj2 (CutPrefix_spec _ grantTokenPrefix _) eq_refl).
  rewrite <- !string_app_assoc.
  rewrite (proj2 (splitDots_three _ (EncodeToString grantHeaderJSON) (EncodeToString (marshalGrant c)) _)
             (conj eq_refl (conj (Encode_nodots _) (conj (Encode_nodots _) (Encode_nodots _))))).
  rewrite !Decode_Encode, bool_decide_eq_true_2 by done. cbn [negb]. by rewrite decodeGrant_marshal.
Qed.

Lemma VerifyCapToken_authentic raw now c : VerifyCapToken T csk raw now = inl c ->
  Unix now <= CExpiresAt c
  /\ exists msg, carriesMAC csk raw msg
     /\ (forall c', capOk c' -> msg = capInput c' -> c' = c) /\ (forall c', msg <> grantInput c').
Proof.
  unfold VerifyCapToken, capBody. destruct (Nat.ltb_spec (String.length raw) (String.length capTokenPrefix)) as [|Hl]; [done|].
  destruct (lastDot _) as [[p g]|] eqn:E1; [|done]. apply lastDot_spec in E1.
  destruct (DecodeString g) as [sig|] eqn:E2; [|done]. case_bool_decide as E3; [|done]. cbn [negb].
  destruct (DecodeString p) as [payload|] eqn:E4; [|done]. destruct (decodeCap payload) as [c0|] eqn:E5; [|done].
  destruct (Z.ltb_spec (CExpiresAt c0) (Unix now)) as [|Hexp]; [done|]. intros [= <-]. split; [done|].
  exists p. split; [|split].
  - assert (forall n s, exists pre, s = pre +:+ dropBytes n s) as K.
    { intros n. induction n as [|n IH]; intros s; [by exists ""|]. destruct s as [|x s]; [by exists ""|].
      destruct (IH s) as [pre E]. exists (String x pre). cbn. by rewrite <- E. }
    destruct (K (String.length capTokenPrefix) raw) as [pre E]. rewrite E1 in E. exists pre, g. split; [done|]. by rewrite E2, E3.
  - intros c' Hc' ->. unfold capInput in E4. rewrite Decode_Encode in E4. injection E4 as <-.
    rewrite decodeCap_marshal in E5 by done. by injection E5.
  - intros c' ->. apply Decode_nodots in E4. apply splitDots_nodots in E4. unfold grantInput in E4.
    rewrite splitDots_app in E4 by apply Encode_nodots. injection E4 as _ H. by apply splitDots_nonempty in H.
Qed.

Lemma VerifyCapToken_signed c now : capOk c ->
  VerifyCapToken T csk (SignCapToken csk c) now
  = if CExpiresAt c <? Unix now then inr (Err "token expired") else inl c.
Proof.
  intros Hc. unfold VerifyCapToken, SignCapToken, capBody.
  rewrite string_app_length, (proj2 (Nat.ltb_ge _ _)) by lia. rewrite dropBytes_app, lastDot_app by apply Encode_nodots.
  rewrite !Decode_Encode, bool_decide_eq_true_2 by done. cbn [negb]. by rewrite decodeCap_marshal.
Qed.

End tokens.
End VToken.
