(* ===== verification/VaultStore.v ===== *)
(** * The vault store

    Model of [src/pkg/vault/store.go], [src/pkg/vault/grant.go] and the key handling of
    [src/pkg/vault/crypto.go] over the tables of [src/pkg/tenant/schema/vault.go].
    Operations run in a state and error monad: the state is the tables, the claims the
    server has signed so far, and what the environment will supply, one entry per use -
    clock readings, identifiers of [uuid.NewString], random bytes, the outcome of each
    database statement, and the key another server may insert for a tenant between the
    look-up and the insertion of one.  A statement succeeds, fails without effect, or
    takes effect and reports a failure (a connection lost after the commit); column
    widths fall under its failures.  [DATETIME(3)] columns are rounded. *)

From Stdlib Require Import Strings.Ascii.
From S2P Require Import Prelude GoStrings Json Sha256 AesGcm JsonStruct VaultScope VaultToken.

Import GoStr Sha256 Gcm JStruct Scope VToken.

Module VStore.

#[local] Arguments String.append !_ _ / : simpl nomatch.

(** ** Tables *)

Record secretRow := {
  secret_id : string;
  secret_type : string;
  revision : Z;
  created_by : string;
  created_at : Z;
  updated_at : Z;
  deleted_at : option Z
}.

Record fieldRow := { encrypted_value : string; nonce : string }.

Record tokenRow := {
  t_tenant : string;
  agent_id : string;
  task_id : string;
  t_scope : string;
  t_issued_at : Z;
  t_expires_at : Z;
  t_revoked_at : option Z;
  t_revoked_by : string;
  t_reason : string
}.

Record grantRow := {
  g_tenant : string;
  g_issuer : string;
  g_principal : string;
  g_agent : string;
  g_scope : string;
  g_perm : string;
  g_label : option string;
  g_issued_at : Z;
  g_expires_at : Z;
  g_revoked_at : option Z;
  g_revoked_by : string;
  g_reason : string
}.

Record auditRow := {
  event_id : string;
  a_tenant : string;
  event_type : string;
  a_token : string;
  a_agent : string;
  a_task : string;
  secret_name : string;
  field_name : string;
  adapter : string;
  detail_json : option string;
  a_time : Z
}.

(** [vault_deks] by tenant, [vault_secrets] by its unique index on tenant and name,
    [vault_secret_fields], [vault_tokens] and [vault_grants] by their primary keys, and
    [vault_audit_log] in the order of insertion. *)
Record tables := {
  deks : gmap string string;
  secrets : gmap (string * string) secretRow;
  fields : gmap (string * string) fieldRow;
  tokens : gmap string tokenRow;
  grants : gmap string grantRow;
  audit : list auditRow
}.

Definition emptyTables : tables :=
  {| deks := ∅; secrets := ∅; fields := ∅; tokens := ∅; grants := ∅; audit := [] |}.

Definition set_deks (x : gmap string string) (d : tables) : tables :=
  Build_tables x (secrets d) (fields d) (tokens d) (grants d) (audit d).
Definition set_secrets (x : gmap (string * string) secretRow) (d : tables) : tables :=
  Build_tables (deks d) x (fields d) (tokens d) (grants d) (audit d).
Definition set_fields (x : gmap (string * string) fieldRow) (d : tables) : tables :=
  Build_tables (deks d) (secrets d) x (tokens d) (grants d) (audit d).
Definition set_tokens (x : gmap string tokenRow) (d : tables) : tables :=
  Build_tables (deks d) (secrets d) (fields d) x (grants d) (audit d).
Definition set_grants (x : gmap string grantRow) (d : tables) : tables :=
  Build_tables (deks d) (secrets d) (fields d) (tokens d) x (audit d).
Definition set_audit (x : list auditRow) (d : tables) : tables :=
  Build_tables (deks d) (secrets d) (fields d) (tokens d) (grants d) x.

(** A time in a [DATETIME(3)] column: sent in microseconds, rounded to milliseconds. *)
Definition dbTime (t : Z) : Z := (t / 1000 + 500) / 1000 * 10 ^ 6.

(** ** The environment and the monad *)

Inductive fault := Fine | Lost (text : string) | Late (text : string).

Record environment := {
  clock : list Z;
  uuids : list string;
  draws : list string;
  faults : list fault;
  rivals : list (option string)
}.

(** [signedCaps] and [signedGrants] are the claims signed so far, [troubles] counts the
    statements that failed; no operation looks at them. *)
Record world := {
  tbl : tables;
  env : environment;
  signedCaps : list CapTokenClaims;
  signedGrants : list VaultGrantClaims;
  troubles : nat
}.

Definition set_tbl (d : tables) (w : world) : world :=
  Build_world d (env w) (signedCaps w) (signedGrants w) (troubles w).
Definition set_env (e : environment) (w : world) : world :=
  Build_world (tbl w) e (signedCaps w) (signedGrants w) (troubles w).

Definition M (A : Type) : Type := world -> world * (A + error).

Definition ret {A} (a : A) : M A := fun w => (w, inl a).
Definition throw {A} (e : error) : M A := fun w => (w, inr e).
Definition bind {A B} (m : M A) (k : A -> M B) : M B := fun w =>
  match m w with
  | (w, inl a) => k a w
  | (w, inr e) => (w, inr e)
  end.
Notation "'let!' x ':=' m 'in' k" := (bind m (fun x => k))
  (at level 200, x pattern, m at level 100, k at level 200).
Notation "m ;! k" := (bind m (fun _ => k)) (at level 100, right associativity).

(** The result of a call whose error the caller looks at. *)
Definition attempt {A} (m : M A) : M (A + error) := fun w =>
  let '(w, r) := m w in (w, inl r).

(** [fmt.Errorf] with a text before the error. *)
Definition wrapErr {A} (text : string) (m : M A) : M A := fun w =>
  match m w with
  | (w, inr e) => (w, inr (Err (text +:+ errorText e)))
  | r => r
  end.

Definition ofSum {A} (r : A + error) : M A := fun w => (w, r).

(** The first [n] bytes of a text, with zeros if it is short. *)
Fixpoint sized (n : nat) (s : string) : string :=
  match n with
  | O => ""
  | S n => match s with
           | String c s => String c (sized n s)
           | EmptyString => String zero (sized n "")
           end
  end.

(** [time.Now], [uuid.NewString] and [io.ReadFull(rand.Reader, make([]byte, n))],
    which since Go 1.24 does not fail. *)
Definition timeNow : M Z := fun w =>
  let e := env w in
  (set_env (Build_environment (tail (clock e)) (uuids e) (draws e) (faults e) (rivals e)) w,
   inl (default 0 (head (clock e)))).
Definition newUUID : M string := fun w =>
  let e := env w in
  (set_env (Build_environment (clock e) (tail (uuids e)) (draws e) (faults e) (rivals e)) w,
   inl (default "" (head (uuids e)))).
Definition randBytes (n : nat) : M string := fun w =>
  let e := env w in
  (set_env (Build_environment (clock e) (uuids e) (tail (draws e)) (faults e) (rivals e)) w,
   inl (sized n (default "" (head (draws e))))).

(** The outcome of the next statement. *)
Definition nextFault : M fault := fun w =>
  let e := env w in
  let f := default Fine (head (faults e)) in
  (Build_world (tbl w) (Build_environment (clock e) (uuids e) (draws e) (tail (faults e)) (rivals e))
     (signedCaps w) (signedGrants w) (match f with Fine => troubles w | _ => S (troubles w) end),
   inl f).

Definition nextRival : M (option string) := fun w =>
  let e := env w in
  (set_env (Build_environment (clock e) (uuids e) (draws e) (faults e) (tail (rivals e))) w,
   inl (default None (head (rivals e)))).

Definition getTables : M tables := fun w => (w, inl (tbl w)).
Definition putTables (d : tables) : M unit := fun w => (set_tbl d w, inl tt).

(** A query. *)
Definition query {A} (f : tables -> A) : M A :=
  let! o := nextFault in
  match o with
  | Fine => let! d := getTables in ret (f d)
  | Lost t | Late t => throw (Err t)
  end.

(** A statement that changes the tables, or violates a key. *)
Definition exec {A} (f : tables -> (tables * A) + error) : M A :=
  let! o := nextFault in
  match o with
  | Lost t => throw (Err t)
  | _ =>
      let! d := getTables in
      match f d with
      | inr e => throw e
      | inl (d, a) =>
          putTables d ;!
          match o with Late t => throw (Err t) | _ => ret a end
      end
  end.

(** A transaction: rolled back on an error; the commit may fail before or after it takes
    effect. *)
Definition restoring {A} (m : M A) : M A := fun w =>
  match m w with
  | (w', inr e) => (set_tbl (tbl w) w', inr e)
  | r => r
  end.
Definition transaction {A} (m : M A) : M A :=
  let! o := nextFault in
  match o with
  | Fine =>
      let! before := getTables in
      let! a := restoring m in
      let! o := nextFault in
      match o with
      | Fine => ret a
      | Lost t => putTables before ;! throw (Err t)
      | Late t => throw (Err t)
      end
  | Lost t | Late t => throw (Err t)
  end.

(** MySQL's error for a key that exists. *)
Definition duplicateEntry (key index : string) : error :=
  Err ("Error 1062 (23000): Duplicate entry '" +:+ key +:+ "' for key '" +:+ index +:+ "'").

(** ** Keys *)

(** [MasterKey.GenerateDEK]: the wrapped key, after its nonce. *)
Definition GenerateDEK (mk : string) : M (string * string) :=
  let! plainDEK := wrapErr "generate DEK: " (randBytes 32) in
  let! n := wrapErr "generate nonce: " (randBytes gcmNonceSize) in
  ret (plainDEK, n +:+ gcmSeal mk n plainDEK).

(** [MasterKey.UnwrapDEK] *)
Definition UnwrapDEK (mk wrapped : string) : string + error :=
  if (String.length wrapped <? gcmNonceSize)%nat then inr (Err "wrapped DEK too short")
  else
    match gcmOpen mk (String.substring 0 gcmNonceSize wrapped) (dropBytes gcmNonceSize wrapped) with
    | Some dek => inl dek
    | None => inr (Err "unwrap DEK: cipher: message authentication failed")
    end.

(** [NewMasterKey]: the key's length is all there is to check. *)
Definition NewMasterKey (key : string) : option string :=
  if Nat.eqb (String.length key) 32 then Some key else None.

(** [NewFieldEncryptor]: the key it will use. *)
Definition NewFieldEncryptor (dek : string) : string + error :=
  if Nat.eqb (String.length dek) 32 then inl dek else inr (Err "DEK must be 32 bytes").

(** [FieldEncryptor.Encrypt]: ciphertext and nonce. *)
Definition Encrypt (dek plaintext : string) : M (string * string) :=
  let! n := randBytes gcmNonceSize in
  ret (gcmSeal dek n plaintext, n).

(** [FieldEncryptor.Decrypt] *)
Definition Decrypt (dek ciphertext n : string) : string + error :=
  match gcmOpen dek n ciphertext with
  | Some p => inl p
  | None => inr (Err "cipher: message authentication failed")
  end.

(** [GenerateNonce]: sixteen bytes in hexadecimal. *)
Definition GenerateNonce : M string := let! b := randBytes 16 in ret (hexEncode b).

(** [INSERT IGNORE] of a tenant's key. *)
Definition insertDEK (tenantID wrapped : string) (d : tables) : tables :=
  match deks d !! tenantID with
  | Some _ => d
  | None => set_deks (<[tenantID := wrapped]> (deks d)) d
  end.

Section store.
Context (mk : string).

Definition GetOrCreateDEK (tenantID : string) : M string :=
  let! row := wrapErr "query DEK: " (query (fun d => deks d !! tenantID)) in
  match row with
  | Some w => ofSum (UnwrapDEK mk w)
  | None =>
      let! p := GenerateDEK mk in
      let! rival := nextRival in
      let! d := getTables in
      putTables (match rival with Some w => insertDEK tenantID w d | None => d end) ;!
      wrapErr "insert DEK: " (exec (fun d => inl (insertDEK tenantID (snd p) d, tt))) ;!
      let! row := wrapErr "re-read DEK: " (query (fun d => deks d !! tenantID)) in
      match row with
      | Some w => ofSum (UnwrapDEK mk w)
      | None => throw (Err "re-read DEK: sql: no rows in result set")
      end
  end.

Definition fieldEncryptor (tenantID : string) : M string :=
  let! dek := GetOrCreateDEK tenantID in
  ofSum (NewFieldEncryptor dek).

(** ** Secrets *)

Record Secret := {
  SecretID : string;
  STenantID : string;
  Name : string;
  SecretType : string;
  Revision : Z;
  CreatedBy : string;
  CreatedAt : Z;
  UpdatedAt : Z;
  DeletedAt : option Z
}.

(** The insertion of a secret: its identifier is the primary key, tenant and name are
    unique. *)
Definition insertSecret (tenantID name : string) (r : secretRow) (d : tables) : (tables * unit) + error :=
  if existsb (fun p => bool_decide (secret_id (snd p) = secret_id r)) (map_to_list (secrets d))
  then inr (duplicateEntry (secret_id r) "vault_secrets.PRIMARY")
  else
    match secrets d !! (tenantID, name) with
    | Some _ => inr (duplicateEntry (tenantID +:+ "-" +:+ name) "vault_secrets.uk_vault_secrets_tenant_name")
    | None => inl (set_secrets (<[(tenantID, name) := r]> (secrets d)) d, tt)
    end.

Definition insertField (id name : string) (r : fieldRow) (d : tables) : (tables * unit) + error :=
  match fields d !! (id, name) with
  | Some _ => inr (duplicateEntry (id +:+ "-" +:+ name) "vault_secret_fields.PRIMARY")
  | None => inl (set_fields (<[(id, name) := r]> (fields d)) d, tt)
  end.

(** The loop over the fields of a secret: encrypt and insert each. *)
Fixpoint insertFields (wrapInsert : string -> string) (dek id : string) (fs : list (string * string)) : M unit :=
  match fs with
  | [] => ret tt
  | (k, plaintext) :: fs =>
      let! c := wrapErr ("encrypt field " +:+ k +:+ ": ") (Encrypt dek plaintext) in
      wrapErr (wrapInsert k) (exec (insertField id k {| encrypted_value := fst c; nonce := snd c |})) ;!
      insertFields wrapInsert dek id fs
  end.

Definition CreateSecret (tenantID name createdBy secretType : string) (fs : gmap string string) : M Secret :=
  let! dek := fieldEncryptor tenantID in
  let! secretID := newUUID in
  let! now := timeNow in
  transaction (
    wrapErr "insert secret: " (exec (insertSecret tenantID name
      {| secret_id := secretID; secret_type := secretType; revision := 1; created_by := createdBy;
         created_at := dbTime now; updated_at := dbTime now; deleted_at := None |})) ;!
    insertFields (fun k => "insert field " +:+ k +:+ ": ") dek secretID (map_to_list fs)) ;!
  ret {| SecretID := secretID; STenantID := tenantID; Name := name; SecretType := secretType; Revision := 1;
         CreatedBy := createdBy; CreatedAt := now; UpdatedAt := now; DeletedAt := None |}.

Definition secretOf (tenantID name : string) (r : secretRow) : Secret :=
  {| SecretID := secret_id r; STenantID := tenantID; Name := name; SecretType := secret_type r;
     Revision := revision r; CreatedBy := created_by r; CreatedAt := created_at r; UpdatedAt := updated_at r;
     DeletedAt := deleted_at r |}.

(** The row of a name that is not marked deleted. *)
Definition liveRow (tenantID name : string) (d : tables) : option secretRow :=
  match secrets d !! (tenantID, name) with
  | Some r => match deleted_at r with None => Some r | Some _ => None end
  | None => None
  end.

Definition GetSecret (tenantID name : string) : M Secret :=
  let! row := query (liveRow tenantID name) in
  match row with
  | Some r => ret (secretOf tenantID name r)
  | None => throw ErrNotFound
  end.

Definition ListSecrets (tenantID : string) : M (list Secret) :=
  query (fun d =>
    sortBy (fun a b => String.ltb (Name a) (Name b))
      (omap (fun p => if bool_decide (fst (fst p) = tenantID) && bool_decide (deleted_at (snd p) = None)
                      then Some (secretOf tenantID (snd (fst p)) (snd p)) else None)
         (map_to_list (secrets d)))).

(** [DELETE FROM vault_secret_fields WHERE secret_id = ?] and the same for secrets. *)
Definition deleteFields (id : string) (d : tables) : tables :=
  set_fields (filter (fun p => fst (fst p) <> id) (fields d)) d.
Definition deleteSecret (id : string) (d : tables) : tables :=
  set_secrets (filter (fun p => secret_id (snd p) <> id) (secrets d)) d.

Definition bumpRow (id : string) (rev now : Z) (r : secretRow) : secretRow :=
  if bool_decide (secret_id r = id)
  then {| secret_id := secret_id r; secret_type := secret_type r; revision := rev; created_by := created_by r;
          created_at := created_at r; updated_at := dbTime now; deleted_at := deleted_at r |}
  else r.

Definition UpdateSecret (tenantID name : string) (fs : gmap string string) : M Secret :=
  let! dek := fieldEncryptor tenantID in
  let! r := transaction (
    let! now := timeNow in
    let! row := query (liveRow tenantID name) in
    match row with
    | None => throw ErrNotFound
    | Some r =>
        let newRevision := wrap64 (revision r + 1) in
        exec (fun d => inl (set_secrets (bumpRow (secret_id r) newRevision now <$> secrets d) d, tt)) ;!
        exec (fun d => inl (deleteFields (secret_id r) d, tt)) ;!
        insertFields (fun _ => "") dek (secret_id r) (map_to_list fs) ;!
        ret (secret_id r, newRevision, now)
    end) in
  let '(id, rev, now) := r in
  ret {| SecretID := id; STenantID := tenantID; Name := name; SecretType := ""; Revision := rev;
         CreatedBy := ""; CreatedAt := 0; UpdatedAt := now; DeletedAt := None |}.

Definition DeleteSecret (tenantID name : string) : M unit :=
  transaction (
    let! row := query (fun d => secrets d !! (tenantID, name)) in
    match row with
    | None => throw ErrNotFound
    | Some r =>
        exec (fun d => inl (deleteFields (secret_id r) d, tt)) ;!
        exec (fun d => inl (deleteSecret (secret_id r) d, tt))
    end).

(** The rows of a secret's fields. *)
Definition fieldRows (id : string) (d : tables) : list (string * fieldRow) :=
  omap (fun p => if bool_decide (fst (fst p) = id) then Some (snd (fst p), snd p) else None)
    (map_to_list (fields d)).

Fixpoint decryptRows (dek : string) (rows : list (string * fieldRow)) (m : gmap string string)
    : gmap string string + error :=
  match rows with
  | [] => inl m
  | (k, r) :: rows =>
      match Decrypt dek (encrypted_value r) (nonce r) with
      | inr e => inr (Err ("decrypt field " +:+ k +:+ ": " +:+ errorText e))
      | inl p => decryptRows dek rows (<[k := p]> m)
      end
  end.

Definition ReadSecretFields (tenantID name : string) : M (gmap string string) :=
  let! sec := GetSecret tenantID name in
  let! dek := fieldEncryptor tenantID in
  let! rows := query (fieldRows (SecretID sec)) in
  ofSum (decryptRows dek rows ∅).

Definition ReadSecretField (tenantID name fieldName : string) : M string :=
  let! sec := GetSecret tenantID name in
  let! dek := fieldEncryptor tenantID in
  let! row := query (fun d => fields d !! (SecretID sec, fieldName)) in
  match row with
  | None => throw ErrFieldNotFound
  | Some r => ofSum (Decrypt dek (encrypted_value r) (nonce r))
  end.

(** ** Capability tokens *)

Context (T : texts).

Record CapToken := {
  CapTokenID : string;
  CapTenantID : string;
  CapAgentID : string;
  CapTaskID : string;
  CapScope : list string;
  CapIssuedAt : Z;
  CapExpiresAt : Z
}.

(** The claims that were signed are remembered. *)
Definition noteCap (c : CapTokenClaims) : M unit := fun w =>
  (Build_world (tbl w) (env w) (signedCaps w ++ [c]) (signedGrants w) (troubles w), inl tt).
Definition noteGrant (c : VaultGrantClaims) : M unit := fun w =>
  (Build_world (tbl w) (env w) (signedCaps w) (signedGrants w ++ [c]) (troubles w), inl tt).

Definition insertToken (id : string) (r : tokenRow) (d : tables) : (tables * unit) + error :=
  match tokens d !! id with
  | Some _ => inr (duplicateEntry id "vault_tokens.PRIMARY")
  | None => inl (set_tokens (<[id := r]> (tokens d)) d, tt)
  end.

Definition IssueCapToken (tenantID agentID taskID : string) (scope : list string) (ttl : Z)
    : M (string * CapToken) :=
  let! u := newUUID in
  let tokenID := "cap_" +:+ u in
  let! now := timeNow in
  let expiresAt := now + ttl in
  let! n := GenerateNonce in
  let claims := {| TokenID := tokenID; CTenantID := tenantID; AgentID := agentID; TaskID := taskID;
                   CScope := scope; CIssuedAt := Unix now; CExpiresAt := Unix expiresAt; Nonce := n |} in
  let csk := DeriveCSK mk tenantID in
  noteCap claims ;!
  let tokenStr := SignCapToken csk claims in
  wrapErr "insert token: " (exec (insertToken tokenID
    {| t_tenant := tenantID; agent_id := agentID; task_id := taskID; t_scope := marshalStrings scope;
       t_issued_at := dbTime now; t_expires_at := dbTime expiresAt; t_revoked_at := None;
       t_revoked_by := ""; t_reason := "" |})) ;!
  ret (tokenStr, {| CapTokenID := tokenID; CapTenantID := tenantID; CapAgentID := agentID;
                    CapTaskID := taskID; CapScope := scope; CapIssuedAt := now; CapExpiresAt := expiresAt |}).

Definition VerifyAndResolveCapToken (tenantID raw : string) : M CapTokenClaims :=
  let csk := DeriveCSK mk tenantID in
  let! now := timeNow in
  let! claims := ofSum (VerifyCapToken T csk raw now) in
  let! row := wrapErr "query token: " (query (fun d => tokens d !! TokenID claims)) in
  match row with
  | None => throw (Err "token not found")
  | Some r =>
      if negb (bool_decide (t_tenant r = tenantID)) then throw (Err "token not found")
      else match t_revoked_at r with
           | Some _ => throw (Err "token revoked")
           | None => ret claims
           end
  end.

Definition revokeTokenRow (now : Z) (revokedBy reason : string) (r : tokenRow) : tokenRow :=
  {| t_tenant := t_tenant r; agent_id := agent_id r; task_id := task_id r; t_scope := t_scope r;
     t_issued_at := t_issued_at r; t_expires_at := t_expires_at r; t_revoked_at := Some (dbTime now);
     t_revoked_by := revokedBy; t_reason := reason |}.

(** [UPDATE vault_tokens SET revoked_at ...]: the rows it affected. *)
Definition updateToken (tenantID tokenID : string) (f : tokenRow -> tokenRow) (d : tables) : (tables * Z) + error :=
  match tokens d !! tokenID with
  | Some r =>
      if bool_decide (t_tenant r = tenantID) && bool_decide (t_revoked_at r = None)
      then inl (set_tokens (<[tokenID := f r]> (tokens d)) d, 1) else inl (d, 0)
  | None => inl (d, 0)
  end.

Definition RevokeCapToken (tenantID tokenID revokedBy reason : string) : M unit :=
  let! now := timeNow in
  let! n := exec (updateToken tenantID tokenID (revokeTokenRow now revokedBy reason)) in
  if n =? 0 then throw ErrNotFound else ret tt.

(** ** Grants *)

Record VaultGrant := {
  VGrantID : string;
  VTenantID : string;
  VIssuer : string;
  VPrincipalType : string;
  VAgent : string;
  VScope : list string;
  VPerm : string;
  VLabelHint : string;
  VIssuedAt : Z;
  VExpiresAt : Z
}.

Definition nullableString (s : string) : option string := if bool_decide (s = "") then None else Some s.

Definition insertGrant (id : string) (r : grantRow) (d : tables) : (tables * unit) + error :=
  match grants d !! id with
  | Some _ => inr (duplicateEntry id "vault_grants.PRIMARY")
  | None => inl (set_grants (<[id := r]> (grants d)) d, tt)
  end.

Definition IssueGrant (tenantID issuer principal agent : string) (scope : list string) (perm : string)
    (ttl : Z) (labelHint : string) : M (string * VaultGrant) :=
  if ttl <=? 0 then throw (Err "ttl must be positive")
  else if bool_decide (scope = []) then throw (Err "scope must not be empty")
  else match scopeText T scope with
  | Some t => throw (Err t)
  | None =>
  if negb (bool_decide (principal = PrincipalOwner)) && negb (bool_decide (principal = PrincipalDelegated))
  then throw (Err "invalid principal_type")
  else if negb (bool_decide (perm = GrantPermRead)) && negb (bool_decide (perm = GrantPermWrite))
  then throw (Err "invalid perm")
  else if bool_decide (agent = "") then throw (Err "agent is required")
  else if bool_decide (issuer = "") then throw (Err "issuer is required")
  else
    let! u := newUUID in
    let grantID := "grt_" +:+ u in
    let! now := timeNow in
    let expiresAt := now + ttl in
    let claims := {| Issuer := issuer; GrantID := grantID; TenantID := tenantID; PrincipalType := principal;
                     Agent := agent; GScope := scope; Perm := perm; ExpiresAt := Unix expiresAt;
                     LabelHint := labelHint |} in
    let csk := DeriveCSK mk tenantID in
    let! tokenStr := ofSum (SignGrant T csk claims) in
    noteGrant claims ;!
    wrapErr "insert grant: " (exec (insertGrant grantID
      {| g_tenant := tenantID; g_issuer := issuer; g_principal := principal; g_agent := agent;
         g_scope := marshalStrings scope; g_perm := perm; g_label := nullableString labelHint;
         g_issued_at := dbTime now; g_expires_at := dbTime expiresAt; g_revoked_at := None;
         g_revoked_by := ""; g_reason := "" |})) ;!
    ret (tokenStr, {| VGrantID := grantID; VTenantID := tenantID; VIssuer := issuer;
                      VPrincipalType := principal; VAgent := agent; VScope := scope; VPerm := perm;
                      VLabelHint := labelHint; VIssuedAt := now; VExpiresAt := expiresAt |})
  end.

Definition VerifyAndResolveGrant (tenantID expectedIssuer raw : string) : M VaultGrantClaims :=
  let csk := DeriveCSK mk tenantID in
  let! now := timeNow in
  let! claims := ofSum (VerifyGrant T csk raw now) in
  if negb (bool_decide (TenantID claims = tenantID)) then throw (Err "tenant_id mismatch")
  else if negb (bool_decide (expectedIssuer = "")) && negb (bool_decide (Issuer claims = expectedIssuer))
  then throw (Err "invalid issuer")
  else
    let! row := wrapErr "query grant: " (query (fun d => grants d !! GrantID claims)) in
    match row with
    | None => throw (Err "grant not found")
    | Some r =>
        if negb (bool_decide (g_tenant r = tenantID)) then throw (Err "grant not found")
        else match g_revoked_at r with
             | Some _ => throw (Err "grant revoked")
             | None => ret claims
             end
    end.

Definition revokeGrantRow (now : Z) (revokedBy reason : string) (r : grantRow) : grantRow :=
  {| g_tenant := g_tenant r; g_issuer := g_issuer r; g_principal := g_principal r; g_agent := g_agent r;
     g_scope := g_scope r; g_perm := g_perm r; g_label := g_label r; g_issued_at := g_issued_at r;
     g_expires_at := g_expires_at r; g_revoked_at := Some (dbTime now); g_revoked_by := revokedBy;
     g_reason := reason |}.

Definition updateGrant (tenantID grantID : string) (f : grantRow -> grantRow) (d : tables) : (tables * Z) + error :=
  match grants d !! grantID with
  | Some r =>
      if bool_decide (g_tenant r = tenantID) && bool_decide (g_revoked_at r = None)
      then inl (set_grants (<[grantID := f r]> (grants d)) d, 1) else inl (d, 0)
  | None => inl (d, 0)
  end.

Definition RevokeGrant (tenantID grantID revokedBy reason : string) : M unit :=
  let! now := timeNow in
  let! n := wrapErr "revoke grant: " (exec (updateGrant tenantID grantID (revokeGrantRow now revokedBy reason))) in
  if n =? 0 then throw ErrNotFound else ret tt.

(** ** The audit log *)

(** An event before it is written; its details are the members of a JSON object. *)
Record AuditEvent := {
  EventID : string;
  ETenantID : string;
  EventType : string;
  ETokenID : string;
  EAgentID : string;
  ETaskID : string;
  SecretName : string;
  FieldName : string;
  Adapter : string;
  Detail : option (list (string * string));
  Timestamp : option Z
}.

Definition insertAudit (r : auditRow) (d : tables) : (tables * unit) + error :=
  if existsb (fun a => bool_decide (event_id a = event_id r)) (audit d)
  then inr (duplicateEntry (event_id r) "vault_audit_log.PRIMARY")
  else inl (set_audit (audit d ++ [r]) d, tt).

Definition WriteAuditEvent (e : AuditEvent) : M unit :=
  let! id := if bool_decide (EventID e = "") then newUUID else ret (EventID e) in
  let! at' := match Timestamp e with None => timeNow | Some t => ret t end in
  exec (insertAudit
    {| event_id := id; a_tenant := ETenantID e; event_type := EventType e; a_token := ETokenID e;
       a_agent := EAgentID e; a_task := ETaskID e; secret_name := SecretName e; field_name := FieldName e;
       adapter := Adapter e; detail_json := marshalFields <$> Detail e; a_time := dbTime at' |}).

(** Newest first; the database may return events of the same time in any order, here in
    that of their insertion. *)
Definition QueryAuditLog (tenantID secretName : string) (limit : Z) : M (list auditRow) :=
  query (fun d =>
    take (Z.to_nat limit) (sortBy (fun a b => a_time b <? a_time a)
      (List.filter (fun a => bool_decide (a_tenant a = tenantID)
         && (bool_decide (secretName = "") || bool_decide (secret_name a = secretName))) (audit d)))).

End store.

End VStore.
