(* ===== verification/VaultServer.v ===== *)
(** * The vault's HTTP handlers

    Model of [src/pkg/server/vault.go] and of the capability middleware of
    [src/pkg/server/auth.go]: every handler of [/v1/vault/...] as a program in the vault
    store's monad that answers a response.  A request has its method, URL path, query
    parameters, headers and body; the tenant scope the management middleware
    authenticated is an argument, as are the tenants the meta store knows.  Response
    bodies are values; the lines of the env format are the pairs of a map.  Metrics and
    logging are left out, and so are failures to read a body. *)

From Stdlib Require Import Strings.Ascii.
From S2P Require Import Prelude GoStrings Json Sha256 AesGcm JsonStruct VaultScope VaultToken VaultStore.

Import GoStr JStruct Scope VToken VStore.

Module VServer.

#[local] Arguments String.append !_ _ / : simpl nomatch.

(** ** Strings *)

(** The text before and after the first occurrence of a text, as [strings.Index] finds
    it. *)
Fixpoint cutText (sep s : string) : option (string * string) :=
  match CutPrefix s sep with
  | Some rest => Some ("", rest)
  | None =>
      match s with
      | EmptyString => None
      | String c s => match cutText sep s with Some (a, b) => Some (String c a, b) | None => None end
      end
  end.
Definition Contains (s sub : string) : bool := if cutText sub s then true else false.

Definition lowerByte (c : ascii) : ascii :=
  let n := code c in if (65 <=? n) && (n <=? 90) then ascii_of_nat (Z.to_nat (n + 32)) else c.
Fixpoint lowerASCII (s : string) : string :=
  match s with EmptyString => EmptyString | String c s => String (lowerByte c) (lowerASCII s) end.

(** [isVaultDuplicateEntryErr] *)
Definition isVaultDuplicateEntryErr (e : error) : bool :=
  let msg := lowerASCII (errorText e) in
  Contains msg "duplicate entry" || Contains msg "unique constraint failed".

(** ** Requests and responses *)

Record request := {
  Method : string;
  Path : string;
  params : list (string * string);
  Authorization : string;
  XAPIKey : string;
  Body : string
}.

(** [r.URL.Query().Get] *)
Definition queryGet (r : request) (k : string) : string :=
  default "" (snd <$> List.find (fun p => bool_decide (fst p = k)) (params r)).

(** [io.LimitReader(r.Body, 1<<20)] *)
Definition limitedBody (r : request) : string :=
  if zlen (Sha256.bytesOf (Body r)) <=? 2 ^ 20 then Body r
  else String.substring 0 (Z.to_nat (2 ^ 20)) (Body r).

(** [bearerToken] *)
Definition bearerToken (r : request) : string :=
  if bool_decide (Authorization r = "") then
    if bool_decide (XAPIKey r = "") then "" else TrimSpace (XAPIKey r)
  else match CutPrefix (Authorization r) "Bearer " with Some t => TrimSpace t | None => "" end.

Inductive content :=
  | ErrorMessage (msg : string)
  | OneSecret (s : Secret)
  | SecretList (l : list Secret)
  | FieldValues (m : gmap string string)
  | EnvLines (m : gmap string string)
  | PlainText (s : string)
  | TokenIssued (token id : string) (expires : Z)
  | GrantIssued (token id : string) (expires : Z) (scope : list string) (perm : string)
  | StatusOK
  | AuditEvents (l : list auditRow)
  | SecretNames (l : list string).

Record response := { status : Z; answer : content }.

Definition reply (code : Z) (c : content) : M response := ret {| status := code; answer := c |}.
Definition errJSON (code : Z) (msg : string) : M response := reply code (ErrorMessage msg).

(** The tenant scope of a request. *)
Record tenantScope := { ScopeTenantID : string; APIKeyID : string; Provider : string; hasBackend : bool }.

Definition ProviderDB9 : string := "db9".

(** An audit event the store completes with an identifier and the time. *)
Definition event (tenantID type token agent task secret field adapter : string)
    (detail : option (list (string * string))) : AuditEvent :=
  {| EventID := ""; ETenantID := tenantID; EventType := type; ETokenID := token; EAgentID := agent;
     ETaskID := task; SecretName := secret; FieldName := field; Adapter := adapter; Detail := detail;
     Timestamp := None |}.

(** [_ = vs.WriteAuditEvent(...)] *)
Definition audited (e : AuditEvent) : M unit := attempt (WriteAuditEvent e) ;! ret tt.

(** ** Bodies *)

Record createReq := { crName : string; crType : string; crFields : gmap string string; crBy : string }.
Definition createFields : list (field createReq) :=
  [stringField "name" (fun v '(Build_createReq _ t f b) => Build_createReq v t f b);
   stringField "secret_type" (fun v '(Build_createReq n _ f b) => Build_createReq n v f b);
   mapField "fields" crFields (fun v '(Build_createReq n t _ b) => Build_createReq n t v b);
   stringField "created_by" (fun v '(Build_createReq n t f _) => Build_createReq n t f v)].
Definition zeroCreate : createReq := {| crName := ""; crType := ""; crFields := ∅; crBy := "" |}.

Record updateReq := { urFields : gmap string string; urBy : string }.
Definition updateFields : list (field updateReq) :=
  [mapField "fields" urFields (fun v '(Build_updateReq _ b) => Build_updateReq v b);
   stringField "updated_by" (fun v '(Build_updateReq f _) => Build_updateReq f v)].
Definition zeroUpdate : updateReq := {| urFields := ∅; urBy := "" |}.

Record tokenReq := { trAgent : string; trTask : string; trScope : goSlice; trTTL : Z }.
Definition tokenFields : list (field tokenReq) :=
  [stringField "agent_id" (fun v '(Build_tokenReq _ t s l) => Build_tokenReq v t s l);
   stringField "task_id" (fun v '(Build_tokenReq a _ s l) => Build_tokenReq a v s l);
   sliceField "scope" trScope (fun v '(Build_tokenReq a t _ l) => Build_tokenReq a t v l);
   intField "ttl_seconds" (fun v '(Build_tokenReq a t s _) => Build_tokenReq a t s v)].
Definition zeroToken : tokenReq := {| trAgent := ""; trTask := ""; trScope := nilSlice; trTTL := 0 |}.

Record grantReq := { grAgent : string; grScope : goSlice; grPerm : string; grTTL : Z; grLabel : string }.
Definition grantReqFields : list (field grantReq) :=
  [stringField "agent" (fun v '(Build_grantReq _ s p t l) => Build_grantReq v s p t l);
   sliceField "scope" grScope (fun v '(Build_grantReq a _ p t l) => Build_grantReq a v p t l);
   stringField "perm" (fun v '(Build_grantReq a s _ t l) => Build_grantReq a s v t l);
   intField "ttl_seconds" (fun v '(Build_grantReq a s p _ l) => Build_grantReq a s p v l);
   stringField "label_hint" (fun v '(Build_grantReq a s p t _) => Build_grantReq a s p t v)].
Definition zeroGrantReq : grantReq := {| grAgent := ""; grScope := nilSlice; grPerm := ""; grTTL := 0; grLabel := "" |}.

Record revokeReq := { rrBy : string; rrReason : string }.
Definition revokeFields : list (field revokeReq) :=
  [stringField "revoked_by" (fun v '(Build_revokeReq _ r) => Build_revokeReq v r);
   stringField "reason" (fun v '(Build_revokeReq b _) => Build_revokeReq b v)].
Definition zeroRevoke : revokeReq := {| rrBy := ""; rrReason := "" |}.

(** [json.NewDecoder(io.LimitReader(r.Body, 1<<20)).Decode(&req)] *)
Definition decodeBody {A} (fs : list (field A)) (zero : A) (r : request) : option A :=
  fst <$> decodeStruct fs false zero (limitedBody r).

(** [time.Duration(secs) * time.Second] *)
Definition duration (secs : Z) : Z := wrap64 (secs * second).

Definition orAPI (s : string) : string := if bool_decide (s = "") then "api" else s.

(** ** Management: secrets *)

Section server.
Context (T : texts) (vaultMK : option string) (vaultIssuerURL : string).

(** [vaultStore] and the answers to its errors. *)
Definition withVaultStore (scope : option tenantScope) (k : string -> tenantScope -> M response) : M response :=
  match scope with
  | Some sc =>
      if negb (hasBackend sc) then errJSON 500 "no tenant scope"
      else if bool_decide (Provider sc = ProviderDB9) then errJSON 501 "vault is not supported for this provider"
      else match vaultMK with
           | None => errJSON 500 "vault master key not configured"
           | Some mk => k mk sc
           end
  | None => errJSON 500 "no tenant scope"
  end.

Definition handleVaultSecretCreate (r : request) (mk tenantID : string) : M response :=
  match decodeBody createFields zeroCreate r with
  | None => errJSON 400 "invalid JSON"
  | Some req =>
      if bool_decide (crName req = "") then errJSON 400 "name is required"
      else if bool_decide (crFields req = ∅) then errJSON 400 "fields are required"
      else
        let createdBy := orAPI (crBy req) in
        let secretType := if bool_decide (crType req = "") then "generic" else crType req in
        let! sec := attempt (CreateSecret mk tenantID (crName req) createdBy secretType (crFields req)) in
        match sec with
        | inr e =>
            if isVaultDuplicateEntryErr e then errJSON 409 "secret already exists"
            else errJSON 500 "failed to create secret"
        | inl sec =>
            audited (event tenantID "secret.created" "" "" "" (crName req) "" "" None) ;!
            reply 201 (OneSecret sec)
        end
  end.

Definition handleVaultSecretList (tenantID : string) : M response :=
  let! l := attempt (ListSecrets tenantID) in
  match l with
  | inr _ => errJSON 500 "failed to list secrets"
  | inl l => reply 200 (SecretList l)
  end.

Definition handleVaultSecretGet (tenantID name : string) : M response :=
  let! s := attempt (GetSecret tenantID name) in
  match s with
  | inr ErrNotFound => errJSON 404 "secret not found"
  | inr _ => errJSON 500 "failed to get secret"
  | inl s => reply 200 (OneSecret s)
  end.

(** The fields in the format the query asks for. *)
Definition replyFields (r : request) (m : gmap string string) : M response :=
  let format := queryGet r "format" in
  if bool_decide (format = "env") then reply 200 (EnvLines m)
  else if bool_decide (format = "json") || bool_decide (format = "") then reply 200 (FieldValues m)
  else errJSON 400 "unsupported format".

Definition handleVaultSecretReadValue (r : request) (mk : string) (sc : tenantScope) (secretName : string) : M response :=
  let tenantID := ScopeTenantID sc in
  let! fs := attempt (ReadSecretFields mk tenantID secretName) in
  match fs with
  | inr ErrNotFound => errJSON 404 "not found"
  | inr _ => errJSON 500 "failed to read secret"
  | inl m =>
      audited (event tenantID "secret.read" ("owner:" +:+ APIKeyID sc) "" "" secretName "" "management-api" None) ;!
      replyFields r m
  end.

Definition handleVaultSecretReadField (mk : string) (sc : tenantScope) (secretName fieldName : string) : M response :=
  let tenantID := ScopeTenantID sc in
  let! p := attempt (ReadSecretField mk tenantID secretName fieldName) in
  match p with
  | inr ErrNotFound | inr ErrFieldNotFound => errJSON 404 "not found"
  | inr _ => errJSON 500 "failed to read field"
  | inl p =>
      audited (event tenantID "secret.read" ("owner:" +:+ APIKeyID sc) "" "" secretName fieldName "management-api" None) ;!
      reply 200 (PlainText p)
  end.

Definition handleVaultSecretUpdate (r : request) (mk tenantID name : string) : M response :=
  match decodeBody updateFields zeroUpdate r with
  | None => errJSON 400 "invalid JSON"
  | Some req =>
      if bool_decide (urFields req = ∅) then errJSON 400 "fields are required"
      else
        let! sec := attempt (UpdateSecret mk tenantID name (urFields req)) in
        match sec with
        | inr ErrNotFound => errJSON 404 "secret not found"
        | inr _ => errJSON 500 "failed to update secret"
        | inl sec =>
            audited (event tenantID "secret.rotated" "" "" "" name "" "" None) ;!
            reply 200 (OneSecret sec)
        end
  end.

Definition handleVaultSecretDelete (tenantID name : string) : M response :=
  let! r := attempt (DeleteSecret tenantID name) in
  match r with
  | inr ErrNotFound => errJSON 404 "secret not found"
  | inr _ => errJSON 500 "failed to delete secret"
  | inl _ =>
      audited (event tenantID "secret.deleted" "" "" "" name "" "" None) ;!
      reply 200 StatusOK
  end.

Definition notAllowed : M response := errJSON 405 "method not allowed".

Definition isRoot (sub : string) : bool := bool_decide (sub = "") || bool_decide (sub = "/").

Definition handleVaultSecrets (r : request) (scope : option tenantScope) (sub : string) : M response :=
  withVaultStore scope (fun mk sc =>
    let tenantID := ScopeTenantID sc in
    if isRoot sub then
      if bool_decide (Method r = "POST") then handleVaultSecretCreate r mk tenantID
      else if bool_decide (Method r = "GET") then handleVaultSecretList tenantID
      else notAllowed
    else
      let name := TrimPrefix sub "/" in
      match cutText "/value" name with
      | Some (secretName, rest) =>
          if negb (bool_decide (Method r = "GET")) then notAllowed
          else if bool_decide (rest = "") then handleVaultSecretReadValue r mk sc secretName
          else
            let fieldName := TrimPrefix rest "/" in
            if bool_decide (fieldName = "") then errJSON 400 "field name required after /value/"
            else handleVaultSecretReadField mk sc secretName fieldName
      | None =>
          if bool_decide (Method r = "GET") then handleVaultSecretGet tenantID name
          else if bool_decide (Method r = "PUT") then handleVaultSecretUpdate r mk tenantID name
          else if bool_decide (Method r = "DELETE") then handleVaultSecretDelete tenantID name
          else notAllowed
      end).

(** ** Management: tokens *)

Definition handleVaultTokenIssue (r : request) (mk tenantID : string) : M response :=
  match decodeBody tokenFields zeroToken r with
  | None => errJSON 400 "invalid JSON"
  | Some req =>
      let scope := elems (trScope req) in
      if bool_decide (trAgent req = "") then errJSON 400 "agent_id is required"
      else if bool_decide (scope = []) then errJSON 400 "scope is required"
      else match scopeText T scope with
           | Some t => errJSON 400 t
           | None =>
               let ttl := duration (trTTL req) in
               let ttl := if ttl <=? 0 then 3600 * second else ttl in
               let! t := attempt (IssueCapToken mk tenantID (trAgent req) (trTask req) scope ttl) in
               match t with
               | inr _ => errJSON 500 "failed to issue token"
               | inl (tokenStr, capToken) =>
                   audited (event tenantID "token.issued" (CapTokenID capToken) (trAgent req) (trTask req) "" "" "" None) ;!
                   reply 201 (TokenIssued tokenStr (CapTokenID capToken) (CapExpiresAt capToken))
               end
           end
  end.

Definition handleVaultTokenRevoke (r : request) (tenantID tokenID : string) : M response :=
  let req := decodeIgnoring revokeFields zeroRevoke (limitedBody r) in
  let! e := attempt (RevokeCapToken tenantID tokenID (orAPI (rrBy req)) (rrReason req)) in
  match e with
  | inr ErrNotFound => errJSON 404 "token not found or already revoked"
  | inr _ => errJSON 500 "failed to revoke token"
  | inl _ =>
      audited (event tenantID "token.revoked" tokenID "" "" "" "" "" None) ;!
      reply 200 StatusOK
  end.

Definition handleVaultTokens (r : request) (scope : option tenantScope) (sub : string) : M response :=
  withVaultStore scope (fun mk sc =>
    let tenantID := ScopeTenantID sc in
    if isRoot sub then
      if bool_decide (Method r = "POST") then handleVaultTokenIssue r mk tenantID else notAllowed
    else
      let tokenID := TrimPrefix sub "/" in
      if bool_decide (Method r = "DELETE") then handleVaultTokenRevoke r tenantID tokenID else notAllowed).

(** ** Management: grants *)

Definition handleVaultGrantIssue (r : request) (mk tenantID : string) : M response :=
  if bool_decide (vaultIssuerURL = "") then errJSON 503 "vault issuer URL not configured"
  else
    match decodeBody grantReqFields zeroGrantReq r with
    | None => errJSON 400 "invalid JSON"
    | Some req =>
        if grTTL req <=? 0 then errJSON 400 "ttl_seconds is required and must be > 0"
        else
          let! g := attempt (IssueGrant mk T tenantID vaultIssuerURL PrincipalDelegated (grAgent req)
                               (elems (grScope req)) (grPerm req) (duration (grTTL req)) (grLabel req)) in
          match g with
          | inr e =>
              if HasPrefix (errorText e) "insert grant" then errJSON 500 "failed to issue grant"
              else errJSON 400 (errorText e)
          | inl (tokenStr, g) =>
              audited (event tenantID "grant.issued" (VGrantID g) (VAgent g) "" "" "" ""
                (Some [("agent", Json.encodeString (VAgent g)); ("grant_id", Json.encodeString (VGrantID g));
                       ("perm", Json.encodeString (VPerm g));
                       ("principal_type", Json.encodeString (VPrincipalType g));
                       ("scope", marshalStrings (VScope g))])) ;!
              reply 201 (GrantIssued tokenStr (VGrantID g) (VExpiresAt g) (VScope g) (VPerm g))
          end
    end.

Definition handleVaultGrantRevoke (r : request) (tenantID grantID : string) : M response :=
  let req := decodeIgnoring revokeFields zeroRevoke (limitedBody r) in
  let revokedBy := orAPI (rrBy req) in
  let! e := attempt (RevokeGrant tenantID grantID revokedBy (rrReason req)) in
  match e with
  | inr ErrNotFound => errJSON 404 "grant not found or already revoked"
  | inr _ => errJSON 500 "failed to revoke grant"
  | inl _ =>
      audited (event tenantID "grant.revoked" grantID revokedBy "" "" "" ""
        (Some [("grant_id", Json.encodeString grantID); ("reason", Json.encodeString (rrReason req));
               ("revoked_by", Json.encodeString revokedBy)])) ;!
      reply 200 StatusOK
  end.

Definition handleVaultGrants (r : request) (scope : option tenantScope) (sub : string) : M response :=
  withVaultStore scope (fun mk sc =>
    let tenantID := ScopeTenantID sc in
    if isRoot sub then
      if bool_decide (Method r = "POST") then handleVaultGrantIssue r mk tenantID else notAllowed
    else
      let grantID := TrimPrefix sub "/" in
      if bool_decide (Method r = "DELETE") then handleVaultGrantRevoke r tenantID grantID else notAllowed).

(** ** Management: audit *)

Definition auditLimit (l : string) : Z :=
  if bool_decide (l = "") then 100
  else match ParseInt l with Some n => if (0 <? n) && (n <=? 1000) then n else 100 | None => 100 end.

Definition handleVaultAudit (r : request) (scope : option tenantScope) : M response :=
  if negb (bool_decide (Method r = "GET")) then notAllowed
  else
    withVaultStore scope (fun _ sc =>
      let! l := attempt (QueryAuditLog (ScopeTenantID sc) (queryGet r "secret") (auditLimit (queryGet r "limit"))) in
      match l with
      | inr _ => errJSON 500 "failed to query audit log"
      | inl l => reply 200 (AuditEvents l)
      end).

Definition handleVault (r : request) (scope : option tenantScope) : M response :=
  let rest := TrimPrefix (Path r) "/v1/vault/" in
  match CutPrefix rest "secrets", CutPrefix rest "tokens" with
  | Some sub, _ => handleVaultSecrets r scope sub
  | None, Some sub => handleVaultTokens r scope sub
  | None, None =>
      if bool_decide (rest = "grants") || HasPrefix rest "grants/"
      then handleVaultGrants r scope (TrimPrefix rest "grants")
      else if HasPrefix rest "audit" then handleVaultAudit r scope
      else errJSON 404 "not found"
  end.

(** ** Reading with a token *)

Record vaultReadPrincipal := {
  PTenantID : string;
  PTokenID : string;
  PAgentID : string;
  PTaskID : string;
  PScope : list string
}.

Definition verifyCapReadToken (mk tenantID raw : string) : M vaultReadPrincipal :=
  let! c := VerifyAndResolveCapToken mk T tenantID raw in
  ret {| PTenantID := CTenantID c; PTokenID := TokenID c; PAgentID := AgentID c; PTaskID := TaskID c;
         PScope := CScope c |}.

Definition verifyGrantReadToken (mk tenantID raw : string) : M vaultReadPrincipal :=
  let! c := VerifyAndResolveGrant mk T tenantID vaultIssuerURL raw in
  if negb (bool_decide (Perm c = GrantPermRead)) then throw (Err "grant perm must be read")
  else ret {| PTenantID := TenantID c; PTokenID := GrantID c; PAgentID := Agent c; PTaskID := "";
              PScope := GScope c |}.

Definition verifyVaultReadToken (mk tenantID raw : string) : M vaultReadPrincipal :=
  if HasPrefix raw "vt_" then verifyGrantReadToken mk tenantID raw else verifyCapReadToken mk tenantID raw.

(** The names in scope that exist. *)
Fixpoint availableNames (tenantID : string) (names : list string) : M (list string) :=
  match names with
  | [] => ret []
  | name :: names =>
      let! s := attempt (GetSecret tenantID name) in
      let! l := availableNames tenantID names in
      ret (match s with inl _ => name :: l | inr _ => l end)
  end.

Definition handleVaultReadEnumerate (p : vaultReadPrincipal) : M response :=
  let! l := availableNames (PTenantID p) (ScopedSecretNames (PScope p)) in
  audited (event (PTenantID p) "secret.list" (PTokenID p) (PAgentID p) (PTaskID p) "" "" "api" None) ;!
  reply 200 (SecretNames l).

Definition outOfScope : option (list (string * string)) := Some [("reason", Json.encodeString "out_of_scope")].

Definition handleVaultReadSecret (r : request) (mk : string) (p : vaultReadPrincipal) (secretName : string) : M response :=
  let '(allFields, allowedFields) := AllowedFields (PScope p) secretName in
  if negb allFields && bool_decide (allowedFields = []) then
    audited (event (PTenantID p) "secret.denied" (PTokenID p) (PAgentID p) "" secretName "" "" outOfScope) ;!
    errJSON 404 "not found"
  else
    let! fs := attempt (ReadSecretFields mk (PTenantID p) secretName) in
    match fs with
    | inr ErrNotFound => errJSON 404 "not found"
    | inr _ => errJSON 500 "failed to read secret"
    | inl m =>
        let m := if allFields : bool then m else filter (fun kv => fst kv ∈ allowedFields) m in
        audited (event (PTenantID p) "secret.read" (PTokenID p) (PAgentID p) (PTaskID p) secretName "" "api" None) ;!
        replyFields r m
    end.

Definition handleVaultReadField (mk : string) (p : vaultReadPrincipal) (secretName fieldName : string) : M response :=
  if negb (CheckScope (PScope p) secretName fieldName) then
    audited (event (PTenantID p) "secret.denied" (PTokenID p) (PAgentID p) "" secretName fieldName "" outOfScope) ;!
    errJSON 404 "not found"
  else
    let! v := attempt (ReadSecretField mk (PTenantID p) secretName fieldName) in
    match v with
    | inr ErrNotFound | inr ErrFieldNotFound => errJSON 404 "not found"
    | inr _ => errJSON 500 "failed to read field"
    | inl v =>
        audited (event (PTenantID p) "secret.read" (PTokenID p) (PAgentID p) (PTaskID p) secretName fieldName "api" None) ;!
        reply 200 (PlainText v)
    end.

Definition handleVaultRead (r : request) (scope : option tenantScope) (sub : string) : M response :=
  if negb (bool_decide (Method r = "GET")) then notAllowed
  else
    let raw := bearerToken r in
    if bool_decide (raw = "") then errJSON 401 "missing capability token"
    else match scope with
    | None => errJSON 401 "unauthorized"
    | Some sc =>
        if negb (hasBackend sc) then errJSON 401 "unauthorized"
        else if bool_decide (Provider sc = ProviderDB9) then errJSON 501 "vault is not supported for this provider"
        else match vaultMK with
        | None => errJSON 500 "vault master key not configured"
        | Some mk =>
            let! p := attempt (verifyVaultReadToken mk (ScopeTenantID sc) raw) in
            match p with
            | inr e =>
                if Contains (errorText e) "expired" then errJSON 401 "token expired"
                else if Contains (errorText e) "revoked" then errJSON 401 "token revoked"
                else errJSON 401 "invalid capability token"
            | inl p =>
                let sub := TrimPrefix sub "/" in
                if bool_decide (sub = "") then handleVaultReadEnumerate p
                else
                  let '(secretName, fieldName) :=
                    match cutByte slash sub with Some parts => parts | None => (sub, "") end in
                  if negb (bool_decide (fieldName = "")) then handleVaultReadField mk p secretName fieldName
                  else handleVaultReadSecret r mk p secretName
            end
        end
    end.

(** [peekTokenTenantID] *)
Definition peekTokenTenantID (raw : string) : string + error :=
  if HasPrefix raw "vt_" then PeekGrantTenantID T raw else PeekCapTokenTenantID T raw.

(** The tenants of the meta store: provider, and whether the tenant is active; and
    whether the pool yields a backend. *)
Definition capabilityAuthMiddleware (tenants : gmap string (string * bool)) (acquired : bool) (r : request)
    : M response :=
  let tok := bearerToken r in
  if bool_decide (tok = "") then errJSON 401 "missing capability token"
  else match peekTokenTenantID tok with
  | inr _ => errJSON 401 "invalid capability token"
  | inl tenantID =>
      match tenants !! tenantID with
      | Some (provider, true) =>
          if negb acquired then errJSON 500 "backend unavailable"
          else
            let scope := {| ScopeTenantID := tenantID; APIKeyID := ""; Provider := provider; hasBackend := true |} in
            handleVaultRead r (Some scope) (TrimPrefix (Path r) "/v1/vault/read")
      | _ => errJSON 401 "invalid capability token"
      end
  end.

End server.

End VServer.
