(* ===== verification/VaultSecrets.v ===== *)
(** * Secrets behave as a map

    The secrets of [src/pkg/vault/store.go] refine a map from tenant and name to a
    revision and plaintext fields: whatever keys are generated, whichever statements
    fail and whichever keys rivals insert, an operation either answers what the map
    answers, or reports an error after a failure of the database (or a repeated
    identifier) and has taken effect completely or not at all. *)

From Stdlib Require Import Strings.Ascii.
From S2P Require Import Prelude GoStrings Json Sha256 AesGcm JsonStruct VaultScope VaultToken VaultStore.

Import GoStr Sha256 Gcm JStruct VToken VStore.

Module VSecrets.

#[local] Arguments String.append !_ _ / : simpl nomatch.

(** ** Weakest preconditions *)

Definition wp {A} (m : M A) (Q : A -> world -> Prop) (E : error -> world -> Prop) (w : world) : Prop :=
  match m w with
  | (w', inl a) => Q a w'
  | (w', inr e) => E e w'
  end.

Lemma vault_wp_bind {A B} (m : M A) (k : A -> M B) Q E w :
  wp m (fun a => wp (k a) Q E) E w -> wp (bind m k) Q E w.
Proof. unfold wp, bind. by destruct (m w) as [w' [a|e]]. Qed.

Lemma vault_wp_mono {A} (m : M A) (Q Q' : A -> world -> Prop) (E E' : error -> world -> Prop) w :
  (forall a w', Q a w' -> Q' a w') -> (forall e w', E e w' -> E' e w') -> wp m Q E w -> wp m Q' E' w.
Proof. intros HQ HE. unfold wp. destruct (m w) as [w' [a|e]]; [apply HQ|apply HE]. Qed.

Lemma wp_wrap {A} text (m : M A) Q E w :
  wp m Q (fun e => E (Err (text +:+ errorText e))) w -> wp (wrapErr text m) Q E w.
Proof. unfold wp, wrapErr. by destruct (m w) as [w' [a|e]]. Qed.

Lemma wp_ret {A} (a : A) (Q : A -> world -> Prop) E w : Q a w -> wp (ret a) Q E w.
Proof. done. Qed.
Lemma vault_wp_throw {A} e (Q : A -> world -> Prop) (E : error -> world -> Prop) w : E e w -> wp (throw e) Q E w.
Proof. done. Qed.
Lemma wp_ofSum {A} (r : A + error) (Q : A -> world -> Prop) (E : error -> world -> Prop) w :
  match r with inl a => Q a w | inr e => E e w end -> wp (ofSum r) Q E w.
Proof. unfold wp, ofSum. by destruct r. Qed.

(** ** States *)

Section rivals.
Context (mk : string).

(** A wrapped key that the master key opens to 32 bytes. *)
Definition goodDEK (wrapped : string) : Prop :=
  exists dek, UnwrapDEK mk wrapped = inl dek /\ String.length dek = 32%nat.

(** The world has these tables, identifiers, clock readings and count of failures, and
    the keys that other servers insert are good. *)
Definition at_ (d : tables) (us : list string) (cs : list Z) (n : nat) (w : world) : Prop :=
  tbl w = d /\ uuids (env w) = us /\ clock (env w) = cs /\ troubles w = n
  /\ Forall (fun r => forall k, r = Some k -> goodDEK k) (rivals (env w)).

Context (d : tables) (us : list string) (cs : list Z) (n : nat) (w : world).
Hypothesis Hw : at_ d us cs n w.

Lemma wp_nextFault (Q : fault -> world -> Prop) E :
  (forall w', at_ d us cs n w' -> Q Fine w') ->
  (forall f w', f <> Fine -> at_ d us cs (S n) w' -> Q f w') ->
  wp nextFault Q E w.
Proof using Hw.
  intros H1 H2. destruct Hw as (<- & <- & <- & <- & Hr). unfold wp, nextFault.
  destruct (default Fine (head (faults (env w)))) eqn:Ef; [apply H1|apply H2; [done|]..]; done.
Qed.

Lemma wp_getTables (Q : tables -> world -> Prop) E : Q d w -> wp getTables Q E w.
Proof using Hw. intros HQ. unfold wp, getTables. destruct Hw as (<- & _). done. Qed.

Lemma wp_putTables d' (Q : unit -> world -> Prop) E : (forall w', at_ d' us cs n w' -> Q tt w') -> wp (putTables d') Q E w.
Proof using Hw. intros HQ. unfold wp, putTables. apply HQ. destruct Hw as (_ & <- & <- & <- & Hr). done. Qed.

Lemma wp_timeNow (Q : Z -> world -> Prop) E :
  (forall w', at_ d us (tail cs) n w' -> Q (default 0 (head cs)) w') -> wp timeNow Q E w.
Proof using Hw. intros HQ. unfold wp, timeNow. destruct Hw as (<- & <- & <- & <- & Hr). by apply HQ. Qed.

Lemma wp_newUUID (Q : string -> world -> Prop) E :
  (forall w', at_ d (tail us) cs n w' -> Q (default "" (head us)) w') -> wp newUUID Q E w.
Proof using Hw. intros HQ. unfold wp, newUUID. destruct Hw as (<- & <- & <- & <- & Hr). by apply HQ. Qed.

Lemma sized_length k s : String.length (sized k s) = k.
Proof. revert s. induction k as [|k IH]; intros s; [done|]. destruct s; cbn; by rewrite IH. Qed.

Lemma wp_randBytes k (Q : string -> world -> Prop) E :
  (forall b w', String.length b = k -> at_ d us cs n w' -> Q b w') -> wp (randBytes k) Q E w.
Proof using Hw.
  intros HQ. unfold wp, randBytes. destruct Hw as (<- & <- & <- & <- & Hr). apply HQ; [apply sized_length|done].
Qed.

Lemma wp_nextRival (Q : option string -> world -> Prop) E :
  (forall r w', (forall k, r = Some k -> goodDEK k) -> at_ d us cs n w' -> Q r w') -> wp nextRival Q E w.
Proof using Hw.
  intros HQ. unfold wp, nextRival. destruct Hw as (<- & <- & <- & <- & Hr).
  destruct (rivals (env w)) as [|r rs] eqn:Er; apply HQ; try done.
  by apply Forall_cons in Hr as [? _].
  by apply Forall_cons in Hr as [_ ?].
Qed.

(** ** Statements *)

Lemma wp_query {A} (f : tables -> A) (Q : A -> world -> Prop) (E : error -> world -> Prop) :
  (forall w', at_ d us cs n w' -> Q (f d) w') ->
  (forall t w', at_ d us cs (S n) w' -> E (Err t) w') -> wp (query f) Q E w.
Proof using Hw.
  intros HQ HE. apply vault_wp_bind, wp_nextFault.
  - intros w' Hw'. apply vault_wp_bind. unfold wp at 1, getTables. rewrite (proj1 Hw'). by apply HQ.
  - intros [|t|t] w' Hf Hw'; [done|by apply HE..].
Qed.

(** A statement that succeeds unless the database fails, with or without effect. *)
Lemma wp_exec {A} f d' (a : A) (Q : A -> world -> Prop) (E : error -> world -> Prop) :
  f d = inl (d', a) ->
  (forall w', at_ d' us cs n w' -> Q a w') ->
  (forall t w' dx, dx = d \/ dx = d' -> at_ dx us cs (S n) w' -> E (Err t) w') -> wp (exec f) Q E w.
Proof using Hw.
  intros Hf HQ HE. apply vault_wp_bind, wp_nextFault.
  - intros w' Hw'. unfold wp, bind, getTables, putTables. destruct Hw' as (<- & Hw'). rewrite Hf. by apply HQ.
  - intros [|t|t] w' Hne Hw'; [done|eapply HE; [by left|done]|].
    unfold wp, bind, getTables, putTables. destruct Hw' as (<- & Hw'). rewrite Hf. eapply HE; [by right|done].
Qed.

(** A statement that violates a key. *)
Lemma wp_exec_dup {A} (f : tables -> (tables * A) + error) e (Q : A -> world -> Prop) (E : error -> world -> Prop) :
  f d = inr e ->
  (forall w', at_ d us cs n w' -> E e w') -> (forall e' w', at_ d us cs (S n) w' -> E e' w') -> wp (exec f) Q E w.
Proof using Hw.
  intros Hf H1 H2. apply vault_wp_bind, wp_nextFault.
  - intros w' Hw'. unfold wp, bind, getTables. destruct Hw' as (<- & Hw'). rewrite Hf. by apply H1.
  - intros [|t|t] w' Hne Hw'; [done|by apply H2|].
    unfold wp, bind, getTables. destruct Hw' as (<- & Hw'). rewrite Hf. by apply H2.
Qed.

(** A transaction: all of its effects or none. *)
Lemma wp_transaction {A} (m : M A) (Q : A -> world -> Prop) (E : error -> world -> Prop) :
  (forall w1, at_ d us cs n w1 ->
     wp m (fun a w2 => exists d2 us2 cs2 n2, at_ d2 us2 cs2 n2 w2
             /\ (forall w', at_ d2 us2 cs2 n2 w' -> Q a w')
             /\ (forall t w' dx, dx = d \/ dx = d2 -> at_ dx us2 cs2 (S n2) w' -> E (Err t) w'))
          (fun e w2 => exists d2 us2 cs2 n2, at_ d2 us2 cs2 n2 w2 /\ (forall w', at_ d us2 cs2 n2 w' -> E e w')) w1) ->
  (forall t w', at_ d us cs (S n) w' -> E (Err t) w') -> wp (transaction m) Q E w.
Proof using Hw.
  intros Hm HE. apply vault_wp_bind, wp_nextFault; [|intros [|t|t] w' Hne Hw'; [done|by apply HE..]].
  intros w1 Hw1. apply vault_wp_bind. unfold wp at 1, getTables. rewrite (proj1 Hw1). apply vault_wp_bind.
  specialize (Hm w1 Hw1). unfold wp at 1, restoring. unfold wp in Hm. destruct (m w1) as [w2 [a|e]].
  - destruct Hm as (d2 & us2 & cs2 & n2 & Hw2 & H1 & H2). apply vault_wp_bind.
    unfold wp at 1, nextFault. destruct Hw2 as (<- & <- & <- & <- & Hr).
    destruct (default Fine (head (faults (env w2)))) as [|t|t] eqn:Ef.
    + apply wp_ret. by apply H1.
    + unfold wp, bind, putTables. eapply H2; [by left|done].
    + unfold wp, throw. eapply H2; [by right|done].
  - destruct Hm as (d2 & us2 & cs2 & n2 & Hw2 & H1). apply H1. destruct Hw1 as (-> & _).
    destruct Hw2 as (_ & <- & <- & <- & Hr). done.
Qed.

End rivals.

(** ** The specification *)

Record secret := {
  sid : string;
  stype : string;
  srev : Z;
  sby : string;
  screated : Z;
  supdated : Z;
  sfields : gmap string string
}.
Notation spec := (gmap (string * string) secret).

Inductive op :=
  | OCreate (t n by' ty : string) (fs : gmap string string)
  | OGet (t n : string)
  | OList (t : string)
  | OUpdate (t n : string) (fs : gmap string string)
  | ODelete (t n : string)
  | OReadAll (t n : string)
  | ORead (t n f : string).

Inductive result :=
  | RSecret (s : Secret)
  | RSecrets (l : list Secret)
  | RDone
  | RFields (m : gmap string string)
  | RValue (p : string).

(** The row of a secret, and the secret as the API shows it. *)
Definition rowOf (s : secret) : secretRow :=
  {| secret_id := sid s; secret_type := stype s; revision := srev s; created_by := sby s;
     created_at := screated s; updated_at := supdated s; deleted_at := None |}.
Definition shown (t n : string) (s : secret) : Secret := secretOf t n (rowOf s).

Definition nameTaken (t n : string) : error :=
  Err ("insert secret: " +:+ errorText (duplicateEntry (t +:+ "-" +:+ n) "vault_secrets.uk_vault_secrets_tenant_name")).

(** What each operation means on the map, given the identifier and the time a new or a
    changed secret gets. *)
Definition specStep (o : op) (id : string) (now : Z) (v : spec) : spec * (result + error) :=
  match o with
  | OCreate t n by' ty fs =>
      match v !! (t, n) with
      | Some _ => (v, inr (nameTaken t n))
      | None =>
          (<[(t, n) := {| sid := id; stype := ty; srev := 1; sby := by'; screated := dbTime now;
                          supdated := dbTime now; sfields := fs |}]> v,
           inl (RSecret {| SecretID := id; STenantID := t; Name := n; SecretType := ty; Revision := 1;
                           CreatedBy := by'; CreatedAt := now; UpdatedAt := now; DeletedAt := None |}))
      end
  | OGet t n => (v, match v !! (t, n) with Some s => inl (RSecret (shown t n s)) | None => inr ErrNotFound end)
  | OList t =>
      (v, inl (RSecrets (sortBy (fun a b => String.ltb (Name a) (Name b))
             (omap (fun p => if bool_decide (fst (fst p) = t) then Some (shown t (snd (fst p)) (snd p)) else None)
                (map_to_list v)))))
  | OUpdate t n fs =>
      match v !! (t, n) with
      | None => (v, inr ErrNotFound)
      | Some s =>
          let rev := wrap64 (srev s + 1) in
          (<[(t, n) := {| sid := sid s; stype := stype s; srev := rev; sby := sby s; screated := screated s;
                          supdated := dbTime now; sfields := fs |}]> v,
           inl (RSecret {| SecretID := sid s; STenantID := t; Name := n; SecretType := ""; Revision := rev;
                           CreatedBy := ""; CreatedAt := 0; UpdatedAt := now; DeletedAt := None |}))
      end
  | ODelete t n =>
      match v !! (t, n) with
      | None => (v, inr ErrNotFound)
      | Some _ => (delete (t, n) v, inl RDone)
      end
  | OReadAll t n => (v, match v !! (t, n) with Some s => inl (RFields (sfields s)) | None => inr ErrNotFound end)
  | ORead t n f =>
      (v, match v !! (t, n) with
          | None => inr ErrNotFound
          | Some s => match sfields s !! f with Some p => inl (RValue p) | None => inr ErrFieldNotFound end
          end)
  end.

(** The operation of the store. *)
Definition call (mk : string) (o : op) : M result :=
  match o with
  | OCreate t n by' ty fs => let! s := CreateSecret mk t n by' ty fs in ret (RSecret s)
  | OGet t n => let! s := GetSecret t n in ret (RSecret s)
  | OList t => let! l := ListSecrets t in ret (RSecrets l)
  | OUpdate t n fs => let! s := UpdateSecret mk t n fs in ret (RSecret s)
  | ODelete t n => DeleteSecret t n ;! ret RDone
  | OReadAll t n => let! m := ReadSecretFields mk t n in ret (RFields m)
  | ORead t n f => let! p := ReadSecretField mk t n f in ret (RValue p)
  end.

(** ** The refinement relation *)

Section refinement.
Context (mk : string).
Hypothesis Hmk : String.length mk = 32%nat.

(** A tenant's key. *)
Definition keyOf (d : tables) (t dek : string) : Prop :=
  exists k, deks d !! t = Some k /\ UnwrapDEK mk k = inl dek.

(** The row decrypts to the plaintext under the tenant's key. *)
Definition holds (d : tables) (t : string) (row : option fieldRow) (value : option string) : Prop :=
  match value with
  | None => row = None
  | Some p => exists r dek, row = Some r /\ keyOf d t dek /\ String.length dek = 32%nat
      /\ gcmOpen dek (nonce r) (encrypted_value r) = Some p
  end.

Record refines (d : tables) (v : spec) : Prop := {
  rf_rows : secrets d = rowOf <$> v;
  rf_ids : forall k k' s s', v !! k = Some s -> v !! k' = Some s' -> sid s = sid s' -> k = k';
  rf_values : forall t n s f, v !! (t, n) = Some s -> holds d t (fields d !! (sid s, f)) (sfields s !! f);
  rf_owned : forall id f r, fields d !! (id, f) = Some r -> exists k s, v !! k = Some s /\ sid s = id;
  rf_deks : forall t k, deks d !! t = Some k -> goodDEK mk k
}.

Lemma secrets_refine_empty : refines emptyTables ∅.
Proof. split; try done. Qed.

Lemma refines_lookup d v t n : refines d v -> liveRow t n d = rowOf <$> v !! (t, n).
Proof.
  intros R. unfold liveRow. rewrite (rf_rows _ _ R), lookup_fmap. by destruct (v !! (t, n)).
Qed.

Lemma holds_key d d' t row value : (forall dek, keyOf d t dek -> keyOf d' t dek) -> holds d t row value -> holds d' t row value.
Proof. intros K. destruct value as [p|]; [|done]. intros (r & dek & ? & ? & ?). exists r, dek. eauto. Qed.

Lemma refines_frame d d' v : refines d v -> secrets d' = secrets d -> fields d' = fields d ->
  (forall t dek, keyOf d t dek -> keyOf d' t dek) -> (forall t k, deks d' !! t = Some k -> goodDEK mk k) -> refines d' v.
Proof.
  intros R Hs Hf Hk Hg. split.
  - rewrite Hs. apply R.
  - apply R.
  - intros t n s f Hv. rewrite Hf. eapply holds_key; [apply Hk|]. by eapply rf_values.
  - intros id f r. rewrite Hf. apply R.
  - done.
Qed.

(** *** Keys *)

Lemma substring_drop_app a b : String.substring 0 (String.length a) (a +:+ b) = a.
Proof. induction a as [|c a IH]; [by destruct b|]. cbn. by rewrite IH. Qed.

Lemma wrapped_good n plain : String.length n = gcmNonceSize -> String.length plain = 32%nat ->
  goodDEK mk (n +:+ gcmSeal mk n plain).
Proof using Hmk.
  intros Hn Hp. exists plain. split; [|done]. unfold UnwrapDEK. rewrite string_app_length, <- Hn.
  rewrite (proj2 (Nat.ltb_ge _ _)) by lia. rewrite substring_drop_app, dropBytes_app.
  by rewrite gcmOpen_seal.
Qed.

Lemma refines_insertDEK d v t k : refines d v -> goodDEK mk k ->
  refines (insertDEK t k d) v /\ is_Some (deks (insertDEK t k d) !! t).
Proof.
  intros R Hk. unfold insertDEK. destruct (deks d !! t) as [k'|] eqn:E; [by eauto|]. split.
  - eapply refines_frame; [done|done|done| |].
    + intros t' dek (k' & H1 & H2). exists k'. split; [|done]. cbn. rewrite lookup_insert_ne; [done|congruence].
    + intros t' k'. cbn. destruct (decide (t' = t)) as [->|]; [rewrite lookup_insert_eq; by intros [= <-]|].
      rewrite lookup_insert_ne by done. apply (rf_deks _ _ R).
  - cbn. rewrite lookup_insert_eq. eauto.
Qed.

Lemma insertDEK_frame t k d : secrets (insertDEK t k d) = secrets d /\ fields (insertDEK t k d) = fields d.
Proof. unfold insertDEK. by destruct (deks d !! t). Qed.

(** The state after a step that keeps the secrets. *)
Definition kept (d : tables) (v : spec) (us : list string) (cs : list Z) (n : nat) (w : world) : Prop :=
  exists d', at_ mk d' us cs n w /\ refines d' v /\ secrets d' = secrets d /\ fields d' = fields d.

Lemma kept_trans d d1 v us cs n w : secrets d1 = secrets d -> fields d1 = fields d -> kept d1 v us cs n w -> kept d v us cs n w.
Proof. intros H1 H2 (d' & Ha & R & E1 & E2). exists d'. split; [done|]. split; [done|]. split; congruence. Qed.

Lemma wp_unwrap d v us cs n w t k (Q : string -> world -> Prop) E : at_ mk d us cs n w -> refines d v -> deks d !! t = Some k ->
  (forall dek, keyOf d t dek -> String.length dek = 32%nat -> Q dek w) -> wp (ofSum (UnwrapDEK mk k)) Q E w.
Proof.
  intros Hw R Hk HQ. apply wp_ofSum. destruct (rf_deks _ _ R _ _ Hk) as (dek & Hu & Hl). rewrite Hu.
  apply HQ; [by exists k|done].
Qed.

Lemma wp_GetOrCreateDEK d v us cs n w t (Q : string -> world -> Prop) (E : error -> world -> Prop) :
  at_ mk d us cs n w -> refines d v ->
  (forall dek w' d', at_ mk d' us cs n w' -> refines d' v -> secrets d' = secrets d -> fields d' = fields d ->
     keyOf d' t dek -> String.length dek = 32%nat -> Q dek w') ->
  (forall e w', kept d v us cs (S n) w' -> E e w') ->
  wp (GetOrCreateDEK mk t) Q E w.
Proof using Hmk.
  intros Hw R HQ HE. unfold GetOrCreateDEK.
  apply vault_wp_bind, wp_wrap. eapply wp_query; [done| |intros x w' Hw'; apply HE; by exists d].
  intros w1 Hw1. destruct (deks d !! t) as [k|] eqn:Ek.
  { eapply wp_unwrap; [done|done|done|]. intros dek Hd Hl. by eapply HQ. }
  unfold GenerateDEK. apply vault_wp_bind, vault_wp_bind, wp_wrap. eapply wp_randBytes; [done|]. intros plain w2 Hp Hw2.
  apply vault_wp_bind, wp_wrap. eapply wp_randBytes; [done|]. intros nc w3 Hn Hw3. apply wp_ret.
  apply vault_wp_bind. eapply wp_nextRival; [done|]. intros rival w4 Hrival Hw4.
  apply vault_wp_bind. eapply wp_getTables; [done|].
  set (d1 := match rival with Some k => insertDEK t k d | None => d end).
  assert (refines d1 v /\ secrets d1 = secrets d /\ fields d1 = fields d) as (R1 & Es1 & Ef1).
  { unfold d1. destruct rival as [k|]; [|done].
    destruct (refines_insertDEK d v t k R (Hrival k eq_refl)) as [? _].
    destruct (insertDEK_frame t k d) as [? ?]. done. }
  apply vault_wp_bind. eapply wp_putTables; [done|]. intros w5 Hw5. fold d1 in Hw5.
  assert (goodDEK mk (nc +:+ gcmSeal mk nc plain)) as Hgood by (by apply wrapped_good).
  destruct (refines_insertDEK d1 v t (nc +:+ gcmSeal mk nc plain) R1 Hgood) as [R2 [k Hk]].
  destruct (insertDEK_frame t (nc +:+ gcmSeal mk nc plain) d1) as [Es2 Ef2].
  set (d2 := insertDEK t (nc +:+ gcmSeal mk nc plain) d1) in *.
  apply vault_wp_bind, wp_wrap. eapply (wp_exec mk d1 us cs n w5 Hw5 _ d2); [done| |].
  2: { intros x w' dx Hdx Hw'. apply HE. exists dx. destruct Hdx as [-> | ->]; (split; [done|]; split; [done|]; split; congruence). }
  intros w6 Hw6. apply vault_wp_bind, wp_wrap. eapply wp_query; [exact Hw6| |].
  2: { intros x w' Hw'. apply HE. exists d2. split; [done|]. split; [done|]. split; congruence. }
  intros w7 Hw7. fold d2 in Hk. rewrite Hk. eapply wp_unwrap; [exact Hw7|exact R2|exact Hk|].
  intros dek Hd Hl. eapply HQ; [done|done|congruence|congruence|done|done].
Qed.

Lemma wp_fieldEncryptor d v us cs n w t (Q : string -> world -> Prop) (E : error -> world -> Prop) :
  at_ mk d us cs n w -> refines d v ->
  (forall dek w' d', at_ mk d' us cs n w' -> refines d' v -> secrets d' = secrets d -> fields d' = fields d ->
     keyOf d' t dek -> String.length dek = 32%nat -> Q dek w') ->
  (forall e w', kept d v us cs (S n) w' -> E e w') ->
  wp (fieldEncryptor mk t) Q E w.
Proof using Hmk.
  intros Hw R HQ HE. apply vault_wp_bind. eapply wp_GetOrCreateDEK; [done|done| |done].
  intros dek w' d' Hw' R' Es Ef Hk Hl. apply wp_ofSum. unfold NewFieldEncryptor. rewrite Hl, Nat.eqb_refl. by eapply HQ.
Qed.

(** *** Fields *)

(** The fields of [fs] are in [d'] under [id], encrypted with [dek]; nothing else has
    changed since [d]. *)
Definition stored (dek id : string) (fs : list (string * string)) (d d' : tables) : Prop :=
  secrets d' = secrets d /\ deks d' = deks d
  /\ (forall k p, (k, p) ∈ fs -> exists r, fields d' !! (id, k) = Some r
        /\ gcmOpen dek (nonce r) (encrypted_value r) = Some p)
  /\ (forall i k, i <> id \/ k ∉ fst <$> fs -> fields d' !! (i, k) = fields d !! (i, k)).

Lemma wp_insertFields wrap dek id fs : String.length dek = 32%nat -> forall d us cs n w
  (Q : unit -> world -> Prop) (E : error -> world -> Prop),
  at_ mk d us cs n w -> NoDup (fst <$> fs) -> (forall k, k ∈ fst <$> fs -> fields d !! (id, k) = None) ->
  (forall w' d', at_ mk d' us cs n w' -> stored dek id fs d d' -> Q tt w') ->
  (forall e w' d', at_ mk d' us cs (S n) w' -> E e w') ->
  wp (insertFields wrap dek id fs) Q E w.
Proof.
  clear Hmk. intros Hl. induction fs as [|[k p] fs IH]; intros d us cs n w Q E Hw Hnd Hnew HQ HE.
  { apply wp_ret. eapply HQ; [done|]. split; [done|]. split; [done|]. split; [set_solver|done]. }
  cbn [insertFields]. rewrite fmap_cons in Hnd, Hnew. cbn [fst] in *. apply NoDup_cons in Hnd as [Hk Hnd].
  apply vault_wp_bind, wp_wrap. unfold Encrypt. apply vault_wp_bind. eapply wp_randBytes; [done|]. intros nc w1 Hn Hw1. apply wp_ret.
  cbn [fst snd]. apply vault_wp_bind, wp_wrap.
  set (row := {| encrypted_value := gcmSeal dek nc p; nonce := nc |}).
  set (d1 := set_fields (<[(id, k) := row]> (fields d)) d).
  eapply (wp_exec mk d us cs n w1 Hw1 _ d1).
  { unfold insertField. by rewrite Hnew by set_solver. }
  2: { intros x w' dx _ Hw'. by eapply HE. }
  intros w2 Hw2. eapply (IH d1); [done|done| | |done].
  - intros k' Hk'. unfold d1. cbn. rewrite lookup_insert_ne; [apply Hnew; set_solver|]. intros [= ->]. done.
  - intros w3 d3 Hw3 (E1 & E2 & E3 & E4). eapply HQ; [done|]. split; [done|]. split; [done|]. split.
    + intros k' p' Hin. apply elem_of_cons in Hin as [[= -> ->]|Hin]; [|by apply E3].
      exists row. rewrite E4 by (by right). unfold d1. cbn. rewrite lookup_insert_eq. split; [done|].
      unfold row. cbn. by apply gcmOpen_seal.
    + intros i k' Hik. rewrite E4 by set_solver. unfold d1. cbn. rewrite lookup_insert_ne; [done|].
      intros [= -> ->]. set_solver.
Qed.

(** A secret whose fields were just stored. *)
Lemma holds_stored d d' t dek id fs f : keyOf d' t dek -> String.length dek = 32%nat ->
  stored dek id (map_to_list fs) d d' -> (forall k, fields d !! (id, k) = None) ->
  holds d' t (fields d' !! (id, f)) (fs !! f).
Proof.
  intros Hk Hl (_ & _ & E3 & E4) Hnew. destruct (fs !! f) as [p|] eqn:Ef; cbn [holds].
  - destruct (E3 f p) as (r & Er & Ho); [by apply elem_of_map_to_list|]. by exists r, dek.
  - rewrite E4; [apply Hnew|]. right. intros Hin. apply list_elem_of_fmap in Hin as ([k p] & -> & Hin).
    apply elem_of_map_to_list in Hin. cbn in Ef. congruence.
Qed.

(** *** Changing one secret *)

Lemma refines_put d v d' t n s : refines d v ->
  secrets d' = rowOf <$> <[(t, n) := s]> v -> deks d' = deks d ->
  (forall s0, v !! (t, n) = Some s0 -> sid s0 = sid s) ->
  (forall k s0, v !! k = Some s0 -> sid s0 = sid s -> k = (t, n)) ->
  (forall i k, i <> sid s -> fields d' !! (i, k) = fields d !! (i, k)) ->
  (forall f, holds d' t (fields d' !! (sid s, f)) (sfields s !! f)) -> refines d' (<[(t, n) := s]> v).
Proof.
  intros R Hs Hd Hold Hid Hf Hh. split.
  - done.
  - intros k k' s1 s2 H1 H2 E. apply lookup_insert_Some in H1 as [[<- <-]|[N1 H1]]; apply lookup_insert_Some in H2 as [[<- <-]|[N2 H2]].
    + done.
    + symmetry. by eapply Hid.
    + by eapply Hid.
    + by eapply (rf_ids _ _ R).
  - intros t' n' s' f H. apply lookup_insert_Some in H as [[[= <- <-] <-]|[Hne H]]; [apply Hh|].
    rewrite Hf by (intros E; apply Hne; symmetry; by eapply Hid). eapply holds_key; [|by eapply rf_values].
    intros dek (k & E1 & E2). exists k. by rewrite Hd.
  - intros id f r Hr. destruct (decide (id = sid s)) as [->|Hne].
    { exists (t, n), s. split; [apply lookup_insert_eq|done]. }
    rewrite Hf in Hr by done. destruct (rf_owned _ _ R _ _ _ Hr) as (k & s0 & Hk & <-). exists k, s0. split; [|done].
    rewrite lookup_insert_ne; [done|]. intros <-. by apply Hne, Hold.
  - intros t' k. rewrite Hd. apply R.
Qed.

Lemma keyOf_deks d d' t dek : deks d' = deks d -> keyOf d t dek -> keyOf d' t dek.
Proof. intros E (k & H). exists k. by rewrite E. Qed.

Lemma refines_create d v d' t n s dek : refines d v -> v !! (t, n) = None ->
  (forall k s0, v !! k = Some s0 -> sid s0 <> sid s) -> keyOf d t dek -> String.length dek = 32%nat ->
  stored dek (sid s) (map_to_list (sfields s)) (set_secrets (<[(t, n) := rowOf s]> (secrets d)) d) d' ->
  refines d' (<[(t, n) := s]> v).
Proof.
  intros R Hv Hid Hk Hl St. assert (forall k, fields d !! (sid s, k) = None) as Hnone.
  { intros k. apply eq_None_not_Some. intros [r Hr]. destruct (rf_owned _ _ R _ _ _ Hr) as (k' & s0 & H1 & H2). by eapply Hid. }
  destruct St as (E1 & E2 & E3 & E4). eapply (refines_put d); [done| |done| | | |].
  - rewrite E1. cbn. rewrite (rf_rows _ _ R), fmap_insert. done.
  - congruence.
  - intros k s0 H1 H2. by destruct (Hid _ _ H1).
  - intros i k Hi. by rewrite E4 by (by left).
  - intros f. eapply (holds_stored (set_secrets (<[(t, n) := rowOf s]> (secrets d)) d)); [by eapply keyOf_deks|done|done|done].
Qed.

Definition bumped (rev now : Z) (fs : gmap string string) (s : secret) : secret :=
  {| sid := sid s; stype := stype s; srev := rev; sby := sby s; screated := screated s;
     supdated := dbTime now; sfields := fs |}.

Lemma bump_rows d v t n s rev now fs : refines d v -> v !! (t, n) = Some s ->
  bumpRow (sid s) rev now <$> secrets d = rowOf <$> <[(t, n) := bumped rev now fs s]> v.
Proof.
  intros R Hv. rewrite (rf_rows _ _ R). apply map_eq. intros k. rewrite !lookup_fmap.
  destruct (decide (k = (t, n))) as [->|Hne].
  - rewrite lookup_insert_eq, Hv. cbn. unfold bumpRow. cbn. by rewrite bool_decide_eq_true_2.
  - rewrite lookup_insert_ne by done. destruct (v !! k) as [s0|] eqn:Ek; [|done]. cbn. unfold bumpRow. cbn.
    rewrite bool_decide_eq_false_2; [done|]. intros E. apply Hne. by eapply (rf_ids _ _ R).
Qed.

Lemma deleteFields_lookup id d i k :
  fields (deleteFields id d) !! (i, k) = if decide (i = id) then None else fields d !! (i, k).
Proof.
  unfold deleteFields. cbn. destruct (decide (i = id)) as [->|Hne].
  - apply map_lookup_filter_None. right. intros x _ H. by apply H.
  - destruct (fields d !! (i, k)) as [r|] eqn:E.
    + by apply map_lookup_filter_Some.
    + apply map_lookup_filter_None. by left.
Qed.

Lemma refines_update d v d' t n s dek rev now fs : refines d v -> v !! (t, n) = Some s ->
  keyOf d t dek -> String.length dek = 32%nat ->
  stored dek (sid s) (map_to_list fs)
    (deleteFields (sid s) (set_secrets (bumpRow (sid s) rev now <$> secrets d) d)) d' ->
  refines d' (<[(t, n) := bumped rev now fs s]> v).
Proof.
  intros R Hv Hk Hl St. set (d2 := deleteFields _ _) in *.
  assert (forall k, fields d2 !! (sid s, k) = None) as Hnone.
  { intros k. unfold d2. rewrite deleteFields_lookup. by rewrite decide_True. }
  pose proof St as (E1 & E2 & _ & E4). eapply (refines_put d); [done| |done| | | |].
  - rewrite E1. by apply bump_rows.
  - intros s0 H. assert (s0 = s) as -> by congruence. done.
  - intros k s0 H1 H2. by eapply (rf_ids _ _ R).
  - intros i k Hi. rewrite E4 by (by left). unfold d2. rewrite deleteFields_lookup. by rewrite decide_False.
  - intros f. cbn [bumped sid sfields]. eapply holds_stored; [by eapply keyOf_deks|done|exact St|exact Hnone].
Qed.

Lemma refines_delete d v t n s : refines d v -> v !! (t, n) = Some s ->
  refines (deleteSecret (sid s) (deleteFields (sid s) d)) (delete (t, n) v).
Proof.
  intros R Hv. set (d' := deleteSecret _ _).
  assert (forall i k, fields d' !! (i, k) = if decide (i = sid s) then None else fields d !! (i, k)) as Hf.
  { intros i k. apply deleteFields_lookup. }
  split.
  - unfold d', deleteSecret. cbn. rewrite (rf_rows _ _ R). apply map_eq. intros k. rewrite lookup_fmap.
    destruct (decide (k = (t, n))) as [->|Hne].
    + rewrite lookup_delete_eq. apply map_lookup_filter_None. right. intros x H Hx. rewrite lookup_fmap, Hv in H.
      injection H as <-. by apply Hx.
    + rewrite lookup_delete_ne by done. destruct (v !! k) as [s0|] eqn:Ek.
      * apply map_lookup_filter_Some. rewrite lookup_fmap, Ek. split; [done|]. cbn. intros E. apply Hne. by eapply (rf_ids _ _ R).
      * apply map_lookup_filter_None. left. by rewrite lookup_fmap, Ek.
  - intros k k' s1 s2 H1 H2. apply lookup_delete_Some in H1 as [_ H1], H2 as [_ H2]. by apply (rf_ids _ _ R).
  - intros t' n' s' f H. apply lookup_delete_Some in H as [Hne H]. rewrite Hf, decide_False.
    + eapply (holds_key d); [done|]. by eapply rf_values.
    + intros E. apply Hne. symmetry. by eapply (rf_ids _ _ R).
  - intros id f r. rewrite Hf. destruct (decide (id = sid s)); [done|]. intros Hr.
    destruct (rf_owned _ _ R _ _ _ Hr) as (k & s0 & Hk & <-). exists k, s0. split; [|done].
    rewrite lookup_delete_ne; [done|]. intros <-. congruence.
  - apply R.
Qed.

(** Reading all fields back. *)
Lemma decryptRows_all dek rows m : (forall k r, (k, r) ∈ rows -> is_Some (gcmOpen dek (nonce r) (encrypted_value r))) ->
  exists m', decryptRows dek rows m = inl m'
    /\ (forall k p, (exists r, (k, r) ∈ rows /\ gcmOpen dek (nonce r) (encrypted_value r) = Some p) -> NoDup (fst <$> rows) -> m' !! k = Some p)
    /\ (forall k, k ∉ fst <$> rows -> m' !! k = m !! k).
Proof.
  clear Hmk. revert m. induction rows as [|[k r] rows IH]; intros m H.
  { exists m. split; [done|]. split; [|done]. intros k p (r & Hin & _). by apply not_elem_of_nil in Hin. }
  destruct (H k r) as [p Hp]; [set_solver|]. cbn [decryptRows]. unfold Decrypt. rewrite Hp.
  destruct (IH (<[k := p]> m)) as (m' & E1 & E2 & E3); [intros k' r' Hin; apply (H k' r'); set_solver|].
  exists m'. split; [done|]. split.
  - intros k' p' (r' & Hin & Ho) Hnd. rewrite fmap_cons in Hnd. cbn [fst] in Hnd. apply NoDup_cons in Hnd as [Hk Hnd].
    apply elem_of_cons in Hin as [[= -> ->]|Hin].
    + rewrite E3 by done. rewrite lookup_insert_eq. congruence.
    + apply E2; [by exists r'|done].
  - intros k' Hk'. rewrite fmap_cons in Hk'. cbn [fst] in Hk'. rewrite E3 by set_solver.
    rewrite lookup_insert_ne; [done|]. set_solver.
Qed.

Lemma fieldRows_elem id d k r : (k, r) ∈ fieldRows id d <-> fields d !! (id, k) = Some r.
Proof.
  unfold fieldRows. rewrite list_elem_of_omap. split.
  - intros ([[i k'] r'] & Hin & E). apply elem_of_map_to_list in Hin. cbn in E. case_bool_decide; [|done].
    injection E as <- <-. by subst.
  - intros H. exists ((id, k), r). split; [by apply elem_of_map_to_list|]. cbn. by rewrite bool_decide_eq_true_2.
Qed.

Lemma fieldRows_NoDup id d : NoDup (fst <$> fieldRows id d).
Proof.
  unfold fieldRows. pose proof (NoDup_fst_map_to_list (fields d)) as H. revert H.
  induction (map_to_list (fields d)) as [|[[i k] r] l IH]; intros H; [constructor|].
  rewrite fmap_cons in H. apply NoDup_cons in H as [H1 H2]. cbn. case_bool_decide as Hi; [|by apply IH].
  cbn. constructor; [|by apply IH]. intros Hin. apply H1. subst i. cbn.
  apply list_elem_of_fmap in Hin as ([k' r'] & -> & Hin). apply list_elem_of_omap in Hin as ([[i' k''] r''] & Hin & E).
  cbn in E. case_bool_decide; [|done]. injection E as <- <-. subst. apply list_elem_of_fmap. by exists ((id, k''), r'').
Qed.

Lemma decrypt_secret d v t n s dek : refines d v -> v !! (t, n) = Some s -> keyOf d t dek ->
  decryptRows dek (fieldRows (sid s) d) ∅ = inl (sfields s).
Proof.
  intros R Hv Hk.
  assert (forall k r p, fields d !! (sid s, k) = Some r -> sfields s !! k = Some p -> gcmOpen dek (nonce r) (encrypted_value r) = Some p) as Hopen.
  { intros k r p H1 H2. pose proof (rf_values _ _ R t n s k Hv) as H. rewrite H2, H1 in H.
    destruct H as (r' & dek' & [= <-] & Hk' & _ & Ho). destruct Hk as (x & X1 & X2), Hk' as (y & Y1 & Y2).
    assert (dek' = dek) as -> by congruence. done. }
  assert (forall k r, fields d !! (sid s, k) = Some r -> is_Some (sfields s !! k)) as Hin.
  { intros k r H1. pose proof (rf_values _ _ R t n s k Hv) as H. rewrite H1 in H. destruct (sfields s !! k); [eauto|done]. }
  destruct (decryptRows_all dek (fieldRows (sid s) d) ∅) as (m & E & E2 & E3).
  { intros k r H. apply fieldRows_elem in H. destruct (Hin _ _ H) as [p Hp]. exists p. by eapply Hopen. }
  rewrite E. f_equal. apply map_eq. intros k. destruct (sfields s !! k) as [p|] eqn:Ep.
  - apply E2; [|apply fieldRows_NoDup]. pose proof (rf_values _ _ R t n s k Hv) as H. rewrite Ep in H.
    destruct H as (r & dek' & Er & _). exists r. split; [by apply fieldRows_elem|]. by eapply Hopen.
  - rewrite E3; [done|]. intros H. apply list_elem_of_fmap in H as ([k' r] & -> & H). apply fieldRows_elem in H.
    destruct (Hin _ _ H). cbn in Ep. congruence.
Qed.

(** ** The simulation *)

(** A repeated identifier for a new secret. *)
Definition clash (o : op) (id : string) (v : spec) : Prop :=
  match o with OCreate _ _ _ _ _ => exists k s, v !! k = Some s /\ sid s = id | _ => False end.

(** What an operation may do: answer what the map answers, or, after a failure of the
    database or a clash, answer an error and have taken effect or not. *)
Definition outcome (o : op) (v : spec) (id : string) (now : Z) (n : nat) (r : result + error) (w' : world) : Prop :=
  exists v' d' us cs n', at_ mk d' us cs n' w' /\ refines d' v'
    /\ (n' = n /\ specStep o id now v = (v', r)
        \/ ((n < n')%nat \/ clash o id v) /\ (exists e, r = inr e) /\ (v' = v \/ v' = fst (specStep o id now v))).

Section step.
Context (d : tables) (v : spec) (us : list string) (cs : list Z) (n : nat) (w : world).
Hypothesis Hw : at_ mk d us cs n w.
Hypothesis R : refines d v.
Abbreviation id := (default "" (head us)).
Abbreviation now := (default 0 (head cs)).

Lemma outcome_exact o v' d' us' cs' r w' : at_ mk d' us' cs' n w' -> refines d' v' -> specStep o id now v = (v', r) ->
  outcome o v id now n r w'.
Proof. intros H1 H2 H3. exists v', d', us', cs', n. split; [done|]. split; [done|]. by left. Qed.

Lemma outcome_failed o d' us' cs' e w' : at_ mk d' us' cs' (S n) w' -> refines d' v -> outcome o v id now n (inr e) w'.
Proof. intros H1 H2. exists v, d', us', cs', (S n). split; [done|]. split; [done|]. right. split; [left; apply Nat.lt_succ_diag_r|]. split; [eauto|by left]. Qed.

Lemma outcome_kept o us' cs' e w' : kept d v us' cs' (S n) w' -> outcome o v id now n (inr e) w'.
Proof. intros (d' & H1 & H2 & _). by eapply outcome_failed. Qed.

Lemma outcome_late o d' v' us' cs' e w' : at_ mk d' us' cs' (S n) w' -> refines d' v' -> v' = v \/ v' = fst (specStep o id now v) ->
  outcome o v id now n (inr e) w'.
Proof. intros H1 H2 H3. exists v', d', us', cs', (S n). split; [done|]. split; [done|]. right. split; [left; apply Nat.lt_succ_diag_r|]. split; [eauto|done]. Qed.

Abbreviation meets o := (wp (call mk o) (fun r => outcome o v id now n (inl r)) (fun e => outcome o v id now n (inr e)) w).

Lemma get_step t m : meets (OGet t m).
Proof using Hw R.
  apply vault_wp_bind, vault_wp_bind. eapply wp_query; [done| |intros x w' Hw'; by eapply outcome_failed].
  intros w' Hw'. rewrite (refines_lookup d v) by done. destruct (v !! (t, m)) as [s|] eqn:Ev; cbn.
  - eapply outcome_exact; [done|done|]. cbn. by rewrite Ev.
  - eapply outcome_exact; [done|done|]. cbn. by rewrite Ev.
Qed.

Lemma list_step t : meets (OList t).
Proof using Hw R.
  apply vault_wp_bind. eapply wp_query; [done| |intros x w' Hw'; by eapply outcome_failed].
  intros w' Hw'. eapply outcome_exact; [done|done|]. cbn [specStep]. do 4 f_equal.
  rewrite (rf_rows _ _ R), map_to_list_fmap. generalize (map_to_list v). intros l.
  induction l as [|[[t' n'] s] l IH]; [done|]. cbn. rewrite andb_true_r. case_bool_decide; [|done]. cbn. by f_equal.
Qed.


Lemma outcome_clash o d' us' cs' n' e w' : clash o id v -> at_ mk d' us' cs' n' w' -> refines d' v ->
  outcome o v id now n (inr e) w'.
Proof. intros H0 H1 H2. exists v, d', us', cs', n'. split; [done|]. split; [done|]. right. split; [by right|]. split; [eauto|by left]. Qed.

Lemma create_step t m by' ty fs : meets (OCreate t m by' ty fs).
Proof using Hw R Hmk.
  set (o := OCreate t m by' ty fs). cbn [call]. apply vault_wp_bind. unfold CreateSecret. apply vault_wp_bind.
  eapply wp_fieldEncryptor; [done|done| |intros e w' H; by eapply outcome_kept].
  intros dek w1 d1 Hw1 R1 Es1 Ef1 Hk1 Hl. apply vault_wp_bind. eapply wp_newUUID; [done|]. intros w2 Hw2.
  apply vault_wp_bind. eapply wp_timeNow; [done|]. intros w3 Hw3. apply vault_wp_bind.
  eapply wp_transaction; [exact Hw3| |intros x w' Hw'; by eapply outcome_failed].
  intros w4 Hw4. apply vault_wp_bind, wp_wrap.
  set (s := {| sid := id; stype := ty; srev := 1; sby := by'; screated := dbTime now; supdated := dbTime now; sfields := fs |}).
  destruct (existsb (fun p => bool_decide (secret_id (snd p) = id)) (map_to_list (secrets d1))) eqn:Edup.
  { assert (clash o id v) as Hc.
    { apply existsb_exists in Edup as ([k r] & Hin & Hr). apply list_elem_of_In, elem_of_map_to_list in Hin.
      apply bool_decide_eq_true in Hr. rewrite (rf_rows _ _ R1), lookup_fmap in Hin.
      destruct (v !! k) as [s0|] eqn:Ek; [|done]. injection Hin as <-. by exists k, s0. }
    eapply wp_exec_dup; [exact Hw4|unfold insertSecret; cbn [secret_id]; by rewrite Edup| |].
    - intros w5 Hw5. do 4 eexists; split; [exact Hw5|]. intros w' Hw'. by eapply outcome_clash.
    - intros e w5 Hw5. do 4 eexists; split; [exact Hw5|]. intros w' Hw'. by eapply outcome_clash. }
  assert (forall k s0, v !! k = Some s0 -> sid s0 <> id) as Hfresh.
  { intros k s0 Hk E. assert (existsb (fun p => bool_decide (secret_id (snd p) = id)) (map_to_list (secrets d1)) = true); [|congruence].
    apply existsb_exists. exists (k, rowOf s0). split.
    - apply list_elem_of_In, elem_of_map_to_list. by rewrite (rf_rows _ _ R1), lookup_fmap, Hk.
    - apply bool_decide_eq_true. done. }
  destruct (v !! (t, m)) as [s0|] eqn:Ev.
  { eapply wp_exec_dup; [exact Hw4|unfold insertSecret; cbn [secret_id]; by rewrite Edup, (rf_rows _ _ R1), lookup_fmap, Ev| |].
    - intros w' Hw'. do 4 eexists; split; [exact Hw'|]. intros w'' Hw''. eapply outcome_exact; [done|done|]. cbn. by rewrite Ev.
    - intros e w' Hw'. do 4 eexists; split; [exact Hw'|]. intros w'' Hw''. by eapply outcome_failed. }
  set (d2 := set_secrets (<[(t, m) := rowOf s]> (secrets d1)) d1).
  eapply (wp_exec mk d1 _ _ n w4 Hw4 _ d2).
  { assert (secrets d1 !! (t, m) = None) as En by (by rewrite (rf_rows _ _ R1), lookup_fmap, Ev).
    unfold insertSecret. cbn [secret_id]. by rewrite Edup, En. }
  2: { intros x w' dx _ Hw'. do 4 eexists; split; [exact Hw'|]. intros w'' Hw''. by eapply outcome_failed. }
  intros w5 Hw5. eapply wp_insertFields; [done|exact Hw5|apply NoDup_fst_map_to_list| | |].
  - intros k _. unfold d2. cbn. apply eq_None_not_Some. intros [r Hr]. destruct (rf_owned _ _ R1 _ _ _ Hr) as (k' & s1 & H1 & H2).
    by eapply Hfresh.
  - intros w6 d6 Hw6 St. assert (refines d6 (<[(t, m) := s]> v)) as R6 by (eapply (refines_create d1 v d6 t m s dek); done).
    do 4 eexists; split; [exact Hw6|]; split.
    + intros w7 Hw7. eapply outcome_exact; [done|exact R6|]. cbn. by rewrite Ev.
    + intros x w7 dx Hdx Hw7. destruct Hdx as [-> | ->]; [by eapply outcome_failed|].
      eapply outcome_late; [done|exact R6|]. right. cbn. by rewrite Ev.
  - intros e w6 d6 Hw6. do 4 eexists; split; [exact Hw6|]. intros w7 Hw7. by eapply outcome_failed.
Qed.

Lemma update_step t m fs : meets (OUpdate t m fs).
Proof using Hw R Hmk.
  set (o := OUpdate t m fs). cbn [call]. apply vault_wp_bind. unfold UpdateSecret. apply vault_wp_bind.
  eapply wp_fieldEncryptor; [done|done| |intros e w' H; by eapply outcome_kept].
  intros dek w1 d1 Hw1 R1 Es1 Ef1 Hk1 Hl. apply vault_wp_bind.
  eapply wp_transaction; [exact Hw1| |intros x w' Hw'; by eapply outcome_failed].
  intros w2 Hw2. apply vault_wp_bind. eapply wp_timeNow; [done|]. intros w3 Hw3. apply vault_wp_bind.
  eapply wp_query; [exact Hw3| |intros x w' Hw'; do 4 eexists; split; [exact Hw'|]; intros; by eapply outcome_failed].
  intros w4 Hw4. rewrite (refines_lookup d1 v) by done. destruct (v !! (t, m)) as [s|] eqn:Ev; cbn [fmap option_fmap option_map].
  2: { do 4 eexists; split; [exact Hw4|]. intros w' Hw'. eapply outcome_exact; [done|done|]. cbn. by rewrite Ev. }
  cbn [rowOf secret_id revision]. set (rev := wrap64 (srev s + 1)).
  set (d2 := set_secrets (bumpRow (sid s) rev now <$> secrets d1) d1). set (d3 := deleteFields (sid s) d2).
  apply vault_wp_bind. eapply (wp_exec mk d1 _ _ n w4 Hw4 _ d2); [done| |intros x w' dx _ Hw'; do 4 eexists; split; [exact Hw'|]; intros; by eapply outcome_failed].
  intros w5 Hw5. apply vault_wp_bind.
  eapply (wp_exec mk d2 _ _ n w5 Hw5 _ d3); [done| |intros x w' dx _ Hw'; do 4 eexists; split; [exact Hw'|]; intros; by eapply outcome_failed].
  intros w6 Hw6. apply vault_wp_bind. eapply wp_insertFields; [done|exact Hw6|apply NoDup_fst_map_to_list| | |].
  - intros k _. unfold d3. rewrite deleteFields_lookup. by rewrite decide_True.
  - intros w7 d7 Hw7 St.
    assert (refines d7 (<[(t, m) := bumped rev now fs s]> v)) as R7 by (eapply (refines_update d1 v d7 t m s dek); done).
    apply wp_ret. do 4 eexists; split; [exact Hw7|]; split.
    + intros w8 Hw8. eapply outcome_exact; [done|exact R7|]. cbn. by rewrite Ev.
    + intros x w8 dx Hdx Hw8. destruct Hdx as [-> | ->]; [by eapply outcome_failed|].
      eapply outcome_late; [done|exact R7|]. right. cbn. by rewrite Ev.
  - intros e w7 d7 Hw7. do 4 eexists; split; [exact Hw7|]. intros w8 Hw8. by eapply outcome_failed.
Qed.

Lemma delete_step t m : meets (ODelete t m).
Proof using Hw R.
  set (o := ODelete t m). cbn [call]. apply vault_wp_bind. unfold DeleteSecret.
  eapply wp_transaction; [exact Hw| |intros x w' Hw'; by eapply outcome_failed].
  intros w2 Hw2. apply vault_wp_bind.
  eapply wp_query; [exact Hw2| |intros x w' Hw'; do 4 eexists; split; [exact Hw'|]; intros; by eapply outcome_failed].
  intros w3 Hw3. rewrite (rf_rows _ _ R), lookup_fmap. destruct (v !! (t, m)) as [s|] eqn:Ev; cbn [fmap option_fmap option_map].
  2: { do 4 eexists; split; [exact Hw3|]. intros w' Hw'. eapply outcome_exact; [done|done|]. cbn. by rewrite Ev. }
  cbn [rowOf secret_id]. set (d2 := deleteFields (sid s) d). set (d3 := deleteSecret (sid s) d2).
  apply vault_wp_bind. eapply (wp_exec mk d _ _ n w3 Hw3 _ d2); [done| |intros x w' dx _ Hw'; do 4 eexists; split; [exact Hw'|]; intros; by eapply outcome_failed].
  intros w4 Hw4.
  eapply (wp_exec mk d2 _ _ n w4 Hw4 _ d3); [done| |intros x w' dx _ Hw'; do 4 eexists; split; [exact Hw'|]; intros; by eapply outcome_failed].
  intros w5 Hw5. pose proof (refines_delete d v t m s R Ev) as R5. do 4 eexists; split; [exact Hw5|]; split.
  - intros w6 Hw6. apply wp_ret. eapply outcome_exact; [done|exact R5|]. cbn. by rewrite Ev.
  - intros x w6 dx Hdx Hw6. destruct Hdx as [-> | ->]; [by eapply outcome_failed|].
    eapply outcome_late; [done|exact R5|]. right. cbn. by rewrite Ev.
Qed.

(** The secret that is read, if there is one. *)
Lemma wp_getSecret o t m (Q : Secret -> world -> Prop) :
  (v !! (t, m) = None -> specStep o id now v = (v, inr ErrNotFound)) ->
  (forall s w', v !! (t, m) = Some s -> at_ mk d us cs n w' -> Q (shown t m s) w') ->
  wp (GetSecret t m) Q (fun e => outcome o v id now n (inr e)) w.
Proof using Hw R.
  intros Hnone HQ. apply vault_wp_bind. eapply wp_query; [done| |intros x w' Hw'; by eapply outcome_failed].
  intros w' Hw'. rewrite (refines_lookup d v) by done. destruct (v !! (t, m)) as [s|] eqn:Ev; cbn.
  - by apply HQ.
  - eapply outcome_exact; [done|done|]. by apply Hnone.
Qed.

Lemma readAll_step t m : meets (OReadAll t m).
Proof using Hw R Hmk.
  cbn [call]. apply vault_wp_bind. unfold ReadSecretFields. apply vault_wp_bind. apply wp_getSecret; [cbn; by intros -> |].
  intros s w1 Ev Hw1. apply vault_wp_bind. eapply wp_fieldEncryptor; [done|done| |intros e w' H; by eapply outcome_kept].
  intros dek w2 d2 Hw2 R2 Es Ef Hk Hl. apply vault_wp_bind.
  eapply wp_query; [exact Hw2| |intros x w' Hw'; by eapply outcome_failed]. intros w3 Hw3.
  change (SecretID (shown t m s)) with (sid s). rewrite (decrypt_secret d2 v t m s dek R2 Ev Hk).
  eapply outcome_exact; [done|done|]. cbn. by rewrite Ev.
Qed.

Lemma read_step t m f : meets (ORead t m f).
Proof using Hw R Hmk.
  cbn [call]. apply vault_wp_bind. unfold ReadSecretField. apply vault_wp_bind. apply wp_getSecret; [cbn; by intros -> |].
  intros s w1 Ev Hw1. apply vault_wp_bind. eapply wp_fieldEncryptor; [done|done| |intros e w' H; by eapply outcome_kept].
  intros dek w2 d2 Hw2 R2 Es Ef Hk Hl. apply vault_wp_bind.
  eapply wp_query; [exact Hw2| |intros x w' Hw'; by eapply outcome_failed]. intros w3 Hw3.
  change (SecretID (shown t m s)) with (sid s). pose proof (rf_values _ _ R2 t m s f Ev) as H.
  destruct (sfields s !! f) as [p|] eqn:Ep.
  - destruct H as (r & dek' & -> & (k' & K1 & K2) & _ & Ho). destruct Hk as (k & K3 & K4).
    assert (dek' = dek) as -> by congruence. apply wp_ofSum. unfold Decrypt. rewrite Ho.
    eapply outcome_exact; [done|done|]. cbn. by rewrite Ev, Ep.
  - rewrite H. eapply outcome_exact; [done|done|]. cbn. by rewrite Ev, Ep.
Qed.

Lemma call_step o : meets o.
Proof using Hw R Hmk.
  destruct o; [apply create_step|apply get_step|apply list_step|apply update_step|apply delete_step|apply readAll_step|apply read_step].
Qed.

End step.
End refinement.


(** ** Programs *)

Definition nextID (w : world) : string := default "" (head (uuids (env w))).
Definition nextTime (w : world) : Z := default 0 (head (clock (env w))).

(** A step of the map that explains an operation from one world to another. *)
Definition explains (o : op) (w w' : world) (r : result + error) (v v' : spec) : Prop :=
  troubles w' = troubles w /\ specStep o (nextID w) (nextTime w) v = (v', r)
  \/ ((troubles w < troubles w')%nat \/ clash o (nextID w) v) /\ (exists e, r = inr e)
     /\ (v' = v \/ v' = fst (specStep o (nextID w) (nextTime w) v)).

(** A program runs on the store as on the map. *)
Fixpoint simulates (mk : string) (os : list op) (w : world) (v : spec) : Prop :=
  match os with
  | [] => True
  | o :: os =>
      let '(w', r) := call mk o w in
      exists v', explains o w w' r v v' /\ simulates mk os w' v'
  end.

Definition startWorld (e : environment) : world :=
  {| tbl := emptyTables; env := e; signedCaps := []; signedGrants := []; troubles := 0 |}.

Lemma simulates_from mk os : String.length mk = 32%nat -> forall d us cs n w v,
  at_ mk d us cs n w -> refines mk d v -> simulates mk os w v.
Proof.
  intros Hmk. induction os as [|o os IH]; intros d us cs n w v Hw R; [done|]. cbn [simulates].
  pose proof (call_step mk Hmk d v us cs n w Hw R o) as H. unfold wp in H.
  destruct (call mk o w) as [w' r].
  assert (outcome mk o v (default "" (head us)) (default 0 (head cs)) n r w') as (v' & d' & us' & cs' & n' & Hw' & R' & H').
  { by destruct r. }
  exists v'. split; [|by eapply IH]. unfold explains, nextID, nextTime.
  destruct Hw as (_ & -> & -> & -> & _), Hw' as (_ & _ & _ & -> & _). destruct H' as [[-> E]|H']; [by left|by right].
Qed.

(** C10: the secrets of the vault behave as a map from tenant and name to a revision and
    plaintext fields.  For every program of creations, rotations, deletions, look-ups,
    listings and reads, run by a server with a 32-byte master key and any clock,
    identifiers, random bytes and database outcomes, while other servers may insert
    tenant keys that this master key opens: each call either answers what the map
    answers and changes the state as the map does, or - only after a database failure
    during that call, or when a new secret got an identifier in use - answers an error,
    and then the map has taken the whole step or none of it. *)
Theorem secrets_refine mk os e :
  String.length mk = 32%nat -> Forall (fun r => forall k, r = Some k -> goodDEK mk k) (rivals e) ->
  simulates mk os (startWorld e) ∅.
Proof.
  intros Hmk He. eapply (simulates_from mk os Hmk emptyTables (uuids e) (clock e) 0); [done|].
  apply secrets_refine_empty.
Qed.

(** Another server's key comes first, the commit of a rotation is lost after it took
    effect, a deleted name is created again. *)
Definition demoKey : string := "0123456789abcdef0123456789abcdef".
Definition demoRival : string := let n := sized 12 "nonce" in n +:+ gcmSeal demoKey n (sized 32 "the rival's key").
Definition demoEnv : environment :=
  {| clock := [10 ^ 18; 2 * 10 ^ 18; 3 * 10 ^ 18]; uuids := ["s1"; "s2"]; draws := ["a"; "b"; "c"; "d"];
     faults := replicate 14 Fine ++ [Late "lost"]; rivals := [Some demoRival] |}.
Definition demoOps : list op :=
  [OCreate "t" "db" "api" "generic" {[ "user" := "root"; "pass" := "x" ]};
   OUpdate "t" "db" {[ "pass" := "y" ]}; OReadAll "t" "db"; OReadAll "u" "db"; ODelete "t" "db"; ORead "t" "db" "pass";
   OCreate "t" "db" "api" "generic" {[ "pass" := "z" ]}; ORead "t" "db" "pass"].

Fixpoint answers (mk : string) (os : list op) (w : world) : list (result + error) :=
  match os with [] => [] | o :: os => let '(w', r) := call mk o w in r :: answers mk os w' end.

Lemma demoRival_good : goodDEK demoKey demoRival.
Proof. exists (sized 32 "the rival's key"). vm_compute. done. Qed.

Lemma secrets_refine_witness :
  simulates demoKey demoOps (startWorld demoEnv) ∅
  /\ List.tail (answers demoKey demoOps (startWorld demoEnv))
     = [inr (Err "lost"); inl (RFields {[ "pass" := "y" ]}); inr ErrNotFound; inl RDone; inr ErrNotFound;
        inl (RSecret {| SecretID := "s2"; STenantID := "t"; Name := "db"; SecretType := "generic"; Revision := 1;
                        CreatedBy := "api"; CreatedAt := 3 * 10 ^ 18; UpdatedAt := 3 * 10 ^ 18; DeletedAt := None |});
        inl (RValue "z")].
Proof.
  split; [|vm_compute; reflexivity].
  apply (secrets_refine demoKey demoOps demoEnv); [reflexivity|].
  repeat constructor. intros k [= <-]. apply demoRival_good.
Defined.
End VSecrets.

