(* ===== verification/VaultSafety.v ===== *)
(** * What vault tokens authorize

    Safety of the vault's HTTP API over histories of requests: a read that reveals
    plaintext was authorized by a token the server signed for that tenant, whose scope
    covers the field, that has not expired and is not revoked; and a revoked token never
    verifies again.  The only ways out are a forged signature or two tenants with the
    same derived key, which the theorems exhibit. *)

From Stdlib Require Import Strings.Ascii.
From S2P Require Import Prelude GoStrings Json Sha256 AesGcm JsonStruct VaultScope VaultToken VaultStore VaultServer VaultSecrets.

Import GoStr JStruct Scope VToken VStore VServer.

Module VSafety.

#[local] Arguments String.append !_ _ / : simpl nomatch.

(** ** What every handler keeps *)

(** An environment whose identifiers are UTF-8 and whose clock is in this millennium. *)
Definition saneEnv (e : environment) : Prop :=
  Forall Json.valid (uuids e) /\ Forall (fun t => 0 <= t <= max_int64) (clock e).

Section keeps.
Context (Jt : gmap string tokenRow -> Prop) (Jg : gmap string grantRow -> Prop)
  (Sc : list CapTokenClaims -> Prop) (Sg : list VaultGrantClaims -> Prop).

Definition J (d : tables) : Prop := Jt (tokens d) /\ Jg (grants d).
Definition inv (w : world) : Prop := J (tbl w) /\ Sc (signedCaps w) /\ Sg (signedGrants w) /\ saneEnv (env w).

(** The program keeps the invariant and yields values that satisfy [P]. *)
Definition keeps {A} (P : A -> Prop) (m : M A) : Prop :=
  forall w, inv w -> match m w with (w', inl a) => inv w' /\ P a | (w', inr _) => inv w' end.

Abbreviation keeps_ := (keeps (fun _ => True)).

Lemma keeps_ret {A} (P : A -> Prop) a : P a -> keeps P (ret a).
Proof. intros H w Hw. done. Qed.
Lemma handler_keeps_throw {A} (P : A -> Prop) e : keeps P (throw e).
Proof. intros w Hw. done. Qed.
Lemma keeps_ofSum {A} (P : A -> Prop) r : (forall a, r = inl a -> P a) -> keeps P (ofSum r).
Proof. intros H w Hw. unfold ofSum. destruct r; [split; [done|by apply H]|done]. Qed.
Lemma handler_keeps_bind {A B} (P : A -> Prop) (Q : B -> Prop) m k : keeps P m -> (forall a, P a -> keeps Q (k a)) -> keeps Q (bind m k).
Proof. intros Hm Hk w Hw. unfold bind. specialize (Hm w Hw). destruct (m w) as [w' [a|e]]; [|done]. destruct Hm as [H1 H2]. by apply Hk. Qed.
Lemma keeps_weaken {A} (P Q : A -> Prop) m : (forall a, P a -> Q a) -> keeps P m -> keeps Q m.
Proof. intros H Hm w Hw. specialize (Hm w Hw). destruct (m w) as [w' [a|e]]; [|done]. destruct Hm. auto. Qed.
Lemma keeps_wrap {A} (P : A -> Prop) t m : keeps P m -> keeps P (wrapErr t m).
Proof. intros Hm w Hw. unfold wrapErr. specialize (Hm w Hw). by destruct (m w) as [w' [a|e]]. Qed.
Lemma keeps_attempt {A} (P : A -> Prop) m : keeps P m -> keeps (fun r => match r with inl a => P a | inr _ => True end) (attempt m).
Proof. intros Hm w Hw. unfold attempt. specialize (Hm w Hw). by destruct (m w) as [w' [a|e]]. Qed.

Lemma tail_Forall {A} (P : A -> Prop) l : Forall P l -> Forall P (tail l).
Proof. destruct l; [done|]. by intros [_ H]%Forall_cons. Qed.
Lemma head_Forall {A} (P : A -> Prop) l x : Forall P l -> P x -> P (default x (head l)).
Proof. destruct l; [done|]. by intros [H _]%Forall_cons. Qed.

Lemma keeps_timeNow : keeps (fun t => 0 <= t <= max_int64) timeNow.
Proof.
  intros w (H1 & H2 & H3 & H4 & H5). split; [|by apply head_Forall].
  split; [done|]. split; [done|]. split; [done|]. split; [done|]. by apply tail_Forall.
Qed.
Lemma keeps_newUUID : keeps Json.valid newUUID.
Proof.
  intros w (H1 & H2 & H3 & H4 & H5). split; [|apply head_Forall; [done|apply Json.valid_nil]].
  split; [done|]. split; [done|]. split; [done|]. split; [by apply tail_Forall|done].
Qed.
Lemma keeps_randBytes n : keeps_ (randBytes n).
Proof. intros w Hw. split; [|done]. exact Hw. Qed.
Lemma keeps_nextFault : keeps_ nextFault.
Proof. intros w Hw. split; [|done]. exact Hw. Qed.
Lemma keeps_nextRival : keeps_ nextRival.
Proof. intros w Hw. split; [|done]. exact Hw. Qed.
Lemma keeps_getTables : keeps J getTables.
Proof. intros w Hw. split; [done|]. apply Hw. Qed.
Lemma keeps_putTables d : J d -> keeps_ (putTables d).
Proof. intros Hd w (_ & H). split; [|done]. split; [done|exact H]. Qed.

Lemma keeps_query {A} (P : A -> Prop) f : (forall d, P (f d)) -> keeps P (query f).
Proof.
  intros HP. eapply handler_keeps_bind; [apply keeps_nextFault|]. intros o _. destruct o; [|apply handler_keeps_throw..].
  eapply handler_keeps_bind; [apply keeps_getTables|]. intros d _. by apply keeps_ret.
Qed.

(** Statements keep the tokens and grants if they say so. *)
Definition safe {A} (f : tables -> (tables * A) + error) : Prop :=
  forall d, J d -> match f d with inl (d', _) => J d' | inr _ => True end.

Lemma keeps_apply {A} (f : tables -> (tables * A) + error) (last : A -> M A) : safe f -> (forall a, keeps_ (last a)) ->
  keeps_ (let! d := getTables in match f d with inr e => throw e | inl (d, a) => putTables d ;! last a end).
Proof.
  intros Hf Hl. eapply handler_keeps_bind; [apply keeps_getTables|]. intros d Hd. specialize (Hf d Hd).
  destruct (f d) as [[d' a]|e]; [|apply handler_keeps_throw]. eapply handler_keeps_bind; [by apply keeps_putTables|]. intros _ _. apply Hl.
Qed.

Lemma keeps_exec {A} (f : tables -> (tables * A) + error) : safe f -> keeps_ (exec f).
Proof.
  intros Hf. eapply handler_keeps_bind; [apply keeps_nextFault|]. intros o _. destruct o as [|t|t].
  - apply (keeps_apply f ret Hf). intros a. by apply keeps_ret.
  - apply handler_keeps_throw.
  - apply (keeps_apply f (fun _ => throw (Err t)) Hf). intros a. apply handler_keeps_throw.
Qed.

Lemma keeps_transaction {A} (P : A -> Prop) (m : M A) : keeps P m -> keeps P (transaction m).
Proof.
  intros Hm. eapply handler_keeps_bind; [apply keeps_nextFault|]. intros o _. destruct o; [|apply handler_keeps_throw..].
  eapply handler_keeps_bind; [apply keeps_getTables|]. intros before Hb.
  eapply (handler_keeps_bind P).
  - intros w Hw. unfold restoring. specialize (Hm w Hw). destruct (m w) as [w' [a|e]]; [done|].
    destruct Hm as (_ & H). split; [apply Hw|exact H].
  - intros a Ha. eapply handler_keeps_bind; [apply keeps_nextFault|]. intros o _. destruct o; [by apply keeps_ret| |apply handler_keeps_throw].
    eapply handler_keeps_bind; [by apply keeps_putTables|]. intros _ _. apply handler_keeps_throw.
Qed.


(** *** The store's operations *)

Hypothesis Jt_insert : forall m id r, Jt m -> m !! id = None -> Jt (<[id := r]> m).
Hypothesis Jg_insert : forall m id r, Jg m -> m !! id = None -> Jg (<[id := r]> m).
Hypothesis Jt_revoke : forall m id r now by' why, Jt m -> m !! id = Some r -> t_revoked_at r = None ->
  Jt (<[id := revokeTokenRow now by' why r]> m).
Hypothesis Jg_revoke : forall m id r now by' why, Jg m -> m !! id = Some r -> g_revoked_at r = None ->
  Jg (<[id := revokeGrantRow now by' why r]> m).
Hypothesis Sc_sign : forall l c, Sc l -> capOk c -> Sc (l ++ [c]).
Hypothesis Sg_sign : forall l c, Sg l -> grantOk c -> Sg (l ++ [c]).

Context (mk : string) (T : texts) (issuer : string).
Hypothesis issuer_valid : Json.valid issuer.

(** A statement on the other tables. *)
Lemma safe_other {A} (f : tables -> (tables * A) + error) :
  (forall d, match f d with inl (d', _) => tokens d' = tokens d /\ grants d' = grants d | inr _ => True end) -> safe f.
Proof. intros H d [H1 H2]. specialize (H d). destruct (f d) as [[d' a]|e]; [|done]. destruct H as [E1 E2]. split; congruence. Qed.

Lemma insertDEK_tokens t k d : tokens (insertDEK t k d) = tokens d /\ grants (insertDEK t k d) = grants d.
Proof. unfold insertDEK. by destruct (deks d !! t). Qed.

Lemma keeps_then {A B} (Q : B -> Prop) (m : M A) k : keeps_ m -> (forall a, keeps Q (k a)) -> keeps Q (bind m k).
Proof. intros H1 H2. eapply handler_keeps_bind; [exact H1|]. intros a _. apply H2. Qed.
Lemma keeps_ret_ {A} (a : A) : keeps_ (ret a).
Proof. by apply keeps_ret. Qed.
Lemma keeps_ofSum_ {A} (r : A + error) : keeps_ (ofSum r).
Proof. by apply keeps_ofSum. Qed.
Lemma keeps_query_ {A} (f : tables -> A) : keeps_ (query f).
Proof. by apply keeps_query. Qed.
Lemma keeps_timeNow_ : keeps_ timeNow.
Proof. eapply keeps_weaken; [|apply keeps_timeNow]. done. Qed.
Lemma keeps_newUUID_ : keeps_ newUUID.
Proof. eapply keeps_weaken; [|apply keeps_newUUID]. done. Qed.
Lemma keeps_attempt_ {A} (m : M A) : keeps_ m -> keeps_ (attempt m).
Proof. intros H. eapply keeps_weaken; [|by apply keeps_attempt]. done. Qed.

#[local] Hint Resolve handler_keeps_throw keeps_ret_ keeps_ofSum_ keeps_query_ keeps_timeNow_ keeps_newUUID_ keeps_randBytes
  keeps_nextRival keeps_nextFault : keeps.

(** One step of a program: a bind, a wrapper, a case of what was read. *)
Ltac keeps_step :=
  first [ solve [auto with keeps]
        | apply keeps_transaction | apply keeps_wrap | apply keeps_attempt_ | apply keeps_then
        | progress intros
        | match goal with
          | |- keeps _ (if ?b then _ else _) => destruct b
          | |- keeps _ (match ?x with _ => _ end) => destruct x
          end ].
Ltac keeps_auto := repeat keeps_step.

Lemma keeps_GetOrCreateDEK t : keeps_ (GetOrCreateDEK mk t).
Proof.
  unfold GetOrCreateDEK, GenerateDEK. apply keeps_then; [keeps_auto|]. intros [k|]; [keeps_auto|].
  apply keeps_then; [keeps_auto|]. intros p. apply keeps_then; [keeps_auto|]. intros r.
  eapply handler_keeps_bind; [apply keeps_getTables|]. intros d [Hd1 Hd2]. apply keeps_then.
  { apply keeps_putTables. destruct r as [k|]; [|by split]. destruct (insertDEK_tokens t k d) as [E1 E2]. split; congruence. }
  intros _. apply keeps_then; [|intros; keeps_auto]. apply keeps_wrap, keeps_exec, safe_other. intros d'. apply insertDEK_tokens.
Qed.
#[local] Hint Resolve keeps_GetOrCreateDEK : keeps.

Lemma keeps_fieldEncryptor t : keeps_ (fieldEncryptor mk t).
Proof. unfold fieldEncryptor. keeps_auto. Qed.
#[local] Hint Resolve keeps_fieldEncryptor : keeps.

Lemma keeps_insertFields wrap dek id fs : keeps_ (insertFields wrap dek id fs).
Proof.
  induction fs as [|[k p] fs IH]; [keeps_auto|]. cbn [insertFields]. unfold Encrypt. apply keeps_then; [keeps_auto|]. intros c.
  apply keeps_then; [|auto]. apply keeps_wrap, keeps_exec, safe_other. intros d. unfold insertField. by destruct (fields d !! (id, k)).
Qed.
#[local] Hint Resolve keeps_insertFields : keeps.

Lemma safe_insertSecret t n r : safe (insertSecret t n r).
Proof. apply safe_other. intros d. unfold insertSecret. destruct (existsb _ _); [done|]. by destruct (secrets d !! (t, n)). Qed.
Lemma safe_deleteFields id : safe (fun d => inl (deleteFields id d, tt)).
Proof. by apply safe_other. Qed.
Lemma safe_deleteSecret id : safe (fun d => inl (deleteSecret id d, tt)).
Proof. by apply safe_other. Qed.
Lemma safe_bump id rev now : safe (fun d => inl (set_secrets (bumpRow id rev now <$> secrets d) d, tt)).
Proof. by apply safe_other. Qed.
Lemma safe_insertAudit r : safe (insertAudit r).
Proof. apply safe_other. intros d. unfold insertAudit. by destruct (existsb _ _). Qed.
#[local] Hint Resolve keeps_exec safe_insertSecret safe_deleteFields safe_deleteSecret safe_bump safe_insertAudit : keeps.

Lemma keeps_CreateSecret t n by' ty fs : keeps_ (CreateSecret mk t n by' ty fs).
Proof. unfold CreateSecret. keeps_auto. Qed.
Lemma keeps_GetSecret t n : keeps_ (GetSecret t n).
Proof. unfold GetSecret. keeps_auto. Qed.
Lemma keeps_ListSecrets t : keeps_ (ListSecrets t).
Proof. unfold ListSecrets. keeps_auto. Qed.
Lemma keeps_UpdateSecret t n fs : keeps_ (UpdateSecret mk t n fs).
Proof. unfold UpdateSecret. keeps_auto. Qed.
Lemma keeps_DeleteSecret t n : keeps_ (DeleteSecret t n).
Proof. unfold DeleteSecret. keeps_auto. Qed.
#[local] Hint Resolve keeps_CreateSecret keeps_GetSecret keeps_ListSecrets keeps_UpdateSecret keeps_DeleteSecret : keeps.
Lemma keeps_ReadSecretFields t n : keeps_ (ReadSecretFields mk t n).
Proof. unfold ReadSecretFields. keeps_auto. Qed.
Lemma keeps_ReadSecretField t n f : keeps_ (ReadSecretField mk t n f).
Proof. unfold ReadSecretField. keeps_auto. Qed.
Lemma keeps_audited e : keeps_ (audited e).
Proof. unfold audited, WriteAuditEvent. keeps_auto. Qed.
#[local] Hint Resolve keeps_ReadSecretFields keeps_ReadSecretField keeps_audited : keeps.

(** *** Tokens and grants *)

Lemma hexEncode_valid s : Json.valid (Sha256.hexEncode s).
Proof.
  apply ascii_valid. induction s as [|c s IH]; [done|]. cbn [Sha256.hexEncode everyByte].
  assert (forall n, 0 <= n < 16 -> code (Sha256.hexDigit n) <? 128 = true) as K.
  { intros n Hn. unfold Sha256.hexDigit, code, ascii_of_nat. apply Z.ltb_lt.
    destruct (n <? 10) eqn:E; rewrite N_ascii_embedding; apply Z.ltb_lt in E || apply Z.ltb_ge in E; lia. }
  pose proof (Json.code_range c). rewrite !K, IH; [done|apply Z.mod_pos_bound; lia|].
  split; [apply Z.div_pos; lia|apply Z.div_lt_upper_bound; lia].
Qed.

Lemma prefixed_valid p s : everyByte (fun n => n <? 128) p = true -> Json.valid s -> Json.valid (p +:+ s).
Proof. intros H1 H2. apply Json.valid_app; [by apply ascii_valid|done]. Qed.

Lemma Unix_range t : - 2 ^ 63 <= t <= 2 ^ 65 -> - 2 ^ 63 <= Unix t <= max_int64.
Proof.
  intros H. unfold Unix, second, max_int64. split.
  - apply Z.div_le_lower_bound; lia.
  - apply Z.div_le_upper_bound; lia.
Qed.

Lemma keeps_noteCap c : capOk c -> keeps_ (noteCap c).
Proof using Sc_sign. intros Hc w (H1 & H2 & H3). split; [|done]. split; [done|]. split; [by apply Sc_sign|done]. Qed.
Lemma keeps_noteGrant c : grantOk c -> keeps_ (noteGrant c).
Proof using Sg_sign. intros Hc w (H1 & H2 & H3 & H4). split; [|done]. split; [done|]. split; [done|]. split; [by apply Sg_sign|done]. Qed.

Lemma safe_insertToken id r : safe (insertToken id r).
Proof using Jt_insert.
  intros d [H1 H2]. unfold insertToken. destruct (tokens d !! id) eqn:E; [done|]. split; [by apply Jt_insert|done].
Qed.
Lemma safe_insertGrant id r : safe (insertGrant id r).
Proof using Jg_insert.
  intros d [H1 H2]. unfold insertGrant. destruct (grants d !! id) eqn:E; [done|]. split; [done|by apply Jg_insert].
Qed.
Lemma safe_revokeToken t id now by' why : safe (updateToken t id (revokeTokenRow now by' why)).
Proof using Jt_revoke.
  intros d [H1 H2]. unfold updateToken. destruct (tokens d !! id) as [r|] eqn:E; [|done].
  case_bool_decide; [|done]. case_bool_decide; [|done]. split; [by apply Jt_revoke|done].
Qed.
Lemma safe_revokeGrant t id now by' why : safe (updateGrant t id (revokeGrantRow now by' why)).
Proof using Jg_revoke.
  intros d [H1 H2]. unfold updateGrant. destruct (grants d !! id) as [r|] eqn:E; [|done].
  case_bool_decide; [|done]. case_bool_decide; [|done]. split; [done|by apply Jg_revoke].
Qed.
#[local] Hint Resolve keeps_noteCap keeps_noteGrant safe_insertToken safe_insertGrant safe_revokeToken safe_revokeGrant : keeps.

Lemma keeps_IssueCapToken t agent task scope ttl : Forall Json.valid [t; agent; task] -> Forall Json.valid scope ->
  - 2 ^ 63 <= ttl <= max_int64 -> keeps_ (IssueCapToken mk t agent task scope ttl).
Proof using Jt_insert Sc_sign.
  intros Hv Hs Ht. apply Forall_cons in Hv as [Hv1 Hv]. apply Forall_cons in Hv as [Hv2 Hv]. apply Forall_cons in Hv as [Hv3 _].
  unfold IssueCapToken. eapply handler_keeps_bind; [apply keeps_newUUID|]. intros u Hu.
  eapply handler_keeps_bind; [apply keeps_timeNow|]. intros now Hn.
  eapply (handler_keeps_bind Json.valid); [eapply handler_keeps_bind; [apply keeps_randBytes|]; intros b _; apply keeps_ret, hexEncode_valid|].
  intros nc Hnc. apply keeps_then; [|intros; keeps_auto]. apply keeps_noteCap. unfold max_int64 in *. split; cbn.
  - repeat constructor; try done. by apply (prefixed_valid "cap_").
  - done.
  - apply Unix_range. lia.
  - apply Unix_range. lia.
Qed.

Lemma keeps_RevokeCapToken t id by' why : keeps_ (RevokeCapToken t id by' why).
Proof using Jt_revoke. unfold RevokeCapToken. keeps_auto. Qed.

Lemma keeps_IssueGrant t agent scope perm ttl label : Forall Json.valid [t; agent; perm; label] -> Forall Json.valid scope ->
  - 2 ^ 63 <= ttl <= max_int64 -> keeps_ (IssueGrant mk T t issuer PrincipalDelegated agent scope perm ttl label).
Proof using Jg_insert Sg_sign issuer_valid.
  intros Hv Hs Ht. apply Forall_cons in Hv as [Hv1 Hv]. apply Forall_cons in Hv as [Hv2 Hv]. apply Forall_cons in Hv as [Hv3 Hv].
  apply Forall_cons in Hv as [Hv4 _]. unfold IssueGrant.
  do 2 (case_match; [keeps_auto|]). destruct (scopeText T scope); [keeps_auto|]. do 4 (case_match; [keeps_auto|]).
  eapply handler_keeps_bind; [apply keeps_newUUID|]. intros u Hu. eapply handler_keeps_bind; [apply keeps_timeNow|]. intros now Hn.
  apply keeps_then; [keeps_auto|]. intros tok. apply keeps_then; [|intros; keeps_auto]. apply keeps_noteGrant.
  unfold max_int64 in *. split; cbn.
  - repeat constructor; try done; [by apply (prefixed_valid "grt_")|by apply ascii_valid].
  - done.
  - apply Unix_range. lia.
Qed.

Lemma keeps_RevokeGrant t id by' why : keeps_ (RevokeGrant t id by' why).
Proof using Jg_revoke. unfold RevokeGrant. keeps_auto. Qed.
#[local] Hint Resolve keeps_RevokeCapToken keeps_RevokeGrant : keeps.

Lemma keeps_VerifyAndResolveCapToken t raw : keeps_ (VerifyAndResolveCapToken mk T t raw).
Proof. unfold VerifyAndResolveCapToken. keeps_auto. Qed.
Lemma keeps_VerifyAndResolveGrant t i raw : keeps_ (VerifyAndResolveGrant mk T t i raw).
Proof. unfold VerifyAndResolveGrant. keeps_auto. Qed.
Lemma keeps_QueryAuditLog t s l : keeps_ (QueryAuditLog t s l).
Proof. unfold QueryAuditLog. keeps_auto. Qed.
#[local] Hint Resolve keeps_VerifyAndResolveCapToken keeps_VerifyAndResolveGrant keeps_QueryAuditLog : keeps.

(** *** The handlers *)

Lemma keeps_reply code c : keeps_ (reply code c).
Proof. unfold reply. keeps_auto. Qed.
Lemma keeps_errJSON code msg : keeps_ (errJSON code msg).
Proof. unfold errJSON. apply keeps_reply. Qed.
Lemma keeps_notAllowed : keeps_ notAllowed.
Proof. apply keeps_errJSON. Qed.
Lemma keeps_replyFields r m : keeps_ (replyFields r m).
Proof. unfold replyFields. do 2 (case_match; [apply keeps_reply|]). apply keeps_errJSON. Qed.
#[local] Hint Resolve keeps_reply keeps_errJSON keeps_notAllowed keeps_replyFields : keeps.

Definition tokenReqOk (r : tokenReq) : Prop := Json.valid (trAgent r) /\ Json.valid (trTask r) /\ sliceValid (trScope r).
Definition grantReqOk (r : grantReq) : Prop :=
  Json.valid (grAgent r) /\ sliceValid (grScope r) /\ Json.valid (grPerm r) /\ Json.valid (grLabel r).

Lemma nilSlice_valid : sliceValid nilSlice.
Proof. split; constructor. Qed.

Lemma tokenBody_ok r req : decodeBody tokenFields zeroToken r = Some req -> tokenReqOk req.
Proof.
  unfold decodeBody. destruct (decodeStruct _ _ _ _) as [[a rest]|] eqn:E; [|done]. intros [= <-].
  eapply (decodeStruct_keeps tokenReqOk); [| |exact E].
  - repeat (apply Forall_cons; split); [apply stringField_keeps|apply stringField_keeps|apply sliceField_keeps|apply intField_keeps|constructor];
      intros [a1 a2 a3 a4]; unfold tokenReqOk; cbn; naive_solver.
  - split; [apply Json.valid_nil|]. split; [apply Json.valid_nil|apply nilSlice_valid].
Qed.

Lemma grantBody_ok r req : decodeBody grantReqFields zeroGrantReq r = Some req -> grantReqOk req.
Proof.
  unfold decodeBody. destruct (decodeStruct _ _ _ _) as [[a rest]|] eqn:E; [|done]. intros [= <-].
  eapply (decodeStruct_keeps grantReqOk); [| |exact E].
  - repeat (apply Forall_cons; split); [apply stringField_keeps|apply sliceField_keeps|apply stringField_keeps|apply intField_keeps|apply stringField_keeps|constructor];
      intros [a1 a2 a3 a4 a5]; unfold grantReqOk; cbn; naive_solver.
  - split; [apply Json.valid_nil|]. split; [apply nilSlice_valid|]. split; apply Json.valid_nil.
Qed.

Lemma duration_range s : - 2 ^ 63 <= duration s <= max_int64.
Proof. apply wrap64_range. Qed.

Lemma keeps_tokenIssue r t : Json.valid t -> keeps_ (handleVaultTokenIssue T r mk t).
Proof using Jt_insert Sc_sign.
  intros Ht. unfold handleVaultTokenIssue. destruct (decodeBody _ _ r) as [req|] eqn:E; [|auto with keeps].
  apply tokenBody_ok in E as (H1 & H2 & H3 & _). do 2 (case_match; [auto with keeps|]).
  destruct (scopeText _ _); [auto with keeps|]. apply keeps_then.
  - apply keeps_attempt_, keeps_IssueCapToken; [by repeat constructor|done|].
    pose proof (duration_range (trTTL req)). destruct (duration (trTTL req) <=? 0); [|done]. unfold second, max_int64. lia.
  - intros [[tok c]|e]; keeps_auto.
Qed.

Lemma keeps_grantIssue r t : Json.valid t -> keeps_ (handleVaultGrantIssue T issuer r mk t).
Proof using Jg_insert Sg_sign issuer_valid.
  intros Ht. unfold handleVaultGrantIssue. case_match; [auto with keeps|].
  destruct (decodeBody _ _ r) as [req|] eqn:E; [|auto with keeps].
  apply grantBody_ok in E as (H1 & [H2 _] & H3 & H4). case_match; [auto with keeps|]. apply keeps_then.
  - apply keeps_attempt_, keeps_IssueGrant; [by repeat constructor|done|apply duration_range].
  - intros [[tok g]|e]; keeps_auto.
Qed.
#[local] Hint Resolve keeps_tokenIssue keeps_grantIssue : keeps.

Lemma keeps_secretCreate r t : keeps_ (handleVaultSecretCreate r mk t).
Proof. unfold handleVaultSecretCreate. keeps_auto. Qed.
Lemma keeps_secretList t : keeps_ (handleVaultSecretList t).
Proof. unfold handleVaultSecretList. keeps_auto. Qed.
Lemma keeps_secretGet t n : keeps_ (handleVaultSecretGet t n).
Proof. unfold handleVaultSecretGet. keeps_auto. Qed.
Lemma keeps_secretReadValue r sc n : keeps_ (handleVaultSecretReadValue r mk sc n).
Proof. unfold handleVaultSecretReadValue. keeps_auto. Qed.
Lemma keeps_secretReadField sc n f : keeps_ (handleVaultSecretReadField mk sc n f).
Proof. unfold handleVaultSecretReadField. keeps_auto. Qed.
Lemma keeps_secretUpdate r t n : keeps_ (handleVaultSecretUpdate r mk t n).
Proof. unfold handleVaultSecretUpdate. keeps_auto. Qed.
Lemma keeps_secretDelete t n : keeps_ (handleVaultSecretDelete t n).
Proof. unfold handleVaultSecretDelete. keeps_auto. Qed.
Lemma keeps_tokenRevoke r t id : keeps_ (handleVaultTokenRevoke r t id).
Proof using Jt_revoke. unfold handleVaultTokenRevoke. keeps_auto. Qed.
Lemma keeps_grantRevoke r t id : keeps_ (handleVaultGrantRevoke r t id).
Proof using Jg_revoke. unfold handleVaultGrantRevoke. keeps_auto. Qed.
#[local] Hint Resolve keeps_secretCreate keeps_secretList keeps_secretGet keeps_secretReadValue keeps_secretReadField
  keeps_secretUpdate keeps_secretDelete keeps_tokenRevoke keeps_grantRevoke : keeps.

Context (vaultMK : option string).
Hypothesis mk_is : forall k, vaultMK = Some k -> k = mk.

Lemma keeps_withVaultStore scope k : (forall sc, scope = Some sc -> keeps_ (k mk sc)) -> keeps_ (withVaultStore vaultMK scope k).
Proof using mk_is.
  intros H. unfold withVaultStore. destruct scope as [sc|]; [|auto with keeps]. do 2 (case_match; [auto with keeps|]).
  destruct vaultMK as [k0|]; [|auto with keeps]. rewrite (mk_is k0 eq_refl). by apply H.
Qed.

Lemma keeps_handleVault r scope : (forall sc, scope = Some sc -> Json.valid (ScopeTenantID sc)) ->
  keeps_ (handleVault T vaultMK issuer r scope).
Proof using mk_is issuer_valid Jt_insert Jt_revoke Jg_insert Jg_revoke Sc_sign Sg_sign.
  intros Hsc. unfold handleVault, handleVaultSecrets, handleVaultTokens, handleVaultGrants, handleVaultAudit.
  destruct (CutPrefix _ "secrets"); [|destruct (CutPrefix _ "tokens"); [|case_match; [|case_match; [|auto with keeps]]]].
  4: case_match; [auto with keeps|].
  all: apply keeps_withVaultStore; intros sc E; specialize (Hsc sc E).
  all: repeat (case_match; auto with keeps). keeps_auto.
Qed.

Lemma keeps_availableNames t names : keeps_ (availableNames t names).
Proof. induction names as [|x names IH]; cbn [availableNames]; keeps_auto. Qed.
#[local] Hint Resolve keeps_availableNames : keeps.

Lemma keeps_verify t raw : keeps_ (verifyVaultReadToken T issuer mk t raw).
Proof. unfold verifyVaultReadToken, verifyGrantReadToken, verifyCapReadToken. case_match; keeps_auto. Qed.
Lemma keeps_enumerate p : keeps_ (handleVaultReadEnumerate p).
Proof. unfold handleVaultReadEnumerate. keeps_auto. Qed.
Lemma keeps_readSecret r p n : keeps_ (handleVaultReadSecret r mk p n).
Proof. unfold handleVaultReadSecret. destruct (AllowedFields _ _). keeps_auto. Qed.
Lemma keeps_readField p n f : keeps_ (handleVaultReadField mk p n f).
Proof. unfold handleVaultReadField. keeps_auto. Qed.
#[local] Hint Resolve keeps_verify keeps_enumerate keeps_readSecret keeps_readField : keeps.

Lemma keeps_handleVaultRead r scope sub : keeps_ (handleVaultRead T vaultMK issuer r scope sub).
Proof using mk_is.
  unfold handleVaultRead. do 2 (case_match; [auto with keeps|]). destruct scope as [sc|]; [|auto with keeps].
  do 2 (case_match; [auto with keeps|]). destruct vaultMK as [k0|]; [|auto with keeps]. rewrite (mk_is k0 eq_refl).
  apply keeps_then; [by auto using keeps_attempt_ with keeps|]. intros [p|e]; [|keeps_auto].
  case_match; [auto with keeps|]. destruct (cutByte slash _) as [[a b]|]; case_match; auto with keeps.
Qed.

Lemma keeps_capability tenants acquired r : keeps_ (capabilityAuthMiddleware T vaultMK issuer tenants acquired r).
Proof using mk_is.
  unfold capabilityAuthMiddleware. case_match; [auto with keeps|]. destruct (peekTokenTenantID T _) as [t|e]; [|auto with keeps].
  destruct (tenants !! t) as [[p []]|]; [|auto with keeps..]. case_match; [auto with keeps|]. apply keeps_handleVaultRead.
Qed.

End keeps.


(** ** Who may read *)

(** An entry of a scope covers a field. *)
Definition covers (entry n f : string) : Prop := entry = n \/ entry = n +:+ "/" +:+ f.

Lemma AllowedFields_covers scope n all fs : AllowedFields scope n = (all, fs) ->
  (all = true -> n ∈ scope) /\ (forall f, f ∈ fs -> n +:+ "/" +:+ f ∈ scope).
Proof.
  unfold AllowedFields. rewrite allowedLoop_spec. case_bool_decide; intros [= <- <-]; split; try done.
  - intros f Hf. by apply not_elem_of_nil in Hf.
  - intros f. apply AllowedFields_elem.
Qed.

(** The principals of the two kinds of token. *)
Definition grantPrincipal (c : VaultGrantClaims) : vaultReadPrincipal :=
  {| PTenantID := TenantID c; PTokenID := GrantID c; PAgentID := Agent c; PTaskID := ""; PScope := GScope c |}.
Definition capPrincipal (c : CapTokenClaims) : vaultReadPrincipal :=
  {| PTenantID := CTenantID c; PTokenID := TokenID c; PAgentID := AgentID c; PTaskID := TaskID c; PScope := CScope c |}.

(** The tables hold an unrevoked row of a grant, or of a token. *)
Definition liveGrant (d : tables) (t id : string) : Prop :=
  exists r, grants d !! id = Some r /\ g_tenant r = t /\ g_revoked_at r = None.
Definition liveToken (d : tables) (t id : string) : Prop :=
  exists r, tokens d !! id = Some r /\ t_tenant r = t /\ t_revoked_at r = None.

(** A principal that a signed, live and current token of the tenant stands for. *)
Definition authorized (w : world) (t : string) (now : Z) (p : vaultReadPrincipal) : Prop :=
  (exists c, c ∈ signedGrants w /\ p = grantPrincipal c /\ TenantID c = t /\ Perm c = GrantPermRead
     /\ Unix now <= ExpiresAt c + 60 /\ liveGrant (tbl w) t (GrantID c))
  \/ (exists c, c ∈ signedCaps w /\ p = capPrincipal c /\ CTenantID c = t
     /\ Unix now <= CExpiresAt c /\ liveToken (tbl w) t (TokenID c)).

(** The text carries a signature under the tenant's key over a message that was never
    signed with that key. *)
Definition forged (mk : string) (w : world) (t raw : string) : Prop :=
  exists msg, carriesMAC (DeriveCSK mk t) raw msg
    /\ (forall c, c ∈ signedGrants w -> DeriveCSK mk (TenantID c) = DeriveCSK mk t -> msg <> grantInput c)
    /\ (forall c, c ∈ signedCaps w -> DeriveCSK mk (CTenantID c) = DeriveCSK mk t -> msg <> capInput c).

(** The principal of a current token that the server signed for another tenant, whose
    derived key is the same, and whose identifier is that of an unrevoked token of the
    tenant. *)
Definition sharedKey (mk : string) (w : world) (t : string) (now : Z) (p : vaultReadPrincipal) : Prop :=
  exists c, c ∈ signedCaps w /\ p = capPrincipal c /\ CTenantID c <> t /\ DeriveCSK mk (CTenantID c) = DeriveCSK mk t
    /\ Unix now <= CExpiresAt c /\ liveToken (tbl w) t (TokenID c).

Definition signedOk (w : world) : Prop := Forall capOk (signedCaps w) /\ Forall grantOk (signedGrants w).

Lemma wrap64_le x : - 2 ^ 63 <= x -> wrap64 x <= x.
Proof. intros H. unfold wrap64. assert ((x + 2 ^ 63) mod 2 ^ 64 <= x + 2 ^ 63); [apply Z.mod_le; lia|lia]. Qed.

Section read.
Context (T : texts) (mk issuer : string) (w : world).
Hypothesis Hsigned : signedOk w.
Abbreviation now := (default 0 (head (clock (env w)))).

(** The result of a program that read the clock first and queried once. *)
Lemma query_ok {A} (f : tables -> A) w1 w2 text a : wrapErr text (query f) w1 = (w2, inl a) ->
  a = f (tbl w1) /\ tbl w2 = tbl w1.
Proof.
  unfold wrapErr, query, bind, nextFault, getTables. destruct (default Fine (head (faults (env w1)))); cbn; [|done..].
  by intros [= <- <-].
Qed.

Lemma grant_resolved t raw w' c : VerifyAndResolveGrant mk T t issuer raw w = (w', inl c) ->
  (VerifyGrant T (DeriveCSK mk t) raw now = inl c /\ TenantID c = t /\ liveGrant (tbl w) t (GrantID c)) /\ tbl w' = tbl w.
Proof.
  unfold VerifyAndResolveGrant, bind, ofSum. cbn [timeNow].
  destruct (VerifyGrant T (DeriveCSK mk t) raw now) as [c0|e] eqn:E; [|done].
  case_bool_decide as Ht; [|done]. cbn [negb]. destruct (_ && _); [done|].
  destruct (wrapErr _ (query _) _) as [w2 [row|e]] eqn:Eq; [|done]. apply query_ok in Eq as [-> Et].
  destruct (grants _ !! GrantID c0) as [r|] eqn:Er; [|done]. case_bool_decide as Hr; [|done]. cbn [negb].
  destruct (g_revoked_at r) eqn:Ev; [done|]. intros [= <- <-]. split; [|done]. split; [done|]. split; [done|]. by exists r.
Qed.

Lemma cap_resolved t raw w' c : VerifyAndResolveCapToken mk T t raw w = (w', inl c) ->
  (VerifyCapToken T (DeriveCSK mk t) raw now = inl c /\ liveToken (tbl w) t (TokenID c)) /\ tbl w' = tbl w.
Proof.
  unfold VerifyAndResolveCapToken, bind, ofSum. cbn [timeNow].
  destruct (VerifyCapToken T (DeriveCSK mk t) raw now) as [c0|e] eqn:E; [|done].
  destruct (wrapErr _ (query _) _) as [w2 [row|e]] eqn:Eq; [|done]. apply query_ok in Eq as [-> Et].
  destruct (tokens _ !! TokenID c0) as [r|] eqn:Er; [|done]. case_bool_decide as Hr; [|done]. cbn [negb].
  destruct (t_revoked_at r) eqn:Ev; [done|]. intros [= <- <-]. split; [|done]. split; [done|]. by exists r.
Qed.

(** A token that verifies was signed for the tenant, or was forged. *)
Lemma verified_authorized t raw w' p : 0 <= now ->
  verifyVaultReadToken T issuer mk t raw w = (w', inl p) ->
  authorized w t now p \/ forged mk w t raw \/ sharedKey mk w t now p.
Proof using Hsigned.
  intros Hnow. destruct Hsigned as [Hc Hg]. unfold verifyVaultReadToken. destruct (HasPrefix raw "vt_").
  - unfold verifyGrantReadToken, bind. destruct (VerifyAndResolveGrant mk T t issuer raw w) as [w1 [c|e]] eqn:E; [|done].
    apply grant_resolved in E as ((E & Ht & Hlive) & _). case_bool_decide as Hp; [|done]. intros [= _ <-].
    apply VerifyGrant_authentic in E as (Hval & msg & Hmac & Hone & Hcap).
    destruct (decide (Exists (fun c' => DeriveCSK mk (TenantID c') = DeriveCSK mk t /\ msg = grantInput c') (signedGrants w))) as [H|H].
    + left. left. apply Exists_exists in H as (c' & Hin & _ & Em).
      assert (c' = c) as -> by (apply Hone; [by eapply (proj1 (Forall_forall _ _) Hg)|done]).
      exists c. split; [done|]. split; [done|]. split; [done|]. split; [done|]. split; [|done].
      pose proof (grant_exp _ (proj1 (Forall_forall _ _) Hg c Hin)) as He. unfold validateClaimsForVerify in Hval.
      do 4 (case_match; [done|]). destruct (scopeText T (GScope c)); [done|]. case_match; [done|].
      destruct (Z.ltb_spec (wrap64 (ExpiresAt c + grantClockSkew)) (Unix now)) as [|Hle]; [done|].
      pose proof (wrap64_le (ExpiresAt c + grantClockSkew)). unfold grantClockSkew in *. lia.
    + right. left. exists msg. split; [done|]. split.
      * intros c' Hin Hk ->. apply H, Exists_exists. by exists c'.
      * intros c' _ _. apply Hcap.
  - unfold verifyCapReadToken, bind. destruct (VerifyAndResolveCapToken mk T t raw w) as [w1 [c|e]] eqn:E; [|done].
    apply cap_resolved in E as ((E & Hlive) & _). intros [= _ <-].
    apply VerifyCapToken_authentic in E as (Hexp & msg & Hmac & Hone & Hgrant).
    destruct (decide (Exists (fun c' => DeriveCSK mk (CTenantID c') = DeriveCSK mk t /\ msg = capInput c') (signedCaps w))) as [H|H].
    + apply Exists_exists in H as (c' & Hin & Hk & Em).
      assert (c' = c) as -> by (apply Hone; [by eapply (proj1 (Forall_forall _ _) Hc)|done]).
      destruct (decide (CTenantID c = t)) as [Ht|Ht]; [|right; right; by exists c].
      left. right. exists c. split; [done|]. split; [done|]. done.
    + right. left. exists msg. split; [done|]. split.
      * intros c' _ _. apply Hgrant.
      * intros c' Hin Hk ->. apply H, Exists_exists. by exists c'.
Qed.

End read.

(** ** Every handler keeps the secrets readable *)

Section secrets.
Context (mk : string) (T : texts) (issuer : string).
Hypothesis Hmk : String.length mk = 32%nat.

(** The tables refine some map of secrets, and rivals insert good keys. *)
Definition readable (w : world) : Prop :=
  exists v us cs n d, VSecrets.at_ mk d us cs n w /\ VSecrets.refines mk d v.

Definition holds_ {A} (m : M A) : Prop := forall w, readable w -> readable (fst (m w)).

Lemma holds_ret {A} (a : A) : holds_ (ret a).
Proof. by intros w. Qed.
Lemma holds_throw {A} e : holds_ (@throw A e).
Proof. by intros w. Qed.
Lemma holds_ofSum {A} (r : A + error) : holds_ (ofSum r).
Proof. by intros w. Qed.
Lemma holds_bind {A B} (m : M A) (k : A -> M B) : holds_ m -> (forall a, holds_ (k a)) -> holds_ (bind m k).
Proof. intros Hm Hk w Hw. unfold bind. specialize (Hm w Hw). destruct (m w) as [w' [a|e]]; [by apply Hk|done]. Qed.
Lemma holds_wrap {A} t (m : M A) : holds_ m -> holds_ (wrapErr t m).
Proof. intros Hm w Hw. unfold wrapErr. specialize (Hm w Hw). by destruct (m w) as [w' [a|e]]. Qed.
Lemma holds_attempt {A} (m : M A) : holds_ m -> holds_ (attempt m).
Proof. intros Hm w Hw. unfold attempt. specialize (Hm w Hw). by destruct (m w) as [w' r]. Qed.

(** A world with the same tables and rivals. *)
Lemma readable_same w w' : tbl w' = tbl w -> rivals (env w') = rivals (env w) -> readable w -> readable w'.
Proof.
  intros E1 E2 (v & us & cs & n & d & (H1 & _ & _ & _ & H5) & R). exists v, (uuids (env w')), (clock (env w')), (troubles w'), d.
  split; [|done]. split; [congruence|]. do 3 (split; [done|]). by rewrite E2.
Qed.

Lemma holds_timeNow : holds_ timeNow.
Proof. intros w. by apply readable_same. Qed.
Lemma holds_newUUID : holds_ newUUID.
Proof. intros w. by apply readable_same. Qed.
Lemma holds_randBytes n : holds_ (randBytes n).
Proof. intros w. by apply readable_same. Qed.
Lemma holds_nextFault : holds_ nextFault.
Proof. intros w. by apply readable_same. Qed.
Lemma holds_noteCap c : holds_ (noteCap c).
Proof. intros w. by apply readable_same. Qed.
Lemma holds_noteGrant c : holds_ (noteGrant c).
Proof. intros w. by apply readable_same. Qed.
Lemma holds_query {A} (f : tables -> A) : holds_ (query f).
Proof.
  apply holds_bind; [apply holds_nextFault|]. intros [|t|t]; [|apply holds_throw..].
  apply holds_bind; [by intros w|]. intros d. apply holds_ret.
Qed.

(** A statement on the tables that hold no secrets. *)
Definition apart {A} (f : tables -> (tables * A) + error) : Prop :=
  forall d, match f d with inl (d', _) => deks d' = deks d /\ secrets d' = secrets d /\ fields d' = fields d | inr _ => True end.

Lemma holds_exec {A} (f : tables -> (tables * A) + error) : apart f -> holds_ (exec f).
Proof.
  intros Hf w Hw. assert (forall w0 d' a, readable w0 -> f (tbl w0) = inl (d', a) -> readable (set_tbl d' w0)) as K.
  { intros w0 d' a (v & us & cs & n & d & (H1 & H2 & H3 & H4 & H5) & R) E. specialize (Hf (tbl w0)). rewrite E in Hf.
    destruct Hf as (E1 & E2 & E3). exists v, us, cs, n, d'. split; [by split|]. subst d.
    eapply VSecrets.refines_frame; [exact R|done|done| |].
    - intros t dek (k & K1 & K2). exists k. by rewrite E1.
    - intros t k. rewrite E1. apply (VSecrets.rf_deks _ _ _ R). }
  assert (readable (fst (nextFault w))) as Hw1 by (by apply holds_nextFault).
  unfold exec, bind. unfold nextFault in *. cbn [fst] in Hw1. unfold getTables, putTables.
  destruct (default Fine (head (faults (env w)))) eqn:Ef; [| exact Hw1 |];
    (destruct (f (tbl _)) as [[d' a]|e] eqn:E; [|exact Hw1]; eapply (K _ d' a) in Hw1; [exact Hw1|exact E]).
Qed.

Lemma holds_call {A} (m : M A) (o : VSecrets.op) k : VSecrets.call mk o = bind m (fun a => ret (k a)) -> holds_ m.
Proof using Hmk.
  intros E w (v & us & cs & n & d & Hw & R). pose proof (VSecrets.call_step mk Hmk d v us cs n w Hw R o) as H.
  unfold VSecrets.wp in H. rewrite E in H. unfold bind, ret in H.
  destruct (m w) as [w' [a|e]]; destruct H as (v' & d' & us' & cs' & n' & Hw' & R' & _); by exists v', us', cs', n', d'.
Qed.

Lemma holds_CreateSecret t n by' ty fs : holds_ (CreateSecret mk t n by' ty fs).
Proof using Hmk. by eapply (holds_call _ (VSecrets.OCreate t n by' ty fs)). Qed.
Lemma holds_UpdateSecret t n fs : holds_ (UpdateSecret mk t n fs).
Proof using Hmk. by eapply (holds_call _ (VSecrets.OUpdate t n fs)). Qed.
Lemma holds_DeleteSecret t n : holds_ (DeleteSecret t n).
Proof using Hmk. by eapply (holds_call _ (VSecrets.ODelete t n) (fun _ => VSecrets.RDone)). Qed.
Lemma holds_ReadSecretFields t n : holds_ (ReadSecretFields mk t n).
Proof using Hmk. by eapply (holds_call _ (VSecrets.OReadAll t n)). Qed.
Lemma holds_ReadSecretField t n f : holds_ (ReadSecretField mk t n f).
Proof using Hmk. by eapply (holds_call _ (VSecrets.ORead t n f)). Qed.
Lemma holds_GetSecret t n : holds_ (GetSecret t n).
Proof using Hmk. by eapply (holds_call _ (VSecrets.OGet t n)). Qed.

Lemma apart_insertToken id r : apart (insertToken id r).
Proof. intros d. unfold insertToken. by destruct (tokens d !! id). Qed.
Lemma apart_insertGrant id r : apart (insertGrant id r).
Proof. intros d. unfold insertGrant. by destruct (grants d !! id). Qed.
Lemma apart_updateToken t id f : apart (updateToken t id f).
Proof. intros d. unfold updateToken. destruct (tokens d !! id); [|done]. by destruct (_ && _). Qed.
Lemma apart_updateGrant t id f : apart (updateGrant t id f).
Proof. intros d. unfold updateGrant. destruct (grants d !! id); [|done]. by destruct (_ && _). Qed.
Lemma apart_insertAudit r : apart (insertAudit r).
Proof. intros d. unfold insertAudit. by destruct (existsb _ _). Qed.

#[local] Hint Resolve holds_ret holds_throw holds_ofSum holds_timeNow holds_newUUID holds_randBytes holds_noteCap
  holds_noteGrant holds_query holds_exec apart_insertToken apart_insertGrant apart_updateToken apart_updateGrant
  apart_insertAudit holds_CreateSecret holds_UpdateSecret holds_DeleteSecret holds_ReadSecretFields
  holds_ReadSecretField holds_GetSecret : holds.

Ltac holds_step :=
  first [ solve [auto with holds]
        | apply holds_wrap | apply holds_attempt | apply holds_bind
        | progress intros
        | match goal with
          | |- holds_ (if ?b then _ else _) => destruct b
          | |- holds_ (match ?x with _ => _ end) => destruct x
          end ].
Ltac holds_auto := repeat holds_step.

Lemma holds_audited e : holds_ (audited e).
Proof. unfold audited, WriteAuditEvent. holds_auto. Qed.
Lemma holds_reply code c : holds_ (reply code c).
Proof. unfold reply. holds_auto. Qed.
Lemma holds_errJSON code msg : holds_ (errJSON code msg).
Proof. apply holds_reply. Qed.
Lemma holds_replyFields r m : holds_ (replyFields r m).
Proof. unfold replyFields. do 2 (case_match; [apply holds_reply|]). apply holds_errJSON. Qed.
#[local] Hint Resolve holds_audited holds_reply holds_errJSON holds_replyFields : holds.
Lemma holds_IssueCapToken t a k s l : holds_ (IssueCapToken mk t a k s l).
Proof. unfold IssueCapToken, GenerateNonce. holds_auto. Qed.
Lemma holds_RevokeCapToken t id by' why : holds_ (RevokeCapToken t id by' why).
Proof. unfold RevokeCapToken. holds_auto. Qed.
Lemma holds_IssueGrant t i p a s m l h : holds_ (IssueGrant mk T t i p a s m l h).
Proof. unfold IssueGrant. holds_auto. Qed.
Lemma holds_RevokeGrant t id by' why : holds_ (RevokeGrant t id by' why).
Proof. unfold RevokeGrant. holds_auto. Qed.
Lemma holds_VerifyCap t raw : holds_ (VerifyAndResolveCapToken mk T t raw).
Proof. unfold VerifyAndResolveCapToken. holds_auto. Qed.
Lemma holds_VerifyGrant t i raw : holds_ (VerifyAndResolveGrant mk T t i raw).
Proof. unfold VerifyAndResolveGrant. holds_auto. Qed.
Lemma holds_availableNames t names : holds_ (availableNames t names).
Proof using Hmk. induction names as [|x names IH]; cbn [availableNames]; holds_auto. Qed.
#[local] Hint Resolve holds_IssueCapToken holds_RevokeCapToken holds_IssueGrant holds_RevokeGrant holds_VerifyCap
  holds_VerifyGrant holds_availableNames : holds.

Context (vaultMK : option string).
Hypothesis mk_is : forall k, vaultMK = Some k -> k = mk.

Lemma holds_withVaultStore scope k : (forall sc, scope = Some sc -> holds_ (k mk sc)) -> holds_ (withVaultStore vaultMK scope k).
Proof using mk_is.
  intros H. unfold withVaultStore. destruct scope as [sc|]; [|auto with holds]. do 2 (case_match; [auto with holds|]).
  destruct vaultMK as [k0|]; [|auto with holds]. rewrite (mk_is k0 eq_refl). by apply H.
Qed.

Lemma holds_handleVault r scope : holds_ (handleVault T vaultMK issuer r scope).
Proof using mk_is Hmk.
  unfold handleVault, handleVaultSecrets, handleVaultTokens, handleVaultGrants, handleVaultAudit, QueryAuditLog, notAllowed.
  destruct (CutPrefix _ "secrets"); [|destruct (CutPrefix _ "tokens"); [|case_match; [|case_match; [|auto with holds]]]].
  4: case_match; [auto with holds|].
  all: apply holds_withVaultStore; intros sc E.
  all: unfold handleVaultSecretCreate, handleVaultSecretList, ListSecrets, handleVaultSecretGet, handleVaultSecretReadValue,
    handleVaultSecretReadField, handleVaultSecretUpdate, handleVaultSecretDelete, handleVaultTokenIssue, handleVaultTokenRevoke,
    handleVaultGrantIssue, handleVaultGrantRevoke; holds_auto.
Qed.

Lemma holds_verify t raw : holds_ (verifyVaultReadToken T issuer mk t raw).
Proof. unfold verifyVaultReadToken, verifyGrantReadToken, verifyCapReadToken. holds_auto. Qed.
#[local] Hint Resolve holds_verify : holds.

Lemma holds_capability tenants acquired r : holds_ (capabilityAuthMiddleware T vaultMK issuer tenants acquired r).
Proof using mk_is Hmk.
  unfold capabilityAuthMiddleware, handleVaultRead, notAllowed. destruct vaultMK as [k0|]; [rewrite (mk_is k0 eq_refl)|].
  all: unfold handleVaultReadEnumerate, handleVaultReadSecret, handleVaultReadField; holds_auto.
Qed.

End secrets.

(** ** What a read reveals *)

(** The path of a read, split into the secret's name and the field's, if there is one. *)
Definition readPath (r : request) : string * string :=
  let sub := TrimPrefix (TrimPrefix (Path r) "/v1/vault/read") "/" in
  match cutByte slash sub with Some parts => parts | None => (sub, "") end.

(** The response shows the value of a field of the secret the path names. *)
Definition reveals (r : request) (c : content) (n f v : string) : Prop :=
  n = fst (readPath r) /\
  match c with
  | PlainText x => f = snd (readPath r) /\ x = v
  | FieldValues m | EnvLines m => m !! f = Some v
  | _ => False
  end.

Section reveal.
Context (T : texts) (mk issuer : string) (w : world).
Hypothesis Hmk : String.length mk = 32%nat.

Lemma verify_tables t raw w' p : verifyVaultReadToken T issuer mk t raw w = (w', inl p) -> tbl w' = tbl w.
Proof.
  unfold verifyVaultReadToken. destruct (HasPrefix raw "vt_").
  - unfold verifyGrantReadToken, bind. destruct (VerifyAndResolveGrant mk T t issuer raw w) as [w1 [c|e]] eqn:E; [|done].
    apply grant_resolved in E as [_ E]. case_bool_decide; [|done]. by intros [= <- _].
  - unfold verifyCapReadToken, bind. destruct (VerifyAndResolveCapToken mk T t raw w) as [w1 [c|e]] eqn:E; [|done].
    apply cap_resolved in E as [_ E]. by intros [= <- _].
Qed.

(** The field of a secret in the map the tables stand for. *)
Definition valueIn (d : tables) (t n f v : string) : Prop :=
  exists sp s, VSecrets.refines mk d sp /\ sp !! (t, n) = Some s /\ VSecrets.sfields s !! f = Some v.

Lemma read_value w1 t n f w2 v : readable mk w1 -> ReadSecretField mk t n f w1 = (w2, inl v) -> valueIn (tbl w1) t n f v.
Proof using Hmk.
  intros (sp & us & cs & k & d & Hw & R) E. pose proof (VSecrets.call_step mk Hmk d sp us cs k w1 Hw R (VSecrets.ORead t n f)) as H.
  unfold VSecrets.wp in H. cbn [VSecrets.call] in H. unfold bind at 1 in H. rewrite E in H. cbn in H.
  destruct H as (v' & d' & us' & cs' & n' & _ & _ & [[_ H]|(_ & [e ?] & _)]); [|done]. injection H as _ H.
  destruct (sp !! (t, n)) as [s|] eqn:Es; [|done]. destruct (VSecrets.sfields s !! f) as [x|] eqn:Ef; [|done].
  injection H as ->. exists sp, s. rewrite (proj1 Hw). done.
Qed.

Lemma read_values w1 t n w2 m : readable mk w1 -> ReadSecretFields mk t n w1 = (w2, inl m) ->
  forall f v, m !! f = Some v -> valueIn (tbl w1) t n f v.
Proof using Hmk.
  intros (sp & us & cs & k & d & Hw & R) E f v Hf. pose proof (VSecrets.call_step mk Hmk d sp us cs k w1 Hw R (VSecrets.OReadAll t n)) as H.
  unfold VSecrets.wp in H. cbn [VSecrets.call] in H. unfold bind at 1 in H. rewrite E in H. cbn in H.
  destruct H as (v' & d' & us' & cs' & n' & _ & _ & [[_ H]|(_ & [e ?] & _)]); [|done]. injection H as _ H.
  destruct (sp !! (t, n)) as [s|] eqn:Es; [|done]. injection H as <-. exists sp, s. rewrite (proj1 Hw). done.
Qed.

(** Inversion of a program that answers. *)
Lemma bind_inl {A B} (m : M A) (k : A -> M B) w0 w2 b : bind m k w0 = (w2, inl b) ->
  exists w1 a, m w0 = (w1, inl a) /\ k a w1 = (w2, inl b).
Proof. unfold bind. destruct (m w0) as [w1 [a|e]]; [|done]. intros H. by exists w1, a. Qed.
Lemma attempt_inl {A} (m : M A) w0 w1 r : attempt m w0 = (w1, inl r) -> m w0 = (w1, r).
Proof. unfold attempt. destruct (m w0). by intros [= <- <-]. Qed.

Ltac no_reveal := let H := fresh in intros H; injection H as _ <-; intros [_ ?]; done.

Lemma reveals_field p r w1 w2 resp n f v : readable mk w1 -> (snd (readPath r) <> "") ->
  handleVaultReadField mk p (fst (readPath r)) (snd (readPath r)) w1 = (w2, inl resp) -> reveals r (answer resp) n f v ->
  (exists entry, entry ∈ PScope p /\ covers entry n f) /\ valueIn (tbl w1) (PTenantID p) n f v.
Proof using Hmk.
  intros Hr Hne. unfold handleVaultReadField. destruct (CheckScope _ _ _) eqn:Ec; cbn [negb].
  2: { intros H. apply bind_inl in H as (w3 & u & _ & H). revert H. no_reveal. }
  intros H. apply bind_inl in H as (w3 & x & H1 & H). apply attempt_inl in H1. destruct x as [x|[]]; try (revert H; no_reveal).
  apply bind_inl in H as (w4 & u & _ & H). injection H as _ <-. intros (-> & -> & ->). split; [|by eapply read_value].
  apply CheckScope_spec in Ec as (entry & Hin & [->|[_ ->]]); eexists; (split; [exact Hin|]); [by left|by right].
Qed.

Lemma reveals_secret p r w1 w2 resp n f v : readable mk w1 ->
  handleVaultReadSecret r mk p (fst (readPath r)) w1 = (w2, inl resp) -> reveals r (answer resp) n f v ->
  (exists entry, entry ∈ PScope p /\ covers entry n f) /\ valueIn (tbl w1) (PTenantID p) n f v.
Proof using Hmk.
  intros Hr. unfold handleVaultReadSecret. destruct (AllowedFields _ _) as [all fs] eqn:Ea.
  apply AllowedFields_covers in Ea as [Ha1 Ha2]. destruct (negb all && _).
  { intros H. apply bind_inl in H as (w3 & u & _ & H). revert H. no_reveal. }
  intros H. apply bind_inl in H as (w3 & x & H1 & H). apply attempt_inl in H1. destruct x as [m|[]]; try (revert H; no_reveal).
  apply bind_inl in H as (w4 & u & _ & H). set (m' := if all then m else _) in H.
  assert (reveals r (answer resp) n f v -> n = fst (readPath r) /\ m' !! f = Some v) as K.
  { intros [-> Hv]. split; [done|]. revert H Hv. unfold replyFields.
    do 2 (case_match; [intros [= _ <-]; done|]). intros [= _ <-]. done. }
  intros Hv. destruct (K Hv) as [-> Hf]. assert (m !! f = Some v) as Hm.
  { unfold m' in Hf. destruct all; [done|]. by apply map_lookup_filter_Some in Hf as [? _]. }
  split; [|by eapply read_values]. destruct all.
  - eexists. split; [by apply Ha1|by left].
  - apply map_lookup_filter_Some in Hf as [_ Hin]. eexists. split; [by apply Ha2|by right].
Qed.

(** A revealing answer comes from a verified principal whose scope covers the field. *)
Lemma reveals_verified tenants acquired r w' resp n f v : readable mk w ->
  capabilityAuthMiddleware T (Some mk) issuer tenants acquired r w = (w', inl resp) -> reveals r (answer resp) n f v ->
  exists t p w1, peekTokenTenantID T (bearerToken r) = inl t
    /\ verifyVaultReadToken T issuer mk t (bearerToken r) w = (w1, inl p)
    /\ (exists entry, entry ∈ PScope p /\ covers entry n f) /\ valueIn (tbl w) (PTenantID p) n f v.
Proof using Hmk.
  intros Hr. unfold capabilityAuthMiddleware. case_match; [no_reveal|].
  destruct (peekTokenTenantID T (bearerToken r)) as [t|e] eqn:Ep; [|no_reveal].
  destruct (tenants !! t) as [[prov []]|]; [|no_reveal..]. case_match; [no_reveal|]. unfold handleVaultRead.
  do 2 (case_match; [no_reveal|]). cbn [hasBackend negb]. case_match; [no_reveal|]. cbn [ScopeTenantID].
  intros X. apply bind_inl in X as (w1 & x & Hv & X). apply attempt_inl in Hv. destruct x as [p|e].
  2: { revert X. do 2 (case_match; [no_reveal|]). no_reveal. }
  intros Hrev. exists t, p, w1. split; [done|]. split; [done|]. rewrite <- (verify_tables _ _ _ _ Hv).
  assert (readable mk w1) as Hr1.
  { pose proof (holds_verify mk T issuer t (bearerToken r) w Hr) as K. by rewrite Hv in K. }
  case_bool_decide as Hs.
  { unfold handleVaultReadEnumerate in X. apply bind_inl in X as (w2 & l & _ & X). apply bind_inl in X as (w3 & u & _ & X).
    injection X as _ <-. by destruct Hrev as [_ ?]. }
  destruct (readPath r) as [a b] eqn:Er. pose proof Er as Er'. unfold readPath in Er'. rewrite Er' in X.
  case_bool_decide as Hb; cbn [negb] in X.
  - change a with (fst (a, b)) in X. rewrite <- Er in X. by eapply reveals_secret.
  - change (handleVaultReadField mk p (fst (a, b)) (snd (a, b)) w1 = (w', inl resp)) in X. rewrite <- Er in X.
    eapply reveals_field; [done| |exact X|done]. by rewrite Er.
Qed.

End reveal.
End VSafety.
