(* ===== verification/VaultRun.v ===== *)
(** * Histories of the vault's API

    Requests served one after another by a server with its tenants' databases: the
    properties of [VaultSafety] for whole histories, the revocation and expiry of tokens,
    and runs that show them.  A tenant's database is found by its name, so tenants may
    have databases of their own or share one. *)

From Stdlib Require Import Strings.Ascii.
From S2P Require Import Prelude GoStrings Json Sha256 AesGcm JsonStruct VaultScope VaultToken VaultStore VaultServer VaultSecrets VaultSafety.

Import GoStr JStruct Scope VToken VStore VServer VSafety.

Module VRun.

#[local] Arguments String.append !_ _ / : simpl nomatch.

(** The databases, and the claims the server has signed. *)
Record server := {
  dbs : gmap string tables;
  caps : list CapTokenClaims;
  grantClaims : list VaultGrantClaims
}.
Definition newServer : server := {| dbs := ∅; caps := []; grantClaims := [] |}.

(** A request with what surrounds it: the scope that management authentication found
    (none on the reading routes), what the environment supplies, and whether the pool
    yields the tenant's backend. *)
Record exchange := {
  req : request;
  scopeOf : option tenantScope;
  supply : environment;
  poolUp : bool
}.

Section run.
Context (T : texts) (mk issuer : string) (tenants : gmap string (string * bool)) (backendOf : string -> string).

Definition dbOf (s : server) (b : string) : tables := default emptyTables (dbs s !! b).
Definition worldFor (s : server) (b : string) (e : environment) : world :=
  {| tbl := dbOf s b; env := e; signedCaps := caps s; signedGrants := grantClaims s; troubles := 0 |}.

Definition backendFor (x : exchange) : string :=
  match scopeOf x with
  | Some sc => backendOf (ScopeTenantID sc)
  | None => match peekTokenTenantID T (bearerToken (req x)) with inl t => backendOf t | inr _ => "" end
  end.

Definition handler (x : exchange) : M response :=
  match scopeOf x with
  | Some sc => handleVault T (Some mk) issuer (req x) (Some sc)
  | None => capabilityAuthMiddleware T (Some mk) issuer tenants (poolUp x) (req x)
  end.

Definition serve (x : exchange) (s : server) : server * (response + error) :=
  let b := backendFor x in
  let '(w, r) := handler x (worldFor s b (supply x)) in
  ({| dbs := <[b := tbl w]> (dbs s); caps := signedCaps w; grantClaims := signedGrants w |}, r).

Definition run (xs : list exchange) (s : server) : server := foldl (fun s x => fst (serve x s)) s xs.

(** What is assumed of an exchange: UTF-8 identifiers and tenant names, a clock within
    range, and rivals that insert keys the master key opens. *)
Definition legit (x : exchange) : Prop :=
  saneEnv (supply x) /\ Forall (fun r => forall k, r = Some k -> VSecrets.goodDEK mk k) (rivals (supply x))
  /\ (forall sc, scopeOf x = Some sc -> Json.valid (ScopeTenantID sc)).

Hypothesis Hmk : String.length mk = 32%nat.
Hypothesis Hissuer : Json.valid issuer.

(** ** The invariant *)

Record serverOk (s : server) : Prop := {
  so_caps : Forall capOk (caps s);
  so_grants : Forall grantOk (grantClaims s);
  so_secrets : forall b, exists v, VSecrets.refines mk (dbOf s b) v
}.

Lemma newServer_ok : serverOk newServer.
Proof. split; [constructor|constructor|]. intros b. exists ∅. apply VSecrets.secrets_refine_empty. Qed.

Lemma world_readable s b e : serverOk s -> Forall (fun r => forall k, r = Some k -> VSecrets.goodDEK mk k) (rivals e) ->
  readable mk (worldFor s b e).
Proof.
  intros Hs Hr. destruct (so_secrets _ Hs b) as [v R]. exists v, (uuids e), (clock e), 0%nat, (dbOf s b). done.
Qed.

Lemma mk_is k : Some mk = Some k -> k = mk.
Proof. by intros [= <-]. Qed.

(** Every handler keeps an invariant of tokens, grants and signed claims. *)
Lemma handler_keeps Jt Jg Sc Sg x :
  (forall m id r, Jt m -> m !! id = None -> Jt (<[id := r]> m)) ->
  (forall m id r, Jg m -> m !! id = None -> Jg (<[id := r]> m)) ->
  (forall m id r now by' why, Jt m -> m !! id = Some r -> t_revoked_at r = None -> Jt (<[id := revokeTokenRow now by' why r]> m)) ->
  (forall m id r now by' why, Jg m -> m !! id = Some r -> g_revoked_at r = None -> Jg (<[id := revokeGrantRow now by' why r]> m)) ->
  (forall l c, Sc l -> capOk c -> Sc (l ++ [c])) -> (forall l c, Sg l -> grantOk c -> Sg (l ++ [c])) ->
  legit x -> keeps Jt Jg Sc Sg (fun _ => True) (handler x).
Proof using Hissuer.
  intros H1 H2 H3 H4 H5 H6 (_ & _ & Hsc). unfold handler. destruct (scopeOf x) as [sc|].
  - apply keeps_handleVault with mk; try done; apply mk_is.
  - apply keeps_capability with mk. apply mk_is.
Qed.

Lemma handler_holds x : holds_ mk (handler x).
Proof using Hmk.
  unfold handler. destruct (scopeOf x) as [sc|]; [apply holds_handleVault|apply holds_capability]; try done; apply mk_is.
Qed.

Lemma dbOf_insert s b d c g b' :
  dbOf {| dbs := <[b := d]> (dbs s); caps := c; grantClaims := g |} b' = if decide (b' = b) then d else dbOf s b'.
Proof.
  unfold dbOf. cbn. destruct (decide (b' = b)) as [->|]; [by rewrite lookup_insert_eq|by rewrite lookup_insert_ne].
Qed.

Lemma serve_ok s x : serverOk s -> legit x -> serverOk (fst (serve x s)).
Proof using Hmk Hissuer.
  intros Hs Hx. unfold serve.
  assert (keeps (fun _ => True) (fun _ => True) (Forall capOk) (Forall grantOk) (fun _ => True) (handler x)) as K.
  { apply handler_keeps; try done; intros l c Hl Hc; apply Forall_app; (split; [done|]; constructor; [done|constructor]). }
  specialize (K (worldFor s (backendFor x) (supply x))).
  pose proof (handler_holds x _ (world_readable s (backendFor x) (supply x) Hs (proj1 (proj2 Hx)))) as R.
  destruct (handler x (worldFor s (backendFor x) (supply x))) as [w r]. cbn [fst] in *.
  assert (inv (fun _ => True) (fun _ => True) (Forall capOk) (Forall grantOk) w) as (_ & K2 & K3 & _).
  { destruct r; apply K; (split; [done|]; split; [apply Hs|]; split; [apply Hs|]; apply Hx). }
  split; [done|done|]. intros b. rewrite dbOf_insert. destruct (decide (b = backendFor x)); [|apply Hs].
  destruct R as (v & us & cs & n & d & Hw & R). exists v. by rewrite (proj1 Hw).
Qed.

Lemma served_ok xs s : serverOk s -> Forall legit xs -> serverOk (run xs s).
Proof using Hmk Hissuer.
  intros Hs H. revert s Hs. induction H as [|x xs Hx H IH]; intros s Hs; [done|]. apply IH. by apply serve_ok.
Qed.

(** C11: whatever was served before, a read with a token that reveals the value of a
    field answers what the tenant's map of secrets holds there, for a principal whose
    scope names the secret or the field; and that principal is the one of a token the
    server itself signed for the tenant the request was routed to, not expired (a grant
    has a minute of leeway and read permission) and with a row that is not revoked - or
    else the token carries a signature that was never made with the tenant's key, or it
    is a current token that the server signed for another tenant, whose derived key is
    the same as the tenant's and whose identifier names an unrevoked token of the tenant.
    (Identifiers and tenant names are UTF-8, the clock is in the range of its type, and
    the keys that other servers insert open under the master key.) *)
Theorem read_is_authorized xs x s' resp n f v :
  Forall legit xs -> legit x -> scopeOf x = None ->
  serve x (run xs newServer) = (s', inl resp) -> reveals (req x) (answer resp) n f v ->
  exists t p, peekTokenTenantID T (bearerToken (req x)) = inl t
    /\ let w := worldFor (run xs newServer) (backendOf t) (supply x) in
       (exists entry, entry ∈ PScope p /\ covers entry n f)
       /\ valueIn mk (tbl w) (PTenantID p) n f v
       /\ (authorized w t (default 0 (head (clock (supply x)))) p
           \/ forged mk w t (bearerToken (req x))
           \/ sharedKey mk w t (default 0 (head (clock (supply x)))) p).
Proof using Hmk Hissuer.
  intros Hxs Hx Hsc Hserve Hrev. pose proof (served_ok xs newServer newServer_ok Hxs) as Hs. set (s := run xs newServer) in *.
  unfold serve in Hserve. destruct (handler x (worldFor s (backendFor x) (supply x))) as [w1 r] eqn:E.
  injection Hserve as _ ->. unfold handler in E. rewrite Hsc in E.
  eapply reveals_verified in E as (t & p & w2 & Ht & Hv & Hc & Hval); [|done|by apply world_readable; [|apply Hx]|exact Hrev].
  exists t, p. split; [done|]. assert (backendFor x = backendOf t) as Eb by (unfold backendFor; by rewrite Hsc, Ht).
  rewrite Eb in *. split; [done|]. split; [done|]. eapply verified_authorized; [by split; apply Hs| |exact Hv].
  cbn. apply (head_Forall (fun t => 0 <= t)); [|done]. eapply Forall_impl; [apply Hx|]. cbn. lia.
Qed.


(** ** Revocation *)

(** The tables say that a grant, or a token, is revoked. *)
Definition revokedIn (d : tables) (grant : bool) (id : string) : Prop :=
  if grant then exists r, grants d !! id = Some r /\ g_revoked_at r <> None
  else exists r, tokens d !! id = Some r /\ t_revoked_at r <> None.

Definition revokedTokens (grant : bool) (id : string) (m : gmap string tokenRow) : Prop :=
  grant = false -> exists r, m !! id = Some r /\ t_revoked_at r <> None.
Definition revokedGrants (grant : bool) (id : string) (m : gmap string grantRow) : Prop :=
  grant = true -> exists r, m !! id = Some r /\ g_revoked_at r <> None.

Lemma revokedIn_J d grant id : revokedIn d grant id <-> J (revokedTokens grant id) (revokedGrants grant id) d.
Proof.
  unfold J, revokedTokens, revokedGrants, revokedIn. destruct grant; split; [by intros|intros [_ H]; by apply H|by intros|intros [H _]; by apply H].
Qed.

Lemma revoked_kept grant id x : legit x ->
  keeps (revokedTokens grant id) (revokedGrants grant id) (fun _ => True) (fun _ => True) (fun _ => True) (handler x).
Proof using Hissuer.
  intros Hx. apply handler_keeps; try done.
  - intros m i r H Hi E. destruct (H E) as (r' & Hr & Hv). exists r'. split; [|done]. rewrite lookup_insert_ne; [done|congruence].
  - intros m i r H Hi E. destruct (H E) as (r' & Hr & Hv). exists r'. split; [|done]. rewrite lookup_insert_ne; [done|congruence].
  - intros m i r now by' why H Hi Hn E. destruct (H E) as (r' & Hr & Hv). exists r'. split; [|done]. rewrite lookup_insert_ne; [done|congruence].
  - intros m i r now by' why H Hi Hn E. destruct (H E) as (r' & Hr & Hv). exists r'. split; [|done]. rewrite lookup_insert_ne; [done|congruence].
Qed.

Lemma serve_keeps_revoked s x b grant id : legit x -> revokedIn (dbOf s b) grant id -> revokedIn (dbOf (fst (serve x s)) b) grant id.
Proof using Hissuer.
  intros Hx H. unfold serve. pose proof (revoked_kept grant id x Hx (worldFor s (backendFor x) (supply x))) as K.
  destruct (handler x (worldFor s (backendFor x) (supply x))) as [w r]. cbn [fst]. rewrite dbOf_insert.
  destruct (decide (b = backendFor x)) as [->|]; [|done].
  assert (inv (revokedTokens grant id) (revokedGrants grant id) (fun _ => True) (fun _ => True) w) as (HJ & _).
  { destruct r; apply K; (split; [by apply revokedIn_J|]; split; [done|]; split; [done|]; apply Hx). }
  by apply revokedIn_J.
Qed.

Lemma run_keeps_revoked xs s b grant id : Forall legit xs -> revokedIn (dbOf s b) grant id -> revokedIn (dbOf (run xs s) b) grant id.
Proof using Hissuer.
  intros H. revert s. induction H as [|x xs Hx H IH]; intros s Hs; [done|]. apply IH. by apply serve_keeps_revoked.
Qed.

(** A statement that succeeded. *)
Lemma exec_inl {A} (f : tables -> (tables * A) + error) w w' a : exec f w = (w', inl a) -> f (tbl w) = inl (tbl w', a).
Proof.
  unfold exec, bind, nextFault, getTables, putTables. destruct (default Fine (head (faults (env w)))); [|done|].
  - destruct (f _) as [[d b]|e] eqn:E; [|done]. by intros [= <- <-].
  - destruct (f _) as [[d b]|e] eqn:E; done.
Qed.

Lemma wrapped_inl {A} text (m : M A) w w' a : wrapErr text m w = (w', inl a) -> m w = (w', inl a).
Proof. unfold wrapErr. destruct (m w) as [w1 [b|e]]; done. Qed.

Lemma RevokeGrant_revokes t id by' why w w' u : RevokeGrant t id by' why w = (w', inl u) -> revokedIn (tbl w') true id.
Proof.
  unfold RevokeGrant. intros H. apply bind_inl in H as (w1 & now & H1 & H). apply bind_inl in H as (w2 & k & H2 & H).
  apply wrapped_inl, exec_inl in H2. destruct (Z.eqb_spec k 0); [done|]. injection H as <- _.
  unfold updateGrant in H2. destruct (grants (tbl w1) !! id) as [r|]; [|by injection H2 as _ <-].
  destruct (_ && _); [|by injection H2 as _ <-]. injection H2 as <- _. eexists. cbn. by rewrite lookup_insert_eq.
Qed.

Lemma RevokeCapToken_revokes t id by' why w w' u : RevokeCapToken t id by' why w = (w', inl u) -> revokedIn (tbl w') false id.
Proof.
  unfold RevokeCapToken. intros H. apply bind_inl in H as (w1 & now & H1 & H). apply bind_inl in H as (w2 & k & H2 & H).
  apply exec_inl in H2. destruct (Z.eqb_spec k 0); [done|]. injection H as <- _.
  unfold updateToken in H2. destruct (tokens (tbl w1) !! id) as [r|]; [|by injection H2 as _ <-].
  destruct (_ && _); [|by injection H2 as _ <-]. injection H2 as <- _. eexists. cbn. by rewrite lookup_insert_eq.
Qed.

(** The audit entry that follows leaves it so. *)
Lemma audited_keeps_revoked e w w' u grant id : audited e w = (w', inl u) -> revokedIn (tbl w) grant id -> revokedIn (tbl w') grant id.
Proof.
  unfold audited, WriteAuditEvent. intros H Hw. apply bind_inl in H as (w1 & r & H1 & H). injection H as <- _. apply attempt_inl in H1.
  assert (tokens (tbl w1) = tokens (tbl w) /\ grants (tbl w1) = grants (tbl w)) as [E1 E2].
  2: { unfold revokedIn in *. rewrite E1, E2. done. }
  revert H1. unfold bind, exec, nextFault, getTables, putTables, insertAudit. destruct (bool_decide _), (Timestamp e); cbn;
    (destruct (default Fine (head (faults _))); cbn; [| by intros [= <- _] |]; destruct (existsb _ _); cbn; by intros [= <- _]).
Qed.

(** A request that revokes a grant, or a token. *)
Definition revocation (x : exchange) (t : string) (grant : bool) (id : string) : Prop :=
  exists sc, scopeOf x = Some sc /\ ScopeTenantID sc = t /\ Method (req x) = "DELETE"
    /\ Path (req x) = "/v1/vault/" +:+ (if grant then "grants/" else "tokens/") +:+ id.

Lemma revocation_revokes x s s' t grant id : revocation x t grant id ->
  serve x s = (s', inl {| status := 200; answer := StatusOK |}) -> revokedIn (dbOf s' (backendOf t)) grant id.
Proof.
  intros (sc & Hsc & Ht & Hm & Hp). unfold serve.
  assert (backendFor x = backendOf t) as Eb by (unfold backendFor; by rewrite Hsc, Ht). rewrite Eb.
  unfold handler. rewrite Hsc. set (w := worldFor s (backendOf t) (supply x)).
  destruct (handleVault T (Some mk) issuer (req x) (Some sc) w) as [w' r] eqn:E. intros [= <- ->]. rewrite dbOf_insert, decide_True by done.
  revert E. unfold handleVault. rewrite Hp, TrimPrefix_app. destruct grant.
  - change (CutPrefix ("grants/" +:+ id) "secrets") with (@None string). change (CutPrefix ("grants/" +:+ id) "tokens") with (@None string).
    cbv iota. change (HasPrefix ("grants/" +:+ id) "grants/") with true. rewrite orb_true_r.
    change (TrimPrefix ("grants/" +:+ id) "grants") with ("/" +:+ id). unfold handleVaultGrants, withVaultStore.
    destruct (negb (hasBackend sc)); [done|]. case_bool_decide; [done|]. rewrite Hm. cbv iota zeta.
    destruct (isRoot ("/" +:+ id)); [done|]. change (TrimPrefix ("/" +:+ id) "/") with id. unfold handleVaultGrantRevoke.
    intros E. apply bind_inl in E as (w1 & [u|[]] & E1 & E); try done. apply attempt_inl in E1.
    apply bind_inl in E as (w2 & u2 & E2 & E). injection E as <-. eapply audited_keeps_revoked; [exact E2|].
    by eapply RevokeGrant_revokes.
  - change (CutPrefix ("tokens/" +:+ id) "secrets") with (@None string). change (CutPrefix ("tokens/" +:+ id) "tokens") with (Some ("/" +:+ id)).
    cbv iota. unfold handleVaultTokens, withVaultStore.
    destruct (negb (hasBackend sc)); [done|]. case_bool_decide; [done|]. rewrite Hm. cbv iota zeta.
    destruct (isRoot ("/" +:+ id)); [done|]. change (TrimPrefix ("/" +:+ id) "/") with id. unfold handleVaultTokenRevoke.
    intros E. apply bind_inl in E as (w1 & [u|[]] & E1 & E); try done. apply attempt_inl in E1.
    apply bind_inl in E as (w2 & u2 & E2 & E). injection E as <-. eapply audited_keeps_revoked; [exact E2|].
    by eapply RevokeCapToken_revokes.
Qed.

(** C12: once a revocation is answered with success, no grant or token with that
    identifier is resolved again on that database: whatever is served afterwards,
    whatever the token text, the tenant it is presented for, the clock and the outcome
    of the statements. *)
Theorem revoked_for_good x s s' xs t grant id :
  revocation x t grant id -> Forall legit xs ->
  serve x s = (s', inl {| status := 200; answer := StatusOK |}) ->
  forall e t' i raw w', let w := worldFor (run xs s') (backendOf t) e in
    if grant then forall c, VerifyAndResolveGrant mk T t' i raw w = (w', inl c) -> GrantID c <> id
    else forall c, VerifyAndResolveCapToken mk T t' raw w = (w', inl c) -> TokenID c <> id.
Proof using Hissuer.
  intros Hr Hxs Hs e t' i raw w' w. pose proof (revocation_revokes x s s' t grant id Hr Hs) as H.
  apply (run_keeps_revoked xs s' _ grant id Hxs) in H. change (dbOf (run xs s') (backendOf t)) with (tbl w) in H.
  destruct grant; intros c Hc E; destruct H as (r & Hr' & Hn).
  - apply grant_resolved in Hc as ((_ & _ & r' & H1 & _ & H2) & _). rewrite E in H1. congruence.
  - apply cap_resolved in Hc as ((_ & r' & H1 & _ & H2) & _). rewrite E in H1. congruence.
Qed.

(** ** Issued grants *)

(** Claims that may be signed verify until they expire. *)
Lemma verify_of_sign c now : validateClaimsForSign T c = None ->
  validateClaimsForVerify T c now = if wrap64 (ExpiresAt c + grantClockSkew) <? Unix now then Some (Err "grant expired") else None.
Proof.
  unfold validateClaimsForSign, validateClaimsForVerify. intros H.
  destruct (bool_decide (Issuer c = "")); [done|]. destruct (bool_decide (GrantID c = "")); [done|].
  destruct (bool_decide (TenantID c = "")); [done|]. destruct (_ && _); [done|].
  destruct (bool_decide (Agent c = "")); [done|]. destruct (_ && _); [done|]. destruct (ExpiresAt c <=? 0); [done|].
  destruct (bool_decide (GScope c = [])); [done|]. destruct (scopeText T (GScope c)); [done|]. done.
Qed.

(** What [IssueGrant] signed and stored. *)
Lemma IssueGrant_inl t i p a scope perm ttl label w w1 tok g : IssueGrant mk T t i p a scope perm ttl label w = (w1, inl (tok, g)) ->
  exists u now, u = default "" (head (uuids (env w))) /\ now = default 0 (head (clock (env w)))
  /\ VGrantID g = "grt_" +:+ u /\ VExpiresAt g = now + ttl /\ 0 < ttl
  /\ SignGrant T (DeriveCSK mk t)
       {| Issuer := i; GrantID := VGrantID g; TenantID := t; PrincipalType := p; Agent := a; GScope := scope;
          Perm := perm; ExpiresAt := Unix (VExpiresAt g); LabelHint := label |} = inl tok
  /\ liveGrant (tbl w1) t (VGrantID g).
Proof.
  unfold IssueGrant. destruct (Z.leb_spec ttl 0); [done|]. case_bool_decide; [done|]. destruct (scopeText T scope); [done|].
  do 2 (destruct (_ && _); [done|]). do 2 (case_bool_decide; [done|]). intros E.
  apply bind_inl in E as (w2 & u & E1 & E). apply bind_inl in E as (w3 & now & E2 & E).
  apply bind_inl in E as (w4 & tok' & E3 & E). apply bind_inl in E as (w5 & [] & E4 & E). apply bind_inl in E as (w6 & [] & E5 & E).
  injection E as <- <- <-. injection E1 as <- <-. injection E2 as <- <-. injection E3 as <- E3.
  apply wrapped_inl, exec_inl in E5. eexists _, _. split; [reflexivity|]. split; [reflexivity|]. cbn [VGrantID VExpiresAt].
  split; [done|]. split; [done|]. split; [done|]. split; [exact E3|].
  unfold insertGrant in E5. destruct (grants (tbl w5) !! _) eqn:Eg; [done|]. injection E5 as <-. eexists. cbn. rewrite lookup_insert_eq. done.
Qed.

(** C13: a grant that was issued verifies with exactly the claims it was issued with, at
    any later time and place where its row is there and not revoked and the database
    answers, up to one minute after the second it expires in; from then on the answer is
    that it has expired.  The texts of the grant are UTF-8, as in a decoded request, and
    the clock and the lifetime are nanoseconds of [int64] since 1970. *)
Theorem issued_grant_verifies t p a scope perm ttl label w w1 tok g :
  IssueGrant mk T t issuer p a scope perm ttl label w = (w1, inl (tok, g)) ->
  Forall Json.valid ([t; p; a; perm; label] ++ scope) -> saneEnv (env w) -> ttl <= max_int64 ->
  liveGrant (tbl w1) t (VGrantID g)
  /\ forall w2, liveGrant (tbl w2) t (VGrantID g) -> faults (env w2) = [] ->
       snd (VerifyAndResolveGrant mk T t issuer tok w2)
       = if Unix (default 0 (head (clock (env w2)))) <=? Unix (VExpiresAt g) + 60
         then inl {| Issuer := issuer; GrantID := VGrantID g; TenantID := t; PrincipalType := p; Agent := a;
                     GScope := scope; Perm := perm; ExpiresAt := Unix (VExpiresAt g); LabelHint := label |}
         else inr (Err "grant expired").
Proof using Hissuer.
  clear Hmk. intros E Hv He Ht. apply IssueGrant_inl in E as (u & now & Hu & Hn & Hid & Hexp & Hpos & Hsign & Hlive). split; [done|].
  intros w2 (r & Hr1 & Hr2 & Hr3) Hf. set (c := Build_VaultGrantClaims _ _ _ _ _ _ _ _ _) in *.
  apply Forall_app in Hv as [Hv Hs]. rewrite !Forall_cons in Hv. destruct Hv as (V1 & V2 & V3 & V4 & V5 & _).
  assert (0 <= now <= max_int64) as Hrange by (subst now; apply (head_Forall (fun t => 0 <= t <= max_int64)); [apply He|unfold max_int64; lia]).
  assert (0 <= Unix (VExpiresAt g) <= 2 ^ 40) as Hu1.
  { rewrite Hexp. unfold Unix, second, max_int64 in *. split; [apply Z.div_pos; lia|apply Z.div_le_upper_bound; lia]. }
  assert (Json.valid (VGrantID g)) as Hid'.
  { rewrite Hid. apply (prefixed_valid "grt_"); [done|]. subst u. apply head_Forall; [apply He|apply Json.valid_nil]. }
  assert (grantOk c) as Hok by (split; cbn; [by repeat constructor|done|unfold max_int64; lia]).
  assert (validateClaimsForSign T c = None) as Hval.
  { unfold SignGrant in Hsign. by destruct (validateClaimsForSign T c). }
  unfold VerifyAndResolveGrant, bind, timeNow, ofSum. cbn [env set_env].
  rewrite (VerifyGrant_signed T _ c tok _ Hok Hsign), verify_of_sign by done.
  change (ExpiresAt c + grantClockSkew) with (Unix (VExpiresAt g) + 60). rewrite wrap64_small by (unfold max_int64; lia).
  rewrite Z.ltb_antisym. destruct (_ <=? Unix (VExpiresAt g) + 60); cbn [negb]; [|done].
  change (TenantID c) with t. change (Issuer c) with issuer. change (GrantID c) with (VGrantID g).
  rewrite (bool_decide_eq_true_2 (t = t)), (bool_decide_eq_true_2 (issuer = issuer)) by done. cbn [negb]. rewrite andb_false_r.
  unfold wrapErr, query, bind, nextFault, getTables. cbn [env set_env faults]. rewrite Hf. cbn. rewrite Hr1, Hr3, bool_decide_eq_true_2 by done. done.
Qed.

End run.


(** ** Runs *)

Definition demoTexts : texts :=
  {| quoted := fun s => s; base64Error := fun _ => "illegal base64 data"; jsonError := fun _ => "invalid JSON" |}.
Definition demoIssuer : string := "https://drive.example".
Definition demoTenants : gmap string (string * bool) := {[ "acme" := ("tidb_zero", true); "evil" := ("tidb_zero", true) ]}.
Definition owner (t : string) : option tenantScope :=
  Some {| ScopeTenantID := t; APIKeyID := "key1"; Provider := "tidb_zero"; hasBackend := true |}.
Definition supplyAt (now : Z) : environment :=
  {| clock := [now; now; now]; uuids := [JStruct.FormatInt now +:+ "a"; JStruct.FormatInt now +:+ "b"]; draws := ["p"; "q"; "r"; "s"];
     faults := []; rivals := [] |}.
Definition manage (t method path body : string) (now : Z) : exchange :=
  {| req := {| Method := method; Path := path; params := []; Authorization := ""; XAPIKey := ""; Body := Json.text body |};
     scopeOf := owner t; supply := supplyAt now; poolUp := true |}.
Definition readWith (token path : string) (now : Z) : exchange :=
  {| req := {| Method := "GET"; Path := path; params := []; Authorization := "Bearer " +:+ token; XAPIKey := ""; Body := "" |};
     scopeOf := None; supply := supplyAt now; poolUp := true |}.

Definition demoServe := serve demoTexts VSecrets.demoKey demoIssuer demoTenants id.
Definition demoRun := run demoTexts VSecrets.demoKey demoIssuer demoTenants id.

(** A secret, a grant for one of its fields and a capability token for all of them. *)
Definition demoSetup : list exchange :=
  [manage "acme" "POST" "/v1/vault/secrets" "{'name':'db','fields':{'user':'root','pass':'hunter2'}}" (1 * 10 ^ 9);
   manage "acme" "POST" "/v1/vault/grants" "{'agent':'bot','scope':['db/pass'],'perm':'read','ttl_seconds':100}" (2 * 10 ^ 9);
   manage "acme" "POST" "/v1/vault/tokens" "{'agent_id':'bot','scope':['db'],'ttl_seconds':100}" (3 * 10 ^ 9)].
Definition demoServer : server := demoRun demoSetup newServer.

Definition tokenOf (r : response + error) : string :=
  match r with
  | inl {| answer := GrantIssued t _ _ _ _ |} | inl {| answer := TokenIssued t _ _ |} => t
  | _ => ""
  end.
Definition demoGrant : string :=
  Eval vm_compute in tokenOf (snd (demoServe (manage "acme" "POST" "/v1/vault/grants"
    "{'agent':'bot','scope':['db/pass'],'perm':'read','ttl_seconds':100}" (2 * 10 ^ 9)) (demoRun (take 1 demoSetup) newServer))).
Definition demoToken : string :=
  Eval vm_compute in tokenOf (snd (demoServe (manage "acme" "POST" "/v1/vault/tokens"
    "{'agent_id':'bot','scope':['db'],'ttl_seconds':100}" (3 * 10 ^ 9)) (demoRun (take 2 demoSetup) newServer))).

Definition said (x : exchange) (s : server) : option (Z * content) :=
  match snd (demoServe x s) with inl r => Some (status r, answer r) | inr _ => None end.

(** The grant reads its field and no other until a minute after it expires; the token
    reads the secret; the tenant's id in a token cannot be changed. *)
Example demo_reads :
  said (readWith demoGrant "/v1/vault/read/db/pass" (10 * 10 ^ 9)) demoServer = Some (200, PlainText "hunter2")
  /\ said (readWith demoGrant "/v1/vault/read/db/user" (10 * 10 ^ 9)) demoServer = Some (404, ErrorMessage "not found")
  /\ said (readWith demoGrant "/v1/vault/read/db" (162 * 10 ^ 9)) demoServer = Some (200, FieldValues {[ "pass" := "hunter2" ]})
  /\ said (readWith demoGrant "/v1/vault/read/db" (163 * 10 ^ 9)) demoServer = Some (401, ErrorMessage "token expired")
  /\ said (readWith demoToken "/v1/vault/read/db" (10 * 10 ^ 9)) demoServer
     = Some (200, FieldValues {[ "user" := "root"; "pass" := "hunter2" ]})
  /\ said (readWith demoToken "/v1/vault/read" (10 * 10 ^ 9)) demoServer = Some (200, SecretNames ["db"]).
Proof. vm_compute. done. Qed.

Lemma parseDigits_ascii s : forall a n, parseDigits a s = Some n -> everyByte (fun b => b <? 128) s = true.
Proof.
  induction s as [|c s IH]; intros a n E; [done|]. cbn [parseDigits everyByte] in *. destruct (Json.isDigit c) eqn:Ed; [|done].
  rewrite (IH _ _ E), andb_true_r. apply andb_true_iff in Ed as [_ Ed]. apply Z.leb_le in Ed. apply Z.ltb_lt. lia.
Qed.
Lemma FormatInt_valid z : 0 <= z -> Json.valid (FormatInt z).
Proof.
  intros H. apply ascii_valid. unfold FormatInt. rewrite (proj2 (Z.ltb_ge z 0) H).
  destruct (show_spec (Z.abs z)) as [E _]; [lia|]. exact (parseDigits_ascii _ _ _ E).
Qed.

Lemma supplyAt_sane now : 0 <= now <= max_int64 -> saneEnv (supplyAt now).
Proof.
  intros H. assert (Json.valid (FormatInt now)) as V by (apply FormatInt_valid; lia).
  split; cbn [supplyAt uuids clock].
  - constructor; [|constructor; [|constructor]]; (apply Json.valid_app; [exact V|by apply ascii_valid]).
  - by repeat (constructor; [exact H|]).
Qed.

Lemma manage_legit t method path body now : Json.valid t -> 0 <= now <= max_int64 ->
  legit VSecrets.demoKey (manage t method path body now).
Proof. intros Ht Hn. split; [by apply supplyAt_sane|]. split; [constructor|]. by intros sc [= <-]. Qed.
Lemma readWith_legit token path now : 0 <= now <= max_int64 -> legit VSecrets.demoKey (readWith token path now).
Proof. intros Hn. split; [by apply supplyAt_sane|]. split; [constructor|]. done. Qed.

Lemma demoSetup_legit : Forall (legit VSecrets.demoKey) demoSetup.
Proof. do 3 (constructor; [apply manage_legit; [by apply ascii_valid|unfold max_int64; lia]|]). constructor. Qed.

Lemma demoIssuer_valid : Json.valid demoIssuer.
Proof. by apply ascii_valid. Qed.

Lemma read_is_authorized_witness :
  exists t p, peekTokenTenantID demoTexts demoGrant = inl t
    /\ let w := worldFor demoServer t (supplyAt (10 * 10 ^ 9)) in
       (exists entry, entry ∈ PScope p /\ covers entry "db" "pass")
       /\ valueIn VSecrets.demoKey (tbl w) (PTenantID p) "db" "pass" "hunter2"
       /\ (authorized w t (10 * 10 ^ 9) p \/ forged VSecrets.demoKey w t demoGrant
           \/ sharedKey VSecrets.demoKey w t (10 * 10 ^ 9) p).
Proof.
  set (x := readWith demoGrant "/v1/vault/read/db/pass" (10 * 10 ^ 9)).
  exact (read_is_authorized demoTexts VSecrets.demoKey demoIssuer demoTenants id eq_refl demoIssuer_valid
    demoSetup x (fst (demoServe x demoServer)) {| status := 200; answer := PlainText "hunter2" |} "db" "pass" "hunter2"
    demoSetup_legit (readWith_legit demoGrant "/v1/vault/read/db/pass" (10 * 10 ^ 9) ltac:(unfold max_int64; lia)) eq_refl
    ltac:(vm_compute; reflexivity) ltac:(vm_compute; done)).
Defined.

Definition demoRevoke : exchange :=
  manage "acme" "DELETE" ("/v1/vault/grants/" +:+ "grt_2000000000a") "{'reason':'leaked'}" (20 * 10 ^ 9).

Lemma revoked_for_good_witness :
  (forall e t' i raw w' c,
     VerifyAndResolveGrant VSecrets.demoKey demoTexts t' i raw
       (worldFor (demoRun [readWith demoGrant "/v1/vault/read/db" (30 * 10 ^ 9)] (fst (demoServe demoRevoke demoServer))) "acme" e) = (w', inl c) ->
     GrantID c <> "grt_2000000000a")
  /\ said (readWith demoGrant "/v1/vault/read/db" (30 * 10 ^ 9)) (fst (demoServe demoRevoke demoServer)) = Some (401, ErrorMessage "token revoked").
Proof.
  split; [|vm_compute; reflexivity]. intros e t' i raw w' c.
  exact (revoked_for_good demoTexts VSecrets.demoKey demoIssuer demoTenants id demoIssuer_valid demoRevoke demoServer
    (fst (demoServe demoRevoke demoServer)) [readWith demoGrant "/v1/vault/read/db" (30 * 10 ^ 9)] "acme" true "grt_2000000000a"
    ltac:(eexists; split; [reflexivity|]; split; [reflexivity|]; split; reflexivity)
    ltac:(constructor; [apply readWith_legit; unfold max_int64; lia|constructor])
    ltac:(vm_compute; reflexivity) e t' i raw w' c).
Defined.

Definition demoWorld (now : Z) : world :=
  {| tbl := emptyTables; env := supplyAt now; signedCaps := []; signedGrants := []; troubles := 0 |}.
Definition demoIssued := IssueGrant VSecrets.demoKey demoTexts "acme" demoIssuer "delegated" "bot" ["db/pass"] "read" (100 * 10 ^ 9) "" (demoWorld (2 * 10 ^ 9)).
Definition issuedToken : string := match demoIssued with (_, inl (tok, _)) => tok | _ => "" end.
Definition issuedGrant : VaultGrant :=
  match demoIssued with
  | (_, inl (_, g)) => g
  | _ => {| VGrantID := ""; VTenantID := ""; VIssuer := ""; VPrincipalType := ""; VAgent := ""; VScope := []; VPerm := "";
            VLabelHint := ""; VIssuedAt := 0; VExpiresAt := 0 |}
  end.

Lemma issued_grant_verifies_witness :
  liveGrant (tbl (fst demoIssued)) "acme" (VGrantID issuedGrant)
  /\ forall w2, liveGrant (tbl w2) "acme" (VGrantID issuedGrant) -> faults (env w2) = [] ->
       snd (VerifyAndResolveGrant VSecrets.demoKey demoTexts "acme" demoIssuer issuedToken w2)
       = if Unix (default 0 (head (clock (env w2)))) <=? Unix (VExpiresAt issuedGrant) + 60
         then inl {| Issuer := demoIssuer; GrantID := VGrantID issuedGrant; TenantID := "acme"; PrincipalType := "delegated";
                     Agent := "bot"; GScope := ["db/pass"]; Perm := "read"; ExpiresAt := Unix (VExpiresAt issuedGrant); LabelHint := "" |}
         else inr (Err "grant expired").
Proof.
  exact (issued_grant_verifies demoTexts VSecrets.demoKey demoIssuer demoIssuer_valid "acme" "delegated" "bot" ["db/pass"] "read"
    (100 * 10 ^ 9) "" (demoWorld (2 * 10 ^ 9)) (fst demoIssued) issuedToken issuedGrant ltac:(vm_compute; reflexivity)
    ltac:(repeat constructor; by apply ascii_valid) ltac:(apply supplyAt_sane; unfold max_int64; lia) ltac:(unfold max_int64; lia)).
Defined.

(** ** Limits of the API *)

(** A secret whose name contains [/value] can be created and then neither rotated nor
    deleted: its path is taken for a read of the name before it. *)
Lemma value_name_is_stuck :
  let s := fst (demoServe (manage "acme" "POST" "/v1/vault/secrets" "{'name':'prod/values','fields':{'k':'v'}}" (1 * 10 ^ 9)) newServer) in
  is_Some (secrets (dbOf s "acme") !! ("acme", "prod/values"))
  /\ said (manage "acme" "DELETE" "/v1/vault/secrets/prod/values" "" (2 * 10 ^ 9)) s = Some (405, ErrorMessage "method not allowed")
  /\ said (manage "acme" "PUT" "/v1/vault/secrets/prod/values" "{'fields':{'k':'w'}}" (2 * 10 ^ 9)) s
     = Some (405, ErrorMessage "method not allowed")
  /\ said (manage "acme" "POST" "/v1/vault/secrets" "{'name':'prod/values','fields':{'k':'w'}}" (3 * 10 ^ 9)) s
     = Some (409, ErrorMessage "secret already exists").
Proof. vm_compute. split; [by eexists|]. done. Qed.

(** No token reads a secret whose name has a slash, whatever its scope. *)
Lemma slash_names_unreadable r c n f v : reveals r c n f v -> cutByte slash n = None.
Proof.
  intros [-> _]. unfold readPath. set (sub := TrimPrefix _ "/"). destruct (cutByte slash sub) as [[a b]|] eqn:E; [|exact E].
  apply cutByte_spec in E as [_ E]. exact E.
Qed.

(** The seconds of a life time are multiplied without a check: one of 584 years and a
    second issues a grant for less than a third of a second. *)
Lemma ttl_wraps_around :
  duration 18446744074 = 290448384
  /\ match snd (demoServe (manage "acme" "POST" "/v1/vault/grants"
       "{'agent':'bot','scope':['db'],'perm':'read','ttl_seconds':18446744074}" (1 * 10 ^ 9)) newServer) with
     | inl {| status := 201; answer := GrantIssued _ _ expires _ _ |} => expires = 1 * 10 ^ 9 + 290448384
     | _ => False
     end.
Proof. by vm_compute. Qed.

(** A request for a format that does not exist is refused, and audited as a read. *)
Lemma refused_format_audited :
  let x := readWith demoToken "/v1/vault/read/db" (10 * 10 ^ 9) in
  let x := {| req := {| Method := "GET"; Path := Path (req x); params := [("format", "yaml")]; Authorization := Authorization (req x);
                        XAPIKey := ""; Body := "" |}; scopeOf := None; supply := supply x; poolUp := true |} in
  said x demoServer = Some (400, ErrorMessage "unsupported format")
  /\ (event_type <$> last (audit (dbOf (fst (demoServe x demoServer)) "acme"))) = Some "secret.read".
Proof. vm_compute. done. Qed.

(** A capability token is not recognized by its prefix: any six bytes will do. *)
Lemma prefix_not_checked :
  said (readWith ("qwerty" +:+ dropBytes 6 demoToken) "/v1/vault/read" (10 * 10 ^ 9)) demoServer = Some (200, SecretNames ["db"]).
Proof. vm_compute. done. Qed.
End VRun.
