(* ===== verification/FsAuth.v ===== *)
(** * Authorization of file requests

    Model of [src/pkg/server/fs_authorization.go], of the scopes of
    [src/pkg/server/tokens.go] and of [src/pkg/meta/meta.go] (the operations and prefix
    of a scope, before and after they are stored) and of the gate for scoped tokens in
    [src/pkg/server/server.go].  A request is what the handlers look at: method, path,
    query, headers, body.  Unicode normalization is the parameter [nfc] of [PathUtil]. *)

From Stdlib Require Import Strings.Ascii.
From S2P Require Import Prelude GoStrings PathUtil.

Import GoStr Paths.

Module FsAuth.

#[local] Arguments String.append !_ _ / : simpl nomatch.

(** ** Strings *)

(** [strings.Split] at a byte. *)
Fixpoint splitByte (sep : ascii) (s : string) : list string :=
  match s with
  | EmptyString => [""]
  | String c s =>
      if Ascii.eqb c sep then "" :: splitByte sep s
      else match splitByte sep s with p :: ps => String c p :: ps | [] => [String c ""] end
  end.

(** [strings.Join(l, ",")] *)
Fixpoint joinComma (l : list string) : string :=
  match l with
  | [] => ""
  | [s] => s
  | s :: l => s +:+ "," +:+ joinComma l
  end.

(** ** Operations *)

Inductive FSOp := FSOpRead | FSOpList | FSOpSearch | FSOpWrite | FSOpDelete.

#[global] Instance FSOp_eq_dec : EqDecision FSOp.
Proof. solve_decision. Defined.

Definition opText (op : FSOp) : string :=
  match op with
  | FSOpRead => "read" | FSOpList => "list" | FSOpSearch => "search" | FSOpWrite => "write" | FSOpDelete => "delete"
  end.
Definition allOps : list FSOp := [FSOpRead; FSOpList; FSOpSearch; FSOpWrite; FSOpDelete].

(** [isKnownFSOp]: the operation a text names. *)
Definition knownFSOp (s : string) : option FSOp := List.find (fun op => bool_decide (opText op = s)) allOps.

Record FSScope := { Prefix : string; Ops : list FSOp }.

(** ** Scopes as they are stored *)

Inductive scopeError :=
  | ErrEmptyPrefix
  | ErrPrefixPath (e : pathError)
  | ErrDuplicatePrefix (p : string)
  | ErrEmptyOp
  | ErrUnknownOp (s : string)
  | ErrEmptyOps
  | ErrSearchRequiresRead.

(** The operations of a comma-separated text, empty entries left out. *)
Fixpoint knownOps (parts : list string) : list FSOp + scopeError :=
  match parts with
  | [] => inl []
  | part :: parts =>
      let op := TrimSpace part in
      if bool_decide (op = "") then knownOps parts
      else match knownFSOp op with
           | None => inr (ErrUnknownOp op)
           | Some o => match knownOps parts with inl l => inl (o :: l) | inr e => inr e end
           end
  end.

Definition checkOps (ops : list FSOp) : list FSOp + scopeError :=
  if bool_decide (ops = []) then inr ErrEmptyOps
  else if bool_decide (FSOpSearch ∈ ops) && negb (bool_decide (FSOpRead ∈ ops)) then inr ErrSearchRequiresRead
  else inl ops.

Definition parseFSScopeOps (raw : string) : list FSOp + scopeError :=
  match knownOps (splitByte "," raw) with inl ops => checkOps ops | inr e => inr e end.

(** [validateFSScopeOps] of the store, which is the same check. *)
Definition validateFSScopeOps (raw : string) : option scopeError :=
  match knownOps (splitByte "," raw) with
  | inr e => Some e
  | inl ops =>
      if bool_decide (ops = []) then Some ErrEmptyOps
      else if bool_decide (FSOpSearch ∈ ops) && negb (bool_decide (FSOpRead ∈ ops)) then Some ErrSearchRequiresRead
      else None
  end.

Section paths.
Context (nfc : string -> string).

Definition normalizeFSAuthorizationPath (raw : string) : string + pathError := Canonicalize nfc (TrimPrefix raw ":").

(** [canonicalScopePrefix], and [canonicalFSScopePrefix] of the store. *)
Definition canonicalScopePrefix (raw : string) : string + scopeError :=
  if bool_decide (TrimSpace raw = "") || bool_decide (TrimSpace raw = ":") then inr ErrEmptyPrefix
  else match normalizeFSAuthorizationPath raw with inl p => inl p | inr e => inr (ErrPrefixPath e) end.

(** A row of [tenant_api_key_fs_scopes]: its prefix and its operations. *)
Definition scopeRow : Type := string * string.

Fixpoint fsScopesFromMeta (rows : list scopeRow) : list FSScope + scopeError :=
  match rows with
  | [] => inl []
  | (prefix, ops) :: rows =>
      match canonicalScopePrefix prefix with
      | inr e => inr e
      | inl p =>
          match parseFSScopeOps ops with
          | inr e => inr e
          | inl ops =>
              match fsScopesFromMeta rows with
              | inl l => inl ({| Prefix := p; Ops := ops |} :: l)
              | inr e => inr e
              end
          end
      end
  end.

(** ** Issuing *)

(** The operations of a request, none of them empty. *)
Fixpoint requestedOps (raw : list string) : list FSOp + scopeError :=
  match raw with
  | [] => inl []
  | part :: raw =>
      let op := TrimSpace part in
      if bool_decide (op = "") then inr ErrEmptyOp
      else match knownFSOp op with
           | None => inr (ErrUnknownOp op)
           | Some o => match requestedOps raw with inl l => inl (o :: l) | inr e => inr e end
           end
  end.

Definition canonicalScopeOps (raw : list string) : string + scopeError :=
  match requestedOps raw with
  | inr e => inr e
  | inl seen =>
      match checkOps seen with
      | inr e => inr e
      | inl seen => inl (joinComma (opText <$> filter (fun op => op ∈ seen) allOps))
      end
  end.

Fixpoint validateScopedTokenScopes (seenPrefix : list string) (reqScopes : list (string * list string))
    : list scopeRow + scopeError :=
  match reqScopes with
  | [] => inl []
  | (rawPrefix, rawOps) :: reqScopes =>
      match canonicalScopePrefix rawPrefix with
      | inr e => inr e
      | inl prefix =>
          if bool_decide (prefix ∈ seenPrefix) then inr (ErrDuplicatePrefix prefix)
          else match canonicalScopeOps rawOps with
               | inr e => inr e
               | inl ops =>
                   match validateScopedTokenScopes (prefix :: seenPrefix) reqScopes with
                   | inl l => inl ((prefix, ops) :: l)
                   | inr e => inr e
                   end
               end
      end
  end.

(** ** Authorization *)

Definition pathMatchesScope (prefix p : string) : bool :=
  bool_decide (prefix = "/") || bool_decide (p = prefix) || HasPrefix p (prefix +:+ "/").

Definition scopeAllows (scope : FSScope) (op : FSOp) (p : string) : bool :=
  if bool_decide (op = FSOpSearch) && negb (bool_decide (FSOpRead ∈ Ops scope)) then false
  else if negb (bool_decide (op ∈ Ops scope)) then false
  else pathMatchesScope (Prefix scope) p.

(** The part of [TenantScope] that authorization looks at: [None] for the scopes of an
    owner, who is not limited. *)
Definition tenantScope : Type := option (list FSScope).

Inductive authError := ErrFSAccessDenied | ErrFSInvalidPath (e : pathError).

(** [AuthorizeFS] of a scope that is there. *)
Definition AuthorizeFS (s : tenantScope) (op : FSOp) (rawPath : string) : option authError :=
  match s with
  | None => None
  | Some scopes =>
      match normalizeFSAuthorizationPath rawPath with
      | inr e => Some (ErrFSInvalidPath e)
      | inl p => if existsb (fun scope => scopeAllows scope op p) scopes then None else Some ErrFSAccessDenied
      end
  end.

Definition AuthorizeFSPair (s : tenantScope) (srcOp : FSOp) (srcPath : string) (dstOp : FSOp) (dstPath : string)
    : option authError :=
  match AuthorizeFS s srcOp srcPath with
  | Some e => Some e
  | None => AuthorizeFS s dstOp dstPath
  end.

End paths.

(** ** Requests *)

Record request := {
  Method : string;
  URLPath : string;
  Query : list (string * string);
  Headers : list (string * string);
  ContentLength : Z;
  Body : string
}.

(** [q.Has] and [q.Get] *)
Definition qHas (q : list (string * string)) (k : string) : bool := existsb (fun kv => bool_decide (fst kv = k)) q.
Definition qGet (q : list (string * string)) (k : string) : string :=
  default "" (snd <$> List.find (fun kv => bool_decide (fst kv = k)) q).

(** ** The gate for scoped tokens *)

Definition queryKeysSubsetOf (q : list (string * string)) (allowed : list string) : bool :=
  forallb (fun kv => existsb (fun a => bool_decide (fst kv = a)) allowed) q.

Definition postSelectors : list string := ["append"; "copy"; "rename"; "mkdir"; "chmod"; "create"].

Definition isScopedFSPostQueryAllowed (q : list (string * string)) : bool :=
  match filter (fun k => qHas q k = true) postSelectors with
  | [k] =>
      if bool_decide (k = "mkdir") then queryKeysSubsetOf q ["mkdir"; "mode"]
      else if bool_decide (k = "chmod") then false
      else queryKeysSubsetOf q [k]
  | _ => false
  end.

Definition isScopedFSGetQueryAllowed (q : list (string * string)) : bool :=
  if qHas q "stat" then queryKeysSubsetOf q ["stat"]
  else if qHas q "grep" then queryKeysSubsetOf q ["grep"; "limit"]
  else if qHas q "find" then
    queryKeysSubsetOf q ["find"; "name"; "tag"; "newer"; "older"; "minsize"; "maxsize"; "limit"]
  else if qHas q "list" then queryKeysSubsetOf q ["list"]
  else bool_decide (q = []).

(** [strings.SplitN(rest, "/", 2)], the second part trimmed of slashes. *)
Definition idAction (rest : string) : string * string :=
  match Cut slash rest with
  | Some (id, action) => (id, trimRightSlash (trimLeftSlash action))
  | None => (rest, "")
  end.

Definition isScopedV1UploadRouteAllowed (method path : string) : bool :=
  if bool_decide (path = "/v1/uploads") then bool_decide (method = "POST") || bool_decide (method = "GET")
  else if bool_decide (path = "/v1/uploads/initiate") then bool_decide (method = "POST")
  else
    let rest := TrimPrefix path "/v1/uploads/" in
    if bool_decide (rest = "") then false
    else
      let '(uploadID, action) := idAction rest in
      if bool_decide (uploadID = "") then false
      else (bool_decide (method = "POST") && HasPrefix action "complete")
           || ((bool_decide (method = "POST") || bool_decide (method = "GET")) && HasPrefix action "resume")
           || (bool_decide (method = "DELETE") && bool_decide (action = "")).

Definition isScopedV2UploadRouteAllowed (method path : string) : bool :=
  if negb (bool_decide (method = "POST")) then false
  else
    let rest := TrimPrefix path "/v2/uploads/" in
    if bool_decide (rest = "") then false
    else
      let '(seg0, action) := idAction rest in
      if bool_decide (seg0 = "") then false
      else (bool_decide (seg0 = "initiate") && bool_decide (action = ""))
           || bool_decide (action ∈ ["presign"; "presign-batch"; "complete"; "abort"]).

Definition isScopedBusinessRequestAllowed (r : request) : bool :=
  let path := URLPath r in
  if bool_decide (path = "/v1/fs:batch-stat") || bool_decide (path = "/v1/fs:batch-read-small")
  then bool_decide (Method r = "POST")
  else if HasPrefix path "/v1/fs/" then
    if bool_decide (Method r = "HEAD") then true
    else if bool_decide (Method r = "GET") then isScopedFSGetQueryAllowed (Query r)
    else if bool_decide (Method r = "PUT") || bool_decide (Method r = "PATCH") then bool_decide (Query r = [])
    else if bool_decide (Method r = "DELETE") then queryKeysSubsetOf (Query r) ["recursive"; "kind"]
    else if bool_decide (Method r = "POST") then isScopedFSPostQueryAllowed (Query r)
    else false
  else if HasPrefix path "/v1/uploads" then isScopedV1UploadRouteAllowed (Method r) path
  else if HasPrefix path "/v2/uploads/" then isScopedV2UploadRouteAllowed (Method r) path
  else false.

End FsAuth.
