(* ===== verification/FileRequests.v ===== *)
(** * Bodies and headers of file requests

    What the file handlers of [src/pkg/server/server.go] read from a request: the JSON
    bodies of their structs (with slices of numbers and of structs, optional numbers and
    optional structs, decoded as [encoding/json] does), the tag, checksum, revision and
    length headers, and the validation of tags of [src/pkg/tagutil/validate.go]. *)

From Stdlib Require Import Strings.Ascii.
From S2P Require Import Prelude GoStrings PathUtil Json JsonStruct FileStore Media FsAuth.

Import GoStr JStruct Media FsAuth.

Module FileReq.

#[local] Arguments String.append !_ _ / : simpl nomatch.

(** ** Arrays *)

(** The elements of an array after its opening bracket, each with its value and text. *)
Fixpoint rawElements (fuel depth : nat) (s : string) : option (list (Json.json * string)) :=
  match fuel with
  | O => None
  | S fuel =>
      match Json.parseValue (2 * String.length s + 2) depth s with
      | None => None
      | Some (v, rest') =>
          let text := String.substring 0 (String.length s - String.length rest') s in
          let rest := Json.skipSpace rest' in
          match CutPrefix rest "]", CutPrefix rest "," with
          | Some _, _ => Some [(v, text)]
          | _, Some rest => l ← rawElements fuel depth rest; Some ((v, text) :: l)
          | _, _ => None
          end
      end
  end.

Definition arrayElements (depth : nat) (s : string) : option (list (Json.json * string)) :=
  match CutPrefix (Json.skipSpace s) "[" with
  | None => None
  | Some rest =>
      match CutPrefix (Json.skipSpace rest) "]" with
      | Some _ => Some []
      | None => rawElements (String.length rest) depth rest
      end
  end.

(** A slice with the slots past its length that its array still holds. *)
Record sliceOf (A : Type) := { items : list A; hidden : list A }.
#[global] Arguments items {A}.
#[global] Arguments hidden {A}.
#[global] Arguments Build_sliceOf {A}.

Definition noSlice {A} : sliceOf A := {| items := []; hidden := [] |}.

(** The elements decoded over the slots there are. *)
Fixpoint decodeItems {A} (dec : A -> Json.json -> string -> option A) (zero : A) (slots : list A)
    (l : list (Json.json * string)) : option (list A) :=
  match l with
  | [] => Some []
  | (v, text) :: l =>
      x ← dec (default zero (head slots)) v text;
      r ← decodeItems dec zero (tail slots) l;
      Some (x :: r)
  end.

Definition itemsField {A B} (name : string) (dec : A -> Json.json -> string -> option A) (zero : A)
    (get : B -> sliceOf A) (set : sliceOf A -> B -> B) : field B :=
  (name, fun b v text =>
     match v with
     | Json.JNull => Some (set noSlice b)
     | Json.JArr _ =>
         match arrayElements (pred (pred Json.maxNestingDepth)) text with
         | None => None
         | Some [] => Some (set noSlice b)
         | Some l =>
             let slots := items (get b) ++ hidden (get b) in
             r ← decodeItems dec zero slots l;
             Some (set {| items := r; hidden := drop (length l) slots |} b)
         end
     | _ => None
     end).

(** An [int] or [int64] *)
Definition decodeInt (old : Z) (v : Json.json) (_ : string) : option Z :=
  match v with Json.JNum n => ParseInt n | Json.JNull => Some old | _ => None end.

(** A struct, or [null] for none of its fields. *)
Definition decodeObject {A} (fs : list (field A)) (old : A) (v : Json.json) (text : string) : option A :=
  match v with
  | Json.JNull => Some old
  | Json.JObj _ =>
      match objectMembers (pred (pred (pred Json.maxNestingDepth))) text with
      | Some (ms, _) => decodeFields fs false ms old
      | None => None
      end
  | _ => None
  end.

(** An [*int64] *)
Definition intPtrField {A} (name : string) (set : option Z -> A -> A) : field A :=
  (name, fun a v _ => match v with
                      | Json.JNum n => z ← ParseInt n; Some (set (Some z) a)
                      | Json.JNull => Some (set None a)
                      | _ => None
                      end).

(** A pointer to a struct. *)
Definition structPtrField {A B} (name : string) (fs : list (field A)) (zero : A) (get : B -> option A)
    (set : option A -> B -> B) : field B :=
  (name, fun b v text => match v with
                         | Json.JNull => Some (set None b)
                         | _ => x ← decodeObject fs (default zero (get b)) v text; Some (set (Some x) b)
                         end).

(** [strconv.ParseUint(s, 10, 32)]: digits without a sign. *)
Definition ParseUint32 (s : string) : option Z :=
  if bool_decide (s = "") then None
  else n ← parseDigits 0 s; if n <? 2 ^ 32 then Some n else None.

Definition uint32Field {A} (name : string) (set : Z -> A -> A) : field A :=
  (name, fun a v _ => match v with
                      | Json.JNum n => z ← ParseUint32 n; Some (set z a)
                      | Json.JNull => Some a
                      | _ => None
                      end).

(** ** Bodies *)

Record patchReq := { paNewSize : Z; paDirty : sliceOf Z; paPartSize : Z; paExpected : option Z }.
Definition patchFields : list (field patchReq) :=
  [intField "new_size" (fun v '(Build_patchReq _ d p x) => Build_patchReq v d p x);
   itemsField "dirty_parts" decodeInt 0 paDirty (fun v '(Build_patchReq n _ p x) => Build_patchReq n v p x);
   intField "part_size" (fun v '(Build_patchReq n d _ x) => Build_patchReq n d v x);
   intPtrField "expected_revision" (fun v '(Build_patchReq n d p _) => Build_patchReq n d p v)].
Definition zeroPatch : patchReq := {| paNewSize := 0; paDirty := noSlice; paPartSize := 0; paExpected := None |}.

Record appendReq := { apSize : Z; apPartSize : Z; apExpected : option Z }.
Definition appendFields : list (field appendReq) :=
  [intField "append_size" (fun v '(Build_appendReq _ p x) => Build_appendReq v p x);
   intField "part_size" (fun v '(Build_appendReq n _ x) => Build_appendReq n v x);
   intPtrField "expected_revision" (fun v '(Build_appendReq n p _) => Build_appendReq n p v)].
Definition zeroAppend : appendReq := {| apSize := 0; apPartSize := 0; apExpected := None |}.

Record batchStatRequest := { bsPaths : goSlice }.
Definition batchStatFields : list (field batchStatRequest) :=
  [sliceField "paths" bsPaths (fun v _ => {| bsPaths := v |})].

Record batchReadSmallRequest := { brPaths : goSlice; brMaxBytes : Z }.
Definition batchReadFields : list (field batchReadSmallRequest) :=
  [sliceField "paths" brPaths (fun v '(Build_batchReadSmallRequest _ m) => Build_batchReadSmallRequest v m);
   intField "max_bytes" (fun v '(Build_batchReadSmallRequest p _) => Build_batchReadSmallRequest p v)].

Record chmodReq := { chMode : Z }.
Definition chmodFields : list (field chmodReq) := [uint32Field "mode" (fun v _ => {| chMode := v |})].

(** The bodies of both initiations; version 2 has no checksums. *)
Record initiateReq := { inPath : string; inSize : Z; inSums : goSlice; inExpected : option Z; inDescription : string }.
Definition initiateFields : list (field initiateReq) :=
  [stringField "path" (fun v '(Build_initiateReq _ n s x d) => Build_initiateReq v n s x d);
   intField "total_size" (fun v '(Build_initiateReq p _ s x d) => Build_initiateReq p v s x d);
   sliceField "part_checksums" inSums (fun v '(Build_initiateReq p n _ x d) => Build_initiateReq p n v x d);
   intPtrField "expected_revision" (fun v '(Build_initiateReq p n s _ d) => Build_initiateReq p n s v d);
   stringField "description" (fun v '(Build_initiateReq p n s x _) => Build_initiateReq p n s x v)].
Definition initiateV2Fields : list (field initiateReq) :=
  filter (fun f => fst f <> "part_checksums") initiateFields.
Definition zeroInitiate : initiateReq :=
  {| inPath := ""; inSize := 0; inSums := nilSlice; inExpected := None; inDescription := "" |}.

Record resumeReq := { reSums : goSlice }.
Definition resumeFields : list (field resumeReq) := [sliceField "part_checksums" reSums (fun v _ => {| reSums := v |})].

(** The tags of a completion: a nil map is none. *)
Definition tagsField {A} (get : A -> option (gmap string string)) (set : option (gmap string string) -> A -> A) : field A :=
  ("tags", fun a v text =>
     match v with
     | Json.JNull => Some (set None a)
     | Json.JObj _ =>
         match objectMembers (pred (pred Json.maxNestingDepth)) text with
         | Some (ms, _) => m ← decodePairs ms (default ∅ (get a)); Some (set (Some m) a)
         | None => None
         end
     | _ => None
     end).

Record completeReq := { coTags : option (gmap string string) }.
Definition completeFields : list (field completeReq) := [tagsField coTags (fun v _ => {| coTags := v |})].

(** [PresignChecksum], its algorithm and its value. *)
Definition checksum : Type := string * string.
Definition checksumFields : list (field checksum) :=
  [stringField "algorithm" (fun v c => (v, snd c)); stringField "value" (fun v c => (fst c, v))].

(** [PresignPartEntry] *)
Definition partEntry : Type := Z * option checksum.
Definition partEntryFields : list (field partEntry) :=
  [intField "part_number" (fun v e => (v, snd e)); structPtrField "checksum" checksumFields ("", "") snd (fun v e => (fst e, v))].

Record presignBatchReq := { pbParts : sliceOf partEntry }.
Definition presignBatchFields : list (field presignBatchReq) :=
  [itemsField "parts" (decodeObject partEntryFields) (0, None) pbParts (fun v _ => {| pbParts := v |})].

(** [CompletePart], its number and its tag. *)
Definition completePart : Type := Z * string.
Definition completePartFields : list (field completePart) :=
  [intField "number" (fun v p => (v, snd p)); stringField "etag" (fun v p => (fst p, v))].

Record completeV2Req := { cvParts : sliceOf completePart; cvTags : option (gmap string string) }.
Definition completeV2Fields : list (field completeV2Req) :=
  [itemsField "parts" (decodeObject completePartFields) (0, "") cvParts
     (fun v '(Build_completeV2Req _ t) => Build_completeV2Req v t);
   tagsField cvTags (fun v '(Build_completeV2Req p _) => Build_completeV2Req p v)].

(** ** Limited bodies *)

Inductive bodyError := BodyTooLarge | BadBody.

(** [http.MaxBytesReader(w, r.Body, 1<<20)] *)
Definition bodyLimit : Z := 2 ^ 20.
Definition overLimit (body : string) : bool := bodyLimit <? slen body.
Definition limitedBody (body : string) : string :=
  if overLimit body then String.substring 0 (Z.to_nat bodyLimit) body else body.

(** [json.NewDecoder(...).Decode(&req)] of a limited body; [cutOff] tells whether a body
    over the limit was still a prefix of a value where it was cut. *)
Definition decodeLimited {A} (fs : list (field A)) (zero : A) (cutOff : bool) (body : string) : A + bodyError :=
  match decodeStruct fs false zero (limitedBody body) with
  | Some (a, _) => inl a
  | None => inr (if overLimit body && cutOff then BodyTooLarge else BadBody)
  end.

Definition decodeBody {A} (fs : list (field A)) (zero : A) (body : string) : option A :=
  fst <$> decodeStruct fs false zero body.

(** ** Headers *)

(** [r.Header.Get] and [r.Header.Values], by canonical names. *)
Definition hGet (r : request) (k : string) : string := qGet (Headers r) k.
Definition hValues (r : request) (k : string) : list string :=
  snd <$> filter (fun kv => fst kv = k) (Headers r).

Definition parseExpectedRevisionHeader (raw : string) : option Z :=
  let raw := TrimSpace raw in
  if bool_decide (raw = "") then Some (-1)
  else match ParseInt raw with Some rev => if rev <? 0 then None else Some rev | None => None end.

(** ** Tags *)

Definition MaxTagLen : Z := 255.

Definition validUTF8 (s : string) : bool :=
  forallb (fun p => match p with Json.Rune _ => true | Json.BadByte _ => false end) (Json.runesOf s).
Fixpoint anyByte (P : Z -> bool) (s : string) : bool :=
  match s with EmptyString => false | String c s => P (code c) || anyByte P s end.
Definition containsControlChars : string -> bool := anyByte (fun c => (c <? 32) || (c =? 127)).

Inductive tagError :=
  | TagNotAPair | TagEmptyKey | TagKeyUTF8 | TagKeyControl | TagKeySpace | TagKeyEquals | TagValueUTF8
  | TagValueControl | TagValueSpace | TagKeyLong | TagValueLong | TagDuplicate.

(** [ValidateEntry] *)
Definition ValidateEntry (key value : string) : option tagError :=
  if bool_decide (key = "") then Some TagEmptyKey
  else if negb (validUTF8 key) then Some TagKeyUTF8
  else if containsControlChars key then Some TagKeyControl
  else if negb (bool_decide (key = TrimSpace key)) then Some TagKeySpace
  else if anyByte (fun c => c =? 61) key then Some TagKeyEquals
  else if negb (validUTF8 value) then Some TagValueUTF8
  else if containsControlChars value then Some TagValueControl
  else if negb (bool_decide (value = TrimSpace value)) then Some TagValueSpace
  else if MaxTagLen <? zlen (Json.runesOf key) then Some TagKeyLong
  else if MaxTagLen <? zlen (Json.runesOf value) then Some TagValueLong
  else None.

(** [ValidateMap]; which of several bad entries is reported depends on the order of the
    map. *)
Definition ValidateMap (tags : gmap string string) : option tagError :=
  head (omap (fun kv => ValidateEntry (fst kv) (snd kv)) (map_to_list tags)).

Fixpoint parseTags (raw : list string) (tags : gmap string string) : gmap string string + tagError :=
  match raw with
  | [] => inl tags
  | entry :: raw =>
      match Cut "=" entry with
      | None => inr TagNotAPair
      | Some (key, value) =>
          if bool_decide (key = "") then inr TagEmptyKey
          else match ValidateEntry key value with
               | Some err => inr err
               | None => if bool_decide (is_Some (tags !! key)) then inr TagDuplicate
                         else parseTags raw (<[key := value]> tags)
               end
      end
  end.

(** [parseWriteTagsHeader]: no header is a nil map. *)
Definition parseWriteTagsHeader (r : request) : option (gmap string string) + tagError :=
  match hValues r "X-Dat9-Tag" with
  | [] => inl None
  | raw => match parseTags raw ∅ with inl tags => inl (Some tags) | inr err => inr err end
  end.

(** ** Checksums *)

Definition isBase64 (c : Z) : bool :=
  ((65 <=? c) && (c <=? 90)) || ((97 <=? c) && (c <=? 122)) || ((48 <=? c) && (c <=? 57)) || (c =? 43) || (c =? 47).

Fixpoint dropNewlines (s : string) : string :=
  match s with
  | EmptyString => EmptyString
  | String c s => if (code c =? 10) || (code c =? 13) then dropNewlines s else String c (dropNewlines s)
  end.

(** [base64.StdEncoding.DecodeString] gives four bytes: six digits and two paddings, with
    line breaks anywhere. *)
Definition decodesToFour (v : string) : bool :=
  let s := dropNewlines v in
  (slen s =? 8) && negb (anyByte (fun c => negb (isBase64 c)) (String.substring 0 6 s))
  && bool_decide (String.substring 6 2 s = "==").

(** [validatePartChecksums], the values without the space around them. *)
Definition validatePartChecksums (parts : list string) : option (list string) :=
  let out := TrimSpace <$> parts in
  if forallb decodesToFour out then Some out else None.

Definition parsePartChecksumsHeader (raw : string) : option (list string) :=
  let raw := TrimSpace raw in
  if bool_decide (raw = "") then Some [] else validatePartChecksums (splitByte "," raw).

End FileReq.
