(* ===== verification/FileServer.v ===== *)
(** * The file handlers

    Model of the handlers of [src/pkg/server/server.go] for [/v1/fs/...], the two batch
    routes, [/v1/uploads/...] and [/v2/uploads/...], with the authorization helpers of
    [src/pkg/server/fs_authorization.go] and the events of [src/pkg/server/sse.go].  A
    handler takes the tenant's backend and event bus and answers a status and a typed
    body; the text of an error value is the value.  The scope of the request is what the
    middleware found, and whether it has a backend.  Clocks, fresh identifiers and what
    object storage answers are arguments ([renv]); so are the results of searches.
    Logging, metrics and response headers other than those of [handleStat] are left out. *)

From Stdlib Require Import Strings.Ascii.
From S2P Require Import Prelude GoStrings PathUtil Json JsonStruct SemanticQueue FileGCQueue FileStore Media Backend Uploads.
From S2P Require Import BackendPlans EventBus FsAuth FileRequests.

Import GoStr Paths JStruct FileStore Media Backend Uploads Plans FsAuth FileReq.

Module FileServer.

#[local] Arguments String.append !_ _ / : simpl nomatch.

(** ** State, scope, responses *)

Record srv := { backendOf : backend; busOf : EventBus.EventBus }.

Definition set_backend (b : backend) (s : srv) : srv := {| backendOf := b; busOf := busOf s |}.

(** [ScopeFromContext]: the limits of the token and whether the scope has a backend. *)
Record tscope := { limits : tenantScope; hasBackend : bool }.
Definition scope : Type := option tscope.

(** What a request gets from outside. *)
Record renv := {
  env_ : penv;
  newInodeID : string;
  presignGet : bool;
  cutOff : bool;
  searchResult : option (list string)   (** the paths a search finds *)
}.

Definition senvOf (e : renv) : senv := up (env_ e).
Definition envOf (e : renv) : env := base (senvOf e).
Definition nowOf (e : renv) : Z := now (envOf e).

(** An error whose text is in the answer. *)
Inductive failure :=
  | OfStore (e : storeError)
  | OfBackend (e : backendError)
  | OfUpload (e : uploadError)
  | OfPatch (e : patchError)
  | OfPath (e : pathError)
  | OfTag (e : tagError)
  | OfChecksums
  | OfBody.

Record statResult := {
  stSize : Z; stIsDir : bool; stRevision : option Z; stMtime : Z; stMode : option Z
}.

Record metaResult := {
  mdSize : Z; mdIsDir : bool; mdResourceID : string; mdRevision : Z; mdMtime : Z; mdContentType : string;
  mdSemanticText : string; mdTags : gmap string string
}.

(** [batchStatResult] and [batchReadSmallResult] *)
Record batchStatResult := {
  bsPath : string; bsStatus : Z; bsError : option failure; bsMessage : string; bsSize : Z; bsIsDir : bool;
  bsRevision : Z; bsMtime : Z; bsMode : Z; bsHasMode : bool
}.
Record batchReadSmallResult := {
  brPath : string; brStatus : Z; brError : option failure; brMessage : string; brData : string; brSize : Z;
  brRevision : Z; brMtime : Z
}.

Record listEntry := { leName : string; leSize : Z; leIsDir : bool; leMtime : Z; leMode : Z; leHasMode : bool }.

Inductive content :=
  | NoBody
  | Message (msg : string)
  | Failed (e : failure)
  | TooLargeFor (max : Z)
  | TooManyPaths (n max : Z)
  | InternalStorage
  | Aborted
  | StatusOK
  | Completed
  | Revised (revision : Z)
  | Bytes (data : string)
  | RedirectTo (key : string)
  | Entries (l : list listEntry)
  | StatHeaders (r : statResult)
  | Metadata (r : metaResult)
  | StatResults (l : list batchStatResult)
  | ReadResults (l : list batchReadSmallResult)
  | UploadPlan (u : Upload)
  | PatchPlanOf (p : PatchPlan)
  | AppendPlanOf (baseSize : Z) (p : PatchPlan)
  | UploadList (l : list Upload)
  | MissingParts (l : list (Z * Z))
  | SignedParts (l : list (Z * Z * string))
  | SearchResults (l : list string).

Record response := { code_ : Z; answer : content }.

Definition reply (s : srv) (n : Z) (c : content) : srv * response := (s, {| code_ := n; answer := c |}).
Definition errJSON (s : srv) (n : Z) (msg : string) : srv * response := reply s n (Message msg).
Definition failed (s : srv) (n : Z) (e : failure) : srv * response := reply s n (Failed e).
Definition errJSONInternalStorage (s : srv) : srv * response := reply s 500 InternalStorage.
(** A handler that panics: [net/http] closes the connection. *)
Definition aborted (s : srv) : srv * response := reply s 0 Aborted.

(** [publishEvent] *)
Definition publishEvent (s : srv) (e : renv) (r : request) (path op : string) : srv :=
  {| backendOf := backendOf s; busOf := EventBus.Publish (busOf s) path op (hGet r "X-Dat9-Actor") (nowOf e) |}.

(** [t.Unix()] of a time in nanoseconds. *)
Definition Unix (t : Z) : Z := t / 1000000000.

(** ** Errors *)

(** [errors.Is(err, datastore.ErrNotFound)] *)
Definition storeNotFound (e : storeError) : bool :=
  bool_decide (e = ErrNotFound) || bool_decide (e = ErrRowMissing).
Definition isNotFound (e : backendError) : bool := match e with Store e => storeNotFound e | _ => false end.
Definition isStore (x : storeError) (e : backendError) : bool :=
  match e with Store e => bool_decide (e = x) | _ => false end.
Definition isTooLarge (e : backendError) : bool := match e with ErrUploadTooLarge => true | _ => false end.
Definition isQuota : backendError -> bool := isStore ErrStorageQuotaExceeded.
Definition isConflict (e : backendError) : bool := isStore ErrUploadConflict e || isStore ErrRevisionConflict e.

(** ** Authorization *)

Definition writeFSAuthzError (s : srv) (e : authError) : srv * response :=
  match e with
  | ErrFSAccessDenied => errJSON s 403 "fs access denied"
  | ErrFSInvalidPath _ => errJSON s 400 "invalid fs path"
  end.

Definition isScoped (sc : scope) : bool :=
  match sc with Some {| limits := Some _ |} => true | _ => false end.

Definition defaultMode : Z := 493.
Definition MaxDescriptionLen : Z := 2000.

Section handlers.
Context (nfc typeByExtension toLower : string -> string) (cfg : config) (maxUpload : Z).

(** Go on if the request may, with an answer otherwise. *)
Definition authorizeFS (sc : scope) (s : srv) (op : FSOp) (rawPath : string) (k : srv * response) : srv * response :=
  match sc with
  | None => errJSON s 401 "missing tenant scope"
  | Some t => match AuthorizeFS nfc (limits t) op rawPath with
              | Some e => writeFSAuthzError s e
              | None => k
              end
  end.

Definition authorizeFSPair (sc : scope) (s : srv) (srcOp : FSOp) (srcPath : string) (dstOp : FSOp) (dstPath : string)
    (k : srv * response) : srv * response :=
  match sc with
  | None => errJSON s 401 "missing tenant scope"
  | Some t => match AuthorizeFSPair nfc (limits t) srcOp srcPath dstOp dstPath with
              | Some e => writeFSAuthzError s e
              | None => k
              end
  end.

(** [backendFromRequest] *)
Definition withBackend (sc : scope) (s : srv) (k : srv * response) : srv * response :=
  match sc with
  | Some {| hasBackend := true |} => k
  | _ => errJSON s 401 "missing tenant scope"
  end.

(** [authorizeUploadSession]: the upload is looked up for scoped tokens only. *)
Definition authorizeUploadSession (sc : scope) (s : srv) (uploadID : string) (op : FSOp)
    (k : option Upload -> srv * response) : srv * response :=
  match sc with
  | None => errJSON s 401 "missing tenant scope"
  | Some t =>
      match limits t with
      | None => k None
      | Some _ =>
          match GetUpload (store (backendOf s)) uploadID with
          | inr err => if storeNotFound err then errJSON s 404 "upload not found"
                       else errJSON s 500 "upload session lookup failed"
          | inl upload =>
              match AuthorizeFS nfc (limits t) op (TargetPath upload) with
              | Some e => writeFSAuthzError s e
              | None => k (Some upload)
              end
          end
      end
  end.

(** The denial of one path of a batch: its status and message. *)
Definition authorizeFSPathForBatch (sc : scope) (op : FSOp) (rawPath : string) : option (Z * string) :=
  match sc with
  | None => Some (401, "missing tenant scope")
  | Some t => match AuthorizeFS nfc (limits t) op rawPath with
              | None => None
              | Some ErrFSAccessDenied => Some (403, "fs access denied")
              | Some (ErrFSInvalidPath _) => Some (400, "invalid fs path")
              end
  end.

(** ** Reading *)

Definition handleRead (sc : scope) (s : srv) (e : renv) (path : string) : srv * response :=
  authorizeFS sc s FSOpRead path (withBackend sc s
    match ReadPlanCtx nfc cfg (store (backendOf s)) (presignGet e) path with
    | inr err => failed s (if isNotFound err then 404 else 500) (OfBackend err)
    | inl plan => match source plan with
                  | PresignURL key => reply s 302 (RedirectTo key)
                  | InlineData data => reply s 200 (Bytes data)
                  end
    end).

Definition listEntryOf (i : FileInfo) : listEntry :=
  {| leName := IName i; leSize := ISize i; leIsDir := IIsDir i; leMtime := Unix (IModTime i); leMode := IMode i;
     leHasMode := IHasMode i |}.

Definition handleList (sc : scope) (s : srv) (path : string) : srv * response :=
  authorizeFS sc s FSOpList path (withBackend sc s
    match ReadDirCtx nfc (store (backendOf s)) path with
    | inr err => failed s (if isNotFound err then 404 else 500) (OfBackend err)
    | inl l => reply s 200 (Entries (listEntryOf <$> l))
    end).

Definition nodeMtime (nf : NodeWithFile) : Z :=
  Unix (match NFile nf with Some f => fileMtime f | None => CreatedAt (Node nf) end).

Definition rootMetadata : metaResult :=
  {| mdSize := 0; mdIsDir := true; mdResourceID := ""; mdRevision := 0; mdMtime := 0; mdContentType := "";
     mdSemanticText := ""; mdTags := ∅ |}.

Definition metadataOf (d : db) (nf : NodeWithFile) : metaResult :=
  match NFile nf with
  | Some f => {| mdSize := SizeBytes f; mdIsDir := IsDirectory (Node nf); mdResourceID := FFileID f;
                 mdRevision := Revision f; mdMtime := nodeMtime nf; mdContentType := ContentType f;
                 mdSemanticText := ContentText f; mdTags := GetFileTags d (FFileID f) |}
  | None => {| mdSize := 0; mdIsDir := IsDirectory (Node nf); mdResourceID := NodeID (Node nf); mdRevision := 0;
               mdMtime := nodeMtime nf; mdContentType := ""; mdSemanticText := ""; mdTags := ∅ |}
  end.

Definition handleStatMetadata (sc : scope) (s : srv) (path : string) : srv * response :=
  authorizeFS sc s FSOpRead path (withBackend sc s
    (if bool_decide (path = "/") then reply s 200 (Metadata rootMetadata)
     else match StatNodeCtx nfc (store (backendOf s)) path with
          | inr err => failed s (if storeNotFound err then 404 else 500) (OfStore err)
          | inl nf => reply s 200 (Metadata (metadataOf (store (backendOf s)) nf))
          end)).

(** [handleStat] answers in headers. *)
Definition statOf (nf : NodeWithFile) : statResult :=
  {| stSize := match NFile nf with Some f => SizeBytes f | None => 0 end; stIsDir := IsDirectory (Node nf);
     stRevision := Revision <$> NFile nf; stMtime := nodeMtime nf;
     stMode := if HasMode nf then Some (NMode nf) else None |}.

Definition handleStat (sc : scope) (s : srv) (path : string) : srv * response :=
  authorizeFS sc s FSOpRead path
    match sc with
    | Some {| hasBackend := true |} =>
        if bool_decide (path = "/")
        then reply s 200 (StatHeaders {| stSize := 0; stIsDir := true; stRevision := None; stMtime := 0; stMode := None |})
        else match StatNodeLiteCtx nfc (store (backendOf s)) path with
             | inr err => reply s (if storeNotFound err then 404 else 500) NoBody
             | inl nf => reply s 200 (StatHeaders (statOf nf))
             end
    | _ => reply s 401 NoBody
    end.

(** ** Batches *)

Definition maxBatchStatPaths : Z := 256.
Definition maxBatchReadSmallPaths : Z := 128.
Definition maxBatchReadSmallBytes : Z := 50000.

Definition validateBatchStatPath (rawPath : string) : option pathError :=
  match (if IsDir rawPath then CanonicalizeDir nfc rawPath else Canonicalize nfc rawPath) with
  | inl _ => None
  | inr err => Some err
  end.

Definition statDenied (path : string) (n : Z) (err : option failure) (msg : string) : batchStatResult :=
  {| bsPath := path; bsStatus := n; bsError := err; bsMessage := msg; bsSize := 0; bsIsDir := false; bsRevision := 0;
     bsMtime := 0; bsMode := 0; bsHasMode := false |}.

Definition batchStatOne (d : db) (rawPath : string) : batchStatResult :=
  let path := if bool_decide (rawPath = "") then "/" else rawPath in
  match validateBatchStatPath path with
  | Some err => statDenied rawPath 400 (Some (OfPath err)) ""
  | None =>
      if bool_decide (path = "/")
      then {| bsPath := rawPath; bsStatus := 200; bsError := None; bsMessage := ""; bsSize := 0; bsIsDir := true;
              bsRevision := 0; bsMtime := 0; bsMode := 0; bsHasMode := false |}
      else match StatNodeLiteCtx nfc d path with
           | inr err => statDenied rawPath (if storeNotFound err then 404 else 500) (Some (OfStore err)) ""
           | inl nf =>
               {| bsPath := rawPath; bsStatus := 200; bsError := None; bsMessage := "";
                  bsSize := match NFile nf with Some f => SizeBytes f | None => 0 end;
                  bsIsDir := IsDirectory (Node nf);
                  bsRevision := match NFile nf with Some f => Revision f | None => 0 end;
                  bsMtime := nodeMtime nf; bsMode := NMode nf; bsHasMode := HasMode nf |}
           end
  end.

Definition handleBatchStat (sc : scope) (s : srv) (e : renv) (r : request) : srv * response :=
  if negb (bool_decide (Method r = "POST")) then errJSON s 405 "method not allowed"
  else withBackend sc s
    match decodeLimited batchStatFields {| bsPaths := nilSlice |} (cutOff e) (Body r) with
    | inr _ => errJSON s 400 "invalid JSON"
    | inl req =>
        let paths := elems (bsPaths req) in
        if maxBatchStatPaths <? zlen paths then reply s 400 (TooManyPaths (zlen paths) maxBatchStatPaths)
        else reply s 200 (StatResults ((fun p =>
               match authorizeFSPathForBatch sc FSOpRead p with
               | Some (n, msg) => statDenied p n None msg
               | None => batchStatOne (store (backendOf s)) p
               end) <$> paths))
    end.

Definition readDenied (path : string) (n : Z) (err : option failure) (msg : string) : batchReadSmallResult :=
  {| brPath := path; brStatus := n; brError := err; brMessage := msg; brData := ""; brSize := 0; brRevision := 0;
     brMtime := 0 |}.

Definition batchReadSmallOne (d : db) (rawPath : string) (maxBytes : Z) : batchReadSmallResult :=
  match validateBatchStatPath rawPath with
  | Some err => readDenied rawPath 400 (Some (OfPath err)) ""
  | None =>
      match ReadInlinePlanCtx nfc d rawPath with
      | inr ErrNotInlineStorage => readDenied rawPath 413 None "file is not available for inline read"
      | inr (ReadError err) => readDenied rawPath (if isNotFound err then 404 else 500) (Some (OfBackend err)) ""
      | inl plan =>
          let data := match source plan with InlineData data => data | PresignURL _ => "" end in
          if (maxBytes <? RSize plan) || (maxBytes <? slen data)
          then readDenied rawPath 413 None "file exceeds batch read-small limit"
          else {| brPath := rawPath; brStatus := 200; brError := None; brMessage := ""; brData := data;
                  brSize := RSize plan; brRevision := RRevision plan; brMtime := Unix (RMtime plan) |}
      end
  end.

Definition handleBatchReadSmall (sc : scope) (s : srv) (e : renv) (r : request) : srv * response :=
  if negb (bool_decide (Method r = "POST")) then errJSON s 405 "method not allowed"
  else withBackend sc s
    match decodeLimited batchReadFields {| brPaths := nilSlice; brMaxBytes := 0 |} (cutOff e) (Body r) with
    | inr _ => errJSON s 400 "invalid JSON"
    | inl req =>
        let paths := elems (brPaths req) in
        if maxBatchReadSmallPaths <? zlen paths then reply s 400 (TooManyPaths (zlen paths) maxBatchReadSmallPaths)
        else
          let maxBytes := if (brMaxBytes req <=? 0) || (maxBatchReadSmallBytes <? brMaxBytes req)
                          then maxBatchReadSmallBytes else brMaxBytes req in
          reply s 200 (ReadResults ((fun p =>
            match authorizeFSPathForBatch sc FSOpRead p with
            | Some (n, msg) => readDenied p n None msg
            | None => batchReadSmallOne (store (backendOf s)) p maxBytes
            end) <$> paths))
    end.

(** ** Searching *)

Definition handleGrep (sc : scope) (s : srv) (e : renv) (r : request) (path : string) : srv * response :=
  authorizeFS sc s FSOpSearch path (withBackend sc s
    (if bool_decide (qGet (Query r) "grep" = "") then errJSON s 400 "empty grep query"
     else if negb (bool_decide (qGet (Query r) "limit" = "")) && bool_decide (ParseInt (qGet (Query r) "limit") = None)
     then errJSON s 400 "invalid limit"
     else match searchResult e with
          | None => errJSON s 500 "search failed"
          | Some l => reply s 200 (SearchResults l)
          end)).

(** A number in the query that is not one. *)
Definition badNumber (r : request) (k : string) : bool :=
  negb (bool_decide (qGet (Query r) k = "")) && bool_decide (ParseInt (qGet (Query r) k) = None).

Definition handleFind (sc : scope) (s : srv) (e : renv) (r : request) (dateOK : string -> bool) (path : string)
    : srv * response :=
  let badDate k := negb (bool_decide (qGet (Query r) k = "")) && negb (dateOK (qGet (Query r) k)) in
  authorizeFS sc s FSOpSearch path (withBackend sc s
    (if badDate "newer" then errJSON s 400 "invalid newer date"
     else if badDate "older" then errJSON s 400 "invalid older date"
     else if badNumber r "minsize" then errJSON s 400 "invalid minsize"
     else if badNumber r "maxsize" then errJSON s 400 "invalid maxsize"
     else if badNumber r "limit" then errJSON s 400 "invalid limit"
     else match searchResult e with
          | None => errJSON s 500 "search failed"
          | Some l => reply s 200 (SearchResults l)
          end)).

(** ** Writing *)

Definition IsLargeFile (size : Z) : bool := s3 cfg && (inlineThreshold cfg <=? size).

(** The answer to an upload that was not initiated. *)
Definition initiateFailed (s : srv) (err : uploadError) : srv * response :=
  match err with
  | Base e =>
      if isTooLarge e then failed s 413 (OfUpload err)
      else if isQuota e then failed s 507 (OfUpload err)
      else if isConflict e then failed s 409 (OfUpload err)
      else errJSONInternalStorage s
  | ErrChecksumCount => failed s 400 (OfUpload err)
  | ErrPanic => aborted s
  | _ => errJSONInternalStorage s
  end.

Definition putFlags : writeFlags := {| flagCreate := true; flagExclusive := false; flagAppend := false; flagTruncate := true |}.

(** The length a write declares. *)
Definition declaredLength (r : request) : Z + string :=
  let h := hGet r "X-Dat9-Content-Length" in
  if bool_decide (h = "") then inl (ContentLength r)
  else match ParseInt h with
       | None => inr "invalid X-Dat9-Content-Length"
       | Some parsed =>
           if parsed <? 0 then inr "invalid X-Dat9-Content-Length"
           else if (0 <? ContentLength r) && (0 <? parsed) && negb (ContentLength r =? parsed)
           then inr "Content-Length and X-Dat9-Content-Length mismatch"
           else inl parsed
       end.

Definition largeWrite (s : srv) (e : renv) (r : request) (path : string) (cl expectedRevision : Z)
    (writeTags : option (gmap string string)) : srv * response :=
  if bool_decide (default ∅ writeTags <> ∅)
  then errJSON s 400 "X-Dat9-Tag is not supported on large-file PUT initiate; send tags in upload complete request"
  else match parsePartChecksumsHeader (hGet r "X-Dat9-Part-Checksums") with
       | None => failed s 400 OfChecksums
       | Some [] => errJSON s 400 "missing X-Dat9-Part-Checksums header"
       | Some partChecksums =>
           let description := hGet r "X-Dat9-Description" in
           if MaxDescriptionLen <? runeCount description then errJSON s 400 "description exceeds 2000 characters"
           else match InitiateUpload nfc cfg (backendOf s) (senvOf e) path cl partChecksums expectedRevision description with
                | (b, inr err) => initiateFailed (set_backend b s) err
                | (b, inl u) => reply (set_backend b s) 202 (UploadPlan u)
                end
       end.

Definition smallWrite (s : srv) (e : renv) (r : request) (path : string) (expectedRevision : Z)
    (writeTags : option (gmap string string)) : srv * response :=
  if maxUpload <? slen (Body r) then reply s 413 (TooLargeFor maxUpload)
  else
    let description := hGet r "X-Dat9-Description" in
    if MaxDescriptionLen <? runeCount description then errJSON s 400 "description exceeds 2000 characters"
    else match WriteCtx nfc typeByExtension toLower cfg (backendOf s) (envOf e) path (Body r) 0 putFlags expectedRevision writeTags
                 description with
         | (b, inr err) =>
             let s := set_backend b s in
             if isTooLarge err then failed s 413 (OfBackend err)
             else if isQuota err then failed s 507 (OfBackend err)
             else if isStore ErrRevisionConflict err then failed s 409 (OfBackend err)
             else errJSONInternalStorage s
         | (b, inl (_, committedRevision)) =>
             reply (publishEvent (set_backend b s) e r path "write") 200 (Revised committedRevision)
         end.

Definition handleWrite (sc : scope) (s : srv) (e : renv) (r : request) (path : string) : srv * response :=
  authorizeFS sc s FSOpWrite path (withBackend sc s
    match parseExpectedRevisionHeader (hGet r "X-Dat9-Expected-Revision") with
    | None => errJSON s 400 "invalid X-Dat9-Expected-Revision header"
    | Some expectedRevision =>
        match parseWriteTagsHeader r with
        | inr err => failed s 400 (OfTag err)
        | inl writeTags =>
            match declaredLength r with
            | inr msg => errJSON s 400 msg
            | inl cl =>
                if maxUpload <? cl then reply s 413 (TooLargeFor maxUpload)
                else if (0 <? cl) && IsLargeFile cl then largeWrite s e r path cl expectedRevision writeTags
                else smallWrite s e r path expectedRevision writeTags
            end
        end
    end).

(** ** Patches *)

Definition patchFailed (s : srv) (err : patchError) : srv * response :=
  match err with
  | Up (Base e) =>
      if isTooLarge e then failed s 413 (OfPatch err)
      else if isQuota e then failed s 507 (OfPatch err)
      else if isConflict e then failed s 409 (OfPatch err)
      else if isNotFound e then failed s 404 (OfPatch err)
      else match e with ErrNoS3 => failed s 400 (OfPatch err) | _ => errJSONInternalStorage s end
  | ErrNotS3Stored => failed s 400 (OfPatch err)
  | Up ErrPanic => aborted s
  | _ => errJSONInternalStorage s
  end.

Definition negative (x : option Z) : bool := match x with Some x => x <? 0 | None => false end.

Definition handlePatch (sc : scope) (s : srv) (e : renv) (r : request) (path : string) : srv * response :=
  authorizeFS sc s FSOpWrite path (withBackend sc s
    match decodeBody patchFields zeroPatch (Body r) with
    | None => failed s 400 OfBody
    | Some req =>
        if paNewSize req <=? 0 then errJSON s 400 "new_size must be positive"
        else if bool_decide (items (paDirty req) = []) then errJSON s 400 "dirty_parts must not be empty"
        else if maxUpload <? paNewSize req then reply s 413 (TooLargeFor maxUpload)
        else if negative (paExpected req) then errJSON s 400 "expected_revision must be >= 0"
        else match InitiatePatchUpload nfc cfg (backendOf s) (env_ e) path (paNewSize req) (items (paDirty req)) (paPartSize req)
                     (default (-1) (paExpected req)) with
             | (b, inr err) => patchFailed (set_backend b s) err
             | (b, inl plan) => reply (set_backend b s) 202 (PatchPlanOf plan)
             end
    end).

Definition handleAppend (sc : scope) (s : srv) (e : renv) (r : request) (path : string) : srv * response :=
  authorizeFS sc s FSOpWrite path (withBackend sc s
    match decodeLimited appendFields zeroAppend (cutOff e) (Body r) with
    | inr _ => failed s 400 OfBody
    | inl req =>
        if apSize req <=? 0 then errJSON s 400 "append_size must be positive"
        else if negative (apExpected req) then errJSON s 400 "expected_revision must be >= 0"
        else match InitiateAppendUpload nfc cfg (backendOf s) (env_ e) path (apSize req) (apPartSize req)
                     (default (-1) (apExpected req)) with
             | (b, inr err) => patchFailed (set_backend b s) err
             | (b, inl (baseSize, plan)) => reply (set_backend b s) 202 (AppendPlanOf baseSize plan)
             end
    end).

(** ** Names *)

(** The call that a deletion asks for. *)
Definition removal (s : srv) (e : renv) (r : request) (path : string) : option (backend * (unit + backendError)) :=
  let kind := qGet (Query r) "kind" in
  if qHas (Query r) "recursive" then Some (RemoveAllCtx nfc (backendOf s) path (nowOf e))
  else if bool_decide (kind = "") then Some (RemoveCtx nfc (backendOf s) path (nowOf e))
  else if bool_decide (kind = "file") then Some (RemoveFileCtx nfc (backendOf s) path (nowOf e))
  else if bool_decide (kind = "dir") then Some (RemoveDirCtx nfc (backendOf s) path)
  else None.

Definition handleDelete (sc : scope) (s : srv) (e : renv) (r : request) (path : string) : srv * response :=
  authorizeFS sc s FSOpDelete path (withBackend sc s
    match removal s e r path with
    | None => errJSON s 400 "invalid delete kind"
    | Some (b, inr err) => failed (set_backend b s) (if isNotFound err then 404 else 500) (OfBackend err)
    | Some (b, inl _) => reply (publishEvent (set_backend b s) e r path "delete") 200 StatusOK
    end).

Definition handleCopy (sc : scope) (s : srv) (e : renv) (r : request) (dstPath : string) : srv * response :=
  let srcPath := hGet r "X-Dat9-Copy-Source" in
  if bool_decide (srcPath = "") then errJSON s 400 "missing X-Dat9-Copy-Source header"
  else authorizeFSPair sc s FSOpRead srcPath FSOpWrite dstPath (withBackend sc s
    match CopyFileCtx nfc (backendOf s) srcPath dstPath (newNodeID (envOf e)) (nowOf e) with
    | (b, inr err) => failed (set_backend b s) (if isNotFound err then 404 else 500) (OfBackend err)
    | (b, inl _) => reply (publishEvent (set_backend b s) e r dstPath "copy") 200 StatusOK
    end).

Definition handleRename (sc : scope) (s : srv) (e : renv) (r : request) (newPath : string) : srv * response :=
  let oldPath := hGet r "X-Dat9-Rename-Source" in
  if bool_decide (oldPath = "") then errJSON s 400 "missing X-Dat9-Rename-Source header"
  else authorizeFSPair sc s FSOpDelete oldPath FSOpWrite newPath (withBackend sc s
    match RenameCtx nfc (backendOf s) oldPath newPath (nowOf e) with
    | (b, inr err) =>
        failed (set_backend b s) (if isNotFound err then 404 else if isStore ErrPathConflict err then 409 else 500) (OfBackend err)
    | (b, inl _) => reply (publishEvent (set_backend b s) e r newPath "rename") 200 StatusOK
    end).

Definition handleMkdir (sc : scope) (s : srv) (e : renv) (r : request) (path : string) : srv * response :=
  authorizeFS sc s FSOpWrite path (withBackend sc s
    (let mode := default defaultMode (ParseUint32 (qGet (Query r) "mode")) in
     match MkdirCtx nfc (backendOf s) path mode (newInodeID e) (newNodeID (envOf e)) (nowOf e) with
     | (b, inr err) => failed (set_backend b s) (if isStore ErrPathConflict err then 409 else 500) (OfBackend err)
     | (b, inl _) => reply (publishEvent (set_backend b s) e r path "mkdir") 200 StatusOK
     end)).

Definition handleChmod (sc : scope) (s : srv) (r : request) (path : string) : srv * response :=
  if isScoped sc then errJSON s 403 "chmod is owner-only"
  else withBackend sc s
    match decodeBody chmodFields {| chMode := 0 |} (Body r) with
    | None => failed s 400 OfBody
    | Some req =>
        match ChmodCtx nfc (backendOf s) path (chMode req) with
        | (b, inr err) => if isNotFound err then errJSON (set_backend b s) 404 "not found"
                          else failed (set_backend b s) 500 (OfBackend err)
        | (b, inl _) => reply (set_backend b s) 200 StatusOK
        end
    end.

Definition handleCreate (sc : scope) (s : srv) (e : renv) (r : request) (path : string) : srv * response :=
  authorizeFS sc s FSOpWrite path (withBackend sc s
    match CreateCtx nfc cfg (backendOf s) path (newFileID (envOf e)) (newNodeID (envOf e)) (putOK (envOf e)) (nowOf e) with
    | (b, inr err) => failed (set_backend b s) (if isStore ErrPathConflict err then 409 else 500) (OfBackend err)
    | (b, inl _) => reply (publishEvent (set_backend b s) e r path "create") 200 (Revised 1)
    end).

(** ** Uploads *)

Definition uploadStatusOf (s : string) : option UploadStatus :=
  if bool_decide (s = "INITIATED") then Some UploadInitiated
  else if bool_decide (s = "UPLOADING") then Some UploadUploading
  else if bool_decide (s = "COMPLETED") then Some UploadCompleted
  else if bool_decide (s = "ABORTED") then Some UploadAborted
  else if bool_decide (s = "EXPIRED") then Some UploadExpired
  else None.

(** The checks that both initiations share, after the body has been read. *)
Definition initiateChecked (sc : scope) (s : srv) (req : initiateReq) (k : Z -> srv * response) : srv * response :=
  if bool_decide (TrimSpace (inPath req) = "") then errJSON s 400 "missing path"
  else authorizeFS sc s FSOpWrite (inPath req)
    (if inSize req <=? 0 then errJSON s 400 "total_size must be positive"
     else if maxUpload <? inSize req then reply s 413 (TooLargeFor maxUpload)
     else if negative (inExpected req) then errJSON s 400 "expected_revision must be >= 0"
     else k (default (-1) (inExpected req))).

Definition bodyFailed (s : srv) (err : bodyError) : srv * response :=
  match err with
  | BodyTooLarge => errJSON s 413 "request body too large"
  | BadBody => failed s 400 OfBody
  end.

Definition handleUploadInitiate (sc : scope) (s : srv) (e : renv) (r : request) : srv * response :=
  match decodeLimited initiateFields zeroInitiate (cutOff e) (Body r) with
  | inr err => bodyFailed s err
  | inl req =>
      initiateChecked sc s req (fun expectedRevision =>
        match validatePartChecksums (elems (inSums req)) with
        | None => failed s 400 OfChecksums
        | Some [] => errJSON s 400 "missing part_checksums"
        | Some partChecksums =>
            if MaxDescriptionLen <? runeCount (inDescription req) then errJSON s 400 "description exceeds 2000 characters"
            else match InitiateUpload nfc cfg (backendOf s) (senvOf e) (inPath req) (inSize req) partChecksums expectedRevision
                         (inDescription req) with
                 | (b, inr err) => initiateFailed (set_backend b s) err
                 | (b, inl u) => reply (set_backend b s) 202 (UploadPlan u)
                 end
        end)
  end.

Definition handleUploads (sc : scope) (s : srv) (e : renv) (r : request) : srv * response :=
  withBackend sc s
    (if bool_decide (Method r = "POST") then handleUploadInitiate sc s e r
     else if negb (bool_decide (Method r = "GET")) then errJSON s 405 "method not allowed"
     else
       let path := qGet (Query r) "path" in
       if bool_decide (path = "") then errJSON s 400 "missing path parameter"
       else authorizeFS sc s FSOpList path
         (let st := qGet (Query r) "status" in
          match ListUploads nfc (store (backendOf s)) path (default UploadUploading (uploadStatusOf st)) with
          | inr err => failed s 500 (OfBackend err)
          | inl l => reply s 200 (UploadList (if bool_decide (st = "") || bool_decide (is_Some (uploadStatusOf st)) then l else []))
          end)).

(** [parseUploadCompleteTags]: an empty body has no tags. *)
Definition parseUploadCompleteTags (e : renv) (body : string) : option (gmap string string) + failure :=
  if bool_decide (Json.skipSpace (limitedBody body) = "") && negb (overLimit body) then inl None
  else match decodeLimited completeFields {| coTags := None |} (cutOff e) body with
       | inr _ => inr OfBody
       | inl req => match ValidateMap (default ∅ (coTags req)) with
                    | Some err => inr (OfTag err)
                    | None => inl (coTags req)
                    end
       end.

Definition completeFailed (s : srv) (err : uploadError) : srv * response :=
  match err with
  | Base x =>
      if isNotFound x then failed s 404 (OfUpload err)
      else if isStore ErrUploadNotActive x || isStore ErrPathConflict x || isStore ErrRevisionConflict x
      then failed s 409 (OfUpload err)
      else errJSONInternalStorage s
  | ErrClientProtocol => failed s 400 (OfUpload err)
  | _ => errJSONInternalStorage s
  end.

Definition handleUploadComplete (sc : scope) (s : srv) (e : renv) (r : request) (uploadID : string) : srv * response :=
  withBackend sc s (authorizeUploadSession sc s uploadID FSOpWrite (fun upload =>
    match (match upload with Some u => inl u | None => GetUpload (store (backendOf s)) uploadID end) with
    | inr err => if storeNotFound err then failed s 404 (OfStore err) else errJSONInternalStorage s
    | inl upload =>
        match parseUploadCompleteTags e (Body r) with
        | inr err => failed s 400 err
        | inl tags =>
            match ConfirmUpload typeByExtension toLower cfg (backendOf s) (senvOf e) uploadID tags with
            | (b, inr err) => completeFailed (set_backend b s) err
            | (b, inl _) => reply (publishEvent (set_backend b s) e r (TargetPath upload) "upload_complete") 200 StatusOK
            end
        end
    end)).

(** [parseResumePartChecksums]: the checksums, or the status and body of the answer. *)
Definition parseResumePartChecksums (e : renv) (r : request) : list string + (Z * content) :=
  if HasPrefix (toLower (TrimSpace (hGet r "Content-Type"))) "application/json" then
    match decodeLimited resumeFields {| reSums := nilSlice |} (cutOff e) (Body r) with
    | inr BodyTooLarge => inr (413, Message "request body too large")
    | inr BadBody => inr (400, Failed OfBody)
    | inl req => match validatePartChecksums (elems (reSums req)) with
                 | None => inr (400, Failed OfChecksums)
                 | Some [] => inr (400, Message "missing part_checksums")
                 | Some l => inl l
                 end
    end
  else match parsePartChecksumsHeader (hGet r "X-Dat9-Part-Checksums") with
       | None => inr (400, Failed OfChecksums)
       | Some [] => inr (400, Message "missing X-Dat9-Part-Checksums header")
       | Some l => inl l
       end.

Definition handleUploadResume (sc : scope) (s : srv) (e : renv) (r : request) (uploadID : string) : srv * response :=
  withBackend sc s (authorizeUploadSession sc s uploadID FSOpWrite (fun _ =>
    match parseResumePartChecksums e r with
    | inr (n, c) => reply s n c
    | inl partChecksums =>
        match ResumeUpload (backendOf s) (senvOf e) uploadID partChecksums with
        | (b, inl missing) => reply (set_backend b s) 200 (MissingParts missing)
        | (b, inr err) =>
            let s := set_backend b s in
            match err with
            | ErrChecksumCount => failed s 400 (OfUpload err)
            | ErrUploadExpired => failed s 410 (OfUpload err)
            | Base x => if isNotFound x then failed s 404 (OfUpload err)
                        else if isStore ErrUploadNotActive x then failed s 409 (OfUpload err)
                        else errJSONInternalStorage s
            | _ => errJSONInternalStorage s
            end
        end
    end)).

Definition handleUploadAbort (sc : scope) (s : srv) (e : renv) (uploadID : string) : srv * response :=
  withBackend sc s (authorizeUploadSession sc s uploadID FSOpDelete (fun _ =>
    match AbortUpload (backendOf s) (senvOf e) uploadID with
    | (b, inl _) => reply (set_backend b s) 200 StatusOK
    | (b, inr err) => match err with
                      | Base x => if isNotFound x then failed (set_backend b s) 404 (OfUpload err)
                                  else errJSONInternalStorage (set_backend b s)
                      | _ => errJSONInternalStorage (set_backend b s)
                      end
    end)).

Definition handleUploadAction (sc : scope) (s : srv) (e : renv) (r : request) : srv * response :=
  let '(uploadID, action) := idAction (TrimPrefix (URLPath r) "/v1/uploads/") in
  if bool_decide (uploadID = "") then errJSON s 400 "missing upload ID"
  else if bool_decide (Method r = "POST") && HasPrefix action "complete" then handleUploadComplete sc s e r uploadID
  else if (bool_decide (Method r = "POST") || bool_decide (Method r = "GET")) && HasPrefix action "resume"
  then handleUploadResume sc s e r uploadID
  else if bool_decide (Method r = "DELETE") && bool_decide (action = "") then handleUploadAbort sc s e uploadID
  else errJSON s 400 "unknown upload action".

(** ** Uploads, version 2 *)

Definition handleV2UploadInitiate (sc : scope) (s : srv) (e : renv) (r : request) : srv * response :=
  withBackend sc s
    match decodeLimited initiateV2Fields zeroInitiate (cutOff e) (Body r) with
    | inr err => bodyFailed s err
    | inl req =>
        initiateChecked sc s req (fun expectedRevision =>
          if MaxDescriptionLen <? runeCount (inDescription req) then errJSON s 400 "description exceeds 2000 characters"
          else match InitiateUploadV2 nfc cfg (backendOf s) (senvOf e) (inPath req) (inSize req) expectedRevision
                       (inDescription req) with
               | (b, inr err) => initiateFailed (set_backend b s) err
               | (b, inl u) => reply (set_backend b s) 202 (UploadPlan u)
               end)
    end.

(** The answer to a part that was not signed. *)
Definition presignFailed (s : srv) (err : uploadError) : srv * response :=
  match err with
  | Base x => if isNotFound x then errJSON s 404 "upload not found"
              else if isStore ErrUploadNotActive x then errJSON s 409 "upload is not active"
              else errJSONInternalStorage s
  | ErrUploadExpired => errJSON s 410 "upload expired"
  | ErrClientProtocol | ErrUnsupportedAlgorithm => failed s 400 (OfUpload err)
  | _ => errJSONInternalStorage s
  end.

Definition handleV2PresignPart (sc : scope) (s : srv) (e : renv) (r : request) (uploadID : string) : srv * response :=
  withBackend sc s (authorizeUploadSession sc s uploadID FSOpWrite (fun _ =>
    match decodeLimited partEntryFields (0, None) (cutOff e) (Body r) with
    | inr _ => failed s 400 OfBody
    | inl entry =>
        if fst entry <? 1 then errJSON s 400 "part_number must be >= 1"
        else match PresignPart (backendOf s) (senvOf e) uploadID entry with
             | (b, inr err) => presignFailed (set_backend b s) err
             | (b, inl u) => reply (set_backend b s) 200 (SignedParts [u])
             end
    end)).

Definition handleV2PresignBatch (sc : scope) (s : srv) (e : renv) (r : request) (uploadID : string) : srv * response :=
  withBackend sc s (authorizeUploadSession sc s uploadID FSOpWrite (fun _ =>
    match decodeLimited presignBatchFields {| pbParts := noSlice |} (cutOff e) (Body r) with
    | inr _ => failed s 400 OfBody
    | inl req =>
        if bool_decide (items (pbParts req) = []) then errJSON s 400 "parts must not be empty"
        else match PresignParts (backendOf s) (senvOf e) uploadID (items (pbParts req)) with
             | (b, inr err) => presignFailed (set_backend b s) err
             | (b, inl l) => reply (set_backend b s) 200 (SignedParts l)
             end
    end)).

Definition completeV2Failed (s : srv) (err : uploadError) : srv * response :=
  match err with
  | Base x => if isNotFound x then errJSON s 404 "upload not found"
              else if isStore ErrUploadNotActive x then errJSON s 409 "upload is not active"
              else if isStore ErrPathConflict x || isStore ErrRevisionConflict x then failed s 409 (OfUpload err)
              else errJSONInternalStorage s
  | ErrUploadExpired => errJSON s 410 "upload expired"
  | ErrClientProtocol => failed s 400 (OfUpload err)
  | _ => errJSONInternalStorage s
  end.

Definition handleV2UploadComplete (sc : scope) (s : srv) (e : renv) (r : request) (uploadID : string) : srv * response :=
  withBackend sc s (authorizeUploadSession sc s uploadID FSOpWrite (fun _ =>
    match decodeLimited completeV2Fields {| cvParts := noSlice; cvTags := None |} (cutOff e) (Body r) with
    | inr _ => failed s 400 OfBody
    | inl req =>
        if bool_decide (items (cvParts req) = []) then errJSON s 400 "parts must not be empty"
        else match ValidateMap (default ∅ (cvTags req)) with
        | Some err => failed s 400 (OfTag err)
        | None =>
            match GetUpload (store (backendOf s)) uploadID with
            | inr err => if storeNotFound err then errJSON s 404 "upload not found" else errJSONInternalStorage s
            | inl upload =>
                match ConfirmUploadV2 typeByExtension toLower cfg (backendOf s) (senvOf e) uploadID (items (cvParts req))
                        (cvTags req) with
                | (b, inr err) => completeV2Failed (set_backend b s) err
                | (b, inl _) => reply (publishEvent (set_backend b s) e r (TargetPath upload) "upload_complete") 200 Completed
                end
            end
        end
    end)).

Definition handleV2UploadAbort (sc : scope) (s : srv) (e : renv) (uploadID : string) : srv * response :=
  withBackend sc s (authorizeUploadSession sc s uploadID FSOpDelete (fun _ =>
    reply (set_backend (AbortUploadV2 (backendOf s) (senvOf e) uploadID) s) 200 StatusOK)).

Definition handleV2Uploads (sc : scope) (s : srv) (e : renv) (r : request) : srv * response :=
  let '(seg0, action) := idAction (TrimPrefix (URLPath r) "/v2/uploads/") in
  let post := bool_decide (Method r = "POST") in
  let act a := negb (bool_decide (seg0 = "")) && bool_decide (action = a) && post in
  if bool_decide (seg0 = "initiate") && post then handleV2UploadInitiate sc s e r
  else if act "presign" then handleV2PresignPart sc s e r seg0
  else if act "presign-batch" then handleV2PresignBatch sc s e r seg0
  else if act "complete" then handleV2UploadComplete sc s e r seg0
  else if act "abort" then handleV2UploadAbort sc s e seg0
  else errJSON s 404 "not found".

(** ** Routes *)

Context (dateOK : string -> bool).

Definition handleFS (sc : scope) (s : srv) (e : renv) (r : request) : srv * response :=
  let path := TrimPrefix (URLPath r) "/v1/fs" in
  let path := if bool_decide (path = "") then "/" else path in
  let q := qHas (Query r) in
  if bool_decide (Method r = "GET") then
    if q "stat" then handleStatMetadata sc s path
    else if q "grep" then handleGrep sc s e r path
    else if q "find" then handleFind sc s e r dateOK path
    else if q "list" then handleList sc s path
    else handleRead sc s e path
  else if bool_decide (Method r = "PUT") then handleWrite sc s e r path
  else if bool_decide (Method r = "HEAD") then handleStat sc s path
  else if bool_decide (Method r = "DELETE") then handleDelete sc s e r path
  else if bool_decide (Method r = "PATCH") then handlePatch sc s e r path
  else if bool_decide (Method r = "POST") then
    if q "append" then handleAppend sc s e r path
    else if q "copy" then handleCopy sc s e r path
    else if q "rename" then handleRename sc s e r path
    else if q "mkdir" then handleMkdir sc s e r path
    else if q "chmod" then handleChmod sc s r path
    else if q "create" then handleCreate sc s e r path
    else errJSON s 400 "unknown POST action"
  else errJSON s 405 "method not allowed".

(** [handleBusiness]; [None] for the routes of other components. *)
Definition otherRoute (p : string) : bool :=
  bool_decide (p ∈ ["/v1/tokens"; "/v1/fork"; "/v1/sql"; "/v1/events"; "/v1/journals"; "/v1/journal-entries"])
  || existsb (HasPrefix p) ["/v1/tokens/"; "/v1/journals/"; "/v1/vault/secrets"; "/v1/vault/tokens"; "/v1/vault/grants";
                            "/v1/vault/audit"].

Definition handleBusiness (sc : scope) (s : srv) (e : renv) (r : request) : option (srv * response) :=
  let p := URLPath r in
  if isScoped sc && negb (isScopedBusinessRequestAllowed r)
  then Some (errJSON s 403 "scoped token cannot access endpoint")
  else if bool_decide (p = "/v1/fs:batch-stat") then Some (handleBatchStat sc s e r)
  else if bool_decide (p = "/v1/fs:batch-read-small") then Some (handleBatchReadSmall sc s e r)
  else if HasPrefix p "/v1/fs/" then Some (handleFS sc s e r)
  else if bool_decide (p = "/v1/uploads/initiate") || bool_decide (p = "/v1/uploads") then Some (handleUploads sc s e r)
  else if HasPrefix p "/v1/uploads/" then Some (handleUploadAction sc s e r)
  else if HasPrefix p "/v2/uploads/" then Some (handleV2Uploads sc s e r)
  else if otherRoute p then None
  else Some (errJSON s 404 "not found").

End handlers.

End FileServer.
