(* ===== verification/Confine.v ===== *)
(** * What a call can reach

    A call on a path changes names at and below that path only, and the bytes of no file
    whose names all lie elsewhere.  Names are the entries of files; directories that a
    call creates on the way are no names. *)

From Stdlib Require Import Strings.Ascii.
From S2P Require Import Prelude GoStrings PathUtil Json Sha256 SemanticQueue FileGCQueue FileStore FileRules FileSafety.
From S2P Require Import Media Backend BackendSafety BackendContent Uploads UploadSafety FileGCWorker ObjectSafety UploadObjects.
From S2P Require Import BackendPlans StoreHistory Namespace PlanProps FsAuth.

Import GoStr Paths FileStore FileRules FileSafety Media Backend BackendSafety Content Uploads UploadSafety ObjectSafety.
Import Plans StoreHistory Namespace PlanProps FsAuth.

Module Confine.

#[local] Arguments String.append !_ _ / : simpl nomatch.

(** ** Names *)

(** The names outside of [C] are the same. *)
Definition outside (C : string -> Prop) (d d' : db) : Prop :=
  forall q f, ~ C q -> (leads d' q f <-> leads d q f).

#[export] Instance outside_preorder C : PreOrder (outside C).
Proof.
  split; [by intros d q f _|]. intros d1 d2 d3 H1 H2 q f Hq. by rewrite (H2 q f Hq), (H1 q f Hq).
Qed.

Lemma outside_same C d d' : file_nodes d' = file_nodes d -> outside C d d'.
Proof. intros E q f _. unfold leads. by rewrite E. Qed.

Lemma outside_insert (C : string -> Prop) d id r :
  (forall r0, file_nodes d !! id = Some r0 -> C (path r0) \/ (path r0 = path r /\ file_id r0 = file_id r)
     \/ (file_id r0 = None /\ (C (path r) \/ file_id r = None))) ->
  (file_nodes d !! id = None -> C (path r) \/ file_id r = None) ->
  (forall r0, file_nodes d !! id = Some r0 -> C (path r0) -> C (path r) \/ file_id r = None) ->
  outside C d (set_nodes (<[id := r]> (file_nodes d)) d).
Proof.
  intros Hold Hnew Hin q f Hq. unfold leads. cbn. split.
  - intros (id' & r' & [[<- <-]|[Hne Hr']]%lookup_insert_Some & Hp & Hf); [|by exists id', r'].
    destruct (file_nodes d !! id) as [r0|] eqn:E.
    + destruct (Hold r0 eq_refl) as [Hc|[[Ep Ef]|[E0 [Hc|Ec]]]].
      * destruct (Hin r0 eq_refl Hc) as [|E']; [congruence|congruence].
      * exists id, r0. split_and!; congruence.
      * congruence.
      * congruence.
    + destruct (Hnew eq_refl); congruence.
  - intros (id' & r' & Hr' & Hp & Hf). destruct (decide (id' = id)) as [->|Hne].
    + destruct (Hold r' Hr') as [Hc|[[Ep Ef]|[E0 _]]]; [congruence| |congruence].
      exists id, r. rewrite lookup_insert_eq. split_and!; congruence.
    + exists id', r'. by rewrite lookup_insert_ne.
Qed.

(** The contents of the files of [G] are the same. *)
Definition still (C G : string -> Prop) (d d' : db) : Prop :=
  outside C d d' /\ forall g c, G g -> contents d !! g = Some c -> contents d' !! g = Some c.

#[export] Instance still_preorder C G : PreOrder (still C G).
Proof.
  split; [intros d; by split|]. intros d1 d2 d3 [H1 G1] [H2 G2]. split; [by transitivity d2|auto].
Qed.

Lemma still_nodes C G d d' : outside C d d' -> contents d' = contents d -> still C G d d'.
Proof. intros Ho E. split; [done|]. by rewrite E. Qed.

Lemma still_same C G d d' : file_nodes d' = file_nodes d -> contents d' = contents d -> still C G d d'.
Proof. intros En. apply still_nodes. by apply outside_same. Qed.

(** Close the updates that touch neither entries nor contents. *)
Ltac still_tac := respects_tac; try (apply still_same; cbn; repeat case_match; reflexivity).

Section transactions.
Context (C G : string -> Prop).

Lemma ensureDir_still now p : respects (still C G) (ensureDir now p).
Proof.
  intros d. unfold ensureDir. wp_step. wp_step. cbv beta.
  assert (forall ino, wp (insertIgnoreInode (deterministicNodeID p) ino)
    (fun _ d' => file_nodes d' = file_nodes d /\ contents d' = contents d) d) as Hi.
  { intros ino. unfold insertIgnoreInode. wp_steps. by case_match. }
  destruct (head _) as [[id r]|] eqn:Hh.
  - apply nodesWhere_head in Hh as [Hr _]. destruct r as [pa pp na di fi [ino|] cr]; [by wp_steps; apply still_same|].
    wp_step. wp_apply Hi. intros [] d' [En Ec]. wp_steps. transitivity d'; [by apply still_same|]. apply still_nodes; [|done].
    apply outside_insert; rewrite En, Hr; [intros r0 [= <-]; right; by left|done|]. intros r0 [= <-]. by left.
  - wp_step. wp_apply Hi. intros [] d' [En Ec]. wp_steps. case_if; [by apply still_same|]. bool_prop.
    transitivity d'; [by apply still_same|]. apply still_nodes; [|done]. apply outside_insert; [|by right|by right].
    intros r0 Hr0. exfalso. match goal with Hx : ~ is_Some _ |- _ => apply Hx; eauto end.
Qed.

Lemma EnsureParentDirsTx_still now p : respects (still C G) (EnsureParentDirsTx now p).
Proof. unfold EnsureParentDirsTx. apply respects_forEach; [exact _|]. intros q. apply ensureDir_still. Qed.

Lemma InsertNodeTx_still n : C (Path n) \/ FileID n = "" -> respects (still C G) (InsertNodeTx n).
Proof.
  intros Hn d. unfold InsertNodeTx, InsertNode, insertNodeRow. wp_step.
  assert (wp (if negb (IsDirectory n) && negb (bool_decide (FileID n = "")) then lockConfirmedFileForAttachTx (FileID n) else ok tt)
    (fun _ d' => d' = d) d) as Hl by (case_if; [unfold lockConfirmedFileForAttachTx; wp_steps; done|done]).
  wp_apply Hl. intros [] d' ->. wp_steps. bool_prop. apply still_nodes; [|done]. apply outside_insert.
  - intros r0 Hr0. exfalso. match goal with Hx : ~ is_Some _ |- _ => apply Hx; eauto end.
  - intros _. cbn. destruct Hn as [|E]; [by left|right]. by rewrite E.
  - intros r0 Hr0. exfalso. match goal with Hx : ~ is_Some _ |- _ => apply Hx; eauto end.
Qed.

Lemma InsertFileTx_still fl now : respects (still C G) (InsertFileTx fl now).
Proof.
  intros d. unfold InsertFileTx, insertSplitTablesTx, insertInodeRow, insertContentRow, insertSemanticRow. wp_steps.
  destruct (files d) as [m|]; wp_steps; (split; [by apply outside_same|]); cbn; intros h c _ Hc; bool_prop;
    (rewrite lookup_insert_ne; [done|]); intros <-; match goal with Hx : ~ is_Some (contents _ !! _) |- _ => apply Hx; eauto end.
Qed.

Lemma deleteNodes_still (P : nodeRow -> bool) :
  (forall r, P r = true -> C (path r) \/ file_id r = None) -> respects (still C G) (deleteNodes P).
Proof.
  intros HP. apply respects_modify; [exact _|]. intros d. apply still_nodes; [|done]. intros q f Hq. unfold leads. cbn. split.
  - intros (id & r & [Hr _]%map_lookup_filter_Some & Hp & Hf). by exists id, r.
  - intros (id & r & Hr & Hp & Hf). exists id, r. split_and!; [|done|done]. apply map_lookup_filter_Some. split; [done|].
    cbn. destruct (P r) eqn:E; [|done]. destruct (HP r E); congruence.
Qed.

Lemma moveNode_still e id np npp nn d :
  (forall r, file_nodes d !! id = Some r -> C (path r)) -> C np ->
  wp (moveNode e (id, np, npp, nn)) (fun _ d' => still C G d d'
    /\ forall id' r', file_nodes d' !! id' = Some r' -> file_nodes d !! id' = Some r' \/ C (path r')) d.
Proof.
  intros Hr Hnp. unfold moveNode. wp_step. wp_step. cbv beta. destruct (file_nodes d !! id) as [r|] eqn:E.
  - wp_steps. split.
    + apply still_nodes; [|done]. apply outside_insert; rewrite E; [intros r0 [= <-]; left; by apply Hr|done|]. intros r0 _ _. by left.
    + cbn. intros id' r' [[<- <-]|[_ Hr']]%lookup_insert_Some; [by right|by left].
  - wp_steps. split; [reflexivity|]. by left.
Qed.

(** Moving rows that are all inside of [C], to places inside of [C]. *)
Lemma moveAll_still e l d :
  (forall id np npp nn, (id, np, npp, nn) ∈ l -> C np /\ forall r, file_nodes d !! id = Some r -> C (path r)) ->
  wp (forEach (moveNode e) l) (fun _ d' => still C G d d') d.
Proof.
  revert d. induction l as [|[[[id np] npp] nn] l IH]; intros d Hl; cbn [forEach]; [by wp_steps|]. wp_step.
  destruct (Hl id np npp nn ltac:(left)) as [Hnp Hr]. wp_apply moveNode_still; [done|done|].
  intros [] d' [Ho Hrows]. wp_apply IH.
  - intros id' np' npp' nn' Hin. destruct (Hl id' np' npp' nn' ltac:(by right)) as [Hnp' Hr']. split; [done|].
    intros r' Hr0. destruct (Hrows id' r' Hr0) as [Hx|Hx]; [by apply Hr'|done].
  - intros [] d'' Ho'. by transitivity d'.
Qed.

Lemma DeleteFileWithRefCheck_still p now : C p -> respects (still C G) (DeleteFileWithRefCheck p now).
Proof.
  intros Hp. assert (respects (still C G) (deleteNodes (fun r => bool_decide (path r = p)))) as Hd.
  { apply deleteNodes_still. intros r ->%bool_decide_eq_true. by left. }
  unfold DeleteFileWithRefCheck, RefCount, retireFile, deleteFileTagsByIDsTx, markFilesDeletedTx, markOne, updateLegacy,
    updateInode, enqueueGC.
  still_tac.
Qed.

Lemma DeleteEmptyDir_still p : C p -> respects (still C G) (DeleteEmptyDir p).
Proof.
  intros Hp. assert (respects (still C G) (deleteNodes (fun r => bool_decide (path r = p) && is_directory r))) as Hd.
  { apply deleteNodes_still. intros r [->%bool_decide_eq_true _]%andb_true_iff. by left. }
  unfold DeleteEmptyDir, dirHasChildrenTx. still_tac.
Qed.

Lemma DeleteDirRecursive_still p now :
  (forall r, underLike p r = true -> C (path r)) -> respects (still C G) (DeleteDirRecursive p now).
Proof.
  intros Hp. assert (respects (still C G) (deleteNodes (underLike p))) as Hd.
  { apply deleteNodes_still. intros r Hr. left. by apply Hp. }
  unfold DeleteDirRecursive, deleteFileTagsByIDsTx, markFilesDeletedTx, markOne, updateLegacy, updateInode, enqueueGC.
  still_tac.
Qed.

Lemma RenameDir_still old new :
  (forall r, underLike old r = true -> C (path r)) -> (forall x, C (new +:+ x)) -> respects (still C G) (RenameDir old new).
Proof.
  intros Ho Hx d. unfold RenameDir. wp_step. wp_step. cbv beta. wp_step. wp_apply moveAll_still; [|by intros; wp_steps].
  intros id np npp nn Hin. apply list_elem_of_fmap in Hin as ([id' r'] & E & Hin). rewrite sortBy_perm in Hin.
  apply list_elem_of_filter in Hin as [Hu Hin]. apply elem_of_map_to_list in Hin. cbn in Hu. unfold dirUpdate in E. cbn in E.
  assert (C new) as Hn by (rewrite <- (string_app_nil_r new); apply Hx).
  destruct (bool_decide (path r' = old)); injection E as -> -> -> ->; (split; [auto|]); intros r Hr; simplify_eq; auto.
Qed.

Lemma RenameFileReplacingTarget_still old new pp n now :
  C old -> C new -> respects (still C G) (RenameFileReplacingTarget old new pp n now).
Proof.
  intros Ho Hn d. unfold RenameFileReplacingTarget. wp_step. wp_step. cbv beta.
  destruct (nodeAt d old) as [[oldID r]|] eqn:E; [|done]. apply nodeAt_spec in E as [Hr Hp]. wp_step. wp_step.
  case_if; [by wp_steps|]. wp_step. wp_step. cbv beta.
  assert (forall r0, file_nodes d !! oldID = Some r0 -> C (path r0)) as HC by (intros r0; rewrite Hr; intros [= <-]; by rewrite Hp).
  destruct (nodeAt d new) as [[dstID r2]|] eqn:E2.
  2: { wp_step. wp_apply moveNode_still; [done|done|]. intros [] d' [Hs _]. by wp_steps. }
  apply nodeAt_spec in E2 as [Hr2 Hp2]. destruct r2 as [pa2 pp2 na2 [] fi2 ino2 cr2]; [done|]. cbn in Hp2. subst pa2.
  case_if; [by wp_steps|]. bool_prop. wp_step. wp_step. set (d1 := set_nodes (delete dstID (file_nodes d)) d).
  assert (still C G d d1) as H1.
  { apply still_nodes; [|done]. intros q f Hq. unfold leads. cbn. split.
    - intros (id & r' & [_ Hr']%lookup_delete_Some & Hx). by exists id, r'.
    - intros (id & r' & Hr' & Hx & Hf). exists id, r'. rewrite lookup_delete_ne; [done|]. intros <-. rewrite Hr2 in Hr'.
      injection Hr' as <-. cbn in Hx. by subst q. }
  wp_step. wp_apply moveNode_still; [|done|].
  { intros r0 Hr0. cbn in Hr0. apply lookup_delete_Some in Hr0 as [_ Hr0]. auto. }
  intros [] d2 [H2 _]. assert (still C G d d2) as H by by transitivity d1. clear -H.
  match goal with |- wp ?m _ _ => assert (respects (still C G) m) as Hm end.
  { unfold RefCount, deleteFileTagsByIDsTx, markFilesDeletedTx, markOne, updateLegacy, updateInode, scanFileForGCTx, enqueueGC.
    cbn. still_tac. }
  wp_apply Hm. intros a d3 H3. by transitivity d2.
Qed.

Lemma fileNode_still id p f now : C p -> respects (still C G) (InsertNodeTx (fileNode id p f now)).
Proof. intros Hp. apply InsertNodeTx_still. by left. Qed.

Lemma dirNode_still id p i now : respects (still C G) (InsertNodeTx (dirNode id p i now)).
Proof. apply InsertNodeTx_still. by right. Qed.

Lemma replaceTags_still f tags : respects (still C G) (replaceTags f tags).
Proof. unfold replaceTags, ReplaceFileTagsTx, insertTag. still_tac. Qed.

Lemma enqueueSemanticTx_still toLower cfg e f rev p ct text descr :
  respects (still C G) (enqueueSemanticTx toLower cfg e f rev p ct text descr).
Proof. unfold enqueueSemanticTx, enqueueTiDBAutoSemanticTasksTx, enqueueEmbedTaskTx, enqueueTaskTx. still_tac. Qed.

Lemma ensureStorageQuota_still cfg e p n : respects (still C G) (ensureStorageQuota cfg e p n).
Proof. unfold ensureStorageQuota, ensureTenantStorageQuotaTx, ensureStorageQuotaServer. still_tac. Qed.

Lemma setUploadStatus_still st from k now : respects (still C G) (setUploadStatus st from k now).
Proof. unfold setUploadStatus. still_tac. Qed.

Lemma markFilesDeletedTx_still ids : respects (still C G) (markFilesDeletedTx ids).
Proof. unfold markFilesDeletedTx, markOne, updateLegacy, updateInode. still_tac. Qed.

(** A step that changes contents, but those of no file of [G]. *)
Lemma still_but d d' :
  file_nodes d' = file_nodes d -> (forall g, G g -> contents d' !! g = contents d !! g) -> still C G d d'.
Proof. intros En Hc. split; [by apply outside_same|]. intros g c Hg. by rewrite Hc. Qed.

(** Close also the updates of the content of a file that is not of [G]. *)
Ltac still_but_tac :=
  still_tac; try (apply still_but; cbn; [reflexivity|]; intros g Hg; rewrite lookup_alter_ne; [reflexivity|by intros <-]).

Lemma updateFileContentTx_still f x p u now : ~ G f -> respects (still C G) (updateFileContentTx f x p u now).
Proof.
  intros Hf. unfold updateFileContentTx, updateLegacyContentTx, UpdateInodeContentTx, UpdateContentTx, updateInode,
    updateContent, updateSemanticNoEmbedTx, UpdateSemanticTx, updateSemantic. still_but_tac.
Qed.

Lemma UpdateFileStorageEncryptionTx_still f m k : ~ G f -> respects (still C G) (UpdateFileStorageEncryptionTx f m k).
Proof. intros Hf. unfold UpdateFileStorageEncryptionTx, updateLegacy, updateContent. still_but_tac. Qed.

Lemma DeletePendingFileTx_still f now : ~ G f -> respects (still C G) (DeletePendingFileTx f now).
Proof. intros Hf. unfold DeletePendingFileTx, updateLegacy, updateInode, updateContent. still_but_tac. Qed.

Lemma confirmPendingTx_still auto f u now : ~ G f -> respects (still C G) (confirmPendingTx auto f u now).
Proof.
  intros Hf. unfold confirmPendingTx, requirePending, updateLegacy, UpdateInodeContentTx, UpdateContentTx, updateInode,
    updateContent, UpdateSemanticTx, updateSemanticNoEmbedTx, updateSemantic. still_but_tac.
Qed.

Lemma mapError_still {A} h (m : tx A) : respects (still C G) m -> respects (still C G) (mapError h m).
Proof. intros H d. specialize (H d). unfold wp, mapError in *. by destruct (m d) as [[d' a]|]. Qed.

End transactions.

#[local] Hint Resolve updateFileContentTx_still UpdateFileStorageEncryptionTx_still DeletePendingFileTx_still
  confirmPendingTx_still mapError_still : respects.
#[local] Hint Resolve EnsureParentDirsTx_still InsertFileTx_still DeleteFileWithRefCheck_still DeleteEmptyDir_still
  DeleteDirRecursive_still RenameDir_still RenameFileReplacingTarget_still fileNode_still dirNode_still replaceTags_still
  enqueueSemanticTx_still ensureStorageQuota_still setUploadStatus_still markFilesDeletedTx_still : respects.

(** ** Calls *)

Section calls.
Context (nfc typeByExtension toLower : string -> string) (cfg : config) (C G : string -> Prop).

(** No file of [G] is kept at [k]. *)
Definition notAt (k : string) (d : db) : Prop :=
  forall g c, G g -> contents d !! g = Some c -> storage_type c = "s3" -> storage_ref c <> k.

(** Nor have the objects of these files changed. *)
Definition kept (b b' : backend) : Prop :=
  still C G (store b) (store b')
  /\ forall g c, G g -> contents (store b) !! g = Some c -> storage_type c = "s3" ->
       objects b' !! storage_ref c = objects b !! storage_ref c.

#[export] Instance kept_preorder : PreOrder kept.
Proof.
  split; [intros b; by split|]. intros b1 b2 b3 [S1 O1] [S2 O2]. split; [by transitivity (store b2)|].
  intros g c Hg Hc Ht. rewrite (O2 g c); [by apply (O1 g)|done| |done]. by apply S1.
Qed.

Lemma kept_data b b' g : kept b b' -> G g -> is_Some (contents (store b) !! g) -> fileData cfg b' g = fileData cfg b g.
Proof.
  intros [[_ Hc] Ho] Hg [c E]. unfold fileData. rewrite (Hc g c Hg E), E. clear Hc. unfold contentData.
  case_bool_decide as Et; [|done]. destruct (negb (s3 cfg)); [done|]. by rewrite (Ho g c Hg E Et).
Qed.

Lemma kept_at {A} (m : tx A) b : wp m (fun _ => still C G (store b)) (store b) -> kept b (fst (run m b)).
Proof.
  intros Hm. destruct (run_objects m b) as [Eo _]. split; [|by rewrite Eo].
  apply (run_wp m (still C G (store b))); [reflexivity|apply Hm].
Qed.

Lemma kept_run {A} (m : tx A) b : respects (still C G) m -> kept b (fst (run m b)).
Proof. intros Hm. apply kept_at, Hm. Qed.

Lemma kept_andThen {A B} (m : tx A) (k : A -> backend -> backend * (B + backendError)) b :
  respects (still C G) m -> (forall a b, kept b (fst (k a b))) -> kept b (fst (andThen m k b)).
Proof.
  intros Hm Hk. pose proof (kept_run m b Hm) as Hr. unfold andThen. destruct (run m b) as [b' [a|e]]; [|done].
  etransitivity; [exact Hr|apply Hk].
Qed.

Lemma kept_put k data b : notAt k (store b) -> kept b (set_objects (<[k := data]> (objects b)) b).
Proof. intros Hn. split; [reflexivity|]. intros g c Hg Hc Ht. cbn. rewrite lookup_insert_ne; [done|]. intros E; by apply (Hn g c). Qed.

Lemma kept_delete k b : notAt k (store b) -> kept b (deleteBlob cfg k b).
Proof.
  intros Hn. unfold deleteBlob. case_if; [|reflexivity]. split; [reflexivity|]. intros g c Hg Hc Ht. cbn.
  rewrite lookup_delete_ne; [done|]. intros E; by apply (Hn g c).
Qed.

Lemma kept_unput pl b : (plType pl = "s3" -> notAt (plRef pl) (store b)) -> kept b (unputContent cfg pl b).
Proof. intros Hn. unfold unputContent. case_bool_decide; [apply kept_delete; auto|reflexivity]. Qed.

Lemma kept_drop t r k b : kept b (deleteBlobIfS3 cfg t r k b).
Proof. split; [by rewrite store_deleteBlobIfS3|]. by rewrite objects_deleteBlobIfS3. Qed.

(** What the files of [G] are not kept at stays so. *)
Lemma notAt_kept k b b' : (forall g, G g -> is_Some (contents (store b) !! g)) -> kept b b' -> notAt k (store b) -> notAt k (store b').
Proof.
  intros HG [[_ Hc] _] Hn g c Hg Hc' Ht. destruct (HG g Hg) as [c0 E]. pose proof (Hc g c0 Hg E) as E'.
  rewrite Hc' in E'. injection E' as <-. by apply (Hn g c).
Qed.

Ltac kept_call := apply kept_run; still_tac.

Lemma MkdirCtx_kept b p m i n now : kept b (fst (MkdirCtx nfc b p m i n now)).
Proof.
  unfold MkdirCtx, insertInodeRow. destruct (CanonicalizeDir nfc p); [|reflexivity].
  apply kept_andThen; [still_tac|]. intros. kept_call.
Qed.

Lemma CopyFileCtx_kept b p q n now :
  (forall c, Canonicalize nfc q = inl c -> C c) -> kept b (fst (CopyFileCtx nfc b p q n now)).
Proof.
  intros HC. unfold CopyFileCtx. destruct (Canonicalize nfc p), (Canonicalize nfc q) as [s0|] eqn:E; try reflexivity.
  destruct (GetNode _ _); [|reflexivity]. case_if; [reflexivity|].
  apply kept_andThen; [still_tac|]. intros. apply kept_run. apply fileNode_still. by apply HC.
Qed.

(** ** Uploads *)

Lemma initiateWith_kept b e u : kept b (fst (initiateWith cfg b e u)).
Proof.
  unfold initiateWith. case_if; [reflexivity|].
  pose proof (kept_run (initiateTx cfg e u) b) as Hr. destruct (run _ b) as [b' [|]]; apply Hr;
    unfold initiateTx, ensureTenantStorageQuotaTx, InsertUploadTx; still_tac.
Qed.

Lemma InitiateUpload_kept b e p n cs r descr : kept b (fst (InitiateUpload nfc cfg b e p n cs r descr)).
Proof.
  unfold InitiateUpload. destruct (initiateChecks _ _ _ _ _ _ _ _); [|reflexivity].
  destruct (createMultipart e); [|reflexivity]. repeat (case_if; [reflexivity|]). apply initiateWith_kept.
Qed.

Lemma InitiateUploadV2_kept b e p n r descr : kept b (fst (InitiateUploadV2 nfc cfg b e p n r descr)).
Proof.
  unfold InitiateUploadV2. destruct (initiateChecks _ _ _ _ _ _ _ _); [|reflexivity]. do 2 (case_if; [reflexivity|]).
  destruct (createMultipart e); [|reflexivity]. apply initiateWith_kept.
Qed.

Lemma patch_kept b e r :
  (forall p n dirty cps, kept b (fst (InitiatePatchUpload nfc cfg b e p n dirty cps r)))
  /\ (forall p n cps, kept b (fst (InitiateAppendUpload nfc cfg b e p n cps r))).
Proof.
  apply (patch_ind nfc cfg (kept b) b e r); [reflexivity|]. intros. apply kept_run. unfold patchTx, InsertUploadTx. still_tac.
Qed.

Lemma abort_kept b u now :
  kept b (fst (run (MarkFileDeleted (UFileID u)) (fst (run (AbortUploadV2Store (UploadID u) now) b)))).
Proof.
  transitivity (fst (run (AbortUploadV2Store (UploadID u) now) b)); apply kept_run;
    [apply setUploadStatus_still|apply markFilesDeletedTx_still].
Qed.

Lemma AbortUploadV2_kept b e k : kept b (AbortUploadV2 b e k).
Proof.
  unfold AbortUploadV2, abortV2Read. destruct (GetUpload (store b) k); [|reflexivity]. case_if; [reflexivity|].
  case_if; [apply kept_run; apply setUploadStatus_still|apply abort_kept].
Qed.

Lemma AbortUpload_kept b e k : kept b (fst (AbortUpload b e k)).
Proof.
  unfold AbortUpload. destruct (GetUpload (store b) k); [|reflexivity]. case_if; [reflexivity|].
  pose proof (kept_run _ b (setUploadStatus_still C G UploadAborted [UploadUploading] k (now (base e)))) as Hr.
  by destruct (run _ b) as [b' r].
Qed.

Lemma ensureUploadPresignable_kept b e u : kept b (fst (ensureUploadPresignable b e u)).
Proof.
  unfold ensureUploadPresignable. case_if; [reflexivity|]. case_if; [apply AbortUploadV2_kept|]. case_if; [reflexivity|].
  pose proof (kept_run (TransitionUploadStatus (UploadID u) UploadInitiated UploadUploading (now (base e))) b
    ltac:(unfold TransitionUploadStatus; still_tac)) as Hr.
  destruct (run _ b) as [b' [[]|[[]|?| | | | | | | | | |]]]; cbn in *; try exact Hr.
  destruct (GetUpload (store b') (UploadID u)); [|exact Hr]. repeat (case_if; [exact Hr|]).
  case_if; [|exact Hr]. etransitivity; [exact Hr|apply AbortUploadV2_kept].
Qed.

Lemma PresignPart_kept b e k x : kept b (fst (PresignPart b e k x)).
Proof.
  unfold PresignPart. destruct (GetUpload (store b) k) as [u|]; [|reflexivity].
  pose proof (ensureUploadPresignable_kept b e u) as Hr. by destruct (ensureUploadPresignable b e u) as [b' [|]].
Qed.

Lemma PresignParts_kept b e k xs : kept b (fst (PresignParts b e k xs)).
Proof.
  unfold PresignParts. destruct (GetUpload (store b) k) as [u|]; [|reflexivity].
  pose proof (ensureUploadPresignable_kept b e u) as Hr. destruct (ensureUploadPresignable b e u) as [b' [|]]; [|exact Hr].
  by case_if.
Qed.

Lemma ResumeUpload_kept b e k cs : kept b (fst (ResumeUpload b e k cs)).
Proof.
  unfold ResumeUpload. destruct (GetUpload (store b) k) as [u|]; [|reflexivity]. case_if; [reflexivity|].
  case_if; [apply kept_run; apply setUploadStatus_still|]. destruct (listParts e); [|reflexivity]. by repeat case_if.
Qed.

(** A confirmation touches the file at the target and its own pending file. *)
Lemma finalizeTx_still e u tags d :
  C (TargetPath u) -> (forall f, leads d (TargetPath u) f -> ~ G f) -> ~ G (UFileID u) ->
  wp (finalizeTx typeByExtension toLower cfg e u tags) (fun _ d' => still C G d d') d.
Proof.
  intros HC Hn Hu. unfold finalizeTx.
  set (R := still (fun _ => False) G). assert (forall d', R d d' -> still C G d d') as HR.
  { intros d' [Ho Hc]. split; [|done]. intros q f _. apply Ho. by intros []. }
  wp_step. wp_apply (setUploadStatus_still (fun _ => False) G). intros [] d1 H1. wp_step.
  wp_apply (EnsureParentDirsTx_still (fun _ => False) G). intros [] d2 H2. wp_step. wp_step. cbv beta.
  assert (R d d2) as H by by transitivity d1. pose proof (HR d2 H) as Hs. destruct H as [Ho _].
  match goal with |- wp ?m _ _ => assert (respects (still C G) m) as Hm end.
  { destruct (nodeAt d2 (TargetPath u)) as [[id r]|] eqn:E; cbn [mbind option_bind snd];
      [destruct (file_id r) as [f|] eqn:Hf|].
    - assert (~ G f) as Hg. { apply Hn, Ho; [by intros []|]. apply nodeAt_spec in E as [Hr Hp]. by exists id, r. }
      unfold finalizeOverwriteTx. still_tac.
    - unfold finalizeCreateTx. still_tac.
    - unfold finalizeCreateTx. still_tac. }
  wp_apply Hm. intros a d3 H3. by transitivity d2.
Qed.

(** ** Paths *)

(** Unicode normalization neither adds nor drops a slash at the end. *)
Context (nfc_slash : forall s, HasSuffix (nfc s) "/" = HasSuffix s "/").
#[local] Set Default Proof Using "Type*".

(** At a path or below it. *)
Definition within (c q : string) : Prop := pathMatchesScope c q = true.

(** The entries of directories have paths of directories. *)
Definition slashed (d : db) : Prop :=
  forall id r, file_nodes d !! id = Some r -> is_directory r = true -> HasSuffix (path r) "/" = true.

Lemma canonical_end p c : Canonicalize nfc p = inl c -> c = "/" \/ HasSuffix c "/" = false.
Proof.
  unfold Canonicalize, canonicalize. case_if; [intros [= <-]; by left|]. destruct (checkBytes p); [done|]. case_if; [done|].
  set (raw := if HasPrefix p "/" then p else "/" +:+ p). destruct (dotSegment _) as [|] eqn:Hd; [done|].
  case_if; [intros [= <-]; by left|]. case_if; [done|]. cbn [andb]. intros [= <-]. right. rewrite nfc_slash.
  assert (HasPrefix raw "/" = true) as Hp.
  { unfold raw. destruct (HasPrefix p "/") eqn:E; [done|apply HasPrefix_slash]. }
  rewrite Clean_rooted, TrimSuffix_cleanPath by (done || apply cleanSegs_good).
  destruct (cleanSegs raw) as [|x l] eqn:E; [done|]. apply absPath_no_suffix; [done|]. rewrite <- E. apply cleanSegs_good.
Qed.

(** The path of a file or of a directory. *)
Definition spelled (c q : string) : Prop := q = c \/ q = c +:+ "/".

Lemma CanonicalizeDir_spelled p c q :
  Canonicalize nfc p = inl c -> CanonicalizeDir nfc p = inl q -> spelled c q /\ HasSuffix q "/" = true.
Proof.
  unfold Canonicalize, CanonicalizeDir, canonicalize, spelled. case_if; [intros; simplify_eq; by split; [left|]|].
  destruct (checkBytes p); [done|]. case_if; [done|]. set (raw := if HasPrefix p "/" then p else "/" +:+ p).
  destruct (dotSegment _); [done|]. case_if; [intros; simplify_eq; by split; [left|]|]. case_if; [done|]. cbn [andb].
  set (s := nfc _). destruct (bool_decide_reflect (s = "/")) as [E|E]; cbn; intros; simplify_eq; [by rewrite E; split; [left|]|].
  split; [by right|]. apply HasSuffix_app.
Qed.

Lemma within_spelled c q : spelled c q -> within c q.
Proof.
  unfold within, pathMatchesScope. intros [-> | ->].
  - rewrite (bool_decide_true (c = c)) by done. by rewrite orb_true_r.
  - assert (HasPrefix (c +:+ "/") (c +:+ "/") = true) as Hs by (apply HasPrefix_spec; exists ""; by rewrite string_app_nil_r).
    rewrite Hs. by rewrite orb_true_r.
Qed.

(** Everything below a directory. *)
Lemma within_below c q x :
  c = "/" \/ HasSuffix c "/" = false -> spelled c q -> HasSuffix q "/" = true -> within c (q +:+ x).
Proof.
  unfold within, pathMatchesScope. intros [->|Hc] [-> | ->] Hq; [done|done|congruence|].
  rewrite HasPrefix_self. by rewrite orb_true_r.
Qed.

Lemma plain_app a b : plain (a +:+ b) = plain a && plain b.
Proof. induction a as [|c a IH]; [done|]. cbn. by rewrite IH, andb_assoc. Qed.

Lemma normalizePath_spelled p c : Canonicalize nfc p = inl c -> spelled c (normalizePath nfc p).
Proof.
  intros Hc. unfold normalizePath. destruct (IsDir p); [|rewrite Hc; by left].
  destruct (CanonicalizeDir nfc p) as [q|e] eqn:E; [by destruct (CanonicalizeDir_spelled p c q)|]. exfalso.
  unfold Canonicalize, CanonicalizeDir, canonicalize in *. repeat (case_match; try done).
Qed.

(** What a path resolves to. *)
Lemma resolve_spelled d p c q n :
  Canonicalize nfc p = inl c -> resolveNodePath nfc d p = inl (q, n) ->
  spelled c q /\ exists id r, file_nodes d !! id = Some r /\ path r = q /\ IsDirectory n = is_directory r.
Proof.
  intros Hc. assert (forall q n, GetNode d q = inl n ->
    exists id r, file_nodes d !! id = Some r /\ path r = q /\ IsDirectory n = is_directory r) as Hn.
  { intros q' n'. unfold GetNode. destruct (nodeAt d q') as [[id r]|] eqn:E; [|done]. intros [= <-].
    apply nodeAt_spec in E as [Hr Hp]. by exists id, r. }
  unfold resolveNodePath. pose proof (normalizePath_spelled p c Hc) as Hs.
  destruct (GetNode d (normalizePath nfc p)) as [n1|err] eqn:E1; [intros [= <- <-]; by split; [|apply Hn]|].
  case_if; [done|]. destruct (CanonicalizeDir nfc p) as [q1|] eqn:E2; [|done]. case_if; [done|].
  destruct (GetNode d q1) as [n2|] eqn:E3; [|done]. intros [= <- <-]. split; [|by apply Hn].
  by destruct (CanonicalizeDir_spelled p c q1).
Qed.

(** The rows of a directory that is resolved. *)
Lemma tree_within d p c q n r :
  slashed d -> Canonicalize nfc p = inl c -> plain c = true -> resolveNodePath nfc d p = inl (q, n) ->
  IsDirectory n = true -> underLike q r = true -> within c (path r).
Proof.
  intros Hd Hc Hp Hres Hn Hu. destruct (resolve_spelled d p c q n Hc Hres) as (Hs & id & r0 & Hr0 & E0 & Edir).
  rewrite underLike_plain in Hu by (destruct Hs as [-> | ->]; [done|by rewrite plain_app, Hp]).
  apply HasPrefix_spec in Hu as [x ->]. apply within_below; [by eapply canonical_end|done|]. rewrite <- E0.
  apply (Hd id r0 Hr0). congruence.
Qed.

(** ** Calls on paths *)

(** A call on a path whose canonical form is [c]. *)
Record callOn (b : backend) (p c : string) : Prop := {
  on_path : Canonicalize nfc p = inl c;
  on_inside : forall q, within c q -> C q;
  on_slashed : slashed (store b)
}.

Lemma resolved_inside b p c q n : callOn b p c -> resolveNodePath nfc (store b) p = inl (q, n) -> C q.
Proof.
  intros [Hc Hin _] Hres. apply Hin, within_spelled. by destruct (resolve_spelled (store b) p c q n Hc Hres).
Qed.

Lemma resolved_tree b p c q n r :
  callOn b p c -> plain c = true -> resolveNodePath nfc (store b) p = inl (q, n) -> IsDirectory n = true ->
  underLike q r = true -> C (path r).
Proof. intros [Hc Hin Hd] Hp Hres Hn Hu. apply Hin. by eapply tree_within. Qed.

Lemma canonical_inside b p c : callOn b p c -> C c.
Proof. intros []. apply on_inside0, within_spelled. by left. Qed.

Lemma RemoveCtx_kept b p c now : callOn b p c -> kept b (fst (RemoveCtx nfc b p now)).
Proof.
  intros Hon. unfold RemoveCtx. destruct (resolveNodePath nfc (store b) p) as [[q n]|] eqn:Hres; [|reflexivity].
  pose proof (resolved_inside b p c q n Hon Hres). case_if; kept_call.
Qed.

Lemma RemoveFileCtx_kept b p c now : callOn b p c -> kept b (fst (RemoveFileCtx nfc b p now)).
Proof.
  intros Hon. pose proof (canonical_inside b p c Hon). unfold RemoveFileCtx. rewrite (on_path _ _ _ Hon). kept_call.
Qed.

Lemma RemoveDirCtx_kept b p c : callOn b p c -> kept b (fst (RemoveDirCtx nfc b p)).
Proof.
  intros [Hc Hin _]. unfold RemoveDirCtx. destruct (CanonicalizeDir nfc p) as [q|] eqn:E; [|reflexivity].
  assert (C q) by (apply Hin, within_spelled; by destruct (CanonicalizeDir_spelled p c q)). kept_call.
Qed.

Lemma RemoveAllCtx_kept b p c now : callOn b p c -> plain c = true -> kept b (fst (RemoveAllCtx nfc b p now)).
Proof.
  intros Hon Hpl. unfold RemoveAllCtx. destruct (resolveNodePath nfc (store b) p) as [[q n]|] eqn:Hres; [|reflexivity].
  pose proof (resolved_inside b p c q n Hon Hres). destruct (IsDirectory n) eqn:Hn; cbn [negb]; [|kept_call].
  pose proof (fun r => resolved_tree b p c q n r Hon Hpl Hres Hn). kept_call.
Qed.

Lemma RenameCtx_kept b p c p' c' now :
  callOn b p c -> plain c = true -> callOn b p' c' -> kept b (fst (RenameCtx nfc b p p' now)).
Proof.
  intros Hon Hpl [Hc' Hin' _]. unfold RenameCtx. destruct (resolveNodePath nfc (store b) p) as [[q n]|] eqn:Hres; [|reflexivity].
  case_if; [reflexivity|]. pose proof (resolved_inside b p c q n Hon Hres). apply kept_andThen; [still_tac|]. intros _ b'.
  destruct (IsDirectory n) eqn:Hn.
  - pose proof (fun r => resolved_tree b p c q n r Hon Hpl Hres Hn).
    assert (forall x, C (canonicalizePathForKind nfc p' true +:+ x)) as Hx; [|kept_call].
    intros x. apply Hin'. unfold canonicalizePathForKind. destruct (CanonicalizeDir nfc p') as [q'|] eqn:E.
    + destruct (CanonicalizeDir_spelled p' c' q' Hc' E). apply within_below; [by eapply canonical_end|done|done].
    + exfalso. unfold Canonicalize, CanonicalizeDir, canonicalize in *. repeat (case_match; try done).
  - assert (C (canonicalizePathForKind nfc p' false)) as Hx; [|kept_call]. apply Hin', within_spelled.
    by apply normalizePath_spelled.
Qed.

(** ** Calls that put bytes *)

(** Every file of [G] has bytes. *)
Context (b0 : backend) (HG : forall g, G g -> is_Some (contents (store b0) !! g)).

Lemma CreateCtx_kept p c f n put now :
  callOn b0 p c -> notAt ("blobs/" +:+ f) (store b0) -> kept b0 (fst (CreateCtx nfc cfg b0 p f n put now)).
Proof.
  intros Hon Hk. pose proof (canonical_inside b0 p c Hon) as HC. unfold CreateCtx. rewrite (on_path _ _ _ Hon).
  assert (respects (still C G) (createTx cfg c f n now)) as Hm by (unfold createTx; still_tac).
  case_if; [by apply kept_run|]. repeat (case_if; [reflexivity|]).
  pose proof (kept_put ("blobs/" +:+ f) "" b0 Hk) as Hp. set (b1 := set_objects _ b0) in *.
  pose proof (kept_run _ b1 Hm) as Hr. destruct (run _ b1) as [b2 [u|e]]; cbn [fst] in *; [by transitivity b1|].
  assert (kept b0 b2) as H2 by by transitivity b1. transitivity b2; [done|]. apply kept_delete. by eapply notAt_kept.
Qed.

(** A put, a transaction, and the put taken back when the transaction fails. *)
Lemma put_kept {A} data k e b1 (m : tx A) (b' : backend) :
  let pl := placeContent cfg data k in
  putContent cfg pl data e b0 = inl b1 -> notAt ("blobs/" +:+ k) (store b0) -> kept b1 (fst (run m b1)) ->
  match snd (run m b1) with inl _ => kept (fst (run m b1)) b' | inr _ => b' = unputContent cfg pl (fst (run m b1)) end ->
  kept b0 b'.
Proof.
  intros pl Hp Hk Hr Hb'. assert (plType pl = "s3" -> plRef pl = "blobs/" +:+ k) as Hpl.
  { unfold pl, placeContent. by case_if. }
  assert (kept b0 b1) as H1.
  { unfold putContent in Hp. case_bool_decide as Et; [|by injection Hp as <-]. destruct (s3 cfg), (putOK e); simplify_eq/=.
    apply kept_put. by rewrite Hpl. }
  assert (kept b0 (fst (run m b1))) as H2 by by transitivity b1. transitivity (fst (run m b1)); [done|].
  destruct (snd (run m b1)); [done|]. rewrite Hb'. apply kept_unput. intros Et. rewrite Hpl by done. by eapply notAt_kept.
Qed.

Lemma createAndWriteCtx_kept e p data tags descr :
  C p -> notAt ("blobs/" +:+ newFileID e) (store b0) ->
  kept b0 (fst (createAndWriteCtx typeByExtension toLower cfg b0 e p data tags descr)).
Proof.
  intros HC Hk. unfold createAndWriteCtx. case_if; [reflexivity|].
  destruct (putContent cfg (placeContent cfg data (newFileID e)) data e b0) as [b1|] eqn:Hp; [|reflexivity].
  set (pl := placeContent cfg data (newFileID e)) in *.
  eapply (put_kept data (newFileID e) e b1 (createAndWriteTx typeByExtension toLower cfg e pl p data tags descr));
    [exact Hp|exact Hk|apply kept_run; unfold createAndWriteTx; still_tac|].
  by destruct (run _ b1) as [b2 [u|err]].
Qed.

(** A write to a file that is not of [G]. *)
Lemma overwriteFileCtxWithRev_kept e node f data offset flags expected tags descr :
  ~ G (FFileID f) -> notAt ("blobs/" +:+ newBlobID e) (store b0) ->
  kept b0 (fst (overwriteFileCtxWithRev typeByExtension toLower cfg b0 e node f data offset flags expected tags descr)).
Proof.
  intros Hn Hk. unfold overwriteFileCtxWithRev. destruct (finalData _ _ _ _ _ _) as [final|]; [|reflexivity].
  case_if; [reflexivity|].
  destruct (putContent cfg (placeContent cfg final (newBlobID e)) final e b0) as [b1|] eqn:Hp; [|reflexivity].
  set (pl := placeContent cfg final (newBlobID e)) in *.
  eapply (put_kept final (newBlobID e) e b1 (overwriteTx typeByExtension toLower cfg e pl node f final expected tags descr));
    [exact Hp|exact Hk| |].
  - apply kept_run. unfold overwriteTx. still_tac.
  - destruct (run _ b1) as [b2 [u|err]]; [apply kept_drop|done].
Qed.

Lemma WriteCtx_kept e p c data offset flags expected tags descr :
  filesOk (store b0) -> callOn b0 p c -> (forall f, leads (store b0) c f -> ~ G f) ->
  notAt ("blobs/" +:+ newFileID e) (store b0) -> notAt ("blobs/" +:+ newBlobID e) (store b0) ->
  kept b0 (fst (WriteCtx nfc typeByExtension toLower cfg b0 e p data offset flags expected tags descr)).
Proof.
  intros H Hon Hn Hk1 Hk2. pose proof (canonical_inside b0 p c Hon) as HC. unfold WriteCtx. rewrite (on_path _ _ _ Hon).
  destruct (Stat (store b0) c) as [[n o]|err] eqn:Hs.
  - unfold writeFound. repeat (case_if; [reflexivity|]). destruct o as [f|]; [|reflexivity]. case_if; [reflexivity|].
    destruct (Stat_live _ _ _ _ H Hs) as (Ef & Hne & _). apply overwriteFileCtxWithRev_kept; rewrite ?Ef; try done.
    apply Hn. unfold Stat in Hs. destruct (GetNode (store b0) c) as [n'|] eqn:Hg; [|done].
    assert (n' = n) as -> by (repeat case_match; simplify_eq; done).
    unfold GetNode in Hg. destruct (nodeAt (store b0) c) as [[id r]|] eqn:E; [|done]. injection Hg as <-.
    apply nodeAt_spec in E as [Hr Hp]. exists id, r. split_and!; [done..|]. cbn in Hne |- *. by destruct (file_id r).
  - pose proof (createAndWriteCtx_kept e c data tags descr HC Hk1) as Hr. destruct err; try reflexivity.
    unfold writeMissing. repeat (case_if; [reflexivity|]).
    destruct (createAndWriteCtx _ _ _ _ _ _ _ _ _) as [b' [k|[[]|?| | | | | | | | | |]]]; exact Hr.
Qed.

(** ** Confirmations *)

Lemma finalizeUpload_kept e u tags :
  C (TargetPath u) -> (forall f, leads (store b0) (TargetPath u) f -> ~ G f) -> ~ G (UFileID u) ->
  notAt (S3Key u) (store b0) -> kept b0 (fst (finalizeUpload typeByExtension toLower cfg b0 e u tags)).
Proof.
  intros HC Hn Hu Hk. unfold finalizeUpload. case_if; [reflexivity|].
  pose proof (kept_put (S3Key u) (assembled e) b0 Hk) as Hp. set (b1 := set_objects _ b0) in *.
  pose proof (kept_at _ b1 (finalizeTx_still e u tags (store b1) HC Hn Hu)) as Hr.
  destruct (run _ b1) as [b2 [old|err]]; cbn [fst] in *; (assert (kept b0 b2) as H2 by by transitivity b1);
    (transitivity b2; [exact H2|]).
  - destruct old as [[t r]|]; [apply kept_drop|reflexivity].
  - unfold cleanupFailedFinalizeUpload. transitivity (deleteBlob cfg (S3Key u) b2); [apply kept_delete; by eapply notAt_kept|].
    case_if; [apply kept_run; apply setUploadStatus_still|apply abort_kept].
Qed.

Lemma ConfirmUpload_kept e k tags :
  (forall u, GetUpload (store b0) k = inl u -> UStatus u = UploadUploading ->
     kept b0 (fst (finalizeUpload typeByExtension toLower cfg b0 e u tags))) ->
  kept b0 (fst (ConfirmUpload typeByExtension toLower cfg b0 e k tags)).
Proof.
  intros Hf. unfold ConfirmUpload, confirmRead. destruct (GetUpload (store b0) k) as [u|] eqn:Hu; [|reflexivity].
  destruct (bool_decide_reflect (UStatus u = UploadUploading)); [|reflexivity]. cbn [negb].
  destruct (listParts e); [|reflexivity]. case_if; [reflexivity|]. by apply Hf.
Qed.

Lemma ConfirmUploadV2_kept e k cps tags :
  (forall u, GetUpload (store b0) k = inl u -> UStatus u = UploadUploading ->
     kept b0 (fst (finalizeUpload typeByExtension toLower cfg b0 e u tags))) ->
  kept b0 (fst (ConfirmUploadV2 typeByExtension toLower cfg b0 e k cps tags)).
Proof.
  intros Hf. unfold ConfirmUploadV2, confirmV2Read. destruct (GetUpload (store b0) k) as [u|] eqn:Hu; [|reflexivity].
  destruct (bool_decide_reflect (UStatus u = UploadUploading)); [|reflexivity]. cbn [negb].
  case_if; [apply AbortUploadV2_kept|]. repeat (case_match; try reflexivity); by apply Hf.
Qed.

End calls.

(** ** Files elsewhere *)

(** A file that can be read, all of whose names are outside of [C]. *)
Definition foreign (C : string -> Prop) (d : db) (g : string) : Prop := live d g /\ forall q, leads d q g -> ~ C q.

Section foreign.
Context (C : string -> Prop) (used : gset string) (b : backend).

Lemma foreign_content g : foreign C (store b) g -> is_Some (contents (store b) !! g).
Proof. intros [(i & c & _ & Hc & _) _]. by exists c. Qed.

Lemma foreign_unnamed q f : C q -> leads (store b) q f -> ~ foreign C (store b) f.
Proof. intros HC Hl [_ Hf]. by apply (Hf q). Qed.

Lemma foreign_fresh k : bytesSafe used b -> k ∉ used -> notAt (foreign C (store b)) ("blobs/" +:+ k) (store b).
Proof.
  intros [Hb _] Hk g c _ Hc Ht E. destruct (fresh_unowned _ _ _ _ _ k Hb Hk) as [_ Hu]. apply (Hu g). unfold place.
  rewrite Hc. cbn. by rewrite Ht, E.
Qed.

Lemma foreign_pending u :
  filesOk (store b) -> uploads (store b) !! UploadID u = Some u -> isActive u = true -> ~ foreign C (store b) (UFileID u).
Proof.
  intros H Hu Ha [Hl _]. destruct (upload_pending _ _ _ (uploads_ok _ _ H) _ u Hu Ha) as [_ Hp]. by apply (pending_not_live _ _ Hp).
Qed.

Lemma foreign_key u :
  filesOk (store b) -> bytesSafe used b -> uploads (store b) !! UploadID u = Some u -> isActive u = true ->
  notAt (foreign C (store b)) (S3Key u) (store b).
Proof.
  intros H [Hb _] Hu Ha g c Hg Hc Ht E. destruct (uploads_own _ _ _ _ _ Hb _ u Hu Ha) as [Hp Hne].
  assert (place (store b) g = Some ("s3", S3Key u)) as Hpg by (unfold place; rewrite Hc; cbn; by rewrite Ht, E).
  destruct (refs_own _ _ _ _ _ Hb _ _ _ Hpg Hp Hne) as [->|[[]|[]]]. by apply (foreign_pending u H Hu Ha).
Qed.

End foreign.

End Confine.
