(* ===== verification/FileServerProps.v ===== *)
(** * What the file handlers promise

    Every file request is at most one call of the backend, the one that its authorization
    covers.  So the histories of requests are histories of calls, and what [StoreHistory]
    proves of those holds for the server. *)

From Stdlib Require Import Strings.Ascii.
From S2P Require Import Prelude GoStrings PathUtil Json JsonStruct SemanticQueue FileGCQueue FileStore FileRules FileSafety.
From S2P Require Import Media Backend BackendSafety BackendContent Uploads UploadSafety FileGCWorker ObjectSafety UploadObjects.
From S2P Require Import BackendPlans StoreHistory PlanProps EventBus FsAuth FileRequests FileServer.

Import GoStr Paths FileStore FileRules FileSafety Media Backend Content Uploads UploadSafety ObjectSafety.
Import Plans StoreHistory FsAuth FileReq FileServer.

Module FileServerProps.

#[local] Arguments String.append !_ _ / : simpl nomatch.

Section props.
Context (nfc typeByExtension toLower : string -> string) (cfg : config) (maxUpload : Z) (dateOK : string -> bool).

Abbreviation perform := (StoreHistory.perform nfc typeByExtension toLower cfg).

(** ** Requests are calls *)

(** What a call asks for: the operations on paths. *)
Definition demands (d : db) (c : call) : list (FSOp * string) :=
  let session op k := match GetUpload d k with inl u => [(op, TargetPath u)] | inr _ => [] end in
  match c with
  | Create p _ _ _ _ | Mkdir p _ _ _ _ | Write _ p _ _ _ _ _ _ | Initiate _ p _ _ _ _ | InitiateV2 _ p _ _ _
  | Patch _ p _ _ _ _ | Append _ p _ _ _ => [(FSOpWrite, p)]
  | Remove p _ | RemoveFile p _ | RemoveDir p | RemoveAll p _ => [(FSOpDelete, p)]
  | Rename p q _ => [(FSOpDelete, p); (FSOpWrite, q)]
  | CopyFile p q _ _ => [(FSOpRead, p); (FSOpWrite, q)]
  | Presign _ k _ | PresignMany _ k _ | Resume _ k _ | Confirm _ k _ | ConfirmV2 _ k _ _ => session FSOpWrite k
  | Abort _ k | AbortV2 _ k => session FSOpDelete k
  | ChangeMode _ _ => []
  end.

Definition ownerOnly (c : call) : bool := match c with ChangeMode _ _ => true | _ => false end.

Definition granted (l : tenantScope) (d : db) (c : call) : Prop :=
  (ownerOnly c = true -> l = None) /\ Forall (fun x => AuthorizeFS nfc l (fst x) (snd x) = None) (demands d c).

(** The identifiers a request can draw. *)
Definition fresh (e : renv) : list string := [newFileID (envOf e); newBlobID (envOf e)].

(** The path of a file request, and the paths that its headers and its body name. *)
Definition fsPath (r : request) : string :=
  if bool_decide (TrimPrefix (URLPath r) "/v1/fs" = "") then "/" else TrimPrefix (URLPath r) "/v1/fs".
Definition bodyPaths (e : renv) (r : request) : list string :=
  (match decodeLimited initiateFields zeroInitiate (cutOff e) (Body r) with inl q => [inPath q] | inr _ => [] end)
  ++ (match decodeLimited initiateV2Fields zeroInitiate (cutOff e) (Body r) with inl q => [inPath q] | inr _ => [] end).
Definition asked (e : renv) (r : request) : list string :=
  if HasPrefix (URLPath r) "/v1/fs/" then [fsPath r; hGet r "X-Dat9-Rename-Source"] else bodyPaths e r.

(** The paths below which a call changes names, and those of them that a request asks for. *)
Definition trees (c : call) : list string :=
  match c with RemoveAll p _ | Rename p _ _ => [p] | _ => [] end.
Definition askedTrees (r : request) : list string :=
  hGet r "X-Dat9-Rename-Source" :: (if qHas (Query r) "recursive" then [fsPath r] else []).

(** What a call changes, the request has asked for by its path or by its upload. *)
Definition asksFor (d : db) (e : renv) (r : request) (x : FSOp * string) : Prop :=
  fst x = FSOpRead \/ snd x ∈ asked e r \/ exists k u, GetUpload d k = inl u /\ snd x = TargetPath u.

(** At most one call, which the scope grants. *)
Definition calls (sc : scope) (e : renv) (r : request) (s : srv) (res : srv * response) : Prop :=
  backendOf (fst res) = backendOf s
  \/ exists t c, sc = Some t /\ granted (limits t) (store (backendOf s)) c /\ draws c ⊆ fresh e
       /\ Forall (asksFor (store (backendOf s)) e r) (demands (store (backendOf s)) c) /\ trees c ⊆ askedTrees r
       /\ backendOf (fst res) = perform c (backendOf s).

Lemma calls_same sc e r s n c : calls sc e r s (reply s n c).
Proof. by left. Qed.

Lemma calls_one sc e r s t c res :
  sc = Some t -> granted (limits t) (store (backendOf s)) c -> draws c ⊆ fresh e ->
  Forall (asksFor (store (backendOf s)) e r) (demands (store (backendOf s)) c) -> trees c ⊆ askedTrees r ->
  backendOf (fst res) = perform c (backendOf s) -> calls sc e r s res.
Proof. intros. right. eauto 10. Qed.

Lemma calls_authorize sc e r s op p k :
  (forall t, sc = Some t -> AuthorizeFS nfc (limits t) op p = None -> calls sc e r s k) ->
  calls sc e r s (authorizeFS nfc sc s op p k).
Proof.
  intros Hk. unfold authorizeFS. destruct sc as [t|]; [|by left]. destruct (AuthorizeFS nfc (limits t) op p) as [[]|] eqn:E;
    [by left|by left|]. by apply (Hk t).
Qed.

Lemma calls_authorize_pair sc e r s op p op' p' k :
  (forall t, sc = Some t -> AuthorizeFS nfc (limits t) op p = None -> AuthorizeFS nfc (limits t) op' p' = None ->
     calls sc e r s k) ->
  calls sc e r s (authorizeFSPair nfc sc s op p op' p' k).
Proof.
  intros Hk. unfold authorizeFSPair, AuthorizeFSPair. destruct sc as [t|]; [|by left].
  destruct (AuthorizeFS nfc (limits t) op p) as [[]|] eqn:E; [by left|by left|].
  destruct (AuthorizeFS nfc (limits t) op' p') as [[]|] eqn:E'; [by left|by left|]. by apply (Hk t).
Qed.

Lemma calls_backend sc e r s k : (forall t, sc = Some t -> calls sc e r s k) -> calls sc e r s (withBackend sc s k).
Proof. intros Hk. unfold withBackend. destruct sc as [[l []]|]; [|by left|by left]. by eapply Hk. Qed.

(** A session that goes on is authorized for its target. *)
Definition sessionFor (l : tenantScope) (d : db) (k : string) (op : FSOp) : Prop :=
  forall u, GetUpload d k = inl u -> AuthorizeFS nfc l op (TargetPath u) = None.

Lemma calls_session sc e r s k op f :
  (forall t u, sc = Some t -> sessionFor (limits t) (store (backendOf s)) k op ->
     (forall v, u = Some v -> GetUpload (store (backendOf s)) k = inl v) -> calls sc e r s (f u)) ->
  calls sc e r s (authorizeUploadSession nfc sc s k op f).
Proof.
  intros Hf. unfold authorizeUploadSession. destruct sc as [t|]; [|by left]. destruct (limits t) as [l|] eqn:El.
  - destruct (GetUpload (store (backendOf s)) k) as [u|err] eqn:Eu; [|by destruct (storeNotFound err); left].
    destruct (AuthorizeFS nfc (Some l) op (TargetPath u)) as [[]|] eqn:Ea; [by left|by left|].
    apply (Hf t); [done| |by intros v [= <-]]. intros v. rewrite Eu. intros [= <-]. by rewrite El.
  - apply (Hf t); [done| |done]. intros v _. by rewrite El.
Qed.

Lemma granted_session l d k op c :
  ownerOnly c = false -> demands d c = match GetUpload d k with inl u => [(op, TargetPath u)] | inr _ => [] end ->
  sessionFor l d k op -> granted l d c.
Proof.
  intros Ho Ed Hs. split; [by rewrite Ho|]. rewrite Ed. destruct (GetUpload d k) as [u|] eqn:E; [|constructor].
  constructor; [|constructor]. by apply Hs.
Qed.

(** Answers that leave the backend alone. *)
Ltac unchanged := left; repeat (case_match; try reflexivity); reflexivity.

(** The answer to a call keeps the backend that the call left. *)
Ltac same_backend :=
  cbn [fst snd StoreHistory.perform];
  match goal with |- context [match ?x with (_, _) => _ end] => destruct x as [? [?|?]] end;
  unfold initiateFailed, patchFailed, completeFailed, completeV2Failed, presignFailed, writeFSAuthzError,
    errJSONInternalStorage, errJSON, failed, reply, publishEvent, set_backend;
  cbn; repeat (case_match; try reflexivity); reflexivity.

(** The paths that a call asks for. *)
Ltac asked_tac :=
  repeat first
    [apply Forall_nil_2
    |apply Forall_cons_2; [first [left; reflexivity|right; left; assumption|right; left; cbn [snd]; unfold asked; match goal with Hx : HasPrefix (URLPath _) _ = _ |- _ => rewrite Hx end; clear; set_solver]|]].

Ltac trees_tac :=
  first [apply list_subseteq_nil
        |unfold askedTrees; clear; set_solver
        |match goal with Hr : qHas _ _ = true |- _ => unfold askedTrees; rewrite Hr; clear; set_solver end].

(** One call: what it is granted by, what it draws and its effect. *)
Ltac one_call t c :=
  eapply (calls_one _ _ _ _ t c);
    [assumption|split; [done|cbn [demands]; repeat (apply Forall_cons_2; [assumption|]); apply Forall_nil_2]|intros ? Hdrawn; cbn in Hdrawn |- *; unfold fresh, envOf in *; rewrite ?elem_of_cons, ?elem_of_nil in *; clear -Hdrawn; intuition
    |cbn [demands]; asked_tac|cbn [trees]; trees_tac|same_backend].

Lemma handleBatchStat_calls sc s e r : calls sc e r s (handleBatchStat nfc sc s e r).
Proof. unfold handleBatchStat. case_if; [by left|]. apply calls_backend. intros _ _. unchanged. Qed.

Lemma handleBatchReadSmall_calls sc s e r : calls sc e r s (handleBatchReadSmall nfc sc s e r).
Proof. unfold handleBatchReadSmall. case_if; [by left|]. apply calls_backend. intros _ _. unchanged. Qed.

Section fs.
Context (r : request) (Hfs : HasPrefix (URLPath r) "/v1/fs/" = true).
#[local] Set Default Proof Using "Hfs".

Lemma handleRead_calls sc s e : calls sc e r s (handleRead nfc cfg sc s e (fsPath r)).
Proof. apply calls_authorize. intros t _ _. apply calls_backend. intros _ _. unchanged. Qed.

Lemma handleList_calls sc s e : calls sc e r s (handleList nfc sc s (fsPath r)).
Proof. apply calls_authorize. intros t _ _. apply calls_backend. intros _ _. unchanged. Qed.

Lemma handleStatMetadata_calls sc s e : calls sc e r s (handleStatMetadata nfc sc s (fsPath r)).
Proof. apply calls_authorize. intros t _ _. apply calls_backend. intros _ _. unchanged. Qed.

Lemma handleStat_calls sc s e : calls sc e r s (handleStat nfc sc s (fsPath r)).
Proof. apply calls_authorize. intros t _ _. unchanged. Qed.

Lemma handleGrep_calls sc s e : calls sc e r s (handleGrep nfc sc s e r (fsPath r)).
Proof. apply calls_authorize. intros t _ _. apply calls_backend. intros _ _. unchanged. Qed.

Lemma handleFind_calls sc s e : calls sc e r s (handleFind nfc sc s e r dateOK (fsPath r)).
Proof. apply calls_authorize. intros t _ _. apply calls_backend. intros _ _. unchanged. Qed.

Lemma handleWrite_calls sc s e :
  calls sc e r s (handleWrite nfc typeByExtension toLower cfg maxUpload sc s e r (fsPath r)).
Proof.
  apply calls_authorize. intros t Hsc Ha. apply calls_backend. intros _ _.
  destruct (parseExpectedRevisionHeader _) as [x|]; [|by left]. destruct (parseWriteTagsHeader r) as [tags|]; [|by left].
  destruct (declaredLength r) as [cl|]; [|by left]. case_if; [by left|]. case_if.
  - unfold largeWrite. case_if; [by left|]. destruct (parsePartChecksumsHeader _) as [[|c0 cs]|]; [by left| |by left].
    case_if; [by left|]. one_call t (Initiate (senvOf e) (fsPath r) cl (c0 :: cs) x (hGet r "X-Dat9-Description")).
  - unfold smallWrite. case_if; [by left|]. case_if; [by left|].
    one_call t (Write (envOf e) (fsPath r) (Body r) 0 putFlags x tags (hGet r "X-Dat9-Description")).
Qed.

Lemma handlePatch_calls sc s e : calls sc e r s (handlePatch nfc cfg maxUpload sc s e r (fsPath r)).
Proof.
  apply calls_authorize. intros t Hsc Ha. apply calls_backend. intros _ _.
  destruct (decodeBody patchFields zeroPatch (Body r)) as [q|]; [|by left]. repeat (case_if; [by left|]).
  one_call t (Patch (env_ e) (fsPath r) (paNewSize q) (items (paDirty q)) (paPartSize q) (default (-1) (paExpected q))).
Qed.

Lemma handleAppend_calls sc s e : calls sc e r s (handleAppend nfc cfg sc s e r (fsPath r)).
Proof.
  apply calls_authorize. intros t Hsc Ha. apply calls_backend. intros _ _.
  destruct (decodeLimited appendFields zeroAppend (cutOff e) (Body r)) as [q|]; [|by left]. repeat (case_if; [by left|]).
  one_call t (Append (env_ e) (fsPath r) (apSize q) (apPartSize q) (default (-1) (apExpected q))).
Qed.

Lemma handleDelete_calls sc s e : calls sc e r s (handleDelete nfc sc s e r (fsPath r)).
Proof.
  apply calls_authorize. intros t Hsc Ha. apply calls_backend. intros _ _. unfold removal.
  case_if; [one_call t (RemoveAll (fsPath r) (nowOf e))|]. case_if; [one_call t (Remove (fsPath r) (nowOf e))|].
  case_if; [one_call t (RemoveFile (fsPath r) (nowOf e))|]. case_if; [one_call t (RemoveDir (fsPath r))|]. by left.
Qed.

Lemma handleCopy_calls sc s e : calls sc e r s (handleCopy nfc sc s e r (fsPath r)).
Proof.
  unfold handleCopy. case_if; [by left|]. apply calls_authorize_pair. intros t Hsc Ha Ha'. apply calls_backend. intros _ _.
  one_call t (CopyFile (hGet r "X-Dat9-Copy-Source") (fsPath r) (newNodeID (envOf e)) (nowOf e)).
Qed.

Lemma handleRename_calls sc s e : calls sc e r s (handleRename nfc sc s e r (fsPath r)).
Proof.
  unfold handleRename. case_if; [by left|]. apply calls_authorize_pair. intros t Hsc Ha Ha'. apply calls_backend. intros _ _.
  one_call t (Rename (hGet r "X-Dat9-Rename-Source") (fsPath r) (nowOf e)).
Qed.

Lemma handleMkdir_calls sc s e : calls sc e r s (handleMkdir nfc sc s e r (fsPath r)).
Proof.
  apply calls_authorize. intros t Hsc Ha. apply calls_backend. intros _ _.
  one_call t (Mkdir (fsPath r) (default defaultMode (ParseUint32 (qGet (Query r) "mode"))) (newInodeID e) (newNodeID (envOf e)) (nowOf e)).
Qed.

Lemma handleChmod_calls sc s e : calls sc e r s (handleChmod nfc sc s r (fsPath r)).
Proof.
  unfold handleChmod. destruct (isScoped sc) eqn:Ho; [by left|]. apply calls_backend. intros t Hsc.
  destruct (decodeBody chmodFields {| chMode := 0 |} (Body r)) as [q|]; [|by left].
  eapply (calls_one _ _ _ _ t (ChangeMode (fsPath r) (chMode q))); [done|split; [|apply Forall_nil_2]|apply list_subseteq_nil|apply Forall_nil_2|apply list_subseteq_nil|].
  - intros _. subst sc. destruct t as [[l|] hb]; [discriminate Ho|done].
  - same_backend.
Qed.

Lemma handleCreate_calls sc s e : calls sc e r s (handleCreate nfc cfg sc s e r (fsPath r)).
Proof.
  apply calls_authorize. intros t Hsc Ha. apply calls_backend. intros _ _.
  one_call t (Create (fsPath r) (newFileID (envOf e)) (newNodeID (envOf e)) (putOK (envOf e)) (nowOf e)).
Qed.

Lemma handleFS_calls sc s e : calls sc e r s (handleFS nfc typeByExtension toLower cfg maxUpload dateOK sc s e r).
Proof.
  unfold handleFS. cbv zeta. fold (fsPath r). repeat case_if; first [apply handleStatMetadata_calls|apply handleGrep_calls|apply handleFind_calls
    |apply handleList_calls|apply handleRead_calls|apply handleWrite_calls|apply handleStat_calls|apply handleDelete_calls
    |apply handlePatch_calls|apply handleAppend_calls|apply handleCopy_calls|apply handleRename_calls|apply handleMkdir_calls
    |apply handleChmod_calls|apply handleCreate_calls|by left].
Qed.

End fs.

Lemma calls_initiate sc s e r q k :
  (forall t x, sc = Some t -> AuthorizeFS nfc (limits t) FSOpWrite (inPath q) = None -> calls sc e r s (k x)) ->
  calls sc e r s (initiateChecked nfc maxUpload sc s q k).
Proof.
  intros Hk. unfold initiateChecked. case_if; [by left|]. apply calls_authorize. intros t Hsc Ha.
  repeat (case_if; [by left|]). by apply (Hk t).
Qed.

Lemma handleUploadInitiate_calls sc s e r :
  HasPrefix (URLPath r) "/v1/fs/" = false -> calls sc e r s (handleUploadInitiate nfc cfg maxUpload sc s e r).
Proof.
  intros Hup. unfold handleUploadInitiate. destruct (decodeLimited initiateFields zeroInitiate (cutOff e) (Body r)) as [q|[]] eqn:Hq;
    [|by left|by left]. assert (inPath q ∈ asked e r) by (unfold asked, bodyPaths; rewrite Hup, Hq; clear; set_solver). apply calls_initiate. intros t x Hsc Ha.
  destruct (validatePartChecksums _) as [[|c0 cs]|]; [by left| |by left]. case_if; [by left|].
  one_call t (Initiate (senvOf e) (inPath q) (inSize q) (c0 :: cs) x (inDescription q)).
Qed.

Lemma handleUploads_calls sc s e r :
  HasPrefix (URLPath r) "/v1/fs/" = false -> calls sc e r s (handleUploads nfc cfg maxUpload sc s e r).
Proof.
  intros Hup. apply calls_backend. intros _ _. case_if; [by apply handleUploadInitiate_calls|]. case_if; [by left|]. cbv zeta. case_if; [by left|].
  apply calls_authorize. intros t _ _. unchanged.
Qed.

Lemma handleV2UploadInitiate_calls sc s e r :
  HasPrefix (URLPath r) "/v1/fs/" = false -> calls sc e r s (handleV2UploadInitiate nfc cfg maxUpload sc s e r).
Proof.
  intros Hup. apply calls_backend. intros _ _.
  destruct (decodeLimited initiateV2Fields zeroInitiate (cutOff e) (Body r)) as [q|[]] eqn:Hq; [|by left|by left].
  assert (inPath q ∈ asked e r) by (unfold asked, bodyPaths; rewrite Hup, Hq; clear; set_solver).
  apply calls_initiate. intros t x Hsc Ha. case_if; [by left|].
  one_call t (InitiateV2 (senvOf e) (inPath q) (inSize q) x (inDescription q)).
Qed.

(** The target of a session. *)
Ltac session_asked :=
  cbn [demands]; match goal with |- Forall _ (match GetUpload ?d ?k with _ => _ end) => destruct (GetUpload d k) as [?|?] eqn:? end;
  [|apply Forall_nil_2]; apply Forall_cons_2; [right; right; eauto|apply Forall_nil_2].

(** One call of a session. *)
Ltac session_call t c k op :=
  eapply (calls_one _ _ _ _ t c);
    [assumption|apply (granted_session _ _ k op); [done|reflexivity|assumption]|apply list_subseteq_nil|session_asked|apply list_subseteq_nil|same_backend].

Lemma handleUploadComplete_calls sc s e r k :
  calls sc e r s (handleUploadComplete nfc typeByExtension toLower cfg sc s e r k).
Proof.
  apply calls_backend. intros _ _. apply calls_session. intros t u Hsc Hs _.
  destruct (match u with Some v => inl v | None => _ end) as [v|err]; [|by destruct (storeNotFound err); left].
  destruct (parseUploadCompleteTags e (Body r)) as [tags|]; [|by left].
  session_call t (Confirm (senvOf e) k tags) k FSOpWrite.
Qed.

Lemma handleUploadResume_calls sc s e r k : calls sc e r s (handleUploadResume nfc toLower sc s e r k).
Proof.
  apply calls_backend. intros _ _. apply calls_session. intros t u Hsc Hs _.
  destruct (parseResumePartChecksums toLower e r) as [sums|[]]; [|by left].
  session_call t (Resume (senvOf e) k sums) k FSOpWrite.
Qed.

Lemma handleUploadAbort_calls sc s e r k : calls sc e r s (handleUploadAbort nfc sc s e k).
Proof.
  apply calls_backend. intros _ _. apply calls_session. intros t u Hsc Hs _.
  session_call t (Abort (senvOf e) k) k FSOpDelete.
Qed.

Lemma handleUploadAction_calls sc s e r : calls sc e r s (handleUploadAction nfc typeByExtension toLower cfg sc s e r).
Proof.
  unfold handleUploadAction. destruct (idAction _) as [k a]. case_if; [by left|].
  case_if; [apply handleUploadComplete_calls|]. case_if; [apply handleUploadResume_calls|].
  case_if; [apply handleUploadAbort_calls|by left].
Qed.

Lemma handleV2PresignPart_calls sc s e r k : calls sc e r s (handleV2PresignPart nfc sc s e r k).
Proof.
  apply calls_backend. intros _ _. apply calls_session. intros t u Hsc Hs _.
  destruct (decodeLimited partEntryFields (0, None) (cutOff e) (Body r)) as [x|]; [|by left]. case_if; [by left|].
  session_call t (Presign (senvOf e) k x) k FSOpWrite.
Qed.

Lemma handleV2PresignBatch_calls sc s e r k : calls sc e r s (handleV2PresignBatch nfc sc s e r k).
Proof.
  apply calls_backend. intros _ _. apply calls_session. intros t u Hsc Hs _.
  destruct (decodeLimited presignBatchFields _ (cutOff e) (Body r)) as [x|]; [|by left]. case_if; [by left|].
  session_call t (PresignMany (senvOf e) k (items (pbParts x))) k FSOpWrite.
Qed.

Lemma handleV2UploadComplete_calls sc s e r k :
  calls sc e r s (handleV2UploadComplete nfc typeByExtension toLower cfg sc s e r k).
Proof.
  apply calls_backend. intros _ _. apply calls_session. intros t u Hsc Hs _.
  destruct (decodeLimited completeV2Fields _ (cutOff e) (Body r)) as [x|]; [|by left]. case_if; [by left|].
  destruct (ValidateMap _); [by left|]. destruct (GetUpload (store (backendOf s)) k) as [v|err];
    [|by destruct (storeNotFound err); left].
  session_call t (ConfirmV2 (senvOf e) k (items (cvParts x)) (cvTags x)) k FSOpWrite.
Qed.

Lemma handleV2UploadAbort_calls sc s e r k : calls sc e r s (handleV2UploadAbort nfc sc s e k).
Proof.
  apply calls_backend. intros _ _. apply calls_session. intros t u Hsc Hs _.
  eapply (calls_one _ _ _ _ t (AbortV2 (senvOf e) k));
    [assumption|apply (granted_session _ _ k FSOpDelete); [done|reflexivity|assumption]|apply list_subseteq_nil|session_asked|apply list_subseteq_nil|reflexivity].
Qed.

Lemma handleV2Uploads_calls sc s e r :
  HasPrefix (URLPath r) "/v1/fs/" = false -> calls sc e r s (handleV2Uploads nfc typeByExtension toLower cfg maxUpload sc s e r).
Proof.
  intros Hup. unfold handleV2Uploads. destruct (idAction _) as [k a]. case_if; [by apply handleV2UploadInitiate_calls|].
  case_if; [apply handleV2PresignPart_calls|]. case_if; [apply handleV2PresignBatch_calls|].
  case_if; [apply handleV2UploadComplete_calls|]. case_if; [apply handleV2UploadAbort_calls|by left].
Qed.

(** A file request makes at most one call, and its scope grants it. *)
Lemma handleBusiness_calls sc s e r res :
  handleBusiness nfc typeByExtension toLower cfg maxUpload dateOK sc s e r = Some res -> calls sc e r s res.
Proof.
  unfold handleBusiness. case_if; [intros [= <-]; by left|]. case_if; [intros [= <-]; apply handleBatchStat_calls|].
  case_if; [intros [= <-]; apply handleBatchReadSmall_calls|]. destruct (HasPrefix (URLPath r) "/v1/fs/") eqn:Hfs; [intros [= <-]; by apply handleFS_calls|].
  case_if; [intros [= <-]; by apply handleUploads_calls|]. case_if; [intros [= <-]; apply handleUploadAction_calls|].
  case_if; [intros [= <-]; by apply handleV2Uploads_calls|]. case_if; [done|]. intros [= <-]. by left.
Qed.

End props.

End FileServerProps.
