(* ===== verification/ScopeProps.v ===== *)
(** * What the file server promises

    In every history of requests a request of a scoped token changes no name outside the
    prefixes that its token may write or delete in, and no byte of a file all of whose
    names are outside; a file that is there is served; and what was put is what is read. *)

From Stdlib Require Import Strings.Ascii.
From S2P Require Import Prelude GoStrings PathUtil Json JsonStruct SemanticQueue FileGCQueue FileStore FileRules FileSafety.
From S2P Require Import Media Backend BackendSafety BackendContent Uploads UploadSafety FileGCWorker ObjectSafety UploadObjects.
From S2P Require Import BackendPlans StoreHistory Namespace PlanProps EventBus FsAuth FileRequests FileServer Confine FileServerProps.

Import GoStr Paths FileStore FileRules FileSafety Media Backend Content Uploads UploadSafety ObjectSafety.
Import Plans StoreHistory Namespace PlanProps FsAuth FileReq FileServer Confine FileServerProps.

Module ScopeProps.

#[local] Arguments String.append !_ _ / : simpl nomatch.

Section props.
Context (nfc typeByExtension toLower : string -> string) (cfg : config) (maxUpload : Z) (dateOK : string -> bool).

Abbreviation perform := (StoreHistory.perform nfc typeByExtension toLower cfg).
Abbreviation step := (StoreHistory.step nfc typeByExtension toLower cfg).
Abbreviation reachable := (StoreHistory.reachable nfc typeByExtension toLower cfg).
Abbreviation handle := (handleBusiness nfc typeByExtension toLower cfg maxUpload dateOK).

(** ** Requests are steps *)

(** The identifiers that a request can draw are new. *)
Definition newIDs (w : world) (e : renv) : Prop := Forall (fun k => k <> "" /\ k ∉ drawn w) (fresh e).

(** A request takes the server along a step of the backend's history, or not at all. *)
Lemma served w sc s e r res :
  backendOf s = be w -> newIDs w e -> handle sc s e r = Some res ->
  exists w', rtc step w w' /\ be w' = backendOf (fst res).
Proof.
  intros Hb Hn Hh. destruct (handleBusiness_calls _ _ _ _ _ _ _ _ _ _ _ Hh) as [E|(t & c & _ & _ & Hd & _ & _ & E)].
  - exists w. split; [apply rtc_refl|]. by rewrite E.
  - eexists. split; [apply rtc_once, (step_call _ _ _ _ c w)|cbn; by rewrite E, Hb].
    apply Forall_forall. intros k Hk. unfold newIDs in Hn. rewrite Forall_forall in Hn. apply Hn. by apply Hd.
Qed.

(** ** Confinement *)

Section confinement.
Context (nfc_slash : forall s, HasSuffix (nfc s) "/" = HasSuffix s "/").
#[local] Set Default Proof Using "Type*".

(** The targets of uploads are canonical. *)
Definition settled (d : db) : Prop :=
  forall k u, GetUpload d k = inl u -> normalizeFSAuthorizationPath nfc (TargetPath u) = inl (TargetPath u)
    /\ Canonicalize nfc (TargetPath u) = inl (TargetPath u).

(** A path without wildcards. *)
Definition plainly (p : string) : Prop := forall c, Canonicalize nfc p = inl c -> plain c = true.

(** A call whose paths are inside of [C] keeps what is outside. *)
Lemma perform_kept C used b c :
  filesOk (store b) -> bytesSafe used b -> Forall (fun k => k ∉ used) (draws c) -> ownerOnly c = false -> settled (store b) ->
  Forall (fun x => fst x = FSOpRead \/ exists q, callOn nfc C b (snd x) q) (demands (store b) c) ->
  Forall plainly (trees c) ->
  kept C (foreign C (store b)) b (perform c b).
Proof.
  intros H Hb Hd Ho Hset Hon Htr. pose proof (fun g => foreign_content C b g) as HG.
  pose proof (fun k => foreign_fresh C used b k Hb) as Hfresh.
  assert (forall e k tags u, Forall (fun x => fst x = FSOpRead \/ exists q, callOn nfc C b (snd x) q)
      (match GetUpload (store b) k with inl u => [(FSOpWrite, TargetPath u)] | inr _ => [] end) ->
    GetUpload (store b) k = inl u -> UStatus u = UploadUploading ->
    kept C (foreign C (store b)) b (fst (finalizeUpload typeByExtension toLower cfg b e u tags))) as Hfin.
  { intros e k tags u Hx Hu Hst. rewrite Hu in Hx. apply Forall_cons in Hx as [[E|[q Hq]] _]; [done|]. cbn in Hq.
    destruct (GetUpload_key _ _ _ H Hu) as [Hrow _]. destruct (Hset k u Hu) as [_ Ec].
    assert (isActive u = true) as Ha by (unfold isActive; by rewrite Hst).
    pose proof (on_path _ _ _ _ _ Hq) as Eq. rewrite Ec in Eq. injection Eq as <-.
    pose proof (canonical_inside nfc C nfc_slash b _ _ Hq) as HC.
    apply finalizeUpload_kept; try done;
      [intros f; by apply foreign_unnamed|by apply foreign_pending|by apply (foreign_key C used)]. }
  destruct c; cbn in Hd, Hon, Ho, Htr |- *;
    repeat match type of Hd with Forall _ (_ :: _) => apply Forall_cons in Hd as [? Hd] end; try discriminate Ho.
  all: repeat match type of Hon with
    | Forall _ ((FSOpRead, _) :: _) => apply Forall_cons in Hon as [_ Hon]
    | Forall _ (_ :: _) => apply Forall_cons in Hon as [[?|[? ?]] Hon]; [done|]
    end.
  - by eapply CreateCtx_kept; eauto.
  - apply MkdirCtx_kept.
  - by eapply RemoveCtx_kept.
  - by eapply RemoveFileCtx_kept.
  - by eapply RemoveDirCtx_kept.
  - apply Forall_cons in Htr as [Htr _]. eapply RemoveAllCtx_kept; [done|done|]. by eapply Htr, on_path.
  - apply Forall_cons in Htr as [Htr _]. eapply RenameCtx_kept; [done|done| |done]. by eapply Htr, on_path.
  - eapply CopyFileCtx_kept. intros c Hc. match goal with Hx : callOn _ _ _ _ _ |- _ =>
      pose proof (canonical_inside nfc C nfc_slash _ _ _ Hx); pose proof (on_path _ _ _ _ _ Hx) end. cbn in *. congruence.
  - eapply WriteCtx_kept; eauto. intros f. apply foreign_unnamed. by eapply canonical_inside.
  - apply InitiateUpload_kept.
  - apply InitiateUploadV2_kept.
  - apply PresignPart_kept.
  - apply PresignParts_kept.
  - apply ResumeUpload_kept.
  - apply ConfirmUpload_kept; try done. intros u. by apply (Hfin _ k).
  - apply ConfirmUploadV2_kept; try done. intros u. by apply (Hfin _ k).
  - apply AbortUpload_kept.
  - apply AbortUploadV2_kept.
  - apply patch_kept.
  - apply patch_kept.
Qed.


(** Where a token may change names. *)
Definition mayChange (l : list FSScope) (q : string) : bool :=
  existsb (fun x => (bool_decide (FSOpWrite ∈ Ops x) || bool_decide (FSOpDelete ∈ Ops x)) && pathMatchesScope (Prefix x) q) l.

Lemma scope_within prefix c q :
  prefix <> "" -> pathMatchesScope prefix c = true -> within c q -> pathMatchesScope prefix q = true.
Proof.
  unfold within, pathMatchesScope. intros Hne H1 H2. destruct (bool_decide_reflect (prefix = "/")); [done|]. cbn in H1 |- *.
  apply orb_true_iff in H1 as [->%bool_decide_eq_true|H1].
  - by rewrite bool_decide_false in H2.
  - apply HasPrefix_spec in H1 as [x ->]. rewrite (bool_decide_false (_ = "/")) in H2 by
      (destruct prefix as [|a [|a' prefix]]; [done|discriminate|discriminate]). cbn in H2.
    apply orb_true_iff in H2 as [->%bool_decide_eq_true|[y ->]%HasPrefix_spec].
    + by rewrite HasPrefix_self, orb_true_r.
    + rewrite <- !string_app_assoc, (string_app_assoc prefix), HasPrefix_self. by rewrite orb_true_r.
Qed.

(** A path that is authorized by its canonical form is inside of the scopes. *)
Lemma authorized_on l op p b :
  Forall (fun x => Prefix x <> "") l -> op = FSOpWrite \/ op = FSOpDelete -> AuthorizeFS nfc (Some l) op p = None ->
  Canonicalize nfc p = normalizeFSAuthorizationPath nfc p -> slashed (store b) ->
  exists c, callOn nfc (fun q => mayChange l q = true) b p c.
Proof.
  intros Hl Hop Ha Hc Hs. unfold AuthorizeFS in Ha. rewrite <- Hc in Ha. destruct (Canonicalize nfc p) as [c|] eqn:E; [|done].
  destruct (existsb _ l) eqn:Ex; [|done]. apply existsb_exists in Ex as (x & Hx & Hall). exists c. split; [done| |done].
  intros q Hq. apply existsb_exists. exists x. split; [done|]. rewrite Forall_forall in Hl.
  assert (Prefix x <> "") as Hp by (apply Hl; by apply list_elem_of_In). unfold scopeAllows in Hall.
  destruct (bool_decide (op = FSOpSearch) && _); [done|]. destruct (bool_decide_reflect (op ∈ Ops x)) as [Hin|]; [|done]. cbn in Hall.
  rewrite (scope_within (Prefix x) c q Hp Hall Hq), andb_true_r. apply orb_true_iff. rewrite !bool_decide_eq_true.
  destruct Hop as [-> | ->]; auto.
Qed.

Lemma demanded_ops d c : Forall (fun x => fst x = FSOpRead \/ fst x = FSOpWrite \/ fst x = FSOpDelete) (demands d c).
Proof. destruct c; cbn; try destruct (GetUpload d k); repeat apply Forall_cons_2; try apply Forall_nil_2; cbn; auto. Qed.

(** A path that authorization reads as the backend does. *)
Definition uncut (p : string) : Prop := HasPrefix p ":" = false.

Lemma uncut_same p : uncut p -> Canonicalize nfc p = normalizeFSAuthorizationPath nfc p.
Proof.
  unfold uncut, HasPrefix, normalizeFSAuthorizationPath, TrimPrefix. destruct (CutPrefix p ":"); [done|]. done.
Qed.

(** C3: a token is confined to its scopes, in every history.  Whatever request a token
    with scopes makes, with whatever answer: the names outside the prefixes in which the
    token may write or delete lead to the same files as before, and every file all of
    whose names are outside keeps its bytes.  (For requests whose paths do not begin with
    a colon; a path below which a whole tree is removed or renamed has no wildcard of a
    database pattern in it; directories have paths that end with a slash, and the targets
    of uploads are canonical.) *)
Theorem scoped_confined legacy w t l s e r res :
  reachable legacy w -> backendOf s = be w -> newIDs w e -> limits t = Some l -> Forall (fun x => Prefix x <> "") l ->
  Forall uncut (asked e r) -> Forall plainly (askedTrees r) -> slashed (store (be w)) -> settled (store (be w)) ->
  handle (Some t) s e r = Some res ->
  let b' := backendOf (fst res) in
  (forall q f, mayChange l q = false -> leads (store b') q f <-> leads (store (be w)) q f)
  /\ (forall f, live (store (be w)) f -> (forall q, leads (store (be w)) q f -> mayChange l q = false) ->
        fileData cfg b' f = fileData cfg (be w) f).
Proof.
  intros Hr Hs Hn Hlim Hl Hu Hp Hsl Hset Hh b'. destruct (reachable_ok _ _ _ _ _ _ Hr) as [Hf Hb _ _].
  destruct (handleBusiness_calls _ _ _ _ _ _ _ _ _ _ _ Hh) as [E|(t' & c & [= <-] & [Hown Hg] & Hd & Ha & Ht & E)];
    [subst b'; by rewrite E, Hs|].
  set (C := fun q => mayChange l q = true).
  assert (kept C (foreign C (store (be w))) (be w) b') as [Hk Ho].
  { subst b'. rewrite E, Hs in *. apply (perform_kept C (drawn w)); try done.
    - apply Forall_forall. intros k Hk. unfold newIDs in Hn. rewrite Forall_forall in Hn. by apply Hn, Hd.
    - destruct (ownerOnly c); [|done]. by rewrite Hown in Hlim.
    - rewrite Forall_forall in Hg, Ha |- *. intros x Hx. destruct (proj1 (Forall_forall _ _) (demanded_ops _ c) x Hx) as [|Hop]; [by left|].
      right. rewrite Hlim in Hg. apply (authorized_on l (fst x)); [done|done|by apply Hg| |done].
      destruct (Ha x Hx) as [Er|[Hin|(k & u & Hk & ->)]].
      + destruct Hop; congruence.
      + apply uncut_same. rewrite Forall_forall in Hu. by apply Hu.
      + destruct (Hset k u Hk). congruence.
    - rewrite Forall_forall in Hp |- *. intros p Hin. by apply Hp, Ht. }
  split.
  - intros q f Hq. apply Hk. unfold C. congruence.
  - intros f Hlive Hnames. apply (kept_data cfg C (foreign C (store (be w)))); [done| |].
    + split; [done|]. intros q Hlq. unfold C. rewrite (Hnames q Hlq). done.
    + destruct Hlive as (i & c0 & _ & Hc0 & _). by exists c0.
Qed.

End confinement.

(** ** Reading and writing *)

(** The client gets the bytes, or is sent to an object that holds them. *)
Definition serves (b : backend) (res : response) (data : string) : Prop :=
  (code_ res = 200 /\ answer res = Bytes data)
  \/ (code_ res = 302 /\ exists key, answer res = RedirectTo key /\ objects b !! key = Some data).

(** A plain GET or PUT of a path. *)
Definition isFS (method : string) (r : request) (p : string) : Prop :=
  Method r = method /\ HasPrefix (URLPath r) "/v1/fs/" = true /\ fsPath r = p /\ Query r = [].

(** A plain file request gets to the handlers. *)
Lemma routed m r p sc s e :
  m = "GET" \/ m = "PUT" -> isFS m r p ->
  handle sc s e r = Some (handleFS nfc typeByExtension toLower cfg maxUpload dateOK sc s e r).
Proof.
  intros Hm (Em & Hp & _ & Eq). unfold handleBusiness.
  assert (isScopedBusinessRequestAllowed r = true) as ->.
  { unfold isScopedBusinessRequestAllowed. rewrite Em, Hp, Eq. assert (URLPath r <> "/v1/fs:batch-stat" /\ URLPath r <> "/v1/fs:batch-read-small") as [N1 N2].
    { apply HasPrefix_spec in Hp as [x ->]. split; discriminate. }
    rewrite (bool_decide_false (URLPath r = _)), (bool_decide_false (URLPath r = _)) by done.
    by destruct Hm as [-> | ->]. }
  rewrite andb_false_r, Hp. apply HasPrefix_spec in Hp as [x ->]. done.
Qed.

(** A file that has a name is served. *)
Lemma read_serves legacy w t s e r p q f :
  reachable legacy w -> s3 cfg = true -> backendOf s = be w -> hasBackend t = true -> presignGet e = true ->
  isFS "GET" r p -> AuthorizeFS nfc (limits t) FSOpRead p = None -> Canonicalize nfc p = inl q -> fileAt (store (be w)) q = Some f ->
  exists data res, handle (Some t) s e r = Some (s, res) /\ ReadCtx nfc cfg (be w) p 0 (-1) = inl data /\ serves (be w) res data.
Proof.
  intros Hr Hs3 Hb Ht He Hget Ha Hp Hat. rewrite (routed "GET" r p) by auto. destruct Hget as (Em & _ & Ep & Eq).
  destruct (fileAt_node _ _ _ Hat) as (id & row & Hn & Hf). destruct (reachable_ok _ _ _ _ _ _ Hr) as [H _ _ _].
  pose proof (nodeAt_spec _ _ _ _ Hn) as [Hrow _]. pose proof (nodes_ok _ _ H id row Hrow) as Hok.
  pose proof (file_not_dir _ _ _ Hok Hf) as Hd. destruct (proj2 Hok f Hf) as [_ Hl].
  pose proof (plan_agrees nfc cfg (be w) p q id row f H Hp Hn Hf (or_introl (reachable_bare _ _ _ _ _ _ Hr id row Hrow Hd))) as Hplan.
  destruct (live_data nfc typeByExtension toLower cfg legacy w f Hr Hs3 Hl) as [data Hdata].
  rewrite <- (ReadCtx_whole nfc cfg (be w) p q id row f) in Hdata by done.
  unfold handleFS. cbv zeta. fold (fsPath r). rewrite Em, Eq, Ep. cbn. unfold handleRead, authorizeFS, withBackend.
  rewrite Ha, He, Hb. destruct t as [lim []]; [|done]. exists data.
  destruct (ReadPlanCtx nfc cfg (store (be w)) true p) as [plan|err]; [|congruence]. destruct Hplan as (E & _).
  rewrite Hdata in E. destruct (source plan) as [inl_|key]; cbn in E.
  - injection E as ->. eexists. split_and!; [done|done|]. by left.
  - eexists. split_and!; [done|done|]. right. split; [done|]. exists key. split; [done|].
    destruct (objects (be w) !! key); [|done]. by injection E as ->.
Qed.

(** C20: in every history, with object storage configured and links signed, a GET by a token that may read
    there of a path that names a file is answered with the bytes of the file or with a
    redirect to an object that holds them, and they are the bytes that the backend reads;
    the server is left as it was. *)
Theorem get_serves legacy w t s e r p q id row :
  reachable legacy w -> s3 cfg = true -> backendOf s = be w -> hasBackend t = true -> presignGet e = true ->
  isFS "GET" r p -> AuthorizeFS nfc (limits t) FSOpRead p = None -> Canonicalize nfc p = inl q ->
  nodeAt (store (be w)) q = Some (id, row) -> is_directory row = false ->
  exists data res, handle (Some t) s e r = Some (s, res) /\ ReadCtx nfc cfg (be w) p 0 (-1) = inl data /\ serves (be w) res data.
Proof.
  intros Hr Hs3 Hb Ht He Hget Ha Hp Hn Hd. destruct (reachable_ok _ _ _ _ _ _ Hr) as [H _ _ _].
  pose proof (nodeAt_spec _ _ _ _ Hn) as [Hrow _]. destruct (nodes_ok _ _ H id row Hrow) as [Hdir _].
  destruct (file_id row) as [f|] eqn:Hf; [|by rewrite (proj2 Hdir eq_refl) in Hd].
  apply (read_serves legacy w t s e r p q f); try done. unfold fileAt. by rewrite Hn.
Qed.

(** A put that is answered with a revision has written. *)
Lemma put_accepted sc s e r p s' rev :
  handleWrite nfc typeByExtension toLower cfg maxUpload sc s e r p = (s', {| code_ := 200; answer := Revised rev |}) ->
  exists x tags descr n, WriteCtx nfc typeByExtension toLower cfg (backendOf s) (envOf e) p (Body r) 0 putFlags x tags descr
    = (backendOf s', inl (n, rev)).
Proof.
  unfold handleWrite, authorizeFS, withBackend. destruct sc as [[lim hb]|]; [|done]. cbn [limits].
  destruct (AuthorizeFS nfc lim FSOpWrite p) as [[]|]; [done|done|]. destruct hb; [|done].
  destruct (parseExpectedRevisionHeader _) as [x|]; [|done]. destruct (parseWriteTagsHeader r) as [tags|]; [|done].
  destruct (declaredLength r) as [cl|]; [|done]. case_if; [done|]. case_if.
  - unfold largeWrite. case_if; [done|]. destruct (parsePartChecksumsHeader _) as [[|c0 cs]|]; [done| |done]. case_if; [done|].
    destruct (InitiateUpload _ _ _ _ _ _ _ _ _) as [b' [u|err]]; [done|]. unfold initiateFailed. repeat (case_match; try done).
  - unfold smallWrite. case_if; [done|]. case_if; [done|].
    destruct (WriteCtx _ _ _ _ _ _ _ _ _ _ _ _ _) as [b' [[n rv]|err]] eqn:Hw; [|by repeat case_if].
    intros [= <- <-]. exists x, tags, (hGet r "X-Dat9-Description"), n. exact Hw.
Qed.

(** What it has written. *)
Lemma put_wrote legacy w sc s e r p q s' rev :
  reachable legacy w -> s3 cfg = true -> backendOf s = be w -> newIDs w e -> isFS "PUT" r p -> Canonicalize nfc p = inl q ->
  handle sc s e r = Some (s', {| code_ := 200; answer := Revised rev |}) ->
  exists f, fileAt (store (backendOf s')) q = Some f /\ ReadCtx nfc cfg (backendOf s') p 0 (-1) = inl (Body r).
Proof.
  intros Hr Hs3 Hb Hn Hput Hp Hh. rewrite (routed "PUT" r p) in Hh by auto. destruct Hput as (Em & _ & Ep & Eq).
  destruct (reachable_ok _ _ _ _ _ _ Hr) as [H _ _ _]. unfold handleFS in Hh. cbv zeta in Hh. fold (fsPath r) in Hh.
  rewrite Em, Ep in Hh. injection Hh as Hh. destruct (put_accepted _ _ _ _ _ _ _ Hh) as (x & tags & descr & n & Hw).
  rewrite Hb in Hw. apply Forall_cons in Hn as [[Hne _] _].
  destruct (WriteCtx_reads nfc _ _ _ _ _ _ _ _ _ _ _ _ _ _ _ _ H Hne Hp Hw) as (_ & f & final & Hat & Hm & Hread & _).
  exists f. split; [done|]. rewrite (Hread p q Hp Hat). f_equal.
  destruct (fileAt (store (be w)) q) as [g|] eqn:Hg; [|by destruct Hm as (_ & _ & _ & _ & ->)].
  destruct Hm as (_ & _ & _ & _ & _ & Hwr). destruct (fileAt_node _ _ _ Hg) as (id & row & Hnode & Hf).
  pose proof (nodeAt_spec _ _ _ _ Hnode) as [Hrow _]. destruct (proj2 (nodes_ok _ _ H id row Hrow) g Hf) as [_ Hl].
  destruct (live_data nfc typeByExtension toLower cfg legacy w g Hr Hs3 Hl) as [old Hold].
  rewrite <- (ReadCtx_whole nfc cfg (be w) p q id row g) in Hold by done. exact (Hwr old Hold).
Qed.

(** C4: what is put is what is read, in every history with object storage configured
    (signing a link succeeds).
    After a PUT that was answered with a revision, a GET of the path by any token that may
    read there is answered with exactly the bytes of the PUT, or with a redirect to an
    object that holds them. *)
Theorem served_as_put legacy w sc s e r p q s' rev t e' g :
  reachable legacy w -> s3 cfg = true -> backendOf s = be w -> newIDs w e -> isFS "PUT" r p -> Canonicalize nfc p = inl q ->
  handle sc s e r = Some (s', {| code_ := 200; answer := Revised rev |}) ->
  isFS "GET" g p -> hasBackend t = true -> presignGet e' = true -> AuthorizeFS nfc (limits t) FSOpRead p = None ->
  exists res, handle (Some t) s' e' g = Some (s', res) /\ serves (backendOf s') res (Body r).
Proof.
  intros Hr Hs3 Hb Hn Hput Hp Hh Hget Ht He Ha.
  destruct (put_wrote legacy w sc s e r p q s' rev Hr Hs3 Hb Hn Hput Hp Hh) as (f & Hat & Hread).
  destruct (served w sc s e r _ Hb Hn Hh) as (w' & Hw' & Eb). cbn [fst] in Eb. rewrite <- Eb in Hat, Hread |- *.
  assert (reachable legacy w') as Hr' by (unfold StoreHistory.reachable in *; by transitivity w).
  destruct (read_serves legacy w' t s' e' g p q f Hr' Hs3 ltac:(done) Ht He Hget Ha Hp Hat) as (data & res & Hres & Hdata & Hserve).
  exists res. split; [done|]. congruence.
Qed.

End props.

(** ** A concrete exchange *)

Definition scopeEnv (n : string) (t : Z) : renv :=
  {| env_ := planPenv n t; newInodeID := "i" +:+ n; presignGet := true; cutOff := false; searchResult := None |}.
Definition fsRequest (method p body : string) : request :=
  {| Method := method; URLPath := "/v1/fs" +:+ p; Query := []; Headers := []; ContentLength := slen body; Body := body |}.
Definition anyDate (s : string) : bool := true.

(** A token for the files below [/t], and one of the owner. *)
Definition writerScopes : list FSScope := [{| Prefix := "/t"; Ops := [FSOpRead; FSOpWrite] |}].
Definition writer : tscope := {| limits := Some writerScopes; hasBackend := true |}.
Definition owner : tscope := {| limits := None; hasBackend := true |}.

Definition scope1 : srv := {| backendOf := be plan1; busOf := EventBus.NewEventBus |}.
Abbreviation demoHandle := (handleBusiness idStr noType idStr demoConfig 1000 anyDate).
Definition scope2 : srv := Eval vm_compute in
  match demoHandle (Some writer) scope1 (scopeEnv "9" 9) (fsRequest "PUT" "/t/x" "new") with
  | Some (s, _) => s
  | None => scope1
  end.

Lemma scope2_answer :
  demoHandle (Some writer) scope1 (scopeEnv "9" 9) (fsRequest "PUT" "/t/x" "new")
  = Some (scope2, {| code_ := 200; answer := Revised 1 |}).
Proof. vm_compute. reflexivity. Qed.

Lemma plan1_slashed : slashed (store (be plan1)).
Proof.
  apply (bool_decide_eq_true_1 (map_Forall (fun _ r => is_directory r = true -> HasSuffix (path r) "/" = true)
    (file_nodes (store (be plan1))))). vm_compute. reflexivity.
Qed.

Lemma plan1_settled : settled idStr (store (be plan1)).
Proof.
  intros k u. assert (uploads (store (be plan1)) = ∅) as E by (vm_compute; reflexivity). unfold GetUpload.
  by rewrite E, lookup_empty.
Qed.

Lemma plan1_newIDs : newIDs plan1 (scopeEnv "9" 9).
Proof.
  apply (bool_decide_eq_true_1 (Forall (fun k => k <> "" /\ k ∉ drawn plan1) (fresh (scopeEnv "9" 9)))). vm_compute. reflexivity.
Qed.

Lemma plainly_value p c : Canonicalize idStr p = inl c -> plain c = true -> plainly idStr p.
Proof. intros E Hc c'. rewrite E. by intros [= <-]. Qed.

Lemma scoped_confined_witness :
  (forall f, leads (store (backendOf scope2)) "/d/a" f <-> leads (store (be plan1)) "/d/a" f)
  /\ exists f, leads (store (be plan1)) "/d/a" f /\ fileData demoConfig (backendOf scope2) f = inl "hello world".
Proof.
  pose proof (scoped_confined idStr noType idStr demoConfig 1000 anyDate (fun _ => eq_refl) true plan1 writer writerScopes scope1
    (scopeEnv "9" 9) (fsRequest "PUT" "/t/x" "new") (scope2, {| code_ := 200; answer := Revised 1 |}) plan1_reachable eq_refl plan1_newIDs eq_refl) as H.
  specialize (H ltac:(apply Forall_cons_2; [done|apply Forall_nil_2])
    ltac:(apply Forall_cons_2; [reflexivity|apply Forall_cons_2; [reflexivity|apply Forall_nil_2]])
    ltac:(apply Forall_cons_2; [exact (plainly_value "" "/" eq_refl eq_refl)|apply Forall_nil_2])
    plan1_slashed plan1_settled scope2_answer). cbn [fst] in H. destruct H as [Hn Hd]. split.
  - intros f. apply Hn. vm_compute. reflexivity.
  - exists "f1". assert (fileAt (store (be plan1)) "/d/a" = Some "f1") as Ef by (vm_compute; reflexivity).
    apply fileAt_node in Ef as (id & r & [Hr Hp]%nodeAt_spec & Hf). split; [by exists id, r|].
    rewrite Hd; [vm_compute; reflexivity| |].
    + destruct (reachable_ok _ _ _ _ _ _ plan1_reachable) as [H _ _ _]. by apply (proj2 (nodes_ok _ _ H id r Hr)).
    + intros q (id' & r' & Hr' & Hp' & Hf').
      assert (map_Forall (fun _ row => file_id row = Some "f1" -> mayChange writerScopes (path row) = false)
        (file_nodes (store (be plan1)))) as Hall by (apply (bool_decide_eq_true_1 (map_Forall _ _)); vm_compute; reflexivity).
      rewrite <- Hp'. by apply (Hall id').
Defined.

Lemma get_serves_witness :
  exists data res, demoHandle (Some owner) scope1 (scopeEnv "9" 9) (fsRequest "GET" "/d/a" "") = Some (scope1, res)
    /\ ReadCtx idStr demoConfig (be plan1) "/d/a" 0 (-1) = inl data /\ serves (be plan1) res data.
Proof.
  destruct (nodeAt (store (be plan1)) "/d/a") as [[id r]|] eqn:En; [|vm_compute in En; discriminate En].
  apply (get_serves idStr noType idStr demoConfig 1000 anyDate true plan1 owner scope1 (scopeEnv "9" 9)
    (fsRequest "GET" "/d/a" "") "/d/a" "/d/a" id r plan1_reachable eq_refl eq_refl eq_refl eq_refl);
    [split_and!; reflexivity|reflexivity|reflexivity|exact En|vm_compute in En; injection En as <- <-; reflexivity].
Defined.

Lemma served_as_put_witness :
  exists res, demoHandle (Some owner) scope2 (scopeEnv "10" 10) (fsRequest "GET" "/t/x" "") = Some (scope2, res)
    /\ serves (backendOf scope2) res "new".
Proof.
  apply (served_as_put idStr noType idStr demoConfig 1000 anyDate true plan1 (Some writer) scope1 (scopeEnv "9" 9)
    (fsRequest "PUT" "/t/x" "new") "/t/x" "/t/x" scope2 1 owner (scopeEnv "10" 10) (fsRequest "GET" "/t/x" "")
    plan1_reachable eq_refl eq_refl plan1_newIDs);
    [split_and!; reflexivity|reflexivity|exact scope2_answer|split_and!; reflexivity|reflexivity|reflexivity|reflexivity].
Defined.

(** ** Where confinement ends *)

(** The state and the answers after a list of requests, each with its token. *)
Fixpoint serve (n : string) (rs : list (tscope * request)) (s : srv) : srv * list Z :=
  match rs with
  | [] => (s, [])
  | (t, r) :: rs =>
      match demoHandle (Some t) s (scopeEnv n 10) r with
      | None => (s, [])
      | Some (s', res) => let '(s'', codes) := serve (n +:+ "i") rs s' in (s'', code_ res :: codes)
      end
  end.

Definition withHeader (k v : string) (q : list (string * string)) (r : request) : request :=
  {| Method := Method r; URLPath := URLPath r; Query := q; Headers := (k, v) :: Headers r; ContentLength := ContentLength r;
     Body := Body r |}.
Definition readData (p : string) (s : srv) : string + backendError := ReadCtx idStr demoConfig (backendOf s) p 0 (-1).

(** A copy is another name of the same file: a token that may read [/d] and write [/t],
    but not write [/d], copies the file to [/t] and then changes it under both names. *)
Definition reader : tscope :=
  {| limits := Some [{| Prefix := "/d"; Ops := [FSOpRead] |}; {| Prefix := "/t"; Ops := [FSOpWrite] |}]; hasBackend := true |}.

Lemma copy_reaches_source :
  let '(s, codes) := serve "i" [(reader, fsRequest "PUT" "/d/a" "bad");
                              (reader, withHeader "X-Dat9-Copy-Source" "/d/a" [("copy", "")] (fsRequest "POST" "/t/b" ""));
                              (reader, fsRequest "PUT" "/t/b" "bad")] scope1 in
  codes = [403; 200; 200] /\ readData "/d/a" s = inl "bad".
Proof. vm_compute. done. Qed.

(** A token that may delete below [/a_b] removes a tree outside of it. *)
Definition cleaner : tscope := {| limits := Some [{| Prefix := "/a_b"; Ops := [FSOpDelete] |}]; hasBackend := true |}.
Definition recursive (r : request) : request :=
  {| Method := Method r; URLPath := URLPath r; Query := [("recursive", "")]; Headers := Headers r;
     ContentLength := ContentLength r; Body := Body r |}.

Lemma wildcard_leaves_scope :
  let '(s, codes) := serve "i" [(owner, fsRequest "PUT" "/a_b/x" "own"); (owner, fsRequest "PUT" "/axb/y" "own");
                              (cleaner, recursive (fsRequest "DELETE" "/axb" ""));
                              (cleaner, recursive (fsRequest "DELETE" "/a_b" ""))] scope1 in
  codes = [200; 200; 403; 200] /\ readData "/axb/y" s = inr (Store ErrNotFound).
Proof. vm_compute. done. Qed.

(** A colon in front of a path is dropped for authorization only: the token for [/t]
    renames to [/t/b] a file that is not below [/t]. *)
Definition mover : tscope := {| limits := Some [{| Prefix := "/t"; Ops := [FSOpDelete; FSOpWrite] |}]; hasBackend := true |}.

Lemma colon_leaves_scope :
  let '(s, codes) := serve "i" [(owner, fsRequest "PUT" "/:t/a" "own");
                              (mover, withHeader "X-Dat9-Rename-Source" "/:t/a" [("rename", "")] (fsRequest "POST" "/t/b" ""));
                              (mover, withHeader "X-Dat9-Rename-Source" ":t/a" [("rename", "")] (fsRequest "POST" "/t/b" ""))] scope1 in
  codes = [200; 403; 200] /\ readData "/t/b" s = inl "own" /\ readData "/:t/a" s = inr (Store ErrNotFound).
Proof. vm_compute. done. Qed.

(** A file that is renamed to a path with a slash at the end is lost: the name is that of
    a directory, which no read of a file asks for. *)
Lemma rename_to_slash :
  let '(s, codes) := serve "i" [(owner, withHeader "X-Dat9-Rename-Source" "/d/a" [("rename", "")] (fsRequest "POST" "/d/b/" ""));
                              (owner, fsRequest "GET" "/d/b/" ""); (owner, fsRequest "GET" "/d/b" "")] scope1 in
  codes = [200; 404; 404] /\ leads (store (backendOf s)) "/d/b/" "f1".
Proof.
  set (r := serve _ _ _). assert (snd r = [200; 404; 404] /\ fileAt (store (backendOf (fst r))) "/d/b/" = Some "f1") as [Hc Hf]
    by (vm_compute; done).
  destruct r as [s codes]. split; [exact Hc|]. apply fileAt_node in Hf as (id & row & [Hr Hp]%nodeAt_spec & Hf). by exists id, row.
Qed.

End ScopeProps.
